(* ===== verification/_CoqProject ===== *)
-Q . S2P
Prelude.v
Varint.v
Lsn.v
CTag.v
Uuid.v
WrSerializer.v
Serializer.v
Variant.v
VariantTyping.v
WalRecord.v
WalTracker.v
Raft.v
LruCache.v
CBuf.v
Gallop.v
Ranges.v
Sharding.v
TagsPathCache.v
TagsMatcher.v
ReplVotes.v
UpdatesQueue.v
UpdatesQueueInv.v
UpdatesQueueSys.v
ExpressionTree.v
ExpressionForest.v
ExpressionBuild.v
QueryEntries.v
QueryReduce.v
QueryBinary.v
QueryFormat.v
QueryRoundTrip.v
HVector.v
ExtendibleMap.v
ExtendibleMapSpec.v
ExtendibleMapOps.v
ExtendibleMapStats.v
IdSet.v
Heap.v
SelectKey.v
SelectMerge.v
SelectIter.v
SelectLoop.v
IndexList.v
Ordinator.v
OrdinatorSpec.v
OrdinatorOps.v
WaitersQueue.v
Channel.v
ChannelSpec.v
ChannelRefine.v
ChannelRun.v
ChannelScheduler.v
