(* ===== verification/Prelude.v ===== *)
(** * A verification library for the core of Reindexer

    Reindexer is an in-memory document database in C++. A namespace holds items and indexes; a
    query is a tree of conditions, which is simplified, turned into iterators over sorted sets of
    row ids, and evaluated in a loop over the rows. Every change is a record of a write-ahead log
    (WAL) and an update in a replication queue that the threads of the cluster read. Items and
    messages travel in a binary format whose field names are numbers of a dictionary.

    This library models parts of [src/cpp_src] in Gallina and proves them correct. Definitions
    keep the names of the code; every file opens with a comment that names its sources.

    ** Files

    - [Prelude]: errors and the [result] monad ([Throw c] is a thrown [Error], [AssertFail] a
      failed [assertrx] or [abort], [Undefined] undefined behaviour, [OutOfFuel] never a behaviour
      of the code), the state monad [M], lists indexed by [Z], machine words, tactics and hints.
    - Binary format. [Varint] ([tools/varint.h]), [WrSerializer] and [Serializer]
      ([tools/serilize/]), [Variant] ([core/keyvalue/]) for values and [VariantTyping] for what is
      read from any bytes, [Uuid], [Lsn] ([tools/lsn.h]), [CTag] ([core/cjson/ctag.h]). The class [Serializer.RoundTrip] is what a writer and a reader
      promise to the formats that are built from them: [WalRecord], [Variant], [TagsMatcher].
    - Write-ahead log. [WalRecord] ([wal/walrecord.cc]) packs records; [WalTracker]
      ([wal/waltracker.cc]) keeps them in a ring addressed by [Lsn]s.
    - Replication and cluster. [ReplVotes], [UpdatesQueue], [UpdatesQueueInv], [UpdatesQueueSys]
      ([updates/updatesqueue.h]): the votes for an update, the queue of chunks, its refinement of
      the window of a log, and the system of all threads. [Raft] ([cluster/raftmanager.cc]):
      elections. [Ranges] and [Sharding] ([cluster/sharding/], [cluster/config.cc],
      [core/shardingproxy.cc]): keys and shards.
    - Dictionary. [TagsPathCache] and [TagsMatcher] ([core/cjson/tagspathcache.h],
      [tagsmatcherimpl.cc]).
    - Containers. [LruCache] ([core/lrucache.cc]), [CBuf] ([estl/cbuf.h]), [HVector]
      ([estl/h_vector.h]), [Heap] ([estl/heapify.h]), [Gallop] ([tools/gallop_search.h]).
    - Conditions of a query. [ExpressionTree] ([core/expressiontree.h]) is the vector of nodes;
      [ExpressionForest] gives the forest that it stands for, [ExpressionBuild] the theorems on
      building and editing. [QueryEntries] ([core/query/queryentry.cc]) are the conditions in such
      a tree, and [QueryReduce] ([core/nsselecter/querypreprocessor.cc]) simplifies them.
    - Queries on the wire. [QueryBinary] ([core/query/query.cc], [queryentry.cc],
      [knn_search_params.cc], [fields_names_filter.h]) writes and reads a whole query with the
      values of [Variant] and the conditions of [QueryEntries]; [QueryFormat] gives the bytes of
      the format, and [QueryRoundTrip] shows that the writer makes them and the reader undoes it.
    - Hash indexes. [ExtendibleMap] ([estl/extendible_hash_map.h]) is the map in parts that split
      and join; [ExtendibleMapSpec] shows that it represents a finite map, [ExtendibleMapOps] that
      its operations and iterators are those of one, and [ExtendibleMapStats] that its shape can
      be saved and restored.
    - Sets of row ids and their iteration. [IdSet] ([core/idset/], [core/index/keyentry.h]);
      [SelectKey] and [SelectMerge] ([core/selectkeyresult.h]) are the results that an index gives
      for a key; [SelectIter] ([core/nsselecter/selectiterator.h]) is the iterator over them,
      which uses [Gallop], [Heap] and [IdSet]; [SelectLoop]
      ([core/nsselecter/selectiteratorcontainer.cc], [nsselecter.cc]) is the loop that evaluates a
      tree of iterators, with the trees of [ExpressionForest].

    - Coroutines. [IndexList] ([coroutine/index_list.h]) has the intrusive lists of the scheduler;
      [Ordinator] ([coroutine/coroutine.cc], [vendor/koishi/fiber.h]) is the scheduler on its fibers
      as a machine, [OrdinatorSpec] the stack machine that it implements, [OrdinatorOps] the
      theorem. [WaitersQueue] ([coroutine/waiters_queue.h]) and [Channel] ([coroutine/channel.h])
      are the channels between coroutines; [ChannelSpec] says what a channel does in terms of lists,
      [ChannelRefine] that the code does it, [ChannelRun] what follows for all programs, and
      [ChannelScheduler] that a program with channels is a program of [Ordinator].

    ** State and operations

    An object of the code is a Record, and a method is a function on it that returns the changed
    record, in [result] or [M] where it can fail. Integers are [Z] with their wrap-around or its
    absence written out; positions of vectors in memory are [nat] in the expression trees.
    Pointers that the code shares are cells of a store: the sub-caches of [TagsPathCache], the
    chunks of [UpdatesQueue], the hooks of [WaitersQueue]. Concurrency is interleaving at the grain of critical sections and
    single atomic accesses: [UpdatesQueueSys.step] and [Raft] are step relations, and
    [IdSet.commit_readers] covers the states that a reader can see in a commit.

    ** What is shown

    - Refinements of an abstract specification: the WAL is a bounded log, the replication queue
      the window of a log, the ring buffer a queue, the small vector a list, the hash map in
      parts a finite map, the tree in a vector a forest, the iterator over several results a walk
      through the sorted union, the select loop a filter of the rows, the scheduler of coroutines
      a stack machine, and a channel a bounded queue whose waiters are woken.
    - Invariants and safety over all interleavings: the replication queue, its votes and its
      waiting pushes; elections (one vote in a term and leases, both while no leader is desired; majorities); readers of an id set.
    - Round trips: varints, variants, queries, WAL records, dictionaries, UUIDs, JSON paths,
      the shape of a hash map.
    - Types: a value that is read from any bytes has the type of its tag ([VariantTyping]).
    - Equivalences: simplified conditions and the original ones, galloping and linear search, the
      three ways of merging ids.
    - Errors and bounds: every reader of the binary format on any bytes, malformed lengths,
      rejected merges, misplaced conditions, the room for sort orders.
    - Termination: loops of the code that are not structural take fuel, and the theorems give
      the result for the fuel that the caller passes (or for any fuel above a stated bound), so
      that a loop that does not end would contradict them. The bounds are the sizes of the data:
      nodes of the tree (evaluation, simplification, [LastAppendedElement]), ids that are left
      ([SelectMerge], [SelectIter]), rows ([SelectLoop]), bytes of a buffer, records of a ring.
      [UpdatesQueueSys.PushAndWait_returns] is the liveness of a waiting push, and the last parts of
      [ChannelRun.channel_contract] that of readers and writers of a channel.

    ** Parameters

    Code that is vendored or whose result is left open is an interface with laws, and every
    property that needs the laws has a witness at a concrete instance: the B-tree set
    ([IdSet.BtreeSet], instance [gset]), the sparse map of a part
    ([ExtendibleMap.BaseHashMap], instance [gmap]), [boost::sort::pdqsort] (a function that sorts),
    [std::make_heap] ([Heap.MakeHeap]), [std::partition] ([SelectMerge.Partition]), the iterators
    of an index ([SelectKey.IndexIterator]), the parser of integers in paths, the comparison of a
    condition with an item, and hash iteration orders. The conditions with subqueries and functions
    in the form of a query on the wire ([put_other] and [get_other] of [QueryBinary]) and the
    conversion of coordinates that are not doubles ([as_double]) are open, without laws: the round
    trip is that of the queries without them.

    ** Not modelled

    Payloads, indexes and namespaces: raw memory with offsets of C++ types, templates over
    vendored trees and tables, and the locks that join every other part. Full text and vector
    search: floating point heuristics and vendored libraries. Parsers of SQL and JSON, the
    servers, clients, storage backends and tools: grammars with vendored parsers and input and
    output. Statistics, logging, dumps and the accounting of heap sizes of the modelled parts.
    Allocations do not fail, and room that is reserved only to save allocations is left out. Of the
    coroutines: mutexes and wait groups, and operations on channels while an exception unwinds the
    stack, which the code marks as not supported.

    These could be added on what is here: the merging of conditions on one index
    ([core/expressiontree.cc], [querypreprocessor.cc]), the ordering of iterators by cost,
    [ExcludeLastSet] over a whole loop, the event listeners ([events/listener.cc]), the state of
    synchronized namespaces ([cluster/replication/sharedsyncstate.h]), and the CJSON codecs over an
    interface of payloads.
*)

From Stdlib Require Export ZArith Lia.
From stdpp Require Export strings base list gmap sorting.

#[global] Open Scope Z_scope.

(** Powers and bit operations of concrete numbers are for [lia] and [vm_compute]. *)
#[global] Arguments Z.pow : simpl never.
#[global] Arguments Z.pow_pos : simpl never.
#[global] Arguments Z.modulo : simpl never.
#[global] Arguments Z.div : simpl never.
#[global] Arguments Z.shiftl : simpl never.
#[global] Arguments Z.shiftr : simpl never.
#[global] Arguments Z.land : simpl never.
#[global] Arguments Z.lor : simpl never.
#[global] Arguments Z.lxor : simpl never.

(** ** Errors and effects *)

(** The error codes of [core/type_consts.h]. *)
Inductive ErrorCode : Set :=
| errOK | errParseSQL | errQueryExec | errParams | errLogic | errParseJson | errParseDSL
| errConflict | errParseBin | errForbidden | errWasRelock | errNotValid | errNetwork
| errNotFound | errStateInvalidated | errBadTransaction | errOutdatedWAL | errNoWAL
| errDataHashMismatch | errTimeout | errCanceled | errTagsMissmatch | errReplParams
| errNamespaceInvalidated | errParseMsgPack | errParseProtobuf | errUpdatesLost
| errWrongReplicationData | errUpdateReplication | errClusterConsensus | errTerminated
| errTxDoesNotExist | errAlreadyConnected | errTxInvalidLeader | errAlreadyProxied
| errStrictMode | errQrUIDMissmatch | errSystem | errAssert | errParseYAML
| errNamespaceOverwritten | errConnectSSL | errVersion | errInvalidDefConfigs.

#[export] Instance ErrorCode_eq_dec : EqDecision ErrorCode.
Proof. solve_decision. Defined.

(** How a C++ operation may fail to return: it throws an [Error], an [assertrx] or an
    [abort] stops the process, or its behaviour is undefined (a read out of bounds).
    [OutOfFuel] is not a behaviour of the code: a recursive function of the model ran out of
    its fuel, and theorems show that this does not happen. *)
Inductive failure : Set :=
| Throw (c : ErrorCode)
| AssertFail
| Undefined
| OutOfFuel.

#[export] Instance failure_eq_dec : EqDecision failure.
Proof. solve_decision. Defined.

Inductive result (A : Type) : Type :=
| Ok (a : A)
| Fail (f : failure).
Arguments Ok {A} a.
Arguments Fail {A} f.

#[export] Instance result_eq_dec {A} `{EqDecision A} : EqDecision (result A).
Proof. solve_decision. Defined.

#[export] Instance result_ret : MRet result := @Ok.
#[export] Instance result_bind : MBind result := fun A B k m =>
  match m with Ok a => k a | Fail f => Fail f end.

#[export] Instance result_fmap : FMap result := fun A B k m =>
  match m with Ok a => Ok (k a) | Fail f => Fail f end.

Definition is_ok {A} (r : result A) : bool :=
  match r with Ok _ => true | Fail _ => false end.

(** An array access: reading outside the array is undefined behaviour. *)
Definition of_option {A} (f : failure) (o : option A) : result A :=
  match o with Some a => Ok a | None => Fail f end.

(** State and failure: a throwing operation keeps the changes made before the throw. *)
Definition M (S A : Type) : Type := S -> result A * S.

#[export] Instance M_ret {S} : MRet (M S) := fun A a s => (Ok a, s).
#[export] Instance M_bind {S} : MBind (M S) := fun A B k m s =>
  match m s with
  | (Ok a, s') => k a s'
  | (Fail f, s') => (Fail f, s')
  end.

Definition get {S} : M S S := fun s => (Ok s, s).
Definition put {S} (s : S) : M S unit := fun _ => (Ok tt, s).
Definition fail {S A} (f : failure) : M S A := fun s => (Fail f, s).
Definition lift {S A} (r : result A) : M S A := fun s => (r, s).

(** Rewriting with the equations of the monads. *)
Lemma M_bind_ok {S A B} (m : M S A) (k : A -> M S B) s a s' :
  m s = (Ok a, s') -> (m ≫= k) s = k a s'.
Proof. intros H. unfold mbind, M_bind. by rewrite H. Qed.

Lemma M_bind_fail {S A B} (m : M S A) (k : A -> M S B) s f s' :
  m s = (Fail f, s') -> (m ≫= k) s = (Fail f, s').
Proof. intros H. unfold mbind, M_bind. by rewrite H. Qed.

Lemma M_bind_get {S B} (k : S -> M S B) s : (get ≫= k) s = k s s.
Proof. reflexivity. Qed.

Lemma M_bind_put {S B} (k : unit -> M S B) s s' : (put s' ≫= k) s = k tt s'.
Proof. reflexivity. Qed.

Lemma M_bind_lift {S A B} (a : A) (k : A -> M S B) s : (lift (Ok a) ≫= k) s = k a s.
Proof. reflexivity. Qed.

Lemma M_bind_ret {S A B} (a : A) (k : A -> M S B) s : (mret a ≫= k) s = k a s.
Proof. reflexivity. Qed.

Lemma R_bind_ok {A B} (a : A) (k : A -> result B) : (Ok a ≫= k) = k a.
Proof. reflexivity. Qed.

(** ** Machine integers *)

(** The value of a [w]-bit unsigned integer, and the two's complement one. *)
Definition wrap (w x : Z) : Z := x mod 2 ^ w.
Definition swrap (w x : Z) : Z := (x + 2 ^ (w - 1)) mod 2 ^ w - 2 ^ (w - 1).

Definition u8 : Z -> Z := wrap 8.
Definition u16 : Z -> Z := wrap 16.
Definition u32 : Z -> Z := wrap 32.
Definition u64 : Z -> Z := wrap 64.
Definition s16 : Z -> Z := swrap 16.
Definition s32 : Z -> Z := swrap 32.
Definition s64 : Z -> Z := swrap 64.

Ltac unfold_wrap :=
  unfold u8, u16, u32, u64, s16, s32, s64, wrap, swrap in *;
  change (2 ^ (16 - 1)) with 32768 in *;
  change (2 ^ (32 - 1)) with 2147483648 in *;
  change (2 ^ (64 - 1)) with 9223372036854775808 in *;
  change (2 ^ 8) with 256 in *; change (2 ^ 16) with 65536 in *;
  change (2 ^ 32) with 4294967296 in *;
  change (2 ^ 64) with 18446744073709551616 in *.

(** [lia] with division and modulo by constants, and with the wrapping functions. *)
Ltac dlia := Z.to_euclidean_division_equations; lia.
Ltac wrap_lia := unfold_wrap; dlia.

Lemma wrap_id w x : 0 <= x < 2 ^ w -> wrap w x = x.
Proof. intros H. unfold wrap. by apply Z.mod_small. Qed.

Lemma swrap_id w x : 0 < w -> - 2 ^ (w - 1) <= x < 2 ^ (w - 1) -> swrap w x = x.
Proof.
  intros Hw H. unfold swrap.
  assert (2 ^ w = 2 * 2 ^ (w - 1)) as E.
  { rewrite <- Z.pow_succ_r by lia. f_equal. lia. }
  rewrite Z.mod_small; lia.
Qed.

Lemma wrap_bound w x : 0 <= w -> 0 <= wrap w x < 2 ^ w.
Proof. intros. apply Z.mod_pos_bound. by apply Z.pow_pos_nonneg. Qed.

(** Disjoint bits: an [or] is an addition. *)
Lemma land_shiftl_small x y k : 0 <= k -> 0 <= x < 2 ^ k -> Z.land x (Z.shiftl y k) = 0.
Proof.
  intros Hk Hx. apply Z.bits_inj'. intros i Hi. rewrite Z.land_spec, Z.bits_0.
  destruct (decide (i < k)).
  - rewrite Z.shiftl_spec_low by done. apply andb_false_r.
  - rewrite <- (Z.mod_small x (2 ^ k)) by done.
    rewrite Z.mod_pow2_bits_high by lia. done.
Qed.

Lemma lor_add x y k : 0 <= k -> 0 <= x < 2 ^ k -> Z.lor x (Z.shiftl y k) = x + y * 2 ^ k.
Proof.
  intros Hk Hx. rewrite <- Z.shiftl_mul_pow2 by done.
  pose proof (Z.add_lor_land x (Z.shiftl y k)) as E.
  rewrite land_shiftl_small in E by done. lia.
Qed.

Lemma lor_add' x y k : 0 <= k -> 0 <= x < 2 ^ k -> Z.lor (Z.shiftl y k) x = y * 2 ^ k + x.
Proof. intros. rewrite Z.lor_comm, lor_add by done. lia. Qed.

Lemma lor_bound x y k : 0 <= x < 2 ^ k -> 0 <= y < 2 ^ k -> 0 <= Z.lor x y < 2 ^ k.
Proof.
  intros Hx Hy. assert (0 <= Z.lor x y) by (apply Z.lor_nonneg; lia). split; [done |].
  destruct (decide (0 <= k)) as [Hk | Hk]; [| rewrite Z.pow_neg_r in Hx by lia; lia].
  assert (Z.lor x y mod 2 ^ k = Z.lor x y) as <-; [| apply Z.mod_pos_bound; lia].
  rewrite <- Z.land_ones, Z.land_lor_distr_l, !Z.land_ones by done.
  by rewrite !Z.mod_small by done.
Qed.

(** Setting the continuation bit of a byte. *)
Lemma u8_lor_128 x : 0 <= x -> u8 (Z.lor x 128) = x mod 128 + 128.
Proof.
  intros Hx.
  assert (Z.lor x 128 = Z.lor (x mod 2 ^ 7) (Z.shiftl (Z.lor (x / 2 ^ 7) 1) 7)) as ->.
  { rewrite Z.shiftl_lor. change (Z.shiftl 1 7) with 128. rewrite Z.lor_assoc. f_equal.
    rewrite lor_add by (try apply Z.mod_pos_bound; lia).
    rewrite Z.add_comm, Z.mul_comm. by apply Z.div_mod. }
  rewrite lor_add by (try apply Z.mod_pos_bound; lia).
  unfold u8, wrap. change (2 ^ 7) with 128. change (2 ^ 8) with 256.
  assert (Z.lor (x / 128) 1 mod 2 = 1) as Hodd.
  { rewrite <- (Z.land_ones _ 1) by lia. rewrite Z.land_lor_distr_l.
    change (Z.land 1 (Z.ones 1)) with 1. rewrite Z.land_ones by lia.
    change (2 ^ 1) with 2. pose proof (Z.mod_pos_bound (x / 128) 2).
    assert (x / 128 mod 2 = 0 \/ x / 128 mod 2 = 1) as [-> | ->] by lia; done. }
  dlia.
Qed.

Lemma land_127 x : Z.land x 127 = x mod 128.
Proof. change 127 with (Z.ones 7). rewrite Z.land_ones by lia. done. Qed.

(** ** Bytes and lists indexed by machine integers *)

Abbreviation bytes := (list Z) (only parsing).

Definition byte_ok (b : Z) : Prop := 0 <= b < 256.
Abbreviation bytes_ok := (Forall byte_ok).

#[export] Instance byte_ok_dec b : Decision (byte_ok b).
Proof. unfold byte_ok. apply _. Defined.

(** The bytes of a literal. *)
Fixpoint str (s : String.string) : bytes :=
  match s with
  | String.EmptyString => []
  | String.String c s => Z.of_N (Ascii.N_of_ascii c) :: str s
  end.
Arguments str s%_string.

Definition zlen {A} (l : list A) : Z := Z.of_nat (length l).

(** [l[i]] of a C++ vector: nothing outside of its bounds. *)
Definition znth {A} (l : list A) (i : Z) : option A :=
  if decide (0 <= i) then l !! Z.to_nat i else None.

(** [l[i] = x] inside of the bounds. *)
Definition zset {A} (l : list A) (i : Z) (x : A) : list A := <[Z.to_nat i := x]> l.

(** The [n] elements from position [p]. *)
Definition zslice {A} (l : list A) (p n : Z) : list A := take (Z.to_nat n) (drop (Z.to_nat p) l).

(** [vector::resize(n, x)]. *)
Definition zresize {A} (l : list A) (n : Z) (x : A) : list A := resize (Z.to_nat n) x l.

Lemma zlen_nil {A} : zlen (@nil A) = 0.
Proof. done. Qed.
Lemma zlen_cons {A} (x : A) l : zlen (x :: l) = 1 + zlen l.
Proof. unfold zlen. rewrite length_cons. lia. Qed.
Lemma zlen_app {A} (l k : list A) : zlen (l ++ k) = zlen l + zlen k.
Proof. unfold zlen. rewrite length_app. lia. Qed.
Lemma zlen_nonneg {A} (l : list A) : 0 <= zlen l.
Proof. unfold zlen. lia. Qed.
Lemma zlen_zset {A} (l : list A) i x : zlen (zset l i x) = zlen l.
Proof. unfold zlen, zset. by rewrite length_insert. Qed.
Lemma zlen_zresize {A} (l : list A) n x : 0 <= n -> zlen (zresize l n x) = n.
Proof. intros. unfold zlen, zresize. rewrite length_resize. lia. Qed.
Create HintDb zlen discriminated.
#[export] Hint Rewrite @zlen_nil @zlen_cons @zlen_app @zlen_zset : zlen.

Lemma znth_lt {A} (l : list A) i : 0 <= i < zlen l -> is_Some (znth l i).
Proof.
  intros H. unfold znth. rewrite decide_True by lia. apply lookup_lt_is_Some.
  unfold zlen in H. lia.
Qed.

Lemma znth_Some {A} (l : list A) i x : znth l i = Some x -> 0 <= i < zlen l.
Proof.
  unfold znth, zlen. case_decide; [| done]. intros H1%lookup_lt_Some. lia.
Qed.

Lemma znth_None {A} (l : list A) i : ~ 0 <= i < zlen l -> znth l i = None.
Proof.
  intros H. destruct (znth l i) eqn:E; [| done]. by apply znth_Some in E.
Qed.

Lemma znth_zset_eq {A} (l : list A) i x : 0 <= i < zlen l -> znth (zset l i x) i = Some x.
Proof.
  intros H. unfold znth, zset. rewrite decide_True by lia.
  apply list_lookup_insert_eq. unfold zlen in H. lia.
Qed.

Lemma znth_zset_ne {A} (l : list A) i j x :
  0 <= i -> i <> j -> znth (zset l i x) j = znth l j.
Proof.
  intros Hi H. unfold znth, zset. case_decide; [| done]. apply list_lookup_insert_ne. lia.
Qed.

Lemma znth_app_l {A} (l k : list A) i : i < zlen l -> znth (l ++ k) i = znth l i.
Proof.
  intros H. unfold znth, zlen in *. case_decide; [| done]. apply lookup_app_l. lia.
Qed.

Lemma znth_app_r {A} (l k : list A) i :
  zlen l <= i -> znth (l ++ k) i = znth k (i - zlen l).
Proof.
  intros H. pose proof (zlen_nonneg l). unfold znth, zlen in *.
  rewrite !decide_True by lia. rewrite lookup_app_r by lia. f_equal. lia.
Qed.

Lemma znth_zresize {A} (l : list A) n x i :
  0 <= i < n -> znth (zresize l n x) i = Some (default x (znth l i)).
Proof.
  intros H. unfold znth, zresize. rewrite !decide_True by lia.
  destruct (decide (i < zlen l)) as [Hi | Hi]; unfold zlen in Hi.
  - rewrite lookup_resize by lia.
    destruct (lookup_lt_is_Some_2 l (Z.to_nat i)) as [y Hy]; [lia |]. by rewrite Hy.
  - rewrite lookup_resize_new by lia. by rewrite (proj2 (lookup_ge_None l _)) by lia.
Qed.

Lemma znth_lookup {A} (l : list A) (i : nat) : znth l (Z.of_nat i) = l !! i.
Proof. unfold znth. rewrite decide_True by lia. by rewrite Nat2Z.id. Qed.

Lemma znth_ext {A} (l k : list A) :
  zlen l = zlen k -> (forall i, 0 <= i < zlen l -> znth l i = znth k i) -> l = k.
Proof.
  intros Hl H. unfold zlen in *. apply list_eq_same_length with (length l); [lia | done |].
  intros i x y Hi Hx Hy. specialize (H (Z.of_nat i)). rewrite !znth_lookup, Hx, Hy in H.
  assert (Some x = Some y) as E by (apply H; lia). by injection E.
Qed.

Lemma zlen_zslice {A} (l : list A) p n :
  0 <= p -> 0 <= n -> p + n <= zlen l -> zlen (zslice l p n) = n.
Proof. intros. unfold zlen, zslice in *. rewrite length_take, length_drop. lia. Qed.

Lemma znth_zslice {A} (l : list A) p n i :
  0 <= p -> 0 <= i < n -> znth (zslice l p n) i = znth l (p + i).
Proof.
  intros. unfold znth, zslice. rewrite !decide_True by lia.
  rewrite lookup_take_lt, lookup_drop by lia. f_equal. lia.
Qed.

(** The element between two parts of a list. *)
Lemma znth_mid {A} (l k : list A) x i : i = zlen l -> znth (l ++ x :: k) i = Some x.
Proof. intros ->. rewrite znth_app_r, Z.sub_diag by lia. done. Qed.

Lemma zset_mid {A} (l k : list A) x y i : i = zlen l -> zset (l ++ x :: k) i y = l ++ y :: k.
Proof.
  intros ->. unfold zset, zlen. rewrite Nat2Z.id, insert_app_r_alt by lia.
  by rewrite Nat.sub_diag.
Qed.

Lemma zlen_fmap {A B} (f : A -> B) l : zlen (f <$> l) = zlen l.
Proof. unfold zlen. by rewrite length_fmap. Qed.

Lemma zlen_replicate {A} n (x : A) : 0 <= n -> zlen (replicate (Z.to_nat n) x) = n.
Proof. intros. unfold zlen. rewrite length_replicate. lia. Qed.

(** Overwriting the elements from position [p]: the destination of a [std::copy]. *)
Definition zblit {A} (l : list A) (p : Z) (data : list A) : list A :=
  zslice l 0 p ++ data ++ drop (Z.to_nat (p + zlen data)) l.

Lemma zlen_zblit {A} (l data : list A) p :
  0 <= p -> p + zlen data <= zlen l -> zlen (zblit l p data) = zlen l.
Proof.
  intros. pose proof (zlen_nonneg data). unfold zblit. autorewrite with zlen.
  rewrite zlen_zslice by lia. unfold zlen in *. rewrite length_drop. lia.
Qed.

Lemma znth_zblit {A} (l data : list A) p i :
  0 <= p -> p + zlen data <= zlen l -> 0 <= i ->
  znth (zblit l p data) i = if decide (p <= i < p + zlen data) then znth data (i - p) else znth l i.
Proof.
  intros Hp Hl Hi. pose proof (zlen_nonneg data). unfold zblit.
  assert (zlen (zslice l 0 p) = p) as E by (apply zlen_zslice; lia).
  destruct (decide (i < p)) as [H1 | H1].
  - rewrite decide_False, znth_app_l by lia. by rewrite znth_zslice by lia.
  - rewrite znth_app_r, E by lia. case_decide.
    + rewrite znth_app_l by lia. done.
    + rewrite znth_app_r by lia. unfold znth. rewrite !decide_True by lia.
      rewrite lookup_drop. f_equal. lia.
Qed.

(** Taking an element out of a list without repetitions. *)
Lemma filter_ne_perm {A} `{EqDecision A} (l : list A) x :
  NoDup l -> x ∈ l -> Permutation l (x :: filter (fun y => y <> x) l).
Proof.
  induction 1 as [| y l Hy Hl IH]; intros Hx; [by apply not_elem_of_nil in Hx |].
  rewrite filter_cons. destruct (decide (y <> x)) as [Hne | He].
  - apply elem_of_cons in Hx as [-> | Hx]; [done |]. rewrite perm_swap. by f_equiv; apply IH.
  - assert (y = x) as -> by (by apply dec_stable). f_equiv.
    clear IH He Hx. induction l as [| z l IHl]; [done |]. apply not_elem_of_cons in Hy as [Hz Hy].
    apply NoDup_cons in Hl as [_ Hl]. rewrite filter_cons. rewrite decide_True by done.
    f_equiv. by apply IHl.
Qed.

(** ** Counting *)

Definition count {A} (f : A -> bool) (l : list A) : Z := zlen (filter (fun x => f x = true) l).

Definition b2z (b : bool) : Z := if b then 1 else 0.

Lemma count_nil {A} (f : A -> bool) : count f [] = 0.
Proof. done. Qed.

Lemma count_cons {A} (f : A -> bool) x l : count f (x :: l) = b2z (f x) + count f l.
Proof.
  unfold count. rewrite filter_cons.
  destruct (f x); [rewrite decide_True by done | rewrite decide_False by done];
    rewrite ?zlen_cons; cbn [b2z]; lia.
Qed.

Lemma count_app {A} (f : A -> bool) l k : count f (l ++ k) = count f l + count f k.
Proof. unfold count. by rewrite filter_app, zlen_app. Qed.

Lemma count_bound {A} (f : A -> bool) l : 0 <= count f l <= zlen l.
Proof.
  induction l as [| x l IH]; [done |]. rewrite count_cons, zlen_cons.
  destruct (f x); cbn [b2z]; lia.
Qed.

Lemma count_perm {A} (f : A -> bool) l k : Permutation l k -> count f l = count f k.
Proof. induction 1; rewrite ?count_cons; lia. Qed.

Lemma count_ext {A} (f g : A -> bool) l :
  (forall x, x ∈ l -> f x = g x) -> count f l = count g l.
Proof.
  induction l as [| x l IH]; intros H; [done |]. rewrite !count_cons.
  rewrite H by apply list_elem_of_here. f_equal. apply IH.
  intros y Hy. apply H. by apply list_elem_of_further.
Qed.

Lemma count_zero {A} (f : A -> bool) l : count f l = 0 <-> forall x, x ∈ l -> f x = false.
Proof.
  induction l as [| x l IH].
  - split; [| done]. intros _ x Hx. by apply not_elem_of_nil in Hx.
  - rewrite count_cons. pose proof (count_bound f l). split.
    + intros Hc y Hy. destruct (f x) eqn:E; cbn [b2z] in Hc; [lia |].
      apply elem_of_cons in Hy as [-> | Hy]; [done | apply IH; [lia | done]].
    + intros Hf. rewrite Hf by apply list_elem_of_here. cbn [b2z].
      rewrite (proj2 IH); [done |]. intros y Hy. apply Hf. by apply list_elem_of_further.
Qed.

Lemma count_all {A} (f : A -> bool) l : zlen l <= count f l -> forall x, x ∈ l -> f x = true.
Proof.
  induction l as [| x l IH]; intros H y Hy; [by apply not_elem_of_nil in Hy |].
  rewrite count_cons, zlen_cons in H. pose proof (count_bound f l).
  destruct (f x) eqn:E; cbn [b2z] in H; [| lia].
  apply elem_of_cons in Hy as [-> | Hy]; [done | apply IH; [lia | done]].
Qed.

Lemma count_zset {A} (f : A -> bool) l i x y :
  znth l i = Some x -> count f (zset l i y) = count f l - b2z (f x) + b2z (f y).
Proof.
  intros H. unfold znth in H. case_decide; [| done].
  unfold zset. rewrite insert_take_drop by (by apply lookup_lt_Some in H).
  rewrite <- (take_drop_middle l (Z.to_nat i) x H) at 3.
  rewrite !count_app, !count_cons. lia.
Qed.

(** ** Little-endian fixed-width integers: the [memcpy] of an integer *)

Fixpoint le_bytes (n : nat) (v : Z) : bytes :=
  match n with
  | O => []
  | S n => v mod 256 :: le_bytes n (v / 256)
  end.

Fixpoint le_val (bs : bytes) : Z :=
  match bs with
  | [] => 0
  | b :: bs => b + 256 * le_val bs
  end.

Lemma le_bytes_length n v : length (le_bytes n v) = n.
Proof. revert v. induction n; intros; simpl; auto. Qed.

Lemma le_bytes_ok n v : bytes_ok (le_bytes n v).
Proof.
  revert v. induction n; intros; simpl; constructor; auto.
  unfold byte_ok. apply Z.mod_pos_bound. lia.
Qed.

Lemma le_val_le_bytes n v : 0 <= v < 2 ^ (8 * Z.of_nat n) -> le_val (le_bytes n v) = v.
Proof.
  revert v. induction n as [| n IH]; intros v Hv; cbn [le_bytes le_val].
  - change (2 ^ (8 * Z.of_nat 0)) with 1 in Hv. lia.
  - rewrite Nat2Z.inj_succ, Z.mul_succ_r, Z.pow_add_r in Hv by lia.
    change (2 ^ 8) with 256 in Hv. rewrite IH; [dlia |]. split; [dlia |].
    apply Z.div_lt_upper_bound; lia.
Qed.

Lemma le_val_bound bs : bytes_ok bs -> 0 <= le_val bs < 2 ^ (8 * zlen bs).
Proof.
  induction 1 as [| b bs Hb _ IH]; cbn [le_val]; autorewrite with zlen.
  - lia.
  - rewrite Z.mul_add_distr_l, Z.pow_add_r by (pose proof (zlen_nonneg bs); lia).
    change (2 ^ (8 * 1)) with 256. unfold byte_ok in Hb. lia.
Qed.

Lemma le_bytes_le_val bs : bytes_ok bs -> le_bytes (length bs) (le_val bs) = bs.
Proof.
  induction 1 as [| b bs Hb _ IH]; cbn [le_bytes le_val length]; [done |].
  unfold byte_ok in Hb. f_equal; [dlia |].
  by replace ((b + 256 * le_val bs) / 256) with (le_val bs) by dlia.
Qed.
