(* ===== verification/Varint.v ===== *)
(** Base-128 variable-length integers: [tools/varint.h].

    The byte writers return the list of bytes that the C++ code stores at [out]; the readers
    take the buffer and read it through [znth], so that a read outside of the buffer is an
    undefined result. The reference encoding [leb128] and the reference value [leb128_val]
    are the specification that the unrolled code is proved equal to. *)

From S2P Require Import Prelude.

(** ** The code *)

Definition zigzag_encode32 (n : Z) : Z :=
  Z.lxor (u32 (Z.shiftl (u32 n) 1)) (u32 (Z.shiftr n 31)).

Definition zigzag_encode64 (n : Z) : Z :=
  Z.lxor (u64 (Z.shiftl (u64 n) 1)) (u64 (Z.shiftr n 63)).

(** [~(n & 1) + 1] on 64-bit unsigned integers. *)
Definition zigzag_decode64 (n : Z) : Z :=
  s64 (Z.lxor (Z.shiftr n 1) (u64 (u64 (Z.lnot (Z.land n 1)) + 1))).

Definition uint32_pack (value : Z) : bytes :=
  if 128 <=? value then
    u8 (Z.lor value 128) ::
    let value := Z.shiftr value 7 in
    if 128 <=? value then
      u8 (Z.lor value 128) ::
      let value := Z.shiftr value 7 in
      if 128 <=? value then
        u8 (Z.lor value 128) ::
        let value := Z.shiftr value 7 in
        if 128 <=? value then
          u8 (Z.lor value 128) ::
          let value := Z.shiftr value 7 in [u8 value]
        else [u8 value]
      else [u8 value]
    else [u8 value]
  else [u8 value].

Definition sint32_pack (value : Z) : bytes := uint32_pack (zigzag_encode32 value).

(** The [while (hi >= 128)] loop; [hi] has at most 29 bits when it starts. *)
Fixpoint uint64_pack_hi (fuel : nat) (hi : Z) : bytes :=
  match fuel with
  | O => [u8 hi]
  | S fuel =>
      if 128 <=? hi then u8 (Z.lor hi 128) :: uint64_pack_hi fuel (Z.shiftr hi 7)
      else [u8 hi]
  end.

Definition uint64_pack (value : Z) : bytes :=
  let hi := u32 (Z.shiftr value 32) in
  let lo := u32 value in
  if hi =? 0 then uint32_pack lo
  else
    [u8 (Z.lor lo 128); u8 (Z.lor (Z.shiftr lo 7) 128);
     u8 (Z.lor (Z.shiftr lo 14) 128); u8 (Z.lor (Z.shiftr lo 21) 128)] ++
    if hi <? 8 then [u8 (Z.lor (Z.shiftl hi 4) (Z.shiftr lo 28))]
    else
      u8 (Z.lor (Z.lor (Z.shiftl (Z.land hi 7) 4) (Z.shiftr lo 28)) 128) ::
      uint64_pack_hi 5 (Z.shiftr hi 3).

Definition sint64_pack (value : Z) : bytes := uint64_pack (zigzag_encode64 value).

Definition boolean_pack (value : bool) : bytes := [if value then 1 else 0].

(** [None] is the null pointer. *)
Definition string_pack (str : option bytes) : bytes :=
  match str with
  | None => [0]
  | Some s => uint32_pack (u32 (zlen s)) ++ s
  end.

(** [static_cast<uint32_t>(data[i] & 0x7f) << shift] *)
Definition shifted7 (w : Z) (b shift : Z) : Z := wrap w (Z.shiftl (Z.land b 127) shift).

Definition parse_uint32 (len : Z) (data : bytes) : option Z :=
  b0 ← znth data 0;
  let rv := Z.land b0 127 in
  if 1 <? len then
    b1 ← znth data 1;
    let rv := Z.lor rv (shifted7 32 b1 7) in
    if 2 <? len then
      b2 ← znth data 2;
      let rv := Z.lor rv (shifted7 32 b2 14) in
      if 3 <? len then
        b3 ← znth data 3;
        let rv := Z.lor rv (shifted7 32 b3 21) in
        if 4 <? len then
          b4 ← znth data 4;
          Some (Z.lor rv (u32 (Z.shiftl b4 28)))
        else Some rv
      else Some rv
    else Some rv
  else Some rv.

(** The loop [for (i = 4; i < len; ++i)] of [parse_uint64]: [n] iterations left. *)
Fixpoint parse_uint64_loop (n : nat) (i shift rv : Z) (data : bytes) : option Z :=
  match n with
  | O => Some rv
  | S n =>
      b ← znth data i;
      parse_uint64_loop n (i + 1) (shift + 7) (Z.lor rv (shifted7 64 b shift)) data
  end.

Definition parse_uint64 (len : Z) (data : bytes) : option Z :=
  if len <? 5 then parse_uint32 len data
  else
    b0 ← znth data 0; b1 ← znth data 1; b2 ← znth data 2; b3 ← znth data 3;
    let rv := Z.lor (Z.lor (Z.lor (Z.land b0 127) (shifted7 64 b1 7))
                           (shifted7 64 b2 14)) (shifted7 64 b3 21) in
    parse_uint64_loop (Z.to_nat (len - 4)) 4 28 rv data.

Definition parse_int64 (len : Z) (data : bytes) : option Z :=
  v ← parse_uint64 len data; Some (zigzag_decode64 v).

(** The index at which the scan stops: a byte without the continuation bit, or [len]. *)
Fixpoint scan_loop (n : nat) (i : Z) (data : bytes) : option Z :=
  match n with
  | O => Some i
  | S n =>
      b ← znth data i;
      if Z.land b 128 =? 0 then Some i else scan_loop n (i + 1) data
  end.

Definition scan_varint (len : Z) (data : bytes) : option Z :=
  let len := if 10 <? len then 10 else len in
  i ← scan_loop (Z.to_nat len) 0 data;
  Some (if i =? len then 0 else i + 1).

(** [uint32ByteSize] of [tools/serilize/wrserializer.cc] *)
Definition uint32ByteSize (value : Z) : Z :=
  if 128 <=? value then
    let value := Z.shiftr value 7 in
    if 128 <=? value then
      let value := Z.shiftr value 7 in
      if 128 <=? value then
        let value := Z.shiftr value 7 in
        if 128 <=? value then 5 else 4
      else 3
    else 2
  else 1.

(** ** The reference encoding *)

(** Little-endian groups of seven bits, all but the last one with the continuation bit.
    [fuel] bounds the number of groups: ten are enough for 64 bits. *)
Fixpoint leb128 (fuel : nat) (v : Z) : bytes :=
  match fuel with
  | O => [v]
  | S fuel => if v <? 128 then [v] else (v mod 128 + 128) :: leb128 fuel (v / 128)
  end.

Definition leb128_64 : Z -> bytes := leb128 9.

Fixpoint leb128_val (bs : bytes) : Z :=
  match bs with
  | [] => 0
  | b :: bs => b mod 128 + 128 * leb128_val bs
  end.

(** ** Encoding *)

Lemma leb128_fuel n m v :
  0 <= v < 128 ^ (Z.of_nat n + 1) -> (n <= m)%nat -> leb128 m v = leb128 n v.
Proof.
  revert m v. induction n as [| n IH]; intros m v Hv Hm.
  - change (128 ^ (Z.of_nat 0 + 1)) with 128 in Hv.
    destruct m; [done |]. cbn [leb128]. by rewrite (proj2 (Z.ltb_lt v 128)) by lia.
  - destruct m as [| m]; [lia |]. cbn [leb128]. case_match; [done |]. f_equal.
    apply IH; [| lia].
    rewrite Nat2Z.inj_succ in Hv.
    replace (Z.succ (Z.of_nat n) + 1) with (1 + (Z.of_nat n + 1)) in Hv by lia.
    rewrite Z.pow_add_r in Hv by lia. change (128 ^ 1) with 128 in Hv.
    split; [dlia |]. apply Z.div_lt_upper_bound; lia.
Qed.

Lemma leb128_val_leb128 n v :
  0 <= v < 128 ^ (Z.of_nat n + 1) -> leb128_val (leb128 n v) = v.
Proof.
  revert v. induction n as [| n IH]; intros v Hv; cbn [leb128].
  - change (128 ^ (Z.of_nat 0 + 1)) with 128 in Hv. cbn [leb128_val]. dlia.
  - case_match eqn:E; cbn [leb128_val]; [dlia |].
    rewrite IH; [dlia |].
    rewrite Nat2Z.inj_succ in Hv.
    replace (Z.succ (Z.of_nat n) + 1) with (1 + (Z.of_nat n + 1)) in Hv by lia.
    rewrite Z.pow_add_r in Hv by lia. change (128 ^ 1) with 128 in Hv.
    split; [dlia |]. apply Z.div_lt_upper_bound; lia.
Qed.

Lemma leb128_length n v : (1 <= length (leb128 n v) <= S n)%nat.
Proof.
  revert v. induction n as [| n IH]; intros v; cbn [leb128]; [simpl; lia |].
  case_match; simpl; [lia |]. specialize (IH (v / 128)). lia.
Qed.

(** The bytes of an encoding: continuation bits everywhere except in the last one. *)
Inductive leb128_shape : bytes -> Prop :=
| shape_last b : 0 <= b < 128 -> leb128_shape [b]
| shape_more b bs : 128 <= b < 256 -> leb128_shape bs -> leb128_shape (b :: bs).

Lemma leb128_has_shape n v :
  0 <= v < 128 ^ (Z.of_nat n + 1) -> leb128_shape (leb128 n v).
Proof.
  revert v. induction n as [| n IH]; intros v Hv; cbn [leb128].
  - change (128 ^ (Z.of_nat 0 + 1)) with 128 in Hv. by constructor.
  - case_match eqn:E; [constructor; lia |]. constructor; [dlia |]. apply IH.
    rewrite Nat2Z.inj_succ in Hv.
    replace (Z.succ (Z.of_nat n) + 1) with (1 + (Z.of_nat n + 1)) in Hv by lia.
    rewrite Z.pow_add_r in Hv by lia. change (128 ^ 1) with 128 in Hv.
    split; [dlia |]. apply Z.div_lt_upper_bound; lia.
Qed.

Lemma leb128_shape_bytes bs : leb128_shape bs -> bytes_ok bs.
Proof. induction 1; constructor; unfold byte_ok in *; auto; lia. Qed.

Lemma shiftr_7 x : Z.shiftr x 7 = x / 128.
Proof. by rewrite Z.shiftr_div_pow2. Qed.

Lemma uint32_pack_leb128 v : 0 <= v < 2 ^ 32 -> uint32_pack v = leb128 4 v.
Proof.
  intros Hv. unfold uint32_pack, leb128. cbv zeta. rewrite !shiftr_7, !Z.leb_antisym.
  destruct (Z.ltb_spec v 128); simpl; [unfold u8; by rewrite wrap_id by lia |].
  rewrite u8_lor_128 by dlia. f_equal.
  destruct (Z.ltb_spec (v / 128) 128); simpl; [unfold u8; by rewrite wrap_id by dlia |].
  rewrite u8_lor_128 by dlia. f_equal.
  destruct (Z.ltb_spec (v / 128 / 128) 128); simpl; [unfold u8; by rewrite wrap_id by dlia |].
  rewrite u8_lor_128 by dlia. f_equal.
  destruct (Z.ltb_spec (v / 128 / 128 / 128) 128); simpl;
    [unfold u8; by rewrite wrap_id by dlia |].
  rewrite u8_lor_128 by dlia. unfold u8. by rewrite wrap_id by dlia.
Qed.

Lemma uint64_pack_hi_leb128 n hi :
  0 <= hi < 128 ^ (Z.of_nat n + 1) -> uint64_pack_hi n hi = leb128 n hi.
Proof.
  revert hi. induction n as [| n IH]; intros v Hv; cbn [leb128 uint64_pack_hi].
  - change (128 ^ (Z.of_nat 0 + 1)) with 128 in Hv. unfold u8. by rewrite wrap_id by lia.
  - rewrite Z.leb_antisym, shiftr_7. destruct (Z.ltb_spec v 128); simpl.
    { unfold u8. by rewrite wrap_id by lia. }
    rewrite u8_lor_128 by lia. f_equal. apply IH.
    rewrite Nat2Z.inj_succ in Hv.
    replace (Z.succ (Z.of_nat n) + 1) with (1 + (Z.of_nat n + 1)) in Hv by lia.
    rewrite Z.pow_add_r in Hv by lia. change (128 ^ 1) with 128 in Hv.
    split; [dlia |]. apply Z.div_lt_upper_bound; lia.
Qed.

Lemma leb128_cons n v : 128 <= v -> leb128 (S n) v = (v mod 128 + 128) :: leb128 n (v / 128).
Proof. intros. cbn [leb128]. by rewrite (proj2 (Z.ltb_ge v 128)) by lia. Qed.

(** The nibble that joins the two halves: four bits of [hi] over four bits of [lo]. *)
Lemma pack_joint v :
  0 <= v ->
  Z.shiftr (u32 v) 28 = (v / 2 ^ 28) mod 16 /\ Z.shiftr v 32 = v / 2 ^ 28 / 16.
Proof.
  intros Hv. rewrite !Z.shiftr_div_pow2 by lia. unfold u32, wrap.
  change (2 ^ 32) with (2 ^ 28 * 16). rewrite <- Z.div_div by lia. split; [| done].
  rewrite Z.rem_mul_r by lia. rewrite Z.mul_comm, Z.div_add by lia.
  rewrite (Z.div_small (v mod 2 ^ 28)) by (apply Z.mod_pos_bound; lia). done.
Qed.

Lemma uint64_pack_leb128 v : 0 <= v < 2 ^ 64 -> uint64_pack v = leb128_64 v.
Proof.
  intros Hv. unfold uint64_pack, leb128_64.
  destruct (pack_joint v) as [Elo Ehi]; [lia |]. rewrite Elo, Ehi. cbv zeta.
  assert (u32 (v / 2 ^ 28 / 16) = v / 2 ^ 28 / 16) as ->.
  { unfold u32. apply wrap_id. change (2 ^ 28) with 268435456. dlia. }
  destruct (Z.eqb_spec (v / 2 ^ 28 / 16) 0) as [E | E].
  { assert (v < 2 ^ 32) by (change (2 ^ 28) with 268435456 in E; dlia).
    rewrite (wrap_id 32) by lia. rewrite uint32_pack_leb128 by lia.
    symmetry. apply leb128_fuel; [| lia]. change (128 ^ (Z.of_nat 4 + 1)) with (2 ^ 35). lia. }
  assert (2 ^ 32 <= v) by (change (2 ^ 28) with 268435456 in E; dlia).
  assert (forall k, 0 <= k <= 21 -> u8 (Z.lor (Z.shiftr (u32 v) k) 128) = (v / 2 ^ k) mod 128 + 128)
    as Hbyte.
  { intros k Hk. rewrite Z.shiftr_div_pow2 by lia.
    rewrite u8_lor_128 by (apply Z.div_pos; [apply wrap_bound |]; lia). f_equal.
    unfold u32, wrap. rewrite <- !(Z.land_ones _ 7), <- !(Z.land_ones _ 32) by lia.
    rewrite <- !Z.shiftr_div_pow2, Z.shiftr_land by lia. rewrite <- Z.land_assoc. f_equal.
    apply Z.bits_inj'. intros i Hi. rewrite Z.land_spec, Z.shiftr_spec by lia.
    rewrite !Z.testbit_ones by lia.
    destruct (Z.ltb_spec i 7); rewrite ?andb_false_r; [| done].
    by rewrite !andb_true_r, (proj2 (Z.ltb_lt (i + k) 32)), (proj2 (Z.leb_le 0 (i + k))) by lia. }
  pose proof (Hbyte 0) as H0. rewrite Z.shiftr_0_r, Z.div_1_r in H0.
  rewrite H0, !Hbyte by lia. clear H0.
  rewrite !leb128_cons by (change (2 ^ 28) with 268435456 in *; dlia).
  assert (v / 2 ^ 21 = v / 128 / 128 / 128 /\ v / 2 ^ 14 = v / 128 / 128 /\
          v / 2 ^ 28 = v / 128 / 128 / 128 / 128) as (-> & -> & Ew)
    by (rewrite !Z.div_div by lia; done).
  change (2 ^ 7) with 128. rewrite <- Ew. cbn [app]. do 4 f_equal.
  set (w := v / 2 ^ 28) in *.
  assert (0 <= w < 2 ^ 36) by (subst w; change (2 ^ 28) with 268435456; dlia).
  rewrite (lor_add' (w mod 16) _ 4) by dlia. change (2 ^ 4) with 16.
  destruct (Z.ltb_spec (w / 16) 8).
  - cbn [leb128]. rewrite (proj2 (Z.ltb_lt w 128)) by dlia. f_equal.
    unfold u8. rewrite wrap_id; dlia.
  - rewrite leb128_cons by dlia.
    replace (Z.land (w / 16) 7) with ((w / 16) mod 8)
      by (change 7 with (Z.ones 3); by rewrite Z.land_ones).
    rewrite (lor_add' (w mod 16) _ 4) by dlia. change (2 ^ 4) with 16.
    rewrite u8_lor_128 by dlia. f_equal; [dlia |].
    rewrite Z.shiftr_div_pow2, Z.div_div by lia. change (16 * 2 ^ 3) with 128.
    rewrite uint64_pack_hi_leb128 by (change (128 ^ (Z.of_nat 5 + 1)) with (2 ^ 42); dlia).
    apply leb128_fuel; [| lia]. change (128 ^ (Z.of_nat 4 + 1)) with (2 ^ 35). dlia.
Qed.

(** ** Decoding *)

Lemma land_128 b : byte_ok b -> Z.land b 128 = if b <? 128 then 0 else 128.
Proof.
  intros Hb. unfold byte_ok in Hb.
  assert (forall n : nat, (n < 256)%nat ->
    (Z.land (Z.of_nat n) 128 =? if Z.of_nat n <? 128 then 0 else 128) = true) as H.
  { intros n Hn. do 256 (destruct n as [| n]; [reflexivity |]). lia. }
  specialize (H (Z.to_nat b)). rewrite Z2Nat.id in H by lia. apply Z.eqb_eq, H. lia.
Qed.

Lemma znth_drop_cons {A} (data : list A) i b bs :
  0 <= i -> drop (Z.to_nat i) data = b :: bs ->
  znth data i = Some b /\ drop (Z.to_nat (i + 1)) data = bs.
Proof.
  intros Hi E. unfold znth. rewrite decide_True by done.
  assert (data !! Z.to_nat i = Some b) as Hb.
  { rewrite <- (Nat.add_0_r (Z.to_nat i)), <- lookup_drop, E. done. }
  split; [done |]. rewrite (drop_S _ _ _ Hb) in E. injection E as E.
  rewrite Z2Nat.inj_add by lia. rewrite <- E. f_equal. lia.
Qed.

Lemma scan_loop_shape bs : leb128_shape bs -> forall n i data rest,
  0 <= i -> (length bs <= n)%nat -> drop (Z.to_nat i) data = bs ++ rest ->
  scan_loop n i data = Some (i + zlen bs - 1).
Proof.
  induction 1 as [b Hb | b bs Hb _ IH]; intros n i data rest Hi Hn E.
  all: destruct n as [| n]; [simpl in Hn; lia |]; cbn [scan_loop].
  all: destruct (znth_drop_cons data i _ _ Hi E) as [-> E'].
  all: simpl; rewrite land_128 by (unfold byte_ok; lia).
  - rewrite (proj2 (Z.ltb_lt b 128)) by lia. simpl. f_equal. unfold zlen. simpl. lia.
  - rewrite (proj2 (Z.ltb_ge b 128)) by lia. simpl.
    rewrite (IH n (i + 1) data rest); [| lia | simpl in Hn; lia | done].
    f_equal. autorewrite with zlen. lia.
Qed.

Lemma scan_varint_shape bs rest :
  leb128_shape bs -> (length bs <= 10)%nat ->
  scan_varint (zlen (bs ++ rest)) (bs ++ rest) = Some (zlen bs).
Proof.
  intros Hs Hl. unfold scan_varint. cbv zeta.
  assert (0 < length bs)%nat by (destruct Hs; simpl; lia).
  set (len := if 10 <? zlen (bs ++ rest) then 10 else zlen (bs ++ rest)).
  assert (zlen bs <= len) as Hlen.
  { subst len. unfold zlen. rewrite length_app. case_match; lia. }
  rewrite (scan_loop_shape bs Hs _ 0 _ rest); [| lia | unfold zlen in Hlen; lia | done].
  simpl. rewrite (proj2 (Z.eqb_neq _ _)) by lia. f_equal. lia.
Qed.

(** The scan never looks further than the buffer, whatever the bytes are. *)
Lemma scan_loop_total n i data :
  0 <= i -> i + Z.of_nat n <= zlen data ->
  exists j, scan_loop n i data = Some j /\ i <= j <= i + Z.of_nat n.
Proof.
  revert i. induction n as [| n IH]; intros i Hi Hn; cbn [scan_loop].
  { exists i. split; [done | lia]. }
  destruct (znth_lt data i) as [b ->]; [lia |]. simpl.
  case_match; [exists i; split; [done | lia] |].
  destruct (IH (i + 1)) as (j & -> & Hj); [lia | lia |]. exists j. split; [done | lia].
Qed.

Lemma scan_varint_total data :
  exists l, scan_varint (zlen data) data = Some l /\ 0 <= l <= 10 /\ l <= zlen data.
Proof.
  unfold scan_varint. cbv zeta. pose proof (zlen_nonneg data).
  set (len := if 10 <? zlen data then 10 else zlen data).
  assert (len <= 10 /\ 0 <= len <= zlen data) by (subst len; case_match; lia).
  destruct (scan_loop_total (Z.to_nat len) 0 data) as (j & -> & Hj); [lia | lia |]. simpl.
  rewrite Z2Nat.id in Hj by lia.
  destruct (Z.eqb_spec j len); eexists; (split; [done | lia]).
Qed.

Lemma shifted7_64 rv b s :
  0 <= s <= 63 -> 0 <= rv < 2 ^ s ->
  Z.lor rv (shifted7 64 b s) = (rv + b mod 128 * 2 ^ s) mod 2 ^ 64.
Proof.
  intros Hs Hrv. unfold shifted7, wrap. rewrite land_127, Z.shiftl_mul_pow2 by lia.
  set (c := b mod 128).
  assert (2 ^ 64 = 2 ^ s * 2 ^ (64 - s)) as E
    by (rewrite <- Z.pow_add_r by lia; f_equal; lia).
  assert ((c * 2 ^ s) mod 2 ^ 64 = (c mod 2 ^ (64 - s)) * 2 ^ s) as ->.
  { rewrite E, (Z.mul_comm (2 ^ s)). rewrite Z.mul_mod_distr_r by lia. done. }
  rewrite <- Z.shiftl_mul_pow2, lor_add by lia.
  assert (0 < 2 ^ s /\ 0 < 2 ^ (64 - s)) as [? ?] by (split; apply Z.pow_pos_nonneg; lia).
  rewrite E, Z.rem_mul_r by lia.
  rewrite Z.mod_add, (Z.mod_small rv), Z.div_add, (Z.div_small rv) by lia.
  rewrite Z.add_0_l. ring.
Qed.

Lemma shifted7_32 rv b s :
  0 <= s <= 25 -> 0 <= rv < 2 ^ s ->
  Z.lor rv (shifted7 32 b s) = rv + b mod 128 * 2 ^ s.
Proof.
  intros Hs Hrv. unfold shifted7. rewrite land_127.
  assert (0 <= b mod 128 < 128) by (apply Z.mod_pos_bound; lia).
  rewrite wrap_id; [apply lor_add; lia |]. rewrite Z.shiftl_mul_pow2 by lia.
  assert (2 ^ s <= 2 ^ 25) by (apply Z.pow_le_mono_r; lia). change (2 ^ 32) with (128 * 2 ^ 25).
  split; [nia |]. nia.
Qed.

Lemma parse_uint64_loop_spec n bs : forall i s rv data rest,
  length bs = n -> 0 <= i -> 0 <= s -> s + 7 * Z.of_nat n <= 70 ->
  0 <= rv < 2 ^ Z.min 64 s -> drop (Z.to_nat i) data = bs ++ rest ->
  parse_uint64_loop n i s rv data = Some ((rv + leb128_val bs * 2 ^ s) mod 2 ^ 64).
Proof.
  revert bs. induction n as [| n IH]; intros bs i s rv data rest Hl Hi Hs Hb Hrv E.
  - destruct bs; [| done]. cbn [parse_uint64_loop leb128_val].
    assert (2 ^ Z.min 64 s <= 2 ^ 64) by (apply Z.pow_le_mono_r; lia).
    rewrite Z.mod_small by lia. f_equal. lia.
  - destruct bs as [| b bs]; [done |]. cbn [parse_uint64_loop].
    destruct (znth_drop_cons data i _ _ Hi E) as [-> E']. simpl.
    rewrite Z.min_r in Hrv by lia. rewrite shifted7_64 by lia.
    erewrite (IH bs); [| simpl in Hl; lia | lia | lia | lia | | exact E'].
    + f_equal. cbn [leb128_val]. rewrite Zplus_mod_idemp_l. f_equal.
      rewrite Z.pow_add_r by lia. change (2 ^ 7) with 128. ring.
    + assert (0 <= b mod 128 < 128) by (apply Z.mod_pos_bound; lia).
      split; [apply Z.mod_pos_bound; lia |].
      destruct (Z.min_spec 64 (s + 7)) as [[? ->] | [? ->]]; [apply Z.mod_pos_bound; lia |].
      eapply Z.le_lt_trans; [apply Z.mod_le; nia |].
      rewrite Z.pow_add_r by lia. change (2 ^ 7) with 128. nia.
Qed.

Lemma parse_uint32_spec bs data rest :
  (1 <= length bs <= 4)%nat -> data = bs ++ rest ->
  parse_uint32 (zlen bs) data = Some (leb128_val bs).
Proof.
  intros Hl ->. unfold parse_uint32.
  assert (forall b, 0 <= b mod 128 < 128) as Hm by (intros; apply Z.mod_pos_bound; lia).
  destruct bs as [| b0 [| b1 [| b2 [| b3 [| ? ?]]]]]; simpl in Hl; try lia.
  all: autorewrite with zlen; simpl; rewrite land_127.
  all: try pose proof (Hm b0); try pose proof (Hm b1); try pose proof (Hm b2).
  all: rewrite ?(shifted7_32 _ b1), ?(shifted7_32 _ b2), ?(shifted7_32 _ b3) by (simpl; lia).
  all: f_equal; cbn [leb128_val]; lia.
Qed.

Lemma parse_uint64_spec bs rest :
  (1 <= length bs <= 10)%nat ->
  parse_uint64 (zlen bs) (bs ++ rest) = Some (leb128_val bs mod 2 ^ 64).
Proof.
  intros Hl. unfold parse_uint64.
  assert (forall b, 0 <= b mod 128 < 128) as Hm by (intros; apply Z.mod_pos_bound; lia).
  destruct (Z.ltb_spec (zlen bs) 5) as [H5 | H5]; unfold zlen in H5.
  { rewrite (parse_uint32_spec bs _ rest) by (done || lia). f_equal.
    rewrite Z.mod_small; [done |].
    destruct bs as [| b0 [| b1 [| b2 [| b3 [| ? ?]]]]]; simpl in Hl, H5; try lia.
    all: cbn [leb128_val]; try pose proof (Hm b0); try pose proof (Hm b1);
      try pose proof (Hm b2); try pose proof (Hm b3); lia. }
  destruct bs as [| b0 [| b1 [| b2 [| b3 bs]]]]; simpl in Hl, H5; try lia.
  simpl. rewrite land_127.
  pose proof (Hm b0); pose proof (Hm b1); pose proof (Hm b2); pose proof (Hm b3).
  rewrite (shifted7_64 _ b1), (Z.mod_small (_ + _)) by (simpl; lia).
  rewrite (shifted7_64 _ b2), (Z.mod_small (_ + _)) by (simpl; lia).
  rewrite (shifted7_64 _ b3), (Z.mod_small (_ + _)) by (simpl; lia).
  autorewrite with zlen.
  erewrite (parse_uint64_loop_spec _ bs); [| | lia | lia | | change (2 ^ Z.min 64 28) with (2 ^ 28); lia | reflexivity].
  - f_equal. cbn [leb128_val]. f_equal. lia.
  - unfold zlen. lia.
  - unfold zlen. lia.
Qed.

(** ** Zigzag *)

(** Parsing is total on the bytes of a scanned number, whatever they are, and gives 64 bits. *)
Lemma shifted7_bound w b s : 0 <= w -> 0 <= shifted7 w b s < 2 ^ w.
Proof. intros. by apply wrap_bound. Qed.

Lemma land_127_bound b k : 7 <= k -> 0 <= Z.land b 127 < 2 ^ k.
Proof.
  intros. rewrite land_127. assert (2 ^ 7 <= 2 ^ k) by (apply Z.pow_le_mono_r; lia).
  change (2 ^ 7) with 128 in *. pose proof (Z.mod_pos_bound b 128). lia.
Qed.

Create HintDb bits discriminated.
#[export] Hint Resolve lor_bound shifted7_bound land_127_bound : bits.
#[export] Hint Extern 1 (0 <= _) => lia : bits.
#[export] Hint Extern 1 (7 <= _) => lia : bits.

Lemma parse_uint64_loop_total n i s rv data :
  0 <= i -> i + Z.of_nat n <= zlen data -> 0 <= rv < 2 ^ 64 ->
  exists v, parse_uint64_loop n i s rv data = Some v /\ 0 <= v < 2 ^ 64.
Proof.
  revert i s rv. induction n as [| n IH]; intros i s rv Hi Hn Hrv; cbn [parse_uint64_loop].
  { by exists rv. }
  destruct (znth_lt data i) as [b ->]; [lia |]. cbn [mbind option_bind].
  apply IH; [lia | lia | auto with bits].
Qed.

Lemma parse_uint32_total l data :
  1 <= l <= zlen data -> exists v, parse_uint32 l data = Some v /\ 0 <= v < 2 ^ 32.
Proof.
  intros Hl. unfold parse_uint32.
  assert (forall b, 0 <= u32 b < 2 ^ 32) by (intros; by apply wrap_bound).
  repeat (match goal with
    | |- context [znth data ?i] => destruct (znth_lt data i) as [? ->]; [lia |]
    | |- context [?i <? l] => destruct (Z.ltb_spec i l)
    end; cbn [mbind option_bind]);
  eexists; (split; [reflexivity | auto 7 with bits]).
Qed.

Lemma parse_uint64_total l data :
  1 <= l <= zlen data -> exists v, parse_uint64 l data = Some v /\ 0 <= v < 2 ^ 64.
Proof.
  intros Hl. unfold parse_uint64. destruct (Z.ltb_spec l 5).
  - destruct (parse_uint32_total l data) as (v & E & Hv); [lia |]. exists v. split; [done | lia].
  - repeat (match goal with
      | |- context [znth data ?i] => destruct (znth_lt data i) as [? ->]; [lia |]
      end; cbn [mbind option_bind]).
    apply parse_uint64_loop_total; [lia | lia | auto 8 with bits].
Qed.

Definition zigzag_spec (n : Z) : Z := if 0 <=? n then 2 * n else -2 * n - 1.

Lemma lxor_ones x w : 0 <= w -> 0 <= x < 2 ^ w -> Z.lxor x (2 ^ w - 1) = 2 ^ w - 1 - x.
Proof.
  intros Hw Hx. replace (2 ^ w - 1) with (Z.ones w) by (rewrite Z.ones_equiv; lia).
  rewrite Z.sub_nocarry_ldiff.
  - apply Z.bits_inj'. intros i Hi. rewrite Z.lxor_spec, Z.ldiff_spec, Z.testbit_ones_nonneg by lia.
    destruct (Z.ltb_spec i w); [by destruct (Z.testbit x i) |].
    rewrite <- (Z.mod_small x (2 ^ w)), Z.mod_pow2_bits_high by lia. done.
  - by rewrite Z.ldiff_ones_r, Z.shiftr_div_pow2, Z.div_small, Z.shiftl_0_l.
Qed.

(** The encoding of a signed [w]-bit number and its decoding, for [w] = 32 and 64. *)
Lemma zigzag_encode_shape w n :
  0 < w -> - 2 ^ (w - 1) <= n < 2 ^ (w - 1) ->
  Z.lxor (wrap w (Z.shiftl (wrap w n) 1)) (wrap w (Z.shiftr n (w - 1))) = zigzag_spec n.
Proof.
  intros Hw Hn. unfold zigzag_spec.
  assert (2 ^ w = 2 * 2 ^ (w - 1)) as E
    by (rewrite <- Z.pow_succ_r by lia; f_equal; lia).
  rewrite Z.shiftl_mul_pow2, Z.shiftr_div_pow2 by lia. change (2 ^ 1) with 2.
  destruct (Z.leb_spec 0 n).
  - rewrite (wrap_id w n), Z.div_small, (wrap_id w 0), (wrap_id w (n * 2)), Z.lxor_0_r by lia. lia.
  - assert (n / 2 ^ (w - 1) = -1) as -> by (symmetry; apply (Z.div_unique _ _ _ (n + 2 ^ (w - 1))); lia).
    assert (wrap w (-1) = 2 ^ w - 1) as ->
      by (unfold wrap; symmetry; apply (Z.mod_unique _ _ (-1)); lia).
    assert (wrap w n = n + 2 ^ w) as ->
      by (unfold wrap; symmetry; apply (Z.mod_unique _ _ (-1)); lia).
    assert (wrap w ((n + 2 ^ w) * 2) = 2 * n + 2 ^ w) as ->
      by (unfold wrap; symmetry; apply (Z.mod_unique _ _ 1); lia).
    rewrite lxor_ones by lia. lia.
Qed.

Lemma zigzag_decode64_encode n :
  - 2 ^ 63 <= n < 2 ^ 63 -> zigzag_decode64 (zigzag_spec n) = n.
Proof.
  intros Hn. unfold zigzag_decode64, zigzag_spec.
  change (Z.land ?z 1) with (Z.land z (Z.ones 1)).
  rewrite Z.land_ones, Z.shiftr_div_pow2 by lia. change (2 ^ 1) with 2.
  destruct (Z.leb_spec 0 n).
  - replace (2 * n mod 2) with 0 by dlia. replace (2 * n / 2) with n by dlia.
    change (u64 (u64 (Z.lnot 0) + 1)) with 0. rewrite Z.lxor_0_r. unfold s64.
    apply swrap_id; lia.
  - replace ((-2 * n - 1) mod 2) with 1 by dlia. replace ((-2 * n - 1) / 2) with (- n - 1) by dlia.
    change (u64 (u64 (Z.lnot 1) + 1)) with (2 ^ 64 - 1). rewrite lxor_ones by lia.
    unfold s64, swrap. change (64 - 1) with 63.
    replace (2 ^ 64 - 1 - (- n - 1) + 2 ^ 63) with (n + 2 ^ 63 + 1 * 2 ^ 64) by lia.
    rewrite Z.mod_add, Z.mod_small by lia. lia.
Qed.

Lemma zigzag_spec_bound w n :
  0 < w -> - 2 ^ (w - 1) <= n < 2 ^ (w - 1) -> 0 <= zigzag_spec n < 2 ^ w.
Proof.
  intros Hw Hn. unfold zigzag_spec.
  assert (2 ^ w = 2 * 2 ^ (w - 1)) as E
    by (rewrite <- Z.pow_succ_r by lia; f_equal; lia).
  case_match; lia.
Qed.

Lemma zigzag_encode64_spec n : - 2 ^ 63 <= n < 2 ^ 63 -> zigzag_encode64 n = zigzag_spec n.
Proof. intros. by apply (zigzag_encode_shape 64). Qed.

Lemma zigzag_encode32_spec n : - 2 ^ 31 <= n < 2 ^ 31 -> zigzag_encode32 n = zigzag_spec n.
Proof. intros. by apply (zigzag_encode_shape 32). Qed.

(** ** What the writers write and the readers read back *)

Lemma uint64_pack_shape v : 0 <= v < 2 ^ 64 ->
  leb128_shape (uint64_pack v) /\ (1 <= length (uint64_pack v) <= 10)%nat /\
  leb128_val (uint64_pack v) = v.
Proof.
  intros Hv. rewrite uint64_pack_leb128 by done. unfold leb128_64.
  assert (0 <= v < 128 ^ (Z.of_nat 9 + 1)) by (change (128 ^ (Z.of_nat 9 + 1)) with (2 ^ 70); lia).
  split_and!; [by apply leb128_has_shape | apply leb128_length | apply leb128_length |
               by apply leb128_val_leb128].
Qed.

(** On 32-bit values, the two writers agree. *)
Lemma uint32_pack_uint64_pack v : 0 <= v < 2 ^ 32 -> uint32_pack v = uint64_pack v.
Proof.
  intros Hv. rewrite uint32_pack_leb128, uint64_pack_leb128 by lia. symmetry.
  apply leb128_fuel; [change (128 ^ (Z.of_nat 4 + 1)) with (2 ^ 35); lia | lia].
Qed.

Lemma uint32_pack_length v : 0 <= v < 2 ^ 32 -> (1 <= length (uint32_pack v) <= 5)%nat.
Proof. intros Hv. rewrite uint32_pack_leb128 by done. apply leb128_length. Qed.

Lemma sint32_pack_sint64_pack v : - 2 ^ 31 <= v < 2 ^ 31 -> sint32_pack v = sint64_pack v.
Proof.
  intros Hv. unfold sint32_pack, sint64_pack.
  rewrite zigzag_encode32_spec, zigzag_encode64_spec by lia.
  apply uint32_pack_uint64_pack, (zigzag_spec_bound 32); [done | lia].
Qed.

(** [uint32ByteSize] is the number of bytes that [uint32_pack] writes. *)
Lemma uint32ByteSize_length v : 0 <= v -> uint32ByteSize v = zlen (uint32_pack v).
Proof.
  intros Hv. unfold uint32ByteSize, uint32_pack, zlen. cbv zeta.
  repeat case_match; done.
Qed.

(** ** Properties *)

(** reading a varint back. Whatever follows it in the buffer, [scan_varint] finds
    the length of what [uint64_pack] wrote, at most ten bytes, and [parse_uint64] restores the
    64-bit value; signed values survive [sint64_pack] and [parse_int64] in the same way. *)
Theorem varint64_roundtrip v n rest :
  0 <= v < 2 ^ 64 -> - 2 ^ 63 <= n < 2 ^ 63 ->
  (let w := uint64_pack v in
   scan_varint (zlen (w ++ rest)) (w ++ rest) = Some (zlen w) /\ zlen w <= 10 /\
   parse_uint64 (zlen w) (w ++ rest) = Some v) /\
  (let w := sint64_pack n in
   scan_varint (zlen (w ++ rest)) (w ++ rest) = Some (zlen w) /\ zlen w <= 10 /\
   parse_int64 (zlen w) (w ++ rest) = Some n).
Proof.
  intros Hv Hn. split; cbv zeta.
  - destruct (uint64_pack_shape v Hv) as (Hs & Hl & Hval). split_and!.
    + apply scan_varint_shape; [done | lia].
    + unfold zlen. lia.
    + rewrite parse_uint64_spec by done. f_equal. rewrite Hval. by apply Z.mod_small.
  - unfold sint64_pack. rewrite zigzag_encode64_spec by done.
    pose proof (zigzag_spec_bound 64 n eq_refl Hn) as Hz.
    destruct (uint64_pack_shape _ Hz) as (Hs & Hl & Hval). split_and!.
    + apply scan_varint_shape; [done | lia].
    + unfold zlen. lia.
    + unfold parse_int64. rewrite parse_uint64_spec by done. cbn [mbind option_bind]. f_equal.
      rewrite Hval, Z.mod_small by done. by apply zigzag_decode64_encode.
Qed.

Lemma varint64_roundtrip_witness :
  parse_uint64 (zlen (uint64_pack 624485000000)) (uint64_pack 624485000000 ++ [7]) =
    Some 624485000000 /\
  parse_int64 (zlen (sint64_pack (-123456))) (sint64_pack (-123456) ++ [7]) = Some (-123456).
Proof.
  destruct (varint64_roundtrip 624485000000 (-123456) [7]) as [(_ & _ & H1) (_ & _ & H2)];
    [lia | lia |]. cbv zeta in H1, H2. split; assumption.
Defined.

(** the unrolled writers are LEB128. [uint64_pack], which works on the two 32-bit
    halves, and [uint32_pack] write the same bytes as the reference encoder that emits one
    seven-bit group after the other; no shorter encoding is possible, since the last group of
    a longer one is not zero; and [uint32ByteSize] is the number of bytes written. *)
Theorem uint64_pack_reference v :
  0 <= v < 2 ^ 64 ->
  uint64_pack v = leb128_64 v /\
  (v < 2 ^ 32 -> uint32_pack v = leb128_64 v /\ uint32ByteSize v = zlen (uint32_pack v)) /\
  (128 <= v -> 128 ^ (zlen (uint64_pack v) - 1) <= v).
Proof.
  intros Hv. split_and!.
  - by apply uint64_pack_leb128.
  - intros Hv'. split; [| apply uint32ByteSize_length; lia].
    rewrite uint32_pack_uint64_pack by lia. by apply uint64_pack_leb128.
  - intros H128. rewrite uint64_pack_leb128 by done. unfold leb128_64.
    enough (forall n x, 0 < x -> 128 ^ (zlen (leb128 n x) - 1) <= x) as H by (apply H; lia).
    clear. induction n as [| n IH]; intros x Hx; cbn [leb128];
      [change (zlen [x] - 1) with 0; lia |].
    case_match eqn:E; [change (zlen [x] - 1) with 0; lia |].
    specialize (IH (x / 128)). autorewrite with zlen.
    assert (1 <= zlen (leb128 n (x / 128)))
      by (unfold zlen; pose proof (leb128_length n (x / 128)); lia).
    replace (1 + zlen (leb128 n (x / 128)) - 1) with (1 + (zlen (leb128 n (x / 128)) - 1)) by lia.
    rewrite Z.pow_add_r by lia. change (128 ^ 1) with 128.
    apply Z.ltb_ge in E. assert (0 < x / 128) as Hp by dlia. specialize (IH Hp). dlia.
Qed.

Lemma uint64_pack_reference_witness :
  0 <= 624485 < 2 ^ 64 /\ uint64_pack 624485 = [229; 142; 38] /\
  128 ^ (zlen (uint64_pack 624485) - 1) <= 624485.
Proof.
  destruct (uint64_pack_reference 624485) as (H1 & _ & H3); [lia |].
  split_and!; [lia | lia | rewrite H1; reflexivity | apply H3; lia].
Defined.
