(* ===== verification/Lsn.v ===== *)
(** Log sequence numbers: [tools/lsn.h].

    An [lsn_t] packs a server id (0..999) and a counter of fifteen decimal digits in one
    signed 64-bit number; the largest counter marks an empty LSN. *)

From S2P Require Import Prelude.

(** ** [lsn_t] *)

Definition kMaxCounter : Z := 1000000000000000.
Definition kMinServerIDValue : Z := 0.
Definition kMaxServerIDValue : Z := 999.
Definition kDefaultCounter : Z := kMaxCounter - 1.

Record lsn_t : Set := mk_lsn { payload_ : Z }.

#[export] Instance lsn_t_eq_dec : EqDecision lsn_t.
Proof. solve_decision. Defined.

(** The default member initializer. *)
Definition lsn_empty : lsn_t := mk_lsn kDefaultCounter.

(** C++ division truncates. *)
Definition Counter (l : lsn_t) : Z := Z.rem (payload_ l) kMaxCounter.
Definition Server (l : lsn_t) : Z := s16 (Z.quot (payload_ l) kMaxCounter).

Record LSNUnpacked : Set := { server : Z; counter : Z }.
Definition Unpack (l : lsn_t) : LSNUnpacked := {| server := Server l; counter := Counter l |}.

Definition isEmpty (l : lsn_t) : bool := Counter l =? kDefaultCounter.

Definition validateServerId (server : Z) : result unit :=
  if server <? kMinServerIDValue then Fail (Throw errLogic)
  else if kMaxServerIDValue <? server then Fail (Throw errLogic)
  else Ok tt.

Definition validateCounter (counter : Z) : result unit :=
  if kDefaultCounter <? counter then Fail (Throw errLogic) else Ok tt.

(** [lsn_t(int64_t counter, int16_t server)] *)
Definition lsn_make (counter server : Z) : result lsn_t :=
  _ ← validateCounter counter;
  _ ← validateServerId server;
  let counter := if counter <? 0 then kDefaultCounter else counter in
  Ok (mk_lsn (server * kMaxCounter + counter)).

(** [lsn_t(int64_t v)] *)
Definition lsn_of_int64 (v : Z) : result lsn_t :=
  lsn_make (Z.rem v kMaxCounter) (s16 (Z.quot v kMaxCounter)).

(** [operator int64_t] *)
Definition lsn_to_int64 (l : lsn_t) : Z := payload_ l.

Definition SetServer (server : Z) (l : lsn_t) : result lsn_t :=
  _ ← validateServerId server;
  Ok (mk_lsn (server * kMaxCounter + Counter l)).

Definition SetCounter (counter : Z) (l : lsn_t) : result lsn_t :=
  _ ← validateCounter counter;
  let counter := if counter <? 0 then kDefaultCounter else counter in
  Ok (mk_lsn (Server l * kMaxCounter + counter)).

(** [++lsn]; the postfix form returns the old value and stores this one. *)
Definition lsn_incr (l : lsn_t) : result lsn_t := SetCounter (Counter l + 1) l.

Definition lsn_eqb (a b : lsn_t) : bool := payload_ a =? payload_ b.

Definition compare (a b : lsn_t) : result Z :=
  if negb (Server a =? Server b) then Fail (Throw errLogic)
  else if Counter a <? Counter b then Ok (-1)
  else if Counter b <? Counter a then Ok 1
  else Ok 0.

Definition lsn_lt (a b : lsn_t) : result bool := c ← compare a b; Ok (c =? -1).
Definition lsn_le (a b : lsn_t) : result bool := c ← compare a b; Ok (c <=? 0).
Definition lsn_gt (a b : lsn_t) : result bool := c ← compare a b; Ok (c =? 1).
Definition lsn_ge (a b : lsn_t) : result bool := c ← compare a b; Ok (0 <=? c).

(** [FromJSON]: the two numbers of the JSON object, absent ones with their defaults;
    [server] is an [int] that the constructor takes as an [int16_t]. *)
Definition lsn_FromJSON (server_id counter : option Z) : result lsn_t :=
  lsn_make (default kDefaultCounter counter) (s16 (default 0 server_id)).

(** [GetJSON] *)
Definition lsn_GetJSON (l : lsn_t) : Z * Z := (Server l, Counter l).

(** ** [ExtendedLsn] *)

Record ExtendedLsn : Set := mk_extlsn { nsVersion_ : lsn_t; lsn_ : lsn_t }.

Definition ext_empty : ExtendedLsn := mk_extlsn lsn_empty lsn_empty.

Definition IsCompatibleByNsVersion (a b : ExtendedLsn) : bool :=
  (Server (nsVersion_ a) =? Server (nsVersion_ b)) && lsn_eqb (nsVersion_ a) (nsVersion_ b).

Definition ext_IsEmpty (a : ExtendedLsn) : bool := isEmpty (nsVersion_ a) && isEmpty (lsn_ a).

Definition HasNewerCounterThan (a r : ExtendedLsn) : bool :=
  let rNsV := Counter (nsVersion_ r) in
  let lNsV := Counter (nsVersion_ a) in
  isEmpty (lsn_ r) || isEmpty (nsVersion_ r) || (rNsV <? lNsV) ||
  ((lNsV =? rNsV) && (Counter (lsn_ r) <? Counter (lsn_ a))).

Definition ext_neqb (a r : ExtendedLsn) : bool :=
  negb (Server (nsVersion_ a) =? Server (nsVersion_ r)) ||
  negb (Counter (nsVersion_ a) =? Counter (nsVersion_ r)) ||
  negb (Server (lsn_ a) =? Server (lsn_ r)) ||
  negb (Counter (lsn_ a) =? Counter (lsn_ r)).

Definition ext_eqb (a r : ExtendedLsn) : bool := negb (ext_neqb a r).

(** ** The invariant of an LSN *)

(** The server and the counter are in range, and the payload is their packing. *)
Definition lsn_wf (l : lsn_t) : Prop := 0 <= payload_ l < 1000 * kMaxCounter.

#[export] Instance lsn_wf_dec l : Decision (lsn_wf l).
Proof. unfold lsn_wf. apply _. Defined.

Definition mk (counter server : Z) : lsn_t := mk_lsn (server * kMaxCounter + counter).

Ltac lsn_unfold :=
  unfold lsn_make, SetServer, SetCounter, lsn_incr, validateCounter, validateServerId,
    lsn_wf, mk, Counter, Server, isEmpty, kDefaultCounter, kMaxServerIDValue,
    kMinServerIDValue, kMaxCounter in *.

Lemma lsn_wf_empty : lsn_wf lsn_empty.
Proof. unfold lsn_empty. lsn_unfold. simpl. lia. Qed.

Lemma s16_id x : - 32768 <= x < 32768 -> s16 x = x.
Proof. intros. unfold s16. apply swrap_id; [done | simpl; lia]. Qed.

Lemma Counter_wf l : lsn_wf l -> Counter l = payload_ l mod kMaxCounter.
Proof. intros H. lsn_unfold. apply Z.rem_mod_nonneg; lia. Qed.

Lemma Server_wf l : lsn_wf l -> Server l = payload_ l / kMaxCounter.
Proof.
  intros H. lsn_unfold. rewrite Z.quot_div_nonneg by lia. apply s16_id. dlia.
Qed.

Lemma Counter_bound l : lsn_wf l -> 0 <= Counter l < kMaxCounter.
Proof. intros H. rewrite Counter_wf by done. apply Z.mod_pos_bound. done. Qed.

Lemma Server_bound l : lsn_wf l -> 0 <= Server l <= 999.
Proof. intros H. rewrite Server_wf by done. lsn_unfold. dlia. Qed.

Lemma lsn_eta l : lsn_wf l -> l = mk (Counter l) (Server l).
Proof.
  intros H. rewrite Counter_wf, Server_wf by done. destruct l as [p]. unfold mk. simpl.
  f_equal. unfold kMaxCounter. dlia.
Qed.

Section Mk.
Context (c s : Z) (Hc : 0 <= c < kMaxCounter) (Hs : 0 <= s <= 999).

Lemma mk_wf : lsn_wf (mk c s).
Proof. lsn_unfold. simpl. lia. Qed.

Lemma Counter_mk : Counter (mk c s) = c.
Proof. rewrite (Counter_wf _ mk_wf). unfold mk, kMaxCounter in *. simpl. dlia. Qed.

Lemma Server_mk : Server (mk c s) = s.
Proof. rewrite (Server_wf _ mk_wf). unfold mk, kMaxCounter in *. simpl. dlia. Qed.

Lemma lsn_make_ok : lsn_make c s = Ok (mk c s).
Proof.
  lsn_unfold. rewrite (proj2 (Z.ltb_ge _ c)) by lia. simpl.
  rewrite (proj2 (Z.ltb_ge s 0)), (proj2 (Z.ltb_ge 999 s)) by lia. simpl.
  by rewrite (proj2 (Z.ltb_ge c 0)) by lia.
Qed.
End Mk.

(** Every successful constructor and setter gives a well-formed LSN. *)
Lemma lsn_make_inv c s l :
  lsn_make c s = Ok l ->
  0 <= s <= 999 /\ c < kMaxCounter /\ l = mk (if c <? 0 then kDefaultCounter else c) s.
Proof.
  unfold lsn_make, validateCounter, validateServerId.
  destruct (Z.ltb_spec kDefaultCounter c); [done |]. simpl.
  destruct (Z.ltb_spec s kMinServerIDValue); [done |].
  destruct (Z.ltb_spec kMaxServerIDValue s); [done |]. simpl.
  intros [= <-]. lsn_unfold. split_and!; (lia || done).
Qed.

Lemma lsn_make_wf c s l : lsn_make c s = Ok l -> lsn_wf l.
Proof.
  intros (? & ? & ->)%lsn_make_inv. apply mk_wf; [| done].
  unfold kDefaultCounter, kMaxCounter in *. case_match; lia.
Qed.

Lemma SetCounter_make c l : lsn_wf l -> SetCounter c l = lsn_make c (Server l).
Proof.
  intros H. unfold SetCounter, lsn_make. destruct (validateCounter c); [| done]. simpl.
  pose proof (Server_bound l H). unfold validateServerId, kMinServerIDValue, kMaxServerIDValue.
  rewrite (proj2 (Z.ltb_ge (Server l) 0)), (proj2 (Z.ltb_ge 999 (Server l))) by lia. done.
Qed.

Lemma SetCounter_ok c l :
  lsn_wf l -> 0 <= c < kMaxCounter -> SetCounter c l = Ok (mk c (Server l)).
Proof.
  intros H Hc. rewrite SetCounter_make by done. apply lsn_make_ok; [done |].
  by apply Server_bound.
Qed.

Lemma isEmpty_mk c s :
  0 <= c < kMaxCounter -> 0 <= s <= 999 -> isEmpty (mk c s) = (c =? kDefaultCounter).
Proof. intros. unfold isEmpty. by rewrite Counter_mk. Qed.

#[export] Hint Resolve lsn_wf_empty Counter_bound Server_bound mk_wf : lsn.

Lemma compare_same a b :
  Server a = Server b -> exists c, compare a b = Ok c /\ c = Z.sgn (Counter a - Counter b).
Proof.
  intros E. unfold compare. rewrite (proj2 (Z.eqb_eq _ _) E). simpl.
  repeat (case_match; rewrite ?Z.ltb_lt, ?Z.ltb_ge in *); eexists; (split; [done | lia]).
Qed.

(** ** Properties *)

(** an LSN is the pair of its server and its counter. The 64-bit form, the pair and the
    JSON form of a well-formed LSN all read back to the same LSN; every constructor and setter
    that returns gives a well-formed LSN that fits in a signed 64-bit number, and whatever
    64-bit number is given, the constructor returns or throws [errLogic]. *)
Theorem lsn_roundtrip :
  (forall l, lsn_wf l ->
     lsn_to_int64 l < 2 ^ 63 /\
     lsn_of_int64 (lsn_to_int64 l) = Ok l /\
     lsn_make (counter (Unpack l)) (server (Unpack l)) = Ok l /\
     lsn_FromJSON (Some (fst (lsn_GetJSON l))) (Some (snd (lsn_GetJSON l))) = Ok l) /\
  (forall v, match lsn_of_int64 v with
             | Ok l => lsn_wf l
             | Fail f => f = Throw errLogic
             end) /\
  (forall c s l, lsn_wf l ->
     (SetCounter c l = Fail (Throw errLogic) \/
      exists l', SetCounter c l = Ok l' /\ lsn_wf l' /\ Server l' = Server l /\
                 Counter l' = if c <? 0 then kDefaultCounter else c) /\
     (SetServer s l = Fail (Throw errLogic) \/
      exists l', SetServer s l = Ok l' /\ lsn_wf l' /\ Server l' = s /\ Counter l' = Counter l)).
Proof.
  split_and!.
  - intros l Hl. pose proof (Counter_bound l Hl) as Hc. pose proof (Server_bound l Hl) as Hs.
    assert (lsn_make (Counter l) (Server l) = Ok l) as E
      by (rewrite lsn_make_ok by done; by rewrite <- lsn_eta).
    split_and!; [| exact E | exact E |].
    + unfold lsn_wf, kMaxCounter, lsn_to_int64 in *. lia.
    + unfold lsn_FromJSON. simpl. by rewrite s16_id by lia.
  - intros v. unfold lsn_of_int64. destruct (lsn_make _ _) eqn:E; [by eapply lsn_make_wf |].
    revert E. unfold lsn_make, validateCounter, validateServerId.
    repeat (case_match; simpl; try done); by intros [= <-].
  - intros c s l Hl. pose proof (Counter_bound l Hl). split.
    + rewrite SetCounter_make by done. destruct (lsn_make c (Server l)) as [l' | f] eqn:E.
      * right. exists l'. pose proof (lsn_make_wf _ _ _ E).
        apply lsn_make_inv in E as (Hs & Hc & ->). unfold kDefaultCounter, kMaxCounter in *.
        split_and!; [done | done | |]; case_match; rewrite ?Server_mk, ?Counter_mk;
          unfold kMaxCounter; lia.
      * left. revert E. unfold lsn_make, validateCounter, validateServerId.
        repeat (case_match; simpl; try done); by intros [= <-].
    + unfold SetServer, validateServerId, kMinServerIDValue, kMaxServerIDValue.
      destruct (Z.ltb_spec s 0); [by left |]. destruct (Z.ltb_spec 999 s); [by left |].
      right. exists (mk (Counter l) s). rewrite Server_mk, Counter_mk by lia.
      split_and!; [done | apply mk_wf; lia | done | done].
Qed.

(** [HasNewerCounterThan] is the lexicographic order of (namespace version counter,
    LSN counter) on extended LSNs without an empty part: irreflexive, transitive and total;
    an LSN with an empty part is older than every other one. Incrementing an LSN gives the
    next greater one of the same server, and throws on the empty LSN. *)
Theorem ext_lsn_newer_order :
  (forall a r, HasNewerCounterThan a r = true <->
     isEmpty (lsn_ r) = true \/ isEmpty (nsVersion_ r) = true \/
     Counter (nsVersion_ r) < Counter (nsVersion_ a) \/
     (Counter (nsVersion_ a) = Counter (nsVersion_ r) /\ Counter (lsn_ r) < Counter (lsn_ a))) /\
  (forall a b c, HasNewerCounterThan a b = true -> HasNewerCounterThan b c = true ->
     isEmpty (lsn_ b) = false -> isEmpty (nsVersion_ b) = false ->
     HasNewerCounterThan a c = true) /\
  (forall l, lsn_wf l ->
     if isEmpty l then lsn_incr l = Fail (Throw errLogic)
     else exists l', lsn_incr l = Ok l' /\ lsn_wf l' /\ Counter l' = Counter l + 1 /\
                     lsn_lt l l' = Ok true /\ lsn_ge l l' = Ok false).
Proof.
  assert (forall a r, HasNewerCounterThan a r = true <->
     isEmpty (lsn_ r) = true \/ isEmpty (nsVersion_ r) = true \/
     Counter (nsVersion_ r) < Counter (nsVersion_ a) \/
     (Counter (nsVersion_ a) = Counter (nsVersion_ r) /\ Counter (lsn_ r) < Counter (lsn_ a)))
    as Hspec.
  { intros a r. unfold HasNewerCounterThan. cbv zeta.
    rewrite !orb_true_iff, andb_true_iff, !Z.ltb_lt, Z.eqb_eq. tauto. }
  split_and!; [exact Hspec | |].
  - intros a b c Hab Hbc E1 E2. rewrite Hspec in *. rewrite E1, E2 in Hab.
    destruct Hab as [? | [? | Hab]]; [done | done |].
    destruct Hbc as [? | [? | Hbc]]; [by left | by right; left |]. right; right. lia.
  - intros l Hl. pose proof (Counter_bound l Hl). pose proof (Server_bound l Hl).
    unfold isEmpty. destruct (Z.eqb_spec (Counter l) kDefaultCounter) as [E | E].
    + unfold lsn_incr. by rewrite E.
    + assert (0 <= Counter l + 1 < kMaxCounter)
        by (unfold kDefaultCounter, kMaxCounter in *; lia).
      exists (mk (Counter l + 1) (Server l)). unfold lsn_incr. rewrite SetCounter_ok by done.
      rewrite Counter_mk by done. split_and!; [done | by apply mk_wf | done | |].
      all: unfold lsn_lt, lsn_ge; destruct (compare_same l (mk (Counter l + 1) (Server l)))
        as (c & -> & ->); [by rewrite Server_mk |].
      all: rewrite Counter_mk by done; simpl; f_equal.
      all: replace (Counter l - (Counter l + 1)) with (-1) by lia; done.
Qed.

Lemma lsn_roundtrip_witness :
  lsn_wf (mk 42 5) /\ lsn_of_int64 5000000000000042 = Ok (mk 42 5).
Proof.
  split; [unfold lsn_wf, mk, kMaxCounter; simpl; lia |].
  apply (proj1 lsn_roundtrip (mk 42 5)). unfold lsn_wf, mk, kMaxCounter. simpl. lia.
Defined.

Lemma ext_lsn_newer_order_witness :
  HasNewerCounterThan (mk_extlsn (mk 3 1) (mk 42 1)) (mk_extlsn (mk 2 1) (mk 50 1)) = true /\
  exists l', lsn_incr (mk 42 5) = Ok l' /\ Counter l' = 43.
Proof.
  destruct ext_lsn_newer_order as (H1 & _ & H3). split.
  - apply H1. right; right; left. reflexivity.
  - assert (lsn_wf (mk 42 5)) as Hwf by (unfold lsn_wf, mk, kMaxCounter; simpl; lia).
    pose proof (H3 (mk 42 5) Hwf) as H. change (isEmpty (mk 42 5)) with false in H.
    destruct H as (l' & E & _ & Hc & _). exists l'. split; [exact E | exact Hc].
Defined.
