(* ===== verification/CTag.v ===== *)
(** CJSON tags: [core/cjson/ctag.h], with the tag numbers of [core/tag_name_index.h] and the
    tag types of [core/type_consts.h]. *)

From S2P Require Import Prelude.

(** ** [TagType] *)

Inductive TagType : Set :=
| TAG_VARINT | TAG_DOUBLE | TAG_STRING | TAG_BOOL | TAG_NULL | TAG_ARRAY | TAG_OBJECT | TAG_END
| TAG_UUID | TAG_FLOAT.

#[export] Instance TagType_eq_dec : EqDecision TagType.
Proof. solve_decision. Defined.

Definition TagType_num (t : TagType) : Z :=
  match t with
  | TAG_VARINT => 0 | TAG_DOUBLE => 1 | TAG_STRING => 2 | TAG_BOOL => 3 | TAG_NULL => 4
  | TAG_ARRAY => 5 | TAG_OBJECT => 6 | TAG_END => 7 | TAG_UUID => 8 | TAG_FLOAT => 9
  end.

(** ** [TagName] and [TagIndex] *)

(** The constructors from integers: the value if it fits in the type. *)
Definition TagName_make (v : Z) : result Z :=
  if (v <? 0) || (65535 <? v) then Fail (Throw errLogic) else Ok v.

Definition TagName_Empty : Z := 0.
Definition TagName_IsEmpty (t : Z) : bool := t =? 0.

Definition all_v : Z := 4294967295.

Definition TagIndex_make (v : Z) : result Z :=
  if (v <? 0) || (all_v <=? v) then Fail (Throw errLogic) else Ok v.

Definition TagIndex_All : Z := all_v.
Definition TagIndex_IsAll (t : Z) : bool := t =? all_v.
Definition TagIndex_eqb (a b : Z) : bool := TagIndex_IsAll a || TagIndex_IsAll b || (a =? b).

(** ** [ctag]

    The type of a tag is kept as its number: a tag that is read from a buffer may hold a
    number that no [TagType] has. *)

Definition kTypeBits : Z := 3.
Definition kNameBits : Z := 12.
Definition kFieldBits : Z := 10.
Definition kReservedBits : Z := 4.
Definition kFieldOffset : Z := kTypeBits + kNameBits.
Definition kType1Offset : Z := kNameBits + kFieldBits + kReservedBits.
Definition kTypeMask : Z := Z.shiftl 1 kTypeBits - 1.
Definition kInvertedTypeMask : Z := u32 (Z.lnot kTypeMask).
Definition kFieldMask : Z := Z.shiftl 1 kFieldBits - 1.
Definition kNameMask : Z := Z.shiftl 1 kNameBits - 1.
Definition kNameMax : Z := Z.shiftl 1 kNameBits - 1.

(** The number [tag_]. *)
Definition ctag_bits (tagType tagName tagField : Z) : Z :=
  Z.lor (Z.lor (Z.lor (Z.land (u32 tagType) kTypeMask) (u32 (Z.shiftl (u32 tagName) kTypeBits)))
               (u32 (Z.shiftl (u32 (tagField + 1)) kFieldOffset)))
        (u32 (Z.shiftl (Z.land (u32 tagType) kInvertedTypeMask) kType1Offset)).

(** [ctag(TagType, TagName, int)] with its assertions. *)
Definition ctag_make (tagType tagName tagField : Z) : result Z :=
  if (0 <=? tagName) && (tagName <=? kNameMax) && (-1 <=? tagField) &&
     (tagField + 1 <? Z.shiftl 1 kFieldBits)
  then Ok (ctag_bits tagType tagName tagField)
  else Fail AssertFail.

Definition ctag_Type (tag : Z) : Z :=
  Z.lor (Z.land tag kTypeMask) (Z.land (Z.shiftr tag kType1Offset) kInvertedTypeMask).
Definition ctag_Name (tag : Z) : Z := Z.land (Z.shiftr tag kTypeBits) kNameMask.
Definition ctag_Field (tag : Z) : Z := Z.land (Z.shiftr tag kFieldOffset) kFieldMask - 1.

(** [ctag(uint64_t)], used by [Deserialize]: the parts are read from the low 32 bits. *)
Definition ctag_of_number (tag : Z) : result Z :=
  let tag := u32 tag in ctag_make (ctag_Type tag) (ctag_Name tag) (ctag_Field tag).

Definition kCTagEnd : Z := ctag_bits (TagType_num TAG_END) TagName_Empty (-1).

(** ** [carraytag] *)

Definition kCountBits : Z := 24.
Definition kArrayTypeBits : Z := 6.
Definition kCountMask : Z := Z.shiftl 1 kCountBits - 1.
Definition kArrayTypeMask : Z := Z.shiftl 1 kArrayTypeBits - 1.

Definition carraytag_make (count tag : Z) : result Z :=
  if count <? Z.shiftl 1 kCountBits
  then Ok (Z.lor count (u32 (Z.shiftl (u32 tag) kCountBits)))
  else Fail AssertFail.

Definition carraytag_Type (atag : Z) : Z := Z.land (Z.shiftr atag kCountBits) kArrayTypeMask.
Definition carraytag_Count (atag : Z) : Z := Z.land atag kCountMask.

(** [carraytag(uint32_t)], used by [Deserialize]. *)
Definition carraytag_of_number (atag : Z) : result Z :=
  carraytag_make (carraytag_Count atag) (carraytag_Type atag).

(** ** Layout *)

(** The number of a tag as a sum of its disjoint parts. *)
Definition ctag_layout (ty name field : Z) : Z :=
  ty mod 8 + 8 * (name + 4096 * ((field + 1) + 1024 * (16 * (ty / 8)))).

Ltac ctag_consts :=
  change kTypeBits with 3 in *; change kNameBits with 12 in *; change kFieldBits with 10 in *;
  change kFieldOffset with 15 in *; change kType1Offset with 26 in *;
  change kTypeMask with 7 in *; change kInvertedTypeMask with 4294967288 in *;
  change kFieldMask with 1023 in *; change kNameMask with 4095 in *;
  change kNameMax with 4095 in *; change (Z.shiftl 1 10) with 1024 in *;
  change kCountBits with 24 in *; change kCountMask with 16777215 in *;
  change kArrayTypeMask with 63 in *; change (Z.shiftl 1 24) with 16777216 in *.

Lemma land_ones_mod x k m : 0 <= k -> m = 2 ^ k - 1 -> Z.land x m = x mod 2 ^ k.
Proof.
  intros Hk ->. replace (2 ^ k - 1) with (Z.ones k) by (rewrite Z.ones_equiv; lia).
  by apply Z.land_ones.
Qed.

Lemma land_inv_mask x : 0 <= x < 2 ^ 32 -> Z.land x 4294967288 = 8 * (x / 8).
Proof.
  intros Hx. change 4294967288 with (Z.ldiff (Z.ones 32) (Z.ones 3)).
  assert (Z.land x (Z.ldiff (Z.ones 32) (Z.ones 3)) = Z.ldiff (Z.land x (Z.ones 32)) (Z.ones 3)) as ->
    by (apply Z.bits_inj'; intros i _; rewrite !Z.land_spec, !Z.ldiff_spec, !Z.land_spec;
        by rewrite andb_assoc).
  rewrite Z.land_ones, (Z.mod_small x) by lia.
  rewrite Z.ldiff_ones_r, Z.shiftr_div_pow2, Z.shiftl_mul_pow2 by lia.
  change (2 ^ 3) with 8. lia.
Qed.

Lemma ctag_bits_layout ty name field :
  0 <= ty < 64 -> 0 <= name <= 4095 -> -1 <= field -> field + 1 < 1024 ->
  ctag_bits ty name field = ctag_layout ty name field.
Proof.
  intros Ht Hn Hf1 Hf2. unfold ctag_bits, ctag_layout. ctag_consts. unfold u32.
  rewrite (wrap_id 32 ty), (wrap_id 32 name), (wrap_id 32 (field + 1)) by lia.
  rewrite land_inv_mask by lia. rewrite (land_ones_mod ty 3) by done. change (2 ^ 3) with 8.
  rewrite !Z.shiftl_mul_pow2 by lia. change (2 ^ 3) with 8. change (2 ^ 15) with 32768.
  change (2 ^ 26) with 67108864.
  rewrite !wrap_id by (change (2 ^ 32) with 4294967296; dlia).
  replace (8 * (ty / 8) * 67108864) with (Z.shiftl (ty / 8) 29)
    by (rewrite Z.shiftl_mul_pow2; change (2 ^ 29) with 536870912; lia).
  replace ((field + 1) * 32768) with (Z.shiftl (field + 1) 15)
    by (rewrite Z.shiftl_mul_pow2; change (2 ^ 15) with 32768; lia).
  replace (name * 8) with (Z.shiftl name 3)
    by (rewrite Z.shiftl_mul_pow2; change (2 ^ 3) with 8; lia).
  rewrite (lor_add (ty mod 8)) by dlia. change (2 ^ 3) with 8.
  rewrite (lor_add (ty mod 8 + name * 8)) by (change (2 ^ 15) with 32768; dlia). change (2 ^ 15) with 32768.
  rewrite lor_add by (change (2 ^ 29) with 536870912; dlia). change (2 ^ 29) with 536870912.
  lia.
Qed.

Section Parts.
Context (tag : Z) (Ht : 0 <= tag < 2 ^ 32).

Lemma ctag_Name_mod : ctag_Name tag = tag / 8 mod 4096.
Proof.
  unfold ctag_Name. ctag_consts. rewrite (land_ones_mod _ 12) by done.
  by rewrite Z.shiftr_div_pow2.
Qed.

Lemma ctag_Field_mod : ctag_Field tag = tag / 32768 mod 1024 - 1.
Proof.
  unfold ctag_Field. ctag_consts. rewrite (land_ones_mod _ 10) by done.
  by rewrite Z.shiftr_div_pow2.
Qed.

Lemma ctag_Type_mod : ctag_Type tag = tag mod 8 + 8 * (tag / 2 ^ 29).
Proof.
  unfold ctag_Type. ctag_consts. rewrite (land_ones_mod _ 3) by done.
  rewrite Z.shiftr_div_pow2, land_inv_mask by (change (2 ^ 26) with 67108864; dlia).
  rewrite Z.div_div by lia. change (2 ^ 26 * 8) with (2 ^ 29). change (2 ^ 3) with 8.
  replace (8 * (tag / 2 ^ 29)) with (Z.shiftl (tag / 2 ^ 29) 3)
    by (rewrite Z.shiftl_mul_pow2; change (2 ^ 3) with 8; lia).
  rewrite lor_add by (change (2 ^ 3) with 8; dlia). rewrite Z.shiftl_mul_pow2 by lia.
  change (2 ^ 3) with 8. lia.
Qed.
End Parts.

Lemma ctag_layout_bound ty name field :
  0 <= ty < 64 -> 0 <= name <= 4095 -> -1 <= field -> field + 1 < 1024 ->
  0 <= ctag_layout ty name field < 2 ^ 32.
Proof. intros. unfold ctag_layout. dlia. Qed.

Lemma ctag_make_ok ty name field :
  0 <= ty < 64 -> 0 <= name <= 4095 -> -1 <= field -> field + 1 < 1024 ->
  ctag_make ty name field = Ok (ctag_layout ty name field).
Proof.
  intros. unfold ctag_make. ctag_consts.
  rewrite (proj2 (Z.leb_le 0 name)), (proj2 (Z.leb_le name 4095)), (proj2 (Z.leb_le (-1) field)),
    (proj2 (Z.ltb_lt (field + 1) 1024)) by lia. simpl. by rewrite ctag_bits_layout.
Qed.

Lemma ctag_layout_parts ty name field :
  0 <= ty < 64 -> 0 <= name <= 4095 -> -1 <= field -> field + 1 < 1024 ->
  ctag_Type (ctag_layout ty name field) = ty /\
  ctag_Name (ctag_layout ty name field) = name /\
  ctag_Field (ctag_layout ty name field) = field.
Proof.
  intros. pose proof (ctag_layout_bound ty name field).
  rewrite ctag_Type_mod, ctag_Name_mod, ctag_Field_mod by auto.
  unfold ctag_layout. change (2 ^ 29) with 536870912. split_and!; dlia.
Qed.

Lemma ctag_of_number_layout ty name field :
  0 <= ty < 64 -> 0 <= name <= 4095 -> -1 <= field -> field + 1 < 1024 ->
  ctag_of_number (ctag_layout ty name field) = Ok (ctag_layout ty name field).
Proof.
  intros. unfold ctag_of_number. cbv zeta. pose proof (ctag_layout_bound ty name field).
  unfold u32. rewrite wrap_id by auto.
  destruct (ctag_layout_parts ty name field) as (-> & -> & ->); [done.. |].
  by apply ctag_make_ok.
Qed.

(** ** Properties *)

(** a CJSON tag holds its type, name and field. For every type number of six bits, name
    of twelve bits and field index below 1023, the three parts are read back from the tag, also
    after the tag went through a number; other names and fields are refused by an assertion.
    Whatever number is read from a buffer, the constructor does not fail and keeps the type,
    name and field bits. *)
Theorem ctag_pack_unpack ty name field :
  0 <= ty < 64 ->
  match ctag_make ty name field with
  | Ok tag =>
      0 <= tag < 2 ^ 32 /\ 0 <= name <= 4095 /\ -1 <= field < 1023 /\
      ctag_Type tag = ty /\ ctag_Name tag = name /\ ctag_Field tag = field /\
      ctag_of_number tag = Ok tag
  | Fail f => f = AssertFail /\ (~ 0 <= name <= 4095 \/ ~ -1 <= field < 1023)
  end /\
  forall n, exists tag, ctag_of_number n = Ok tag /\ ctag_Type tag = ctag_Type (u32 n) /\
    ctag_Name tag = ctag_Name (u32 n) /\ ctag_Field tag = ctag_Field (u32 n).
Proof.
  intros Ht. split.
  - destruct (ctag_make ty name field) eqn:E.
    + assert (0 <= name <= 4095 /\ -1 <= field /\ field + 1 < 1024) as (Hn & Hf1 & Hf2).
      { revert E. unfold ctag_make. ctag_consts. case_match eqn:Hc; [| done]. intros _.
        rewrite !andb_true_iff, !Z.leb_le, Z.ltb_lt in Hc. lia. }
      rewrite ctag_make_ok in E by done. injection E as <-.
      destruct (ctag_layout_parts ty name field) as (E1 & E2 & E3); [done.. |].
      pose proof (ctag_layout_bound ty name field).
      split_and!; first [done | lia | tauto | by apply ctag_of_number_layout].
    + revert E. unfold ctag_make. ctag_consts. case_match eqn:Hc; [done |]. intros [= <-].
      split; [done |]. rewrite !andb_false_iff, !Z.leb_gt, Z.ltb_ge in Hc. lia.
  - intros n. unfold ctag_of_number. cbv zeta.
    pose proof (wrap_bound 32 n) as Hb. fold (u32 n) in Hb.
    assert (0 <= ctag_Type (u32 n) < 64) as H1
      by (rewrite ctag_Type_mod by lia; change (2 ^ 29) with 536870912; dlia).
    assert (0 <= ctag_Name (u32 n) <= 4095) as H2 by (rewrite ctag_Name_mod; dlia).
    assert (-1 <= ctag_Field (u32 n) /\ ctag_Field (u32 n) + 1 < 1024) as [H3 H4]
      by (rewrite ctag_Field_mod; dlia).
    rewrite ctag_make_ok by done. eexists. split; [done |]. by apply ctag_layout_parts.
Qed.

Lemma ctag_pack_unpack_witness :
  0 <= TagType_num TAG_UUID < 64 /\
  exists tag, ctag_make (TagType_num TAG_UUID) 17 3 = Ok tag /\ ctag_Type tag = 8 /\
              ctag_Name tag = 17 /\ ctag_Field tag = 3.
Proof.
  split; [simpl; lia |].
  destruct (ctag_pack_unpack 8 17 3) as [H _]; [lia |].
  eexists; split; [reflexivity |].
  change (ctag_make 8 17 3) with (Ok (ctag_bits 8 17 3)) in H.
  destruct H as (_ & _ & _ & H1 & H2 & H3 & _). split; [exact H1 | split; [exact H2 | exact H3]].
Defined.

(** The tags of arrays: a count of 24 bits and a type of six bits. *)
Lemma carraytag_layout count ty :
  0 <= count < 2 ^ 24 -> 0 <= ty < 64 -> 
  carraytag_make count ty = Ok (count + ty * 2 ^ 24) /\
  carraytag_Count (count + ty * 2 ^ 24) = count /\
  carraytag_Type (count + ty * 2 ^ 24) = ty /\
  0 <= count + ty * 2 ^ 24 < 2 ^ 30.
Proof.
  intros Hc Ht. unfold carraytag_make, carraytag_Count, carraytag_Type. ctag_consts.
  rewrite (proj2 (Z.ltb_lt count 16777216)) by lia. unfold u32.
  rewrite (wrap_id 32 ty) by lia. rewrite wrap_id by (rewrite Z.shiftl_mul_pow2; lia).
  rewrite lor_add by lia. rewrite (land_ones_mod _ 24), (land_ones_mod _ 6) by done.
  rewrite Z.shiftr_div_pow2, Z.mod_add, Z.div_add, Z.mod_small, (Z.div_small count) by lia.
  rewrite Z.add_0_l, Z.mod_small by lia. split_and!; (done || lia).
Qed.
