(* ===== verification/Uuid.v ===== *)
(** UUIDs: [core/keyvalue/uuid.h] and [core/keyvalue/uuid.cc].

    A UUID is two 64-bit words; its string form has 32 hexadecimal digits, with four dashes
    in the long form. *)

From S2P Require Import Prelude.

(** ** The type and its order *)

Record Uuid : Set := mk_uuid { data0 : Z; data1 : Z }.

#[export] Instance Uuid_eq_dec : EqDecision Uuid.
Proof. solve_decision. Defined.

Inductive ComparationResult : Set := Lt | Eq | Gt.

#[export] Instance ComparationResult_eq_dec : EqDecision ComparationResult.
Proof. solve_decision. Defined.

Definition kStrFormLen : Z := 36.

Definition uuid_Compare (a other : Uuid) : ComparationResult :=
  if data0 a =? data0 other then
    (if data1 a =? data1 other then Eq
     else (if data1 a <? data1 other then Lt else Gt))
  else (if data0 a <? data0 other then Lt else Gt).

Definition uuid_eqb (a other : Uuid) : bool :=
  (data0 a =? data0 other) && (data1 a =? data1 other).
Definition uuid_ltb (a other : Uuid) : bool :=
  if data0 a =? data0 other then data1 a <? data1 other else data0 a <? data0 other.
Definition uuid_gtb (a other : Uuid) : bool := uuid_ltb other a.
Definition uuid_leb (a other : Uuid) : bool := negb (uuid_ltb other a).
Definition uuid_geb (a other : Uuid) : bool := negb (uuid_ltb a other).

(** ** Parsing *)

Definition ch_dash : Z := 45.

(** The table [hexCharToNum]. *)
Definition hexCharToNum (c : Z) : Z :=
  if (48 <=? c) && (c <=? 57) then c - 48
  else if (65 <=? c) && (c <=? 70) then c - 55
  else if (97 <=? c) && (c <=? 102) then c - 87
  else 255.

(** [GET_NUM(i)] followed by [data |= num << shift]; the shifts of a word go down from 60. *)
Definition get_num (str : bytes) (i : Z) : result Z :=
  c ← of_option Undefined (znth str i);
  let num := hexCharToNum c in
  if 15 <? num then Fail (Throw errNotValid) else Ok num.

Fixpoint parse_word (str : bytes) (ps : list Z) (shift acc : Z) : result Z :=
  match ps with
  | [] => Ok acc
  | i :: ps =>
      num ← get_num str i;
      parse_word str ps (shift - 4) (Z.lor acc (u64 (Z.shiftl num shift)))
  end.

(** The positions of the digits of the two words, in the order of the code. *)
Definition short_word0 : list Z := [0; 1; 2; 3; 4; 5; 6; 7; 8; 9; 10; 11; 12; 13; 14; 15].
Definition short_word1 : list Z := [16; 17; 18; 19; 20; 21; 22; 23; 24; 25; 26; 27; 28; 29; 30; 31].
Definition long_word0 : list Z := [0; 1; 2; 3; 4; 5; 6; 7; 9; 10; 11; 12; 14; 15; 16; 17].
Definition long_word1 : list Z := [19; 20; 21; 22; 24; 25; 26; 27; 28; 29; 30; 31; 32; 33; 34; 35].

Definition is_dash (str : bytes) (i : Z) : result bool :=
  c ← of_option Undefined (znth str i); Ok (c =? ch_dash).

(** [str[8] != '-' || str[13] != '-' || ...]: the dashes are tested before the digits. *)
Definition check_dashes (str : bytes) : result unit :=
  b8 ← is_dash str 8;
  if negb b8 then Fail (Throw errNotValid) else
  b13 ← is_dash str 13;
  if negb b13 then Fail (Throw errNotValid) else
  b18 ← is_dash str 18;
  if negb b18 then Fail (Throw errNotValid) else
  b23 ← is_dash str 23;
  if negb b23 then Fail (Throw errNotValid) else Ok tt.

Definition parse_words (str : bytes) (ps0 ps1 : list Z) : result Uuid :=
  d0 ← parse_word str ps0 60 0;
  d1 ← parse_word str ps1 60 0;
  if (negb (d0 =? 0) || negb (d1 =? 0)) && (Z.shiftr d1 63 =? 0)
  then Fail (Throw errNotValid)
  else Ok (mk_uuid d0 d1).

Definition tryParse (str : bytes) : result Uuid :=
  if zlen str =? 32 then parse_words str short_word0 short_word1
  else if zlen str =? kStrFormLen then
    _ ← check_dashes str; parse_words str long_word0 long_word1
  else Fail (Throw errNotValid).

(** [Uuid(std::string_view)] throws the error; [TryParse] turns it into [nullopt]. *)
Definition uuid_of_string (str : bytes) : result Uuid := tryParse str.

Definition TryParse (str : bytes) : option Uuid :=
  match tryParse str with Ok u => Some u | Fail _ => None end.

(** ** Printing *)

Definition hexChars (n : Z) : Z := if n <? 10 then 48 + n else 87 + n.

Definition hex_digit (w shift : Z) : Z := hexChars (Z.land (Z.shiftr w shift) 15).

(** [PutToStr] and the conversion to a string. *)
Definition PutToStr (u : Uuid) : bytes :=
  let d0 := hex_digit (data0 u) in
  let d1 := hex_digit (data1 u) in
  [d0 60; d0 56; d0 52; d0 48; d0 44; d0 40; d0 36; d0 32; ch_dash;
   d0 28; d0 24; d0 20; d0 16; ch_dash;
   d0 12; d0 8; d0 4; d0 0; ch_dash;
   d1 60; d1 56; d1 52; d1 48; ch_dash;
   d1 44; d1 40; d1 36; d1 32; d1 28; d1 24; d1 20; d1 16; d1 12; d1 8; d1 4; d1 0].

(** ** Lemmas *)

Definition uuid_ok (u : Uuid) : Prop := 0 <= data0 u < 2 ^ 64 /\ 0 <= data1 u < 2 ^ 64.

(** The UUIDs that can be parsed: the nil UUID and those of the RFC variant. *)
Definition uuid_variant_ok (u : Uuid) : Prop :=
  (data0 u = 0 /\ data1 u = 0) \/ 2 ^ 63 <= data1 u.

#[export] Instance uuid_variant_ok_dec u : Decision (uuid_variant_ok u).
Proof. unfold uuid_variant_ok. apply _. Defined.

Lemma hexCharToNum_hexChars n : 0 <= n < 16 -> hexCharToNum (hexChars n) = n.
Proof.
  intros H. unfold hexChars, hexCharToNum.
  destruct (Z.ltb_spec n 10).
  - rewrite (proj2 (Z.leb_le 48 _)), (proj2 (Z.leb_le _ 57)) by lia. simpl. lia.
  - rewrite (proj2 (Z.leb_gt (87 + n) 57)), (proj2 (Z.leb_gt (87 + n) 70)),
      (proj2 (Z.leb_le 97 _)), (proj2 (Z.leb_le _ 102)) by lia.
    rewrite !andb_false_r. simpl. lia.
Qed.

Lemma hex_digit_num w s : 0 <= s -> hexCharToNum (hex_digit w s) = w / 2 ^ s mod 16.
Proof.
  intros Hs. unfold hex_digit. change 15 with (Z.ones 4).
  rewrite Z.land_ones, Z.shiftr_div_pow2 by lia. change (2 ^ 4) with 16.
  apply hexCharToNum_hexChars. apply Z.mod_pos_bound. lia.
Qed.

(** The digits of [w] from the one at bit [s] downwards stand at the positions [ps]. *)
Fixpoint digits_at (str : bytes) (ps : list Z) (s w : Z) : Prop :=
  match ps with
  | [] => True
  | i :: ps => get_num str i = Ok (w / 2 ^ s mod 16) /\ digits_at str ps (s - 4) w
  end.

Lemma word_step w s :
  0 <= s <= 60 -> 0 <= w < 2 ^ 64 ->
  Z.lor (w / 2 ^ (s + 4) * 2 ^ (s + 4)) (u64 (Z.shiftl (w / 2 ^ s mod 16) s)) =
  w / 2 ^ s * 2 ^ s.
Proof.
  intros Hs Hw. assert (0 < 2 ^ s <= 2 ^ 60) as Hp
    by (split; [apply Z.pow_pos_nonneg | apply Z.pow_le_mono_r]; lia).
  rewrite (Z.shiftl_mul_pow2 _ s) by lia.
  pose proof (Z.mod_pos_bound (w / 2 ^ s) 16).
  unfold u64. rewrite wrap_id by (change (2 ^ 64) with (16 * 2 ^ 60); nia).
  rewrite <- (Z.shiftl_mul_pow2 (w / 2 ^ (s + 4))) by lia.
  rewrite lor_add'; [| lia | rewrite Z.pow_add_r by lia; change (2 ^ 4) with 16; nia].
  rewrite Z.pow_add_r by lia. rewrite <- Z.div_div by lia. change (2 ^ 4) with 16.
  pose proof (Z.div_mod (w / 2 ^ s) 16). nia.
Qed.

Lemma parse_word_digits str ps s w :
  0 <= w < 2 ^ 64 -> s <= 60 -> s + 4 = 4 * zlen ps -> digits_at str ps s w ->
  parse_word str ps s (w / 2 ^ (s + 4) * 2 ^ (s + 4)) = Ok w.
Proof.
  intros Hw. revert s. induction ps as [| i ps IH]; intros s Hs El.
  - unfold zlen in El. simpl in El. intros _. simpl.
    replace (s + 4) with 0 by lia. rewrite Z.div_1_r. f_equal. lia.
  - autorewrite with zlen in El. pose proof (zlen_nonneg ps). intros [E Hd].
    cbn [parse_word]. rewrite E. cbn [mbind result_bind].
    rewrite word_step by lia. specialize (IH (s - 4)).
    replace (s - 4 + 4) with s in IH by lia. apply IH; [lia | lia | done].
Qed.

Lemma get_num_hex str i w s :
  0 <= s -> znth str i = Some (hex_digit w s) -> get_num str i = Ok (w / 2 ^ s mod 16).
Proof.
  intros Hs E. unfold get_num. rewrite E. cbn [of_option mbind result_bind].
  rewrite hex_digit_num by done.
  pose proof (Z.mod_pos_bound (w / 2 ^ s) 16). by rewrite (proj2 (Z.ltb_ge 15 _)) by lia.
Qed.

Lemma PutToStr_digits0 u : digits_at (PutToStr u) long_word0 60 (data0 u).
Proof. repeat split; apply get_num_hex; (done || lia). Qed.

Lemma PutToStr_digits1 u : digits_at (PutToStr u) long_word1 60 (data1 u).
Proof. repeat split; apply get_num_hex; (done || lia). Qed.

(** The long form without its dashes. *)
Definition undash (str : bytes) : bytes :=
  zslice str 0 8 ++ zslice str 9 4 ++ zslice str 14 4 ++ zslice str 19 4 ++ zslice str 24 12.

Lemma undash_digits0 u : digits_at (undash (PutToStr u)) short_word0 60 (data0 u).
Proof. repeat split; apply get_num_hex; (done || lia). Qed.

Lemma undash_digits1 u : digits_at (undash (PutToStr u)) short_word1 60 (data1 u).
Proof. repeat split; apply get_num_hex; (done || lia). Qed.

Definition variant_check (d0 d1 : Z) : bool :=
  (negb (d0 =? 0) || negb (d1 =? 0)) && (Z.shiftr d1 63 =? 0).

Lemma variant_check_spec d0 d1 :
  0 <= d1 < 2 ^ 64 -> variant_check d0 d1 = negb (bool_decide (uuid_variant_ok (mk_uuid d0 d1))).
Proof.
  intros H1. unfold variant_check. rewrite Z.shiftr_div_pow2 by lia.
  change (2 ^ 63) with 9223372036854775808.
  case_bool_decide as Hd; unfold uuid_variant_ok in Hd; cbn [data0 data1 negb] in *;
    change (2 ^ 63) with 9223372036854775808 in Hd.
  - apply andb_false_iff. rewrite orb_false_iff, !negb_false_iff, !Z.eqb_eq, Z.eqb_neq.
    destruct Hd; [by left | right; dlia].
  - apply andb_true_iff. rewrite orb_true_iff, !negb_true_iff, !Z.eqb_neq, Z.eqb_eq.
    split; [lia | dlia].
Qed.

Lemma parse_words_digits str ps0 ps1 u :
  uuid_ok u -> zlen ps0 = 16 -> zlen ps1 = 16 ->
  digits_at str ps0 60 (data0 u) -> digits_at str ps1 60 (data1 u) ->
  parse_words str ps0 ps1 =
    if decide (uuid_variant_ok u) then Ok u else Fail (Throw errNotValid).
Proof.
  intros [H0 H1] L0 L1 D0 D1. unfold parse_words.
  pose proof (parse_word_digits str ps0 60 _ H0) as E0.
  pose proof (parse_word_digits str ps1 60 _ H1) as E1.
  change (60 + 4) with 64 in E0, E1. rewrite !Z.div_small, Z.mul_0_l in E0, E1 by done.
  rewrite E0 by (done || lia). cbn [mbind result_bind].
  rewrite E1 by (done || lia). cbn [mbind result_bind].
  fold (variant_check (data0 u) (data1 u)). rewrite variant_check_spec by done.
  destruct u as [d0 d1]. simpl. case_bool_decide; case_decide; done.
Qed.

(** What parsing accepts: the digits are read inside of the string, and the words have 64 bits. *)
Lemma get_num_cases str i :
  0 <= i < zlen str ->
  (exists n, get_num str i = Ok n /\ 0 <= n <= 15) \/ get_num str i = Fail (Throw errNotValid).
Proof.
  intros Hi. unfold get_num. destruct (znth_lt str i Hi) as [c ->]. simpl.
  unfold hexCharToNum.
  repeat (case_match; simpl; try (by right)).
  all: left; eexists; split; [reflexivity |].
  all: rewrite ?andb_true_iff, ?Z.leb_le, ?Z.ltb_ge in *; lia.
Qed.

Lemma parse_word_cases str ps s acc :
  Forall (fun i => 0 <= i < zlen str) ps -> 0 <= acc < 2 ^ 64 ->
  (exists w, parse_word str ps s acc = Ok w /\ 0 <= w < 2 ^ 64) \/
  parse_word str ps s acc = Fail (Throw errNotValid).
Proof.
  intros Hps. revert s acc. induction Hps as [| i ps Hi _ IH]; intros s acc Hacc.
  - left. by exists acc.
  - cbn [parse_word]. destruct (get_num_cases str i Hi) as [(n & -> & Hn) | ->]; [| by right].
    cbn [mbind result_bind]. apply IH. apply lor_bound; [done |].
    unfold u64. by apply wrap_bound.
Qed.

Lemma parse_words_cases str ps0 ps1 :
  Forall (fun i => 0 <= i < zlen str) ps0 -> Forall (fun i => 0 <= i < zlen str) ps1 ->
  (exists u, parse_words str ps0 ps1 = Ok u /\ uuid_ok u /\ uuid_variant_ok u) \/
  parse_words str ps0 ps1 = Fail (Throw errNotValid).
Proof.
  intros H0 H1. unfold parse_words.
  destruct (parse_word_cases str ps0 60 0 H0) as [(d0 & -> & B0) | ->]; [lia | | by right].
  destruct (parse_word_cases str ps1 60 0 H1) as [(d1 & -> & B1) | ->]; [lia | | by right].
  cbn [mbind result_bind]. fold (variant_check d0 d1). rewrite variant_check_spec by done.
  case_bool_decide; simpl; [left | by right]. by exists (mk_uuid d0 d1).
Qed.

Lemma check_dashes_cases str :
  23 < zlen str -> check_dashes str = Ok tt \/ check_dashes str = Fail (Throw errNotValid).
Proof.
  intros Hl. unfold check_dashes, is_dash.
  destruct (znth_lt str 8) as [c8 ->]; [lia |]. destruct (znth_lt str 13) as [c13 ->]; [lia |].
  destruct (znth_lt str 18) as [c18 ->]; [lia |]. destruct (znth_lt str 23) as [c23 ->]; [lia |].
  simpl. repeat (case_match; simpl; try (by right)). by left.
Qed.

(** ** Properties *)

(** UUIDs and their strings. Every UUID of a supported variant is read back from the
    string it prints, in the long form with dashes and in the short form without; printing a
    UUID of another variant gives a string that is refused. Whatever string is given, parsing
    returns a UUID of a supported variant or throws [errNotValid], without reading outside of
    the string. *)
Theorem uuid_parse_print :
  (forall u, uuid_ok u ->
     tryParse (PutToStr u) = (if decide (uuid_variant_ok u) then Ok u else Fail (Throw errNotValid)) /\
     tryParse (undash (PutToStr u)) = tryParse (PutToStr u)) /\
  (forall str, (exists u, tryParse str = Ok u /\ uuid_ok u /\ uuid_variant_ok u) \/
               tryParse str = Fail (Throw errNotValid)).
Proof.
  split.
  - intros u Hu.
    assert (tryParse (PutToStr u) =
            if decide (uuid_variant_ok u) then Ok u else Fail (Throw errNotValid)) as E.
    { unfold tryParse. change (zlen (PutToStr u)) with 36. simpl.
      apply parse_words_digits; [done.. | |]; [apply PutToStr_digits0 | apply PutToStr_digits1]. }
    split; [done |]. rewrite E. unfold tryParse. change (zlen (undash (PutToStr u))) with 32. simpl.
    apply parse_words_digits; [done.. | |]; [apply undash_digits0 | apply undash_digits1].
  - intros str. unfold tryParse, kStrFormLen.
    destruct (Z.eqb_spec (zlen str) 32) as [E | _].
    { apply parse_words_cases; rewrite E; repeat constructor; lia. }
    destruct (Z.eqb_spec (zlen str) 36) as [E | _]; [| by right].
    destruct (check_dashes_cases str) as [-> | ->]; [lia | | by right]. simpl.
    apply parse_words_cases; rewrite E; repeat constructor; lia.
Qed.

Lemma uuid_parse_print_witness :
  let u := mk_uuid 0x123e4567e89b12d3 0xa456426614174000 in
  uuid_ok u /\ tryParse (PutToStr u) = Ok u.
Proof.
  cbv zeta. assert (uuid_ok (mk_uuid 0x123e4567e89b12d3 0xa456426614174000)) as Hu
    by (split; simpl; lia).
  split; [exact Hu |].
  destruct (proj1 uuid_parse_print _ Hu) as [E _]. rewrite E.
  rewrite decide_True; [reflexivity |]. right. simpl. lia.
Defined.
