(* ===== verification/WrSerializer.v ===== *)
(** The binary writer: [tools/serilize/wrserializer.h] and [wrserializer.cc].

    The state is the written bytes ([buf_] up to [len_]), the capacity of the buffer and the
    limit of the growth policy. Every writer first grows the buffer and may throw there. *)

From S2P Require Import Prelude Varint CTag Uuid.

Record WrSerializer : Set := mk_wr { w_bytes : bytes; w_cap : Z; w_maxCap : Z }.

(** [numeric_limits<ptrdiff_t>::max()] *)
Definition kMaxCapacity : Z := 2 ^ 63 - 1.

(** [GrowthPolicy(maxCap)] *)
Definition GrowthPolicy_make (maxCap : Z) : Z :=
  if (0 <? maxCap) && (maxCap <? kMaxCapacity) then maxCap else kMaxCapacity.

(** [WrSerializer(GrowthPolicy)]: the internal buffer has 0x100 bytes. *)
Definition wr_make (maxCap : Z) : WrSerializer := mk_wr [] 256 (GrowthPolicy_make maxCap).

(** [GrowthPolicy::GetNewCapacity], on 64-bit unsigned integers. *)
Definition GetNewCapacity (maxCap curCap requestedSize : Z) : result Z :=
  let kPageMask := u64 (Z.lnot 4095) in
  let newCap := u64 (u64 (curCap * 2) + requestedSize) in
  let newCapAligned := Z.land newCap kPageMask in
  let res := if newCap =? newCapAligned then newCap else u64 (newCapAligned + 4096) in
  if res <=? maxCap then Ok res
  else if maxCap <? requestedSize then Fail (Throw errLogic)
  else Ok maxCap.

Definition Reserve (cap : Z) (w : WrSerializer) : WrSerializer :=
  if w_cap w <? cap then mk_wr (w_bytes w) cap (w_maxCap w) else w.

Definition grow (sz : Z) : M WrSerializer unit :=
  w ← get;
  let len := zlen (w_bytes w) in
  if w_cap w <? len + sz then
    c ← lift (GetNewCapacity (w_maxCap w) (w_cap w) (len + sz));
    put (Reserve c w)
  else mret tt.

(** [memcpy(&buf_[len_], ...); len_ += ...] *)
Definition append (bs : bytes) : M WrSerializer unit :=
  w ← get; put (mk_wr (w_bytes w ++ bs) (w_cap w) (w_maxCap w)).

(** ** The writers *)

Definition PutUInt8 (v : Z) : M WrSerializer unit := _ ← grow 1; append (le_bytes 1 (u8 v)).
Definition PutUInt32 (v : Z) : M WrSerializer unit := _ ← grow 4; append (le_bytes 4 (u32 v)).
Definition PutUInt64 (v : Z) : M WrSerializer unit := _ ← grow 8; append (le_bytes 8 (u64 v)).

(** Floating point numbers are their bit patterns. *)
Definition PutDouble (bits : Z) : M WrSerializer unit := _ ← grow 8; append (le_bytes 8 (u64 bits)).
Definition PutFloat (bits : Z) : M WrSerializer unit := _ ← grow 4; append (le_bytes 4 (u32 bits)).

(** [PutVarint] and [PutVarUint], for 64-bit and for narrower types, and for enumerations. *)
Definition PutVarint64 (v : Z) : M WrSerializer unit := _ ← grow 10; append (sint64_pack (s64 v)).
Definition PutVarUint64 (v : Z) : M WrSerializer unit := _ ← grow 10; append (uint64_pack (u64 v)).
Definition PutVarint32 (v : Z) : M WrSerializer unit := _ ← grow 10; append (sint32_pack (s32 v)).
Definition PutVarUint32 (v : Z) : M WrSerializer unit := _ ← grow 10; append (uint32_pack (u32 v)).
Definition PutVarUintEnum (v : Z) : M WrSerializer unit :=
  if (0 <=? v) && (v <? 128) then _ ← grow 1; append [u8 v] else fail AssertFail.

Definition PutBool (v : bool) : M WrSerializer unit := _ ← grow 1; append (boolean_pack v).

Definition PutVString (str : bytes) : M WrSerializer unit :=
  _ ← grow (zlen str + 10); append (string_pack (Some str)).

Definition Write (slice : bytes) : M WrSerializer unit :=
  match slice with [] => mret tt | _ => _ ← grow (zlen slice); append slice end.

Definition PutSlice (slice : bytes) : M WrSerializer unit :=
  _ ← PutUInt32 (zlen slice); _ ← grow (zlen slice); append slice.

Definition PutUuid (u : Uuid) : M WrSerializer unit :=
  _ ← PutUInt64 (data0 u); PutUInt64 (data1 u).

(** [PutStrUuid]: the string form with its length. *)
Definition PutStrUuid (u : Uuid) : M WrSerializer unit :=
  _ ← grow (kStrFormLen + 10); _ ← append (uint32_pack kStrFormLen); append (PutToStr u).

Definition PutCTag (tag : Z) : M WrSerializer unit := PutVarUint32 tag.
Definition PutCArrayTag (atag : Z) : M WrSerializer unit := PutUInt32 atag.

Definition Reset (len : Z) (w : WrSerializer) : WrSerializer :=
  mk_wr (take (Z.to_nat len) (w_bytes w)) (w_cap w) (w_maxCap w).

(** ** Slices and strings whose length is written last *)

(** [StartSlice()] returns the position of the header; the destructor of the helper patches it. *)
Definition StartSlice : M WrSerializer Z :=
  w ← get; let savePos := zlen (w_bytes w) in _ ← PutUInt32 0; mret savePos.

Definition SliceHelper_End (pos : Z) : M WrSerializer unit :=
  w ← get;
  let sliceSize := u32 (zlen (w_bytes w) - pos - 4) in
  put (mk_wr (take (Z.to_nat pos) (w_bytes w) ++ le_bytes 4 sliceSize ++
              drop (Z.to_nat (pos + 4)) (w_bytes w)) (w_cap w) (w_maxCap w)).

Definition StartVString : M WrSerializer Z := w ← get; mret (zlen (w_bytes w)).

(** [VStringHelper::End()]: the content is moved behind its length. *)
Definition VStringHelper_End (pos : Z) : M WrSerializer unit :=
  w ← get;
  let size := s32 (zlen (w_bytes w) - pos) in
  if size <? 0 then fail (Throw errParseBin)
  else if size =? 0 then
    _ ← grow 1; append (uint32_pack 0)
  else
    let bytesToGrow := uint32ByteSize size in
    _ ← grow bytesToGrow;
    w ← get;
    put (mk_wr (take (Z.to_nat pos) (w_bytes w) ++ uint32_pack size ++
                drop (Z.to_nat pos) (w_bytes w)) (w_cap w) (w_maxCap w)).

(** ** Growth *)

(** Sizes below [2^60] keep the capacity arithmetic inside of 64 bits. *)
Definition kSaneSize : Z := 2 ^ 60.

Definition wr_wf (w : WrSerializer) : Prop :=
  zlen (w_bytes w) <= w_cap w /\ w_cap w <= 2 ^ 62 /\ 0 <= w_maxCap w <= kMaxCapacity.

(** Room for [n] more bytes. *)
Definition wr_room (w : WrSerializer) (n : Z) : Prop :=
  zlen (w_bytes w) + n <= w_maxCap w /\ zlen (w_bytes w) + n <= kSaneSize.

Lemma page_align x :
  0 <= x < 2 ^ 63 -> Z.land x (u64 (Z.lnot 4095)) = 4096 * (x / 4096).
Proof.
  intros Hx. change (u64 (Z.lnot 4095)) with (Z.ldiff (Z.ones 64) (Z.ones 12)).
  assert (Z.land x (Z.ldiff (Z.ones 64) (Z.ones 12)) = Z.ldiff (Z.land x (Z.ones 64)) (Z.ones 12))
    as -> by (apply Z.bits_inj'; intros i _; rewrite !Z.land_spec, !Z.ldiff_spec, !Z.land_spec;
              by rewrite andb_assoc).
  rewrite Z.land_ones, (Z.mod_small x) by lia.
  rewrite Z.ldiff_ones_r, Z.shiftr_div_pow2, Z.shiftl_mul_pow2 by lia.
  change (2 ^ 12) with 4096. lia.
Qed.

Lemma GetNewCapacity_ok maxCap cap req :
  0 <= cap < req -> req <= kSaneSize -> req <= maxCap <= kMaxCapacity ->
  exists c, GetNewCapacity maxCap cap req = Ok c /\ req <= c <= maxCap /\ c <= 2 ^ 62.
Proof.
  intros Hc Hr Hm. unfold GetNewCapacity, kSaneSize, kMaxCapacity in *.
  change (2 ^ 60) with 1152921504606846976 in *. change (2 ^ 62) with 4611686018427387904.
  change (2 ^ 63 - 1) with 9223372036854775807 in *.
  assert (u64 (u64 (cap * 2) + req) = cap * 2 + req) as -> by (unfold_wrap; dlia).
  rewrite page_align by (change (2 ^ 63) with 9223372036854775808; lia).
  set (n := cap * 2 + req) in *.
  assert (u64 (4096 * (n / 4096) + 4096) = 4096 * (n / 4096) + 4096) as ->
    by (subst n; unfold_wrap; dlia).
  set (r := if n =? 4096 * (n / 4096) then n else 4096 * (n / 4096) + 4096).
  assert (req <= r <= 4611686018427387904) by (subst n r; case_match; dlia).
  cbv zeta. destruct (Z.leb_spec r maxCap); [exists r; split; [done | lia] |].
  rewrite (proj2 (Z.ltb_ge _ _)) by lia. exists maxCap. split; [done | lia].
Qed.

(** [grow] makes the room that it is asked for and keeps the bytes, unless the growth policy
    forbids it. *)
Lemma grow_ok w sz :
  wr_wf w -> 0 <= sz -> wr_room w sz ->
  exists w', grow sz w = (Ok tt, w') /\ w_bytes w' = w_bytes w /\ w_maxCap w' = w_maxCap w /\
             wr_wf w' /\ zlen (w_bytes w) + sz <= w_cap w'.
Proof.
  intros (H1 & H2 & H3) Hsz [R1 R2]. unfold grow. rewrite M_bind_get.
  pose proof (zlen_nonneg (w_bytes w)).
  destruct (Z.ltb_spec (w_cap w) (zlen (w_bytes w) + sz)) as [Hlt | Hge].
  - destruct (GetNewCapacity_ok (w_maxCap w) (w_cap w) (zlen (w_bytes w) + sz))
      as (c & E & Hc1 & Hc2); [lia | done | lia |].
    rewrite E. unfold Reserve, lift. simpl. unfold mbind, M_bind, put.
    rewrite (proj2 (Z.ltb_lt (w_cap w) c)) by lia.
    eexists; split; [reflexivity |]. simpl. split_and!; try done; try lia.
    split_and!; simpl; lia.
  - exists w. by split_and!.
Qed.

Lemma grow_throws w sz :
  wr_wf w -> w_cap w < zlen (w_bytes w) + sz -> w_maxCap w < zlen (w_bytes w) + sz ->
  zlen (w_bytes w) + sz <= kSaneSize -> grow sz w = (Fail (Throw errLogic), w).
Proof.
  intros (H1 & H2 & H3) Hc Hm Hs. unfold grow. rewrite M_bind_get.
  pose proof (zlen_nonneg (w_bytes w)).
  rewrite (proj2 (Z.ltb_lt _ _)) by lia. unfold lift, mbind, M_bind.
  unfold GetNewCapacity, kSaneSize, kMaxCapacity in *.
  change (2 ^ 60) with 1152921504606846976 in *. change (2 ^ 62) with 4611686018427387904 in *.
  set (req := zlen (w_bytes w) + sz) in *.
  assert (u64 (u64 (w_cap w * 2) + req) = w_cap w * 2 + req) as -> by (unfold_wrap; dlia).
  rewrite page_align by (change (2 ^ 63) with 9223372036854775808; lia).
  set (n := w_cap w * 2 + req) in *.
  assert (u64 (4096 * (n / 4096) + 4096) = 4096 * (n / 4096) + 4096) as ->
    by (subst n; unfold_wrap; dlia).
  cbv zeta. rewrite (proj2 (Z.leb_gt _ _)); [by rewrite (proj2 (Z.ltb_lt _ _)) by lia |].
  subst n. case_match; dlia.
Qed.

(** ** What a writer writes *)

(** [writes n m bs]: with room for [n] bytes, the writer [m] succeeds and appends [bs]. *)
Definition writes (n : Z) (m : M WrSerializer unit) (bs : bytes) : Prop :=
  0 <= n /\ zlen bs <= n /\
  forall w, wr_wf w -> wr_room w n ->
    exists w', m w = (Ok tt, w') /\ w_bytes w' = w_bytes w ++ bs /\
               w_maxCap w' = w_maxCap w /\ wr_wf w'.

Lemma writes_ret : writes 0 (mret tt) [].
Proof.
  split_and!; [done | done |]. intros w Hw _. exists w. split_and!; try done; [| apply Hw..].
  by rewrite app_nil_r.
Qed.

Lemma writes_bind n1 n2 m1 m2 bs1 bs2 :
  writes n1 m1 bs1 -> writes n2 m2 bs2 -> writes (n1 + n2) (_ ← m1; m2) (bs1 ++ bs2).
Proof.
  intros (N1 & L1 & H1) (N2 & L2 & H2). autorewrite with zlen.
  split_and!; [lia | autorewrite with zlen; lia |]. intros w Hw [R1 R2].
  destruct (H1 w Hw) as (w1 & E1 & B1 & C1 & W1); [split; lia |].
  destruct (H2 w1 W1) as (w2 & E2 & B2 & C2 & W2).
  { unfold wr_room. rewrite B1, C1. autorewrite with zlen. lia. }
  exists w2. split_and!; [| by rewrite B2, B1, app_assoc | by rewrite C2 | apply W2..].
  by rewrite (M_bind_ok _ _ _ _ _ E1).
Qed.

Lemma writes_weaken n n' m bs : writes n m bs -> n <= n' -> writes n' m bs.
Proof.
  intros (H1 & H2 & H) Hn. split_and!; [lia | lia |]. intros w Hw [R1 R2].
  apply H; [done | split; lia].
Qed.

(** The common shape of the writers. *)
Lemma writes_grow_append sz bs :
  zlen bs <= sz -> writes sz (_ ← grow sz; append bs) bs.
Proof.
  intros Hl. pose proof (zlen_nonneg bs). split_and!; [lia | done |]. intros w Hw Hr.
  destruct (grow_ok w sz Hw) as (w' & E & B & C & (W1 & W2 & W3) & Hc); [lia | done |].
  rewrite (M_bind_ok _ _ _ _ _ E). unfold append. rewrite M_bind_get. unfold put.
  eexists; split; [reflexivity |]. cbn [w_bytes w_maxCap].
  rewrite B. split_and!; [done | done |]. rewrite B in W1.
  split_and!; cbn [w_bytes w_maxCap w_cap]; autorewrite with zlen; lia.
Qed.

Lemma writes_le n v : writes (Z.of_nat n) (_ ← grow (Z.of_nat n); append (le_bytes n v)) (le_bytes n v).
Proof. apply writes_grow_append. unfold zlen. rewrite le_bytes_length. lia. Qed.

Lemma writes_u8 v : writes 1 (PutUInt8 v) (le_bytes 1 (u8 v)).
Proof. apply (writes_le 1). Qed.
Lemma writes_u32 v : writes 4 (PutUInt32 v) (le_bytes 4 (u32 v)).
Proof. apply (writes_le 4). Qed.
Lemma writes_u64 v : writes 8 (PutUInt64 v) (le_bytes 8 (u64 v)).
Proof. apply (writes_le 8). Qed.
Lemma writes_double v : writes 8 (PutDouble v) (le_bytes 8 (u64 v)).
Proof. apply (writes_le 8). Qed.
Lemma writes_float v : writes 4 (PutFloat v) (le_bytes 4 (u32 v)).
Proof. apply (writes_le 4). Qed.

Lemma u64_bound x : 0 <= u64 x < 2 ^ 64.
Proof. by apply wrap_bound. Qed.
Lemma u32_bound x : 0 <= u32 x < 2 ^ 32.
Proof. by apply wrap_bound. Qed.
Lemma u32_id x : 0 <= x < 2 ^ 32 -> u32 x = x.
Proof. apply wrap_id. Qed.
Lemma u64_id x : 0 <= x < 2 ^ 64 -> u64 x = x.
Proof. apply wrap_id. Qed.
Lemma s64_id x : - 2 ^ 63 <= x < 2 ^ 63 -> s64 x = x.
Proof. intros. by apply swrap_id. Qed.
Lemma s32_id x : - 2 ^ 31 <= x < 2 ^ 31 -> s32 x = x.
Proof. intros. by apply swrap_id. Qed.
Lemma s64_bound x : - 2 ^ 63 <= s64 x < 2 ^ 63.
Proof. wrap_lia. Qed.
Lemma s32_bound x : - 2 ^ 31 <= s32 x < 2 ^ 31.
Proof. wrap_lia. Qed.

Lemma writes_varuint64 v : writes 10 (PutVarUint64 v) (uint64_pack (u64 v)).
Proof.
  apply writes_grow_append. destruct (uint64_pack_shape (u64 v)) as (_ & Hl & _);
    [apply u64_bound |]. unfold zlen. lia.
Qed.

(** The narrower writers write what the 64-bit ones write. *)
Lemma writes_varuint32 v : writes 10 (PutVarUint32 v) (uint64_pack (u32 v)).
Proof.
  rewrite <- uint32_pack_uint64_pack by apply u32_bound. apply writes_grow_append.
  pose proof (uint32_pack_length (u32 v) (u32_bound v)). unfold zlen. lia.
Qed.

Lemma writes_varint64 v : writes 10 (PutVarint64 v) (sint64_pack (s64 v)).
Proof.
  apply writes_grow_append. unfold sint64_pack.
  rewrite zigzag_encode64_spec by apply s64_bound.
  destruct (uint64_pack_shape (zigzag_spec (s64 v))) as (_ & Hl & _);
    [apply (zigzag_spec_bound 64); [done | apply s64_bound] |]. unfold zlen. lia.
Qed.

Lemma writes_varint32 v : writes 10 (PutVarint32 v) (sint64_pack (s32 v)).
Proof.
  rewrite <- sint32_pack_sint64_pack by apply s32_bound. apply writes_grow_append.
  unfold sint32_pack. rewrite zigzag_encode32_spec by apply s32_bound.
  pose proof (uint32_pack_length (zigzag_spec (s32 v))
    (zigzag_spec_bound 32 _ eq_refl (s32_bound v))).
  unfold zlen. lia.
Qed.

Lemma writes_enum v : 0 <= v < 128 -> writes 1 (PutVarUintEnum v) (uint64_pack v).
Proof.
  intros Hv. unfold PutVarUintEnum.
  rewrite (proj2 (Z.leb_le 0 v)), (proj2 (Z.ltb_lt v 128)) by lia. simpl.
  assert (uint64_pack v = [u8 v]) as ->.
  { rewrite uint64_pack_leb128 by lia. unfold leb128_64, u8. cbn [leb128].
    rewrite (proj2 (Z.ltb_lt v 128)) by lia. by rewrite wrap_id by lia. }
  by apply writes_grow_append.
Qed.

Lemma writes_bool b : writes 1 (PutBool b) [if b then 1 else 0].
Proof. by apply writes_grow_append. Qed.

Lemma writes_vstring s :
  zlen s < 2 ^ 32 -> writes (zlen s + 10) (PutVString s) (uint64_pack (zlen s) ++ s).
Proof.
  intros Hs. pose proof (zlen_nonneg s).
  assert (string_pack (Some s) = uint64_pack (zlen s) ++ s) as E.
  { unfold string_pack. by rewrite u32_id, uint32_pack_uint64_pack by lia. }
  unfold PutVString. rewrite E. apply writes_grow_append.
  autorewrite with zlen. rewrite <- uint32_pack_uint64_pack by lia.
  pose proof (uint32_pack_length (zlen s)). unfold zlen at 1. lia.
Qed.

Lemma writes_write s : writes (zlen s) (Write s) s.
Proof. destruct s as [| b s]; [apply writes_ret | by apply writes_grow_append]. Qed.

Lemma writes_slice s :
  zlen s < 2 ^ 32 -> writes (4 + zlen s) (PutSlice s) (le_bytes 4 (zlen s) ++ s).
Proof.
  intros Hs. pose proof (zlen_nonneg s).
  replace (le_bytes 4 (zlen s)) with (le_bytes 4 (u32 (zlen s))) by (by rewrite u32_id by lia).
  apply writes_bind; [apply writes_u32 | by apply writes_grow_append].
Qed.

Lemma writes_uuid u :
  uuid_ok u -> writes 16 (PutUuid u) (le_bytes 8 (data0 u) ++ le_bytes 8 (data1 u)).
Proof.
  intros [H0 H1].
  pose proof (writes_bind _ _ _ _ _ _ (writes_u64 (data0 u)) (writes_u64 (data1 u))) as H.
  by rewrite !u64_id in H.
Qed.

Lemma append_run bs w :
  append bs w = (Ok tt, mk_wr (w_bytes w ++ bs) (w_cap w) (w_maxCap w)).
Proof. reflexivity. Qed.

Lemma writes_struuid u :
  writes 46 (PutStrUuid u) (uint64_pack 36 ++ PutToStr u).
Proof.
  split_and!; [done | unfold zlen; vm_compute; done |]. intros w Hw Hr.
  destruct (grow_ok w 46 Hw) as (w' & E & B & C & (W1 & W2 & W3) & Hc); [lia | done |].
  unfold PutStrUuid. change (kStrFormLen + 10) with 46. rewrite (M_bind_ok _ _ _ _ _ E).
  rewrite (M_bind_ok _ _ _ _ _ (append_run _ _)), append_run. cbn [w_bytes w_maxCap w_cap].
  change (uint32_pack kStrFormLen) with [36]. change (uint64_pack 36) with [36].
  eexists; split; [reflexivity |]. cbn [w_bytes w_maxCap]. rewrite B.
  split_and!; [by rewrite <- app_assoc | done |].
  rewrite B in W1. split_and!; cbn [w_bytes w_maxCap w_cap]; autorewrite with zlen;
    change (zlen (PutToStr u)) with 36; lia.
Qed.

(** Writing a string between [StartVString] and [End], or a slice between [StartSlice] and the
    destructor, is the same as writing it with its length first. *)
Lemma writes_vstring_helper n m bs :
  writes n m bs -> zlen bs < 2 ^ 31 ->
  writes (n + 5) (pos ← StartVString; _ ← m; VStringHelper_End pos)
         (uint64_pack (zlen bs) ++ bs).
Proof.
  intros (Hn & Hl & Hm) Hs. pose proof (zlen_nonneg bs).
  assert (uint64_pack (zlen bs) = uint32_pack (zlen bs)) as Ep
    by (by rewrite uint32_pack_uint64_pack by lia).
  assert (zlen (uint32_pack (zlen bs)) <= 5) as Hp.
  { pose proof (uint32_pack_length (zlen bs)) as Hp. revert Hp.
    generalize (uint32_pack (zlen bs)). intros l Hp. unfold zlen at 1. lia. }
  split_and!; [lia | rewrite Ep; autorewrite with zlen; lia |].
  intros w Hw [R1 R2]. unfold StartVString. unfold mbind at 1, M_bind at 1.
  rewrite M_bind_get. unfold mret, M_ret. cbn beta iota.
  destruct (Hm w Hw) as (w1 & E1 & B1 & C1 & W1); [split; lia |].
  rewrite (M_bind_ok _ _ _ _ _ E1). unfold VStringHelper_End. rewrite M_bind_get.
  rewrite B1. autorewrite with zlen.
  replace (zlen (w_bytes w) + zlen bs - zlen (w_bytes w)) with (zlen bs) by lia.
  rewrite s32_id by lia. rewrite (proj2 (Z.ltb_ge (zlen bs) 0)) by lia.
  destruct (Z.eqb_spec (zlen bs) 0) as [E0 | E0].
  - assert (bs = []) as -> by (destruct bs; [done | autorewrite with zlen in E0;
      pose proof (zlen_nonneg bs); lia]).
    destruct (writes_grow_append 1 (uint32_pack 0)) as (_ & _ & Hg); [done |].
    destruct (Hg w1 W1) as (w2 & E2 & B2 & C2 & W2).
    { unfold wr_room. rewrite B1, C1. autorewrite with zlen. lia. }
    exists w2. split_and!; [done | rewrite B2, B1, app_nil_r; done | by rewrite C2 | apply W2..].
  - rewrite uint32ByteSize_length by lia.
    destruct (grow_ok w1 (zlen (uint32_pack (zlen bs))) W1) as (w2 & E2 & B2 & C2 & W2 & Hc).
    { apply zlen_nonneg. }
    { unfold wr_room. rewrite B1, C1. autorewrite with zlen. lia. }
    rewrite (M_bind_ok _ _ _ _ _ E2), M_bind_get. unfold put.
    eexists; split; [reflexivity |]. cbn [w_bytes w_maxCap]. rewrite B2, B1.
    replace (Z.to_nat (zlen (w_bytes w))) with (length (w_bytes w)) by (unfold zlen; lia).
    rewrite take_app_length, drop_app_length, Ep. split_and!; [done | by rewrite C2 |].
    destruct W2 as (W2a & W2b & W2c). rewrite B1 in Hc. autorewrite with zlen in Hc.
    split_and!; cbn [w_bytes w_maxCap w_cap]; autorewrite with zlen; lia.
Qed.

Lemma writes_slice_helper n m bs :
  writes n m bs -> zlen bs < 2 ^ 32 ->
  writes (4 + n) (pos ← StartSlice; _ ← m; SliceHelper_End pos) (le_bytes 4 (zlen bs) ++ bs).
Proof.
  intros (Hn & Hl & Hm) Hs. pose proof (zlen_nonneg bs).
  assert (zlen (le_bytes 4 (zlen bs)) = 4) as L4 by (unfold zlen; by rewrite le_bytes_length).
  split_and!; [lia | autorewrite with zlen; lia |].
  intros w Hw [R1 R2]. unfold StartSlice. unfold mbind at 1, M_bind at 1.
  rewrite M_bind_get.
  destruct (writes_u32 0) as (_ & _ & H0). destruct (H0 w Hw) as (w0 & E0 & B0 & C0 & W0);
    [split; lia |].
  rewrite (M_bind_ok _ _ _ _ _ E0). unfold mret, M_ret. cbn beta iota.
  assert (zlen (w_bytes w0) = zlen (w_bytes w) + 4) as L0 by (by rewrite B0, zlen_app).
  destruct (Hm w0 W0) as (w1 & E1 & B1 & C1 & W1); [unfold wr_room; rewrite C0; lia |].
  rewrite (M_bind_ok _ _ _ _ _ E1). unfold SliceHelper_End. rewrite M_bind_get. unfold put.
  eexists; split; [reflexivity |]. cbn [w_bytes w_maxCap]. rewrite B1, B0.
  rewrite !zlen_app. change (zlen (le_bytes 4 (u32 0))) with 4.
  replace (zlen (w_bytes w) + 4 + zlen bs - zlen (w_bytes w) - 4) with (zlen bs) by lia.
  rewrite (u32_id (zlen bs)) by lia. rewrite <- app_assoc.
  replace (Z.to_nat (zlen (w_bytes w))) with (length (w_bytes w)) by (unfold zlen; lia).
  rewrite take_app_length.
  replace (drop (Z.to_nat (zlen (w_bytes w) + 4)) (w_bytes w ++ le_bytes 4 (u32 0) ++ bs)) with bs.
  2: { symmetry. rewrite app_assoc. apply drop_app_length'.
       rewrite length_app, le_bytes_length. unfold zlen. lia. }
  split_and!; [done | by rewrite C1, C0 |]. destruct W1 as (W1a & W1b & W1c).
  rewrite B1, B0 in W1a. autorewrite with zlen in W1a.
  split_and!; cbn [w_bytes w_maxCap w_cap]; [| lia | lia | lia].
  autorewrite with zlen. change (zlen (le_bytes 4 (u32 0))) with 4 in W1a. lia.
Qed.

(** ** Properties *)

(** growing the buffer. [grow] keeps what was written. When the bytes fit in the buffer
    or in the limit of the growth policy, it makes room for them without passing the larger of
    the two; exactly when they do not, it throws [errLogic] and leaves the serializer as it
    was. *)
Theorem grow_contract w sz :
  wr_wf w -> 0 <= sz -> zlen (w_bytes w) + sz <= kSaneSize ->
  if zlen (w_bytes w) + sz <=? Z.max (w_cap w) (w_maxCap w) then
    exists w', grow sz w = (Ok tt, w') /\ w_bytes w' = w_bytes w /\ w_maxCap w' = w_maxCap w /\
      zlen (w_bytes w) + sz <= w_cap w' <= Z.max (w_cap w) (w_maxCap w)
  else grow sz w = (Fail (Throw errLogic), w).
Proof.
  intros Hw Hsz Hs. destruct (Z.leb_spec (zlen (w_bytes w) + sz) (Z.max (w_cap w) (w_maxCap w))).
  - destruct (Z.ltb_spec (w_cap w) (zlen (w_bytes w) + sz)) as [Hlt | Hge].
    + pose proof (zlen_nonneg (w_bytes w)). destruct Hw as (H1 & H2 & H3).
      destruct (GetNewCapacity_ok (w_maxCap w) (w_cap w) (zlen (w_bytes w) + sz))
        as (c & E & Hc & _); [lia.. |].
      exists (mk_wr (w_bytes w) c (w_maxCap w)). cbn [w_bytes w_maxCap w_cap].
      split_and!; [| done | done | lia | lia]. unfold grow. rewrite M_bind_get.
      rewrite (proj2 (Z.ltb_lt _ _)), E, M_bind_lift by lia. unfold Reserve.
      by rewrite (proj2 (Z.ltb_lt _ _)) by lia.
    + exists w. split_and!; [| done | done | lia | lia]. unfold grow. rewrite M_bind_get.
      by rewrite (proj2 (Z.ltb_ge _ _)) by lia.
  - apply grow_throws; (done || lia).
Qed.

Lemma grow_contract_witness :
  wr_wf (wr_make 5000) /\
  (exists w', grow 4999 (wr_make 5000) = (Ok tt, w') /\ w_bytes w' = []) /\
  grow 5001 (wr_make 5000) = (Fail (Throw errLogic), wr_make 5000).
Proof.
  assert (wr_wf (wr_make 5000)) as Hw by (vm_compute; repeat split; discriminate).
  split; [exact Hw |]. split.
  - destruct (grow_contract (wr_make 5000) 4999 Hw) as (w' & E & B & _);
      [lia | vm_compute; discriminate |].
    exists w'. split; [exact E | exact B].
  - exact (grow_contract (wr_make 5000) 5001 Hw ltac:(lia) ltac:(vm_compute; discriminate)).
Defined.

(** a string or a slice may be written before its length is known. Whatever writer
    [m] writes the content [bs] between [StartVString] and [End] (or between [StartSlice] and
    the destructor of the helper), the serializer then holds the same bytes as after
    [PutVString] (or [PutSlice]) of the whole content. *)
Theorem helpers_equal_put n m bs w :
  writes n m bs -> zlen bs < 2 ^ 31 -> wr_wf w -> wr_room w (n + zlen bs + 10) ->
  (exists w1 w2, (pos ← StartVString; _ ← m; VStringHelper_End pos) w = (Ok tt, w1) /\
     PutVString bs w = (Ok tt, w2) /\ w_bytes w1 = w_bytes w2) /\
  (exists w1 w2, (pos ← StartSlice; _ ← m; SliceHelper_End pos) w = (Ok tt, w1) /\
     PutSlice bs w = (Ok tt, w2) /\ w_bytes w1 = w_bytes w2).
Proof.
  intros Hm Hs Hw [R1 R2]. pose proof (zlen_nonneg bs).
  assert (0 <= n) as Hn by apply Hm. split.
  - destruct (writes_vstring_helper n m bs Hm Hs) as (_ & _ & H1).
    destruct (writes_vstring bs ltac:(lia)) as (_ & _ & H2).
    destruct (H1 w Hw) as (w1 & E1 & B1 & _); [split; lia |].
    destruct (H2 w Hw) as (w2 & E2 & B2 & _); [split; lia |].
    exists w1, w2. split_and!; [exact E1 | exact E2 | by rewrite B1, B2].
  - destruct (writes_slice_helper n m bs Hm ltac:(lia)) as (_ & _ & H1).
    destruct (writes_slice bs ltac:(lia)) as (_ & _ & H2).
    destruct (H1 w Hw) as (w1 & E1 & B1 & _); [split; lia |].
    destruct (H2 w Hw) as (w2 & E2 & B2 & _); [split; lia |].
    exists w1, w2. split_and!; [exact E1 | exact E2 | by rewrite B1, B2].
Qed.

Lemma helpers_equal_put_witness :
  let m := _ ← PutUInt32 7; PutBool true in
  let bs := le_bytes 4 (u32 7) ++ [1] in
  writes 5 m bs /\
  exists w1 w2, (pos ← StartVString; _ ← m; VStringHelper_End pos) (wr_make 0) = (Ok tt, w1) /\
     PutVString bs (wr_make 0) = (Ok tt, w2) /\ w_bytes w1 = w_bytes w2.
Proof.
  intros m bs.
  assert (writes 5 m bs) as Hm
    by (change 5 with (4 + 1); apply writes_bind; [apply writes_u32 | apply writes_bool]).
  split; [exact Hm |].
  apply (helpers_equal_put 5 m bs (wr_make 0) Hm); vm_compute; repeat split; discriminate.
Defined.
