(* ===== verification/Serializer.v ===== *)
(** The binary reader: [tools/serilize/serializer.h] and [serializer.cc].

    The state is the buffer and the 64-bit position. A [string_view] is the position and the
    length of its bytes; looking at bytes outside of the buffer is undefined. The class
    [RoundTrip] states what a pair of a writer and a reader promises to its clients. *)

From S2P Require Import Prelude Varint CTag Uuid WrSerializer.

Record Serializer : Set := mk_ser { buf_ : bytes; pos_ : Z }.

Definition len_ (s : Serializer) : Z := zlen (buf_ s).

Definition ser_make (buf : bytes) : Serializer := mk_ser buf 0.

Definition Eof (s : Serializer) : bool := len_ s <=? pos_ s.

Definition SetPos (p : Z) : M Serializer unit := s ← get; put (mk_ser (buf_ s) p).

(** [pos + need > len] on 64-bit unsigned integers. *)
Definition checkbound (pos need len : Z) : result unit :=
  if len <? u64 (pos + need) then Fail (Throw errParseBin) else Ok tt.

(** The bytes of the buffer from [p]. *)
Definition read_mem (buf : bytes) (p n : Z) : result bytes :=
  if (0 <=? p) && (0 <=? n) && (p + n <=? zlen buf) then Ok (zslice buf p n) else Fail Undefined.

(** [checkbound(pos_, n, len_); memcpy(&ret, buf_ + pos_, n); pos_ += n] *)
Definition get_fixed (n : Z) : M Serializer Z :=
  s ← get;
  _ ← lift (checkbound (pos_ s) n (len_ s));
  bs ← lift (read_mem (buf_ s) (pos_ s) n);
  _ ← SetPos (u64 (pos_ s + n));
  mret (le_val bs).

Definition GetUInt8 : M Serializer Z := get_fixed 1.
Definition GetUInt32 : M Serializer Z := get_fixed 4.
Definition GetUInt64 : M Serializer Z := get_fixed 8.
Definition GetDouble : M Serializer Z := get_fixed 8.
Definition GetFloat : M Serializer Z := get_fixed 4.

(** The common part of [GetVarint] and [GetVarUInt]; [scan_varint] takes a 32-bit length. *)
Definition get_varint (parse : Z -> bytes -> option Z) : M Serializer Z :=
  s ← get;
  let data := drop (Z.to_nat (pos_ s)) (buf_ s) in
  l ← lift (of_option Undefined (scan_varint (u32 (u64 (len_ s - pos_ s))) data));
  if l =? 0 then fail (Throw errParseBin)
  else
    _ ← lift (checkbound (pos_ s) l (len_ s));
    _ ← SetPos (u64 (pos_ s + l));
    lift (of_option Undefined (parse l data)).

Definition GetVarint : M Serializer Z := get_varint parse_int64.
Definition GetVarUInt : M Serializer Z := get_varint parse_uint64.

(** A view of the buffer. *)
Record string_view : Set := mk_view { v_pos : Z; v_len : Z }.

Definition view_bytes (v : string_view) : M Serializer bytes :=
  s ← get; lift (read_mem (buf_ s) (v_pos v) (v_len v)).

Definition GetVString : M Serializer string_view :=
  l ← GetVarUInt;
  s ← get;
  _ ← lift (checkbound (pos_ s) l (len_ s));
  _ ← SetPos (u64 (pos_ s + l));
  mret (mk_view (pos_ s) l).

Definition GetSlice : M Serializer string_view :=
  l ← GetUInt32;
  s ← get;
  _ ← lift (checkbound (pos_ s) l (len_ s));
  _ ← SetPos (u64 (pos_ s + l));
  mret (mk_view (pos_ s) l).

(** The [p_string] that points to a string with its length in front: its length is parsed
    again as 32 bits when the string is used. *)
Definition GetPVString : M Serializer string_view :=
  v ← GetVString; mret (mk_view (v_pos v) (u32 (v_len v))).

Definition GetBool : M Serializer bool := v ← GetVarUInt; mret (negb (v =? 0)).

Definition GetUuid : M Serializer Uuid := v1 ← GetUInt64; v2 ← GetUInt64; mret (mk_uuid v1 v2).

Definition GetCTag : M Serializer Z := v ← GetVarUInt; lift (ctag_of_number v).
Definition GetCArrayTag : M Serializer Z := v ← GetUInt32; lift (carraytag_of_number v).

(** A string read and copied. *)
Definition GetVStringCopy : M Serializer bytes := v ← GetVString; view_bytes v.
Definition GetSliceCopy : M Serializer bytes := v ← GetSlice; view_bytes v.

(** [Uuid{GetVString()}] *)
Definition GetStrUuid : M Serializer Uuid := str ← GetVStringCopy; lift (uuid_of_string str).

(** ** What a reader reads *)

(** [reads m bs a]: when the bytes [bs] stand at the position, in a buffer of less than 4GB,
    the reader returns [a] and moves behind them. *)
Definition reads {A} (m : M Serializer A) (bs : bytes) (a : A) : Prop :=
  forall pre rest, zlen (pre ++ bs ++ rest) < 2 ^ 32 ->
    m (mk_ser (pre ++ bs ++ rest) (zlen pre)) =
      (Ok a, mk_ser (pre ++ bs ++ rest) (zlen pre + zlen bs)).

Lemma reads_ret {A} (a : A) : reads (mret a) [] a.
Proof. intros pre rest _. rewrite zlen_nil, Z.add_0_r. done. Qed.

Lemma reads_bind {A B} (m : M Serializer A) (k : A -> M Serializer B) bs1 bs2 a b :
  reads m bs1 a -> reads (k a) bs2 b -> reads (m ≫= k) (bs1 ++ bs2) b.
Proof.
  intros H1 H2 pre rest Hl. rewrite <- app_assoc in *.
  rewrite (M_bind_ok _ _ _ _ _ (H1 pre (bs2 ++ rest) Hl)).
  specialize (H2 (pre ++ bs1) rest). rewrite <- app_assoc, (zlen_app pre bs1) in H2.
  rewrite H2 by done. by rewrite (zlen_app bs1), Z.add_assoc.
Qed.

Lemma reads_fmap {A B} (m : M Serializer A) (f : A -> B) bs a :
  reads m bs a -> reads (x ← m; mret (f x)) bs (f a).
Proof. intros H. rewrite <- (app_nil_r bs). apply (reads_bind _ _ _ _ _ _ H). apply reads_ret. Qed.

Lemma reads_lift {A B} (m : M Serializer A) (f : A -> result B) bs a b :
  reads m bs a -> f a = Ok b -> reads (x ← m; lift (f x)) bs b.
Proof.
  intros H E. rewrite <- (app_nil_r bs). apply (reads_bind _ _ _ _ _ _ H).
  intros pre rest _. unfold lift. by rewrite E, zlen_nil, Z.add_0_r.
Qed.

Lemma checkbound_ok pos need len :
  0 <= pos -> 0 <= need -> pos + need <= len -> len < 2 ^ 64 ->
  checkbound pos need len = Ok tt.
Proof.
  intros. unfold checkbound. rewrite u64_id by lia. by rewrite (proj2 (Z.ltb_ge _ _)) by lia.
Qed.

Lemma zslice_app {A} (pre bs rest : list A) : zslice (pre ++ bs ++ rest) (zlen pre) (zlen bs) = bs.
Proof.
  unfold zslice, zlen. rewrite !Nat2Z.id, drop_app_length, take_app_length. done.
Qed.

Lemma read_mem_app (pre bs rest : bytes) n :
  n = zlen bs -> read_mem (pre ++ bs ++ rest) (zlen pre) n = Ok bs.
Proof.
  intros ->. unfold read_mem. autorewrite with zlen.
  pose proof (zlen_nonneg pre); pose proof (zlen_nonneg bs); pose proof (zlen_nonneg rest).
  rewrite (proj2 (Z.leb_le 0 (zlen pre))), (proj2 (Z.leb_le 0 (zlen bs))),
    (proj2 (Z.leb_le (zlen pre + zlen bs) _)) by lia. simpl. by rewrite zslice_app.
Qed.

Section Reading.
Context (pre rest : bytes).

Lemma SetPos_run p s : SetPos p s = (Ok tt, mk_ser (buf_ s) p).
Proof. reflexivity. Qed.

Lemma get_fixed_reads n v :
  0 <= v < 2 ^ (8 * Z.of_nat n) -> reads (get_fixed (Z.of_nat n)) (le_bytes n v) v.
Proof.
  intros Hv p r Hl. unfold get_fixed. rewrite M_bind_get. unfold len_. cbn [buf_ pos_].
  autorewrite with zlen in Hl.
  assert (zlen (le_bytes n v) = Z.of_nat n) as Ln by (unfold zlen; by rewrite le_bytes_length).
  pose proof (zlen_nonneg p); pose proof (zlen_nonneg r).
  rewrite checkbound_ok by (autorewrite with zlen; lia).
  rewrite M_bind_lift, read_mem_app, M_bind_lift by done.
  rewrite (M_bind_ok _ _ _ _ _ (SetPos_run _ _)). cbn [buf_]. rewrite u64_id by lia.
  unfold mret, M_ret. by rewrite le_val_le_bytes, Ln by done.
Qed.

Lemma drop_zlen_app {A} (p l : list A) : drop (Z.to_nat (zlen p)) (p ++ l) = l.
Proof. unfold zlen. by rewrite Nat2Z.id, drop_app_length. Qed.

Lemma get_varint_reads parse bs v :
  leb128_shape bs -> (length bs <= 10)%nat ->
  (forall r, parse (zlen bs) (bs ++ r) = Some v) ->
  reads (get_varint parse) bs v.
Proof.
  intros Hs Hb Hp p r Hl. unfold get_varint. rewrite M_bind_get. unfold len_. cbn [buf_ pos_].
  rewrite drop_zlen_app. autorewrite with zlen in Hl.
  assert (0 < zlen bs) by (destruct Hs; unfold zlen; simpl; lia).
  pose proof (zlen_nonneg p); pose proof (zlen_nonneg r).
  replace (zlen (p ++ bs ++ r) - zlen p) with (zlen (bs ++ r)) by (autorewrite with zlen; lia).
  rewrite u64_id, u32_id by (autorewrite with zlen; lia).
  rewrite scan_varint_shape by done. cbn [of_option]. rewrite M_bind_lift.
  rewrite (proj2 (Z.eqb_neq _ _)) by lia.
  rewrite checkbound_ok by (autorewrite with zlen; lia). rewrite M_bind_lift.
  rewrite (M_bind_ok _ _ _ _ _ (SetPos_run _ _)). cbn [buf_]. rewrite u64_id, Hp by lia. done.
Qed.
End Reading.

Lemma GetUInt8_reads v : 0 <= v < 2 ^ 8 -> reads GetUInt8 (le_bytes 1 v) v.
Proof. apply (get_fixed_reads 1). Qed.
Lemma GetUInt32_reads v : 0 <= v < 2 ^ 32 -> reads GetUInt32 (le_bytes 4 v) v.
Proof. apply (get_fixed_reads 4). Qed.
Lemma GetUInt64_reads v : 0 <= v < 2 ^ 64 -> reads GetUInt64 (le_bytes 8 v) v.
Proof. apply (get_fixed_reads 8). Qed.
Lemma GetDouble_reads v : 0 <= v < 2 ^ 64 -> reads GetDouble (le_bytes 8 v) v.
Proof. apply (get_fixed_reads 8). Qed.
Lemma GetFloat_reads v : 0 <= v < 2 ^ 32 -> reads GetFloat (le_bytes 4 v) v.
Proof. apply (get_fixed_reads 4). Qed.

Lemma GetVarUInt_reads v : 0 <= v < 2 ^ 64 -> reads GetVarUInt (uint64_pack v) v.
Proof.
  intros Hv. destruct (uint64_pack_shape v Hv) as (Hs & Hl & Hval).
  apply get_varint_reads; [done | lia |]. intros r. rewrite parse_uint64_spec by done.
  by rewrite Hval, Z.mod_small.
Qed.

Lemma GetVarint_reads v : - 2 ^ 63 <= v < 2 ^ 63 -> reads GetVarint (sint64_pack v) v.
Proof.
  intros Hv. unfold sint64_pack. rewrite zigzag_encode64_spec by done.
  pose proof (zigzag_spec_bound 64 v eq_refl Hv) as Hz.
  destruct (uint64_pack_shape _ Hz) as (Hs & Hl & Hval).
  apply get_varint_reads; [done | lia |]. intros r. unfold parse_int64.
  rewrite parse_uint64_spec by done. cbn [mbind option_bind]. f_equal.
  rewrite Hval, Z.mod_small by done. by apply zigzag_decode64_encode.
Qed.

(** ** The contract between writers and readers *)

(** [RoundTrip ok put get]: for the values that satisfy [ok], the writer appends an encoding
    that the reader reads back. *)
Class RoundTrip {A} (ok : A -> Prop) (put : A -> M WrSerializer unit) (get : M Serializer A) := {
  rt_enc : A -> bytes;
  rt_room : A -> Z;
  rt_put a : ok a -> writes (rt_room a) (put a) (rt_enc a);
  rt_get a : ok a -> reads get (rt_enc a) a
}.
Arguments rt_enc {A ok put get} _ _.
Arguments rt_room {A ok put get} _ _.
Arguments rt_put {A ok put get} _ _ _.
Arguments rt_get {A ok put get} _ _ _.

(** From the contract: a value written to a fresh serializer is read back from its bytes. *)
Lemma roundtrip_run {A} {ok : A -> Prop} {put get} (C : RoundTrip ok put get) a :
  ok a -> rt_room C a < 2 ^ 32 ->
  exists w, put a (wr_make 0) = (Ok tt, w) /\
    get (ser_make (w_bytes w)) = (Ok a, mk_ser (w_bytes w) (zlen (w_bytes w))).
Proof.
  intros Ha Hr. destruct (rt_put C a Ha) as (Hn & Hl & Hw).
  destruct (Hw (wr_make 0)) as (w & E & B & _ & _).
  - repeat split; done.
  - unfold wr_room, kSaneSize. cbn [wr_make w_bytes w_maxCap].
    change (GrowthPolicy_make 0) with kMaxCapacity. rewrite zlen_nil. unfold kMaxCapacity. lia.
  - exists w. split; [done |]. pose proof (rt_get C a Ha [] []) as Hg.
    cbn [wr_make w_bytes app] in *. rewrite app_nil_r, zlen_nil in Hg. rewrite B. apply Hg. lia.
Qed.

#[export] Instance RoundTrip_u8 : RoundTrip (fun v => 0 <= v < 2 ^ 8) PutUInt8 GetUInt8.
Proof.
  refine {| rt_enc v := le_bytes 1 v; rt_room _ := 1 |}; intros v Hv.
  - pose proof (writes_u8 v) as H. unfold u8 in H. by rewrite wrap_id in H.
  - by apply GetUInt8_reads.
Defined.

#[export] Instance RoundTrip_u32 : RoundTrip (fun v => 0 <= v < 2 ^ 32) PutUInt32 GetUInt32.
Proof.
  refine {| rt_enc v := le_bytes 4 v; rt_room _ := 4 |}; intros v Hv.
  - pose proof (writes_u32 v) as H. by rewrite u32_id in H.
  - by apply GetUInt32_reads.
Defined.

#[export] Instance RoundTrip_u64 : RoundTrip (fun v => 0 <= v < 2 ^ 64) PutUInt64 GetUInt64.
Proof.
  refine {| rt_enc v := le_bytes 8 v; rt_room _ := 8 |}; intros v Hv.
  - pose proof (writes_u64 v) as H. by rewrite u64_id in H.
  - by apply GetUInt64_reads.
Defined.

#[export] Instance RoundTrip_double : RoundTrip (fun v => 0 <= v < 2 ^ 64) PutDouble GetDouble.
Proof.
  refine {| rt_enc v := le_bytes 8 v; rt_room _ := 8 |}; intros v Hv.
  - pose proof (writes_double v) as H. by rewrite u64_id in H.
  - by apply GetDouble_reads.
Defined.

#[export] Instance RoundTrip_float : RoundTrip (fun v => 0 <= v < 2 ^ 32) PutFloat GetFloat.
Proof.
  refine {| rt_enc v := le_bytes 4 v; rt_room _ := 4 |}; intros v Hv.
  - pose proof (writes_float v) as H. by rewrite u32_id in H.
  - by apply GetFloat_reads.
Defined.

#[export] Instance RoundTrip_varuint64 :
  RoundTrip (fun v => 0 <= v < 2 ^ 64) PutVarUint64 GetVarUInt.
Proof.
  refine {| rt_enc v := uint64_pack v; rt_room _ := 10 |}; intros v Hv.
  - pose proof (writes_varuint64 v) as H. by rewrite u64_id in H.
  - by apply GetVarUInt_reads.
Defined.

#[export] Instance RoundTrip_varuint32 :
  RoundTrip (fun v => 0 <= v < 2 ^ 32) PutVarUint32 GetVarUInt.
Proof.
  refine {| rt_enc v := uint64_pack v; rt_room _ := 10 |}; intros v Hv.
  - pose proof (writes_varuint32 v) as H. by rewrite u32_id in H.
  - apply GetVarUInt_reads. lia.
Defined.

#[export] Instance RoundTrip_varint64 :
  RoundTrip (fun v => - 2 ^ 63 <= v < 2 ^ 63) PutVarint64 GetVarint.
Proof.
  refine {| rt_enc v := sint64_pack v; rt_room _ := 10 |}; intros v Hv.
  - pose proof (writes_varint64 v) as H. by rewrite s64_id in H.
  - by apply GetVarint_reads.
Defined.

#[export] Instance RoundTrip_varint32 :
  RoundTrip (fun v => - 2 ^ 31 <= v < 2 ^ 31) PutVarint32 GetVarint.
Proof.
  refine {| rt_enc v := sint64_pack v; rt_room _ := 10 |}; intros v Hv.
  - pose proof (writes_varint32 v) as H. by rewrite s32_id in H.
  - apply GetVarint_reads. lia.
Defined.

#[export] Instance RoundTrip_bool : RoundTrip (fun _ => True) PutBool GetBool.
Proof.
  refine {| rt_enc (b : bool) := [if b then 1 else 0]; rt_room _ := 1 |}; intros b _.
  - apply writes_bool.
  - pose proof (reads_fmap GetVarUInt (fun v => negb (v =? 0)) _ _
      (GetVarUInt_reads (if b then 1 else 0) ltac:(destruct b; lia))) as H.
    by destruct b.
Defined.

#[export] Instance RoundTrip_uuid : RoundTrip uuid_ok PutUuid GetUuid.
Proof.
  refine {| rt_enc u := le_bytes 8 (data0 u) ++ le_bytes 8 (data1 u); rt_room _ := 16 |};
    intros u Hu.
  - by apply writes_uuid.
  - destruct Hu as [H0 H1]. eapply reads_bind; [by apply GetUInt64_reads |].
    rewrite <- (app_nil_r (le_bytes 8 (data1 u))).
    eapply reads_bind; [by apply GetUInt64_reads |]. destruct u. apply reads_ret.
Defined.

(** *** Strings *)

(** A length and then as many bytes: [GetVString] and [GetSlice] differ in the length only. *)
Definition get_view (m : M Serializer Z) : M Serializer string_view :=
  l ← m;
  s ← get;
  _ ← lift (checkbound (pos_ s) l (len_ s));
  _ ← SetPos (u64 (pos_ s + l));
  mret (mk_view (pos_ s) l).

Lemma get_view_run (m : M Serializer Z) lbs s pre rest :
  reads m lbs (zlen s) -> zlen (pre ++ lbs ++ s ++ rest) < 2 ^ 32 ->
  get_view m (mk_ser (pre ++ lbs ++ s ++ rest) (zlen pre)) =
    (Ok (mk_view (zlen pre + zlen lbs) (zlen s)),
     mk_ser (pre ++ lbs ++ s ++ rest) (zlen pre + zlen (lbs ++ s))).
Proof.
  intros Hm Hl. autorewrite with zlen in Hl.
  pose proof (zlen_nonneg pre); pose proof (zlen_nonneg rest); pose proof (zlen_nonneg s);
    pose proof (zlen_nonneg lbs).
  unfold get_view. erewrite (M_bind_ok m); [| apply (Hm pre (s ++ rest)); autorewrite with zlen; lia].
  rewrite M_bind_get. unfold len_. cbn [buf_ pos_].
  rewrite checkbound_ok, M_bind_lift by (autorewrite with zlen; lia).
  rewrite (M_bind_ok _ _ _ _ _ (SetPos_run _ _)). cbn [buf_].
  rewrite u64_id by lia. unfold mret, M_ret. rewrite (zlen_app lbs s). by rewrite Z.add_assoc.
Qed.

Lemma view_bytes_run pre lbs s rest p :
  view_bytes (mk_view (zlen pre + zlen lbs) (zlen s)) (mk_ser (pre ++ lbs ++ s ++ rest) p) =
    (Ok s, mk_ser (pre ++ lbs ++ s ++ rest) p).
Proof.
  unfold view_bytes. rewrite M_bind_get. cbn [buf_ v_pos v_len]. unfold lift.
  by rewrite app_assoc, <- (zlen_app pre lbs), read_mem_app.
Qed.

Lemma view_reads (m : M Serializer Z) lbs s :
  reads m lbs (zlen s) -> reads (v ← get_view m; view_bytes v) (lbs ++ s) s.
Proof.
  intros Hm pre rest Hl. rewrite <- app_assoc in *.
  rewrite (M_bind_ok _ _ _ _ _ (get_view_run m lbs s pre rest Hm Hl)). apply view_bytes_run.
Qed.

Lemma GetVStringCopy_reads s : zlen s < 2 ^ 32 -> reads GetVStringCopy (uint64_pack (zlen s) ++ s) s.
Proof.
  intros Hs. pose proof (zlen_nonneg s). apply view_reads. apply GetVarUInt_reads. lia.
Qed.

#[export] Instance RoundTrip_vstring : RoundTrip (fun s => zlen s < 2 ^ 32) PutVString GetVStringCopy.
Proof.
  refine {| rt_enc s := uint64_pack (zlen s) ++ s; rt_room s := zlen s + 10 |}; intros s Hs.
  - by apply writes_vstring.
  - by apply GetVStringCopy_reads.
Defined.

#[export] Instance RoundTrip_slice : RoundTrip (fun s => zlen s < 2 ^ 32) PutSlice GetSliceCopy.
Proof.
  refine {| rt_enc s := le_bytes 4 (zlen s) ++ s; rt_room s := 4 + zlen s |}; intros s Hs.
  - by apply writes_slice.
  - pose proof (zlen_nonneg s). apply view_reads. apply GetUInt32_reads. lia.
Defined.

#[export] Instance RoundTrip_struuid :
  RoundTrip (fun u => uuid_ok u /\ tryParse (PutToStr u) = Ok u) PutStrUuid GetStrUuid.
Proof.
  refine {| rt_enc u := uint64_pack 36 ++ PutToStr u; rt_room _ := 46 |}; intros u [Hu Hv].
  - apply writes_struuid.
  - unfold GetStrUuid. eapply reads_lift; [| exact Hv].
    apply (GetVStringCopy_reads (PutToStr u)). done.
Defined.

(** *** Tags *)

(** A tag made of valid parts: its bytes are read back by [GetCTag]. *)
Definition ctag_ok (tag : Z) : Prop :=
  exists ty name field, 0 <= ty < 64 /\ 0 <= name <= 4095 /\ -1 <= field < 1023 /\
    tag = ctag_layout ty name field.

#[export] Instance RoundTrip_ctag : RoundTrip ctag_ok PutCTag GetCTag.
Proof.
  refine {| rt_enc tag := uint64_pack tag; rt_room _ := 10 |};
    intros tag (ty & name & field & Ht & Hn & Hf & ->);
    pose proof (ctag_layout_bound ty name field Ht Hn ltac:(lia) ltac:(lia)) as Hb.
  - by apply (rt_put RoundTrip_varuint32).
  - eapply reads_lift; [by apply (rt_get RoundTrip_varuint32) |].
    apply ctag_of_number_layout; (done || lia).
Defined.

Definition carraytag_ok (atag : Z) : Prop :=
  exists count ty, 0 <= count < 2 ^ 24 /\ 0 <= ty < 64 /\ atag = count + ty * 2 ^ 24.

#[export] Instance RoundTrip_carraytag : RoundTrip carraytag_ok PutCArrayTag GetCArrayTag.
Proof.
  refine {| rt_enc tag := le_bytes 4 tag; rt_room _ := 4 |};
    intros tag (count & ty & Hc & Ht & ->);
    destruct (carraytag_layout count ty Hc Ht) as (E & Ec & Et & Hb).
  - apply (rt_put RoundTrip_u32). lia.
  - eapply reads_lift; [apply (rt_get RoundTrip_u32); lia |].
    unfold carraytag_of_number. by rewrite Ec, Et.
Defined.

(** ** Reading any bytes *)

(** The position is in the buffer, which is smaller than 4GB. *)
Definition ser_wf (s : Serializer) : Prop :=
  0 <= pos_ s <= len_ s /\ len_ s < 2 ^ 32 /\ bytes_ok (buf_ s).

(** The state after a read: the same buffer, and a position that moved forward inside of it. *)
Definition advanced (s s' : Serializer) : Prop :=
  buf_ s' = buf_ s /\ pos_ s <= pos_ s' <= len_ s.

(** Whatever the bytes are, the reader returns a value that satisfies [P], or throws
    [errParseBin]; it neither looks outside of the buffer nor leaves it. *)
Definition safe {A} (P : Serializer -> A -> Prop) (m : M Serializer A) : Prop :=
  forall s, ser_wf s ->
    match m s with
    | (Ok a, s') => advanced s s' /\ P s' a
    | (Fail f, s') => f = Throw errParseBin /\ advanced s s'
    end.

Lemma advanced_refl s : ser_wf s -> advanced s s.
Proof. intros (? & ? & ?). split; [done | lia]. Qed.

Lemma advanced_wf s s' : ser_wf s -> advanced s s' -> ser_wf s'.
Proof. unfold ser_wf, advanced, len_. intros (? & ? & ?) [-> ?].
  split_and!; (done || lia).
Qed.

Lemma advanced_trans s1 s2 s3 : advanced s1 s2 -> advanced s2 s3 -> advanced s1 s3.
Proof. unfold advanced, len_. intros [E ?] [-> ?]. rewrite E in *. split; [done | lia]. Qed.

Lemma safe_bind {A B} P Q (m : M Serializer A) (k : A -> M Serializer B) :
  safe P m ->
  (forall a s, ser_wf s -> P s a ->
     match k a s with
     | (Ok b, s') => advanced s s' /\ Q s' b
     | (Fail f, s') => f = Throw errParseBin /\ advanced s s'
     end) ->
  safe Q (m ≫= k).
Proof.
  intros Hm Hk s Hs. specialize (Hm s Hs). unfold mbind, M_bind.
  destruct (m s) as [[a | f] s1]; [| done]. destruct Hm as [H1 Ha].
  specialize (Hk a s1 (advanced_wf _ _ Hs H1) Ha).
  destruct (k a s1) as [[b | f] s2]; destruct Hk as [H2 H3]; eauto using advanced_trans.
Qed.

Lemma safe_fmap {A B} (P : Serializer -> A -> Prop) Q (m : M Serializer A) (f : A -> B) :
  safe P m -> (forall s a, P s a -> Q s (f a)) -> safe Q (x ← m; mret (f x)).
Proof.
  intros Hm Hf. apply (safe_bind P); [done |]. intros a s Hs Ha.
  split; [by apply advanced_refl | by apply Hf].
Qed.

Lemma checkbound_cases s n :
  ser_wf s -> 0 <= n -> pos_ s + n < 2 ^ 64 ->
  checkbound (pos_ s) n (len_ s) =
    if len_ s <? pos_ s + n then Fail (Throw errParseBin) else Ok tt.
Proof. intros (? & ? & ?) ? ?. unfold checkbound. by rewrite u64_id by lia. Qed.

Lemma read_mem_ok s n :
  ser_wf s -> 0 <= n -> pos_ s + n <= len_ s ->
  read_mem (buf_ s) (pos_ s) n = Ok (zslice (buf_ s) (pos_ s) n).
Proof.
  intros (? & ? & ?) ? ?. unfold read_mem, len_ in *.
  by rewrite !(proj2 (Z.leb_le _ _)) by lia.
Qed.

Lemma get_fixed_safe n :
  0 <= n < 2 ^ 32 -> safe (fun _ v => 0 <= v < 2 ^ (8 * n)) (get_fixed n).
Proof.
  intros Hn s Hs. unfold get_fixed. rewrite M_bind_get.
  pose proof Hs as (? & ? & ?). rewrite checkbound_cases by (done || lia).
  destruct (Z.ltb_spec (len_ s) (pos_ s + n)).
  { split; [done | by apply advanced_refl]. }
  rewrite M_bind_lift, read_mem_ok, M_bind_lift by (done || lia).
  rewrite (M_bind_ok _ _ _ _ _ (SetPos_run _ _)), u64_id by lia.
  cbn [mret M_ret buf_ pos_]. split; [split; [done |]; cbn [pos_]; lia |].
  assert (zlen (zslice (buf_ s) (pos_ s) n) = n) as Ln.
  { unfold zslice, zlen, len_ in *. rewrite length_take, length_drop. unfold zlen in *. lia. }
  pose proof (le_val_bound (zslice (buf_ s) (pos_ s) n)) as Hb. rewrite Ln in Hb.
  apply Hb. unfold zslice. by apply Forall_take, Forall_drop.
Qed.

(** A variable-length number is at most 10 bytes. *)
Lemma get_varint_safe parse P :
  (forall l data, 1 <= l <= zlen data -> exists v, parse l data = Some v /\ P v) ->
  safe (fun _ v => P v) (get_varint parse).
Proof.
  intros Hp s Hs. unfold get_varint. rewrite M_bind_get. pose proof Hs as (? & ? & ?).
  set (data := drop (Z.to_nat (pos_ s)) (buf_ s)).
  assert (zlen data = len_ s - pos_ s) as Hd.
  { unfold data, len_, zlen in *. rewrite length_drop. lia. }
  rewrite <- Hd, u64_id, u32_id by lia.
  destruct (scan_varint_total data) as (l & -> & Hl & Hld). cbn [of_option].
  rewrite M_bind_lift. destruct (Z.eqb_spec l 0).
  { split; [done | by apply advanced_refl]. }
  rewrite checkbound_cases by (done || lia).
  rewrite (proj2 (Z.ltb_ge _ _)), M_bind_lift by lia.
  rewrite (M_bind_ok _ _ _ _ _ (SetPos_run _ _)), u64_id by lia.
  destruct (Hp l data) as (v & -> & Hv); [lia |]. cbn [of_option lift buf_ pos_].
  split; [| done]. split; [done |]. cbn [pos_]. lia.
Qed.

Lemma GetVarUInt_safe : safe (fun _ v => 0 <= v < 2 ^ 64) GetVarUInt.
Proof. apply get_varint_safe. apply parse_uint64_total. Qed.

Lemma GetVarint_safe : safe (fun _ _ => True) GetVarint.
Proof.
  apply (get_varint_safe _ (fun _ => True)). intros l data Hl. unfold parse_int64.
  destruct (parse_uint64_total l data Hl) as (v & -> & _). cbn [mbind option_bind]. by eexists.
Qed.

(** The view of a length that the bound check accepts, when the addition does not wrap. *)
Lemma get_view_tail s l :
  ser_wf s -> 0 <= l -> pos_ s + l < 2 ^ 64 ->
  (_ ← lift (checkbound (pos_ s) l (len_ s)); _ ← SetPos (u64 (pos_ s + l));
   mret (mk_view (pos_ s) l)) s =
    if len_ s <? pos_ s + l then (Fail (Throw errParseBin), s)
    else (Ok (mk_view (pos_ s) l), mk_ser (buf_ s) (pos_ s + l)).
Proof.
  intros Hs Hl Hb. rewrite checkbound_cases by done. destruct (_ <? _); [done |].
  rewrite M_bind_lift. rewrite (M_bind_ok _ _ _ _ _ (SetPos_run _ _)). rewrite u64_id; [done |].
  destruct Hs. lia.
Qed.

Definition view_ok (s : Serializer) (v : string_view) : Prop :=
  0 <= v_pos v /\ 0 <= v_len v /\ v_pos v + v_len v = pos_ s.

Lemma GetSlice_safe : safe view_ok GetSlice.
Proof.
  apply (safe_bind (fun _ v => 0 <= v < 2 ^ 32)); [by apply (get_fixed_safe 4) |].
  intros l s Hs Hl. rewrite M_bind_get. pose proof Hs as (? & ? & ?).
  rewrite get_view_tail by (done || lia).
  destruct (Z.ltb_spec (len_ s) (pos_ s + l)); [split; [done | by apply advanced_refl] |].
  unfold advanced, view_ok. cbn [buf_ pos_ v_pos v_len]. split_and!; (done || lia).
Qed.

Lemma GetUuid_safe : safe (fun _ u => uuid_ok u) GetUuid.
Proof.
  eapply safe_bind; [by apply (get_fixed_safe 8) |]. intros v1 s Hs H1.
  pose proof (safe_fmap _ (fun _ u => uuid_ok u) GetUInt64 (mk_uuid v1)
    (get_fixed_safe 8 ltac:(lia))) as H. by apply H.
Qed.

(** ** Properties *)

(** C38: the reader is safe on any input. Whatever the bytes of the buffer are (a truncated
    or corrupted message), reading a number, a Boolean, a UUID or a slice either returns a
    value of its type (a slice inside of the buffer, which ends at the new position) or throws
    [errParseBin]; it does not look outside of the buffer, and the position moves forward and
    stays in the buffer. *)
Theorem reader_safe :
  safe (fun _ v => 0 <= v < 2 ^ 8) GetUInt8 /\ safe (fun _ v => 0 <= v < 2 ^ 32) GetUInt32 /\
  safe (fun _ v => 0 <= v < 2 ^ 64) GetUInt64 /\ safe (fun _ v => 0 <= v < 2 ^ 64) GetDouble /\
  safe (fun _ v => 0 <= v < 2 ^ 32) GetFloat /\ safe (fun _ v => 0 <= v < 2 ^ 64) GetVarUInt /\
  safe (fun _ _ => True) GetVarint /\ safe (fun _ _ => True) GetBool /\
  safe (fun _ u => uuid_ok u) GetUuid /\ safe view_ok GetSlice.
Proof.
  split_and!; try (by apply (get_fixed_safe 1)); try (by apply (get_fixed_safe 4));
    try (by apply (get_fixed_safe 8)).
  - apply GetVarUInt_safe.
  - apply GetVarint_safe.
  - by eapply safe_fmap; [apply GetVarUInt_safe |].
  - apply GetUuid_safe.
  - apply GetSlice_safe.
Qed.

(** C40: reading a string with a variable-length size, on every branch. After the size
    [l], the string is a view of the buffer when it fits, and [errParseBin] is thrown when it
    does not, as long as the end position [pos + l] fits in 64 bits. For a larger size the
    addition of the bound check wraps around: nothing is thrown, the returned view reaches
    outside of the buffer, and the position moves backwards. *)
Theorem GetVString_cases s :
  ser_wf s ->
  match GetVarUInt s with
  | (Fail f, s1) => f = Throw errParseBin /\ GetVString s = (Fail f, s1)
  | (Ok l, s1) =>
      GetVString s =
        (if 2 ^ 64 <=? pos_ s1 + l then
           (Ok (mk_view (pos_ s1) l), mk_ser (buf_ s) (pos_ s1 + l - 2 ^ 64))
         else if pos_ s1 + l <=? len_ s then
           (Ok (mk_view (pos_ s1) l), mk_ser (buf_ s) (pos_ s1 + l))
         else (Fail (Throw errParseBin), s1))
  end.
Proof.
  intros Hs. pose proof (GetVarUInt_safe s Hs) as Hv. unfold GetVString.
  destruct (GetVarUInt s) as [[l | f] s1] eqn:Eg.
  2: { destruct Hv. split; [done | by apply M_bind_fail]. }
  rewrite (M_bind_ok _ _ _ _ _ Eg).
  destruct Hv as [Ha Hl]. pose proof (advanced_wf _ _ Hs Ha) as Hs1.
  assert (len_ s1 = len_ s) as El by (destruct Ha as [E _]; unfold len_; by rewrite E).
  destruct Ha as [Eb Hp]. pose proof Hs1 as (H1 & H2 & _). rewrite M_bind_get.
  destruct (Z.leb_spec (2 ^ 64) (pos_ s1 + l)).
  - assert (u64 (pos_ s1 + l) = pos_ s1 + l - 2 ^ 64) as E by wrap_lia.
    unfold checkbound. rewrite E, (proj2 (Z.ltb_ge _ _)) by lia. rewrite M_bind_lift.
    by rewrite (M_bind_ok _ _ _ _ _ (SetPos_run _ _)), Eb.
  - rewrite get_view_tail, El, Eb by (done || lia). rewrite Z.ltb_antisym.
    by destruct (_ <=? _).
Qed.

Lemma GetVString_cases_witness :
  let bad := mk_ser [0; 251; 255; 255; 255; 255; 255; 255; 255; 255; 1; 65] 1 in
  ser_wf bad /\
  GetVString bad = (Ok (mk_view 11 (2 ^ 64 - 5)), mk_ser (buf_ bad) 6).
Proof.
  intros bad.
  assert (ser_wf bad) as Hw.
  { unfold ser_wf. change (len_ bad) with 12. unfold bad. cbn [buf_ pos_].
    split_and!; [lia.. |]. repeat (constructor; [unfold byte_ok; lia |]). constructor. }
  split; [exact Hw |]. pose proof (GetVString_cases bad Hw) as H.
  replace (GetVarUInt bad) with (@Ok Z (2 ^ 64 - 5), mk_ser (buf_ bad) 11) in H
    by (vm_compute; reflexivity).
  exact H.
Defined.
