(* ===== verification/Variant.v ===== *)
(** Values and their binary form: [core/key_value_type.h], the part of
    [core/keyvalue/variant.h] and [uuid.h] that stores a UUID in a variant,
    [core/keyvalue/float_vector.h], and [PutVariant] / [GetVariant] of the serializers. *)

From S2P Require Import Prelude Varint CTag Uuid WrSerializer Serializer.

(** ** [KeyValueType] *)

Inductive KVT : Set :=
| KInt64 | KDouble | KString | KBool | KNull | KInt | KUndefined | KComposite | KTuple | KUuid
| KFloatVector | KFloat.

#[export] Instance KVT_eq_dec : EqDecision KVT.
Proof. solve_decision. Defined.

Definition ToNumber (t : KVT) : Z :=
  match t with
  | KInt64 => TagType_num TAG_VARINT
  | KDouble => TagType_num TAG_DOUBLE
  | KString => TagType_num TAG_STRING
  | KBool => TagType_num TAG_BOOL
  | KNull => TagType_num TAG_NULL
  | KInt => TagType_num TAG_END + 1
  | KUndefined => 9 | KComposite => 10 | KTuple => 11 | KUuid => 12 | KFloatVector => 13
  | KFloat => 14
  end.

Definition FromNumber (n : Z) : result KVT :=
  if n =? 0 then Ok KInt64 else if n =? 1 then Ok KDouble else if n =? 2 then Ok KString
  else if n =? 3 then Ok KBool else if n =? 4 then Ok KNull else if n =? 8 then Ok KInt
  else if n =? 9 then Ok KUndefined else if n =? 10 then Ok KComposite
  else if n =? 11 then Ok KTuple else if n =? 12 then Ok KUuid
  else if n =? 13 then Ok KFloatVector else if n =? 14 then Ok KFloat
  else Fail (Throw errParams).

(** [KeyValueType(TagType)] *)
Definition KVT_of_tag (t : TagType) : result KVT :=
  match t with
  | TAG_VARINT => Ok KInt64 | TAG_NULL => Ok KNull | TAG_BOOL => Ok KBool
  | TAG_STRING => Ok KString | TAG_DOUBLE => Ok KDouble | TAG_UUID => Ok KUuid
  | TAG_FLOAT => Ok KFloat
  | TAG_ARRAY | TAG_OBJECT | TAG_END => Fail (Throw errParams)
  end.

Definition ToTagType (t : KVT) : result TagType :=
  match t with
  | KInt64 | KInt => Ok TAG_VARINT
  | KDouble => Ok TAG_DOUBLE
  | KFloat => Ok TAG_FLOAT
  | KString => Ok TAG_STRING
  | KBool => Ok TAG_BOOL
  | KNull | KUndefined => Ok TAG_NULL
  | KUuid => Ok TAG_UUID
  | KFloatVector | KComposite | KTuple => Fail (Throw errParams)
  end.

Definition IsNumeric (t : KVT) : bool :=
  match t with
  | KInt64 | KDouble | KFloat | KInt | KBool => true
  | KString | KNull | KUndefined | KComposite | KTuple | KUuid | KFloatVector => false
  end.

(** ** UUIDs inside of variants *)

(** The layout of [Variant::uuid_]: the flag takes one bit, so that 127 bits are left. The nil
    UUID is stored as an ordinary value of type [Uuid]. *)
Inductive UuidVar : Set :=
| UV_nil
| UV (v0 : Z) (vs : list Z) (v1 : Z).

#[export] Instance UuidVar_eq_dec : EqDecision UuidVar.
Proof. solve_decision. Defined.

(** [Variant(Uuid)] *)
Definition variant_of_uuid (u : Uuid) : UuidVar :=
  if (data0 u =? 0) && (data1 u =? 0) then UV_nil
  else
    UV (Z.shiftr (data0 u) (64 - 7))
       ((fun i => u8 (Z.shiftr (data0 u) (64 - 15 - 8 * i))) <$> [0; 1; 2; 3; 4; 5; 6])
       (Z.lor (Z.land (data1 u) (Z.shiftl 1 63 - 1)) (u64 (Z.shiftl (Z.land (data0 u) 1) 63))).

(** [Uuid(const Variant&)] for a variant that holds a UUID. *)
Definition uuid_of_variant (v : UuidVar) : Uuid :=
  match v with
  | UV_nil => mk_uuid 0 0
  | UV v0 vs v1 =>
      let d := u64 (Z.shiftl v0 (64 - 7)) in
      let d := foldl (fun d iv => Z.lor d (u64 (Z.shiftl (snd iv) (64 - 15 - 8 * fst iv)))) d
                     (zip [0; 1; 2; 3; 4; 5; 6] vs) in
      mk_uuid (Z.lor d (Z.shiftr v1 63)) (Z.lor v1 (Z.shiftl 1 63))
  end.

(** ** Vectors *)

(** [ConstFloatVectorView]: empty, a dimension whose data were stripped, or data (32-bit
    patterns behind a pointer that is not null). *)
Inductive FloatVectorView : Set :=
| FV_Empty
| FV_Stripped (dim : Z)
| FV_Data (data : list Z).

(** [CreateStripped(dim)]: a zero dimension gives the empty view. *)
Definition CreateStripped (dim : Z) : FloatVectorView :=
  if dim =? 0 then FV_Empty else FV_Stripped dim.

Definition IsStripped (v : FloatVectorView) : bool :=
  match v with FV_Stripped _ => true | _ => false end.

Definition Dimension (v : FloatVectorView) : Z :=
  match v with FV_Empty => 0 | FV_Stripped d => d | FV_Data data => zlen data mod 2 ^ 16 end.

Fixpoint put_floats (data : list Z) : bytes :=
  match data with [] => [] | f :: data => le_bytes 4 (u32 f) ++ put_floats data end.

Definition PutFloatVectorView (v : FloatVectorView) : M WrSerializer unit :=
  _ ← PutVarUint64 (Z.lor (Z.shiftl (Dimension v) 1) (if IsStripped v then 1 else 0));
  match v with
  | FV_Data data =>
      let memSize := 4 * Dimension v in
      _ ← grow memSize; append (put_floats (take (Z.to_nat (Dimension v)) data))
  | _ => mret tt
  end.

(** The floats of a block of memory. *)
Fixpoint get_floats (n : nat) (bs : bytes) : list Z :=
  match n with
  | O => []
  | S n => le_val (take 4 bs) :: get_floats n (drop 4 bs)
  end.

Definition GetFloatVectorView : M Serializer FloatVectorView :=
  v ← GetVarUInt;
  let dim := u32 v in
  if dim =? 0 then mret FV_Empty
  else
    let isStripped := negb (Z.land dim 1 =? 0) in
    let dim := Z.shiftr dim 1 in
    if isStripped then
      if 65535 <? dim then fail (Throw errLogic) else mret (CreateStripped dim)
    else
      let memSize := dim * 4 in
      s ← get;
      _ ← lift (checkbound (pos_ s) memSize (len_ s));
      _ ← SetPos (u64 (pos_ s + memSize));
      (* the view keeps the low 16 bits of the dimension *)
      bs ← lift (read_mem (buf_ s) (pos_ s) memSize);
      mret (FV_Data (get_floats (Z.to_nat (dim mod 2 ^ 16)) bs)).

(** ** Variants *)

Inductive Variant : Set :=
| V_Int64 (v : Z)
| V_Double (bits : Z)
| V_String (s : bytes)
| V_Bool (b : bool)
| V_Null
| V_Int (v : Z)
| V_Composite                       (* the payload value is not modelled *)
| V_Tuple (vs : list Variant)
| V_Uuid (u : UuidVar)
| V_FloatVector (v : FloatVectorView)
| V_Float (bits : Z).

Definition Type_ (v : Variant) : KVT :=
  match v with
  | V_Int64 _ => KInt64 | V_Double _ => KDouble | V_String _ => KString | V_Bool _ => KBool
  | V_Null => KNull | V_Int _ => KInt | V_Composite => KComposite | V_Tuple _ => KTuple
  | V_Uuid _ => KUuid | V_FloatVector _ => KFloatVector | V_Float _ => KFloat
  end.

Definition PutKeyValueType (t : KVT) : M WrSerializer unit := PutVarUint32 (ToNumber t).

Fixpoint PutVariant (kv : Variant) : M WrSerializer unit :=
  _ ← PutKeyValueType (Type_ kv);
  match kv with
  | V_Tuple vs =>
      _ ← PutVarUint64 (zlen vs);
      (fix put_all (vs : list Variant) : M WrSerializer unit :=
         match vs with
         | [] => mret tt
         | v :: vs => _ ← PutVariant v; put_all vs
         end) vs
  | V_Bool b => PutBool b
  | V_Int64 v => PutVarint64 v
  | V_Int v => PutVarint32 v
  | V_Double bits => PutDouble bits
  | V_Float bits => PutFloat bits
  | V_String s => PutVString s
  | V_Null => mret tt
  | V_Uuid u => PutUuid (uuid_of_variant u)
  | V_FloatVector v => PutFloatVectorView v
  | V_Composite => fail AssertFail
  end.

Definition GetKeyValueType : M Serializer KVT := n ← GetVarUInt; lift (FromNumber (s32 n)).

Definition getPVStringVariant : M Serializer Variant :=
  v ← GetPVString; s ← view_bytes v; mret (V_String s).

Definition GetRawVariant (type : KVT) : M Serializer Variant :=
  match type with
  | KInt => v ← GetVarint; mret (V_Int (s32 v))
  | KBool => v ← GetVarUInt; mret (V_Bool (negb (v =? 0)))
  | KInt64 => v ← GetVarint; mret (V_Int64 v)
  | KDouble => v ← GetDouble; mret (V_Double v)
  | KString => getPVStringVariant
  | KNull => mret V_Null
  | KUuid => u ← GetUuid; mret (V_Uuid (variant_of_uuid u))
  | KFloat => v ← GetFloat; mret (V_Float v)
  | KTuple | KComposite | KUndefined | KFloatVector => fail (Throw errParseBin)
  end.

(** [VariantArray::reserve(count)]: the count is cut to 32 bits, and one above [max_size()] throws a
    [std::logic_error]. The room itself is not modelled; the elements that a buffer gives fit. *)
Definition VariantArray_max_size : Z := Z.shiftr (2 ^ 32 - 1) 1.

Definition VariantArray_reserve (count : Z) : M Serializer unit :=
  if VariantArray_max_size <? u32 count then fail (Throw errLogic) else mret tt.

(** The recursion of [GetVariant] and its loop over the elements of a tuple; each step takes one
    unit of fuel. *)
Fixpoint GetVariant (fuel : nat) : M Serializer Variant :=
  match fuel with
  | O => fail OutOfFuel
  | S fuel =>
      type ← GetKeyValueType;
      match type with
      | KTuple =>
          count ← GetVarUInt;
          _ ← VariantArray_reserve count;
          vs ← GetVariants fuel count;
          mret (V_Tuple vs)
      | KFloatVector => v ← GetFloatVectorView; mret (V_FloatVector v)
      | _ => GetRawVariant type
      end
  end
with GetVariants (fuel : nat) (count : Z) : M Serializer (list Variant) :=
  match fuel with
  | O => fail OutOfFuel
  | S fuel =>
      if count <=? 0 then mret []
      else
        v ← GetVariant fuel;
        vs ← GetVariants fuel (count - 1);
        mret (v :: vs)
  end.

(** [SkipRawVariant] *)
Definition SkipRawVariant (type : KVT) : M Serializer unit :=
  match type with
  | KInt | KInt64 => _ ← GetVarint; mret tt
  | KBool => _ ← GetVarUInt; mret tt
  | KDouble => _ ← GetDouble; mret tt
  | KString => _ ← GetPVString; mret tt
  | KNull => mret tt
  | KUuid => _ ← GetUuid; mret tt
  | KFloat => _ ← GetFloat; mret tt
  | KTuple | KComposite | KUndefined | KFloatVector => fail (Throw errParseBin)
  end.

(** ** Well-formed values and their encoding *)

Section VariantInd.
Context (P : Variant -> Prop).
Context (Hatom : forall v, (forall vs, v <> V_Tuple vs) -> P v).
Context (Htuple : forall vs, Forall P vs -> P (V_Tuple vs)).

(** Induction with a hypothesis for every element of a tuple. *)
Fixpoint Variant_nested_ind (v : Variant) : P v.
Proof.
  destruct v; try (by apply Hatom).
  apply Htuple. induction vs as [| v vs IH]; constructor; [apply Variant_nested_ind | exact IH].
Defined.
End VariantInd.

Definition uuidvar_ok (u : UuidVar) : Prop :=
  match u with
  | UV_nil => True
  | UV v0 vs v1 => 0 <= v0 < 128 /\ length vs = 7%nat /\ bytes_ok vs /\ 0 <= v1 < 2 ^ 64
  end.

Definition floatvector_ok (v : FloatVectorView) : Prop :=
  match v with
  | FV_Empty => True
  | FV_Stripped dim => 1 <= dim <= 65535
  | FV_Data data => 1 <= zlen data <= 65535 /\ Forall (fun f => 0 <= f < 2 ^ 32) data
  end.

Fixpoint variant_ok (kv : Variant) : Prop :=
  match kv with
  | V_Int v => - 2 ^ 31 <= v < 2 ^ 31
  | V_Int64 v => - 2 ^ 63 <= v < 2 ^ 63
  | V_Double bits => 0 <= bits < 2 ^ 64
  | V_Float bits => 0 <= bits < 2 ^ 32
  | V_String s => zlen s < 2 ^ 32
  | V_Bool _ | V_Null => True
  | V_Composite => False
  | V_Uuid u => uuidvar_ok u
  | V_FloatVector v => floatvector_ok v
  | V_Tuple vs => zlen vs <= VariantArray_max_size /\ foldr (fun v acc => variant_ok v /\ acc) True vs
  end.

Definition enc_uuid (u : Uuid) : bytes := le_bytes 8 (data0 u) ++ le_bytes 8 (data1 u).

Definition enc_floatvector (v : FloatVectorView) : bytes :=
  match v with
  | FV_Empty => uint64_pack 0
  | FV_Stripped dim => uint64_pack (2 * dim + 1)
  | FV_Data data => uint64_pack (2 * zlen data) ++ put_floats data
  end.

(** The binary format of a value. *)
Fixpoint enc_variant (kv : Variant) : bytes :=
  uint64_pack (ToNumber (Type_ kv)) ++
  match kv with
  | V_Int v | V_Int64 v => sint64_pack v
  | V_Double bits => le_bytes 8 bits
  | V_Float bits => le_bytes 4 bits
  | V_String s => uint64_pack (zlen s) ++ s
  | V_Bool b => [if b then 1 else 0]
  | V_Null | V_Composite => []
  | V_Uuid u => enc_uuid (uuid_of_variant u)
  | V_FloatVector v => enc_floatvector v
  | V_Tuple vs => uint64_pack (zlen vs) ++ foldr (fun v acc => enc_variant v ++ acc) [] vs
  end.

(** The room that the writers ask for. *)
Definition room_floatvector (v : FloatVectorView) : Z :=
  10 + match v with FV_Data data => 4 * zlen data | _ => 0 end.

Fixpoint room_variant (kv : Variant) : Z :=
  10 + match kv with
       | V_String s => zlen s + 10
       | V_FloatVector v => room_floatvector v
       | V_Tuple vs => 10 + foldr (fun v acc => room_variant v + acc) 0 vs
       | V_Null | V_Composite => 0
       | V_Bool _ => 1
       | V_Int _ | V_Int64 _ => 10
       | V_Double _ => 8
       | V_Float _ => 4
       | V_Uuid _ => 16
       end.

(** The fuel that reading a value takes. *)
Fixpoint fuel_variant (kv : Variant) : nat :=
  S (match kv with
     | V_Tuple vs => S (foldr (fun v acc => S (fuel_variant v + acc)) 0 vs)
     | _ => 0
     end)%nat.

Lemma ToNumber_bound t : 0 <= ToNumber t < 128.
Proof. destruct t; simpl; lia. Qed.

Lemma FromNumber_ToNumber t : FromNumber (ToNumber t) = Ok t.
Proof. by destruct t. Qed.

Lemma writes_type t : writes 10 (PutKeyValueType t) (uint64_pack (ToNumber t)).
Proof.
  pose proof (ToNumber_bound t). apply (rt_put RoundTrip_varuint32 (ToNumber t)). lia.
Qed.

Lemma reads_type t : reads GetKeyValueType (uint64_pack (ToNumber t)) t.
Proof.
  pose proof (ToNumber_bound t). eapply reads_lift; [apply GetVarUInt_reads; lia |].
  rewrite s32_id by lia. apply FromNumber_ToNumber.
Qed.

(** *** UUIDs *)

Definition uv_word0 (v0 b0 b1 b2 b3 b4 b5 b6 t : Z) : Z :=
  t + 2 * (b6 + 256 * (b5 + 256 * (b4 + 256 * (b3 + 256 * (b2 + 256 * (b1 + 256 * (b0 + 256 * v0))))))).

Lemma byte_shift_or acc b s :
  0 <= s -> s + 8 <= 64 -> byte_ok b ->
  Z.lor (Z.shiftl acc (s + 8)) (u64 (Z.shiftl b s)) = Z.shiftl (b + 256 * acc) s.
Proof.
  intros Hs H64 Hb. unfold byte_ok in Hb. rewrite (Z.shiftl_mul_pow2 b) by lia.
  assert (0 < 2 ^ s /\ 2 ^ (s + 8) = 256 * 2 ^ s /\ 2 ^ (s + 8) <= 2 ^ 64) as (Hp & E & Hle).
  { split_and!; [apply Z.pow_pos_nonneg; lia | rewrite Z.pow_add_r by lia; lia |
                 apply Z.pow_le_mono_r; lia]. }
  rewrite u64_id by nia. rewrite lor_add' by nia. rewrite Z.shiftl_mul_pow2 by lia. nia.
Qed.

Lemma uuid_of_variant_word v0 b0 b1 b2 b3 b4 b5 b6 v1 :
  0 <= v0 < 128 -> bytes_ok [b0; b1; b2; b3; b4; b5; b6] -> 0 <= v1 < 2 ^ 64 ->
  uuid_of_variant (UV v0 [b0; b1; b2; b3; b4; b5; b6] v1) =
  mk_uuid (uv_word0 v0 b0 b1 b2 b3 b4 b5 b6 (v1 / 2 ^ 63)) (Z.lor v1 (2 ^ 63)).
Proof.
  intros H0 Hb H1. unfold uuid_of_variant. cbn [zip zip_with foldl fst snd fmap].
  repeat match goal with H : bytes_ok (_ :: _) |- _ => apply Forall_cons in H as [? H] end.
  assert (u64 (Z.shiftl v0 (64 - 7)) = Z.shiftl v0 (49 + 8)) as ->.
  { apply u64_id. rewrite Z.shiftl_mul_pow2 by lia. change (2 ^ 64) with (128 * 2 ^ 57).
    change (2 ^ (64 - 7)) with (2 ^ 57). lia. }
  change (64 - 15 - 8 * 0) with 49. rewrite byte_shift_or by (done || lia).
  change (64 - 15 - 8 * 1) with 41. change 49 with (41 + 8). rewrite byte_shift_or by (done || lia).
  change (64 - 15 - 8 * 2) with 33. change 41 with (33 + 8). rewrite byte_shift_or by (done || lia).
  change (64 - 15 - 8 * 3) with 25. change 33 with (25 + 8). rewrite byte_shift_or by (done || lia).
  change (64 - 15 - 8 * 4) with 17. change 25 with (17 + 8). rewrite byte_shift_or by (done || lia).
  change (64 - 15 - 8 * 5) with 9. change 17 with (9 + 8). rewrite byte_shift_or by (done || lia).
  change (64 - 15 - 8 * 6) with 1. change 9 with (1 + 8). rewrite byte_shift_or by (done || lia).
  f_equal.
  rewrite Z.shiftr_div_pow2 by lia. change (2 ^ 63) with 9223372036854775808 in *.
  change (2 ^ 64) with 18446744073709551616 in *.
  rewrite lor_add' by (change (2 ^ 1) with 2; dlia). change (2 ^ 1) with 2. unfold uv_word0. lia.
Qed.

Lemma lor_top v1 : 0 <= v1 < 2 ^ 64 -> Z.lor v1 (2 ^ 63) = v1 mod 2 ^ 63 + 2 ^ 63.
Proof.
  intros H1. transitivity (Z.lor (v1 mod 2 ^ 63) (Z.shiftl 1 63)).
  2: { rewrite lor_add; [lia | lia | apply Z.mod_pos_bound; lia]. }
  rewrite Z.shiftl_1_l. rewrite <- Z.land_ones by lia. apply Z.bits_inj'. intros i Hi.
  rewrite !Z.lor_spec, Z.land_spec, Z.testbit_ones_nonneg by lia.
  destruct (Z.ltb_spec i 63); [by rewrite andb_true_r |].
  destruct (Z.eq_dec i 63) as [-> | ?]; [by rewrite (Z.pow2_bits_true 63), !orb_true_r |].
  rewrite andb_false_r, <- (Z.mod_small v1 (2 ^ 64)), Z.mod_pow2_bits_high by lia. done.
Qed.

Lemma variant_of_uuid_of_variant u :
  uuidvar_ok u -> uuid_ok (uuid_of_variant u) /\ variant_of_uuid (uuid_of_variant u) = u.
Proof.
  destruct u as [| v0 vs v1]; [done |]. intros (H0 & Hl & Hb & H1).
  destruct vs as [| b0 [| b1 [| b2 [| b3 [| b4 [| b5 [| b6 [|]]]]]]]]; try done.
  rewrite uuid_of_variant_word by done.
  repeat match goal with H : bytes_ok (_ :: _) |- _ => apply Forall_cons in H as [? H] end.
  unfold byte_ok in *. rewrite lor_top by done.
  assert (0 <= v1 / 2 ^ 63 < 2) as Ht by (change (2 ^ 63) with 9223372036854775808; dlia).
  set (t := v1 / 2 ^ 63) in *.
  assert (v1 = t * 2 ^ 63 + v1 mod 2 ^ 63) as E1 by (subst t; rewrite Z.mul_comm; by apply Z.div_mod).
  pose proof (Z.mod_pos_bound v1 (2 ^ 63) ltac:(lia)) as Hm.
  set (m := v1 mod 2 ^ 63) in *. split.
  { split; cbn [data0 data1]; [unfold uv_word0; lia | lia]. }
  unfold variant_of_uuid. cbn [data0 data1 fmap list_fmap].
  rewrite (proj2 (Z.eqb_neq (m + 2 ^ 63) 0)) by lia. rewrite andb_false_r.
  change (64 - 7) with 57. change (64 - 15 - 8 * 0) with 49. change (64 - 15 - 8 * 1) with 41.
  change (64 - 15 - 8 * 2) with 33. change (64 - 15 - 8 * 3) with 25.
  change (64 - 15 - 8 * 4) with 17. change (64 - 15 - 8 * 5) with 9. change (64 - 15 - 8 * 6) with 1.
  rewrite !Z.shiftr_div_pow2 by lia. f_equal.
  - unfold uv_word0. change (2 ^ 57) with 144115188075855872. dlia.
  - unfold u8, wrap, uv_word0. change (2 ^ 8) with 256.
    change (2 ^ 49) with 562949953421312. change (2 ^ 41) with 2199023255552.
    change (2 ^ 33) with 8589934592. change (2 ^ 25) with 33554432. change (2 ^ 17) with 131072.
    change (2 ^ 9) with 512. change (2 ^ 1) with 2. repeat f_equal; dlia.
  - rewrite (land_ones_mod _ 63), (land_ones_mod _ 1) by done.
    assert (uv_word0 v0 b0 b1 b2 b3 b4 b5 b6 t mod 2 ^ 1 = t) as ->
      by (unfold uv_word0; change (2 ^ 1) with 2; dlia).
    rewrite (Z.shiftl_mul_pow2 t), u64_id by (change (2 ^ 64) with (2 * 2 ^ 63); lia || lia).
    rewrite Z.add_mod, Z.mod_same, Z.add_0_r, !Z.mod_small by (rewrite ?Z.mod_small; lia).
    rewrite <- Z.shiftl_mul_pow2, lor_add by lia. lia.
Qed.

(** *** Vectors *)

Lemma put_floats_length data : zlen (put_floats data) = 4 * zlen data.
Proof.
  induction data as [| f data IH]; [done |]. cbn [put_floats].
  rewrite zlen_app, IH, zlen_cons. change (zlen (le_bytes 4 (u32 f))) with 4. lia.
Qed.

Lemma get_put_floats data :
  Forall (fun f => 0 <= f < 2 ^ 32) data -> get_floats (length data) (put_floats data) = data.
Proof.
  induction 1 as [| f data Hf _ IH]; [done |]. cbn [put_floats length get_floats].
  rewrite take_app_length' , drop_app_length' by done.
  rewrite u32_id, le_val_le_bytes, IH by done. done.
Qed.

Lemma Dimension_bound v : floatvector_ok v -> 0 <= Dimension v < 65536.
Proof.
  destruct v; simpl; intros; [lia | lia |]. apply Z.mod_pos_bound. lia.
Qed.

Lemma dim_header d b : 0 <= d -> Z.lor (Z.shiftl d 1) (if b : bool then 1 else 0) = 2 * d + if b then 1 else 0.
Proof.
  intros. rewrite lor_add' by (destruct b; change (2 ^ 1) with 2; lia). change (2 ^ 1) with 2. lia.
Qed.

Lemma dim_odd d b : 0 <= d -> Z.land (2 * d + if b : bool then 1 else 0) 1 = if b then 1 else 0.
Proof.
  intros. rewrite (land_ones_mod _ 1) by done. change (2 ^ 1) with 2. destruct b; dlia.
Qed.

Lemma dim_half d b : 0 <= d -> Z.shiftr (2 * d + if b : bool then 1 else 0) 1 = d.
Proof. intros. rewrite Z.shiftr_div_pow2 by lia. change (2 ^ 1) with 2. destruct b; dlia. Qed.

Lemma floatvector_writes v :
  floatvector_ok v -> writes (room_floatvector v) (PutFloatVectorView v) (enc_floatvector v).
Proof.
  intros Hv. pose proof (Dimension_bound v Hv) as Hd. unfold PutFloatVectorView.
  assert (0 <= 2 * Dimension v + (if IsStripped v then 1 else 0) < 2 ^ 64) as Hh
    by (destruct (IsStripped v); lia).
  rewrite dim_header by lia.
  pose proof (rt_put RoundTrip_varuint64 _ Hh) as H.
  destruct v as [| dim | data].
  - exact (writes_bind _ _ _ _ _ [] H writes_ret).
  - rewrite <- (app_nil_r (enc_floatvector _)). exact (writes_bind _ _ _ _ _ [] H writes_ret).
  - destruct Hv as [Hl Hf]. cbn [Dimension IsStripped enc_floatvector room_floatvector] in *.
    rewrite (Z.mod_small (zlen data)) in * by lia. rewrite Z.add_0_r in H.
    rewrite take_ge by (unfold zlen; lia). rewrite Z.add_0_r.
    apply writes_bind; [exact H |].
    apply writes_grow_append. rewrite put_floats_length. lia.
Qed.

Lemma floatvector_reads v :
  floatvector_ok v -> reads GetFloatVectorView (enc_floatvector v) v.
Proof.
  intros Hv. unfold GetFloatVectorView. destruct v as [| dim | data]; cbn [enc_floatvector].
  - rewrite <- (app_nil_r (uint64_pack 0)). eapply reads_bind; [by apply GetVarUInt_reads |].
    apply reads_ret.
  - simpl in Hv. rewrite <- (app_nil_r (uint64_pack _)).
    eapply reads_bind; [apply GetVarUInt_reads; lia |]. cbv beta zeta.
    rewrite u32_id by lia. rewrite (proj2 (Z.eqb_neq (2 * dim + 1) 0)) by lia.
    rewrite (dim_odd dim true), (dim_half dim true) by lia. simpl.
    rewrite (proj2 (Z.ltb_ge 65535 dim)) by lia. unfold CreateStripped.
    rewrite (proj2 (Z.eqb_neq dim 0)) by lia. apply reads_ret.
  - destruct Hv as [Hl Hf]. eapply reads_bind; [apply GetVarUInt_reads; lia |]. cbv beta zeta.
    rewrite u32_id by lia. rewrite (proj2 (Z.eqb_neq (2 * zlen data) 0)) by lia.
    pose proof (dim_odd (zlen data) false ltac:(lia)) as E1. rewrite Z.add_0_r in E1.
    pose proof (dim_half (zlen data) false ltac:(lia)) as E2. rewrite Z.add_0_r in E2.
    rewrite E1, E2. simpl. intros pre rest Hlen.
    autorewrite with zlen in Hlen.
    pose proof (zlen_nonneg pre); pose proof (zlen_nonneg rest);
      pose proof (put_floats_length data).
    rewrite M_bind_get. unfold len_. cbn [buf_ pos_].
    rewrite checkbound_ok, M_bind_lift by (autorewrite with zlen; lia).
    rewrite (M_bind_ok _ _ _ _ _ (SetPos_run _ _)). cbn [buf_].
    rewrite read_mem_app, M_bind_lift by lia. unfold mret, M_ret.
    rewrite u64_id by lia. f_equal; [| f_equal; lia]. do 2 f_equal.
    rewrite Z.mod_small by lia. unfold zlen. rewrite Nat2Z.id. by apply get_put_floats.
Qed.

(** *** Strings *)

Lemma getPVStringVariant_reads s :
  zlen s < 2 ^ 32 -> reads getPVStringVariant (uint64_pack (zlen s) ++ s) (V_String s).
Proof.
  intros Hs pre rest Hl. pose proof (zlen_nonneg s) as Hs0. rewrite <- app_assoc in *.
  assert (reads GetVarUInt (uint64_pack (zlen s)) (zlen s)) as Hg by (apply GetVarUInt_reads; lia).
  unfold getPVStringVariant, GetPVString, mbind, M_bind. fold (@mbind (M Serializer) M_bind).
  change GetVString with (get_view GetVarUInt).
  rewrite (get_view_run _ _ _ pre rest Hg Hl). unfold mret, M_ret. cbn [v_pos v_len].
  rewrite u32_id by lia. by rewrite view_bytes_run.
Qed.

(** *** Values *)

Lemma enc_tuple_reads vs :
  Forall (fun v => variant_ok v -> forall fuel, (fuel_variant v <= fuel)%nat ->
                   reads (GetVariant fuel) (enc_variant v) v) vs ->
  foldr (fun v acc => variant_ok v /\ acc) True vs ->
  forall fuel, (S (foldr (fun v acc => S (fuel_variant v + acc)) 0 vs) <= fuel)%nat ->
  reads (GetVariants fuel (zlen vs)) (foldr (fun v acc => enc_variant v ++ acc) [] vs) vs.
Proof.
  induction 1 as [| v vs Hv _ IH]; intros Hok fuel Hf; simpl in Hf;
    (destruct fuel as [| fuel]; [lia |]); cbn [GetVariants foldr].
  - rewrite zlen_nil. simpl. apply reads_ret.
  - destruct Hok as [Hok Hoks]. pose proof (zlen_nonneg vs). rewrite zlen_cons.
    rewrite (proj2 (Z.leb_gt _ 0)) by lia.
    eapply reads_bind; [apply Hv; [done | lia] |].
    rewrite <- (app_nil_r (foldr _ _ _)). eapply reads_bind; [| apply reads_ret].
    replace (1 + zlen vs - 1) with (zlen vs) by lia. apply IH; [done | lia].
Qed.

Lemma variant_reads kv :
  variant_ok kv -> forall fuel, (fuel_variant kv <= fuel)%nat ->
  reads (GetVariant fuel) (enc_variant kv) kv.
Proof.
  induction kv as [kv Hatom | vs IH] using Variant_nested_ind.
  - intros Hok fuel Hf. destruct fuel as [| fuel]; [destruct kv; simpl in Hf; lia |].
    cbn [GetVariant]. destruct kv; try (by destruct (Hatom vs)); cbn [enc_variant variant_ok] in *;
      (eapply reads_bind; [apply reads_type |]); cbn [Type_ GetRawVariant].
    + by apply (reads_fmap GetVarint V_Int64), GetVarint_reads.
    + by apply (reads_fmap GetDouble V_Double), GetDouble_reads.
    + by apply getPVStringVariant_reads.
    + replace b with (negb ((if b then 1 else 0) =? 0)) at 2 by (by destruct b).
      replace [if b then 1 else 0] with (uint64_pack (if b then 1 else 0)) by (by destruct b).
      apply (reads_fmap GetVarUInt (fun v => V_Bool (negb (v =? 0)))), GetVarUInt_reads.
      destruct b; lia.
    + apply reads_ret.
    + replace v with (s32 v) at 2 by (apply s32_id; lia).
      apply (reads_fmap GetVarint (fun v => V_Int (s32 v))), GetVarint_reads. lia.
    + done.
    + destruct (variant_of_uuid_of_variant u) as [Hu E]; [done |].
      replace u with (variant_of_uuid (uuid_of_variant u)) at 2.
      apply (reads_fmap GetUuid (fun u => V_Uuid (variant_of_uuid u))).
      by apply (rt_get RoundTrip_uuid).
    + apply (reads_fmap GetFloatVectorView V_FloatVector). by apply floatvector_reads.
    + by apply (reads_fmap GetFloat V_Float), GetFloat_reads.
  - intros [Hl Hok] fuel Hf. cbn [fuel_variant] in Hf. destruct fuel as [| fuel]; [lia |].
    cbn [GetVariant enc_variant]. eapply reads_bind; [apply reads_type |]. cbn [Type_].
    pose proof (zlen_nonneg vs). assert (VariantArray_max_size = 2 ^ 31 - 1) as Em by (by vm_compute).
    eapply reads_bind; [apply GetVarUInt_reads; lia |].
    rewrite <- (app_nil_l (foldr _ _ _)). eapply reads_bind with (a := tt).
    { unfold VariantArray_reserve. rewrite (wrap_id 32 : forall x, _ -> u32 x = x), (proj2 (Z.ltb_ge _ _)) by lia. apply reads_ret. }
    rewrite <- (app_nil_r (foldr _ _ _)). eapply reads_bind; [| apply reads_ret].
    apply enc_tuple_reads; [done | done | lia].
Qed.

Lemma variant_writes kv :
  variant_ok kv -> writes (room_variant kv) (PutVariant kv) (enc_variant kv).
Proof.
  induction kv as [kv Hatom | vs IH] using Variant_nested_ind.
  - intros Hok. destruct kv; try (by destruct (Hatom vs));
      cbn [PutVariant room_variant enc_variant variant_ok Type_] in *;
      (apply writes_bind; [apply writes_type |]).
    + by apply (rt_put RoundTrip_varint64).
    + by apply (rt_put RoundTrip_double).
    + by apply writes_vstring.
    + apply writes_bool.
    + apply writes_ret.
    + by apply (rt_put RoundTrip_varint32).
    + done.
    + by apply writes_uuid, variant_of_uuid_of_variant.
    + by apply floatvector_writes.
    + by apply (rt_put RoundTrip_float).
  - intros [Hl Hok]. pose proof (zlen_nonneg vs).
    cbn [PutVariant room_variant enc_variant Type_].
    apply writes_bind; [apply writes_type |].
    apply writes_bind; [apply (rt_put RoundTrip_varuint64 (zlen vs)); assert (VariantArray_max_size = 2 ^ 31 - 1) by (by vm_compute); lia |]. clear Hl.
    induction vs as [| v vs IHvs]; [apply writes_ret |]. destruct Hok as [Hv Hok].
    apply Forall_cons in IH as [IHv IH]. cbn [foldr].
    apply writes_bind; [by apply IHv |]. apply IHvs; [done | done | apply zlen_nonneg].
Qed.

#[export] Instance RoundTrip_variant kv0 :
  RoundTrip (fun kv => variant_ok kv /\ (fuel_variant kv <= kv0)%nat) PutVariant (GetVariant kv0).
Proof.
  refine {| rt_enc := enc_variant; rt_room := room_variant |}; intros kv [Hok Hf].
  - by apply variant_writes.
  - by apply variant_reads.
Defined.

(** ** Properties *)

(** C36: values survive serialization. A value of any type (numbers, strings, booleans,
    null, UUIDs, float vectors with or without their data, and tuples nested to any depth) that
    [PutVariant] writes to a fresh serializer is read back by [GetVariant] as the same value,
    and the reader stops exactly at the end of what was written. The fuel of the reader is
    the number of nested calls that the value takes. *)
Theorem variant_roundtrip kv :
  variant_ok kv -> room_variant kv < 2 ^ 32 ->
  exists w, PutVariant kv (wr_make 0) = (Ok tt, w) /\
    forall fuel, (fuel_variant kv <= fuel)%nat ->
      exists s, GetVariant fuel (ser_make (w_bytes w)) = (Ok kv, s) /\ Eof s = true.
Proof.
  intros Hok Hr.
  destruct (roundtrip_run (RoundTrip_variant (fuel_variant kv)) kv) as (w & E & _); [done.. |].
  exists w. split; [exact E |]. intros fuel Hf.
  destruct (roundtrip_run (RoundTrip_variant fuel) kv) as (w' & E' & G); [done.. |].
  rewrite E in E'. injection E' as <-. eexists. split; [exact G |].
  unfold Eof, len_. cbn [buf_ pos_]. apply Z.leb_refl.
Qed.

Definition sample_variant : Variant :=
  V_Tuple [V_Int (-5); V_String [104; 105]; V_Tuple [V_Bool true; V_Null; V_Int64 (2 ^ 40)];
           V_Uuid (variant_of_uuid (mk_uuid 0x123e4567e89b12d3 0xa456426614174000));
           V_FloatVector (FV_Data [1065353216; 0]); V_FloatVector (FV_Stripped 128);
           V_Double 4607182418800017408].

Lemma variant_roundtrip_witness :
  variant_ok sample_variant /\
  exists w, PutVariant sample_variant (wr_make 0) = (Ok tt, w) /\
    exists s, GetVariant 40 (ser_make (w_bytes w)) = (Ok sample_variant, s) /\ Eof s = true.
Proof.
  assert (variant_ok sample_variant) as Hok.
  { unfold sample_variant.
    let u := constr:(variant_of_uuid (mk_uuid 0x123e4567e89b12d3 0xa456426614174000)) in
    let u' := eval vm_compute in u in change u with u'.
    cbn [variant_ok foldr floatvector_ok uuidvar_ok]. autorewrite with zlen. unfold_wrap.
    change VariantArray_max_size with 2147483647.
    split_and!; try lia; repeat constructor; lia. }
  split; [exact Hok |].
  destruct (variant_roundtrip sample_variant Hok) as (w & E & G); [vm_compute; reflexivity |].
  exists w. split; [exact E |]. apply G. vm_compute. lia.
Defined.
