(* ===== verification/VariantTyping.v ===== *)
(** * VariantTyping: reading a value from any bytes gives a value of its type

    [GetVariant] of [tools/serilize/serializer.cc] on bytes that nobody checked: every value that
    it returns has the type that its tag names and contents of that type, at every depth of the
    tuples. Where reading stops, it is by an exception, or by a view of a string that leaves the
    buffer because its length wraps the check of the bounds. *)

From S2P Require Import Prelude Varint CTag Uuid WrSerializer Serializer Variant.

(** The contents that the type of a value allows. A vector that was read may have the dimension 0
    when the one on the wire is a multiple of 65536. *)
Fixpoint variant_typed (kv : Variant) : Prop :=
  match kv with
  | V_Int v => - 2 ^ 31 <= v < 2 ^ 31
  | V_Int64 v => - 2 ^ 63 <= v < 2 ^ 63
  | V_Double bits => 0 <= bits < 2 ^ 64
  | V_Float bits => 0 <= bits < 2 ^ 32
  | V_String s => bytes_ok s
  | V_Bool _ | V_Null => True
  | V_Composite => False
  | V_Uuid u => uuidvar_ok u
  | V_FloatVector FV_Empty => True
  | V_FloatVector (FV_Stripped dim) => 1 <= dim <= 65535
  | V_FloatVector (FV_Data data) => zlen data <= 65535 /\ Forall (fun f => 0 <= f < 2 ^ 32) data
  | V_Tuple vs => foldr (fun v acc => variant_typed v /\ acc) True vs
  end.

(** How reading stops: an exception, a view that leaves the buffer, or no fuel, and then the
    bytes that are left need more than [r]. *)
Definition stopped (r : Z) (s : Serializer) (f : failure) : Prop :=
  match f with
  | Throw _ | Undefined => True
  | OutOfFuel => r < 2 * (len_ s - pos_ s)
  | AssertFail => False
  end.

(** A reader that keeps the buffer, moves by [n] bytes at least, stays in the buffer and returns
    values that satisfy [P], if half of [r] is as many as the bytes that are left. *)
Definition typed {A} (n r : Z) (P : A -> Prop) (m : M Serializer A) : Prop :=
  forall s, ser_wf s ->
    match m s with
    | (Ok a, s') => buf_ s' = buf_ s /\ ser_wf s' /\ pos_ s + n <= pos_ s' /\ P a
    | (Fail f, _) => stopped r s f
    end.

Lemma typed_of_safe {A} r P (m : M Serializer A) : safe (fun _ a => P a) m -> typed 0 r P m.
Proof.
  intros Hm s Hs. specialize (Hm s Hs). destruct (m s) as [[a | f] s'].
  - destruct Hm as [Ha HP]. pose proof (advanced_wf _ _ Hs Ha). destruct Ha. split_and!; (done || lia).
  - by destruct Hm as [-> _].
Qed.

Lemma typed_bind {A B} n r (P : A -> Prop) (Q : B -> Prop) m k :
  0 <= n -> typed n r P m -> (forall a, P a -> typed 0 (r - 2 * n) Q (k a)) -> typed n r Q (m ≫= k).
Proof.
  intros Hn Hm Hk s Hs. specialize (Hm s Hs). unfold mbind, M_bind. destruct (m s) as [[a | f] s1]; [| done].
  destruct Hm as (Hb & Hw & Hp & Ha). specialize (Hk a Ha s1 Hw). destruct (k a s1) as [[b | f] s2].
  - destruct Hk as (Hb' & ? & ? & ?). split_and!; [congruence | done | lia | done].
  - destruct f; try done. unfold stopped, len_ in *. rewrite Hb in Hk. lia.
Qed.

Lemma typed_ret {A} r (P : A -> Prop) a : P a -> typed 0 r P (mret a).
Proof. intros Ha s Hs. split_and!; (done || lia). Qed.

Lemma typed_lift {A} r (P : A -> Prop) (x : result A) :
  (match x with Ok a => P a | Fail f => forall s, stopped r s f end) -> typed 0 r P (lift x).
Proof. intros Hr s Hs. unfold lift. destruct x; [split_and!; (done || lia) | by apply Hr]. Qed.

Lemma typed_throw {A} n r (P : A -> Prop) c : typed n r P (fail (Throw c)).
Proof. by intros s Hs. Qed.

Lemma typed_impl {A} n n' r r' (P Q : A -> Prop) m :
  typed n r P m -> n' <= n -> r' <= r -> (forall a, P a -> Q a) -> typed n' r' Q m.
Proof.
  intros Hm Hn Hr Hi s Hs. specialize (Hm s Hs). destruct (m s) as [[a | f] s1].
  - destruct Hm as (? & ? & ? & ?). split_and!; (auto || lia).
  - destruct f; try done. unfold stopped in *. lia.
Qed.

(** A step that reads nothing, or as little as it likes, before the rest. *)
Ltac typed_step H := eapply (typed_bind 0); [lia | apply H | rewrite ?Z.sub_0_r].

Lemma zigzag_decode64_range v : 0 <= v < 2 ^ 64 -> - 2 ^ 63 <= zigzag_decode64 v < 2 ^ 63.
Proof. intros _. unfold zigzag_decode64. set (x := Z.lxor _ _). clearbody x. wrap_lia. Qed.

Lemma GetVarint_typed r : typed 0 r (fun v => - 2 ^ 63 <= v < 2 ^ 63) GetVarint.
Proof.
  apply typed_of_safe, get_varint_safe. intros l data Hl. unfold parse_int64.
  destruct (parse_uint64_total l data Hl) as (v & -> & Hv). eexists. split; [reflexivity |]. by apply zigzag_decode64_range.
Qed.

(** A number is at least a byte. *)
Lemma GetVarUInt_moves s v s' :
  ser_wf s -> GetVarUInt s = (Ok v, s') -> pos_ s + 1 <= pos_ s'.
Proof.
  intros Hs. unfold GetVarUInt, get_varint. rewrite M_bind_get. pose proof Hs as (? & ? & ?).
  assert (zlen (drop (Z.to_nat (pos_ s)) (buf_ s)) = len_ s - pos_ s) as Hd.
  { unfold len_, zlen in *. rewrite length_drop. lia. }
  rewrite <- Hd, u64_id, u32_id by lia.
  destruct (scan_varint_total (drop (Z.to_nat (pos_ s)) (buf_ s))) as (l & -> & Hl & Hld).
  cbn [of_option]. rewrite M_bind_lift. destruct (Z.eqb_spec l 0); [discriminate |].
  rewrite checkbound_cases, (proj2 (Z.ltb_ge _ _)), M_bind_lift by (done || lia).
  rewrite (M_bind_ok _ _ _ _ _ (SetPos_run _ _)), u64_id by lia.
  unfold lift. intros [= _ <-]. cbn [pos_]. lia.
Qed.

Lemma GetVarUInt_typed r : typed 1 r (fun v => 0 <= v < 2 ^ 64) GetVarUInt.
Proof.
  intros s Hs. pose proof (typed_of_safe r _ _ GetVarUInt_safe s Hs) as H.
  destruct (GetVarUInt s) as [[v | f] s'] eqn:E; [| done]. apply GetVarUInt_moves in E; naive_solver.
Qed.

Lemma GetVarUInt_typed0 r : typed 0 r (fun v => 0 <= v < 2 ^ 64) GetVarUInt.
Proof. eapply typed_impl; [apply (GetVarUInt_typed r) | lia | lia | done]. Qed.

(** A length that wraps the check of the bounds gives a view that leaves the buffer, even when
    its lower 32 bits are taken for it. *)
Lemma getPVStringVariant_typed r : typed 0 r (fun v => variant_typed v /\ Type_ v = KString) getPVStringVariant.
Proof.
  unfold getPVStringVariant, GetPVString, GetVString. intros s0 H0.
  pose proof (GetVarUInt_typed0 r s0 H0) as Hv. unfold mbind, M_bind.
  destruct (GetVarUInt s0) as [[l | f] s]; [| done]. destruct Hv as (Hb & Hs & Hp & Hl).
  cbn [get]. unfold lift, checkbound. destruct (Z.ltb_spec (len_ s) (u64 (pos_ s + l))) as [| Hc]; [done |].
  rewrite SetPos_run. cbn [mret M_ret v_pos v_len]. unfold view_bytes, mbind, M_bind, get, lift, read_mem.
  cbn [v_pos v_len buf_ pos_]. destruct Hs as (? & ? & Hby).
  destruct ((0 <=? pos_ s) && (0 <=? u32 l) && (pos_ s + u32 l <=? zlen (buf_ s))) eqn:E; [| done].
  apply andb_true_iff in E as [E E3]. apply Z.leb_le in E3.
  assert (pos_ s <= u64 (pos_ s + l)) by (unfold len_ in *; unfold_wrap; dlia).
  cbn [mret M_ret buf_ pos_]. split_and!; [done | | lia | | done].
  - unfold ser_wf, len_ in *. cbn [buf_ pos_]. split_and!; (done || lia).
  - by apply Forall_take, Forall_drop.
Qed.

Lemma GetUuid_typed r : typed 0 r uuid_ok GetUuid.
Proof. apply typed_of_safe, GetUuid_safe. Qed.

Lemma variant_of_uuid_ok u : uuid_ok u -> uuidvar_ok (variant_of_uuid u).
Proof.
  intros [H0 H1]. unfold variant_of_uuid. destruct (_ && _); [done |]. cbn [uuidvar_ok fmap list_fmap]. split_and!.
  - apply Z.shiftr_nonneg. lia.
  - rewrite Z.shiftr_div_pow2 by lia. apply Z.div_lt_upper_bound; lia.
  - done.
  - repeat (constructor; [apply (wrap_bound 8); lia |]). constructor.
  - apply Z.lor_nonneg. split; [apply Z.land_nonneg; lia | apply (wrap_bound 64); lia].
  - apply lor_bound; [| apply (wrap_bound 64); lia]. change (Z.shiftl 1 63 - 1) with (Z.ones 63).
    rewrite Z.land_ones by lia. pose proof (Z.mod_pos_bound (data1 u) (2 ^ 63)). lia.
Qed.

Lemma get_floats_ok n bs : bytes_ok bs -> Forall (fun f => 0 <= f < 2 ^ 32) (get_floats n bs).
Proof.
  revert bs. induction n as [| n IH]; intros bs Hb; cbn [get_floats]; constructor; [| by apply IH, Forall_drop].
  pose proof (le_val_bound (take 4 bs) (Forall_take _ _ _ Hb)) as H. pose proof (zlen_nonneg (take 4 bs)).
  assert (zlen (take 4 bs) <= 4) as Hl by (unfold zlen; rewrite length_take; lia).
  pose proof (Z.pow_le_mono_r 2 (8 * zlen (take 4 bs)) 32 ltac:(lia) ltac:(lia)). lia.
Qed.

Lemma length_get_floats n bs : length (get_floats n bs) = n.
Proof. revert bs. induction n; intros; cbn; auto. Qed.

Lemma GetFloatVectorView_typed r : typed 0 r (fun v => variant_typed (V_FloatVector v)) GetFloatVectorView.
Proof.
  typed_step GetVarUInt_typed0. intros v Hv. cbv zeta.
  destruct (Z.eqb_spec (u32 v) 0) as [| Hd]; [by apply typed_ret |].
  pose proof (wrap_bound 32 v ltac:(lia)) as Hb. change (wrap 32 v) with (u32 v) in Hb.
  rewrite Z.shiftr_div_pow2 by lia. change (2 ^ 1) with 2.
  destruct (negb (Z.land (u32 v) 1 =? 0)) eqn:Es.
  - destruct (Z.ltb_spec 65535 (u32 v / 2)); [by apply typed_throw |]. apply typed_ret. unfold CreateStripped.
    destruct (Z.eqb_spec (u32 v / 2) 0); [done |]. cbn. dlia.
  - intros s Hs. rewrite M_bind_get. pose proof Hs as (? & ? & Hby). rewrite checkbound_cases by (done || dlia).
    destruct (Z.ltb_spec (len_ s) (pos_ s + u32 v / 2 * 4)) as [| Hl]; [done |].
    rewrite M_bind_lift, (M_bind_ok _ _ _ _ _ (SetPos_run _ _)), read_mem_ok, M_bind_lift by (done || dlia).
    cbn [mret M_ret]. rewrite u64_id by dlia. split; [done |]. split; [| split; [cbn; dlia | split]].
    + unfold ser_wf, len_ in *. cbn [buf_ pos_]. split_and!; (done || dlia).
    + unfold zlen. rewrite length_get_floats. pose proof (Z.mod_pos_bound (u32 v / 2) (2 ^ 16) ltac:(lia)). lia.
    + by apply get_floats_ok, Forall_take, Forall_drop.
Qed.

(** A value of the type that was read before it. *)
Definition of_type (t : KVT) (v : Variant) : Prop := variant_typed v /\ Type_ v = t.

Lemma GetRawVariant_typed r t : typed 0 r (of_type t) (GetRawVariant t).
Proof.
  destruct t; cbn [GetRawVariant]; try by apply typed_throw.
  - typed_step GetVarint_typed. intros v Hv. by apply typed_ret.
  - typed_step (typed_of_safe r _ _ (get_fixed_safe 8 ltac:(lia))). intros v Hv. by apply typed_ret.
  - apply getPVStringVariant_typed.
  - typed_step GetVarUInt_typed0. intros v Hv. by apply typed_ret.
  - by apply typed_ret.
  - typed_step GetVarint_typed. intros v Hv. apply typed_ret. split; [| done]. cbn. unfold_wrap. dlia.
  - typed_step GetUuid_typed. intros u Hu. apply typed_ret. split; [| done]. by apply variant_of_uuid_ok.
  - typed_step (typed_of_safe r _ _ (get_fixed_safe 4 ltac:(lia))). intros v Hv. by apply typed_ret.
Qed.

Lemma GetKeyValueType_typed r : typed 1 r (fun _ => True) GetKeyValueType.
Proof.
  eapply (typed_bind 1); [lia | apply GetVarUInt_typed |]. intros n _. apply typed_lift. unfold FromNumber.
  by repeat destruct (_ =? _).
Qed.

(** What [GetVariant] reads behind the type. *)
Definition contents_of (fuel : nat) (t : KVT) : M Serializer Variant :=
  match t with
  | KTuple => count ← GetVarUInt; _ ← VariantArray_reserve count; vs ← GetVariants fuel count; mret (V_Tuple vs)
  | KFloatVector => v ← GetFloatVectorView; mret (V_FloatVector v)
  | _ => GetRawVariant t
  end.

Lemma GetVariant_unfold fuel : GetVariant (S fuel) = (t ← GetKeyValueType; contents_of fuel t).
Proof. reflexivity. Qed.

Lemma reserve_typed count r : typed 0 r (fun _ => True) (VariantArray_reserve count).
Proof. unfold VariantArray_reserve. destruct (_ <? _); [apply typed_throw | by apply typed_ret]. Qed.

Lemma typed_out_of_fuel {A} n r (P : A -> Prop) : r < 0 -> typed n r P (fail OutOfFuel).
Proof. intros Hr s (? & _). unfold stopped. cbn. lia. Qed.

(** The count of the elements is not bounded, but each of them is a byte at least. *)
Lemma variants_typed (fuel : nat) :
  typed 1 (Z.of_nat fuel - 1) variant_typed (GetVariant fuel) /\
  (forall count, typed 0 (Z.of_nat fuel - 2) (fun vs => variant_typed (V_Tuple vs)) (GetVariants fuel count)) /\
  (forall t, typed 0 (Z.of_nat fuel - 2) (of_type t) (contents_of fuel t)).
Proof.
  induction fuel as [fuel IH] using lt_wf_ind.
  assert (forall count, typed 0 (Z.of_nat fuel - 2) (fun vs => variant_typed (V_Tuple vs)) (GetVariants fuel count)) as Hvs.
  { destruct fuel as [| fuel]; intros count; [by apply typed_out_of_fuel |]. destruct (IH fuel) as (Hv & Hvs & _); [lia |].
    cbn [GetVariants]. destruct (count <=? 0); [by apply typed_ret |].
    eapply typed_impl with (n := 1) (r := Z.of_nat fuel - 1); [| lia | lia | done].
    eapply typed_bind; [lia | apply Hv |]. intros v Hv'.
    eapply (typed_bind 0); [lia | eapply typed_impl; [apply Hvs | lia | lia | done] |]. intros vs Hvs'.
    apply typed_ret. cbn [variant_typed foldr] in *. done. }
  assert (forall t, typed 0 (Z.of_nat fuel - 2) (of_type t) (contents_of fuel t)) as Hc.
  { intros t. destruct t; try apply GetRawVariant_typed; cbn [contents_of].
    - typed_step GetVarUInt_typed0. intros count _. typed_step (reserve_typed count). intros _ _. typed_step Hvs. intros vs Hvs'. by apply typed_ret.
    - typed_step GetFloatVectorView_typed. intros v Hv. by apply typed_ret. }
  split_and!; [| done | done]. destruct fuel as [| fuel]; [by apply typed_out_of_fuel |].
  rewrite GetVariant_unfold. eapply typed_bind; [lia | apply GetKeyValueType_typed |]. intros t _.
  destruct (IH fuel) as (_ & _ & Hc'); [lia |]. eapply typed_impl; [apply Hc' | lia | lia |]. by intros v [Hv _].
Qed.

(** C37: a value that is read from any bytes is well typed, and reading ends. Whatever the
    buffer and the position are, [GetVariant] with more fuel than twice the bytes that are left
    (each element of a tuple takes one, whatever count is written) does not run out of it. If it
    returns a value, then its type is the one of the tag that stands at the position, its
    contents, at every depth of tuples, are of their types (integers in their widths, bits of
    floating point numbers, bytes of strings, parts of UUIDs, dimensions and elements of vectors;
    never a composite or an undefined value), the buffer is the same and the position moved
    forward inside of it. If it does not, then it threw an error, or a string whose length wraps
    the check of the bounds left the buffer; no assertion fails. *)
Theorem GetVariant_typed (fuel : nat) s :
  ser_wf s -> 2 * (len_ s - pos_ s) < Z.of_nat fuel ->
  match GetVariant fuel s with
  | (Ok v, s') =>
      variant_typed v /\ buf_ s' = buf_ s /\ pos_ s < pos_ s' <= len_ s /\
      exists s1, GetKeyValueType s = (Ok (Type_ v), s1)
  | (Fail f, _) => f = Undefined \/ exists code, f = Throw code
  end.
Proof.
  intros Hs Hf. destruct fuel as [| fuel]; [destruct Hs; lia |]. rewrite GetVariant_unfold.
  pose proof (GetKeyValueType_typed (Z.of_nat fuel) s Hs) as Ht. unfold mbind, M_bind.
  destruct (GetKeyValueType s) as [[t | f] s1]; [| destruct f; cbn in Ht; (lia || eauto)]. destruct Ht as (Hb & Hw & Hp & _).
  pose proof (proj2 (proj2 (variants_typed fuel)) t s1 Hw) as Hc. unfold len_ in *.
  destruct (contents_of fuel t s1) as [[v | f] s'].
  - destruct Hc as (Hb' & (? & _) & ? & Hv & <-). unfold len_ in *. rewrite Hb' in *.
    split_and!; [done | congruence | lia | rewrite <- Hb; lia | by exists s1].
  - destruct f; cbn in Hc; unfold len_ in *; rewrite ?Hb in *; (lia || eauto).
Qed.

(** A tuple of an integer and a vector in bytes that hold more. *)
Lemma GetVariant_typed_witness :
  let s := mk_ser [7; 11; 2; 8; 5; 13; 4; 0; 0; 128; 63; 0; 0; 0; 64; 99] 1 in
  ser_wf s /\
  exists v s', GetVariant 40 s = (Ok v, s') /\ variant_typed v /\ pos_ s' = 15.
Proof.
  intros s. assert (ser_wf s) as Hs.
  { unfold ser_wf. split_and!; [by vm_compute | by vm_compute | by vm_compute |]. repeat (constructor; [unfold byte_ok; lia |]). constructor. }
  split; [exact Hs |]. pose proof (GetVariant_typed 40 s Hs ltac:(by vm_compute)) as H.
  destruct (GetVariant 40 s) as [[v | f] s'] eqn:E; vm_compute in E; [| discriminate E].
  exists v, s'. split; [reflexivity |]. destruct H as (Hv & _). split; [exact Hv |]. by injection E as _ <-.
Defined.
