(* ===== verification/WalRecord.v ===== *)
(** Records of the write-ahead log: [wal/walrecord.h] and [walrecord.cc].

    The [union] of a record is the type [Payload]: reading a member that was not written is
    undefined. String views are their bytes. The text and JSON dumps take the viewer of items,
    a callback, and the integer printer of the vendored [itoa] as parameters; a JSON dump is the
    sequence of the calls to its builder. *)

From S2P Require Import Prelude Varint CTag Uuid WrSerializer Serializer.

(** [WalUnknown n]: a number without an enumerator. *)
Inductive WALRecType : Set :=
| WalEmpty | WalReplState | WalItemUpdate | WalItemModify | WalIndexAdd | WalIndexDrop
| WalIndexUpdate | WalPutMeta | WalUpdateQuery | WalNamespaceAdd | WalNamespaceDrop
| WalNamespaceRename | WalInitTransaction | WalCommitTransaction | WalForceSync | WalSetSchema
| WalWALSync | WalTagsMatcher | WalResetLocalWal | WalRawItem | WalShallowItem | WalDeleteMeta
| WalUnknown (n : Z).

#[export] Instance WALRecType_eq_dec : EqDecision WALRecType.
Proof. solve_decision. Defined.

Definition WALRecType_num (t : WALRecType) : Z :=
  match t with
  | WalEmpty => 0 | WalReplState => 1 | WalItemUpdate => 2 | WalItemModify => 3
  | WalIndexAdd => 4 | WalIndexDrop => 5 | WalIndexUpdate => 6 | WalPutMeta => 7
  | WalUpdateQuery => 8 | WalNamespaceAdd => 9 | WalNamespaceDrop => 10
  | WalNamespaceRename => 11 | WalInitTransaction => 12 | WalCommitTransaction => 13
  | WalForceSync => 14 | WalSetSchema => 15 | WalWALSync => 16 | WalTagsMatcher => 17
  | WalResetLocalWal => 18 | WalRawItem => 19 | WalShallowItem => 20 | WalDeleteMeta => 21
  | WalUnknown n => n
  end.

Definition known_types : list WALRecType :=
  [WalEmpty; WalReplState; WalItemUpdate; WalItemModify; WalIndexAdd; WalIndexDrop;
   WalIndexUpdate; WalPutMeta; WalUpdateQuery; WalNamespaceAdd; WalNamespaceDrop;
   WalNamespaceRename; WalInitTransaction; WalCommitTransaction; WalForceSync; WalSetSchema;
   WalWALSync; WalTagsMatcher; WalResetLocalWal; WalRawItem; WalShallowItem; WalDeleteMeta].

(** [static_cast<WALRecType>(n)] *)
Definition WALRecType_of (n : Z) : WALRecType :=
  match znth known_types n with Some t => t | None => WalUnknown n end.

(** The union. [P_none]: no member was written. The value of [P_itemMeta] may be missing. *)
Inductive Payload : Set :=
| P_none
| P_id (id : Z)
| P_data (data : bytes)
| P_itemModify (itemCJson : bytes) (tmVersion modifyMode : Z)
| P_itemMeta (key : bytes) (value : option bytes)
| P_rawItem (id : Z) (itemCJson : bytes).

Record WALRecord : Set := mk_rec { type : WALRecType; payload : Payload; inTransaction : bool }.

#[export] Instance Payload_eq_dec : EqDecision Payload.
Proof. solve_decision. Defined.
#[export] Instance WALRecord_eq_dec : EqDecision WALRecord.
Proof. solve_decision. Defined.

(** Reading the members of the union. *)
Definition u_id (p : Payload) : result Z := match p with P_id v => Ok v | _ => Fail Undefined end.
Definition u_data (p : Payload) : result bytes :=
  match p with P_data v => Ok v | _ => Fail Undefined end.
Definition u_itemModify (p : Payload) : result (bytes * Z * Z) :=
  match p with P_itemModify c t m => Ok (c, t, m) | _ => Fail Undefined end.
Definition u_key (p : Payload) : result bytes :=
  match p with P_itemMeta k _ => Ok k | _ => Fail Undefined end.
Definition u_value (p : Payload) : result bytes :=
  match p with P_itemMeta _ (Some v) => Ok v | _ => Fail Undefined end.
Definition u_rawItem (p : Payload) : result (Z * bytes) :=
  match p with P_rawItem i c => Ok (i, c) | _ => Fail Undefined end.

Definition kTxBit : Z := 128.

(** [WALRecord::Pack] *)
Definition Pack (rec : WALRecord) : M WrSerializer unit :=
  if decide (type rec = WalEmpty) then mret tt
  else
    _ ← PutVarUint32 (if inTransaction rec then Z.lor (WALRecType_num (type rec)) kTxBit
                      else WALRecType_num (type rec));
    match type rec with
    | WalItemUpdate | WalShallowItem => id ← lift (u_id (payload rec)); PutUInt32 id
    | WalUpdateQuery | WalIndexAdd | WalIndexDrop | WalIndexUpdate | WalReplState
    | WalNamespaceRename | WalForceSync | WalWALSync | WalSetSchema | WalTagsMatcher =>
        data ← lift (u_data (payload rec)); PutVString data
    | WalPutMeta =>
        key ← lift (u_key (payload rec)); _ ← PutVString key;
        value ← lift (u_value (payload rec)); PutVString value
    | WalDeleteMeta => key ← lift (u_key (payload rec)); PutVString key
    | WalItemModify =>
        m ← lift (u_itemModify (payload rec));
        let '(itemCJson, tmVersion, modifyMode) := m in
        _ ← PutVString itemCJson; _ ← PutVarUintEnum modifyMode; PutVarUint32 tmVersion
    | WalRawItem =>
        r ← lift (u_rawItem (payload rec));
        let '(id, itemCJson) := r in _ ← PutUInt32 id; PutVString itemCJson
    | WalEmpty | WalNamespaceAdd | WalNamespaceDrop | WalInitTransaction | WalCommitTransaction
    | WalResetLocalWal => mret tt
    | WalUnknown _ => fail AssertFail
    end.

(** The constructor of a record from its packed form, after the check for no bytes. An unknown
    type is only logged. *)
Definition unpack_ser : M Serializer WALRecord :=
  n ← GetVarUInt;
  let unpackedType := u32 n in
  let inTx := negb (Z.land unpackedType kTxBit =? 0) in
  let ty := WALRecType_of (if inTx then Z.lxor unpackedType kTxBit else unpackedType) in
  match ty with
  | WalItemUpdate | WalShallowItem => id ← GetUInt32; mret (mk_rec ty (P_id (s32 id)) inTx)
  | WalUpdateQuery | WalIndexAdd | WalIndexDrop | WalIndexUpdate | WalReplState
  | WalNamespaceRename | WalForceSync | WalWALSync | WalSetSchema | WalTagsMatcher =>
      data ← GetVStringCopy; mret (mk_rec ty (P_data data) inTx)
  | WalPutMeta =>
      key ← GetVStringCopy; value ← GetVStringCopy;
      mret (mk_rec ty (P_itemMeta key (Some value)) inTx)
  | WalDeleteMeta => key ← GetVStringCopy; mret (mk_rec ty (P_itemMeta key None) inTx)
  | WalItemModify =>
      itemCJson ← GetVStringCopy; modifyMode ← GetVarUInt; tmVersion ← GetVarUInt;
      mret (mk_rec ty (P_itemModify itemCJson (s32 tmVersion) (u32 modifyMode)) inTx)
  | WalRawItem =>
      id ← GetUInt32; itemCJson ← GetVStringCopy;
      mret (mk_rec ty (P_rawItem (s32 id) itemCJson) inTx)
  | WalEmpty | WalNamespaceAdd | WalNamespaceDrop | WalInitTransaction | WalCommitTransaction
  | WalResetLocalWal => mret (mk_rec ty P_none inTx)
  | WalUnknown _ => mret (mk_rec ty P_none inTx)
  end.

Definition unpack (packed : bytes) : result WALRecord :=
  match packed with
  | [] => Ok (mk_rec WalEmpty P_none false)
  | _ => (unpack_ser (ser_make packed)).1
  end.

(** [PackedWALRecord::Pack]: packing with a serializer of its own. *)
Definition pack_record (rec : WALRecord) : result bytes :=
  match Pack rec (wr_make 0) with
  | (Ok _, w) => Ok (w_bytes w)
  | (Fail f, _) => Fail f
  end.

(** [MarkedPackedWALRecord] *)
Record MarkedPackedWALRecord : Set := mk_marked { m_server : Z; m_packed : bytes }.

Definition marked_Pack (_server : Z) (rec : WALRecord) : result MarkedPackedWALRecord :=
  p ← pack_record rec; Ok (mk_marked _server p).

Definition wrecType2Str (t : WALRecType) : bytes :=
  match t with
  | WalEmpty => str "<WalEmpty>"
  | WalItemUpdate => str "WalItemUpdate"
  | WalUpdateQuery => str "WalUpdateQuery"
  | WalIndexAdd => str "WalIndexAdd"
  | WalIndexDrop => str "WalIndexDrop"
  | WalIndexUpdate => str "WalIndexUpdate"
  | WalReplState => str "WalReplState"
  | WalPutMeta => str "WalPutMeta"
  | WalDeleteMeta => str "WalDeleteMeta"
  | WalNamespaceAdd => str "WalNamespaceAdd"
  | WalNamespaceDrop => str "WalNamespaceDrop"
  | WalNamespaceRename => str "WalNamespaceRename"
  | WalItemModify => str "WalItemModify"
  | WalInitTransaction => str "WalInitTransaction"
  | WalCommitTransaction => str "WalCommitTransaction"
  | WalForceSync => str "WalForceSync"
  | WalWALSync => str "WalWALSync"
  | WalSetSchema => str "WalSetSchema"
  | WalRawItem => str "WalRawItem"
  | WalShallowItem => str "WalShallowItem"
  | WalTagsMatcher => str "WalTagsMatcher"
  | WalResetLocalWal => str "WalResetLocalWal"
  | WalUnknown _ => str "<Unknown>"
  end.

(** [ModeDelete] of [ItemModifyMode]. *)
Definition ModeDelete : Z := 3.

Section Dumps.
(** The printer of integers of [vendor/itoa], at most 32 bytes, and the viewer of items. *)
Context (i32toa : Z -> bytes) (cjsonViewer : bytes -> bytes).

Definition put_int (v : Z) : M WrSerializer unit := _ ← grow 32; append (i32toa v).

Definition Dump (rec : WALRecord) : M WrSerializer unit :=
  _ ← Write (wrecType2Str (type rec));
  _ ← (if inTransaction rec then Write (str " InTransaction") else mret tt);
  match type rec with
  | WalEmpty | WalNamespaceAdd | WalNamespaceDrop | WalInitTransaction | WalCommitTransaction
  | WalResetLocalWal => mret tt
  | WalItemUpdate | WalShallowItem =>
      _ ← Write (str " rowId="); id ← lift (u_id (payload rec)); put_int id
  | WalNamespaceRename | WalTagsMatcher | WalUpdateQuery | WalIndexAdd | WalIndexDrop
  | WalIndexUpdate | WalReplState | WalForceSync | WalWALSync | WalSetSchema =>
      _ ← Write (str " "); data ← lift (u_data (payload rec)); Write data
  | WalPutMeta =>
      _ ← Write (str " "); key ← lift (u_key (payload rec)); _ ← Write key;
      _ ← Write (str "="); value ← lift (u_value (payload rec)); Write value
  | WalDeleteMeta => _ ← Write (str " "); key ← lift (u_key (payload rec)); Write key
  | WalItemModify =>
      m ← lift (u_itemModify (payload rec));
      let '(itemCJson, _, modifyMode) := m in
      _ ← Write (if modifyMode =? ModeDelete then str " Delete " else str " Update ");
      Write (cjsonViewer itemCJson)
  | WalRawItem =>
      r ← lift (u_rawItem (payload rec));
      let '(id, itemCJson) := r in
      _ ← Write (str " rowId="); _ ← put_int id; _ ← Write (str ": ");
      Write (cjsonViewer itemCJson)
  | WalUnknown _ => fail AssertFail
  end.

(** A call to the builder: [Put] with a string, a number or a Boolean, or [Raw]. *)
Inductive json_call : Set :=
| PutStr (key value : bytes)
| PutNum (key : bytes) (value : Z)
| PutBoolean (key : bytes) (value : bool)
| Raw (key value : bytes).

Definition GetJSON (rec : WALRecord) : result (list json_call) :=
  let header := [PutStr (str "type") (wrecType2Str (type rec));
                 PutBoolean (str "in_transaction") (inTransaction rec)] in
  body ←
    match type rec with
    | WalEmpty | WalNamespaceAdd | WalNamespaceDrop | WalInitTransaction | WalCommitTransaction
    | WalResetLocalWal => Ok []
    | WalItemUpdate | WalShallowItem =>
        id ← u_id (payload rec); Ok [PutNum (str "row_id") id]
    | WalUpdateQuery => data ← u_data (payload rec); Ok [PutStr (str "query") data]
    | WalNamespaceRename => data ← u_data (payload rec); Ok [PutStr (str "dst_ns_name") data]
    | WalForceSync | WalWALSync => data ← u_data (payload rec); Ok [PutStr (str "ns_def") data]
    | WalIndexAdd | WalIndexDrop | WalIndexUpdate =>
        data ← u_data (payload rec); Ok [Raw (str "index") data]
    | WalReplState => data ← u_data (payload rec); Ok [Raw (str "state") data]
    | WalPutMeta =>
        key ← u_key (payload rec); value ← u_value (payload rec);
        Ok [PutStr (str "key") key; PutStr (str "value") value]
    | WalDeleteMeta => key ← u_key (payload rec); Ok [PutStr (str "key") key]
    | WalItemModify =>
        m ← u_itemModify (payload rec);
        let '(itemCJson, _, modifyMode) := m in
        Ok [PutNum (str "mode") modifyMode; Raw (str "item") (cjsonViewer itemCJson)]
    | WalSetSchema => data ← u_data (payload rec); Ok [Raw (str "schema") data]
    | WalRawItem =>
        r ← u_rawItem (payload rec);
        let '(id, itemCJson) := r in
        Ok [PutNum (str "row_id") id; Raw (str "item") (cjsonViewer itemCJson)]
    | WalTagsMatcher => data ← u_data (payload rec); Ok [PutStr (str "tagsmatcher") data]
    | WalUnknown _ => Fail AssertFail
    end;
  Ok (header ++ body).
End Dumps.

(** ** Encodings *)

(** A record whose payload is the one of its type, with values of their C++ types. *)
Definition rec_ok (rec : WALRecord) : Prop :=
  match type rec, payload rec with
  | (WalItemUpdate | WalShallowItem), P_id id => - 2 ^ 31 <= id < 2 ^ 31
  | (WalUpdateQuery | WalIndexAdd | WalIndexDrop | WalIndexUpdate | WalReplState
    | WalNamespaceRename | WalForceSync | WalWALSync | WalSetSchema | WalTagsMatcher),
    P_data data => zlen data < 2 ^ 31
  | WalPutMeta, P_itemMeta key (Some value) => zlen key < 2 ^ 31 /\ zlen value < 2 ^ 31
  | WalDeleteMeta, P_itemMeta key None => zlen key < 2 ^ 31
  | WalItemModify, P_itemModify cjson tm mode =>
      zlen cjson < 2 ^ 31 /\ - 2 ^ 31 <= tm < 2 ^ 31 /\ 0 <= mode <= 3
  | WalRawItem, P_rawItem id cjson => - 2 ^ 31 <= id < 2 ^ 31 /\ zlen cjson < 2 ^ 31
  | (WalNamespaceAdd | WalNamespaceDrop | WalInitTransaction | WalCommitTransaction
    | WalResetLocalWal), P_none => True
  | _, _ => False
  end.

Definition type_bits (rec : WALRecord) : Z :=
  if inTransaction rec then Z.lor (WALRecType_num (type rec)) kTxBit
  else WALRecType_num (type rec).

Definition enc_str (s : bytes) : bytes := uint64_pack (zlen s) ++ s.

Definition enc_payload (p : Payload) : bytes :=
  match p with
  | P_none => []
  | P_id id => le_bytes 4 (u32 id)
  | P_data data => enc_str data
  | P_itemMeta key None => enc_str key
  | P_itemMeta key (Some value) => enc_str key ++ enc_str value
  | P_itemModify cjson tm mode => enc_str cjson ++ uint64_pack mode ++ uint64_pack (u32 tm)
  | P_rawItem id cjson => le_bytes 4 (u32 id) ++ enc_str cjson
  end.

Definition enc_record (rec : WALRecord) : bytes :=
  uint64_pack (type_bits rec) ++ enc_payload (payload rec).

Definition room_payload (p : Payload) : Z :=
  match p with
  | P_none => 0
  | P_id id => 4
  | P_data data => zlen data + 10
  | P_itemMeta key None => zlen key + 10
  | P_itemMeta key (Some value) => (zlen key + 10) + (zlen value + 10)
  | P_itemModify cjson tm mode => (zlen cjson + 10) + (1 + 10)
  | P_rawItem id cjson => 4 + (zlen cjson + 10)
  end.

Lemma type_bits_spec rec :
  rec_ok rec ->
  0 <= type_bits rec < 2 ^ 8 /\
  negb (Z.land (type_bits rec) kTxBit =? 0) = inTransaction rec /\
  WALRecType_of (if inTransaction rec then Z.lxor (type_bits rec) kTxBit else type_bits rec) =
    type rec.
Proof.
  destruct rec as [ty p tx]. unfold type_bits. cbn [type inTransaction].
  destruct ty; destruct tx; try (intros; split_and!; (reflexivity || vm_compute; congruence)).
  all: by destruct p.
Qed.

Lemma writes_lift {A} (r : result A) a n k bs :
  r = Ok a -> writes n (k a) bs -> writes n (x ← lift r; k x) bs.
Proof. intros ->. done. Qed.

Lemma enc_str_reads s : zlen s < 2 ^ 31 -> reads GetVStringCopy (enc_str s) s.
Proof. intros. unfold enc_str. apply GetVStringCopy_reads. lia. Qed.

Lemma enc_str_writes s : zlen s < 2 ^ 31 -> writes (zlen s + 10) (PutVString s) (enc_str s).
Proof. intros. unfold enc_str. apply writes_vstring. lia. Qed.

Lemma s32_u32 v : - 2 ^ 31 <= v < 2 ^ 31 -> s32 (u32 v) = v.
Proof. change (2 ^ 31) with 2147483648. wrap_lia. Qed.

Lemma u32_range v : 0 <= u32 v < 2 ^ 32.
Proof. by apply wrap_bound. Qed.

Lemma Pack_writes rec :
  rec_ok rec -> writes (10 + room_payload (payload rec)) (Pack rec) (enc_record rec).
Proof.
  intros Hok. pose proof (type_bits_spec rec Hok) as (Hb & _).
  destruct rec as [ty p tx]. unfold Pack, enc_record. cbn [type payload inTransaction] in *.
  rewrite decide_False by (intros ->; by destruct p).
  apply writes_bind.
  { fold (type_bits (mk_rec ty p tx)). pose proof (writes_varuint32 (type_bits (mk_rec ty p tx))) as H.
    by rewrite u32_id in H by lia. }
  destruct ty, p; try done; try destruct value; try done; cbn [rec_ok type payload] in Hok;
    cbn [enc_payload room_payload u_id u_data u_itemModify u_key u_value u_rawItem];
    (eapply writes_lift; [reflexivity |]) || apply writes_ret; cbn beta iota;
    try (apply writes_u32); try (by apply enc_str_writes).
  - destruct Hok as (Hc & Ht & Hm). apply writes_bind; [by apply enc_str_writes |].
    apply writes_bind; [apply writes_enum; lia | apply writes_varuint32].
  - destruct Hok as [Hk Hv]. apply writes_bind; [by apply enc_str_writes |].
    eapply writes_lift; [reflexivity |]. by apply enc_str_writes.
  - destruct Hok as [Hi Hc]. apply writes_bind; [apply writes_u32 | by apply enc_str_writes].
Qed.

Lemma unpack_reads rec : rec_ok rec -> reads unpack_ser (enc_record rec) rec.
Proof.
  intros Hok. pose proof (type_bits_spec rec Hok) as (Hb & Htx & Hty).
  unfold unpack_ser, enc_record. eapply reads_bind; [apply GetVarUInt_reads; lia |].
  rewrite u32_id, Htx, Hty by lia. clear Hb Htx Hty.
  destruct rec as [ty p tx]. cbn [type payload inTransaction].
  destruct ty, p; try done; try destruct value; try done; cbn [rec_ok type payload] in Hok;
    cbn [enc_payload]; try apply reads_ret.
  all: try (apply (reads_fmap GetVStringCopy (fun data => mk_rec _ (P_data data) _));
            apply enc_str_reads; lia).
  all: try (match goal with |- reads _ _ (mk_rec ?ty (P_id ?id) ?tx) =>
        rewrite <- (s32_u32 id) at 2 by lia;
        apply (reads_fmap GetUInt32 (fun id => mk_rec ty (P_id (s32 id)) tx));
        apply GetUInt32_reads, u32_range end).
  - destruct Hok as (Hc & Ht & Hm). eapply reads_bind; [by apply enc_str_reads |].
    eapply reads_bind; [apply GetVarUInt_reads; lia |].
    rewrite <- (s32_u32 tmVersion) at 2 by lia.
    rewrite (u32_id modifyMode) by lia.
    apply (reads_fmap GetVarUInt (fun tm => mk_rec _ (P_itemModify _ (s32 tm) modifyMode) _)).
    apply GetVarUInt_reads. pose proof (u32_range tmVersion). lia.
  - destruct Hok as [Hk Hv]. eapply reads_bind; [by apply enc_str_reads |].
    apply (reads_fmap GetVStringCopy (fun v => mk_rec _ (P_itemMeta key (Some v)) _)).
    by apply enc_str_reads.
  - destruct Hok as [Hi Hc]. eapply reads_bind; [apply GetUInt32_reads, u32_range |].
    rewrite (s32_u32 id) by lia.
    apply (reads_fmap GetVStringCopy (fun v => mk_rec _ (P_rawItem id v) _)).
    by apply enc_str_reads.
  - apply (reads_fmap GetVStringCopy (fun v => mk_rec _ (P_itemMeta v None) _)).
    by apply enc_str_reads.
Qed.

#[export] Instance RoundTrip_record : RoundTrip rec_ok Pack unpack_ser.
Proof.
  refine {| rt_enc := enc_record; rt_room rec := 10 + room_payload (payload rec) |}; intros rec H.
  - by apply Pack_writes.
  - by apply unpack_reads.
Defined.

(** Bytes that are the packed form of some record. *)
Definition packed_ok (p : bytes) : Prop := exists rec, unpack p = Ok rec /\ pack_record rec = Ok p.

Lemma packed_ok_nil : packed_ok [].
Proof. exists (mk_rec WalEmpty P_none false). done. Qed.

Lemma pack_record_empty pl tx : pack_record (mk_rec WalEmpty pl tx) = Ok [].
Proof. done. Qed.

Lemma pack_record_unpack rec :
  rec_ok rec -> room_payload (payload rec) < 2 ^ 30 ->
  exists p, pack_record rec = Ok p /\ unpack p = Ok rec.
Proof.
  intros Hok Hr. destruct (roundtrip_run RoundTrip_record rec Hok) as (w & E & G).
  { cbn [rt_room RoundTrip_record]. lia. }
  exists (w_bytes w). unfold pack_record. rewrite E. split; [done |].
  unfold unpack. destruct (w_bytes w) eqn:Ew; [| by rewrite G].
  exfalso. revert G. vm_compute. congruence.
Qed.

(** ** Properties *)

(** C26: packing and unpacking records of the log. Every record of a type of the code,
    with the payload of its type (and less than 1GB of strings), is packed and unpacked as the
    same record, in or out of a transaction. A [WalEmpty] record packs to no bytes, and unpacks as an empty record out
    of any transaction. *)
Theorem wal_record_roundtrip rec :
  rec_ok rec \/ type rec = WalEmpty -> room_payload (payload rec) < 2 ^ 30 ->
  exists p, pack_record rec = Ok p /\
    unpack p = Ok (if decide (type rec = WalEmpty) then mk_rec WalEmpty P_none false else rec).
Proof.
  intros [Hok | He] Hr.
  - rewrite decide_False by (intros He; destruct rec as [ty p tx]; cbn in He; subst ty; by destruct p).
    by apply pack_record_unpack.
  - exists []. rewrite decide_True by done. unfold pack_record, Pack. by rewrite decide_True.
Qed.

Lemma wal_record_roundtrip_witness :
  let rec := mk_rec WalItemModify (P_itemModify [1; 2; 3] (-7) 2) true in
  rec_ok rec /\ exists p, pack_record rec = Ok p /\ unpack p = Ok rec.
Proof.
  intros rec. assert (rec_ok rec) as H by (vm_compute; repeat split; congruence).
  split; [exact H |]. apply (wal_record_roundtrip rec (or_introl H)). vm_compute. reflexivity.
Defined.
