(* ===== verification/WalTracker.v ===== *)
(** The write-ahead log in memory: [wal/waltracker.h] and [waltracker.cc].

    A ring of packed records, addressed by the LSN counter modulo the size of the log. The
    storage of the log is the map of its keys (the 32-bit positions behind the prefix of the
    WAL) to their values; the order in which the cursor of the storage backend gives them is a
    parameter. The accounting of the heap size is not modelled. *)

From S2P Require Import Prelude Varint Lsn CTag Uuid WrSerializer Serializer WalRecord.

Record WALTracker : Set := mk_wal {
  records_ : list MarkedPackedWALRecord;
  lsnCounter_ : lsn_t;                (* the LSN of the next record *)
  lastLsn_ : lsn_t;
  walSize_ : Z;
  walOffset_ : Z;
  storage_ : option (gmap Z bytes)    (* [None]: no valid storage *)
}.

Definition set_records r w :=
  mk_wal r (lsnCounter_ w) (lastLsn_ w) (walSize_ w) (walOffset_ w) (storage_ w).
Definition set_counter l w :=
  mk_wal (records_ w) l (lastLsn_ w) (walSize_ w) (walOffset_ w) (storage_ w).
Definition set_last l w :=
  mk_wal (records_ w) (lsnCounter_ w) l (walSize_ w) (walOffset_ w) (storage_ w).
Definition set_size s w :=
  mk_wal (records_ w) (lsnCounter_ w) (lastLsn_ w) s (walOffset_ w) (storage_ w).
Definition set_offset o w :=
  mk_wal (records_ w) (lsnCounter_ w) (lastLsn_ w) (walSize_ w) o (storage_ w).
Definition set_storage s w :=
  mk_wal (records_ w) (lsnCounter_ w) (lastLsn_ w) (walSize_ w) (walOffset_ w) s.

Definition modify (f : WALTracker -> WALTracker) : M WALTracker unit := w ← get; put (f w).

(** [WALTracker(int64_t sz)] *)
Definition wal_make (sz : Z) : WALTracker := mk_wal [] (mk_lsn 0) lsn_empty sz 0 None.

(** [WALTracker(const WALTracker&, AsyncStorage&)] *)
Definition wal_copy (w : WALTracker) (storage : option (gmap Z bytes)) : WALTracker :=
  set_storage storage w.

Definition LSNCounter (w : WALTracker) : Z := Counter (lsnCounter_ w).
Definition GetServer (w : WALTracker) : Z := Server (lsnCounter_ w).
Definition Capacity (w : WALTracker) : Z := walSize_ w.

Definition wal_SetServer (server : Z) : M WALTracker unit :=
  w ← get; l ← lift (SetServer server (lsnCounter_ w)); put (set_counter l w).

(** The count of records. *)
Definition size (w : WALTracker) : Z :=
  let counter := Counter (lsnCounter_ w) in
  if (counter =? 0) || (walSize_ w =? 0) then 0
  else
    let walEnd := Z.rem counter (walSize_ w) in
    if walOffset_ w =? walEnd then walSize_ w
    else if walOffset_ w <? walEnd then walEnd - walOffset_ w
    else walEnd + (zlen (records_ w) - walOffset_ w).

(** An element of the vector; outside of it the behaviour is undefined. *)
Definition record_at (w : WALTracker) (pos : Z) : result MarkedPackedWALRecord :=
  of_option Undefined (znth (records_ w) pos).

(** [idx % walSize_]: a zero divisor is undefined. *)
Definition ring_pos (w : WALTracker) (idx : Z) : result Z :=
  if walSize_ w =? 0 then Fail Undefined else Ok (Z.rem idx (walSize_ w)).

Definition available (lsn : lsn_t) (ignoreServer : bool) (w : WALTracker) : result bool :=
  let counter := Counter (lsnCounter_ w) in
  if (Counter lsn <? counter) && (counter - Counter lsn <=? size w) then
    pos ← ring_pos w (Counter lsn);
    r ← record_at w pos;
    Ok ((m_server r =? Server lsn) || ignoreServer)
  else Ok false.

(** An exception in a [noexcept] function stops the process. *)
Definition noexcept {A} (r : result A) : result A :=
  match r with Fail (Throw _) => Fail AssertFail | r => r end.

Definition FirstLSN (w : WALTracker) : result lsn_t :=
  let counter := Counter (lsnCounter_ w) in
  if counter =? 0 then Ok lsn_empty
  else r ← record_at w (walOffset_ w); noexcept (lsn_make (counter - size w) (m_server r)).

Definition LSNByOffset (offset : Z) (w : WALTracker) : result lsn_t :=
  if (offset <? 0) || (size w <=? offset) then FirstLSN w
  else
    let counter := Counter (lsnCounter_ w) in
    if counter =? 0 then Ok lsn_empty
    else
      pos ← ring_pos w (counter - offset);
      r ← record_at w pos;
      noexcept (lsn_make (counter - offset) (m_server r)).

(** *** Iterators: the index [idx_] *)

Definition end_ (w : WALTracker) : Z := Counter (lsnCounter_ w).
Definition upper_bound (lsn : lsn_t) (w : WALTracker) : result Z :=
  a ← available lsn false w; Ok (if a : bool then Counter lsn + 1 else end_ w).
Definition inclusive_upper_bound (lsn : lsn_t) (w : WALTracker) : result Z :=
  a ← available lsn false w; Ok (if a : bool then Counter lsn else end_ w).
Definition is_outdated (lsn : lsn_t) (w : WALTracker) : result bool :=
  a ← available lsn false w; Ok (negb a).

Definition iter_GetRaw (idx : Z) (w : WALTracker) : result bytes :=
  pos ← ring_pos w idx; r ← record_at w pos; Ok (m_packed r).
Definition iter_GetLSN (idx : Z) (w : WALTracker) : result lsn_t :=
  pos ← ring_pos w idx; r ← record_at w pos; noexcept (lsn_make idx (m_server r)).
Definition iter_deref (idx : Z) (w : WALTracker) : result WALRecord :=
  pos ← ring_pos w idx;
  if pos <? zlen (records_ w) then r ← record_at w pos; unpack (m_packed r) else Fail AssertFail.

(** *** Changes *)

(** What [add] puts in the log: a record, packed on the way, or an already packed one. *)
Inductive RecordT : Set :=
| Rec (rec : WALRecord)
| PackedRec (rec : bytes).

(** Both overloads of [put]. *)
Definition wal_put (lsn : lsn_t) (rec : RecordT) : M WALTracker unit :=
  w ← get;
  pos ← lift (ring_pos w (Counter lsn));
  match rec with
  | Rec rec =>
      let w := if zlen (records_ w) <=? pos
               then set_records (zresize (records_ w) (pos + 1) (mk_marked (GetServer w) [])) w
               else w in
      _ ← put w;
      _ ← lift (record_at w pos);
      m ← lift (marked_Pack (Server lsn) rec);
      put (set_records (zset (records_ w) pos m) w)
  | PackedRec rec =>
      if negb ((0 <=? pos) && (pos <=? zlen (records_ w))) then fail AssertFail
      else if pos =? zlen (records_ w) then
        put (set_records (records_ w ++ [mk_marked (Server lsn) rec]) w)
      else put (set_records (zset (records_ w) pos (mk_marked (Server lsn) rec)) w)
  end.

Definition Set_ (rec : WALRecord) (lsn : lsn_t) (ignoreServer : bool) : M WALTracker bool :=
  w ← get;
  a ← lift (available lsn ignoreServer w);
  if negb a then mret false
  else
    _ ← (if Counter lsn =? Counter (lastLsn_ w) then put (set_last lsn w) else mret tt);
    _ ← wal_put lsn (Rec rec);
    mret true.

(** The value that is stored for a record: its LSN and its bytes. *)
Definition storage_value (lsn : lsn_t) (r : MarkedPackedWALRecord) : bytes :=
  le_bytes 8 (u64 (lsn_to_int64 lsn)) ++ m_packed r.

Definition writeToStorage (lsn : lsn_t) : M WALTracker unit :=
  w ← get;
  match storage_ w with
  | None => mret tt
  | Some st =>
      pos ← lift (ring_pos w (Counter lsn));
      r ← lift (record_at w pos);
      put (set_storage (Some (<[u32 pos := storage_value lsn r]> st)) w)
  end.

(** [numeric_limits<int64_t>::max()] *)
Definition kMaxInt64 : Z := 2 ^ 63 - 1.

Definition initPositions (sz minLSN maxLSN : Z) : M WALTracker unit :=
  let counter := maxLSN + 1 in
  w ← get;
  l ← lift (SetCounter counter (lsnCounter_ w));
  _ ← modify (set_counter l);
  w ← get;
  last ← lift (lsn_make maxLSN (GetServer w));
  _ ← modify (set_last last);
  _ ← modify (set_size sz);
  _ ← modify (set_records (zresize [] (Z.min counter sz) (mk_marked (GetServer w) [])));
  modify (set_offset (if (minLSN =? kMaxInt64) || (sz =? 0) then 0
                      else if sz + minLSN <? counter then Z.rem counter sz
                      else Z.rem minLSN sz)).

(** The loop of [Resize] over the old records, [n] left from [lsn]. *)
Fixpoint resize_loop (n : nat) (lsn oldSz : Z) (oldRecords : list MarkedPackedWALRecord) :
    M WALTracker unit :=
  match n with
  | O => mret tt
  | S n =>
      r ← lift (if oldSz =? 0 then Fail Undefined
                else of_option Undefined (znth oldRecords (Z.rem lsn oldSz)));
      rec ← lift (unpack (m_packed r));
      l ← lift (lsn_make lsn (m_server r));
      _ ← Set_ rec l true;
      resize_loop n (lsn + 1) oldSz oldRecords
  end.

Definition Resize (sz : Z) : M WALTracker bool :=
  w ← get;
  let oldSz := Capacity w in
  if sz =? oldSz then mret false
  else
    let filledSize := size w in
    let maxLSN := if filledSize =? 0 then -1 else Counter (lsnCounter_ w) - 1 in
    let minLSN := if filledSize =? 0 then kMaxInt64
                  else maxLSN - ((if filledSize <? sz then filledSize else sz) - 1) in
    let oldRecords := records_ w in
    _ ← modify (set_records []);
    _ ← initPositions sz minLSN maxLSN;
    _ ← resize_loop (Z.to_nat (maxLSN - minLSN + 1)) minLSN oldSz oldRecords;
    mret true.

(** [Reset]: the records of the storage are removed too. *)
Definition wal_Reset : M WALTracker unit :=
  w ← get;
  l ← lift (lsn_make 0 (Server (lsnCounter_ w)));
  put (mk_wal [] l lsn_empty (walSize_ w) 0 ((fun _ => ∅) <$> storage_ w)).

Definition OnNewLeaderSet (leaderId : Z) : M WALTracker unit :=
  w ← get;
  if (0 <=? leaderId) && isEmpty (lastLsn_ w) then
    l ← lift (SetServer leaderId (lastLsn_ w)); put (set_last l w)
  else mret tt.

(** The part of [add] that forgets the old record of a changed item. *)
Definition clear_old (oldLsn : lsn_t) (srv : Z) : M WALTracker unit :=
  w ← get;
  a ← (if isEmpty oldLsn then mret false else lift (available oldLsn false w));
  if a : bool then
    _ ← wal_put oldLsn (Rec (mk_rec WalEmpty (P_id 0) false));
    if negb (Server oldLsn =? srv) then writeToStorage oldLsn else mret tt
  else mret tt.

Definition add (rec : RecordT) (originLsn : lsn_t) (toStorage : bool) (oldLsn : lsn_t) :
    M WALTracker lsn_t :=
  w ← get;
  let localServerID := GetServer w in
  let initialLsnCounter := Counter (lsnCounter_ w) in
  let emptyWAL := initialLsnCounter =? 0 in
  lsn ← (if isEmpty originLsn then
           l ← lift (lsn_incr (lsnCounter_ w)); _ ← modify (set_counter l); mret (lsnCounter_ w)
         else if Counter originLsn <? initialLsnCounter then fail (Throw errLogic)
         else
           let newCounter := Counter originLsn in
           _ ← (if emptyWAL && negb (walSize_ w =? 0) then
                  if negb (zlen (records_ w) =? 0) then fail AssertFail
                  else if negb (walOffset_ w =? 0) then fail AssertFail
                  else
                    let off := Z.rem newCounter (walSize_ w) in
                    modify (fun w => set_records (zresize (records_ w) off
                                        (mk_marked localServerID [])) (set_offset off w))
                else mret tt);
           l ← lift (SetCounter (newCounter + 1) (lsnCounter_ w));
           _ ← modify (set_counter l);
           mret originLsn);
  _ ← modify (set_last lsn);
  w ← get;
  if walSize_ w =? 0 then mret lsn
  else
    let counter := Counter (lsnCounter_ w) in
    _ ← (if (1 <? counter) && (walOffset_ w =? Z.rem (counter - 1) (walSize_ w)) && negb emptyWAL
         then modify (set_offset (Z.rem counter (walSize_ w))) else mret tt);
    _ ← wal_put lsn rec;
    _ ← clear_old oldLsn localServerID;
    _ ← (if toStorage then writeToStorage lsn else mret tt);
    mret lsn.

(** The public overloads of [Add]: updates of items are not written to the storage. *)
Definition Add (rec : WALRecord) (originLsn oldLsn : lsn_t) : M WALTracker lsn_t :=
  add (Rec rec) originLsn (negb (bool_decide (type rec = WalItemUpdate))) oldLsn.
Definition Add_packed (ty : WALRecType) (rec : bytes) (originLsn : lsn_t) : M WALTracker lsn_t :=
  add (PackedRec rec) originLsn (negb (bool_decide (ty = WalItemUpdate))) lsn_empty.

Section Storage.
(** The values of the storage in the order of its cursor. *)
Context (cursor : gmap Z bytes -> list bytes).

(** The loop of [readFromStorage]: the records and the new [maxLSN]. *)
Fixpoint read_values (vals : list bytes) (maxLSN : Z) (data : list (lsn_t * bytes)) :
    result (list (lsn_t * bytes) * Z) :=
  match vals with
  | [] => Ok (data, maxLSN)
  | v :: vals =>
      if 8 <=? zlen v then
        lsn ← lsn_of_int64 (s64 (le_val (take 8 v)));
        if Counter lsn <? 0 then Fail AssertFail
        else read_values vals (Z.max maxLSN (Counter lsn)) (data ++ [(lsn, drop 8 v)])
      else read_values vals maxLSN data
  end.

Definition readFromStorage (maxLSN : Z) : M WALTracker (list (lsn_t * bytes) * Z) :=
  w ← get;
  match storage_ w with
  | None => mret ([], maxLSN)
  | Some st => lift (read_values (cursor st) maxLSN [])
  end.

Fixpoint set_all (data : list (lsn_t * bytes)) : M WALTracker unit :=
  match data with
  | [] => mret tt
  | (lsn, packed) :: data =>
      rec ← lift (unpack packed); _ ← Set_ rec lsn true; set_all data
  end.

Definition Init (sz minLSN maxLSN : Z) (storage : option (gmap Z bytes)) : M WALTracker unit :=
  _ ← modify (set_storage storage);
  d ← readFromStorage maxLSN;
  let '(data, maxLSN) := d in
  _ ← initPositions sz minLSN maxLSN;
  set_all data.
End Storage.

(** ** The ring *)

Definition marked_ok (m : MarkedPackedWALRecord) : Prop :=
  0 <= m_server m <= 999 /\ packed_ok (m_packed m).

(** Writing the cell [pos], with fillers up to it. *)
Definition ring_set (rs : list MarkedPackedWALRecord) (pos : Z) (filler m : MarkedPackedWALRecord) :
    list MarkedPackedWALRecord :=
  zset (if zlen rs <=? pos then zresize rs (pos + 1) filler else rs) pos m.

Lemma zlen_ring_set rs pos f m : 0 <= pos -> zlen (ring_set rs pos f m) = Z.max (zlen rs) (pos + 1).
Proof.
  intros. unfold ring_set. rewrite zlen_zset.
  destruct (Z.leb_spec (zlen rs) pos); rewrite ?zlen_zresize by lia; lia.
Qed.

Lemma znth_ring_set_eq rs pos f m : 0 <= pos -> znth (ring_set rs pos f m) pos = Some m.
Proof.
  intros. unfold ring_set. apply znth_zset_eq.
  destruct (Z.leb_spec (zlen rs) pos); rewrite ?zlen_zresize by lia; lia.
Qed.

Lemma znth_ring_set_ne rs pos f m j :
  0 <= pos -> j <> pos -> j < zlen rs -> znth (ring_set rs pos f m) j = znth rs j.
Proof.
  intros Hp Hj Hl. unfold ring_set. rewrite znth_zset_ne by done.
  destruct (Z.leb_spec (zlen rs) pos); [| done].
  destruct (decide (0 <= j)); [| by rewrite !znth_None by lia].
  rewrite znth_zresize by lia. destruct (znth_lt rs j) as [x ->]; [lia | done].
Qed.

Lemma ring_set_ok rs pos f m :
  Forall marked_ok rs -> marked_ok f -> marked_ok m -> Forall marked_ok (ring_set rs pos f m).
Proof.
  intros Hrs Hf Hm. unfold ring_set, zset. apply Forall_insert; [| done].
  case_match; [| done]. unfold zresize. by apply Forall_resize.
Qed.

Lemma ring_set_snoc rs f m : ring_set rs (zlen rs) f m = rs ++ [m].
Proof.
  unfold ring_set. rewrite Z.leb_refl. unfold zresize, zset, zlen.
  rewrite resize_ge by lia. replace (Z.to_nat (_ + 1) - length rs)%nat with 1%nat by lia.
  rewrite Nat2Z.id. replace (length rs) with (length rs + 0)%nat by lia.
  by rewrite insert_app_r.
Qed.

(** The packed form of what is put. *)
Definition packed_of (rec : RecordT) : result bytes :=
  match rec with Rec r => pack_record r | PackedRec p => Ok p end.

Lemma wal_put_run w lsn rec p :
  0 < walSize_ w -> 0 <= Counter lsn -> packed_of rec = Ok p ->
  (exists r, rec = Rec r) \/ Counter lsn mod walSize_ w <= zlen (records_ w) ->
  wal_put lsn rec w =
    (Ok tt, set_records (ring_set (records_ w) (Counter lsn mod walSize_ w)
                           (mk_marked (GetServer w) []) (mk_marked (Server lsn) p)) w).
Proof.
  intros Hs Hc Hp Hpos. unfold wal_put. rewrite M_bind_get. unfold ring_pos.
  rewrite (proj2 (Z.eqb_neq _ _)) by lia. rewrite M_bind_lift, Z.rem_mod_nonneg by lia.
  pose proof (Z.mod_pos_bound (Counter lsn) (walSize_ w) Hs) as Hm.
  set (pos := Counter lsn mod walSize_ w) in *. destruct rec as [r | p']; cbn in Hp.
  - rewrite M_bind_put. unfold record_at. unfold marked_Pack. rewrite Hp.
    set (rs := if _ <=? _ then _ else _).
    destruct (znth_lt (records_ rs) pos) as [x ->].
    { subst rs. destruct (Z.leb_spec (zlen (records_ w)) pos); cbn [records_ set_records];
        rewrite ?zlen_zresize by lia; lia. }
    cbn [of_option]. rewrite M_bind_lift. unfold mbind at 2, result_bind. rewrite M_bind_lift.
    unfold put. subst rs. unfold ring_set. by destruct (_ <=? _).
  - injection Hp as ->. destruct Hpos as [[? ?] | Hpos]; [done |].
    rewrite (proj2 (Z.leb_le 0 pos)), (proj2 (Z.leb_le pos _)) by lia. cbn [andb negb].
    destruct (Z.eqb_spec pos (zlen (records_ w))) as [-> | Hne].
    + by rewrite ring_set_snoc.
    + unfold ring_set. by rewrite (proj2 (Z.leb_gt _ _)) by lia.
Qed.

(** ** The invariant: the ring holds the last [n] records *)

Definition window_ok (rs : list MarkedPackedWALRecord) (c s off n : Z) : Prop :=
  (c = 0 /\ n = 0 /\ rs = [] /\ off = 0) \/
  (0 < n <= s /\ n <= c /\ off = (c - n) mod s /\
   forall i, c - n <= i < c -> i mod s < zlen rs).

Record wal_inv (w : WALTracker) (n : Z) : Prop := {
  inv_counter : lsn_wf (lsnCounter_ w);
  inv_size : 0 < walSize_ w;
  inv_len : zlen (records_ w) <= walSize_ w;
  inv_recs : Forall marked_ok (records_ w);
  inv_win : window_ok (records_ w) (LSNCounter w) (walSize_ w) (walOffset_ w) n;
  inv_last_wf : lsn_wf (lastLsn_ w);
  inv_last : 0 < LSNCounter w -> Counter (lastLsn_ w) = LSNCounter w - 1
}.

(** The arithmetic of a window of [n] positions of a ring of [s]. *)
Lemma window_arith c s n :
  0 < n <= s -> n <= c ->
  let a := (c - n) mod s in let e := c mod s in
  (a = e -> n = s) /\ (a < e -> n = e - a) /\ (e < a -> n = e + s - a).
Proof.
  intros Hn Hc a e. pose proof (Z.mod_pos_bound (c - n) s). pose proof (Z.mod_pos_bound c s).
  pose proof (Z.div_mod (c - n) s). pose proof (Z.div_mod c s).
  subst a e. set (a := (c - n) mod s) in *. set (e := c mod s) in *.
  set (k := c / s - (c - n) / s). assert (n = s * k + e - a) by (subst k; nia).
  split_and!; intros.
  - assert (k = 1) by nia. nia.
  - assert (k = 0) by nia. nia.
  - assert (k = 1) by nia. nia.
Qed.

Lemma window_wrap_full rs c s off n :
  0 < s -> zlen rs <= s -> window_ok rs c s off n -> 0 < c -> c mod s <= off -> zlen rs = s.
Proof.
  intros Hs Hl [(-> & _) | (Hn & Hc & Ho & Hi)] Hpos He; [lia |].
  destruct (window_arith c s n Hn Hc) as (A1 & A2 & A3). rewrite <- Ho in *.
  pose proof (Z.mod_pos_bound c s Hs). pose proof (Z.mod_pos_bound (c - n) s Hs).
  assert (c - n <= c - c mod s - 1) by (destruct (decide (off = c mod s)); lia).
  specialize (Hi (c - c mod s - 1) ltac:(lia)).
  assert ((c - c mod s - 1) mod s = s - 1) as E; [| lia].
  replace (c - c mod s - 1) with (s - 1 + (c / s - 1) * s) by (pose proof (Z.div_mod c s); nia).
  rewrite Z.mod_add by lia. apply Z.mod_small. lia.
Qed.

Lemma LSNCounter_bound w n : wal_inv w n -> 0 <= LSNCounter w < kMaxCounter.
Proof. intros H. apply Counter_bound, H. Qed.

Lemma GetServer_bound w n : wal_inv w n -> 0 <= GetServer w <= 999.
Proof. intros H. apply Server_bound, H. Qed.

Lemma inv_n w n : wal_inv w n -> 0 <= n <= walSize_ w /\ n <= LSNCounter w.
Proof. intros [_ ? _ _ [(-> & -> & _) | (? & ? & _)] _ _]; lia. Qed.

(** [size()] is the number of records of the window. *)
Lemma size_inv w n : wal_inv w n -> size w = n.
Proof.
  intros H. pose proof (LSNCounter_bound w n H). destruct H as [_ Hs Hl _ Hw _ _].
  unfold size, LSNCounter in *. rewrite (proj2 (Z.eqb_neq (walSize_ w) 0)), orb_false_r by lia.
  destruct (Z.eqb_spec (Counter (lsnCounter_ w)) 0) as [E | E].
  { destruct Hw as [(_ & -> & _) | (? & ? & _)]; lia. }
  pose proof (window_wrap_full _ _ _ _ _ Hs Hl Hw ltac:(lia)) as Hfull.
  destruct Hw as [(? & _) | (Hn & Hc & Ho & _)]; [lia |].
  destruct (window_arith _ _ _ Hn Hc) as (A1 & A2 & A3). rewrite <- Ho in *.
  rewrite Z.rem_mod_nonneg by lia.
  destruct (Z.eqb_spec (walOffset_ w) (Counter (lsnCounter_ w) mod walSize_ w)); [by rewrite A1 |].
  destruct (Z.ltb_spec (walOffset_ w) (Counter (lsnCounter_ w) mod walSize_ w)); [by rewrite A2 |].
  rewrite Hfull, A3 by lia. lia.
Qed.

(** The log as a map: the record of an LSN counter. *)
Definition wal_get (w : WALTracker) (i : Z) : option MarkedPackedWALRecord :=
  if decide (LSNCounter w - size w <= i < LSNCounter w)
  then znth (records_ w) (i mod walSize_ w) else None.

Lemma wal_get_in w n i :
  wal_inv w n -> LSNCounter w - n <= i < LSNCounter w ->
  exists r, wal_get w i = Some r /\ znth (records_ w) (i mod walSize_ w) = Some r /\ marked_ok r.
Proof.
  intros H Hi. unfold wal_get. rewrite (size_inv w n H), decide_True by done.
  pose proof (inv_n w n H). destruct H as [_ Hs _ Hr Hw _ _].
  destruct Hw as [(E & -> & _) | (_ & _ & _ & Hlt)]; [lia |].
  destruct (znth_lt (records_ w) (i mod walSize_ w)) as [r E].
  { pose proof (Z.mod_pos_bound i (walSize_ w) Hs). specialize (Hlt i Hi). lia. }
  exists r. split_and!; [done | done |]. unfold znth in E. case_decide; [| done].
  by eapply Forall_lookup_1.
Qed.

Lemma available_inv w n lsn ig :
  wal_inv w n -> lsn_wf lsn ->
  available lsn ig w =
    Ok (match wal_get w (Counter lsn) with
        | Some r => (m_server r =? Server lsn) || ig
        | None => false
        end).
Proof.
  intros H Hl. unfold available. pose proof (Counter_bound lsn Hl).
  fold (LSNCounter w). rewrite (size_inv w n H).
  destruct (Z.ltb_spec (Counter lsn) (LSNCounter w)); cbn [andb].
  - destruct (Z.leb_spec (LSNCounter w - Counter lsn) n).
    + destruct (wal_get_in w n (Counter lsn) H) as (r & -> & E & _); [lia |].
      unfold ring_pos. pose proof (inv_size _ _ H). rewrite (proj2 (Z.eqb_neq _ _)) by lia.
      rewrite Z.rem_mod_nonneg by lia. cbn. unfold record_at. by rewrite E.
    + unfold wal_get. rewrite (size_inv w n H), decide_False by lia. done.
  - unfold wal_get. rewrite (size_inv w n H), decide_False by lia. done.
Qed.

Lemma record_of_window w n i :
  wal_inv w n -> 0 <= i -> LSNCounter w - n <= i < LSNCounter w ->
  exists r, (pos ← ring_pos w i; record_at w pos) = Ok r /\ wal_get w i = Some r /\ marked_ok r.
Proof.
  intros H Hi Hw. destruct (wal_get_in w n i H Hw) as (r & Eg & E & Hok).
  exists r. split_and!; [| done | done]. unfold ring_pos. pose proof (inv_size _ _ H).
  rewrite (proj2 (Z.eqb_neq _ _)), Z.rem_mod_nonneg by lia. cbn. unfold record_at. by rewrite E.
Qed.

(** ** Adding a record *)

Lemma mod_ne i k s : 0 < k - i < s -> i mod s <> k mod s.
Proof.
  intros H E. pose proof (Z.div_mod i s). pose proof (Z.div_mod k s).
  assert (k - i = s * (k / s - i / s)) by lia.
  assert (k / s - i / s <= 0 \/ 1 <= k / s - i / s) as [? | ?] by lia; nia.
Qed.

Lemma mod_succ_le k s : 0 < s -> k mod s <= (k - 1) mod s + 1.
Proof.
  intros Hs. replace k with (k - 1 + 1) at 1 by lia. rewrite <- Zplus_mod_idemp_l.
  apply Z.mod_le; [| done]. pose proof (Z.mod_pos_bound (k - 1) s). lia.
Qed.

Lemma put_newest rs s k n0 f m :
  0 <= n0 < s -> n0 <= k -> zlen rs <= s ->
  (forall i, k - n0 <= i < k -> i mod s < zlen rs) ->
  let rs' := ring_set rs (k mod s) f m in
  window_ok rs' (k + 1) s ((k - n0) mod s) (n0 + 1) /\ zlen rs' <= s /\
  znth rs' (k mod s) = Some m /\
  (forall i, k - n0 <= i < k -> znth rs' (i mod s) = znth rs (i mod s)).
Proof.
  intros Hn Hk Hl Hi rs'. pose proof (Z.mod_pos_bound k s ltac:(lia)).
  assert (zlen rs' = Z.max (zlen rs) (k mod s + 1)) as El by (apply zlen_ring_set; lia).
  split_and!; [right; split_and! | lia | |]; try lia.
  - f_equal. lia.
  - intros i Hi'. rewrite El. destruct (decide (i = k)) as [-> | ?]; [lia |].
    specialize (Hi i). lia.
  - apply znth_ring_set_eq. lia.
  - intros i Hi'. apply znth_ring_set_ne; [lia | apply mod_ne; lia | by apply Hi].
Qed.

(** What [add] does after the new record is in the ring. *)
Definition add_finish (lsn oldLsn : lsn_t) (toStorage : bool) (localServerID : Z) :
    M WALTracker lsn_t :=
  _ ← clear_old oldLsn localServerID;
  _ ← (if toStorage then writeToStorage lsn else mret tt);
  mret lsn.

(** The LSN that a new record gets, and when [add] accepts it without a gap. *)
Definition next_lsn (w : WALTracker) (originLsn : lsn_t) : lsn_t :=
  if isEmpty originLsn then lsnCounter_ w else originLsn.

Definition add_ok (w : WALTracker) (originLsn : lsn_t) : Prop :=
  lsn_wf originLsn /\ Counter (next_lsn w originLsn) < kDefaultCounter /\
  (LSNCounter w <> 0 -> Counter (next_lsn w originLsn) = LSNCounter w).

Definition added (w : WALTracker) (n : Z) (lsn : lsn_t) (p : bytes) : WALTracker :=
  let k := Counter lsn in
  let f := mk_marked (GetServer w) [] in
  let rs := if LSNCounter w =? 0 then zresize [] (k mod walSize_ w) f else records_ w in
  let n0 := if LSNCounter w =? 0 then 0 else Z.min n (walSize_ w - 1) in
  mk_wal (ring_set rs (k mod walSize_ w) f (mk_marked (Server lsn) p))
    (mk (k + 1) (GetServer w)) lsn (walSize_ w) ((k - n0) mod walSize_ w) (storage_ w).

Lemma next_lsn_wf w n originLsn : wal_inv w n -> add_ok w originLsn -> lsn_wf (next_lsn w originLsn).
Proof. intros H (? & _). unfold next_lsn. case_match; [apply H | done]. Qed.

Lemma offset_step w n :
  wal_inv w n -> LSNCounter w <> 0 ->
  (if walOffset_ w =? LSNCounter w mod walSize_ w then (LSNCounter w + 1) mod walSize_ w
   else walOffset_ w) =
  (LSNCounter w - Z.min n (walSize_ w - 1)) mod walSize_ w.
Proof.
  intros [_ Hs _ _ [(? & _) | (Hn & Hc & -> & _)] _ _] Hne; [done |].
  destruct (window_arith _ _ _ Hn Hc) as (A1 & A2 & A3).
  destruct (Z.eqb_spec ((LSNCounter w - n) mod walSize_ w) (LSNCounter w mod walSize_ w)) as [E | E].
  - rewrite (A1 E), Z.min_r by lia.
    rewrite <- (Z.mod_add (LSNCounter w - (walSize_ w - 1)) 1) by lia. f_equal. lia.
  - rewrite Z.min_l; [done |]. pose proof (Z.mod_pos_bound (LSNCounter w - n) _ Hs).
    pose proof (Z.mod_pos_bound (LSNCounter w) _ Hs). lia.
Qed.

Lemma modify_run f w : modify f w = (Ok tt, f w).
Proof. reflexivity. Qed.

Lemma add_run w n rec p originLsn toStorage oldLsn :
  wal_inv w n -> add_ok w originLsn -> packed_of rec = Ok p ->
  add rec originLsn toStorage oldLsn w =
    add_finish (next_lsn w originLsn) oldLsn toStorage (GetServer w)
      (added w n (next_lsn w originLsn) p).
Proof.
  intros H Hok Hp. pose proof (next_lsn_wf w n _ H Hok) as Hlw.
  pose proof (LSNCounter_bound w n H) as Hc. pose proof (inv_size w n H) as Hs.
  destruct Hok as (Hwf & Hk & Hgap). set (lsn := next_lsn w originLsn) in *.
  set (k := Counter lsn) in *. pose proof (Counter_bound lsn Hlw) as Hkb. fold k in Hkb.
  assert (0 <= k + 1 < kMaxCounter) as Hk1 by (unfold kDefaultCounter in Hk; lia).
  set (f := mk_marked (GetServer w) []).
  set (rs := if LSNCounter w =? 0 then zresize [] (k mod walSize_ w) f else records_ w).
  set (off := if LSNCounter w =? 0 then k mod walSize_ w else walOffset_ w).
  assert (LSNCounter w <= k) as Hle
    by (destruct (decide (LSNCounter w = 0)) as [? | Hne]; [| specialize (Hgap Hne)]; lia).
  assert (SetCounter (k + 1) (lsnCounter_ w) = Ok (mk (k + 1) (GetServer w))) as Eset
    by (apply SetCounter_ok; [apply H | done]).
  set (w1 := mk_wal rs (mk (k + 1) (GetServer w)) (lastLsn_ w) (walSize_ w) off (storage_ w)).
  unfold add. rewrite M_bind_get. fold (LSNCounter w).
  erewrite (M_bind_ok _ _ w lsn w1).
  2: { unfold lsn, next_lsn. destruct (isEmpty originLsn) eqn:Ee.
       - assert (k = LSNCounter w) as Ek by (subst k lsn; unfold next_lsn; by rewrite Ee).
         unfold lsn_incr. fold (LSNCounter w). rewrite <- Ek, Eset, M_bind_lift.
         rewrite (M_bind_ok _ _ _ _ _ (modify_run _ _)). subst w1 rs off. rewrite <- Ek.
         destruct (inv_win _ _ H) as [(E1 & _ & E2 & E3) | (? & ? & _)].
         + assert (k = 0) as -> by lia. cbn [Z.eqb]. rewrite Zmod_0_l. unfold set_counter.
           rewrite E2, E3. reflexivity.
         + rewrite (proj2 (Z.eqb_neq k 0)) by lia. reflexivity.
       - assert (Counter originLsn = k) as Ek by (subst k lsn; unfold next_lsn; by rewrite Ee).
         rewrite Ek, (proj2 (Z.ltb_ge _ _)) by lia.
         rewrite (proj2 (Z.eqb_neq (walSize_ w) 0)) by lia. cbn [negb]. rewrite andb_true_r.
         subst w1 rs off. destruct (Z.eqb_spec (LSNCounter w) 0) as [E0 | E0].
         + destruct (inv_win _ _ H) as [(E1 & _ & E2 & E3) | (? & ? & _)]; [| lia].
           rewrite E2, E3, zlen_nil. cbn [Z.eqb negb].
           rewrite (M_bind_ok _ _ _ _ _ (modify_run _ _)), Eset, M_bind_lift.
           rewrite (M_bind_ok _ _ _ _ _ (modify_run _ _)).
           rewrite Z.rem_mod_nonneg by lia. unfold set_counter, set_records, set_offset.
           cbn [records_]. rewrite E2. reflexivity.
         + rewrite (M_bind_ret (S := WALTracker)), Eset, M_bind_lift.
           rewrite (M_bind_ok _ _ _ _ _ (modify_run _ _)). reflexivity. }
  rewrite (M_bind_ok _ _ _ _ _ (modify_run _ _)), M_bind_get. cbn [set_last w1 walSize_].
  rewrite (proj2 (Z.eqb_neq (walSize_ w) 0)) by lia.
  unfold set_last at 1 2 3 4. cbn [w1 lsnCounter_ walOffset_ walSize_].
  rewrite Counter_mk by (done || by apply (GetServer_bound w n)).
  replace (k + 1 - 1) with k by lia. rewrite !Z.rem_mod_nonneg by lia.
  set (n0 := if LSNCounter w =? 0 then 0 else Z.min n (walSize_ w - 1)).
  set (w2 := mk_wal rs (mk (k + 1) (GetServer w)) lsn (walSize_ w) ((k - n0) mod walSize_ w)
               (storage_ w)).
  erewrite (M_bind_ok _ _ _ tt w2).
  2: { subst off n0 w1 w2. destruct (Z.eqb_spec (LSNCounter w) 0) as [E0 | E0].
       - cbn [negb]. rewrite andb_false_r, Z.sub_0_r. reflexivity.
       - pose proof (offset_step w n H E0) as E. specialize (Hgap E0). rewrite <- Hgap in E.
         cbn [negb]. rewrite andb_true_r, (proj2 (Z.ltb_lt 1 (k + 1))), <- E by lia. cbn [andb].
         by destruct (_ =? _). }
  assert (k mod walSize_ w <= zlen rs) as Hr.
  { subst rs. destruct (inv_win _ _ H) as [(E & _) | (Hn & Hnc & _ & Hi)].
    - rewrite E. cbn [Z.eqb]. rewrite zlen_zresize; [lia |]. by apply Z.mod_pos_bound.
    - rewrite (proj2 (Z.eqb_neq (LSNCounter w) 0)) by lia. specialize (Hi (k - 1)).
      pose proof (mod_succ_le k (walSize_ w) Hs). rewrite Hgap in *; lia. }
  rewrite (M_bind_ok _ _ _ _ _ (wal_put_run w2 lsn rec p Hs ltac:(lia) Hp (or_intror Hr))).
  assert (GetServer w2 = GetServer w) as -> by (apply Server_mk, (GetServer_bound w n H); lia).
  reflexivity.
Qed.

(** ** The specification: a log that keeps the last [cap] records *)

Abbreviation log := (Z -> option MarkedPackedWALRecord) (only parsing).

Definition log_add (cap : Z) (l : log) (k : Z) (m : MarkedPackedWALRecord) : log :=
  fun i => if decide (i = k) then Some m else if decide (k - cap < i) then l i else None.

(** Forgetting the content of a record, when it is the one of this LSN. *)
Definition log_clear (l : log) (lsn : lsn_t) : log :=
  fun i => if decide (i = Counter lsn) then
             (r ← l i; Some (if m_server r =? Server lsn then mk_marked (Server lsn) [] else r))
           else l i.

Definition count_after (w : WALTracker) (n : Z) : Z :=
  if LSNCounter w =? 0 then 1 else Z.min (n + 1) (walSize_ w).

Lemma added_facts w n originLsn p :
  wal_inv w n -> add_ok w originLsn -> packed_ok p ->
  let lsn := next_lsn w originLsn in
  let w' := added w n lsn p in
  wal_inv w' (count_after w n) /\ LSNCounter w' = Counter lsn + 1 /\ GetServer w' = GetServer w /\
  forall i, wal_get w' i = log_add (walSize_ w) (wal_get w) (Counter lsn) (mk_marked (Server lsn) p) i.
Proof.
  intros H Hok Hp lsn w'. pose proof (next_lsn_wf w n _ H Hok) as Hlw. fold lsn in Hlw.
  pose proof (inv_size w n H) as Hs. pose proof (GetServer_bound w n H) as Hsrv.
  pose proof (Server_bound lsn Hlw). pose proof (Counter_bound lsn Hlw) as Hkb.
  destruct Hok as (_ & Hk & Hgap). fold lsn in Hk, Hgap. set (k := Counter lsn) in *.
  assert (0 <= k + 1 < kMaxCounter) as Hk1 by (unfold kDefaultCounter in Hk; lia).
  set (f := mk_marked (GetServer w) []).
  set (rs := if LSNCounter w =? 0 then zresize [] (k mod walSize_ w) f else records_ w).
  set (n0 := if LSNCounter w =? 0 then 0 else Z.min n (walSize_ w - 1)).
  assert (LSNCounter w' = k + 1) as Ec by (apply Counter_mk; done).
  assert (GetServer w' = GetServer w) as Es by (apply Server_mk; done).
  assert (count_after w n = n0 + 1) as En by (subst n0; unfold count_after; case_match; lia).
  assert (marked_ok f) as Hf by (split; [done | apply packed_ok_nil]).
  pose proof (inv_n w n H) as Hn.
  assert (0 <= n0 < walSize_ w /\ n0 <= k /\ zlen rs <= walSize_ w /\ Forall marked_ok rs /\
    (forall i, k - n0 <= i < k -> i mod walSize_ w < zlen rs)) as (Hn0 & Hn0k & Hl & Hrs & Hi).
  { subst n0 rs. pose proof (Z.mod_pos_bound k _ Hs).
    destruct (Z.eqb_spec (LSNCounter w) 0) as [E0 | E0].
    - rewrite zlen_zresize by lia. split_and!; try lia. by apply Forall_resize.
    - specialize (Hgap E0). split_and!; try lia; try apply H. intros i Hi.
      destruct (inv_win _ _ H) as [(? & _) | (_ & _ & _ & Hw)]; [lia | apply Hw; lia]. }
  destruct (put_newest rs (walSize_ w) k n0 f (mk_marked (Server lsn) p)) as (W1 & W2 & W3 & W4);
    [done.. |].
  assert (wal_inv w' (count_after w n)) as Hinv.
  { rewrite En. constructor; rewrite ?Ec; [by apply mk_wf | done | done | | exact W1 | done |].
    - by apply ring_set_ok.
    - intros _. change (lastLsn_ w') with lsn. fold k. lia. }
  split_and!; [done | done | done |]. intros i. unfold log_add.
  destruct (decide (i = k)) as [-> | Hne].
  { unfold wal_get. rewrite (size_inv w' _ Hinv), Ec, En, decide_True by lia. exact W3. }
  unfold wal_get. rewrite (size_inv w' _ Hinv), Ec, En, (size_inv w n H).
  destruct (decide (k + 1 - (n0 + 1) <= i < k + 1)) as [Hin | Hout].
  - rewrite decide_True by lia. change (walSize_ w') with (walSize_ w).
    change (records_ w') with (ring_set rs (k mod walSize_ w) f (mk_marked (Server lsn) p)).
    rewrite W4 by lia. subst rs n0. destruct (Z.eqb_spec (LSNCounter w) 0) as [E0 | E0]; [lia |].
    specialize (Hgap E0). by rewrite decide_True by lia.
  - destruct (decide (k - walSize_ w < i)); [| done]. symmetry. apply decide_False.
    subst n0. destruct (Z.eqb_spec (LSNCounter w) 0) as [E0 | E0]; [lia |].
    specialize (Hgap E0). lia.
Qed.

(** Rewriting a record of the window keeps the window. *)
Lemma overwrite_facts w n lsn p :
  wal_inv w n -> lsn_wf lsn -> packed_ok p -> is_Some (wal_get w (Counter lsn)) ->
  let m := mk_marked (Server lsn) p in
  let w' := set_records (ring_set (records_ w) (Counter lsn mod walSize_ w)
                           (mk_marked (GetServer w) []) m) w in
  wal_inv w' n /\
  forall i, wal_get w' i = if decide (i = Counter lsn) then Some m else wal_get w i.
Proof.
  intros H Hl Hp [r Hr] m w'. pose proof (inv_size w n H) as Hs.
  pose proof (Server_bound lsn Hl). pose proof (GetServer_bound w n H).
  pose proof (Counter_bound lsn Hl). set (k := Counter lsn) in *.
  assert (LSNCounter w - n <= k < LSNCounter w /\ k mod walSize_ w < zlen (records_ w)) as [Hk Hkl].
  { unfold wal_get in Hr. rewrite (size_inv w n H) in Hr. case_decide as Hd; [| done].
    split; [done |]. apply znth_Some in Hr. lia. }
  pose proof (Z.mod_pos_bound k _ Hs).
  assert (zlen (records_ w') = zlen (records_ w)) as El.
  { cbn [w' records_ set_records]. rewrite zlen_ring_set by lia. lia. }
  assert (wal_inv w' n) as Hinv.
  { constructor; try apply H.
    - rewrite El. apply H.
    - apply ring_set_ok; [apply H | split; [done | apply packed_ok_nil] | by split].
    - pose proof (inv_win _ _ H) as [(_ & _ & E' & _) | Hw].
      + rewrite E', zlen_nil in Hkl. lia.
      + right. by rewrite El. }
  split; [done |]. intros i. unfold wal_get. rewrite (size_inv w' n Hinv), (size_inv w n H).
  change (LSNCounter w') with (LSNCounter w). change (walSize_ w') with (walSize_ w).
  cbn [w' records_ set_records]. destruct (decide (i = k)) as [-> | Hne].
  - rewrite decide_True by done. apply znth_ring_set_eq. lia.
  - destruct (decide _) as [Hi |]; [| done]. apply znth_ring_set_ne; [lia | |].
    + intros E. destruct (decide (i < k)); [eapply (mod_ne i k) | eapply (mod_ne k i)]; try exact E;
        [| | done]; pose proof (inv_n w n H); lia.
    + destruct (inv_win _ _ H) as [(? & ? & _) | (_ & _ & _ & Hw)]; [lia | by apply Hw].
Qed.

Lemma inv_set_storage st w n : wal_inv w n -> wal_inv (set_storage st w) n.
Proof. intros []. by constructor. Qed.

Lemma wal_get_set_storage st w i : wal_get (set_storage st w) i = wal_get w i.
Proof. reflexivity. Qed.

Lemma writeToStorage_run w n lsn r :
  wal_inv w n -> lsn_wf lsn -> wal_get w (Counter lsn) = Some r ->
  writeToStorage lsn w =
    (Ok tt, set_storage ((<[u32 (Counter lsn mod walSize_ w) := storage_value lsn r]>) <$> storage_ w) w).
Proof.
  intros H Hl Hr. pose proof (Counter_bound lsn Hl). unfold writeToStorage. rewrite M_bind_get.
  destruct (storage_ w) as [st |] eqn:E.
  - pose proof (inv_size w n H). unfold ring_pos. rewrite (proj2 (Z.eqb_neq _ _)) by lia.
    rewrite M_bind_lift, Z.rem_mod_nonneg by lia. unfold wal_get in Hr.
    case_decide; [| done]. unfold record_at. rewrite Hr. cbn [of_option].
    by rewrite M_bind_lift.
  - destruct w. cbn in E. by subst.
Qed.

Definition log_forget (l : log) (oldLsn : lsn_t) : log :=
  if isEmpty oldLsn then l else log_clear l oldLsn.

(** The same position and size of the log, with or without a storage in both. *)
Definition same_frame (w w' : WALTracker) : Prop :=
  lsnCounter_ w' = lsnCounter_ w /\ lastLsn_ w' = lastLsn_ w /\ walSize_ w' = walSize_ w /\
  (is_Some (storage_ w) -> is_Some (storage_ w')).

Lemma clear_old_run w n oldLsn srv :
  wal_inv w n -> lsn_wf oldLsn ->
  exists w', clear_old oldLsn srv w = (Ok tt, w') /\ wal_inv w' n /\ same_frame w w' /\
    (forall i, wal_get w' i = log_forget (wal_get w) oldLsn i).
Proof.
  intros H Ho. unfold clear_old, log_forget. rewrite M_bind_get. destruct (isEmpty oldLsn).
  { rewrite M_bind_ret. by exists w. }
  rewrite (available_inv w n oldLsn false H Ho), M_bind_lift. unfold log_clear.
  destruct (wal_get w (Counter oldLsn)) as [ro |] eqn:Ero.
  2: { exists w. split_and!; try done. intros i. case_decide; [subst; by rewrite Ero | done]. }
  rewrite orb_false_r. destruct (Z.eqb_spec (m_server ro) (Server oldLsn)) as [Es | Es].
  2: { exists w. split_and!; try done. intros i. case_decide; [| done].
       subst. rewrite Ero. cbn. by rewrite (proj2 (Z.eqb_neq _ _)). }
  destruct (overwrite_facts w n oldLsn [] H Ho packed_ok_nil) as [I2 G2]; [by rewrite Ero |].
  rewrite (M_bind_ok _ _ _ _ _ (wal_put_run w oldLsn (Rec _) [] (inv_size _ _ H)
    (proj1 (Counter_bound _ Ho)) (pack_record_empty _ _) (or_introl (ex_intro _ _ eq_refl)))).
  set (w2 := set_records _ w) in *.
  assert (forall i, wal_get w2 i = if decide (i = Counter oldLsn)
    then r0 ← wal_get w i; Some (if m_server r0 =? Server oldLsn
                                  then mk_marked (Server oldLsn) [] else r0)
    else wal_get w i) as G2'.
  { intros i. rewrite G2. case_decide; [| done]. subst. rewrite Ero. cbn.
    by rewrite (proj2 (Z.eqb_eq _ _) Es). }
  destruct (negb _); [| by exists w2].
  rewrite (writeToStorage_run w2 n oldLsn (mk_marked (Server oldLsn) [])); try done.
  2: { rewrite G2. by rewrite decide_True. }
  eexists; split; [reflexivity |]. split_and!; [by apply inv_set_storage | | done].
  split_and!; try done. cbn [storage_ set_storage]. intros [st Est].
  change (storage_ w2) with (storage_ w). rewrite Est. by eexists.
Qed.

Lemma add_finish_run w n lsn oldLsn ts srv r :
  wal_inv w n -> lsn_wf lsn -> lsn_wf oldLsn -> wal_get w (Counter lsn) = Some r ->
  exists w', add_finish lsn oldLsn ts srv w = (Ok lsn, w') /\ wal_inv w' n /\ same_frame w w' /\
    (forall i, wal_get w' i = log_forget (wal_get w) oldLsn i) /\
    (ts = true -> is_Some (storage_ w) -> exists st' r', storage_ w' = Some st' /\
       wal_get w' (Counter lsn) = Some r' /\
       st' !! u32 (Counter lsn mod walSize_ w) = Some (storage_value lsn r')).
Proof.
  intros H Hl Ho Hr. destruct (clear_old_run w n oldLsn srv H Ho) as (w1 & E1 & I1 & F1 & G1).
  assert (is_Some (wal_get w1 (Counter lsn))) as [r' Hr'].
  { rewrite G1. unfold log_forget, log_clear. destruct (isEmpty oldLsn); [by eexists |].
    case_decide; [| by eexists]. rewrite Hr. by eexists. }
  unfold add_finish. rewrite (M_bind_ok _ _ _ _ _ E1).
  destruct F1 as (C1 & L1 & S1 & T1). destruct ts.
  - rewrite (M_bind_ok _ _ _ _ _ (writeToStorage_run w1 n lsn r' I1 Hl Hr')).
    eexists; split; [reflexivity |]. split; [by apply inv_set_storage |]. split; [| split].
    + split_and!; try done. intros Hst. destruct (T1 Hst) as [st Est]. cbn [storage_ set_storage].
      rewrite Est. by eexists.
    + intros i. by rewrite <- G1.
    + intros _ Hst. destruct (T1 Hst) as [st Est]. cbn [storage_ set_storage]. rewrite Est, S1.
      do 2 eexists. split_and!; [reflexivity | exact Hr' |]. apply lookup_insert_eq.
  - rewrite M_bind_ret. exists w1. by split_and!.
Qed.

(** ** Resizing *)

Lemma Set_run w n rec lsn ig p :
  wal_inv w n -> lsn_wf lsn -> pack_record rec = Ok p -> packed_ok p ->
  let ok := match wal_get w (Counter lsn) with
            | Some r => (m_server r =? Server lsn) || ig
            | None => false
            end in
  exists w', Set_ rec lsn ig w = (Ok ok, w') /\ wal_inv w' n /\
    lsnCounter_ w' = lsnCounter_ w /\ walSize_ w' = walSize_ w /\ storage_ w' = storage_ w /\
    forall i, wal_get w' i =
      if ok && bool_decide (i = Counter lsn) then Some (mk_marked (Server lsn) p) else wal_get w i.
Proof.
  intros H Hl Ep Hp ok. unfold Set_. rewrite M_bind_get, (available_inv w n lsn ig H Hl), M_bind_lift.
  fold ok. destruct ok eqn:Eok; cbn [negb]; [| by exists w].
  assert (is_Some (wal_get w (Counter lsn))) as Hin.
  { subst ok. destruct (wal_get w (Counter lsn)); [by eexists | done]. }
  set (w1 := if Counter lsn =? Counter (lastLsn_ w) then set_last lsn w else w).
  assert (wal_inv w1 n /\ wal_get w1 = wal_get w) as [H1 G1].
  { subst w1. destruct (Z.eqb_spec (Counter lsn) (Counter (lastLsn_ w))) as [E |]; [| done].
    split; [| done]. destruct H as [? ? ? ? ? ? HL]. constructor; try done.
    intros Hc. change (LSNCounter (set_last lsn w)) with (LSNCounter w) in *.
    cbn [lastLsn_ set_last]. rewrite E. by apply HL. }
  erewrite (M_bind_ok _ _ w tt w1) by (subst w1; by case_match).
  rewrite (M_bind_ok _ _ _ _ _ (wal_put_run w1 lsn (Rec rec) p (inv_size _ _ H1)
    (proj1 (Counter_bound _ Hl)) Ep (or_introl (ex_intro _ _ eq_refl)))).
  rewrite <- G1 in Hin. destruct (overwrite_facts w1 n lsn p H1 Hl Hp Hin) as [H2 G2].
  eexists; split; [reflexivity |]. split; [exact H2 |].
  split_and!; [by subst w1; case_match.. |].
  intros i. rewrite G2, G1. cbn [andb]. by case_bool_decide; case_decide.
Qed.

Definition init_count (sz minLSN maxLSN : Z) : Z :=
  if maxLSN =? -1 then 0
  else if minLSN =? kMaxInt64 then
    (if (maxLSN + 1) mod sz =? 0 then sz else (maxLSN + 1) mod sz)
  else Z.min sz (maxLSN + 1 - minLSN).

Definition init_state (w : WALTracker) (sz minLSN maxLSN : Z) : WALTracker :=
  mk_wal (zresize [] (Z.min (maxLSN + 1) sz) (mk_marked (GetServer w) []))
    (mk (maxLSN + 1) (GetServer w))
    (mk (if maxLSN =? -1 then kDefaultCounter else maxLSN) (GetServer w)) sz
    (if minLSN =? kMaxInt64 then 0
     else if sz + minLSN <? maxLSN + 1 then (maxLSN + 1) mod sz else minLSN mod sz)
    (storage_ w).

(** The smallest and the largest LSN are those of a log: none, unknown or some records. *)
Definition range_ok (minLSN maxLSN : Z) : Prop :=
  -1 <= maxLSN < kDefaultCounter - 1 /\ (minLSN = kMaxInt64 \/ 0 <= minLSN <= maxLSN).

Lemma initPositions_run w sz minLSN maxLSN :
  lsn_wf (lsnCounter_ w) -> 0 < sz -> range_ok minLSN maxLSN ->
  initPositions sz minLSN maxLSN w = (Ok tt, init_state w sz minLSN maxLSN).
Proof.
  intros Hw Hs [Hmax Hmin]. pose proof (Server_bound _ Hw) as Hsrv. fold (GetServer w) in Hsrv.
  assert (kDefaultCounter < kMaxCounter) by (unfold kDefaultCounter; lia).
  unfold initPositions. rewrite M_bind_get. rewrite SetCounter_ok by (done || lia).
  rewrite M_bind_lift, (M_bind_ok _ _ _ _ _ (modify_run _ _)), M_bind_get.
  fold (GetServer w).
  assert (GetServer (set_counter (mk (maxLSN + 1) (GetServer w)) w) = GetServer w) as ->
    by (apply Server_mk; (done || lia)).
  assert (lsn_make maxLSN (GetServer w) =
    Ok (mk (if maxLSN =? -1 then kDefaultCounter else maxLSN) (GetServer w))) as ->.
  { destruct (Z.eqb_spec maxLSN (-1)) as [-> | ?].
    - unfold lsn_make, validateCounter, validateServerId, kMinServerIDValue, kMaxServerIDValue.
      change (kDefaultCounter <? -1) with false. cbn.
      by rewrite (proj2 (Z.ltb_ge (GetServer w) 0)), (proj2 (Z.ltb_ge 999 (GetServer w))) by lia.
    - rewrite lsn_make_ok by lia. reflexivity. }
  rewrite M_bind_lift, !(M_bind_ok _ _ _ _ _ (modify_run _ _)), modify_run.
  rewrite (proj2 (Z.eqb_neq sz 0)), orb_false_r by lia. unfold init_state.
  rewrite Z.rem_mod_nonneg by lia. destruct Hmin as [-> | Hmin]; [by rewrite Z.eqb_refl |].
  by rewrite Z.rem_mod_nonneg by lia.
Qed.

Lemma init_state_inv w sz minLSN maxLSN :
  lsn_wf (lsnCounter_ w) -> 0 < sz -> range_ok minLSN maxLSN ->
  wal_inv (init_state w sz minLSN maxLSN) (init_count sz minLSN maxLSN) /\
  LSNCounter (init_state w sz minLSN maxLSN) = maxLSN + 1.
Proof.
  intros Hw Hs [Hmax Hmin]. pose proof (Server_bound _ Hw) as Hsrv. fold (GetServer w) in Hsrv.
  assert (kDefaultCounter < kMaxCounter /\ 0 < kDefaultCounter) as [HD HD0]
    by (unfold kDefaultCounter, kMaxCounter; lia).
  assert (LSNCounter (init_state w sz minLSN maxLSN) = maxLSN + 1) as Ec
    by (apply Counter_mk; lia).
  pose proof (Z.mod_pos_bound (maxLSN + 1) sz Hs) as Hm.
  split; [| done]. constructor; rewrite ?Ec; cbn [init_state lsnCounter_ walSize_ records_ lastLsn_].
  - apply mk_wf; lia.
  - done.
  - rewrite zlen_zresize; lia.
  - apply Forall_resize; [split; [done | apply packed_ok_nil] | done].
  - unfold init_count, window_ok. rewrite zlen_zresize by lia. cbn [init_state walOffset_].
    destruct (Z.eqb_spec maxLSN (-1)) as [-> | Hne].
    { left. destruct Hmin as [-> | ?]; [| lia]. rewrite Z.min_l, Z.eqb_refl by lia. done. }
    right.
    assert (forall i, 0 <= i < maxLSN + 1 -> i mod sz < Z.min (maxLSN + 1) sz) as Hi.
    { intros i Hi. pose proof (Z.mod_pos_bound i sz Hs). pose proof (Z.mod_le i sz). lia. }
    pose proof (Z.mod_le (maxLSN + 1) sz ltac:(lia) Hs) as Hle.
    destruct Hmin as [-> | Hmin]; [rewrite Z.eqb_refl |].
    + destruct (Z.eqb_spec ((maxLSN + 1) mod sz) 0) as [E0 | E0].
      * assert (sz <= maxLSN + 1).
        { destruct (Z.lt_ge_cases (maxLSN + 1) sz); [rewrite Z.mod_small in E0 |]; lia. }
        split_and!; try lia; [| intros; apply Hi; lia].
        transitivity ((maxLSN + 1) mod sz); [done |].
        rewrite <- (Z.mod_add (maxLSN + 1 - sz) 1) by lia. f_equal. lia.
      * split_and!; try lia; [| intros; apply Hi; lia].
        pose proof (Z.div_mod (maxLSN + 1) sz). symmetry.
        replace (maxLSN + 1 - (maxLSN + 1) mod sz) with ((maxLSN + 1) / sz * sz) by lia.
        by rewrite Z.mod_mul by lia.
    + assert (kDefaultCounter < kMaxInt64) by (vm_compute; done).
      rewrite (proj2 (Z.eqb_neq minLSN kMaxInt64)) by lia.
      split_and!; try lia; [| intros; apply Hi; lia].
      destruct (Z.ltb_spec (sz + minLSN) (maxLSN + 1)).
      * rewrite Z.min_l by lia. rewrite <- (Z.mod_add (maxLSN + 1 - sz) 1) by lia. f_equal. lia.
      * rewrite Z.min_r by lia. f_equal. lia.
  - apply mk_wf; [case_match |]; lia.
  - intros Hc. rewrite (proj2 (Z.eqb_neq maxLSN (-1))) by lia. rewrite Counter_mk; lia.
Qed.

(** The loop puts the old records back into their new positions. *)
Lemma resize_loop_run m l oldSz old w n :
  wal_inv w n -> 0 < oldSz -> 0 <= l -> l + Z.of_nat m <= kDefaultCounter ->
  (forall i, l <= i < l + Z.of_nat m ->
     is_Some (wal_get w i) /\ exists r, znth old (i mod oldSz) = Some r /\ marked_ok r) ->
  exists w', resize_loop m l oldSz old w = (Ok tt, w') /\ wal_inv w' n /\
    lsnCounter_ w' = lsnCounter_ w /\ walSize_ w' = walSize_ w /\ storage_ w' = storage_ w /\
    forall i, wal_get w' i =
      if decide (l <= i < l + Z.of_nat m) then znth old (i mod oldSz) else wal_get w i.
Proof.
  intros H Ho. revert l w H. induction m as [| m IH]; intros l w H Hl Hm Hi.
  { exists w. split_and!; try done. intros i. rewrite decide_False by lia. done. }
  cbn [resize_loop]. rewrite (proj2 (Z.eqb_neq oldSz 0)), Z.rem_mod_nonneg by lia.
  destruct (Hi l) as [Hg (r & Er & [Hsrv (rec & Eu & Ep)])]; [lia |].
  rewrite Er. cbn [of_option]. rewrite M_bind_lift, Eu, M_bind_lift.
  assert (0 <= l < kMaxCounter) as Hlk by (unfold kDefaultCounter in *; lia).
  rewrite lsn_make_ok, M_bind_lift by done.
  destruct (Set_run w n rec (mk l (m_server r)) true (m_packed r) H) as
    (w1 & E1 & H1 & C1 & S1 & T1 & G1); [by apply mk_wf | done | by exists rec |].
  rewrite Counter_mk, Server_mk in * by done. destruct Hg as [g Eg]. rewrite Eg, orb_true_r in *.
  rewrite (M_bind_ok _ _ _ _ _ E1).
  destruct (IH (l + 1) w1 H1) as (w2 & E2 & H2 & C2 & S2 & T2 & G2); [lia | lia | |].
  { intros i Hri. destruct (Hi i) as [Hgi Hr]; [lia |]. split; [| done].
    rewrite G1. cbn [andb]. rewrite bool_decide_false by lia. done. }
  exists w2. split_and!; [done | done | congruence.. |]. intros i. rewrite G2, G1. cbn [andb].
  destruct (decide (i = l)) as [-> | Hne].
  - rewrite decide_False, bool_decide_true, decide_True by lia. rewrite Er. by destruct r.
  - rewrite bool_decide_false by done. destruct (decide (l + 1 <= i < l + 1 + Z.of_nat m)).
    + by rewrite decide_True by lia.
    + by rewrite decide_False by lia.
Qed.

Lemma range_count w n sz :
  wal_inv w n -> 0 < sz -> LSNCounter w < kDefaultCounter -> n <> 0 ->
  let maxLSN := LSNCounter w - 1 in
  let minLSN := maxLSN - ((if n <? sz then n else sz) - 1) in
  range_ok minLSN maxLSN /\ minLSN = LSNCounter w - Z.min n sz /\
  init_count sz minLSN maxLSN = Z.min n sz /\ minLSN <> kMaxInt64.
Proof.
  intros H Hs Hc Hn maxLSN minLSN. pose proof (inv_n w n H). pose proof (LSNCounter_bound w n H).
  assert (kDefaultCounter < kMaxInt64) by (vm_compute; done).
  assert (minLSN = LSNCounter w - Z.min n sz) as E
    by (subst minLSN maxLSN; destruct (Z.ltb_spec n sz); lia).
  split_and!; [| done | | lia].
  - split; [| right]; lia.
  - unfold init_count. rewrite (proj2 (Z.eqb_neq maxLSN (-1))), (proj2 (Z.eqb_neq minLSN _)) by lia.
    lia.
Qed.

Definition log_keep (from : Z) (l : log) : log := fun i => if decide (from <= i) then l i else None.

Lemma Resize_run w n sz :
  wal_inv w n -> 0 < sz -> LSNCounter w < kDefaultCounter ->
  exists w', Resize sz w = (Ok (negb (sz =? Capacity w)), w') /\ wal_inv w' (Z.min n sz) /\
    LSNCounter w' = LSNCounter w /\ GetServer w' = GetServer w /\ Capacity w' = sz /\
    storage_ w' = storage_ w /\
    forall i, wal_get w' i = log_keep (LSNCounter w - sz) (wal_get w) i.
Proof.
  intros H Hs Hc. pose proof (inv_n w n H) as Hn. pose proof (LSNCounter_bound w n H) as Hcb.
  pose proof (GetServer_bound w n H) as Hsrv. unfold Resize. rewrite M_bind_get.
  destruct (Z.eqb_spec sz (Capacity w)) as [-> | Hne]; cbn [negb].
  { exists w. unfold Capacity. rewrite Z.min_l by lia. split_and!; try done.
    intros i. unfold log_keep, wal_get. rewrite (size_inv w n H).
    repeat case_decide; (done || lia). }
  rewrite (size_inv w n H), (M_bind_ok _ _ _ _ _ (modify_run _ _)).
  set (w0 := set_records [] w). change (Counter (lsnCounter_ w)) with (LSNCounter w).
  assert (lsn_wf (lsnCounter_ w0)) as Hw0 by apply H.
  destruct (Z.eqb_spec n 0) as [-> | Hn0].
  - destruct (inv_win _ _ H) as [(E & _) | (? & _)]; [| lia].
    assert (range_ok kMaxInt64 (-1)) as Hr by (split; [vm_compute; done | by left]).
    rewrite (M_bind_ok _ _ _ _ _ (initPositions_run w0 sz _ _ Hw0 Hs Hr)).
    destruct (init_state_inv w0 sz _ _ Hw0 Hs Hr) as [H1 C1].
    change (resize_loop _ _ _ _) with (@mret (M WALTracker) _ unit tt). rewrite M_bind_ret.
    eexists; split; [reflexivity |]. rewrite Z.min_l by lia. change (init_count _ _ _) with 0 in H1.
    split_and!; [done | lia | apply Server_mk; done | done | done |]. intros i.
    unfold log_keep, wal_get. rewrite (size_inv _ _ H1), (size_inv w 0 H).
    rewrite C1, E. repeat case_decide; (reflexivity || lia).
  - destruct (range_count w n sz H Hs Hc Hn0) as (Hr & Emin & Ecnt & _).
    set (minLSN := _ - (_ - 1)) in *. set (maxLSN := LSNCounter w - 1) in *.
    rewrite (M_bind_ok _ _ _ _ _ (initPositions_run w0 sz _ _ Hw0 Hs Hr)).
    destruct (init_state_inv w0 sz _ _ Hw0 Hs Hr) as [H1 C1]. rewrite Ecnt in H1.
    set (w1 := init_state w0 sz minLSN maxLSN) in *.
    destruct (resize_loop_run (Z.to_nat (maxLSN - minLSN + 1)) minLSN (Capacity w) (records_ w)
      w1 (Z.min n sz) H1) as (w2 & E2 & H2 & C2 & S2 & T2 & G2); [apply H | lia | lia | |].
    { intros i Hi. destruct (wal_get_in w1 _ i H1) as (r1 & E1 & _); [lia |].
      destruct (wal_get_in w n i H) as (r & _ & E & Hok); [lia |].
      split; [by eexists | by exists r]. }
    rewrite (M_bind_ok _ _ _ _ _ E2). exists w2.
    assert (GetServer w1 = GetServer w) as Es by (apply Server_mk; unfold kDefaultCounter in *; lia).
    split_and!; [done | done | | | done | by rewrite T2 |].
    + unfold LSNCounter at 1. rewrite C2. fold (LSNCounter w1). lia.
    + unfold GetServer at 1. by rewrite C2.
    + intros i. rewrite G2. unfold log_keep, wal_get. rewrite (size_inv _ _ H1), (size_inv w n H), C1.
      repeat case_decide; (reflexivity || lia).
Qed.

(** ** Properties *)

(** C1: [add] refines a bounded log. The ring is a log of the last [walSize_] records:
    after [add], the LSN of the record (the next local one, or the one of its origin) is
    returned, it is the last one, the log maps it to the record with its server, the records
    older than the size of the log are dropped, the old record of the changed item is emptied
    when its LSN is still in the log, and nothing else changes; a record that goes to the
    storage is stored in the cell of its position with its LSN and content. When the LSN of the
    origin is older than the counter, [add] throws [errLogic] and changes nothing. *)
Theorem wal_add_refines w n rec p originLsn toStorage oldLsn :
  wal_inv w n -> lsn_wf oldLsn -> packed_of rec = Ok p -> packed_ok p ->
  (add_ok w originLsn ->
   let lsn := next_lsn w originLsn in
   exists w', add rec originLsn toStorage oldLsn w = (Ok lsn, w') /\
     wal_inv w' (count_after w n) /\
     LSNCounter w' = Counter lsn + 1 /\ lastLsn_ w' = lsn /\ GetServer w' = GetServer w /\
     (forall i, wal_get w' i =
        log_forget (log_add (walSize_ w) (wal_get w) (Counter lsn) (mk_marked (Server lsn) p))
          oldLsn i) /\
     (toStorage = true -> is_Some (storage_ w) -> exists st' r', storage_ w' = Some st' /\
        wal_get w' (Counter lsn) = Some r' /\
        st' !! u32 (Counter lsn mod walSize_ w) = Some (storage_value lsn r'))) /\
  (isEmpty originLsn = false -> Counter originLsn < LSNCounter w ->
   add rec originLsn toStorage oldLsn w = (Fail (Throw errLogic), w)).
Proof.
  intros H Ho Ep Hp. split.
  - intros Hok lsn. destruct (added_facts w n originLsn p H Hok Hp) as (H1 & C1 & S1 & G1).
    pose proof (next_lsn_wf w n _ H Hok) as Hl. fold lsn in C1, G1, Hl.
    destruct (add_finish_run (added w n lsn p) (count_after w n) lsn oldLsn toStorage (GetServer w)
      (mk_marked (Server lsn) p) H1 Hl Ho) as (w' & E & H2 & (C2 & L2 & Z2 & _) & G2 & T2).
    { rewrite G1. unfold log_add. by rewrite decide_True. }
    exists w'. rewrite (add_run w n rec p) by done. split_and!; [done | done | | done | | | done].
    + unfold LSNCounter. by rewrite C2.
    + unfold GetServer at 1. by rewrite C2.
    + intros i. rewrite G2. unfold log_forget, log_clear.
      destruct (isEmpty oldLsn); by rewrite !G1.
  - intros Ee Hlt. unfold add. rewrite M_bind_get, Ee. fold (LSNCounter w).
    by rewrite (proj2 (Z.ltb_lt _ _) Hlt).
Qed.

Definition sample_update : WALRecord := mk_rec WalPutMeta (P_itemMeta [1; 2] (Some [3])) false.

Lemma wal_make_inv sz : 0 < sz -> wal_inv (wal_make sz) 0.
Proof.
  intros Hs. constructor; try done.
  - cbn [wal_make records_]. rewrite zlen_nil. cbn [wal_make walSize_]. lia.
  - left. split_and!; reflexivity.
Qed.

Lemma wal_add_refines_witness :
  exists w', add (Rec sample_update) lsn_empty true lsn_empty (wal_make 3) = (Ok (mk 0 0), w') /\
    wal_get w' 0 = Some (mk_marked 0 [7; 2; 1; 2; 1; 3]).
Proof.
  assert (packed_ok [7; 2; 1; 2; 1; 3]) as Hp
    by (exists sample_update; split; vm_compute; reflexivity).
  destruct (wal_add_refines (wal_make 3) 0 (Rec sample_update) [7; 2; 1; 2; 1; 3] lsn_empty true
    lsn_empty) as [H _].
  - apply wal_make_inv. reflexivity.
  - apply lsn_wf_empty.
  - vm_compute. reflexivity.
  - exact Hp.
  - destruct H as (w' & E & _ & _ & _ & _ & G & _).
    + split; [apply lsn_wf_empty |]. split; [reflexivity |]. intros Hn. exfalso. by apply Hn.
    + exists w'. split; [exact E |]. rewrite G. reflexivity.
Defined.

(** C32: resizing keeps the newest records. After [Resize sz] of a log of [n] records
    the log has the new capacity, the same counter, server and storage, and exactly its
    [min n sz] newest records, every one with its LSN, server and content; the returned flag
    tells whether the capacity changed. *)
Theorem wal_resize_keeps w n sz :
  wal_inv w n -> 0 < sz -> LSNCounter w < kDefaultCounter ->
  exists w', Resize sz w = (Ok (negb (sz =? Capacity w)), w') /\ wal_inv w' (Z.min n sz) /\
    LSNCounter w' = LSNCounter w /\ GetServer w' = GetServer w /\ Capacity w' = sz /\
    storage_ w' = storage_ w /\
    forall i, wal_get w' i = log_keep (LSNCounter w - sz) (wal_get w) i.
Proof. apply Resize_run. Qed.

(** A log of the records 0 and 1. *)
Definition sample_wal : WALTracker :=
  mk_wal [mk_marked 0 [9]; mk_marked 1 [10]] (mk_lsn 2) (mk 1 1) 3 0 (Some ∅).

Lemma sample_wal_inv : wal_inv sample_wal 2.
Proof.
  constructor; try done.
  - repeat constructor; cbn [m_server m_packed]; try lia.
    + exists (mk_rec WalNamespaceAdd P_none false). done.
    + exists (mk_rec WalNamespaceDrop P_none false). done.
  - right. change (LSNCounter sample_wal) with 2. cbn [sample_wal walSize_ walOffset_ records_].
    split_and!; [lia | lia | lia | reflexivity |]. intros i Hi.
    assert (i = 0 \/ i = 1) as [-> | ->] by lia; done.
Qed.

Lemma wal_resize_keeps_witness :
  exists w', Resize 1 sample_wal = (Ok true, w') /\ wal_get w' 1 = Some (mk_marked 1 [10]) /\
    wal_get w' 0 = None.
Proof.
  destruct (wal_resize_keeps sample_wal 2 1 sample_wal_inv) as (w' & E & _ & _ & _ & _ & _ & G).
  - reflexivity.
  - reflexivity.
  - exists w'. split; [exact E |]. rewrite !G. split; reflexivity.
Defined.

(** C33: reading the log. For a log of [n] records with the counter [c], [size] is [n],
    and every LSN from [c - n] to [c - 1] has a record inside of the ring, which an iterator
    reads without undefined behaviour, with the LSN made of the position and the server of the
    record. [FirstLSN] is the oldest of them (empty for an empty log), [LSNByOffset d] is the
    [d]-th one from the end for [0 < d < n]; [upper_bound] gives the next position exactly when
    the log has the record with the server of the LSN, and the end otherwise. [LSNByOffset 0]
    is never the LSN of a record: it names the next one, with the server of an unrelated cell,
    or reads outside of the ring. *)
Theorem wal_reading w n :
  wal_inv w n ->
  size w = n /\
  (forall i, LSNCounter w - n <= i < LSNCounter w -> 0 <= i ->
     exists r, wal_get w i = Some r /\ iter_GetRaw i w = Ok (m_packed r) /\
       iter_GetLSN i w = Ok (mk i (m_server r)) /\ is_ok (iter_deref i w) = true) /\
  (if n =? 0 then FirstLSN w = Ok lsn_empty
   else exists r, wal_get w (LSNCounter w - n) = Some r /\
          FirstLSN w = Ok (mk (LSNCounter w - n) (m_server r))) /\
  (forall d, 0 < d < n -> exists r, wal_get w (LSNCounter w - d) = Some r /\
     LSNByOffset d w = Ok (mk (LSNCounter w - d) (m_server r))) /\
  (forall lsn, lsn_wf lsn ->
     upper_bound lsn w =
       Ok (match wal_get w (Counter lsn) with
           | Some r => if m_server r =? Server lsn then Counter lsn + 1 else LSNCounter w
           | None => LSNCounter w
           end)) /\
  (n <> 0 -> LSNByOffset 0 w = Fail Undefined \/
     exists s, LSNByOffset 0 w = Ok (mk (LSNCounter w) s) /\ wal_get w (LSNCounter w) = None).
Proof.
  intros H. pose proof (size_inv w n H) as Sz. pose proof (inv_n w n H) as Hn.
  pose proof (LSNCounter_bound w n H) as Hc. split_and!.
  - done.
  - intros i Hi Hi0. destruct (record_of_window w n i H Hi0 Hi) as (r & E & G & [Hs (rec & Eu & _)]).
    exists r. split; [done |]. unfold iter_GetRaw, iter_GetLSN, iter_deref, ring_pos in *.
    rewrite (proj2 (Z.eqb_neq (walSize_ w) 0)) in * by lia. cbn [mbind result_bind] in *.
    rewrite E. cbn [mbind result_bind]. split_and!; [done | by rewrite lsn_make_ok by lia |].
    unfold record_at in E. destruct (znth (records_ w) _) as [r' |] eqn:Er; [| done].
    pose proof (znth_Some _ _ _ Er). rewrite (proj2 (Z.ltb_lt _ _)) by lia. cbn in E.
    injection E as ->. by rewrite Eu.
  - unfold FirstLSN. fold (LSNCounter w). destruct (Z.eqb_spec n 0) as [-> | Hn0].
    + destruct (inv_win _ _ H) as [(E & _) | (? & _)]; [by rewrite E | lia].
    + destruct (inv_win _ _ H) as [(_ & ? & _) | (_ & _ & Ho & _)]; [lia |].
      rewrite (proj2 (Z.eqb_neq _ _)) by lia.
      destruct (wal_get_in w n (LSNCounter w - n) H) as (r & G & E & [Hs _]); [lia |].
      exists r. split; [done |]. unfold record_at. rewrite Ho, E. cbn [of_option mbind result_bind].
      by rewrite Sz, lsn_make_ok by lia.
  - intros d Hd. destruct (record_of_window w n (LSNCounter w - d) H) as (r & E & G & [Hs _]);
      [lia | lia |]. exists r. split; [done |].
    unfold LSNByOffset. rewrite Sz, (proj2 (Z.ltb_ge d 0)), (proj2 (Z.leb_gt n d)) by lia.
    cbn [orb]. fold (LSNCounter w). rewrite (proj2 (Z.eqb_neq _ _)) by lia.
    unfold ring_pos in *. destruct (walSize_ w =? 0); [done |]. cbn [mbind result_bind] in *.
    rewrite E. cbn [mbind result_bind]. by rewrite lsn_make_ok by lia.
  - intros lsn Hl. unfold upper_bound. rewrite (available_inv w n lsn false H Hl). cbn.
    destruct (wal_get w (Counter lsn)); [rewrite orb_false_r; by case_match | done].
  - intros Hn0. unfold LSNByOffset. rewrite Sz, (proj2 (Z.leb_gt n 0)) by lia. cbn [Z.ltb orb].
    change (0 <? 0) with false. cbn [orb]. fold (LSNCounter w).
    rewrite (proj2 (Z.eqb_neq _ _)), Z.sub_0_r by lia. unfold ring_pos.
    pose proof (inv_size w n H). rewrite (proj2 (Z.eqb_neq _ _)) by lia. cbn [mbind result_bind].
    unfold record_at. destruct (znth (records_ w) _) as [r |] eqn:Er; [right | by left].
    exists (m_server r). unfold znth in Er. case_decide; [| done].
    apply (Forall_lookup_1 _ _ _ _ (inv_recs w n H)) in Er as [Hs _].
    cbn [of_option mbind result_bind]. rewrite lsn_make_ok by lia. split; [done |].
    unfold wal_get. by rewrite decide_False by lia.
Qed.

Lemma wal_reading_witness :
  size sample_wal = 2 /\ FirstLSN sample_wal = Ok (mk 0 0) /\
  (LSNByOffset 0 sample_wal = Fail Undefined \/
   exists s, LSNByOffset 0 sample_wal = Ok (mk 2 s) /\ wal_get sample_wal 2 = None).
Proof.
  destruct (wal_reading sample_wal 2 sample_wal_inv) as (S & _ & F & _ & _ & O).
  split; [exact S |]. split.
  - destruct F as (r & E & F). change (wal_get sample_wal (LSNCounter sample_wal - 2)) with
      (Some (mk_marked 0 [9])) in E. injection E as <-. exact F.
  - apply O. discriminate.
Defined.

(** a gap in the LSNs of the origin makes old records appear under new LSNs. The full
    log of the records 0, 1 and 2 accepts a record with the origin LSN 4 (the check asks only
    for an LSN not smaller than the counter); the log then serves the LSN 3, which nobody
    added, with the content and the server of the record 0. *)
Theorem wal_gap_serves_stale_record :
  let w := mk_wal [mk_marked 0 [9]; mk_marked 0 [10]; mk_marked 0 [12]] (mk_lsn 3) (mk 2 0) 3 0 None in
  wal_inv w 3 /\ wal_get w 3 = None /\
  exists w', add (PackedRec [13]) (mk 4 0) false lsn_empty w = (Ok (mk 4 0), w') /\
    size w' = 2 /\ wal_get w' 4 = Some (mk_marked 0 [13]) /\
    wal_get w 0 = Some (mk_marked 0 [9]) /\ wal_get w' 3 = Some (mk_marked 0 [9]) /\
    available (mk 3 0) false w' = Ok true.
Proof.
  intros w. split.
  { constructor; try done.
    - repeat constructor; cbn [m_server m_packed]; try lia.
      + exists (mk_rec WalNamespaceAdd P_none false). done.
      + exists (mk_rec WalNamespaceDrop P_none false). done.
      + exists (mk_rec WalInitTransaction P_none false). done.
    - right. change (LSNCounter w) with 3. cbn [w walSize_ walOffset_ records_].
      split_and!; [lia | lia | lia | reflexivity |]. intros i Hi.
      pose proof (Z.mod_pos_bound i 3). autorewrite with zlen. lia. }
  split; [reflexivity |]. eexists. split; [vm_compute; reflexivity |].
  split_and!; vm_compute; reflexivity.
Qed.
