(* ===== verification/Raft.v ===== *)
(** Elections of the cluster leader: [cluster/raftmanager.h] and [raftmanager.cc].

    [VotingManager] is a record with one function per method; times are nanoseconds, and every
    reading of the clock is an argument. [Election] is the state of one [RunElectionsRound],
    whose coroutines are the events of a step function: the network answers in any order. The
    network clients, the sleeps and the logs are not modelled. *)

From S2P Require Import Prelude.

(** ** Constants and messages: [cluster/consts.h], [cluster/config.h] *)

Definition kMs : Z := 1000000.
Definition kLeaderPingInterval : Z := 200 * kMs.
Definition kMinLeaderAwaitInterval : Z := kLeaderPingInterval * 5.
Definition kDesiredLeaderTimeout : Z := 10000 * kMs.

Definition GetConsensusForN (n : Z) : Z := n / 2 + 1.

Inductive Role : Set := RNone | Leader | Follower | Candidate.

#[export] Instance Role_eq_dec : EqDecision Role.
Proof. solve_decision. Defined.

Record NodeData : Set := mk_node { serverId : Z; electionsTerm : Z }.

(** ** [VotingManager] *)

Record VotingManager : Set := mk_vote {
  nextLeaderId : Z;          (* NextLeaderId::nextLeaderId_ *)
  startPoint : Z;            (* NextLeaderId::startPoint_ *)
  leaderId : Z;              (* VoteData, 16 bits *)
  role : Role;
  term : Z;
  lastLeaderPingTs : Z
}.

Definition vote_init : VotingManager := mk_vote (-1) 0 (-1) RNone 0 0.

Definition set_vote (l t : Z) (v : VotingManager) : VotingManager :=
  mk_vote (nextLeaderId v) (startPoint v) (s16 l) (role v) t (lastLeaderPingTs v).
Definition set_role (r : Role) (v : VotingManager) : VotingManager :=
  mk_vote (nextLeaderId v) (startPoint v) (leaderId v) r (term v) (lastLeaderPingTs v).
Definition set_ping (now : Z) (v : VotingManager) : VotingManager :=
  mk_vote (nextLeaderId v) (startPoint v) (leaderId v) (role v) (term v) now.
Definition set_next (id now : Z) (v : VotingManager) : VotingManager :=
  mk_vote id now (leaderId v) (role v) (term v) (lastLeaderPingTs v).

(** [NextLeaderId::GetNextLeaderId]: a desired leader expires. *)
Definition GetNextLeaderId (now : Z) (v : VotingManager) : Z * VotingManager :=
  let v := if negb (nextLeaderId v =? -1) && (kDesiredLeaderTimeout <? now - startPoint v)
           then set_next (-1) (startPoint v) v else v in
  (nextLeaderId v, v).

Definition is_leader (v : VotingManager) : bool := bool_decide (role v = Leader).

Definition leaderIsAvailable (now : Z) (v : VotingManager) : bool :=
  (now - lastLeaderPingTs v <? kMinLeaderAwaitInterval) || is_leader v.

(** [LeadersPing], with the three readings of the clock. *)
Definition LeadersPing (now1 now2 now3 : Z) (leader : NodeData) : M VotingManager unit :=
  v ← get;
  let '(next, v) := GetNextLeaderId now1 v in
  _ ← put v;
  if (0 <=? next) && negb (next =? serverId leader) then fail (Throw errLogic)
  else if is_leader v then fail (Throw errLogic)
  else if negb (leaderId v =? serverId leader) && leaderIsAvailable now2 v
  then fail (Throw errLogic)
  else put (set_ping now3 (set_vote (serverId leader) (electionsTerm leader) v)).

(** [SuggestLeader]: the response. *)
Definition SuggestLeader (now1 now2 : Z) (suggestion : NodeData) (v : VotingManager) :
    NodeData * VotingManager :=
  let '(next, v) := GetNextLeaderId now1 v in
  let v :=
    if term v <? electionsTerm suggestion then
      if negb (leaderIsAvailable now2 v) then
        let sId := if negb (next =? -1) then next else serverId suggestion in
        set_vote sId (electionsTerm suggestion) v
      else if negb (next =? -1) then set_vote next (electionsTerm suggestion) v
      else v
    else v in
  (mk_node (if negb (next =? -1) then next else leaderId v) (term v), v).

Definition SetDesiredLeaderId (now desiredLeaderId : Z) (v : VotingManager) : VotingManager :=
  set_ping 0 (set_next desiredLeaderId now v).

Definition GetDesiredLeaderId (now : Z) (v : VotingManager) : Z * VotingManager :=
  GetNextLeaderId now v.

Definition LeaderIsAvailable (now : Z) (v : VotingManager) : bool := leaderIsAvailable now v.

Definition GetLeaderId (v : VotingManager) : Z := leaderId v.

Definition TryToSetLeaderRoleInTerm (t : Z) (v : VotingManager) : bool * VotingManager :=
  if negb (term v =? t) then (false, v) else (true, set_role Leader v).

Definition SetFollowerRole (v : VotingManager) : VotingManager := set_role Follower v.

(** [StartNewTerm]: the increment of the 32-bit term must not overflow. *)
Definition StartNewTerm (presetLeaderId : Z) : M VotingManager (Z * Role) :=
  v ← get;
  if term v =? 2 ^ 31 - 1 then fail Undefined
  else
    let t := term v + 1 in
    _ ← put (set_role Candidate (set_vote presetLeaderId t v));
    mret (t, role v).

(** ** [RaftManager] *)

Section Manager.
Context (serverId_ : Z).

(** [beginElectionsTerm] *)
Definition beginElectionsTerm (presetLeader : Z) : M VotingManager Z :=
  r ← StartNewTerm (if 0 <=? presetLeader then presetLeader else serverId_); mret (fst r).

(** [endElections(term, roundBeg, Leader)] *)
Definition endElections_leader (t roundBeg now : Z) (v : VotingManager) : bool * VotingManager :=
  if 8 * kMinLeaderAwaitInterval <? 10 * (now - roundBeg) then (false, v)
  else TryToSetLeaderRoleInTerm t v.

(** [endElections(term, roundBeg, Follower)]: [now] is the time after the sleep. *)
Definition endElections_follower (now : Z) (v : VotingManager) : bool * VotingManager :=
  let v := SetFollowerRole v in (LeaderIsAvailable now v, v).
End Manager.

(** [isConsensus]: [n] is the number of the other nodes. *)
Definition isConsensus (n num : Z) : bool := GetConsensusForN (n + 1) <=? num.

(** [FollowersAreAvailable] *)
Definition FollowersAreAvailable (isOk : list bool) : bool :=
  isConsensus (zlen isOk) (zlen (filter (fun b => b = true) isOk) + 1).

(** *** One round of elections *)

Record Election : Set := mk_el {
  e_nodes : Z;                (* nodes_.size() *)
  e_term : Z;
  e_beg : Z;                  (* roundBeg *)
  e_desired : bool;           (* isDesiredLeader *)
  e_waiting : list Z;         (* coroutines that wait for the answer to the suggestion *)
  e_suspended : list Z;       (* succeedRoutines *)
  e_pinging : list Z;         (* coroutines that wait for the answer to the ping *)
  e_votes : list Z;           (* the nodes counted in succeedPhase1, besides this one *)
  e_failed : Z;
  e_acks : list Z;            (* the nodes counted in succeedPhase2, besides this one *)
  e_role : Role;              (* result *)
  e_result : option Role;     (* roundResult *)
  e_voting : VotingManager
}.

Definition succeedPhase1 (e : Election) : Z := 1 + zlen (e_votes e).
Definition succeedPhase2 (e : Election) : Z := 1 + zlen (e_acks e).

(** The round begins: a suggestion is sent to every node. *)
Definition el_start (n t beg : Z) (desired : bool) (v : VotingManager) : Election :=
  mk_el n t beg desired (seqZ 0 n) [] [] [] 0 [] (if n =? 0 then Leader else Follower) None v.

(** The beginning of [RunElectionsRound]: with another desired leader the server becomes a
    follower without elections ([later] is the time after the sleep). *)
Definition begin_round (serverId_ n beg now later : Z) (v : VotingManager) :
    result (Role + Election) * VotingManager :=
  let '(next, v) := GetDesiredLeaderId now v in
  let desired := next =? serverId_ in
  if negb desired && negb (next =? -1) then
    (Ok (inl Follower), snd (endElections_follower later v))
  else
    match beginElectionsTerm serverId_ next v with
    | (Ok t, v) => (Ok (inr (el_start n t beg desired v)), v)
    | (Fail f, v) => (Fail f, v)
    end.

(** What happens: an answer to a suggestion (with what the coroutines of the nodes that go on then
    read from the clock), an answer to a ping, the end of the round (with the time after the sleep
    of a follower), or another request that changes the votes. *)
Inductive event : Set :=
| EvSuggested (node : Z) (succeed : bool) (clock : Z -> Z) (now : Z)
| EvPinged (node : Z) (ok : bool) (now : Z)
| EvEnd (now later : Z)
| EvVoting (v : VotingManager).

(** The check before the ping of the second phase. *)
Definition second_phase (now : Z) (e : Election) : bool :=
  let available := negb (e_desired e) && LeaderIsAvailable now (e_voting e) in
  negb (available || negb (isConsensus (e_nodes e) (succeedPhase1 e))).

(** The loop over [wg.wait_next()] after a coroutine ended. *)
Definition after_wait (now : Z) (e : Election) : Election :=
  match e_result e with
  | Some _ => e
  | None =>
      if isConsensus (e_nodes e) (succeedPhase2 e) then
        let '(ok, v) := endElections_leader (e_term e) (e_beg e) now (e_voting e) in
        mk_el (e_nodes e) (e_term e) (e_beg e) (e_desired e) (e_waiting e) (e_suspended e)
          (e_pinging e) (e_votes e) (e_failed e) (e_acks e) Leader
          (if ok then Some Leader else None) v
      else e
  end.

(** The coroutines that go on after a suggestion: each reads the clock, and pings its node or
    ends. *)
Definition go_on (clock : Z -> Z) (now : Z) (nodes : list Z) (e : Election) : Election :=
  let pinging := filter (fun node => second_phase (clock node) e = true) nodes in
  let e' :=
    mk_el (e_nodes e) (e_term e) (e_beg e) (e_desired e) (e_waiting e) (e_suspended e)
      (e_pinging e ++ pinging) (e_votes e) (e_failed e) (e_acks e) (e_role e) (e_result e) (e_voting e) in
  if forallb (fun node => second_phase (clock node) e) nodes then e' else after_wait now e'.

Definition on_suggested (node : Z) (succeed : bool) (clock : Z -> Z) (now : Z) (e : Election) : Election :=
  let votes := if succeed then e_votes e ++ [node] else e_votes e in
  let failed := if succeed then e_failed e else e_failed e + 1 in
  let waiting := filter (fun x => x <> node) (e_waiting e) in
  let upd suspended :=
    mk_el (e_nodes e) (e_term e) (e_beg e) (e_desired e) waiting suspended (e_pinging e)
      votes failed (e_acks e) (e_role e) (e_result e) (e_voting e) in
  if (failed + (1 + zlen votes) =? e_nodes e + 1) || ((e_nodes e + 1) / 2 <? 1 + zlen votes) then
    let e' := go_on clock now (e_suspended e ++ (if succeed then [node] else [])) (upd []) in
    if succeed then e' else after_wait now e'
  else if succeed then upd (e_suspended e ++ [node])
  else after_wait now (upd (e_suspended e)).

Definition on_pinged (node : Z) (ok : bool) (now : Z) (e : Election) : Election :=
  after_wait now
    (mk_el (e_nodes e) (e_term e) (e_beg e) (e_desired e) (e_waiting e) (e_suspended e)
       (filter (fun x => x <> node) (e_pinging e)) (e_votes e) (e_failed e)
       (if ok then e_acks e ++ [node] else e_acks e) (e_role e) (e_result e) (e_voting e)).

Definition on_end (now later : Z) (e : Election) : Election :=
  match e_result e with
  | Some _ => e
  | None =>
      let '(ok, v) := if decide (e_role e = Leader)
                      then endElections_leader (e_term e) (e_beg e) now (e_voting e)
                      else endElections_follower later (e_voting e) in
      mk_el (e_nodes e) (e_term e) (e_beg e) (e_desired e) (e_waiting e) (e_suspended e)
        (e_pinging e) (e_votes e) (e_failed e) (e_acks e) (e_role e)
        (if ok then Some (e_role e) else None) v
  end.

(** A step of the round: [None] when the event is not possible. *)
Definition el_step (e : Election) (ev : event) : option Election :=
  match ev with
  | EvSuggested node succeed clock now =>
      if decide (node ∈ e_waiting e) then Some (on_suggested node succeed clock now e) else None
  | EvPinged node ok now =>
      if decide (node ∈ e_pinging e) then Some (on_pinged node ok now e) else None
  | EvEnd now later =>
      if decide (e_waiting e = [] /\ e_suspended e = [] /\ e_pinging e = [])
      then Some (on_end now later e) else None
  | EvVoting v =>
      Some (mk_el (e_nodes e) (e_term e) (e_beg e) (e_desired e) (e_waiting e) (e_suspended e)
              (e_pinging e) (e_votes e) (e_failed e) (e_acks e) (e_role e) (e_result e) v)
  end.

Fixpoint el_run (e : Election) (evs : list event) : option Election :=
  match evs with
  | [] => Some e
  | ev :: evs => e ← el_step e ev; el_run e evs
  end.

(** *** Sending the desired leader *)

(** The answers of a node: to the status request, and to the desired leader. *)
Record Answer : Set := mk_answer { a_status : option ErrorCode; a_set : option ErrorCode }.

Definition sendDesiredServerIdToNode (a : Answer) : option ErrorCode :=
  match a_status a with Some err => Some err | None => a_set a end.

(** [startClients]: the index of the next leader among the nodes; the last one with its id. *)
Definition next_index (serverIds : list Z) (next : Z) : Z :=
  fst (foldl (fun '(r, i) id => (if id =? next then i else r, i + 1)) (zlen serverIds, 0) serverIds).

Definition DesiredLeaderIdSender_Send (serverIds : list Z) (next : Z) (probe : option ErrorCode)
    (answers : list Answer) : option ErrorCode :=
  let n := zlen serverIds in
  let idx := next_index serverIds next in
  let thisNodeIsNext := idx =? n in
  match (if negb thisNodeIsNext then probe else None) with
  | Some err => Some err
  | None =>
      let others := take (Z.to_nat idx) answers ++ drop (Z.to_nat (idx + 1)) answers in
      let okCount := 1 + zlen (filter (fun a => sendDesiredServerIdToNode a = None) others) in
      let last := if negb thisNodeIsNext then
                    match znth answers idx with
                    | Some a => sendDesiredServerIdToNode a
                    | None => None
                    end
                  else None in
      match last with
      | Some err => Some err
      | None =>
          let okCount := if negb thisNodeIsNext then okCount + 1 else okCount in
          if okCount <? GetConsensusForN (n + 1) then Some errNetwork else None
      end
  end.

(** ** The life of a voter *)

Inductive op : Set :=
| OpPing (now1 now2 now3 : Z) (leader : NodeData)
| OpSuggest (now1 now2 : Z) (suggestion : NodeData)
| OpGetDesired (now : Z)
| OpSetDesired (now id : Z)
| OpStartTerm (preset : Z)
| OpTryLeader (t : Z)
| OpFollower.

Definition voter_step (o : op) (v : VotingManager) : VotingManager :=
  match o with
  | OpPing n1 n2 n3 leader => snd (LeadersPing n1 n2 n3 leader v)
  | OpSuggest n1 n2 s => snd (SuggestLeader n1 n2 s v)
  | OpGetDesired now => snd (GetDesiredLeaderId now v)
  | OpSetDesired now id => SetDesiredLeaderId now id v
  | OpStartTerm preset => snd (StartNewTerm preset v)
  | OpTryLeader t => snd (TryToSetLeaderRoleInTerm t v)
  | OpFollower => SetFollowerRole v
  end.

Definition voter_run (os : list op) (v : VotingManager) : VotingManager :=
  foldl (fun v o => voter_step o v) v os.

(** The clock readings of a run never go back: [clock t os t'] starts at [t] and ends at [t']. *)
Fixpoint clock (t : Z) (os : list op) (t' : Z) : Prop :=
  match os with
  | [] => t <= t'
  | OpPing n1 n2 n3 _ :: os => t <= n1 /\ n1 <= n2 /\ n2 <= n3 /\ clock n3 os t'
  | OpSuggest n1 n2 _ :: os => t <= n1 /\ n1 <= n2 /\ clock n2 os t'
  | OpGetDesired n :: os | OpSetDesired n _ :: os => t <= n /\ clock n os t'
  | _ :: os => clock t os t'
  end.

(** Nobody asks for a desired leader, and the terms are started for this server itself. *)
Definition plain (self : Z) (o : op) : Prop :=
  match o with
  | OpSetDesired _ _ => False
  | OpStartTerm preset => preset = self
  | _ => True
  end.

Definition id_ok (id : Z) : Prop := 0 <= id <= 999.

Lemma id_s16 id : id_ok id -> s16 id = id.
Proof. intros [? ?]. unfold s16. apply swrap_id; [done |]. change (2 ^ (16 - 1)) with 32768. lia. Qed.

Lemma GetNextLeaderId_none now v : nextLeaderId v = -1 -> GetNextLeaderId now v = (-1, v).
Proof. intros E. unfold GetNextLeaderId. rewrite E. cbn. by rewrite E. Qed.

(** Without a desired leader, [LeadersPing] and [SuggestLeader] are simple. *)
Lemma LeadersPing_plain n1 n2 n3 l v :
  nextLeaderId v = -1 ->
  LeadersPing n1 n2 n3 l v =
    if is_leader v || (negb (leaderId v =? serverId l) && leaderIsAvailable n2 v)
    then (Fail (Throw errLogic), v)
    else (Ok tt, set_ping n3 (set_vote (serverId l) (electionsTerm l) v)).
Proof.
  intros E. unfold LeadersPing. rewrite M_bind_get, GetNextLeaderId_none by done.
  rewrite M_bind_put. cbn [Z.leb andb]. change (0 <=? -1) with false. cbn [andb].
  destruct (is_leader v); [done |]. by destruct (_ && _).
Qed.

Lemma SuggestLeader_plain n1 n2 s v :
  nextLeaderId v = -1 ->
  SuggestLeader n1 n2 s v =
    let v' := if (term v <? electionsTerm s) && negb (leaderIsAvailable n2 v)
              then set_vote (serverId s) (electionsTerm s) v else v in
    (mk_node (leaderId v') (term v'), v').
Proof.
  intros E. unfold SuggestLeader. rewrite GetNextLeaderId_none by done.
  change (-1 =? -1) with true. cbn [negb].
  destruct (term v <? electionsTerm s); [| done]. by destruct (leaderIsAvailable n2 v).
Qed.

(** *** The lease of a leader *)

Section Lease.
Context (self A tA : Z) (Hself : id_ok self) (HA : id_ok A).

(** After a ping of [A] was accepted at [tA]; [t] bounds the later clock readings. *)
Definition leased (t : Z) (v : VotingManager) : Prop :=
  nextLeaderId v = -1 /\ tA <= lastLeaderPingTs v /\
  (t < tA + kMinLeaderAwaitInterval -> leaderId v = A \/ leaderId v = self).

Lemma leased_mono t t' v : t <= t' -> leased t v -> leased t' v.
Proof. intros Ht (H1 & H2 & H3). split_and!; [done | done |]. intros. apply H3. lia. Qed.

Lemma not_available_late t now v :
  leased t v -> leaderIsAvailable now v = false -> tA + kMinLeaderAwaitInterval <= now.
Proof.
  intros (_ & H & _) E. unfold leaderIsAvailable in E. apply orb_false_iff in E as [E _].
  apply Z.ltb_ge in E. lia.
Qed.

Lemma leased_ping t n1 n2 n3 l v :
  leased t v -> t <= n1 -> n1 <= n2 -> n2 <= n3 -> tA <= n1 ->
  leased n3 (snd (LeadersPing n1 n2 n3 l v)).
Proof.
  intros HL Ht1 Ht2 Ht3 Ht4. pose proof HL as (L1 & L2 & L3). rewrite LeadersPing_plain by done.
  destruct (is_leader v); cbn [orb snd]; [apply (leased_mono t); [lia | done] |].
  destruct (Z.eqb_spec (leaderId v) (serverId l)) as [E | E]; cbn [negb andb].
  - split_and!; [done | cbn; lia |]. intros Ht.
    unfold set_ping, set_vote. cbn [leaderId]. rewrite <- E.
    destruct L3 as [-> | ->]; [lia | left; by apply id_s16 | right; by apply id_s16].
  - destruct (leaderIsAvailable n2 v) eqn:Ea; cbn [snd]; [apply (leased_mono t); [lia | done] |].
    pose proof (not_available_late t n2 v HL Ea). split_and!; [done | cbn; lia | lia].
Qed.

Lemma leased_suggest t n1 n2 s v :
  leased t v -> t <= n1 -> n1 <= n2 -> leased n2 (snd (SuggestLeader n1 n2 s v)).
Proof.
  intros HL Ht1 Ht2. pose proof HL as (L1 & L2 & L3). rewrite SuggestLeader_plain by done. cbn [snd].
  destruct (leaderIsAvailable n2 v) eqn:Ea; cbn [negb];
    [rewrite andb_false_r; apply (leased_mono t); [lia | done] |].
  destruct (_ <? _); [| apply (leased_mono t); [lia | done]].
  pose proof (not_available_late t n2 v HL Ea). split_and!; [done | done | lia].
Qed.

Lemma leased_run os : forall t t' v,
  leased t v -> tA <= t -> clock t os t' -> Forall (plain self) os ->
  leased t' (voter_run os v) /\ t <= t'.
Proof.
  induction os as [| o os IH]; intros t t' v HL HtA Hc Hp.
  { cbn in *. split; [by apply (leased_mono t) | done]. }
  apply Forall_cons in Hp as [Ho Hp]. cbn [voter_run foldl].
  fold (voter_run os (voter_step o v)). pose proof HL as (L1 & L2 & L3).
  destruct o; cbn [clock plain voter_step] in *; try done.
  - destruct Hc as (? & ? & ? & Hc).
    assert (leased now3 (snd (LeadersPing now1 now2 now3 leader v))) as HL'
      by (apply (leased_ping t); (done || lia)).
    destruct (IH now3 t' _ HL') as [? ?]; [lia | done | done |]. split; [done | lia].
  - destruct Hc as (? & ? & Hc).
    assert (leased now2 (snd (SuggestLeader now1 now2 suggestion v))) as HL'
      by (apply (leased_suggest t); (done || lia)).
    destruct (IH now2 t' _ HL') as [? ?]; [lia | done | done |]. split; [done | lia].
  - destruct Hc as (Ht & Hc). unfold GetDesiredLeaderId. rewrite GetNextLeaderId_none by done.
    destruct (IH now t' v (leased_mono _ _ _ Ht HL) ltac:(lia) Hc Hp).
    split; [done | lia].
  - apply (IH t t'); try done. subst preset. unfold StartNewTerm. rewrite M_bind_get.
    case_match; [done |]. rewrite M_bind_put. cbn. split_and!; [done | done |].
    intros _. right. by apply id_s16.
  - apply (IH t t'); try done. unfold TryToSetLeaderRoleInTerm. by case_match.
  - by apply (IH t t').
Qed.
End Lease.

(** *** The vote of a term *)

(** A request that is not an accepted ping or a new desired leader. *)
Definition quiet (o : op) (v : VotingManager) : Prop :=
  match o with
  | OpPing n1 n2 n3 l => fst (LeadersPing n1 n2 n3 l v) <> Ok tt
  | OpSetDesired _ _ => False
  | _ => True
  end.

Fixpoint quiet_run (os : list op) (v : VotingManager) : Prop :=
  match os with [] => True | o :: os => quiet o v /\ quiet_run os (voter_step o v) end.

(** The term grows, or the leader of the term stays. *)
Definition vote_le (v v' : VotingManager) : Prop :=
  nextLeaderId v' = -1 /\ term v <= term v' /\ (term v = term v' -> leaderId v = leaderId v').

Lemma vote_le_refl v : nextLeaderId v = -1 -> vote_le v v.
Proof. done. Qed.

Lemma vote_le_trans v1 v2 v3 : vote_le v1 v2 -> vote_le v2 v3 -> vote_le v1 v3.
Proof. intros (? & ? & H1) (? & ? & H2). split_and!; [done | lia |]. intros. rewrite H1; [apply H2 |]; lia. Qed.

Lemma quiet_step o v : nextLeaderId v = -1 -> quiet o v -> vote_le v (voter_step o v).
Proof.
  intros Hn Hq. destruct o; cbn [voter_step quiet] in *; try done.
  - rewrite LeadersPing_plain in * by done. destruct (_ || _); [by apply vote_le_refl | done].
  - rewrite SuggestLeader_plain by done. cbn [snd].
    destruct (Z.ltb_spec (term v) (electionsTerm suggestion)); cbn [andb]; [| by apply vote_le_refl].
    destruct (negb _); [| by apply vote_le_refl]. split_and!; [done | cbn; lia | cbn; lia].
  - unfold GetDesiredLeaderId. by rewrite GetNextLeaderId_none.
  - unfold StartNewTerm. rewrite M_bind_get. case_match; [by apply vote_le_refl |].
    rewrite M_bind_put. split_and!; [done | cbn; lia | cbn; lia].
  - unfold TryToSetLeaderRoleInTerm. by case_match.
Qed.

Lemma quiet_run_le os : forall v, nextLeaderId v = -1 -> quiet_run os v -> vote_le v (voter_run os v).
Proof.
  induction os as [| o os IH]; intros v Hn; [intros _; by apply vote_le_refl |]. intros [Hq Hr].
  pose proof (quiet_step o v Hn Hq) as H1. eapply vote_le_trans; [exact H1 |].
  apply IH; [apply H1 | done].
Qed.

(** *** The counters of a round *)

Definition sent_votes (e : Election) : list Z := e_suspended e ++ e_pinging e ++ e_acks e.

Record el_inv (e : Election) : Prop := {
  ei_nodup : NoDup (e_waiting e ++ e_votes e);
  ei_nodes : Forall (fun x => 0 <= x < e_nodes e) (e_waiting e ++ e_votes e);
  ei_sent_nodup : NoDup (sent_votes e);
  ei_sent : sent_votes e ⊆ e_votes e;
  ei_acks : e_pinging e ++ e_acks e <> [] -> isConsensus (e_nodes e) (succeedPhase1 e) = true;
  ei_role : e_role e = Leader -> isConsensus (e_nodes e) (succeedPhase2 e) = true;
  ei_result : e_result e = Some Leader -> e_role e = Leader
}.

Lemma isConsensus_majority n a : isConsensus n a = true -> n + 1 < 2 * a.
Proof. unfold isConsensus, GetConsensusForN. rewrite Z.leb_le. dlia. Qed.

Lemma isConsensus_mono n a b : a <= b -> isConsensus n a = true -> isConsensus n b = true.
Proof. unfold isConsensus. rewrite !Z.leb_le. lia. Qed.

Lemma el_start_inv n t beg d v : 0 <= n -> el_inv (el_start n t beg d v).
Proof.
  intros Hn. unfold el_start. constructor; cbn -[isConsensus]; rewrite ?app_nil_r.
  - apply NoDup_seqZ.
  - apply Forall_forall. intros x Hx. apply elem_of_seqZ in Hx. lia.
  - constructor.
  - set_solver.
  - done.
  - destruct (Z.eqb_spec n 0) as [-> |]; [done | done].
  - done.
Qed.

Lemma after_wait_inv now e : el_inv e -> el_inv (after_wait now e).
Proof.
  intros He. unfold after_wait. destruct (e_result e); [done |].
  destruct (isConsensus _ (succeedPhase2 e)) eqn:Ec; [| done].
  destruct (endElections_leader _ _ _ _) as [ok v]. destruct He. by constructor.
Qed.

Lemma go_on_inv clock now nodes e :
  el_inv (mk_el (e_nodes e) (e_term e) (e_beg e) (e_desired e) (e_waiting e)
    (e_suspended e ++ nodes) (e_pinging e) (e_votes e) (e_failed e) (e_acks e) (e_role e)
    (e_result e) (e_voting e)) ->
  el_inv (go_on clock now nodes e).
Proof.
  unfold sent_votes. intros [H1 H2 H3 H4 H5 H6 H7]. unfold sent_votes in *. cbn in H1, H2, H3, H4.
  unfold go_on. set (pinging := filter _ nodes).
  assert (e_suspended e ++ (e_pinging e ++ pinging) ++ e_acks e ⊆+ (e_suspended e ++ nodes) ++ e_pinging e ++ e_acks e) as P.
  { rewrite <- !app_assoc. apply submseteq_skips_l. rewrite !app_assoc. apply submseteq_skips_r.
    rewrite Permutation_app_comm. apply submseteq_skips_r, sublist_submseteq, sublist_filter. }
  set (e' := mk_el _ _ _ _ _ _ _ _ _ _ _ _ _). assert (el_inv e') as He.
  { constructor; try done; unfold sent_votes; cbn -[isConsensus].
    - apply submseteq_Permutation in P as [k P]. rewrite P in H3. by apply NoDup_app in H3 as [H3 _].
    - intros x Hx. apply H4. by eapply elem_of_submseteq.
    - intros Hne. destruct (decide (e_pinging e ++ e_acks e = [])) as [E |]; [| by apply H5].
      apply app_eq_nil in E as [E1 E2]. rewrite E1, E2, app_nil_r in Hne. cbn [app] in Hne.
      destruct pinging as [| x l] eqn:Ep; [done |]. assert (x ∈ pinging) as Hx by (rewrite Ep; left).
      apply list_elem_of_filter in Hx as [E _]. unfold second_phase in E. apply negb_true_iff, orb_false_iff in E as [_ E].
      by apply negb_false_iff in E. }
  destruct (forallb _ nodes); [done | by apply after_wait_inv].
Qed.

(** The round after an answer to a suggestion, before the coroutine goes on. *)
Definition answered (node : Z) (succeed : bool) (suspended : list Z) (e : Election) : Election :=
  mk_el (e_nodes e) (e_term e) (e_beg e) (e_desired e)
    (filter (fun x => x <> node) (e_waiting e)) suspended (e_pinging e)
    (if succeed then e_votes e ++ [node] else e_votes e)
    (if succeed then e_failed e else e_failed e + 1)
    (e_acks e) (e_role e) (e_result e) (e_voting e).

Lemma answered_inv node succeed e :
  el_inv e -> node ∈ e_waiting e ->
  el_inv (answered node succeed (e_suspended e ++ (if succeed then [node] else [])) e).
Proof.
  intros [H1 H2 H3 H4 H5 H6 H7] Hn.
  assert (NoDup (e_waiting e)) as Hw by (apply NoDup_app in H1; apply H1).
  pose proof (filter_ne_perm _ _ Hw Hn) as P. set (w := filter _ _) in *.
  rewrite P in H1, H2. cbn [app] in H1, H2. apply NoDup_cons in H1 as [Hx H1].
  apply Forall_cons in H2 as [Hb H2].
  assert (node ∉ e_votes e) as Hv by set_solver.
  constructor; unfold answered, sent_votes, succeedPhase1, succeedPhase2; cbn -[isConsensus];
    destruct succeed; rewrite ?app_nil_r; try done; fold w.
  - rewrite app_assoc, (Permutation_app_comm _ [node]). cbn. by apply NoDup_cons.
  - rewrite app_assoc, (Permutation_app_comm _ [node]). cbn. by apply Forall_cons.
  - rewrite <- app_assoc, (Permutation_app_comm [node]), !app_assoc, (Permutation_app_comm _ [node]).
    cbn. apply NoDup_cons. unfold sent_votes in H3, H4. rewrite <- app_assoc. split; [set_solver | done].
  - unfold sent_votes in H4. set_solver.
  - intros Hne. eapply isConsensus_mono; [| by apply H5]. unfold succeedPhase1.
    autorewrite with zlen. lia.
Qed.

Lemma on_suggested_inv node succeed clock now e :
  el_inv e -> node ∈ e_waiting e -> el_inv (on_suggested node succeed clock now e).
Proof.
  intros He Hn. pose proof (answered_inv node succeed e He Hn) as Ha.
  unfold on_suggested. cbv zeta. fold (answered node succeed [] e).
  fold (answered node succeed (e_suspended e ++ [node]) e).
  fold (answered node succeed (e_suspended e) e).
  destruct (_ || _).
  - assert (el_inv (go_on clock now (e_suspended e ++ (if succeed then [node] else []))
      (answered node succeed [] e))) as Hg by (by apply go_on_inv).
    destruct succeed; [done | by apply after_wait_inv].
  - destruct succeed; [done |]. rewrite app_nil_r in Ha. by apply after_wait_inv.
Qed.

Lemma on_pinged_inv node ok now e :
  el_inv e -> node ∈ e_pinging e -> el_inv (on_pinged node ok now e).
Proof.
  intros [H1 H2 H3 H4 H5 H6 H7] Hn. unfold on_pinged. apply after_wait_inv.
  assert (NoDup (e_pinging e)) as Hp.
  { unfold sent_votes in H3. apply NoDup_app in H3 as (_ & _ & H3). apply NoDup_app in H3. apply H3. }
  assert (isConsensus (e_nodes e) (succeedPhase1 e) = true) as Hc
    by (apply H5; intros E; apply app_eq_nil in E as [E _]; rewrite E in Hn; set_solver).
  pose proof (filter_ne_perm _ _ Hp Hn) as P.
  constructor; unfold sent_votes, succeedPhase2 in *; cbn -[isConsensus]; try done.
  - set (q := filter _ _) in *. rewrite P in H3. destruct ok.
    + rewrite (Permutation_app_comm (e_acks e)). cbn. by rewrite <- Permutation_middle.
    + cbn in H3. rewrite <- Permutation_middle in H3. by apply NoDup_cons in H3 as [_ H3].
  - set (q := filter _ _) in *. rewrite P in H4. destruct ok; set_solver.
  - intros Hr. eapply isConsensus_mono; [| by apply H6]. destruct ok; autorewrite with zlen; lia.
Qed.

Lemma on_end_inv now later e : el_inv e -> el_inv (on_end now later e).
Proof.
  intros He. unfold on_end. destruct (e_result e); [done |].
  destruct (if decide _ then _ else _) as [ok v]. destruct He. constructor; try done.
  cbn. by destruct ok; intros [= ->].
Qed.

Lemma el_run_inv evs : forall e e', el_inv e -> el_run e evs = Some e' -> el_inv e'.
Proof.
  induction evs as [| ev evs IH]; intros e e' He; cbn [el_run]; [by intros [= <-] |].
  destruct (el_step e ev) as [e1 |] eqn:E; [| done]. cbn [mbind option_bind]. apply IH.
  destruct ev; cbn [el_step] in E.
  - case_decide; [| done]. injection E as <-. by apply on_suggested_inv.
  - case_decide; [| done]. injection E as <-. by apply on_pinged_inv.
  - case_decide; [| done]. injection E as <-. by apply on_end_inv.
  - injection E as <-. destruct He. by constructor.
Qed.

(** ** Properties *)

(** C24: the lease of a leader. After a server without a desired leader accepted a ping of the
    leader [A], and as long as nobody sets a desired leader (which ends the lease at once) and the
    terms that it starts are for itself, it accepts no ping of another leader and gives no vote to
    another server for [kMinLeaderAwaitInterval], except that it may vote for itself in the terms
    that it starts: whatever requests it serves and elections it begins, in any order, with a clock
    that does not go back. *)
Theorem raft_lease self v v1 a1 a2 a3 A os b1 b2 b3 B :
  nextLeaderId v = -1 -> id_ok self -> id_ok (serverId A) ->
  serverId B <> serverId A -> serverId B <> self ->
  LeadersPing a1 a2 a3 A v = (Ok tt, v1) ->
  Forall (plain self) os -> clock a3 os b1 -> b1 <= b2 ->
  b2 < a3 + kMinLeaderAwaitInterval ->
  fst (LeadersPing b1 b2 b3 B (voter_run os v1)) = Fail (Throw errLogic) /\
  (forall s, serverId s = serverId B ->
     serverId (fst (SuggestLeader b1 b2 s (voter_run os v1))) <> serverId B).
Proof.
  intros Hn Hself HA HBA HBs EA Hp Hc Hb Hlt.
  assert (leased self (serverId A) a3 a3 v1) as HL.
  { rewrite LeadersPing_plain in EA by done. destruct (_ || _); [done |]. injection EA as <-.
    split_and!; [done | cbn; lia |]. intros _. left. by apply id_s16. }
  destruct (leased_run self (serverId A) a3 Hself HA os a3 b1 v1 HL ltac:(lia) Hc Hp) as [HL' _].
  set (v2 := voter_run os v1) in *. pose proof HL' as (H1 & H2 & H3).
  assert (leaderIsAvailable b2 v2 = true) as Ea.
  { destruct (leaderIsAvailable b2 v2) eqn:Ea; [done |].
    pose proof (not_available_late self (serverId A) a3 b1 b2 v2 HL' Ea). lia. }
  destruct (H3 ltac:(lia)) as [El | El].
  all: rewrite LeadersPing_plain, Ea, El by done; split.
  all: try (rewrite (proj2 (Z.eqb_neq _ _)) by done; cbn [negb andb]; by rewrite orb_true_r).
  all: intros s Es; rewrite SuggestLeader_plain, Ea by done; cbn [negb]; rewrite andb_false_r.
  all: cbn; rewrite El; done.
Qed.

Lemma raft_lease_witness :
  let A := mk_node 1 5 in let B := mk_node 2 7 in
  let v1 := snd (LeadersPing 5000000000 5000000000 5000000000 A vote_init) in
  fst (LeadersPing 5500000000 5500000000 5500000000 B
         (voter_run [OpSuggest 5200000000 5200000000 B] v1)) = Fail (Throw errLogic).
Proof.
  intros A B v1.
  apply (raft_lease 3 vote_init v1 5000000000 5000000000 5000000000 A
    [OpSuggest 5200000000 5200000000 B] 5500000000 5500000000 5500000000 B);
    try reflexivity; try discriminate; unfold id_ok; cbn; try lia.
  repeat constructor.
Defined.

(** C23: one vote per term. Between two suggestions that a server without a desired leader answers
    in the same term it names the same leader, as long as it neither accepts a ping of a leader nor
    gets a desired leader in between; it may answer other suggestions, start terms, change its role
    and refuse pings. Terms never go back, and the leader of a term does not change. *)
Theorem raft_vote_once v s1 n1 n2 os s2 m1 m2 :
  nextLeaderId v = -1 ->
  let '(r1, v1) := SuggestLeader n1 n2 s1 v in
  quiet_run os v1 ->
  let '(r2, v2) := SuggestLeader m1 m2 s2 (voter_run os v1) in
  electionsTerm r1 <= electionsTerm r2 /\
  (electionsTerm r1 = electionsTerm r2 -> serverId r1 = serverId r2).
Proof.
  intros Hn. destruct (SuggestLeader n1 n2 s1 v) as [r1 v1] eqn:E1. intros Hq.
  destruct (SuggestLeader m1 m2 s2 _) as [r2 v2] eqn:E2.
  pose proof (quiet_step (OpSuggest n1 n2 s1) v Hn I) as V1. cbn [voter_step] in V1.
  rewrite E1 in V1. cbn [snd] in V1. pose proof (quiet_run_le os v1 (proj1 V1) Hq) as V2.
  pose proof (quiet_step (OpSuggest m1 m2 s2) _ (proj1 V2) I) as V3. cbn [voter_step] in V3.
  rewrite E2 in V3. pose proof (vote_le_trans _ _ _ V2 V3) as (_ & Ht & Hl).
  rewrite SuggestLeader_plain in E1 by done. rewrite SuggestLeader_plain in E2 by apply V2.
  cbv zeta in E1, E2. injection E1 as <- <-. injection E2 as <- <-. done.
Qed.

Lemma raft_vote_once_witness :
  let v1 := snd (SuggestLeader 5000000000 5000000000 (mk_node 1 3) vote_init) in
  serverId (fst (SuggestLeader 5000000000 5000000000 (mk_node 1 3) vote_init)) =
  serverId (fst (SuggestLeader 6000000000 6000000000 (mk_node 2 3) v1)).
Proof.
  pose proof (raft_vote_once vote_init (mk_node 1 3) 5000000000 5000000000 [] (mk_node 2 3)
    6000000000 6000000000 eq_refl I) as [_ H]. apply H. reflexivity.
Defined.

(** C22: a leader has a quorum. However the answers of the other [n] servers are ordered, and
    whatever happens to the votes of this server meanwhile, a round that ends with the role of
    the leader has the accepted pings of distinct servers, which with this one are a majority of
    the [n + 1] servers; every one of them had voted for it in the first phase, and pings are
    only sent after the first phase reached a majority. *)
Theorem raft_leader_has_quorum n t beg desired v evs e :
  0 <= n -> el_run (el_start n t beg desired v) evs = Some e ->
  NoDup (e_votes e) /\ NoDup (e_acks e) /\ e_acks e ⊆ e_votes e /\
  Forall (fun x => 0 <= x < e_nodes e) (e_votes e) /\
  (e_acks e <> [] -> e_nodes e + 1 < 2 * (1 + zlen (e_votes e))) /\
  (e_result e = Some Leader -> e_nodes e + 1 < 2 * (1 + zlen (e_acks e))).
Proof.
  intros Hn Hr. destruct (el_run_inv _ _ _ (el_start_inv n t beg desired v Hn) Hr).
  unfold sent_votes in *. split_and!.
  - apply NoDup_app in ei_nodup0. apply ei_nodup0.
  - apply NoDup_app in ei_sent_nodup0 as (_ & _ & H). apply NoDup_app in H. apply H.
  - set_solver.
  - apply Forall_app in ei_nodes0. apply ei_nodes0.
  - intros Ha. apply isConsensus_majority, ei_acks0. intros E. by apply app_eq_nil in E as [_ E].
  - intros He. by apply isConsensus_majority, ei_role0, ei_result0.
Qed.

Lemma raft_leader_has_quorum_witness :
  let v := snd (StartNewTerm 0 vote_init) in
  exists e, el_run (el_start 2 1 0 false v)
              [EvSuggested 1 true (fun _ => 10000000000) 10000000000; EvPinged 1 true 700000000] = Some e /\
    e_result e = Some Leader /\ e_nodes e + 1 < 2 * (1 + zlen (e_acks e)).
Proof.
  intros v. eexists. split; [vm_compute; reflexivity |]. split; [reflexivity |].
  apply (raft_leader_has_quorum 2 1 0 false v
    [EvSuggested 1 true (fun _ => 10000000000) 10000000000; EvPinged 1 true 700000000]);
    [discriminate | vm_compute; reflexivity | reflexivity].
Defined.

(** majorities meet. Two sets of the servers of a cluster that both reach
    [GetConsensusForN] have a common server, also when some of the servers of the cluster are in
    neither of them. *)
Theorem raft_quorums_meet (servers q1 q2 : list Z) :
  NoDup q1 -> NoDup q2 -> q1 ⊆ servers -> q2 ⊆ servers ->
  GetConsensusForN (zlen servers) <= zlen q1 -> GetConsensusForN (zlen servers) <= zlen q2 ->
  exists s, s ∈ q1 /\ s ∈ q2.
Proof.
  intros N1 N2 S1 S2 C1 C2. unfold GetConsensusForN in *.
  destruct (decide (Exists (fun s => s ∈ q2) q1)) as [He | Hne].
  - apply Exists_exists in He as (s & ? & ?). by exists s.
  - exfalso. assert (NoDup (q1 ++ q2)) as N.
    { apply NoDup_app. split_and!; [done | | done]. intros s H1 H2. apply Hne, Exists_exists. by exists s. }
    assert (q1 ++ q2 ⊆+ servers) as Hs by (apply NoDup_submseteq; [done | set_solver]).
    apply submseteq_length in Hs. rewrite length_app in Hs. unfold zlen in *. dlia.
Qed.

Lemma raft_quorums_meet_witness :
  exists s, s ∈ [1; 2; 3] /\ s ∈ [3; 4; 5].
Proof.
  apply (raft_quorums_meet [1; 2; 3; 4; 5]); try (vm_compute; discriminate); try set_solver.
  all: repeat constructor; set_solver.
Defined.
