(* ===== verification/LruCache.v ===== *)
(** The cache of query results and id sets: [core/lrucache.h] and [lrucache.cc].

    The map of entries and the list of keys by their last use. An entry's position in the list
    ([lruPos]) is the place of its key, which the invariant makes unique. The mutex makes every
    method one step. The sizes of keys and values, and [sizeof(Entry)], are parameters; the
    value that a new entry has takes no memory. *)

From S2P Require Import Prelude.

Definition kElemSizeOverhead : Z := 256.
Definition kMaxHitCountToCache : Z := 1024.

Section LruCache.
Context {K V : Type} `{Countable K}.
Context (sizeK : K -> Z) (sizeV : V -> Z) (v0 : V) (sizeofEntry : Z).

Record Entry : Type := mk_entry { val : V; hitCount : Z }.

Record LRUCache : Type := mk_lru {
  items_ : gmap K Entry;
  lru_ : list K;
  totalCacheSize_ : Z;
  cacheSizeLimit_ : Z;
  hitCountToCache_ : Z;
  getCount_ : Z;
  putCount_ : Z;
  eraseCount_ : Z
}.

(** The constructor. *)
Definition lru_make (sizeLimit hitCount : Z) : LRUCache := mk_lru ∅ [] 0 sizeLimit hitCount 0 0 0.

Definition clearAll (c : LRUCache) : LRUCache :=
  mk_lru ∅ [] 0 (cacheSizeLimit_ c) (hitCountToCache_ c) 0 0 0.

(** The memory that an entry is accounted for. *)
Definition entry_size (k : K) (e : Entry) : Z :=
  sizeofEntry + kElemSizeOverhead + sizeK k + sizeV (val e).

(** The loop of [eraseLRU], over the list from its front. *)
Fixpoint erase_loop (lru : list K) (c : LRUCache) : result bool * LRUCache :=
  if cacheSizeLimit_ c <? totalCacheSize_ c then
    match lru with
    | [] => (Ok false, clearAll c)
    | k :: lru =>
        match items_ c !! k with
        | None => (Fail (Throw errAssert), c)
        | Some e =>
            let oldSize := u64 (entry_size k e) in
            if totalCacheSize_ c <? oldSize then (Ok false, clearAll c)
            else
              erase_loop lru
                (mk_lru (delete k (items_ c)) lru (u64 (totalCacheSize_ c - oldSize))
                   (cacheSizeLimit_ c) (hitCountToCache_ c) (getCount_ c) (putCount_ c)
                   (u64 (eraseCount_ c + 1)))
        end
    end
  else (Ok (bool_decide (lru <> [])), c).

Definition eraseLRU : M LRUCache bool := fun c => erase_loop (lru_ c) c.

(** [lru_.splice(lru_.end(), ...)]: the key becomes the last one. *)
Definition move_to_end (k : K) (lru : list K) : list K := filter (fun x => x <> k) lru ++ [k].

Definition set_items (its : gmap K Entry) (lru : list K) (total : Z) (c : LRUCache) : LRUCache :=
  mk_lru its lru total (cacheSizeLimit_ c) (hitCountToCache_ c) (getCount_ c) (putCount_ c)
    (eraseCount_ c).

Definition set_counts (hitc getc putc erasec : Z) (c : LRUCache) : LRUCache :=
  mk_lru (items_ c) (lru_ c) (totalCacheSize_ c) (cacheSizeLimit_ c) hitc getc putc erasec.

(** [Get]: the iterator, [None] when it is not valid. *)
Definition Get (key : K) : M LRUCache (option V) :=
  c ← get;
  if cacheSizeLimit_ c =? 0 then mret None
  else
    ok ← (match items_ c !! key with
          | None =>
              _ ← put (set_items (<[key := mk_entry v0 0]> (items_ c)) (lru_ c ++ [key])
                         (u64 (totalCacheSize_ c + kElemSizeOverhead + sizeofEntry + sizeK key)) c);
              eraseLRU
          | Some _ =>
              _ ← put (set_items (items_ c) (move_to_end key (lru_ c)) (totalCacheSize_ c) c);
              mret true
          end);
    if negb ok then mret None
    else
      c ← get;
      e ← lift (of_option Undefined (items_ c !! key));
      let hits := s32 (hitCount e + 1) in
      let c := set_items (<[key := mk_entry (val e) hits]> (items_ c)) (lru_ c) (totalCacheSize_ c) c in
      if hits <? s32 (hitCountToCache_ c) then _ ← put c; mret None
      else
        _ ← put (set_counts (hitCountToCache_ c) (u64 (getCount_ c + 1)) (putCount_ c)
                   (eraseCount_ c) c);
        mret (Some (val e)).

Definition Put (key : K) (v : V) : M LRUCache unit :=
  c ← get;
  if cacheSizeLimit_ c =? 0 then mret tt
  else
    match items_ c !! key with
    | None => mret tt
    | Some e =>
        _ ← put (set_counts (hitCountToCache_ c) (getCount_ c) (u64 (putCount_ c + 1)) (eraseCount_ c)
                   (set_items (<[key := mk_entry v (hitCount e)]> (items_ c)) (lru_ c)
                      (u64 (totalCacheSize_ c + (sizeV v - sizeV (val e)))) c));
        _ ← eraseLRU;
        c ← get;
        if (getCount_ c <? u64 (putCount_ c * 16)) && negb (eraseCount_ c =? 0) then
          put (set_counts (if hitCountToCache_ c =? 0 then 2
                           else Z.min (u32 (hitCountToCache_ c * 2)) kMaxHitCountToCache) 0 0 0 c)
        else mret tt
    end.

(** [GetMemStat]: the total size, the number of items and the hit limit. *)
Definition GetMemStat (c : LRUCache) : Z * Z * Z :=
  (totalCacheSize_ c, Z.of_nat (base.size (items_ c)), hitCountToCache_ c).

Definition Clear (c : LRUCache) : LRUCache := clearAll c.

(** ** The invariant *)

Context (HsK : forall k, 0 <= sizeK k) (HsV : forall v, 0 <= sizeV v) (Hv0 : sizeV v0 = 0)
        (Hse : 0 <= sizeofEntry).

(** The memory of the keys of the list. *)
Fixpoint lru_size (its : gmap K Entry) (lru : list K) : Z :=
  match lru with
  | [] => 0
  | k :: lru => (match its !! k with Some e => entry_size k e | None => 0 end) + lru_size its lru
  end.

(** The list has the keys of the map once each, and the accounted size is the one of the
    entries. *)
Record lru_wf (c : LRUCache) : Prop := {
  lw_nodup : NoDup (lru_ c);
  lw_dom : forall k, k ∈ lru_ c <-> is_Some (items_ c !! k);
  lw_total : totalCacheSize_ c = lru_size (items_ c) (lru_ c)
}.

(** Between the calls the cache also fits in its limit. *)
Definition lru_inv (c : LRUCache) : Prop :=
  lru_wf c /\ totalCacheSize_ c <= cacheSizeLimit_ c.

Lemma entry_size_nonneg k e : 0 <= entry_size k e.
Proof. unfold entry_size, kElemSizeOverhead. pose proof (HsK k). pose proof (HsV (val e)). lia. Qed.

Lemma lru_size_nonneg its lru : 0 <= lru_size its lru.
Proof.
  induction lru as [| k lru IH]; cbn [lru_size]; [lia |].
  destruct (its !! k) as [e |]; [pose proof (entry_size_nonneg k e) |]; lia.
Qed.

(** The size depends on the entries of the list only. *)
Lemma lru_size_ext its its' lru :
  (forall k, k ∈ lru -> its !! k = its' !! k) -> lru_size its lru = lru_size its' lru.
Proof.
  induction lru as [| k lru IH]; intros E; cbn [lru_size]; [done |].
  rewrite E by left. f_equal. apply IH. intros k' Hk'. apply E. by right.
Qed.

Lemma lru_size_app its l1 l2 : lru_size its (l1 ++ l2) = lru_size its l1 + lru_size its l2.
Proof. induction l1 as [| k l1 IH]; cbn [lru_size app]; [done |]. rewrite IH. lia. Qed.

Lemma lru_size_perm its l1 l2 : Permutation l1 l2 -> lru_size its l1 = lru_size its l2.
Proof. induction 1; cbn [lru_size]; lia. Qed.

(** ** Eviction *)

(** The longest end of the list that fits in the limit. *)
Fixpoint fitting (limit : Z) (its : gmap K Entry) (lru : list K) : list K :=
  match lru with
  | [] => []
  | k :: rest => if limit <? lru_size its lru then fitting limit its rest else lru
  end.

Definition keep_keys (lru : list K) (its : gmap K Entry) : gmap K Entry :=
  filter (fun p => fst p ∈ lru) its.

Lemma fitting_suffix limit its lru : exists gone, lru = gone ++ fitting limit its lru.
Proof.
  induction lru as [| k lru [gone IH]]; cbn [fitting]; [by exists [] |].
  case_match; [| by exists []]. exists (k :: gone). cbn. by f_equal.
Qed.

Lemma fitting_size limit its lru : 0 <= limit -> lru_size its (fitting limit its lru) <= limit.
Proof.
  intros Hl. induction lru as [| k lru IH]; cbn [fitting]; [done |].
  destruct (Z.ltb_spec limit (lru_size its (k :: lru))); [done | lia].
Qed.

Lemma fitting_ext limit its its' lru :
  (forall k, k ∈ lru -> its !! k = its' !! k) -> fitting limit its lru = fitting limit its' lru.
Proof.
  induction lru as [| k lru IH]; intros E; cbn [fitting]; [done |].
  rewrite (lru_size_ext its its' (k :: lru) E). case_match; [| done].
  apply IH. intros k' Hk'. apply E. by right.
Qed.

(** Eviction drops the least recently used keys, as few as needed, and nothing else. *)
Lemma erase_loop_run lru : forall c,
  lru_ c = lru -> lru_wf c -> 0 <= cacheSizeLimit_ c -> totalCacheSize_ c < 2 ^ 64 ->
  exists c', erase_loop lru c = (Ok (bool_decide (lru_ c' <> [])), c') /\ lru_inv c' /\
    lru_ c' = fitting (cacheSizeLimit_ c) (items_ c) lru /\
    (forall k, items_ c' !! k = if decide (k ∈ lru_ c') then items_ c !! k else None) /\
    cacheSizeLimit_ c' = cacheSizeLimit_ c /\ hitCountToCache_ c' = hitCountToCache_ c /\
    getCount_ c' = getCount_ c /\ putCount_ c' = putCount_ c.
Proof.
  induction lru as [| k lru IH]; intros c El Hw Hlim Htot; pose proof Hw as [Hnd Hdom Ht];
    rewrite El in *; cbn [erase_loop fitting]; rewrite Ht.
  - cbn [lru_size] in *. rewrite (proj2 (Z.ltb_ge _ _)) by lia. exists c. rewrite El.
    split_and!; try done; [split; [done | lia] |]. intros k.
    rewrite decide_False by (apply not_elem_of_nil).
    apply eq_None_not_Some. rewrite <- Hdom. apply not_elem_of_nil.
  - apply NoDup_cons in Hnd as [Hk Hnd].
    destruct (proj1 (Hdom k) ltac:(left)) as [e Ee]. pose proof (entry_size_nonneg k e).
    pose proof (lru_size_nonneg (items_ c) lru).
    assert (lru_size (items_ c) (k :: lru) = entry_size k e + lru_size (items_ c) lru) as Es
      by (cbn [lru_size]; by rewrite Ee).
    destruct (Z.ltb_spec (cacheSizeLimit_ c) (lru_size (items_ c) (k :: lru))) as [Hlt | Hge].
    2: { exists c. rewrite El. split_and!; try done; [split; [done | lia] |]. intros k'.
         destruct (decide (k' ∈ k :: lru)) as [| Hn]; [done |].
         apply eq_None_not_Some. by rewrite <- Hdom. }
    rewrite Ee. rewrite Es in *.
    assert (u64 (entry_size k e) = entry_size k e) as -> by (unfold u64; apply wrap_id; lia).
    rewrite (proj2 (Z.ltb_ge _ _)) by lia.
    replace (entry_size k e + lru_size (items_ c) lru - entry_size k e)
      with (lru_size (items_ c) lru) by lia.
    assert (u64 (lru_size (items_ c) lru) = lru_size (items_ c) lru) as ->
      by (unfold u64; apply wrap_id; lia).
    assert (forall k', k' ∈ lru -> items_ c !! k' = delete k (items_ c) !! k') as Eext.
    { intros k' Hk'. rewrite lookup_delete_ne; [done |]. by intros ->. }
    destruct (IH (mk_lru (delete k (items_ c)) lru (lru_size (items_ c) lru) (cacheSizeLimit_ c)
      (hitCountToCache_ c) (getCount_ c) (putCount_ c) (u64 (eraseCount_ c + 1))))
      as (c' & E & Hi & El' & Eit & R); try done.
    + constructor; cbn [lru_ items_ totalCacheSize_]; [done | |].
      * intros k'. destruct (decide (k' = k)) as [-> | Hne].
        -- rewrite lookup_delete_eq. split; [done | by intros [? ?]].
        -- rewrite lookup_delete_ne, <- Hdom, elem_of_cons by done. naive_solver.
      * by apply lru_size_ext.
    + cbn. lia.
    + exists c'. cbn [items_ cacheSizeLimit_] in *. split_and!; try apply R; try done.
      * rewrite El'. symmetry. by apply fitting_ext.
      * intros k'. rewrite Eit. case_decide as Hk'; [| done]. symmetry. apply Eext.
        rewrite El' in Hk'. destruct (fitting_suffix (cacheSizeLimit_ c) (delete k (items_ c)) lru)
          as [gone ->]. apply elem_of_app. by right.
Qed.

(** ** The operations *)

Lemma fitting_all limit its lru : lru_size its lru <= limit -> fitting limit its lru = lru.
Proof. intros Hle. destruct lru as [| k lru]; [done |]. cbn [fitting]. by rewrite (proj2 (Z.ltb_ge _ _)). Qed.

Lemma fitting_last limit its lru k :
  k ∈ fitting limit its (lru ++ [k]) \/ fitting limit its (lru ++ [k]) = [].
Proof.
  induction lru as [| k' lru IH]; cbn [app fitting].
  - case_match; [by right | left; by left].
  - case_match; [done |]. left. right. apply elem_of_app. right. by left.
Qed.

Lemma lru_size_insert its lru k e e' :
  NoDup lru -> k ∈ lru -> its !! k = Some e ->
  lru_size (<[k := e']> its) lru = lru_size its lru - entry_size k e + entry_size k e'.
Proof.
  intros Hnd Hk He. apply elem_of_Permutation in Hk as [l P].
  rewrite P in Hnd. apply NoDup_cons in Hnd as [Hnk _].
  rewrite !(lru_size_perm _ _ _ P). cbn [lru_size]. rewrite lookup_insert_eq, He.
  rewrite (lru_size_ext (<[k := e']> its) its l); [lia |].
  intros k' Hk'. apply lookup_insert_ne. by intros ->.
Qed.

Lemma move_to_end_perm k lru : NoDup lru -> k ∈ lru -> Permutation lru (move_to_end k lru).
Proof.
  intros. unfold move_to_end. rewrite (Permutation_app_comm _ [k]). by apply filter_ne_perm.
Qed.

(** The frame of a cache that the eviction does not touch. *)
Definition same_counts (c c' : LRUCache) : Prop :=
  cacheSizeLimit_ c' = cacheSizeLimit_ c /\ hitCountToCache_ c' = hitCountToCache_ c /\
  getCount_ c' = getCount_ c /\ putCount_ c' = putCount_ c.

Lemma eraseLRU_run c :
  lru_wf c -> 0 <= cacheSizeLimit_ c -> totalCacheSize_ c < 2 ^ 64 ->
  exists c', eraseLRU c = (Ok (bool_decide (lru_ c' <> [])), c') /\ lru_inv c' /\
    lru_ c' = fitting (cacheSizeLimit_ c) (items_ c) (lru_ c) /\
    (forall k, items_ c' !! k = if decide (k ∈ lru_ c') then items_ c !! k else None) /\
    same_counts c c'.
Proof. intros. by apply erase_loop_run. Qed.

(** The entries and the list after [key] was looked up, before the eviction. *)
Definition touched_items (key : K) (c : LRUCache) : gmap K Entry :=
  match items_ c !! key with
  | None => <[key := mk_entry v0 0]> (items_ c)
  | Some _ => items_ c
  end.
Definition touched_lru (key : K) (c : LRUCache) : list K :=
  match items_ c !! key with
  | None => lru_ c ++ [key]
  | Some _ => move_to_end key (lru_ c)
  end.

Lemma touched_last key c : exists l, touched_lru key c = l ++ [key].
Proof. unfold touched_lru, move_to_end. case_match; by eexists. Qed.

Lemma touched_wf key c total :
  lru_wf c -> total = lru_size (touched_items key c) (touched_lru key c) ->
  lru_wf (set_items (touched_items key c) (touched_lru key c) total c).
Proof.
  intros [Hnd Hdom Ht] ->. unfold touched_items, touched_lru.
  destruct (items_ c !! key) as [e |] eqn:Ee.
  - assert (key ∈ lru_ c) as Hk by (apply Hdom; by eexists).
    pose proof (move_to_end_perm _ _ Hnd Hk) as P.
    constructor; cbn [lru_ items_ totalCacheSize_ set_items]; [by rewrite <- P | | done].
    intros k. by rewrite <- P.
  - assert (key ∉ lru_ c) as Hk by (rewrite Hdom, Ee; by intros [? ?]).
    constructor; cbn [lru_ items_ totalCacheSize_ set_items]; [| | done].
    + apply NoDup_app. split_and!; [done | | apply NoDup_singleton].
      intros k Hk1 ->%list_elem_of_singleton. done.
    + intros k. rewrite elem_of_app, list_elem_of_singleton, Hdom.
      destruct (decide (k = key)) as [-> | Hne].
      * rewrite lookup_insert_eq. split; [by eexists | by right].
      * rewrite lookup_insert_ne by done. naive_solver.
Qed.

Lemma touched_size key c :
  lru_wf c ->
  lru_size (touched_items key c) (touched_lru key c) =
    totalCacheSize_ c + (if items_ c !! key is None then kElemSizeOverhead + sizeofEntry + sizeK key
                         else 0).
Proof.
  intros [Hnd Hdom Ht]. unfold touched_items, touched_lru. rewrite Ht.
  destruct (items_ c !! key) as [e |] eqn:Ee.
  - assert (key ∈ lru_ c) as Hk by (apply Hdom; by eexists).
    rewrite <- (lru_size_perm _ _ _ (move_to_end_perm _ _ Hnd Hk)). lia.
  - assert (key ∉ lru_ c) as Hk by (rewrite Hdom, Ee; by intros [? ?]).
    rewrite lru_size_app. cbn [lru_size]. rewrite lookup_insert_eq. unfold entry_size. cbn [val].
    rewrite Hv0, (lru_size_ext (<[key := _]> _) (items_ c)); [lia |].
    intros k Hk'. apply lookup_insert_ne. by intros ->.
Qed.

Lemma erase_loop_fits lru c :
  totalCacheSize_ c <= cacheSizeLimit_ c -> erase_loop lru c = (Ok (bool_decide (lru <> [])), c).
Proof. intros Hle. destruct lru; cbn [erase_loop]; by rewrite (proj2 (Z.ltb_ge _ _)) by done. Qed.

Lemma counts_inv a b d e c : lru_inv c -> lru_inv (set_counts a b d e c).
Proof. intros [[] ?]. split; [by constructor | done]. Qed.

(** Counting a hit changes neither the list nor the sizes. *)
Lemma hit_inv key c e hits :
  lru_inv c -> items_ c !! key = Some e ->
  lru_inv (set_items (<[key := mk_entry (val e) hits]> (items_ c)) (lru_ c) (totalCacheSize_ c) c).
Proof.
  intros [[Hnd Hdom Ht] Hfit] Ee. split; [| done].
  assert (key ∈ lru_ c) as Hk by (apply Hdom; by eexists).
  constructor; cbn [lru_ items_ totalCacheSize_ set_items]; [done | |].
  - intros k. rewrite Hdom. destruct (decide (k = key)) as [-> | Hne].
    + rewrite lookup_insert_eq, Ee. split; intros _; by eexists.
    + by rewrite lookup_insert_ne.
  - rewrite (lru_size_insert _ _ _ _ _ Hnd Hk Ee), Ht. unfold entry_size. cbn [val]. lia.
Qed.

(** ** Properties *)

(** looking up a key. [Get] of a cache within its limit never fails. It makes the key
    the most recently used one (with an empty entry if it is new), evicts the least recently
    used keys until the rest fits in the limit, and keeps every other entry as it was. It
    returns the stored value exactly when the key was looked up often enough
    ([hitCountToCache]) and its entry fits in the cache; the accounting of the size stays exact
    and within the limit. *)
Theorem lru_get_spec key c :
  lru_inv c -> 0 < cacheSizeLimit_ c ->
  cacheSizeLimit_ c + kElemSizeOverhead + sizeofEntry + sizeK key < 2 ^ 64 ->
  let its := touched_items key c in
  let kept := fitting (cacheSizeLimit_ c) its (touched_lru key c) in
  exists r c', Get key c = (Ok r, c') /\ lru_inv c' /\ lru_ c' = kept /\
    (forall k, k <> key -> items_ c' !! k = if decide (k ∈ kept) then items_ c !! k else None) /\
    (forall e, its !! key = Some e -> key ∈ kept ->
       items_ c' !! key = Some (mk_entry (val e) (s32 (hitCount e + 1))) /\
       r = if s32 (hitCount e + 1) <? s32 (hitCountToCache_ c) then None else Some (val e)) /\
    (key ∉ kept -> r = None /\ items_ c' !! key = None).
Proof.
  intros [Hw Hfit] Hlim Hb its kept. unfold Get. rewrite M_bind_get.
  rewrite (proj2 (Z.eqb_neq _ _)) by lia.
  pose proof (touched_size key c Hw) as Hts. pose proof (HsK key).
  set (total := lru_size its (touched_lru key c)).
  assert (total < 2 ^ 64 /\ 0 <= total) as [Ht64 Ht0].
  { split; [| apply lru_size_nonneg]. unfold total, its. rewrite Hts.
    destruct (items_ c !! key); unfold kElemSizeOverhead in *; lia. }
  pose proof (touched_wf key c total Hw eq_refl) as Hw1. set (c1 := set_items _ _ _ c) in Hw1.
  destruct (eraseLRU_run c1 Hw1 ltac:(cbn; lia) Ht64) as (c2 & E2 & I2 & L2 & G2 & S2).
  assert (exists l, touched_lru key c = l ++ [key]) as [l El] by apply touched_last.
  assert (is_Some (its !! key)) as [e Ee].
  { unfold its, touched_items. destruct (items_ c !! key) eqn:E; [by eexists |].
    rewrite lookup_insert_eq. by eexists. }
  assert (totalCacheSize_ c <= cacheSizeLimit_ c) as Hfit' by done.
  erewrite (M_bind_ok _ _ c (bool_decide (lru_ c2 <> [])) c2).
  2: { rewrite <- E2. subst c1 total. unfold its in *. rewrite Hts.
       unfold touched_items, touched_lru. destruct (items_ c !! key) as [e' |] eqn:Eit.
       - rewrite Z.add_0_r. unfold eraseLRU. rewrite erase_loop_fits by done.
         cbn [lru_ set_items]. rewrite M_bind_put. unfold move_to_end.
         by rewrite bool_decide_true by (by destruct (filter _ (lru_ c))).
       - assert (u64 (totalCacheSize_ c + kElemSizeOverhead + sizeofEntry + sizeK key) =
           totalCacheSize_ c + (kElemSizeOverhead + sizeofEntry + sizeK key)) as ->; [| done].
         unfold u64. rewrite wrap_id; [lia |]. rewrite (lw_total _ Hw) in *.
         pose proof (lru_size_nonneg (items_ c) (lru_ c)). unfold kElemSizeOverhead in *. lia. }
  change (items_ c1) with its in *. change (lru_ c1) with (touched_lru key c) in L2.
  change (cacheSizeLimit_ c1) with (cacheSizeLimit_ c) in L2. fold kept in L2.
  assert (forall k, k <> key -> its !! k = items_ c !! k) as Hne.
  { intros k Hk. unfold its, touched_items. case_match; [done |]. by apply lookup_insert_ne. }
  destruct (fitting_last (cacheSizeLimit_ c) its l key) as [Hin | Hnil]; rewrite <- El in *;
    fold kept in Hin || fold kept in Hnil.
  - rewrite bool_decide_true by (rewrite L2; intros E; rewrite E in Hin; by apply not_elem_of_nil in Hin).
    cbn [negb]. rewrite M_bind_get, G2, L2, decide_True, Ee by done. cbn [of_option].
    rewrite M_bind_lift. cbv zeta.
    set (c3 := set_items (<[key := mk_entry (val e) (s32 (hitCount e + 1))]> (items_ c2)) kept
                 (totalCacheSize_ c2) c2).
    assert (lru_inv c3) as I3 by (subst c3; rewrite <- L2; apply hit_inv; [done | by rewrite G2, L2, decide_True by done]).
    destruct S2 as (S2a & S2b & _). change (hitCountToCache_ c3) with (hitCountToCache_ c2).
    rewrite S2b. change (hitCountToCache_ c1) with (hitCountToCache_ c).
    destruct (s32 (hitCount e + 1) <? s32 (hitCountToCache_ c)) eqn:Eh; rewrite M_bind_put.
    all: eexists _, _; split; [reflexivity |].
    all: split; [first [exact I3 | by apply counts_inv] |].
    all: split_and!; [done | | |].
    all: try (intros k Hk; cbn [items_ c3 set_items set_counts]; rewrite lookup_insert_ne, G2, L2 by done;
              case_decide; [by apply Hne | done]).
    all: try (intros e0 E0 _; injection E0 as <-; rewrite ?Eh; split; [| done];
              apply lookup_insert_eq).
    all: intros Hk; by destruct (Hk Hin).
  - rewrite bool_decide_false by (rewrite L2, Hnil; tauto). cbn [negb].
    exists None, c2. assert (forall k, k ∉ kept) as Hno
      by (intros k; rewrite Hnil; apply not_elem_of_nil).
    split; [done |]. split; [exact I2 |]. split_and!; [done | | |].
    + intros k Hk. rewrite G2, L2, !decide_False by done. done.
    + intros e0 _ Hk. by apply Hno in Hk.
    + intros _. by rewrite G2, L2, decide_False by done.
Qed.

(** The hit limit after a [Put]: doubled, up to a maximum, when the cache loses entries too
    fast. *)
Definition next_hit_limit (h : Z) : Z :=
  if h =? 0 then 2 else Z.min (u32 (h * 2)) kMaxHitCountToCache.

(** storing a value. [Put] stores the value under a key that was looked up before (its
    hits and its place in the list stay) and is a no-op for an unknown key. It evicts the least
    recently used keys until the rest fits in the limit, keeps every other entry as it was, and
    the accounting of the size stays exact and within the limit. The only other change is the
    hit limit: it stays, or is doubled up to the maximum. *)
Theorem lru_put_spec key v c :
  lru_inv c -> 0 < cacheSizeLimit_ c -> cacheSizeLimit_ c + sizeV v < 2 ^ 64 ->
  exists c', Put key v c = (Ok tt, c') /\ lru_inv c' /\
    match items_ c !! key with
    | None => c' = c
    | Some e =>
        let its := <[key := mk_entry v (hitCount e)]> (items_ c) in
        lru_ c' = fitting (cacheSizeLimit_ c) its (lru_ c) /\
        (forall k, items_ c' !! k = if decide (k ∈ lru_ c') then its !! k else None) /\
        (hitCountToCache_ c' = hitCountToCache_ c \/
         hitCountToCache_ c' = next_hit_limit (hitCountToCache_ c))
    end.
Proof.
  intros Hinv Hlim Hb. unfold Put. rewrite M_bind_get. rewrite (proj2 (Z.eqb_neq _ _)) by lia.
  destruct (items_ c !! key) as [e |] eqn:Ee; [| by exists c].
  destruct Hinv as [Hw Hfit]. pose proof Hw as [Hnd Hdom Ht].
  assert (key ∈ lru_ c) as Hk by (apply Hdom; by eexists).
  set (its := <[key := mk_entry v (hitCount e)]> (items_ c)).
  assert (lru_size its (lru_ c) = totalCacheSize_ c + (sizeV v - sizeV (val e))) as Es.
  { unfold its. rewrite (lru_size_insert _ _ _ _ _ Hnd Hk Ee), Ht. unfold entry_size. cbn [val]. lia. }
  pose proof (lru_size_nonneg its (lru_ c)). pose proof (HsV (val e)). pose proof (HsV v).
  assert (u64 (totalCacheSize_ c + (sizeV v - sizeV (val e))) = lru_size its (lru_ c)) as Eu
    by (rewrite <- Es; unfold u64; apply wrap_id; lia).
  rewrite Eu. set (c1 := set_counts _ _ _ _ _).
  assert (lru_wf c1) as Hw1.
  { constructor; [done | | done]. intros k. cbn [items_ lru_ c1 set_counts set_items]. rewrite Hdom.
    destruct (decide (k = key)) as [-> | Hne].
    - unfold its. rewrite lookup_insert_eq, Ee. split; intros _; by eexists.
    - unfold its. by rewrite lookup_insert_ne. }
  destruct (eraseLRU_run c1 Hw1) as (c2 & E2 & I2 & L2 & G2 & S2a & S2b & _).
  { cbn. lia. }
  { cbn [totalCacheSize_ c1 set_counts set_items]. lia. }
  rewrite M_bind_put, (M_bind_ok _ _ _ _ _ E2), M_bind_get.
  change (items_ c1) with its in *. change (lru_ c1) with (lru_ c) in L2.
  change (cacheSizeLimit_ c1) with (cacheSizeLimit_ c) in L2.
  change (hitCountToCache_ c1) with (hitCountToCache_ c) in S2b.
  destruct (_ && _).
  - eexists. split; [reflexivity |]. split; [by apply counts_inv |].
    split_and!; [done | done |]. right. cbn [hitCountToCache_ set_counts]. by rewrite S2b.
  - exists c2. split; [done |]. split; [done |]. split_and!; [done | done | by left].
Qed.
End LruCache.

(** ** A cache of numbers, whose keys and values have the size of the number *)

Definition num_cache : LRUCache (K := Z) (V := Z) :=
  mk_lru (<[1 := mk_entry 10 1]> (<[2 := mk_entry 20 0]> ∅)) [1; 2] 745 800 2 0 0 0.

Lemma num_cache_inv : lru_inv Z.abs Z.abs 100 num_cache.
Proof.
  split; [| vm_compute; discriminate]. constructor.
  - cbn [num_cache lru_]. repeat constructor; set_solver.
  - intros k. cbn [num_cache lru_ items_]. rewrite !elem_of_cons, elem_of_nil.
    destruct (decide (k = 1)) as [-> | H1]; [split; [by eexists | by left] |].
    destruct (decide (k = 2)) as [-> | H2]; [split; [by eexists | by right; left] |].
    rewrite !lookup_insert_ne, lookup_empty by done. split; [naive_solver | by intros [? ?]].
  - vm_compute. reflexivity.
Qed.

Lemma lru_get_spec_witness :
  exists c', Get Z.abs Z.abs 0 100 1 num_cache = (Ok (Some 10), c') /\ lru_ c' = [2; 1].
Proof.
  destruct (lru_get_spec Z.abs Z.abs 0 100 Z.abs_nonneg Z.abs_nonneg eq_refl ltac:(lia) 1 num_cache
    num_cache_inv) as (r & c' & E & _ & L & _ & G & _);
    [reflexivity | vm_compute; reflexivity |].
  change (fitting _ _ _ _ _ _) with [2; 1] in L, G. exists c'. split; [| exact L].
  destruct (G (mk_entry 10 1)) as [_ R]; [reflexivity | by right; left |]. rewrite E, R. reflexivity.
Defined.

Lemma lru_put_spec_witness :
  exists c', Put Z.abs Z.abs 100 2 100 num_cache = (Ok tt, c') /\ lru_ c' = [2].
Proof.
  destruct (lru_put_spec Z.abs Z.abs 100 Z.abs_nonneg Z.abs_nonneg ltac:(lia) 2 100 num_cache
    num_cache_inv) as (c' & E & _ & R); [reflexivity | vm_compute; reflexivity |].
  exists c'. split; [exact E |]. change (items_ num_cache !! 2) with (Some (mk_entry 20 0)) in R.
  destruct R as [R _]. rewrite R. vm_compute. reflexivity.
Defined.
