(* ===== verification/CBuf.v ===== *)
(** The growing ring buffer of the network connections: [estl/cbuf.h].

    The array [buf_] is a list. [new T[n]] leaves its elements with no value of interest, which
    is the parameter [d]. The copies of [write], [read] and [grow] are made as the code makes
    them, in one or two pieces. *)

From S2P Require Import Prelude.

Section Cbuf.
Context {T : Type} (d : T).

Record cbuf : Type := mk_cbuf {
  head_ : Z;
  tail_ : Z;
  buf_size_ : Z;
  full_ : bool;
  buf_ : list T
}.

(** The constructor. *)
Definition cbuf_make (bufsize : Z) : cbuf := mk_cbuf 0 0 bufsize false (replicate (Z.to_nat bufsize) d).

(** The move constructor and the move assignment: the new owner and what is left behind. *)
Definition cbuf_move (other : cbuf) : cbuf * cbuf := (other, mk_cbuf 0 0 0 false []).

(** [size()] computes with a signed difference. *)
Definition cbuf_size (c : cbuf) : Z :=
  let D := head_ c - tail_ c in
  if (D <? 0) || ((D =? 0) && full_ c) then D + buf_size_ c else D.

Definition capacity (c : cbuf) : Z := buf_size_ c.
Definition available (c : cbuf) : Z := buf_size_ c - cbuf_size c.
Definition clear (c : cbuf) : cbuf := mk_cbuf 0 0 (buf_size_ c) false (buf_ c).

(** [std::copy] from [src], at [p], of [n] elements: reading outside of it is undefined. *)
Definition copy_out (src : list T) (p n : Z) : result (list T) :=
  if decide (0 <= p /\ 0 <= n /\ p + n <= zlen src) then Ok (zslice src p n) else Fail Undefined.

(** [std::copy] of [data] to [dst] at [p]. *)
Definition copy_in (dst : list T) (p : Z) (data : list T) : result (list T) :=
  if decide (0 <= p /\ p + zlen data <= zlen dst) then Ok (zblit dst p data) else Fail Undefined.

(** [a % b] is undefined for a zero [b]. *)
Definition cmod (a b : Z) : result Z := if b =? 0 then Fail Undefined else Ok (a mod b).

(** The copies that [grow] makes to the new array. *)
Definition grow_copy (c : cbuf) (new_size : Z) : result (list T) :=
  let lSize := buf_size_ c - tail_ c in
  let sz := cbuf_size c in
  p1 ← copy_out (buf_ c) (tail_ c) (Z.min sz lSize);
  new_buf ← copy_in (replicate (Z.to_nat new_size) d) 0 p1;
  if lSize <? sz then
    p2 ← copy_out (buf_ c) 0 (head_ c);
    copy_in new_buf lSize p2
  else Ok new_buf.

Definition grow (sz : Z) : M cbuf unit :=
  c ← get;
  let new_size := buf_size_ c + sz in
  let sz := cbuf_size c in
  new_buf ← lift (grow_copy c new_size);
  head ← lift (cmod sz new_size);
  put (mk_cbuf head 0 new_size (sz =? new_size) new_buf).

Definition unroll : M cbuf unit := grow 0.

Definition reserve (sz : Z) : M cbuf unit :=
  c ← get;
  if capacity c <? sz then grow (sz - capacity c) else mret tt.

(** The copies of [write], from the head. *)
Definition write_copy (c : cbuf) (p_ins : list T) : result (list T) :=
  let s_ins := zlen p_ins in
  let lSize := buf_size_ c - head_ c in
  b ← copy_in (buf_ c) (head_ c) (zslice p_ins 0 (Z.min s_ins lSize));
  if lSize <? s_ins then copy_in b 0 (zslice p_ins lSize (s_ins - lSize)) else Ok b.

Definition write (p_ins : list T) : M cbuf Z :=
  c ← get;
  let s_ins := zlen p_ins in
  _ ← (if available c <? s_ins then grow (Z.max (s_ins - available c) (buf_size_ c)) else mret tt);
  if s_ins =? 0 then mret 0
  else
    c ← get;
    b ← lift (write_copy c p_ins);
    head ← lift (cmod (head_ c + s_ins) (buf_size_ c));
    _ ← put (mk_cbuf head (tail_ c) (buf_size_ c) (head =? tail_ c) b);
    mret s_ins.

(** The copies of [peek] and [read], from the tail, to the buffer of the caller. *)
Definition read_copy (c : cbuf) (s_ins : Z) : result (list T) :=
  let lSize := buf_size_ c - tail_ c in
  p1 ← copy_out (buf_ c) (tail_ c) (Z.min s_ins lSize);
  if lSize <? s_ins then
    p2 ← copy_out (buf_ c) 0 (s_ins - lSize);
    Ok (p1 ++ p2)
  else Ok p1.

Definition peek (s_ins : Z) : M cbuf (list T) :=
  c ← get;
  let s_ins := if cbuf_size c <? s_ins then cbuf_size c else s_ins in
  if s_ins =? 0 then mret [] else lift (read_copy c s_ins).

Definition read (s_ins : Z) : M cbuf (list T) :=
  c ← get;
  let s_ins := if cbuf_size c <? s_ins then cbuf_size c else s_ins in
  if s_ins =? 0 then mret []
  else
    p ← lift (read_copy c s_ins);
    tail ← lift (cmod (tail_ c + s_ins) (buf_size_ c));
    _ ← put (mk_cbuf (head_ c) tail (buf_size_ c) false (buf_ c));
    mret p.

Definition erase (s_erase : Z) : M cbuf Z :=
  c ← get;
  if negb (s_erase <=? cbuf_size c) then fail AssertFail
  else
    tail ← lift (cmod (tail_ c + s_erase) (buf_size_ c));
    _ ← put (mk_cbuf (head_ c) tail (buf_size_ c) (full_ c && (s_erase =? 0)) (buf_ c));
    mret s_erase.

(** [tail(s)] and [head(s)]: a span of the array, its place and length. *)
Definition tail_span (s_ins : Z) (c : cbuf) : Z * Z :=
  let cnt := (if (head_ c <? tail_ c) || full_ c then buf_size_ c else head_ c) - tail_ c in
  (tail_ c, if s_ins <? cnt then s_ins else cnt).

Definition head_span (s_ins : Z) (c : cbuf) : Z * Z :=
  let cnt := (if (tail_ c <=? head_ c) && negb (full_ c) then buf_size_ c else tail_ c) - head_ c in
  (head_ c, if s_ins <? cnt then s_ins else cnt).

(** The caller of [head] writes to the span, as [recv] does. *)
Definition fill_span (data : list T) : M cbuf unit :=
  c ← get;
  b ← lift (copy_in (buf_ c) (head_ c) data);
  put (mk_cbuf (head_ c) (tail_ c) (buf_size_ c) (full_ c) b).

Definition advance_head (cnt : Z) : M cbuf unit :=
  c ← get;
  if cnt =? 0 then mret tt
  else
    head ← lift (cmod (head_ c + cnt) (buf_size_ c));
    put (mk_cbuf head (tail_ c) (buf_size_ c) (head =? tail_ c) (buf_ c)).

(** ** The queue that a buffer stands for *)

(** The place of the [i]-th queued element. *)
Definition cell (c : cbuf) (i : Z) : Z :=
  if tail_ c + i <? buf_size_ c then tail_ c + i else tail_ c + i - buf_size_ c.

Definition contents (c : cbuf) : list T :=
  (fun i => default d (znth (buf_ c) (cell c i))) <$> seqZ 0 (cbuf_size c).

(** The indices are inside of the array, and only a buffer with equal indices can be full. *)
Record cbuf_wf (c : cbuf) : Prop := {
  cw_len : zlen (buf_ c) = buf_size_ c;
  cw_head : 0 <= head_ c < Z.max 1 (buf_size_ c);
  cw_tail : 0 <= tail_ c < Z.max 1 (buf_size_ c);
  cw_full : full_ c = true -> head_ c = tail_ c /\ 0 < buf_size_ c
}.

Lemma mod_wrap a n : 0 <= a < 2 * n -> a mod n = if a <? n then a else a - n.
Proof.
  intros Ha. destruct (Z.ltb_spec a n); [apply Z.mod_small; lia |].
  replace a with (a - n + 1 * n) at 1 by lia. rewrite Z.mod_add by lia. apply Z.mod_small. lia.
Qed.

Lemma cbuf_size_cases c : cbuf_wf c ->
  0 <= cbuf_size c <= buf_size_ c /\
  (head_ c < tail_ c \/ full_ c = true -> cbuf_size c = head_ c - tail_ c + buf_size_ c) /\
  (tail_ c <= head_ c -> full_ c = false -> cbuf_size c = head_ c - tail_ c).
Proof.
  intros [Hl Hh Ht Hf]. pose proof (zlen_nonneg (buf_ c)). unfold cbuf_size. destruct (full_ c).
  - destruct Hf as [Hf ?]; [done |]. rewrite Hf, Z.sub_diag. cbn. split_and!; (done || lia).
  - rewrite andb_false_r, orb_false_r. destruct (Z.ltb_spec (head_ c - tail_ c) 0); cbn;
    (split_and!; [lia | lia | intros [? | ?]; [lia | done] | lia]).
Qed.

(** The index after the last queued element, and the indices of all of them. *)
Lemma cell_head c : cbuf_wf c -> 0 < buf_size_ c -> cbuf_size c < buf_size_ c ->
  head_ c = cell c (cbuf_size c).
Proof.
  intros Hw Hp Hs. destruct (cbuf_size_cases c Hw) as (Hb & H1 & H2). destruct Hw as [_ Hh Ht Hf].
  unfold cell. destruct (full_ c).
  - destruct Hf; [done | lia].
  - destruct (Z.ltb_spec (tail_ c + cbuf_size c) (buf_size_ c)); lia.
Qed.

Lemma cell_bound c i : cbuf_wf c -> 0 <= i < cbuf_size c -> 0 <= cell c i < buf_size_ c.
Proof.
  intros Hw Hi. destruct (cbuf_size_cases c Hw) as (Hb & _). destruct Hw as [_ _ Ht _].
  unfold cell. destruct (Z.ltb_spec (tail_ c + i) (buf_size_ c)); lia.
Qed.

Lemma zlen_contents c : cbuf_wf c -> zlen (contents c) = cbuf_size c.
Proof.
  intros Hw. pose proof (cbuf_size_cases c Hw). unfold contents, zlen.
  rewrite length_fmap, length_seqZ. lia.
Qed.

Lemma znth_contents c i : cbuf_wf c -> 0 <= i < cbuf_size c ->
  znth (contents c) i = znth (buf_ c) (cell c i).
Proof.
  intros Hw Hi. pose proof (cell_bound c i Hw Hi) as Hc. unfold znth at 1. rewrite decide_True by lia.
  unfold contents. rewrite list_lookup_fmap, lookup_seqZ_lt by lia. cbn [fmap option_fmap option_map].
  rewrite Z.add_0_l, Z2Nat.id by lia.
  destruct (znth_lt (buf_ c) (cell c i)) as [x ->]; [rewrite cw_len; done | done].
Qed.

Lemma contents_eq c l : cbuf_wf c -> zlen l = cbuf_size c ->
  (forall i, 0 <= i < cbuf_size c -> znth (buf_ c) (cell c i) = znth l i) -> contents c = l.
Proof.
  intros Hw Hl H. apply znth_ext; rewrite zlen_contents by done; [done |].
  intros i Hi. rewrite znth_contents by done. by apply H.
Qed.

Lemma copy_out_ok src p n : 0 <= p -> 0 <= n -> p + n <= zlen src ->
  copy_out src p n = Ok (zslice src p n).
Proof. intros. unfold copy_out. by rewrite decide_True. Qed.

Lemma copy_in_ok dst p data : 0 <= p -> p + zlen data <= zlen dst ->
  copy_in dst p data = Ok (zblit dst p data).
Proof. intros. unfold copy_in. by rewrite decide_True. Qed.

Lemma cmod_ok a n : 0 <= a < 2 * n -> cmod a n = Ok (if a <? n then a else a - n).
Proof. intros H. unfold cmod. rewrite (proj2 (Z.eqb_neq n 0)) by lia. by rewrite mod_wrap. Qed.

(** The queued elements are the array from the tail, in one or two pieces. *)
Lemma contents_pieces c n : cbuf_wf c -> 0 <= n <= cbuf_size c ->
  take (Z.to_nat n) (contents c) =
    (if buf_size_ c - tail_ c <? n
     then zslice (buf_ c) (tail_ c) (buf_size_ c - tail_ c) ++
          zslice (buf_ c) 0 (n - (buf_size_ c - tail_ c))
     else zslice (buf_ c) (tail_ c) n).
Proof.
  intros Hw Hn. destruct (cbuf_size_cases c Hw) as (Hb & _). pose proof (zlen_contents c Hw) as Hz.
  pose proof (cw_tail _ Hw) as Ht. pose proof (cw_len _ Hw) as Hl.
  change (take (Z.to_nat n) (contents c)) with (zslice (contents c) 0 n).
  assert (zlen (zslice (contents c) 0 n) = n) as Hz' by (apply zlen_zslice; lia).
  assert (forall i, 0 <= i < n -> znth (zslice (contents c) 0 n) i = znth (buf_ c) (cell c i)) as Hi.
  { intros i Hi. rewrite znth_zslice, Z.add_0_l, znth_contents by (done || lia). done. }
  destruct (Z.ltb_spec (buf_size_ c - tail_ c) n); apply znth_ext; rewrite Hz'.
  - rewrite zlen_app, !zlen_zslice by lia. lia.
  - intros i ?. rewrite Hi by done. unfold cell.
    destruct (Z.ltb_spec (tail_ c + i) (buf_size_ c)).
    + rewrite znth_app_l by (rewrite zlen_zslice by lia; lia). by rewrite znth_zslice by lia.
    + rewrite znth_app_r by (rewrite zlen_zslice by lia; lia).
      rewrite zlen_zslice, znth_zslice by lia. f_equal. lia.
  - by rewrite zlen_zslice by lia.
  - intros i ?. rewrite Hi, znth_zslice by lia. unfold cell.
    by rewrite (proj2 (Z.ltb_lt _ _)) by lia.
Qed.

(** ** What the operations do to the queue *)

Lemma grow_copy_ok c n : cbuf_wf c -> buf_size_ c <= n ->
  exists b, grow_copy c n = Ok b /\ zlen b = n /\
    (forall i, 0 <= i < cbuf_size c -> znth b i = znth (contents c) i).
Proof.
  intros Hw Hn. destruct (cbuf_size_cases c Hw) as (Hb & H1 & H2).
  pose proof (contents_pieces c (cbuf_size c) Hw ltac:(lia)) as Hc.
  pose proof (zlen_contents c Hw) as Hz. rewrite take_ge in Hc by (unfold zlen in Hz; lia).
  pose proof Hw as [Hl Hh Ht Hf]. unfold grow_copy. cbv zeta. rewrite (copy_out_ok _ (tail_ c)) by lia.
  set (nb := replicate _ d). assert (zlen nb = n) as Hnb.
  { unfold nb, zlen. rewrite length_replicate. lia. }
  rewrite R_bind_ok.
  destruct (Z.ltb_spec (buf_size_ c - tail_ c) (cbuf_size c)) as [Hlt | Hge].
  - rewrite Z.min_r by lia. set (p1 := zslice _ (tail_ c) _) in *.
    assert (zlen p1 = buf_size_ c - tail_ c) as Hp1 by (apply zlen_zslice; lia).
    rewrite copy_in_ok, R_bind_ok by lia. set (b1 := zblit _ _ _).
    assert (zlen b1 = zlen nb) as Hb1 by (apply zlen_zblit; lia).
    assert (head_ c = cbuf_size c - (buf_size_ c - tail_ c)) as -> by (destruct (full_ c); lia).
    rewrite copy_out_ok, R_bind_ok by lia. set (p2 := zslice _ 0 _) in *.
    assert (zlen p2 = cbuf_size c - (buf_size_ c - tail_ c)) as Hp2 by (apply zlen_zslice; lia).
    rewrite copy_in_ok by lia. eexists. split_and!; [done | rewrite zlen_zblit; lia |].
    intros i Hi. rewrite Hc, znth_zblit by lia. unfold b1. rewrite znth_zblit by lia.
    repeat case_decide; try lia.
    + by rewrite znth_app_r, Hp1 by lia.
    + rewrite znth_app_l by lia. f_equal. lia.
  - rewrite Z.min_l by lia. set (p1 := zslice _ _ _) in *.
    assert (zlen p1 = cbuf_size c) as Hp1 by (apply zlen_zslice; lia).
    rewrite copy_in_ok, R_bind_ok by lia. eexists. split_and!; [done | rewrite zlen_zblit; lia |].
    intros i Hi. rewrite Hc, znth_zblit by lia. rewrite decide_True by lia. f_equal. lia.
Qed.

Lemma grow_run c sz : cbuf_wf c -> 0 <= sz -> 0 < buf_size_ c + sz ->
  exists c', grow sz c = (Ok tt, c') /\ cbuf_wf c' /\ contents c' = contents c /\
    buf_size_ c' = buf_size_ c + sz /\ cbuf_size c' = cbuf_size c.
Proof.
  intros Hw Hsz Hp. destruct (cbuf_size_cases c Hw) as (Hb & _).
  destruct (grow_copy_ok c (buf_size_ c + sz) Hw ltac:(lia)) as (b & Eb & Hb1 & Hb2).
  unfold grow. rewrite M_bind_get. cbv zeta. rewrite Eb, M_bind_lift, cmod_ok, M_bind_lift by lia.
  eexists. split; [reflexivity |].
  match goal with |- cbuf_wf ?x /\ _ => set (c' := x) end.
  assert (cbuf_wf c') as Hw'.
  { constructor; cbn; [done | destruct (Z.ltb_spec (cbuf_size c) (buf_size_ c + sz)); lia | lia |].
    intros E%Z.eqb_eq. rewrite (proj2 (Z.ltb_ge _ _)) by lia. lia. }
  assert (cbuf_size c' = cbuf_size c) as Hs'.
  { unfold cbuf_size at 1. cbn. destruct (Z.ltb_spec (cbuf_size c) (buf_size_ c + sz)) as [H3 | H3].
    - rewrite (proj2 (Z.eqb_neq (cbuf_size c) (buf_size_ c + sz))), andb_false_r, orb_false_r by lia.
      rewrite (proj2 (Z.ltb_ge _ _)); lia.
    - rewrite (proj2 (Z.eqb_eq (cbuf_size c) (buf_size_ c + sz))) by lia.
      replace (cbuf_size c - (buf_size_ c + sz) - 0) with 0 by lia. cbn. lia. }
  split_and!; [done | | done | done].
  apply contents_eq; [done | rewrite zlen_contents; done |].
  intros i Hi. rewrite <- Hb2 by lia. unfold cell, c'. cbn [tail_ buf_size_ buf_].
  by rewrite Z.add_0_l, (proj2 (Z.ltb_lt i (buf_size_ c + sz))) by lia.
Qed.

Lemma read_copy_ok c n : cbuf_wf c -> 0 <= n <= cbuf_size c ->
  read_copy c n = Ok (take (Z.to_nat n) (contents c)).
Proof.
  intros Hw Hn. rewrite contents_pieces by done. destruct (cbuf_size_cases c Hw) as (Hb & _).
  pose proof Hw as [Hl Hh Ht Hf]. unfold read_copy. cbv zeta. rewrite (copy_out_ok _ (tail_ c)) by lia.
  rewrite R_bind_ok. destruct (Z.ltb_spec (buf_size_ c - tail_ c) n).
  - rewrite Z.min_r by lia. by rewrite copy_out_ok by lia.
  - by rewrite Z.min_l by lia.
Qed.

(** Moving the tail forward drops elements; the flag is right when nothing or something is
    dropped. *)
Lemma drop_tail c n fl : cbuf_wf c -> 0 <= n <= cbuf_size c -> 0 < buf_size_ c ->
  fl = full_ c && (n =? 0) ->
  let c' := mk_cbuf (head_ c) (if tail_ c + n <? buf_size_ c then tail_ c + n
                               else tail_ c + n - buf_size_ c) (buf_size_ c) fl (buf_ c) in
  cbuf_wf c' /\ contents c' = drop (Z.to_nat n) (contents c) /\ cbuf_size c' = cbuf_size c - n.
Proof.
  intros Hw Hn Hp -> c'. destruct (cbuf_size_cases c Hw) as (Hb & H1 & H2).
  pose proof Hw as [Hl Hh Ht Hf].
  assert (cbuf_wf c') as Hw'.
  { constructor; cbn; [done | done | destruct (Z.ltb_spec (tail_ c + n) (buf_size_ c)); lia |].
    intros [Hc ->%Z.eqb_eq]%andb_true_iff. rewrite Z.add_0_r, (proj2 (Z.ltb_lt _ _)) by lia. auto. }
  assert (cbuf_size c' = cbuf_size c - n) as Hs.
  { destruct (cbuf_size_cases c' Hw') as (Hb' & H1' & H2'). cbn in H1', H2'.
    destruct (Z.eqb_spec n 0); destruct (full_ c); cbn in H1', H2';
      destruct (Z.ltb_spec (tail_ c + n) (buf_size_ c)); lia. }
  split_and!; [done | | done]. apply contents_eq; [done | |].
  - pose proof (zlen_contents c Hw). unfold zlen in *. rewrite length_drop. lia.
  - intros i Hi. transitivity (znth (contents c) (n + i)).
    + rewrite znth_contents by (done || lia). f_equal. unfold cell. cbn.
      destruct (Z.ltb_spec (tail_ c + n) (buf_size_ c)),
        (Z.ltb_spec (tail_ c + (n + i)) (buf_size_ c)); try lia;
        match goal with |- context [?a <? ?b] => destruct (Z.ltb_spec a b) end; lia.
    + unfold znth. rewrite !decide_True, lookup_drop by lia. f_equal. lia.
Qed.

Lemma not_full_size c : cbuf_wf c -> cbuf_size c < buf_size_ c ->
  full_ c = false /\ (head_ c < tail_ c -> cbuf_size c = head_ c - tail_ c + buf_size_ c) /\
  (tail_ c <= head_ c -> cbuf_size c = head_ c - tail_ c).
Proof.
  intros Hw Hs. destruct (cbuf_size_cases c Hw) as (Hb & H1 & H2). pose proof (cw_full _ Hw) as Hf.
  destruct (full_ c) eqn:E; [destruct Hf; [done | lia] | auto].
Qed.

(** Moving the head forward over new elements that the array has. *)
Lemma push_head c b data : cbuf_wf c -> 0 < zlen data <= available c -> zlen b = buf_size_ c ->
  (forall i, 0 <= i < cbuf_size c -> znth b (cell c i) = znth (contents c) i) ->
  (forall i, 0 <= i < zlen data -> znth b (cell c (cbuf_size c + i)) = znth data i) ->
  let h := if head_ c + zlen data <? buf_size_ c then head_ c + zlen data
           else head_ c + zlen data - buf_size_ c in
  let c' := mk_cbuf h (tail_ c) (buf_size_ c) (h =? tail_ c) b in
  cbuf_wf c' /\ contents c' = contents c ++ data.
Proof.
  intros Hw Hd Hlb Hold Hnew h c'. destruct (cbuf_size_cases c Hw) as (Hb & _).
  unfold available in Hd. pose proof (zlen_contents c Hw) as Hz.
  destruct (not_full_size c Hw ltac:(lia)) as (Hnf & G1 & G2). pose proof Hw as [Hl Hh Ht Hf].
  assert (0 <= h < buf_size_ c) as Hhb.
  { unfold h. destruct (Z.ltb_spec (head_ c + zlen data) (buf_size_ c)); lia. }
  assert (cbuf_wf c') as Hw'.
  { constructor; cbn; [done | lia | lia |]. intros E%Z.eqb_eq. lia. }
  assert (cbuf_size c' = cbuf_size c + zlen data) as Hs.
  { destruct (cbuf_size_cases c' Hw') as (Hb' & H1' & H2'). cbn in H1', H2'.
    rewrite Z.eqb_eq in H1'. rewrite Z.eqb_neq in H2'. unfold h in *.
    destruct (decide (head_ c < tail_ c)) as [Hht | Hht];
      destruct (Z.ltb_spec (head_ c + zlen data) (buf_size_ c)); lia. }
  split; [done |]. apply contents_eq; [done | rewrite zlen_app; lia |].
  intros i Hi. change (cell c' i) with (cell c i). cbn [buf_ c'].
  destruct (decide (i < cbuf_size c)).
  - rewrite Hold, znth_app_l by lia. done.
  - rewrite znth_app_r, Hz, <- Hnew by lia. do 2 f_equal. lia.
Qed.

Lemma write_copy_ok c data : cbuf_wf c -> 0 < zlen data <= available c ->
  exists b, write_copy c data = Ok b /\ zlen b = buf_size_ c /\
    (forall i, 0 <= i < cbuf_size c -> znth b (cell c i) = znth (contents c) i) /\
    (forall i, 0 <= i < zlen data -> znth b (cell c (cbuf_size c + i)) = znth data i).
Proof.
  intros Hw Hd. destruct (cbuf_size_cases c Hw) as (Hb & _). unfold available in Hd.
  destruct (not_full_size c Hw ltac:(lia)) as (Hnf & G1 & G2). pose proof Hw as [Hl Hh Ht Hf].
  assert (head_ c < buf_size_ c) as Hhb by lia. unfold write_copy. cbv zeta.
  set (lSize := buf_size_ c - head_ c) in *. set (p1 := zslice data 0 _).
  assert (zlen p1 = zlen data `min` lSize) as Hp1 by (apply zlen_zslice; lia).
  rewrite copy_in_ok, R_bind_ok by lia.
  assert (forall i, 0 <= i < cbuf_size c ->
    znth (contents c) i = znth (buf_ c) (cell c i)) as Hc by (intros; by apply znth_contents).
  destruct (Z.ltb_spec lSize (zlen data)) as [Hlt | Hge].
  - rewrite Z.min_r in Hp1 by lia. set (b1 := zblit _ _ _).
    assert (zlen b1 = buf_size_ c) as Hb1 by (unfold b1; rewrite zlen_zblit; lia).
    set (p2 := zslice data lSize _).
    assert (zlen p2 = zlen data - lSize) as Hp2 by (apply zlen_zslice; lia).
    rewrite copy_in_ok by lia. eexists. split_and!; [done | rewrite zlen_zblit; lia | |]; intros i Hi.
    + rewrite Hc by done. unfold cell. destruct (Z.ltb_spec (tail_ c + i) (buf_size_ c));
        rewrite znth_zblit by lia; unfold b1; rewrite znth_zblit by lia;
        by rewrite !decide_False by lia.
    + unfold cell. destruct (Z.ltb_spec (tail_ c + (cbuf_size c + i)) (buf_size_ c));
        rewrite znth_zblit by lia; unfold b1; rewrite ?znth_zblit by lia.
      * rewrite decide_False, decide_True by lia. unfold p1. rewrite znth_zslice by lia. f_equal. lia.
      * rewrite decide_True by lia. unfold p2. rewrite znth_zslice by lia. f_equal. lia.
  - rewrite Z.min_l in Hp1 by lia.
    eexists. split_and!; [done | rewrite zlen_zblit; lia | |]; intros i Hi.
    + rewrite Hc by done. unfold cell. destruct (Z.ltb_spec (tail_ c + i) (buf_size_ c));
        rewrite znth_zblit by lia; by rewrite decide_False by lia.
    + unfold cell. destruct (Z.ltb_spec (tail_ c + (cbuf_size c + i)) (buf_size_ c));
        rewrite znth_zblit by lia; rewrite decide_True by lia; unfold p1;
        rewrite znth_zslice by lia; f_equal; lia.
Qed.

(** [write] on a buffer with enough room. *)
Lemma write_fits c data : cbuf_wf c -> zlen data <= available c ->
  exists c', write data c = (Ok (zlen data), c') /\ cbuf_wf c' /\ contents c' = contents c ++ data /\
    buf_size_ c' = buf_size_ c.
Proof.
  intros Hw Hd. unfold write. rewrite M_bind_get. cbv zeta.
  rewrite (proj2 (Z.ltb_ge _ _)), M_bind_ret by lia. pose proof (zlen_nonneg data).
  destruct (Z.eqb_spec (zlen data) 0) as [E | E].
  - exists c. rewrite E. split_and!; try done.
    destruct data; [by rewrite app_nil_r | autorewrite with zlen in E; pose proof (zlen_nonneg data); lia].
  - destruct (write_copy_ok c data Hw ltac:(lia)) as (b & Eb & Hlb & Hold & Hnew).
    destruct (cbuf_size_cases c Hw) as (Hb & _). pose proof (cw_head _ Hw). unfold available in Hd.
    rewrite M_bind_get, Eb, M_bind_lift, cmod_ok, M_bind_lift by lia.
    eexists. split; [reflexivity |].
    destruct (push_head c b data) as [Hw' Hc']; try done; unfold available; try lia.
Qed.

Lemma cbuf_make_wf n : 0 <= n -> cbuf_wf (cbuf_make n) /\ contents (cbuf_make n) = [].
Proof.
  intros Hn. split; [| done]. constructor; cbn; [| lia | lia | done].
  unfold zlen. rewrite length_replicate. lia.
Qed.

Lemma write_run c data : cbuf_wf c ->
  exists c', write data c = (Ok (zlen data), c') /\ cbuf_wf c' /\ contents c' = contents c ++ data /\
    (if zlen data <=? available c then buf_size_ c' = buf_size_ c
     else 2 * buf_size_ c <= buf_size_ c').
Proof.
  intros Hw. destruct (cbuf_size_cases c Hw) as (Hb & _).
  destruct (Z.leb_spec (zlen data) (available c)) as [H | H].
  - by apply write_fits.
  - destruct (grow_run c (Z.max (zlen data - available c) (buf_size_ c)) Hw) as
      (c1 & E1 & Hw1 & Hc1 & Hs1 & Hn1); try (unfold available in *; lia).
    destruct (write_fits c1 data Hw1) as (c' & E & Hw' & Hc' & Hs'); [unfold available in *; lia |].
    exists c'. split_and!; [| done | by rewrite Hc', Hc1 | unfold available in *; lia].
    rewrite <- E. unfold write. rewrite !M_bind_get. cbv zeta.
    rewrite (proj2 (Z.ltb_lt _ _)), (M_bind_ok _ _ _ _ _ E1) by done.
    rewrite (proj2 (Z.ltb_ge (available c1) _)), M_bind_ret by (unfold available in *; lia). done.
Qed.

(** The number of elements that [read] and [peek] take. *)
Lemma clipped c n : cbuf_wf c -> 0 <= n ->
  let m := if cbuf_size c <? n then cbuf_size c else n in
  0 <= m <= cbuf_size c /\ take (Z.to_nat m) (contents c) = take (Z.to_nat n) (contents c) /\
  drop (Z.to_nat m) (contents c) = drop (Z.to_nat n) (contents c).
Proof.
  intros Hw Hn m. destruct (cbuf_size_cases c Hw) as (Hb & _). pose proof (zlen_contents c Hw) as Hz.
  unfold zlen in Hz. unfold m. destruct (Z.ltb_spec (cbuf_size c) n); [| split_and!; done || lia].
  split_and!; [lia | lia | by rewrite !take_ge by lia | by rewrite !drop_ge by lia].
Qed.

Lemma peek_run c n : cbuf_wf c -> 0 <= n -> peek n c = (Ok (take (Z.to_nat n) (contents c)), c).
Proof.
  intros Hw Hn. destruct (clipped c n Hw Hn) as (Hm & <- & _). unfold peek.
  rewrite M_bind_get. cbv zeta. set (m := if _ <? n then _ else n) in *.
  destruct (Z.eqb_spec m 0) as [-> | Hm0]; [done |]. unfold lift. by rewrite read_copy_ok.
Qed.

Lemma read_run c n : cbuf_wf c -> 0 <= n ->
  exists c', read n c = (Ok (take (Z.to_nat n) (contents c)), c') /\ cbuf_wf c' /\
    contents c' = drop (Z.to_nat n) (contents c) /\ buf_size_ c' = buf_size_ c.
Proof.
  intros Hw Hn. destruct (clipped c n Hw Hn) as (Hm & <- & <-). unfold read.
  rewrite M_bind_get. cbv zeta. set (m := if _ <? n then _ else n) in *.
  destruct (Z.eqb_spec m 0) as [-> | Hm0]; [by eexists |].
  destruct (cbuf_size_cases c Hw) as (Hb & _). pose proof (cw_tail _ Hw).
  rewrite read_copy_ok, M_bind_lift, cmod_ok, M_bind_lift by (done || lia).
  eexists. split; [reflexivity |].
  destruct (drop_tail c m false) as (Hw' & Hc' & _); [done | done | lia | | done].
  by rewrite (proj2 (Z.eqb_neq m 0)), andb_false_r by done.
Qed.

Lemma erase_run c n : cbuf_wf c -> 0 <= n ->
  if cbuf_size c <? n then erase n c = (Fail AssertFail, c)
  else if buf_size_ c =? 0 then erase n c = (Fail Undefined, c)
  else exists c', erase n c = (Ok n, c') /\ cbuf_wf c' /\
    contents c' = drop (Z.to_nat n) (contents c).
Proof.
  intros Hw Hn. destruct (cbuf_size_cases c Hw) as (Hb & _). pose proof (cw_tail _ Hw).
  unfold erase. rewrite M_bind_get. destruct (Z.ltb_spec (cbuf_size c) n).
  - by rewrite (proj2 (Z.leb_gt _ _)).
  - rewrite (proj2 (Z.leb_le _ _)) by done. cbn [negb]. destruct (Z.eqb_spec (buf_size_ c) 0) as [E | E].
    + unfold cmod. by rewrite E.
    + rewrite cmod_ok, M_bind_lift by lia. eexists. split; [reflexivity |].
      destruct (drop_tail c n (full_ c && (n =? 0))) as (Hw' & Hc' & _); [done | lia | lia | done |].
      done.
Qed.

Lemma unroll_run c : cbuf_wf c ->
  if buf_size_ c =? 0 then unroll c = (Fail Undefined, c)
  else exists c', unroll c = (Ok tt, c') /\ cbuf_wf c' /\ contents c' = contents c.
Proof.
  intros Hw. destruct (cbuf_size_cases c Hw) as (Hb & _). destruct (Z.eqb_spec (buf_size_ c) 0).
  - destruct (grow_copy_ok c (buf_size_ c + 0) Hw ltac:(lia)) as (b & Eb & _).
    unfold unroll, grow. rewrite M_bind_get. cbv zeta. rewrite Eb, M_bind_lift. unfold cmod.
    by rewrite (proj2 (Z.eqb_eq (buf_size_ c + 0) 0)) by lia.
  - destruct (grow_run c 0 Hw) as (c' & ? & ? & ? & _); [lia | lia | by exists c'].
Qed.

Lemma reserve_run c n : cbuf_wf c -> 0 <= n ->
  exists c', reserve n c = (Ok tt, c') /\ cbuf_wf c' /\ contents c' = contents c /\ n <= capacity c'.
Proof.
  intros Hw Hn. destruct (cbuf_size_cases c Hw) as (Hb & _). unfold reserve.
  rewrite M_bind_get. unfold capacity. destruct (Z.ltb_spec (buf_size_ c) n); [| by exists c].
  destruct (grow_run c (n - buf_size_ c) Hw) as (c' & ? & ? & ? & Hs & _); [lia | lia |].
  exists c'. split_and!; [done | done | done | lia].
Qed.

(** C39: The buffer is a queue without a bound. In any well-formed state (an empty buffer of any
    capacity is one), [write] appends all its elements, growing the array when there is no room
    for them (to at least twice its size), [peek(n)] gives the first [n] queued elements, or all
    of them, and changes nothing, [read(n)] gives the same and removes them, [erase(n)] removes
    them and stops at an assertion when there are fewer, and growing ([unroll], [reserve]) keeps
    the queue and leaves it in one piece. None of them accesses the array outside of its bounds.
    The operations that divide by the capacity need it to be positive: [erase(0)] and [unroll()]
    of a buffer without capacity have undefined behaviour. *)
Theorem cbuf_queue c data n : cbuf_wf c -> 0 <= n ->
  (exists c', write data c = (Ok (zlen data), c') /\ cbuf_wf c' /\
     contents c' = contents c ++ data /\
     (if zlen data <=? available c then buf_size_ c' = buf_size_ c
      else 2 * buf_size_ c <= buf_size_ c')) /\
  peek n c = (Ok (take (Z.to_nat n) (contents c)), c) /\
  (exists c', read n c = (Ok (take (Z.to_nat n) (contents c)), c') /\ cbuf_wf c' /\
     contents c' = drop (Z.to_nat n) (contents c) /\ buf_size_ c' = buf_size_ c) /\
  (if cbuf_size c <? n then erase n c = (Fail AssertFail, c)
   else if buf_size_ c =? 0 then erase n c = (Fail Undefined, c)
   else exists c', erase n c = (Ok n, c') /\ cbuf_wf c' /\
     contents c' = drop (Z.to_nat n) (contents c)) /\
  (if buf_size_ c =? 0 then unroll c = (Fail Undefined, c)
   else exists c', unroll c = (Ok tt, c') /\ cbuf_wf c' /\ contents c' = contents c) /\
  (exists c', reserve n c = (Ok tt, c') /\ cbuf_wf c' /\ contents c' = contents c /\
     n <= capacity c').
Proof.
  intros Hw Hn. split_and!.
  - by apply write_run.
  - by apply peek_run.
  - by apply read_run.
  - by apply erase_run.
  - by apply unroll_run.
  - by apply reserve_run.
Qed.

(** The room that [head] gives is contiguous. *)
Lemma head_span_room c m : cbuf_wf c -> 0 <= m ->
  let k := snd (head_span m c) in
  0 <= k <= available c /\ k <= m /\ k <= buf_size_ c - head_ c /\
  (0 < m -> 0 < available c -> 0 < k).
Proof.
  intros Hw Hm. destruct (cbuf_size_cases c Hw) as (Hb & H1 & H2). pose proof Hw as [Hl Hh Ht Hf].
  unfold head_span, available. cbn [snd].
  destruct (full_ c); [destruct Hf as [Hf Hp]; [done |]; rewrite H1 by auto; rewrite andb_false_r |].
  - destruct (Z.ltb_spec m (tail_ c - head_ c)); lia.
  - rewrite andb_true_r. destruct (Z.leb_spec (tail_ c) (head_ c)).
    + rewrite H2 by done. destruct (Z.ltb_spec m (buf_size_ c - head_ c)); lia.
    + rewrite H1 by auto. destruct (Z.ltb_spec m (tail_ c - head_ c)); lia.
Qed.

(** Writing to the span that [head] gives, and then telling the buffer about it. *)
Lemma fill_advance c data m : cbuf_wf c -> 0 <= m -> 0 < zlen data <= snd (head_span m c) ->
  exists c', (_ ← fill_span data; advance_head (zlen data)) c = (Ok tt, c') /\ cbuf_wf c' /\
    contents c' = contents c ++ data.
Proof.
  intros Hw Hm Hk. destruct (head_span_room c m Hw Hm) as (Ha & _ & Hr & _).
  destruct (write_copy_ok c data Hw ltac:(lia)) as (b & Eb & Hlb & Hold & Hnew).
  destruct (cbuf_size_cases c Hw) as (Hb & _). pose proof (cw_head _ Hw) as Hh.
  pose proof (cw_len _ Hw) as Hl. unfold available in Ha.
  assert (copy_in (buf_ c) (head_ c) data = Ok b) as Ec.
  { revert Eb. unfold write_copy. cbv zeta. rewrite Z.min_l by lia.
    replace (zslice data 0 (zlen data)) with data by (unfold zslice, zlen; by rewrite Nat2Z.id, take_ge).
    rewrite copy_in_ok, R_bind_ok by lia. by rewrite (proj2 (Z.ltb_ge _ _)) by lia. }
  set (c1 := mk_cbuf (head_ c) (tail_ c) (buf_size_ c) (full_ c) b).
  assert (fill_span data c = (Ok tt, c1)) as E1 by (unfold fill_span; by rewrite M_bind_get, Ec).
  rewrite (M_bind_ok _ _ _ _ _ E1). unfold advance_head. rewrite M_bind_get.
  rewrite (proj2 (Z.eqb_neq _ _)) by lia. cbn [c1 head_ buf_size_ tail_ buf_].
  rewrite cmod_ok, M_bind_lift by lia. eexists. split; [reflexivity |].
  apply push_head; unfold available; try done; lia.
Qed.

Lemma tail_span_spec c m : cbuf_wf c -> 0 <= m ->
  let (p, k) := tail_span m c in
  0 <= p /\ 0 <= k <= m /\ p + k <= zlen (buf_ c) /\
  zslice (buf_ c) p k = take (Z.to_nat k) (contents c) /\
  (0 < m -> contents c <> [] -> 0 < k).
Proof.
  intros Hw Hm. destruct (cbuf_size_cases c Hw) as (Hb & H1 & H2). pose proof Hw as [Hl Hh Ht Hf].
  pose proof (zlen_contents c Hw) as Hz. unfold tail_span. set (k := if _ <? _ then m else _).
  assert (0 <= k <= m /\ k <= buf_size_ c - tail_ c /\ k <= cbuf_size c /\
    (0 < m -> 0 < cbuf_size c -> 0 < k)) as (Hk1 & Hk2 & Hk3 & Hk4).
  { unfold k. destruct (full_ c); [destruct Hf as [Hf Hp]; [done |]; rewrite H1 by auto;
      rewrite orb_true_r |].
    - destruct (Z.ltb_spec m (buf_size_ c - tail_ c)); lia.
    - rewrite orb_false_r. destruct (Z.ltb_spec (head_ c) (tail_ c)).
      + rewrite H1 by auto. destruct (Z.ltb_spec m (buf_size_ c - tail_ c)); lia.
      + rewrite H2 by done. destruct (Z.ltb_spec m (head_ c - tail_ c)); lia. }
  split_and!; [lia | lia | lia | lia | |].
  - rewrite contents_pieces by (done || lia). by rewrite (proj2 (Z.ltb_ge _ _)) by lia.
  - intros Hm0 Hne. apply Hk4; [done |]. destruct (contents c); [done |].
    autorewrite with zlen in Hz. pose proof (zlen_nonneg l). lia.
Qed.

(** The spans that [tail] and [head] give to [send] and [recv] are inside of the array. The
    span of [tail(m)] holds the first queued elements and is not empty when there are some (for
    [m > 0]); the one of [head(m)] is free space, at most [m] elements, and not empty when the
    buffer is not full. Writing into the span of [head] and then calling [advance_head] with the
    number of the elements written appends them to the queue. *)
Theorem cbuf_spans c data m : cbuf_wf c -> 0 <= m -> 0 < zlen data <= snd (head_span m c) ->
  (let (p, k) := tail_span m c in
   0 <= p /\ 0 <= k <= m /\ p + k <= zlen (buf_ c) /\
   zslice (buf_ c) p k = take (Z.to_nat k) (contents c) /\
   (0 < m -> contents c <> [] -> 0 < k)) /\
  (let (p, k) := head_span m c in
   0 <= p /\ k <= m /\ p + k <= zlen (buf_ c) /\ k <= available c /\
   (0 < m -> 0 < available c -> 0 < k)) /\
  exists c', (_ ← fill_span data; advance_head (zlen data)) c = (Ok tt, c') /\ cbuf_wf c' /\
    contents c' = contents c ++ data.
Proof.
  intros Hw Hm Hk. split_and!; [| | by apply fill_advance with m].
  - by apply tail_span_spec.
  - pose proof (head_span_room c m Hw Hm) as Hr. destruct (head_span m c) as [p k] eqn:E.
    cbn [snd] in Hr. assert (p = head_ c) as -> by (unfold head_span in E; congruence).
    pose proof (cw_head _ Hw). rewrite (cw_len _ Hw). split_and!; lia.
Qed.

End Cbuf.

Definition ring : cbuf := mk_cbuf 1 3 4 false [40; 0; 20; 30].

Lemma ring_wf : cbuf_wf ring.
Proof. constructor; cbn; try lia; done. Qed.

Lemma cbuf_queue_witness :
  contents 0 ring = [30; 40] /\
  exists c', write 0 [1; 2; 3] ring = (Ok 3, c') /\ contents 0 c' = [30; 40; 1; 2; 3].
Proof.
  split; [reflexivity |].
  destruct (cbuf_queue 0 ring [1; 2; 3] 2 ring_wf ltac:(lia)) as [(c' & E & _ & Hc & _) _].
  exists c'. split; [exact E | rewrite Hc; reflexivity].
Defined.

Lemma cbuf_spans_witness :
  exists c', (_ ← fill_span [50]; advance_head 1) ring = (Ok tt, c') /\ contents 0 c' = [30; 40; 50].
Proof.
  destruct (cbuf_spans 0 ring [50] 8 ring_wf ltac:(lia)) as (_ & _ & c' & E & _ & Hc);
    [vm_compute; split; [reflexivity | discriminate] |].
  exists c'. split; [exact E | rewrite Hc; reflexivity].
Defined.
