(* ===== verification/Gallop.v ===== *)
(** Galloping search in sorted id sets: [tools/gallop_search.h].

    A random access iterator is an index of the array; a reverse iterator is its base, so that it
    points to the element before. Dereferencing an index outside of the array is undefined. The
    standard library's [upper_bound] and [lower_bound] are the binary search for the point where a
    predicate turns false. *)

From S2P Require Import Prelude.

(** [*it] *)
Definition deref (a : list Z) (i : Z) : result Z := of_option Undefined (znth a i).

(** The binary search of the standard library in [len] elements from [first]. *)
Fixpoint partition_point (fuel : nat) (P : Z -> bool) (a : list Z) (first len : Z) : result Z :=
  match fuel with
  | O => Fail OutOfFuel
  | S fuel =>
      if len =? 0 then Ok first
      else
        let half := Z.shiftr len 1 in
        x ← deref a (first + half);
        if P x then partition_point fuel P a (first + half + 1) (len - half - 1)
        else partition_point fuel P a first half
  end.

Definition upper_bound (a : list Z) (first last bound : Z) : result Z :=
  partition_point (S (length a)) (fun x => x <=? bound) a first (last - first).

Definition lower_bound (a : list Z) (first last bound : Z) : result Z :=
  partition_point (S (length a)) (fun x => x <? bound) a first (last - first).

Definition kLinearSteps : nat := 8.

(** The linear walk at the beginning: up to [n] steps. *)
Fixpoint linear_up (n : nat) (a : list Z) (it last bound : Z) : result Z :=
  match n with
  | O => Ok it
  | S n =>
      if it =? last then Ok it
      else
        x ← deref a it;
        if x <=? bound then linear_up n a (it + 1) last bound else Ok it
  end.

Fixpoint gallop_up (fuel : nat) (a : list Z) (lower last bound step : Z) : result Z :=
  match fuel with
  | O => Fail OutOfFuel
  | S fuel =>
      let remaining := last - lower in
      if remaining <=? step then upper_bound a lower last bound
      else
        let probe := lower + step in
        x ← deref a probe;
        if bound <? x then upper_bound a lower (probe + 1) bound
        else
          let lower := probe + 1 in
          let step := s64 (Z.shiftl step 1) in
          if lower =? last then Ok lower
          else
            y ← deref a lower;
            if bound <? y then Ok lower else gallop_up fuel a lower last bound step
  end.

Definition GallopUpperBound (a : list Z) (it last bound : Z) : result Z :=
  it ← linear_up kLinearSteps a it last bound;
  if it =? last then Ok it
  else
    x ← deref a it;
    if bound <? x then Ok it else gallop_up (S (length a)) a it last bound 1.

(** Reverse iterators: [*rit] is the element before the base, and [++rit] moves it back. *)
Fixpoint linear_down (n : nat) (a : list Z) (rit rend bound : Z) : result Z :=
  match n with
  | O => Ok rit
  | S n =>
      if rit =? rend then Ok rit
      else
        x ← deref a (rit - 1);
        if bound <=? x then linear_down n a (rit - 1) rend bound else Ok rit
  end.

Fixpoint gallop_down (fuel : nat) (a : list Z) (upper lo bound step : Z) : result Z :=
  match fuel with
  | O => Fail OutOfFuel
  | S fuel =>
      let remaining := upper - lo in
      if remaining <=? step then
        lb ← lower_bound a lo (upper + 1) bound;
        Ok (if lb =? lo then lo else lb)
      else
        let probe := upper - step in
        x ← deref a probe;
        if x <? bound then lower_bound a (probe + 1) (upper + 1) bound
        else
          let upper := probe - 1 in
          let step := s64 (Z.shiftl step 1) in
          y ← deref a upper;
          if (upper =? lo) || (y <? bound) then Ok (if y <? bound then upper + 1 else lo)
          else gallop_down fuel a upper lo bound step
  end.

Definition GallopLowerBound (a : list Z) (rit rend bound : Z) : result Z :=
  rit ← linear_down kLinearSteps a rit rend bound;
  if rit =? rend then Ok rit
  else
    x ← deref a (rit - 1);
    if x <? bound then Ok rit else gallop_down (S (length a)) a (rit - 1) rend bound 1.

(** ** The place where a predicate turns false *)

(** [a] is sorted, by its indices. *)
Definition sorted (a : list Z) : Prop :=
  forall i j x y, i <= j -> znth a i = Some x -> znth a j = Some y -> x <= y.

(** A predicate that, on the array, holds of an initial part. *)
Definition initial (P : Z -> bool) (a : list Z) : Prop :=
  forall i j x y, i <= j -> znth a i = Some x -> znth a j = Some y -> P y = true -> P x = true.

(** [r] splits the elements from [lo] to [hi]. *)
Definition splits (P : Z -> bool) (a : list Z) (lo r hi : Z) : Prop :=
  lo <= r <= hi /\
  (forall i x, lo <= i < r -> znth a i = Some x -> P x = true) /\
  (forall i x, r <= i < hi -> znth a i = Some x -> P x = false).

Lemma initial_le a bound : sorted a -> initial (fun x => x <=? bound) a.
Proof. intros Hs i j x y Hij Hx Hy H%Z.leb_le. apply Z.leb_le. pose proof (Hs i j x y Hij Hx Hy). lia. Qed.

Lemma initial_lt a bound : sorted a -> initial (fun x => x <? bound) a.
Proof. intros Hs i j x y Hij Hx Hy H%Z.ltb_lt. apply Z.ltb_lt. pose proof (Hs i j x y Hij Hx Hy). lia. Qed.

(** What is known at one place extends to the ones before or after. *)
Lemma initial_false P a i j x y : initial P a -> i <= j -> znth a i = Some x -> znth a j = Some y ->
  P x = false -> P y = false.
Proof. intros Hi Hij Hx Hy H. destruct (P y) eqn:E; [| done]. by rewrite (Hi i j x y) in H. Qed.

Lemma partition_point_ok fuel P a first len : initial P a ->
  0 <= first -> 0 <= len -> first + len <= zlen a -> (Z.to_nat len < fuel)%nat ->
  exists r, partition_point fuel P a first len = Ok r /\ splits P a first r (first + len).
Proof.
  intros HP. revert first len. induction fuel as [| fuel IH]; intros first len Hf Hl Hb Hfuel; [lia |].
  cbn [partition_point]. destruct (Z.eqb_spec len 0) as [-> | Hne].
  - exists first. split; [done |]. split_and!; [lia | lia | intros; lia | intros; lia].
  - assert (Z.shiftr len 1 = len / 2) as -> by (rewrite Z.shiftr_div_pow2; done).
    cbv zeta. set (h := len / 2). assert (0 <= h < len) as Hh by (unfold h; dlia).
    destruct (znth_lt a (first + h)) as [x Hx]; [lia |]. unfold deref. rewrite Hx. cbn [of_option].
    rewrite R_bind_ok. destruct (P x) eqn:Px.
    + destruct (IH (first + h + 1) (len - h - 1)) as (r & E & [Hr1 Hr2] & H1 & H2); [lia.. |].
      exists r. split; [done |]. split_and!; [lia | lia | | intros; apply (H2 i); [lia | done]].
      intros i y Hi Hy. destruct (decide (i < first + h + 1)); [| apply (H1 i); [lia | done]].
      apply (HP i (first + h) y x); [lia | done..].
    + destruct (IH first h) as (r & E & [Hr1 Hr2] & H1 & H2); [lia.. |].
      exists r. split; [done |]. split_and!; [lia | lia | intros; by apply (H1 i) |].
      intros i y Hi Hy. destruct (decide (i < first + h)); [apply (H2 i); [lia | done] |].
      apply (initial_false P a (first + h) i x y); [done | lia | done..].
Qed.

(** An element of the array, read. *)
Lemma deref_ok a i : 0 <= i < zlen a -> exists x, znth a i = Some x /\ deref a i = Ok x.
Proof. intros H. destruct (znth_lt a i H) as [x Hx]. exists x. unfold deref. by rewrite Hx. Qed.

(** Pieces of a split: everything before [m] is known to satisfy, or to refute, the predicate. *)
Lemma splits_left P a lo m r hi : lo <= m -> (forall i x, lo <= i < m -> znth a i = Some x -> P x = true) ->
  splits P a m r hi -> splits P a lo r hi.
Proof.
  intros Hm H1 ([? ?] & H2 & H3). split_and!; [lia | done | | done].
  intros i x Hi Hx. destruct (decide (i < m)); [apply (H1 i) | apply (H2 i)]; done || lia.
Qed.

Lemma splits_right P a lo m r hi : m <= hi -> (forall i x, m <= i < hi -> znth a i = Some x -> P x = false) ->
  splits P a lo r m -> splits P a lo r hi.
Proof.
  intros Hm H1 ([? ?] & H2 & H3). split_and!; [done | lia | done |].
  intros i x Hi Hx. destruct (decide (i < m)); [apply (H3 i) | apply (H1 i)]; done || lia.
Qed.

(** The predicate turns false at [m]. *)
Lemma splits_at P a lo m hi x y : initial P a -> 0 <= lo <= m -> m <= hi -> hi <= zlen a ->
  (lo < m -> znth a (m - 1) = Some x /\ P x = true) ->
  (m < hi -> znth a m = Some y /\ P y = false) -> splits P a lo m hi.
Proof.
  intros HP Hm Hh Hl H1 H2. split_and!; [lia | lia | |].
  - intros i z Hi Hz. destruct H1 as [Hx Px]; [lia |]. apply (HP i (m - 1) z x); done || lia.
  - intros i z Hi Hz. destruct H2 as [Hy Py]; [lia |].
    apply (initial_false P a m i y z); done || lia.
Qed.

Lemma upper_bound_ok a lo hi bound : sorted a -> 0 <= lo <= hi -> hi <= zlen a ->
  exists r, upper_bound a lo hi bound = Ok r /\ splits (fun x => x <=? bound) a lo r hi.
Proof.
  intros Hs Hl Hh.
  destruct (partition_point_ok (S (length a)) (fun x => x <=? bound) a lo (hi - lo))
    as (r & E & H); [by apply initial_le | unfold zlen in *; lia.. |].
  exists r. split; [done |]. by replace hi with (lo + (hi - lo)) by lia.
Qed.

Lemma lower_bound_ok a lo hi bound : sorted a -> 0 <= lo <= hi -> hi <= zlen a ->
  exists r, lower_bound a lo hi bound = Ok r /\ splits (fun x => x <? bound) a lo r hi.
Proof.
  intros Hs Hl Hh.
  destruct (partition_point_ok (S (length a)) (fun x => x <? bound) a lo (hi - lo))
    as (r & E & H); [by apply initial_lt | unfold zlen in *; lia.. |].
  exists r. split; [done |]. by replace hi with (lo + (hi - lo)) by lia.
Qed.

(** Doubling the step does not overflow while it is smaller than an array. *)
Lemma step_double step n : 1 <= step < n -> n < 2 ^ 62 -> s64 (Z.shiftl step 1) = 2 * step.
Proof.
  intros Hs Hn. rewrite Z.shiftl_mul_pow2 by done. change (2 ^ 1) with 2. change (2 ^ 62) with 4611686018427387904 in Hn.
  wrap_lia.
Qed.

(** ** The forward walk *)

Lemma linear_up_ok n a it hi bound : 0 <= it <= hi -> hi <= zlen a ->
  exists m, linear_up n a it hi bound = Ok m /\ it <= m <= hi /\
    (forall i x, it <= i < m -> znth a i = Some x -> (x <=? bound) = true).
Proof.
  revert it. induction n as [| n IH]; intros it Hi Hh; cbn [linear_up].
  { exists it. split_and!; [done | lia | lia | intros; lia]. }
  destruct (Z.eqb_spec it hi) as [-> | Hne]; [exists hi; split_and!; [done | lia | lia | intros; lia] |].
  destruct (deref_ok a it) as (x & Hx & ->); [lia |]. rewrite R_bind_ok.
  destruct (x <=? bound) eqn:E; [| exists it; split_and!; [done | lia | lia | intros; lia]].
  destruct (IH (it + 1)) as (m & -> & Hm & H); [lia.. |]. exists m.
  split_and!; [done | lia | lia |]. intros i y Hy Hz. destruct (decide (i = it)) as [-> | Hn].
  - congruence.
  - apply (H i); [lia | done].
Qed.

Lemma gallop_up_ok fuel a lower hi bound step x : sorted a -> zlen a < 2 ^ 62 ->
  0 <= lower < hi -> hi <= zlen a -> 1 <= step -> (Z.to_nat (hi - lower) < fuel)%nat ->
  znth a lower = Some x -> x <= bound ->
  exists r, gallop_up fuel a lower hi bound step = Ok r /\ splits (fun x => x <=? bound) a lower r hi.
Proof.
  intros Hs Hz. pose proof (initial_le a bound Hs) as HP.
  revert lower step x. induction fuel as [| fuel IH]; intros lower step x Hl Hh Hst Hf Hx Hb; [lia |].
  cbn [gallop_up]. cbv zeta. destruct (Z.leb_spec (hi - lower) step) as [H1 | H1].
  { apply upper_bound_ok; done || lia. }
  destruct (deref_ok a (lower + step)) as (y & Hy & ->); [lia |]. rewrite R_bind_ok.
  destruct (Z.ltb_spec bound y) as [H2 | H2].
  { destruct (upper_bound_ok a lower (lower + step + 1) bound Hs) as (r & -> & H); [lia.. |].
    exists r. split; [done |]. apply (splits_right _ a lower (lower + step + 1)); [lia | | done].
    intros i z Hi Hz'. apply Z.leb_gt. pose proof (Hs (lower + step) i y z ltac:(lia) Hy Hz'). lia. }
  rewrite (step_double step (zlen a)) by (done || lia).
  assert (forall i z, lower <= i < lower + step + 1 -> znth a i = Some z -> (z <=? bound) = true) as Hbef.
  { intros i z Hi Hz'. apply Z.leb_le. pose proof (Hs i (lower + step) z y ltac:(lia) Hz' Hy). lia. }
  destruct (Z.eqb_spec (lower + step + 1) hi) as [H3 | H3].
  { exists (lower + step + 1). split; [done |]. split_and!; [lia | lia | done | intros; lia]. }
  destruct (deref_ok a (lower + step + 1)) as (w & Hw & ->); [lia |]. rewrite R_bind_ok.
  destruct (Z.ltb_spec bound w) as [H4 | H4].
  - exists (lower + step + 1). split; [done |]. split_and!; [lia | lia | done |].
    intros i z Hi Hz'. apply Z.leb_gt. pose proof (Hs (lower + step + 1) i w z ltac:(lia) Hw Hz'). lia.
  - destruct (IH (lower + step + 1) (2 * step) w) as (r & -> & H); try done; try lia.
    exists r. split; [done |]. by apply (splits_left _ a lower (lower + step + 1)); [lia | |].
Qed.

(** ** The backward walk *)

Lemma linear_down_ok n a rit lo bound : 0 <= lo <= rit -> rit <= zlen a ->
  exists m, linear_down n a rit lo bound = Ok m /\ lo <= m <= rit /\
    (forall i x, m <= i < rit -> znth a i = Some x -> (x <? bound) = false).
Proof.
  revert rit. induction n as [| n IH]; intros rit Hi Hh; cbn [linear_down].
  { exists rit. split_and!; [done | lia | lia | intros; lia]. }
  destruct (Z.eqb_spec rit lo) as [-> | Hne]; [exists lo; split_and!; [done | lia | lia | intros; lia] |].
  destruct (deref_ok a (rit - 1)) as (x & Hx & ->); [lia |]. rewrite R_bind_ok.
  destruct (Z.leb_spec bound x) as [E | E]; [| exists rit; split_and!; [done | lia | lia | intros; lia]].
  destruct (IH (rit - 1)) as (m & -> & Hm & H); [lia.. |]. exists m.
  split_and!; [done | lia | lia |]. intros i y Hy Hz. destruct (decide (i = rit - 1)) as [-> | Hn].
  - apply Z.ltb_ge. congruence.
  - apply (H i); [lia | done].
Qed.

Lemma gallop_down_ok fuel a upper lo bound step x : sorted a -> zlen a < 2 ^ 62 ->
  0 <= lo <= upper -> upper < zlen a -> 1 <= step -> (Z.to_nat (upper - lo) < fuel)%nat ->
  znth a upper = Some x -> bound <= x ->
  exists r, gallop_down fuel a upper lo bound step = Ok r /\
    splits (fun x => x <? bound) a lo r (upper + 1).
Proof.
  intros Hs Hz. pose proof (initial_lt a bound Hs) as HP.
  revert upper step x. induction fuel as [| fuel IH]; intros upper step x Hl Hh Hst Hf Hx Hb; [lia |].
  cbn [gallop_down]. cbv zeta. destruct (Z.leb_spec (upper - lo) step) as [H1 | H1].
  { destruct (lower_bound_ok a lo (upper + 1) bound Hs) as (r & -> & H); [lia.. |].
    rewrite R_bind_ok. exists r. split; [| done]. by destruct (Z.eqb_spec r lo) as [-> |]. }
  destruct (deref_ok a (upper - step)) as (y & Hy & ->); [lia |]. rewrite R_bind_ok.
  destruct (Z.ltb_spec y bound) as [H2 | H2].
  { destruct (lower_bound_ok a (upper - step + 1) (upper + 1) bound Hs) as (r & -> & H); [lia.. |].
    exists r. split; [done |]. apply (splits_left _ a lo (upper - step + 1)); [lia | | done].
    intros i z Hi Hz'. apply Z.ltb_lt. pose proof (Hs i (upper - step) z y ltac:(lia) Hz' Hy). lia. }
  rewrite (step_double step (zlen a)) by (done || lia).
  assert (forall i z, upper - step <= i < upper + 1 -> znth a i = Some z -> (z <? bound) = false) as Haft.
  { intros i z Hi Hz'. apply Z.ltb_ge. pose proof (Hs (upper - step) i y z ltac:(lia) Hy Hz'). lia. }
  destruct (deref_ok a (upper - step - 1)) as (w & Hw & ->); [lia |]. rewrite R_bind_ok.
  destruct (Z.ltb_spec w bound) as [H4 | H4].
  - rewrite orb_true_r. eexists. split; [done |].
    apply (splits_at _ a lo _ _ w y); try done; try lia.
    + intros _. split; [by replace (upper - step - 1 + 1 - 1) with (upper - step - 1) by lia |].
      by apply Z.ltb_lt.
    + intros _. split; [by replace (upper - step - 1 + 1) with (upper - step) by lia |].
      by apply Z.ltb_ge.
  - rewrite orb_false_r. destruct (Z.eqb_spec (upper - step - 1) lo) as [H3 | H3].
    + exists lo. split; [done |]. split_and!; [lia | lia | intros; lia |].
      intros i z Hi Hz'. apply Z.ltb_ge.
      pose proof (Hs (upper - step - 1) i w z ltac:(lia) Hw Hz'). lia.
    + destruct (IH (upper - step - 1) (2 * step) w) as (r & -> & H); try done; try lia.
      exists r. split; [done |]. apply (splits_right _ a lo (upper - step - 1 + 1)); [lia | | done].
      intros i z Hi. apply Haft. lia.
Qed.

Lemma upper_ok a it hi bound : sorted a -> zlen a < 2 ^ 62 -> 0 <= it <= hi -> hi <= zlen a ->
  exists r, GallopUpperBound a it hi bound = Ok r /\ splits (fun x => x <=? bound) a it r hi.
Proof.
  intros Hs Hz Hi Hl. unfold GallopUpperBound.
  destruct (linear_up_ok kLinearSteps a it hi bound Hi Hl) as (m & -> & Hm & H). rewrite R_bind_ok.
  destruct (Z.eqb_spec m hi) as [-> | Hne].
  { exists hi. split; [done |]. split_and!; [lia | lia | done | intros; lia]. }
  destruct (deref_ok a m) as (x & Hx & ->); [lia |]. rewrite R_bind_ok.
  destruct (Z.ltb_spec bound x) as [H1 | H1].
  - exists m. split; [done |]. split_and!; [lia | lia | done |].
    intros i y Hy Hn. apply Z.leb_gt. pose proof (Hs m i x y ltac:(lia) Hx Hn). lia.
  - destruct (gallop_up_ok (S (length a)) a m hi bound 1 x) as (r & -> & Hr);
      try done; try (unfold zlen in *; lia).
    exists r. split; [done |]. by apply (splits_left _ a it m); [lia | |].
Qed.

Lemma lower_ok a lo rit bound : sorted a -> zlen a < 2 ^ 62 -> 0 <= lo <= rit -> rit <= zlen a ->
  exists r, GallopLowerBound a rit lo bound = Ok r /\ splits (fun x => x <? bound) a lo r rit.
Proof.
  intros Hs Hz Hi Hl. unfold GallopLowerBound.
  destruct (linear_down_ok kLinearSteps a rit lo bound Hi Hl) as (m & -> & Hm & H). rewrite R_bind_ok.
  destruct (Z.eqb_spec m lo) as [-> | Hne].
  { exists lo. split; [done |]. split_and!; [lia | lia | intros; lia | done]. }
  destruct (deref_ok a (m - 1)) as (x & Hx & ->); [lia |]. rewrite R_bind_ok.
  destruct (Z.ltb_spec x bound) as [H1 | H1].
  - exists m. split; [done |]. split_and!; [lia | lia | | done].
    intros i y Hy Hn. apply Z.ltb_lt. pose proof (Hs i (m - 1) y x ltac:(lia) Hn Hx). lia.
  - destruct (gallop_down_ok (S (length a)) a (m - 1) lo bound 1 x) as (r & -> & Hr);
      try done; try (unfold zlen in *; lia).
    exists r. split; [done |]. replace (m - 1 + 1) with m in Hr by lia.
    by apply (splits_right _ a lo m); [lia | |].
Qed.

(** Galloping from any place of a sorted array gives what the linear walk it replaces would give, and
    never reads outside of the range. [GallopUpperBound] stops at the first element greater than
    the bound, or at the end; [GallopLowerBound], which walks backwards, stops at the first element
    less than the bound, or at the end of the walk. Both terminate, and the doubling of the step
    does not overflow. *)
Theorem gallop_search a it last bound : sorted a -> zlen a < 2 ^ 62 ->
  0 <= it <= last -> last <= zlen a ->
  (exists r, GallopUpperBound a it last bound = Ok r /\ it <= r <= last /\
     (forall i x, it <= i < r -> znth a i = Some x -> x <= bound) /\
     (forall i x, r <= i < last -> znth a i = Some x -> bound < x)) /\
  (exists r, GallopLowerBound a last it bound = Ok r /\ it <= r <= last /\
     (forall i x, r <= i < last -> znth a i = Some x -> bound <= x) /\
     (forall i x, it <= i < r -> znth a i = Some x -> x < bound)).
Proof.
  intros Hs Hz Hi Hl. split.
  - destruct (upper_ok a it last bound Hs Hz Hi Hl) as (r & E & Hr & H1 & H2). exists r.
    split_and!; [done | lia | lia | |]; intros i x Hx Hn; [apply Z.leb_le; by apply (H1 i) |
      apply Z.leb_gt; by apply (H2 i)].
  - destruct (lower_ok a it last bound Hs Hz Hi Hl) as (r & E & Hr & H1 & H2). exists r.
    split_and!; [done | lia | lia | |]; intros i x Hx Hn; [apply Z.ltb_ge; by apply (H2 i) |
      apply Z.ltb_lt; by apply (H1 i)].
Qed.

Definition ids : list Z := seqZ 5 40.

Lemma ids_sorted : sorted ids.
Proof.
  intros i j x y Hij. unfold ids, znth. repeat case_decide; [| done..].
  rewrite !lookup_seqZ. intros [-> Hi] [-> Hj]. lia.
Qed.

Lemma gallop_search_witness :
  GallopUpperBound ids 2 40 30 = Ok 26 /\ GallopLowerBound ids 40 2 20 = Ok 15 /\
  exists r, GallopUpperBound ids 2 40 30 = Ok r /\ 2 <= r <= 40.
Proof.
  split_and!; [reflexivity | reflexivity |].
  destruct (gallop_search ids 2 40 30 ids_sorted) as [(r & E & Hr & _) _];
    [reflexivity | lia | vm_compute; discriminate |].
  exists r. split; [exact E | exact Hr].
Defined.
