(* ===== verification/Ranges.v ===== *)
(** Segments of sharding keys: [cluster/sharding/ranges.h].

    The comparisons of the key type are one total preorder [leb]; [a < b] is the negation of
    [leb b a]. Two keys that are [leb] in both directions are equal for the code. *)

From S2P Require Import Prelude.

(** The comparison operators of a key type. *)
Class KeyCmp (T : Type) := leb : T -> T -> bool.

Class KeyCmpLaws (T : Type) `{KeyCmp T} : Prop := {
  leb_total : forall a b : T, leb a b = true \/ leb b a = true;
  leb_trans : forall a b c : T, leb a b = true -> leb b c = true -> leb a c = true
}.

Section Ranges.
Context {T : Type} `{KeyCmp T}.

Definition ltb (a b : T) : bool := negb (leb b a).
Definition eqb (a b : T) : bool := leb a b && leb b a.

Record Segment : Type := mk_seg { left : T; right : T; isEnabled : bool }.

(** The two constructors. *)
Definition Segment1 (e : T) : Segment := mk_seg e e true.
Definition Segment2 (e1 e2 : T) : Segment :=
  if ltb e2 e1 then mk_seg e2 e1 true else mk_seg e1 e2 true.

(** [std::max] *)
Definition max (a b : T) : T := if ltb a b then b else a.

Definition getUnion2 (s1 s2 : Segment) : option Segment :=
  let '(l, r) := if leb (left s1) (left s2) then (s1, s2) else (s2, s1) in
  if ltb (right l) (left r) then None
  else Some (Segment2 (left l) (max (right r) (right l))).

(** The inner loop: the first of the segments that meets [s] becomes their union. *)
Fixpoint join_first (s : Segment) (rest : list Segment) : option (list Segment) :=
  match rest with
  | [] => None
  | r :: rest =>
      match getUnion2 s r with
      | Some u => Some (u :: rest)
      | None => cons r <$> join_first s rest
      end
  end.

(** The outer loop, over the [n] segments that are left. *)
Fixpoint join_all (n : nat) (segs : list Segment) : list Segment :=
  match n, segs with
  | S n, s :: rest =>
      match join_first s rest with
      | Some rest => mk_seg (left s) (right s) false :: join_all n rest
      | None => s :: join_all n rest
      end
  | _, _ => segs
  end.

Definition getUnion (segments : list Segment) : list Segment :=
  filter (fun x => isEnabled x = true) (join_all (length segments) segments).

Definition intersected (s1 s2 : Segment) : bool :=
  let '(l, r) := if leb (left s1) (left s2) then (s1, s2) else (s2, s1) in
  leb (left r) (right l).

Definition intersected_any (segments : list Segment) (check : Segment) : bool :=
  existsb (fun segment => intersected segment check) segments.

Definition intersected_all (segments checks : list Segment) : bool :=
  existsb (fun check => intersected_any segments check) checks.

Definition contain1 (segments : list Segment) (check : Segment) : bool :=
  existsb (fun segment => leb (left segment) (left check) && leb (right check) (right segment)) segments.

Definition contain (segments checks : list Segment) : bool :=
  forallb (fun check => contain1 segments check) checks.

(** ** The sets of keys that segments stand for *)

Definition covers (s : Segment) (x : T) : bool := leb (left s) x && leb x (right s).
Definition covers_any (segs : list Segment) (x : T) : bool := existsb (fun s => covers s x) segs.

Definition seg_wf (s : Segment) : Prop := leb (left s) (right s) = true.

(** No key is in two of the segments. *)
Definition disjoint_segs (segs : list Segment) : Prop :=
  forall i j s1 s2 x, segs !! i = Some s1 -> segs !! j = Some s2 ->
    covers s1 x = true -> covers s2 x = true -> i = j.

Context `{!KeyCmpLaws T}.

Lemma leb_refl (a : T) : leb a a = true.
Proof. by destruct (leb_total a a). Qed.

(** Closing the comparisons at hand under totality and transitivity. *)
Ltac ord_saturate :=
  repeat match goal with
  | H : leb ?a ?b = false |- _ =>
      lazymatch goal with
      | _ : leb b a = true |- _ => fail
      | _ => assert (leb b a = true) by (destruct (leb_total a b) as [Hab |]; [rewrite Hab in H; discriminate H | assumption])
      end
  | H1 : leb ?a ?b = true, H2 : leb ?b ?c = true |- _ =>
      lazymatch goal with
      | _ : leb a c = true |- _ => fail
      | _ => pose proof (leb_trans a b c H1 H2)
      end
  end.

Ltac ord_contra :=
  match goal with H1 : leb ?a ?b = true, H2 : leb ?a ?b = false |- _ => rewrite H1 in H2; discriminate H2 end.

Ltac ord :=
  cbn;
  repeat match goal with
  | H : andb _ _ = true |- _ => apply andb_true_iff in H as [? ?]
  | H : orb _ _ = false |- _ => apply orb_false_iff in H as [? ?]
  | H : negb _ = true |- _ => apply negb_true_iff in H
  | H : negb _ = false |- _ => apply negb_false_iff in H
  end;
  repeat match goal with
  | |- context [leb ?a ?b] => destruct (leb a b) eqn:?
  end; cbn; try reflexivity; exfalso; try discriminate; ord_saturate; ord_contra.

(** Two segments overlap: they have a common key. *)
Definition overlap (s1 s2 : Segment) : bool :=
  leb (left s1) (right s2) && leb (left s2) (right s1).

Lemma overlap_sym s1 s2 : overlap s1 s2 = overlap s2 s1.
Proof. unfold overlap. apply andb_comm. Qed.

Lemma intersected_overlap s1 s2 : seg_wf s1 -> seg_wf s2 -> intersected s1 s2 = overlap s1 s2.
Proof.
  unfold intersected, overlap, seg_wf. intros H1 H2.
  destruct (leb (left s1) (left s2)) eqn:E; ord.
Qed.

Lemma overlap_common s1 s2 : seg_wf s1 -> seg_wf s2 ->
  overlap s1 s2 = true <-> exists x, covers s1 x = true /\ covers s2 x = true.
Proof.
  unfold overlap, covers, seg_wf. intros H1 H2. split.
  - intros [E1 E2]%andb_true_iff. destruct (leb (left s1) (left s2)) eqn:E.
    + exists (left s2). by rewrite E, E2, leb_refl, H2.
    + exists (left s1). rewrite leb_refl, H1, E1. split; [done | ord].
  - intros (x & [? ?]%andb_true_iff & [? ?]%andb_true_iff). ord.
Qed.

Lemma Segment2_wf a b : seg_wf (Segment2 a b).
Proof. unfold Segment2, seg_wf, ltb. destruct (leb a b) eqn:E; cbn; [done |]. ord. Qed.

(** The union of two overlapping segments is the one of their sets of keys. *)
Lemma getUnion2_spec s1 s2 : seg_wf s1 -> seg_wf s2 ->
  match getUnion2 s1 s2 with
  | Some u => overlap s1 s2 = true /\ seg_wf u /\ isEnabled u = true /\
      (forall x, covers u x = covers s1 x || covers s2 x) /\
      (forall s, seg_wf s -> overlap u s = overlap s1 s || overlap s2 s)
  | None => overlap s1 s2 = false
  end.
Proof.
  unfold getUnion2, overlap, covers, seg_wf. intros H1 H2.
  destruct (leb (left s1) (left s2)) eqn:E; unfold ltb, max, ltb, Segment2, ltb.
  - destruct (leb (left s2) (right s1)) eqn:E2; cbn; [| by rewrite andb_false_r].
    destruct (leb (right s1) (right s2)) eqn:E3; cbn.
    + assert (leb (left s1) (right s2) = true) as E4 by ord. rewrite E4. cbn.
      split_and!; [done | done | done | intros x; ord | intros s ?; ord].
    + rewrite H1. cbn. split_and!; [ord | done | done | intros x; ord | intros s ?; ord].
  - destruct (leb (left s1) (right s2)) eqn:E2; cbn; [| done].
    destruct (leb (right s2) (right s1)) eqn:E3; cbn.
    + assert (leb (left s2) (right s1) = true) as E4 by ord. rewrite E4. cbn.
      split_and!; [done | done | done | intros x; ord | intros s ?; ord].
    + rewrite H2. cbn. split_and!; [ord | done | done | intros x; ord | intros s ?; ord].
Qed.

(** The enabled segments. *)
Abbreviation enabled := (filter (fun x => isEnabled x = true)).

(** No two of the segments overlap. *)
Fixpoint apart (segs : list Segment) : Prop :=
  match segs with
  | [] => True
  | s :: segs => existsb (overlap s) segs = false /\ apart segs
  end.

Lemma join_first_spec s rest : seg_wf s -> Forall seg_wf rest ->
  match join_first s rest with
  | Some rest' =>
      length rest' = length rest /\ Forall seg_wf rest' /\
      (Forall (fun r => isEnabled r = true) rest -> Forall (fun r => isEnabled r = true) rest') /\
      (forall x, covers_any rest' x = covers s x || covers_any rest x) /\
      (forall t, seg_wf t -> existsb (overlap t) rest' = overlap t s || existsb (overlap t) rest)
  | None => existsb (overlap s) rest = false
  end.
Proof.
  intros Hs. induction 1 as [| r rest Hr Hrest IH]; cbn [join_first]; [done |].
  pose proof (getUnion2_spec s r Hs Hr) as Hu. destruct (getUnion2 s r) as [u |].
  - destruct Hu as (_ & Hw & He & Hc & Ho). split_and!; [done | by constructor | | |].
    + intros [_ ?]%Forall_cons. by constructor.
    + intros x. unfold covers_any. cbn [existsb]. by rewrite Hc, orb_assoc.
    + intros t Ht. cbn [existsb]. by rewrite !(overlap_sym t), Ho, orb_assoc.
  - destruct (join_first s rest) as [rest' |]; cbn [fmap option_fmap option_map].
    + destruct IH as (Hl & Hw & He & Hc & Ho). split_and!; [cbn; lia | by constructor | | |].
      * intros [? ?]%Forall_cons. constructor; auto.
      * intros x. unfold covers_any in *. cbn [existsb]. rewrite Hc.
        by destruct (covers r x), (covers s x).
      * intros t Ht. cbn [existsb]. rewrite Ho by done. by destruct (overlap t r), (overlap t s).
    + cbn [existsb]. by rewrite Hu.
Qed.

Lemma join_all_spec n segs : length segs = n -> Forall seg_wf segs ->
  Forall (fun r => isEnabled r = true) segs ->
  Forall seg_wf (enabled (join_all n segs)) /\ apart (enabled (join_all n segs)) /\
  (forall x, covers_any (enabled (join_all n segs)) x = covers_any segs x) /\
  (forall t, seg_wf t -> existsb (overlap t) (enabled (join_all n segs)) = existsb (overlap t) segs).
Proof.
  revert segs. induction n as [| n IH]; intros [| s rest] Hn Hw He; cbn [join_all]; try done.
  apply Forall_cons in Hw as [Hs Hw]. apply Forall_cons in He as [Hes He].
  pose proof (join_first_spec s rest Hs Hw) as Hj. injection Hn as Hn.
  destruct (join_first s rest) as [rest' |].
  - destruct Hj as (Hl & Hw' & He' & Hc & Ho). rewrite filter_cons_False by done.
    destruct (IH rest') as (H1 & H2 & H3 & H4); [lia | done | by apply He' |].
    split_and!; [done | done | |].
    + intros x. by rewrite H3, Hc.
    + intros t Ht. by rewrite H4, Ho.
  - rewrite filter_cons_True by done. destruct (IH rest) as (H1 & H2 & H3 & H4); [done.. |].
    split_and!; [by constructor | | |].
    + cbn [apart]. by rewrite H4.
    + intros x. unfold covers_any in *. cbn [existsb]. by rewrite H3.
    + intros t Ht. cbn [existsb]. by rewrite H4.
Qed.

Lemma covers_overlap s1 s2 x : covers s1 x = true -> covers s2 x = true -> overlap s1 s2 = true.
Proof. unfold covers, overlap. intros [? ?]%andb_true_iff [? ?]%andb_true_iff. ord. Qed.

Lemma existsb_lookup {A} (f : A -> bool) l i a : l !! i = Some a -> f a = true -> existsb f l = true.
Proof. intros Hi Ha. apply existsb_exists. exists a. split; [| done]. apply list_elem_of_In. by eapply list_elem_of_lookup_2. Qed.

Lemma apart_disjoint segs : apart segs -> disjoint_segs segs.
Proof.
  induction segs as [| s segs IH]; [by intros _ [| ?] |]. intros [Ho Ha].
  assert (forall j s2 x, segs !! j = Some s2 -> covers s x = true -> covers s2 x = true -> False) as Hne.
  { intros j s2 x Hj H1 H2. rewrite (existsb_lookup _ _ j s2) in Ho; [done | done |].
    by apply covers_overlap with x. }
  intros [| i] [| j] s1 s2 x Hi Hj H1 H2; cbn in Hi, Hj; [done | | |].
  - injection Hi as <-. destruct (Hne j s2 x); done.
  - injection Hj as <-. destruct (Hne i s1 x); done.
  - f_equal. by apply (IH Ha i j s1 s2 x).
Qed.

Lemma apart_app l k : apart l -> apart k ->
  (forall s, s ∈ l -> existsb (overlap s) k = false) -> apart (l ++ k).
Proof.
  intros Hl Hk. induction l as [| s l IH]; intros Hx; [done |]. destruct Hl as [Ho Hl]. split.
  - rewrite existsb_app, Ho. apply Hx. by left.
  - apply IH; [done |]. intros t Ht. apply Hx. by right.
Qed.

Lemma apart_app_l l k : apart (l ++ k) -> apart l.
Proof.
  induction l as [| s l IH]; [done |]. intros [Ho Ha]. rewrite existsb_app in Ho.
  apply orb_false_iff in Ho as [? _]. split; auto.
Qed.

Lemma getUnion_overlap segs t : Forall seg_wf segs -> Forall (fun s => isEnabled s = true) segs ->
  seg_wf t -> existsb (overlap t) (getUnion segs) = existsb (overlap t) segs.
Proof. intros Hw He Ht. by apply (join_all_spec (length segs) segs). Qed.

Lemma getUnion_apart segs : Forall seg_wf segs -> Forall (fun s => isEnabled s = true) segs ->
  Forall seg_wf (getUnion segs) /\ apart (getUnion segs).
Proof.
  intros Hw He. by destruct (join_all_spec (length segs) segs) as (H1 & H2 & _).
Qed.

(** What unions of two segments have, the union of all has. *)
Lemma getUnion_pres (Q : Segment -> Prop) segs :
  (forall s1 s2 u, Q s1 -> Q s2 -> getUnion2 s1 s2 = Some u -> Q u) ->
  Forall Q segs -> Forall Q (getUnion segs).
Proof.
  intros HQ. unfold getUnion. generalize (eq_refl (length segs)). generalize (length segs) at 2 3.
  intros n. revert segs. induction n as [| n IH]; intros [| s rest] Hn Hq; cbn [join_all]; try done.
  apply Forall_cons in Hq as [Hs Hq]. injection Hn as Hn.
  assert (forall l, Forall Q l -> match join_first s l with
    | Some l' => length l' = length l /\ Forall Q l' | None => True end) as Hj.
  { induction 1 as [| r l Hr Hl IHl]; cbn [join_first]; [done |].
    destruct (getUnion2 s r) as [u |] eqn:Eu.
    - split; [done |]. constructor; [by apply (HQ s r u) | done].
    - destruct (join_first s l) as [l' |]; cbn; [| done]. destruct IHl as [-> ?]. split; [done |].
      by constructor. }
  specialize (Hj rest Hq). destruct (join_first s rest) as [rest' |].
  - rewrite filter_cons_False by done. apply IH; [by rewrite (proj1 Hj) | by apply Hj].
  - rewrite filter_cons. case_decide; [constructor; [done |] |]; by apply IH.
Qed.

(** The ends of a union are ends of the segments. *)
Lemma getUnion2_ends (P : T -> Prop) s1 s2 u : P (left s1) -> P (right s1) -> P (left s2) ->
  P (right s2) -> getUnion2 s1 s2 = Some u -> P (left u) /\ P (right u).
Proof.
  unfold getUnion2, Segment2, max. intros ? ? ? ?. destruct (leb (left s1) (left s2));
    (destruct (ltb _ _); [done |]); intros [= <-]; repeat case_match; done.
Qed.

(** Overlapping single keys are equal. *)
Lemma getUnion2_point s1 s2 u : eqb (left s1) (right s1) = true -> eqb (left s2) (right s2) = true ->
  getUnion2 s1 s2 = Some u -> eqb (left u) (right u) = true.
Proof.
  unfold eqb. intros [? ?]%andb_true_iff [? ?]%andb_true_iff. unfold getUnion2, Segment2, max, ltb.
  destruct (leb (left s1) (left s2)) eqn:E1.
  - destruct (leb (left s2) (right s1)) eqn:E2; cbn; [| done]. intros [= <-].
    repeat match goal with |- context [if negb ?b then _ else _] => destruct b eqn:?; cbn in * end; ord.
  - destruct (leb (left s1) (right s2)) eqn:E2; cbn; [| done]. intros [= <-].
    repeat match goal with |- context [if negb ?b then _ else _] => destruct b eqn:?; cbn in * end; ord.
Qed.

(** [getUnion] of a list of segments, each merged into the first later one that it meets,
    gives segments that are well formed, cover exactly the same keys, and no two of which have a
    key in common. *)
Theorem getUnion_spec segs : Forall seg_wf segs -> Forall (fun s => isEnabled s = true) segs ->
  Forall seg_wf (getUnion segs) /\ disjoint_segs (getUnion segs) /\
  forall x, covers_any (getUnion segs) x = covers_any segs x.
Proof.
  intros Hw He. destruct (join_all_spec (length segs) segs) as (H1 & H2 & H3 & _); [done.. |].
  split_and!; [done | by apply apart_disjoint | done].
Qed.

Lemma intersected_any_spec segs s : Forall seg_wf segs -> seg_wf s ->
  intersected_any segs s = true <-> exists x, covers_any segs x = true /\ covers s x = true.
Proof.
  intros Hw Hs. unfold intersected_any, covers_any. rewrite existsb_exists. split.
  - intros (t & Ht & E). assert (seg_wf t) as Htw.
    { rewrite Forall_forall in Hw. apply Hw. by apply list_elem_of_In. }
    rewrite intersected_overlap in E by done.
    apply overlap_common in E as (x & H1 & H2); [| done..]. exists x. split; [| done].
    apply existsb_exists. by exists t.
  - intros (x & (t & Ht & E)%existsb_exists & Hx). exists t. split; [done |].
    rewrite intersected_overlap; [by apply covers_overlap with x | | done].
    rewrite Forall_forall in Hw. apply Hw. by apply list_elem_of_In.
Qed.

Lemma intersected_all_spec segs checks : Forall seg_wf segs -> Forall seg_wf checks ->
  intersected_all segs checks = true <->
  exists x, covers_any segs x = true /\ covers_any checks x = true.
Proof.
  intros Hw Hc. unfold intersected_all. rewrite existsb_exists. split.
  - intros (s & Hs & E). apply intersected_any_spec in E as (x & H1 & H2); [| done |].
    + exists x. split; [done |]. apply existsb_exists. by exists s.
    + rewrite Forall_forall in Hc. apply Hc. by apply list_elem_of_In.
  - intros (x & H1 & (s & Hs & H2)%existsb_exists). exists s. split; [done |].
    apply intersected_any_spec; [done | | by exists x].
    rewrite Forall_forall in Hc. apply Hc. by apply list_elem_of_In.
Qed.

(** [contain] answers yes only when every key of the checked segments is covered. *)
Lemma contain_covers segs checks : contain segs checks = true ->
  forall x, covers_any checks x = true -> covers_any segs x = true.
Proof.
  unfold contain, covers_any. rewrite forallb_forall. intros Hc x (s & Hs & Hx)%existsb_exists.
  specialize (Hc s Hs). unfold contain1 in Hc. apply existsb_exists in Hc as (t & Ht & E).
  apply existsb_exists. exists t. split; [done |]. unfold covers in *. revert E Hx.
  intros [? ?]%andb_true_iff [? ?]%andb_true_iff. ord.
Qed.
End Ranges.

(** Integer keys. *)
#[export] Instance Z_keycmp : KeyCmp Z := Z.leb.

#[export] Instance Z_keycmp_laws : KeyCmpLaws Z.
Proof. split; unfold leb, Z_keycmp; intros; rewrite ?Z.leb_le in *; lia. Qed.

Definition some_segs : list (Segment (T := Z)) :=
  [Segment2 1 5; Segment1 9; Segment2 8 7; Segment2 12 4; Segment2 20 30].

Lemma getUnion_spec_witness :
  getUnion some_segs = [mk_seg 1 12 true; mk_seg 20 30 true] /\ disjoint_segs (getUnion some_segs).
Proof.
  split; [reflexivity |].
  destruct (getUnion_spec some_segs) as (_ & Hd & _); [repeat constructor.. | exact Hd].
Defined.
