(* ===== verification/Sharding.v ===== *)
(** Sharding keys: the values of the sharding config ([ShardingConfig::Key] of
    [cluster/config.cc]), the routing by key of [cluster/sharding/shardingkeys.h] and
    [shardingkeys.cc], and the decision of [core/shardingproxy.cc] to check the data of a
    namespace for a new config.

    Keys are of a type [V] of variants: [vtype] is the type of a value, and the comparisons are a
    total preorder. The code throws on comparing values of different types (other than int and
    int64), and so do the definitions; what the preorder says of such values is never used. *)

From S2P Require Import Prelude Variant Ranges.

Inductive ShardingAlgorithmType : Set := ByValue | ByRange.

#[export] Instance ShardingAlgorithmType_eq_dec : EqDecision ShardingAlgorithmType.
Proof. solve_decision. Defined.

(** [tolower] of ASCII letters, and [iequals], as the equality of lower-case names. *)
Definition tolower (c : Z) : Z := if (65 <=? c) && (c <=? 90) then c + 32 else c.
Definition nocase (s : bytes) : bytes := tolower <$> s.
Definition iequals (l r : bytes) : bool :=
  (zlen l =? zlen r) && bool_decide (nocase l = nocase r).

Section Sharding.
Context {V : Type} `{KeyCmp V} (vtype : V -> KVT).

Abbreviation Seg := (Segment (T := V)).

Record Key : Type := mk_key {
  shardId : Z;
  algorithmType : ShardingAlgorithmType;
  values : list Seg
}.

Record Namespace : Type := mk_ns {
  ns : bytes;
  index : bytes;
  keys : list Key;
  defaultShard : Z
}.

(** ** Reading the values of a key *)

(** A decoded node of the list of values: a scalar, a range (a YAML sequence, or the list under
    ["range"] of a JSON object), or something else. *)
Inductive Node : Type := NScalar (v : V) | NRange (vs : list V) | NOther.

Definition is_null (v : V) : bool := bool_decide (vtype v = KNull).

(** The segment of a node, and the type of the algorithm, which a range changes. *)
Definition SegmentFromYAML (alg : ShardingAlgorithmType) (n : Node)
  : result (Seg * ShardingAlgorithmType) :=
  match n with
  | NScalar v => if is_null v then Fail (Throw errParams) else Ok (Segment2 v v, alg)
  | NRange [l; r] =>
      if is_null l then Fail (Throw errParams)
      else if is_null r then Fail (Throw errParams)
      else if negb (bool_decide (vtype l = vtype r)) then Fail (Throw errParams)
      else Ok (Segment2 l r, ByRange)
  | NRange _ => Fail (Throw errParams)
  | NOther => Fail (Throw errParams)
  end.

(** The JSON version does not refuse a null in a range. *)
Definition SegmentFromJSON (alg : ShardingAlgorithmType) (n : Node)
  : result (Seg * ShardingAlgorithmType) :=
  match n with
  | NScalar v => if is_null v then Fail (Throw errParams) else Ok (Segment2 v v, alg)
  | NRange [l; r] =>
      if negb (bool_decide (vtype l = vtype r)) then Fail (Throw errParams)
      else Ok (Segment2 l r, ByRange)
  | NRange _ => Fail (Throw errParams)
  | NOther => Fail (Throw errParams)
  end.

(** The new type of the values. *)
Definition checkValue (val : Seg) (valuesType : KVT) (checkVal : list Seg) : result KVT :=
  valuesType ← (if bool_decide (valuesType = KNull) then Ok (vtype (left val))
                else if negb (bool_decide (valuesType = vtype (left val))) then Fail (Throw errParams)
                else Ok valuesType);
  if intersected_any checkVal val then Fail (Throw errParams) else Ok valuesType.

(** The loop over the nodes of a key. *)
Fixpoint read_values
    (seg : ShardingAlgorithmType -> Node -> result (Seg * ShardingAlgorithmType))
    (nodes : list Node) (checkVal : list Seg) (alg : ShardingAlgorithmType) (valuesType : KVT)
  : result (list Seg * ShardingAlgorithmType * KVT) :=
  match nodes with
  | [] => Ok ([], alg, valuesType)
  | n :: nodes =>
      '(segment, alg) ← seg alg n;
      valuesType ← checkValue segment valuesType checkVal;
      '(segs, alg, valuesType) ← read_values seg nodes checkVal alg valuesType;
      Ok (segment :: segs, alg, valuesType)
  end.

(** A key, with the type of the values and the segments of the keys read so far. *)
Definition Key_FromJSON (shardId : Z) (valuesNode : option (list Node)) (st : KVT * list Seg)
  : result (Key * (KVT * list Seg)) :=
  match valuesNode with
  | Some nodes =>
      '(segs, alg, valuesType) ← read_values SegmentFromJSON nodes (snd st) ByValue (fst st);
      let values := getUnion segs in
      Ok (mk_key shardId alg values, (valuesType, snd st ++ values))
  | None => Fail (Throw errParams)
  end.

Definition Key_FromYAML (shards : list Z) (shardIdNode : option Z) (valuesNode : option (list Node))
    (st : KVT * list Seg) : result (Key * (KVT * list Seg)) :=
  match shardIdNode with
  | None => Fail (Throw errParams)
  | Some shardId =>
      if negb (bool_decide (shardId ∈ shards)) then Fail (Throw errParams)
      else
        match valuesNode with
        | Some nodes =>
            '(segs, alg, valuesType) ← read_values SegmentFromYAML nodes (snd st) ByValue (fst st);
            let values := getUnion segs in
            Ok (mk_key shardId alg values, (valuesType, snd st ++ values))
        | None => Fail (Throw errParams)
        end
  end.

(** The loop of [Namespace::FromYAML] and [FromJSON] over the keys. *)
Fixpoint read_keys {N} (key : N -> KVT * list Seg -> result (Key * (KVT * list Seg)))
    (nodes : list N) (st : KVT * list Seg) : result (list Key) :=
  match nodes with
  | [] => Ok []
  | n :: nodes =>
      '(k, st) ← key n st;
      ks ← read_keys key nodes st;
      Ok (k :: ks)
  end.

Definition keys_FromJSON (nodes : list (Z * option (list Node))) : result (list Key) :=
  read_keys (fun n => Key_FromJSON (fst n) (snd n)) nodes (KNull, []).

Definition keys_FromYAML (shards : list Z) (nodes : list (option Z * option (list Node)))
  : result (list Key) :=
  read_keys (fun n => Key_FromYAML shards (fst n) (snd n)) nodes (KNull, []).

(** ** The comparisons of the maps *)

Definition IsInt (l r : V) : bool :=
  match vtype l, vtype r with
  | KInt64, KInt | KInt, KInt64 => true
  | _, _ => false
  end.

Definition ValidateTypes (l r : V) : result unit :=
  if bool_decide (vtype l = vtype r) then Ok tt else Fail (Throw errLogic).

(** [FastHashMapCompare] *)
Definition hash_equal (l r : V) : result bool :=
  if IsInt l r then Ok (eqb l r) else _ ← ValidateTypes l r; Ok (eqb l r).

(** [MapCompare] *)
Definition map_less (l r : V) : result bool :=
  if IsInt l r then Ok (ltb l r) else _ ← ValidateTypes l r; Ok (ltb l r).

(** ** The two maps from keys to shards *)

(** The hash table compares a value with the keys that it finds on its way: [probed]. *)
Context (probed : V -> V -> bool).

Definition VariantHashMap : Type := list (V * Z).

Fixpoint hash_find (m : VariantHashMap) (v : V) : result (option Z) :=
  match m with
  | [] => Ok None
  | (k, s) :: m =>
      if probed k v then
        e ← hash_equal k v;
        if (e : bool) then Ok (Some s) else hash_find m v
      else hash_find m v
  end.

(** [values[v] = s] *)
Fixpoint hash_set (m : VariantHashMap) (v : V) (s : Z) : result VariantHashMap :=
  match m with
  | [] => Ok [(v, s)]
  | (k, s') :: m =>
      if probed k v then
        e ← hash_equal k v;
        if (e : bool) then Ok ((k, s) :: m) else cons (k, s') <$> hash_set m v s
      else cons (k, s') <$> hash_set m v s
  end.

(** The ordered map, by its order: a key and whether it is a right bound. *)
Definition Variant4SegmentMap : Type := list (V * bool * Z).

(** [values[{v, isRightBound}] = s]: an equal key keeps its own flag. *)
Fixpoint map_set (m : Variant4SegmentMap) (v : V) (isRightBound : bool) (s : Z)
  : result Variant4SegmentMap :=
  match m with
  | [] => Ok [(v, isRightBound, s)]
  | (k, b, s') :: m' =>
      lt ← map_less k v;
      if (lt : bool) then cons (k, b, s') <$> map_set m' v isRightBound s
      else
        gt ← map_less v k;
        if (gt : bool) then Ok ((v, isRightBound, s) :: m) else Ok ((k, b, s) :: m')
  end.

Fixpoint map_lower_bound (m : Variant4SegmentMap) (v : V) : result (option (V * bool * Z)) :=
  match m with
  | [] => Ok None
  | (k, b, s) :: m =>
      lt ← map_less k v;
      if (lt : bool) then map_lower_bound m v else Ok (Some (k, b, s))
  end.

Inductive ValuesData : Type :=
| HashValues (m : VariantHashMap)
| RangeValues (m : Variant4SegmentMap).

Record NsData : Type := mk_nsdata {
  indexName : bytes;
  keysToShard : ValuesData;
  nd_defaultShard : Z
}.

(** [NsData::GetShardId] *)
Definition NsData_GetShardId (d : NsData) (val : V) : result Z :=
  match keysToShard d with
  | HashValues values =>
      it ← hash_find values val;
      Ok (match it with None => nd_defaultShard d | Some s => s end)
  | RangeValues values =>
      it ← map_lower_bound values val;
      Ok (match it with
          | None => nd_defaultShard d
          | Some (k, isRightBound, s) =>
              if negb isRightBound && negb (eqb k val) then nd_defaultShard d else s
          end)
  end.

(** ** The constructor of [ShardingKeys] *)

(** The values of one segment of the shard [s]. *)
Definition add_segment (values : ValuesData) (seg : Seg) (s : Z) : result ValuesData :=
  match values with
  | HashValues m => HashValues <$> hash_set m (left seg) s
  | RangeValues m =>
      m ← map_set m (left seg) false s;
      if negb (eqb (left seg) (right seg)) then RangeValues <$> map_set m (right seg) true s
      else Ok (RangeValues m)
  end.

Fixpoint add_segments (values : ValuesData) (segs : list (Seg * Z)) : result ValuesData :=
  match segs with
  | [] => Ok values
  | (seg, s) :: segs => values ← add_segment values seg s; add_segments values segs
  end.

(** The segments of all the keys, in the order of the loops. *)
Definition key_segments (ks : list Key) : list (Seg * Z) :=
  k ← ks; (fun seg => (seg, shardId k)) <$> values k.

Definition has_range (ks : list Key) : bool :=
  existsb (fun k => bool_decide (algorithmType k = ByRange)) ks.

(** One namespace; [old] is what the map of namespaces has under the name. *)
Definition add_namespace (old : option NsData) (c : Namespace) : result NsData :=
  let kts := match old with Some d => keysToShard d | None => HashValues [] end in
  let kts := if has_range (keys c) then RangeValues [] else kts in
  kts ← add_segments kts (key_segments (keys c));
  Ok (mk_nsdata (index c) kts (defaultShard c)).

(** [keys_], by the names in lower case. *)
Abbreviation ShardingKeys := (gmap bytes NsData).

Fixpoint ShardingKeys_make (cfg : list Namespace) (m : ShardingKeys) : result ShardingKeys :=
  match cfg with
  | [] => Ok m
  | c :: cfg =>
      d ← add_namespace (m !! nocase (ns c)) c;
      ShardingKeys_make cfg (<[nocase (ns c) := d]> m)
  end.

(** ** Queries *)

Definition GetIndex (m : ShardingKeys) (nsName : bytes) : result (bytes * ValuesData) :=
  match m !! nocase nsName with
  | Some d => Ok (indexName d, keysToShard d)
  | None => Fail (Throw errLogic)
  end.

Definition GetDefaultHost (m : ShardingKeys) (nsName : bytes) : result Z :=
  match m !! nocase nsName with
  | Some d => Ok (nd_defaultShard d)
  | None => Fail (Throw errLogic)
  end.

Definition IsShardIndex (m : ShardingKeys) (nsName idx : bytes) : bool :=
  match m !! nocase nsName with
  | None => false
  | Some d => bool_decide (indexName d = idx)
  end.

Definition IsSharded (m : ShardingKeys) (nsName : bytes) : bool :=
  bool_decide (is_Some (m !! nocase nsName)).

Definition ProxyOff : Z := -2.

(** [GetShardId(ns, index, vals, isShardKey)]: the shard, and whether the index is the key. *)
Definition GetShardId_index (m : ShardingKeys) (nsName idx : bytes) (vals : list V)
  : result Z * bool :=
  match m !! nocase nsName with
  | None => (Fail (Throw errLogic), false)
  | Some d =>
      if negb (bool_decide (indexName d = idx)) then (Ok ProxyOff, false)
      else
        match vals with
        | [v] => (NsData_GetShardId d v, true)
        | _ => (Fail (Throw errLogic), true)
        end
  end.

Definition GetShardId (m : ShardingKeys) (nsName : bytes) (v : V) : result Z :=
  match m !! nocase nsName with
  | None => Fail (Throw errLogic)
  | Some d => NsData_GetShardId d v
  end.

(** [FillUniqueIds] and [getShardsIds]: sets of shards. *)
Definition FillUniqueIds (ids : gset Z) (d : ValuesData) : gset Z :=
  match d with
  | HashValues m => foldl (fun ids e => {[snd e]} ∪ ids) ids m
  | RangeValues m => foldl (fun ids e => {[snd e]} ∪ ids) ids m
  end.

Definition getShardsIds (d : NsData) : gset Z := FillUniqueIds {[nd_defaultShard d]} (keysToShard d).

Definition GetShardsIds_ns (m : ShardingKeys) (nsName : bytes) : result (gset Z) :=
  match m !! nocase nsName with
  | None => Fail (Throw errLogic)
  | Some d => Ok (getShardsIds d)
  end.

Definition GetShardsIds (m : ShardingKeys) : gset Z :=
  map_fold (fun _ d ids => getShardsIds d ∪ ids) ∅ m.

(** ** Checking the data for a new config *)

(** The values of the first key of a shard. *)
Definition shard_values (ks : list Key) (thisShardId : Z) : list Seg :=
  match list_find (fun k => shardId k = thisShardId) ks with
  | Some (_, k) => values k
  | None => []
  end.

Definition needQueryCheck (c : Namespace) (thisShardId_ : Z) (old : list Namespace) (oldThisShardId : Z)
  : bool :=
  match list_find (fun n => ns n = ns c) old with
  | None => true
  | Some (_, it) =>
      if oldThisShardId =? defaultShard it then true
      else
        let oldThisShardKeys := shard_values (keys it) oldThisShardId in
        if thisShardId_ =? defaultShard c then
          let allNewExceptThisShard :=
            k ← filter (fun k => shardId k <> thisShardId_) (keys c); values k in
          intersected_all allNewExceptThisShard oldThisShardKeys
        else negb (contain (shard_values (keys c) thisShardId_) oldThisShardKeys)
  end.

(** ** Accepted configs *)

Context `{!KeyCmpLaws V}.

Definition typed (t : KVT) (s : Seg) : Prop := vtype (left s) = t /\ vtype (right s) = t.
Definition single (s : Seg) : Prop := eqb (left s) (right s) = true.

(** What the state of reading has: the segments so far and the type of their values. *)
Record cfg_inv (vt : KVT) (cv : list Seg) : Prop := {
  ci_wf : Forall seg_wf cv;
  ci_typed : Forall (typed vt) cv;
  ci_apart : apart cv;
  ci_null : vt = KNull -> cv = []
}.

(** A node gives a well-formed segment of one type; it is a single key unless the algorithm
    becomes [ByRange]. *)
Definition good_node (seg : ShardingAlgorithmType -> Node -> result (Seg * ShardingAlgorithmType))
    (n : Node) : Prop :=
  forall alg s alg', seg alg n = Ok (s, alg') ->
    seg_wf s /\ isEnabled s = true /\ (exists t, t <> KNull /\ typed t s) /\
    (alg' = ByRange \/ alg' = alg /\ single s).

Definition no_null (n : Node) : Prop :=
  match n with NRange vs => Forall (fun v => vtype v <> KNull) vs | _ => True end.

Lemma Segment2_ends (P : V -> Prop) a b : P a -> P b ->
  P (left (Segment2 a b)) /\ P (right (Segment2 a b)).
Proof. intros. unfold Segment2. by destruct (ltb b a). Qed.

Lemma Segment2_good a b : vtype a <> KNull -> vtype a = vtype b ->
  seg_wf (Segment2 a b) /\ isEnabled (Segment2 a b) = true /\
  exists t, t <> KNull /\ typed t (Segment2 a b).
Proof.
  intros Ha Hab. split_and!; [apply Segment2_wf | unfold Segment2; by destruct (ltb b a) |].
  exists (vtype a). split; [done |]. by apply (Segment2_ends (fun v => vtype v = vtype a)).
Qed.

Lemma Segment2_single a : single (Segment2 a a).
Proof. unfold single, Segment2, ltb, eqb. rewrite leb_refl. cbn. by rewrite leb_refl. Qed.

Lemma yaml_node n : good_node SegmentFromYAML n.
Proof.
  intros alg s alg' E. destruct n as [v | vs |]; [| destruct vs as [| l [| r [|]]] |]; cbn in E; try done.
  - unfold is_null in E. case_bool_decide; [done |]. injection E as <- <-.
    destruct (Segment2_good v v) as (? & ? & ?); [done.. |]. split_and!; try done. right.
    split; [done | apply Segment2_single].
  - unfold is_null in E. repeat (case_bool_decide; cbn in E; try done). injection E as <- <-.
    destruct (Segment2_good l r) as (? & ? & ?); [done.. |]. split_and!; try done. by left.
Qed.

Lemma json_node n : no_null n -> good_node SegmentFromJSON n.
Proof.
  intros Hn alg s alg' E.
  destruct n as [v | vs |]; [| destruct vs as [| l [| r [|]]] |]; cbn in E; try done.
  - unfold is_null in E. case_bool_decide; [done |]. injection E as <- <-.
    destruct (Segment2_good v v) as (? & ? & ?); [done.. |]. split_and!; try done. right.
    split; [done | apply Segment2_single].
  - repeat (case_bool_decide; cbn in E; try done). injection E as <- <-.
    apply Forall_cons in Hn as [Hl _].
    destruct (Segment2_good l r) as (? & ? & ?); [done.. |]. split_and!; try done. by left.
Qed.

Lemma existsb_false {A} (f : A -> bool) l : existsb f l = false <-> forall a, a ∈ l -> f a = false.
Proof.
  rewrite <- not_true_iff_false, existsb_exists. split.
  - intros Hn a Ha. apply not_true_iff_false. intros Hf. apply Hn. exists a.
    split; [by apply list_elem_of_In | done].
  - intros Hf (a & Ha & E). rewrite Hf in E; [done | by apply list_elem_of_In].
Qed.

Lemma intersected_any_overlap cv s : Forall seg_wf cv -> seg_wf s ->
  intersected_any cv s = existsb (overlap s) cv.
Proof.
  intros Hc Hs. unfold intersected_any. induction Hc as [| c cv Hc Hcv IH]; [done |]. cbn [existsb].
  rewrite IH, intersected_overlap by done. by rewrite overlap_sym.
Qed.

(** The segments of a key. *)
Lemma read_values_ok seg nodes cv alg vt segs alg' vt' : Forall (good_node seg) nodes ->
  Forall seg_wf cv -> read_values seg nodes cv alg vt = Ok (segs, alg', vt') ->
  Forall seg_wf segs /\ Forall (fun s => isEnabled s = true) segs /\ Forall (typed vt') segs /\
  (forall s, s ∈ segs -> existsb (overlap s) cv = false) /\ (vt <> KNull -> vt' = vt) /\
  (segs <> [] -> vt' <> KNull) /\ (vt = KNull -> segs = [] -> vt' = KNull) /\
  (alg = ByRange -> alg' = ByRange) /\ (alg' = ByValue -> Forall single segs).
Proof.
  intros Hg Hcv. revert alg vt segs alg' vt'.
  induction Hg as [| n nodes Hn Hg IH]; intros alg vt segs alg' vt' E; cbn [read_values] in E.
  { injection E as <- <- <-. by split_and!; try set_solver. }
  destruct (seg alg n) as [[s alg1] |] eqn:Es; [| done]. rewrite R_bind_ok in E.
  destruct (Hn _ _ _ Es) as (Hw & He & (t & Ht & Hty) & Halg).
  assert (checkValue s vt cv = Ok t \/ exists f, checkValue s vt cv = Fail f) as Hcases.
  { unfold checkValue. rewrite (proj1 Hty). repeat case_bool_decide; subst; cbn;
      repeat case_match; eauto; by left. }
  destruct Hcases as [Ev | [f Ev]]; rewrite Ev in E; [| done]. rewrite R_bind_ok in E.
  assert (intersected_any cv s = false /\ (vt <> KNull -> vt = t)) as [Hi Hvt].
  { unfold checkValue in Ev. rewrite (proj1 Hty) in Ev.
    repeat case_bool_decide; subst; cbn in Ev; try done; by destruct (intersected_any cv s). }
  destruct (read_values seg nodes cv alg1 t) as [[[segs1 alg2] vt2] |] eqn:Er; [| done].
  injection E as <- <- <-.
  destruct (IH _ _ _ _ _ Er) as (H1 & H2 & H3 & H4 & H5 & H6 & H7 & H8 & H9).
  assert (vt2 = t) as -> by auto.
  split_and!; try done; try (by constructor).
  - intros s' [-> | Hs']%elem_of_cons; [| auto]. by rewrite <- intersected_any_overlap.
  - intros Hnn. by rewrite Hvt.
  - intros ->. destruct Halg as [-> | [-> _]]; auto.
  - intros ->. constructor; [| auto]. destruct Halg as [-> | [_ ?]]; [| done]. by specialize (H8 eq_refl).
Qed.

Lemma read_values_key seg nodes vt cv segs alg vt' : Forall (good_node seg) nodes -> cfg_inv vt cv ->
  read_values seg nodes cv ByValue vt = Ok (segs, alg, vt') ->
  cfg_inv vt' (cv ++ getUnion segs) /\ (alg = ByValue -> Forall single (getUnion segs)).
Proof.
  intros Hg [Iw It Ia In] E.
  destruct (read_values_ok seg nodes cv ByValue vt segs alg vt' Hg Iw E)
    as (H1 & H2 & H3 & H4 & H5 & H6 & H7 & _ & H9).
  destruct (getUnion_apart segs H1 H2) as [G1 G2]. split; [constructor |].
  - by apply Forall_app.
  - apply Forall_app. split.
    + destruct (decide (vt = KNull)) as [Hn | Hn]; [by rewrite (In Hn) | by rewrite H5].
    + apply getUnion_pres; [| done]. intros s1 s2 u [? ?] [? ?] Hu.
      by apply (getUnion2_ends (fun v => vtype v = vt') s1 s2 u).
  - apply apart_app; [done | done |]. intros s Hs. rewrite getUnion_overlap; [| done | done |].
    + apply existsb_false. intros s' Hs'. specialize (H4 s' Hs'). rewrite existsb_false in H4.
      rewrite overlap_sym. by apply H4.
    + rewrite Forall_forall in Iw. by apply Iw.
  - intros ->. destruct (decide (segs = [])) as [-> | Hne]; [| by destruct (H6 Hne)].
    rewrite app_nil_r. apply In. by destruct (decide (vt = KNull)); [| rewrite H5 in *].
  - intros Halg. apply getUnion_pres; [| by apply H9]. intros s1 s2 u. apply getUnion2_point.
Qed.

(** A step of reading keys keeps the invariant. *)
Definition good_key {N} (key : N -> KVT * list Seg -> result (Key * (KVT * list Seg))) (n : N) : Prop :=
  forall vt cv k vt' cv', cfg_inv vt cv -> key n (vt, cv) = Ok (k, (vt', cv')) ->
    cv' = cv ++ values k /\ cfg_inv vt' cv' /\
    (algorithmType k = ByValue -> Forall single (values k)).

Lemma json_key sid nodes : Forall no_null (default [] nodes) ->
  good_key (fun n => Key_FromJSON (fst n) (snd n)) (sid, nodes).
Proof.
  intros Hn vt cv k vt' cv' Hi E. unfold Key_FromJSON in E. cbn [fst snd] in E.
  destruct nodes as [nodes |]; [| done].
  destruct (read_values _ nodes cv ByValue vt) as [[[segs alg] vt1] |] eqn:Er; [| done].
  injection E as <- <- <-. cbn [values algorithmType]. split; [done |].
  apply (read_values_key SegmentFromJSON nodes vt cv segs alg vt1); [| done | done].
  eapply Forall_impl; [exact Hn | apply json_node].
Qed.

Lemma yaml_key shards sid nodes :
  good_key (fun n => Key_FromYAML shards (fst n) (snd n)) (sid, nodes).
Proof.
  intros vt cv k vt' cv' Hi E. unfold Key_FromYAML in E. cbn [fst snd] in E.
  destruct sid as [sid |]; [| done]. case_bool_decide; [| done]. cbn [negb] in E.
  destruct nodes as [nodes |]; [| done].
  destruct (read_values _ nodes cv ByValue vt) as [[[segs alg] vt1] |] eqn:Er; [| done].
  injection E as <- <- <-. cbn [values algorithmType]. split; [done |].
  apply (read_values_key SegmentFromYAML nodes vt cv segs alg vt1); [| done | done].
  apply Forall_true, yaml_node.
Qed.

Lemma read_keys_ok {N} key (nodes : list N) vt cv ks : Forall (good_key key) nodes -> cfg_inv vt cv ->
  read_keys key nodes (vt, cv) = Ok ks ->
  exists t, cfg_inv t (cv ++ (ks ≫= values)) /\
    Forall (fun k => algorithmType k = ByValue -> Forall single (values k)) ks.
Proof.
  intros Hg. revert vt cv ks. induction Hg as [| n nodes Hn Hg IH]; intros vt cv ks Hi E; cbn in E.
  { injection E as <-. exists vt. cbn. by rewrite app_nil_r. }
  destruct (key n (vt, cv)) as [[k [vt1 cv1]] |] eqn:Ek; [| done]. rewrite R_bind_ok in E.
  destruct (Hn _ _ _ _ _ Hi Ek) as (-> & Hi1 & Hs1).
  destruct (read_keys key nodes (vt1, cv ++ values k)) as [ks1 |] eqn:Er; [| done].
  injection E as <-. destruct (IH _ _ _ Hi1 Er) as (t & Ht & Hs). exists t. split; [| by constructor].
  cbn. by rewrite (assoc_L (++)).
Qed.

(** The keys of a namespace that reading accepts. A JSON config can have a null in a range, which
    reading does not refuse. *)
Definition accepted (ks : list Key) : Prop :=
  (exists nodes, Forall (fun n => Forall no_null (default [] (snd n))) nodes /\
     keys_FromJSON nodes = Ok ks) \/
  (exists shards nodes, keys_FromYAML shards nodes = Ok ks).

(** What an accepted config is: one type of values, no key in two segments, and only single keys
    unless there is a range. *)
Record routable (ks : list Key) (t : KVT) : Prop := {
  rt_wf : Forall seg_wf (ks ≫= values);
  rt_typed : Forall (typed t) (ks ≫= values);
  rt_apart : apart (ks ≫= values);
  rt_single : has_range ks = false -> Forall single (ks ≫= values)
}.

Lemma cfg_inv_nil : cfg_inv KNull [].
Proof. by constructor. Qed.

Lemma accepted_routable ks : accepted ks -> exists t, routable ks t.
Proof.
  intros Ha.
  assert (exists t, cfg_inv t ([] ++ (ks ≫= values)) /\
    Forall (fun k => algorithmType k = ByValue -> Forall single (values k)) ks) as (t & [Hw Ht Hap _] & Hs).
  { destruct Ha as [(nodes & Hn & E) | (shards & nodes & E)].
    - apply (read_keys_ok _ nodes KNull [] ks) in E; [done | | apply cfg_inv_nil].
      eapply Forall_impl; [exact Hn |]. intros [sid ns] ?. by apply json_key.
    - apply (read_keys_ok _ nodes KNull [] ks) in E; [done | | apply cfg_inv_nil].
      apply Forall_true. intros [sid ns]. apply yaml_key. }
  exists t. constructor; try done. intros Hr. apply Forall_forall. intros s (k & Hs' & Hk)%list_elem_of_bind.
  rewrite Forall_forall in Hs. specialize (Hs k Hk). rewrite Forall_forall in Hs. apply Hs; [| done].
  unfold has_range in Hr. rewrite existsb_false in Hr. specialize (Hr k Hk).
  case_bool_decide; [done |]. by destruct (algorithmType k).
Qed.

(** ** The maps *)

Lemma key_segments_fst ks : (key_segments ks).*1 = ks ≫= values.
Proof.
  induction ks as [| k ks IH]; [done |]. unfold key_segments in *. cbn. rewrite fmap_app, IH. f_equal.
  rewrite <- list_fmap_compose. apply list_fmap_id.
Qed.

(** Values that the maps compare without an error. *)
Definition comparable (a b : V) : Prop := IsInt a b = true \/ vtype a = vtype b.

Lemma comparable_sym a b : comparable a b -> comparable b a.
Proof. unfold comparable, IsInt. intros [Hi | Hi]; [left | by right]. by destruct (vtype a), (vtype b). Qed.

Lemma hash_equal_ok a b : comparable a b -> hash_equal a b = Ok (eqb a b).
Proof.
  unfold hash_equal, ValidateTypes. intros [-> | Ht]; [done |].
  destruct (IsInt a b); [done |]. by rewrite bool_decide_eq_true_2.
Qed.

Lemma map_less_ok a b : comparable a b -> map_less a b = Ok (ltb a b).
Proof.
  unfold map_less, ValidateTypes. intros [-> | Ht]; [done |].
  destruct (IsInt a b); [done |]. by rewrite bool_decide_eq_true_2.
Qed.

Lemma map_less_error a b : ~ comparable a b -> map_less a b = Fail (Throw errLogic).
Proof.
  unfold map_less, ValidateTypes, comparable. intros Hn. destruct (IsInt a b); [by destruct Hn; left |].
  rewrite bool_decide_eq_false_2; [done |]. intros ?. apply Hn. by right.
Qed.

Lemma eqb_sym (a b : V) : eqb a b = eqb b a.
Proof. apply andb_comm. Qed.

(** The first segment with a key decides. *)
Definition owner (segs : list (Seg * Z)) (v : V) : option Z :=
  snd <$> find (fun p => covers (fst p) v) segs.

Lemma owner_spec segs v s : apart segs.*1 ->
  owner segs v = Some s <-> exists seg, (seg, s) ∈ segs /\ covers seg v = true.
Proof.
  unfold owner. intros Ha. split.
  - destruct (find _ segs) as [[seg s'] |] eqn:E; [| done]. cbn. intros [= ->].
    apply find_some in E as [Hin Hc]. exists seg. split; [by apply list_elem_of_In | done].
  - intros (seg & Hin & Hc). apply list_elem_of_lookup in Hin as [i Hi].
    destruct (find _ segs) as [[seg' s'] |] eqn:E.
    + apply find_some in E as [Hin' Hc']. apply list_elem_of_In, list_elem_of_lookup in Hin' as [j Hj].
      assert (i = j) as ->; [| rewrite Hi in Hj; by injection Hj as <- <-].
      apply (apart_disjoint _ Ha i j seg seg' v); [.. | done | done]; rewrite list_lookup_fmap.
      * by rewrite Hi.
      * by rewrite Hj.
    + apply find_none with (x := (seg, s)) in E; [| apply list_elem_of_In; by eapply list_elem_of_lookup_2].
      cbn [fst] in E. congruence.
Qed.

(** A single key covers the keys that are equal to it. *)
Lemma covers_single seg v : single seg -> covers seg v = eqb (left seg) v.
Proof.
  unfold single, covers, eqb. intros [H1 H2]%andb_true_iff. destruct (leb (left seg) v); [cbn | done].
  destruct (leb v (right seg)) eqn:E1, (leb v (left seg)) eqn:E2; try done.
  - by rewrite (leb_trans v (right seg) (left seg)) in E2.
  - by rewrite (leb_trans v (left seg) (right seg)) in E1.
Qed.

Context (probed_equal : forall k v, eqb k v = true -> probed k v = true).

Lemma hash_set_new m v s : Forall (fun e => comparable (fst e) v /\ eqb (fst e) v = false) m ->
  hash_set m v s = Ok (m ++ [(v, s)]).
Proof.
  induction 1 as [| [k s'] m [Hc He] Hm IH]; [done |]. cbn [hash_set fst] in *. rewrite IH.
  rewrite hash_equal_ok, R_bind_ok, He by done. by destruct (probed k v).
Qed.

Lemma hash_find_spec segs v :
  Forall (fun p => single (fst p) /\ comparable (left (fst p)) v) segs ->
  hash_find ((fun p => (left (fst p), snd p)) <$> segs) v = Ok (owner segs v).
Proof.
  unfold owner. induction 1 as [| [seg s] segs [Hs Hc] Hm IH]; [done |]. cbn [fst snd] in *. cbn.
  rewrite covers_single, hash_equal_ok, R_bind_ok by done.
  destruct (eqb (left seg) v) eqn:E; [by rewrite probed_equal |]. by destruct (probed (left seg) v).
Qed.

(** Adding single keys to the hash table. *)
Lemma add_segments_hash t done segs : apart (done ++ segs).*1 ->
  Forall (fun p => single (fst p) /\ typed t (fst p)) (done ++ segs) ->
  add_segments (HashValues ((fun p => (left (fst p), snd p)) <$> done)) segs =
    Ok (HashValues ((fun p => (left (fst p), snd p)) <$> (done ++ segs))).
Proof.
  revert done. induction segs as [| [seg s] segs IH]; intros done Ha Hs.
  { by rewrite app_nil_r. }
  cbn [add_segments add_segment]. rewrite hash_set_new.
  - cbn [fmap result_fmap]. rewrite R_bind_ok.
    replace (((fun p => (left (fst p), snd p)) <$> done) ++ [(left seg, s)])
      with ((fun p : Seg * Z => (left (fst p), snd p)) <$> (done ++ [(seg, s)])) by by rewrite fmap_app.
    rewrite cons_middle, (assoc_L (++)) in Ha, Hs. rewrite IH by done.
    by rewrite <- (assoc_L (++)).
  - apply Forall_fmap, Forall_forall. intros [seg' s'] Hin. cbn.
    apply Forall_app in Hs as [Hd Hs]. apply Forall_cons in Hs as [[Hs1 [Ht1 _]] _].
    rewrite Forall_forall in Hd. destruct (Hd _ Hin) as [Hs2 [Ht2 _]]. cbn in *.
    split; [right; by rewrite Ht1, Ht2 |]. rewrite fmap_app in Ha.
    destruct (eqb (left seg') (left seg)) eqn:E; [| done]. exfalso.
    apply list_elem_of_lookup in Hin as [i Hi].
    assert (i = length done); [| apply lookup_lt_Some in Hi; lia].
    apply (apart_disjoint _ Ha _ _ seg' seg (left seg)).
    + rewrite lookup_app_l by (rewrite length_fmap; by eapply lookup_lt_Some). by rewrite list_lookup_fmap, Hi.
    + rewrite lookup_app_r by (rewrite length_fmap; lia). by rewrite length_fmap, Nat.sub_diag.
    + by rewrite covers_single.
    + rewrite covers_single by done. unfold eqb. by rewrite leb_refl.
Qed.

(** The ordered map is sorted, and has the ends of the segments added so far. *)
Definition is_end (seg : Seg) (k : V) (b : bool) : Prop :=
  (k = left seg /\ b = false) \/ (k = right seg /\ b = true /\ eqb (left seg) (right seg) = false).

Definition map_sorted (m : Variant4SegmentMap) : Prop :=
  StronglySorted (fun e1 e2 => ltb (fst (fst e1)) (fst (fst e2)) = true) m.

Lemma ltb_trans (a b c : V) : ltb a b = true -> ltb b c = true -> ltb a c = true.
Proof.
  unfold ltb. rewrite !negb_true_iff. intros H1 H2. apply not_true_iff_false. intros H3.
  destruct (leb_total a b) as [H4 | H4]; [| congruence].
  by rewrite (leb_trans c a b) in H2.
Qed.

Lemma ltb_cases (a b : V) : eqb a b = false -> ltb a b = true \/ ltb a b = false /\ ltb b a = true.
Proof.
  unfold eqb, ltb. destruct (leb b a) eqn:E1, (leb a b) eqn:E2; cbn; try done; auto.
Qed.

Lemma map_set_new m v b s : map_sorted m ->
  Forall (fun e => comparable (fst (fst e)) v /\ eqb (fst (fst e)) v = false) m ->
  exists m', map_set m v b s = Ok m' /\ map_sorted m' /\ Permutation m' ((v, b, s) :: m).
Proof.
  induction 1 as [| [[k kb] ks] m Hm IH Hlt]; intros Hc.
  { exists [(v, b, s)]. split_and!; [done | by repeat constructor | done]. }
  apply Forall_cons in Hc as [[Hk Hne] Hc]. cbn [fst] in *. cbn [map_set].
  rewrite (map_less_ok k v), R_bind_ok by done. destruct (ltb_cases k v Hne) as [E | [E1 E2]].
  - rewrite E. destruct (IH Hc) as (m' & -> & Hs & Hp). cbn [fmap result_fmap]. eexists.
    split_and!; [done | |].
    + constructor; [done |]. rewrite Hp. constructor; [exact E | exact Hlt].
    + rewrite Hp. apply perm_swap.
  - rewrite E1, (map_less_ok v k), R_bind_ok, E2 by by apply comparable_sym.
    eexists. split_and!; [done | | done]. constructor; [by constructor |].
    constructor; [exact E2 |]. eapply Forall_impl; [exact Hlt |]. intros [[k' b'] s'] Hkk. cbn in *.
    by apply ltb_trans with k.
Qed.

Record map_inv (segs : list (Seg * Z)) (m : Variant4SegmentMap) : Prop := {
  mi_sorted : map_sorted m;
  mi_ends : forall k b s, (k, b, s) ∈ m <-> exists seg, (seg, s) ∈ segs /\ is_end seg k b
}.

Lemma is_end_covers seg k b : seg_wf seg -> is_end seg k b -> covers seg k = true.
Proof.
  unfold seg_wf, covers. intros Hw [[-> ->] | [-> _]]; by rewrite Hw, ?leb_refl.
Qed.

Lemma is_end_typed t seg k b : typed t seg -> is_end seg k b -> vtype k = t.
Proof. intros [? ?] [[-> _] | [-> _]]; done. Qed.

Lemma apart_ends_ne (segs : list (Seg * Z)) seg (s : Z) k b k' : apart (segs ++ [(seg, s)]).*1 ->
  Forall seg_wf (segs ++ [(seg, s)]).*1 ->
  (exists seg' s', (seg', s') ∈ segs /\ is_end seg' k b) -> covers seg k' = true ->
  eqb k k' = false.
Proof.
  intros Ha Hw (seg' & s' & Hin & He) Hc. destruct (eqb k k') eqn:E; [exfalso | done].
  rewrite fmap_app in Ha, Hw. apply Forall_app in Hw as [Hw _].
  apply list_elem_of_lookup in Hin as [i Hi].
  assert (segs.*1 !! i = Some seg') as Hi' by by rewrite list_lookup_fmap, Hi.
  assert (seg_wf seg') as Hw' by (rewrite Forall_lookup in Hw; by apply (Hw i)).
  assert (i = length segs); [| apply lookup_lt_Some in Hi; lia].
  apply (apart_disjoint _ Ha _ _ seg' seg k).
  - by rewrite lookup_app_l by (rewrite length_fmap; by eapply lookup_lt_Some).
  - rewrite lookup_app_r by (rewrite length_fmap; lia). by rewrite length_fmap, Nat.sub_diag.
  - by apply is_end_covers with b.
  - unfold covers, eqb in *. apply andb_true_iff in E as [E1 E2], Hc as [C1 C2].
    by rewrite (leb_trans _ k' k), (leb_trans k k' (right seg)).
Qed.

Lemma add_segment_range t segs seg s m : map_inv segs m ->
  apart (segs ++ [(seg, s)]).*1 -> Forall seg_wf (segs ++ [(seg, s)]).*1 ->
  Forall (typed t) (segs ++ [(seg, s)]).*1 ->
  exists m', add_segment (RangeValues m) seg s = Ok (RangeValues m') /\ map_inv (segs ++ [(seg, s)]) m'.
Proof.
  intros [Hs He] Ha Hw Ht. pose proof Ht as Ht'. pose proof Hw as Hw'.
  rewrite fmap_app in Ht', Hw'. apply Forall_app in Ht' as [Htd Hts], Hw' as [_ Hws].
  apply Forall_cons in Hts as [Hts _], Hws as [Hws _]. cbn [fst] in Hts, Hws.
  assert (forall k', vtype k' = t -> covers seg k' = true ->
    Forall (fun e => comparable (fst (fst e)) k' /\ eqb (fst (fst e)) k' = false) m) as Hnew.
  { intros k' Hk' Hck. apply Forall_forall. intros [[k b] s'] (seg' & Hin & Hend)%He. cbn. split.
    - right. rewrite Hk'. apply (is_end_typed t seg' k b); [| done]. rewrite Forall_forall in Htd.
      apply Htd. apply list_elem_of_fmap. by exists (seg', s').
    - apply (apart_ends_ne segs seg s k b); [done | done | by exists seg', s' | done]. }
  cbn [add_segment].
  destruct (map_set_new m (left seg) false s Hs) as (m1 & -> & Hs1 & Hp1).
  { apply Hnew; [apply Hts | unfold covers; by rewrite leb_refl, Hws]. }
  rewrite R_bind_ok. destruct (eqb (left seg) (right seg)) eqn:Esingle; cbn [negb].
  - exists m1. split; [done |]. constructor; [done |]. intros k b s'. rewrite Hp1, elem_of_cons, He.
    setoid_rewrite elem_of_app. setoid_rewrite list_elem_of_singleton. split.
    + intros [[= -> -> ->] | (seg' & ? & ?)]; [exists seg; split; [by right | by left] | exists seg'; auto].
    + intros (seg' & [Hin | [= -> ->]] & Hend); [right; by exists seg' |].
      destruct Hend as [[-> ->] | (_ & _ & ?)]; [by left | congruence].
  - destruct (map_set_new m1 (right seg) true s Hs1) as (m2 & -> & Hs2 & Hp2).
    { rewrite Hp1. constructor; [cbn; split; [right; by rewrite (proj1 Hts), (proj2 Hts) | done] |].
      apply Hnew; [apply Hts | unfold covers; by rewrite leb_refl, Hws]. }
    exists m2. split; [done |]. constructor; [done |]. intros k b s'.
    rewrite Hp2, Hp1, !elem_of_cons, He. setoid_rewrite elem_of_app. setoid_rewrite list_elem_of_singleton.
    split.
    + intros [[= -> -> ->] | [[= -> -> ->] | (seg' & ? & ?)]]; [exists seg.. | exists seg'; auto];
        (split; [by right |]); [by right | by left].
    + intros (seg' & [Hin | [= -> ->]] & Hend); [right; right; by exists seg' |].
      destruct Hend as [[-> ->] | (-> & -> & ?)]; [right; by left | by left].
Qed.

Lemma add_segments_range t done segs m : map_inv done m -> apart (done ++ segs).*1 ->
  Forall seg_wf (done ++ segs).*1 -> Forall (typed t) (done ++ segs).*1 ->
  exists m', add_segments (RangeValues m) segs = Ok (RangeValues m') /\ map_inv (done ++ segs) m'.
Proof.
  revert done m. induction segs as [| [seg s] segs IH]; intros done m Hm Ha Hw Ht.
  { exists m. by rewrite app_nil_r. }
  rewrite cons_middle, (assoc_L (++)) in Ha, Hw, Ht. cbn [add_segments].
  destruct (add_segment_range t done seg s m Hm) as (m1 & -> & Hm1).
  - rewrite fmap_app in Ha. by apply apart_app_l in Ha.
  - rewrite fmap_app in Hw. by apply Forall_app in Hw as [? _].
  - rewrite fmap_app in Ht. by apply Forall_app in Ht as [? _].
  - rewrite R_bind_ok. rewrite cons_middle, (assoc_L (++)). by apply IH.
Qed.

(** [lower_bound] of a sorted map: the first entry whose key is not less. *)
Lemma map_lower_spec m v : map_sorted m -> Forall (fun e => comparable (fst (fst e)) v) m ->
  exists r, map_lower_bound m v = Ok r /\
  match r with
  | Some (k, b, s) => (k, b, s) ∈ m /\ leb v k = true /\
      forall k' b' s', (k', b', s') ∈ m -> leb v k' = true -> leb k k' = true
  | None => forall k b s, (k, b, s) ∈ m -> leb v k = false
  end.
Proof.
  intros Hs. induction Hs as [| [[k b] s] m Hm IH Hlt]; intros Hc.
  { exists None. split; [done |]. intros k b s Hin. by apply not_elem_of_nil in Hin. }
  apply Forall_cons in Hc as [Hk Hc]. cbn [fst] in *. cbn [map_lower_bound].
  rewrite (map_less_ok k v), R_bind_ok by done. unfold ltb. destruct (leb v k) eqn:E; cbn [negb].
  - eexists. split; [done |]. cbn. split_and!; [by left | done |].
    intros k' b' s' [[= -> -> ->] | Hin]%elem_of_cons _; [apply leb_refl |].
    rewrite Forall_forall in Hlt. specialize (Hlt _ Hin). unfold ltb in Hlt. cbn in Hlt.
    apply negb_true_iff in Hlt. destruct (leb_total k k'); [done | congruence].
  - destruct (IH Hc) as (r & -> & Hr). exists r. split; [done |]. destruct r as [[[k1 b1] s1] |].
    + destruct Hr as (H1 & H2 & H3). split_and!; [by right | done |].
      intros k' b' s' [[= -> -> ->] | Hin]%elem_of_cons Hv; [congruence | by apply (H3 k' b' s')].
    + intros k' b' s' [[= -> -> ->] | Hin]%elem_of_cons; [done | by apply (Hr k' b' s')].
Qed.

(** A key is in one segment only. *)
Lemma same_segment (segs : list (Seg * Z)) p1 p2 k : apart segs.*1 -> p1 ∈ segs -> p2 ∈ segs ->
  covers (fst p1) k = true -> covers (fst p2) k = true -> p1 = p2.
Proof.
  intros Ha [i Hi]%list_elem_of_lookup [j Hj]%list_elem_of_lookup H1 H2.
  assert (i = j) as ->; [| congruence].
  apply (apart_disjoint _ Ha i j (fst p1) (fst p2) k); try done; by rewrite list_lookup_fmap, ?Hi, ?Hj.
Qed.

Lemma owner_none segs v seg s : apart segs.*1 -> owner segs v = None -> (seg, s) ∈ segs ->
  covers seg v = false.
Proof.
  intros Ha Hn Hin. apply not_true_iff_false. intros Hc.
  assert (owner segs v = Some s); [| congruence]. apply owner_spec; [done | by exists seg].
Qed.

(** The first end that is not less than a key: its segment covers the key, or none does. *)
Lemma range_decision (segs : list (Seg * Z)) m v k b s : map_inv segs m -> apart segs.*1 -> Forall seg_wf segs.*1 ->
  (k, b, s) ∈ m -> leb v k = true ->
  (forall k' b' s', (k', b', s') ∈ m -> leb v k' = true -> leb k k' = true) ->
  owner segs v = if negb b && negb (eqb k v) then None else Some s.
Proof.
  intros [Hs He] Ha Hw (seg & Hin & Hend)%He Hvk Hmin.
  assert (seg_wf seg) as Hwf.
  { rewrite Forall_forall in Hw. apply Hw, list_elem_of_fmap. by exists (seg, s). }
  pose proof (is_end_covers seg k b Hwf Hend) as Hck.
  destruct (owner segs v) as [s0 |] eqn:Eo.
  - apply owner_spec in Eo as (seg0 & Hin0 & [C1 C2]%andb_true_iff); [| done].
    assert (leb k (right seg0) = true) as Hkr.
    { destruct (eqb (left seg0) (right seg0)) eqn:E.
      - apply andb_true_iff in E as [E1 E2]. apply (leb_trans _ (left seg0)); [| done].
        apply (Hmin _ false s0); [apply He; exists seg0; split; [done | by left] |].
        by apply (leb_trans _ (right seg0)).
      - apply (Hmin _ true s0); [| done]. apply He. exists seg0. split; [done | by right]. }
    assert ((seg, s) = (seg0, s0)) as [= -> ->].
    { apply (same_segment segs _ _ k); try done. cbn. unfold covers.
      by rewrite Hkr, (leb_trans (left seg0) v k). }
    destruct Hend as [[-> ->] | (-> & -> & _)]; [| done]. unfold eqb. by rewrite C1, Hvk.
  - pose proof (owner_none segs v seg s Ha Eo Hin) as Hnc. unfold covers in Hnc.
    destruct Hend as [[-> ->] | (-> & -> & Hne)]; cbn [negb andb].
    + destruct (eqb (left seg) v) eqn:E; [| done]. apply andb_true_iff in E as [E1 E2].
      unfold seg_wf in Hwf. by rewrite E1, (leb_trans v (left seg) (right seg)) in Hnc.
    + exfalso. rewrite Hvk, andb_true_r in Hnc.
      assert (leb v (left seg) = true) as Hvl by (destruct (leb_total v (left seg)); congruence).
      assert (leb (right seg) (left seg) = true) as Hrl.
      { apply (Hmin _ false s); [| done]. apply He. exists seg. split; [done | by left]. }
      unfold eqb in Hne. unfold seg_wf in Hwf. by rewrite Hwf, Hrl in Hne.
Qed.

(** Looking a key up among the ends of the segments finds the segment that covers it. *)
Lemma range_lookup segs m v dflt idx : map_inv segs m -> apart segs.*1 -> Forall seg_wf segs.*1 ->
  Forall (fun e => comparable (fst (fst e)) v) m ->
  NsData_GetShardId (mk_nsdata idx (RangeValues m) dflt) v = Ok (default dflt (owner segs v)).
Proof.
  intros Hi Ha Hw Hc. unfold NsData_GetShardId. cbn [keysToShard nd_defaultShard].
  destruct (map_lower_spec m v (mi_sorted _ _ Hi) Hc) as (r & -> & Hr). rewrite R_bind_ok.
  destruct r as [[[k b] s] |].
  - destruct Hr as (Hin & Hvk & Hmin). rewrite (range_decision segs m v k b s) by done.
    by destruct (negb b && negb (eqb k v)).
  - destruct (owner segs v) as [s |] eqn:Eo; [exfalso | done].
    apply owner_spec in Eo as (seg & Hin & [C1 C2]%andb_true_iff); [| done].
    destruct (eqb (left seg) (right seg)) eqn:E.
    + apply andb_true_iff in E as [E1 E2].
      assert ((left seg, false, s) ∈ m) as Hm by (apply (mi_ends _ _ Hi); exists seg; split; [done | by left]).
      pose proof (Hr _ _ _ Hm) as Hf. by rewrite (leb_trans v (right seg) (left seg)) in Hf.
    + assert ((right seg, true, s) ∈ m) as Hm by (apply (mi_ends _ _ Hi); exists seg; split; [done | by right]).
      by rewrite (Hr _ _ _ Hm) in C2.
Qed.

(** ** The namespaces *)

Lemma fill_ids_spec {A} (l : list (A * Z)) (ids : gset Z) x :
  x ∈ foldl (fun (ids : gset Z) e => {[snd e]} ∪ ids) ids l <-> x ∈ ids \/ x ∈ l.*2.
Proof.
  revert ids. induction l as [| [a s] l IH]; intros ids; cbn [foldl]; [set_solver |].
  rewrite IH. cbn [fmap list_fmap snd]. set_solver.
Qed.

(** The shards of a namespace's config. *)
Definition config_shards (c : Namespace) : gset Z :=
  {[defaultShard c]} ∪ list_to_set (key_segments (keys c)).*2.

(** Where a key of a namespace goes. *)
Definition route (c : Namespace) (v : V) : Z := default (defaultShard c) (owner (key_segments (keys c)) v).

Definition ns_ok (c : Namespace) (d : NsData) : Prop :=
  indexName d = index c /\ getShardsIds d = config_shards c /\
  forall v, Forall (fun seg => comparable (left seg) v) (keys c ≫= values) ->
    NsData_GetShardId d v = Ok (route c v).

Lemma Forall_fst {A B} (P : A -> Prop) (l : list (A * B)) : Forall P l.*1 -> Forall (fun p => P (fst p)) l.
Proof. by rewrite Forall_fmap. Qed.

Lemma hash_namespace c t : routable (keys c) t -> has_range (keys c) = false ->
  exists d, add_namespace None c = Ok d /\ ns_ok c d.
Proof.
  intros [Hw Ht Ha Hs] Hr. specialize (Hs Hr). rewrite <- key_segments_fst in Hw, Ht, Ha, Hs.
  unfold add_namespace. rewrite Hr.
  pose proof (add_segments_hash t [] (key_segments (keys c))) as E. cbn [fmap list_fmap app] in E.
  rewrite E; [| done | by apply Forall_and; split; apply Forall_fst].
  rewrite R_bind_ok. eexists. split; [done |]. split_and!; [done | |].
  - apply set_eq. intros x. unfold getShardsIds, FillUniqueIds. cbn [keysToShard nd_defaultShard].
    rewrite fill_ids_spec, <- list_fmap_compose. unfold config_shards. cbn.
    rewrite elem_of_union, elem_of_list_to_set. done.
  - intros v Hv. rewrite <- key_segments_fst in Hv. unfold NsData_GetShardId, route. cbn [keysToShard].
    rewrite hash_find_spec; [done |]. apply Forall_and. split; [by apply Forall_fst |].
    by apply (Forall_fst (fun seg => comparable (left seg) v)).
Qed.

Lemma range_namespace c t : routable (keys c) t -> has_range (keys c) = true ->
  exists d, add_namespace None c = Ok d /\ ns_ok c d.
Proof.
  intros [Hw Ht Ha _] Hr. rewrite <- key_segments_fst in Hw, Ht, Ha. unfold add_namespace. rewrite Hr.
  destruct (add_segments_range t [] (key_segments (keys c)) []) as (m & -> & Hm); [| done.. |].
  { constructor; [constructor |]. intros k b s. split; [by intros ?%not_elem_of_nil |].
    by intros (? & ?%not_elem_of_nil & _). }
  cbn [app] in Hm. rewrite R_bind_ok. eexists. split; [done |]. split_and!; [done | |].
  - apply set_eq. intros x. unfold getShardsIds, FillUniqueIds. cbn [keysToShard nd_defaultShard].
    rewrite fill_ids_spec. unfold config_shards. rewrite elem_of_union, elem_of_list_to_set.
    f_equiv. rewrite !list_elem_of_fmap. split.
    + intros ([[k b] s] & -> & Hin). apply (mi_ends _ _ Hm) in Hin as (seg & Hin & _). by exists (seg, s).
    + intros ([seg s] & -> & Hin). exists (left seg, false, s). split; [done |].
      apply (mi_ends _ _ Hm). exists seg. split; [done | by left].
  - intros v Hv. rewrite <- key_segments_fst in Hv. apply range_lookup; [done.. |].
    apply Forall_forall. intros [[k b] s] (seg & Hin & He)%(mi_ends _ _ Hm). cbn [fst].
    assert (seg ∈ (key_segments (keys c)).*1) as Hin' by (apply list_elem_of_fmap; by exists (seg, s)).
    rewrite Forall_forall in Hv, Ht. specialize (Hv _ Hin'). specialize (Ht _ Hin').
    revert Hv. unfold comparable, IsInt. rewrite (is_end_typed t seg k b), (proj1 Ht) by done. done.
Qed.

Lemma make_spec cfg m : Forall (fun c => accepted (keys c)) cfg -> NoDup (nocase ∘ ns <$> cfg) ->
  (forall c, c ∈ cfg -> m !! nocase (ns c) = None) ->
  exists m', ShardingKeys_make cfg m = Ok m' /\
    (forall c, c ∈ cfg -> exists d, m' !! nocase (ns c) = Some d /\ ns_ok c d) /\
    (forall n, n ∉ nocase ∘ ns <$> cfg -> m' !! n = m !! n).
Proof.
  intros Hok. revert m. induction Hok as [| c cfg Hc Hok IH]; intros m Hnd Hm.
  { exists m. split_and!; [done | by intros c ?%not_elem_of_nil | done]. }
  cbn [fmap list_fmap] in Hnd. apply NoDup_cons in Hnd as [Hn Hnd].
  destruct (accepted_routable _ Hc) as [t Ht]. cbn [ShardingKeys_make].
  rewrite (Hm c) by (by left).
  assert (exists d, add_namespace None c = Ok d /\ ns_ok c d) as (d & -> & Hd).
  { destruct (has_range (keys c)) eqn:E; [by apply range_namespace with t | by apply hash_namespace with t]. }
  rewrite R_bind_ok. destruct (IH (<[nocase (ns c) := d]> m)) as (m' & E & H1 & H2); [done | |].
  - intros c' Hc'. rewrite lookup_insert_ne; [apply Hm; by right |]. intros Heq. apply Hn.
    apply list_elem_of_fmap. by exists c'.
  - exists m'. split_and!; [done | |].
    + intros c' [-> | Hc']%elem_of_cons; [| by apply H1]. exists d. split; [| done].
      rewrite H2 by done. apply lookup_insert_eq.
    + intros n Hnn. cbn in Hnn. apply not_elem_of_cons in Hnn as [Hne Hnn]. rewrite H2 by done.
      by rewrite lookup_insert_ne.
Qed.

Lemma route_spec c v s : apart (keys c ≫= values) ->
  route c v = s <->
    (exists seg, (seg, s) ∈ key_segments (keys c) /\ covers seg v = true) \/
    s = defaultShard c /\ covers_any (keys c ≫= values) v = false.
Proof.
  intros Ha. rewrite <- key_segments_fst in *. unfold route.
  assert (covers_any (key_segments (keys c)).*1 v = false <->
    owner (key_segments (keys c)) v = None) as Hnone.
  { unfold covers_any. rewrite existsb_false. cbv beta. split.
    - intros Hf. destruct (owner _ v) as [s' |] eqn:E; [| done].
      apply owner_spec in E as (seg & Hin & Hc); [| done]. specialize (Hf seg). cbn in Hf.
      rewrite Hf in Hc; [done |]. apply list_elem_of_fmap. by exists (seg, s').
    - intros Hn seg ([seg' s'] & -> & Hin)%list_elem_of_fmap. by apply (owner_none _ _ seg' s' Ha Hn). }
  rewrite Hnone. destruct (owner _ v) as [s' |] eqn:E; cbn [from_option id].
  - rewrite <- owner_spec, E by done. split; [intros ->; by left | intros [[= ->] | [_ ?]]; done].
  - rewrite <- owner_spec, E by done. split; [intros ->; by right | intros [? | [-> _]]; done].
Qed.

Lemma route_in c v : apart (keys c ≫= values) -> route c v ∈ config_shards c.
Proof.
  intros Ha. destruct (proj1 (route_spec c v _ Ha) eq_refl) as [(seg & Hin & _) | [-> _]];
    unfold config_shards; rewrite elem_of_union, elem_of_list_to_set; [right | left; set_solver].
  apply list_elem_of_fmap. by exists (seg, route c v).
Qed.

(** C25: Routing by key. When every namespace of a config has keys that reading the config accepts, and
    the names of the namespaces differ (without regard to case), the tables are built without an
    error, and for each namespace: a key value (of a type that compares with the configured ones)
    goes to the shard whose segments, single keys or ranges, cover it, which is one shard only,
    and to the default shard when there is none; the set of shards for a query without a key has
    this shard and exactly the shards of the config. A namespace that is not in the config is an
    error. *)
Theorem shard_of_key cfg : Forall (fun c => accepted (keys c)) cfg -> NoDup (nocase ∘ ns <$> cfg) ->
  exists m, ShardingKeys_make cfg ∅ = Ok m /\
    (forall c name, c ∈ cfg -> nocase name = nocase (ns c) ->
       GetShardsIds_ns m name = Ok (config_shards c) /\
       forall v, Forall (fun seg => comparable (left seg) v) (keys c ≫= values) ->
         GetShardId m name v = Ok (route c v) /\ route c v ∈ config_shards c /\
         (forall s, route c v = s <->
            (exists seg, (seg, s) ∈ key_segments (keys c) /\ covers seg v = true) \/
            s = defaultShard c /\ covers_any (keys c ≫= values) v = false)) /\
    (forall name v, nocase name ∉ nocase ∘ ns <$> cfg ->
       GetShardId m name v = Fail (Throw errLogic) /\ IsSharded m name = false).
Proof.
  intros Hok Hnd. destruct (make_spec cfg ∅ Hok Hnd) as (m & E & H1 & H2); [done |].
  exists m. split_and!; [done | |].
  - intros c name Hc Hname. destruct (H1 c Hc) as (d & Hd & Hi & Hids & Hr).
    unfold GetShardsIds_ns, GetShardId. rewrite Hname, Hd, Hids. split; [done |].
    intros v Hv. split; [by apply Hr |]. rewrite Forall_forall in Hok.
    destruct (accepted_routable _ (Hok c Hc)) as [t Ht].
    split; [apply route_in | intros s; apply route_spec]; by apply (rt_apart _ _ Ht).
  - intros name v Hn. unfold GetShardId, IsSharded. by rewrite H2, lookup_empty.
Qed.

(** ** Skipping the check of the data *)

(** Items have a value for each index; the sharding index of the config decides. *)
Definition route_item (c : Namespace) (item : bytes -> V) : Z := route c (item (index c)).

Lemma key_segments_in ks seg s : (seg, s) ∈ key_segments ks <->
  exists k, k ∈ ks /\ s = shardId k /\ seg ∈ values k.
Proof.
  unfold key_segments. rewrite list_elem_of_bind. split.
  - intros (k & Hin & Hk).
    apply list_elem_of_fmap in Hin as (seg' & [= -> ->] & Hs). by exists k.
  - intros (k & Hk & -> & Hs). exists k. split; [| done]. apply list_elem_of_fmap. by exists seg.
Qed.

Lemma covers_any_in (segs : list Seg) seg v : seg ∈ segs -> covers seg v = true -> covers_any segs v = true.
Proof. intros Hin Hc. apply existsb_exists. exists seg. split; [by apply list_elem_of_In | done]. Qed.

Lemma shard_values_first ks sid : NoDup (shardId <$> ks) -> forall k, k ∈ ks -> shardId k = sid ->
  shard_values ks sid = values k.
Proof.
  intros Hnd k Hk Hs. unfold shard_values.
  destruct (list_find _ ks) as [[i k'] |] eqn:E.
  - apply list_find_Some in E as (Hi & Hs' & _). apply list_elem_of_lookup in Hk as [j Hj].
    assert (i = j) as ->; [| congruence].
    apply (NoDup_lookup _ i j sid Hnd); by rewrite list_lookup_fmap, ?Hi, ?Hj; cbn; f_equal.
  - apply list_find_None in E. rewrite Forall_forall in E. by destruct (E k Hk).
Qed.

Lemma shard_values_in ks sid seg : seg ∈ shard_values ks sid -> (seg, sid) ∈ key_segments ks.
Proof.
  unfold shard_values. destruct (list_find _ ks) as [[i k] |] eqn:E; [| by intros ?%not_elem_of_nil].
  intros Hin. apply list_find_Some in E as (Hi & Hs & _). apply key_segments_in. exists k.
  split_and!; [by eapply list_elem_of_lookup_2 | done | done].
Qed.

(** When the check of a namespace's data for a new sharding config is skipped, it was not needed:
    every item that the old config put on this node's shard goes, in the new config, to the shard
    that this node has in it. This needs both configs to shard by the same index and every shard
    to have one entry in the old config, which the code does not look at: see [check_gaps]. *)
Theorem skipped_check_is_safe c thisShardId old i it oldThisShardId item :
  list_find (fun n => ns n = ns c) old = Some (i, it) -> accepted (keys it) -> accepted (keys c) ->
  index it = index c -> NoDup (shardId <$> keys it) ->
  needQueryCheck c thisShardId old oldThisShardId = false ->
  route_item it item = oldThisShardId -> route_item c item = thisShardId.
Proof.
  intros Hf Hit Hc Hidx Hnd Hn Hr. unfold route_item in *. rewrite Hidx in Hr.
  set (v := item (index c)) in *. unfold needQueryCheck in Hn. rewrite Hf in Hn.
  destruct (accepted_routable _ Hit) as [t0 [W0 _ A0 _]], (accepted_routable _ Hc) as [t1 [W1 _ A1 _]].
  destruct (Z.eqb_spec oldThisShardId (defaultShard it)) as [| Hne]; [done |].
  apply route_spec in Hr as [(seg & Hin & Hcv) | [-> _]]; [| done..].
  apply key_segments_in in Hin as (k & Hk & Hs & Hseg).
  assert (covers_any (shard_values (keys it) oldThisShardId) v = true) as Hold.
  { rewrite (shard_values_first _ _ Hnd k) by done. by apply covers_any_in with seg. }
  assert (Forall seg_wf (shard_values (keys it) oldThisShardId)) as Hwold.
  { apply Forall_forall. intros s Hin. rewrite Forall_forall in W0. apply W0.
    rewrite (shard_values_first _ _ Hnd k) in Hin by done. apply list_elem_of_bind. by exists k. }
  apply route_spec; [done |]. destruct (Z.eqb_spec thisShardId (defaultShard c)) as [-> | Hnd'].
  - destruct (covers_any (keys c ≫= values) v) eqn:Ec; [left | by right].
    apply existsb_exists in Ec as (s & (k1 & Hs1 & Hk1)%list_elem_of_In%list_elem_of_bind & Hcs).
    exists s. split; [| done]. apply key_segments_in. exists k1. split_and!; [done | | done].
    destruct (decide (shardId k1 = defaultShard c)) as [| Hother]; [done | exfalso].
    apply not_true_iff_false in Hn. apply Hn. apply intersected_all_spec; [| done |].
    + apply Forall_forall. intros s' (k2 & Hs2 & [_ Hk2]%list_elem_of_filter)%list_elem_of_bind.
      rewrite Forall_forall in W1. apply W1, list_elem_of_bind. by exists k2.
    + exists v. split; [| done]. apply covers_any_in with s; [| done].
      apply list_elem_of_bind. exists k1. split; [done |]. by apply list_elem_of_filter.
  - apply negb_false_iff in Hn. pose proof (contain_covers _ _ Hn v Hold) as Hnew.
    apply existsb_exists in Hnew as (s & Hs1%list_elem_of_In & Hcs). left. exists s.
    split; [by apply shard_values_in | done].
Qed.

End Sharding.

(** ** Integer keys *)

Definition int_config : Namespace (V := Z) :=
  mk_ns (str "items") (str "id")
    [mk_key 1 ByRange [mk_seg 10 20 true; mk_seg 30 30 true]; mk_key 2 ByValue [mk_seg 5 5 true]] 0.

Definition int_nodes : list (Z * option (list (Node (V := Z)))) :=
  [(1, Some [NRange [10; 15]; NRange [20; 12]; NScalar 30]); (2, Some [NScalar 5])].

Lemma int_config_accepted : accepted (fun _ => KInt64) (keys int_config).
Proof.
  left. exists int_nodes. split; [| reflexivity].
  repeat constructor; discriminate.
Qed.

Lemma shard_of_key_witness :
  exists m, ShardingKeys_make (fun _ => KInt64) eqb [int_config] ∅ = Ok m /\
    GetShardId (fun _ => KInt64) eqb m (str "ITEMS") 17 = Ok 1 /\
    GetShardId (fun _ => KInt64) eqb m (str "items") 21 = Ok 0.
Proof.
  destruct (shard_of_key (fun _ : Z => KInt64) eqb ltac:(done) [int_config]) as (m & E & H & _).
  - constructor; [exact int_config_accepted | constructor].
  - repeat constructor. intros Hin. by apply not_elem_of_nil in Hin.
  - exists m. split; [exact E |].
    destruct (H int_config (str "ITEMS") ltac:(left) eq_refl) as [_ H1].
    destruct (H int_config (str "items") ltac:(left) eq_refl) as [_ H2].
    assert (forall v, Forall (fun seg : Segment => comparable (fun _ : Z => KInt64) (left seg) v)
      (keys int_config ≫= values)) as Hcmp by (intros v; repeat constructor).
    split; [rewrite (proj1 (H1 17 (Hcmp 17))) | rewrite (proj1 (H2 21 (Hcmp 21)))]; reflexivity.
Defined.

Lemma skipped_check_is_safe_witness : exists old c,
  needQueryCheck c 7 old 1 = false /\ route_item int_config (fun _ => 15) = 1 /\
  route_item c (fun _ => 15) = 7.
Proof.
  set (c := mk_ns (str "items") (str "id") [mk_key 7 ByRange [mk_seg 0 40 true]] 0).
  exists [int_config], c. split_and!; [reflexivity | reflexivity |].
  apply (skipped_check_is_safe (fun _ => KInt64) c 7 [int_config] 0 int_config 1 (fun _ => 15));
    try reflexivity.
  - exact int_config_accepted.
  - left. exists [(7, Some [NRange [0; 40]])]. split; [repeat constructor; discriminate | reflexivity].
  - repeat constructor; set_solver.
Defined.

(** Two gaps in the decision to skip the check. The old config below shards by "id" and the new
    one, with the same keys, by "price": the check is skipped, but an item with id 15 and price 99,
    which the old config put on this node's shard 1, now belongs to the default shard. And when the
    old config gives a shard two entries, only the first one is looked at: an item of the second
    one is not noticed. *)
Theorem check_gaps :
  (let old := mk_ns (str "items") (str "id") [mk_key 1 ByRange [mk_seg 10 20 true]] 0 in
   let c := mk_ns (str "items") (str "price") [mk_key 1 ByRange [mk_seg 10 20 true]] 0 in
   let item idx := if bool_decide (idx = str "id") then 15 else 99 in
   needQueryCheck c 1 [old] 1 = false /\ route_item old item = 1 /\ route_item c item = 0) /\
  (let old := mk_ns (str "items") (str "id")
                [mk_key 1 ByRange [mk_seg 10 20 true]; mk_key 1 ByValue [mk_seg 25 25 true]] 0 in
   let c := mk_ns (str "items") (str "id") [mk_key 1 ByRange [mk_seg 10 20 true]] 0 in
   needQueryCheck c 1 [old] 1 = false /\ route_item old (fun _ => 25) = 1 /\
   route_item c (fun _ => 25) = 0).
Proof. cbv zeta. split_and!; reflexivity. Qed.
