(* ===== verification/TagsPathCache.v ===== *)
(** The cache from paths of tags to the fields that are indexed: [core/cjson/tagspathcache.h].

    A cache is a list of entries by tag; an entry may have a sub-cache for longer paths, which the
    code keeps behind a [shared_ptr]. Sub-caches are therefore cells of a heap: copying a cache (as
    copying a [TagsMatcherImpl] does) copies the entries and shares the sub-caches. *)

From S2P Require Import Prelude CTag Variant.

(** [FieldProperties] *)
Inductive FieldProperties : Set :=
| kNotIndexed
| Indexed (indexNumber_ arrayDim_ : Z) (valueType_ : KVT) (isArray_ isSparse_ : bool).

#[export] Instance FieldProperties_eq_dec : EqDecision FieldProperties.
Proof. solve_decision. Defined.

Definition IsIndexed (f : FieldProperties) : bool :=
  match f with kNotIndexed => false | Indexed _ _ _ _ _ => true end.
Definition IsSparse (f : FieldProperties) : bool :=
  match f with kNotIndexed => false | Indexed _ _ _ _ s => s end.
Definition IsArray (f : FieldProperties) : bool :=
  match f with kNotIndexed => false | Indexed _ _ _ a _ => a end.
Definition IsRegularIndex (f : FieldProperties) : bool := IsIndexed f && negb (IsSparse f).
Definition IsSparseIndex (f : FieldProperties) : bool := IsIndexed f && IsSparse f.
Definition SparseNumber (f : FieldProperties) : Z :=
  match f with kNotIndexed => -1 | Indexed n _ _ _ _ => n end.
Definition IndexNumber (f : FieldProperties) : Z :=
  if IsIndexed f && negb (IsSparse f) then SparseNumber f else -1.
Definition ValueType (f : FieldProperties) : KVT :=
  match f with kNotIndexed => KUndefined | Indexed _ _ t _ _ => t end.
Definition ArrayDim (f : FieldProperties) : Z :=
  match f with kNotIndexed => 0 | Indexed _ d _ _ _ => u32 d end.

(** ** The heap of sub-caches *)

Record CacheEntry : Set := mk_entry { subCache_ : option Z; field_ : FieldProperties }.

Definition TagsPathCache : Set := list CacheEntry.

(** The cells in use, and the next one to allocate. *)
Record Heap : Type := mk_heap { cells : gmap Z TagsPathCache; next : Z }.

Definition empty_entry : CacheEntry := mk_entry None kNotIndexed.
Definition empty_heap : Heap := mk_heap ∅ 0.

(** [make_shared<TagsPathCache>()] *)
Definition alloc (h : Heap) : Z * Heap := (next h, mk_heap (<[next h := []]> (cells h)) (next h + 1)).

Definition write_cell (l : Z) (c : TagsPathCache) (h : Heap) : Heap :=
  mk_heap (<[l := c]> (cells h)) (next h).

(** [entries_[tag]] *)
Definition entry (c : TagsPathCache) (tag : Z) : CacheEntry := default empty_entry (znth c tag).

(** [entries_.resize(tag + 1)], when it is shorter. *)
Definition ensure (c : TagsPathCache) (tag : Z) : TagsPathCache :=
  if zlen c <=? tag then zresize c (tag + 1) empty_entry else c.

(** [Set]: the cache and the heap after it. *)
Fixpoint cache_Set (path : list Z) (field : FieldProperties) (c : TagsPathCache) (h : Heap)
  : result (TagsPathCache * Heap) :=
  match path with
  | [] => Fail AssertFail
  | [tag] =>
      let c := ensure c tag in
      Ok (zset c tag (mk_entry (subCache_ (entry c tag)) field), h)
  | tag :: path =>
      let c := ensure c tag in
      let e := entry c tag in
      let '(l, h) := match subCache_ e with Some l => (l, h) | None => alloc h end in
      sub ← of_option Undefined (cells h !! l);
      '(sub, h) ← cache_Set path field sub h;
      Ok (zset c tag (mk_entry (Some l) (field_ e)), write_cell l sub h)
  end.

(** One step of a lookup: the answer, or the sub-cache to go on with. [last] tells whether the
    path has no other nodes. *)
Definition checkPathTag (tag : Z) (last : bool) (c : TagsPathCache) : FieldProperties + Z :=
  if zlen c <=? tag then inl kNotIndexed
  else
    let cacheEntry := entry c tag in
    if last then inl (field_ cacheEntry)
    else match subCache_ cacheEntry with None => inl kNotIndexed | Some l => inr l end.

Fixpoint cache_Lookup (path : list Z) (c : TagsPathCache) (h : Heap) : result FieldProperties :=
  match path with
  | [] => Fail AssertFail
  | tag :: path =>
      match checkPathTag tag (bool_decide (path = [])) c with
      | inl f => Ok f
      | inr l =>
          sub ← of_option Undefined (cells h !! l);
          cache_Lookup path sub h
      end
  end.

(** The nodes of indexed paths: names and array indexes. *)
Inductive PathNode : Set := NodeName (tag : Z) | NodeIndex (i : Z).

#[export] Instance PathNode_eq_dec : EqDecision PathNode.
Proof. solve_decision. Defined.

Definition IsTagName (n : PathNode) : bool := match n with NodeName _ => true | NodeIndex _ => false end.
Definition IsTagIndex (n : PathNode) : bool := negb (IsTagName n).

Fixpoint cache_Lookup_nodes (path : list PathNode) (c : TagsPathCache) (h : Heap)
  : result FieldProperties :=
  match path with
  | [] => Fail AssertFail
  | NodeIndex _ :: path => cache_Lookup_nodes path c h
  | NodeName tag :: path =>
      match checkPathTag tag (bool_decide (path = [])) c with
      | inl f => Ok f
      | inr l =>
          sub ← of_option Undefined (cells h !! l);
          cache_Lookup_nodes path sub h
      end
  end.

Definition cache_Clear (c : TagsPathCache) : TagsPathCache := [].
Definition cache_Empty (c : TagsPathCache) : bool := bool_decide (c = []).

(** ** Well-formed caches *)

(** The cell of the sub-cache of a path. *)
Fixpoint locate (path : list Z) (c : TagsPathCache) (h : Heap) : option Z :=
  match path with
  | [] => None
  | [tag] => subCache_ (entry c tag)
  | tag :: path => l ← subCache_ (entry c tag); sub ← cells h !! l; locate path sub h
  end.

Definition heap_ok (h : Heap) : Prop := forall l, is_Some (cells h !! l) -> l < next h.

(** The sub-caches of a cache are cells of their own: no two paths share one. *)
Record cache_wf (c : TagsPathCache) (h : Heap) : Prop := {
  pw_closed : forall p l, locate p c h = Some l -> is_Some (cells h !! l);
  pw_unshared : forall p q l, locate p c h = Some l -> locate q c h = Some l -> p = q
}.

Lemma entry_out c tag : zlen c <= tag -> entry c tag = empty_entry.
Proof. intros Hc. unfold entry. by rewrite znth_None by lia. Qed.

Lemma cache_Lookup_cons tag path c h : cache_Lookup (tag :: path) c h =
  match path with
  | [] => Ok (field_ (entry c tag))
  | _ => match subCache_ (entry c tag) with
         | None => Ok kNotIndexed
         | Some l => sub ← of_option Undefined (cells h !! l); cache_Lookup path sub h
         end
  end.
Proof.
  cbn [cache_Lookup]. unfold checkPathTag. destruct (Z.leb_spec (zlen c) tag).
  - rewrite entry_out by done. by destruct path.
  - destruct path; [done |]. cbn [bool_decide]. by destruct (subCache_ (entry c tag)).
Qed.

Lemma locate_cons tag path c h : path <> [] ->
  locate (tag :: path) c h = (l ← subCache_ (entry c tag); sub ← cells h !! l; locate path sub h).
Proof. by destruct path. Qed.

(** Lookups only read the cells of the cache. *)
Lemma lookup_frame h h' q c : (forall p l, locate p c h = Some l -> cells h' !! l = cells h !! l) ->
  locate q c h' = locate q c h /\ cache_Lookup q c h' = cache_Lookup q c h.
Proof.
  revert c. induction q as [| tag q IH]; intros c Hc; [done |].
  rewrite !cache_Lookup_cons. destruct q as [| t q]; [done |]. rewrite !locate_cons by done.
  destruct (subCache_ (entry c tag)) as [l |] eqn:E; [| done]. cbn [mbind option_bind].
  rewrite (Hc [tag] l) by done. destruct (cells h !! l) as [sub |] eqn:El; [| done]. cbn [of_option].
  rewrite !R_bind_ok. apply IH. intros p l' Hp. apply (Hc (tag :: p)).
  destruct p as [| t' p]; [done |]. rewrite locate_cons by done. rewrite E. cbn. by rewrite El.
Qed.

Lemma entry_ensure c tag t : 0 <= tag -> 0 <= t -> entry (ensure c tag) t = entry c t.
Proof.
  intros Ht Ht'. unfold ensure. destruct (Z.leb_spec (zlen c) tag); [| done].
  destruct (Z.ltb_spec t (tag + 1)).
  - unfold entry. by rewrite znth_zresize by lia.
  - rewrite !entry_out; [done | lia | rewrite zlen_zresize; lia].
Qed.

Lemma entry_zset c tag e t : 0 <= tag ->
  entry (zset (ensure c tag) tag e) t = if decide (t = tag) then e else entry c t.
Proof.
  intros Ht. assert (tag < zlen (ensure c tag)) as Hl.
  { unfold ensure. destruct (Z.leb_spec (zlen c) tag); [rewrite zlen_zresize; lia | lia]. }
  case_decide as Hd.
  - subst t. unfold entry. by rewrite znth_zset_eq by lia.
  - destruct (decide (0 <= t)); [| unfold entry; by rewrite !znth_None by lia].
    rewrite <- (entry_ensure c tag t) by done. unfold entry. by rewrite znth_zset_ne by lia.
Qed.

Lemma locate_ext c c' h q : (forall t, subCache_ (entry c' t) = subCache_ (entry c t)) ->
  locate q c' h = locate q c h.
Proof.
  intros He. destruct q as [| tag [| t q]]; [done | apply He |]. rewrite !locate_cons by done.
  by rewrite He.
Qed.

(** The cells that are reached through one tag. *)
Lemma locate_sub tag c h l sub : subCache_ (entry c tag) = Some l -> cells h !! l = Some sub ->
  (forall p, p <> [] -> locate (tag :: p) c h = locate p sub h) /\
  (forall q, q <> [] -> cache_Lookup (tag :: q) c h = cache_Lookup q sub h).
Proof.
  intros E El. split.
  - intros p Hp. rewrite locate_cons, E by done. cbn. by rewrite El.
  - intros [| t q] Hq; [done |]. rewrite (cache_Lookup_cons tag), E, El. reflexivity.
Qed.

Lemma entry_nil t : entry [] t = empty_entry.
Proof. unfold entry. rewrite znth_None; [done |]. unfold zlen; cbn; lia. Qed.

Lemma locate_nil_cache p h : locate p [] h = None.
Proof.
  destruct p as [| tag p]; [done |]. destruct p; [cbn; by rewrite entry_nil |].
  rewrite locate_cons by done. by rewrite entry_nil.
Qed.

Lemma lookup_nil_cache q h : q <> [] -> cache_Lookup q [] h = Ok kNotIndexed.
Proof. destruct q as [| tag q]; [done |]. intros _. rewrite cache_Lookup_cons, entry_nil. by destruct q. Qed.

Lemma cache_wf_nil h : cache_wf [] h.
Proof. split; intros *; by rewrite locate_nil_cache. Qed.

(** The sub-cache that [Set] goes on with, an old one or a new one. *)
Record descend (tag : Z) (c : TagsPathCache) (h : Heap) (l : Z) (h0 : Heap) (sub : TagsPathCache)
  : Prop := {
  de_heap : heap_ok h0 /\ next h <= next h0 /\ l < next h0;
  de_cell : cells h0 !! l = Some sub;
  de_old : forall l', l' < next h -> cells h0 !! l' = cells h !! l';
  de_locate : forall p, p <> [] -> locate p sub h0 = locate (tag :: p) c h;
  de_lookup : forall q, q <> [] -> cache_Lookup q sub h0 = cache_Lookup (tag :: q) c h;
  de_here : subCache_ (entry c tag) = Some l \/ subCache_ (entry c tag) = None /\ l = next h
}.

Lemma descend_ok tag c h : cache_wf c h -> heap_ok h ->
  exists l h0 sub, (match subCache_ (entry c tag) with Some l => (l, h) | None => alloc h end) = (l, h0) /\
    descend tag c h l h0 sub.
Proof.
  intros [Hc Hu] Hh. destruct (subCache_ (entry c tag)) as [l |] eqn:E.
  - destruct (Hc [tag] l E) as [sub Hsub]. exists l, h, sub. split; [done |].
    destruct (locate_sub tag c h l sub E Hsub) as [H1 H2].
    constructor; try done; [| intros; by rewrite H1 | intros; by rewrite H2 | by left].
    split_and!; [done | lia | by apply Hh].
  - exists (next h), (snd (alloc h)), []. split; [done |]. cbn.
    constructor; cbn [cells next snd alloc]; [| by rewrite lookup_insert_eq | | | | by right].
    + split_and!; [| lia | lia]. intros l. cbn [cells next]. destruct (decide (l = next h)) as [-> |]; [lia |].
      rewrite lookup_insert_ne by done. intros ?%Hh. lia.
    + intros l' Hl. rewrite lookup_insert_ne by lia. done.
    + intros p Hp. rewrite locate_nil_cache, locate_cons by done. by rewrite E.
    + intros q Hq. rewrite lookup_nil_cache by done. rewrite cache_Lookup_cons, E. by destruct q.
Qed.

Lemma descend_wf tag c h l h0 sub : cache_wf c h -> heap_ok h -> descend tag c h l h0 sub ->
  cache_wf sub h0 /\ (forall p, locate p sub h0 <> Some l).
Proof.
  intros [Hc Hu] Hh [(Hh0 & Hn & Hl) Hcell Hold Hloc Hlook Hhere].
  assert (forall p l', locate p sub h0 = Some l' -> locate (tag :: p) c h = Some l' /\ p <> []) as Hp.
  { intros [| t p] l' E; [done |]. by rewrite <- Hloc. }
  split.
  - split.
    + intros p l' E. destruct (Hp p l' E) as [E' _]. pose proof (Hc _ _ E') as Hsome.
      rewrite Hold; [done | by apply Hh].
    + intros p q l' E1 E2. destruct (Hp p l' E1) as [E1' _], (Hp q l' E2) as [E2' _].
      by injection (Hu _ _ _ E1' E2').
  - intros p E. destruct (Hp p l E) as [E' Hne]. destruct Hhere as [Ht | [_ ->]].
    + destruct p; [done |]. by injection (Hu _ [tag] _ E' Ht).
    + pose proof (Hh _ (Hc _ _ E')). lia.
Qed.

(** What [Set] guarantees. *)
Record set_post (path : list Z) (f : FieldProperties) (c : TagsPathCache) (h : Heap)
    (c' : TagsPathCache) (h' : Heap) : Prop := {
  sp_heap : heap_ok h' /\ next h <= next h';
  sp_frame : forall l, l < next h -> (forall p, locate p c h <> Some l) -> cells h' !! l = cells h !! l;
  sp_locs : forall p l, locate p c' h' = Some l -> locate p c h = Some l \/ next h <= l;
  sp_keep : forall l, is_Some (cells h !! l) -> is_Some (cells h' !! l);
  sp_wf : cache_wf c' h';
  sp_lookup : forall q, q <> [] ->
    cache_Lookup q c' h' = if decide (q = path) then Ok f else cache_Lookup q c h
}.

Lemma set_leaf tag f c h : 0 <= tag -> cache_wf c h -> heap_ok h ->
  set_post [tag] f c h (zset (ensure c tag) tag (mk_entry (subCache_ (entry c tag)) f)) h.
Proof.
  intros Ht [Hc Hu] Hh. set (c' := zset _ _ _).
  assert (forall q, locate q c' h = locate q c h) as Hloc.
  { intros q. apply locate_ext. intros t. unfold c'. rewrite entry_zset by done.
    by case_decide; subst. }
  constructor; [done | done | intros p l; rewrite Hloc; by left | done | |].
  - split; intros *; rewrite !Hloc; [apply Hc | apply Hu].
  - intros [| t q] Hq; [done |]. rewrite !cache_Lookup_cons. unfold c'. rewrite entry_zset by done.
    destruct q as [| t' q].
    + repeat case_decide; cbn; congruence.
    + rewrite (decide_False (P := t :: t' :: q = [tag])) by done. by case_decide; subst.
Qed.

(** Going through another tag is not affected by what happened below [tag]. *)
Lemma other_tag tag t c h l h0 sub h2 e : 0 <= tag -> t <> tag -> cache_wf c h -> heap_ok h ->
  descend tag c h l h0 sub ->
  (forall l', l' < next h0 -> l' <> l -> (forall p, locate p sub h0 <> Some l') -> cells h2 !! l' = cells h0 !! l') ->
  let c2 := zset (ensure c tag) tag e in
  (forall p, locate (t :: p) c2 h2 = locate (t :: p) c h) /\
  (forall q, cache_Lookup (t :: q) c2 h2 = cache_Lookup (t :: q) c h).
Proof.
  intros Htag Hne [Hc Hu] Hh [(Hh0 & Hn & Hl) Hcell Hold Hloc Hlook Hhere] Hframe c2.
  assert (entry c2 t = entry c t) as He by (unfold c2; rewrite entry_zset by done; by rewrite decide_False).
  assert (forall p l', locate (t :: p) c h = Some l' -> cells h2 !! l' = cells h !! l') as Hcells.
  { intros p l' E. assert (l' < next h) as Hlt by (apply Hh; by apply (Hc (t :: p))).
    rewrite <- Hold by done. apply Hframe; [lia | |].
    - intros ->. destruct Hhere as [Ht | [_ ->]]; [| lia].
      pose proof (Hu (t :: p) [tag] l E Ht). congruence.
    - intros p' E'. destruct p' as [| t' p']; [done |]. rewrite Hloc in E' by done.
      pose proof (Hu _ _ _ E E'). congruence. }
  destruct (subCache_ (entry c t)) as [lt |] eqn:Et.
  - destruct (Hc [t] lt Et) as [st Hst].
    assert (cells h2 !! lt = Some st) as Hst2 by (by rewrite (Hcells [] lt)).
    destruct (locate_sub t c h lt st Et Hst) as [A1 A2].
    destruct (locate_sub t c2 h2 lt st) as [B1 B2]; [by rewrite He | done |].
    assert (forall q, locate q st h2 = locate q st h /\ cache_Lookup q st h2 = cache_Lookup q st h) as Hf.
    { intros q. apply lookup_frame. intros p l' E. destruct p as [| t' p]; [done |].
      apply (Hcells (t' :: p)). by rewrite A1. }
    split.
    + intros [| t' p]; [cbn; by rewrite He |]. rewrite A1, B1 by done. apply Hf.
    + intros [| t' q]; [by rewrite !cache_Lookup_cons, He |]. rewrite A2, B2 by done. apply Hf.
  - split.
    + intros [| t' p]; [cbn; by rewrite He |]. rewrite !locate_cons by done. by rewrite He, Et.
    + intros [| t' q]; rewrite !cache_Lookup_cons, He; [done |]. by rewrite Et.
Qed.

(** What is below [tag] after [Set] went on with the cell [l]. *)
Lemma same_tag tag rest f c h l h0 sub sub' h1 : 0 <= tag -> cache_wf c h -> heap_ok h ->
  descend tag c h l h0 sub -> set_post rest f sub h0 sub' h1 ->
  let c2 := zset (ensure c tag) tag (mk_entry (Some l) (field_ (entry c tag))) in
  let h2 := write_cell l sub' h1 in
  (forall p, p <> [] -> locate (tag :: p) c2 h2 = locate p sub' h1) /\
  (forall q, q <> [] -> cache_Lookup (tag :: q) c2 h2 = cache_Lookup q sub' h1) /\
  (forall p, locate p sub' h1 <> Some l).
Proof.
  intros Htag Hw Hh Hd [_ _ Plocs _ _ _] c2 h2.
  destruct (descend_wf tag c h l h0 sub Hw Hh Hd) as [_ Hnl]. pose proof (de_heap _ _ _ _ _ _ Hd).
  assert (forall p, locate p sub' h1 <> Some l) as Hnl'.
  { intros p E. destruct (Plocs p l E) as [E' |]; [by apply (Hnl p) | lia]. }
  assert (forall q, locate q sub' h2 = locate q sub' h1 /\ cache_Lookup q sub' h2 = cache_Lookup q sub' h1) as Hf.
  { intros q. apply lookup_frame. intros p l' E. cbn [h2 write_cell cells].
    rewrite lookup_insert_ne; [done |]. intros ->. by apply (Hnl' p). }
  destruct (locate_sub tag c2 h2 l sub') as [A1 A2].
  - unfold c2. rewrite entry_zset by done. by rewrite decide_True.
  - cbn [h2 write_cell cells]. apply lookup_insert_eq.
  - split_and!; [intros p Hp; rewrite A1 by done | intros q Hq; rewrite A2 by done | done]; apply Hf.
Qed.

(** Joining what is below [tag] with the other tags keeps the cells unshared. *)
Lemma set_step_wf tag c h c2 h2 l h1 sub' : cache_wf c h -> heap_ok h ->
  (forall t, t <> tag -> forall p, locate (t :: p) c2 h2 = locate (t :: p) c h) ->
  (forall l', is_Some (cells h !! l') -> is_Some (cells h2 !! l')) ->
  h2 = write_cell l sub' h1 -> cache_wf sub' h1 -> (forall p, locate p sub' h1 <> Some l) ->
  locate [tag] c2 h2 = Some l ->
  (forall p, p <> [] -> locate (tag :: p) c2 h2 = locate p sub' h1) ->
  (forall p l', locate p sub' h1 = Some l' -> locate (tag :: p) c h = Some l' \/ next h <= l') ->
  (locate [tag] c h = Some l \/ next h <= l) ->
  cache_wf c2 h2.
Proof.
  intros [Hc Hu] Hh Hother Hkeep -> [Pc Pu] Hnl Hlt Hsub Hin Hl. split.
  - intros [| t p] l' E; [done |]. destruct (decide (t = tag)) as [-> | Ht].
    + cbn [write_cell cells]. destruct (decide (l' = l)) as [-> | Hne].
      { rewrite lookup_insert_eq. by eexists. }
      rewrite lookup_insert_ne by done. destruct p as [| t' p]; [congruence |].
      rewrite Hsub in E by done. by apply (Pc (t' :: p)).
    + apply Hkeep. apply (Hc (t :: p)). by rewrite <- Hother.
  - assert (forall t p p' l', t <> tag -> locate (t :: p) c2 (write_cell l sub' h1) = Some l' ->
      locate (tag :: p') c2 (write_cell l sub' h1) = Some l' -> False) as Hcross.
    { intros t p p' l' Ht E1 E2. rewrite Hother in E1 by done.
      pose proof (Hh _ (Hc _ _ E1)) as Hlt'. destruct p' as [| t' p'].
      - rewrite Hlt in E2. injection E2 as <-. destruct Hl as [Hl | Hl]; [| lia].
        pose proof (Hu _ _ _ E1 Hl). congruence.
      - rewrite Hsub in E2 by done. destruct (Hin _ _ E2) as [E3 | ?]; [| lia].
        pose proof (Hu _ _ _ E1 E3). congruence. }
    intros [| t1 p] [| t2 q] l' E1 E2; [done.. |].
    destruct (decide (t1 = tag)) as [-> | H1], (decide (t2 = tag)) as [-> | H2].
    + destruct p as [| t p], q as [| t' q]; [done | | |].
      * rewrite Hsub in E2 by done. rewrite Hlt in E1. injection E1 as <-. by destruct (Hnl (t' :: q)).
      * rewrite Hsub in E1 by done. rewrite Hlt in E2. injection E2 as <-. by destruct (Hnl (t :: p)).
      * rewrite Hsub in E1, E2 by done. f_equal. by apply (Pu _ _ l').
    + exfalso. by apply (Hcross t2 q p l').
    + exfalso. by apply (Hcross t1 p q l').
    + rewrite Hother in E1, E2 by done. by apply (Hu _ _ l').
Qed.

Lemma set_step tag rest f c h l h0 sub sub' h1 : 0 <= tag -> rest <> [] -> cache_wf c h -> heap_ok h ->
  descend tag c h l h0 sub -> set_post rest f sub h0 sub' h1 ->
  set_post (tag :: rest) f c h
    (zset (ensure c tag) tag (mk_entry (Some l) (field_ (entry c tag)))) (write_cell l sub' h1).
Proof.
  intros Htag Hrest Hw Hh Hd Hp.
  destruct (same_tag tag rest f c h l h0 sub sub' h1 Htag Hw Hh Hd Hp) as (S1 & S2 & S3).
  destruct (descend_wf tag c h l h0 sub Hw Hh Hd) as [_ Hnl].
  set (c2 := zset _ _ _) in *. set (h2 := write_cell l sub' h1) in *.
  assert (forall t, t <> tag -> (forall p, locate (t :: p) c2 h2 = locate (t :: p) c h) /\
    (forall q, cache_Lookup (t :: q) c2 h2 = cache_Lookup (t :: q) c h)) as Hother.
  { intros t Ht. apply (other_tag tag t c h l h0 sub h2); try done. intros l' Hl' Hne Hn.
    cbn [h2 write_cell cells]. rewrite lookup_insert_ne by done. by apply (sp_frame _ _ _ _ _ _ Hp). }
  destruct Hp as [[Ph Pn] Pframe Plocs Pkeep [Pc Pu] Plook].
  pose proof Hd as [(Hh0 & Hn & Hl) Hcell Hold Hloc Hlook Hhere].
  assert (locate [tag] c2 h2 = Some l) as Hlt.
  { cbn [locate]. unfold c2. rewrite entry_zset by done. by rewrite decide_True. }
  assert (forall p l', locate p sub' h1 = Some l' -> locate (tag :: p) c h = Some l' \/ next h0 <= l') as Hin.
  { intros p l' E. destruct (Plocs p l' E) as [E' |]; [left | by right].
    destruct p; [done |]. by rewrite <- Hloc. }
  assert (forall l', is_Some (cells h !! l') -> is_Some (cells h2 !! l')) as Hkeep.
  { intros l' Hl'. cbn [h2 write_cell cells]. destruct (decide (l' = l)) as [-> |].
    - rewrite lookup_insert_eq. by eexists.
    - rewrite lookup_insert_ne by done. apply Pkeep. rewrite Hold by by apply Hh. done. }
  constructor.
  - split; [| cbn; lia]. intros l' [c' E]. cbn [h2 write_cell cells next] in *.
    destruct (decide (l' = l)) as [-> | Hne]; [lia |]. rewrite lookup_insert_ne in E by done. by apply Ph.
  - intros l' Hl' Hn'. cbn [h2 write_cell cells]. rewrite lookup_insert_ne.
    + rewrite Pframe; [by apply Hold | lia |]. intros p E. destruct p as [| t p]; [done |].
      apply (Hn' (tag :: t :: p)). by rewrite <- Hloc.
    + intros <-. destruct Hhere as [E | [_ ->]]; [by apply (Hn' [tag]) | lia].
  - intros [| t p] l' E; [done |]. destruct (decide (t = tag)) as [-> | Ht].
    + destruct p as [| t' p].
      * rewrite Hlt in E. injection E as <-. destruct Hhere as [E' | [_ ->]]; [by left | right; lia].
      * rewrite S1 in E by done. destruct (Hin _ _ E); [by left | right; lia].
    + left. by rewrite <- (proj1 (Hother t Ht)).
  - done.
  - apply (set_step_wf tag c h c2 h2 l h1 sub'); try done; [by apply Hother | |].
    + intros p l' E. by destruct (Hin p l' E); [left | right; lia].
    + destruct Hhere as [? | [_ ->]]; [by left | right; lia].
  - intros [| t q] Hq; [done |]. destruct (decide (t = tag)) as [-> | Ht].
    + destruct q as [| t' q].
      * rewrite decide_False by congruence. rewrite !cache_Lookup_cons. unfold c2.
        rewrite entry_zset by done. by rewrite decide_True.
      * rewrite S2, Plook, Hlook by done. repeat case_decide; congruence.
    + rewrite (proj2 (Hother t Ht)). by rewrite decide_False by congruence.
Qed.

Lemma set_ok path f c h : path <> [] -> Forall (fun t => 0 <= t) path -> cache_wf c h -> heap_ok h ->
  exists c' h', cache_Set path f c h = Ok (c', h') /\ set_post path f c h c' h'.
Proof.
  revert c h. induction path as [| tag path IH]; intros c h Hne Hpos Hw Hh; [done |].
  apply Forall_cons in Hpos as [Ht Hpos]. destruct path as [| tag' path].
  - eexists _, _. split; [cbn; by rewrite entry_ensure by done |]. by apply set_leaf.
  - destruct (descend_ok tag c h Hw Hh) as (l & h0 & sub & E & Hd).
    destruct (descend_wf tag c h l h0 sub Hw Hh Hd) as [Hws _].
    destruct (IH sub h0) as (sub' & h1 & Es & Hp); [done.. | apply Hd |].
    eexists _, _. split; [| by apply (set_step tag (tag' :: path) f c h l h0 sub sub' h1)].
    cbn [cache_Set]. rewrite entry_ensure, E by done. cbn [cache_Set] in Es. rewrite (de_cell _ _ _ _ _ _ Hd).
    cbn [of_option]. rewrite R_bind_ok, Es, R_bind_ok. done.
Qed.

(** *** Copies

    A copy of a cache has the same entries and shares the sub-caches. *)

(** Whether setting a path goes into a sub-cache that copies made before share. *)
Definition shares (path : list Z) (c : TagsPathCache) : bool :=
  match path with tag :: _ :: _ => bool_decide (is_Some (subCache_ (entry c tag))) | _ => false end.

Lemma lookup_ext c c' h q : (forall t, entry c' t = entry c t) -> cache_Lookup q c' h = cache_Lookup q c h.
Proof. intros He. destruct q as [| t q]; [done |]. by rewrite !cache_Lookup_cons, He. Qed.

Lemma copy_sees path f c h c' h' : Forall (fun t => 0 <= t) path -> cache_wf c h -> heap_ok h ->
  cache_Set path f c h = Ok (c', h') ->
  forall q, cache_Lookup q c h' = if shares path c then cache_Lookup q c' h' else cache_Lookup q c h.
Proof.
  intros Hpos Hw Hh. destruct path as [| tag [| tag' path]]; [done | by intros [= _ <-] |].
  apply Forall_cons in Hpos as [Ht Hpos]. destruct (descend_ok tag c h Hw Hh) as (l & h0 & sub & E & Hd).
  destruct (descend_wf tag c h l h0 sub Hw Hh Hd) as [Hws _].
  destruct (set_ok (tag' :: path) f sub h0) as (sub' & h1 & Es & Hp); [done.. | apply Hd |].
  cbn [cache_Set]. rewrite entry_ensure, E by done. cbn [cache_Set] in Es. rewrite (de_cell _ _ _ _ _ _ Hd).
  cbn [of_option]. rewrite R_bind_ok, Es, R_bind_ok. intros [= <- <-] q. cbn [shares]. case_bool_decide as Hs.
  - destruct Hs as [l' El]. rewrite El in E. injection E as <- <-. symmetry. apply lookup_ext. intros t.
    rewrite entry_zset by done. case_decide as Hd'; [| done]. subst t. rewrite <- El. by destruct (entry c tag).
  - destruct (subCache_ (entry c tag)) as [l' |] eqn:El; [by destruct Hs; eexists |]. injection E as <- <-.
    apply lookup_frame. intros p l Hl. pose proof (Hh l (pw_closed _ _ Hw _ _ Hl)) as Hlt.
    cbn [write_cell cells]. rewrite lookup_insert_ne by lia. pose proof (de_cell _ _ _ _ _ _ Hd) as Hc. cbn in Hc.
    rewrite lookup_insert_eq in Hc. injection Hc as <-. rewrite (sp_frame _ _ _ _ _ _ Hp l).
    + apply (de_old _ _ _ _ _ _ Hd). lia.
    + cbn. lia.
    + intros p'. by rewrite locate_nil_cache.
Qed.

(** A path of names between array indexes, and its names. *)
Definition names_of (path : list PathNode) : list Z :=
  omap (fun n => match n with NodeName t => Some t | NodeIndex _ => None end) path.

(** Lookups by indexed paths skip the indexes (the path ends with a name). *)
Lemma lookup_nodes path c h : last path <> None -> (forall n, last path = Some n -> IsTagName n = true) ->
  cache_Lookup_nodes path c h = cache_Lookup (names_of path) c h.
Proof.
  revert c. induction path as [| n path IH]; intros c Hl Hn; [done |].
  destruct n as [tag | i].
  - cbn [cache_Lookup_nodes names_of omap list_omap cache_Lookup]. fold (names_of path).
    assert (bool_decide (path = []) = bool_decide (names_of path = [])) as ->.
    { apply bool_decide_ext. split; [by intros -> |]. intros E. destruct (last path) as [n |] eqn:El.
      - exfalso. specialize (Hn n). destruct path as [| n' path]; [done |].
        apply last_Some in El as [l' El]. destruct n as [t | i].
        + rewrite El in E. unfold names_of in E. rewrite omap_app in E. by destruct (omap _ l').
        + by discriminate Hn; rewrite last_cons, El, last_snoc.
      - by apply last_None in El. }
    destruct (checkPathTag tag (bool_decide (names_of path = [])) c) as [f | l] eqn:Ec; [done |].
    destruct (cells h !! l) as [sub |]; [| done]. cbn [of_option]. rewrite !R_bind_ok.
    assert (path <> []) as Hne.
    { intros ->. revert Ec. unfold checkPathTag. cbn. by destruct (zlen c <=? tag). }
    rewrite last_cons in Hl, Hn. destruct (last path) eqn:El; [by apply IH | by apply last_None in El].
  - cbn [cache_Lookup_nodes names_of omap list_omap]. fold (names_of path).
    rewrite last_cons in Hl, Hn. destruct (last path) as [n |] eqn:El.
    + apply IH; [done |]. intros ? [= <-]. by apply Hn.
    + by specialize (Hn _ eq_refl).
Qed.

(** C28: A path cache whose sub-caches are its own is a map from paths to field properties.
    Setting a path never fails and leaves such a cache; afterwards looking up this path gives the
    new properties and looking up any other path gives what it gave before, also for prefixes and
    extensions of the path, and also when the path is given with array indexes between its names.
    Sub-caches that this cache does not reach keep their contents. A copy of the cache that was
    made before shares the sub-caches: it sees the new properties when the path goes through a
    sub-cache that was there, and is as before otherwise. *)
Theorem cache_is_map path f c h : path <> [] -> Forall (fun t => 0 <= t) path -> cache_wf c h ->
  heap_ok h ->
  exists c' h', cache_Set path f c h = Ok (c', h') /\ cache_wf c' h' /\ heap_ok h' /\
    (forall q, q <> [] ->
       cache_Lookup q c' h' = if decide (q = path) then Ok f else cache_Lookup q c h) /\
    (forall q, last q <> None -> (forall n, last q = Some n -> IsTagName n = true) ->
       cache_Lookup_nodes q c' h' =
         if decide (names_of q = path) then Ok f else cache_Lookup_nodes q c h) /\
    (forall l, l < next h -> (forall p, locate p c h <> Some l) -> cells h' !! l = cells h !! l) /\
    (forall q, q <> [] -> cache_Lookup q c h' =
       if shares path c && bool_decide (q = path) then Ok f else cache_Lookup q c h).
Proof.
  intros Hne Hpos Hw Hh. destruct (set_ok path f c h Hne Hpos Hw Hh) as (c' & h' & E & Hp).
  exists c', h'. split_and!; [done | apply Hp | apply Hp | apply Hp | | apply Hp |].
  - intros q Hl Hn. rewrite !lookup_nodes by done. apply (sp_lookup _ _ _ _ _ _ Hp).
    destruct (last q) as [n |] eqn:El; [| done]. apply last_Some in El as [q' ->].
    specialize (Hn n eq_refl). destruct n; [| done]. unfold names_of. rewrite omap_app.
    intros [_ ?]%app_eq_nil. done.
  - intros q Hq. rewrite (copy_sees path f c h c' h') by done. destruct (shares path c); [| done].
    rewrite (sp_lookup _ _ _ _ _ _ Hp) by done. cbn. by repeat case_decide; case_bool_decide.
Qed.

Lemma cache_is_map_witness : exists c h,
  cache_Set [3; 1] (Indexed 7 0 KInt false false) [] empty_heap = Ok (c, h) /\
  cache_Lookup [3; 1] c h = Ok (Indexed 7 0 KInt false false) /\ cache_Lookup [3] c h = Ok kNotIndexed.
Proof.
  destruct (cache_is_map [3; 1] (Indexed 7 0 KInt false false) [] empty_heap)
    as (c & h & E & _ & _ & Hl & _).
  - discriminate.
  - repeat constructor; lia.
  - apply cache_wf_nil.
  - intros l Hl. cbn [cells empty_heap] in Hl. rewrite lookup_empty in Hl. by destruct Hl.
  - exists c, h. split; [exact E |]. split; rewrite Hl by discriminate; reflexivity.
Defined.
