(* ===== verification/TagsMatcher.v ===== *)
(** The dictionary of field names: [core/cjson/tagsmatcherimpl.h] and [tagsmatcherimpl.cc].

    CJSON items have numbers (tags) in place of the names of their fields; the tags matcher maps
    between the two, and tells which paths of tags are indexed. Versions are 32-bit. The parser of
    numbers in paths is the third-party [jsteemann::atoi], a parameter. The order in which
    [AddNamesFrom] visits a hash map is an argument. *)

From S2P Require Import Prelude Varint CTag Variant WrSerializer Serializer TagsPathCache.

(** A field of the payload type, as far as it is used here. *)
Record PayloadField : Type := mk_field {
  pf_JsonPaths : list bytes;
  pf_ArrayDims : Z;
  pf_IsArray : bool;
  pf_Type : KVT
}.

#[export] Instance PayloadField_eq_dec : EqDecision PayloadField.
Proof. solve_decision. Defined.

(** The number of [IndexRTree] in [IndexType]. *)
Definition IndexRTree : Z := 19.

Record SparseIndexData : Type := mk_sparse {
  sp_name : bytes;
  sp_dataType : KVT;
  sp_indexType : Z;
  sp_isArray : bool;
  sp_paths : list (list Z)
}.

#[export] Instance SparseIndexData_eq_dec : EqDecision SparseIndexData.
Proof. solve_decision. Defined.

Definition sp_ArrayDim (s : SparseIndexData) : Z := if sp_indexType s =? IndexRTree then 2 else 0.

Record TagsMatcherImpl : Type := mk_tm {
  names2tags_ : gmap bytes Z;
  tags2names_ : list bytes;
  payloadType_ : option (list PayloadField);
  version_ : Z;
  stateToken_ : Z;
  pathCache_ : TagsPathCache;
  sparseIndexes_ : list SparseIndexData
}.

Definition tm_make (stateToken : Z) : TagsMatcherImpl := mk_tm ∅ [] None 0 stateToken [] [].

Definition set_names (n2t : gmap bytes Z) (t2n : list bytes) (v : Z) (tm : TagsMatcherImpl)
  : TagsMatcherImpl :=
  mk_tm n2t t2n (payloadType_ tm) v (stateToken_ tm) (pathCache_ tm) (sparseIndexes_ tm).

Definition set_cache (c : TagsPathCache) (tm : TagsMatcherImpl) : TagsMatcherImpl :=
  mk_tm (names2tags_ tm) (tags2names_ tm) (payloadType_ tm) (version_ tm) (stateToken_ tm) c
    (sparseIndexes_ tm).

Definition set_version (v : Z) (tm : TagsMatcherImpl) : TagsMatcherImpl :=
  set_names (names2tags_ tm) (tags2names_ tm) v tm.

Definition tm_Size (tm : TagsMatcherImpl) : Z := zlen (tags2names_ tm).

(** ** Names and tags *)

(** [name2tag(name)]: the empty tag for an unknown name. *)
Definition find_tag (n : bytes) (tm : TagsMatcherImpl) : Z := default TagName_Empty (names2tags_ tm !! n).

Definition validateTagSize (sz : Z) : result unit :=
  if kNameMax <? sz then Fail (Throw errParams) else Ok tt.

(** [name2tag(name, canAdd, wasUpdated)]: the tag, and whether the matcher was updated. *)
Definition name2tag (n : bytes) (canAdd : bool) : M TagsMatcherImpl (Z * bool) :=
  tm ← get;
  let tag := find_tag n tm in
  if negb (TagName_IsEmpty tag) || negb canAdd then mret (tag, false)
  else
    _ ← lift (validateTagSize (tm_Size tm + 1));
    new ← lift (TagName_make (tm_Size tm + 1));
    match names2tags_ tm !! n with
    | Some t => mret (t, false)
    | None =>
        _ ← put (set_names (<[n := new]> (names2tags_ tm)) (tags2names_ tm ++ [n])
                   (s32 (version_ tm + 1)) tm);
        mret (new, true)
    end.

Definition tag2name (tag : Z) (tm : TagsMatcherImpl) : result bytes :=
  if TagName_IsEmpty tag then Ok []
  else if tm_Size tm <? tag then Fail (Throw errTagsMissmatch)
  else of_option Undefined (znth (tags2names_ tm) (tag - 1)).

Definition dot : Z := 46.

(** The pieces between the separators. *)
Fixpoint split_on (c : Z) (s : bytes) : list bytes :=
  match s with
  | [] => [[]]
  | b :: s =>
      if b =? c then [] :: split_on c s
      else match split_on c s with p :: ps => (b :: p) :: ps | [] => [[b]] end
  end.

(** The steps of a JSON path: empty ones are skipped. *)
Definition path_parts (jsonPath : bytes) : list bytes :=
  filter (fun p => p <> []) (split_on dot jsonPath).

(** [path2tag]: the tags, and whether the matcher was updated; unknown names empty the result. *)
Fixpoint path2tag_parts (parts : list bytes) (canAdd : bool) (fieldTags : list Z) (wasUpdated : bool)
  : M TagsMatcherImpl (list Z * bool) :=
  match parts with
  | [] => mret (fieldTags, wasUpdated)
  | field :: parts =>
      '(fieldTag, upd) ← name2tag field canAdd;
      if TagName_IsEmpty fieldTag then mret ([], wasUpdated || upd)
      else path2tag_parts parts canAdd (fieldTags ++ [fieldTag]) (wasUpdated || upd)
  end.

Definition path2tag (jsonPath : bytes) (canAdd : bool) : M TagsMatcherImpl (list Z * bool) :=
  path2tag_parts (path_parts jsonPath) canAdd [] false.

(** [Path2Name] *)
Fixpoint Path2Name_from (tp : list Z) (res : bytes) (tm : TagsMatcherImpl) : result bytes :=
  match tp with
  | [] => Ok res
  | t :: tp =>
      n ← tag2name t tm;
      Path2Name_from tp ((match res with [] => res | _ => res ++ [dot] end) ++ n) tm
  end.

Definition Path2Name (tp : list Z) (tm : TagsMatcherImpl) : result bytes := Path2Name_from tp [] tm.

(** ** Paths with array indexes *)

Section IndexedPaths.
Context (try_stoi : bytes -> option Z).

Definition open_bracket : Z := 91.
Definition close_bracket : Z := 93.

(** The content before the first [c], and what follows [c]. *)
Fixpoint cut_at (c : Z) (s : bytes) : bytes * option bytes :=
  match s with
  | [] => ([], None)
  | b :: s => if b =? c then ([], Some s) else let '(a, r) := cut_at c s in (b :: a, r)
  end.

Definition bracket_index (content : bytes) : result Z :=
  if bool_decide (content = []) then Fail (Throw errParams)
  else if bool_decide (content = str "*") then Ok TagIndex_All
  else
    match try_stoi content with
    | None => Fail (Throw errParams)
    | Some index => if index <? 0 then Fail (Throw errLogic) else TagIndex_make index
    end.

(** The loop over the brackets; [s] follows an opening bracket. *)
Fixpoint brackets (fuel : nat) (s : bytes) (fieldTags : list PathNode) : result (list PathNode) :=
  match fuel with
  | O => Fail OutOfFuel
  | S fuel =>
      match cut_at close_bracket s with
      | (_, None) => Fail (Throw errParams)
      | (content, Some rest) =>
          i ← bracket_index content;
          let fieldTags := fieldTags ++ [NodeIndex i] in
          match cut_at open_bracket rest with
          | (_, None) => Ok fieldTags
          | (_, Some s) => brackets fuel s fieldTags
          end
      end
  end.

Fixpoint path2indexedtag_parts (parts : list bytes) (canAdd : bool) (fieldTags : list PathNode)
    (wasUpdated : bool) : M TagsMatcherImpl (list PathNode * bool) :=
  match parts with
  | [] => mret (fieldTags, wasUpdated)
  | indexedField :: parts =>
      let '(fieldName, rest) := cut_at open_bracket indexedField in
      '(tagName, upd) ← name2tag fieldName canAdd;
      if TagName_IsEmpty tagName then mret ([], wasUpdated || upd)
      else
        let fieldTags := fieldTags ++ [NodeName tagName] in
        fieldTags ← (match rest with
                     | None => mret fieldTags
                     | Some s => lift (brackets (S (length s)) s fieldTags)
                     end);
        path2indexedtag_parts parts canAdd fieldTags (wasUpdated || upd)
  end.

Definition path2indexedtag (jsonPath : bytes) (canAdd : bool) : M TagsMatcherImpl (list PathNode * bool) :=
  path2indexedtag_parts (path_parts jsonPath) canAdd [] false.
End IndexedPaths.

(** ** Merging dictionaries *)

(** [names2tags_.emplace(name, tag)]: an existing name keeps its tag. *)
Definition emplace (n : bytes) (t : Z) (m : gmap bytes Z) : gmap bytes Z :=
  match m !! n with Some _ => m | None => <[n := t]> m end.

(** [AddNamesFrom], over the names in the order [names]: whether something was added. *)
Fixpoint AddNamesFrom (names : list bytes) (modified : bool) : M TagsMatcherImpl bool :=
  match names with
  | [] => mret modified
  | n :: names =>
      tm ← get;
      new ← lift (TagName_make (tm_Size tm + 1));
      match names2tags_ tm !! n with
      | Some _ => AddNamesFrom names modified
      | None =>
          _ ← put (set_names (<[n := new]> (names2tags_ tm)) (tags2names_ tm ++ [n])
                     (s32 (version_ tm + 1)) tm);
          AddNamesFrom names true
      end
  end.

(** Whether this dictionary starts with the other one. *)
Definition Contains (this tm : TagsMatcherImpl) : bool :=
  (tm_Size tm <=? tm_Size this) &&
  bool_decide (take (length (tags2names_ tm)) (tags2names_ this) = tags2names_ tm).

Definition IsSubsetOf (this tm : TagsMatcherImpl) : bool := Contains tm this.

(** The loop of [Merge] over the new names. *)
Fixpoint merge_names (n : nat) (i : Z) (other : TagsMatcherImpl) : M TagsMatcherImpl bool :=
  match n with
  | O => mret true
  | S n =>
      name ← lift (of_option Undefined (znth (tags2names_ other) i));
      this ← get;
      let this := set_names (names2tags_ this) (zset (tags2names_ this) i name) (version_ this) this in
      _ ← put this;
      t ← lift (TagName_make (i + 1));
      _ ← put (set_names (emplace name t (names2tags_ this)) (tags2names_ this) (version_ this) this);
      if bool_decide (is_Some (names2tags_ this !! name)) then mret false
      else merge_names n (i + 1) other
  end.

(** [Merge]: the result, and whether this matcher was updated. *)
Definition Merge (tm : TagsMatcherImpl) : M TagsMatcherImpl (bool * bool) :=
  this ← get;
  if Contains tm this then
    let oldSz := tm_Size this in
    let newSz := Z.of_nat (base.size (names2tags_ tm)) in
    _ ← put (set_names (names2tags_ this) (zresize (tags2names_ this) newSz []) (version_ this) this);
    ok ← merge_names (Z.to_nat (newSz - oldSz)) oldSz tm;
    if negb ok then mret (false, false)
    else if oldSz =? newSz then mret (true, false)
    else
      this ← get;
      _ ← put (set_version (if version_ tm <=? version_ this then s32 (version_ this + 1)
                            else version_ tm) this);
      mret (true, true)
  else mret (Contains this tm, false).

(** [TagsMatcher::try_merge]: the merge happens on a copy, which is kept when it succeeds. *)
Definition try_merge (tm : TagsMatcherImpl) (wasUpdated : bool) : M TagsMatcherImpl (bool * bool) :=
  this ← get;
  if Contains this tm then mret (true, wasUpdated)
  else
    match Merge tm this with
    | (Fail f, _) => fail f
    | (Ok (false, _), _) => mret (false, wasUpdated)
    | (Ok (true, upd), tmp) => _ ← put tmp; mret (true, wasUpdated || upd)
    end.

(** The names of one list, appended by [createMergedTagsMatcher]. *)
Fixpoint add_merged (names : list bytes) (tm : TagsMatcherImpl) : result TagsMatcherImpl :=
  match names with
  | [] => Ok tm
  | n :: names =>
      new ← TagName_make (tm_Size tm + 1);
      match names2tags_ tm !! n with
      | Some _ => add_merged names tm
      | None =>
          add_merged names
            (set_names (<[n := new]> (names2tags_ tm)) (tags2names_ tm ++ [n]) (version_ tm) tm)
      end
  end.

(** The state token: the first of the random ones that no matcher of the list has. *)
Fixpoint unique_token (randoms : list Z) (token : Z) (tmList : list (option TagsMatcherImpl))
  : option Z :=
  if existsb (fun o => match o with Some tm => stateToken_ tm =? token | None => false end) tmList then
    match randoms with r :: randoms => unique_token randoms r tmList | [] => None end
  else Some token.

Fixpoint createMerged_names (tmList : list (option TagsMatcherImpl)) (this : TagsMatcherImpl)
  : result TagsMatcherImpl :=
  match tmList with
  | [] => Ok this
  | None :: tmList => createMerged_names tmList this
  | Some tm :: tmList => this ← add_merged (tags2names_ tm) this; createMerged_names tmList this
  end.

(** ** The binary form *)

Fixpoint put_names (names : list bytes) : M WrSerializer unit :=
  match names with
  | [] => mret tt
  | n :: names => _ ← PutVString n; put_names names
  end.

Definition Serialize (tm : TagsMatcherImpl) : M WrSerializer unit :=
  _ ← PutVarUint64 (tm_Size tm); put_names (tags2names_ tm).

Definition tm_Clear (tm : TagsMatcherImpl) : TagsMatcherImpl :=
  mk_tm ∅ [] (payloadType_ tm) (s32 (version_ tm + 1)) (stateToken_ tm) (cache_Clear (pathCache_ tm))
    (sparseIndexes_ tm).

(** Reading from the serializer, in the state of both. *)
Definition on_ser {A} (m : M Serializer A) : M (TagsMatcherImpl * Serializer) A :=
  fun st => let '(r, s) := m (snd st) in (r, (fst st, s)).

Definition modify_tm (f : TagsMatcherImpl -> TagsMatcherImpl) : M (TagsMatcherImpl * Serializer) unit :=
  fun st => (Ok tt, (f (fst st), snd st)).

Fixpoint get_names (n : nat) (tag : Z) : M (TagsMatcherImpl * Serializer) unit :=
  match n with
  | O => mret tt
  | S n =>
      name ← on_ser GetVStringCopy;
      t ← lift (TagName_make (tag + 1));
      _ ← modify_tm (fun tm => set_names (emplace name t (names2tags_ tm))
                                 (zset (tags2names_ tm) tag name) (version_ tm) tm);
      get_names n (tag + 1)
  end.

Definition Deserialize : M (TagsMatcherImpl * Serializer) unit :=
  _ ← modify_tm tm_Clear;
  cnt ← on_ser GetVarUInt;
  _ ← lift (validateTagSize cnt);
  _ ← modify_tm (fun tm => set_names (names2tags_ tm) (zresize (tags2names_ tm) cnt []) (version_ tm) tm);
  get_names (Z.to_nat cnt) 0.

Definition Deserialize_state (version stateToken : Z) : M (TagsMatcherImpl * Serializer) unit :=
  _ ← Deserialize;
  modify_tm (fun tm => mk_tm (names2tags_ tm) (tags2names_ tm) (payloadType_ tm) version stateToken
                         (pathCache_ tm) (sparseIndexes_ tm)).

(** ** The cache of indexed paths *)

Abbreviation MH := (M (TagsMatcherImpl * Heap)).

Definition on_tm {A} (m : M TagsMatcherImpl A) : MH A :=
  fun st => let '(r, tm) := m (fst st) in (r, (tm, snd st)).

(** [pathCache_.Set(path, field)] *)
Definition set_path (path : list Z) (f : FieldProperties) : MH unit := fun st =>
  match cache_Set path f (pathCache_ (fst st)) (snd st) with
  | Ok (c, h) => (Ok tt, (set_cache c (fst st), h))
  | Fail e => (Fail e, st)
  end.

Definition tags2field (path : list Z) (tm : TagsMatcherImpl) (h : Heap) : result FieldProperties :=
  match path with [] => Ok kNotIndexed | _ => cache_Lookup path (pathCache_ tm) h end.

(** Indexes at the end of a path are dropped. *)
Fixpoint drop_indexes (rpath : list PathNode) : list PathNode :=
  match rpath with n :: r => if IsTagIndex n then drop_indexes r else rpath | [] => [] end.

Definition tags2field_nodes (path : list PathNode) (tm : TagsMatcherImpl) (h : Heap)
  : result FieldProperties :=
  match rev (drop_indexes (rev path)) with
  | [] => Ok kNotIndexed
  | p => cache_Lookup_nodes p (pathCache_ tm) h
  end.

(** The tags of the parts of a path of a payload field, adding new names. *)
Fixpoint part_tags (parts : list bytes) (pathIdx : list Z) (wasUpdated : bool) : MH (list Z * bool) :=
  match parts with
  | [] => mret (pathIdx, wasUpdated)
  | name :: parts =>
      '(t, upd) ← on_tm (name2tag name true);
      part_tags parts (pathIdx ++ [t]) (wasUpdated || upd)
  end.

Fixpoint cache_paths (paths : list bytes) (f : FieldProperties) (wasUpdated : bool) : MH bool :=
  match paths with
  | [] => mret wasUpdated
  | jsonPath :: paths =>
      if bool_decide (jsonPath = []) then cache_paths paths f wasUpdated
      else
        '(pathIdx, wasUpdated) ← part_tags (path_parts jsonPath) [] wasUpdated;
        _ ← set_path pathIdx f;
        cache_paths paths f wasUpdated
  end.

Fixpoint cache_fields (fields : list PayloadField) (i : Z) (wasUpdated : bool) : MH bool :=
  match fields with
  | [] => mret wasUpdated
  | f :: fields =>
      wasUpdated ← cache_paths (pf_JsonPaths f) (Indexed i (pf_ArrayDims f) (pf_Type f) (pf_IsArray f) false)
                     wasUpdated;
      cache_fields fields (i + 1) wasUpdated
  end.

Definition sparse_field (i : Z) (s : SparseIndexData) : FieldProperties :=
  Indexed i (sp_ArrayDim s) (sp_dataType s) (sp_isArray s) true.

Fixpoint cache_sparse_paths (skip_empty : bool) (paths : list (list Z)) (f : FieldProperties) : MH unit :=
  match paths with
  | [] => mret tt
  | path :: paths =>
      if skip_empty && bool_decide (path = []) then cache_sparse_paths skip_empty paths f
      else _ ← set_path path f; cache_sparse_paths skip_empty paths f
  end.

Fixpoint cache_sparse (l : list SparseIndexData) (i : Z) : MH unit :=
  match l with
  | [] => mret tt
  | s :: l => _ ← cache_sparse_paths true (sp_paths s) (sparse_field i s); cache_sparse l (i + 1)
  end.

(** [BuildTagsCache]: whether names were added. The payload type is dereferenced even when there
    is none. *)
Definition BuildTagsCache (wasUpdated : bool) : MH bool :=
  _ ← on_tm (tm ← get; put (set_cache (cache_Clear (pathCache_ tm)) tm));
  '(tm, h) ← get;
  match payloadType_ tm with
  | None => if bool_decide (sparseIndexes_ tm = []) then mret wasUpdated else fail Undefined
  | Some fields =>
      wasUpdated ← cache_fields (tail fields) 1 wasUpdated;
      _ ← cache_sparse (sparseIndexes_ tm) 0;
      mret wasUpdated
  end.

Inductive NeedChangeTmVersion : Set := Increment | Decrement | NoChange.

Definition changed_type (old new : list PayloadField) : bool :=
  negb (bool_decide (length old = length new)) ||
  existsb (fun p => negb (bool_decide (pf_Type (fst p) = pf_Type (snd p))) ||
                    negb (Bool.eqb (pf_IsArray (fst p)) (pf_IsArray (snd p))) ||
                    negb (bool_decide (pf_JsonPaths (fst p) = pf_JsonPaths (snd p))))
    (zip (tail new) (tail old)).

Definition updatePayloadType (payloadType : option (list PayloadField)) (wasUpdated sparseWasUpdated : bool)
    (changeVersion : NeedChangeTmVersion) : MH bool :=
  '(tm, _) ← get;
  let old := payloadType_ tm in
  _ ← on_tm (put (mk_tm (names2tags_ tm) (tags2names_ tm) payloadType (version_ tm) (stateToken_ tm)
                    (pathCache_ tm) (sparseIndexes_ tm)));
  newType ← BuildTagsCache false;
  newType ← (match old, payloadType with
             | Some o, Some n => mret (newType || changed_type o n)
             | None, None => fail Undefined
             | _, _ => mret true
             end);
  _ ← on_tm (tm ← get;
             match changeVersion with
             | Increment => put (set_version (s32 (version_ tm + 1)) tm)
             | Decrement => put (set_version (s32 (version_ tm - 1)) tm)
             | NoChange => mret tt
             end);
  mret (wasUpdated || newType || sparseWasUpdated).

(** [UpdatePayloadType] with the data of the sparse indexes. *)
Definition UpdatePayloadType (payloadType : option (list PayloadField)) (sparseIndexes : list SparseIndexData)
    (wasUpdated : bool) (changeVersion : NeedChangeTmVersion) : MH bool :=
  '(tm, _) ← get;
  if bool_decide (payloadType = None) && bool_decide (payloadType_ tm = None) &&
     bool_decide (sparseIndexes = []) && bool_decide (sparseIndexes_ tm = []) then mret wasUpdated
  else
    let newSparse := negb (bool_decide (sparseIndexes = sparseIndexes_ tm)) in
    _ ← (if newSparse then
           on_tm (put (mk_tm (names2tags_ tm) (tags2names_ tm) (payloadType_ tm) (version_ tm)
                         (stateToken_ tm) (pathCache_ tm) sparseIndexes))
         else mret tt);
    updatePayloadType payloadType wasUpdated newSparse changeVersion.

Definition set_sparse (l : list SparseIndexData) (tm : TagsMatcherImpl) : TagsMatcherImpl :=
  mk_tm (names2tags_ tm) (tags2names_ tm) (payloadType_ tm) (version_ tm) (stateToken_ tm)
    (pathCache_ tm) l.

Definition AddSparseIndex (idx : SparseIndexData) : MH unit :=
  _ ← on_tm (tm ← get; put (set_sparse (sparseIndexes_ tm ++ [idx]) tm));
  '(tm, _) ← get;
  cache_sparse_paths false (sp_paths idx) (sparse_field (zlen (sparseIndexes_ tm) - 1) idx).

Fixpoint drop_named (name : bytes) (l : list SparseIndexData) : option (list SparseIndexData) :=
  match l with
  | [] => None
  | s :: l => if bool_decide (sp_name s = name) then Some l else cons s <$> drop_named name l
  end.

Definition DropSparseIndex (name : bytes) : MH unit :=
  '(tm, _) ← get;
  match drop_named name (sparseIndexes_ tm) with
  | None => mret tt
  | Some l => _ ← on_tm (put (set_sparse l tm)); _ ← BuildTagsCache false; mret tt
  end.

(** [SparseIndex(n)]: the assertion is only in debug builds. *)
Definition SparseIndex (n : Z) (tm : TagsMatcherImpl) : result SparseIndexData :=
  of_option (Throw errAssert) (znth (sparseIndexes_ tm) n).

(** [shared_cow_ptr::clone] of a shared matcher: a copy of every field. The copied path cache has
    the same sub-caches. *)
Definition clone (tm : TagsMatcherImpl) : TagsMatcherImpl := tm.

(** ** The dictionary *)

(** Tags are the positions of the names, from 1. *)
Definition tm_inv (tm : TagsMatcherImpl) : Prop :=
  forall n t, names2tags_ tm !! n = Some t <-> 1 <= t /\ znth (tags2names_ tm) (t - 1) = Some n.

Lemma tm_inv_tag tm n t : tm_inv tm -> names2tags_ tm !! n = Some t -> 1 <= t <= tm_Size tm.
Proof. intros Hi E. apply Hi in E as [? E%znth_Some]. unfold tm_Size. lia. Qed.

Lemma tm_inv_known tm n : tm_inv tm -> is_Some (names2tags_ tm !! n) <-> n ∈ tags2names_ tm.
Proof.
  intros Hi. split.
  - intros [t [? E]%Hi]. unfold znth in E. case_decide; [| done]. by eapply list_elem_of_lookup_2.
  - intros [i E]%list_elem_of_lookup. exists (Z.of_nat i + 1). apply Hi. split; [lia |].
    rewrite Z.add_simpl_r. by rewrite znth_lookup.
Qed.

Lemma tm_inv_empty c token : tm_inv (set_cache c (tm_make token)).
Proof.
  intros n t. cbn. rewrite lookup_empty. split; [done |]. intros [_ E%znth_Some]. unfold zlen in E. cbn in E. lia.
Qed.

Lemma tm_inv_add tm n v : tm_inv tm -> names2tags_ tm !! n = None ->
  tm_inv (set_names (<[n := tm_Size tm + 1]> (names2tags_ tm)) (tags2names_ tm ++ [n]) v tm).
Proof.
  intros Hi Hn m t. cbn. unfold tm_Size. destruct (decide (m = n)) as [-> | Hne].
  - rewrite lookup_insert_eq. split.
    + intros [= <-]. pose proof (zlen_nonneg (tags2names_ tm)). split; [lia |].
      rewrite Z.add_simpl_r, znth_app_r, Z.sub_diag by lia. done.
    + intros [Ht E]. destruct (decide (t - 1 < zlen (tags2names_ tm))).
      * rewrite znth_app_l in E by done. rewrite (proj2 (Hi n t)) in Hn; done.
      * apply znth_Some in E. rewrite zlen_app in E. change (zlen [n]) with 1 in E. f_equal. lia.
  - rewrite lookup_insert_ne by done. rewrite (Hi m t). apply and_iff_compat_l.
    destruct (decide (t - 1 < zlen (tags2names_ tm))); [by rewrite znth_app_l |].
    rewrite znth_app_r by lia. split; intros E; exfalso.
    + apply znth_Some in E. lia.
    + pose proof (znth_Some _ _ _ E) as Hb. change (zlen [n]) with 1 in Hb.
      assert (t - 1 - zlen (tags2names_ tm) = 0) as E0 by lia. rewrite E0 in E. by injection E as E.
Qed.

Lemma kNameMax_val : kNameMax = 4095.
Proof. reflexivity. Qed.

Lemma TagName_make_ok t : 0 <= t <= 65535 -> TagName_make t = Ok t.
Proof. intros. unfold TagName_make. repeat case_match; try done; lia. Qed.

(** Adding an unknown name. *)
Definition with_name (n : bytes) (tm : TagsMatcherImpl) : TagsMatcherImpl :=
  set_names (<[n := tm_Size tm + 1]> (names2tags_ tm)) (tags2names_ tm ++ [n]) (s32 (version_ tm + 1)) tm.

Lemma name2tag_run n canAdd tm : tm_inv tm -> tm_Size tm <= kNameMax ->
  name2tag n canAdd tm =
    match names2tags_ tm !! n with
    | Some t => (Ok (t, false), tm)
    | None =>
        if negb canAdd then (Ok (0, false), tm)
        else if tm_Size tm =? kNameMax then (Fail (Throw errParams), tm)
        else (Ok (tm_Size tm + 1, true), with_name n tm)
    end.
Proof.
  intros Hi Hs. pose proof (zlen_nonneg (tags2names_ tm)) as Hz. unfold name2tag, find_tag.
  rewrite M_bind_get. cbv zeta. destruct (names2tags_ tm !! n) as [t |] eqn:E; cbn [default from_option id].
  - pose proof (tm_inv_tag tm n t Hi E). unfold TagName_IsEmpty. by rewrite (proj2 (Z.eqb_neq t 0)) by lia.
  - destruct canAdd; [| done]. unfold validateTagSize. cbn [negb orb TagName_IsEmpty TagName_Empty Z.eqb].
    unfold tm_Size in *. rewrite kNameMax_val in *. destruct (Z.eqb_spec (zlen (tags2names_ tm)) 4095) as [Eq | Ne].
    + by rewrite (proj2 (Z.ltb_lt 4095 _)) by lia.
    + rewrite (proj2 (Z.ltb_ge 4095 _)), M_bind_lift, TagName_make_ok, M_bind_lift by lia. done.
Qed.

Lemma tag2name_run t tm : tm_inv tm -> 0 <= t ->
  tag2name t tm = if t =? 0 then Ok [] else if tm_Size tm <? t then Fail (Throw errTagsMissmatch)
                  else of_option Undefined (znth (tags2names_ tm) (t - 1)).
Proof. done. Qed.

(** C27: The dictionary of tags. In a dictionary of at most 4095 names where every name has one tag:
    a known name gives its tag and changes nothing; an unknown name gives the empty tag when
    adding is not allowed, is refused with an error when the dictionary is full, and otherwise
    gets the next tag, at the end, with all the other names and tags as they were and a new
    version. Every tag in use gives its name back and this name gives the tag; the tag 0 is the
    empty name and a tag that is not in use is an error. *)
Theorem tags_dictionary n canAdd t tm : tm_inv tm -> tm_Size tm <= kNameMax -> 0 <= t ->
  (match names2tags_ tm !! n with
   | Some t => name2tag n canAdd tm = (Ok (t, false), tm) /\ tag2name t tm = Ok n
   | None =>
       if negb canAdd then name2tag n canAdd tm = (Ok (0, false), tm)
       else if tm_Size tm =? kNameMax then name2tag n canAdd tm = (Fail (Throw errParams), tm)
       else
         exists tm', name2tag n canAdd tm = (Ok (tm_Size tm + 1, true), tm') /\ tm_inv tm' /\
           tags2names_ tm' = tags2names_ tm ++ [n] /\ tm_Size tm' <= kNameMax /\
           version_ tm' = s32 (version_ tm + 1) /\ tag2name (tm_Size tm + 1) tm' = Ok n /\
           (forall t', 0 <= t' <= tm_Size tm -> tag2name t' tm' = tag2name t' tm)
   end) /\
  (if t =? 0 then tag2name t tm = Ok []
   else if t <=? tm_Size tm then exists m, tag2name t tm = Ok m /\ find_tag m tm = t
   else tag2name t tm = Fail (Throw errTagsMissmatch)).
Proof.
  intros Hi Hs Ht. pose proof (zlen_nonneg (tags2names_ tm)) as Hz. split.
  - rewrite name2tag_run by done. destruct (names2tags_ tm !! n) as [t' |] eqn:E.
    + split; [done |]. pose proof (tm_inv_tag tm n t' Hi E). apply Hi in E as [_ E].
      unfold tag2name, TagName_IsEmpty. rewrite (proj2 (Z.eqb_neq t' 0)), (proj2 (Z.ltb_ge _ _)) by lia.
      by rewrite E.
    + destruct canAdd; [| done]. cbn [negb]. destruct (Z.eqb_spec (tm_Size tm) kNameMax) as [| Hne]; [done |].
      exists (with_name n tm). split; [done |].
      assert (tm_Size (with_name n tm) = tm_Size tm + 1) as Hsz.
      { unfold tm_Size, with_name. cbn [tags2names_ set_names]. by rewrite zlen_app. }
      split_and!; [by apply tm_inv_add | done | lia | done | |].
      * unfold tag2name, TagName_IsEmpty. rewrite Hsz.
        assert (0 <= tm_Size tm) by done.
        rewrite (proj2 (Z.eqb_neq _ 0)), (proj2 (Z.ltb_ge _ _)), Z.add_simpl_r by lia.
        cbn [with_name set_names tags2names_]. rewrite znth_app_r by (unfold tm_Size; lia).
        unfold tm_Size. by rewrite Z.sub_diag.
      * intros t' Ht'. unfold tag2name, TagName_IsEmpty. rewrite Hsz.
        destruct (Z.eqb_spec t' 0); [done |]. rewrite !(proj2 (Z.ltb_ge _ _)) by lia.
        unfold with_name. cbn. by rewrite znth_app_l by (unfold tm_Size in Ht'; lia).
  - destruct (Z.eqb_spec t 0) as [-> | Hne]; [done |]. unfold tag2name, TagName_IsEmpty.
    rewrite (proj2 (Z.eqb_neq t 0)) by done. destruct (Z.leb_spec t (tm_Size tm)).
    + rewrite (proj2 (Z.ltb_ge _ _)) by lia.
      destruct (znth_lt (tags2names_ tm) (t - 1)) as [m Hm]; [unfold tm_Size in *; lia |].
      exists m. rewrite Hm. split; [done |]. unfold find_tag. by rewrite (proj2 (Hi m t)) by (split; [lia | done]).
    + by rewrite (proj2 (Z.ltb_lt _ _)).
Qed.

Definition a_name : TagsMatcherImpl := with_name (str "a") (tm_make 7).

Lemma a_name_inv : tm_inv a_name.
Proof. apply tm_inv_add; [apply (tm_inv_empty []) | done]. Qed.

Lemma tags_dictionary_witness : exists tm',
  name2tag (str "b") true a_name = (Ok (2, true), tm') /\ tag2name 2 tm' = Ok (str "b") /\
  tag2name 1 a_name = Ok (str "a").
Proof.
  destruct (tags_dictionary (str "b") true 1 a_name a_name_inv) as [H1 (m & H2 & _)];
    [vm_compute; discriminate | lia |].
  change (names2tags_ a_name !! str "b") with (@None Z) in H1.
  destruct H1 as (tm' & E & _ & _ & _ & _ & E2 & _). exists tm'. split; [exact E |].
  split; [exact E2 | reflexivity].
Defined.

(** ** Paths *)

(** One dictionary extends another one. *)
Definition extends (tm tm' : TagsMatcherImpl) : Prop := exists k, tags2names_ tm' = tags2names_ tm ++ k.

Lemma extends_refl tm : extends tm tm.
Proof. exists []. by rewrite app_nil_r. Qed.

Lemma extends_trans tm1 tm2 tm3 : extends tm1 tm2 -> extends tm2 tm3 -> extends tm1 tm3.
Proof. intros [k1 E1] [k2 E2]. exists (k1 ++ k2). by rewrite E2, E1, (assoc_L (++)). Qed.

Lemma extends_tag tm tm' n t : tm_inv tm -> tm_inv tm' -> extends tm tm' ->
  names2tags_ tm !! n = Some t -> names2tags_ tm' !! n = Some t.
Proof.
  intros Hi Hi' [k E] Hn. apply Hi' . apply Hi in Hn as [? Hn]. split; [done |]. rewrite E.
  rewrite znth_app_l; [done |]. apply znth_Some in Hn. lia.
Qed.

(** The tags of the parts of a path. *)
Definition parts_tags (tm : TagsMatcherImpl) : list bytes -> list Z -> Prop :=
  Forall2 (fun p t => names2tags_ tm !! p = Some t).

Lemma parts_tags_find tm parts tags canAdd acc upd : tm_inv tm -> tm_Size tm <= kNameMax ->
  parts_tags tm parts tags ->
  path2tag_parts parts canAdd acc upd tm = (Ok (acc ++ tags, upd), tm).
Proof.
  intros Hi Hs Hp. revert acc. induction Hp as [| p t parts tags E Hp IH]; intros acc.
  { by rewrite app_nil_r. }
  cbn [path2tag_parts].
  rewrite (M_bind_ok _ _ _ (t, false) tm) by (rewrite name2tag_run by done; by rewrite E).
  pose proof (tm_inv_tag _ _ _ Hi E). unfold TagName_IsEmpty.
  rewrite (proj2 (Z.eqb_neq t 0)) by lia. rewrite orb_false_r, IH. by rewrite <- (assoc_L (++)).
Qed.

Lemma path_unknown tm parts acc upd : tm_inv tm -> tm_Size tm <= kNameMax ->
  Exists (fun p => names2tags_ tm !! p = None) parts ->
  path2tag_parts parts false acc upd tm = (Ok ([], upd), tm).
Proof.
  intros Hi Hs He. revert acc. induction parts as [| p parts IH]; intros acc; [by apply Exists_nil in He |].
  cbn [path2tag_parts]. destruct (names2tags_ tm !! p) as [t |] eqn:E.
  - rewrite (M_bind_ok _ _ _ (t, false) tm) by (rewrite name2tag_run by done; by rewrite E).
    pose proof (tm_inv_tag _ _ _ Hi E). unfold TagName_IsEmpty.
    rewrite (proj2 (Z.eqb_neq t 0)) by lia. rewrite orb_false_r. apply IH.
    by apply Exists_cons in He as [? |]; [congruence |].
  - rewrite (M_bind_ok _ _ _ (0, false) tm) by (rewrite name2tag_run by done; by rewrite E).
    cbn [TagName_IsEmpty Z.eqb]. by rewrite orb_false_r.
Qed.

(** The tag of one step when adding is allowed. *)
Lemma name_add tm p : tm_inv tm -> tm_Size tm < kNameMax ->
  exists t u tm1, name2tag p true tm = (Ok (t, u), tm1) /\ tm_inv tm1 /\ t <> 0 /\
    tm_Size tm1 <= tm_Size tm + 1 /\ extends tm tm1 /\ names2tags_ tm1 !! p = Some t /\
    (u = false -> tm1 = tm).
Proof.
  intros Hi Hs. pose proof (zlen_nonneg (tags2names_ tm)).
  rewrite name2tag_run by (done || lia). destruct (names2tags_ tm !! p) as [t |] eqn:E.
  - exists t, false, tm. pose proof (tm_inv_tag _ _ _ Hi E).
    split_and!; try done; [lia | lia | apply extends_refl].
  - cbn [negb]. rewrite (proj2 (Z.eqb_neq _ _)) by lia. exists (tm_Size tm + 1), true, (with_name p tm).
    split_and!; try done.
    + by apply tm_inv_add.
    + unfold tm_Size. lia.
    + unfold tm_Size, with_name. cbn [tags2names_ set_names]. rewrite zlen_app. change (zlen [p]) with 1. lia.
    + by exists [p].
    + apply lookup_insert_eq.
Qed.

Lemma path_upd_mono parts acc tm v tm' r :
  path2tag_parts parts true acc true tm = (Ok (r, v), tm') -> v = true.
Proof.
  revert acc tm. induction parts as [| p parts IH]; intros acc tm; cbn [path2tag_parts]; [by intros [= _ <- _] |].
  unfold mbind, M_bind. destruct (name2tag p true tm) as [[[t u] |] tm1]; [| done].
  destruct (TagName_IsEmpty t); [by intros [= _ <- _] | apply IH].
Qed.

Lemma path_add tm parts acc upd : tm_inv tm -> tm_Size tm + zlen parts <= kNameMax ->
  exists tags upd' tm', path2tag_parts parts true acc upd tm = (Ok (acc ++ tags, upd'), tm') /\
    tm_inv tm' /\ tm_Size tm' <= tm_Size tm + zlen parts /\ extends tm tm' /\ parts_tags tm' parts tags /\
    (upd' = false -> tm' = tm).
Proof.
  revert tm acc upd. induction parts as [| p parts IH]; intros tm acc upd Hi Hs.
  { exists [], upd, tm. rewrite app_nil_r. split_and!; try done; [unfold zlen; cbn; lia | apply extends_refl | constructor]. }
  rewrite zlen_cons in *. pose proof (zlen_nonneg parts). cbn [path2tag_parts].
  destruct (name_add tm p Hi) as (t & u & tm1 & E & Hi1 & Ht & Hs1 & Hx & Hn & Hu); [lia |].
  rewrite (M_bind_ok _ _ _ _ _ E). unfold TagName_IsEmpty. rewrite (proj2 (Z.eqb_neq t 0)) by done.
  destruct (IH tm1 (acc ++ [t]) (upd || u) Hi1) as (tags & upd' & tm' & E' & Hi' & Hs' & Hx' & Hp' & Hu'); [lia |].
  exists (t :: tags), upd', tm'. split_and!; try done.
  - rewrite E'. by rewrite <- (assoc_L (++)).
  - lia.
  - by apply extends_trans with tm1.
  - constructor; [by apply (extends_tag tm1 tm') | done].
  - intros Hf. specialize (Hu' Hf). subst tm'. destruct u; [| by apply Hu].
    exfalso. rewrite orb_true_r in E'. by rewrite (path_upd_mono _ _ _ _ _ _ E') in Hf.
Qed.

(** Joining parts, and splitting what was joined. *)
Definition join_path (parts : list bytes) (res : bytes) : bytes :=
  foldl (fun res p => (match res with [] => res | _ => res ++ [dot] end) ++ p) res parts.

Lemma split_on_app c s1 s2 : split_on c (s1 ++ c :: s2) = split_on c s1 ++ split_on c s2.
Proof.
  assert (forall s, split_on c s <> []) as Hne.
  { intros [| b s]; cbn; [done |]. destruct (b =? c); [done |]. by destruct (split_on c s). }
  induction s1 as [| b s1 IH]; cbn [split_on app].
  - by rewrite Z.eqb_refl.
  - rewrite IH. destruct (b =? c); [done |]. pose proof (Hne s1). by destruct (split_on c s1).
Qed.

Lemma split_on_free c s : c ∉ s -> split_on c s = [s].
Proof.
  induction s as [| b s IH]; [done |]. intros [Hb Hs]%not_elem_of_cons. cbn.
  rewrite (proj2 (Z.eqb_neq b c)) by congruence. by rewrite IH.
Qed.

Lemma split_on_free_parts c s : Forall (fun p => c ∉ p) (split_on c s).
Proof.
  induction s as [| b s IH]; cbn; [repeat constructor; by intros ?%not_elem_of_nil |].
  destruct (Z.eqb_spec b c); [constructor; [by intros ?%not_elem_of_nil | done] |].
  destruct (split_on c s) as [| p ps].
  - constructor; [| constructor]. rewrite list_elem_of_singleton. congruence.
  - apply Forall_cons in IH as [Hp Hps]. constructor; [| done]. apply not_elem_of_cons. split; [congruence | done].
Qed.

Lemma path_parts_join parts res : Forall (fun p => p <> [] /\ dot ∉ p) parts ->
  path_parts (join_path parts res) = path_parts res ++ parts.
Proof.
  intros Hp. revert res. induction Hp as [| p parts [Hne Hd] Hp IH]; intros res.
  { by rewrite app_nil_r. }
  change (join_path (p :: parts) res)
    with (join_path parts ((match res with [] => res | _ => res ++ [dot] end) ++ p)).
  rewrite IH. assert (path_parts ((match res with [] => res | _ => res ++ [dot] end) ++ p) = path_parts res ++ [p]) as ->.
  { destruct res as [| b res].
    - cbn [app]. unfold path_parts. rewrite split_on_free by done. by rewrite filter_cons_True.
    - rewrite <- (assoc_L (++)). change ([dot] ++ p) with (dot :: p). unfold path_parts.
      rewrite split_on_app, filter_app, (split_on_free dot p) by done. f_equal. by rewrite filter_cons_True. }
  by rewrite <- (assoc_L (++)).
Qed.

Lemma path_parts_ok p : Forall (fun q => q <> [] /\ dot ∉ q) (path_parts p).
Proof.
  apply Forall_forall. intros q [Hq Hin]%list_elem_of_filter. split; [done |].
  pose proof (split_on_free_parts dot p) as Hf. rewrite Forall_forall in Hf. by apply Hf.
Qed.

Lemma Path2Name_parts tm parts tags res : tm_inv tm -> parts_tags tm parts tags ->
  Path2Name_from tags res tm = Ok (join_path parts res).
Proof.
  intros Hi Hp. revert res. induction Hp as [| p t parts tags E Hp IH]; intros res; [done |].
  cbn [Path2Name_from]. pose proof (tm_inv_tag _ _ _ Hi E). apply Hi in E as [_ E].
  unfold tag2name, TagName_IsEmpty. rewrite (proj2 (Z.eqb_neq t 0)), (proj2 (Z.ltb_ge _ _)), E by lia.
  cbn [of_option]. rewrite R_bind_ok. apply IH.
Qed.

(** JSON paths and paths of tags. When there is room for its names, converting a path with adding
    allowed gives one tag for each non-empty step of the path and keeps all the old tags;
    converting the same path again gives the same tags and changes nothing, and converting the
    tags back gives the path without its empty steps. When adding is not allowed and a step is
    unknown, the result is empty and nothing changes. *)
Theorem paths_and_tags p canAdd tm : tm_inv tm -> tm_Size tm + zlen (path_parts p) <= kNameMax ->
  (exists tags upd tm', path2tag p true tm = (Ok (tags, upd), tm') /\ tm_inv tm' /\ extends tm tm' /\
     length tags = length (path_parts p) /\ (upd = false -> tm' = tm) /\
     path2tag p canAdd tm' = (Ok (tags, false), tm') /\
     exists q, Path2Name tags tm' = Ok q /\ path_parts q = path_parts p) /\
  (Exists (fun n => names2tags_ tm !! n = None) (path_parts p) ->
     path2tag p false tm = (Ok ([], false), tm)).
Proof.
  intros Hi Hs. pose proof (zlen_nonneg (path_parts p)). split.
  - destruct (path_add tm (path_parts p) [] false Hi Hs) as (tags & upd & tm' & E & Hi' & Hs' & Hx & Hp & Hu).
    exists tags, upd, tm'. split_and!; try done.
    + symmetry. by eapply Forall2_length.
    + unfold path2tag. rewrite (parts_tags_find tm' _ tags) by (done || lia). done.
    + exists (join_path (path_parts p) []). split; [by apply Path2Name_parts |].
      by rewrite path_parts_join by apply path_parts_ok.
  - intros He. apply path_unknown; [done | lia | done].
Qed.

Lemma paths_and_tags_witness : exists tags upd tm',
  path2tag (str "b..a") true a_name = (Ok (tags, upd), tm') /\
  path2tag (str "b..a") false tm' = (Ok (tags, false), tm') /\ length tags = 2%nat.
Proof.
  destruct (paths_and_tags (str "b..a") false a_name a_name_inv)
    as [(tags & upd & tm' & E & _ & _ & Hl & _ & E2 & _) _]; [vm_compute; discriminate |].
  exists tags, upd, tm'. split; [exact E | split; [exact E2 | exact Hl]].
Defined.

(** ** The binary form and merging *)

(** A list of names and the map from them to their positions. *)
Definition dict (l : list bytes) (m : gmap bytes Z) : Prop :=
  forall n t, m !! n = Some t <-> 1 <= t /\ znth l (t - 1) = Some n.

Lemma dict_tm l m p v t c s : dict l m <-> tm_inv (mk_tm m l p v t c s).
Proof. done. Qed.

Lemma dict_unique l m1 m2 : dict l m1 -> dict l m2 -> m1 = m2.
Proof. intros H1 H2. apply map_eq. intros n. apply option_eq. intros t. by rewrite (H1 n t), (H2 n t). Qed.

Lemma dict_nodup l m : dict l m -> NoDup l.
Proof.
  intros Hd. apply NoDup_alt. intros i j n Hi Hj.
  assert (forall k, l !! k = Some n -> m !! n = Some (Z.of_nat k + 1)) as Hk.
  { intros k Hk. apply Hd. split; [lia |]. by rewrite Z.add_simpl_r, znth_lookup. }
  pose proof (Hk i Hi) as E1. pose proof (Hk j Hj) as E2. rewrite E1 in E2. injection E2. lia.
Qed.

Lemma dict_none l m n : dict l m -> n ∉ l -> m !! n = None.
Proof.
  intros Hd Hn. destruct (m !! n) as [t |] eqn:E; [| done]. exfalso. apply Hn. apply Hd in E as [_ E].
  unfold znth in E. case_decide; [| done]. by eapply list_elem_of_lookup_2.
Qed.

Lemma dict_snoc l m n : dict l m -> n ∉ l -> dict (l ++ [n]) (<[n := zlen l + 1]> m).
Proof.
  intros Hd Hn. apply (dict_tm (l ++ [n]) _ None 0 0 [] []).
  by apply (tm_inv_add (mk_tm m l None 0 0 [] [])); [| apply (dict_none l)].
Qed.

Lemma dict_size l m : dict l m -> Z.of_nat (base.size m) = zlen l.
Proof.
  intros Hd. unfold zlen. f_equal. rewrite <- (size_list_to_set (C := gset bytes) l) by by eapply dict_nodup.
  rewrite <- size_dom. f_equal. apply set_eq. intros n. rewrite elem_of_dom, elem_of_list_to_set.
  apply (tm_inv_known (mk_tm m l None 0 0 [] [])). done.
Qed.

(** Writing the names from the position [i], as [get_names] and [merge_names] do. *)
Fixpoint fill (i : Z) (l : list bytes) (tm : TagsMatcherImpl) : TagsMatcherImpl :=
  match l with
  | [] => tm
  | n :: l =>
      fill (i + 1) l (set_names (emplace n (i + 1) (names2tags_ tm)) (zset (tags2names_ tm) i n)
                        (version_ tm) tm)
  end.

Lemma zset_here {A} (l : list A) x y k : zset (l ++ y :: k) (zlen l) x = l ++ x :: k.
Proof. unfold zset, zlen. rewrite Nat2Z.id. by rewrite insert_app_r_alt, Nat.sub_diag by lia. Qed.

Lemma fill_ok done l tm : dict done (names2tags_ tm) -> NoDup (done ++ l) ->
  tags2names_ tm = done ++ replicate (length l) [] ->
  let tm' := fill (zlen done) l tm in
  tags2names_ tm' = done ++ l /\ dict (done ++ l) (names2tags_ tm') /\ version_ tm' = version_ tm /\
  pathCache_ tm' = pathCache_ tm /\ payloadType_ tm' = payloadType_ tm /\
  stateToken_ tm' = stateToken_ tm /\ sparseIndexes_ tm' = sparseIndexes_ tm.
Proof.
  revert done tm. induction l as [| n l IH]; intros done tm Hd Hnd Ht; cbn [fill].
  { cbn in Ht. rewrite app_nil_r in *. by rewrite Ht. }
  cbn [length replicate] in Ht. rewrite Ht, zset_here.
  assert (n ∉ done) as Hn by (apply NoDup_app in Hnd as (_ & Hx & _); intros Hin; apply (Hx n Hin); by left).
  unfold emplace. rewrite (dict_none done) by done.
  rewrite cons_middle, (assoc_L (++)) in Hnd.
  replace (zlen done + 1) with (zlen (done ++ [n])) by (rewrite zlen_app; done).
  specialize (IH (done ++ [n]) (set_names (<[n := zlen (done ++ [n])]> (names2tags_ tm))
    (done ++ n :: replicate (length l) []) (version_ tm) tm)). cbn zeta in IH.
  rewrite <- (assoc_L (++)) in IH. cbn [app] in IH. apply IH; cbn.
  - rewrite zlen_app. change (zlen [n]) with 1. by apply dict_snoc.
  - by rewrite <- (assoc_L (++)) in Hnd.
  - by rewrite <- (assoc_L (++)).
Qed.

Definition enc_name (s : bytes) : bytes := uint64_pack (zlen s) ++ s.
Definition enc_names (l : list bytes) : bytes := concat (enc_name <$> l).

Fixpoint room_names (l : list bytes) : Z :=
  match l with [] => 0 | s :: l => zlen s + 10 + room_names l end.

Lemma put_names_writes l : Forall (fun s => zlen s < 2 ^ 32) l -> writes (room_names l) (put_names l) (enc_names l).
Proof.
  induction 1 as [| s l Hs Hl IH]; [apply writes_ret |]. cbn [put_names room_names].
  unfold enc_names. cbn. apply writes_bind; [by apply writes_vstring | done].
Qed.

Lemma get_names_run l i pre rest tm : Forall (fun s => zlen s < 2 ^ 32) l -> 0 <= i ->
  i + zlen l <= 65535 -> zlen (pre ++ enc_names l ++ rest) < 2 ^ 32 ->
  get_names (length l) i (tm, mk_ser (pre ++ enc_names l ++ rest) (zlen pre)) =
    (Ok tt, (fill i l tm, mk_ser (pre ++ enc_names l ++ rest) (zlen pre + zlen (enc_names l)))).
Proof.
  intros Hl. revert i pre tm. induction Hl as [| s l Hs Hl IH]; intros i pre tm Hi Hb Hz.
  { cbn. by rewrite Z.add_0_r. }
  rewrite zlen_cons in Hb. pose proof (zlen_nonneg l). cbn [length get_names].
  assert (enc_names (s :: l) = enc_name s ++ enc_names l) as Ee by done. rewrite Ee in *.
  rewrite <- (assoc_L (++)) in *.
  assert (reads GetVStringCopy (enc_name s) s) as Hr
    by (unfold enc_name; exact (GetVStringCopy_reads s Hs)).
  specialize (Hr pre (enc_names l ++ rest)).
  erewrite M_bind_ok; [| unfold on_ser; cbn [fst snd]; rewrite Hr by done; reflexivity].
  rewrite TagName_make_ok, M_bind_lift by lia. unfold modify_tm at 1.
  erewrite M_bind_ok; [| reflexivity]. cbn [fst snd].
  rewrite (assoc_L (++) pre) in *. rewrite <- zlen_app.
  rewrite IH by (done || lia). cbn [fill]. by rewrite !zlen_app, Z.add_assoc.
Qed.

(** The binary form of a dictionary. A dictionary that is written to a fresh serializer is read
    back, into any matcher, with the same names and tags, up to the end of what was written; the
    cache of paths is emptied and the version grows by one, or is the given one. *)
Theorem tags_roundtrip src tm version token : tm_inv src -> tm_Size src <= kNameMax ->
  Forall (fun s => zlen s < 2 ^ 32) (tags2names_ src) -> 10 + room_names (tags2names_ src) < 2 ^ 32 ->
  exists w, Serialize src (wr_make 0) = (Ok tt, w) /\
    (exists tm' s, Deserialize (tm, ser_make (w_bytes w)) = (Ok tt, (tm', s)) /\ Eof s = true /\
       tags2names_ tm' = tags2names_ src /\ names2tags_ tm' = names2tags_ src /\
       pathCache_ tm' = [] /\ version_ tm' = s32 (version_ tm + 1) /\ stateToken_ tm' = stateToken_ tm) /\
    (exists tm' s, Deserialize_state version token (tm, ser_make (w_bytes w)) = (Ok tt, (tm', s)) /\
       tags2names_ tm' = tags2names_ src /\ names2tags_ tm' = names2tags_ src /\
       version_ tm' = version /\ stateToken_ tm' = token).
Proof.
  intros Hi Hs Hl Hr. set (l := tags2names_ src) in *. pose proof (zlen_nonneg l) as Hz.
  unfold tm_Size in Hs. fold l in Hs. rewrite kNameMax_val in Hs.
  assert (u64 (zlen l) = zlen l) as Hu by (unfold u64; apply wrap_id; lia).
  destruct (writes_bind 10 (room_names l) (PutVarUint64 (zlen l)) (put_names l) (uint64_pack (zlen l))
    (enc_names l)) as (Hn & Hlen & Hw).
  { pose proof (writes_varuint64 (zlen l)) as H1. by rewrite Hu in H1. }
  { by apply put_names_writes. }
  destruct (Hw (wr_make 0)) as (w & E & B & _ & _).
  { repeat split; done. }
  { unfold wr_room, kSaneSize. cbn [wr_make w_bytes w_maxCap].
    change (GrowthPolicy_make 0) with kMaxCapacity. rewrite zlen_nil. unfold kMaxCapacity. lia. }
  exists w. split; [exact E |]. cbn [wr_make w_bytes app] in B.
  set (tm1 := tm_Clear tm).
  set (tm2 := set_names (names2tags_ tm1) (zresize (tags2names_ tm1) (zlen l) []) (version_ tm1) tm1).
  assert (Deserialize (tm, ser_make (w_bytes w)) =
    (Ok tt, (fill 0 l tm2, mk_ser (w_bytes w) (zlen (w_bytes w))))) as Ed.
  { unfold Deserialize. erewrite M_bind_ok; [| reflexivity]. cbn [fst snd]. fold tm1.
    pose proof (GetVarUInt_reads (zlen l) ltac:(lia) [] (enc_names l)) as Hg. cbn [app] in Hg.
    erewrite M_bind_ok; [| unfold on_ser, ser_make; cbn [fst snd]; rewrite B; rewrite zlen_nil in Hg;
      rewrite Hg by lia; reflexivity].
    unfold validateTagSize. rewrite kNameMax_val, (proj2 (Z.ltb_ge _ _)), M_bind_lift by lia.
    erewrite M_bind_ok; [| reflexivity]. cbn [fst snd]. fold tm2.
    replace (Z.to_nat (zlen l)) with (length l) by (unfold zlen; lia).
    pose proof (get_names_run l 0 (uint64_pack (zlen l)) [] tm2 Hl) as Hgn. rewrite app_nil_r in Hgn.
    rewrite B. rewrite (zlen_app (uint64_pack (zlen l))). apply Hgn; lia. }
  destruct (fill_ok [] l tm2) as (F1 & F2 & F3 & F4 & F5 & F6 & F7).
  { intros n t. cbn. rewrite lookup_empty. split; [done |]. intros [_ Ez%znth_Some]. unfold zlen in Ez. cbn in Ez. lia. }
  { by apply (dict_nodup l (names2tags_ src)). }
  { cbn. unfold zresize, zlen. rewrite Nat2Z.id. by rewrite resize_nil. }
  change (zlen []) with 0 in *. cbn [app] in F1, F2.
  assert (names2tags_ (fill 0 l tm2) = names2tags_ src) as Fm by by apply (dict_unique l).
  split.
  - exists (fill 0 l tm2), (mk_ser (w_bytes w) (zlen (w_bytes w))). split_and!; try done.
    unfold Eof, len_. cbn [buf_ pos_]. apply Z.leb_refl.
  - eexists _, _. unfold Deserialize_state. erewrite M_bind_ok; [| exact Ed]. split; [reflexivity |].
    cbn. by split_and!.
Qed.

Lemma tags_roundtrip_witness : exists w,
  Serialize a_name (wr_make 0) = (Ok tt, w) /\
  exists tm' s, Deserialize (tm_make 3, ser_make (w_bytes w)) = (Ok tt, (tm', s)) /\
    tags2names_ tm' = [str "a"].
Proof.
  destruct (tags_roundtrip a_name (tm_make 3) 5 6 a_name_inv) as (w & E & (tm' & s & E2 & _ & H & _) & _).
  - vm_compute. discriminate.
  - repeat constructor.
  - vm_compute. reflexivity.
  - exists w. split; [exact E |]. exists tm', s. split; [exact E2 | exact H].
Defined.

(** ** Merging *)

Lemma Contains_spec this tm : Contains this tm = true <-> extends tm this.
Proof.
  unfold Contains, tm_Size, extends. rewrite andb_true_iff, Z.leb_le, bool_decide_eq_true. split.
  - intros [_ E]. exists (drop (length (tags2names_ tm)) (tags2names_ this)). rewrite <- E at 1.
    by rewrite take_drop.
  - intros [k ->]. rewrite zlen_app. pose proof (zlen_nonneg k). split; [lia |]. by rewrite take_app_length.
Qed.

Lemma merge_names_run base l other this : dict base (names2tags_ this) -> NoDup (base ++ l) ->
  tags2names_ other = base ++ l -> tags2names_ this = base ++ replicate (length l) [] ->
  zlen base + zlen l <= 65535 ->
  merge_names (length l) (zlen base) other this = (Ok true, fill (zlen base) l this).
Proof.
  revert base this. induction l as [| n l IH]; intros base this Hd Hnd Ho Ht Hb; [done |].
  rewrite zlen_cons in Hb. pose proof (zlen_nonneg l). pose proof (zlen_nonneg base).
  assert (n ∉ base) as Hn by (apply NoDup_app in Hnd as (_ & Hx & _); intros Hin; apply (Hx n Hin); by left).
  cbn [length merge_names fill]. rewrite Ho, znth_app_r, Z.sub_diag by lia.
  change (znth (n :: l) 0) with (Some n). cbn [of_option].
  rewrite M_bind_lift, M_bind_get, M_bind_put, TagName_make_ok, M_bind_lift, M_bind_put by lia.
  cbn [set_names names2tags_ tags2names_ version_]. rewrite (dict_none base _ n Hd Hn).
  rewrite bool_decide_eq_false_2 by by intros [? ?].
  replace (zlen base + 1) with (zlen (base ++ [n])) by (by rewrite zlen_app).
  rewrite cons_middle, (assoc_L (++)) in Hnd, Ho. apply IH; try done; cbn.
  - unfold emplace. rewrite (dict_none base _ n Hd Hn), zlen_app. change (zlen [n]) with 1. by apply dict_snoc.
  - rewrite Ht. cbn [length replicate]. rewrite zset_here. by rewrite <- (assoc_L (++)).
  - rewrite zlen_app. change (zlen [n]) with 1. lia.
Qed.

Lemma merge_run this tm : tm_inv this -> tm_inv tm -> tm_Size tm <= 4095 ->
  0 <= version_ this < 2 ^ 31 - 1 -> version_ tm < 2 ^ 31 ->
  if Contains tm this then
    exists this', Merge tm this = (Ok (true, negb (tm_Size this =? tm_Size tm)), this') /\
      tm_inv this' /\ tags2names_ this' = tags2names_ tm /\ extends this this' /\
      (if tm_Size this =? tm_Size tm then version_ this' = version_ this
       else version_ this < version_ this' /\ version_ tm <= version_ this')
  else Merge tm this = (Ok (Contains this tm, false), this).
Proof.
  intros Hi Hi' Hs Hv Hv'. unfold Merge. rewrite M_bind_get. destruct (Contains tm this) eqn:E; [| done].
  apply Contains_spec in E as [k E]. rewrite (dict_size _ _ Hi'). cbv zeta. rewrite M_bind_put.
  set (this1 := set_names (names2tags_ this) _ _ this).
  assert (zlen (tags2names_ tm) - tm_Size this = zlen k) as Hk by (unfold tm_Size; rewrite E, zlen_app; lia).
  rewrite Hk. replace (Z.to_nat (zlen k)) with (length k) by (unfold zlen; lia).
  assert (tags2names_ this1 = tags2names_ this ++ replicate (length k) []) as Ht1.
  { cbn. unfold zresize, zlen. rewrite Nat2Z.id, E, length_app. rewrite resize_ge by lia. do 2 f_equal. lia. }
  pose proof (dict_nodup _ _ Hi') as Hnd. rewrite E in Hnd.
  destruct (fill_ok (tags2names_ this) k this1 Hi Hnd Ht1) as (F1 & F2 & F3 & _).
  assert (zlen (tags2names_ this) + zlen k <= 65535) as Hb by (rewrite <- zlen_app, <- E; unfold tm_Size in Hs; lia).
  rewrite (M_bind_ok _ _ _ _ _ (merge_names_run (tags2names_ this) k tm this1 Hi Hnd E Ht1 Hb)).
  cbn [negb]. set (this2 := fill _ k this1) in *. change (zlen (tags2names_ tm)) with (tm_Size tm).
  assert (s32 (version_ this + 1) = version_ this + 1) as Ev by (unfold s32; apply swrap_id; lia).
  destruct (Z.eqb_spec (tm_Size this) (tm_Size tm)) as [Heq | Hne]; cbn [negb].
  - exists this2. split_and!; [done | unfold tm_inv; by rewrite F1 | by rewrite F1, E | by exists k | done].
  - rewrite M_bind_get, M_bind_put. eexists. split; [reflexivity |]. cbn [set_version set_names tags2names_ version_].
    split_and!; [unfold tm_inv; cbn; by rewrite F1 | by rewrite F1, E | by exists k | |];
      rewrite F3; cbn [this1 set_names version_]; destruct (Z.leb_spec (version_ tm) (version_ this));
      rewrite ?Ev; lia.
Qed.

(** Merging dictionaries. [Merge] succeeds exactly when one of the dictionaries starts with the
    other. If the other one is the longer, this one becomes equal to it: it has its names and
    tags, keeps all of its own, is marked as updated, and gets a version that is newer than its
    own; otherwise nothing changes. It never fails, and [try_merge] gives the same answer and
    leaves the matcher alone when the merge is refused. *)
Theorem merge_dictionaries this tm upd : tm_inv this -> tm_inv tm -> tm_Size tm <= kNameMax ->
  0 <= version_ this < 2 ^ 31 - 1 -> version_ tm < 2 ^ 31 ->
  (if Contains tm this then
     exists this', Merge tm this = (Ok (true, negb (tm_Size this =? tm_Size tm)), this') /\
       tm_inv this' /\ tags2names_ this' = tags2names_ tm /\ extends this this' /\
       (if tm_Size this =? tm_Size tm then version_ this' = version_ this
        else version_ this < version_ this' /\ version_ tm <= version_ this')
   else Merge tm this = (Ok (Contains this tm, false), this)) /\
  exists this', try_merge tm upd this =
      (Ok (Contains this tm || Contains tm this,
           upd || (Contains tm this && negb (Contains this tm))), this') /\
    (if Contains tm this && negb (Contains this tm) then tags2names_ this' = tags2names_ tm
     else this' = this).
Proof.
  intros Hi Hi' Hs Hv Hv'. rewrite kNameMax_val in Hs.
  pose proof (merge_run this tm Hi Hi' Hs Hv Hv') as Hm. split; [exact Hm |].
  unfold try_merge. rewrite M_bind_get. destruct (Contains this tm) eqn:E1.
  { exists this. cbn [orb]. rewrite andb_false_r, orb_false_r. done. }
  destruct (Contains tm this) eqn:E2; cbn [orb andb negb].
  - destruct Hm as (this' & -> & _ & H2 & _). exists this'.
    assert (tm_Size this =? tm_Size tm = false) as ->; [| split; [reflexivity | done]].
    apply Z.eqb_neq. intros Heq. apply Contains_spec in E2 as [k E2].
    unfold tm_Size in Heq. rewrite E2, zlen_app in Heq.
    assert (k = []) as -> by (destruct k as [| x k]; [done | rewrite zlen_cons in Heq; pose proof (zlen_nonneg k); lia]).
    rewrite app_nil_r in E2. assert (Contains this tm = true); [| congruence].
    apply Contains_spec. exists []. by rewrite app_nil_r.
  - rewrite Hm. exists this. by rewrite orb_false_r.
Qed.

Lemma merge_dictionaries_witness : exists this',
  Merge (with_name (str "b") a_name) a_name = (Ok (true, true), this') /\ tag2name 2 this' = Ok (str "b").
Proof.
  destruct (merge_dictionaries a_name (with_name (str "b") a_name) false a_name_inv)
    as [(this' & E & _ & Ht & _) _].
  - by apply tm_inv_add; [exact a_name_inv |].
  - vm_compute. discriminate.
  - vm_compute. split; [discriminate | reflexivity].
  - vm_compute. reflexivity.
  - exists this'. split; [exact E |]. unfold tag2name, tm_Size. rewrite Ht. reflexivity.
Defined.

(** ** The merged dictionary of several ones *)

(** Appending the names that are not there yet. *)
Fixpoint union_names (acc names : list bytes) : list bytes :=
  match names with
  | [] => acc
  | n :: names => if bool_decide (n ∈ acc) then union_names acc names else union_names (acc ++ [n]) names
  end.

Lemma union_names_prefix names acc : exists k, union_names acc names = acc ++ k.
Proof.
  revert acc. induction names as [| n names IH]; intros acc; cbn [union_names].
  - exists []. by rewrite app_nil_r.
  - case_bool_decide; [apply IH |]. destruct (IH (acc ++ [n])) as [k ->]. exists (n :: k).
    by rewrite <- (assoc_L (++)).
Qed.

Lemma union_names_in names acc n : n ∈ union_names acc names <-> n ∈ acc \/ n ∈ names.
Proof.
  revert acc. induction names as [| m names IH]; intros acc; cbn [union_names]; [set_solver |].
  case_bool_decide; rewrite IH; set_solver.
Qed.

Lemma union_names_length names acc : zlen (union_names acc names) <= zlen acc + zlen names.
Proof.
  revert acc. induction names as [| m names IH]; intros acc; cbn [union_names].
  { unfold zlen at 3. cbn. lia. }
  rewrite zlen_cons. case_bool_decide; [specialize (IH acc); lia |].
  specialize (IH (acc ++ [m])). rewrite zlen_app in IH. change (zlen [m]) with 1 in IH. lia.
Qed.

Lemma add_merged_run names tm : tm_inv tm -> zlen (union_names (tags2names_ tm) names) < 65535 ->
  exists tm', add_merged names tm = Ok tm' /\ tm_inv tm' /\
    tags2names_ tm' = union_names (tags2names_ tm) names.
Proof.
  revert tm. induction names as [| n names IH]; intros tm Hi Hb; cbn [add_merged union_names] in *.
  { by exists tm. }
  assert (zlen (tags2names_ tm) < 65535) as Hlt.
  { eapply Z.le_lt_trans; [| exact Hb]. case_bool_decide.
    - destruct (union_names_prefix names (tags2names_ tm)) as [k ->]. rewrite zlen_app.
      pose proof (zlen_nonneg k). lia.
    - destruct (union_names_prefix names (tags2names_ tm ++ [n])) as [k ->]. rewrite !zlen_app.
      pose proof (zlen_nonneg k). change (zlen [n]) with 1. lia. }
  pose proof (zlen_nonneg (tags2names_ tm)).
  rewrite TagName_make_ok, R_bind_ok by (unfold tm_Size; lia).
  pose proof (tm_inv_known tm n Hi) as Hk. destruct (names2tags_ tm !! n) as [t |] eqn:E.
  - rewrite bool_decide_eq_true_2 in * by by apply Hk. by apply IH.
  - rewrite bool_decide_eq_false_2 in * by (rewrite <- Hk; by intros [? ?]).
    apply (IH (set_names (<[n := tm_Size tm + 1]> (names2tags_ tm)) (tags2names_ tm ++ [n]) (version_ tm) tm)).
    + by apply tm_inv_add.
    + done.
Qed.

(** All the names of the matchers of a list. *)
Definition all_names (tmList : list (option TagsMatcherImpl)) : list bytes :=
  o ← tmList; match o with Some tm => tags2names_ tm | None => [] end.

Lemma union_names_app acc l k : union_names acc (l ++ k) = union_names (union_names acc l) k.
Proof. revert acc. induction l as [| n l IH]; intros acc; cbn [union_names app]; [done |]. by case_bool_decide. Qed.

Lemma union_names_fresh acc l : NoDup (acc ++ l) -> union_names acc l = acc ++ l.
Proof.
  revert acc. induction l as [| n l IH]; intros acc Hnd; cbn [union_names]; [by rewrite app_nil_r |].
  rewrite bool_decide_eq_false_2.
  - rewrite IH; by rewrite <- (assoc_L (++)).
  - apply NoDup_app in Hnd as (_ & Hx & _). intros Hin. apply (Hx n Hin). by left.
Qed.

Lemma union_names_nodup l : NoDup l -> union_names [] l = l.
Proof. apply (union_names_fresh []). Qed.

Lemma createMerged_run tmList this : tm_inv this ->
  zlen (union_names (tags2names_ this) (all_names tmList)) < 65535 ->
  exists tm', createMerged_names tmList this = Ok tm' /\ tm_inv tm' /\
    tags2names_ tm' = union_names (tags2names_ this) (all_names tmList).
Proof.
  revert this. induction tmList as [| [tm |] tmList IH]; intros this Hi Hb; cbn [createMerged_names].
  - by exists this.
  - unfold all_names in *. cbn in *. rewrite union_names_app in *.
    destruct (add_merged_run (tags2names_ tm) this Hi) as (this1 & -> & Hi1 & Ht1).
    { eapply Z.le_lt_trans; [| exact Hb]. match goal with |- _ <= zlen (union_names ?a ?l) =>
        destruct (union_names_prefix l a) as [k ->] end. rewrite zlen_app. pose proof (zlen_nonneg k). lia. }
    rewrite R_bind_ok, <- Ht1 in *. by apply IH.
  - by apply IH.
Qed.

(** The dictionary merged from those of several query results. It has exactly the names of the
    merged dictionaries, once each, and the tags of the first one stay valid, as long as there
    are fewer than 65535 names. The limit of 4095 names, which CJSON tags are made for and which
    [name2tag] and [Deserialize] check, is not checked here: beyond it the last tag does not fit
    into a CJSON tag. *)
Theorem merged_dictionary tmList token : zlen (union_names [] (all_names tmList)) < 65535 ->
  exists tm', createMerged_names tmList (tm_make token) = Ok tm' /\ tm_inv tm' /\
    (forall n, n ∈ tags2names_ tm' <-> exists tm, Some tm ∈ tmList /\ n ∈ tags2names_ tm) /\
    (forall tm rest, tmList = Some tm :: rest -> NoDup (tags2names_ tm) -> extends tm tm') /\
    tm_Size tm' = zlen (union_names [] (all_names tmList)) /\
    (kNameMax < tm_Size tm' -> forall ty field, ctag_make ty (tm_Size tm') field = Fail AssertFail).
Proof.
  intros Hb. destruct (createMerged_run tmList (tm_make token)) as (tm' & E & Hi & Ht); [apply (tm_inv_empty []) | done |].
  cbn [tags2names_ tm_make] in Ht. exists tm'. split_and!; [done | done | | | by unfold tm_Size; rewrite Ht |].
  - intros n. rewrite Ht, union_names_in. unfold all_names. rewrite list_elem_of_bind. split.
    + intros [? | ([tm |] & Hin & Htm)]; [set_solver | by exists tm | set_solver].
    + intros (tm & Htm & Hin). right. by exists (Some tm).
  - intros tm rest -> Hnd. unfold extends. rewrite Ht. unfold all_names. cbn. rewrite union_names_app.
    rewrite union_names_nodup by done. apply union_names_prefix.
  - intros Hk ty field. unfold ctag_make.
    by rewrite (proj2 (Z.leb_gt (tm_Size tm') kNameMax)), andb_false_r by done.
Qed.

Lemma merged_dictionary_witness : exists tm',
  createMerged_names [Some a_name; None; Some (with_name (str "b") a_name)] (tm_make 9) = Ok tm' /\
  tags2names_ tm' = [str "a"; str "b"] /\ tm_Size tm' = 2.
Proof.
  destruct (merged_dictionary [Some a_name; None; Some (with_name (str "b") a_name)] 9)
    as (tm' & E & _ & _ & _ & Hs & _); [vm_compute; reflexivity |].
  exists tm'. split; [exact E |]. split; [| rewrite Hs; reflexivity].
  revert E. vm_compute. intros [= <-]. reflexivity.
Defined.

(** ** Copies of a matcher share the cache of paths *)

Definition abc : TagsMatcherImpl := with_name (str "c") (with_name (str "b") a_name).
Definition sparse_ab : SparseIndexData := mk_sparse (str "ab") KInt 4 false [[1; 2]].
Definition sparse_ac : SparseIndexData := mk_sparse (str "ac") KInt 4 false [[1; 3]].

(** A copy of a matcher shares the sub-caches of its path cache, so that adding a sparse index to
    the copy changes the original. The matcher [tm1] below has one sparse index, on the path
    [a.b]. A copy of it gets a second one, on [a.c] (as [TagsMatcher::AddSparseIndex] does when
    the matcher is shared). Afterwards the original, which nobody changed, says that [a.c] is the
    sparse index number 1, which it does not have; before, it said that [a.c] is not indexed. *)
Theorem clone_shares_path_cache : exists tm1 h1 tm2 h2,
  AddSparseIndex sparse_ab (abc, empty_heap) = (Ok tt, (tm1, h1)) /\
  AddSparseIndex sparse_ac (clone tm1, h1) = (Ok tt, (tm2, h2)) /\
  tags2field [1; 3] tm1 h1 = Ok kNotIndexed /\
  tags2field [1; 3] tm1 h2 = Ok (sparse_field 1 sparse_ac) /\
  SparseIndex 1 tm1 = Fail (Throw errAssert) /\ SparseIndex 1 tm2 = Ok sparse_ac.
Proof. eexists _, _, _, _. split; [vm_compute; reflexivity |]. split_and!; vm_compute; reflexivity. Qed.
