(* ===== verification/ReplVotes.v ===== *)
(** The result of one replicated update: the counters of [updates/updatesqueue.h].

    Every update in the queue of a leader carries [Counters]; each follower answers once, with
    [replicated], and the answer which decides the update carries its verdict. The
    compare-and-swap loop is one atomic step. Proved: over all the answers of a cluster the
    verdict is given exactly once when one side reached the consensus, at the last answer the
    update may be erased, and the assertion of the code holds. *)

From S2P Require Import Prelude Raft.

Record Counters : Set := mk_counters {
  replicatedToEmitter : bool;
  requireResult : bool;
  replicas : Z;               (* 16 bits each *)
  approves : Z;
  errors : Z
}.

Record UpdatesStatus : Set := mk_status {
  st_requireResult : bool;
  st_requireErasure : bool;
  st_hasEnoughApproves : bool;
  st_result : ErrorCode
}.

Definition err_ok (err : ErrorCode) : bool := bool_decide (err = errOK).

(** [status.requireResult] of an answer: [mine] is the counter that it incremented. *)
Definition decides (consensusCnt mine other : Z) (emitted isEmitter : bool) : bool :=
  ((mine =? consensusCnt) && emitted)
  || (isEmitter && (consensusCnt <=? mine))
  || (isEmitter && (consensusCnt <=? other)).

(** [Value::replicated] *)
Definition replicated (consensusCnt requiredReplicas : Z) (isEmitter : bool) (err : ErrorCode)
    (expected : Counters) : result (Counters * UpdatesStatus) :=
  let emitted := replicatedToEmitter expected || isEmitter in
  let a := if err_ok err then u16 (approves expected + 1) else approves expected in
  let e := if err_ok err then errors expected else u16 (errors expected + 1) in
  let rr := requireResult expected
            && (if err_ok err then decides consensusCnt a e emitted isEmitter
                else decides consensusCnt e a emitted isEmitter) in
  let r := u16 (replicas expected + 1) in
  let erase := r =? requiredReplicas in
  if erase && negb emitted then Fail AssertFail
  else Ok (mk_counters emitted (requireResult expected) r a e,
           mk_status rr erase (consensusCnt <=? a) (if err_ok err then errOK else err)).

(** [Value::handledNoResult]: a queue without results only counts the readers. *)
Definition handledNoResult (requiredReplicas : Z) (expected : Counters) :
    Counters * UpdatesStatus :=
  let r := u16 (replicas expected + 1) in
  (mk_counters (replicatedToEmitter expected) (requireResult expected) r (approves expected)
     (errors expected),
   mk_status false (r =? requiredReplicas) false errOK).

(** The counters of a new update, [QueueEntry::append]: the leader approves it, and an update
    without an emitter is already where it came from. *)
Definition new_counters (skipResultCounting hasEmitterID : bool) : Counters :=
  mk_counters (negb hasEmitterID) (negb skipResultCounting) 0 1 0.

(** The answers of the followers, in the order of their atomic steps. *)
Fixpoint answers (consensusCnt requiredReplicas : Z) (rs : list (bool * ErrorCode))
    (c : Counters) : result (Counters * list UpdatesStatus) :=
  match rs with
  | [] => mret (c, [])
  | (isEmitter, err) :: rs =>
      r ← replicated consensusCnt requiredReplicas isEmitter err c;
      r' ← answers consensusCnt requiredReplicas rs (fst r);
      mret (fst r', snd r :: snd r')
  end.

(** ** One answer *)

(** The emitter has answered and one side has the consensus. *)
Definition voted (cc : Z) (c : Counters) : bool :=
  replicatedToEmitter c && ((cc <=? approves c) || (cc <=? errors c)).

Definition n_emitters (rs : list (bool * ErrorCode)) : Z := count fst rs.
Definition n_ok (rs : list (bool * ErrorCode)) : Z := count (fun r => err_ok (snd r)) rs.
Definition n_verdicts (sts : list UpdatesStatus) : Z := count st_requireResult sts.

(** What holds of the counters after [done] of [total] answers. *)
Record counting (n total : Z) (c : Counters) : Prop := {
  ct_sum : approves c + errors c = 1 + replicas c;
  ct_pos : 1 <= approves c /\ 0 <= errors c /\ 0 <= replicas c;
  ct_n : replicas c + total = n - 1
}.

Lemma err_ok_true err : err_ok err = true <-> err = errOK.
Proof. unfold err_ok. by rewrite bool_decide_eq_true. Qed.

Lemma u16_small x : 0 <= x < 65536 -> u16 x = x.
Proof. intros. by apply wrap_id. Qed.

(** The effect of one answer, without the widths. *)
Definition count_answer (isEmitter : bool) (err : ErrorCode) (c : Counters) : Counters :=
  mk_counters (replicatedToEmitter c || isEmitter) (requireResult c) (replicas c + 1)
    (if err_ok err then approves c + 1 else approves c)
    (if err_ok err then errors c else errors c + 1).

(** The verdict is given by the answer that makes the update voted, and by no other. *)
Lemma replicated_spec n total isEmitter err c :
  0 < n < 65536 -> 0 < total -> counting n total c ->
  (isEmitter = true -> replicatedToEmitter c = false) ->
  (total = 1 -> replicatedToEmitter c || isEmitter = true) ->
  let cc := GetConsensusForN n in
  let c' := count_answer isEmitter err c in
  replicated cc (n - 1) isEmitter err c
  = Ok (c', mk_status (requireResult c && (voted cc c' && negb (voted cc c))) (total =? 1) (cc <=? approves c')
              (if err_ok err then errOK else err))
  /\ counting n (total - 1) c'.
Proof.
  intros Hn Ht [Hs Hp Hr] He Hl cc c'.
  assert (2 * cc > n) as Hcc by (unfold cc, GetConsensusForN; dlia).
  unfold replicated, decides, voted, c', count_answer.
  rewrite !u16_small by lia.
  cbn [replicatedToEmitter requireResult replicas approves errors].
  split; [| constructor; cbn [replicas approves errors]; destruct (err_ok err); lia].
  assert ((replicas c + 1 =? n - 1) = (total =? 1)) as -> by lia.
  assert ((total =? 1) && negb (replicatedToEmitter c || isEmitter) = false) as ->.
  { destruct (total =? 1) eqn:E; [| done]. rewrite Hl by lia. done. }
  do 2 f_equal. f_equal. destruct (requireResult c); [cbn [andb] | done].
  destruct isEmitter; [rewrite He by done | rewrite !orb_false_r];
    destruct (replicatedToEmitter c), (err_ok err); cbn [andb orb negb];
    rewrite ?andb_true_r, ?andb_false_r, ?orb_false_r; try done; lia.
Qed.

(** ** All the answers *)

Lemma n_emitters_cons b err rs : n_emitters ((b, err) :: rs) = b2z b + n_emitters rs.
Proof. apply count_cons. Qed.

Lemma n_emitters_nonneg rs : 0 <= n_emitters rs.
Proof. apply count_bound. Qed.

Lemma n_ok_cons b err rs : n_ok ((b, err) :: rs) = b2z (err_ok err) + n_ok rs.
Proof. apply (count_cons (fun r => err_ok (snd r))). Qed.

Lemma n_ok_bound rs : 0 <= n_ok rs <= zlen rs.
Proof. apply count_bound. Qed.

Lemma n_verdicts_cons st sts : n_verdicts (st :: sts) = b2z (st_requireResult st) + n_verdicts sts.
Proof. apply count_cons. Qed.

Lemma voted_mono cc isEmitter err c :
  voted cc c = true -> voted cc (count_answer isEmitter err c) = true.
Proof.
  unfold voted, count_answer. cbn [replicatedToEmitter approves errors].
  destruct (replicatedToEmitter c), (err_ok err); cbn; lia.
Qed.

(** The run over the remaining answers, from any counters. *)
Lemma answers_spec n rs c :
  0 < n < 65536 -> counting n (zlen rs) c -> requireResult c = true ->
  n_emitters rs = (if replicatedToEmitter c then 0 else 1) -> rs <> [] ->
  let cc := GetConsensusForN n in
  exists c' sts,
    answers cc (n - 1) rs c = Ok (c', sts) /\ length sts = length rs
    /\ counting n 0 c' /\ replicatedToEmitter c' = true
    /\ approves c' = approves c + n_ok rs
    /\ n_verdicts sts = b2z (voted cc c') - b2z (voted cc c)
    /\ Forall (fun st => st_requireResult st = true ->
                         st_hasEnoughApproves st = (cc <=? approves c')) sts
    /\ exists l last, sts = l ++ [last] /\ st_requireErasure last = true
                      /\ Forall (fun st => st_requireErasure st = false) l.
Proof.
  intros Hn Hc Hq He Hne cc. revert c Hc Hq He Hne.
  induction rs as [| [b err] rs IH]; intros c Hc Hq He Hne; [done |].
  rewrite n_emitters_cons in He. unfold b2z in He. pose proof (n_emitters_nonneg rs) as Hn0.
  pose proof (zlen_nonneg rs) as Hl0. rewrite zlen_cons in Hc.
  destruct (replicated_spec n (1 + zlen rs) b err c Hn ltac:(lia) Hc) as [Hrun Hc'].
  { intros ->. destruct (replicatedToEmitter c); [lia | done]. }
  { intros Hz. assert (rs = []) as -> by (apply length_zero_iff_nil; unfold zlen in Hz; lia).
    unfold n_emitters in He. cbn in He. unfold zlen in He. cbn in He.
    destruct (replicatedToEmitter c), b; try done; lia. }
  fold cc in Hrun. rewrite Hq in Hrun. cbn [andb] in Hrun. set (c1 := count_answer b err c) in *.
  replace (1 + zlen rs - 1) with (zlen rs) in Hc' by lia.
  assert (approves c1 = approves c + b2z (err_ok err)) as Ha.
  { unfold c1, count_answer. cbn. destruct (err_ok err); cbn; lia. }
  assert (2 * cc > n) as Hcc by (unfold cc, GetConsensusForN; dlia).
  cbn [answers]. rewrite Hrun, R_bind_ok. cbn [fst snd].
  pose proof (voted_mono cc b err c) as Hmono. fold c1 in Hmono.
  destruct rs as [| r rs].
  - exists c1. eexists. cbn [answers]. split; [reflexivity |]. cbn [snd fst].
    split; [done |]. split; [done |]. split_and!.
    + unfold c1, count_answer. cbn. change (n_emitters []) with 0 in He.
      destruct (replicatedToEmitter c), b; try done; lia.
    + rewrite n_ok_cons, Ha. change (n_ok []) with 0. lia.
    + rewrite n_verdicts_cons. cbn [st_requireResult]. change (n_verdicts []) with 0.
      destruct (voted cc c1), (voted cc c); cbn; try done. by specialize (Hmono eq_refl).
    + constructor; [done | constructor].
    + exists []. eexists. split; [done |]. cbn [st_requireErasure]. by split.
  - destruct (IH c1 Hc') as (c' & sts & Hgo & Hlen & Hcnt & Hem & Hap & Hv & Hf & Hlast);
      [done | | done |].
    { unfold c1, count_answer. cbn [replicatedToEmitter].
      destruct (replicatedToEmitter c), b; cbn [orb]; lia. }
    exists c'. eexists. rewrite Hgo, R_bind_ok. split; [reflexivity |]. cbn [fst snd].
    split; [cbn [length] in *; lia |]. split; [done |]. split; [done |]. split_and!.
    + rewrite n_ok_cons. lia.
    + rewrite n_verdicts_cons, Hv. cbn [st_requireResult].
      destruct (voted cc c1), (voted cc c); cbn; try lia.
    + constructor; [| done]. cbn [st_requireResult st_hasEnoughApproves]. intros Hver.
      apply andb_true_iff in Hver as [Hver _].
      pose proof (n_ok_bound (r :: rs)) as Hb. destruct Hc' as [Hs1 Hp1 Hr1].
      destruct Hcnt as [Hs2 Hp2 Hr2]. unfold voted in Hver. lia.
    + destruct Hlast as (l & last & -> & Hl1 & Hl2). eexists (_ :: l), last.
      split; [done |]. split; [done |]. constructor; [| done]. cbn [st_requireErasure].
      rewrite zlen_cons. pose proof (zlen_nonneg rs). lia.
Qed.

(** ** The verdict of an update *)

Lemma new_counters_counting n hasEmitter :
  counting n (n - 1) (new_counters false hasEmitter).
Proof. constructor; cbn [new_counters approves errors replicas]; lia. Qed.

Lemma new_counters_voted n hasEmitter :
  2 <= n -> voted (GetConsensusForN n) (new_counters false hasEmitter) = false.
Proof.
  intros Hn. unfold voted, GetConsensusForN. cbn [new_counters approves errors].
  assert (1 <= n / 2) by dlia. destruct (replicatedToEmitter _); cbn [andb]; lia.
Qed.

(** The run over all the answers of a cluster of [n] nodes. *)
Lemma answers_new n hasEmitter rs :
  2 <= n < 65536 -> zlen rs = n - 1 -> n_emitters rs = b2z hasEmitter ->
  let cc := GetConsensusForN n in
  exists c sts,
    answers cc (n - 1) rs (new_counters false hasEmitter) = Ok (c, sts)
    /\ approves c = 1 + n_ok rs /\ errors c = n - 1 - n_ok rs /\ replicas c = n - 1
    /\ n_verdicts sts = b2z ((cc <=? approves c) || (cc <=? errors c))
    /\ Forall (fun st => st_requireResult st = true ->
                         st_hasEnoughApproves st = (cc <=? approves c)) sts
    /\ exists l last, sts = l ++ [last] /\ st_requireErasure last = true
                      /\ Forall (fun st => st_requireErasure st = false) l.
Proof.
  intros Hn Hl He cc.
  destruct (answers_spec n rs (new_counters false hasEmitter)) as
    (c & sts & Hgo & _ & [Hs Hp Hr] & Hem & Ha & Hv & Hf & Hlast).
  - lia.
  - rewrite Hl. apply new_counters_counting.
  - done.
  - rewrite He. by destruct hasEmitter.
  - intros ->. unfold zlen in Hl. cbn in Hl. lia.
  - exists c, sts. fold cc in Hgo, Hv, Hf. split; [done |].
    cbn [new_counters approves] in Ha. split_and!; try lia; try done.
    rewrite Hv. unfold cc at 2. rewrite new_counters_voted by lia.
    unfold voted. rewrite Hem. cbn [andb]. destruct (_ || _); cbn; lia.
Qed.

(** C5: In a cluster of [n] nodes, whatever the [n - 1] followers answer and in whatever
    order their answers arrive (with one answer of the emitter if the update has one), the
    counters never wrap and the assertion of [replicated] holds; the verdict is given by
    exactly one answer if the approvals (with the leader's own) or the errors reach the
    consensus, and by none otherwise; a verdict reports enough approvals exactly when the
    approvals of all the answers are enough; and only the last answer releases the update. *)
Theorem update_verdict n hasEmitter rs
    (Hn : 2 <= n < 65536) (Hl : zlen rs = n - 1) (He : n_emitters rs = b2z hasEmitter) :
  let cc := GetConsensusForN n in
  exists c sts,
    answers cc (n - 1) rs (new_counters false hasEmitter) = Ok (c, sts)
    /\ approves c = 1 + n_ok rs /\ errors c = n - 1 - n_ok rs /\ replicas c = n - 1
    /\ n_verdicts sts = b2z ((cc <=? 1 + n_ok rs) || (cc <=? n - 1 - n_ok rs))
    /\ Forall (fun st => st_requireResult st = true ->
                         st_hasEnoughApproves st = (cc <=? 1 + n_ok rs)) sts
    /\ exists l last, sts = l ++ [last] /\ st_requireErasure last = true
                      /\ Forall (fun st => st_requireErasure st = false) l.
Proof.
  intros cc. destruct (answers_new n hasEmitter rs Hn Hl He) as (c & sts & H).
  exists c, sts. fold cc in H. destruct H as (Hgo & Ha & Hs & H). rewrite Ha, Hs in H.
  split; [done |]. split; [done |]. split; [done |]. exact H.
Qed.

Definition sample_answers : list (bool * ErrorCode) :=
  [(false, errOK); (true, errOK); (false, errNetwork); (false, errOK)].

Example update_verdict_witness :
  exists c sts,
    answers 3 4 sample_answers (new_counters false true) = Ok (c, sts)
    /\ approves c = 4 /\ errors c = 1 /\ n_verdicts sts = 1.
Proof.
  destruct (update_verdict 5 true sample_answers) as (c & sts & H).
  - lia.
  - reflexivity.
  - reflexivity.
  - exists c, sts. destruct H as (Hgo & Ha & Hs & _ & Hv & _).
    split; [exact Hgo |]. split; [exact Ha |]. split; [exact Hs | exact Hv].
Defined.

(** In a cluster with an odd number of nodes every update gets its verdict: once all
    the followers have answered, exactly one answer has called for the result, and it reports
    enough approvals exactly when the majority of the nodes, the leader included, approved. *)
Theorem update_verdict_live n hasEmitter rs
    (Hn : 2 <= n < 65536) (Hodd : Z.odd n = true) (Hl : zlen rs = n - 1)
    (He : n_emitters rs = b2z hasEmitter) :
  exists c sts st,
    answers (GetConsensusForN n) (n - 1) rs (new_counters false hasEmitter) = Ok (c, sts)
    /\ filter (fun st => st_requireResult st = true) sts = [st]
    /\ st_hasEnoughApproves st = (n <? 2 * (1 + n_ok rs)).
Proof.
  destruct (answers_new n hasEmitter rs Hn Hl He) as (c & sts & Hgo & Ha & Hs & _ & Hv & Hf & _).
  assert (exists k, n = 2 * k + 1) as [k Hk] by (by apply Z.odd_spec in Hodd).
  assert (GetConsensusForN n = k + 1) as Hcc by (unfold GetConsensusForN; dlia).
  assert (n_verdicts sts = 1) as H1.
  { rewrite Hv, Hcc, Ha, Hs. destruct (decide (k <= n_ok rs)).
    - rewrite (proj2 (Z.leb_le _ _)) by lia. done.
    - rewrite (proj2 (Z.leb_le _ (n - 1 - n_ok rs))) by lia. by rewrite orb_true_r. }
  unfold n_verdicts, count in H1.
  destruct (filter _ sts) as [| st [| st' l]] eqn:E; [done | | unfold zlen in H1; cbn in H1; lia].
  exists c, sts, st. split; [done |]. split; [done |].
  assert (st ∈ filter (fun st => st_requireResult st = true) sts) as Hin.
  { rewrite E. by apply list_elem_of_singleton. }
  apply list_elem_of_filter in Hin as [Hr Hin].
  rewrite Forall_forall in Hf. rewrite (Hf st Hin Hr), Ha, Hcc. lia.
Qed.

Example update_verdict_live_witness :
  exists c sts st,
    answers 3 4 sample_answers (new_counters false true) = Ok (c, sts)
    /\ filter (fun st => st_requireResult st = true) sts = [st]
    /\ st_hasEnoughApproves st = true.
Proof.
  destruct (update_verdict_live 5 true sample_answers) as (c & sts & st & H1 & H2 & H3).
  - lia.
  - reflexivity.
  - reflexivity.
  - reflexivity.
  - exists c, sts, st. split; [exact H1 |]. split; [exact H2 | exact H3].
Defined.

(** Two ways in which the answers leave the client with the wrong result. With an even
    number of nodes a tie of approvals and errors (the leader's approval counts) gives no
    verdict at all, so nobody ever gets the result of the update. And when the errors have
    reached the consensus before the emitter answers [errOK], the verdict lacks approvals but
    its result is [errOK]: the client of the emitter is told that the update succeeded. *)
Theorem verdict_gaps :
  (forall n rs, 2 <= n < 65536 -> Z.even n = true -> zlen rs = n - 1 -> n_emitters rs = 0 ->
     n_ok rs = n / 2 - 1 ->
     exists c sts, answers (GetConsensusForN n) (n - 1) rs (new_counters false false)
                   = Ok (c, sts)
       /\ Forall (fun st => st_requireResult st = false) sts)
  /\ (forall n total c, 0 < n < 65536 -> 0 < total -> counting n total c ->
     requireResult c = true -> replicatedToEmitter c = false ->
     GetConsensusForN n <= errors c ->
     exists c' st, replicated (GetConsensusForN n) (n - 1) true errOK c = Ok (c', st)
       /\ st_requireResult st = true /\ st_hasEnoughApproves st = false
       /\ st_result st = errOK).
Proof.
  split.
  - intros n rs Hn Hev Hl He Hk. apply Z.even_spec in Hev as [k Hev].
    destruct (answers_new n false rs Hn Hl He) as (c & sts & Hgo & Ha & Hs & _ & Hv & _).
    exists c, sts. split; [done |].
    assert (n_verdicts sts = 0) as H0.
    { rewrite Hv, Ha, Hs, Hk. unfold GetConsensusForN.
      rewrite !(proj2 (Z.leb_gt _ _)) by dlia. done. }
    apply Forall_forall. by apply count_zero.
  - intros n total c Hn Ht Hc Hq Hf Hcc. do 2 eexists.
    split; [apply (replicated_spec n total true errOK c); auto |].
    { by rewrite orb_true_r. }
    pose proof (ct_sum _ _ _ Hc). pose proof (ct_n _ _ _ Hc).
    cbn [st_requireResult st_hasEnoughApproves st_result err_ok].
    rewrite Hq. unfold voted, count_answer. rewrite Hf. cbn. unfold GetConsensusForN in *.
    change (err_ok errOK) with true. cbv iota. split_and!; [lia | dlia | done].
Qed.

Example verdict_gaps_witness :
  (exists c sts, answers 3 3 [(false, errOK); (false, errNetwork); (false, errNetwork)]
                   (new_counters false false) = Ok (c, sts)
                 /\ Forall (fun st => st_requireResult st = false) sts)
  /\ (exists c' st, replicated 3 4 true errOK (mk_counters false true 3 1 3) = Ok (c', st)
                    /\ st_requireResult st = true /\ st_hasEnoughApproves st = false
                    /\ st_result st = errOK).
Proof.
  split.
  - apply (proj1 verdict_gaps 4); [lia | reflexivity..].
  - apply (proj2 verdict_gaps 5 1); try lia; try reflexivity.
    constructor; cbn; lia.
Defined.
