(* ===== verification/UpdatesQueue.v ===== *)
(** The replication queue: [updates/updatesqueue.h].

    The queue is a record; its chunks ([QueueEntry]) are shared between the queue and its
    readers, so they live in a store indexed by their ids, and [queue_] is a list of ids. A
    section of the code under the queue's mutex, or one access to an atomic, is one step
    ([micro]); a call of [OnUpdateHandled] is a list of such steps, run to its end here and
    interleaved with those of the other threads in [UpdatesQueueInv]. A result handler is the
    identity of a waiting [PushAndWait] call, whose local data are in [waiters]. Logging is not
    modelled; the calls of the statistics collector and of the notifiers are the [events]. *)

From S2P Require Import Prelude ReplVotes.

Definition kBatchSize : Z := 500.
Definition kMaxReplicas : Z := 65535.
Definition kMinUpdatesBound : Z := 1024 * 1024.

Inductive ReplicationResult : Set := RNone | Approved | RError.

Inductive Event : Set :=
| OnUpdatePushed (id size : Z)
| OnUpdateApplied (nodeId id : Z)
| OnUpdateHandledEv (id : Z)
| OnUpdateErased (id size : Z)
| OnUpdatesDrop (id size : Z)
| Notified (thread : Z)
| ResultReady (waiter : Z).

(** ** Data *)

Record Value {U : Type} : Type := mk_value {
  data_ : U;
  replication_ : Counters;
  onResult_ : option Z
}.
Arguments Value : clear implicits.
Arguments mk_value {U}.

(** [QueueEntry]: [data_[0 .. count_)] is [values]. *)
Record QueueEntry {U : Type} : Type := mk_entry {
  id_ : Z;
  values : list (Value U);
  totalSizeBytes_ : Z;
  erased_ : Z;
  resultsSent_ : Z;
  isInvalidated_ : bool
}.
Arguments QueueEntry : clear implicits.
Arguments mk_entry {U}.

(** The local data of a [PushAndWait] call. *)
Record Waiter : Set := mk_waiter { w_dataSize : Z; w_executedCnt : Z; w_err : ErrorCode }.

Record Queue {U : Type} : Type := mk_queue {
  MaxDataSize : Z;
  newDataNotifiers_ : gmap Z bool;      (* thread -> awaitsData *)
  invalidated_ : bool;
  invalidationErr_ : ErrorCode;
  updatedDropRecord_ : option Z;        (* its ID *)
  queue_ : list Z;
  chunks : gmap Z (QueueEntry U);       (* every chunk ever allocated *)
  nextChunkID_ : Z;
  dataSize_ : Z;
  waiters : gmap Z Waiter;
  events : list Event
}.
Arguments Queue : clear implicits.
Arguments mk_queue {U}.

(** What [Read] returns. *)
Inductive ReadResult : Set := RDrop (id : Z) | RNothing | RChunk (id : Z).

Section Queue.
Context {U : Type} (HasEmitterID : U -> bool) (DataSize : U -> Z) (sizeofEntry : Z).

Implicit Types (q : Queue U) (c : QueueEntry U) (v : Value U).

Definition set_queue (l : list Z) q : Queue U :=
  mk_queue (MaxDataSize q) (newDataNotifiers_ q) (invalidated_ q) (invalidationErr_ q)
    (updatedDropRecord_ q) l (chunks q) (nextChunkID_ q) (dataSize_ q) (waiters q) (events q).
Definition set_chunk c q : Queue U :=
  mk_queue (MaxDataSize q) (newDataNotifiers_ q) (invalidated_ q) (invalidationErr_ q)
    (updatedDropRecord_ q) (queue_ q) (<[id_ c := c]> (chunks q)) (nextChunkID_ q)
    (dataSize_ q) (waiters q) (events q).
Definition set_size (n : Z) q : Queue U :=
  mk_queue (MaxDataSize q) (newDataNotifiers_ q) (invalidated_ q) (invalidationErr_ q)
    (updatedDropRecord_ q) (queue_ q) (chunks q) (nextChunkID_ q) (u64 n) (waiters q) (events q).
Definition set_next (n : Z) q : Queue U :=
  mk_queue (MaxDataSize q) (newDataNotifiers_ q) (invalidated_ q) (invalidationErr_ q)
    (updatedDropRecord_ q) (queue_ q) (chunks q) (u64 n) (dataSize_ q) (waiters q) (events q).
Definition set_drop (d : option Z) q : Queue U :=
  mk_queue (MaxDataSize q) (newDataNotifiers_ q) (invalidated_ q) (invalidationErr_ q)
    d (queue_ q) (chunks q) (nextChunkID_ q) (dataSize_ q) (waiters q) (events q).
Definition set_waiters (w : gmap Z Waiter) q : Queue U :=
  mk_queue (MaxDataSize q) (newDataNotifiers_ q) (invalidated_ q) (invalidationErr_ q)
    (updatedDropRecord_ q) (queue_ q) (chunks q) (nextChunkID_ q) (dataSize_ q) w (events q).
Definition set_notifiers (m : gmap Z bool) q : Queue U :=
  mk_queue (MaxDataSize q) m (invalidated_ q) (invalidationErr_ q)
    (updatedDropRecord_ q) (queue_ q) (chunks q) (nextChunkID_ q) (dataSize_ q) (waiters q)
    (events q).
Definition set_invalidated (b : bool) (e : ErrorCode) q : Queue U :=
  mk_queue (MaxDataSize q) (newDataNotifiers_ q) b e
    (updatedDropRecord_ q) (queue_ q) (chunks q) (nextChunkID_ q) (dataSize_ q) (waiters q)
    (events q).
Definition emit (es : list Event) q : Queue U :=
  mk_queue (MaxDataSize q) (newDataNotifiers_ q) (invalidated_ q) (invalidationErr_ q)
    (updatedDropRecord_ q) (queue_ q) (chunks q) (nextChunkID_ q) (dataSize_ q) (waiters q)
    (events q ++ es).

(** The constructor. *)
Definition new_UpdatesQueue (maxDataSize : Z) : Queue U :=
  mk_queue (if negb (maxDataSize =? 0) && (maxDataSize <? kMinUpdatesBound)
            then kMinUpdatesBound else maxDataSize)
    ∅ false errOK None [] ∅ 0 0 ∅ [].

Definition AddDataNotifier (thread : Z) q : Queue U :=
  set_notifiers (<[thread := default false (newDataNotifiers_ q !! thread)]>
                   (newDataNotifiers_ q)) q.
Definition RemoveDataNotifier (thread : Z) q : Queue U :=
  set_notifiers (delete thread (newDataNotifiers_ q)) q.

(** ** [QueueEntry] *)

Definition Count c : Z := zlen (values c).
Definition isFull c : bool := Count c =? kBatchSize.
Definition NextUpdateID c : Z := id_ c + Count c.
Definition HasID (id : Z) c : bool := (id_ c <=? id) && (id <? NextUpdateID c).
Definition IsFullyErased c : bool := erased_ c =? kBatchSize.
Definition isAllResultsSent c : bool := resultsSent_ c =? Count c.

Definition set_values (vs : list (Value U)) c : QueueEntry U :=
  mk_entry (id_ c) vs (totalSizeBytes_ c) (erased_ c) (resultsSent_ c) (isInvalidated_ c).
Definition add_erased c : QueueEntry U :=
  mk_entry (id_ c) (values c) (totalSizeBytes_ c) (u16 (erased_ c + 1)) (resultsSent_ c)
    (isInvalidated_ c).
Definition markInvalidated c : QueueEntry U :=
  mk_entry (id_ c) (values c) (totalSizeBytes_ c) (erased_ c) (resultsSent_ c) true.

Definition addSentResult c : result (QueueEntry U) :=
  if Count c <? resultsSent_ c then Fail AssertFail
  else Ok (mk_entry (id_ c) (values c) (totalSizeBytes_ c) (erased_ c)
             (u16 (resultsSent_ c + 1)) (isInvalidated_ c)).

Definition value (offset : Z) c : result (Value U) := of_option AssertFail (znth (values c) offset).

(** [append<skipResultCounting>] *)
Definition append (skipResultCounting : bool) (val : U) (sizeBytes : Z) (onRes : option Z) c :
    result (Z * QueueEntry U) :=
  if isFull c then Fail AssertFail
  else
    let v := mk_value val (new_counters skipResultCounting (HasEmitterID val)) onRes in
    let c' := mk_entry (id_ c) (values c ++ [v]) (u64 (totalSizeBytes_ c + sizeBytes))
                (erased_ c) (resultsSent_ c) (isInvalidated_ c) in
    if skipResultCounting then
      match onRes with
      | Some _ => Fail AssertFail
      | None => c' ← addSentResult c'; mret (Count c + id_ c, c')
      end
    else mret (Count c + id_ c, c').

(** ** Adding updates *)

Definition back q : option (QueueEntry U) := last (queue_ q) ≫= fun i => chunks q !! i.
Definition front q : option (QueueEntry U) := head (queue_ q) ≫= fun i => chunks q !! i.

Definition getNextUpdateID q : Z :=
  match back q with Some c => NextUpdateID c | None => nextChunkID_ q end.
Definition GetNextUpdateID q : Z := getNextUpdateID q.

(** The new chunk of [addDataImpl]. *)
Definition new_chunk q : Queue U :=
  let id := nextChunkID_ q in
  let q := set_queue (queue_ q ++ [id]) q in
  let q := set_chunk (mk_entry id [] sizeofEntry 0 0 false) q in
  set_size (dataSize_ q + sizeofEntry) (set_next (id + kBatchSize) q).

Definition addDataImpl (skipResultCounting : bool) (d : U) (onResult : option Z) q :
    result (Z * Queue U) :=
  let fresh := match back q with Some c => isFull c | None => true end in
  let q := if fresh then new_chunk q else q in
  c ← of_option Undefined (back q);
  let size := DataSize d in
  r ← append skipResultCounting d size onResult c;
  let q := set_size (dataSize_ q + size) (set_chunk (snd r) q) in
  mret (fst r, emit [OnUpdatePushed (fst r) (size + if fresh then sizeofEntry else 0)] q).

(** The ids of the added updates, in order. *)
Fixpoint addDataAll (skipResultCounting : bool) (data : list U) (onResult : option Z) q :
    result (list Z * Queue U) :=
  match data with
  | [] => mret ([], q)
  | d :: data =>
      r ← addDataImpl skipResultCounting d onResult q;
      r' ← addDataAll skipResultCounting data onResult (snd r);
      mret (fst r :: fst r', snd r')
  end.

(** The chunks that [dropOverflowingUpdates] drops: [firstUnskipableIdx] counts them. *)
Fixpoint skipable (q : Queue U) (l : list Z) : list Z :=
  match l with
  | [] => []
  | i :: l =>
      match chunks q !! i with
      | Some c => if isAllResultsSent c && isFull c then i :: skipable q l else []
      | None => []
      end
  end.

Definition size_of q (i : Z) : Z :=
  match chunks q !! i with Some c => totalSizeBytes_ c | None => 0 end.
Definition sum_sizes q (l : list Z) : Z := foldr (fun i n => size_of q i + n) 0 l.

Definition invalidate_chunk (i : Z) q : Queue U :=
  match chunks q !! i with Some c => set_chunk (markInvalidated c) q | None => q end.

Definition dropOverflowingUpdates q : Queue U :=
  let front_sent := match front q with Some c => isAllResultsSent c | None => false end in
  if negb (MaxDataSize q =? 0) && (MaxDataSize q <? dataSize_ q) && (1 <? zlen (queue_ q))
     && front_sent
  then
    let dropped := skipable q (queue_ q) in
    let size := u64 (sum_sizes q dropped) in
    let q := set_queue (drop (length dropped) (queue_ q)) q in
    let q := foldr invalidate_chunk q dropped in
    match last dropped with
    | None => q
    | Some lastChunckId =>
        let updateId := lastChunckId + kBatchSize - 1 in
        emit [OnUpdatesDrop updateId size]
          (set_size (dataSize_ q - size) (set_drop (Some updateId) q))
    end
  else q.

Definition notifyAll q : Queue U :=
  let awaiting := filter (fun p : Z * bool => snd p = true) (map_to_list (newDataNotifiers_ q)) in
  emit (map (fun p => Notified (fst p)) awaiting)
    (set_notifiers ((fun _ => false) <$> newDataNotifiers_ q) q).

(** Both overloads of [addDataToQueue]. *)
Definition addDataToQueue (skipResultCounting : bool) (data : list U) (onResult : option Z) q :
    result (list Z * Queue U) :=
  r ← addDataAll skipResultCounting data onResult q;
  mret (fst r, notifyAll (dropOverflowingUpdates (snd r))).

(** [PushAsync]: the error of an invalidated queue. *)
Definition PushAsync (skipResultCounting : bool) (data : list U) q : result (ErrorCode * Queue U) :=
  if invalidated_ q then Ok (invalidationErr_ q, q)
  else r ← addDataToQueue skipResultCounting data None q; mret (errOK, snd r).

(** ** Reading *)

Definition setAwaitDataFlag (thread : Z) q : result (Queue U) :=
  match newDataNotifiers_ q !! thread with
  | None => Fail AssertFail
  | Some _ => Ok (set_notifiers (<[thread := true]> (newDataNotifiers_ q)) q)
  end.

Definition await (notifier : option Z) q : result (ReadResult * Queue U) :=
  match notifier with
  | None => Ok (RNothing, q)
  | Some thread => q ← setAwaitDataFlag thread q; mret (RNothing, q)
  end.

(** [Read] from the queue, behind the drop record. *)
Definition read_queue (id : Z) (notifier : option Z) q : result (ReadResult * Queue U) :=
  match queue_ q with
  | [] => await notifier q
  | firstId :: _ =>
      if id <? firstId then Ok (RChunk firstId, q)
      else
        match znth (queue_ q) ((id - firstId) / kBatchSize) with
        | None => await notifier q
        | Some i =>
            c ← of_option Undefined (chunks q !! i);
            if HasID id c then Ok (RChunk i, q) else await notifier q
        end
  end.

Definition Read (id : Z) (notifier : option Z) q : result (ReadResult * Queue U) :=
  match updatedDropRecord_ q with
  | Some d => if id <=? d then Ok (RDrop d, q) else read_queue id notifier q
  | None => read_queue id notifier q
  end.

(** ** Results *)

Definition tryGetIdx (id : Z) q : option Z :=
  match queue_ q with
  | [] => None
  | firstId :: _ =>
      let idx := u64 (id - firstId) / kBatchSize in
      if zlen (queue_ q) <=? idx then None else Some idx
  end.

(** The handler that [PushAndWait] installs; calling it after that call has returned would use
    its dead stack frame. *)
Definition call_handler (h : Z) (err : ErrorCode) q : result (Queue U) :=
  match waiters q !! h with
  | None => Fail Undefined
  | Some w =>
      let n := w_executedCnt w + 1 in
      let w' := mk_waiter (w_dataSize w) n (if err_ok err then w_err w else err) in
      Ok (emit (if n =? w_dataSize w then [ResultReady h] else [])
            (set_waiters (<[h := w']> (waiters q)) q))
  end.

(** [onResult(Value&, Error&&)]: the handler is called and forgotten. *)
Definition onResult_value (v : Value U) (err : ErrorCode) q : result (Value U * Queue U) :=
  match onResult_ v with
  | None => Ok (v, q)
  | Some h => q ← call_handler h err q; mret (mk_value (data_ v) (replication_ v) None, q)
  end.

(** [onResult(id, err)] up to its [eraseReplicated]: whether it gets there. *)
Definition onResult (id : Z) (err : ErrorCode) q : result (bool * Queue U) :=
  match tryGetIdx id q with
  | None => Ok (false, q)
  | Some idx =>
      i ← of_option Undefined (znth (queue_ q) idx);
      c ← of_option Undefined (chunks q !! i);
      let offset := u16 (id - id_ c) in
      v ← value offset c;
      c ← addSentResult c;
      r ← onResult_value v err q;
      mret (true, set_chunk (set_values (zset (values c) offset (fst r)) c) (snd r))
  end.

(** One iteration of [eraseReplicated], which releases the mutex between two of them. *)
Definition erase_front q : option (Queue U) :=
  match queue_ q with
  | [] => None
  | i :: rest =>
      match chunks q !! i with
      | None => None
      | Some c =>
          if isAllResultsSent c && IsFullyErased c then
            Some (emit [OnUpdateErased (id_ c + Count c - 1) (totalSizeBytes_ c)]
                    (set_size (dataSize_ q - totalSizeBytes_ c) (set_queue rest q)))
          else None
      end
  end.

(** ** Answers of the followers *)

(** The atomic steps that follow an answer. *)
Inductive Micro : Set :=
| MResult (id : Z) (err : ErrorCode)   (* owner_.onResult, under the mutex *)
| MEraseLoop                           (* one iteration of eraseReplicated *)
| MErased (i id : Z)                   (* erased_.fetch_add, OnUpdateHandled *)
| MCheck (i : Z).                      (* if (IsFullyErased()) *)

Definition micro (m : Micro) q : result (list Micro * Queue U) :=
  match m with
  | MResult id err =>
      r ← onResult id err q;
      mret (if (fst r : bool) then [MEraseLoop] else [], snd r)
  | MEraseLoop =>
      match erase_front q with
      | Some q => mret ([MEraseLoop], q)
      | None => mret ([], q)
      end
  | MErased i id =>
      c ← of_option Undefined (chunks q !! i);
      mret ([MCheck i], emit [OnUpdateHandledEv id] (set_chunk (add_erased c) q))
  | MCheck i =>
      c ← of_option Undefined (chunks q !! i);
      mret (if IsFullyErased c then [MEraseLoop] else [], q)
  end.

(** The steps of one thread to their end. *)
Fixpoint run (fuel : nat) (ms : list Micro) q : result (Queue U) :=
  match ms with
  | [] => Ok q
  | m :: ms =>
      match fuel with
      | O => Fail OutOfFuel
      | S fuel => r ← micro m q; run fuel (fst r ++ ms) (snd r)
      end
  end.

(** The atomic part of [OnUpdateHandled] on the chunk [i]: the counters. *)
Definition vote (i nodeId consensusCnt requiredReplicas offset : Z) (isEmitter : bool)
    (err : ErrorCode) q : result (UpdatesStatus * list Micro * Queue U) :=
  c ← of_option Undefined (chunks q !! i);
  v ← of_option (Throw errParams) (znth (values c) offset);
  r ← replicated consensusCnt requiredReplicas isEmitter err (replication_ v);
  let v := mk_value (data_ v) (fst r) (onResult_ v) in
  let q := emit [OnUpdateApplied nodeId (id_ c + offset)]
             (set_chunk (set_values (zset (values c) offset v) c) q) in
  let st := snd r in
  mret (st,
        (if st_requireResult st then [MResult (id_ c + offset) (st_result st)] else [])
        ++ (if st_requireErasure st then [MErased i (id_ c + offset)] else []), q).

Definition verdict_of (st : UpdatesStatus) : ReplicationResult :=
  if st_requireResult st then (if st_hasEnoughApproves st then Approved else RError) else RNone.

(** Fuel: two erasing loops over the queue and the other steps. *)
Definition handle_fuel q : nat := 2 * length (queue_ q) + 6.

Definition OnUpdateHandled (i nodeId consensusCnt requiredReplicas offset : Z)
    (isEmitter : bool) (err : ErrorCode) q : result (ReplicationResult * Queue U) :=
  r ← vote i nodeId consensusCnt requiredReplicas offset isEmitter err q;
  let '(st, ms, q) := r in
  q ← run (handle_fuel q) ms q;
  mret (verdict_of st, q).

(** The atomic part of [OnUpdateHandledSimple]. *)
Definition vote_simple (i nodeId requiredReplicas offset : Z) q : result (list Micro * Queue U) :=
  c ← of_option Undefined (chunks q !! i);
  v ← of_option (Throw errParams) (znth (values c) offset);
  let '(cnt, st) := handledNoResult requiredReplicas (replication_ v) in
  let v := mk_value (data_ v) cnt (onResult_ v) in
  let q := emit [OnUpdateApplied nodeId (id_ c + offset)]
             (set_chunk (set_values (zset (values c) offset v) c) q) in
  mret (if st_requireErasure st then [MErased i (id_ c + offset)] else [], q).

Definition OnUpdateHandledSimple (i nodeId requiredReplicas offset : Z) q : result (Queue U) :=
  r ← vote_simple i nodeId requiredReplicas offset q;
  run (handle_fuel (snd r)) (fst r) (snd r).

(** ** Invalidation *)

(** The handlers of one chunk get the error. *)
Fixpoint fail_values (vs : list (Value U)) (err : ErrorCode) q :
    result (list (Value U) * Queue U) :=
  match vs with
  | [] => mret ([], q)
  | v :: vs =>
      r ← onResult_value v err q;
      r' ← fail_values vs err (snd r);
      mret (fst r :: fst r', snd r')
  end.

Definition fail_chunk (i : Z) (err : ErrorCode) q : result (Queue U) :=
  c ← of_option Undefined (chunks q !! i);
  r ← fail_values (values c) err q;
  mret (set_chunk (match values c with [] => c | _ => markInvalidated (set_values (fst r) c) end)
          (snd r)).

Fixpoint fail_chunks (l : list Z) (err : ErrorCode) q : result (Queue U) :=
  match l with
  | [] => mret q
  | i :: l => q ← fail_chunk i err q; fail_chunks l err q
  end.

Definition SetWritable (isWritable : bool) (err : ErrorCode) q : result (Queue U) :=
  if isWritable then Ok (set_invalidated false errOK q)
  else
    let q := set_invalidated (invalidated_ q) err q in
    let lastUpdateId := match back q with Some c => id_ c + Count c - 1 | None => -1 end in
    q ← fail_chunks (queue_ q) err q;
    let q := if 0 <=? lastUpdateId then emit [OnUpdatesDrop lastUpdateId (dataSize_ q)] q else q in
    mret (set_invalidated true (invalidationErr_ q) (set_queue [] (set_size 0 q))).

(** ** [PushAndWait] *)

(** Up to the wait: [Some err] is the return of an invalidated queue. The call is [h]. *)
Definition PushAndWait_begin (data : list U) (h : Z) q :
    result (option ErrorCode * list Z * Queue U) :=
  if invalidated_ q then Ok (Some (invalidationErr_ q), [], q)
  else
    let q := set_waiters (<[h := mk_waiter (zlen data) 0 errOK]> (waiters q)) q in
    r ← addDataToQueue false data (Some h) q;
    mret (None, fst r, snd r).

(** The end of the wait: its condition, and then the return. *)
Definition PushAndWait_end (h : Z) q : option (ErrorCode * Queue U) :=
  match waiters q !! h with
  | None => None
  | Some w =>
      if w_executedCnt w =? w_dataSize w
      then Some (w_err w, set_waiters (delete h (waiters q)) q) else None
  end.

(** Its [catch]: the handlers of the ids from [first] to [last] are forgotten. *)
Fixpoint forget_handlers (ids : list Z) q : result (Queue U) :=
  match ids with
  | [] => mret q
  | id :: ids =>
      match tryGetIdx id q with
      | None => forget_handlers ids q
      | Some idx =>
          i ← of_option Undefined (znth (queue_ q) idx);
          c ← of_option Undefined (chunks q !! i);
          let offset := u16 (id - id_ c) in
          v ← value offset c;
          let v := mk_value (data_ v) (replication_ v) None in
          forget_handlers ids (set_chunk (set_values (zset (values c) offset v) c) q)
      end
  end.

Definition PushAndWait_catch (first last h : Z) q : result (Queue U) :=
  q ← forget_handlers (map (fun k => first + Z.of_nat k) (seq 0 (Z.to_nat (last - first + 1)))) q;
  mret (set_waiters (delete h (waiters q)) q).
End Queue.
