(* ===== verification/UpdatesQueueInv.v ===== *)
(** The replication queue is a window of a log.

    The invariant [q_ok] of [UpdatesQueue]: the chunks of the queue are consecutive blocks of
    500 ids which end at [nextChunkID_], all but the last are full, and [dataSize_] is the sum
    of their sizes. Every atomic step of every thread preserves it. Under it the queue is the
    window [abs q] of a log of updates: pushes append, erasing and dropping shift the window,
    answers leave it alone, and [Read] returns the block of the requested id. *)

From S2P Require Import Prelude ReplVotes UpdatesQueue.

(** ** Blocks of ids *)

Ltac blia := unfold kBatchSize in *; lia.

Fixpoint chain (start : Z) (n : nat) : list Z :=
  match n with O => [] | S n => start :: chain (start + kBatchSize) n end.

Lemma length_chain s n : length (chain s n) = n.
Proof. revert s. induction n; intros; cbn; auto. Qed.

Lemma chain_lookup s n k : (k < n)%nat -> chain s n !! k = Some (s + kBatchSize * Z.of_nat k).
Proof.
  revert s k. induction n as [| n IH]; intros s k Hk; [lia |].
  destruct k as [| k]; cbn [chain lookup list_lookup].
  - f_equal. unfold kBatchSize. lia.
  - change (chain (s + kBatchSize) n !! k = Some (s + kBatchSize * Z.of_nat (S k))).
    rewrite IH by lia. f_equal. unfold kBatchSize. lia.
Qed.

Lemma chain_snoc s n : chain s (S n) = chain s n ++ [s + kBatchSize * Z.of_nat n].
Proof.
  revert s. induction n as [| n IH]; intros s.
  - cbn. f_equal. unfold kBatchSize. lia.
  - change (chain s (S (S n))) with (s :: chain (s + kBatchSize) (S n)).
    rewrite IH. cbn [chain app]. do 2 f_equal. f_equal. unfold kBatchSize. lia.
Qed.

Lemma drop_chain s n k :
  (k <= n)%nat -> drop k (chain s n) = chain (s + kBatchSize * Z.of_nat k) (n - k).
Proof.
  revert s n. induction k as [| k IH]; intros s n Hk.
  - rewrite Nat.sub_0_r. cbn [drop]. f_equal. change (Z.of_nat 0) with 0. unfold kBatchSize. rewrite Z.mul_0_r, Z.add_0_r. reflexivity.
  - destruct n as [| n]; [lia |]. cbn [chain drop]. rewrite IH by lia. f_equal; unfold kBatchSize; lia.
Qed.

Lemma elem_of_chain s n i :
  i ∈ chain s n <-> exists k, (k < n)%nat /\ i = s + kBatchSize * Z.of_nat k.
Proof.
  rewrite list_elem_of_lookup. split.
  - intros [k Hk]. assert (k < n)%nat as Hl
      by (apply lookup_lt_Some in Hk; by rewrite length_chain in Hk).
    exists k. rewrite chain_lookup in Hk by done. by injection Hk.
  - intros (k & Hk & ->). exists k. by apply chain_lookup.
Qed.

Lemma chain_nodup s n : NoDup (chain s n).
Proof.
  revert s. induction n as [| n IH]; intros s; cbn; constructor; [| done].
  rewrite elem_of_chain. intros (k & _ & Hk). unfold kBatchSize in Hk. lia.
Qed.

Lemma last_chain s n : last (chain s (S n)) = Some (s + kBatchSize * Z.of_nat n).
Proof. by rewrite chain_snoc, last_snoc. Qed.

(** ** The invariant *)

Section Inv.
Context {U : Type} (HasEmitterID : U -> bool) (DataSize : U -> Z) (sizeofEntry : Z).

Implicit Types (q : Queue U) (c : QueueEntry U) (v : Value U).

(** The id of the first update that the queue still has, or will have. *)
Definition first q : Z := nextChunkID_ q - kBatchSize * zlen (queue_ q).

Record q_ok q : Prop := {
  ok_chain : queue_ q = chain (first q) (length (queue_ q));
  ok_bounds : 0 <= first q /\ nextChunkID_ q < 2 ^ 62;
  ok_chunk : forall i c, chunks q !! i = Some c ->
             id_ c = i /\ Count c <= kBatchSize /\ i + kBatchSize <= nextChunkID_ q;
  ok_live : forall i, i ∈ queue_ q -> exists c, chunks q !! i = Some c
            /\ (i + kBatchSize < nextChunkID_ q -> Count c = kBatchSize);
  ok_size : dataSize_ q = u64 (sum_sizes q (queue_ q));
  ok_drop : forall d, updatedDropRecord_ q = Some d -> d < first q
}.

Lemma q_ok_new maxDataSize : q_ok (new_UpdatesQueue maxDataSize).
Proof.
  split; cbn; try done.
  intros i Hi. by apply not_elem_of_nil in Hi.
Qed.

(** Changes that do not touch the ids and the sizes. *)
Definition same_shape c c' : Prop :=
  id_ c' = id_ c /\ Count c' = Count c /\ totalSizeBytes_ c' = totalSizeBytes_ c.

Lemma sum_sizes_ext q q' l :
  (forall i, i ∈ l -> size_of q i = size_of q' i) -> sum_sizes q l = sum_sizes q' l.
Proof.
  induction l as [| i l IH]; intros H; [done |]. cbn [sum_sizes foldr].
  rewrite H by apply list_elem_of_here. f_equal. apply IH.
  intros j Hj. apply H. by apply list_elem_of_further.
Qed.

Lemma sum_sizes_app q l l' : sum_sizes q (l ++ l') = sum_sizes q l + sum_sizes q l'.
Proof.
  induction l as [| i l IH]; [done |]. cbn [app sum_sizes foldr].
  fold (sum_sizes q (l ++ l')). rewrite IH. unfold sum_sizes. lia.
Qed.

Lemma size_of_set_chunk q c i :
  size_of (set_chunk c q) i = if decide (i = id_ c) then totalSizeBytes_ c else size_of q i.
Proof.
  unfold size_of, set_chunk. cbn [chunks]. destruct (decide (i = id_ c)) as [-> | Hi].
  - by rewrite lookup_insert_eq.
  - by rewrite lookup_insert_ne by done.
Qed.

Lemma set_chunk_ok q c c' :
  q_ok q -> chunks q !! id_ c = Some c -> same_shape c c' -> q_ok (set_chunk c' q).
Proof.
  intros [H1 H2 H3 H4 H5 H6] Hc (Hid & Hn & Ht). split; try done.
  - intros i d. unfold set_chunk. cbn [chunks nextChunkID_]. rewrite lookup_insert_Some, Hid.
    intros [[<- <-] | [_ Hd]]; [| by apply H3]. rewrite Hn, Hid. by apply H3.
  - intros i Hi. destruct (H4 i Hi) as (d & Hd & Hd'). unfold set_chunk. cbn [chunks nextChunkID_].
    rewrite Hid. destruct (decide (i = id_ c)) as [-> | Hne].
    + rewrite lookup_insert_eq. exists c'. rewrite Hn.
      assert (d = c) as -> by congruence. done.
    + rewrite lookup_insert_ne by done. by exists d.
  - change (dataSize_ (set_chunk c' q)) with (dataSize_ q).
    change (queue_ (set_chunk c' q)) with (queue_ q). rewrite H5. f_equal.
    apply sum_sizes_ext. intros i Hi. rewrite size_of_set_chunk.
    case_decide as He; [| done]. rewrite He, Hid, Ht. unfold size_of. by rewrite Hc.
Qed.

(** The other fields do not matter. *)
Lemma q_ok_frame q q' :
  q_ok q -> queue_ q' = queue_ q -> chunks q' = chunks q -> nextChunkID_ q' = nextChunkID_ q ->
  dataSize_ q' = dataSize_ q -> updatedDropRecord_ q' = updatedDropRecord_ q -> q_ok q'.
Proof.
  intros [H1 H2 H3 H4 H5 H6] Eq Ec En Es Ed.
  assert (first q' = first q) as Ef by (unfold first; by rewrite Eq, En).
  split; rewrite ?Ef, ?Eq, ?Ec, ?En, ?Es, ?Ed; try done.
  rewrite H5. f_equal. apply sum_sizes_ext. intros i _. unfold size_of. by rewrite Ec.
Qed.

Lemma emit_ok es q : q_ok q -> q_ok (emit es q).
Proof. intros H. by apply (q_ok_frame q). Qed.
Lemma set_waiters_ok w q : q_ok q -> q_ok (set_waiters w q).
Proof. intros H. by apply (q_ok_frame q). Qed.
Lemma set_notifiers_ok m q : q_ok q -> q_ok (set_notifiers m q).
Proof. intros H. by apply (q_ok_frame q). Qed.
Lemma set_invalidated_ok b e q : q_ok q -> q_ok (set_invalidated b e q).
Proof. intros H. by apply (q_ok_frame q). Qed.

(** ** The window *)

Definition chunk_vals q (i : Z) : list (Value U) :=
  match chunks q !! i with Some c => values c | None => [] end.

(** The updates that the queue still has, oldest first, with their counters and handlers. *)
Definition vals q : list (Value U) := concat (map (chunk_vals q) (queue_ q)).

Lemma chunk_vals_length q i c : chunks q !! i = Some c -> zlen (chunk_vals q i) = Count c.
Proof. intros H. unfold chunk_vals, Count. by rewrite H. Qed.

Lemma vals_ext q q' :
  queue_ q' = queue_ q -> (forall i, i ∈ queue_ q -> chunk_vals q' i = chunk_vals q i) ->
  vals q' = vals q.
Proof.
  intros Hq H. unfold vals. rewrite Hq. f_equal. apply map_ext_in.
  intros i Hi. apply H. by apply list_elem_of_In.
Qed.

Lemma first_frame q q' :
  queue_ q' = queue_ q -> nextChunkID_ q' = nextChunkID_ q -> first q' = first q.
Proof. intros Hq Hn. unfold first. by rewrite Hq, Hn. Qed.

(** Blocks of 500: the lookup in their concatenation. *)
Definition blocks {A} (ls : list (list A)) : Prop :=
  forall k l, ls !! k = Some l ->
    zlen l <= kBatchSize /\ (S k < length ls -> zlen l = kBatchSize)%nat.

Lemma blocks_tail {A} (l : list A) ls : blocks (l :: ls) -> blocks ls.
Proof. intros H k x Hx. destruct (H (S k) x Hx) as [H1 H2]. cbn in H2. split; [done |]. intros. apply H2. lia. Qed.

Lemma concat_lookup {A} (ls : list (list A)) k j :
  blocks ls -> (0 <= j < kBatchSize) ->
  znth (concat ls) (kBatchSize * Z.of_nat k + j) = (ls !! k) ≫= fun l => znth l j.
Proof.
  revert ls. induction k as [| k IH]; intros [| l ls] Hb Hj.
  - apply znth_None. unfold zlen. cbn. lia.
  - replace (kBatchSize * Z.of_nat 0 + j) with j by lia. cbn [concat lookup list_lookup mbind option_bind].
    destruct (Hb O l eq_refl) as [Hl1 Hl2].
    destruct (decide (j < zlen l)) as [Hlt | Hge]; [by apply znth_app_l |].
    rewrite (znth_None l) by lia. destruct ls as [| l' ls].
    + cbn. rewrite app_nil_r. apply znth_None. lia.
    + cbn [length] in Hl2. specialize (Hl2 ltac:(lia)). lia.
  - cbn [concat]. rewrite znth_None; [done | unfold zlen; cbn; lia].
  - cbn [concat lookup list_lookup]. destruct ls as [| l' ls'].
    + cbn [concat]. rewrite app_nil_r. destruct (Hb O l eq_refl) as [Hl _].
      rewrite znth_None; [done |]. unfold kBatchSize in *. lia.
    + destruct (Hb O l eq_refl) as [_ Hl]. cbn [length] in Hl. specialize (Hl ltac:(lia)).
      rewrite znth_app_r by (unfold kBatchSize in *; lia).
      replace (kBatchSize * Z.of_nat (S k) + j - zlen l) with (kBatchSize * Z.of_nat k + j) by lia.
      apply (IH (l' :: ls')); [by apply blocks_tail in Hb | done].
Qed.

Lemma queue_lookup q k :
  q_ok q -> (k < length (queue_ q))%nat ->
  queue_ q !! k = Some (first q + kBatchSize * Z.of_nat k).
Proof. intros H Hk. rewrite (ok_chain _ H). by apply chain_lookup. Qed.

Lemma elem_of_queue q i :
  q_ok q -> i ∈ queue_ q <->
  exists k, (k < length (queue_ q))%nat /\ i = first q + kBatchSize * Z.of_nat k.
Proof. intros H. rewrite (ok_chain _ H) at 1. apply elem_of_chain. Qed.

Lemma queue_blocks q : q_ok q -> blocks (map (chunk_vals q) (queue_ q)).
Proof.
  intros H k l Hl. apply list_lookup_fmap_Some in Hl as (i & -> & Hi).
  assert (i ∈ queue_ q) as Hin by (apply list_elem_of_lookup; by exists k).
  destruct (ok_live _ H i Hin) as (c & Hc & Hf).
  rewrite (chunk_vals_length q i c Hc). destruct (ok_chunk _ H i c Hc) as (_ & Hle & _).
  split; [done |]. rewrite length_map. intros Hk. apply Hf.
  rewrite queue_lookup in Hi by (done || lia). injection Hi as <-.
  unfold first, zlen, kBatchSize in *. lia.
Qed.

(** The update with a given id. *)
Lemma vals_lookup q k j :
  q_ok q -> 0 <= j < kBatchSize ->
  znth (vals q) (kBatchSize * Z.of_nat k + j)
  = queue_ q !! k ≫= fun i => znth (chunk_vals q i) j.
Proof.
  intros H Hj. unfold vals. rewrite concat_lookup by (done || by apply queue_blocks).
  change (map (chunk_vals q) (queue_ q)) with (chunk_vals q <$> queue_ q).
  rewrite list_lookup_fmap. by destruct (queue_ q !! k).
Qed.

Lemma zlen_concat {A} (ls : list (list A)) n :
  Forall (fun l => zlen l = n) ls -> zlen (concat ls) = n * zlen ls.
Proof.
  induction 1 as [| l ls Hl _ IH]; [unfold zlen; cbn; lia |].
  cbn [concat]. rewrite zlen_app, IH, zlen_cons, Hl. lia.
Qed.

(** The queue is empty, or its last chunk is the one that takes new updates. *)
Lemma queue_back q :
  q_ok q -> queue_ q <> [] ->
  exists l c, queue_ q = l ++ [id_ c] /\ back q = Some c /\ chunks q !! id_ c = Some c
    /\ id_ c + kBatchSize = nextChunkID_ q /\ id_ c ∉ l
    /\ Forall (fun i => zlen (chunk_vals q i) = kBatchSize) l.
Proof.
  intros H Hne. destruct (length (queue_ q)) as [| n] eqn:El.
  { by apply length_zero_iff_nil in El. }
  pose proof (ok_chain _ H) as Hch. rewrite El, chain_snoc in Hch.
  set (b := first q + kBatchSize * Z.of_nat n) in *.
  assert (b + kBatchSize = nextChunkID_ q) as Hb.
  { unfold b, first, zlen. rewrite El. unfold kBatchSize. lia. }
  destruct (ok_live _ H b) as (c & Hc & _).
  { rewrite Hch. apply elem_of_app. right. by apply list_elem_of_singleton. }
  destruct (ok_chunk _ H b c Hc) as (Hid & _ & _).
  exists (chain (first q) n), c. rewrite Hid. split_and!; try done.
  - unfold back. rewrite Hch, last_snoc. done.
  - rewrite elem_of_chain. intros (k & Hk & Hb'). unfold b, kBatchSize in *. lia.
  - apply Forall_forall. intros i Hi. destruct (ok_live _ H i) as (d & Hd & Hf).
    { rewrite Hch. apply elem_of_app. by left. }
    rewrite (chunk_vals_length q i d Hd). apply Hf.
    apply elem_of_chain in Hi as (k & Hk & ->). unfold b, kBatchSize in *. lia.
Qed.

Lemma vals_back q l b :
  queue_ q = l ++ [b] -> vals q = concat (map (chunk_vals q) l) ++ chunk_vals q b.
Proof.
  intros H. unfold vals. rewrite H, map_app, concat_app. cbn [map concat].
  by rewrite app_nil_r.
Qed.

Lemma vals_nil q : queue_ q = [] -> vals q = [].
Proof. intros H. unfold vals. by rewrite H. Qed.

(** The id of the next update. *)
Lemma getNextUpdateID_spec q : q_ok q -> getNextUpdateID q = first q + zlen (vals q).
Proof.
  intros H. unfold getNextUpdateID. destruct (decide (queue_ q = [])) as [He | Hne].
  - unfold back. rewrite vals_nil by done. unfold first. rewrite He. cbn. unfold zlen. cbn.
    unfold kBatchSize. lia.
  - destruct (queue_back q H Hne) as (l & c & Hq & -> & Hc & Hn & _ & Hf).
    rewrite (vals_back q l (id_ c) Hq), zlen_app, (chunk_vals_length _ _ _ Hc).
    rewrite (zlen_concat _ kBatchSize).
    + unfold NextUpdateID, first. rewrite Hq, zlen_app. unfold zlen at 3. rewrite length_map.
      fold (zlen l). rewrite zlen_cons. unfold zlen at 2. cbn. unfold kBatchSize in *. lia.
    + rewrite Forall_map. done.
Qed.

(** ** Adding an update *)

Definition new_value (skip : bool) (h : option Z) (d : U) : Value U :=
  mk_value d (new_counters skip (HasEmitterID d)) h.

(** Between the result counters: needed by the assertion of [addSentResult]. *)
Definition sent_ok q : Prop :=
  forall i c, chunks q !! i = Some c -> 0 <= resultsSent_ c <= Count c.

Definition appended (skip : bool) (d : U) (h : option Z) c : QueueEntry U :=
  mk_entry (id_ c) (values c ++ [new_value skip h d])
    (u64 (totalSizeBytes_ c + DataSize d)) (erased_ c)
    (if skip then u16 (resultsSent_ c + 1) else resultsSent_ c) (isInvalidated_ c).

Lemma append_spec skip d h c :
  Count c < kBatchSize -> resultsSent_ c <= Count c -> (skip = true -> h = None) ->
  append HasEmitterID skip d (DataSize d) h c = Ok (Count c + id_ c, appended skip d h c).
Proof.
  intros Hc Hr Hh. unfold append, isFull. rewrite (proj2 (Z.eqb_neq _ _)) by lia.
  destruct skip; [| done]. rewrite Hh by done. unfold addSentResult, Count. cbn [values resultsSent_].
  rewrite zlen_app. rewrite (proj2 (Z.ltb_ge _ _)) by (unfold Count in Hr; pose proof (zlen_nonneg [mk_value d (new_counters true (HasEmitterID d)) None]); lia).
  done.
Qed.

Lemma Count_appended skip d h c : Count (appended skip d h c) = Count c + 1.
Proof. unfold Count, appended. cbn [values]. by rewrite zlen_app. Qed.

(** The chunk that takes the update, and the queue just before. *)
Definition with_room q : Queue U :=
  if match back q with Some c => isFull c | None => true end
  then new_chunk sizeofEntry q else q.

Definition room_chunk q : QueueEntry U :=
  match back q with
  | Some c => if isFull c then mk_entry (nextChunkID_ q) [] sizeofEntry 0 0 false else c
  | None => mk_entry (nextChunkID_ q) [] sizeofEntry 0 0 false
  end.

Definition new_room q : bool := match back q with Some c => isFull c | None => true end.

Lemma back_new_chunk q :
  back (new_chunk sizeofEntry q) = Some (mk_entry (nextChunkID_ q) [] sizeofEntry 0 0 false).
Proof.
  unfold back, new_chunk. cbn [set_size set_next set_chunk set_queue queue_ chunks id_].
  rewrite last_snoc. cbn [mbind option_bind]. by rewrite lookup_insert_eq.
Qed.

Lemma back_with_room q : back (with_room q) = Some (room_chunk q).
Proof.
  unfold with_room, room_chunk. destruct (back q) as [c |] eqn:E; [| apply back_new_chunk].
  destruct (isFull c); [apply back_new_chunk | done].
Qed.

Lemma addDataImpl_run skip d h q :
  q_ok q -> sent_ok q -> (skip = true -> h = None) ->
  addDataImpl HasEmitterID DataSize sizeofEntry skip d h q
  = Ok (Count (room_chunk q) + id_ (room_chunk q),
        emit [OnUpdatePushed (Count (room_chunk q) + id_ (room_chunk q))
                (DataSize d + if new_room q then sizeofEntry else 0)]
          (set_size (dataSize_ (with_room q) + DataSize d)
             (set_chunk (appended skip d h (room_chunk q)) (with_room q)))).
Proof.
  intros H Hs Hh. unfold addDataImpl. fold (new_room q).
  change (if new_room q then new_chunk sizeofEntry q else q) with (with_room q).
  rewrite back_with_room. unfold of_option. rewrite R_bind_ok, append_spec; [done | | | done].
  - unfold room_chunk. destruct (back q) as [c |] eqn:E; [| done].
    destruct (isFull c) eqn:Ef; [done |]. unfold isFull in Ef.
    unfold back in E. destruct (last (queue_ q)) as [i |]; [| done].
    destruct (ok_chunk _ H i c E) as (_ & Hle & _). lia.
  - unfold room_chunk. destruct (back q) as [c |] eqn:E; [| done].
    destruct (isFull c); [done |]. unfold back in E.
    destruct (last (queue_ q)) as [i |]; [| done]. by apply (Hs i).
Qed.

Lemma new_chunk_ok q :
  q_ok q -> nextChunkID_ q + kBatchSize < 2 ^ 62 -> new_room q = true ->
  let q' := new_chunk sizeofEntry q in
  q_ok q' /\ first q' = first q /\ vals q' = vals q
  /\ nextChunkID_ q' = nextChunkID_ q + kBatchSize.
Proof.
  intros H Hn Hr q'.
  assert (nextChunkID_ q' = nextChunkID_ q + kBatchSize) as En.
  { unfold q', new_chunk. cbn [set_size set_next nextChunkID_].
    apply wrap_id. destruct (ok_bounds _ H). unfold first, zlen, kBatchSize in *. lia. }
  assert (queue_ q' = queue_ q ++ [nextChunkID_ q]) as Eq by done.
  assert (chunks q' = <[nextChunkID_ q := mk_entry (nextChunkID_ q) [] sizeofEntry 0 0 false]>
                        (chunks q)) as Ec by done.
  assert (first q' = first q) as Ef.
  { unfold first. rewrite En, Eq, zlen_app. change (zlen [nextChunkID_ q]) with 1. lia. }
  assert (forall i c, chunks q !! i = Some c -> i <> nextChunkID_ q) as Hne.
  { intros i c Hc ->. destruct (ok_chunk _ H _ c Hc) as (_ & _ & Hb). unfold kBatchSize in Hb. lia. }
  assert (forall i, i ∈ queue_ q -> chunks q' !! i = chunks q !! i) as Hold.
  { intros i Hi. destruct (ok_live _ H i Hi) as (c & Hc & _). rewrite Ec, lookup_insert_ne; [done |].
    intros He. by apply (Hne i c Hc). }
  split_and!; [| done | | done].
  - split.
    + rewrite Eq, Ef, length_app. cbn [length]. rewrite Nat.add_1_r, chain_snoc.
      rewrite <- (ok_chain _ H). do 2 f_equal. unfold first, zlen. lia.
    + rewrite Ef, En. destruct (ok_bounds _ H). done.
    + rewrite Ec, En. intros i c. rewrite lookup_insert_Some. intros [[<- <-] | [_ Hc]].
      * unfold Count. cbn. unfold zlen, kBatchSize. cbn. lia.
      * destruct (ok_chunk _ H i c Hc) as (H1 & H2 & H3). unfold kBatchSize in *. lia.
    + rewrite Eq, En. intros i Hi%elem_of_app. rewrite list_elem_of_singleton in Hi.
      destruct Hi as [Hi | ->].
      * destruct (ok_live _ H i Hi) as (c & Hc & Hf). exists c. rewrite Hold by done.
        split; [done |]. intros _. destruct (decide (i + kBatchSize < nextChunkID_ q)); [by apply Hf |].
        destruct (queue_back q H) as (l & b & Hq & Hb & Hcb & Hbn & _ & _).
        { intros He. rewrite He in Hi. by apply not_elem_of_nil in Hi. }
        destruct (ok_chunk _ H i c Hc) as (_ & _ & Hle).
        assert (i = id_ b) as -> by lia. assert (c = b) as -> by congruence.
        unfold new_room in Hr. rewrite Hb in Hr. unfold isFull in Hr. lia.
      * exists (mk_entry (nextChunkID_ q) [] sizeofEntry 0 0 false).
        rewrite Ec, lookup_insert_eq. split; [done |]. unfold kBatchSize. lia.
    + rewrite Eq.
      assert (dataSize_ q' = u64 (dataSize_ q + sizeofEntry)) as -> by done.
      rewrite (ok_size _ H). unfold u64, wrap. rewrite Zplus_mod_idemp_l. f_equal.
      rewrite sum_sizes_app. cbn [sum_sizes foldr].
      assert (size_of q' (nextChunkID_ q) = sizeofEntry) as ->
        by (unfold size_of; by rewrite Ec, lookup_insert_eq).
      rewrite (sum_sizes_ext q' q (queue_ q)); [lia |].
      intros i Hi. unfold size_of. by rewrite Hold.
    + rewrite Ef. apply (ok_drop _ H).
  - unfold vals. rewrite Eq, map_app, concat_app. cbn [map concat].
    unfold chunk_vals at 2. rewrite Ec, lookup_insert_eq. cbn [values app].
    rewrite app_nil_r. f_equal. apply map_ext_in. intros i Hi%list_elem_of_In.
    unfold chunk_vals. by rewrite Hold.
Qed.

(** The last chunk of the queue, with room for one more update. *)
Definition room q c : Prop :=
  exists l, queue_ q = l ++ [id_ c] /\ chunks q !! id_ c = Some c
    /\ id_ c + kBatchSize = nextChunkID_ q /\ id_ c ∉ l /\ Count c < kBatchSize.

Lemma room_back q c :
  q_ok q -> back q = Some c -> isFull c = false -> room q c.
Proof.
  intros H Hb Hf. destruct (queue_back q H) as (l & c' & Hq & Hb' & Hc & Hn & Hl & _).
  { intros He. unfold back in Hb. by rewrite He in Hb. }
  assert (c' = c) as -> by congruence. exists l. split_and!; try done.
  destruct (ok_chunk _ H _ c Hc) as (_ & Hle & _). unfold isFull in Hf. lia.
Qed.

Lemma grow_queue_ok q c d h skip :
  q_ok q -> room q c ->
  let q' := set_size (dataSize_ q + DataSize d) (set_chunk (appended skip d h c) q) in
  q_ok q' /\ first q' = first q /\ vals q' = vals q ++ [new_value skip h d].
Proof.
  intros H (l & Hq & Hc & Hn & Hl & Hlt) q'.
  assert (forall i, i <> id_ c -> chunks q' !! i = chunks q !! i) as Hold.
  { intros i Hi. by apply lookup_insert_ne. }
  assert (chunks q' !! id_ c = Some (appended skip d h c)) as Hnew by apply lookup_insert_eq.
  split_and!; [| done |].
  - split; [apply (ok_chain _ H) | apply (ok_bounds _ H) | | | | apply (ok_drop _ H)].
    + intros i c'. destruct (decide (i = id_ c)) as [-> | Hi].
      * rewrite Hnew. intros [= <-]. rewrite Count_appended. cbn [appended id_].
        destruct (ok_chunk _ H _ c Hc) as (_ & _ & Hb). split_and!; [done | lia | done].
      * rewrite Hold by done. apply (ok_chunk _ H).
    + intros i Hi. change (nextChunkID_ q') with (nextChunkID_ q).
      destruct (decide (i = id_ c)) as [-> | Hne].
      * exists (appended skip d h c). split; [done |]. lia.
      * rewrite Hold by done. by apply (ok_live _ H).
    + change (queue_ q') with (queue_ q). change (dataSize_ q') with (u64 (dataSize_ q + DataSize d)).
      rewrite (ok_size _ H), Hq, !sum_sizes_app. cbn [sum_sizes foldr].
      assert (size_of q (id_ c) = totalSizeBytes_ c) as -> by (unfold size_of; by rewrite Hc).
      assert (size_of q' (id_ c) = u64 (totalSizeBytes_ c + DataSize d)) as ->
        by (unfold size_of; by rewrite Hnew).
      rewrite (sum_sizes_ext q' q l).
      * unfold u64, wrap. rewrite Zplus_mod_idemp_l, !Z.add_0_r, Zplus_mod_idemp_r.
        f_equal. lia.
      * intros i Hi. unfold size_of. rewrite Hold; [done |]. by intros ->.
  - rewrite (vals_back q' l (id_ c)), (vals_back q l (id_ c)) by done.
    rewrite <- app_assoc. f_equal.
    + f_equal. apply map_ext_in. intros i Hi%list_elem_of_In. unfold chunk_vals.
      rewrite Hold; [done |]. by intros ->.
    + unfold chunk_vals. by rewrite Hnew, Hc.
Qed.

Lemma grow_sent q c d h skip :
  sent_ok q -> room q c ->
  sent_ok (set_size (dataSize_ q + DataSize d) (set_chunk (appended skip d h c) q)).
Proof.
  intros Hs (l & _ & Hc & _ & _ & Hlt) i c'. cbn [set_size set_chunk chunks].
  rewrite lookup_insert_Some. intros [[_ <-] | [_ Hc']]; [| by apply (Hs i)].
  rewrite Count_appended. cbn [appended resultsSent_]. pose proof (Hs _ c Hc) as Hr.
  destruct skip; [| lia]. unfold u16. rewrite wrap_id; unfold kBatchSize in *; lia.
Qed.

(** [addDataImpl]: the update gets the next id and goes to the end of the log. *)
Lemma addDataImpl_spec skip d h q :
  q_ok q -> sent_ok q -> (skip = true -> h = None) -> nextChunkID_ q + kBatchSize < 2 ^ 62 ->
  exists q', addDataImpl HasEmitterID DataSize sizeofEntry skip d h q
             = Ok (first q + zlen (vals q), q')
    /\ q_ok q' /\ sent_ok q' /\ first q' = first q /\ vals q' = vals q ++ [new_value skip h d]
    /\ nextChunkID_ q' <= nextChunkID_ q + kBatchSize
    /\ updatedDropRecord_ q' = updatedDropRecord_ q /\ MaxDataSize q' = MaxDataSize q.
Proof.
  intros H Hs Hh Hn. pose proof (getNextUpdateID_spec q H) as Hid.
  rewrite (addDataImpl_run skip d h q H Hs Hh). unfold room_chunk, with_room.
  assert (new_room q = false -> exists c, back q = Some c /\ isFull c = false) as Hfalse.
  { unfold new_room. destruct (back q) as [c |]; [by exists c | done]. }
  unfold getNextUpdateID in Hid. unfold new_room in *.
  destruct (match back q with Some c => isFull c | None => true end) eqn:Er.
  - destruct (new_chunk_ok q H Hn Er) as (H1 & Hf1 & Hc1 & Hn1).
    set (c := mk_entry (nextChunkID_ q) [] sizeofEntry 0 0 false).
    assert (match back q with Some c0 => if isFull c0 then c else c0 | None => c end = c) as ->.
    { destruct (back q); [by rewrite Er | done]. }
    assert (sent_ok (new_chunk sizeofEntry q)) as Hs1.
    { intros i c'. cbn [new_chunk set_size set_next set_chunk set_queue chunks].
      rewrite lookup_insert_Some. intros [[_ <-] | [_ Hc']]; [done | by apply (Hs i)]. }
    assert (room (new_chunk sizeofEntry q) c) as Hroom.
    { apply room_back; [done | apply back_new_chunk | done]. }
    destruct (grow_queue_ok _ c d h skip H1 Hroom) as (H2 & Hf2 & Hc2).
    pose proof (getNextUpdateID_spec _ H1) as Hid1. unfold getNextUpdateID in Hid1.
    rewrite back_new_chunk, Hf1, Hc1 in Hid1. fold c in Hid1. unfold NextUpdateID in Hid1.
    eexists. split; [rewrite <- Hid1, Z.add_comm; reflexivity |]. split; [by apply emit_ok |].
    split; [by apply (grow_sent _ c d h skip Hs1 Hroom) |].
    split_and!; [by rewrite <- Hf1 | by rewrite <- Hc1 | by rewrite <- Hn1 | done | done].
  - destruct (Hfalse eq_refl) as (c & Hb & Hfull). rewrite Hb, Hfull.
    pose proof (room_back q c H Hb Hfull) as Hroom.
    destruct (grow_queue_ok q c d h skip H Hroom) as (H2 & Hf2 & Hc2). rewrite Hb in Hid.
    eexists. split; [f_equal; f_equal; unfold NextUpdateID in Hid; rewrite <- Hid; lia |].
    split; [by apply emit_ok |]. split; [by apply (grow_sent q c d h skip Hs Hroom) |].
    split_and!; try done. unfold kBatchSize. cbn. lia.
Qed.

Lemma addDataAll_spec skip data h q :
  q_ok q -> sent_ok q -> (skip = true -> h = None) ->
  nextChunkID_ q + kBatchSize * zlen data < 2 ^ 62 ->
  exists ids q', addDataAll HasEmitterID DataSize sizeofEntry skip data h q = Ok (ids, q')
    /\ q_ok q' /\ sent_ok q' /\ first q' = first q /\ vals q' = vals q ++ map (new_value skip h) data
    /\ updatedDropRecord_ q' = updatedDropRecord_ q /\ MaxDataSize q' = MaxDataSize q
    /\ (forall k, 0 <= k < zlen data -> znth ids k = Some (first q + zlen (vals q) + k)).
Proof.
  revert q. induction data as [| d data IH]; intros q H Hs Hh Hn.
  - exists [], q. cbn [addDataAll]. rewrite app_nil_r. split_and!; try done.
    intros k Hk. unfold zlen in Hk. cbn in Hk. lia.
  - rewrite zlen_cons in Hn. pose proof (zlen_nonneg data) as Hl.
    destruct (addDataImpl_spec skip d h q H Hs Hh) as
      (q1 & Hadd & H1 & Hs1 & Hf1 & Hc1 & Hn1 & Hd1 & Hm1); [blia |].
    destruct (IH q1 H1 Hs1 Hh) as (ids & q2 & Hgo & H2 & Hs2 & Hf2 & Hc2 & Hd2 & Hm2 & Hids).
    { unfold kBatchSize in *. lia. }
    exists ((first q + zlen (vals q)) :: ids), q2. cbn [addDataAll].
    rewrite Hadd, R_bind_ok. cbn [snd fst]. rewrite Hgo, R_bind_ok. cbn [snd fst].
    split_and!; try done; try congruence.
    + by rewrite Hc2, Hc1, <- app_assoc.
    + intros k Hk. rewrite zlen_cons in Hk. destruct (decide (k = 0)) as [-> | Hk0].
      * rewrite Z.add_0_r. done.
      * change ((first q + zlen (vals q)) :: ids) with ([first q + zlen (vals q)] ++ ids).
        rewrite znth_app_r by (unfold zlen; cbn; lia).
        replace (k - zlen [first q + zlen (vals q)]) with (k - 1) by (unfold zlen; cbn; lia).
        rewrite Hids by lia. rewrite Hf1, Hc1, zlen_app. f_equal. unfold zlen. cbn. lia.
Qed.

(** ** Shifting the window *)

Lemma vals_bound q : q_ok q -> zlen (vals q) <= kBatchSize * zlen (queue_ q).
Proof.
  intros H. destruct (decide (queue_ q = [])) as [He | Hne].
  { rewrite vals_nil, He by done. unfold zlen. cbn. lia. }
  destruct (queue_back q H Hne) as (l & c & Hq & _ & Hc & _ & _ & Hf).
  rewrite (vals_back q l (id_ c) Hq), zlen_app, (chunk_vals_length _ _ _ Hc).
  rewrite (zlen_concat _ kBatchSize) by (by rewrite Forall_map).
  destruct (ok_chunk _ H _ c Hc) as (_ & Hle & _). rewrite Hq, zlen_app.
  unfold zlen in *. rewrite length_map. cbn. unfold kBatchSize in *. lia.
Qed.

Lemma shift_ok q k :
  q_ok q -> (k <= length (queue_ q))%nat ->
  let q' := set_size (dataSize_ q - sum_sizes q (take k (queue_ q)))
              (set_queue (drop k (queue_ q)) q) in
  q_ok q' /\ first q' = first q + kBatchSize * Z.of_nat k
  /\ vals q' = drop (Z.to_nat (kBatchSize * Z.of_nat k)) (vals q).
Proof.
  intros H Hk q'.
  assert (first q' = first q + kBatchSize * Z.of_nat k) as Ef.
  { unfold first, q'. cbn [set_size set_queue queue_ nextChunkID_]. unfold zlen.
    rewrite length_drop. unfold kBatchSize. lia. }
  split_and!; [| done |].
  - split.
    + rewrite Ef. cbn [q' set_size set_queue queue_]. rewrite length_drop.
      rewrite <- drop_chain by done. by rewrite <- (ok_chain _ H).
    + rewrite Ef. destruct (ok_bounds _ H). split; [unfold kBatchSize; lia | done].
    + apply (ok_chunk _ H).
    + intros i Hi. apply (ok_live _ H). cbn in Hi. rewrite <- (take_drop k (queue_ q)). apply elem_of_app. by right.
    + change (dataSize_ q') with (u64 (dataSize_ q - sum_sizes q (take k (queue_ q)))).
      change (queue_ q') with (drop k (queue_ q)).
      rewrite (sum_sizes_ext q' q) by done. rewrite (ok_size _ H). unfold u64, wrap.
      rewrite <- (take_drop k (queue_ q)) at 1. rewrite sum_sizes_app, Zminus_mod_idemp_l.
      f_equal. lia.
    + intros d Hd. rewrite Ef. pose proof (ok_drop _ H d Hd). unfold kBatchSize. lia.
  - unfold vals, q'. cbn [set_size set_queue queue_].
    change (chunk_vals (set_size _ _)) with (chunk_vals q).
    destruct (decide (k < length (queue_ q))%nat) as [Hlt | Hge].
    + rewrite <- (take_drop k (queue_ q)) at 2. rewrite map_app, concat_app.
      rewrite drop_app_length'; [done |].
      assert (zlen (concat (map (chunk_vals q) (take k (queue_ q)))) = kBatchSize * Z.of_nat k) as Hz.
      { rewrite (zlen_concat _ kBatchSize).
        - unfold zlen. rewrite length_map, length_take. f_equal. lia.
        - rewrite Forall_map, Forall_forall. intros i Hi.
          apply list_elem_of_lookup in Hi as [j Hj]. pose proof (lookup_lt_Some _ _ _ Hj) as Hjl.
          rewrite length_take in Hjl. rewrite lookup_take_lt in Hj by lia.
          destruct (ok_live _ H i) as (c & Hc & Hf); [by apply list_elem_of_lookup; exists j |].
          rewrite (chunk_vals_length q i c Hc). apply Hf.
          rewrite queue_lookup in Hj by (done || lia). injection Hj as <-.
          unfold first, zlen, kBatchSize in *. lia. }
      unfold zlen in Hz. lia.
    + rewrite !drop_ge; [done | | lia].
      pose proof (vals_bound q H) as Hb. unfold vals, zlen in Hb.
      unfold kBatchSize in *. lia.
Qed.

Lemma erase_front_spec q q' :
  q_ok q -> erase_front q = Some q' ->
  q_ok q' /\ first q' = first q + kBatchSize
  /\ vals q' = drop (Z.to_nat kBatchSize) (vals q)
  /\ chunks q' = chunks q /\ waiters q' = waiters q
  /\ updatedDropRecord_ q' = updatedDropRecord_ q
  /\ exists i c, queue_ q = i :: queue_ q' /\ chunks q !! i = Some c /\ isAllResultsSent c = true.
Proof.
  intros H He. unfold erase_front in He. destruct (queue_ q) as [| i rest] eqn:Eq; [done |].
  destruct (chunks q !! i) as [c |] eqn:Ec; [| done].
  destruct (isAllResultsSent c && IsFullyErased c) eqn:Ea; [| done]. injection He as <-.
  apply andb_true_iff in Ea as [Ea _].
  destruct (shift_ok q 1 H) as (H1 & Hf1 & Hc1); [rewrite Eq; cbn; lia |].
  rewrite Eq in H1, Hf1, Hc1.
  change (take 1 (i :: rest)) with [i] in *. change (drop 1 (i :: rest)) with rest in *.
  assert (sum_sizes q [i] = totalSizeBytes_ c) as Es.
  { cbn. unfold size_of. rewrite Ec. lia. }
  rewrite Es in H1, Hf1, Hc1. split_and!; try done.
  - by apply emit_ok.
  - by exists i, c.
Qed.

(** ** Dropping *)

Lemma skipable_prefix q l :
  (forall i, i ∈ l -> exists c, chunks q !! i = Some c) ->
  exists k, (k <= length l)%nat /\ skipable q l = take k l
    /\ forall i, i ∈ take k l -> exists c, chunks q !! i = Some c /\ isFull c = true
                                       /\ isAllResultsSent c = true.
Proof.
  induction l as [| i l IH]; intros Hl.
  - exists O. split_and!; [done | done |]. intros i Hi. by apply not_elem_of_nil in Hi.
  - cbn [skipable]. destruct (Hl i) as [c Hc]; [by apply list_elem_of_here |]. rewrite Hc.
    destruct (isAllResultsSent c && isFull c) eqn:E.
    + apply andb_true_iff in E as [E1 E2].
      destruct IH as (k & Hk & Hs & Hf); [intros j Hj; apply Hl; by apply list_elem_of_further |].
      exists (S k). cbn [length take]. split_and!; [lia | by rewrite Hs |].
      intros j [-> | Hj]%elem_of_cons; [by exists c | by apply Hf].
    + exists O. split_and!; [lia | done |]. intros j Hj. by apply not_elem_of_nil in Hj.
Qed.

Lemma invalidate_chunk_ok q i :
  q_ok q -> sent_ok q ->
  let q' := invalidate_chunk i q in
  q_ok q' /\ sent_ok q' /\ queue_ q' = queue_ q /\ nextChunkID_ q' = nextChunkID_ q
  /\ dataSize_ q' = dataSize_ q /\ updatedDropRecord_ q' = updatedDropRecord_ q
  /\ (forall j, chunk_vals q' j = chunk_vals q j) /\ (forall j, size_of q' j = size_of q j).
Proof.
  intros H Hs. unfold invalidate_chunk. destruct (chunks q !! i) as [c |] eqn:Hc; [| done].
  destruct (ok_chunk _ H i c Hc) as (Hid & _ & _). cbv zeta. split_and!; try done.
  - apply (set_chunk_ok q c); [done | by rewrite Hid | done].
  - intros j c'. unfold set_chunk. cbn [chunks]. rewrite lookup_insert_Some.
    intros [[_ <-] | [_ Hc']]; [apply (Hs i c Hc) | by apply (Hs j)].
  - intros j. unfold chunk_vals, set_chunk. cbn [chunks markInvalidated id_]. rewrite Hid.
    destruct (decide (j = i)) as [-> | Hj]; [by rewrite lookup_insert_eq, Hc |].
    by rewrite lookup_insert_ne.
  - intros j. rewrite size_of_set_chunk. case_decide as Hj; [| done].
    cbn [markInvalidated id_ totalSizeBytes_] in *. unfold size_of. by rewrite Hj, Hid, Hc.
Qed.

Lemma invalidate_chunks_ok q l :
  q_ok q -> sent_ok q ->
  let q' := foldr invalidate_chunk q l in
  q_ok q' /\ sent_ok q' /\ queue_ q' = queue_ q /\ nextChunkID_ q' = nextChunkID_ q
  /\ dataSize_ q' = dataSize_ q /\ updatedDropRecord_ q' = updatedDropRecord_ q
  /\ (forall j, chunk_vals q' j = chunk_vals q j) /\ (forall j, size_of q' j = size_of q j).
Proof.
  intros H Hs. induction l as [| i l IH]; [done |]. cbn [foldr]. cbv zeta in *.
  destruct IH as (H1 & Hs1 & Hq1 & Hn1 & Hd1 & Hr1 & Hc1 & Hz1).
  destruct (invalidate_chunk_ok _ i H1 Hs1) as (H2 & Hs2 & Hq2 & Hn2 & Hd2 & Hr2 & Hc2 & Hz2).
  split_and!; try done; try congruence.
Qed.

Lemma invalidate_chunk_queue q l x :
  let f := set_queue x in
  foldr invalidate_chunk (f q) l = f (foldr invalidate_chunk q l).
Proof.
  cbv zeta. induction l as [| i l IH]; [done |]. cbn [foldr]. rewrite IH.
  unfold invalidate_chunk. cbn [set_queue chunks]. by destruct (chunks _ !! i).
Qed.

(** The number of chunks that [dropOverflowingUpdates] drops. *)
Definition overflowing q : bool :=
  negb (MaxDataSize q =? 0) && (MaxDataSize q <? dataSize_ q) && (1 <? zlen (queue_ q))
  && match front q with Some c => isAllResultsSent c | None => false end.

Definition n_dropped q : nat :=
  if overflowing q then length (skipable q (queue_ q)) else O.

Lemma dropOverflowing_spec q :
  q_ok q -> sent_ok q ->
  let q' := dropOverflowingUpdates q in
  let k := Z.of_nat (n_dropped q) in
  q_ok q' /\ sent_ok q' /\ (n_dropped q <= length (queue_ q))%nat
  /\ first q' = first q + kBatchSize * k
  /\ vals q' = drop (Z.to_nat (kBatchSize * k)) (vals q)
  /\ updatedDropRecord_ q'
     = (if k =? 0 then updatedDropRecord_ q else Some (first q + kBatchSize * k - 1)).
Proof.
  intros H Hs. unfold dropOverflowingUpdates, n_dropped. fold (overflowing q).
  destruct (overflowing q) eqn:Eo; [| change (Z.of_nat 0) with 0; rewrite Z.mul_0_r, Z.add_0_r; by split_and!; try lia].
  destruct (skipable_prefix q (queue_ q)) as (k & Hk & Hsk & _).
  { intros i Hi. destruct (ok_live _ H i Hi) as (c & Hc & _). by exists c. }
  rewrite Hsk. rewrite length_take, Nat.min_l by done.
  rewrite invalidate_chunk_queue.
  destruct (invalidate_chunks_ok q (take k (queue_ q)) H Hs) as
    (H1 & Hs1 & Hq1 & Hn1 & Hd1 & Hr1 & Hc1 & Hz1). cbv zeta in *.
  set (q1 := foldr invalidate_chunk q (take k (queue_ q))) in *.
  destruct (shift_ok q1 k H1) as (H2 & Hf2 & Hc2); [by rewrite Hq1 |]. cbv zeta in *.
  assert (first q1 = first q) as Hf1 by (by apply first_frame).
  assert (vals q1 = vals q) as Hcc by (by apply vals_ext).
  rewrite Hq1 in H2, Hf2, Hc2. rewrite Hf1 in Hf2. rewrite Hcc in Hc2.
  rewrite (sum_sizes_ext q1 q) in H2, Hf2, Hc2 by done.
  destruct k as [| k].
  - change (take 0 (queue_ q)) with (@nil Z) in *. change (last []) with (@None Z). cbv iota.
    change (drop 0 (queue_ q)) with (queue_ q). change (Z.of_nat 0) with 0.
    rewrite Z.mul_0_r, Z.add_0_r. cbn [Z.eqb]. rewrite <- Hq1.
    assert (set_queue (queue_ q1) q1 = q1) as -> by (by destruct q1).
    change (Z.to_nat 0) with O. split_and!; try done; try lia. 
  - destruct (last (take (S k) (queue_ q))) as [i |] eqn:El.
    2:{ apply last_None in El. apply (f_equal length) in El. rewrite length_take in El.
        rewrite Nat.min_l in El by done. done. }
    assert (i = first q + kBatchSize * Z.of_nat k) as ->.
    { rewrite last_lookup, length_take, Nat.min_l in El by done. cbn [Nat.pred] in El.
      rewrite lookup_take_lt, queue_lookup in El by (done || lia). by injection El. }
    rewrite (proj2 (Z.eqb_neq (Z.of_nat (S k)) 0)) by lia.
    set (d := first q + kBatchSize * Z.of_nat k + kBatchSize - 1).
    assert (d = first q + kBatchSize * Z.of_nat (S k) - 1) as Ed
      by (unfold d, kBatchSize; lia).
    split_and!; [| done | done | exact Hf2 | exact Hc2 | cbn; by rewrite Ed].
    apply emit_ok.
    assert (dataSize_ q1 = dataSize_ q) as Hd1' by done.
    destruct H2 as [A1 A2 A3 A4 A5 A6]. split; [done | done | done | done | |].
    + etrans; [| exact A5]. cbn [set_size dataSize_ set_drop set_queue].
      unfold u64, wrap. by rewrite Zminus_mod_idemp_r.
    + cbn [set_size set_drop updatedDropRecord_]. intros d' [= <-].
      assert (first q + kBatchSize * Z.of_nat (S k) = first (set_size (dataSize_ q1 - sum_sizes q (take (S k) (queue_ q))) (set_queue (drop (S k) (queue_ q)) q1))) as E by done.
      unfold first in *. cbn [set_size set_drop set_queue queue_ nextChunkID_] in *. lia.
Qed.

Lemma notifyAll_frame q :
  queue_ (notifyAll q) = queue_ q /\ chunks (notifyAll q) = chunks q
  /\ nextChunkID_ (notifyAll q) = nextChunkID_ q /\ dataSize_ (notifyAll q) = dataSize_ q
  /\ updatedDropRecord_ (notifyAll q) = updatedDropRecord_ q
  /\ waiters (notifyAll q) = waiters q.
Proof. done. Qed.
(** ** Finding an update *)

Lemma chunk_at q id :
  q_ok q -> first q <= id < first q + zlen (vals q) ->
  exists k c v, let i := first q + kBatchSize * Z.of_nat k in
    (k < length (queue_ q))%nat /\ queue_ q !! k = Some i /\ chunks q !! i = Some c /\ id_ c = i
    /\ k = Z.to_nat ((id - first q) / kBatchSize) /\ 0 <= id - i < kBatchSize
    /\ znth (values c) (id - i) = Some v /\ znth (vals q) (id - first q) = Some v.
Proof.
  intros H Hid. set (k := Z.to_nat ((id - first q) / kBatchSize)).
  assert (id - first q = kBatchSize * Z.of_nat k + (id - first q) mod kBatchSize) as Ed.
  { unfold k. rewrite Z2Nat.id by (apply Z.div_pos; [lia | done]). by apply Z.div_mod. }
  pose proof (Z.mod_pos_bound (id - first q) kBatchSize ltac:(done)) as Hm.
  destruct (znth_lt (vals q) (id - first q)) as [v Hv]; [lia |].
  pose proof Hv as Hv'. rewrite Ed, vals_lookup in Hv' by done.
  destruct (queue_ q !! k) as [i |] eqn:Ek; [| done]. cbn [mbind option_bind] in Hv'.
  pose proof (lookup_lt_Some _ _ _ Ek) as Hk. pose proof Ek as Ei.
  rewrite queue_lookup in Ei by done. injection Ei as <-.
  destruct (ok_live _ H (first q + kBatchSize * Z.of_nat k)) as (c & Hc & _).
  { apply list_elem_of_lookup. by exists k. }
  destruct (ok_chunk _ H _ c Hc) as (Hci & _ & _).
  unfold chunk_vals in Hv'. rewrite Hc in Hv'.
  exists k, c, v. cbv zeta. split_and!; try done; try lia.
  replace (id - (first q + kBatchSize * Z.of_nat k)) with ((id - first q) mod kBatchSize) by lia.
  done.
Qed.

(** The position of an entry of a chunk of the queue. *)
Lemma chunk_pos q i c j v :
  q_ok q -> i ∈ queue_ q -> chunks q !! i = Some c -> znth (values c) j = Some v ->
  exists k, i = first q + kBatchSize * Z.of_nat k /\ (k < length (queue_ q))%nat
    /\ 0 <= j < kBatchSize /\ znth (vals q) (i + j - first q) = Some v.
Proof.
  intros H Hi Hc Hv. pose proof Hi as Hi'. apply (elem_of_queue q i H) in Hi' as (k & Hk & ->).
  destruct (ok_chunk _ H _ c Hc) as (_ & Hle & _). pose proof (znth_Some _ _ _ Hv) as Hj.
  unfold Count in Hle. exists k. split_and!; try done; try lia.
  replace (first q + kBatchSize * Z.of_nat k + j - first q) with (kBatchSize * Z.of_nat k + j) by lia.
  rewrite vals_lookup by (done || lia). rewrite queue_lookup by done. cbn [mbind option_bind].
  unfold chunk_vals. by rewrite Hc.
Qed.


(** ** The log *)

(** The updates that the queue still has. *)
Definition items q : list U := map data_ (vals q).

Lemma await_run nt q :
  (forall t, nt = Some t -> is_Some (newDataNotifiers_ q !! t)) ->
  exists q', await nt q = Ok (RNothing, q')
    /\ (forall t, nt = Some t -> newDataNotifiers_ q' !! t = Some true).
Proof.
  intros Ht. unfold await, setAwaitDataFlag. destruct nt as [t |]; [| by exists q].
  destruct (Ht t eq_refl) as [b ->]. rewrite R_bind_ok. eexists. split; [reflexivity |].
  intros t' [= <-]. cbn. by rewrite lookup_insert_eq.
Qed.

Lemma queue_head q f l : q_ok q -> queue_ q = f :: l -> f = first q.
Proof.
  intros H E. pose proof (queue_lookup q 0 H) as H0. rewrite E in H0. cbn in H0.
  injection H0 as ->; [cbn; lia | lia].
Qed.

Lemma read_queue_behind id nt q :
  q_ok q -> first q <= id -> first q + zlen (vals q) <= id ->
  read_queue id nt q = await nt q.
Proof.
  intros H Hf Hid. unfold read_queue. destruct (queue_ q) as [| f l] eqn:Eq; [done |].
  pose proof (queue_head q f l H Eq) as ->. rewrite (proj2 (Z.ltb_ge _ _)) by lia.
  destruct (znth (first q :: l) _) as [i |] eqn:Ei; [| done]. rewrite <- Eq in Ei.
  set (k := Z.to_nat ((id - first q) / kBatchSize)).
  assert (0 <= (id - first q) / kBatchSize) as Hk0 by (apply Z.div_pos; [lia | done]).
  assert (queue_ q !! k = Some i) as Ek.
  { unfold k. by rewrite <- znth_lookup, Z2Nat.id. }
  pose proof (lookup_lt_Some _ _ _ Ek) as Hk. pose proof Ek as Ek'.
  rewrite queue_lookup in Ek' by done. injection Ek' as Ei'.
  destruct (ok_live _ H i) as (c & Hc & _); [by apply list_elem_of_lookup; exists k |].
  rewrite Hc. cbn [of_option]. rewrite R_bind_ok.
  destruct (HasID id c) eqn:Eh; [exfalso | done].
  destruct (ok_chunk _ H i c Hc) as (Hid' & Hle & _). unfold HasID, NextUpdateID in Eh. rewrite Hid' in Eh.
  destruct (znth_lt (values c) (id - i)) as [v Hv]; [unfold Count in Eh; lia |].
  destruct (chunk_pos q i c (id - i) v H) as (_ & _ & _ & _ & Hp); [| done | done |].
  { apply list_elem_of_lookup. by exists k. }
  apply znth_Some in Hp. lia.
Qed.

Lemma read_queue_inside id nt q :
  q_ok q -> first q <= id < first q + zlen (vals q) ->
  exists i c v, read_queue id nt q = Ok (RChunk i, q) /\ chunks q !! i = Some c /\ id_ c = i
    /\ znth (values c) (id - i) = Some v /\ znth (vals q) (id - first q) = Some v.
Proof.
  intros H Hid. destruct (chunk_at q id H Hid) as (k & c & v & Hk & Hqk & Hc & Eid & Ek & Hb & Hv & Hvv).
  exists (first q + kBatchSize * Z.of_nat k), c, v. split_and!; try done.
  unfold read_queue. destruct (queue_ q) as [| f l] eqn:Eq; [cbn in Hk; lia |].
  pose proof (queue_head q f l H Eq) as ->. rewrite (proj2 (Z.ltb_ge _ _)) by lia.
  assert (znth (first q :: l) ((id - first q) / kBatchSize)
          = Some (first q + kBatchSize * Z.of_nat k)) as ->.
  { rewrite <- Hqk, <- znth_lookup. f_equal. rewrite Ek, Z2Nat.id; [done |].
    apply Z.div_pos; [lia | done]. }
  rewrite Hc. cbn [of_option]. rewrite R_bind_ok.
  assert (HasID id c = true) as ->; [| done].
  unfold HasID, NextUpdateID, Count. rewrite Eid. apply znth_Some in Hv. lia.
Qed.
End Inv.

(** ** Properties *)

Section Log.
Context {U : Type} (HasEmitterID : U -> bool) (DataSize : U -> Z) (sizeofEntry : Z).

Implicit Types (q : Queue U).

(** C4: The queue is a window of a log. Pushing a batch gives its updates the next ids, one
    after another, and appends them to the log; it may move the beginning of the window by
    whole chunks of 500 ids, which the drop record then names exactly. Erasing moves the window
    by one chunk and never touches the other updates. *)
Theorem queue_is_log_window q
    (Hq : q_ok q) (Hsent : sent_ok q) :
  (forall skip data h,
     (skip = true -> h = None) -> nextChunkID_ q + kBatchSize * zlen data < 2 ^ 62 ->
     exists ids k q',
       addDataToQueue HasEmitterID DataSize sizeofEntry skip data h q = Ok (ids, q')
       /\ (forall j, 0 <= j < zlen data ->
             znth ids j = Some (first q + zlen (items q) + j))
       /\ 0 <= k /\ first q' = first q + kBatchSize * k
       /\ items q' = drop (Z.to_nat (kBatchSize * k)) (items q ++ data)
       /\ updatedDropRecord_ q' = (if k =? 0 then updatedDropRecord_ q else Some (first q' - 1))
       /\ q_ok q' /\ sent_ok q')
  /\ (forall q', erase_front q = Some q' ->
       first q' = first q + kBatchSize /\ items q' = drop (Z.to_nat kBatchSize) (items q)
       /\ q_ok q').
Proof.
  assert (forall x : Queue U, zlen (items x) = zlen (vals x)) as Hz.
  { intros x. unfold items, zlen. by rewrite length_map. }
  split.
  - intros skip data h Hskip Hn.
    destruct (addDataAll_spec HasEmitterID DataSize sizeofEntry skip data h q Hq Hsent Hskip Hn)
      as (ids & q1 & Hgo & H1 & Hs1 & Hf1 & Hv1 & Hd1 & _ & Hids).
    destruct (dropOverflowing_spec q1 H1 Hs1) as (H2 & Hs2 & _ & Hf2 & Hv2 & Hd2).
    exists ids, (Z.of_nat (n_dropped q1)), (notifyAll (dropOverflowingUpdates q1)).
    unfold addDataToQueue. rewrite Hgo, R_bind_ok. cbn [fst snd]. rewrite Hz.
    change (first (notifyAll ?x)) with (first x). change (items (notifyAll ?x)) with (items x).
    split; [done |]. split; [exact Hids |]. split; [lia |]. split; [by rewrite Hf2, Hf1 |].
    split.
    { unfold items. rewrite Hv2, Hv1, <- skipn_map, map_app, map_map.
      f_equal. f_equal. rewrite <- (map_id data) at 2. by apply map_ext. }
    split; [by rewrite Hf2, <- Hd1 |]. split; [by apply emit_ok, set_notifiers_ok | exact Hs2].
  - intros q' He. destruct (erase_front_spec q q' Hq He) as (H1 & Hf1 & Hv1 & _).
    split_and!; [done | | done]. unfold items. by rewrite Hv1, skipn_map.
Qed.

(** C35: No reader misses an update. Asked for the update [id], [Read] returns the drop
    record if updates from [id] on were dropped; the first chunk if [id] is older than the
    window; the chunk that holds [id] otherwise, at the right offset; and nothing, with the
    reader's notifier armed, exactly when the update does not exist yet or the queue is empty. *)
Theorem Read_window q id nt
    (Hq : q_ok q) (Hnt : forall t, nt = Some t -> is_Some (newDataNotifiers_ q !! t)) :
  exists r q', Read id nt q = Ok (r, q') /\
  match r with
  | RDrop d => updatedDropRecord_ q = Some d /\ id <= d < first q
  | RChunk i =>
      if id <? first q then i = first q /\ queue_ q <> []
      else exists c v, chunks q !! i = Some c /\ id_ c = i
           /\ znth (values c) (id - i) = Some v /\ znth (items q) (id - first q) = Some (data_ v)
  | RNothing => first q + zlen (items q) <= id \/ (id < first q /\ queue_ q = [])
  end
  /\ (r = RNothing -> forall t, nt = Some t -> newDataNotifiers_ q' !! t = Some true).
Proof.
  assert (zlen (items q) = zlen (vals q)) as Hz by (unfold items, zlen; by rewrite length_map).
  destruct (await_run nt q Hnt) as (qa & Haw & Hflag).
  assert (exists r q', read_queue id nt q = Ok (r, q') /\
    match r with
    | RDrop d => False
    | RChunk i =>
        if id <? first q then i = first q /\ queue_ q <> []
        else exists c v, chunks q !! i = Some c /\ id_ c = i
             /\ znth (values c) (id - i) = Some v /\ znth (items q) (id - first q) = Some (data_ v)
    | RNothing => first q + zlen (items q) <= id \/ (id < first q /\ queue_ q = [])
    end /\ (r = RNothing -> forall t, nt = Some t -> newDataNotifiers_ q' !! t = Some true)) as Hrq.
  { destruct (decide (id < first q)) as [Hlt | Hge].
    - rewrite (proj2 (Z.ltb_lt _ _)) by done. unfold read_queue.
      destruct (queue_ q) as [| f l] eqn:Eq; [exists RNothing, qa; split_and!; [done | by right | done] |].
      pose proof (queue_head q f l Hq Eq) as ->. rewrite (proj2 (Z.ltb_lt _ _)) by done.
      by exists (RChunk (first q)), q.
    - destruct (decide (id < first q + zlen (vals q))) as [Hin | Hout].
      + destruct (read_queue_inside id nt q Hq) as (i & c & v & Hrun & Hc & Eid & Hv & Hvv); [lia |].
        exists (RChunk i), q. rewrite (proj2 (Z.ltb_ge _ _)) by lia. split_and!; [done | | done].
        exists c, v. split_and!; try done. unfold items, znth in *. case_decide; [| done].
        change (map data_ (vals q)) with (data_ <$> vals q). by rewrite list_lookup_fmap, Hvv.
      + rewrite (read_queue_behind id nt q Hq) by lia. exists RNothing, qa.
        split_and!; [done | left; lia | done]. }
  destruct Hrq as (r & q' & Hrun & Hr & Hn). unfold Read.
  destruct (updatedDropRecord_ q) as [d |] eqn:Ed.
  - destruct (Z.leb_spec id d) as [Hle | Hgt].
    + exists (RDrop d), q. pose proof (ok_drop _ Hq d Ed). split_and!; [done | done | lia | lia | done].
    + exists r, q'. split_and!; [done | by destruct r | done].
  - exists r, q'. split_and!; [done | by destruct r | done].
Qed.
End Log.

(** ** Witnesses *)

Definition no_emitter (d : Z) : bool := false.
Definition ten_bytes (d : Z) : Z := 10.

(** A queue with three updates. *)
Definition sample_queue : Queue Z :=
  match addDataAll no_emitter ten_bytes 64 true [70; 80; 90] None (new_UpdatesQueue 0) with
  | Ok (_, q) => q
  | Fail _ => new_UpdatesQueue 0
  end.

Lemma sample_queue_ok : q_ok sample_queue /\ sent_ok sample_queue.
Proof.
  destruct (addDataAll_spec no_emitter ten_bytes 64 true [70; 80; 90] None (new_UpdatesQueue 0))
    as (ids & q & Hgo & Hq & Hs & _); try done.
  - apply q_ok_new.
  - assert (sample_queue = q) as -> by (unfold sample_queue; by rewrite Hgo). by split.
Qed.

Example queue_is_log_window_witness :
  exists ids k q', addDataToQueue no_emitter ten_bytes 64 false [100; 110] (Some 1) sample_queue
                   = Ok (ids, q')
    /\ znth ids 1 = Some 4
    /\ items q' = drop (Z.to_nat (kBatchSize * k)) [70; 80; 90; 100; 110].
Proof.
  destruct (proj1 (queue_is_log_window no_emitter ten_bytes 64 sample_queue
              (proj1 sample_queue_ok) (proj2 sample_queue_ok)) false [100; 110] (Some 1))
    as (ids & k & q' & Hgo & Hids & _ & _ & Hi & _).
  - discriminate.
  - reflexivity.
  - exists ids, k, q'. split; [exact Hgo |]. split; [| exact Hi].
    rewrite Hids by (split; reflexivity || discriminate). reflexivity.
Defined.

Example Read_window_witness :
  exists r q', Read 1 None sample_queue = Ok (r, q') /\ r = RChunk 0.
Proof.
  destruct (Read_window sample_queue 1 None (proj1 sample_queue_ok)) as (r & q' & Hrun & _).
  - discriminate.
  - exists r, q'. split; [exact Hrun |]. vm_compute in Hrun. injection Hrun as <- _. reflexivity.
Defined.
