(* ===== verification/UpdatesQueueSys.v ===== *)
(** Concurrent use of the replication queue of a leader.

    The system is a queue and the pending atomic steps of the threads that are inside of
    [OnUpdateHandled]; pushes, answers, invalidations and the steps of all the threads
    interleave freely. Every follower answers an update at most once. Proved: in every
    reachable state the accounting of the results is exact, so no assertion fails, no handler
    is called twice or after its [PushAndWait] has returned; and every [PushAndWait] of a
    cluster with an odd number of nodes returns once the followers have answered. *)

From S2P Require Import Prelude Raft ReplVotes UpdatesQueue UpdatesQueueInv.

Section Sys.
Context {U : Type} (HasEmitterID : U -> bool) (DataSize : U -> Z) (sizeofEntry : Z).
Context (n : Z).          (* nodes of the cluster, the leader included *)

Implicit Types (q : Queue U) (c : QueueEntry U) (v : Value U) (P : list Z).

Definition cc : Z := GetConsensusForN n.

(** ** The accounting *)

(** The result of the update is on its way or has been sent, or will never be. *)
Definition finished v : bool := negb (requireResult (replication_ v)) || voted cc (replication_ v).

Definition in_block (i id : Z) : bool := (i <=? id) && (id <? i + kBatchSize).

(** [P]: the ids whose verdict is given, and whose handler is not called yet. *)
Record entry_ok P (id : Z) v : Prop := {
  eo_sum : approves (replication_ v) + errors (replication_ v) = 1 + replicas (replication_ v);
  eo_range : 1 <= approves (replication_ v) /\ 0 <= errors (replication_ v)
             /\ 0 <= replicas (replication_ v) <= n - 1;
  eo_emit : replicas (replication_ v) = n - 1 -> replicatedToEmitter (replication_ v) = true;
  eo_pend : id ∈ P -> requireResult (replication_ v) = true /\ voted cc (replication_ v) = true
}.

Definition handler_ok q P (id : Z) v : Prop :=
  forall h, onResult_ v = Some h ->
    requireResult (replication_ v) = true /\ (voted cc (replication_ v) = true -> id ∈ P)
    /\ is_Some (waiters q !! h).

Definition chunk_acc P c : Prop :=
  resultsSent_ c + count (in_block (id_ c)) P = count finished (values c).

Definition handled_by (h : Z) v : bool := bool_decide (onResult_ v = Some h).

(** [rem h] updates of the waiter [h] are still to be pushed. *)
Record inv q P (rem : Z -> Z) : Prop := {
  in_q : q_ok q;
  in_sent : sent_ok q;
  in_nodup : NoDup P;
  in_pend : forall id, id ∈ P -> 0 <= id < first q + zlen (vals q);
  in_align : (kBatchSize | nextChunkID_ q);
  in_store : forall i c, chunks q !! i = Some c ->
             0 <= i /\ (kBatchSize | i) /\ (i ∈ queue_ q \/ i + kBatchSize <= first q);
  in_entry : forall i c j v, chunks q !! i = Some c -> znth (values c) j = Some v ->
             entry_ok P (i + j) v;
  in_handler : forall k v, znth (vals q) k = Some v -> handler_ok q P (first q + k) v;
  in_acc : forall i c, i ∈ queue_ q -> chunks q !! i = Some c -> chunk_acc P c;
  in_wait : forall h w, waiters q !! h = Some w ->
            w_executedCnt w + count (handled_by h) (vals q) + rem h = w_dataSize w
}.

Lemma in_block_true i id : in_block i id = true <-> i <= id < i + kBatchSize.
Proof. unfold in_block. lia. Qed.

#[global] Instance inv_perm : Proper ((=) ==> (≡ₚ) ==> (=) ==> impl) inv.
Proof.
  intros q ? <- P P' HP rem ? <- [H1 H2 H3 H4 Ha H5 H6 H7 H8 H9]. split; try done.
  - by rewrite <- HP.
  - intros id. rewrite <- HP. apply H4.
  - intros i c j v Hc Hv. destruct (H6 i c j v Hc Hv) as [E1 E2 Ee E3]. split; try done.
    by rewrite <- HP.
  - intros k v Hv h Hh. destruct (H7 k v Hv h Hh) as (A & B & C). by rewrite <- HP.
  - intros i c Hi Hc. unfold chunk_acc. rewrite <- (count_perm _ _ _ HP). by apply (H8 i).
Qed.

(** Only the ids, the chunks, the waiters and the drop record matter. *)
Lemma inv_frame q q' P rem :
  inv q P rem -> q_ok q' -> queue_ q' = queue_ q -> chunks q' = chunks q ->
  nextChunkID_ q' = nextChunkID_ q -> waiters q' = waiters q -> inv q' P rem.
Proof.
  intros [H1 H2 H3 H4 Ha H5 H6 H7 H8 H9] Hok Eq Ec En Ew.
  assert (first q' = first q) as Ef by (by apply first_frame).
  assert (vals q' = vals q) as Ev.
  { apply vals_ext; [done |]. intros i _. unfold chunk_vals. by rewrite Ec. }
  split; rewrite ?Ef, ?Ev, ?Eq, ?Ec, ?Ew, ?En; try done.
  - intros i c Hc. apply (H2 i). by rewrite <- Ec.
  - intros k v Hv h Hh. rewrite Ew. by apply (H7 k v Hv h).
Qed.

(** Chunks stay in the store. *)
Definition grows q q' : Prop := forall i, is_Some (chunks q !! i) -> is_Some (chunks q' !! i).

Lemma grows_refl q : grows q q.
Proof. by intros i. Qed.

Lemma grows_trans q q' q'' : grows q q' -> grows q' q'' -> grows q q''.
Proof. intros H H' i Hi. by apply H', H. Qed.

Lemma grows_set_chunk q q' c : chunks q' = <[id_ c := c]> (chunks q) -> grows q q'.
Proof.
  intros E i Hi. rewrite E. destruct (decide (id_ c = i)) as [-> | Hne].
  - rewrite lookup_insert_eq. by eexists.
  - by rewrite lookup_insert_ne.
Qed.

(** Replacing a chunk of the queue by one with other entries of the same number. *)
Lemma vals_set_chunk q c c' j v' :
  q_ok q -> id_ c ∈ queue_ q -> chunks q !! id_ c = Some c -> same_shape c c' ->
  values c' = zset (values c) j v' -> 0 <= j < Count c ->
  vals (set_chunk c' q) = zset (vals q) (id_ c + j - first q) v'.
Proof.
  intros H Hi Hc Hs Hv Hj. pose proof (set_chunk_ok q c c' H Hc Hs) as H'.
  destruct Hs as (Eid & Ecnt & Esz).
  destruct (znth_lt (values c) j Hj) as [v Hvj].
  destruct (chunk_pos q _ c j v H Hi Hc Hvj) as (k & Ek & Hk & Hjb & Hpos).
  pose proof (znth_Some _ _ _ Hpos) as Hb.
  assert (forall i, chunk_vals (set_chunk c' q) i = if decide (i = id_ c) then values c' else chunk_vals q i) as Ecv.
  { intros i. unfold chunk_vals, set_chunk. cbn [chunks]. rewrite Eid. case_decide as He.
    - by rewrite He, lookup_insert_eq.
    - by rewrite lookup_insert_ne by done. }
  assert (zlen (vals (set_chunk c' q)) = zlen (vals q)) as El.
  { unfold vals. change (queue_ (set_chunk c' q)) with (queue_ q). clear -Ecv Hc Ecnt.
    induction (queue_ q) as [| i l IH]; [done |]. cbn [map concat]. rewrite !zlen_app, IH, Ecv.
    f_equal. case_decide as He; [| done]. unfold chunk_vals. by rewrite He, Hc. }
  apply znth_ext; [by rewrite El, zlen_zset |]. intros p Hp.
  set (kp := Z.to_nat (p / kBatchSize)).
  assert (p = kBatchSize * Z.of_nat kp + p mod kBatchSize) as Ep.
  { unfold kp. rewrite Z2Nat.id by (apply Z.div_pos; [lia | done]). by apply Z.div_mod. }
  pose proof (Z.mod_pos_bound p kBatchSize ltac:(done)) as Hm.
  rewrite Ep at 1. rewrite vals_lookup by done.
  change (queue_ (set_chunk c' q)) with (queue_ q).
  destruct (decide (p = id_ c + j - first q)) as [He | Hne].
  - rewrite <- He, znth_zset_eq by lia.
    assert (kp = k) as -> by (unfold kBatchSize in *; lia).
    assert (p mod kBatchSize = j) as -> by (unfold kBatchSize in *; lia).
    rewrite queue_lookup by done. cbn [mbind option_bind]. rewrite Ecv, decide_True by done.
    rewrite Hv. by apply znth_zset_eq.
  - rewrite znth_zset_ne by lia.
    replace (znth (vals q) p) with (znth (vals q) (kBatchSize * Z.of_nat kp + p mod kBatchSize))
      by (by rewrite <- Ep).
    rewrite vals_lookup by done.
    destruct (queue_ q !! kp) as [i |] eqn:Ei; [| done]. cbn [mbind option_bind].
    rewrite Ecv. case_decide as He; [| done].
    pose proof (lookup_lt_Some _ _ _ Ei). rewrite queue_lookup in Ei by done.
    injection Ei as <-. rewrite Hv, znth_zset_ne; [| lia |].
    + unfold chunk_vals. by rewrite He, Hc.
    + intros Hjp. apply Hne. rewrite <- He. lia.
Qed.

(** ** Pushing *)

Hypothesis n_range : 2 <= n < 65536.

Lemma next_id q : q_ok q -> first q + zlen (vals q) <= nextChunkID_ q.
Proof. intros H. pose proof (vals_bound q H). unfold first. lia. Qed.

Lemma inv_new_chunk q P rem :
  inv q P rem -> nextChunkID_ q + kBatchSize < 2 ^ 62 -> new_room q = true ->
  inv (new_chunk sizeofEntry q) P rem.
Proof.
  intros [H1 H2 H3 H4 Ha H5 H6 H7 H8 H9] Hn Hr.
  destruct (new_chunk_ok sizeofEntry q H1 Hn Hr) as (G1 & Ef & Ev & En). cbv zeta in *.
  set (q' := new_chunk sizeofEntry q) in *.
  set (e := mk_entry (nextChunkID_ q) [] sizeofEntry 0 0 false : QueueEntry U).
  assert (chunks q' = <[nextChunkID_ q := e]> (chunks q)) as Ec by done.
  assert (queue_ q' = queue_ q ++ [nextChunkID_ q]) as Eq by done.
  split; rewrite ?Ef, ?Ev, ?Eq; try done.
  - intros i c. rewrite Ec, lookup_insert_Some. intros [[_ <-] | [_ Hc]]; [done | by apply (H2 i)].
  - rewrite En. by apply Z.divide_add_r.
  - intros i c. rewrite Ec, lookup_insert_Some, elem_of_app.
    intros [[<- _] | [_ Hc]].
    + pose proof (next_id q H1). pose proof (zlen_nonneg (vals q)). destruct (ok_bounds _ H1).
      split_and!; [lia | done |]. left. right. by apply list_elem_of_singleton.
    + destruct (H5 i c Hc) as (? & ? & [? | ?]); auto.
  - intros i c j v. rewrite Ec, lookup_insert_Some. intros [[_ <-] | [_ Hc]] Hv.
    + apply znth_Some in Hv. cbn in Hv. unfold zlen in Hv. cbn in Hv. lia.
    + by apply (H6 i c).
  - intros i c Hi. rewrite Ec, lookup_insert_Some. intros [[<- <-] | [Hne Hc]].
    + unfold chunk_acc. cbn [resultsSent_ id_ values e]. rewrite count_nil.
      rewrite (proj2 (count_zero _ P)); [done |]. intros id Hid. specialize (H4 id Hid).
      pose proof (next_id q H1). unfold in_block. lia.
    + apply (H8 i); [| done]. apply elem_of_app in Hi as [Hi | Hi%list_elem_of_singleton]; done.
Qed.

Lemma new_not_voted skip b : voted cc (new_counters skip b) = false.
Proof.
  pose proof (new_counters_voted n b ltac:(lia)) as H. unfold voted in *. by destruct skip.
Qed.

Lemma finished_new skip h (d : U) : finished (new_value HasEmitterID skip h d) = skip.
Proof.
  unfold finished, new_value. cbn [replication_]. rewrite new_not_voted. by destruct skip.
Qed.

Lemma entry_ok_new P id skip h (d : U) :
  id ∉ P -> entry_ok P id (new_value HasEmitterID skip h d).
Proof. intros Hid. split; cbn; try lia. by intros. Qed.

Lemma inv_grow q c d h skip P rem :
  inv q P rem -> room q c -> (skip = true -> h = None) ->
  (forall x, h = Some x -> is_Some (waiters q !! x)) ->
  inv (set_size (dataSize_ q + DataSize d) (set_chunk (appended HasEmitterID DataSize skip d h c) q)) P
    (fun x => rem x - b2z (bool_decide (h = Some x))).
Proof.
  intros [H1 H2 H3 H4 Ha H5 H6 H7 H8 H9] Hroom Hskip Hw.
  destruct (grow_queue_ok HasEmitterID DataSize q c d h skip H1 Hroom) as (G1 & Ef & Ev).
  pose proof (grow_sent HasEmitterID DataSize q c d h skip H2 Hroom) as G2.
  pose proof (getNextUpdateID_spec q H1) as Hid. cbv zeta in *.
  set (c' := appended HasEmitterID DataSize skip d h c) in *.
  set (q' := set_size _ _) in *.
  destruct Hroom as (l & Hq & Hc & Hn & Hl & Hlt).
  assert (getNextUpdateID q = id_ c + Count c) as Hid'.
  { unfold getNextUpdateID, back. rewrite Hq, last_snoc. cbn [mbind option_bind]. by rewrite Hc. }
  assert (chunks q' = <[id_ c := c']> (chunks q)) as Ec by done.
  assert (queue_ q' = queue_ q) as Eq by done.
  assert (waiters q' = waiters q) as Ew by done.
  assert (values c' = values c ++ [new_value HasEmitterID skip h d]) as Ecv by done.
  assert (id_ c + Count c ∉ P) as Hnew by (intros Hp; specialize (H4 _ Hp); lia).
  split; rewrite ?Ef, ?Ev, ?Eq, ?Ew; try done.
  - intros id Hid0. specialize (H4 id Hid0). rewrite zlen_app.
    pose proof (zlen_nonneg [new_value HasEmitterID skip h d]). lia.
  - intros i x. rewrite Ec, lookup_insert_Some. intros [[<- <-] | [_ Hx]]; [| by apply (H5 i x)].
    by apply (H5 _ c).
  - intros i x j v. rewrite Ec, lookup_insert_Some. intros [[<- <-] | [_ Hx]]; [| by apply H6].
    rewrite Ecv. intros Hv. destruct (decide (j < zlen (values c))) as [Hj | Hj].
    + rewrite znth_app_l in Hv by done. by apply (H6 _ c).
    + rewrite znth_app_r in Hv by lia. apply znth_Some in Hv as Hb.
      change (zlen [new_value HasEmitterID skip h d]) with 1 in Hb. assert (j = Count c) as -> by (unfold Count; lia).
      unfold Count in Hv. rewrite Z.sub_diag in Hv. cbn in Hv. injection Hv as <-.
      by apply entry_ok_new.
  - intros k v Hv. destruct (decide (k < zlen (vals q))) as [Hk | Hk].
    + rewrite znth_app_l in Hv by done. intros x Hx. by apply (H7 k v Hv x).
    + rewrite znth_app_r in Hv by lia. apply znth_Some in Hv as Hb.
      change (zlen [new_value HasEmitterID skip h d]) with 1 in Hb. assert (k = zlen (vals q)) as -> by lia.
      rewrite Z.sub_diag in Hv. cbn in Hv. injection Hv as <-.
      intros x Hx. cbn [new_value onResult_ replication_] in *. rewrite new_not_voted.
      split_and!; [| done | by apply Hw].
      destruct skip; [| done]. rewrite Hskip in Hx by done. done.
  - intros i x Hi. rewrite Ec, lookup_insert_Some. intros [[<- <-] | [Hne Hx]]; [| by apply (H8 i)].
    pose proof (H8 _ c Hi Hc) as Hacc. unfold chunk_acc in *. rewrite Ecv, count_app, count_cons, count_nil.
    rewrite finished_new. change (id_ c') with (id_ c).
    assert (resultsSent_ c' = resultsSent_ c + b2z skip) as ->; [| lia].
    cbn [c' appended resultsSent_]. pose proof (H2 _ c Hc) as Hr. destruct skip; cbn [b2z]; [| lia].
    unfold u16. rewrite wrap_id; [done |]. unfold kBatchSize in Hlt. lia.
  - intros x w Hx. rewrite count_app, count_cons, count_nil. cbn [handled_by new_value onResult_].
    specialize (H9 x w Hx). unfold handled_by in *. cbn [new_value onResult_]. lia.
Qed.

(** One pushed update. *)
Lemma inv_addDataImpl q P rem skip d h :
  inv q P rem -> nextChunkID_ q + kBatchSize < 2 ^ 62 -> (skip = true -> h = None) ->
  (forall x, h = Some x -> is_Some (waiters q !! x)) ->
  exists id q', addDataImpl HasEmitterID DataSize sizeofEntry skip d h q = Ok (id, q')
    /\ inv q' P (fun x => rem x - b2z (bool_decide (h = Some x)))
    /\ nextChunkID_ q' <= nextChunkID_ q + kBatchSize /\ waiters q' = waiters q /\ grows q q'.
Proof.
  intros H Hn Hskip Hw. rewrite addDataImpl_run by (apply H || done).
  assert (inv (with_room sizeofEntry q) P rem /\ room (with_room sizeofEntry q) (room_chunk sizeofEntry q)
          /\ nextChunkID_ (with_room sizeofEntry q) <= nextChunkID_ q + kBatchSize
          /\ waiters (with_room sizeofEntry q) = waiters q
          /\ grows q (with_room sizeofEntry q)) as (H1 & Hroom & Hn1 & Hw1 & Hg1).
  { pose proof (back_with_room sizeofEntry q) as Hb.
    unfold with_room. fold (new_room q). destruct (new_room q) eqn:Er.
    - pose proof (inv_new_chunk q P rem H Hn Er) as H1.
      destruct (new_chunk_ok sizeofEntry q (in_q _ _ _ H) Hn Er) as (_ & _ & _ & En).
      split_and!; [done | | cbv zeta in En; lia | done | by eapply (grows_set_chunk q)].
      apply room_back; [apply H1 | |]; unfold with_room in Hb; fold (new_room q) in Hb;
        rewrite Er in Hb; [done |].
      rewrite back_new_chunk in Hb. by injection Hb as <-.
    - split_and!; [done | | unfold kBatchSize; lia | done | apply grows_refl].
      unfold with_room in Hb. fold (new_room q) in Hb. rewrite Er in Hb.
      apply room_back; [apply H | done |]. unfold new_room in Er. by rewrite Hb in Er. }
  do 2 eexists. split; [reflexivity |]. split_and!; [| exact Hn1 | exact Hw1 |].
  2:{ eapply grows_trans; [exact Hg1 |]. by eapply grows_set_chunk. }
  eapply inv_frame; [apply (inv_grow _ (room_chunk sizeofEntry q) d h skip P rem H1 Hroom Hskip) | ..];
    try done; [by rewrite Hw1 |].
  apply emit_ok. by apply grow_queue_ok; [apply H1 |].
Qed.

Lemma inv_addDataAll data q P rem skip h :
  inv q P rem -> nextChunkID_ q + kBatchSize * zlen data < 2 ^ 62 -> (skip = true -> h = None) ->
  (forall x, h = Some x -> is_Some (waiters q !! x)) ->
  exists ids q', addDataAll HasEmitterID DataSize sizeofEntry skip data h q = Ok (ids, q')
    /\ inv q' P (fun x => rem x - zlen data * b2z (bool_decide (h = Some x)))
    /\ waiters q' = waiters q /\ grows q q'.
Proof.
  revert q rem. induction data as [| d data IH]; intros q rem H Hn Hskip Hw.
  - exists [], q. split_and!; [done | | done | apply grows_refl]. destruct H; split; try done.
    intros x w Hx. change (zlen []) with 0. specialize (in_wait0 x w Hx). lia.
  - rewrite zlen_cons in Hn. pose proof (zlen_nonneg data).
    destruct (inv_addDataImpl q P rem skip d h H) as (id & q1 & Hadd & H1 & Hn1 & Hw1 & Hg1);
      [unfold kBatchSize in *; lia | done | done |].
    destruct (IH q1 _ H1) as (ids & q2 & Hgo & H2 & Hw2 & Hg2);
      [unfold kBatchSize in *; lia | done | by rewrite Hw1 |].
    exists (id :: ids), q2. cbn [addDataAll]. rewrite Hadd, R_bind_ok. cbn [fst snd].
    rewrite Hgo, R_bind_ok. split_and!; [done | | by rewrite Hw2 | by eapply grows_trans].
    destruct H2; split; try done. intros x w Hx. specialize (in_wait0 x w Hx).
    rewrite zlen_cons. lia.
Qed.

(** ** Leaving the queue *)

(** A chunk whose results are all sent has no handler left. *)
Lemma sent_no_handler q P rem i c v :
  inv q P rem -> i ∈ queue_ q -> chunks q !! i = Some c -> isAllResultsSent c = true ->
  v ∈ values c -> onResult_ v = None.
Proof.
  intros H Hi Hc Hs Hv. pose proof (in_acc _ _ _ H i c Hi Hc) as Hacc. unfold chunk_acc in Hacc.
  apply Z.eqb_eq in Hs. unfold Count in Hs.
  pose proof (count_bound finished (values c)). pose proof (count_bound (in_block (id_ c)) P).
  assert (finished v = true) as Hf by (apply (count_all finished (values c)); [lia | done]).
  assert (count (in_block (id_ c)) P = 0) as Hz by lia.
  destruct (onResult_ v) as [h |] eqn:Eh; [| done].
  apply list_elem_of_lookup in Hv as [j Hj]. rewrite <- znth_lookup in Hj.
  destruct (chunk_pos q i c _ v (in_q _ _ _ H) Hi Hc Hj) as (k & Ek & _ & Hb & Hpos).
  destruct (in_handler _ _ _ H _ v Hpos h Eh) as (Hr & Hvp & _).
  unfold finished in Hf. rewrite Hr in Hf. cbn [negb orb] in Hf. specialize (Hvp Hf).
  pose proof (proj1 (count_zero _ P) Hz _ Hvp) as Hout.
  destruct (ok_chunk _ (in_q _ _ _ H) i c Hc) as (Hid & _ & _). rewrite Hid in Hout.
  unfold in_block in Hout. lia.
Qed.

Lemma zlen_drop {A} (l : list A) m : 0 <= m -> zlen (drop (Z.to_nat m) l) = Z.max 0 (zlen l - m).
Proof. intros. unfold zlen. rewrite length_drop. lia. Qed.

Lemma znth_drop {A} (l : list A) m k :
  0 <= m -> 0 <= k -> znth (drop (Z.to_nat m) l) k = znth l (m + k).
Proof.
  intros. unfold znth. rewrite !decide_True by lia. rewrite lookup_drop. f_equal. lia.
Qed.

Lemma inv_shift q q' k P rem :
  inv q P rem -> (k <= length (queue_ q))%nat -> q_ok q' ->
  queue_ q' = drop k (queue_ q) -> chunks q' = chunks q -> waiters q' = waiters q ->
  first q' = first q + kBatchSize * Z.of_nat k ->
  vals q' = drop (Z.to_nat (kBatchSize * Z.of_nat k)) (vals q) ->
  (forall i, i ∈ take k (queue_ q) ->
     exists c, chunks q !! i = Some c /\ isAllResultsSent c = true) ->
  inv q' P rem.
Proof.
  intros H Hk Hok Eq Ec Ew Ef Ev Hs. pose proof H as [H1 H2 H3 H4 Ha H5 H6 H7 H8 H9].
  set (m := kBatchSize * Z.of_nat k) in *. assert (0 <= m) as Hm by (unfold m, kBatchSize; lia).
  split; rewrite ?Ec, ?Ew; try done.
  - intros i c. rewrite Ec. apply H2.
  - intros id Hid. specialize (H4 id Hid). rewrite Ef, Ev, zlen_drop by done. lia.
  - assert (nextChunkID_ q' = nextChunkID_ q) as En.
    { unfold first, zlen in Ef. rewrite Eq, length_drop in Ef. unfold m, kBatchSize in *. lia. }
    by rewrite En.
  - intros i c Hc. destruct (H5 i c Hc) as (Hi0 & Hia & Hi). split_and!; [done | done |].
    destruct Hi as [Hi | Hi]; [| right; lia].
    rewrite <- (take_drop k (queue_ q)), <- Eq in Hi. apply elem_of_app in Hi as [Hi | Hi]; [right | by left].
    apply list_elem_of_lookup in Hi as [j Hj]. pose proof (lookup_lt_Some _ _ _ Hj) as Hl.
    rewrite length_take in Hl. rewrite lookup_take_lt, queue_lookup in Hj by (done || lia).
    injection Hj as <-. rewrite Ef. unfold m, kBatchSize. lia.
  - intros p v Hv. pose proof (znth_Some _ _ _ Hv). rewrite Ev, znth_drop in Hv by lia. intros h Hh.
    rewrite Ew, Ef, <- Z.add_assoc. by apply (H7 (m + p) v).
  - intros i c Hi. apply H8. rewrite Eq in Hi. rewrite <- (take_drop k (queue_ q)).
    apply elem_of_app. by right.
  - intros h w Hw. rewrite <- (H9 h w Hw), Ev.
    rewrite <- (take_drop (Z.to_nat m) (vals q)) at 2. rewrite count_app.
    rewrite (proj2 (count_zero (handled_by h) (take _ (vals q)))); [lia |].
    intros v Hv. unfold handled_by. apply bool_decide_eq_false. apply list_elem_of_lookup in Hv as [p Hp].
    pose proof (lookup_lt_Some _ _ _ Hp) as Hl. rewrite length_take in Hl.
    rewrite lookup_take_lt, <- znth_lookup in Hp by lia.
    destruct (chunk_at q (first q + Z.of_nat p) H1) as (kc & c & v' & Hkc & Hqk & Hc & _ & _ & Hb & Hvc & Hvv).
    { apply znth_Some in Hp. lia. }
    replace (first q + Z.of_nat p - first q) with (Z.of_nat p) in Hvv by lia.
    assert (v' = v) as -> by congruence.
    destruct (Hs (first q + kBatchSize * Z.of_nat kc)) as (c' & Hc' & Hsent).
    { apply list_elem_of_lookup. exists kc. rewrite lookup_take_lt; [done |].
      unfold m, kBatchSize in *. lia. }
    assert (c' = c) as -> by congruence.
    rewrite (sent_no_handler q P rem (first q + kBatchSize * Z.of_nat kc) c v H); try done.
    + apply list_elem_of_lookup. by exists kc.
    + apply list_elem_of_lookup. unfold znth in Hvc. case_decide; [| done]. eexists. exact Hvc.
Qed.

Lemma inv_erase_front q q' P rem :
  inv q P rem -> erase_front q = Some q' -> inv q' P rem.
Proof.
  intros H He. destruct (erase_front_spec q q' (in_q _ _ _ H) He) as
    (Hok & Ef & Ev & Ec & Ew & _ & i & c & Eq & Hc & Hs).
  apply (inv_shift q q' 1 P rem); try done.
  - rewrite Eq. cbn. lia.
  - by rewrite Eq.
  - intros j Hj. rewrite Eq in Hj. change (take 1 (i :: queue_ q')) with [i] in Hj.
    apply list_elem_of_singleton in Hj as ->. by exists c.
Qed.

(** Changing a chunk without changing its updates. *)
Lemma inv_set_chunk q c c' P rem :
  inv q P rem -> chunks q !! id_ c = Some c -> same_shape c c' -> values c' = values c ->
  resultsSent_ c' = resultsSent_ c -> inv (set_chunk c' q) P rem.
Proof.
  intros H Hc Hsh Ev Er. pose proof (set_chunk_ok q c c' (in_q _ _ _ H) Hc Hsh) as Hok.
  destruct Hsh as (Eid & Ecnt & _). destruct H as [H1 H2 H3 H4 Ha H5 H6 H7 H8 H9].
  assert (vals (set_chunk c' q) = vals q) as Evs.
  { apply vals_ext; [done |]. intros i _. unfold chunk_vals, set_chunk. cbn [chunks].
    rewrite Eid. destruct (decide (i = id_ c)) as [-> | Hi].
    - by rewrite lookup_insert_eq, Hc, Ev.
    - by rewrite lookup_insert_ne. }
  assert (forall i d, chunks (set_chunk c' q) !! i = Some d ->
            exists d', chunks q !! i = Some d' /\ values d = values d' /\ id_ d = id_ d'
                       /\ Count d = Count d' /\ resultsSent_ d = resultsSent_ d') as Hlook.
  { intros i d. unfold set_chunk. cbn [chunks]. rewrite Eid, lookup_insert_Some.
    intros [[<- <-] | [_ Hd]]; [by exists c | by exists d]. }
  split; rewrite ?Evs; try done.
  - intros i d Hd. destruct (Hlook i d Hd) as (d' & Hd' & _ & _ & E1 & E2).
    rewrite E1, E2. by apply (H2 i).
  - intros i d Hd. destruct (Hlook i d Hd) as (d' & Hd' & _). by apply (H5 i d').
  - intros i d j v Hd. destruct (Hlook i d Hd) as (d' & Hd' & E & _). rewrite E. by apply (H6 i d').
  - intros i d Hi Hd. destruct (Hlook i d Hd) as (d' & Hd' & E1 & E2 & _ & E3).
    unfold chunk_acc. rewrite E1, E2, E3. by apply (H8 i d').
Qed.

Lemma inv_invalidate q l P rem :
  inv q P rem ->
  inv (foldr invalidate_chunk q l) P rem /\ waiters (foldr invalidate_chunk q l) = waiters q
  /\ nextChunkID_ (foldr invalidate_chunk q l) = nextChunkID_ q
  /\ queue_ (foldr invalidate_chunk q l) = queue_ q
  /\ forall i c, chunks q !! i = Some c -> exists c', chunks (foldr invalidate_chunk q l) !! i = Some c'
       /\ values c' = values c /\ resultsSent_ c' = resultsSent_ c.
Proof.
  intros H. induction l as [| i l IH]; cbn [foldr].
  { split_and!; try done. intros i c Hc. by exists c. }
  destruct IH as (H1 & Hw1 & Hn1 & Hq1 & Hc1). unfold invalidate_chunk at 1 3 5 7 9.
  destruct (chunks (foldr invalidate_chunk q l) !! i) as [c |] eqn:Ec; [| done].
  destruct (ok_chunk _ (in_q _ _ _ H1) i c Ec) as (Hid & _ & _). split_and!; try done.
  - apply (inv_set_chunk _ c); try done. by rewrite Hid.
  - intros j d Hd. destruct (Hc1 j d Hd) as (d' & Hd' & E1 & E2).
    unfold set_chunk. cbn [chunks markInvalidated id_]. rewrite Hid.
    destruct (decide (i = j)) as [-> | Hij].
    + rewrite lookup_insert_eq. exists (markInvalidated c). assert (d' = c) as -> by congruence.
      done.
    + rewrite lookup_insert_ne by done. by exists d'.
Qed.

Lemma inv_drop q P rem :
  inv q P rem -> inv (dropOverflowingUpdates q) P rem
  /\ waiters (dropOverflowingUpdates q) = waiters q /\ grows q (dropOverflowingUpdates q).
Proof.
  intros H. pose proof H as [H1 H2 _ _ _ _ _ _ _ _].
  destruct (dropOverflowing_spec q H1 H2) as (Hok & _ & Hk & Ef & Ev & _).
  unfold n_dropped in *. destruct (overflowing q) eqn:Eo.
  2:{ unfold dropOverflowingUpdates. fold (overflowing q). rewrite Eo. split_and!; [done | done | apply grows_refl]. }
  destruct (skipable_prefix q (queue_ q)) as (k & Hk' & Hsk & Hall).
  { intros i Hi. destruct (ok_live _ H1 i Hi) as (c & Hc & _). by exists c. }
  destruct (inv_invalidate q (take k (queue_ q)) P rem H) as (Hi1 & Hw1 & Hn1 & Hq1 & Hc1).
  rewrite Hsk, length_take, Nat.min_l in * by done.
  set (q1 := foldr invalidate_chunk q (take k (queue_ q))) in *.
  assert (queue_ (dropOverflowingUpdates q) = drop k (queue_ q)
          /\ chunks (dropOverflowingUpdates q) = chunks q1
          /\ waiters (dropOverflowingUpdates q) = waiters q) as (Eq & Ec & Ew).
  { unfold dropOverflowingUpdates. fold (overflowing q). rewrite Eo, Hsk, length_take, Nat.min_l by done.
    rewrite invalidate_chunk_queue. fold q1. by destruct (last (take k (queue_ q))). }
  split_and!; [| done |].
  2:{ intros i [c Hc]. rewrite Ec. destruct (Hc1 i c Hc) as (c' & Hc' & _). by exists c'. }
  assert (vals q1 = vals q) as Ev1.
  { apply vals_ext; [done |]. intros i Hi. destruct (ok_live _ H1 i Hi) as (c & Hc & _).
    destruct (Hc1 i c Hc) as (c' & Hc' & E & _). unfold chunk_vals. by rewrite Hc, Hc', E. }
  apply (inv_shift q1 _ k P rem Hi1); rewrite ?Hq1; try done.
  - by rewrite Ew, <- Hw1.
  - rewrite Ef. f_equal. symmetry. by apply first_frame.
  - by rewrite Ev, Ev1.
  - intros i Hi. destruct (Hall i Hi) as (c & Hc & _ & Hs).
    destruct (Hc1 i c Hc) as (c' & Hc' & E1 & E2). exists c'. split; [done |].
    unfold isAllResultsSent, Count in *. by rewrite E1, E2.
Qed.

(** [addDataToQueue] *)
Lemma inv_addDataToQueue data q P rem skip h :
  inv q P rem -> nextChunkID_ q + kBatchSize * zlen data < 2 ^ 62 -> (skip = true -> h = None) ->
  (forall x, h = Some x -> is_Some (waiters q !! x)) ->
  exists ids q', addDataToQueue HasEmitterID DataSize sizeofEntry skip data h q = Ok (ids, q')
    /\ inv q' P (fun x => rem x - zlen data * b2z (bool_decide (h = Some x)))
    /\ waiters q' = waiters q /\ grows q q'.
Proof.
  intros H Hn Hskip Hw. destruct (inv_addDataAll data q P rem skip h H Hn Hskip Hw) as
    (ids & q1 & Hgo & H1 & Hw1 & Hg1). destruct (inv_drop q1 P _ H1) as (H2 & Hw2 & Hg2).
  exists ids, (notifyAll (dropOverflowingUpdates q1)). unfold addDataToQueue.
  rewrite Hgo, R_bind_ok.
  split_and!; [done | | by rewrite <- Hw1, <- Hw2 | by apply (grows_trans q q1)].
  apply (inv_frame (dropOverflowingUpdates q1)); try done.
  apply emit_ok, set_notifiers_ok, H2.
Qed.

(** ** Answers and results *)

(** Blocks of the store are disjoint. *)
Lemma other_block q P rem i j b :
  inv q P rem -> (exists c, chunks q !! i = Some c) -> (exists c, chunks q !! b = Some c) ->
  0 <= j < kBatchSize -> i <> b -> in_block b (i + j) = false.
Proof.
  intros H [c Hc] [d Hd] Hj Hne.
  destruct (in_store _ _ _ H i c Hc) as (_ & [x Hx] & _).
  destruct (in_store _ _ _ H b d Hd) as (_ & [y Hy] & _).
  unfold in_block, kBatchSize in *. lia.
Qed.

Lemma count_block_same (f : Z -> bool) P P' id :
  NoDup P -> NoDup P' -> f id = false -> (forall x, x <> id -> x ∈ P <-> x ∈ P') ->
  count f P = count f P'.
Proof.
  intros H H' Hf He. unfold count, zlen. f_equal. apply Permutation_length, NoDup_Permutation.
  - by apply NoDup_filter.
  - by apply NoDup_filter.
  - intros x. rewrite !list_elem_of_filter. destruct (decide (x = id)) as [-> | Hx].
    + rewrite Hf. by split; intros [? _].
    + by rewrite He.
Qed.

(** The effect on the accounting of a change of one update [v] to [v'] in the chunk [c]. *)
Record change (q : Queue U) P (c : QueueEntry U) (j : Z) (v v' : Value U) (c' : QueueEntry U)
    (W' : gmap Z Waiter) P' : Prop := {
  ch_chunk : chunks q !! id_ c = Some c;
  ch_value : znth (values c) j = Some v;
  ch_shape : same_shape c c';
  ch_values : values c' = zset (values c) j v';
  ch_nodup : NoDup P';
  ch_range : forall id, id ∈ P' -> 0 <= id < first q + zlen (vals q);
  ch_entry : entry_ok P' (id_ c + j) v';
  ch_pend : forall id, id <> id_ c + j -> id ∈ P <-> id ∈ P';
  ch_sent : 0 <= resultsSent_ c' <= Count c;
  ch_handler : id_ c ∈ queue_ q -> forall h, onResult_ v' = Some h ->
      requireResult (replication_ v') = true
      /\ (voted cc (replication_ v') = true -> id_ c + j ∈ P') /\ is_Some (W' !! h);
  ch_acc : id_ c ∈ queue_ q -> chunk_acc P' c';
  ch_some : forall h, is_Some (waiters q !! h) -> is_Some (W' !! h);
  ch_wait : forall h w', W' !! h = Some w' -> exists w, waiters q !! h = Some w
      /\ w_dataSize w' = w_dataSize w
      /\ w_executedCnt w' + (if decide (id_ c ∈ queue_ q) then b2z (handled_by h v') else 0)
         = w_executedCnt w + (if decide (id_ c ∈ queue_ q) then b2z (handled_by h v) else 0)
}.

Lemma vals_change q P rem c j v v' c' W' P' :
  inv q P rem -> change q P c j v v' c' W' P' ->
  vals (set_waiters W' (set_chunk c' q))
  = if decide (id_ c ∈ queue_ q) then zset (vals q) (id_ c + j - first q) v' else vals q.
Proof.
  intros H Hch. change (vals (set_waiters W' (set_chunk c' q))) with (vals (set_chunk c' q)).
  pose proof (znth_Some _ _ _ (ch_value _ _ _ _ _ _ _ _ _ Hch)) as Hj. case_decide as Hi.
  - destruct Hch as [C1 _ C3 C4 _ _ _ _ _ _ _ _ _].
    by apply (vals_set_chunk q c c' j v' (in_q _ _ _ H) Hi C1 C3 C4).
  - apply vals_ext; [done |]. intros b Hb. unfold chunk_vals, set_chunk. cbn [chunks].
    destruct (ch_shape _ _ _ _ _ _ _ _ _ Hch) as (-> & _). rewrite lookup_insert_ne; [done |].
    by intros <-.
Qed.

Lemma inv_change q P rem c j v v' c' W' P' :
  inv q P rem -> change q P c j v v' c' W' P' -> inv (set_waiters W' (set_chunk c' q)) P' rem.
Proof.
  intros H Hch. pose proof (vals_change _ _ _ _ _ _ _ _ _ _ H Hch) as Ev.
  destruct Hch as [C1 C2 C3 C4 C5 C6 C7 C8 C9 C10 C11 C12 C13].
  pose proof (set_chunk_ok q c c' (in_q _ _ _ H) C1 C3) as Hok. destruct C3 as (Eid & Ecnt & _).
  set (q' := set_waiters W' (set_chunk c' q)) in *.
  assert (first q' = first q) as Ef by done.
  assert (chunks q' = <[id_ c := c']> (chunks q)) as Ec by (by rewrite <- Eid).
  assert (zlen (vals q') = zlen (vals q)) as El by (rewrite Ev; case_decide; [apply zlen_zset | done]).
  pose proof (znth_Some _ _ _ C2) as Hj.
  pose proof (ok_chunk _ (in_q _ _ _ H) _ c C1) as (_ & Hle & _). unfold Count in Hle.
  assert (forall k w, znth (vals q') k = Some w ->
            (id_ c ∈ queue_ q /\ first q + k = id_ c + j /\ w = v')
            \/ (first q + k <> id_ c + j /\ znth (vals q) k = Some w)) as Hvals.
  { intros k w Hw. pose proof (znth_Some _ _ _ Hw) as Hk. rewrite Ev in Hw. case_decide as Hi.
    - destruct (decide (first q + k = id_ c + j)) as [He | Hne].
      + left. replace k with (id_ c + j - first q) in Hw by lia.
        rewrite znth_zset_eq in Hw by lia. by injection Hw.
      + right. rewrite znth_zset_ne in Hw; [done | | lia].
        destruct (chunk_pos q _ c j v (in_q _ _ _ H) Hi C1 C2) as (_ & _ & _ & _ & Hp).
        apply znth_Some in Hp. lia.
    - right. split; [| done]. destruct (in_store _ _ _ H _ c C1) as (_ & _ & [Hin | Hout]); [done |].
      lia. }
  split; try done.
  - by apply set_waiters_ok.
  - intros i d. rewrite Ec, lookup_insert_Some.
    intros [[_ <-] | [_ Hd]]; [by rewrite Ecnt | by apply (in_sent _ _ _ H i)].
  - intros id Hid. rewrite Ef, El. by apply C6.
  - apply H.
  - intros i d. rewrite Ec, lookup_insert_Some.
    intros [[<- _] | [_ Hd]]; [by apply (in_store _ _ _ H _ c) | by apply (in_store _ _ _ H i d)].
  - intros i d p w. rewrite Ec, lookup_insert_Some. intros [[<- <-] | [Hne Hd]] Hw.
    + rewrite C4 in Hw. destruct (decide (p = j)) as [-> | Hp].
      * rewrite znth_zset_eq in Hw by lia. by injection Hw as <-.
      * rewrite znth_zset_ne in Hw by lia. destruct (in_entry _ _ _ H _ c p w C1 Hw) as [E1 E2 Ee E3].
        split; try done. intros Hin. apply E3, C8; [lia | done].
    + destruct (in_entry _ _ _ H i d p w Hd Hw) as [E1 E2 Ee E3]. split; try done.
      intros Hin. apply E3, C8; [| done].
      pose proof (other_block q P rem (id_ c) j i H (ex_intro _ c C1) (ex_intro _ d Hd)
        ltac:(lia) Hne) as Hob.
      pose proof (znth_Some _ _ _ Hw). pose proof (ok_chunk _ (in_q _ _ _ H) _ d Hd) as (_ & Hld & _).
      unfold Count, in_block in *. lia.
  - intros k w Hw h Hh. rewrite Ef. destruct (Hvals k w Hw) as [(Hi & -> & ->) | (Hne & Hw')].
    + by apply C10.
    + destruct (in_handler _ _ _ H k w Hw' h Hh) as (A1 & A2 & A3).
      split_and!; [done | | by apply C12]. intros Hv. apply C8; [done |]. by apply A2.
  - intros i d Hi. rewrite Ec, lookup_insert_Some. intros [[<- <-] | [Hne Hd]]; [by apply C11 |].
    pose proof (in_acc _ _ _ H i d Hi Hd) as Hacc. unfold chunk_acc in *. rewrite <- Hacc. f_equal.
    symmetry. apply (count_block_same _ P P' (id_ c + j)); try done; [apply H |].
    destruct (ok_chunk _ (in_q _ _ _ H) i d Hd) as (-> & _).
    apply (other_block q P rem); [done | by exists c | by exists d | lia | done].
  - intros h w' Hw'. destruct (C13 h w' Hw') as (w & Hw & -> & Hx).
    rewrite <- (in_wait _ _ _ H h w Hw), Ev. case_decide as Hi; [| lia].
    destruct (chunk_pos q _ c j v (in_q _ _ _ H) Hi C1 C2) as (_ & _ & _ & _ & Hp).
    rewrite (count_zset _ _ _ v v' Hp). lia.
Qed.

Definition result_id (m : Micro) : option Z :=
  match m with MResult id _ => Some id | _ => None end.
Definition result_ids (ms : list Micro) : list Z := omap result_id ms.

(** A follower may answer: it has not yet, and the emitter is one of the followers. *)
Definition may_answer (isEmitter : bool) v : Prop :=
  replicas (replication_ v) < n - 1
  /\ (isEmitter = true -> replicatedToEmitter (replication_ v) = false)
  /\ (replicas (replication_ v) = n - 2 ->
      replicatedToEmitter (replication_ v) || isEmitter = true).

(** The update after the answer, and whether the answer decides it. *)
Definition answered (isEmitter : bool) (err : ErrorCode) v : Value U :=
  mk_value (data_ v) (count_answer isEmitter err (replication_ v)) (onResult_ v).

Definition verdict (isEmitter : bool) (err : ErrorCode) v : bool :=
  requireResult (replication_ v)
  && (voted cc (count_answer isEmitter err (replication_ v)) && negb (voted cc (replication_ v))).

(** The ids whose results are to be sent after it. *)
Definition with_verdict (b : bool) (id : Z) P : list Z := P ++ if b then [id] else [].

Lemma elem_of_with_verdict b id P x :
  x ∈ with_verdict b id P <-> x ∈ P \/ (b = true /\ x = id).
Proof.
  unfold with_verdict. rewrite elem_of_app. destruct b.
  - rewrite list_elem_of_singleton. naive_solver.
  - rewrite elem_of_nil. naive_solver.
Qed.

Lemma replicated_run isEmitter err P id v :
  entry_ok P id v -> may_answer isEmitter v ->
  replicated cc (n - 1) isEmitter err (replication_ v)
  = Ok (replication_ (answered isEmitter err v),
        mk_status (verdict isEmitter err v) (n - 1 - replicas (replication_ v) =? 1)
          (cc <=? approves (replication_ (answered isEmitter err v)))
          (if err_ok err then errOK else err))
  /\ counting n (n - 1 - replicas (replication_ v) - 1) (replication_ (answered isEmitter err v)).
Proof.
  intros [E1 E2 Ee E3] (Hr & Hem & Hlast).
  apply replicated_spec; [lia | lia | split; lia | done | intros; apply Hlast; lia].
Qed.

Lemma verdict_true isEmitter err P id v :
  entry_ok P id v -> verdict isEmitter err v = true ->
  id ∉ P /\ requireResult (replication_ v) = true
  /\ voted cc (replication_ (answered isEmitter err v)) = true
  /\ voted cc (replication_ v) = false.
Proof.
  intros [_ _ _ E3] [A [B C]%andb_true_iff]%andb_true_iff. apply negb_true_iff in C.
  split_and!; try done. intros Hin. destruct (E3 Hin). congruence.
Qed.

Lemma answered_entry isEmitter err P id v :
  entry_ok P id v -> may_answer isEmitter v ->
  entry_ok (with_verdict (verdict isEmitter err v) id P) id (answered isEmitter err v).
Proof.
  intros E Hm. destruct (replicated_run isEmitter err P id v E Hm) as [_ [F1 F2 F3]].
  destruct Hm as (Hr & _ & Hlast). split; [lia | lia | |].
  { cbn [answered replication_ count_answer replicas replicatedToEmitter]. intros Hl.
    apply Hlast. lia. }
  rewrite elem_of_with_verdict. intros [Hin | [Hv _]].
  - destruct (eo_pend _ _ _ E Hin). split; [done |]. by apply voted_mono.
  - by destruct (verdict_true _ _ _ _ _ E Hv) as (_ & ? & ? & _).
Qed.

Lemma answered_finished isEmitter err v :
  b2z (finished (answered isEmitter err v)) = b2z (finished v) + b2z (verdict isEmitter err v).
Proof.
  pose proof (voted_mono cc isEmitter err (replication_ v)) as Hmono.
  unfold finished, verdict, answered. cbn [replication_].
  change (requireResult (count_answer isEmitter err (replication_ v)))
    with (requireResult (replication_ v)).
  destruct (requireResult (replication_ v)); cbn [negb orb andb b2z]; [| lia].
  destruct (voted cc (replication_ v)); [by rewrite Hmono |].
  by destruct (voted cc (count_answer _ _ _)).
Qed.

Lemma vote_change q P rem i isEmitter err c offset v :
  inv q P rem -> chunks q !! i = Some c -> znth (values c) offset = Some v ->
  may_answer isEmitter v ->
  let v' := answered isEmitter err v in
  change q P c offset v v' (set_values (zset (values c) offset v') c) (waiters q)
    (with_verdict (verdict isEmitter err v) (id_ c + offset) P).
Proof.
  intros H Hc Hv Hm v'. pose proof (in_entry _ _ _ H i c offset v Hc Hv) as E.
  destruct (ok_chunk _ (in_q _ _ _ H) i c Hc) as (Hid & Hle & _). rewrite Hid in *.
  pose proof (znth_Some _ _ _ Hv) as Hb. unfold Count in Hle.
  split; rewrite ?Hid; try done.
  - unfold same_shape, Count. cbn [set_values id_ values totalSizeBytes_]. by rewrite zlen_zset.
  - unfold with_verdict. destruct (verdict isEmitter err v) eqn:Ev; [| rewrite app_nil_r; apply H].
    apply NoDup_app. split_and!; [apply H | | apply NoDup_singleton].
    intros x Hx ->%list_elem_of_singleton. by apply (verdict_true isEmitter err P (i + offset) v).
  - intros id [Hin | [_ ->]]%elem_of_with_verdict; [by apply (in_pend _ _ _ H) |].
    destruct (in_store _ _ _ H i c Hc) as (H0 & _ & [Hin | Hout]).
    + destruct (chunk_pos q i c offset v (in_q _ _ _ H) Hin Hc Hv) as (_ & _ & _ & _ & Hp).
      apply znth_Some in Hp. lia.
    + pose proof (zlen_nonneg (vals q)). lia.
  - by apply answered_entry.
  - intros id Hne. rewrite elem_of_with_verdict. naive_solver.
  - apply (in_sent _ _ _ H i c Hc).
  - intros Hin h Hh. destruct (chunk_pos q i c offset v (in_q _ _ _ H) Hin Hc Hv) as (_ & _ & _ & _ & Hp).
    destruct (in_handler _ _ _ H _ v Hp h Hh) as (A1 & A2 & A3).
    split_and!; [done | | done]. intros Hvt. apply elem_of_with_verdict.
    replace (i + offset) with (first q + (i + offset - first q)) by lia.
    unfold verdict. rewrite A1. cbn [v' answered replication_] in Hvt. rewrite Hvt.
    destruct (voted cc (replication_ v)); [left; by apply A2 | by right].
  - intros Hin. pose proof (in_acc _ _ _ H i c Hin Hc) as Hacc. unfold chunk_acc in *.
    cbn [set_values resultsSent_ id_ values]. rewrite Hid in *. unfold with_verdict.
    rewrite count_app, (count_zset _ _ _ v v' Hv). unfold v'. rewrite answered_finished.
    destruct (verdict isEmitter err v); [| rewrite count_nil; cbn [b2z]; lia].
    rewrite count_cons, count_nil, (proj2 (in_block_true _ _)) by lia. cbn [b2z]. lia.
  - intros h w Hw. by exists w.
Qed.

(** An answer: the counters, and the result to be sent if the answer decides the update. *)
Lemma inv_vote q P rem i node offset isEmitter err c v :
  inv q P rem -> chunks q !! i = Some c -> znth (values c) offset = Some v ->
  may_answer isEmitter v ->
  exists st ms q', vote i node cc (n - 1) offset isEmitter err q = Ok (st, ms, q')
    /\ inv q' (P ++ result_ids ms) rem /\ grows q q'
    /\ ms = (if st_requireResult st then [MResult (i + offset) (st_result st)] else [])
            ++ (if st_requireErasure st then [MErased i (i + offset)] else []).
Proof.
  intros H Hc Hv Hm. pose proof (in_entry _ _ _ H i c offset v Hc Hv) as E.
  destruct (replicated_run isEmitter err P _ v E Hm) as [Hrep _].
  pose proof (vote_change q P rem i isEmitter err c offset v H Hc Hv Hm) as Hch.
  pose proof (inv_change _ _ _ _ _ _ _ _ _ _ H Hch) as Hi.
  unfold vote. rewrite Hc. cbn [of_option]. rewrite R_bind_ok, Hv. cbn [of_option].
  rewrite R_bind_ok, Hrep, R_bind_ok.
  cbn [fst snd st_requireResult st_result st_requireErasure].
  destruct (ok_chunk _ (in_q _ _ _ H) i c Hc) as (Eid & _ & _).
  do 3 eexists. split; [reflexivity |].
  split_and!; [| by eapply (grows_set_chunk q) | by rewrite Eid].
  assert (forall ms, result_ids
     ((if verdict isEmitter err v then [MResult (id_ c + offset) (if err_ok err then errOK else err)]
       else []) ++ (if n - 1 - replicas (replication_ v) =? 1 then ms else []))
     = (if verdict isEmitter err v then [id_ c + offset] else []) ++ result_ids
         (if n - 1 - replicas (replication_ v) =? 1 then ms else [])) as Hids.
  { intros ms. unfold result_ids. rewrite omap_app. by destruct (verdict isEmitter err v). }
  rewrite Hids. assert (result_ids (if n - 1 - replicas (replication_ v) =? 1
    then [MErased i (id_ c + offset)] else []) = []) as -> by (by destruct (_ =? 1)).
  rewrite app_nil_r. eapply inv_frame; [exact Hi | | done..].
  apply emit_ok. by apply (q_ok_frame _ _ (in_q _ _ _ Hi)).
Qed.

(** [tryGetIdx] finds the updates of the window, and nothing for the ids before it. *)
Lemma tryGetIdx_in q id :
  q_ok q -> first q <= id < first q + zlen (vals q) ->
  tryGetIdx id q = Some ((id - first q) / kBatchSize).
Proof.
  intros H Hid. destruct (chunk_at q id H Hid) as (k & c & v & Hk & Hqk & _ & _ & Ek & _).
  unfold tryGetIdx. destruct (queue_ q) as [| f l] eqn:Eq; [cbn in Hk; lia |].
  assert (f = first q) as ->.
  { pose proof (queue_lookup q 0 H) as H0. rewrite Eq in H0. cbn in H0.
    injection H0 as ->; [cbn; lia | lia]. }
  destruct (ok_bounds _ H). pose proof (next_id q H).
  unfold u64. rewrite wrap_id by lia.
  rewrite (proj2 (Z.leb_gt _ _)); [done |]. unfold zlen.
  pose proof (Z.div_pos (id - first q) kBatchSize ltac:(lia) ltac:(done)). lia.
Qed.

Lemma tryGetIdx_out q id : q_ok q -> 0 <= id < first q -> tryGetIdx id q = None.
Proof.
  intros H Hid. unfold tryGetIdx. destruct (queue_ q) as [| f l] eqn:Eq; [done |].
  assert (f = first q) as ->.
  { pose proof (queue_lookup q 0 H) as H0. rewrite Eq in H0. cbn in H0.
    injection H0 as ->; [cbn; lia | lia]. }
  destruct (ok_bounds _ H) as [_ Hn]. rewrite (proj2 (Z.leb_le _ _)); [done |].
  assert (kBatchSize * zlen (first q :: l) <= nextChunkID_ q) as Hz.
  { pose proof (proj1 (ok_bounds _ H)) as Hf. unfold first in Hf at 1. rewrite Eq in Hf. lia. }
  pose proof (next_id q H) as Hnx. pose proof (zlen_nonneg (vals q)) as Hz0.
  unfold u64. assert (wrap 64 (id - first q) = id - first q + 2 ^ 64) as ->.
  { unfold wrap. symmetry. apply (Z.mod_unique _ _ (-1)); lia. }
  apply Z.div_le_lower_bound; [done |]. lia.
Qed.

(** Sending a result: it is found in the window, and its handler is called once. *)
Lemma call_handler_run h err q w :
  waiters q !! h = Some w ->
  exists es, call_handler h err q
    = Ok (emit es (set_waiters (<[h := mk_waiter (w_dataSize w) (w_executedCnt w + 1)
                                  (if err_ok err then w_err w else err)]> (waiters q)) q)).
Proof. intros Hw. unfold call_handler. rewrite Hw. by eexists. Qed.

(** The waiters after the result [err] is given to the handler of [v]. *)
Definition told v (err : ErrorCode) (W : gmap Z Waiter) : gmap Z Waiter :=
  match onResult_ v with
  | None => W
  | Some h =>
      match W !! h with
      | None => W
      | Some w => <[h := mk_waiter (w_dataSize w) (w_executedCnt w + 1)
                          (if err_ok err then w_err w else err)]> W
      end
  end.

Definition forgotten v : Value U := mk_value (data_ v) (replication_ v) None.

Lemma onResult_value_run v err q :
  (forall h, onResult_ v = Some h -> is_Some (waiters q !! h)) ->
  exists es, onResult_value v err q
             = Ok (forgotten v, emit es (set_waiters (told v err (waiters q)) q)).
Proof.
  intros Hh. unfold onResult_value, told, forgotten. destruct v as [d r [h |]]; cbn [onResult_ data_ replication_] in *.
  - destruct (Hh h eq_refl) as [w Hw]. destruct (call_handler_run h err q w Hw) as [es ->].
    exists es. by rewrite R_bind_ok, Hw.
  - exists []. unfold emit, set_waiters. rewrite app_nil_r. by destruct q.
Qed.

Lemma told_some v err W h : is_Some (W !! h) -> is_Some (told v err W !! h).
Proof.
  intros Hs. unfold told. destruct (onResult_ v) as [x |]; [| done].
  destruct (W !! x) as [w |] eqn:E; [| done]. destruct (decide (x = h)) as [-> | Hne].
  - rewrite lookup_insert_eq. by eexists.
  - by rewrite lookup_insert_ne.
Qed.

Lemma told_wait v err W h w' :
  told v err W !! h = Some w' ->
  exists w, W !! h = Some w /\ w_dataSize w' = w_dataSize w
    /\ w_executedCnt w' = w_executedCnt w + b2z (handled_by h v).
Proof.
  unfold told, handled_by. destruct (onResult_ v) as [x |].
  2:{ intros ->. exists w'. rewrite bool_decide_false by done. cbn [b2z]. split_and!; [done | done | lia]. }
  destruct (W !! x) as [w |] eqn:E.
  - rewrite lookup_insert_Some. intros [[-> <-] | [Hne Hw]].
    + exists w. by rewrite bool_decide_true.
    + exists w'. rewrite bool_decide_false by congruence. cbn [b2z]. split_and!; [done | done | lia].
  - intros Hw. exists w'. rewrite bool_decide_false by congruence.
    cbn [b2z]. split_and!; [done | done | lia].
Qed.

Definition sent_one c : QueueEntry U :=
  mk_entry (id_ c) (values c) (totalSizeBytes_ c) (erased_ c) (resultsSent_ c + 1)
    (isInvalidated_ c).

(** A pending result of the window is not counted yet. *)
Lemma pending_count q P P' rem k c id :
  inv q P rem -> P ≡ₚ id :: P' -> first q + kBatchSize * Z.of_nat k ∈ queue_ q ->
  chunks q !! (first q + kBatchSize * Z.of_nat k) = Some c -> id_ c <= id < id_ c + kBatchSize ->
  resultsSent_ c < Count c /\ chunk_acc P' (sent_one c).
Proof.
  intros H HP Hi Hc Hid. pose proof (in_acc _ _ _ H _ c Hi Hc) as Hacc. unfold chunk_acc in *.
  rewrite (count_perm _ _ _ HP), count_cons, (proj2 (in_block_true _ _)) in Hacc by done.
  cbn [b2z] in Hacc. pose proof (count_bound finished (values c)).
  pose proof (count_bound (in_block (id_ c)) P'). unfold Count.
  split; [lia |]. cbn [sent_one resultsSent_ id_ values]. lia.
Qed.

Lemma result_change q P P' rem c j v err :
  inv q P rem -> P ≡ₚ (id_ c + j) :: P' -> id_ c ∈ queue_ q -> chunks q !! id_ c = Some c ->
  znth (values c) j = Some v -> resultsSent_ c < Count c -> chunk_acc P' (sent_one c) ->
  change q P c j v (forgotten v) (set_values (zset (values c) j (forgotten v)) (sent_one c))
    (told v err (waiters q)) P'.
Proof.
  intros H HP Hi Hc Hv Hlt Hacc. pose proof (in_sent _ _ _ H _ c Hc) as Hs.
  assert (NoDup (id_ c + j :: P')) as Hnd by (rewrite <- HP; apply H).
  apply NoDup_cons in Hnd as [Hnin Hnd].
  split; try done.
  - unfold same_shape, Count. cbn [set_values sent_one id_ values totalSizeBytes_]. by rewrite zlen_zset.
  - intros id Hid. apply (in_pend _ _ _ H). rewrite HP. by apply list_elem_of_further.
  - destruct (in_entry _ _ _ H _ c j v Hc Hv) as [E1 E2 Ee E3]. split; try done.
  - intros id Hne. rewrite HP, elem_of_cons. naive_solver.
  - cbn. lia.
  - intros _. unfold chunk_acc in *. cbn [set_values sent_one id_ values resultsSent_] in *.
    rewrite (count_zset _ _ _ v _ Hv). change (finished (forgotten v)) with (finished v). lia.
  - intros h Hh. by apply told_some.
  - intros h w' Hw'. destruct (told_wait _ _ _ _ _ Hw') as (w & Hw & E1 & E2).
    exists w. rewrite !decide_True by done. split_and!; [done | done |].
    change (b2z (handled_by h (forgotten v))) with 0. lia.
Qed.

(** The result of an update that has left the queue is forgotten. *)
Lemma inv_forget q P P' rem id :
  inv q P rem -> P ≡ₚ id :: P' -> id < first q -> inv q P' rem.
Proof.
  intros H HP Hout.
  assert (NoDup (id :: P')) as Hnd by (rewrite <- HP; apply H).
  apply NoDup_cons in Hnd as [Hnin Hnd].
  assert (forall x, x ∈ P' -> x ∈ P) as Hsub by (intros; rewrite HP; by apply list_elem_of_further).
  pose proof H as [H1 H2 H3 H4 Ha H5 H6 H7 H8 H9]. split; try done.
  - intros x Hx. by apply H4, Hsub.
  - intros i c j v Hc Hv. destruct (H6 i c j v Hc Hv) as [E1 E2 Ee E3]. split; try done.
    intros Hx. by apply E3, Hsub.
  - intros k v Hv h Hh. destruct (H7 k v Hv h Hh) as (A1 & A2 & A3). split_and!; try done.
    intros Hvt. specialize (A2 Hvt). rewrite HP in A2. pose proof (znth_Some _ _ _ Hv).
    apply elem_of_cons in A2 as [? | ?]; [lia | done].
  - intros i c Hi Hc. pose proof (H8 i c Hi Hc) as Hacc. unfold chunk_acc in *.
    rewrite (count_perm _ _ _ HP), count_cons in Hacc.
    destruct (ok_chunk _ H1 i c Hc) as (Eid & _).
    apply (elem_of_queue q i H1) in Hi as (k & _ & ->).
    assert (in_block (id_ c) id = false) as Hf by (unfold in_block, kBatchSize in *; lia).
    rewrite Hf in Hacc. cbn [b2z] in Hacc. lia.
Qed.

Lemma inv_onResult q P P' rem id err :
  inv q P rem -> P ≡ₚ id :: P' ->
  exists b q', onResult id err q = Ok (b, q') /\ inv q' P' rem /\ grows q q'.
Proof.
  intros H HP. assert (id ∈ P) as Hid by (rewrite HP; apply list_elem_of_here).
  pose proof (in_pend _ _ _ H id Hid) as Hr. unfold onResult.
  destruct (decide (id < first q)) as [Hout | Hin].
  - rewrite tryGetIdx_out by (apply H || lia). exists false, q.
    split_and!; [done | by apply (inv_forget q P P' rem id) | apply grows_refl].
  - rewrite tryGetIdx_in by (apply H || lia).
    destruct (chunk_at q id (in_q _ _ _ H)) as (k & c & v & Hk & Hqk & Hc & Eid & Ek & Hb & Hv & Hvv); [lia |].
    assert (id_ c ∈ queue_ q) as Hiq by (rewrite Eid; apply list_elem_of_lookup; by exists k).
    destruct (pending_count q P P' rem k c id H HP) as [Hlt Hacc];
      [by rewrite <- Eid | done | lia |].
    assert (znth (queue_ q) ((id - first q) / kBatchSize)
            = Some (first q + kBatchSize * Z.of_nat k)) as ->.
    { rewrite <- Hqk, <- znth_lookup. f_equal. rewrite Ek, Z2Nat.id; [done |].
      apply Z.div_pos; [lia | done]. }
    rewrite <- Eid in *. cbn [of_option]. rewrite R_bind_ok, Hc. cbn [of_option]. rewrite R_bind_ok.
    assert (u16 (id - id_ c) = id - id_ c) as -> by (apply u16_small; unfold kBatchSize in *; lia).
    unfold value. rewrite Hv. cbn [of_option]. rewrite R_bind_ok.
    destruct (ok_chunk _ (in_q _ _ _ H) _ c Hc) as (_ & Hle & _).
    pose proof (in_sent _ _ _ H _ c Hc) as Hs.
    assert (addSentResult c = Ok (sent_one c)) as ->.
    { unfold addSentResult. rewrite (proj2 (Z.ltb_ge _ _)) by lia. unfold sent_one.
      rewrite u16_small by (unfold kBatchSize in *; lia). done. }
    rewrite R_bind_ok. destruct (onResult_value_run v err q) as [es ->].
    { intros h Hh. by destruct (in_handler _ _ _ H _ v Hvv h Hh) as (_ & _ & ?). }
    rewrite R_bind_ok. do 2 eexists. split; [reflexivity |]. cbn [fst snd].
    assert (P ≡ₚ id_ c + (id - id_ c) :: P') as HP' by (by replace (id_ c + (id - id_ c)) with id by lia).
    pose proof (result_change q P P' rem c (id - id_ c) v err H HP' Hiq Hc Hv Hlt Hacc) as Hch.
    pose proof (inv_change _ _ _ _ _ _ _ _ _ _ H Hch) as Hi.
    split; [| by eapply (grows_set_chunk q)].
    eapply inv_frame; [exact Hi | | done..]. by apply (q_ok_frame _ _ (in_q _ _ _ Hi)).
Qed.

(** ** Invalidation *)

Fixpoint told_all (vs : list (Value U)) (err : ErrorCode) (W : gmap Z Waiter) : gmap Z Waiter :=
  match vs with [] => W | v :: vs => told_all vs err (told v err W) end.

Lemma told_all_app vs vs' err W : told_all (vs ++ vs') err W = told_all vs' err (told_all vs err W).
Proof. revert W. induction vs as [| v vs IH]; intros W; [done |]. cbn. apply IH. Qed.

Lemma told_all_some vs err W h : is_Some (W !! h) -> is_Some (told_all vs err W !! h).
Proof. revert W. induction vs as [| v vs IH]; intros W Hs; [done |]. cbn. by apply IH, told_some. Qed.

Lemma told_all_wait vs err W h w' :
  told_all vs err W !! h = Some w' ->
  exists w, W !! h = Some w /\ w_dataSize w' = w_dataSize w
    /\ w_executedCnt w' = w_executedCnt w + count (handled_by h) vs.
Proof.
  revert W. induction vs as [| v vs IH]; intros W Hw; cbn [told_all] in Hw.
  - exists w'. rewrite count_nil. split_and!; [done | done | lia].
  - destruct (IH _ Hw) as (w1 & Hw1 & E1 & E2). destruct (told_wait _ _ _ _ _ Hw1) as (w & Hw0 & E3 & E4).
    exists w. rewrite count_cons. split_and!; [done | congruence | lia].
Qed.

Lemma fail_values_run vs err q :
  (forall v h, v ∈ vs -> onResult_ v = Some h -> is_Some (waiters q !! h)) ->
  exists es, fail_values vs err q
    = Ok (map forgotten vs, emit es (set_waiters (told_all vs err (waiters q)) q)).
Proof.
  revert q. induction vs as [| v vs IH]; intros q Hh.
  - exists []. cbn. unfold emit, set_waiters. rewrite app_nil_r. by destruct q.
  - cbn [fail_values map told_all].
    destruct (onResult_value_run v err q) as [es1 ->].
    { intros h. apply Hh. by apply list_elem_of_here. }
    rewrite R_bind_ok. cbn [fst snd].
    destruct (IH (emit es1 (set_waiters (told v err (waiters q)) q))) as [es2 ->].
    { intros x h Hx Hxh. cbn. apply told_some, (Hh x h); [by apply list_elem_of_further | done]. }
    rewrite R_bind_ok. cbn [fst snd]. exists (es1 ++ es2). unfold emit, set_waiters. cbn.
    by rewrite app_assoc.
Qed.

(** The same chunk, with other handlers. *)
Definition similar c c' : Prop :=
  id_ c' = id_ c /\ Count c' = Count c /\ resultsSent_ c' = resultsSent_ c
  /\ map replication_ (values c') = map replication_ (values c).

Definition failed c : QueueEntry U :=
  match values c with
  | [] => c
  | _ => markInvalidated (set_values (map forgotten (values c)) c)
  end.

Lemma failed_similar c : similar c (failed c).
Proof.
  unfold similar, failed, Count. destruct (values c) as [| v vs] eqn:E; [by rewrite E |].
  cbn [markInvalidated set_values id_ values resultsSent_]. split_and!; try done.
  - unfold zlen. by rewrite length_map.
  - by rewrite map_map.
Qed.

(** What the failing of the chunks [l] changes. *)
Record fails (l : list Z) (err : ErrorCode) q q' : Prop := {
  fl_queue : queue_ q' = queue_ q;
  fl_next : nextChunkID_ q' = nextChunkID_ q;
  fl_drop : updatedDropRecord_ q' = updatedDropRecord_ q;
  fl_waiters : waiters q' = told_all (concat (map (chunk_vals q) l)) err (waiters q);
  fl_grows : grows q q';
  fl_chunks : forall i c', chunks q' !! i = Some c' -> exists c, chunks q !! i = Some c /\ similar c c'
}.

Lemma fail_chunks_run l err q :
  NoDup l ->
  (forall i, i ∈ l -> exists c, chunks q !! i = Some c /\ id_ c = i) ->
  (forall i v h, i ∈ l -> v ∈ chunk_vals q i -> onResult_ v = Some h -> is_Some (waiters q !! h)) ->
  exists q', fail_chunks l err q = Ok q' /\ fails l err q q'.
Proof.
  revert q. induction l as [| i l IH]; intros q Hnd Hl Hh.
  { exists q. split; [done |]. split; try done.
    - apply grows_refl.
    - intros i c Hc. exists c. by split. }
  apply NoDup_cons in Hnd as [Hi Hnd].
  destruct (Hl i) as (c & Hc & Hid); [by apply list_elem_of_here |].
  cbn [fail_chunks]. unfold fail_chunk. rewrite Hc. cbn [of_option]. rewrite R_bind_ok.
  destruct (fail_values_run (values c) err q) as [es ->].
  { intros v h Hv. apply (Hh i); [by apply list_elem_of_here |]. unfold chunk_vals. by rewrite Hc. }
  rewrite R_bind_ok. cbn [fst snd]. fold (failed c). cbn [mret result_ret]. rewrite R_bind_ok.
  destruct (failed_similar c) as (Eid & Ecnt & Ers & Erep).
  set (q1 := set_chunk (failed c) (emit es (set_waiters (told_all (values c) err (waiters q)) q))).
  assert (chunks q1 = <[i := failed c]> (chunks q)) as Ec by (unfold q1, set_chunk; cbn; by rewrite Eid, Hid).
  assert (forall j, j ∈ l -> chunk_vals q1 j = chunk_vals q j) as Ecv.
  { intros j Hj. unfold chunk_vals. rewrite Ec, lookup_insert_ne; [done |]. by intros ->. }
  destruct (IH q1 Hnd) as (q' & -> & [F1 F2 F3 F4 F5 F6]).
  - intros j Hj. destruct (Hl j) as (d & Hd & Hdj); [by apply list_elem_of_further |].
    exists d. split; [| done]. rewrite Ec, lookup_insert_ne; [done |]. by intros ->.
  - intros j v h Hj. rewrite Ecv by done. intros Hv Hvh. apply told_all_some.
    by apply (Hh j v h); [apply list_elem_of_further | |].
  - exists q'. split; [done |]. split; try done.
    + rewrite F4. cbn [map concat]. rewrite told_all_app. f_equal.
      * f_equal. apply map_ext_in. intros j Hj%list_elem_of_In. by apply Ecv.
      * unfold chunk_vals. by rewrite Hc.
    + eapply grows_trans; [| exact F5]. intros j Hj. rewrite Ec.
      destruct (decide (i = j)) as [-> | Hne]; [rewrite lookup_insert_eq; by eexists |].
      by rewrite lookup_insert_ne.
    + intros j d' Hd'. destruct (F6 j d' Hd') as (d & Hd & (G1 & G2 & G3 & G4)).
      rewrite Ec, lookup_insert_Some in Hd. destruct Hd as [[<- <-] | [_ Hd]].
      * exists c. split; [done |]. split_and!; congruence.
      * by exists d.
Qed.

Lemma similar_value c c' j v' :
  similar c c' -> znth (values c') j = Some v' ->
  exists v, znth (values c) j = Some v /\ replication_ v = replication_ v'.
Proof.
  intros (_ & _ & _ & E) Hv. unfold znth in *. case_decide; [| done].
  assert (map replication_ (values c') !! Z.to_nat j = Some (replication_ v')) as Hl.
  { change (map replication_ (values c')) with (replication_ <$> values c').
    by rewrite list_lookup_fmap, Hv. }
  rewrite E in Hl. apply list_lookup_fmap_Some in Hl as (v & Er & Hvv). by exists v.
Qed.

(** [SetWritable(false)]: every handler gets the error, and the queue is empty. *)
Lemma inv_SetWritable b err q P :
  inv q P (fun _ => 0) ->
  exists q', SetWritable b err q = Ok q' /\ inv q' P (fun _ => 0) /\ grows q q'
    /\ (b = false -> queue_ q' = [] /\ invalidated_ q' = true).
Proof.
  intros H. unfold SetWritable. destruct b.
  { eexists. split; [reflexivity |]. split_and!; [| by intros i | done].
    apply (inv_frame q); try done. apply set_invalidated_ok, H. }
  set (q0 := set_invalidated (invalidated_ q) err q).
  assert (inv q0 P (fun _ => 0)) as H0 by (apply (inv_frame q); try done; apply set_invalidated_ok, H).
  destruct (fail_chunks_run (queue_ q0) err q0) as (q1 & Hrun & [F1 F2 F3 F4 F5 F6]).
  { rewrite (ok_chain _ (in_q _ _ _ H0)). apply chain_nodup. }
  { intros i Hi. destruct (ok_live _ (in_q _ _ _ H0) i Hi) as (c & Hc & _). exists c.
    split; [done |]. by destruct (ok_chunk _ (in_q _ _ _ H0) i c Hc) as (? & _). }
  { intros i v h Hi Hv Hvh. destruct (ok_live _ (in_q _ _ _ H0) i Hi) as (c & Hc & _).
    unfold chunk_vals in Hv. rewrite Hc in Hv. apply list_elem_of_lookup in Hv as [j Hj].
    rewrite <- znth_lookup in Hj.
    destruct (chunk_pos q0 i c _ v (in_q _ _ _ H0) Hi Hc Hj) as (_ & _ & _ & _ & Hp).
    by destruct (in_handler _ _ _ H0 _ v Hp h Hvh) as (_ & _ & ?). }
  rewrite Hrun, R_bind_ok. fold (vals q0) in F4.
  set (q2 := if 0 <=? _ then _ else _).
  assert (queue_ q2 = queue_ q0 /\ nextChunkID_ q2 = nextChunkID_ q0 /\ chunks q2 = chunks q1
          /\ updatedDropRecord_ q2 = updatedDropRecord_ q0 /\ waiters q2 = waiters q1)
    as (G1 & G2 & G3 & G4 & G5) by (unfold q2; destruct (0 <=? _); done).
  eexists. split; [reflexivity |].
  set (q3 := set_invalidated true _ _).
  assert (vals q3 = []) as Ev by done.
  assert (first q3 = nextChunkID_ q0) as Ef by (unfold first; cbn; rewrite G2; unfold zlen; cbn; lia).
  pose proof H0 as [H1 H2 H3 H4 Ha H5 H6 H7 H8 H9].
  split_and!; [| intros i Hi; cbn; rewrite G3; by apply F5 | done].
  split; rewrite ?Ev, ?Ef; try done.
  - split; cbn; rewrite ?G2, ?G3, ?G4; try done.
    + rewrite Ef. pose proof (next_id q0 H1). pose proof (zlen_nonneg (vals q0)).
      destruct (ok_bounds _ H1). split; [lia | done].
    + intros i c' Hc'. destruct (F6 i c' Hc') as (c & Hc & E1 & E2 & _). rewrite E1, E2.
      by apply (ok_chunk _ H1).
    + intros i Hi. by apply not_elem_of_nil in Hi.
    + intros d Hd. rewrite Ef. pose proof (ok_drop _ H1 d Hd). pose proof (next_id q0 H1).
      pose proof (zlen_nonneg (vals q0)). lia.
  - intros i c'. cbn. rewrite G3. intros Hc'. destruct (F6 i c' Hc') as (c & Hc & _ & E2 & E3 & _).
    rewrite E2, E3. by apply (H2 i).
  - intros id Hid. specialize (H4 id Hid). pose proof (next_id q0 H1). change (zlen []) with 0. lia.
  - cbn. by rewrite G2.
  - intros i c'. cbn. rewrite G3. intros Hc'. destruct (F6 i c' Hc') as (c & Hc & _).
    destruct (H5 i c Hc) as (A1 & A2 & _). destruct (ok_chunk _ H1 i c Hc) as (_ & _ & A3).
    split_and!; [done | done | by right].
  - intros i c' j v'. cbn. rewrite G3. intros Hc' Hv'. destruct (F6 i c' Hc') as (c & Hc & Hsim).
    destruct (similar_value c c' j v' Hsim Hv') as (v & Hv & Er).
    destruct (H6 i c j v Hc Hv) as [E1 E2 Ee E3]. rewrite Er in *. by split.
  - intros k v Hv. apply znth_Some in Hv. change (zlen []) with 0 in Hv. lia.
  - intros i c' Hi. by apply not_elem_of_nil in Hi.
  - intros h w'. cbn. rewrite G5, F4. intros Hw'.
    destruct (told_all_wait _ _ _ _ _ Hw') as (w & Hw & E1 & E2).
    rewrite E1, E2, <- (H9 h w Hw). change (count (handled_by h) []) with 0. lia.
Qed.

(** ** [PushAndWait] *)

Lemma inv_rem q P rem rem' : inv q P rem -> (forall h, rem h = rem' h) -> inv q P rem'.
Proof. intros [] He. split; try done. intros h w Hw. rewrite <- He. by apply in_wait0. Qed.

Lemma no_handler_of q P rem h :
  inv q P rem -> waiters q !! h = None -> count (handled_by h) (vals q) = 0.
Proof.
  intros H Hw. apply count_zero. intros v Hv. unfold handled_by. apply bool_decide_eq_false.
  intros Hh. apply list_elem_of_lookup in Hv as [k Hk]. rewrite <- znth_lookup in Hk.
  destruct (in_handler _ _ _ H _ v Hk h Hh) as (_ & _ & [w Hw']). congruence.
Qed.

Lemma inv_begin data h q P :
  inv q P (fun _ => 0) -> waiters q !! h = None -> invalidated_ q = false ->
  nextChunkID_ q + kBatchSize * zlen data < 2 ^ 62 ->
  exists ids q', PushAndWait_begin HasEmitterID DataSize sizeofEntry data h q = Ok (None, ids, q')
    /\ inv q' P (fun _ => 0) /\ grows q q'.
Proof.
  intros H Hh Hi Hn. unfold PushAndWait_begin. rewrite Hi.
  set (q1 := set_waiters _ q).
  assert (inv q1 P (fun x => zlen data * b2z (bool_decide (Some h = Some x)))) as H1.
  { destruct H as [A1 A2 A3 A4 Aa A5 A6 A7 A8 A9]. split; try done.
    - by apply set_waiters_ok.
    - intros k v Hv x Hx. destruct (A7 k v Hv x Hx) as (B1 & B2 & B3). split_and!; try done.
      unfold q1. cbn. destruct (decide (h = x)) as [-> | Hne];
        [rewrite lookup_insert_eq; by eexists | by rewrite lookup_insert_ne].
    - intros x w. change (vals q1) with (vals q). unfold q1. cbn [set_waiters waiters].
      rewrite lookup_insert_Some. intros [[<- <-] | [Hne Hw]].
      + rewrite (no_handler_of q P (fun _ => 0) h) by done.
        rewrite bool_decide_true by done. cbn. lia.
      + rewrite bool_decide_false by congruence. cbn [b2z]. rewrite <- (A9 x w Hw). lia. }
  destruct (inv_addDataToQueue data q1 P _ false (Some h) H1) as (ids & q2 & Hgo & H2 & _ & Hg); try done.
  { intros x [= <-]. unfold q1. cbn. rewrite lookup_insert_eq. by eexists. }
  rewrite Hgo, R_bind_ok. cbn [fst snd]. exists ids, q2. split_and!; [done | | done].
  apply (inv_rem _ _ _ _ H2). intros x. cbv beta. lia.
Qed.

Lemma inv_end h q P err q' :
  inv q P (fun _ => 0) -> PushAndWait_end h q = Some (err, q') -> inv q' P (fun _ => 0).
Proof.
  intros H He. unfold PushAndWait_end in He. destruct (waiters q !! h) as [w |] eqn:Ew; [| done].
  destruct (w_executedCnt w =? w_dataSize w) eqn:Eq; [| done]. injection He as <- <-.
  pose proof (in_wait _ _ _ H h w Ew) as Hw. cbv beta in Hw. pose proof (count_bound (handled_by h) (vals q)).
  assert (count (handled_by h) (vals q) = 0) as Hz by lia.
  destruct H as [A1 A2 A3 A4 Aa A5 A6 A7 A8 A9]. split; try done.
  - by apply set_waiters_ok.
  - intros k v Hv x Hx. destruct (A7 k v Hv x Hx) as (B1 & B2 & B3). split_and!; try done.
    cbn. rewrite lookup_delete_ne; [done |]. intros <-.
    assert (v ∈ vals q) as Hin.
    { apply list_elem_of_lookup. unfold znth in Hv. case_decide; [| done]. eexists. exact Hv. }
    pose proof (proj1 (count_zero _ _) Hz v Hin) as Hf. unfold handled_by in Hf.
    by rewrite bool_decide_true in Hf.
  - intros x w'. cbn. rewrite lookup_delete_Some. intros [_ Hw']. by apply A9.
Qed.

(** ** The system *)

(** The queue, and the steps that every thread still has to make. *)
Record Sys : Type := mk_sys { s_queue : Queue U; s_threads : list (list Micro) }.

Definition pending (s : Sys) : list Z := concat (map result_ids (s_threads s)).

Definition init (maxDataSize : Z) : Sys := mk_sys (new_UpdatesQueue maxDataSize) [].

Definition headroom (data : list U) q : Prop :=
  nextChunkID_ q + kBatchSize * zlen data < 2 ^ 62.

Inductive step : Sys -> Sys -> Prop :=
| step_micro s k m ms ms' q' :
    s_threads s !! k = Some (m :: ms) -> micro m (s_queue s) = Ok (ms', q') ->
    step s (mk_sys q' (<[k := ms' ++ ms]> (s_threads s)))
| step_answer s i node offset isEmitter err c v st ms q' :
    chunks (s_queue s) !! i = Some c -> znth (values c) offset = Some v ->
    may_answer isEmitter v ->
    vote i node cc (n - 1) offset isEmitter err (s_queue s) = Ok (st, ms, q') ->
    step s (mk_sys q' (s_threads s ++ [ms]))
| step_push_wait s data h ids q' :
    waiters (s_queue s) !! h = None -> headroom data (s_queue s) ->
    PushAndWait_begin HasEmitterID DataSize sizeofEntry data h (s_queue s) = Ok (None, ids, q') ->
    step s (mk_sys q' (s_threads s))
| step_push_async s skip data err q' :
    headroom data (s_queue s) ->
    PushAsync HasEmitterID DataSize sizeofEntry skip data (s_queue s) = Ok (err, q') ->
    step s (mk_sys q' (s_threads s))
| step_return s h err q' :
    PushAndWait_end h (s_queue s) = Some (err, q') -> step s (mk_sys q' (s_threads s))
| step_writable s b err q' :
    SetWritable b err (s_queue s) = Ok q' -> step s (mk_sys q' (s_threads s))
| step_read s id notifier r q' :
    Read id notifier (s_queue s) = Ok (r, q') -> step s (mk_sys q' (s_threads s))
| step_add_notifier s thread :
    step s (mk_sys (AddDataNotifier thread (s_queue s)) (s_threads s))
| step_remove_notifier s thread :
    step s (mk_sys (RemoveDataNotifier thread (s_queue s)) (s_threads s)).

Inductive reachable (maxDataSize : Z) : Sys -> Prop :=
| reach_init : reachable maxDataSize (init maxDataSize)
| reach_step s s' : reachable maxDataSize s -> step s s' -> reachable maxDataSize s'.

(** The chunks that the threads still use are in the store. *)
Definition micro_ok q (m : Micro) : Prop :=
  match m with MErased i _ | MCheck i => is_Some (chunks q !! i) | _ => True end.

Record sys_ok (s : Sys) : Prop := {
  sys_inv : inv (s_queue s) (pending s) (fun _ => 0);
  sys_threads : forall ms m, ms ∈ s_threads s -> m ∈ ms -> micro_ok (s_queue s) m
}.

Lemma inv_init maxDataSize : inv (new_UpdatesQueue maxDataSize) [] (fun _ => 0).
Proof.
  split; try done.
  - apply q_ok_new.
  - constructor.
  - intros id Hid. by apply not_elem_of_nil in Hid.
  - by exists 0.
  - intros k v Hv. apply znth_Some in Hv. unfold zlen in Hv. cbn in Hv. lia.
Qed.

Lemma inv_micro q m P P' :
  inv q P (fun _ => 0) -> P ≡ₚ result_ids [m] ++ P' -> micro_ok q m ->
  exists ms q', micro m q = Ok (ms, q') /\ result_ids ms = [] /\ inv q' P' (fun _ => 0)
    /\ grows q q' /\ (forall m', m' ∈ ms -> micro_ok q' m').
Proof.
  intros H HP Hm. destruct m as [id err | | i id | i]; cbn [micro].
  - destruct (inv_onResult q P P' _ id err H HP) as (b & q' & -> & H' & Hg). rewrite R_bind_ok.
    do 2 eexists. split; [reflexivity |]. cbn [fst snd]. split_and!; [by destruct b | done | done |].
    intros m' Hm'. destruct b; [| by apply not_elem_of_nil in Hm'].
    by apply list_elem_of_singleton in Hm' as ->.
  - cbn in HP. rewrite HP in H. destruct (erase_front q) as [q' |] eqn:E.
    + exists [MEraseLoop], q'. split_and!; try done.
      * by apply (inv_erase_front q).
      * destruct (erase_front_spec q q' (in_q _ _ _ H) E) as (_ & _ & _ & Ec & _).
        intros i. by rewrite Ec.
      * intros m' Hm'. by apply list_elem_of_singleton in Hm' as ->.
    + exists [], q. split_and!; [done | done | done | apply grows_refl |].
      intros m' Hm'. by apply not_elem_of_nil in Hm'.
  - cbn in HP. rewrite HP in H. destruct Hm as [c Hc]. rewrite Hc. cbn [of_option]. rewrite R_bind_ok.
    destruct (ok_chunk _ (in_q _ _ _ H) i c Hc) as (Hid & _ & _).
    do 2 eexists. split; [reflexivity |].
    assert (inv (set_chunk (add_erased c) q) P' (fun _ => 0)) as H'.
    { apply (inv_set_chunk q c); try done. by rewrite Hid. }
    assert (grows q (set_chunk (add_erased c) q)) as Hg by (by eapply grows_set_chunk).
    split_and!; [done | | done |].
    + apply (inv_frame _ _ _ _ H'); try done. apply emit_ok, H'.
    + intros m' ->%list_elem_of_singleton. apply Hg. by exists c.
  - cbn in HP. rewrite HP in H. destruct Hm as [c Hc]. rewrite Hc. cbn [of_option]. rewrite R_bind_ok.
    do 2 eexists. split; [reflexivity |]. split_and!; [by destruct (IsFullyErased c) | done | apply grows_refl |].
    intros m' Hm'. destruct (IsFullyErased c); [| by apply not_elem_of_nil in Hm'].
    by apply list_elem_of_singleton in Hm' as ->.
Qed.

Lemma pending_head s k m ms :
  s_threads s !! k = Some (m :: ms) ->
  pending s ≡ₚ result_ids [m] ++ concat (map result_ids (<[k := ms]> (s_threads s))).
Proof.
  intros Hk. unfold pending. rewrite insert_take_drop by (by apply lookup_lt_Some in Hk).
  rewrite <- (take_drop_middle _ _ _ Hk) at 1. rewrite !map_app, !concat_app. cbn [map concat].
  assert (result_ids (m :: ms) = result_ids [m] ++ result_ids ms) as ->.
  { unfold result_ids. by rewrite <- (omap_app result_id [m] ms). }
  rewrite !app_assoc. f_equiv. f_equiv. by rewrite (Permutation_app_comm (result_ids [m])).
Qed.

Lemma sys_grow s q' (threads : list (list Micro)) :
  sys_ok s -> grows (s_queue s) q' ->
  (forall (ms : list Micro) m, ms ∈ threads -> m ∈ ms ->
     (exists ms' : list Micro, ms' ∈ s_threads s /\ m ∈ ms') \/ micro_ok q' m) ->
  forall (ms : list Micro) m, ms ∈ threads -> m ∈ ms -> micro_ok q' m.
Proof.
  intros [_ Ht] Hg Hin ms m Hms Hm. destruct (Hin ms m Hms Hm) as [(ms' & H1 & H2) | Hok]; [| done].
  specialize (Ht ms' m H1 H2). destruct m; cbn in *; try done; by apply Hg.
Qed.

Lemma Read_inv id notifier q r q' P rem :
  inv q P rem -> Read id notifier q = Ok (r, q') -> inv q' P rem /\ chunks q' = chunks q.
Proof.
  intros H Hr.
  assert (forall x, await notifier q = Ok x -> inv (snd x) P rem /\ chunks (snd x) = chunks q) as Haw.
  { intros x. unfold await, setAwaitDataFlag. destruct notifier as [t |]; [| by intros [= <-]].
    destruct (newDataNotifiers_ q !! t); [| done]. rewrite R_bind_ok. intros [= <-]. cbn [snd].
    split; [| done]. apply (inv_frame q); try done. apply set_notifiers_ok, H. }
  assert (forall x, read_queue id notifier q = Ok x -> inv (snd x) P rem /\ chunks (snd x) = chunks q) as Hrq.
  { intros x. unfold read_queue. destruct (queue_ q) as [| f l]; [apply Haw |].
    destruct (id <? f); [by intros [= <-] |]. destruct (znth _ _) as [i |]; [| apply Haw].
    destruct (chunks q !! i) as [c |]; [| done]. cbn [of_option]. rewrite R_bind_ok.
    destruct (HasID id c); [by intros [= <-] | apply Haw]. }
  unfold Read in Hr. destruct (updatedDropRecord_ q) as [d |].
  - destruct (id <=? d); [by injection Hr as <- <- | by apply (Hrq (r, q'))].
  - by apply (Hrq (r, q')).
Qed.

Lemma inv_PushAsync skip data q err q' P :
  inv q P (fun _ => 0) -> headroom data q ->
  PushAsync HasEmitterID DataSize sizeofEntry skip data q = Ok (err, q') ->
  inv q' P (fun _ => 0) /\ grows q q'.
Proof.
  intros H Hn. unfold PushAsync. destruct (invalidated_ q).
  { intros [= <- <-]. split; [done | apply grows_refl]. }
  destruct (inv_addDataToQueue data q P _ skip None H Hn) as (ids & q1 & -> & H1 & _ & Hg); try done.
  rewrite R_bind_ok. intros [= <- <-]. split; [| done].
  apply (inv_rem _ _ _ _ H1). intros h. rewrite bool_decide_false by done. cbn [b2z]. lia.
Qed.

(** A step that keeps the threads. *)
Lemma same_threads s q' :
  sys_ok s -> grows (s_queue s) q' -> inv q' (pending s) (fun _ => 0) ->
  sys_ok (mk_sys q' (s_threads s)).
Proof.
  intros H Hg Hi. split; [done |]. apply (sys_grow s q' (s_threads s) H Hg).
  intros ms m Hms Hm. left. by exists ms.
Qed.

Lemma step_micro_ok s k m ms :
  sys_ok s -> s_threads s !! k = Some (m :: ms) ->
  exists ms' q', micro m (s_queue s) = Ok (ms', q')
                 /\ sys_ok (mk_sys q' (<[k := ms' ++ ms]> (s_threads s))).
Proof.
  intros H Hk. pose proof H as [Hi Ht].
  assert (m :: ms ∈ s_threads s) as Hin by (apply list_elem_of_lookup; by exists k).
  destruct (inv_micro (s_queue s) m _ _ Hi (pending_head s k m ms Hk)) as (ms' & q' & Hrun & Hids & Hi' & Hg & Hok).
  { apply (Ht (m :: ms)); [done | apply list_elem_of_here]. }
  exists ms', q'. split; [done |]. split; cbn [s_queue s_threads].
  - unfold pending. cbn [s_threads].
    replace (map result_ids (<[k:=ms' ++ ms]> (s_threads s)))
      with (map result_ids (<[k:=ms]> (s_threads s))); [done |].
    change (map result_ids) with (fmap (M := list) result_ids). rewrite !list_fmap_insert. f_equal.
    unfold result_ids in *. rewrite omap_app, Hids. done.
  - apply (sys_grow s q' _ H Hg). intros l x Hl Hx.
    apply list_elem_of_lookup in Hl as [j Hj]. destruct (decide (k = j)) as [<- | Hne].
    + rewrite list_lookup_insert_eq in Hj by (by apply lookup_lt_Some in Hk). injection Hj as <-.
      apply elem_of_app in Hx as [Hx | Hx]; [right; by apply Hok |].
      left. exists (m :: ms). split; [done | by apply list_elem_of_further].
    + rewrite list_lookup_insert_ne in Hj by done. left. exists l. split; [| done].
      apply list_elem_of_lookup. by exists j.
Qed.

Lemma step_answer_ok s i node offset isEmitter err c v :
  sys_ok s -> chunks (s_queue s) !! i = Some c -> znth (values c) offset = Some v ->
  may_answer isEmitter v ->
  exists st ms q', vote i node cc (n - 1) offset isEmitter err (s_queue s) = Ok (st, ms, q')
    /\ sys_ok (mk_sys q' (s_threads s ++ [ms])).
Proof.
  intros H Hc Hv Hm. pose proof H as [Hi Ht].
  destruct (inv_vote _ _ _ i node offset isEmitter err c v Hi Hc Hv Hm) as (st & ms & q' & Hrun & Hi' & Hg & Hms).
  exists st, ms, q'. split; [done |]. split; cbn [s_queue s_threads].
  - unfold pending in *. cbn [s_threads]. rewrite map_app, concat_app. cbn [map concat].
    by rewrite app_nil_r.
  - apply (sys_grow s q' _ H Hg). intros l x [Hl | Hl]%elem_of_app Hx; [left; by exists l |].
    apply list_elem_of_singleton in Hl as ->. right. subst ms.
    apply elem_of_app in Hx as [Hx | Hx].
    + destruct (st_requireResult st); [| by apply not_elem_of_nil in Hx].
      by apply list_elem_of_singleton in Hx as ->.
    + destruct (st_requireErasure st); [| by apply not_elem_of_nil in Hx].
      apply list_elem_of_singleton in Hx as ->. apply Hg. by exists c.
Qed.

Lemma step_ok s s' : sys_ok s -> step s s' -> sys_ok s'.
Proof.
  intros H Hstep. destruct Hstep as [s k m ms ms' q' Hk Hrun | s i node off em err c v st ms q' Hc Hv Hm Hrun
    | s data h ids q' Hh Hn Hrun | s skip data err q' Hn Hrun | s h err q' Hrun | s b err q' Hrun
    | s id nt r q' Hrun | s t | s t].
  - destruct (step_micro_ok s k m ms H Hk) as (ms1 & q1 & E & Hok).
    rewrite Hrun in E. by injection E as <- <-.
  - destruct (step_answer_ok s i node off em err c v H Hc Hv Hm) as (st1 & ms1 & q1 & E & Hok).
    rewrite Hrun in E. by injection E as <- <- <-.
  - destruct (invalidated_ (s_queue s)) eqn:Ei.
    { unfold PushAndWait_begin in Hrun. by rewrite Ei in Hrun. }
    destruct (inv_begin data h _ _ (sys_inv _ H) Hh Ei Hn) as (ids1 & q1 & E & Hi & Hg).
    rewrite Hrun in E. injection E as <- <-. by apply same_threads.
  - destruct (inv_PushAsync skip data _ err q' _ (sys_inv _ H) Hn Hrun) as [Hi Hg]. by apply same_threads.
  - apply same_threads; [done | | by apply (inv_end h _ _ err q' (sys_inv _ H))].
    unfold PushAndWait_end in Hrun. destruct (waiters (s_queue s) !! h) as [w |]; [| done].
    destruct (_ =? _); [| done]. injection Hrun as <- <-. by intros i.
  - destruct (inv_SetWritable b err _ _ (sys_inv _ H)) as (q1 & E & Hi & Hg & _).
    rewrite Hrun in E. injection E as <-. by apply same_threads.
  - destruct (Read_inv id nt _ r q' _ _ (sys_inv _ H) Hrun) as [Hi Hc].
    apply same_threads; [done | | done]. intros i. by rewrite Hc.
  - apply same_threads; [done | by intros i |].
    apply (inv_frame (s_queue s)); try done; [apply H | apply set_notifiers_ok, H].
  - apply same_threads; [done | by intros i |].
    apply (inv_frame (s_queue s)); try done; [apply H | apply set_notifiers_ok, H].
Qed.

Lemma reachable_ok maxDataSize s : reachable maxDataSize s -> sys_ok s.
Proof.
  induction 1 as [| s s' _ IH Hstep]; [| by apply (step_ok s)].
  split; [apply inv_init |]. intros ms m Hms. by apply not_elem_of_nil in Hms.
Qed.

(** ** Termination of [OnUpdateHandled] *)

(** What a step costs, and the steps that it starts, but for one erasing per chunk. *)
Definition cost (m : Micro) : nat :=
  match m with MResult _ _ => 2 | MEraseLoop => 1 | MErased _ _ => 3 | MCheck _ => 2 end.
Definition costs (ms : list Micro) : nat := sum_list_with cost ms.

Lemma onResult_value_queue v err q v' q' :
  onResult_value v err q = Ok (v', q') -> queue_ q' = queue_ q.
Proof.
  unfold onResult_value, call_handler. destruct (onResult_ v) as [h |]; [| by intros [= <- <-]].
  destruct (waiters q !! h); [| done]. rewrite R_bind_ok. by intros [= <- <-].
Qed.

Lemma onResult_queue id err q b q' :
  onResult id err q = Ok (b, q') -> queue_ q' = queue_ q.
Proof.
  unfold onResult. destruct (tryGetIdx id q) as [idx |]; [| by intros [= <- <-]].
  destruct (znth (queue_ q) idx) as [i |]; [cbn [of_option]; rewrite R_bind_ok | done].
  destruct (chunks q !! i) as [c |]; [cbn [of_option]; rewrite R_bind_ok | done].
  destruct (value _ c) as [v |]; [rewrite R_bind_ok | done].
  destruct (addSentResult c) as [c' |]; [rewrite R_bind_ok | done].
  destruct (onResult_value v err q) as [[v' q1] |] eqn:E; [rewrite R_bind_ok | done].
  intros [= <- <-]. by apply onResult_value_queue in E.
Qed.

Lemma micro_cost m q ms q' :
  micro m q = Ok (ms, q') ->
  (costs ms + length (queue_ q') < cost m + length (queue_ q))%nat.
Proof.
  destruct m as [id err | | i id | i]; cbn [micro].
  - destruct (onResult id err q) as [[b q1] |] eqn:E; [rewrite R_bind_ok | done].
    apply onResult_queue in E. intros [= <- <-]. cbn [fst snd]. rewrite E. destruct b; cbn; lia.
  - unfold erase_front. destruct (queue_ q) as [| i rest] eqn:Eq.
    { intros [= <- <-]. rewrite Eq. cbn. lia. }
    destruct (chunks q !! i) as [c |]; [| intros [= <- <-]; rewrite Eq; cbn; lia].
    destruct (isAllResultsSent c && IsFullyErased c); intros [= <- <-]; [cbn; lia |].
    rewrite Eq. cbn. lia.
  - destruct (chunks q !! i) as [c |]; [cbn [of_option]; rewrite R_bind_ok | done].
    intros [= <- <-]. cbn. lia.
  - destruct (chunks q !! i) as [c |]; [cbn [of_option]; rewrite R_bind_ok | done].
    intros [= <- <-]. destruct (IsFullyErased c); cbn; lia.
Qed.

Lemma costs_app ms ms' : costs (ms ++ ms') = (costs ms + costs ms')%nat.
Proof. apply sum_list_with_app. Qed.

(** A thread that is not interrupted ends. *)
Lemma run_ends fuel ms q P' :
  inv q (result_ids ms ++ P') (fun _ => 0) -> (forall m, m ∈ ms -> micro_ok q m) ->
  (costs ms + length (queue_ q) <= fuel)%nat ->
  exists q', run fuel ms q = Ok q' /\ inv q' P' (fun _ => 0) /\ grows q q'.
Proof.
  revert ms q. induction fuel as [| fuel IH]; intros [| m ms] q H Hok Hf.
  - exists q. split_and!; [done | done | apply grows_refl].
  - unfold costs in Hf. cbn in Hf. destruct m; cbn in Hf; lia.
  - exists q. split_and!; [done | done | apply grows_refl].
  - cbn [run].
    assert (result_ids (m :: ms) ++ P' = result_ids [m] ++ (result_ids ms ++ P')) as Hids.
    { unfold result_ids. rewrite app_assoc. by rewrite <- (omap_app result_id [m] ms). }
    rewrite Hids in H.
    destruct (inv_micro q m _ _ H (reflexivity _)) as (ms' & q1 & Hrun & Hids' & H1 & Hg & Hok').
    { apply Hok, list_elem_of_here. }
    rewrite Hrun, R_bind_ok. cbn [fst snd]. pose proof (micro_cost _ _ _ _ Hrun) as Hc.
    destruct (IH (ms' ++ ms) q1) as (q' & -> & H' & Hg').
    + unfold result_ids in *. by rewrite omap_app, Hids'.
    + intros x [Hx | Hx]%elem_of_app; [by apply Hok' |].
      specialize (Hok x). rewrite elem_of_cons in Hok. specialize (Hok (or_intror Hx)).
      destruct x; cbn in *; try done; by apply Hg.
    + rewrite costs_app. unfold costs in *. cbn [sum_list_with] in Hf. lia.
    + exists q'. split_and!; [done | done | by eapply grows_trans].
Qed.

Lemma vote_queue i node k1 k2 offset isEmitter err q st ms q' :
  vote i node k1 k2 offset isEmitter err q = Ok (st, ms, q') -> queue_ q' = queue_ q.
Proof.
  unfold vote. destruct (chunks q !! i) as [c |]; [cbn [of_option]; rewrite R_bind_ok | done].
  destruct (znth (values c) offset) as [v |]; [cbn [of_option]; rewrite R_bind_ok | done].
  destruct (replicated _ _ _ _ _) as [r |]; [rewrite R_bind_ok | done]. by intros [= <- <- <-].
Qed.

Lemma OnUpdateHandled_ends q P i node offset isEmitter err c v :
  inv q P (fun _ => 0) -> chunks q !! i = Some c -> znth (values c) offset = Some v ->
  may_answer isEmitter v ->
  exists st q', OnUpdateHandled i node cc (n - 1) offset isEmitter err q = Ok (verdict_of st, q')
    /\ inv q' P (fun _ => 0) /\ grows q q'.
Proof.
  intros H Hc Hv Hm.
  destruct (inv_vote q P _ i node offset isEmitter err c v H Hc Hv Hm) as (st & ms & q1 & Hrun & H1 & Hg & Hms).
  pose proof (vote_queue _ _ _ _ _ _ _ _ _ _ _ Hrun) as Eq.
  unfold OnUpdateHandled. rewrite Hrun, R_bind_ok.
  destruct (run_ends (handle_fuel q1) ms q1 P) as (q' & -> & H' & Hg').
  - by rewrite Permutation_app_comm.
  - intros m Hin. rewrite Hms in Hin. apply elem_of_app in Hin as [Hin | Hin].
    + destruct (st_requireResult st); [| by apply not_elem_of_nil in Hin].
      by apply list_elem_of_singleton in Hin as ->.
    + destruct (st_requireErasure st); [| by apply not_elem_of_nil in Hin].
      apply list_elem_of_singleton in Hin as ->. apply Hg. by exists c.
  - unfold handle_fuel. rewrite Hms, costs_app.
    destruct (st_requireResult st), (st_requireErasure st); cbn; lia.
  - rewrite R_bind_ok. exists st, q'. split_and!; [done | done | by eapply grows_trans].
Qed.

(** ** Waiting *)

Lemma all_answered_voted q P k v :
  inv q P (fun _ => 0) -> Z.odd n = true -> znth (vals q) k = Some v ->
  replicas (replication_ v) = n - 1 -> voted cc (replication_ v) = true.
Proof.
  intros H Hodd Hv Hr. pose proof (znth_Some _ _ _ Hv) as Hk.
  destruct (chunk_at q (first q + k) (in_q _ _ _ H)) as (kc & c & v' & _ & _ & Hc & _ & _ & _ & Hvc & Hvv); [lia |].
  replace (first q + k - first q) with k in Hvv by lia. assert (v' = v) as -> by congruence.
  destruct (in_entry _ _ _ H _ c _ v Hc Hvc) as [E1 E2 Ee _].
  unfold voted. rewrite Ee by done. cbn [andb]. apply Z.odd_spec in Hodd as [x Hx].
  assert (cc = x + 1) as -> by (unfold cc, GetConsensusForN; dlia). lia.
Qed.

Lemma call_handler_waiters x err q q' h :
  call_handler x err q = Ok q' -> is_Some (waiters q !! h) -> is_Some (waiters q' !! h).
Proof.
  unfold call_handler. destruct (waiters q !! x) as [w |]; [| done]. intros [= <-] Hh. cbn.
  destruct (decide (x = h)) as [-> | Hne]; [rewrite lookup_insert_eq; by eexists |].
  by rewrite lookup_insert_ne.
Qed.

Lemma fail_values_waiters vs err q r h :
  fail_values vs err q = Ok r -> is_Some (waiters q !! h) -> is_Some (waiters (snd r) !! h).
Proof.
  revert q r. induction vs as [| v vs IH]; intros q r; cbn [fail_values]; [by intros [= <-] |].
  destruct (onResult_value v err q) as [[v' q1] |] eqn:E; [rewrite R_bind_ok; cbn [fst snd] | done].
  destruct (fail_values vs err q1) as [r' |] eqn:E'; [rewrite R_bind_ok | done].
  intros [= <-] Hh. apply (IH q1 r' E'). unfold onResult_value in E.
  destruct (onResult_ v) as [x |]; [| by injection E as _ <-].
  destruct (call_handler x err q) as [q2 |] eqn:E2; [rewrite R_bind_ok in E | done].
  injection E as _ <-. by apply (call_handler_waiters x err q).
Qed.

(** Invalidation ends no wait: the waiters return by themselves. *)
Lemma SetWritable_waiters b err q q' h :
  SetWritable b err q = Ok q' -> is_Some (waiters q !! h) -> is_Some (waiters q' !! h).
Proof.
  unfold SetWritable. destruct b; [by intros [= <-] |].
  assert (forall l (x y : Queue U), fail_chunks l err x = Ok y -> is_Some (waiters x !! h) ->
            is_Some (waiters y !! h)) as Hl.
  { induction l as [| i l IH]; intros x y; cbn [fail_chunks]; [by intros [= <-] |].
    unfold fail_chunk. destruct (chunks x !! i) as [c |]; [cbn [of_option]; rewrite R_bind_ok | done].
    destruct (fail_values (values c) err x) as [r |] eqn:E; [rewrite R_bind_ok | done].
    cbn [mret result_ret]. rewrite R_bind_ok. intros Hy Hx. apply (IH _ _ Hy).
    by apply (fail_values_waiters _ _ _ _ _ E). }
  destruct (fail_chunks _ err _) as [q1 |] eqn:E; [rewrite R_bind_ok | done].
  intros [= <-] Hh. specialize (Hl _ _ _ E Hh). cbn. by destruct (0 <=? _).
Qed.

Lemma waiter_done q P h w :
  inv q P (fun _ => 0) -> waiters q !! h = Some w -> count (handled_by h) (vals q) = 0 ->
  exists q', PushAndWait_end h q = Some (w_err w, q').
Proof.
  intros H Hw Hz. pose proof (in_wait _ _ _ H h w Hw) as He. cbv beta in He.
  unfold PushAndWait_end. rewrite Hw. rewrite (proj2 (Z.eqb_eq _ _)) by lia. by eexists.
Qed.
End Sys.

(** ** Properties *)

Section Properties.
Context {U : Type} (HasEmitterID : U -> bool) (DataSize : U -> Z) (sizeofEntry : Z).
Context (n maxDataSize : Z).

(** C2: Invariant of the replication queue of a leader, in every state that pushes, answers
    of the followers, invalidations and the atomic steps of all the threads can reach: the
    queue is a sequence of consecutive chunks whose sizes add up to [dataSize_], every chunk
    counts exactly its sent results, and every waiting [PushAndWait] has been told the results
    of exactly those of its updates whose handler is gone. *)
Theorem replication_queue_invariant s
    (Hn : 2 <= n < 65536)
    (Hs : reachable HasEmitterID DataSize sizeofEntry n maxDataSize s) :
  let q := s_queue s in
  q_ok q
  /\ (forall i c, i ∈ queue_ q -> chunks q !! i = Some c ->
        0 <= resultsSent_ c <= Count c
        /\ resultsSent_ c + count (in_block i) (pending s) = count (finished n) (values c))
  /\ (forall h w, waiters q !! h = Some w ->
        w_executedCnt w + count (handled_by h) (vals q) = w_dataSize w)
  /\ NoDup (pending s).
Proof.
  intros q. pose proof (sys_inv _ _ (reachable_ok _ _ _ n Hn maxDataSize s Hs)) as H.
  split_and!; [apply H | | | apply H].
  - intros i c Hi Hc. split; [by apply (in_sent _ _ _ _ H i)|].
    pose proof (in_acc _ _ _ _ H i c Hi Hc) as Ha. unfold chunk_acc in Ha.
    by destruct (ok_chunk _ (in_q _ _ _ _ H) i c Hc) as (<- & _).
  - intros h w Hw. pose proof (in_wait _ _ _ _ H h w Hw) as He. cbv beta in He. unfold q. lia.
Qed.

(** C34: No step of the replication queue fails in a reachable state: the next step of any
    thread inside of [OnUpdateHandled], an answer of a follower, an invalidation and a push all
    run without failing an assertion, and a result handler is only ever called while its
    [PushAndWait] is still waiting. *)
Theorem replication_queue_safe s
    (Hn : 2 <= n < 65536)
    (Hs : reachable HasEmitterID DataSize sizeofEntry n maxDataSize s) :
  let q := s_queue s in
  (forall k m ms, s_threads s !! k = Some (m :: ms) -> is_ok (micro m q) = true)
  /\ (forall i node offset isEmitter err c v,
        chunks q !! i = Some c -> znth (values c) offset = Some v -> may_answer n isEmitter v ->
        is_ok (vote i node (cc n) (n - 1) offset isEmitter err q) = true)
  /\ (forall b err, is_ok (SetWritable b err q) = true)
  /\ (forall data h, waiters q !! h = None -> headroom data q ->
        is_ok (PushAndWait_begin HasEmitterID DataSize sizeofEntry data h q) = true).
Proof.
  cbv zeta. pose proof (reachable_ok _ _ _ n Hn maxDataSize s Hs) as H.
  pose proof (sys_inv _ _ H) as Hi. split_and!.
  - intros k m ms Hk. by destruct (step_micro_ok n Hn s k m ms H Hk) as (ms' & q' & -> & _).
  - intros i node offset isEmitter err c v Hc Hv Hm.
    by destruct (step_answer_ok n Hn s i node offset isEmitter err c v H Hc Hv Hm)
      as (st & ms & q' & -> & _).
  - intros b err. by destruct (inv_SetWritable n b err _ _ Hi) as (q' & -> & _).
  - intros data h Hh Hd. destruct (invalidated_ (s_queue s)) eqn:Ei.
    { unfold PushAndWait_begin. by rewrite Ei. }
    by destruct (inv_begin HasEmitterID DataSize sizeofEntry n Hn data h _ _ Hi Hh Ei Hd)
      as (ids & q' & -> & _).
Qed.

(** [OnUpdateHandled] terminates: in every reachable state the answer of a follower runs
    to its end within the fuel of the model, erasing included, and returns the verdict. *)
Theorem OnUpdateHandled_terminates s i node offset isEmitter err c v
    (Hn : 2 <= n < 65536)
    (Hs : reachable HasEmitterID DataSize sizeofEntry n maxDataSize s)
    (Hc : chunks (s_queue s) !! i = Some c) (Hv : znth (values c) offset = Some v)
    (Hm : may_answer n isEmitter v) :
  exists st q',
    OnUpdateHandled i node (cc n) (n - 1) offset isEmitter err (s_queue s)
    = Ok (verdict_of st, q') /\ q_ok q'.
Proof.
  pose proof (sys_inv _ _ (reachable_ok _ _ _ n Hn maxDataSize s Hs)) as Hi.
  destruct (OnUpdateHandled_ends n Hn _ _ i node offset isEmitter err c v Hi Hc Hv Hm)
    as (st & q' & Hrun & H' & _).
  exists st, q'. split; [done | apply H'].
Qed.

(** C3: [PushAndWait] returns. In a cluster with an odd number of nodes, once the followers
    have answered the updates of the queue and no thread has a step left, every waiting call
    returns; and in any cluster every waiting call returns after the queue was invalidated. *)
Theorem PushAndWait_returns s h w
    (Hn : 2 <= n < 65536)
    (Hs : reachable HasEmitterID DataSize sizeofEntry n maxDataSize s)
    (Hw : waiters (s_queue s) !! h = Some w) :
  (Z.odd n = true -> pending s = [] ->
   (forall k v, znth (vals (s_queue s)) k = Some v -> onResult_ v = Some h ->
      replicas (replication_ v) = n - 1) ->
   exists q', PushAndWait_end h (s_queue s) = Some (w_err w, q'))
  /\ (forall err q', SetWritable false err (s_queue s) = Ok q' ->
      exists e q'', PushAndWait_end h q' = Some (e, q'')).
Proof.
  pose proof (sys_inv _ _ (reachable_ok _ _ _ n Hn maxDataSize s Hs)) as Hi. split.
  - intros Hodd Hp Hall. apply (waiter_done n _ (pending s) h w Hi Hw). apply count_zero.
    intros v Hv. unfold handled_by. apply bool_decide_eq_false. intros Hh.
    apply list_elem_of_lookup in Hv as [k Hk]. rewrite <- znth_lookup in Hk.
    destruct (in_handler _ _ _ _ Hi _ v Hk h Hh) as (_ & Hvp & _).
    pose proof (all_answered_voted n _ _ _ v Hi Hodd Hk (Hall _ v Hk Hh)) as Hvt.
    specialize (Hvp Hvt). rewrite Hp in Hvp. by apply not_elem_of_nil in Hvp.
  - intros err q' Hrun. destruct (inv_SetWritable n false err _ _ Hi) as (q1 & E & Hi1 & _ & Hq1).
    rewrite Hrun in E. injection E as <-. destruct (Hq1 eq_refl) as [He _].
    assert (is_Some (waiters q' !! h)) as [w' Hw'].
    { apply (SetWritable_waiters false err (s_queue s)); [done | by eexists]. }
    destruct (waiter_done n q' (pending s) h w' Hi1 Hw') as [q'' Hq''].
    { apply count_zero. intros v Hv. unfold vals in Hv. rewrite He in Hv. by apply not_elem_of_nil in Hv. }
    by exists (w_err w'), q''.
Qed.
End Properties.

(** ** Witnesses *)

(** Three nodes; one call of [PushAndWait] with two updates, and the first answer. *)
Definition sample_begin : option ErrorCode * list Z * Queue Z :=
  match PushAndWait_begin no_emitter ten_bytes 64 [70; 80] 1 (new_UpdatesQueue 0) with
  | Ok r => r
  | Fail _ => (None, [], new_UpdatesQueue 0)
  end.
Definition sample_pushed : Sys := mk_sys (snd sample_begin) [].

Definition sample_vote : UpdatesStatus * list Micro * Queue Z :=
  match vote 0 7 2 2 0 false errOK (snd sample_begin) with
  | Ok r => r
  | Fail _ => (mk_status false false false errOK, [], new_UpdatesQueue 0)
  end.
Definition sample_answered : Sys := mk_sys (snd sample_vote) [snd (fst sample_vote)].

Lemma sample_pushed_reachable :
  reachable no_emitter ten_bytes 64 3 0 sample_pushed.
Proof.
  apply (reach_step _ _ _ _ _ (init 0)); [apply reach_init |].
  apply (step_push_wait _ _ _ _ (init 0) [70; 80] 1 (snd (fst sample_begin))); vm_compute; reflexivity.
Qed.

Lemma sample_answered_reachable :
  reachable no_emitter ten_bytes 64 3 0 sample_answered.
Proof.
  apply (reach_step _ _ _ _ _ sample_pushed); [apply sample_pushed_reachable |].
  destruct (chunks (s_queue sample_pushed) !! 0) as [c |] eqn:Ec; [| discriminate].
  destruct (znth (values c) 0) as [v |] eqn:Ev.
  - apply (step_answer _ _ _ _ sample_pushed 0 7 0 false errOK c v (fst (fst sample_vote))
             (snd (fst sample_vote))); [done | done | | vm_compute; reflexivity].
    vm_compute in Ec. injection Ec as <-. vm_compute in Ev. injection Ev as <-.
    vm_compute. by split_and!.
  - vm_compute in Ec. injection Ec as <-. discriminate.
Qed.

Example replication_queue_invariant_witness :
  let q := s_queue sample_answered in
  (forall h w, waiters q !! h = Some w ->
     w_executedCnt w + count (handled_by h) (vals q) = w_dataSize w)
  /\ pending sample_answered = [0] /\ count (handled_by 1) (vals q) = 2.
Proof.
  split.
  - apply (replication_queue_invariant no_emitter ten_bytes 64 3 0 sample_answered);
      [lia | apply sample_answered_reachable].
  - split; vm_compute; reflexivity.
Defined.

Example replication_queue_safe_witness :
  is_ok (micro (MResult 0 errOK) (s_queue sample_answered)) = true.
Proof.
  apply (proj1 (replication_queue_safe no_emitter ten_bytes 64 3 0 sample_answered ltac:(lia)
                  sample_answered_reachable) O (MResult 0 errOK) []).
  vm_compute. reflexivity.
Defined.

Example OnUpdateHandled_terminates_witness :
  exists st q', OnUpdateHandled 0 8 2 2 1 false errNetwork (s_queue sample_answered)
                = Ok (verdict_of st, q') /\ q_ok q'.
Proof.
  destruct (chunks (s_queue sample_answered) !! 0) as [c |] eqn:Ec; [| discriminate Ec].
  destruct (znth (values c) 1) as [v |] eqn:Ev.
  - apply (OnUpdateHandled_terminates no_emitter ten_bytes 64 3 0 sample_answered 0 8 1 false
             errNetwork c v); [lia | apply sample_answered_reachable | exact Ec | exact Ev |].
    vm_compute in Ec. injection Ec as <-. vm_compute in Ev. injection Ev as <-.
    vm_compute. by split_and!.
  - vm_compute in Ec. injection Ec as <-. discriminate Ev.
Defined.

Example PushAndWait_returns_witness :
  exists w q' e q'',
    waiters (s_queue sample_answered) !! 1 = Some w
    /\ SetWritable false errTerminated (s_queue sample_answered) = Ok q'
    /\ PushAndWait_end 1 q' = Some (e, q'') /\ e = errTerminated.
Proof.
  destruct (waiters (s_queue sample_answered) !! 1) as [w |] eqn:Ew; [| discriminate Ew].
  destruct (SetWritable false errTerminated (s_queue sample_answered)) as [q' |] eqn:Eq;
    [| discriminate Eq].
  destruct (proj2 (PushAndWait_returns no_emitter ten_bytes 64 3 0 sample_answered 1 w ltac:(lia)
                     sample_answered_reachable Ew) errTerminated q' Eq) as (e & q'' & He).
  exists w, q', e, q''. split; [reflexivity |]. split; [reflexivity |]. split; [exact He |].
  vm_compute in Eq. injection Eq as <-. vm_compute in He. by injection He as <- _.
Defined.
