(* ===== verification/ExpressionTree.v ===== *)
(** * ExpressionTree: trees of conditions and expressions in a vector

    Models [core/expressiontree.h]: the class [Bracket], the nodes and the operations of
    [ExpressionTree]. The data are the same as in the code: a vector of nodes in which the head of
    a subtree holds the number of nodes that the subtree occupies, and the stack of the positions
    of the brackets that are open for appending. Sizes and positions are [nat]: they count nodes
    of a vector in memory. The checks [assertrx_dbg] and [assertrx_throw] are part of the model
    and fail with [AssertFail], and so does [std::get] of another alternative; a theorem that
    gives [Ok] holds for the builds with and without the checks. The visitors are plain matches. *)

From S2P Require Import Prelude.
#[local] Open Scope nat_scope.

(** ** Data *)

Section Data.
Context {Op B V : Type}.

(** [std::variant<SubTree, Ts...>]: the payload [B] is what a subtree has besides its size (the
    equal positions of [QueryEntriesBracket], nothing for [Bracket]), [V] are the types [Ts]. *)
Inductive Storage : Type :=
| SubTree (size_ : nat) (payload : B)
| Value (v : V).

Record Node : Type := mk_node { operation : Op; storage_ : Storage }.

Record ExpressionTree : Type := mk_tree {
  container_ : list Node;
  activeBrackets_ : list nat
}.

Definition empty_tree : ExpressionTree := mk_tree [] [].

(** ** Nodes *)

Definition Bracket_Append (size_ : nat) : nat := S size_.

Definition Bracket_Erase (size_ length : nat) : result nat :=
  if length <? size_ then Ok (size_ - length) else Fail AssertFail.

Definition Node_Size (nd : Node) : nat :=
  match storage_ nd with SubTree s _ => s | Value _ => 1 end.

Definition Node_IsSubTree (nd : Node) : bool :=
  match storage_ nd with SubTree _ _ => true | Value _ => false end.

Definition Node_Append (nd : Node) : result Node :=
  match storage_ nd with
  | SubTree s p => Ok (mk_node (operation nd) (SubTree (Bracket_Append s) p))
  | Value _ => Fail AssertFail
  end.

Definition Node_Erase (length : nat) (nd : Node) : result Node :=
  match storage_ nd with
  | SubTree s p => s ← Bracket_Erase s length; mret (mk_node (operation nd) (SubTree s p))
  | Value _ => Fail AssertFail
  end.

Definition Node_SetValue (v : V) (nd : Node) : Node := mk_node (operation nd) (Value v).

(** ** Reading *)

Definition Empty (t : ExpressionTree) : bool :=
  match container_ t with [] => true | _ => false end.

Definition Size (t : ExpressionTree) : nat := length (container_ t).

Definition node_at (i : nat) (t : ExpressionTree) : result Node :=
  of_option AssertFail (container_ t !! i).

Definition Size_of (i : nat) (t : ExpressionTree) : result nat := Node_Size <$> node_at i t.

Definition Next (i : nat) (t : ExpressionTree) : result nat := (fun s => i + s) <$> Size_of i t.

Definition IsSubTree (i : nat) (t : ExpressionTree) : result bool :=
  Node_IsSubTree <$> node_at i t.

Definition GetOperation (i : nat) (t : ExpressionTree) : result Op := operation <$> node_at i t.

(** [Get<T>] and the visitors: the argument of a leaf. *)
Definition Get (i : nat) (t : ExpressionTree) : result V :=
  nd ← node_at i t;
  match storage_ nd with Value v => Ok v | SubTree _ _ => Fail AssertFail end.

(** The iterators over the children of one parent are positions. *)
Definition const_iterator_next (i : nat) (t : ExpressionTree) : result nat :=
  s ← Size_of i t; mret (i + s).

Definition const_iterator_cbegin (i : nat) (t : ExpressionTree) : result nat :=
  b ← IsSubTree i t;
  if (b : bool) then Ok (i + 1) else Fail AssertFail.

Definition const_iterator_cend (i : nat) (t : ExpressionTree) : result nat :=
  b ← IsSubTree i t;
  s ← Size_of i t;
  if (b : bool) then Ok (i + s) else Fail AssertFail.

Definition begin_of_current_bracket (t : ExpressionTree) : nat :=
  match last (activeBrackets_ t) with None => 0 | Some b => b + 1 end.

(** ** Loops over the container *)

(** [for (unsigned i : activeBrackets_) { container_[i]... }] *)
Fixpoint for_active (f : Node -> result Node) (active : list nat) (c : list Node)
  : result (list Node) :=
  match active with
  | [] => Ok c
  | i :: active =>
      nd ← of_option AssertFail (c !! i);
      nd ← f nd;
      for_active f active (<[i := nd]> c)
  end.

(** [for (size_t i = 0; i < n; ++i)] over nodes that are changed one by one: a step reads and
    changes the node [i] only. *)
Fixpoint for_nodes (f : nat -> Node -> result Node) (i n : nat) (c : list Node)
  : result (list Node) :=
  match n with
  | O => Ok c
  | S n =>
      match c with
      | [] => Fail AssertFail
      | nd :: c => nd ← f i nd; c ← for_nodes f (S i) n c; mret (nd :: c)
      end
  end.

(** [for (unsigned& b : activeBrackets_) { if (cond(b)) ++b; }] *)
Definition shift_active (cond : nat -> bool) (t : ExpressionTree) : result (list nat) :=
  if forallb (fun b => b <? Size t) (activeBrackets_ t)
  then Ok (map (fun b => if cond b then S b else b) (activeBrackets_ t))
  else Fail AssertFail.

(** The step of the loops that count a node inserted at [pos]. *)
Definition append_if_beyond (pos i : nat) (nd : Node) : result Node :=
  if Node_IsSubTree nd && (pos <? i + Node_Size nd) then Node_Append nd else Ok nd.

(** [container_.emplace(container_.begin() + pos, ...)] and [container_.erase(...)] *)
Definition emplace (pos : nat) (nd : Node) (c : list Node) : list Node :=
  take pos c ++ nd :: drop pos c.

Definition erase (from to : nat) (c : list Node) : list Node := take from c ++ drop to c.

(** ** Operations

    [post] is [PostProcessor<T>::Process] of the type of the value, [no_post] the one that does
    nothing ([NoOp]). The operations return the number of inserted nodes. *)

Definition PostProcessor : Type := ExpressionTree -> nat -> result (nat * ExpressionTree).

Definition no_post : PostProcessor := fun t _ => Ok (0, t).

Definition inserted (post : PostProcessor) (t : ExpressionTree) (pos : nat)
  : result (nat * ExpressionTree) :=
  p ← post t pos;
  mret (1 + fst p, snd p).

Definition Append (post : PostProcessor) (op : Op) (v : V) (t : ExpressionTree)
  : result (nat * ExpressionTree) :=
  c ← for_active Node_Append (activeBrackets_ t) (container_ t);
  let t := mk_tree (c ++ [mk_node op (Value v)]) (activeBrackets_ t) in
  inserted post t (Size t - 1).

Definition Insert (post : PostProcessor) (pos : nat) (op : Op) (v : V) (t : ExpressionTree)
  : result (nat * ExpressionTree) :=
  if pos =? Size t then Append post op v t
  else if negb (pos <? Size t) then Fail AssertFail
  else
    active ← shift_active (fun b => pos <=? b) t;
    c ← for_nodes (append_if_beyond pos) 0 pos (container_ t);
    inserted post (mk_tree (emplace pos (mk_node op (Value v)) c) active) pos.

(** [Emplace] constructs the value in place and is [Insert] otherwise. *)
Definition Emplace (post : PostProcessor) (pos : nat) (op : Op) (v : V) (t : ExpressionTree)
  : result (nat * ExpressionTree) :=
  if pos =? Size t then Append post op v t
  else if negb (pos <? Size t) then Fail AssertFail
  else
    active ← shift_active (fun b => pos <=? b) t;
    c ← for_nodes (append_if_beyond pos) 0 pos (container_ t);
    inserted post (mk_tree (emplace pos (mk_node op (Value v)) c) active) pos.

Definition InsertAfter (post : PostProcessor) (pos : nat) (op : Op) (v : V)
    (t : ExpressionTree) : result (nat * ExpressionTree) :=
  if negb (pos <? Size t) then Fail AssertFail
  else
    active ← shift_active (fun b => pos <? b) t;
    c ← for_nodes (append_if_beyond pos) 0 pos (container_ t);
    let pos := pos + 1 in
    inserted post (mk_tree (emplace pos (mk_node op (Value v)) c) active) pos.

Definition AppendFront (post : PostProcessor) (op : Op) (v : V) (t : ExpressionTree)
  : result (nat * ExpressionTree) :=
  inserted post (mk_tree (mk_node op (Value v) :: container_ t) (map S (activeBrackets_ t))) 0.

Definition PopBack (t : ExpressionTree) : result ExpressionTree :=
  if Empty t then Fail AssertFail
  else
    c ← for_active (Node_Erase 1) (activeBrackets_ t) (container_ t);
    nd ← of_option AssertFail (last c);
    let popped :=
      Node_IsSubTree nd &&
      match last (activeBrackets_ t) with Some b => b =? length c - 1 | None => false end in
    mret (mk_tree (removelast c)
            (if popped then removelast (activeBrackets_ t) else activeBrackets_ t)).

(** The loop of [EncloseInBracket] over the nodes before the bracket. *)
Definition enclose_step (from to i : nat) (nd : Node) : result Node :=
  if Node_IsSubTree nd then
    let bracketEnd := i + Node_Size nd in
    if to <=? bracketEnd then Node_Append nd
    else if bracketEnd <=? from then Ok nd else Fail AssertFail
  else Ok nd.

Definition EncloseInBracket (from to : nat) (op : Op) (p : B) (t : ExpressionTree)
  : result ExpressionTree :=
  if negb ((from <? to) && (to <=? Size t)) then Fail AssertFail
  else
    active ← shift_active (fun b => from <=? b) t;
    c ← for_nodes (enclose_step from to) 0 from (container_ t);
    mret (mk_tree (emplace from (mk_node op (SubTree (to - from + 1) p)) c) active).

Definition OpenBracket (op : Op) (p : B) (t : ExpressionTree) : result ExpressionTree :=
  c ← for_active Node_Append (activeBrackets_ t) (container_ t);
  mret (mk_tree (c ++ [mk_node op (SubTree 1 p)]) (activeBrackets_ t ++ [length c])).

Definition CloseBracket (t : ExpressionTree) : result ExpressionTree :=
  match activeBrackets_ t with
  | [] => Fail (Throw errLogic)
  | _ => Ok (mk_tree (container_ t) (removelast (activeBrackets_ t)))
  end.

Definition SetOperation (op : Op) (i : nat) (t : ExpressionTree) : result ExpressionTree :=
  nd ← node_at i t;
  mret (mk_tree (<[i := mk_node op (storage_ nd)]> (container_ t)) (activeBrackets_ t)).

Definition SetValue (post : PostProcessor) (i : nat) (v : V) (t : ExpressionTree)
  : result (nat * ExpressionTree) :=
  nd ← node_at i t;
  inserted post
    (mk_tree (<[i := Node_SetValue v nd]> (container_ t)) (activeBrackets_ t)) i.

(** [TryUpdateInplace], with the method of the type of the value as an argument. *)
Definition TryUpdateInplace (try_update : V -> option V) (i : nat) (t : ExpressionTree)
  : result (bool * ExpressionTree) :=
  nd ← node_at i t;
  match storage_ nd with
  | SubTree _ _ => Ok (false, t)
  | Value v =>
      match try_update v with
      | None => Ok (false, t)
      | Some v =>
          Ok (true, mk_tree (<[i := mk_node (operation nd) (Value v)]> (container_ t))
                      (activeBrackets_ t))
      end
  end.

(** The loop of [Erase] over the nodes before the erased ones. *)
Definition erase_step (from to i : nat) (nd : Node) : result Node :=
  if Node_IsSubTree nd then
    if to <=? i + Node_Size nd then Node_Erase (to - from) nd
    else if i + Node_Size nd <=? from then Ok nd else Fail AssertFail
  else Ok nd.

Definition Erase (from to : nat) (t : ExpressionTree) : result ExpressionTree :=
  if negb ((from <=? to) && (to <=? Size t)) then Fail AssertFail
  else
    c ← for_nodes (erase_step from to) 0 from (container_ t);
    let kept := filter (fun b => negb ((from <=? b) && (b <? to)) = true) (activeBrackets_ t) in
    mret (mk_tree (erase from to c)
            (map (fun b => if to <=? b then b - (to - from) else b) kept)).

(** The loop of [LastAppendedElement]; the fuel is the size of the container. *)
Fixpoint last_element_loop (fuel start : nat) (t : ExpressionTree) : result nat :=
  match fuel with
  | O => Fail OutOfFuel
  | S fuel =>
      next ← Next start t;
      if next =? Size t then Ok start else last_element_loop fuel next t
  end.

Definition LastAppendedElement (t : ExpressionTree) : result nat :=
  if Empty t then Fail AssertFail
  else
    let start := match last (activeBrackets_ t) with Some b => b + 1 | None => 0 end in
    if (match activeBrackets_ t with [] => false | _ => true end) && (start =? Size t)
    then Ok (start - 1)
    else last_element_loop (Size t) start t.

Definition SetLastOperation (op : Op) (t : ExpressionTree) : result ExpressionTree :=
  i ← LastAppendedElement t;
  SetOperation op i t.

(** [append]: copies the nodes of [src] between two iterators into the last open bracket. The
    fuel bounds the steps of the loops, nested ones included. [copied] is the payload of a new
    bracket after [CopyPayloadFrom]: brackets that override the method have the payload of the
    source, [Bracket] itself copies nothing; [post] is the post-processor of the type of a value. *)
Fixpoint append_range (copied : B -> B) (post : V -> PostProcessor) (fuel : nat) (src : ExpressionTree) (from to : nat) (t : ExpressionTree)
  : result ExpressionTree :=
  match fuel with
  | O => Fail OutOfFuel
  | S fuel =>
      if from =? to then Ok t
      else
        nd ← node_at from src;
        next ← const_iterator_next from src;
        t ← match storage_ nd with
            | SubTree _ p =>
                t ← OpenBracket (operation nd) (copied p) t;
                b ← const_iterator_cbegin from src;
                e ← const_iterator_cend from src;
                t ← append_range copied post fuel src b e t;
                CloseBracket t
            | Value v => snd <$> Append (post v) (operation nd) v t
            end;
        append_range copied post fuel src next to t
  end.

(** [Append(const_iterator, const_iterator)] *)
Definition Append_range (copied : B -> B) (post : V -> PostProcessor) (src : ExpressionTree)
    (from to : nat) (t : ExpressionTree) : result ExpressionTree :=
  append_range copied post (S (to - from)) src from to t.

End Data.

#[global] Arguments Storage : clear implicits.
#[global] Arguments Node : clear implicits.
#[global] Arguments ExpressionTree : clear implicits.
