(* ===== verification/ExpressionForest.v ===== *)
(** * ExpressionForest: what a vector of nodes stands for

    The forest that a vector of nodes of [ExpressionTree] represents, the contexts that name a
    place in it, and the specification of every operation of the tree as an edit of the forest. *)

From S2P Require Import Prelude ExpressionTree.
#[local] Open Scope nat_scope.

Section Forest.
Context {Op B V : Type}.

Notation Node := (Node Op B V).
Notation ExpressionTree := (ExpressionTree Op B V).
Notation PostProcessor := (@PostProcessor Op B V).

(** ** Forests

    A leaf, or a bracket with its children; [open] tells that the bracket is open for
    appending. *)
#[local] Unset Elimination Schemes.
Inductive tree : Type :=
| Leaf (op : Op) (v : V)
| Sub (op : Op) (p : B) (open : bool) (children : list tree).

Section tree_ind.
Variable P : tree -> Prop.
Hypothesis P_leaf : forall op v, P (Leaf op v).
Hypothesis P_sub : forall op p o ch, Forall P ch -> P (Sub op p o ch).

Fixpoint tree_ind (t : tree) : P t :=
  match t with
  | Leaf op v => P_leaf op v
  | Sub op p o ch =>
      P_sub op p o ch
        ((fix go ts : Forall P ts :=
            match ts with
            | [] => Forall_nil_2 _
            | t :: ts => Forall_cons_2 _ _ _ (tree_ind t) (go ts)
            end) ch)
  end.
End tree_ind.

Definition head (op : Op) (p : B) (n : nat) : Node := mk_node op (SubTree (S n) p).

Fixpoint flat (t : tree) : list Node :=
  match t with
  | Leaf op v => [mk_node op (Value v)]
  | Sub op p _ ch => let body := concat (map flat ch) in head op p (length body) :: body
  end.

Definition flats (ts : list tree) : list Node := concat (map flat ts).
#[local] Arguments flats : simpl never.

(** The positions of the open brackets, for a forest that starts at the position [pos]. *)
Fixpoint opened (pos : nat) (t : tree) : list nat :=
  match t with
  | Leaf _ _ => []
  | Sub _ _ o ch =>
      (if o then [pos] else []) ++
      (fix go pos ts :=
         match ts with
         | [] => []
         | t :: ts => opened pos t ++ go (pos + length (flat t)) ts
         end) (S pos) ch
  end.

Fixpoint openeds (pos : nat) (ts : list tree) : list nat :=
  match ts with
  | [] => []
  | t :: ts => opened pos t ++ openeds (pos + length (flat t)) ts
  end.

Definition repr (f : list tree) (t : ExpressionTree) : Prop :=
  container_ t = flats f /\ activeBrackets_ t = openeds 0 f.

(** ** Places in a forest: the brackets around a place, the outermost one first. *)
Record Frame : Type := mk_frame {
  f_before : list tree; f_op : Op; f_payload : B; f_open : bool; f_after : list tree
}.

Definition frame_tree (fr : Frame) (ts : list tree) : tree :=
  Sub (f_op fr) (f_payload fr) (f_open fr) ts.

Fixpoint plug (c : list Frame) (ts : list tree) : list tree :=
  match c with
  | [] => ts
  | fr :: c => f_before fr ++ frame_tree fr (plug c ts) :: f_after fr
  end.

Fixpoint offset (c : list Frame) : nat :=
  match c with [] => 0 | fr :: c => length (flats (f_before fr)) + S (offset c) end.

Fixpoint post_nodes (c : list Frame) : list Node :=
  match c with [] => [] | fr :: c => post_nodes c ++ flats (f_after fr) end.

(** The nodes before the place, when [n] nodes are in it. *)
Fixpoint pre_nodes (c : list Frame) (n : nat) : list Node :=
  match c with
  | [] => []
  | fr :: c =>
      flats (f_before fr)
      ++ head (f_op fr) (f_payload fr) (offset c + n + length (post_nodes c)) :: pre_nodes c n
  end.

Fixpoint pre_open (pos : nat) (c : list Frame) : list nat :=
  match c with
  | [] => []
  | fr :: c =>
      let pos := pos + length (flats (f_before fr)) in
      openeds (pos - length (flats (f_before fr))) (f_before fr)
      ++ (if f_open fr then [pos] else []) ++ pre_open (S pos) c
  end.

Fixpoint post_open (pos : nat) (c : list Frame) : list nat :=
  match c with
  | [] => []
  | fr :: c => post_open pos c ++ openeds (pos + length (post_nodes c)) (f_after fr)
  end.

(** ** Lemmas on the flat form *)

Lemma flats_nil : flats [] = [].
Proof. reflexivity. Qed.

Lemma flats_cons t ts : flats (t :: ts) = flat t ++ flats ts.
Proof. reflexivity. Qed.

Lemma flats_app ts us : flats (ts ++ us) = flats ts ++ flats us.
Proof. unfold flats. by rewrite map_app, concat_app. Qed.

Lemma flat_sub op p o ch : flat (Sub op p o ch) = head op p (length (flats ch)) :: flats ch.
Proof. reflexivity. Qed.

Lemma flat_leaf op v : flat (Leaf op v) = [mk_node op (Value v)].
Proof. reflexivity. Qed.

Lemma flats_leaf op v : flats [Leaf op v] = [mk_node op (Value v)].
Proof. reflexivity. Qed.

Lemma flats_sub op p o ch : flats [Sub op p o ch] = head op p (length (flats ch)) :: flats ch.
Proof. unfold flats at 1. cbn. by rewrite app_nil_r. Qed.

Lemma flat_pos t : 0 < length (flat t).
Proof. destruct t; simpl; lia. Qed.

Lemma flats_pos ts : ts <> [] -> 0 < length (flats ts).
Proof.
  destruct ts as [| t ts]; [done |]. rewrite flats_cons, length_app. pose proof (flat_pos t). lia.
Qed.

Lemma flats_pos_nil ts : length (flats ts) = 0 -> ts = [].
Proof. destruct ts as [| t ts]; [done |]. pose proof (flats_pos (t :: ts) ltac:(done)). lia. Qed.

Lemma opened_sub pos op p o ch :
  opened pos (Sub op p o ch) = (if o then [pos] else []) ++ openeds (S pos) ch.
Proof.
  reflexivity.
Qed.

Lemma openeds_app pos ts us :
  openeds pos (ts ++ us) = openeds pos ts ++ openeds (pos + length (flats ts)) us.
Proof.
  revert pos. induction ts as [| t ts IH]; intros pos; cbn [openeds app].
  - cbn. by rewrite Nat.add_0_r.
  - rewrite IH, flats_cons, length_app, <- app_assoc, Nat.add_assoc. done.
Qed.

Lemma openeds_cons pos t ts :
  openeds pos (t :: ts) = opened pos t ++ openeds (pos + length (flat t)) ts.
Proof. reflexivity. Qed.

Lemma offset_pre c n : length (pre_nodes c n) = offset c.
Proof. induction c as [| fr c IH]; cbn; [done |]. by rewrite length_app, length_cons, IH. Qed.

Lemma plug_flats c ts :
  flats (plug c ts) = pre_nodes c (length (flats ts)) ++ flats ts ++ post_nodes c.
Proof.
  induction c as [| fr c IH]; cbn; [by rewrite app_nil_r |].
  unfold frame_tree. rewrite flats_app, flats_cons, flat_sub, IH, <- !app_assoc, !length_app.
  rewrite offset_pre, Nat.add_assoc. cbn. by rewrite <- !app_assoc.
Qed.

Lemma plug_length c ts :
  length (flats (plug c ts)) = offset c + length (flats ts) + length (post_nodes c).
Proof. rewrite plug_flats, !length_app, offset_pre. lia. Qed.

Lemma plug_openeds pos c ts :
  openeds pos (plug c ts) =
  pre_open pos c ++ openeds (pos + offset c) ts
  ++ post_open (pos + offset c + length (flats ts)) c.
Proof.
  revert pos. induction c as [| fr c IH]; intros pos; cbn.
  - by rewrite Nat.add_0_r, app_nil_r.
  - rewrite openeds_app, openeds_cons. unfold frame_tree. rewrite opened_sub, IH, flat_sub.
    cbn [length]. rewrite plug_length, Nat.add_sub, <- !app_assoc.
    replace (S (pos + length (flats (f_before fr))) + offset c)
      with (pos + (length (flats (f_before fr)) + S (offset c))) by lia.
    do 5 f_equal. f_equal. lia.
Qed.

Lemma plug_app c1 c2 ts : plug (c1 ++ c2) ts = plug c1 (plug c2 ts).
Proof. induction c1 as [| fr c1 IH]; cbn; [done |]. by rewrite IH. Qed.

#[local] Ltac flat_len :=
  rewrite ?flats_app, ?flats_cons, ?flats_nil, ?flat_leaf, ?flat_sub, ?length_app;
  cbn [length]; lia.

(** ** The loops over a place *)

Lemma flat_node_end t k nd : flat t !! k = Some nd -> k + Node_Size nd <= length (flat t).
Proof.
  revert k nd. induction t as [op v | op p o ch IH] using tree_ind; intros k nd.
  - destruct k; [| done]. intros [= <-]. cbn. lia.
  - rewrite flat_sub. destruct k as [| k]; cbn [lookup list_lookup]; [intros [= <-]; cbn; lia |].
    intros Hk. cbn [length]. cut (k + Node_Size nd <= length (flats ch)); [lia |].
    revert k Hk. induction IH as [| t ch Ht _ IHch]; intros k; [by rewrite flats_nil |].
    rewrite flats_cons, length_app, lookup_app_Some. intros [Hk | [Hk1 Hk2]].
    + apply Ht in Hk. lia.
    + apply IHch in Hk2. lia.
Qed.

Lemma flats_node_end ts k nd : flats ts !! k = Some nd -> k + Node_Size nd <= length (flats ts).
Proof.
  revert k. induction ts as [| t ts IH]; intros k; [by rewrite flats_nil |].
  rewrite flats_cons, length_app, lookup_app_Some. intros [Hk | [Hk1 Hk2]].
  - apply flat_node_end in Hk. lia.
  - apply IH in Hk2. lia.
Qed.

Lemma for_nodes_id (f : nat -> Node -> result Node) base n l rest :
  (forall k nd, l !! k = Some nd -> f (base + k) nd = Ok nd) ->
  for_nodes f base (length l + n) (l ++ rest) =
  (fun r => l ++ r) <$> for_nodes f (base + length l) n rest.
Proof.
  revert base. induction l as [| nd l IH]; intros base H; cbn.
  - rewrite Nat.add_0_r. by destruct (for_nodes _ _ _ _).
  - pose proof (H 0 nd eq_refl) as H0. rewrite Nat.add_0_r in H0. rewrite H0. cbn.
    rewrite IH; [| intros k nd' Hk; rewrite Nat.add_succ_comm; by apply (H (S k))].
    rewrite Nat.add_succ_comm. by destruct (for_nodes _ _ _ _).
Qed.

Lemma for_nodes_unchanged (f : nat -> Node -> result Node) i n c :
  (forall k nd, c !! k = Some nd -> f (i + k) nd = Ok nd) -> n <= length c ->
  for_nodes f i n c = Ok c.
Proof.
  revert i c. induction n as [| n IH]; intros i c H Hn; [done |]. destruct c as [| nd c]; cbn in *; [lia |].
  pose proof (H 0 nd eq_refl) as H0. rewrite Nat.add_0_r in H0. rewrite H0. cbn [mbind result_bind].
  rewrite IH; [done | | lia]. intros k nd' Hk. rewrite Nat.add_succ_comm. by apply (H (S k)).
Qed.

(** The nodes before a place: the loop changes the heads of the brackets around the place, and
    nothing else, when [n'] nodes are to stand where there were [n]. *)
Lemma for_nodes_pre (f : nat -> Node -> result Node) c l n n' base rest :
  (forall i nd, i + Node_Size nd <= base + offset c + length (flats l) -> f i nd = Ok nd) ->
  (forall i op p s, i < base + offset c -> base + offset c + n <= i + S s ->
     f i (head op p s) = Ok (head op p (s + n' - n))) ->
  for_nodes f base (offset c + length (flats l)) (pre_nodes c n ++ flats l ++ rest) =
  Ok (pre_nodes c n' ++ flats l ++ rest).
Proof.
  revert base. induction c as [| fr c IH]; intros base Hid Hhead; cbn in *.
  - rewrite <- (Nat.add_0_r (length (flats l))) at 1. rewrite for_nodes_id; [done |].
    intros k nd Hk. apply flats_node_end in Hk. apply Hid. lia.
  - rewrite <- !app_assoc, <- Nat.add_assoc, for_nodes_id.
    2: { intros k nd Hk. apply flats_node_end in Hk. apply Hid. lia. }
    cbn. rewrite Hhead by lia. cbn.
    rewrite IH; cbn.
    + do 5 f_equal. lia.
    + intros i nd Hi. apply Hid. lia.
    + intros i op p s Hi Hs. apply Hhead; lia.
Qed.

(** ** Positions of open brackets *)

Lemma opened_bound t pos b : b ∈ opened pos t -> pos <= b < pos + length (flat t).
Proof.
  revert pos. induction t as [op v | op p o ch IH] using tree_ind; intros pos.
  - intros H. by apply not_elem_of_nil in H.
  - rewrite opened_sub, flat_sub, elem_of_app. cbn [length]. intros [H | H].
    + destruct o; [apply list_elem_of_singleton in H; lia | by apply not_elem_of_nil in H].
    + cut (S pos <= b < S pos + length (flats ch)); [lia |]. revert H. generalize (S pos).
      induction IH as [| t ch Ht _ IHch]; intros q; cbn [openeds];
        [intros H; by apply not_elem_of_nil in H |].
      rewrite elem_of_app, flats_cons, length_app. intros [H | H]; [apply Ht in H | apply IHch in H]; lia.
Qed.

Lemma openeds_bound ts pos b : b ∈ openeds pos ts -> pos <= b < pos + length (flats ts).
Proof.
  revert pos. induction ts as [| t ts IH]; intros pos; cbn [openeds].
  - intros H. by apply not_elem_of_nil in H.
  - rewrite elem_of_app, flats_cons, length_app.
    intros [H | H]; [apply opened_bound in H | apply IH in H]; lia.
Qed.

Lemma opened_shift k t pos : opened (pos + k) t = map (fun b => b + k) (opened pos t).
Proof.
  revert pos. induction t as [op v | op p o ch IH] using tree_ind; intros pos; [done |].
  rewrite !opened_sub, map_app. f_equal; [by destruct o |].
  change (S (pos + k)) with (S pos + k). generalize (S pos).
  induction IH as [| t ch Ht _ IHch]; intros q; cbn [openeds]; [done |].
  rewrite map_app, Ht, <- IHch. do 2 f_equal. lia.
Qed.

Lemma openeds_shift k ts pos : openeds (pos + k) ts = map (fun b => b + k) (openeds pos ts).
Proof.
  revert pos. induction ts as [| t ts IH]; intros pos; cbn [openeds]; [done |].
  rewrite map_app, opened_shift, <- IH. do 2 f_equal. lia.
Qed.

Lemma post_open_shift k c pos :
  post_open (pos + k) c = map (fun b => b + k) (post_open pos c).
Proof.
  revert pos. induction c as [| fr c IH]; intros pos; cbn; [done |].
  rewrite map_app, IH, <- openeds_shift. do 2 f_equal. lia.
Qed.

Lemma post_open_bound c pos b :
  b ∈ post_open pos c -> pos <= b < pos + length (post_nodes c).
Proof.
  induction c as [| fr c IH]; cbn; [intros H; by apply not_elem_of_nil in H |].
  rewrite elem_of_app, length_app. intros [H | H]; [apply IH in H | apply openeds_bound in H]; lia.
Qed.

Lemma pre_open_bound c pos b : b ∈ pre_open pos c -> pos <= b < pos + offset c.
Proof.
  revert pos. induction c as [| fr c IH]; intros pos; cbn;
    [intros H; by apply not_elem_of_nil in H |].
  rewrite !elem_of_app, Nat.add_sub. intros [H | [H | H]].
  - apply openeds_bound in H. lia.
  - destruct (f_open fr); [apply list_elem_of_singleton in H; lia | by apply not_elem_of_nil in H].
  - apply IH in H. lia.
Qed.

(** The open brackets before a place [l ++ m ++ r] of the brackets [c], and those after it. *)
Definition open_before (c : list Frame) (l : list tree) : list nat :=
  pre_open 0 c ++ openeds (offset c) l.

Definition open_after (pos : nat) (c : list Frame) (r : list tree) : list nat :=
  openeds pos r ++ post_open (pos + length (flats r)) c.

Definition place (c : list Frame) (l : list tree) : nat := offset c + length (flats l).

Lemma for_nodes_place (f : nat -> Node -> result Node) c l n n' rest :
  (forall i nd, i + Node_Size nd <= place c l -> f i nd = Ok nd) ->
  (forall i op p s, i < offset c -> offset c + n <= i + S s ->
     f i (head op p s) = Ok (head op p (s + n' - n))) ->
  for_nodes f 0 (place c l) (pre_nodes c n ++ flats l ++ rest) =
  Ok (pre_nodes c n' ++ flats l ++ rest).
Proof. apply (for_nodes_pre f c l n n' 0). Qed.

Lemma open_before_bound c l b : b ∈ open_before c l -> b < place c l.
Proof.
  unfold open_before, place. rewrite elem_of_app.
  intros [H | H]; [apply pre_open_bound in H | apply openeds_bound in H]; lia.
Qed.

Lemma open_after_bound pos c r b :
  b ∈ open_after pos c r -> pos <= b < pos + length (flats r) + length (post_nodes c).
Proof.
  unfold open_after. rewrite elem_of_app.
  intros [H | H]; [apply openeds_bound in H | apply post_open_bound in H]; lia.
Qed.

Lemma open_after_shift k pos c r :
  open_after (pos + k) c r = map (fun b => b + k) (open_after pos c r).
Proof.
  unfold open_after. rewrite map_app, openeds_shift, <- post_open_shift. do 2 f_equal. lia.
Qed.

Lemma place_nodes c l m r :
  flats (plug c (l ++ m ++ r)) =
  (pre_nodes c (length (flats (l ++ m ++ r))) ++ flats l) ++ flats m ++ flats r ++ post_nodes c.
Proof. by rewrite plug_flats, !flats_app, <- !app_assoc. Qed.

Lemma place_open c l m r :
  openeds 0 (plug c (l ++ m ++ r)) =
  open_before c l ++ openeds (place c l) m ++ open_after (place c l + length (flats m)) c r.
Proof.
  unfold open_before, open_after, place.
  rewrite plug_openeds, !openeds_app, !flats_app, !length_app, <- !app_assoc. cbn.
  do 4 f_equal. f_equal. lia.
Qed.

Lemma place_size c l m r t :
  repr (plug c (l ++ m ++ r)) t ->
  Size t = place c l + length (flats m) + length (flats r) + length (post_nodes c).
Proof.
  intros [H _]. unfold Size. rewrite H, place_nodes, !length_app, offset_pre. unfold place. lia.
Qed.

Lemma repr_place c l m r n cs act :
  n = length (flats (l ++ m ++ r)) ->
  cs = (pre_nodes c n ++ flats l) ++ flats m ++ flats r ++ post_nodes c ->
  act = open_before c l ++ openeds (place c l) m
        ++ open_after (place c l + length (flats m)) c r ->
  repr (plug c (l ++ m ++ r)) (mk_tree cs act).
Proof. intros -> -> ->. split; cbn; [by rewrite place_nodes | by rewrite place_open]. Qed.

(** [shift_active] with a condition that separates what is before a place from what is after. *)
Lemma shift_active_place cond c l m r t :
  repr (plug c (l ++ m ++ r)) t ->
  (forall b, b < place c l -> cond b = false) ->
  (forall b, place c l + length (flats m) <= b -> cond b = true) ->
  shift_active cond t =
  Ok (open_before c l
      ++ map (fun b => if cond b then S b else b) (openeds (place c l) m)
      ++ open_after (place c l + length (flats m) + 1) c r).
Proof.
  intros Hr Hf Ht. pose proof (place_size _ _ _ _ _ Hr) as Hs.
  destruct Hr as [_ Ha]. unfold shift_active. rewrite Ha, place_open.
  rewrite (proj2 (forallb_forall _ _)).
  - rewrite !map_app. do 2 f_equal; [| f_equal].
    + rewrite <- (map_id (open_before c l)) at 2. apply map_ext_in. intros b Hb%list_elem_of_In.
      by rewrite (Hf b (open_before_bound _ _ _ Hb)).
    + rewrite (open_after_shift 1). apply map_ext_in. intros b Hb%list_elem_of_In.
      apply open_after_bound in Hb. rewrite Ht by lia. lia.
  - intros b Hb%list_elem_of_In. apply Nat.ltb_lt. rewrite !elem_of_app in Hb.
    destruct Hb as [Hb | [Hb | Hb]];
      [apply open_before_bound in Hb | apply openeds_bound in Hb | apply open_after_bound in Hb]; lia.
Qed.

(** Cutting the container at a place. *)
Lemma take_place c n l rest :
  take (place c l) (pre_nodes c n ++ flats l ++ rest) = pre_nodes c n ++ flats l.
Proof. rewrite app_assoc. apply take_app_length'. by rewrite length_app, offset_pre. Qed.

Lemma drop_place c n l m rest :
  drop (place c l + length (flats m)) (pre_nodes c n ++ flats l ++ flats m ++ rest) = rest.
Proof.
  rewrite !app_assoc. apply drop_app_length'. by rewrite !length_app, offset_pre.
Qed.

Lemma drop_place0 c n l rest : drop (place c l) (pre_nodes c n ++ flats l ++ rest) = rest.
Proof. rewrite app_assoc. apply drop_app_length'. by rewrite length_app, offset_pre. Qed.

(** The loop that counts a node inserted at [pos], for a place that has nodes beyond [pos]. *)
Lemma append_if_beyond_place c l n rest :
  length (flats l) < n ->
  for_nodes (append_if_beyond (place c l)) 0 (place c l) (pre_nodes c n ++ flats l ++ rest) =
  Ok (pre_nodes c (S n) ++ flats l ++ rest).
Proof.
  intros Hn. apply for_nodes_place; unfold append_if_beyond, place.
  - intros i nd Hi. by rewrite (proj2 (Nat.ltb_ge _ _)), andb_false_r by lia.
  - intros i op p s Hi Hs. cbn [Node_IsSubTree Node_Size head storage_ andb].
    rewrite (proj2 (Nat.ltb_lt _ _)) by lia. unfold Node_Append, head, Bracket_Append. cbn [storage_ operation].
    replace (s + S n - n) with (S s) by lia. done.
Qed.

(** ** What the operations do to the forest *)

Lemma Insert_place post op v c l r t :
  r <> [] -> repr (plug c (l ++ r)) t ->
  exists t', Insert post (place c l) op v t = inserted post t' (place c l) /\
    Emplace post (place c l) op v t = inserted post t' (place c l) /\
    repr (plug c (l ++ Leaf op v :: r)) t'.
Proof.
  intros Hne Hr. change (l ++ r) with (l ++ [] ++ r) in Hr.
  pose proof (place_size _ _ _ _ _ Hr) as Hs. pose proof (flats_pos r Hne).
  unfold Insert, Emplace. rewrite (proj2 (Nat.eqb_neq _ _)), (proj2 (Nat.ltb_lt _ _)) by lia.
  cbn [negb]. rewrite (shift_active_place _ c l [] r) by
    (done || (intros b Hb; first [apply Nat.leb_gt | apply Nat.leb_le]; cbn in Hb; lia)).
  destruct Hr as [-> _]. rewrite place_nodes, flats_nil, app_nil_l, <- app_assoc. cbn [mbind result_bind].
  rewrite append_if_beyond_place by (rewrite flats_app, length_app; cbn; lia).
  cbn [mbind result_bind]. eexists. split_and!; [done.. |]. unfold emplace.
  rewrite take_place, drop_place0.
  eapply (repr_place c l [Leaf op v] r); [| done |].
  - flat_len.
  - by rewrite flats_leaf; cbn; rewrite ?Nat.add_0_r.
Qed.

Lemma InsertAfter_place post op v c l x r t :
  length (flat x) = 1 -> repr (plug c (l ++ x :: r)) t ->
  exists t', InsertAfter post (place c l) op v t = inserted post t' (place c l + 1) /\
    repr (plug c (l ++ x :: Leaf op v :: r)) t'.
Proof.
  intros Hx Hr. change (x :: r) with ([x] ++ r) in Hr.
  pose proof (place_size _ _ _ _ _ Hr) as Hs.
  assert (length (flats [x]) = 1) as Hx1 by flat_len.
  unfold InsertAfter. rewrite (proj2 (Nat.ltb_lt _ _)) by lia.
  cbn [negb]. rewrite (shift_active_place _ c l [x] r) by
    (done || (intros b Hb; first [apply Nat.ltb_ge | apply Nat.ltb_lt]; lia)).
  destruct Hr as [-> _]. rewrite place_nodes, <- !app_assoc. cbn [mbind result_bind].
  rewrite append_if_beyond_place by flat_len.
  cbn [mbind result_bind]. eexists. split; [done |]. unfold emplace.
  replace (place c l + 1) with (place c (l ++ [x])) by (unfold place; flat_len).
  rewrite (app_assoc (flats l)), <- flats_app, take_place, drop_place0.
  change (l ++ x :: Leaf op v :: r) with (l ++ [x] ++ [Leaf op v] ++ r). rewrite (app_assoc l).
  eapply (repr_place c (l ++ [x]) [Leaf op v] r); [| done |]; [flat_len |].
  unfold open_before. rewrite openeds_app, <- !app_assoc. fold (place c l). do 2 f_equal.
  cbn [openeds app]. rewrite app_nil_r. f_equal.
  - rewrite <- (map_id (opened _ x)) at 2. apply map_ext_in. intros b Hb%list_elem_of_In.
    apply opened_bound in Hb. by rewrite (proj2 (Nat.ltb_ge _ _)) by lia.
  - cbn [opened app]. f_equal. unfold place. flat_len.
Qed.

Lemma filter_keep (P : nat -> bool) (l : list nat) :
  (forall b, b ∈ l -> P b = true) -> filter (fun b => P b = true) l = l.
Proof.
  induction l as [| b l IH]; intros H; [done |]. rewrite filter_cons_True by (apply H; left).
  f_equal. apply IH. intros b' Hb. apply H. by right.
Qed.

Lemma filter_none (P : nat -> bool) (l : list nat) :
  (forall b, b ∈ l -> P b = false) -> filter (fun b => P b = true) l = [].
Proof.
  induction l as [| b l IH]; intros H; [done |].
  rewrite filter_cons_False by (rewrite H; [done | left]).
  apply IH. intros b' Hb. apply H. by right.
Qed.

(** The brackets that stay open when the nodes from [from] to [to] are erased. *)
Lemma erase_active from k (l1 l2 l3 : list nat) :
  (forall b, b ∈ l1 -> b < from) -> (forall b, b ∈ l2 -> from <= b < from + k) ->
  (forall b, b ∈ l3 -> from <= b) ->
  map (fun b => if from + k <=? b then b - (from + k - from) else b)
    (filter (fun b => negb ((from <=? b) && (b <? from + k)) = true)
       (l1 ++ l2 ++ map (fun b => b + k) l3)) = l1 ++ l3.
Proof.
  intros H1 H2 H3. rewrite !filter_app, (filter_keep _ l1), (filter_none _ l2), (filter_keep _ (map _ _)).
  - rewrite map_app. f_equal; [| rewrite app_nil_l, map_map].
    + rewrite <- (map_id l1) at 2. apply map_ext_in. intros b Hb%list_elem_of_In%H1.
      by rewrite (proj2 (Nat.leb_gt _ _)) by lia.
    + rewrite <- (map_id l3) at 2. apply map_ext_in. intros b Hb%list_elem_of_In%H3.
      rewrite (proj2 (Nat.leb_le _ _)) by lia. lia.
  - intros b Hb. apply list_elem_of_fmap in Hb as (b' & -> & Hb'%H3).
    by rewrite (proj2 (Nat.ltb_ge (b' + k) _)), andb_false_r by lia.
  - intros b Hb%H2. by rewrite (proj2 (Nat.ltb_lt _ _)), (proj2 (Nat.leb_le _ _)) by lia.
  - intros b Hb%H1. by rewrite (proj2 (Nat.leb_gt _ _)) by lia.
Qed.

(** Erasing the trees [m] of a place. *)
Lemma Erase_place c l m r t :
  m <> [] -> repr (plug c (l ++ m ++ r)) t ->
  exists t', Erase (place c l) (place c l + length (flats m)) t = Ok t' /\
    repr (plug c (l ++ r)) t'.
Proof.
  intros Hne Hr. pose proof (place_size _ _ _ _ _ Hr) as Hs. pose proof (flats_pos m Hne) as Hm.
  unfold Erase. rewrite (proj2 (Nat.leb_le _ _)), (proj2 (Nat.leb_le _ _)) by lia. cbn [negb andb].
  destruct Hr as [-> ->]. rewrite place_nodes, place_open, <- !app_assoc.
  erewrite (for_nodes_place _ c l _ (length (flats (l ++ r)))); cycle 1.
  - unfold erase_step, place. intros i nd Hi. destruct (Node_IsSubTree nd); [| done].
    rewrite (proj2 (Nat.leb_gt _ _)), (proj2 (Nat.leb_le _ _)) by lia. done.
  - unfold erase_step, place. intros i op p s Hi Hs'.
    rewrite !flats_app, !length_app in *. cbn [Node_IsSubTree Node_Size head storage_].
    rewrite (proj2 (Nat.leb_le _ _)) by lia. unfold Node_Erase, Bracket_Erase. cbn [head storage_ operation].
    rewrite (proj2 (Nat.ltb_lt _ _)) by lia. cbn. unfold head. do 3 f_equal. lia.
  - cbn [mbind result_bind]. eexists. split; [done |]. unfold erase.
    rewrite take_place, drop_place. change (l ++ r) with (l ++ [] ++ r).
    eapply (repr_place c l [] r); [done | by rewrite flats_nil |].
    cbn [openeds app]. rewrite flats_nil, Nat.add_0_r, open_after_shift.
    apply erase_active; intros b Hb.
    + by apply open_before_bound in Hb.
    + by apply openeds_bound in Hb.
    + apply open_after_bound in Hb. lia.
Qed.

Lemma flat_node_pos t k nd : flat t !! k = Some nd -> 0 < Node_Size nd.
Proof.
  revert k nd. induction t as [op v | op p o ch IH] using tree_ind; intros k nd.
  - destruct k; [| done]. intros [= <-]. cbn. lia.
  - rewrite flat_sub. destruct k as [| k]; cbn [lookup list_lookup]; [intros [= <-]; cbn; lia |].
    revert k. induction IH as [| t ch Ht _ IHch]; intros k; [by rewrite flats_nil |].
    rewrite flats_cons, lookup_app_Some. intros [Hk | [_ Hk]]; [by apply Ht in Hk | by apply IHch in Hk].
Qed.

Lemma flats_node_pos ts k nd : flats ts !! k = Some nd -> 0 < Node_Size nd.
Proof.
  revert k. induction ts as [| t ts IH]; intros k; [by rewrite flats_nil |].
  rewrite flats_cons, lookup_app_Some. intros [Hk | [_ Hk]]; [by apply flat_node_pos in Hk | by apply IH in Hk].
Qed.

(** Erasing nothing. *)
Lemma Erase_none f p t : repr f t -> p <= Size t -> Erase p p t = Ok t.
Proof.
  intros [Hc Ha] Hp. unfold Erase. rewrite Nat.leb_refl, (proj2 (Nat.leb_le _ _)) by done. cbn [negb andb].
  rewrite for_nodes_unchanged.
  - cbn [mbind result_bind]. unfold erase. rewrite take_drop.
    destruct t as [cs act]. cbn. do 2 f_equal.
    rewrite (filter_keep (fun b => negb ((p <=? b) && (b <? p)))).
    + rewrite <- (map_id act) at 2. apply map_ext. intros b. rewrite Nat.sub_diag, Nat.sub_0_r. by destruct (p <=? b).
    + intros b _. destruct (Nat.leb_spec p b), (Nat.ltb_spec b p); done || lia.
  - intros k nd Hk. rewrite Hc in Hk. apply flats_node_pos in Hk.
    unfold erase_step, Node_Erase, Bracket_Erase, Node_IsSubTree, Node_Size in *. cbn [plus].
    destruct nd as [op [s q | v]]; cbn in *; [| done].
    rewrite Nat.sub_diag. destruct s as [| s]; [lia |]. cbn [Nat.ltb Nat.leb Nat.sub mbind result_bind mret result_ret].
    destruct (Nat.leb_spec p (k + S s)); [done |]. by rewrite (proj2 (Nat.leb_le _ _)) by lia.
  - done.
Qed.

(** Erasing the head of a bracket leaves its children. *)
Lemma Erase_head c l op p ch r t :
  repr (plug c (l ++ Sub op p false ch :: r)) t ->
  exists t', Erase (place c l) (place c l + 1) t = Ok t' /\ repr (plug c (l ++ ch ++ r)) t'.
Proof.
  intros Hr. change (Sub op p false ch :: r) with ([Sub op p false ch] ++ r) in Hr.
  pose proof (place_size _ _ _ _ _ Hr) as Hs. rewrite flats_sub in Hs. cbn [length] in Hs.
  unfold Erase. rewrite (proj2 (Nat.leb_le _ _)), (proj2 (Nat.leb_le _ _)) by lia. cbn [negb andb].
  destruct Hr as [-> ->]. rewrite place_nodes, place_open, flats_sub, <- !app_assoc.
  rewrite (for_nodes_place _ c l _ (length (flats (l ++ ch ++ r)))).
  - cbn [mbind result_bind]. eexists. split; [done |]. unfold erase. rewrite take_place.
    eapply (repr_place c l ch r); [done | |].
    + by rewrite <- drop_drop, drop_place0.
    + cbn [openeds]. rewrite app_nil_r, opened_sub. cbn [app length].
      rewrite <- (Nat.add_1_r (place c l)), openeds_shift.
      replace (place c l + S (length (flats ch))) with (place c l + length (flats ch) + 1) by lia.
      rewrite open_after_shift, <- map_app, <- (app_nil_l (map _ _)).
      apply (erase_active (place c l) 1 (open_before c l) [] _).
      * apply open_before_bound.
      * intros b Hb. by apply not_elem_of_nil in Hb.
      * intros b Hb. apply elem_of_app in Hb as [Hb | Hb]; [apply openeds_bound in Hb | apply open_after_bound in Hb]; lia.
  - unfold erase_step, place. intros i nd Hi. destruct (Node_IsSubTree nd); [| done].
    rewrite (proj2 (Nat.leb_gt _ _)), (proj2 (Nat.leb_le _ _)) by lia. done.
  - unfold erase_step, place. intros i op' p' s Hi Hs'.
    rewrite !flats_app, !length_app, flats_sub in *. cbn [Node_IsSubTree Node_Size head storage_ length] in *.
    rewrite (proj2 (Nat.leb_le _ _)) by lia. unfold Node_Erase, Bracket_Erase. cbn [head storage_ operation].
    rewrite (proj2 (Nat.ltb_lt _ _)) by lia. cbn. unfold head. do 3 f_equal. lia.
Qed.

(** Enclosing the trees [m] of a place in a bracket. *)
Lemma EncloseInBracket_place c l m r op p t :
  m <> [] -> repr (plug c (l ++ m ++ r)) t ->
  exists t', EncloseInBracket (place c l) (place c l + length (flats m)) op p t = Ok t' /\
    repr (plug c (l ++ Sub op p false m :: r)) t'.
Proof.
  intros Hne Hr. pose proof (place_size _ _ _ _ _ Hr) as Hs. pose proof (flats_pos m Hne) as Hm.
  unfold EncloseInBracket. rewrite (proj2 (Nat.ltb_lt _ _)), (proj2 (Nat.leb_le _ _)) by lia.
  cbn [negb andb]. rewrite (shift_active_place _ c l m r) by
    (done || (intros b Hb; first [apply Nat.leb_gt | apply Nat.leb_le]; lia)).
  destruct Hr as [-> _]. rewrite place_nodes, <- app_assoc. cbn [mbind result_bind].
  erewrite (for_nodes_place _ c l _ (S (length (flats (l ++ m ++ r))))); cycle 1.
  - unfold enclose_step. intros i nd Hi. destruct (Node_IsSubTree nd); [| done].
    by rewrite (proj2 (Nat.leb_gt _ _)), (proj2 (Nat.leb_le _ _)) by lia.
  - unfold enclose_step, place. intros i op' p' s Hi Hs'.
    rewrite !flats_app, !length_app in *. cbn [Node_IsSubTree Node_Size head storage_].
    rewrite (proj2 (Nat.leb_le _ _)) by lia. unfold Node_Append, head, Bracket_Append.
    cbn [storage_ operation]. do 3 f_equal. lia.
  - cbn [mbind result_bind]. eexists. split; [done |]. unfold emplace.
    rewrite take_place, drop_place0.
    apply (repr_place c l [Sub op p false m] r (S (length (flats (l ++ m ++ r))))); [flat_len | |].
    + rewrite flats_sub. cbn [app]. unfold head. do 5 f_equal. lia.
    + cbn [openeds]. rewrite app_nil_r, opened_sub. cbn [app]. f_equal. f_equal.
      * rewrite <- (Nat.add_1_r (place c l)), openeds_shift. apply map_ext_in.
        intros b Hb%list_elem_of_In%openeds_bound. rewrite (proj2 (Nat.leb_le _ _)) by lia. lia.
      * f_equal. flat_len.
Qed.

(** ** Single nodes of a place *)

Definition tree_op (x : tree) : Op := match x with Leaf op _ => op | Sub op _ _ _ => op end.

Definition tree_set_op (op : Op) (x : tree) : tree :=
  match x with Leaf _ v => Leaf op v | Sub _ p o ch => Sub op p o ch end.

Definition is_sub (x : tree) : bool := match x with Leaf _ _ => false | Sub _ _ _ _ => true end.

Definition root (x : tree) : Node :=
  match x with
  | Leaf op v => mk_node op (Value v)
  | Sub op p _ ch => head op p (length (flats ch))
  end.

Lemma flat_root x : flat x = root x :: tail (flat x).
Proof. by destruct x. Qed.

Lemma root_size x : Node_Size (root x) = length (flat x).
Proof. by destruct x. Qed.

Lemma root_op x : operation (root x) = tree_op x.
Proof. by destruct x. Qed.

Lemma root_is_sub x : Node_IsSubTree (root x) = is_sub x.
Proof. by destruct x. Qed.

Lemma flat_set_op op x : flat (tree_set_op op x) = mk_node op (storage_ (root x)) :: tail (flat x).
Proof. by destruct x. Qed.

Lemma opened_set_op pos op x : opened pos (tree_set_op op x) = opened pos x.
Proof. by destruct x. Qed.

Lemma plug_place_cons c l x r :
  flats (plug c (l ++ x :: r)) =
  (pre_nodes c (length (flats (l ++ x :: r))) ++ flats l) ++ flat x ++ flats r ++ post_nodes c.
Proof. by rewrite plug_flats, !flats_app, flats_cons, <- !app_assoc. Qed.

Lemma lookup_place c l x r t :
  repr (plug c (l ++ x :: r)) t -> container_ t !! place c l = Some (root x).
Proof.
  intros [-> _]. rewrite plug_place_cons, lookup_app_r; rewrite length_app, offset_pre; [| done].
  unfold place. by rewrite Nat.sub_diag, flat_root.
Qed.

Lemma node_at_place c l x r t :
  repr (plug c (l ++ x :: r)) t -> node_at (place c l) t = Ok (root x).
Proof. intros H. unfold node_at. by rewrite (lookup_place _ _ _ _ _ H). Qed.

Lemma place_snoc c l x : place c (l ++ [x]) = place c l + length (flat x).
Proof. unfold place. flat_len. Qed.

Lemma Next_place c l x r t :
  repr (plug c (l ++ x :: r)) t -> Next (place c l) t = Ok (place c (l ++ [x])).
Proof.
  intros H. unfold Next, Size_of. rewrite (node_at_place _ _ _ _ _ H). cbn.
  by rewrite root_size, place_snoc.
Qed.

Lemma IsSubTree_place c l x r t :
  repr (plug c (l ++ x :: r)) t -> IsSubTree (place c l) t = Ok (is_sub x).
Proof. intros H. unfold IsSubTree. rewrite (node_at_place _ _ _ _ _ H). cbn. by rewrite root_is_sub. Qed.

Lemma GetOperation_place c l x r t :
  repr (plug c (l ++ x :: r)) t -> GetOperation (place c l) t = Ok (tree_op x).
Proof. intros H. unfold GetOperation. rewrite (node_at_place _ _ _ _ _ H). cbn. by rewrite root_op. Qed.

(** Replacing the first node of a tree. *)
Lemma replace_root c l x y r t nd :
  repr (plug c (l ++ x :: r)) t -> flat y = nd :: tail (flat x) ->
  (forall pos, opened pos y = opened pos x) ->
  repr (plug c (l ++ y :: r)) (mk_tree (<[place c l := nd]> (container_ t)) (activeBrackets_ t)).
Proof.
  intros [H1 H2] Hy Ho. assert (length (flat y) = length (flat x)) as Hl.
  { rewrite Hy. by destruct x. }
  split; cbn.
  - rewrite H1, !plug_place_cons, insert_app_r_alt; rewrite length_app, offset_pre; [| done].
    unfold place. rewrite Nat.sub_diag, (flat_root x), Hy.
    replace (length (flats (l ++ y :: r))) with (length (flats (l ++ x :: r))); [done |].
    rewrite !flats_app, !flats_cons, !length_app. lia.
  - rewrite H2. change (l ++ x :: r) with (l ++ [x] ++ r). change (l ++ y :: r) with (l ++ [y] ++ r).
    rewrite !place_open. cbn [openeds]. rewrite !app_nil_r, Ho, !flats_cons, !length_app, Hl. done.
Qed.

Lemma SetOperation_place c l x r op t :
  repr (plug c (l ++ x :: r)) t ->
  exists t', SetOperation op (place c l) t = Ok t' /\
    repr (plug c (l ++ tree_set_op op x :: r)) t'.
Proof.
  intros H. unfold SetOperation. rewrite (node_at_place _ _ _ _ _ H). cbn. eexists.
  split; [done |]. eapply replace_root; [done | apply flat_set_op |]. intros. apply opened_set_op.
Qed.

(** [SetValue] makes a leaf of a leaf, and of an empty closed bracket. *)
Lemma SetValue_place post c l x r v t :
  length (flat x) = 1 -> opened 0 x = [] -> repr (plug c (l ++ x :: r)) t ->
  exists t', SetValue post (place c l) v t = inserted post t' (place c l) /\
    repr (plug c (l ++ Leaf (tree_op x) v :: r)) t'.
Proof.
  intros Hx Ho H. unfold SetValue. rewrite (node_at_place _ _ _ _ _ H). cbn [mbind result_bind].
  eexists. split; [done |]. eapply replace_root; [done | |].
  - unfold Node_SetValue. rewrite root_op, flat_leaf. f_equal.
    rewrite (flat_root x) in Hx. destruct (tail (flat x)); done.
  - intros pos. change pos with (0 + pos). rewrite (opened_shift pos x 0), Ho. done.
Qed.

(** ** Appending: the open brackets are the last ones on their levels *)

Definition closed (ts : list tree) : Prop := openeds 0 ts = [].

Definition spine (c : list Frame) : Prop :=
  Forall (fun fr => f_open fr = true /\ f_after fr = [] /\ closed (f_before fr)) c.

Lemma closed_openeds pos ts : closed ts -> openeds pos ts = [].
Proof. intros H. change pos with (0 + pos). by rewrite openeds_shift, H. Qed.

Lemma closed_app ts us : closed (ts ++ us) <-> closed ts /\ closed us.
Proof.
  unfold closed. rewrite openeds_app. split.
  - intros [H1 H2]%app_nil. split; [done |]. change (0 + length (flats ts)) with (0 + length (flats ts)) in H2.
    rewrite openeds_shift in H2. by destruct (openeds 0 us).
  - intros [H1 H2]. by rewrite H1, (closed_openeds _ _ H2).
Qed.

Lemma spine_post c : spine c -> post_nodes c = [] /\ forall pos, post_open pos c = [].
Proof.
  induction 1 as [| fr c (Ho & Ha & Hb) _ [IH1 IH2]]; [done |]. cbn. rewrite Ha, IH1. split; [done |].
  intros pos. by rewrite IH2.
Qed.

Lemma spine_open c cur : spine c -> closed cur -> openeds 0 (plug c cur) = pre_open 0 c.
Proof.
  intros Hs Hc. rewrite plug_openeds, (proj2 (spine_post _ Hs)), (closed_openeds _ _ Hc).
  by rewrite !app_nil_r.
Qed.

Lemma spine_size c cur t :
  spine c -> repr (plug c cur) t -> Size t = place c cur.
Proof.
  intros Hs [H _]. unfold Size, place. rewrite H, plug_length, (proj1 (spine_post _ Hs)). cbn. lia.
Qed.

(** The loop over the open brackets of a spine changes exactly their heads. *)
Lemma for_active_spine f c n n' P rest :
  spine c ->
  (forall op p s, n <= s -> f (head op p s) = Ok (head op p (s + n' - n))) ->
  for_active f (pre_open (length P) c) (P ++ pre_nodes c n ++ rest) =
  Ok (P ++ pre_nodes c n' ++ rest).
Proof.
  intros Hs Hf. revert P. induction Hs as [| fr c (Ho & Ha & Hb) Hs IH]; intros P; [done |].
  cbn [pre_open pre_nodes]. rewrite Ho, Nat.add_sub, (closed_openeds _ _ Hb). cbn [app for_active].
  rewrite <- !app_assoc, (app_assoc P), <- length_app.
  rewrite lookup_app_r by lia. rewrite Nat.sub_diag. cbn [of_option lookup list_lookup mbind result_bind app].
  rewrite Hf by lia. cbn [mbind result_bind].
  rewrite insert_app_r_alt by lia. rewrite Nat.sub_diag. cbn [insert list_insert].
  set (hd := head _ _ _).
  replace (S (length (P ++ flats (f_before fr)))) with (length ((P ++ flats (f_before fr)) ++ [hd]))
    by (rewrite length_app; cbn; lia).
  change (hd :: pre_nodes c n ++ rest) with ([hd] ++ pre_nodes c n ++ rest).
  rewrite (app_assoc _ [hd]), IH, <- !app_assoc. subst hd. cbn. do 6 f_equal. lia.
Qed.

Lemma for_active_repr f c cur d t :
  spine c -> closed cur -> repr (plug c cur) t ->
  (forall op p s, length (flats cur) <= s ->
     f (head op p s) = Ok (head op p (s + d - length (flats cur)))) ->
  for_active f (activeBrackets_ t) (container_ t) = Ok (pre_nodes c d ++ flats cur).
Proof.
  intros Hs Hc [-> ->] Hf. rewrite (spine_open _ _ Hs Hc), plug_flats, (proj1 (spine_post _ Hs)), app_nil_r.
  apply (for_active_spine f c (length (flats cur)) d []); done.
Qed.

Lemma Node_Append_head n op p s :
  n <= s -> Node_Append (head op p s) = Ok (head op p (s + S n - n)).
Proof. intros H. cbn. unfold head, Bracket_Append. do 3 f_equal. lia. Qed.

(** A vector with the nodes of a spine and the open brackets of it. *)
Lemma repr_spine c cur :
  spine c -> closed cur ->
  repr (plug c cur)
    (mk_tree (pre_nodes c (length (flats cur)) ++ flats cur) (pre_open 0 c)).
Proof.
  intros Hs Hc. split; cbn.
  - by rewrite plug_flats, (proj1 (spine_post _ Hs)), app_nil_r.
  - by rewrite (spine_open _ _ Hs Hc).
Qed.

Lemma repr_active c cur t :
  spine c -> closed cur -> repr (plug c cur) t -> activeBrackets_ t = pre_open 0 c.
Proof. intros Hs Hc [_ ->]. by apply spine_open. Qed.

Lemma Append_spine post op v c cur t :
  spine c -> closed cur -> repr (plug c cur) t ->
  exists t', Append post op v t = inserted post t' (place c cur) /\
    repr (plug c (cur ++ [Leaf op v])) t'.
Proof.
  intros Hs Hc Hr. unfold Append.
  rewrite (for_active_repr _ c cur (S (length (flats cur)))) by (done || intros; by apply Node_Append_head).
  cbn [mbind result_bind]. rewrite (repr_active c cur t) by done.
  assert (closed (cur ++ [Leaf op v])) as Hc' by by apply closed_app.
  pose proof (repr_spine c _ Hs Hc') as Hr'. rewrite flats_app, flats_leaf, length_app, app_assoc in Hr'.
  cbn [length] in Hr'. rewrite Nat.add_1_r in Hr'. eexists. split; [| exact Hr'].
  f_equal. unfold Size, place. cbn. rewrite !length_app, offset_pre. cbn. lia.
Qed.

(** The frame of a bracket that stands open after [before]. *)
Definition open_frame (before : list tree) (op : Op) (p : B) : Frame :=
  mk_frame before op p true [].

Lemma spine_snoc c before op p :
  spine (c ++ [open_frame before op p]) <-> spine c /\ closed before.
Proof.
  unfold spine. rewrite Forall_app, Forall_singleton. cbn. naive_solver.
Qed.

Lemma plug_snoc c before op p cur :
  plug (c ++ [open_frame before op p]) cur = plug c (before ++ [Sub op p true cur]).
Proof. by rewrite plug_app. Qed.

Lemma pre_open_snoc c before op p :
  spine c -> closed before ->
  pre_open 0 (c ++ [open_frame before op p]) = pre_open 0 c ++ [place c before].
Proof.
  intros Hs Hb. pose proof (spine_open (c ++ [open_frame before op p]) []) as H.
  rewrite <- H by (done || by apply spine_snoc). rewrite plug_snoc, plug_openeds, openeds_app, (proj2 (spine_post _ Hs)).
  rewrite (closed_openeds _ _ Hb), app_nil_r. cbn. unfold place. done.
Qed.

Lemma OpenBracket_spine op p c cur t :
  spine c -> closed cur -> repr (plug c cur) t ->
  exists t', OpenBracket op p t = Ok t' /\ repr (plug (c ++ [open_frame cur op p]) []) t'.
Proof.
  intros Hs Hc Hr. unfold OpenBracket.
  rewrite (for_active_repr _ c cur (S (length (flats cur)))) by (done || intros; by apply Node_Append_head).
  cbn [mbind result_bind]. rewrite (repr_active c cur t) by done.
  eexists. split; [done |]. split; cbn [container_ activeBrackets_].
  - rewrite plug_snoc, plug_flats, (proj1 (spine_post _ Hs)), app_nil_r, flats_app, flats_sub, length_app.
    cbn [length flats]. by rewrite flats_nil, Nat.add_1_r, app_assoc.
  - rewrite spine_open by (done || by apply spine_snoc). rewrite pre_open_snoc by done.
    by rewrite length_app, offset_pre.
Qed.

Lemma CloseBracket_spine c before op p cur t :
  spine c -> closed before -> closed cur -> repr (plug (c ++ [open_frame before op p]) cur) t ->
  exists t', CloseBracket t = Ok t' /\ repr (plug c (before ++ [Sub op p false cur])) t'.
Proof.
  intros Hs Hb Hc Hr. assert (spine (c ++ [open_frame before op p])) as Hs' by by apply spine_snoc.
  pose proof (repr_active _ _ _ Hs' Hc Hr) as Ha. rewrite pre_open_snoc in Ha by done.
  exists (mk_tree (container_ t) (pre_open 0 c)). split.
  - unfold CloseBracket. rewrite Ha, removelast_last. by destruct (pre_open 0 c).
  - split; cbn.
    + rewrite (proj1 Hr), plug_snoc, !plug_flats, !flats_app, !flats_sub. done.
    + rewrite spine_open; [done | done |]. apply closed_app. split; [done |].
      unfold closed. cbn [openeds]. by rewrite opened_sub, (closed_openeds _ _ Hc).
Qed.

Lemma CloseBracket_empty cur t :
  closed cur -> repr cur t -> CloseBracket t = Fail (Throw errLogic).
Proof. intros Hc [_ Ha]. unfold CloseBracket. by rewrite Ha, Hc. Qed.

Lemma AppendFront_repr post op v f t :
  repr f t ->
  exists t', AppendFront post op v t = inserted post t' 0 /\ repr (Leaf op v :: f) t'.
Proof.
  intros [H1 H2]. eexists. split; [done |]. split; cbn.
  - by rewrite H1.
  - rewrite H2. change 1 with (0 + 1). rewrite openeds_shift. apply map_ext. intros. lia.
Qed.

Lemma PopBack_spine c l x t :
  spine c -> closed (l ++ [x]) -> length (flat x) = 1 -> repr (plug c (l ++ [x])) t ->
  exists t', PopBack t = Ok t' /\ repr (plug c l) t'.
Proof.
  intros Hs Hc Hx Hr. pose proof (repr_active _ _ _ Hs Hc Hr) as Ha.
  pose proof (spine_size _ _ _ Hs Hr) as Hz. rewrite place_snoc in Hz.
  unfold PopBack, Empty. destruct (container_ t) eqn:Ec; [unfold Size in Hz; rewrite Ec in Hz; cbn in Hz; lia |].
  rewrite <- Ec. clear Ec.
  assert (length (flats (l ++ [x])) = S (length (flats l))) as Hl by flat_len.
  rewrite (for_active_repr _ c (l ++ [x]) (length (flats l)) t Hs Hc Hr); cycle 1.
  { intros op p s Hn. unfold Node_Erase, Bracket_Erase. cbn [head storage_ operation].
    rewrite (proj2 (Nat.ltb_lt _ _)) by lia. cbn. unfold head. do 3 f_equal. lia. }
  assert (exists nd, flat x = [nd]) as [nd Hnd].
  { rewrite (flat_root x) in Hx. exists (root x). rewrite flat_root. by destruct (tail (flat x)). }
  assert (flats (l ++ [x]) = flats l ++ [nd]) as -> by by rewrite flats_app, flats_cons, Hnd.
  cbn [mbind result_bind]. rewrite app_assoc, last_snoc, Ha, removelast_last. cbn [of_option mbind result_bind].
  exists (mk_tree (pre_nodes c (length (flats l)) ++ flats l) (pre_open 0 c)). split.
  - rewrite length_app, Nat.add_sub. destruct (last (pre_open 0 c)) as [b |] eqn:El;
      [| by rewrite andb_false_r].
    assert (b ∈ pre_open 0 c) as Hb by by apply last_Some_elem_of.
    apply pre_open_bound in Hb. rewrite (proj2 (Nat.eqb_neq _ _)), andb_false_r; [done |].
    rewrite length_app, offset_pre. lia.
  - apply repr_spine; [done |]. by apply closed_app in Hc as [? _].
Qed.

Lemma offset_app c1 c2 : offset (c1 ++ c2) = offset c1 + offset c2.
Proof. induction c1 as [| fr c1 IH]; cbn; [done |]. rewrite IH. lia. Qed.

Lemma last_open c :
  spine c -> match last (pre_open 0 c) with Some b => b + 1 | None => 0 end = offset c.
Proof.
  intros Hs. destruct c as [| fr c _] using rev_ind; [done |].
  apply Forall_app in Hs as [Hs Hfr]. apply Forall_singleton in Hfr as (Ho & Ha & Hb).
  destruct fr as [before op p o after]. cbn in *. subst o after.
  change (mk_frame _ _ _ _ _) with (open_frame before op p).
  rewrite pre_open_snoc, last_snoc, offset_app by done. unfold place. cbn. lia.
Qed.

Lemma last_element_loop_place fuel c l r x t :
  repr (plug c (l ++ r ++ [x])) t -> Size t = place c (l ++ r ++ [x]) -> length r < fuel ->
  last_element_loop fuel (place c l) t = Ok (place c (l ++ r)).
Proof.
  revert l r. induction fuel as [| fuel IH]; intros l r Hr Hs Hf; [lia |]. cbn [last_element_loop].
  destruct r as [| y r].
  - rewrite (Next_place _ _ _ _ _ Hr). cbn [mbind result_bind]. rewrite Hs, Nat.eqb_refl.
    by rewrite app_nil_r.
  - cbn [app] in Hr. rewrite (Next_place _ _ _ _ _ Hr). cbn [mbind result_bind].
    rewrite (proj2 (Nat.eqb_neq _ _)).
    + change (y :: r) with ([y] ++ r). rewrite app_assoc. cbn in Hf. apply IH; [| | lia].
      * by rewrite <- app_assoc.
      * rewrite Hs. f_equal. by rewrite <- !app_assoc.
    + rewrite Hs, place_snoc. unfold place. pose proof (flats_pos [x]). pose proof (flat_pos x).
      rewrite !flats_app, !flats_cons, !length_app. lia.
Qed.

Lemma flats_length_le ts : length ts <= length (flats ts).
Proof.
  induction ts as [| t ts IH]; [done |]. rewrite flats_cons, length_app. cbn [length].
  pose proof (flat_pos t). lia.
Qed.

Lemma LastAppendedElement_leaf c l x t :
  spine c -> closed (l ++ [x]) -> repr (plug c (l ++ [x])) t ->
  LastAppendedElement t = Ok (place c l).
Proof.
  intros Hs Hc Hr. pose proof (spine_size _ _ _ Hs Hr) as Hz. pose proof Hz as Hz'.
  rewrite place_snoc in Hz. pose proof (flat_pos x).
  unfold LastAppendedElement, Empty. destruct (container_ t) eqn:Ec;
    [unfold Size in Hz; rewrite Ec in Hz; cbn in Hz; lia |].
  rewrite (repr_active _ _ _ Hs Hc Hr), last_open by done.
  assert (place c l >= offset c) by (unfold place; lia).
  rewrite (proj2 (Nat.eqb_neq _ _)), andb_false_r by lia.
  replace (offset c) with (place c []) by (unfold place; rewrite flats_nil; cbn; lia).
  apply (last_element_loop_place _ c [] l x); [done | done |].
  rewrite Hz. unfold place. pose proof (flats_length_le l). lia.
Qed.

Lemma LastAppendedElement_bracket c before op p t :
  spine c -> closed before -> repr (plug (c ++ [open_frame before op p]) []) t ->
  LastAppendedElement t = Ok (place c before).
Proof.
  intros Hs Hb Hr. assert (spine (c ++ [open_frame before op p])) as Hs' by by apply spine_snoc.
  pose proof (spine_size _ _ _ Hs' Hr) as Hz. unfold place in Hz.
  rewrite offset_app, flats_nil in Hz. cbn in Hz.
  unfold LastAppendedElement, Empty. destruct (container_ t) eqn:Ec;
    [unfold Size in Hz; rewrite Ec in Hz; cbn in Hz; lia |].
  rewrite (repr_active _ [] _ Hs' eq_refl Hr), last_open by done.
  rewrite pre_open_snoc by done. rewrite offset_app. cbn [offset open_frame f_before].
  rewrite (proj2 (Nat.eqb_eq _ _)) by lia. unfold place.
  destruct (pre_open 0 c); cbn; f_equal; lia.
Qed.

(** ** Copying a range of another tree, of values without post-processing *)

Fixpoint copy (copied : B -> B) (x : tree) : tree :=
  match x with
  | Leaf op v => Leaf op v
  | Sub op p _ ch => Sub op (copied p) false (map (copy copied) ch)
  end.

Lemma closed_copy g ts : closed (map (copy g) ts).
Proof.
  induction ts as [| x ts IH]; [done |]. change (map (copy g) (x :: ts)) with ([copy g x] ++ map (copy g) ts).
  apply closed_app. split; [| done]. clear IH.
  unfold closed. cbn [openeds]. rewrite app_nil_r.
  induction x as [| op p o ch IH] using tree_ind; [done |]. cbn [copy]. rewrite opened_sub. cbn [app].
  apply closed_openeds. unfold closed.
  induction IH as [| x ch Hx _ IHch]; [done |]. cbn [map openeds]. rewrite Hx. cbn [app].
  by rewrite (closed_openeds _ _ IHch).
Qed.

Lemma plug_inner c l op p o ch r :
  plug c (l ++ Sub op p o ch :: r) = plug (c ++ [mk_frame l op p o r]) ch.
Proof. by rewrite plug_app. Qed.

Lemma place_inner c l op p o r :
  place (c ++ [mk_frame l op p o r]) [] = place c l + 1.
Proof. unfold place. rewrite offset_app, flats_nil. cbn. lia. Qed.

Lemma place_inner_end c l op p o ch r :
  place (c ++ [mk_frame l op p o r]) ch = place c (l ++ [Sub op p o ch]).
Proof. rewrite place_snoc, flat_sub. unfold place. rewrite offset_app. cbn. lia. Qed.

Lemma append_range_spine g fuel src c' l m r c cur t :
  repr (plug c' (l ++ m ++ r)) src -> spine c -> closed cur -> repr (plug c cur) t ->
  length (flats m) < fuel ->
  exists t', append_range g (fun _ => no_post) fuel src (place c' l) (place c' (l ++ m)) t = Ok t' /\
    repr (plug c (cur ++ map (copy g) m)) t'.
Proof.
  revert c' l m r c cur t. induction fuel as [| fuel IH]; intros c' l m r c cur t Hsrc Hs Hc Hr Hf; [lia |].
  cbn [append_range]. destruct m as [| x m].
  { rewrite app_nil_r, Nat.eqb_refl. exists t. cbn. by rewrite app_nil_r. }
  pose proof (flat_pos x) as Hx. rewrite flats_cons, length_app in Hf.
  rewrite (proj2 (Nat.eqb_neq _ _)).
  2: { unfold place. rewrite flats_app, flats_cons, !length_app. lia. }
  cbn [app] in Hsrc. rewrite (node_at_place _ _ _ _ _ Hsrc). cbn [mbind result_bind].
  assert (const_iterator_next (place c' l) src = Ok (place c' (l ++ [x]))) as Hnext by apply (Next_place _ _ _ _ _ Hsrc).
  rewrite Hnext. cbn [mbind result_bind].
  assert (exists t1, match storage_ (root x) with
      | SubTree _ p =>
          t ← OpenBracket (operation (root x)) (g p) t;
          b ← const_iterator_cbegin (place c' l) src;
          e ← const_iterator_cend (place c' l) src;
          t ← append_range g (fun _ => no_post) fuel src b e t;
          CloseBracket t
      | Value v => snd <$> Append no_post (operation (root x)) v t
      end = Ok t1 /\ repr (plug c (cur ++ [copy g x])) t1) as (t1 & -> & Hr1).
  - destruct x as [op v | op p o ch]; cbn [root storage_ operation head].
    + destruct (Append_spine no_post op v c cur t Hs Hc Hr) as (t1 & -> & H1). by exists t1.
    + destruct (OpenBracket_spine op (g p) c cur t Hs Hc Hr) as (t1 & -> & H1). cbn [mbind result_bind].
      unfold const_iterator_cbegin, const_iterator_cend, Size_of.
      rewrite (IsSubTree_place _ _ _ _ _ Hsrc), (node_at_place _ _ _ _ _ Hsrc).
      cbn [mbind result_bind is_sub fmap result_fmap root head Node_Size storage_].
      rewrite plug_inner in Hsrc. rewrite <- (place_inner c' l op p o (m ++ r)).
      assert (place c' l + S (length (flats ch)) = place (c' ++ [mk_frame l op p o (m ++ r)]) ([] ++ ch)) as ->.
      { cbn [app]. rewrite place_inner_end, place_snoc, flat_sub. cbn. lia. }
      rewrite flat_sub in Hf. cbn [length] in Hf.
      edestruct (IH (c' ++ [mk_frame l op p o (m ++ r)]) [] ch [] (c ++ [open_frame cur op (g p)]) [] t1)
        as (t2 & -> & H2); [by rewrite app_nil_r | by apply spine_snoc | done | done | lia |].
      cbn [mbind result_bind].
      destruct (CloseBracket_spine c cur op (g p) (map (copy g) ch) t2) as (t3 & -> & H3); try done.
      { apply closed_copy. }
      by exists t3.
  - destruct (IH c' (l ++ [x]) m r c (cur ++ [copy g x]) t1) as (t2 & E & H2).
    + by rewrite <- app_assoc.
    + done.
    + apply closed_app. split; [done |]. apply (closed_copy g [x]).
    + done.
    + lia.
    + rewrite <- app_assoc in E. exists t2. cbn [app] in *. rewrite <- app_assoc in H2. done.
Qed.

End Forest.

#[global] Arguments tree : clear implicits.
#[global] Arguments Frame : clear implicits.
