(* ===== verification/ExpressionBuild.v ===== *)
(** * ExpressionBuild: building and editing trees of expressions

    The abstract machine that builds a forest (the stack of the open brackets with what stands
    before them, and the children of the last one), the theorem that the vector of
    [ExpressionTree] refines it, the edits of a finished tree, and the reading of the vector back
    into a forest. *)

From S2P Require Import Prelude ExpressionTree ExpressionForest.
#[local] Open Scope nat_scope.

Section Build.
Context {Op B V : Type} (copied : B -> B).

Notation ExpressionTree := (ExpressionTree Op B V).
Notation tree := (tree Op B V).
Notation Frame := (Frame Op B V).

(** ** The abstract machine *)

(** The operations that build a tree. [BCopy] copies the trees [m] that stand at a place of
    another forest. *)
Inductive build_op : Type :=
| BAppend (op : Op) (v : V)
| BAppendFront (op : Op) (v : V)
| BOpenBracket (op : Op) (p : B)
| BCloseBracket
| BSetLastOperation (op : Op)
| BPopBack
| BCopy (c : list Frame) (l m r : list tree).

Record Builder : Type := mk_builder {
  b_open : list (list tree * Op * B);   (* the outermost bracket first *)
  b_current : list tree
}.

Definition builder_empty : Builder := mk_builder [] [].

(** What the operation does to the forest; [Undefined] where the caller breaks its contract (the
    last node cannot be popped when it is the last one of a closed bracket). *)
Definition build (o : build_op) (z : Builder) : result Builder :=
  match o with
  | BAppend op v => Ok (mk_builder (b_open z) (b_current z ++ [Leaf op v]))
  | BAppendFront op v =>
      Ok match b_open z with
         | [] => mk_builder [] (Leaf op v :: b_current z)
         | (before, op', p) :: st => mk_builder ((Leaf op v :: before, op', p) :: st) (b_current z)
         end
  | BOpenBracket op p => Ok (mk_builder (b_open z ++ [(b_current z, op, p)]) [])
  | BCloseBracket =>
      match last (b_open z) with
      | None => Fail (Throw errLogic)
      | Some (before, op, p) =>
          Ok (mk_builder (removelast (b_open z)) (before ++ [Sub op p false (b_current z)]))
      end
  | BSetLastOperation op =>
      match last (b_current z), last (b_open z) with
      | Some x, _ => Ok (mk_builder (b_open z) (removelast (b_current z) ++ [tree_set_op op x]))
      | None, Some (before, _, p) =>
          Ok (mk_builder (removelast (b_open z) ++ [(before, op, p)]) [])
      | None, None => Fail AssertFail
      end
  | BPopBack =>
      match last (b_current z) with
      | Some x =>
          if length (flat x) =? 1 then Ok (mk_builder (b_open z) (removelast (b_current z)))
          else Fail Undefined
      | None => Fail Undefined
      end
  | BCopy _ _ m _ => Ok (mk_builder (b_open z) (b_current z ++ map (copy copied) m))
  end.

(** The same operation of the vector; [BCopy] copies from a vector [src] of its forest. *)
Definition perform (o : build_op) (t : ExpressionTree) : result ExpressionTree :=
  match o with
  | BAppend op v => snd <$> Append no_post op v t
  | BAppendFront op v => snd <$> AppendFront no_post op v t
  | BOpenBracket op p => OpenBracket op p t
  | BCloseBracket => CloseBracket t
  | BSetLastOperation op => SetLastOperation op t
  | BPopBack => PopBack t
  | BCopy c l m r =>
      let f := plug c (l ++ m ++ r) in
      Append_range copied (fun _ => no_post) (mk_tree (flats f) (openeds 0 f)) (place c l) (place c (l ++ m)) t
  end.

Definition steps {A} (f : build_op -> A -> result A) (os : list build_op) (a : A) : result A :=
  foldl (fun r o => r ≫= f o) (Ok a) os.

(** ** The vector of a builder *)

Definition frames (st : list (list tree * Op * B)) : list Frame :=
  map (fun x => open_frame x.1.1 x.1.2 x.2) st.

Definition forest_of (z : Builder) : list tree := plug (frames (b_open z)) (b_current z).

Definition builder_ok (z : Builder) : Prop :=
  Forall (fun x => closed x.1.1) (b_open z) /\ closed (b_current z).

Definition represents (t : ExpressionTree) (z : Builder) : Prop :=
  builder_ok z /\ repr (forest_of z) t.

Lemma frames_spine z : builder_ok z -> spine (frames (b_open z)).
Proof.
  intros [H _]. unfold spine, frames. apply Forall_map. eapply Forall_impl; [exact H |]. done.
Qed.

Lemma frames_app s1 s2 : frames (s1 ++ s2) = frames s1 ++ frames s2.
Proof. apply map_app. Qed.

Lemma last_removelast {A} (l : list A) x : last l = Some x -> l = removelast l ++ [x].
Proof.
  destruct l as [| y l _] using rev_ind; [done |]. rewrite last_snoc, removelast_last. by intros [= ->].
Qed.

Lemma closed_leaf op v : closed [@Leaf Op B V op v].
Proof. done. Qed.

Lemma closed_sub op p ch : closed ch -> closed [@Sub Op B V op p false ch].
Proof. intros H. unfold closed. cbn [openeds]. by rewrite opened_sub, (closed_openeds _ _ H). Qed.

Lemma closed_set_op op (x : tree) : closed [x] -> closed [tree_set_op op x].
Proof. unfold closed. cbn [openeds]. by rewrite opened_set_op. Qed.

Lemma closed_front op v (ts : list tree) : closed ts -> closed (Leaf op v :: ts).
Proof. intros H. change (closed ([Leaf op v] ++ ts)). by apply closed_app. Qed.

Lemma represents_append op v t z :
  represents t z ->
  exists t', Append no_post op v t = Ok (1, t') /\
    represents t' (mk_builder (b_open z) (b_current z ++ [Leaf op v])).
Proof.
  intros [Hz Hr]. pose proof (frames_spine z Hz) as Hs.
  destruct (Append_spine no_post op v _ _ t Hs (proj2 Hz) Hr) as (t' & E & H).
  exists t'. split; [exact E |]. split; [| exact H]. split; [apply Hz |]. apply closed_app.
  split; [apply Hz | done].
Qed.

Lemma represents_front op v t z z' :
  represents t z -> build (BAppendFront op v) z = Ok z' ->
  exists t', AppendFront no_post op v t = Ok (1, t') /\ represents t' z'.
Proof.
  intros [[Hz Hc] Hr]. cbn [build]. intros [= <-].
  destruct (AppendFront_repr no_post op v _ t Hr) as (t' & E & H). exists t'. split; [exact E |].
  unfold represents, forest_of, builder_ok in *. destruct z as [[| [[before op'] p] st] cur]; cbn in *.
  - split; [split; [done |] |]; [by apply closed_front | exact H].
  - apply Forall_cons in Hz as [Hz1 Hz2]. split; [split; [| done] | exact H].
    apply Forall_cons. split; [by apply closed_front | done].
Qed.

Lemma represents_open op p t z :
  represents t z ->
  exists t', OpenBracket op p t = Ok t' /\
    represents t' (mk_builder (b_open z ++ [(b_current z, op, p)]) []).
Proof.
  intros [Hz Hr]. destruct (OpenBracket_spine op p _ _ t (frames_spine z Hz) (proj2 Hz) Hr) as (t' & E & H).
  exists t'. split; [done |]. unfold represents, forest_of. cbn. rewrite frames_app. split; [| exact H].
  split; [| done]. cbn. apply Forall_app. split; [apply Hz |]. apply Forall_singleton, Hz.
Qed.

Lemma builder_ok_snoc st before op p cur :
  builder_ok (mk_builder (st ++ [(before, op, p)]) cur) <->
  Forall (fun x => closed x.1.1) st /\ closed before /\ closed cur.
Proof. unfold builder_ok. cbn. rewrite Forall_app, Forall_singleton. cbn. naive_solver. Qed.

Lemma represents_close t z z' :
  represents t z -> build BCloseBracket z = Ok z' ->
  exists t', CloseBracket t = Ok t' /\ represents t' z'.
Proof.
  intros [Hz Hr]. cbn [build]. destruct (last (b_open z)) as [[[before op] p] |] eqn:El; [| done].
  apply last_removelast in El. destruct z as [st cur]. cbn in *. rewrite El in Hz, Hr. intros [= <-].
  apply builder_ok_snoc in Hz as (H1 & H2 & H3). unfold forest_of in Hr. cbn in Hr.
  rewrite frames_app in Hr. cbn in Hr.
  assert (spine (frames (removelast st))) as Hs by by apply (frames_spine (mk_builder (removelast st) [])).
  destruct (CloseBracket_spine _ before op p cur t Hs H2 H3 Hr) as (t' & E & H).
  exists t'. split; [done |]. split; [| exact H]. split; [done |]. apply closed_app.
  split; [done | by apply closed_sub].
Qed.

Lemma represents_set_last op t z z' :
  represents t z -> build (BSetLastOperation op) z = Ok z' ->
  exists t', SetLastOperation op t = Ok t' /\ represents t' z'.
Proof.
  intros [Hz Hr]. pose proof (frames_spine z Hz) as Hs. cbn [build]. unfold SetLastOperation.
  destruct (last (b_current z)) as [x |] eqn:El.
  - intros [= <-]. apply last_removelast in El. destruct z as [st cur]. cbn in *.
    unfold forest_of in Hr. cbn in Hr. rewrite El in Hz, Hr. destruct Hz as [Hz Hc]. cbn in Hz, Hc.
    rewrite (LastAppendedElement_leaf _ _ _ t Hs Hc Hr). cbn [mbind result_bind].
    destruct (SetOperation_place _ _ _ [] op t Hr) as (t' & E & H). exists t'. split; [done |].
    split; [| exact H]. split; [done |]. apply closed_app in Hc as [Hc1 Hc2]. apply closed_app.
    split; [done | by apply closed_set_op].
  - destruct (last (b_open z)) as [[[before op'] p] |] eqn:Eo; [| done]. intros [= <-].
    apply last_removelast in Eo. destruct z as [st cur]. cbn in *.
    apply last_None in El as ->. unfold forest_of in Hr. cbn in Hr. rewrite Eo in Hz, Hr, Hs.
    rewrite frames_app in Hr, Hs. cbn in Hr, Hs. apply builder_ok_snoc in Hz as (H1 & H2 & H3).
    apply spine_snoc in Hs as [Hs _].
    rewrite (LastAppendedElement_bracket _ before op' p t Hs H2 Hr). cbn [mbind result_bind].
    rewrite plug_snoc in Hr.
    destruct (SetOperation_place _ _ _ [] op t Hr) as (t' & E & H). exists t'. split; [done |].
    split; [by apply builder_ok_snoc |]. unfold forest_of. cbn. rewrite frames_app. cbn.
    by rewrite plug_snoc.
Qed.

Lemma represents_pop t z z' :
  represents t z -> build BPopBack z = Ok z' ->
  exists t', PopBack t = Ok t' /\ represents t' z'.
Proof.
  intros [Hz Hr]. pose proof (frames_spine z Hz) as Hs. cbn [build].
  destruct (last (b_current z)) as [x |] eqn:El; [| done].
  destruct (Nat.eqb_spec (length (flat x)) 1) as [Hx |]; [| done]. intros [= <-].
  apply last_removelast in El. destruct z as [st cur]. cbn in *. unfold forest_of in Hr. cbn in Hr.
  rewrite El in Hz, Hr. destruct Hz as [Hz Hc]. cbn in Hz, Hc.
  destruct (PopBack_spine _ _ x t Hs Hc Hx Hr) as (t' & E & H). exists t'. split; [done |].
  split; [| exact H]. split; [done |]. by apply closed_app in Hc as [? _].
Qed.

Lemma represents_copy c l m r t z :
  represents t z ->
  exists t', perform (BCopy c l m r) t = Ok t' /\
    represents t' (mk_builder (b_open z) (b_current z ++ map (copy copied) m)).
Proof.
  intros [Hz Hr]. cbn [perform]. unfold Append_range.
  destruct (append_range_spine copied (S (place c (l ++ m) - place c l))
    (mk_tree (flats (plug c (l ++ m ++ r))) (openeds 0 (plug c (l ++ m ++ r))))
    c l m r (frames (b_open z)) (b_current z) t) as (t' & E & H); try done.
  - by apply frames_spine.
  - apply Hz.
  - unfold place. rewrite flats_app, length_app. lia.
  - exists t'. split; [exact E |]. split; [| exact H]. split; [apply Hz |].
    apply closed_app. split; [apply Hz | apply closed_copy].
Qed.

Lemma represents_step o t z z' :
  represents t z -> build o z = Ok z' -> exists t', perform o t = Ok t' /\ represents t' z'.
Proof.
  intros Hr. destruct o; cbn [perform].
  - intros [= <-]. destruct (represents_append op v t z Hr) as (t' & -> & H). by exists t'.
  - intros H. destruct (represents_front op v t z z' Hr H) as (t' & -> & H'). by exists t'.
  - intros [= <-]. by apply represents_open.
  - by apply represents_close.
  - by apply represents_set_last.
  - by apply represents_pop.
  - intros [= <-]. by apply (represents_copy c l m r).
Qed.

Lemma represents_empty : represents empty_tree builder_empty.
Proof. split; [split; done |]. by split. Qed.

Lemma steps_snoc {A} (f : build_op -> A -> result A) os o a :
  steps f (os ++ [o]) a = steps f os a ≫= f o.
Proof. unfold steps. by rewrite foldl_app. Qed.

Lemma steps_represent os z :
  steps build os builder_empty = Ok z ->
  exists t, steps perform os empty_tree = Ok t /\ represents t z.
Proof.
  revert z. induction os as [| o os IH] using rev_ind; intros z H.
  - injection H as <-. exists empty_tree. split; [done | apply represents_empty].
  - rewrite steps_snoc in H. rewrite steps_snoc. destruct (steps build os builder_empty) as [z1 |] eqn:E1; [| done].
    destruct (IH z1 eq_refl) as (t1 & -> & H1). by apply (represents_step o t1 z1).
Qed.

Lemma frames_open_count st :
  Forall (fun x => closed x.1.1) st -> length (pre_open 0 (frames st)) = length st.
Proof.
  induction st as [| [[before op] p] st IH] using rev_ind; intros Hz; [done |].
  apply Forall_app in Hz as [Hz1 Hz2]. apply Forall_cons in Hz2 as [Hz2 _].
  assert (spine (frames st)) as Hs by by apply (frames_spine (mk_builder st [])).
  rewrite frames_app. cbn. rewrite pre_open_snoc by done. rewrite !length_app, IH by done. done.
Qed.

(** C6: building a tree in the vector refines building the forest. Whatever sequence of
    [Append], [AppendFront], [OpenBracket], [CloseBracket], [SetLastOperation], [PopBack] and
    copies of ranges of other trees is applied to an empty tree, no check of the code fails, the
    vector holds exactly the nodes of the forest that the operations build, every head of a
    bracket holds the size of its subtree, and the open brackets are those of the forest. *)
Theorem tree_building_refines os z :
  steps build os builder_empty = Ok z ->
  exists t, steps perform os empty_tree = Ok t /\
    container_ t = flats (forest_of z) /\ activeBrackets_ t = openeds 0 (forest_of z) /\
    length (activeBrackets_ t) = length (b_open z).
Proof.
  intros H. destruct (steps_represent os z H) as (t & E & Hz & H1 & H2).
  exists t. split_and!; [done.. |]. rewrite H2. unfold forest_of.
  rewrite (spine_open _ _ (frames_spine z Hz) (proj2 Hz)). apply frames_open_count, Hz.
Qed.

(** ** Edits of a tree *)

(** Where a value can be inserted: before a node, or at the end of the vector. *)
Definition insertable (c : list Frame) (l r : list tree) : Prop := r <> [] \/ (r = [] /\ spine c /\ closed l).

Lemma Insert_ok op v c l r t :
  insertable c l r -> repr (plug c (l ++ r)) t ->
  exists t', Insert no_post (place c l) op v t = Ok (1, t') /\ Emplace no_post (place c l) op v t = Ok (1, t') /\
    repr (plug c (l ++ Leaf op v :: r)) t'.
Proof.
  intros [Hr | (-> & Hs & Hl)] H.
  - destruct (Insert_place no_post op v c l r t Hr H) as (t' & E1 & E2 & H'). by exists t'.
  - rewrite app_nil_r in H. destruct (Append_spine no_post op v c l t Hs Hl H) as (t' & E & H').
    exists t'. unfold Insert, Emplace. by rewrite (spine_size _ _ _ Hs H), Nat.eqb_refl, E.
Qed.

(** C29: editing a tree in the vector, also one with open brackets. Inserting a value before any
    node, or at the end of the vector (which is the end of the last open bracket), inserting one
    behind any single node, erasing any number of neighbouring trees and enclosing them, at the
    end of a bracket too, setting the operation of any tree, and setting a value in the place of
    any single node that is not an open bracket: each does exactly that to the forest. The heads
    of all the brackets around the place get their new sizes, and the positions of the open
    brackets are moved. *)
Theorem tree_edits (c : list Frame) l r op :
  (forall v t, insertable c l r -> repr (plug c (l ++ r)) t ->
     exists t', Insert no_post (place c l) op v t = Ok (1, t') /\ Emplace no_post (place c l) op v t = Ok (1, t') /\
       repr (plug c (l ++ Leaf op v :: r)) t') /\
  (forall (x : tree) v t, length (flat x) = 1 -> repr (plug c (l ++ x :: r)) t ->
     exists t', InsertAfter no_post (place c l) op v t = Ok (1, t') /\
       repr (plug c (l ++ x :: Leaf op v :: r)) t') /\
  (forall m t, repr (plug c (l ++ m ++ r)) t ->
     exists t', Erase (place c l) (place c (l ++ m)) t = Ok t' /\ repr (plug c (l ++ r)) t') /\
  (forall m p t, m <> [] -> repr (plug c (l ++ m ++ r)) t ->
     exists t', EncloseInBracket (place c l) (place c (l ++ m)) op p t = Ok t' /\
       repr (plug c (l ++ Sub op p false m :: r)) t') /\
  (forall x t, repr (plug c (l ++ x :: r)) t ->
     exists t', SetOperation op (place c l) t = Ok t' /\ repr (plug c (l ++ tree_set_op op x :: r)) t') /\
  (forall x v t, length (flat x) = 1 -> closed [x] -> repr (plug c (l ++ x :: r)) t ->
     exists t', SetValue no_post (place c l) v t = Ok (1, t') /\
       repr (plug c (l ++ Leaf (tree_op x) v :: r)) t').
Proof.
  assert (forall m, place c (l ++ m) = place c l + length (flats m)) as Eto.
  { intros m. unfold place. rewrite flats_app, length_app. lia. }
  split_and!.
  - intros v t. apply Insert_ok.
  - intros x v t Hx H. by destruct (InsertAfter_place no_post op v c l x r t Hx H) as (t' & E & H'); exists t'.
  - intros m t H. rewrite Eto. destruct m as [| x m]; [| by apply Erase_place].
    pose proof (place_size _ _ _ _ _ H) as Hs. exists t. rewrite flats_nil, Nat.add_0_r. split; [| done].
    eapply Erase_none; [done | lia].
  - intros m p t Hm H. rewrite Eto. by apply EncloseInBracket_place.
  - intros x t. by apply SetOperation_place.
  - intros x v t Hx Hc H. destruct (SetValue_place no_post c l x r v t Hx) as (t' & E & H'); [| done |].
    + unfold closed in Hc. cbn [openeds] in Hc. by rewrite app_nil_r in Hc.
    + by exists t'.
Qed.

(** the search for the last appended element ends. In every state that building reaches,
    [LastAppendedElement] returns the position of the last child of the last open bracket, or of
    that bracket when it is empty, or of the last tree of the root. *)
Theorem LastAppendedElement_found os z t :
  steps build os builder_empty = Ok z -> z <> builder_empty ->
  steps perform os empty_tree = Ok t ->
  match last (b_current z), last (b_open z) with
  | Some x, _ =>
      LastAppendedElement t = Ok (place (frames (b_open z)) (removelast (b_current z))) /\
      container_ t !! place (frames (b_open z)) (removelast (b_current z)) = Some (root x)
  | None, Some (before, op, p) =>
      LastAppendedElement t = Ok (place (frames (removelast (b_open z))) before) /\
      container_ t !! place (frames (removelast (b_open z))) before = Some (head op p 0)
  | None, None => False
  end.
Proof.
  intros Hb Hne Hp. destruct (steps_represent os z Hb) as (t' & E & [Hz Hr]).
  rewrite Hp in E. injection E as <-. pose proof (frames_spine z Hz) as Hs.
  destruct (last (b_current z)) as [x |] eqn:El; [| destruct (last (b_open z)) as [[[before op] p] |] eqn:Eo].
  - apply last_removelast in El. destruct z as [st cur]. cbn in *. unfold forest_of in Hr. cbn in Hr.
    rewrite El in Hz, Hr. split.
    + eapply LastAppendedElement_leaf; [done | apply Hz | done].
    + by eapply lookup_place.
  - apply last_removelast in Eo. destruct z as [st cur]. cbn in *. apply last_None in El as ->.
    unfold forest_of in Hr. cbn in Hr. rewrite Eo in Hz, Hr, Hs. rewrite frames_app in Hr, Hs. cbn in Hr, Hs.
    apply builder_ok_snoc in Hz as (H1 & H2 & H3). apply spine_snoc in Hs as [Hs _]. split.
    + by eapply LastAppendedElement_bracket.
    + rewrite plug_snoc in Hr. exact (lookup_place _ _ _ _ _ Hr).
  - apply Hne. destruct z as [st cur]. cbn in *. by apply last_None in El as ->; apply last_None in Eo as ->.
Qed.

(** ** Reading the vector *)

(** The forest of a part of the container, by the sizes in the heads of the brackets. *)
Fixpoint read_forest (fuel : nat) (c : list (Node Op B V)) : list tree :=
  match fuel, c with
  | S fuel, mk_node op (Value v) :: c => Leaf op v :: read_forest fuel c
  | S fuel, mk_node op (SubTree s p) :: c =>
      Sub op p false (read_forest fuel (take (s - 1) c)) :: read_forest fuel (drop (s - 1) c)
  | _, _ => []
  end.

(** the vector determines its forest. Reading the container by the sizes in the heads of
    the brackets gives back the forest it was made of, so two forests that the vector cannot tell
    apart are the same (but for the marks of the open brackets, which are the stack's). *)
Theorem vector_is_forest (f g : list tree) :
  read_forest (length (flats f)) (flats f) = map (copy id) f /\
  (flats f = flats g -> map (copy id) f = map (copy id) g).
Proof.
  assert (forall n (f : list tree), length (flats f) <= n -> read_forest n (flats f) = map (copy id) f) as H.
  { clear. intros n. induction n as [| n IH]; intros f Hn.
    - rewrite (flats_pos_nil f) by lia. done.
    - destruct f as [| [op v | op p o ch] f]; [done | |]; rewrite flats_cons in *.
      + rewrite flat_leaf in *. cbn in *. rewrite IH by lia. done.
      + rewrite flat_sub in *. rewrite length_app in Hn. cbn in Hn.
        change (read_forest (S n) ((head op p (length (flats ch)) :: flats ch) ++ flats f)) with
          (Sub op p false (read_forest n (take (S (length (flats ch)) - 1) (flats ch ++ flats f)))
           :: read_forest n (drop (S (length (flats ch)) - 1) (flats ch ++ flats f))).
        rewrite Nat.sub_1_r. cbn [pred].
        rewrite take_app_length, drop_app_length, !IH by lia. done. }
  split; [by apply H |]. intros E. rewrite <- (H (length (flats f)) f), <- (H (length (flats f)) g), E; [done | | done].
  by rewrite <- E.
Qed.

End Build.

(** ** Witnesses: [(A + B) - (C + (] and then [D] is appended and the brackets are closed. *)

Definition sample_ops : list (@build_op bool unit nat) :=
  [BOpenBracket true tt; BAppend true 1; BAppend true 2; BCloseBracket; BOpenBracket false tt;
   BAppend true 3; BOpenBracket true tt; BAppend false 4; BSetLastOperation true].

Definition sample_builder : @Builder bool unit nat :=
  match steps (build id) sample_ops builder_empty with Ok z => z | Fail _ => builder_empty end.

Lemma tree_building_refines_witness :
  exists t, steps (perform id) sample_ops empty_tree = Ok t /\ activeBrackets_ t = [3; 5] /\
    map Node_Size (container_ t) = [3; 1; 1; 4; 1; 2; 1].
Proof.
  destruct (tree_building_refines id sample_ops sample_builder eq_refl) as (t & E & H1 & H2 & _).
  exists t. split; [exact E |]. rewrite H1, H2. split; reflexivity.
Defined.

Lemma LastAppendedElement_found_witness :
  exists t, steps (perform id) sample_ops empty_tree = Ok t /\ LastAppendedElement t = Ok 6.
Proof.
  destruct (tree_building_refines id sample_ops sample_builder eq_refl) as (t & E & _).
  exists t. split; [exact E |].
  exact (proj1 (LastAppendedElement_found id sample_ops sample_builder t eq_refl ltac:(discriminate) E)).
Defined.

Definition sample_leaf (n : nat) : tree bool unit nat := Leaf true n.

(** Erasing the last tree of a closed bracket. *)
Lemma tree_edits_witness :
  let t := mk_tree (flats [Sub true tt false [sample_leaf 1; sample_leaf 2]; sample_leaf 3]) [] in
  exists t', Erase 2 3 t = Ok t' /\ container_ t' = flats [Sub true tt false [sample_leaf 1]; sample_leaf 3].
Proof.
  intros t. destruct (tree_edits [mk_frame [] true tt false [sample_leaf 3]] [sample_leaf 1] [] true) as (_ & _ & H & _).
  destruct (H [sample_leaf 2] t) as (t' & E & H' & _); [by split |]. by exists t'.
Defined.

Lemma vector_is_forest_witness :
  let f := [Sub true tt true [sample_leaf 1]; sample_leaf 2] in
  read_forest 3 (flats f) = [Sub true tt false [sample_leaf 1]; sample_leaf 2].
Proof. exact (proj1 (vector_is_forest [Sub true tt true [sample_leaf 1]; sample_leaf 2] [])). Defined.
