(* ===== verification/QueryEntries.v ===== *)
(** * QueryEntries: the conditions of a query

    Models the entries of [core/query/queryentry.h] and [queryentry.cc]: the adjustment and the
    checks of the values of a condition, the post-processing that splits off the IS NULL part of
    a condition, and the evaluation of a tree of conditions. A field is its name. *)

From S2P Require Import Prelude ExpressionTree ExpressionForest ExpressionBuild Variant.
#[local] Open Scope nat_scope.

(** ** Data *)

(** [OpType] and [CondType] of [core/type_consts.h]. *)
Inductive OpType : Set := OpOr | OpAnd | OpNot.

Inductive CondType : Set :=
| CondAny | CondEq | CondLt | CondLe | CondGt | CondGe | CondRange | CondSet | CondAllSet
| CondEmpty | CondLike | CondDWithin | CondKnn.

#[export] Instance OpType_eq_dec : EqDecision OpType.
Proof. solve_decision. Defined.

#[export] Instance CondType_eq_dec : EqDecision CondType.
Proof. solve_decision. Defined.

Definition is_or (op : OpType) : bool := match op with OpOr => true | _ => false end.

(** [QueryEntry], without the marks ([insertedFrom_], [forcedSortOptEntry_]) that the
    operations below do not read. *)
Record QueryEntry : Type := mk_qe {
  fieldName_ : bytes;
  values_ : list Variant;
  condition_ : CondType;
  needIsNull_ : bool;
  distinct_ : bool
}.

(** The arguments of [QueryEntriesTree]; the entries that no operation below looks into keep
    their contents in [X]. *)
Inductive Entry {X : Type} : Type :=
| E_Query (qe : QueryEntry)
| E_Join (joinIndex : nat)
| E_BetweenFields (x : X)
| E_AlwaysFalse
| E_AlwaysTrue
| E_SubQuery (x : X)
| E_SubQueryField (x : X)
| E_Knn (x : X)
| E_MultiDistinct (x : X)
| E_QueryFunction (x : X)
| E_SubQueryFunction (x : X).
#[global] Arguments Entry : clear implicits.

(** The payload of [QueryEntriesBracket]. *)
Definition EqualPositions : Type := list (list bytes).

(** ** Values of a condition *)

Definition IsNullValue (v : Variant) : bool := match v with V_Null => true | _ => false end.

(** [unstable_remove_if] of [estl/algorithm.h]: the last element that stays is moved over a
    removed one. The fuel is the length of the range. *)
Fixpoint drop_removed (pred : Variant -> bool) (l : list Variant) : list Variant :=
  match l with
  | [] => []
  | x :: l => if pred x then drop_removed pred l else x :: l
  end.

Fixpoint unstable_remove_if (fuel : nat) (pred : Variant -> bool) (l : list Variant)
  : list Variant :=
  match fuel, l with
  | S fuel, x :: l =>
      if pred x then
        match drop_removed pred (rev l) with
        | [] => []
        | y :: l' => y :: unstable_remove_if fuel pred (rev l')
        end
      else x :: unstable_remove_if fuel pred l
  | _, _ => []
  end.

(** [QueryEntry::adjust] in the mode [Default]. *)
Definition adjust (qe : QueryEntry) : bool * QueryEntry :=
  match condition_ qe with
  | CondEq | CondSet | CondAllSet =>
      match values_ qe with
      | [] => (false, qe)
      | _ =>
          let kept := unstable_remove_if (length (values_ qe)) IsNullValue (values_ qe) in
          if length kept =? length (values_ qe) then (false, mk_qe (fieldName_ qe) kept (condition_ qe) (needIsNull_ qe) (distinct_ qe))
          else
            match kept with
            | [] => (true, mk_qe (fieldName_ qe) [] CondEmpty (needIsNull_ qe) (distinct_ qe))
            | [v] => (true, mk_qe (fieldName_ qe) [v] CondEq true (distinct_ qe))
            | _ => (true, mk_qe (fieldName_ qe) kept (condition_ qe) true (distinct_ qe))
            end
      end
  | _ => (false, qe)
  end.

(** [As<double>() < 0.0] of a numeric value; floating point numbers are their bits. *)
Definition negative_number (v : Variant) : bool :=
  match v with
  | V_Int z | V_Int64 z => (z <? 0)%Z
  | V_Double b => (0x8000000000000000 <? b)%Z && (b <=? 0xFFF0000000000000)%Z
  | V_Float b => (0x80000000 <? b)%Z && (b <=? 0xFF800000)%Z
  | _ => false
  end.

Definition is_string (v : Variant) : bool := match v with V_String _ => true | _ => false end.

(** [VerifyQueryEntryValues<null>]. *)
Definition VerifyQueryEntryValues (cond : CondType) (values : list Variant) : result unit :=
  match cond with
  | CondKnn => Fail (Throw errLogic)
  | CondEq | CondSet | CondAllSet => Ok tt
  | CondAny | CondEmpty =>
      if existsb (fun v => negb (IsNullValue v)) values then Fail (Throw errParams) else Ok tt
  | CondGe | CondGt | CondLt | CondLe =>
      match values with
      | [v] => if IsNullValue v then Fail (Throw errParams) else Ok tt
      | _ => Fail (Throw errParams)
      end
  | CondLike =>
      match values with
      | [v] => if is_string v then Ok tt else Fail (Throw errParams)
      | _ => Fail (Throw errParams)
      end
  | CondRange =>
      match values with
      | [a; b] => if IsNullValue a || IsNullValue b then Fail (Throw errParams) else Ok tt
      | _ => Fail (Throw errParams)
      end
  | CondDWithin =>
      match values with
      | [a; b] =>
          if IsNullValue a || IsNullValue b || negative_number b then Fail (Throw errParams)
          else Ok tt
      | _ => Fail (Throw errParams)
      end
  end.

Definition ommitExcesiveArguments (qe : QueryEntry) : QueryEntry :=
  match condition_ qe with
  | CondAny | CondEmpty => mk_qe (fieldName_ qe) [] (condition_ qe) (needIsNull_ qe) (distinct_ qe)
  | _ => qe
  end.

(** The constructor [QueryEntry(fieldName, cond, values)]. *)
Definition QueryEntry_make (fieldName : bytes) (cond : CondType) (v : list Variant)
  : result QueryEntry :=
  let qe := snd (adjust (mk_qe fieldName v cond false false)) in
  _ ← VerifyQueryEntryValues (condition_ qe) (values_ qe);
  mret (ommitExcesiveArguments qe).

Definition ResetNeedIsNull (qe : QueryEntry) : QueryEntry :=
  mk_qe (fieldName_ qe) (values_ qe) (condition_ qe) false (distinct_ qe).

Section Tree.
Context {X : Type}.

Notation Entry := (Entry X).
Notation Tree := (ExpressionTree OpType EqualPositions Entry).
Notation forest := (list (tree OpType EqualPositions Entry)).

(** ** Post-processing

    [PostProcessor<QueryEntry>::Process]; the other entries have none. The entry that it inserts
    goes through [Emplace] and is processed too: the fuel bounds that recursion. *)

Definition set_value_at (i : nat) (v : Entry) (t : Tree) : result Tree :=
  nd ← node_at i t;
  mret (mk_tree (<[i := Node_SetValue v nd]> (container_ t)) (activeBrackets_ t)).

Fixpoint Process (fuel : nat) (t : Tree) (pos : nat) : result (nat * Tree) :=
  match fuel with
  | O => Fail OutOfFuel
  | S fuel =>
      e ← Get pos t;
      match e with
      | E_Query qe =>
          if negb (needIsNull_ qe) then Ok (0, t)
          else
            let qe := ResetNeedIsNull qe in
            t ← set_value_at pos (E_Query qe) t;
            isNull ← QueryEntry_make (fieldName_ qe) CondEmpty [];
            p ← Emplace (Process fuel) (pos + 1)
                  (if decide (condition_ qe = CondAllSet) then OpAnd else OpOr) (E_Query isNull) t;
            op ← GetOperation pos (snd p);
            t ← SetOperation OpAnd pos (snd p);
            t ← EncloseInBracket pos (pos + 1 + fst p) op [] t;
            mret (fst p + 1, t)
      | _ => Fail AssertFail
      end
  end.

(** The post-processor of the type of a value. *)
Definition post_of (e : Entry) : @PostProcessor OpType EqualPositions Entry :=
  match e with E_Query _ => Process 2 | _ => no_post end.

Definition entries_Append (op : OpType) (e : Entry) (t : Tree) : result (nat * Tree) :=
  Append (post_of e) op e t.

Definition entries_Insert (pos : nat) (op : OpType) (e : Entry) (t : Tree)
  : result (nat * Tree) := Insert (post_of e) pos op e t.

Definition entries_SetValue (pos : nat) (e : Entry) (t : Tree) : result (nat * Tree) :=
  SetValue (post_of e) pos e t.

(** ** Evaluation

    [checkIfSatisfyConditions] for an item: [sem_q] and [sem_b] decide a condition of a field and
    one between fields for that item. The entries that need more than the item are not expected
    here ([throw_as_assert]). The fuel bounds the steps of the loops, nested ones included. *)

Section Check.
Context (sem_q : QueryEntry -> bool) (sem_b : X -> bool).

Definition check_entry (e : Entry) : result bool :=
  match e with
  | E_Query qe => Ok (sem_q qe)
  | E_BetweenFields x => Ok (sem_b x)
  | E_AlwaysFalse => Ok false
  | E_AlwaysTrue => Ok true
  | E_MultiDistinct _ => Ok true
  | E_SubQuery _ | E_SubQueryField _ | E_Join _ | E_SubQueryFunction _ | E_QueryFunction _
  | E_Knn _ => Fail AssertFail
  end.

Fixpoint check_loop (fuel it to : nat) (res : bool) (t : Tree) : result bool :=
  match fuel with
  | O => Fail OutOfFuel
  | S fuel =>
      if it =? to then Ok res
      else
        op ← GetOperation it t;
        next ← const_iterator_next it t;
        if is_or op && res then check_loop fuel next to res t
        else if negb (is_or op) && negb res then Ok res
        else
          nd ← node_at it t;
          last ← match storage_ nd with
                 | SubTree _ _ =>
                     b ← const_iterator_cbegin it t;
                     e ← const_iterator_cend it t;
                     first ← GetOperation b t;
                     if (b =? e) || is_or first then Fail AssertFail
                     else check_loop fuel b e true t
                 | Value v => check_entry v
                 end;
          check_loop fuel next to (xorb last (bool_decide (op = OpNot))) t
  end.

Definition checkIfSatisfyConditions (from to : nat) (t : Tree) : result bool :=
  first ← GetOperation from t;
  if (from =? to) || is_or first then Fail AssertFail
  else check_loop (S (to - from)) from to true t.

End Check.

(** What a forest of conditions means: a conjunction of groups, a group being a condition that
    may be negated and the conditions that are joined to it with OR. *)
Section Holds.
Context (sem : Entry -> bool).

Fixpoint holds_tree (x : tree OpType EqualPositions Entry) : bool :=
  match x with
  | Leaf _ v => sem v
  | Sub _ _ _ ch =>
      (fix go cur ts :=
         match ts with
         | [] => cur
         | y :: ts =>
             match tree_op y with
             | OpOr => go (cur || holds_tree y) ts
             | OpAnd => cur && go (holds_tree y) ts
             | OpNot => cur && go (negb (holds_tree y)) ts
             end
         end) true ch
  end.

(** [cur] is the value of the group so far. *)
Fixpoint holds_from (cur : bool) (ts : forest) : bool :=
  match ts with
  | [] => cur
  | y :: ts =>
      match tree_op y with
      | OpOr => holds_from (cur || holds_tree y) ts
      | OpAnd => cur && holds_from (holds_tree y) ts
      | OpNot => cur && holds_from (negb (holds_tree y)) ts
      end
  end.

Definition holds (ts : forest) : bool := holds_from true ts.

Lemma holds_sub op p o ch : holds_tree (Sub op p o ch) = holds ch.
Proof. reflexivity. Qed.

Definition head_op (ts : forest) : OpType := match ts with [] => OpAnd | y :: _ => tree_op y end.

(** The value of the group that ends before [r] is lost when a new group starts. *)
Lemma holds_from_new cur r : is_or (head_op r) = false -> holds_from cur r = cur && holds r.
Proof.
  destruct r as [| y r]; cbn; [by rewrite andb_true_r |]. unfold holds. cbn.
  by destruct (tree_op y).
Qed.

(** Two forests with the same value whatever stands around them. *)
Lemma holds_from_app_ext l r r' cur :
  (forall cur, holds_from cur r = holds_from cur r') ->
  holds_from cur (l ++ r) = holds_from cur (l ++ r').
Proof.
  intros H. revert cur. induction l as [| y l IH]; intros cur; cbn [app]; [apply H |].
  cbn [holds_from]. by destruct (tree_op y); rewrite IH.
Qed.

Lemma holds_app_ext l r r' :
  (forall cur, holds_from cur r = holds_from cur r') -> holds (l ++ r) = holds (l ++ r').
Proof. apply holds_from_app_ext. Qed.

(** A part that is false whatever the group before it is. *)
Lemma holds_from_app_false l r cur :
  (forall cur, holds_from cur r = false) -> holds_from cur (l ++ r) = false.
Proof.
  intros H. revert cur. induction l as [| y l IH]; intros cur; cbn [app]; [apply H |].
  cbn [holds_from]. destruct (tree_op y); rewrite IH; by rewrite ?andb_false_r.
Qed.

Lemma holds_replace l x y r :
  tree_op x = tree_op y -> holds_tree x = holds_tree y ->
  holds (l ++ x :: r) = holds (l ++ y :: r).
Proof. intros Ho Hh. apply holds_app_ext. intros cur. cbn [holds_from]. by rewrite Ho, Hh. Qed.

End Holds.

(** ** Well-formed conditions: every bracket is closed and has a condition in it, no level starts
    with OR, and every entry passes [P]. *)
Section Ok.
Context (P : Entry -> bool).

Fixpoint tree_ok (x : tree OpType EqualPositions Entry) : bool :=
  match x with
  | Leaf _ v => P v
  | Sub _ _ o ch =>
      negb o && match ch with [] => false | y :: _ => negb (is_or (tree_op y)) end
      && forallb tree_ok ch
  end.

Definition level_ok (ts : forest) : bool := negb (is_or (head_op ts)) && forallb tree_ok ts.

Lemma tree_ok_sub op p o ch :
  tree_ok (Sub op p o ch) = true <-> o = false /\ ch <> [] /\ level_ok ch = true.
Proof.
  cbn [tree_ok]. unfold level_ok. rewrite <- andb_assoc, andb_true_iff, negb_true_iff.
  destruct ch as [| y ch]; cbn [head_op]; naive_solver.
Qed.

Lemma level_ok_cons y ts :
  level_ok (y :: ts) = true <-> is_or (tree_op y) = false /\ tree_ok y = true /\ forallb tree_ok ts = true.
Proof. unfold level_ok. cbn. rewrite !andb_true_iff, negb_true_iff. done. Qed.

Lemma forallb_app_true (l r : forest) :
  forallb tree_ok (l ++ r) = true <-> forallb tree_ok l = true /\ forallb tree_ok r = true.
Proof. by rewrite forallb_app, andb_true_iff. Qed.

Lemma level_ok_app l r :
  level_ok (l ++ r) = true <->
  forallb tree_ok l = true /\ forallb tree_ok r = true /\
  is_or (head_op (l ++ r)) = false.
Proof. unfold level_ok. rewrite andb_true_iff, negb_true_iff, forallb_app_true. naive_solver. Qed.

End Ok.

(** ** The evaluation computes the meaning *)

Section Evaluate.
Context (sem_q : QueryEntry -> bool) (sem_b : X -> bool).

Definition sem_of (e : Entry) : bool :=
  match check_entry sem_q sem_b e with Ok b => b | Fail _ => false end.

Definition evaluable (e : Entry) : bool := is_ok (check_entry sem_q sem_b e).

Lemma check_loop_holds fuel c l r res t :
  repr (plug c (l ++ r)) t -> forallb (tree_ok evaluable) r = true ->
  length (flats r) < fuel ->
  check_loop sem_q sem_b fuel (place c l) (place c (l ++ r)) res t = Ok (holds_from sem_of res r).
Proof.
  revert c l r res. induction fuel as [| fuel IH]; intros c l r res Hr Hok Hf; [lia |].
  cbn [check_loop]. destruct r as [| x r]; [by rewrite app_nil_r, Nat.eqb_refl |].
  cbn in Hok. apply andb_true_iff in Hok as [Hx Hok]. rewrite flats_cons, length_app in Hf.
  pose proof (flat_pos x) as Hp. rewrite (proj2 (Nat.eqb_neq _ _)).
  2: { unfold place. rewrite flats_app, flats_cons, !length_app. lia. }
  rewrite (GetOperation_place _ _ _ _ _ Hr). cbn [mbind result_bind].
  assert (const_iterator_next (place c l) t = Ok (place c (l ++ [x]))) as -> by apply (Next_place _ _ _ _ _ Hr).
  cbn [mbind result_bind holds_from].
  assert (forall res, check_loop sem_q sem_b fuel (place c (l ++ [x])) (place c (l ++ x :: r)) res t
                      = Ok (holds_from sem_of res r)) as Hnext.
  { intros res'. pose proof (IH c (l ++ [x]) r res') as H. rewrite <- app_assoc in H. cbn in H.
    apply H; [done | done | lia]. }
  rewrite (node_at_place _ _ _ _ _ Hr). cbn [mbind result_bind].
  assert ((match storage_ (root x) with
           | SubTree _ _ =>
               b ← const_iterator_cbegin (place c l) t;
               e ← const_iterator_cend (place c l) t;
               first ← GetOperation b t;
               if (b =? e) || is_or first then Fail AssertFail else check_loop sem_q sem_b fuel b e true t
           | Value v => check_entry sem_q sem_b v
           end) = Ok (holds_tree sem_of x)) as ->.
  { destruct x as [op v | op p o ch].
    - cbn [root storage_ holds_tree tree_ok] in *. unfold evaluable, sem_of in *.
      by destruct (check_entry sem_q sem_b v).
    - apply tree_ok_sub in Hx as (_ & Hne & Hch). cbn [root storage_ head].
      unfold const_iterator_cbegin, const_iterator_cend, Size_of.
      rewrite (IsSubTree_place _ _ _ _ _ Hr), (node_at_place _ _ _ _ _ Hr).
      cbn [mbind result_bind is_sub fmap result_fmap root head Node_Size storage_].
      rewrite plug_inner in Hr. rewrite <- (place_inner c l op p o r).
      assert (place c l + S (length (flats ch)) = place (c ++ [mk_frame l op p o r]) ([] ++ ch)) as ->.
      { cbn [app]. rewrite place_inner_end, place_snoc, flat_sub. done. }
      destruct ch as [| y ch]; [done |]. apply level_ok_cons in Hch as (Hy & Hy' & Hch).
      rewrite (GetOperation_place (c ++ [mk_frame l op p o r]) [] y ch t) by done. cbn [mbind result_bind].
      rewrite Hy, orb_false_r, (proj2 (Nat.eqb_neq _ _)).
      2: { unfold place. cbn [app]. pose proof (flats_pos (y :: ch) ltac:(done)). rewrite flats_nil. cbn [length]. lia. }
      rewrite flat_sub in Hf. cbn [length] in Hf. rewrite IH; [done | done | | lia]. cbn. by rewrite Hy'. }
  cbn [mbind result_bind]. rewrite Hnext.
  destruct (tree_op x) eqn:Eop, res; cbn; rewrite ?Hnext; try done; by destruct (holds_tree sem_of x).
Qed.

End Evaluate.
End Tree.

(** C30: the evaluation of the conditions of a query. On a level of any tree of conditions in
    which no bracket is empty and no level starts with OR, [checkIfSatisfyConditions] ends, fails
    no check and returns the meaning of the conditions: the conjunction of the groups that AND and
    NOT start and OR continues. The result does not depend on the entries it skips. *)
Theorem conditions_evaluated {X} (sem_q : QueryEntry -> bool) (sem_b : X -> bool)
    c (ts : list (tree OpType EqualPositions (Entry X))) t :
  repr (plug c ts) t -> ts <> [] -> level_ok (evaluable sem_q sem_b) ts = true ->
  checkIfSatisfyConditions sem_q sem_b (place c []) (place c ts) t =
  Ok (holds (sem_of sem_q sem_b) ts).
Proof.
  intros Hr Hne Hok. unfold checkIfSatisfyConditions. destruct ts as [| y ts]; [done |].
  rewrite (GetOperation_place c [] y ts t Hr). cbn [mbind result_bind].
  apply level_ok_cons in Hok as (Hy & Hy' & Hts). pose proof (flats_pos (y :: ts) Hne).
  assert (place c (y :: ts) = place c [] + length (flats (y :: ts))) as Ep.
  { unfold place. rewrite flats_nil. cbn [length]. lia. }
  rewrite Hy, orb_false_r, (proj2 (Nat.eqb_neq _ _)) by lia.
  apply (check_loop_holds sem_q sem_b _ c [] (y :: ts)); [done | cbn; by rewrite Hy' | lia].
Qed.

Definition sample_entry (f : bytes) : QueryEntry := mk_qe f [V_Int 1] CondEq false false.

(** [a OR (NOT b) AND c]. *)
Definition sample_conditions : list (tree OpType EqualPositions (Entry unit)) :=
  [Leaf OpAnd (E_Query (sample_entry [1%Z])); Sub OpOr [] false [Leaf OpNot (E_Query (sample_entry [2%Z]))];
   Leaf OpAnd (E_Query (sample_entry [3%Z]))].

Lemma conditions_evaluated_witness :
  checkIfSatisfyConditions (X := unit) (fun qe => forallb (Z.eqb 3) (fieldName_ qe)) (fun _ => true)
    0 4 (mk_tree (flats sample_conditions) []) = Ok true.
Proof.
  apply (conditions_evaluated (fun qe => forallb (Z.eqb 3) (fieldName_ qe)) (fun _ => true) []
    sample_conditions (mk_tree (flats sample_conditions) [])); [by split | done | reflexivity].
Defined.

(** ** Null values *)

Section Remove.
Context (pred : Variant -> bool).

Notation keep := (List.filter (fun v => negb (pred v))).

Lemma keep_rev l : keep (rev l) ≡ₚ keep l.
Proof.
  induction l as [| x l IH]; [done |]. cbn [rev]. rewrite List.filter_app, IH. cbn.
  destruct (pred x); cbn; [by rewrite app_nil_r |]. by rewrite Permutation_app_comm.
Qed.

Lemma drop_removed_keep l : keep (drop_removed pred l) = keep l.
Proof. induction l as [| x l IH]; cbn; [done |]. destruct (pred x) eqn:E; cbn; rewrite ?E; done. Qed.

Lemma drop_removed_length l : length (drop_removed pred l) <= length l.
Proof. induction l as [| x l IH]; cbn; [done |]. destruct (pred x); cbn; lia. Qed.

Lemma drop_removed_head l y l' : drop_removed pred l = y :: l' -> pred y = false.
Proof. induction l as [| x l IH]; cbn; [done |]. destruct (pred x) eqn:E; [done |]. by intros [= <- <-]. Qed.

Lemma unstable_remove_if_keep fuel l :
  length l <= fuel -> unstable_remove_if fuel pred l ≡ₚ keep l.
Proof.
  revert l. induction fuel as [| fuel IH]; intros [| x l] Hf; cbn in *; [done | lia | done |].
  destruct (pred x) eqn:Ex; cbn.
  - pose proof (drop_removed_keep (rev l)) as Hk. pose proof (drop_removed_length (rev l)) as Hl.
    rewrite length_rev in Hl.
    rewrite <- keep_rev, <- Hk.
    destruct (drop_removed pred (rev l)) as [| y l'] eqn:Ed; [done |]. cbn in Hl |- *.
    rewrite (drop_removed_head _ _ _ Ed). cbn. constructor. rewrite IH by (rewrite length_rev; lia). apply keep_rev.
  - constructor. apply IH. lia.
Qed.

Lemma unstable_remove_if_none fuel l :
  length l <= fuel -> forallb (fun v => negb (pred v)) l = true -> unstable_remove_if fuel pred l = l.
Proof.
  revert l. induction fuel as [| fuel IH]; intros [| x l] Hf; cbn in *; [done | lia | done |].
  rewrite andb_true_iff, negb_true_iff. intros [-> Hl]. rewrite IH; [done | lia | done].
Qed.

Lemma keep_length_all l : length (keep l) = length l -> forallb (fun v => negb (pred v)) l = true.
Proof.
  induction l as [| x l IH]; cbn; [done |]. destruct (pred x); cbn.
  - pose proof (filter_length_le (fun v => negb (pred v)) l). lia.
  - intros [= H]. by apply IH.
Qed.

End Remove.

Definition not_null (v : Variant) : bool := negb (IsNullValue v).

(** A list of values that [CondEq], [CondSet] and [CondAllSet] take. *)
Definition set_condition (cond : CondType) : bool :=
  match cond with CondEq | CondSet | CondAllSet => true | _ => false end.

(** null values of a condition. A condition EQ, SET or ALLSET on a field takes any values.
    Without nulls the entry has the values as they are; when all the values are null it is IS
    NULL; otherwise the entry has the values that are not null, in some order, and is marked to
    be split, and its condition is EQ when one value is left, whatever the condition was. *)
Theorem null_values_split (f : bytes) cond (vs : list Variant) :
  set_condition cond = true ->
  exists qe, QueryEntry_make f cond vs = Ok qe /\ fieldName_ qe = f /\
    (existsb IsNullValue vs = false -> qe = mk_qe f vs cond false false) /\
    (existsb IsNullValue vs = true -> List.filter not_null vs = [] -> qe = mk_qe f [] CondEmpty false false) /\
    (existsb IsNullValue vs = true -> List.filter not_null vs <> [] ->
       values_ qe ≡ₚ List.filter not_null vs /\ needIsNull_ qe = true /\
       condition_ qe = (if length (List.filter not_null vs) =? 1 then CondEq else cond)).
Proof.
  intros Hc. set (kept := unstable_remove_if (length vs) IsNullValue vs).
  assert (kept ≡ₚ List.filter not_null vs) as Hk by by apply unstable_remove_if_keep.
  assert (adjust (mk_qe f vs cond false false) =
    if length kept =? length vs then (false, mk_qe f kept cond false false)
    else match kept with
         | [] => (true, mk_qe f [] CondEmpty false false)
         | [v] => (true, mk_qe f [v] CondEq true false)
         | _ => (true, mk_qe f kept cond true false)
         end) as Ha.
  { unfold adjust. cbn. destruct cond; try done; destruct vs; done. }
  unfold QueryEntry_make. rewrite Ha. pose proof (Permutation_length Hk) as Hl.
  destruct (existsb IsNullValue vs) eqn:Ex.
  - rewrite (proj2 (Nat.eqb_neq _ _)).
    2: { intros E. rewrite Hl in E. apply keep_length_all in E. apply existsb_exists in Ex as (x & Hx & Hn).
         rewrite forallb_forall in E. apply E in Hx. by rewrite Hn in Hx. }
    destruct kept as [| v [| w kept']]; cbn in Hl.
    + exists (mk_qe f [] CondEmpty false false). split_and!; try done. intros _ Hne. by apply Permutation_nil_l in Hk.
    + exists (mk_qe f [v] CondEq true false). split_and!; try done.
      * intros _ E. by rewrite E in Hl.
      * intros _ _. rewrite <- Hl. done.
    + exists (mk_qe f (v :: w :: kept') cond true false). split_and!; try done.
      * by destruct cond.
      * intros _ E. by rewrite E in Hl.
      * intros _ _. rewrite <- Hl. done.
  - assert (forallb not_null vs = true) as Hall.
    { apply forallb_forall. intros x Hx. unfold not_null. apply negb_true_iff. apply not_true_is_false. intros Hn.
      assert (existsb IsNullValue vs = true) by (apply existsb_exists; by exists x). congruence. }
    assert (kept = vs) as -> by by apply unstable_remove_if_none. rewrite Nat.eqb_refl.
    exists (mk_qe f vs cond false false). split_and!; try done. by destruct cond.
Qed.

Lemma null_values_split_witness :
  exists qe, QueryEntry_make [120%Z] CondAllSet [V_Null; V_Int 7] = Ok qe /\
    condition_ qe = CondEq /\ needIsNull_ qe = true.
Proof.
  destruct (null_values_split [120%Z] CondAllSet [V_Null; V_Int 7] eq_refl) as (qe & E & _ & _ & _ & H).
  exists qe. destruct (H eq_refl ltac:(discriminate)) as (_ & H1 & H2). by rewrite H1, H2.
Defined.

(** ** Splitting off IS NULL *)

Section Split.
Context {X : Type}.

Notation Entry := (Entry X).
Notation Tree := (ExpressionTree OpType EqualPositions Entry).
Notation forest := (list (tree OpType EqualPositions Entry)).

Definition is_null_entry (f : bytes) : Entry := E_Query (mk_qe f [] CondEmpty false false).

(** The bracket that takes the place of an entry that is to be split. *)
Definition split_entry (op : OpType) (qe : QueryEntry) : tree OpType EqualPositions Entry :=
  Sub op [] false
    [Leaf OpAnd (E_Query (ResetNeedIsNull qe));
     Leaf (if decide (condition_ qe = CondAllSet) then OpAnd else OpOr) (is_null_entry (fieldName_ qe))].

Lemma Process_S fuel t pos :
  @Process X (S fuel) t pos =
  (e ← Get pos t;
   match e with
   | E_Query qe =>
       if negb (needIsNull_ qe) then Ok (0, t)
       else
         let qe := ResetNeedIsNull qe in
         t ← set_value_at pos (E_Query qe) t;
         isNull ← QueryEntry_make (fieldName_ qe) CondEmpty [];
         p ← Emplace (Process fuel) (pos + 1)
               (if decide (condition_ qe = CondAllSet) then OpAnd else OpOr) (E_Query isNull) t;
         op ← GetOperation pos (snd p);
         t ← SetOperation OpAnd pos (snd p);
         t ← EncloseInBracket pos (pos + 1 + fst p) op [] t;
         mret (fst p + 1, t)
   | _ => Fail AssertFail
   end).
Proof. reflexivity. Qed.

Lemma Process_done fuel t pos qe :
  Get pos t = Ok (E_Query qe) -> needIsNull_ qe = false -> @Process X (S fuel) t pos = Ok (0, t).
Proof. intros H Hn. cbn [Process]. rewrite H. cbn [mbind result_bind]. by rewrite Hn. Qed.

Lemma Get_place c l op v r t :
  repr (plug c (l ++ Leaf op v :: r)) t -> @Get OpType EqualPositions Entry (place c l) t = Ok v.
Proof. intros H. unfold Get. by rewrite (node_at_place _ _ _ _ _ H). Qed.

(** The processing of an entry at a place, given that the new entry lands behind it. *)
Lemma Process_place c l op qe r t :
  repr (plug c (l ++ Leaf op (E_Query qe) :: r)) t -> needIsNull_ qe = true ->
  (forall t1 o, repr (plug c (l ++ Leaf op (E_Query (ResetNeedIsNull qe)) :: r)) t1 ->
     exists t2, Emplace (@Process X 1) (place c l + 1) o (is_null_entry (fieldName_ qe)) t1 =
                inserted (@Process X 1) t2 (place c l + 1) /\
       repr (plug c (l ++ Leaf op (E_Query (ResetNeedIsNull qe)) :: Leaf o (is_null_entry (fieldName_ qe)) :: r)) t2) ->
  exists t', @Process X 2 t (place c l) = Ok (2, t') /\ repr (plug c (l ++ split_entry op qe :: r)) t'.
Proof.
  intros Hr Hn Hemp. rewrite Process_S, (Get_place _ _ _ _ _ _ Hr). cbn [mbind result_bind]. rewrite Hn. cbn [negb].
  unfold set_value_at. rewrite (node_at_place _ _ _ _ _ Hr). cbn [mbind result_bind mret result_ret].
  pose proof (replace_root c l _ (Leaf op (E_Query (ResetNeedIsNull qe))) r t
    (Node_SetValue (E_Query (ResetNeedIsNull qe)) (root (Leaf op (E_Query qe)))) Hr eq_refl (fun _ => eq_refl)) as H1.
  cbn [ResetNeedIsNull fieldName_ condition_].
  change (QueryEntry_make (fieldName_ qe) CondEmpty []) with (Ok (mk_qe (fieldName_ qe) [] CondEmpty false false)).
  cbn [mbind result_bind].
  set (o := if decide (condition_ qe = CondAllSet) then OpAnd else OpOr).
  destruct (Hemp _ o H1) as (t2 & E2 & H2). fold (is_null_entry (fieldName_ qe)). rewrite E2. unfold inserted.
  pose proof H2 as H2'. change (Leaf op (E_Query (ResetNeedIsNull qe)) :: ?x :: r) with
    ([Leaf op (E_Query (ResetNeedIsNull qe))] ++ x :: r) in H2'. rewrite app_assoc in H2'.
  replace (place c l + 1) with (place c (l ++ [Leaf op (E_Query (ResetNeedIsNull qe))])) by apply place_snoc.
  rewrite (Process_done 0 _ _ _ (Get_place _ _ _ _ _ _ H2') eq_refl). cbn [mbind result_bind mret result_ret fst snd].
  rewrite (GetOperation_place _ _ _ _ _ H2). cbn [mbind result_bind tree_op].
  destruct (SetOperation_place _ _ _ _ OpAnd _ H2) as (t3 & -> & H3). cbn [mbind result_bind tree_set_op] in *.
  destruct (EncloseInBracket_place c l [Leaf OpAnd (E_Query (ResetNeedIsNull qe)); Leaf o (is_null_entry (fieldName_ qe))] r op [] t3)
    as (t4 & E4 & H4); [done | exact H3 |].
  exists t4. split; [| exact H4].
  change (length (@flats OpType EqualPositions Entry _)) with 2 in E4.
  replace (place c (l ++ [Leaf op (E_Query (ResetNeedIsNull qe))]) + (1 + 0)) with (place c l + 2)
    by (rewrite place_snoc; cbn; lia).
  exact (f_equal (fun x => x ≫= (fun t0 => mret (1 + 0 + 1, t0))) E4).
Qed.


(** The bracket holds when the values that are not null or the null do, or when both do. *)
Lemma split_entry_holds sem op qe :
  holds_tree sem (split_entry op qe) =
  if decide (condition_ qe = CondAllSet)
  then sem (E_Query (ResetNeedIsNull qe)) && sem (is_null_entry (fieldName_ qe))
  else sem (E_Query (ResetNeedIsNull qe)) || sem (is_null_entry (fieldName_ qe)).
Proof.
  unfold split_entry. rewrite holds_sub. unfold holds. destruct (decide _); cbn; [done |].
  done.
Qed.

Lemma Emplace_behind c l op e r o e' t :
  insertable c l r ->
  repr (plug c (l ++ Leaf op e :: r)) t ->
  exists t', Emplace (@Process X 1) (place c l + 1) o e' t = inserted (@Process X 1) t' (place c l + 1) /\
    repr (plug c (l ++ Leaf op e :: Leaf o e' :: r)) t'.
Proof.
  intros Hplace Hr. change (Leaf op e :: r) with ([Leaf op e] ++ r) in Hr. rewrite app_assoc in Hr.
  replace (place c l + 1) with (place c (l ++ [Leaf op e])) by apply place_snoc.
  destruct Hplace as [Hne | (-> & Hs & Hl)].
  - destruct (Insert_place (@Process X 1) o e' c _ r t Hne Hr) as (t' & _ & E & H). exists t'.
    split; [exact E |]. rewrite <- app_assoc in H. exact H.
  - rewrite app_nil_r in Hr. assert (closed (l ++ [Leaf op e])) as Hc by by apply closed_app.
    unfold Emplace. rewrite (spine_size _ _ _ Hs Hr), Nat.eqb_refl.
    destruct (Append_spine (@Process X 1) o e' c _ t Hs Hc Hr) as (t' & E & H). exists t'.
    split; [exact E |]. rewrite <- app_assoc in H. exact H.
Qed.

(** Fails with nothing but a check. *)
Definition only_checks {A} (r : result A) : Prop := forall f, r = Fail f -> f = AssertFail.

Lemma only_checks_bind {A A'} (r : result A) (k : A -> result A') :
  only_checks r -> (forall a, r = Ok a -> k a = Fail AssertFail) -> (a ← r; k a) = Fail AssertFail.
Proof. intros Hr Hk. destruct r as [a | f]; [by apply Hk |]. cbn. by rewrite (Hr f eq_refl). Qed.

Lemma node_at_checks i (t : Tree) : only_checks (node_at i t).
Proof. unfold node_at. intros f. destruct (container_ t !! i); [done |]. by intros [= <-]. Qed.

Lemma shift_active_checks cond (t : Tree) : only_checks (shift_active cond t).
Proof. unfold shift_active. intros f. destruct (forallb _ _); [done |]. by intros [= <-]. Qed.

Lemma for_nodes_checks (g : nat -> Node OpType EqualPositions Entry -> result (Node OpType EqualPositions Entry)) i n c :
  (forall i nd, only_checks (g i nd)) -> only_checks (for_nodes g i n c).
Proof.
  intros Hg. revert i c. induction n as [| n IH]; intros i c f; [done |]. cbn [for_nodes]. destruct c as [| nd c]; [by intros [= <-] |].
  destruct (g i nd) as [nd' | f'] eqn:E; cbn [mbind result_bind]; [| intros [= <-]; by apply Hg in E].
  destruct (for_nodes g (S i) n c) as [c' | f'] eqn:E'; [done |]. cbn. intros [= <-]. by eapply IH.
Qed.

Lemma for_nodes_lookup (g : nat -> Node OpType EqualPositions Entry -> result (Node OpType EqualPositions Entry)) i n c c' k nd :
  for_nodes g i n c = Ok c' -> c !! k = Some nd -> k < n -> exists nd', g (i + k) nd = Ok nd' /\ c' !! k = Some nd'.
Proof.
  revert i c c' k. induction n as [| n IH]; intros i c c' k; [lia |]. cbn [for_nodes]. destruct c as [| nd0 c]; [done |].
  destruct (g i nd0) as [nd0' |] eqn:E; [| done]. cbn [mbind result_bind].
  destruct (for_nodes g (S i) n c) as [c1 |] eqn:E'; [| done]. intros [= <-] Hk Hlt. destruct k as [| k].
  - injection Hk as ->. exists nd0'. by rewrite Nat.add_0_r.
  - rewrite <- Nat.add_succ_comm. apply (IH (S i) c c1 k); done || lia.
Qed.

Lemma for_nodes_length (g : nat -> Node OpType EqualPositions Entry -> result (Node OpType EqualPositions Entry)) i n c c' :
  for_nodes g i n c = Ok c' -> length c' = length c.
Proof.
  revert i c c'. induction n as [| n IH]; intros i c c'; [by intros [= <-] |]. cbn [for_nodes]. destruct c as [| nd0 c]; [done |].
  destruct (g i nd0) as [nd0' |]; [| done]. cbn [mbind result_bind].
  destruct (for_nodes g (S i) n c) as [c1 |] eqn:E; [| done]. intros [= <-]. cbn. f_equal. by apply (IH (S i)).
Qed.

Lemma for_active_length (g : Node OpType EqualPositions Entry -> result (Node OpType EqualPositions Entry)) act c c' :
  for_active g act c = Ok c' -> length c' = length c.
Proof.
  revert c. induction act as [| i act IH]; intros c; cbn [for_active]; [by intros [= <-] |].
  destruct (c !! i) as [nd |]; [| done]. cbn [of_option mbind result_bind]. destruct (g nd) as [nd' |]; [| done].
  cbn [mbind result_bind]. intros E%IH. by rewrite length_insert in E.
Qed.

Lemma append_if_beyond_checks pos i (nd : Node OpType EqualPositions Entry) : only_checks (append_if_beyond pos i nd).
Proof. unfold append_if_beyond, Node_Append. intros f. repeat case_match; try done; by intros [= <-]. Qed.

Lemma enclose_step_checks from to i (nd : Node OpType EqualPositions Entry) : only_checks (enclose_step from to i nd).
Proof. unfold enclose_step, Node_Append. cbv zeta. intros f. repeat case_match; try done; by intros [= <-]. Qed.

(** The loop over the open brackets changes no other node. *)
Lemma for_active_other (g : Node OpType EqualPositions Entry -> result (Node OpType EqualPositions Entry)) act c :
  (forall nd, only_checks (g nd)) -> only_checks (for_active g act c) /\
  forall c' k, for_active g act c = Ok c' -> k ∉ act -> c' !! k = c !! k.
Proof.
  intros Hg. revert c. induction act as [| i act IH]; intros c; cbn [for_active]; [split; [done |]; by intros c' k [= <-] |].
  destruct (c !! i) as [nd |]; cbn [of_option mbind result_bind]; [| split; [intros f; by intros [= <-] | done]].
  destruct (g nd) as [nd' | f'] eqn:E; cbn [mbind result_bind]; [| split; [intros f [= <-]; by apply Hg in E | done]].
  split; [apply IH |]. intros c' k Hc [Hne Hk]%not_elem_of_cons. rewrite (proj2 (IH _) c' k Hc Hk). by rewrite list_lookup_insert_ne.
Qed.

Lemma Node_Append_checks (nd : Node OpType EqualPositions Entry) : only_checks (Node_Append nd).
Proof. unfold Node_Append. intros f. destruct (storage_ nd); [done |]. by intros [= <-]. Qed.

(** Inserting an entry that is not split, behind the position [pos]: the nodes up to [pos] that are neither heads of
    open brackets nor of brackets that end behind [pos + 1] stay. *)
Lemma Emplace_before o e t pos h nd :
  container_ t !! h = Some nd -> h <= pos -> h + Node_Size nd <= pos + 1 -> h ∉ activeBrackets_ t ->
  let r := Emplace (@Process X 1) (pos + 1) o (is_null_entry e) t in
  only_checks r /\ forall p, r = Ok p -> fst p = 1 /\ container_ (snd p) !! h = Some nd /\ pos + 1 < Size (snd p).
Proof.
  intros Hh Hle Hend Hact. cbv zeta. unfold Emplace. destruct (Nat.eqb_spec (pos + 1) (Size t)) as [Es | Es].
  - unfold Append. destruct (for_active_other Node_Append (activeBrackets_ t) (container_ t) Node_Append_checks) as [Hf Hk].
    destruct (for_active _ _ _) as [c |] eqn:E; cbn [mbind result_bind]; [| split; [intros f' [= <-]; by apply Hf | done]].
    pose proof (Hk c h eq_refl Hact) as Hc. rewrite Hh in Hc. clear Hf.
    assert (length c = pos + 1) as Hl by (rewrite (for_active_length _ _ _ _ E), Es; done).
    unfold inserted, Size. cbn [container_]. rewrite length_app, Hl. cbn [length]. rewrite Nat.add_sub.
    rewrite (Process_done 0 _ _ (mk_qe e [] CondEmpty false false)); [| | done].
    + split; [done |]. intros p [= <-]. cbn. split; [done |]. split; [| rewrite length_app, Hl; cbn; lia].
      rewrite lookup_app_l; [done |]. apply lookup_lt_Some in Hc. lia.
    + unfold Get, node_at. cbn. rewrite lookup_app_r by lia. by rewrite Hl, Nat.sub_diag.
  - destruct (Nat.ltb_spec (pos + 1) (Size t)) as [Hs | Hs]; cbn [negb]; [| split; [intros f; by intros [= <-] | done]].
    pose proof (shift_active_checks (fun b => pos + 1 <=? b) t) as Hsh.
    destruct (shift_active _ t) as [act |]; cbn [mbind result_bind]; [| split; [intros ? [= <-]; by apply Hsh | done]].
    pose proof (for_nodes_checks (append_if_beyond (pos + 1)) 0 (pos + 1) (container_ t) (append_if_beyond_checks (pos + 1))) as Hfn.
    destruct (for_nodes _ _ _ _) as [c |] eqn:E; cbn [mbind result_bind]; [| split; [intros ? [= <-]; by apply Hfn | done]].
    destruct (for_nodes_lookup _ _ _ _ _ h nd E Hh ltac:(lia)) as (nd' & En & Hc).
    unfold append_if_beyond in En. rewrite (proj2 (Nat.ltb_ge _ _)), andb_false_r in En by (cbn; lia). injection En as <-.
    pose proof (for_nodes_length _ _ _ _ _ E) as Hl.
    unfold inserted, emplace. assert (length (take (pos + 1) c) = pos + 1) as Ht by (rewrite length_take; unfold Size in *; lia).
    rewrite (Process_done 0 _ _ (mk_qe e [] CondEmpty false false)); [| | done].
    + split; [done |]. intros p [= <-]. cbn. split; [done |]. split.
      * rewrite lookup_app_l by lia. rewrite lookup_take_lt by lia. done.
      * unfold Size in *. cbn. rewrite length_app, Ht, length_cons, length_drop. lia.
    + unfold Get, node_at. cbn. rewrite lookup_app_r by lia. by rewrite Ht, Nat.sub_diag.
Qed.

Lemma offset_snoc (c : list (Frame OpType EqualPositions Entry)) fr : offset (c ++ [fr]) = offset c + S (length (flats (f_before fr))).
Proof. induction c as [| fr' c IH]; cbn [offset app]; [lia |]. rewrite IH. lia. Qed.

(** A range that ends behind the bracket in which it starts cannot be enclosed. *)
Lemma Enclose_straddles from to h op p s o q (t : Tree) :
  container_ t !! h = Some (head op p s) -> h < from -> from < h + S s < to -> EncloseInBracket from to o q t = Fail AssertFail.
Proof.
  intros Hh Hlt [H1 H2]. unfold EncloseInBracket. destruct (negb _); [done |].
  apply only_checks_bind; [apply shift_active_checks |]. intros act _. apply only_checks_bind.
  { apply for_nodes_checks. intros i nd. apply enclose_step_checks. }
  intros c E. exfalso. destruct (for_nodes_lookup _ _ _ _ _ h _ E Hh Hlt) as (nd' & Ebad & _). revert Ebad.
  unfold enclose_step. cbn [Node_IsSubTree Node_Size head storage_ plus].
  by rewrite (proj2 (Nat.leb_gt _ _)), (proj2 (Nat.leb_gt _ _)) by lia.
Qed.

(** The enclosing of an entry and the one behind it fails in a bracket that ends between them. *)
Lemma Process_misplaced t pos h op p s qe :
  container_ t !! h = Some (head op p s) -> h < pos -> h + S s = pos + 1 -> h ∉ activeBrackets_ t ->
  @Get OpType EqualPositions Entry pos t = Ok (E_Query qe) -> needIsNull_ qe = true -> @Process X 2 t pos = Fail AssertFail.
Proof.
  intros Hh Hlt Hend Hact Hg Hn. rewrite Process_S, Hg. cbn [mbind result_bind]. rewrite Hn. cbn [negb].
  unfold set_value_at. unfold Get in Hg. destruct (node_at pos t) as [nd |] eqn:En; [| done]. cbn [mbind result_bind mret result_ret].
  set (t1 := mk_tree _ _). assert (container_ t1 !! h = Some (head op p s)) as Hh1 by (cbn; rewrite list_lookup_insert_ne; [done | lia]).
  cbn [ResetNeedIsNull fieldName_ condition_].
  change (QueryEntry_make (fieldName_ qe) CondEmpty []) with (Ok (mk_qe (fieldName_ qe) [] CondEmpty false false)). cbn [mbind result_bind].
  fold (is_null_entry (fieldName_ qe)).
  destruct (Emplace_before (if decide (condition_ qe = CondAllSet) then OpAnd else OpOr) (fieldName_ qe) t1 pos h _ Hh1) as [H1 H2];
    [lia | cbn; lia | done |].
  apply only_checks_bind; [exact H1 |]. intros [k t2] E. destruct (H2 _ E) as (Hk & Hh2 & Hsz). cbn [fst snd] in *. subst k.
  apply only_checks_bind; [| intros op' _; apply only_checks_bind].
  - unfold GetOperation. intros f. destruct (node_at pos t2) eqn:E2; [done |]. cbn. intros [= <-]. by apply node_at_checks in E2.
  - unfold SetOperation. intros f. destruct (node_at pos t2) eqn:E2; [done |]. cbn. intros [= <-]. by apply node_at_checks in E2.
  - intros t3 E3. unfold SetOperation in E3. destruct (node_at pos t2) as [nd2 |]; [| done]. injection E3 as <-.
    rewrite (Enclose_straddles _ _ h op p s); [done | | lia | lia].
    cbn [container_]. rewrite list_lookup_insert_ne; [done | lia].
Qed.

End Split.

(** C31: a condition with nulls is split in two. Appending a condition that is marked to be split
    to the open bracket of any tree, inserting it before any node or at the end, and setting it as
    the value of any leaf but the last one of a closed bracket puts a bracket in its place: the
    condition on the values that are not null, and IS NULL, joined by OR, or by AND for ALLSET.
    The bracket has the operation of the condition. As the value of the last leaf of a closed
    bracket (what [SetEntry] does with the result of a subquery) the condition loses its IS NULL
    part to what is behind the bracket, and the checks of the tree always fail. *)
Theorem null_condition_split {X} (qe : QueryEntry) : needIsNull_ qe = true ->
  (forall c cur op t, spine c -> closed cur -> repr (plug c cur) t ->
     exists t', entries_Append (X := X) op (E_Query qe) t = Ok (3, t') /\ repr (plug c (cur ++ [split_entry op qe])) t') /\
  (forall c l r op t, insertable c l r -> repr (plug c (l ++ r)) t ->
     exists t', entries_Insert (X := X) (place c l) op (E_Query qe) t = Ok (3, t') /\
       repr (plug c (l ++ split_entry op qe :: r)) t') /\
  (forall c l r op e t, insertable c l r -> repr (plug c (l ++ Leaf op e :: r)) t ->
     exists t', entries_SetValue (X := X) (place c l) (E_Query qe) t = Ok (3, t') /\
       repr (plug c (l ++ split_entry op qe :: r)) t') /\
  (forall c before op0 p after l op e t, repr (plug c (before ++ Sub op0 p false (l ++ [Leaf op e]) :: after)) t ->
     entries_SetValue (X := X) (place c before + 1 + length (flats l)) (E_Query qe) t = Fail AssertFail) /\
  (forall (sem : Entry X -> bool) op, holds_tree sem (split_entry op qe) =
     let values := sem (E_Query (ResetNeedIsNull qe)) in
     let null := sem (is_null_entry (fieldName_ qe)) in
     if decide (condition_ qe = CondAllSet) then values && null else values || null).
Proof.
  intros Hn. assert (forall c l r op t, insertable c l r -> repr (plug c (l ++ Leaf op (E_Query qe) :: r)) t ->
    exists t', @Process X 2 t (place c l) = Ok (2, t') /\ repr (plug c (l ++ split_entry op qe :: r)) t') as Hp.
  { intros c l r op t Hi H. apply (Process_place c l op qe r t H Hn). intros t0 o H0. by apply Emplace_behind. }
  split_and!; [| | | | intros sem op; apply split_entry_holds].
  - intros c cur op t Hs Hc H. destruct (Append_spine (post_of (E_Query qe)) op (E_Query qe) c cur t Hs Hc H) as (t1 & E & H1).
    destruct (Hp c cur [] op t1) as (t' & E' & H'); [by right | done |].
    exists t'. split; [| exact H']. unfold entries_Append. rewrite E. unfold inserted, post_of. by rewrite E'.
  - intros c l r op t Hi H. assert (exists t1, Insert (post_of (E_Query qe)) (place c l) op (E_Query qe) t =
      inserted (post_of (E_Query qe)) t1 (place c l) /\ repr (plug c (l ++ Leaf op (E_Query qe) :: r)) t1) as (t1 & E & H1).
    { destruct Hi as [Hr | (-> & Hs & Hl)].
      - destruct (Insert_place (post_of (E_Query qe)) op (E_Query qe) c l r t Hr H) as (t1 & E & _ & H1). by exists t1.
      - rewrite app_nil_r in H. destruct (Append_spine (post_of (E_Query qe)) op (E_Query qe) c l t Hs Hl H) as (t1 & E & H1).
        exists t1. unfold Insert. by rewrite (spine_size _ _ _ Hs H), Nat.eqb_refl. }
    destruct (Hp c l r op t1 Hi H1) as (t' & E' & H').
    exists t'. split; [| exact H']. unfold entries_Insert. rewrite E. unfold inserted, post_of. by rewrite E'.
  - intros c l r op e t Hi H. destruct (SetValue_place (post_of (E_Query qe)) c l (Leaf op e) r (E_Query qe) t) as (t1 & E & H1); [done.. |].
    destruct (Hp c l r op t1 Hi H1) as (t' & E' & H').
    exists t'. split; [| exact H']. unfold entries_SetValue. rewrite E. unfold inserted, post_of. by rewrite E'.
  - intros c before op0 p after l op e t H. pose (c2 := c ++ [mk_frame before op0 p false after]).
    assert (place c before + 1 + length (flats l) = place c2 l) as ->.
    { unfold place, c2. rewrite offset_snoc. cbn [f_before]. lia. }
    assert (repr (plug c2 (l ++ [Leaf op e])) t) as H2 by (unfold c2; rewrite plug_app; exact H).
    destruct (SetValue_place (post_of (E_Query qe)) c2 l (Leaf op e) [] (E_Query qe) t) as (t1 & E & H1); [done.. |].
    unfold entries_SetValue. rewrite E. unfold inserted, post_of.
    pose proof H1 as H3. unfold c2 in H3. rewrite plug_app in H3.
    change (repr (plug c (before ++ Sub op0 p false (l ++ [Leaf op (E_Query qe)]) :: after)) t1) in H3.
    set (ch := l ++ [Leaf op (E_Query qe)]) in *. assert (length (flats ch) = S (length (flats l))) as Hch.
    { unfold ch. rewrite flats_app, length_app. cbn. lia. }
    rewrite (Process_misplaced t1 (place c2 l) (place c before) op0 p (length (flats ch)) qe);
      [done | | | | | exact (Get_place _ _ _ _ _ _ H1) | done].
    + pose proof (node_at_place _ _ _ _ _ H3) as Hat. unfold node_at in Hat.
      destruct (container_ t1 !! place c before); [| done]. by injection Hat as ->.
    + unfold place, c2. rewrite offset_snoc. cbn [f_before]. lia.
    + rewrite Hch. unfold place, c2. rewrite offset_snoc. cbn [f_before]. lia.
    + destruct H3 as [_ ->]. change (Sub op0 p false ch :: after) with ([Sub op0 p false ch] ++ after). rewrite place_open. intros Hin.
      rewrite !elem_of_app in Hin. cbn [openeds] in Hin. rewrite opened_sub, app_nil_r in Hin. cbn [app] in Hin.
      destruct Hin as [Hin | [Hin | Hin]]; [apply open_before_bound in Hin | apply openeds_bound in Hin | apply open_after_bound in Hin; rewrite flats_sub in Hin; cbn [length] in Hin]; lia.
Qed.

Definition sample_null : QueryEntry := mk_qe [120%Z] [V_Int 7] CondSet true false.

Lemma null_condition_split_witness :
  let a : tree OpType EqualPositions (Entry unit) := Leaf OpAnd (E_Query (sample_entry [1%Z])) in
  let t := mk_tree (flats [Sub OpAnd [] false [a; a]; a]) [] in
  (exists t', entries_SetValue 1 (E_Query sample_null) t = Ok (3, t') /\
     container_ t' = flats [Sub OpAnd [] false [split_entry OpAnd sample_null; a]; a]) /\
  entries_SetValue 2 (E_Query sample_null) t = Fail AssertFail.
Proof.
  intros a t. destruct (null_condition_split (X := unit) sample_null eq_refl) as (_ & _ & H & Hbad & _). split.
  - destruct (H [mk_frame [] OpAnd [] false [a]] [] [a] OpAnd (E_Query (sample_entry [1%Z])) t) as (t' & E & H' & _);
      [by left | by split |]. by exists t'.
  - apply (Hbad [] [] OpAnd [] [a] [a] OpAnd (E_Query (sample_entry [1%Z])) t). by split.
Defined.

(** ALLSET with one value besides the null is split like SET: with OR in place of AND. *)
Example allset_split_with_or :
  exists qe, QueryEntry_make [120%Z] CondAllSet [V_Null; V_Int 7] = Ok qe /\
    forall sem : Entry unit -> bool, holds_tree sem (split_entry OpAnd qe) =
      sem (E_Query (ResetNeedIsNull qe)) || sem (is_null_entry [120%Z]).
Proof. eexists. split; [vm_compute; reflexivity |]. intros sem. rewrite split_entry_holds. done. Qed.

Example allset_split_with_and :
  exists qe, QueryEntry_make [120%Z] CondAllSet [V_Null; V_Int 7; V_Int 8] = Ok qe /\
    forall sem : Entry unit -> bool, holds_tree sem (split_entry OpAnd qe) =
      sem (E_Query (ResetNeedIsNull qe)) && sem (is_null_entry [120%Z]).
Proof. eexists. split; [vm_compute; reflexivity |]. intros sem. rewrite split_entry_holds. done. Qed.
