(* ===== verification/QueryReduce.v ===== *)
(** * QueryReduce: simplifying the conditions of a query

    Models [removeAlwaysFalse], [removeAlwaysTrue] and [removeBrackets] of
    [core/nsselecter/querypreprocessor.cc], which [QueryPreprocessor::Reduce] repeats, on the
    vector of the tree with its positions, and shows that they keep the meaning of the conditions.
    The loops have the position, the number of deleted nodes and the changed mark of the code; the
    fuel bounds their steps, nested calls included. *)

From S2P Require Import Prelude ExpressionTree ExpressionForest ExpressionBuild Variant QueryEntries.
#[local] Open Scope nat_scope.

Section Reduce.
Context {X : Type}.

Notation Entry := (Entry X).
Notation Tree := (ExpressionTree OpType EqualPositions Entry).
Notation qtree := (tree OpType EqualPositions Entry).
Notation forest := (list qtree).

(** ** The operations *)

Definition is_false (e : Entry) : bool := match e with E_AlwaysFalse => true | _ => false end.
Definition is_true (e : Entry) : bool := match e with E_AlwaysTrue => true | _ => false end.
Definition is_join (e : Entry) : bool := match e with E_Join _ => true | _ => false end.

(** The loop of [removeAlwaysFalse(begin, end)]. *)
Fixpoint removeAlwaysFalse_loop (fuel begin_ end_ i deleted : nat) (changed : bool) (t : Tree)
  : result (nat * bool * Tree) :=
  match fuel with
  | O => Fail OutOfFuel
  | S fuel =>
      if negb (i <? end_ - deleted) then Ok (deleted, changed, t)
      else
        sub ← IsSubTree i t;
        if (sub : bool) then
          next ← Next i t;
          r ← removeAlwaysFalse_loop fuel (i + 1) next (i + 1) 0 false t;
          let '(d, ch, t) := r in
          next ← Next i t;
          removeAlwaysFalse_loop fuel begin_ end_ next (deleted + d) (changed || ch) t
        else
          e ← Get i t;
          if is_false e then
            op ← GetOperation i t;
            match op with
            | OpOr =>
                t ← Erase i (i + 1) t;
                removeAlwaysFalse_loop fuel begin_ end_ i (deleted + 1) changed t
            | OpNot =>
                r ← SetValue no_post i E_AlwaysTrue t;
                t ← SetOperation OpAnd i (snd r);
                removeAlwaysFalse_loop fuel begin_ end_ (i + 1) deleted true t
            | OpAnd =>
                next_or ← (if i + 1 <? end_ - deleted then is_or <$> GetOperation (i + 1) t else Ok false);
                if (next_or : bool) then
                  t ← Erase i (i + 1) t;
                  t ← SetOperation OpAnd i t;
                  removeAlwaysFalse_loop fuel begin_ end_ i (deleted + 1) changed t
                else
                  t ← Erase (i + 1) (end_ - deleted) t;
                  t ← Erase begin_ i t;
                  mret (end_ - begin_ - 1, false, t)
            end
          else
            next ← Next i t;
            removeAlwaysFalse_loop fuel begin_ end_ next deleted changed t
  end.

Definition removeAlwaysFalse (t : Tree) : result (bool * Tree) :=
  r ← removeAlwaysFalse_loop (S (Size t)) 0 (Size t) 0 0 false t;
  let '(deleted, changed, t) := r in
  mret (changed || negb (deleted =? 0), t).

(** [containsJoin]. *)
Definition containsJoin (n : nat) (t : Tree) : result bool :=
  nd ← node_at n t;
  match storage_ nd with
  | Value v => Ok (is_join v)
  | SubTree s _ =>
      Ok (existsb (fun nd => match storage_ nd with Value v => is_join v | SubTree _ _ => false end)
            (take s (drop n (container_ t))))
  end.

(** The loop of the AND case of [removeAlwaysTrue]: erases the conditions without joins that OR
    joins to the one at [i]. Returns the position after them and the number of deleted nodes. *)
Fixpoint erase_ors (fuel n end_ deleted : nat) (t : Tree) : result (nat * nat * Tree) :=
  match fuel with
  | O => Fail OutOfFuel
  | S fuel =>
      if negb (n <? end_ - deleted) then Ok (n, deleted, t)
      else
        op ← GetOperation n t;
        if negb (is_or op) then Ok (n, deleted, t)
        else
          join ← containsJoin n t;
          next ← Next n t;
          if (join : bool) then erase_ors fuel next end_ deleted t
          else
            s ← Size_of n t;
            t ← Erase n next t;
            erase_ors fuel n end_ (deleted + s) t
  end.

(** [prevN = begin; while (Next(prevN) < n) prevN = Next(prevN);] *)
Fixpoint prev_sibling (fuel n p : nat) (t : Tree) : result nat :=
  match fuel with
  | O => Fail OutOfFuel
  | S fuel =>
      next ← Next p t;
      if next <? n then prev_sibling fuel n next t else Ok p
  end.

(** The loop of the OR case of [removeAlwaysTrue]: erases the conditions without joins before the
    one at [i] that are in its group. Returns [i], [prev] and the number of deleted nodes. *)
Fixpoint erase_group (fuel begin_ n prevN i prev deleted : nat) (t : Tree)
  : result (nat * nat * nat * Tree) :=
  match fuel with
  | O => Fail OutOfFuel
  | S fuel =>
      if negb (prevN <? n) then Fail AssertFail
      else
        join ← containsJoin prevN t;
        r ← (if negb (join : bool) then
               op ← GetOperation prevN t;
               t ← (if negb (is_or op) then SetOperation OpAnd n t else Ok t);
               s ← Size_of prevN t;
               t ← Erase prevN n t;
               mret (n =? i, deleted + s, t)
             else Ok (false, deleted, t));
        let '(needMoveI, deleted, t) := r in
        let n := prevN in
        prevN ← prev_sibling (S (Size t)) n begin_ t;
        let i := if (needMoveI : bool) then n else i in
        let prev := if needMoveI then prevN else prev in
        op ← GetOperation n t;
        if is_or op then erase_group fuel begin_ n prevN i prev deleted t
        else mret (i, prev, deleted, t)
  end.

(** The loop of [removeAlwaysTrue(begin, end)]. *)
Fixpoint removeAlwaysTrue_loop (fuel begin_ end_ i prev deleted : nat) (changed : bool) (t : Tree)
  : result (nat * bool * Tree) :=
  match fuel with
  | O => Fail OutOfFuel
  | S fuel =>
      if negb (i <? end_ - deleted) then Ok (deleted, changed, t)
      else
        sub ← IsSubTree i t;
        if (sub : bool) then
          next ← Next i t;
          r ← removeAlwaysTrue_loop fuel (i + 1) next (i + 1) (i + 1) 0 false t;
          let '(d, ch, t) := r in
          let deleted := deleted + d in
          s ← Size_of i t;
          if s =? 1 then
            r ← SetValue no_post i E_AlwaysTrue t;
            removeAlwaysTrue_loop fuel begin_ end_ (i + fst r) i deleted true (snd r)
          else
            next ← Next i t;
            removeAlwaysTrue_loop fuel begin_ end_ next i deleted (changed || ch) t
        else
          e ← Get i t;
          if is_true e then
            op ← GetOperation i t;
            match op with
            | OpAnd =>
                next_or ← (if i + 1 <? end_ - deleted then is_or <$> GetOperation (i + 1) t else Ok false);
                if negb (next_or : bool) then
                  t ← Erase i (i + 1) t;
                  removeAlwaysTrue_loop fuel begin_ end_ i prev (deleted + 1) changed t
                else
                  r ← erase_ors (S (Size t)) (i + 1) end_ deleted t;
                  let '(n, deleted', t) := r in
                  removeAlwaysTrue_loop fuel begin_ end_ (if deleted =? deleted' then n else i) prev
                    deleted' changed t
            | OpNot =>
                r ← SetValue no_post i E_AlwaysFalse t;
                t ← SetOperation OpAnd i (snd r);
                removeAlwaysTrue_loop fuel begin_ end_ (i + fst r) i deleted true t
            | OpOr =>
                r ← erase_group (S (Size t)) begin_ i prev i prev deleted t;
                let '(i, prev, deleted, t) := r in
                removeAlwaysTrue_loop fuel begin_ end_ i prev deleted changed t
            end
          else
            next ← Next i t;
            removeAlwaysTrue_loop fuel begin_ end_ next i deleted changed t
  end.

Definition removeAlwaysTrue (fuel : nat) (t : Tree) : result (bool * Tree) :=
  r ← removeAlwaysTrue_loop fuel 0 (Size t) 0 0 0 false t;
  let '(deleted, changed, t) := r in
  mret (changed || negb (deleted =? 0), t).

(** [canRemoveBracket]. *)
Definition canRemoveBracket (i : nat) (t : Tree) : result bool :=
  s ← Size_of i t;
  if s <? 2 then Fail (Throw errQueryExec)
  else
    next ← Next i t;
    op ← GetOperation i t;
    first ← GetOperation (i + 1) t;
    if negb (bool_decide (op = OpAnd)) && negb (bool_decide (first = OpAnd)) then Ok false
    else
      next1 ← Next (i + 1) t;
      if next =? next1 then Ok true
      else if negb (bool_decide (op = OpAnd)) then Ok false
      else if next =? Size t then Ok true
      else after ← GetOperation next t; mret (negb (is_or after)).

(** The check at the start of [removeBrackets(begin, end)]. *)
Definition check_first (begin_ end_ : nat) (t : Tree) : result unit :=
  if begin_ =? end_ then Ok tt
  else
    op ← GetOperation begin_ t;
    if is_or op then Fail (Throw errQueryExec) else Ok tt.

(** The equal positions of the bracket at [i]. *)
Definition equalPositions_at (i : nat) (t : Tree) : result EqualPositions :=
  nd ← node_at i t;
  match storage_ nd with SubTree _ p => Ok p | Value _ => Fail AssertFail end.

(** The loop of [removeBrackets(begin, end)]. *)
Fixpoint removeBrackets_loop (fuel end_ i deleted : nat) (t : Tree) : result (nat * Tree) :=
  match fuel with
  | O => Fail OutOfFuel
  | S fuel =>
      if negb (i <? end_ - deleted) then Ok (deleted, t)
      else
        sub ← IsSubTree i t;
        skip ← (if (sub : bool) then (fun p => negb (bool_decide (p = []))) <$> equalPositions_at i t
                else Ok true);
        if (skip : bool) then
          next ← Next i t;
          removeBrackets_loop fuel end_ next deleted t
        else
          next ← Next i t;
          _ ← check_first (i + 1) next t;
          r ← removeBrackets_loop fuel next (i + 1) 0 t;
          let '(d, t) := r in
          let deleted := deleted + d in
          can ← canRemoveBracket i t;
          if (can : bool) then
            op ← GetOperation i t;
            t ← (if bool_decide (op = OpAnd) then Ok t else SetOperation op (i + 1) t);
            t ← Erase i (i + 1) t;
            next ← Next i t;
            removeBrackets_loop fuel end_ next (deleted + 1) t
          else
            next ← Next i t;
            removeBrackets_loop fuel end_ next deleted t
  end.

(** [equalPositions] are those of the whole tree. *)
Definition removeBrackets (equalPositions : EqualPositions) (t : Tree) : result (bool * Tree) :=
  if negb (bool_decide (equalPositions = [])) then Ok (false, t)
  else
    _ ← check_first 0 (Size t) t;
    r ← removeBrackets_loop (S (Size t)) (Size t) 0 0 t;
    mret (negb (fst r =? 0), snd r).


(** ** Lemmas *)

Lemma place_app c (l r : forest) : place c (l ++ r) = place c l + length (flats r).
Proof. unfold place. rewrite flats_app, length_app. lia. Qed.

Lemma place_cons c (l : forest) x r :
  place c (l ++ x :: r) = place c l + length (flat x) + length (flats r).
Proof. rewrite place_app, flats_cons, length_app. lia. Qed.

Lemma place_le c (l : forest) : place c [] <= place c l.
Proof. unfold place. rewrite flats_nil. cbn [length]. lia. Qed.

Lemma snoc_cons {A} (l : list A) x r : l ++ x :: r = (l ++ [x]) ++ r.
Proof. by rewrite <- app_assoc. Qed.

Definition const_ok (P : Entry -> bool) : Prop := P E_AlwaysTrue = true /\ P E_AlwaysFalse = true.

Definition meaning (sem : Entry -> bool) : Prop :=
  sem E_AlwaysTrue = true /\ sem E_AlwaysFalse = false.

(** What a simplification of a level does: the entries still pass the check, the level is not
    emptied (where [keep] tells), and its meaning is kept. *)
Definition simplifies (keep : bool) (P : Entry -> bool) (ts us : forest) : Prop :=
  level_ok P us = true /\ (keep = true -> ts <> [] -> us <> []) /\
  forall sem, meaning sem -> holds sem us = holds sem ts.

Lemma simplifies_trans k P ts us vs :
  simplifies k P ts us -> simplifies k P us vs -> simplifies k P ts vs.
Proof.
  intros (H1 & H2 & H3) (H4 & H5 & H6). split_and!; [done | auto |].
  intros sem Hs. by rewrite H6, H3.
Qed.

Lemma simplifies_refl k P ts : level_ok P ts = true -> simplifies k P ts ts.
Proof. by intros H. Qed.

(** Simplifying inside a bracket. *)
Lemma simplifies_sub k P l op p o ch ch' r :
  level_ok P (l ++ Sub op p o ch :: r) = true -> simplifies k P ch ch' -> k = true \/ ch' <> [] ->
  simplifies k P (l ++ Sub op p o ch :: r) (l ++ Sub op p o ch' :: r).
Proof.
  intros Hok (H1 & H2 & H3) Hk. apply level_ok_app in Hok as (Hl & Hr & Hh).
  cbn [forallb] in Hr. apply andb_true_iff in Hr as [Hs Hr]. apply tree_ok_sub in Hs as (Ho & Hne & Hs).
  split_and!.
  - apply level_ok_app. split_and!; [done | | by destruct l].
    cbn [forallb]. rewrite Hr, andb_true_r. apply tree_ok_sub. split_and!; [done | | done].
    destruct Hk; auto.
  - by destruct l.
  - intros sem Hsem. apply holds_replace; [done |]. rewrite !holds_sub. by apply H3.
Qed.

(** Replacing what stands from a place on. *)
Lemma simplifies_tail k P l r r' :
  level_ok P (l ++ r) = true -> forallb (tree_ok P) r' = true ->
  (l = [] -> is_or (head_op r') = false) -> (k = true -> r <> [] -> l ++ r' <> []) ->
  (forall sem cur, meaning sem -> holds_from sem cur r' = holds_from sem cur r) ->
  simplifies k P (l ++ r) (l ++ r').
Proof.
  intros Hok Hr' Hh Hne Hsem. apply level_ok_app in Hok as (Hl & Hr & Ho). split_and!.
  - apply level_ok_app. split_and!; [done | done |]. destruct l; [by apply Hh | done].
  - intros Hk Hlr. destruct l; [by apply Hne | done].
  - intros sem Hs. apply holds_app_ext. intros cur. by apply Hsem.
Qed.

Lemma leaf_size op (v : Entry) : length (flat (@Leaf OpType EqualPositions Entry op v)) = 1.
Proof. reflexivity. Qed.

Lemma Size_of_place c (l : forest) x r t :
  repr (plug c (l ++ x :: r)) t -> Size_of (place c l) t = Ok (length (flat x)).
Proof. intros H. unfold Size_of. rewrite (node_at_place _ _ _ _ _ H). cbn. by rewrite root_size. Qed.

(** Erasing one leaf or a whole tree. *)
Lemma Erase_one c (l : forest) x r t :
  repr (plug c (l ++ x :: r)) t ->
  exists t', Erase (place c l) (place c l + length (flat x)) t = Ok t' /\ repr (plug c (l ++ r)) t'.
Proof.
  intros H. destruct (Erase_place c l [x] r t) as (t' & E & H'); [done | exact H |].
  exists t'. split; [| exact H']. rewrite flats_cons, flats_nil, app_nil_r in E. exact E.
Qed.

(** The operation behind a place, and whether it is OR. *)
Lemma next_or_place c (l : forest) op v r t e :
  repr (plug c (l ++ Leaf op v :: r)) t -> e = place c (l ++ Leaf op v :: r) ->
  (if place c l + 1 <? e then is_or <$> GetOperation (place c l + 1) t else Ok false) =
  Ok (is_or (head_op r)).
Proof.
  intros H ->. rewrite place_cons, leaf_size. destruct r as [| y r].
  - rewrite flats_nil. cbn [length]. by rewrite (proj2 (Nat.ltb_ge _ _)) by lia.
  - pose proof (flats_pos (y :: r) ltac:(done)). rewrite (proj2 (Nat.ltb_lt _ _)) by lia.
    rewrite snoc_cons in H.
    replace (place c l + 1) with (place c (l ++ [Leaf op v])) by apply place_snoc.
    by rewrite (GetOperation_place _ _ _ _ _ H).
Qed.

(** Erasing the level but for one node. *)
Lemma Erase_all_but c (l : forest) x r t :
  length (flat x) = 1 -> repr (plug c (l ++ x :: r)) t ->
  exists t1 t2, Erase (place c l + 1) (place c (l ++ x :: r)) t = Ok t1 /\
    Erase (place c []) (place c l) t1 = Ok t2 /\ repr (plug c [x]) t2.
Proof.
  intros Hx Hr. rewrite snoc_cons in Hr.
  assert (exists t1, Erase (place c l + 1) (place c (l ++ x :: r)) t = Ok t1 /\
            repr (plug c (l ++ [x])) t1) as (t1 & E1 & R1).
  { rewrite place_cons, Hx. pose proof (place_snoc c l x) as Hp. rewrite Hx in Hp.
    destruct r as [| y r].
    - exists t. rewrite app_nil_r in Hr. split; [| done]. rewrite flats_nil, Nat.add_0_r.
      apply (Erase_none _ _ _ Hr). rewrite (place_size c (l ++ [x]) [] [] t) by by rewrite app_nil_r. lia.
    - destruct (Erase_place c (l ++ [x]) (y :: r) [] t) as (t1 & E1 & R1); [done | by rewrite app_nil_r |].
      exists t1. rewrite app_nil_r in R1. split; [| done]. by rewrite Hp in E1. }
  exists t1. destruct l as [| y l].
  - exists t1. split_and!; [done | | done]. apply (Erase_none _ _ _ R1). rewrite (place_size c [] [] [_] _ R1). lia.
  - destruct (Erase_place c [] (y :: l) [x] t1) as (t2 & E2 & R2); [done.. |].
    exists t2. split_and!; [done | | done]. rewrite <- E2. f_equal. unfold place. rewrite flats_nil. cbn [length]. lia.
Qed.

(** ** Removing constant conditions that are false *)

Lemma removeAlwaysFalse_loop_spec P fuel c l r t e deleted changed :
  const_ok P -> repr (plug c (l ++ r)) t -> level_ok P (l ++ r) = true ->
  deleted <= e -> e - deleted = place c (l ++ r) -> length (flats r) < fuel ->
  exists d ch t' f,
    removeAlwaysFalse_loop fuel (place c []) e (place c l) deleted changed t = Ok (d, ch, t') /\
    repr (plug c f) t' /\ d <= e /\ e - d = place c f /\ simplifies true P (l ++ r) f.
Proof.
  intros HP. revert c l r t e deleted changed.
  induction fuel as [| fuel IH]; intros c l r t e deleted changed Hr Hok Hd He Hf; [lia |].
  cbn [removeAlwaysFalse_loop]. rewrite He. destruct r as [| x r].
  { rewrite app_nil_r, Nat.ltb_irrefl in *. cbn [negb].
    exists deleted, changed, t, l. split_and!; [done.. |]. by apply simplifies_refl. }
  rewrite flats_cons, length_app in Hf. pose proof (flat_pos x) as Hx.
  rewrite (proj2 (Nat.ltb_lt _ _)) by (rewrite place_cons; lia). cbn [negb].
  rewrite (IsSubTree_place _ _ _ _ _ Hr). cbn [mbind result_bind].
  destruct x as [op v | op p o ch]; cbn [is_sub].
  - rewrite (Get_place _ _ _ _ _ _ Hr). cbn [mbind result_bind]. rewrite leaf_size in *.
    assert (forall t1 v1 op1 dl chg, repr (plug c (l ++ Leaf op1 v1 :: r)) t1 -> P v1 = true ->
      deleted <= dl -> dl <= e -> e - dl = place c (l ++ Leaf op1 v1 :: r) ->
      simplifies true P (l ++ Leaf op v :: r) (l ++ Leaf op1 v1 :: r) ->
      exists d ch t' f,
        removeAlwaysFalse_loop fuel (place c []) e (place c l + 1) dl chg t1 = Ok (d, ch, t') /\
        repr (plug c f) t' /\ d <= e /\ e - d = place c f /\ simplifies true P (l ++ Leaf op v :: r) f) as Hnext.
    { intros t1 v1 op1 dl chg H1 HP1 Hdl Hdl' Hdle Hs. rewrite snoc_cons in H1, Hdle.
      replace (place c l + 1) with (place c (l ++ [Leaf op1 v1])) by apply place_snoc.
      destruct (IH c (l ++ [Leaf op1 v1]) r t1 e dl chg) as (d & ch & t' & f & E & R & D & L & S);
        [done | rewrite <- snoc_cons; apply Hs | done | done | lia |].
      { exists d, ch, t', f. split_and!; [done.. |]. eapply simplifies_trans; [exact Hs |].
        by rewrite snoc_cons. } }
    destruct (is_false v) eqn:Ev; cycle 1.
    { rewrite (Next_place _ _ _ _ _ Hr). cbn [mbind result_bind]. rewrite place_snoc, leaf_size.
      apply (Hnext t v op); [done | | lia | done | done | by apply simplifies_refl].
      apply level_ok_app in Hok as (_ & Hok & _). cbn in Hok. by apply andb_true_iff in Hok as [? _]. }
    destruct v; try done. clear Ev. rewrite (GetOperation_place _ _ _ _ _ Hr). cbn [mbind result_bind tree_op].
    destruct (Erase_one c l _ r t Hr) as (t1 & E1 & R1). rewrite leaf_size in E1.
    pose proof Hok as Hok'. apply level_ok_app in Hok' as (Hokl & Hokr & Hh). cbn in Hokr.
    apply andb_true_iff in Hokr as [_ Hokr].
    assert (e - (deleted + 1) = place c (l ++ r)) as He1.
    { rewrite place_app. rewrite place_cons, leaf_size in He. lia. }
    destruct op.
    + rewrite E1. cbn [mbind result_bind].
      assert (simplifies true P (l ++ Leaf OpOr E_AlwaysFalse :: r) (l ++ r)) as Hs.
      { apply simplifies_tail; [done | done | by intros -> | by destruct l |].
        intros sem cur [_ Hsem]. cbn. by rewrite Hsem, orb_false_r. }
      destruct (IH c l r t1 e (deleted + 1) changed) as (d & ch & t' & f & E & R & D & L & S);
        [done | apply Hs | rewrite place_cons, leaf_size in He; lia | done | lia |].
      exists d, ch, t', f. split_and!; [done.. |]. by eapply simplifies_trans.
    + rewrite (next_or_place _ _ _ _ _ _ _ Hr eq_refl). cbn [mbind result_bind].
      destruct (is_or (head_op r)) eqn:Eor.
      * destruct r as [| y r]; [done |]. rewrite E1. cbn [mbind result_bind].
        destruct (SetOperation_place c l y r OpAnd t1 R1) as (t2 & -> & R2). cbn [mbind result_bind].
        assert (length (flat (tree_set_op OpAnd y)) = length (flat y)) as Hy by by destruct y.
        assert (simplifies true P (l ++ Leaf OpAnd E_AlwaysFalse :: y :: r) (l ++ tree_set_op OpAnd y :: r)) as Hs.
        { apply simplifies_tail; [done | | | by destruct l |].
          - cbn in *. by destruct y.
          - by destruct y.
          - intros sem cur [_ Hsem]. cbn in *. destruct (tree_op y) eqn:Ey; try done. rewrite Hsem. by destruct y. }
        destruct (IH c l (tree_set_op OpAnd y :: r) t2 e (deleted + 1) changed) as (d & ch & t' & f & E & R & D & L & S).
        -- done.
        -- apply Hs.
        -- rewrite place_cons, leaf_size in He; lia.
        -- rewrite He1, !place_cons, Hy. done.
        -- rewrite flats_cons, length_app, Hy. rewrite flats_cons, length_app in Hf. lia.
        -- exists d, ch, t', f. split_and!; [done.. |]. by eapply simplifies_trans.
      * (* everything else of the level goes *)
        destruct (Erase_all_but c l (Leaf OpAnd E_AlwaysFalse) r t eq_refl Hr) as (t2 & t3 & -> & E3 & R3).
        cbn [mbind result_bind]. rewrite E3.
        cbn [mbind result_bind mret result_ret].
        exists (e - place c [] - 1), false, t3, [Leaf OpAnd E_AlwaysFalse].
        pose proof (place_le c (l ++ Leaf OpAnd E_AlwaysFalse :: r)). rewrite place_cons, leaf_size in He, H.
        pose proof (place_le c l). split_and!; [done | done | lia | |].
        -- pose proof (place_snoc c [] (Leaf OpAnd E_AlwaysFalse)) as E. rewrite leaf_size in E. cbn [app] in E. lia.
        -- destruct HP as [_ HPf]. split_and!; [by cbn; rewrite HPf | done |].
           intros sem [_ Hsem]. cbn. rewrite Hsem. symmetry. apply holds_from_app_false.
           intros cur. cbn. rewrite Hsem, holds_from_new by done. by rewrite andb_false_r.
    + destruct (SetValue_place no_post c l (Leaf OpNot E_AlwaysFalse) r E_AlwaysTrue t eq_refl eq_refl Hr) as (t2 & -> & R2).
      cbn [inserted no_post mbind result_bind mret result_ret fst snd]. cbn [tree_op] in R2.
      destruct (SetOperation_place c l _ r OpAnd t2 R2) as (t3 & -> & R3). cbn [mbind result_bind tree_set_op] in *.
      apply (Hnext t3 E_AlwaysTrue OpAnd); [done | apply HP | lia | done | by rewrite He, !place_cons |].
      apply simplifies_tail; [done | | done | by destruct l |].
      * cbn. by rewrite (proj1 HP), Hokr.
      * intros sem cur [Ht Hsem]. cbn. by rewrite Ht, Hsem.
  - rewrite (Next_place _ _ _ _ _ Hr). cbn [mbind result_bind].
    pose proof Hr as Hr'. rewrite plug_inner in Hr'.
    rewrite <- (place_inner c l op p o r), <- (place_inner_end c l op p o ch r).
    pose proof Hok as Hok'. apply level_ok_app in Hok' as (Hokl & Hokr & Hh). cbn [forallb] in Hokr.
    apply andb_true_iff in Hokr as [Hch Hokr]. apply tree_ok_sub in Hch as (_ & Hne & Hch).
    rewrite flat_sub in Hf. cbn [length] in Hf.
    destruct (IH (c ++ [mk_frame l op p o r]) [] ch t (place (c ++ [mk_frame l op p o r]) ch) 0 false)
      as (d & ch' & t1 & f & E1 & R1 & D1 & L1 & S1); [done | done | lia | apply Nat.sub_0_r | lia |].
    rewrite E1. cbn [mbind result_bind]. rewrite <- plug_inner in R1.
    rewrite (Next_place _ _ _ _ _ R1). cbn [mbind result_bind].
    pose proof (simplifies_sub true P l op p o ch f r Hok S1 (or_introl eq_refl)) as Hs.
    unfold place in L1, D1. rewrite snoc_cons in R1.
    rewrite place_cons, flat_sub in He. cbn [length] in He.
    destruct (IH c (l ++ [Sub op p o f]) r t1 e (deleted + d) (changed || ch')) as (d2 & ch2 & t2 & f2 & E2 & R2 & D2 & L2 & S2).
    + done.
    + rewrite <- snoc_cons. apply Hs.
    + lia.
    + rewrite <- snoc_cons, place_cons, flat_sub. cbn [length]. lia.
    + lia.
    + exists d2, ch2, t2, f2. split_and!; [done.. |]. eapply simplifies_trans; [exact Hs |].
      by rewrite snoc_cons.
Qed.


(** ** Removing constant conditions that are true, in conditions without joins *)

Definition no_joins (P : Entry -> bool) : Prop := forall v, P v = true -> is_join v = false.

Definition node_join (nd : Node OpType EqualPositions Entry) : bool :=
  match storage_ nd with Value v => is_join v | SubTree _ _ => false end.

Lemma no_joins_flat P x :
  no_joins P -> tree_ok P x = true -> existsb node_join (flat x) = false.
Proof.
  intros HP. induction x as [op v | op p o ch IH] using tree_ind; intros Hok.
  - cbn in *. by rewrite HP.
  - apply tree_ok_sub in Hok as (_ & _ & Hok). apply andb_true_iff in Hok as [_ Hok].
    rewrite flat_sub. cbn [existsb node_join head storage_ orb].
    induction IH as [| y ch Hy _ IHch]; [done |]. cbn in Hok. apply andb_true_iff in Hok as [Hoy Hok].
    rewrite flats_cons, existsb_app, Hy by done. by apply IHch.
Qed.

Lemma containsJoin_place P c (l : forest) x r t :
  no_joins P -> tree_ok P x = true -> repr (plug c (l ++ x :: r)) t ->
  containsJoin (place c l) t = Ok false.
Proof.
  intros HP Hok Hr. unfold containsJoin. rewrite (node_at_place _ _ _ _ _ Hr). cbn [mbind result_bind].
  pose proof (no_joins_flat P x HP Hok) as Hj. destruct x as [op v | op p o ch]; cbn [root storage_ head].
  - cbn in *. by rewrite HP.
  - destruct Hr as [-> _]. rewrite plug_place_cons, <- app_assoc, drop_place0. f_equal.
    change (S (length (flats ch))) with (length (flat (Sub op p o ch))). by rewrite take_app_length.
Qed.

(** The conditions that OR joins to a constant true one go. *)
Lemma erase_ors_spec P fuel c l r t e deleted :
  no_joins P -> repr (plug c (l ++ r)) t -> forallb (tree_ok P) r = true ->
  deleted <= e -> e - deleted = place c (l ++ r) -> length r < fuel ->
  exists k t' r', erase_ors fuel (place c l) e deleted t = Ok (place c l, deleted + k, t') /\
    repr (plug c (l ++ r')) t' /\ k + length (flats r') = length (flats r) /\
    is_or (head_op r') = false /\ forallb (tree_ok P) r' = true /\
    (is_or (head_op r) = true -> 0 < k) /\
    forall sem, holds_from sem true r' = holds_from sem true r.
Proof.
  intros HP. revert r t deleted. induction fuel as [| fuel IH]; intros r t deleted Hr Hok Hd He Hf; [lia |].
  cbn [erase_ors]. rewrite He. destruct r as [| x r].
  { rewrite app_nil_r, Nat.ltb_irrefl. exists 0, t, []. cbn [negb]. rewrite Nat.add_0_r.
    rewrite app_nil_r in *. done. }
  pose proof (flat_pos x) as Hx. rewrite (proj2 (Nat.ltb_lt _ _)) by (rewrite place_cons; lia). cbn [negb].
  rewrite (GetOperation_place _ _ _ _ _ Hr). cbn [mbind result_bind].
  destruct (is_or (tree_op x)) eqn:Eor; cbn [negb].
  2: { exists 0, t, (x :: r). rewrite Nat.add_0_r. split_and!; try done. cbn. by rewrite Eor. }
  cbn in Hok. apply andb_true_iff in Hok as [Hox Hok].
  rewrite (containsJoin_place P _ _ _ _ _ HP Hox Hr), (Next_place _ _ _ _ _ Hr), (Size_of_place _ _ _ _ _ Hr).
  cbn [mbind result_bind]. rewrite place_snoc.
  destruct (Erase_one c l x r t Hr) as (t1 & -> & R1). cbn [mbind result_bind].
  rewrite place_cons in He. cbn [length] in Hf.
  destruct (IH r t1 (deleted + length (flat x))) as (k & t' & r' & E & R & K & H1 & H2 & H3 & H4);
    [done | done | lia | rewrite place_app; lia | lia |].
  exists (length (flat x) + k), t', r'. rewrite E, Nat.add_assoc. split_and!; try done.
  - rewrite flats_cons, length_app. lia.
  - lia.
  - intros sem. rewrite H4. cbn. by destruct (tree_op x).
Qed.

(** The previous tree of a level. *)
Lemma prev_sibling_loop fuel c l1 l2 y r t :
  repr (plug c (l1 ++ l2 ++ y :: r)) t -> length l2 < fuel ->
  prev_sibling fuel (place c (l1 ++ l2 ++ [y])) (place c l1) t = Ok (place c (l1 ++ l2)).
Proof.
  revert l1 l2. induction fuel as [| fuel IH]; intros l1 l2 Hr Hf; [lia |]. cbn [prev_sibling].
  destruct l2 as [| x l2]; cbn [app] in *.
  - rewrite (Next_place _ _ _ _ _ Hr). cbn [mbind result_bind].
    by rewrite Nat.ltb_irrefl, app_nil_r.
  - rewrite (Next_place _ _ _ _ _ Hr). cbn [mbind result_bind]. pose proof (flat_pos y).
    rewrite (proj2 (Nat.ltb_lt _ _)).
    2: { rewrite place_snoc, place_cons, flats_app, flats_cons, flats_nil, !length_app. lia. }
    rewrite (snoc_cons l1 x (l2 ++ [y])), (snoc_cons l1 x l2). rewrite snoc_cons in Hr. cbn in Hf.
    apply IH; [done | lia].
Qed.

Lemma prev_sibling_place c l x r t :
  repr (plug c (l ++ x :: r)) t ->
  prev_sibling (S (Size t)) (place c l) (place c []) t = Ok (place c (removelast l)).
Proof.
  intros Hr. destruct l as [| y l _] using rev_ind.
  - cbn [prev_sibling removelast]. rewrite (Next_place c [] x r t Hr). cbn [mbind result_bind].
    rewrite place_snoc, (proj2 (Nat.ltb_ge _ _)) by lia. done.
  - rewrite removelast_last. rewrite <- app_assoc in Hr. apply (prev_sibling_loop _ c [] l y (x :: r) t Hr).
    pose proof (place_size c [] (l ++ y :: x :: r) [] t) as Hs. rewrite app_nil_r in Hs. rewrite (Hs Hr).
    pose proof (flats_length_le (l ++ y :: x :: r)) as Hle. rewrite length_app in Hle. lia.
Qed.

(** The group before a constant true condition that OR joins goes. *)
Lemma erase_group_spec P fuel c l r t prev deleted :
  no_joins P -> const_ok P -> repr (plug c (l ++ Leaf OpOr E_AlwaysTrue :: r)) t ->
  level_ok P (l ++ Leaf OpOr E_AlwaysTrue :: r) = true -> length l <= fuel ->
  exists k t' l',
    erase_group fuel (place c []) (place c l) (place c (removelast l)) (place c l) prev deleted t =
      Ok (place c l', place c (removelast l'), deleted + k, t') /\
    repr (plug c (l' ++ Leaf OpAnd E_AlwaysTrue :: r)) t' /\
    0 < k /\ k + length (flats l') = length (flats l) /\
    simplifies false P (l ++ Leaf OpOr E_AlwaysTrue :: r) (l' ++ Leaf OpAnd E_AlwaysTrue :: r).
Proof.
  intros HP HC. revert fuel t prev deleted. induction l as [| y l IH] using rev_ind;
    intros fuel t prev deleted Hr Hok Hf.
  { by apply level_ok_cons in Hok as [Hok _]. }
  rewrite length_app in Hf. cbn in Hf. destruct fuel as [| fuel]; [lia |]. cbn [erase_group].
  rewrite removelast_last. pose proof (flat_pos y) as Hy. pose proof Hr as Hr'. rewrite <- app_assoc in Hr'. cbn [app] in Hr'.
  rewrite (proj2 (Nat.ltb_lt _ _)) by (rewrite place_snoc; lia). cbn [negb].
  assert (tree_ok P y = true) as Hoy.
  { apply level_ok_app in Hok as (Hok & _). apply forallb_app_true in Hok as [_ Hok]. cbn in Hok. by rewrite andb_true_r in Hok. }
  rewrite (containsJoin_place P _ _ _ _ _ HP Hoy Hr'). cbn [mbind result_bind negb].
  rewrite (GetOperation_place _ _ _ _ _ Hr'). cbn [mbind result_bind].
  assert (exists t1, (if negb (is_or (tree_op y)) then SetOperation OpAnd (place c (l ++ [y])) t else Ok t) = Ok t1 /\
            repr (plug c (l ++ y :: Leaf (if is_or (tree_op y) then OpOr else OpAnd) E_AlwaysTrue :: r)) t1)
    as (t1 & -> & R1).
  { destruct (is_or (tree_op y)); cbn [negb]; [by exists t |].
    destruct (SetOperation_place c (l ++ [y]) _ r OpAnd t Hr) as (t1 & -> & R1). exists t1.
    split; [done |]. rewrite <- app_assoc in R1. exact R1. }
  cbn [mbind result_bind]. rewrite (Size_of_place _ _ _ _ _ R1). cbn [mbind result_bind]. rewrite place_snoc.
  destruct (Erase_one c l y _ t1 R1) as (t2 & -> & R2). cbn [mbind result_bind mret result_ret].
  rewrite Nat.eqb_refl, (prev_sibling_place _ _ _ _ _ R2). cbn [mbind result_bind].
  rewrite (GetOperation_place _ _ _ _ _ R2). cbn [mbind result_bind tree_op].
  assert (forall op, simplifies false P ((l ++ [y]) ++ Leaf OpOr E_AlwaysTrue :: r) (l ++ Leaf op E_AlwaysTrue :: r) <->
            simplifies false P (l ++ y :: Leaf OpOr E_AlwaysTrue :: r) (l ++ Leaf op E_AlwaysTrue :: r)) as Ha
    by by intros op; rewrite <- app_assoc.
  pose proof Hok as Hok'. rewrite <- app_assoc in Hok'. cbn [app] in Hok'.
  assert (forallb (tree_ok P) r = true) as Hokr.
  { apply level_ok_app in Hok' as (_ & H & _). cbn in H. rewrite !andb_true_iff in H. tauto. }
  assert (forall op, (l = [] -> is_or op = false) ->
    (forall sem cur, meaning sem -> holds_from sem cur (Leaf op E_AlwaysTrue :: r) =
       holds_from sem cur (y :: Leaf OpOr E_AlwaysTrue :: r)) ->
    simplifies false P ((l ++ [y]) ++ Leaf OpOr E_AlwaysTrue :: r) (l ++ Leaf op E_AlwaysTrue :: r)) as Hs.
  { intros op Hop Hsem. apply Ha, simplifies_tail; [done | | done | done | done].
    cbn. by rewrite (proj1 HC), Hokr. }
  destruct (is_or (tree_op y)) eqn:Ey; cbn [is_or].
  - assert (simplifies false P ((l ++ [y]) ++ Leaf OpOr E_AlwaysTrue :: r) (l ++ Leaf OpOr E_AlwaysTrue :: r)) as Hs1.
    { apply Hs.
      - intros ->. apply level_ok_cons in Hok' as [Hh _]. congruence.
      - intros sem cur [Ht _]. cbn. rewrite Ht. destruct (tree_op y); try done. by rewrite !orb_true_r. }
    destruct (IH fuel t2 (place c (removelast l)) (deleted + length (flat y)) R2 (proj1 Hs1)) as (k & t' & l' & E & R & K & L & S); [lia |].
    exists (length (flat y) + k), t', l'. rewrite E, Nat.add_assoc. split_and!; [done | done | lia | |].
    + rewrite flats_app, flats_cons, flats_nil, !length_app. cbn [length]. lia.
    + by eapply simplifies_trans.
  - exists (length (flat y)), t2, l. split_and!; [done | done | lia | |].
    + rewrite flats_app, flats_cons, flats_nil, !length_app. cbn [length]. lia.
    + apply Hs; [done |]. intros sem cur [Ht _]. cbn. rewrite Ht. by destruct (tree_op y); rewrite ?orb_true_r.
Qed.


(** The outcome of the loop: the level [ts] became [f]. *)
Definition reduced (keep : bool) P c (ts : forest) e (o : result (nat * bool * Tree)) : Prop :=
  exists d ch t' f, o = Ok (d, ch, t') /\ repr (plug c f) t' /\ d <= e /\ e - d = place c f /\
    simplifies keep P ts f.

Lemma reduced_trans k P c ts us e o :
  simplifies k P ts us -> reduced k P c us e o -> reduced k P c ts e o.
Proof.
  intros Hs (d & ch & t' & f & E & R & D & L & S). exists d, ch, t', f.
  split_and!; [done.. |]. by eapply simplifies_trans.
Qed.

(** What the loop does from a place on, for the induction. *)
Definition true_loop_ok P fuel : Prop :=
  forall c l r t e deleted changed,
    repr (plug c (l ++ r)) t -> level_ok P (l ++ r) = true ->
    deleted <= e -> e - deleted = place c (l ++ r) ->
    length (flats l) + 2 * length (flats r) < fuel ->
    reduced false P c (l ++ r) e
      (removeAlwaysTrue_loop fuel (place c []) e (place c l) (place c (removelast l)) deleted changed t).

Section Step.
Context (P : Entry -> bool) (fuel : nat).
Context (HP : no_joins P) (HC : const_ok P) (IH : true_loop_ok P fuel).

(** Going on behind a leaf. *)
Lemma true_loop_next c l x r t e deleted changed ts :
  repr (plug c (l ++ x :: r)) t -> simplifies false P ts (l ++ x :: r) ->
  deleted <= e -> e - deleted = place c (l ++ x :: r) ->
  length (flats l) + 2 * length (flats (x :: r)) < S fuel ->
  reduced false P c ts e
    (removeAlwaysTrue_loop fuel (place c []) e (place c l + length (flat x)) (place c l) deleted changed t).
Proof.
  intros Hr Hs Hd He Hf. eapply reduced_trans; [exact Hs |]. destruct Hs as [Hok _].
  rewrite snoc_cons in *. rewrite <- place_snoc.
  replace (place c l) with (place c (removelast (l ++ [x]))) by by rewrite removelast_last.
  apply IH; [done.. |]. pose proof (flat_pos x).
  rewrite flats_app, !flats_cons, flats_nil, !length_app in *. cbn [length]. lia.
Qed.

(** A constant true condition that AND joins. *)
Lemma true_loop_and c l r t e deleted changed :
  repr (plug c (l ++ Leaf OpAnd E_AlwaysTrue :: r)) t ->
  level_ok P (l ++ Leaf OpAnd E_AlwaysTrue :: r) = true ->
  deleted <= e -> e - deleted = place c (l ++ Leaf OpAnd E_AlwaysTrue :: r) ->
  length (flats l) + 2 * (1 + length (flats r)) < S fuel ->
  reduced false P c (l ++ Leaf OpAnd E_AlwaysTrue :: r) e
    (next_or ← Ok (is_or (head_op r));
     if negb (next_or : bool) then
       t ← Erase (place c l) (place c l + 1) t;
       removeAlwaysTrue_loop fuel (place c []) e (place c l) (place c (removelast l)) (deleted + 1) changed t
     else
       r ← erase_ors (S (Size t)) (place c l + 1) e deleted t;
       let '(n, deleted', t) := r in
       removeAlwaysTrue_loop fuel (place c []) e (if deleted =? deleted' then n else place c l)
         (place c (removelast l)) deleted' changed t).
Proof.
  intros Hr Hok Hd He Hf. cbn [mbind result_bind]. pose proof He as He'. rewrite place_cons, leaf_size in He'.
  pose proof Hok as Hok'. apply level_ok_app in Hok' as (Hokl & Hokr & Hh). cbn in Hokr.
  apply andb_true_iff in Hokr as [_ Hokr].
  destruct (is_or (head_op r)) eqn:Eor; cbn [negb].
  - pose proof Hr as Hr'. rewrite snoc_cons in Hr'.
    assert (place c l + 1 = place c (l ++ [Leaf OpAnd E_AlwaysTrue])) as Ep by by rewrite place_snoc, leaf_size.
    rewrite Ep.
    destruct (erase_ors_spec P (S (Size t)) c _ r t e deleted HP Hr' Hokr Hd) as (k & t' & r' & -> & R & K & H1 & H2 & H3 & H4).
    { by rewrite <- snoc_cons. }
    { rewrite (place_size c _ [] r t Hr'). pose proof (flats_length_le r). lia. }
    cbn [mbind result_bind]. specialize (H3 Eor). rewrite (proj2 (Nat.eqb_neq _ _)) by lia.
    rewrite <- snoc_cons in R.
    apply reduced_trans with (l ++ Leaf OpAnd E_AlwaysTrue :: r').
    { apply simplifies_tail; [done | | done | done |].
      - cbn. by rewrite (proj1 HC).
      - intros sem cur [Ht _]. cbn. by rewrite Ht, H4. }
    apply IH; [done | | lia | rewrite place_cons, leaf_size; lia |].
    + apply level_ok_app. split_and!; [done | | by destruct l]. cbn. by rewrite (proj1 HC), H2.
    + rewrite flats_cons, flat_leaf. cbn [length app]. lia.
  - destruct (Erase_one c l _ r t Hr) as (t1 & E1 & R1). rewrite leaf_size in E1. rewrite E1.
    cbn [mbind result_bind].
    assert (simplifies false P (l ++ Leaf OpAnd E_AlwaysTrue :: r) (l ++ r)) as Hs.
    { apply simplifies_tail; [done | done | done | done |]. intros sem cur [Ht _]. cbn.
      rewrite Ht, !(holds_from_new sem _ r) by done. done. }
    eapply reduced_trans; [exact Hs |]. apply IH; [done | apply Hs | lia | rewrite place_app; lia | lia].
Qed.

(** A bracket, after the simplification of its contents. *)
Lemma true_loop_bracket c l op p ch r t e deleted changed :
  repr (plug c (l ++ Sub op p false ch :: r)) t ->
  level_ok P (l ++ Sub op p false ch :: r) = true ->
  deleted <= e -> e - deleted = place c (l ++ Sub op p false ch :: r) ->
  length (flats l) + 2 * length (flats (Sub op p false ch :: r)) < S fuel ->
  reduced false P c (l ++ Sub op p false ch :: r) e
    (next ← Next (place c l) t;
     r ← removeAlwaysTrue_loop fuel (place c l + 1) next (place c l + 1) (place c l + 1) 0 false t;
     let '(d, ch, t) := r in
     let deleted := deleted + d in
     s ← Size_of (place c l) t;
     if s =? 1 then
       r ← SetValue no_post (place c l) E_AlwaysTrue t;
       removeAlwaysTrue_loop fuel (place c []) e (place c l + fst r) (place c l) deleted true (snd r)
     else
       next ← Next (place c l) t;
       removeAlwaysTrue_loop fuel (place c []) e next (place c l) deleted (changed || ch) t).
Proof.
  intros Hr Hok Hd He Hf. rewrite (Next_place _ _ _ _ _ Hr). cbn [mbind result_bind].
  pose proof Hr as Hr'. rewrite plug_inner in Hr'. set (c' := c ++ [mk_frame l op p false r]) in *.
  rewrite <- (place_inner c l op p false r), <- (place_inner_end c l op p false ch r). fold c'.
  pose proof Hok as Hok'. apply level_ok_app in Hok' as (Hokl & Hokr & Hh). cbn [forallb] in Hokr.
  apply andb_true_iff in Hokr as [Hch Hokr]. apply tree_ok_sub in Hch as (_ & Hne & Hch).
  rewrite flats_cons, flat_sub, length_app in Hf. cbn [length] in Hf.
  destruct (IH c' [] ch t (place c' ch) 0 false) as (d & chg & t1 & f & E1 & R1 & D1 & L1 & S1);
    [done | done | lia | apply Nat.sub_0_r | rewrite flats_nil; cbn [length]; lia |].
  cbn [removelast] in E1. rewrite E1. cbn [mbind result_bind]. subst c'. rewrite <- plug_inner in R1.
  rewrite (Size_of_place _ _ _ _ _ R1). cbn [mbind result_bind]. rewrite flat_sub. cbn [length].
  unfold place in L1, D1. rewrite place_cons, flat_sub in He. cbn [length] in He.
  destruct f as [| y f].
  - rewrite flats_nil in L1 |- *. cbn [length Nat.eqb] in *.
    destruct (SetValue_place no_post c l (Sub op p false []) r E_AlwaysTrue t1 eq_refl eq_refl R1) as (t2 & -> & R2).
    cbn [inserted no_post mbind result_bind mret result_ret fst snd plus tree_op] in *.
    apply (true_loop_next c l (Leaf op E_AlwaysTrue) r t2 e (deleted + d) true); [done | | lia | | ].
    + split_and!; [| done |].
      * apply level_ok_app. split_and!; [done | | by destruct l]. cbn. by rewrite (proj1 HC).
      * intros sem Hs. apply holds_replace; [done |]. rewrite holds_sub.
        destruct S1 as (_ & _ & S1). rewrite <- S1 by done. apply Hs.
    + rewrite place_cons, leaf_size. lia.
    + rewrite flats_cons, flat_leaf, length_app. cbn [length]. lia.
  - rewrite (proj2 (Nat.eqb_neq _ _)) by (pose proof (flats_pos (y :: f) ltac:(done)); lia).
    rewrite (Next_place _ _ _ _ _ R1). cbn [mbind result_bind]. rewrite place_snoc.
    apply (true_loop_next c l (Sub op p false (y :: f)) r t1); [done | | lia | |].
    + apply (simplifies_sub false P l op p false ch (y :: f) r Hok S1). by right.
    + rewrite place_cons, flat_sub. cbn [length]. lia.
    + rewrite flats_cons, flat_sub, length_app. cbn [length]. lia.
Qed.

End Step.

Lemma removeAlwaysTrue_loop_spec P fuel : no_joins P -> const_ok P -> true_loop_ok P fuel.
Proof.
  intros HP HC. induction fuel as [| fuel IH]; intros c l r t e deleted changed Hr Hok Hd He Hf; [lia |].
  cbn [removeAlwaysTrue_loop]. rewrite He. destruct r as [| x r].
  { rewrite app_nil_r, Nat.ltb_irrefl in *. cbn [negb].
    exists deleted, changed, t, l. split_and!; [done.. |]. by apply simplifies_refl. }
  pose proof (flat_pos x) as Hx.
  rewrite (proj2 (Nat.ltb_lt _ _)) by (rewrite place_cons; lia). cbn [negb].
  rewrite (IsSubTree_place _ _ _ _ _ Hr). cbn [mbind result_bind].
  destruct x as [op v | op p o ch]; cbn [is_sub].
  - rewrite (Get_place _ _ _ _ _ _ Hr). cbn [mbind result_bind]. rewrite flats_cons, length_app, leaf_size in *.
    pose proof Hok as Hok'. apply level_ok_app in Hok' as (Hokl & Hokr & Hh). cbn in Hokr.
    apply andb_true_iff in Hokr as [_ Hokr].
    destruct (is_true v) eqn:Ev; cycle 1.
    { rewrite (Next_place _ _ _ _ _ Hr). cbn [mbind result_bind]. rewrite place_snoc.
      apply (true_loop_next P fuel IH c l (Leaf op v) r t); [done | by apply simplifies_refl | done | done |].
      rewrite flats_cons, length_app, leaf_size. lia. }
    destruct v; try done. rewrite (GetOperation_place _ _ _ _ _ Hr). cbn [mbind result_bind tree_op].
    destruct op.
    + destruct (erase_group_spec P (S (Size t)) c l r t (place c (removelast l)) deleted) as (k & t' & l' & -> & R & K & L & S);
        [done | done | done | done | |].
      { rewrite (place_size c l [] _ t Hr). unfold place. pose proof (flats_length_le l). lia. }
      cbn [mbind result_bind]. eapply reduced_trans; [exact S |]. rewrite place_cons, leaf_size in He.
      apply IH; [done | apply S | unfold place in *; lia | |].
      * rewrite place_cons, leaf_size. unfold place in *. lia.
      * rewrite flats_cons, length_app, leaf_size. lia.
    + rewrite (next_or_place _ _ _ _ _ _ _ Hr eq_refl). by apply (true_loop_and P fuel HP HC IH).
    + destruct (SetValue_place no_post c l (Leaf OpNot E_AlwaysTrue) r E_AlwaysFalse t eq_refl eq_refl Hr) as (t2 & -> & R2).
      cbn [inserted no_post mbind result_bind mret result_ret fst snd]. cbn [tree_op] in R2.
      destruct (SetOperation_place c l _ r OpAnd t2 R2) as (t3 & -> & R3). cbn [mbind result_bind tree_set_op] in *.
      apply (true_loop_next P fuel IH c l (Leaf OpAnd E_AlwaysFalse) r t3); [done | | done | | ].
      * apply simplifies_tail; [done | | done | done |].
        -- cbn. by rewrite (proj2 HC), Hokr.
        -- intros sem cur [Ht Hsem]. cbn. by rewrite Ht, Hsem.
      * by rewrite He, !place_cons.
      * rewrite flats_cons, length_app, leaf_size. lia.
  - pose proof Hok as Hok'. apply level_ok_app in Hok' as (_ & Hok' & _). cbn [forallb] in Hok'.
    apply andb_true_iff in Hok' as [Hch _]. apply tree_ok_sub in Hch as (-> & _ & _).
    by apply (true_loop_bracket P fuel HC IH).
Qed.


(** ** Removing brackets *)

Lemma lookup_size (t : Tree) i : i < Size t -> exists nd, node_at i t = Ok nd.
Proof.
  intros H. unfold node_at. destruct (container_ t !! i) as [nd |] eqn:E; [by exists nd |].
  apply lookup_ge_None in E. unfold Size in H. lia.
Qed.

(** When a bracket can be removed: its first condition is then the only one, or nothing is joined
    to the bracket with OR. *)
Lemma canRemoveBracket_place c l op p y ch r t :
  repr (plug c (l ++ Sub op p false (y :: ch) :: r)) t ->
  exists b, canRemoveBracket (place c l) t = Ok b /\
    (b = true -> (op = OpAnd /\ (ch = [] \/ is_or (head_op r) = false)) \/
                 (tree_op y = OpAnd /\ ch = [])).
Proof.
  intros Hr. pose proof (flats_pos (y :: ch) ltac:(done)) as Hy.
  unfold canRemoveBracket. rewrite (Size_of_place _ _ _ _ _ Hr), (Next_place _ _ _ _ _ Hr).
  rewrite (GetOperation_place _ _ _ _ _ Hr). cbn [mbind result_bind tree_op].
  rewrite flat_sub. cbn [length]. rewrite (proj2 (Nat.ltb_ge _ _)) by lia.
  pose proof Hr as Hr'. rewrite plug_inner in Hr'. rewrite <- (place_inner c l op p false r).
  rewrite (GetOperation_place _ [] y ch t Hr'), (Next_place _ [] y ch t Hr'). cbn [mbind result_bind].
  rewrite <- (place_inner_end c l op p false (y :: ch) r).
  destruct (bool_decide_reflect (op = OpAnd)) as [-> | Hop]; cbn [negb andb].
  - destruct (Nat.eqb_spec (place (c ++ [mk_frame l OpAnd p false r]) (y :: ch)) (place (c ++ [mk_frame l OpAnd p false r]) ([] ++ [y]))) as [E | E].
    + exists true. split; [done |]. intros _. left. split; [done | left]. cbn [app] in E.
      apply flats_pos_nil. unfold place in E. rewrite !flats_cons, flats_nil, !length_app in E. cbn [length] in E. lia.
    + destruct (Nat.eqb_spec (place (c ++ [mk_frame l OpAnd p false r]) (y :: ch)) (Size t)) as [E2 | E2].
      * exists true. split; [done |]. intros _. left. split; [done | right].
        destruct r as [| z r]; [done |]. exfalso.
        rewrite (place_size c l [Sub OpAnd p false (y :: ch)] (z :: r) t Hr), place_inner_end, place_snoc in E2.
        rewrite flats_cons, flats_nil, app_nil_r in E2. pose proof (flats_pos (z :: r) ltac:(done)). lia.
      * rewrite place_inner_end in *. destruct r as [| z r].
        -- destruct (lookup_size t (place c (l ++ [Sub OpAnd p false (y :: ch)]))) as (nd & Hnd).
           { rewrite (place_size c l [Sub OpAnd p false (y :: ch)] [] t Hr), flats_cons, flats_nil, app_nil_r in E2 |- *.
             rewrite place_snoc in *. cbn [length] in *. lia. }
           unfold GetOperation. rewrite Hnd. cbn. eexists. split; [done |]. intros _. left. by auto.
        -- rewrite snoc_cons in Hr. rewrite (GetOperation_place _ _ _ _ _ Hr). cbn.
           eexists. split; [done |]. rewrite negb_true_iff. auto.
  - destruct (bool_decide_reflect (tree_op y = OpAnd)) as [Hy' | Hy']; cbn [negb]; [| by exists false].
    destruct (Nat.eqb_spec (place (c ++ [mk_frame l op p false r]) (y :: ch)) (place (c ++ [mk_frame l op p false r]) ([] ++ [y]))) as [E | E];
      [| by exists false].
    exists true. split; [done |]. intros _. right. split; [done |]. cbn [app] in E.
    apply flats_pos_nil. unfold place in E. rewrite !flats_cons, flats_nil, !length_app in E. cbn [length] in E. lia.
Qed.

Lemma holds_from_split (sem : Entry -> bool) b (ch r : forest) :
  is_or (head_op r) = false -> holds_from sem b (ch ++ r) = holds_from sem b ch && holds sem r.
Proof.
  intros Hr. revert b. induction ch as [| y ch IH]; intros b; cbn [app holds_from].
  - by apply holds_from_new.
  - destruct (tree_op y); rewrite IH; by rewrite ?andb_assoc.
Qed.

Lemma holds_tree_set_op (sem : Entry -> bool) op (y : qtree) :
  holds_tree sem (tree_set_op op y) = holds_tree sem y.
Proof. by destruct y. Qed.

Lemma tree_ok_set_op P op (y : qtree) : tree_ok P (tree_set_op op y) = tree_ok P y.
Proof. by destruct y. Qed.

Lemma tree_op_set_op op (y : qtree) : tree_op (tree_set_op op y) = op.
Proof. by destruct y. Qed.

(** The first condition of a removed bracket takes the operation of the bracket. *)
Definition unbracketed (op : OpType) (y : qtree) : qtree :=
  if bool_decide (op = OpAnd) then y else tree_set_op op y.

Lemma simplifies_unbracket k P l op p y ch r :
  level_ok P (l ++ Sub op p false (y :: ch) :: r) = true ->
  (op = OpAnd /\ (ch = [] \/ is_or (head_op r) = false)) \/ (tree_op y = OpAnd /\ ch = []) ->
  simplifies k P (l ++ Sub op p false (y :: ch) :: r) (l ++ unbracketed op y :: ch ++ r).
Proof.
  intros Hok Hcan. pose proof Hok as Hok'. apply level_ok_app in Hok' as (Hl & Hr & Hh).
  cbn [forallb] in Hr. apply andb_true_iff in Hr as [Hs Hr]. apply tree_ok_sub in Hs as (_ & _ & Hs).
  apply level_ok_cons in Hs as (Hy & Hoy & Hch). apply simplifies_tail; [done | | | by destruct l |].
  - cbn [forallb]. rewrite forallb_app, Hch, Hr, andb_true_r. unfold unbracketed.
    destruct (bool_decide (op = OpAnd)); [done | by rewrite tree_ok_set_op].
  - intros ->. cbn [app head_op tree_op] in *. unfold unbracketed.
    destruct (bool_decide (op = OpAnd)); [done | by rewrite tree_op_set_op].
  - intros sem cur _. cbn [holds_from]. cbn [tree_op]. rewrite holds_sub. unfold unbracketed.
    destruct (bool_decide_reflect (op = OpAnd)) as [-> | Hop].
    + assert (forall b, holds_from sem b (ch ++ r) = holds_from sem (holds_from sem b ch) r) as Hsplit.
      { intros b. destruct Hcan as [[_ [-> | Hh']] | [_ ->]]; [done | | done].
        by rewrite holds_from_split, (holds_from_new sem (holds_from sem b ch)). }
      unfold holds. cbn [holds_from]. destruct (tree_op y); [done | |]; by rewrite Hsplit.
    + destruct Hcan as [[-> _] | [Hy' ->]]; [done |]. rewrite tree_op_set_op, holds_tree_set_op. cbn [app].
      unfold holds. cbn [holds_from]. rewrite Hy'. by destruct op.
Qed.

Lemma removeBrackets_loop_spec P fuel c l r t e deleted :
  repr (plug c (l ++ r)) t -> level_ok P (l ++ r) = true ->
  deleted <= e -> e - deleted = place c (l ++ r) -> length (flats r) < fuel ->
  exists d t' f, removeBrackets_loop fuel e (place c l) deleted t = Ok (d, t') /\
    repr (plug c f) t' /\ d <= e /\ e - d = place c f /\ simplifies true P (l ++ r) f.
Proof.
  revert c l r t e deleted. induction fuel as [| fuel IH]; intros c l r t e deleted Hr Hok Hd He Hf; [lia |].
  cbn [removeBrackets_loop]. rewrite He. destruct r as [| x r].
  { rewrite app_nil_r, Nat.ltb_irrefl in *. cbn [negb].
    exists deleted, t, l. split_and!; [done.. |]. by apply simplifies_refl. }
  pose proof (flat_pos x) as Hx. rewrite flats_cons, length_app in Hf.
  rewrite (proj2 (Nat.ltb_lt _ _)) by (rewrite place_cons; lia). cbn [negb].
  rewrite (IsSubTree_place _ _ _ _ _ Hr), (Next_place _ _ _ _ _ Hr). cbn [mbind result_bind].
  assert (forall t1 y s dl, repr (plug c (l ++ y :: s)) t1 -> simplifies true P (l ++ x :: r) (l ++ y :: s) ->
    dl <= e -> e - dl = place c (l ++ y :: s) -> length (flats s) < fuel ->
    exists d t' f, removeBrackets_loop fuel e (place c (l ++ [y])) dl t1 = Ok (d, t') /\
      repr (plug c f) t' /\ d <= e /\ e - d = place c f /\ simplifies true P (l ++ x :: r) f) as Hnext.
  { intros t1 y s dl R1 S1 D1 L1 F1. rewrite snoc_cons in R1, L1.
    destruct (IH c (l ++ [y]) s t1 e dl R1) as (d & t' & f & E & R & D & L & S); [| done | done | done |].
    - rewrite <- snoc_cons. apply S1.
    - exists d, t', f. split_and!; [done.. |]. eapply simplifies_trans; [exact S1 |]. by rewrite snoc_cons. }
  assert (exists d t' f, removeBrackets_loop fuel e (place c (l ++ [x])) deleted t = Ok (d, t') /\
      repr (plug c f) t' /\ d <= e /\ e - d = place c f /\ simplifies true P (l ++ x :: r) f) as Hskip.
  { apply (Hnext t x r); [done | by apply simplifies_refl | done | done | lia]. }
  destruct x as [op v | op p o ch]; cbn [is_sub]; [exact Hskip |].
  unfold equalPositions_at. rewrite (node_at_place _ _ _ _ _ Hr). cbn [mbind result_bind root head storage_ fmap result_fmap].
  destruct (decide (p = [])) as [-> | Hp];
    [rewrite bool_decide_eq_true_2 by done | rewrite bool_decide_eq_false_2 by done; exact Hskip].
  clear Hskip. cbn [negb].
  pose proof Hok as Hok'. apply level_ok_app in Hok' as (Hokl & Hokr & Hh). cbn [forallb] in Hokr.
  apply andb_true_iff in Hokr as [Hch Hokr]. apply tree_ok_sub in Hch as (-> & Hne & Hch).
  pose proof Hr as Hr'. rewrite plug_inner in Hr'. set (c' := c ++ [mk_frame l op [] false r]) in *.
  rewrite <- (place_inner c l op [] false r), <- (place_inner_end c l op [] false ch r). fold c'.
  assert (check_first (place c' []) (place c' ch) t = Ok tt) as ->.
  { unfold check_first. destruct (_ =? _); [done |]. destruct ch as [| y ch]; [done |].
    rewrite (GetOperation_place c' [] y ch t Hr'). cbn [mbind result_bind]. apply level_ok_cons in Hch as (-> & _). done. }
  cbn [mbind result_bind]. rewrite flat_sub in Hf. cbn [length] in Hf.
  destruct (IH c' [] ch t (place c' ch) 0) as (d & t1 & f & E1 & R1 & D1 & L1 & S1);
    [done | done | lia | apply Nat.sub_0_r | lia |].
  rewrite E1. cbn [mbind result_bind].
  pose proof (simplifies_sub true P l op [] false ch f r Hok S1 (or_introl eq_refl)) as Hs.
  pose proof S1 as (Hf1 & Hf2 & _). specialize (Hf2 eq_refl Hne). destruct f as [| y f]; [done |].
  rewrite place_cons, flat_sub in He. cbn [length] in He. unfold place in L1, D1.
  pose proof R1 as R1'. unfold c' in R1'. rewrite <- plug_inner in R1'.
  destruct (canRemoveBracket_place c l op [] y f r t1 R1') as (b & -> & Hb). cbn [mbind result_bind].
  destruct b.
  - specialize (Hb eq_refl). rewrite (GetOperation_place _ _ _ _ _ R1'). cbn [mbind result_bind tree_op].
    assert (exists t2, (if bool_decide (op = OpAnd) then Ok t1 else SetOperation op (place c l + 1) t1) = Ok t2 /\
              repr (plug c (l ++ Sub op [] false (unbracketed op y :: f) :: r)) t2) as (t2 & E2 & R2).
    { unfold unbracketed. destruct (bool_decide (op = OpAnd)); [by exists t1 |].
      destruct (SetOperation_place c' [] y f op t1 R1) as (t2 & E2 & R2). exists t2.
      unfold c' in E2, R2. rewrite place_inner in E2. rewrite <- plug_inner in R2. done. }
    unfold c'. rewrite place_inner, E2. cbn [mbind result_bind].
    destruct (Erase_head c l op [] _ r t2 R2) as (t3 & -> & R3). cbn [mbind result_bind].
    cbn [app] in R3. rewrite (Next_place _ _ _ _ _ R3). cbn [mbind result_bind].
    assert (length (flat (unbracketed op y)) = length (flat y)) as Hlen.
    { unfold unbracketed. destruct (bool_decide (op = OpAnd)); [done | by destruct y]. }
    rewrite flats_cons, length_app in L1.
    apply (Hnext t3 (unbracketed op y) (f ++ r)); [done | | lia | |].
    + eapply simplifies_trans; [exact Hs |]. apply simplifies_unbracket; [apply Hs | done].
    + rewrite place_cons, Hlen, flats_app, length_app. lia.
    + rewrite flats_app, length_app. pose proof (flat_pos y). lia.
  - rewrite (Next_place _ _ _ _ _ R1'). cbn [mbind result_bind].
    apply (Hnext t1 (Sub op [] false (y :: f)) r); [done | done | lia | | lia].
    rewrite place_cons, flat_sub. cbn [length]. lia.
Qed.

End Reduce.

Section Theorems.
Context {X : Type}.

Notation Entry := (Entry X).
Notation Tree := (ExpressionTree OpType EqualPositions Entry).
Notation forest := (list (tree OpType EqualPositions Entry)).

Lemma removeAlwaysFalse_run P (f : forest) t :
  const_ok P -> repr f t -> level_ok P f = true ->
  exists ch t' f', removeAlwaysFalse t = Ok (ch, t') /\ repr f' t' /\ simplifies true P f f'.
Proof.
  intros HP Hr Hok. assert (Size t = place [] ([] ++ f)) as Hs by (by destruct Hr as [Hc _]; unfold Size; rewrite Hc).
  destruct (removeAlwaysFalse_loop_spec P (S (Size t)) [] [] f t (Size t) 0 false)
    as (d & ch & t' & f' & E & R & _ & _ & S); [done | done | done | lia | lia | rewrite Hs; unfold place; cbn [app offset]; lia |].
  unfold removeAlwaysFalse. change (place [] []) with 0 in E. rewrite E. cbn [mbind result_bind mret result_ret].
  by eexists _, t', f'.
Qed.

Lemma removeAlwaysTrue_run P (f : forest) t fuel :
  no_joins P -> const_ok P -> repr f t -> level_ok P f = true -> 2 * Size t < fuel ->
  exists ch t' f', removeAlwaysTrue fuel t = Ok (ch, t') /\ repr f' t' /\ simplifies false P f f'.
Proof.
  intros HJ HP Hr Hok Hf. assert (Size t = place [] ([] ++ f)) as Hs by (by destruct Hr as [Hc _]; unfold Size; rewrite Hc).
  destruct (removeAlwaysTrue_loop_spec P fuel HJ HP [] [] f t (Size t) 0 false)
    as (d & ch & t' & f' & E & R & _ & _ & S); [done | done | lia | lia | rewrite Hs in Hf; unfold place in Hf; cbn [app offset] in Hf; rewrite flats_nil; cbn [length]; lia |].
  unfold removeAlwaysTrue. cbn [removelast] in E. change (place [] []) with 0 in E. rewrite E.
  cbn [mbind result_bind mret result_ret]. by eexists _, t', f'.
Qed.

Lemma removeBrackets_run P (f : forest) t ep :
  repr f t -> level_ok P f = true ->
  exists ch t' f', removeBrackets ep t = Ok (ch, t') /\ repr f' t' /\ simplifies true P f f'.
Proof.
  intros Hr Hok. unfold removeBrackets. destruct (negb _).
  { exists false, t, f. split_and!; [done.. |]. by apply simplifies_refl. }
  assert (Size t = place [] ([] ++ f)) as Hs by (by destruct Hr as [Hc _]; unfold Size; rewrite Hc).
  assert (check_first 0 (Size t) t = Ok tt) as ->.
  { unfold check_first. destruct (Nat.eqb_spec 0 (Size t)) as [| Hz]; [done |].
    destruct f as [| y f]; [by rewrite Hs in Hz |].
    change 0 with (place (Op := OpType) (B := EqualPositions) (V := Entry) [] []).
    rewrite (GetOperation_place [] [] y f t Hr). cbn [mbind result_bind]. apply level_ok_cons in Hok as (-> & _). done. }
  destruct (removeBrackets_loop_spec P (S (Size t)) [] [] f t (Size t) 0)
    as (d & t' & f' & E & R & _ & _ & S); [done | done | lia | lia | rewrite Hs; unfold place; cbn [app offset]; lia |].
  change (place [] []) with 0 in E. cbn [mbind result_bind]. rewrite E. cbn [mbind result_bind mret result_ret].
  by eexists _, t', f'.
Qed.

(** removing constant false conditions. For any conditions whose brackets are closed and
    not empty and no level of which starts with OR, [removeAlwaysFalse] ends, fails no check, and
    leaves conditions of the same kind with the same meaning, whatever the other conditions mean;
    it does not empty a level. *)
Theorem removeAlwaysFalse_correct P (f : forest) t :
  const_ok P -> repr f t -> level_ok P f = true ->
  exists changed t' f', removeAlwaysFalse t = Ok (changed, t') /\ repr f' t' /\
    level_ok P f' = true /\ (f <> [] -> f' <> []) /\
    forall sem, meaning sem -> holds sem f' = holds sem f.
Proof.
  intros HP Hr Hok. destruct (removeAlwaysFalse_run P f t HP Hr Hok) as (ch & t' & f' & E & R & H1 & H2 & H3).
  exists ch, t', f'. split_and!; auto.
Qed.

(** removing constant true conditions. For conditions without joins [removeAlwaysTrue]
    ends (within twice the number of nodes), fails no check, and leaves conditions with the same
    meaning; no conditions at all are left exactly when they are constant true. *)
Theorem removeAlwaysTrue_correct P (f : forest) t fuel :
  no_joins P -> const_ok P -> repr f t -> level_ok P f = true -> 2 * Size t < fuel ->
  exists changed t' f', removeAlwaysTrue fuel t = Ok (changed, t') /\ repr f' t' /\
    level_ok P f' = true /\
    (forall sem, meaning sem -> holds sem f' = holds sem f) /\
    (f' = [] -> forall sem, meaning sem -> holds sem f = true).
Proof.
  intros HJ HP Hr Hok Hf.
  destruct (removeAlwaysTrue_run P f t fuel HJ HP Hr Hok Hf) as (ch & t' & f' & E & R & H1 & _ & H3).
  exists ch, t', f'. split_and!; auto. intros -> sem Hs. by rewrite <- H3.
Qed.

(** removing brackets. [removeBrackets] ends and fails no check on conditions whose
    brackets are closed and not empty and no level of which starts with OR, and keeps their
    meaning; a bracket goes exactly when NOT and OR still bind what they did. *)
Theorem removeBrackets_correct P (f : forest) t equalPositions :
  repr f t -> level_ok P f = true ->
  exists changed t' f', removeBrackets equalPositions t = Ok (changed, t') /\ repr f' t' /\
    level_ok P f' = true /\ (f <> [] -> f' <> []) /\
    forall sem, meaning sem -> holds sem f' = holds sem f.
Proof.
  intros Hr Hok. destruct (removeBrackets_run P f t equalPositions Hr Hok) as (ch & t' & f' & E & R & H1 & H2 & H3).
  exists ch, t', f'. split_and!; auto.
Qed.

(** C7: the simplified conditions select the same items. When the brackets and then the
    constant conditions are removed from conditions that can be evaluated for an item, the result
    is either empty, and then the item satisfied the original conditions, or is evaluated by
    [checkIfSatisfyConditions] to the same answer as the original. *)
Theorem reduced_conditions_same_answer sem_q sem_b (f : forest) t equalPositions :
  repr f t -> f <> [] -> level_ok (evaluable sem_q sem_b) f = true ->
  exists ch1 ch2 ch3 t1 t2 t3,
    removeBrackets equalPositions t = Ok (ch1, t1) /\ removeAlwaysFalse t1 = Ok (ch2, t2) /\
    removeAlwaysTrue (S (2 * Size t2)) t2 = Ok (ch3, t3) /\
    checkIfSatisfyConditions sem_q sem_b 0 (Size t) t =
      (if Empty t3 then Ok true else checkIfSatisfyConditions sem_q sem_b 0 (Size t3) t3).
Proof.
  intros Hr Hne Hok. set (P := evaluable sem_q sem_b) in *.
  assert (const_ok P) as HP by done.
  assert (no_joins P) as HJ by by intros [].
  assert (meaning (sem_of sem_q sem_b)) as HM by done.
  assert (forall (g : forest) s, repr g s -> level_ok P g = true -> g <> [] ->
    checkIfSatisfyConditions sem_q sem_b 0 (Size s) s = Ok (holds (sem_of sem_q sem_b) g)) as Hcheck.
  { intros g s Rg Og Ng. rewrite <- (conditions_evaluated sem_q sem_b [] g s Rg Ng Og).
    f_equal. destruct Rg as [Hc _]. unfold Size. by rewrite Hc. }
  destruct (removeBrackets_run P f t equalPositions Hr Hok) as (ch1 & t1 & f1 & E1 & R1 & O1 & _ & S1).
  destruct (removeAlwaysFalse_run P f1 t1 HP R1 O1) as (ch2 & t2 & f2 & E2 & R2 & O2 & _ & S2).
  destruct (removeAlwaysTrue_run P f2 t2 (S (2 * Size t2)) HJ HP R2 O2 ltac:(lia)) as (ch3 & t3 & f3 & E3 & R3 & O3 & _ & S3).
  exists ch1, ch2, ch3, t1, t2, t3. split_and!; [done.. |].
  rewrite (Hcheck f t Hr Hok Hne), <- S1, <- S2, <- S3 by done.
  destruct f3 as [| y f3].
  - unfold Empty. by rewrite (proj1 R3), flats_nil.
  - rewrite (Hcheck _ t3 R3 O3 ltac:(done)). unfold Empty. rewrite (proj1 R3), flats_cons, flat_root. done.
Qed.

Definition join_or_true : forest := [Leaf OpAnd (E_Join 0); Leaf OpOr E_AlwaysTrue].

(** a join before a constant true condition. For conditions that are a join and a
    condition joined to it with OR that has become constant true, the loop of [removeAlwaysTrue]
    never ends: it neither erases the join nor moves on. *)
Theorem removeAlwaysTrue_join_hangs fuel :
  removeAlwaysTrue fuel (mk_tree (flats join_or_true) []) = Fail OutOfFuel.
Proof.
  set (t := mk_tree (flats join_or_true) []).
  assert (forall n, removeAlwaysTrue_loop n 0 2 1 0 0 false t = Fail OutOfFuel) as Hloop.
  { intros n. induction n as [| n IH]; [done |]. exact IH. }
  unfold removeAlwaysTrue. destruct fuel as [| fuel]; [done |].
  change (removeAlwaysTrue_loop (S fuel) 0 (Size t) 0 0 0 false t) with (removeAlwaysTrue_loop fuel 0 2 1 0 0 false t).
  by rewrite Hloop.
Qed.

End Theorems.

(** ** Witnesses *)

(** [(a OR false) AND NOT false AND (true AND b)]. *)
Definition sample_query : list (tree OpType EqualPositions (Entry unit)) :=
  [Sub OpAnd [] false [Leaf OpAnd (E_Query (sample_entry [1%Z])); Leaf OpOr E_AlwaysFalse];
   Leaf OpNot E_AlwaysFalse;
   Sub OpAnd [] false [Leaf OpAnd E_AlwaysTrue; Leaf OpAnd (E_Query (sample_entry [2%Z]))]].

Definition not_join (e : Entry unit) : bool := negb (is_join e).

Lemma sample_query_ok : level_ok not_join sample_query = true.
Proof. reflexivity. Qed.

Lemma removeAlwaysFalse_correct_witness :
  exists changed t' f', removeAlwaysFalse (mk_tree (flats sample_query) []) = Ok (changed, t') /\
    repr f' t' /\ f' <> [] /\ holds (fun _ => true) f' = holds (fun _ => true) f'.
Proof.
  destruct (removeAlwaysFalse_correct not_join sample_query (mk_tree (flats sample_query) []))
    as (ch & t' & f' & E & R & _ & H & _); [by split | by split | reflexivity |].
  exists ch, t', f'. split; [exact E |]. split; [exact R |]. split; [apply H; discriminate | reflexivity].
Defined.

Lemma removeAlwaysTrue_correct_witness :
  exists changed t' f', removeAlwaysTrue 20 (mk_tree (flats sample_query) []) = Ok (changed, t') /\
    repr f' t'.
Proof.
  destruct (removeAlwaysTrue_correct not_join sample_query (mk_tree (flats sample_query) []) 20)
    as (ch & t' & f' & E & R & _).
  - intros v. unfold not_join. by destruct (is_join v).
  - by split.
  - by split.
  - reflexivity.
  - vm_compute. lia.
  - by exists ch, t', f'.
Defined.

Lemma removeBrackets_correct_witness :
  exists changed t' f', removeBrackets [] (mk_tree (flats sample_query) []) = Ok (changed, t') /\
    repr f' t' /\ f' <> [].
Proof.
  destruct (removeBrackets_correct not_join sample_query (mk_tree (flats sample_query) []) [])
    as (ch & t' & f' & E & R & _ & H & _); [by split | reflexivity |].
  exists ch, t', f'. split; [exact E |]. split; [exact R | apply H; discriminate].
Defined.

Lemma reduced_conditions_same_answer_witness :
  exists ch1 t1, removeBrackets [] (mk_tree (flats sample_query) []) = Ok (ch1, t1) /\
    checkIfSatisfyConditions (fun _ => true) (fun _ : unit => true) 0 7 (mk_tree (flats sample_query) []) = Ok true.
Proof.
  destruct (reduced_conditions_same_answer (fun _ => true) (fun _ : unit => true) sample_query
    (mk_tree (flats sample_query) []) []) as (ch1 & ch2 & ch3 & t1 & t2 & t3 & E & _);
    [by split | discriminate | reflexivity |].
  exists ch1, t1. split; [exact E | reflexivity].
Defined.
