(* ===== verification/QueryBinary.v ===== *)
(** Queries in the binary protocol: [Query::Serialize] and [Query::Deserialize] of
    [core/query/query.cc], [QueryEntries::serialize] of [queryentry.cc], with the aggregations of
    [queryentry.h], the parameters of a vector search ([knn_search_params.cc]) and the filter of
    fields ([fields_names_filter.h]).

    The conditions are the vector of [ExpressionTree] that is written node by node and built anew
    by the reader. Enumerators of the wire are numbers; a number that names no operation,
    condition or aggregation is cast to the enumeration without a check, which is undefined.
    Conditions with subqueries and functions are written and read by the parameters [put_other]
    and [get_other]. A query type ([Select], [Update], ...) does not travel. *)

From S2P Require Import Prelude Varint WrSerializer Serializer Variant ExpressionTree ExpressionForest ExpressionBuild QueryEntries.

(** ** Enumerators *)

Inductive QueryItemType : Set :=
| QueryCondition | QueryDistinct | QuerySortIndex | QueryJoinOn | QueryLimit | QueryOffset | QueryReqTotal
| QueryDebugLevel | QueryAggregation | QuerySelectFilter | QuerySelectFunction | QueryEnd | QueryExplain
| QueryEqualPosition | QueryUpdateField | QueryAggregationLimit | QueryAggregationOffset
| QueryAggregationSort | QueryOpenBracket | QueryCloseBracket | QueryJoinCondition | QueryDropField
| QueryUpdateObject | QueryWithRank | QueryStrictMode | QueryUpdateFieldV2 | QueryBetweenFieldsCondition
| QueryAlwaysFalseCondition | QueryAlwaysTrueCondition | QuerySubQueryCondition
| QueryFieldSubQueryCondition | QueryLocal | QueryKnnCondition | QueryKnnConditionExt | QueryFunction
| QueryFunctionSubQueryCondition | QueryExpressions.

Definition all_items : list QueryItemType :=
  [QueryCondition; QueryDistinct; QuerySortIndex; QueryJoinOn; QueryLimit; QueryOffset; QueryReqTotal;
   QueryDebugLevel; QueryAggregation; QuerySelectFilter; QuerySelectFunction; QueryEnd; QueryExplain;
   QueryEqualPosition; QueryUpdateField; QueryAggregationLimit; QueryAggregationOffset;
   QueryAggregationSort; QueryOpenBracket; QueryCloseBracket; QueryJoinCondition; QueryDropField;
   QueryUpdateObject; QueryWithRank; QueryStrictMode; QueryUpdateFieldV2; QueryBetweenFieldsCondition;
   QueryAlwaysFalseCondition; QueryAlwaysTrueCondition; QuerySubQueryCondition;
   QueryFieldSubQueryCondition; QueryLocal; QueryKnnCondition; QueryKnnConditionExt; QueryFunction;
   QueryFunctionSubQueryCondition; QueryExpressions].

#[export] Instance QueryItemType_eq_dec : EqDecision QueryItemType.
Proof. solve_decision. Defined.

(** The items are numbered in the order of their declaration. *)
Definition item_number (i : QueryItemType) : Z :=
  match list_find (eq i) all_items with Some (n, _) => Z.of_nat n | None => -1 end.

Definition item_of_number (n : Z) : option QueryItemType := znth all_items n.

Definition op_number (op : OpType) : Z := match op with OpOr => 1 | OpAnd => 2 | OpNot => 3 end.
Definition op_of_number (n : Z) : result OpType :=
  if n =? 1 then Ok OpOr else if n =? 2 then Ok OpAnd else if n =? 3 then Ok OpNot else Fail Undefined.

Definition all_conds : list CondType :=
  [CondAny; CondEq; CondLt; CondLe; CondGt; CondGe; CondRange; CondSet; CondAllSet; CondEmpty; CondLike; CondDWithin; CondKnn].
Definition cond_number (c : CondType) : Z :=
  match list_find (eq c) all_conds with Some (n, _) => Z.of_nat n | None => -1 end.
Definition cond_of_number (n : Z) : result CondType := of_option Undefined (znth all_conds n).

Inductive AggType : Set := AggSum | AggAvg | AggFacet | AggMin | AggMax | AggDistinct | AggCount | AggCountCached | AggUnknown.
#[export] Instance AggType_eq_dec : EqDecision AggType.
Proof. solve_decision. Defined.
Definition all_aggs : list AggType := [AggSum; AggAvg; AggFacet; AggMin; AggMax; AggDistinct; AggCount; AggCountCached].
Definition agg_number (a : AggType) : Z :=
  match list_find (eq a) all_aggs with Some (n, _) => Z.of_nat n | None => -1 end.
Definition agg_of_number (n : Z) : result AggType := of_option Undefined (znth all_aggs n).

(** [JoinType] *)
Definition LeftJoin : Z := 0.
Definition InnerJoin : Z := 1.
Definition OrInnerJoin : Z := 2.
Definition Merge : Z := 3.

(** [QuerySerializeMode]: bits. *)
Definition SkipJoinQueries : Z := 0x01.
Definition SkipMergeQueries : Z := 0x02.
Definition SkipLimitOffset : Z := 0x04.
Definition WithJoinEntries : Z := 0x08.
Definition SkipAggregations : Z := 0x10.
Definition SkipSortEntries : Z := 0x20.
Definition SkipExtraParams : Z := 0x40.
Definition SkipLeftJoinQueries : Z := 0x80.
Definition has (mode bit : Z) : bool := negb (Z.land mode bit =? 0).

Definition kDefaultLimit : Z := 2 ^ 32 - 1.
Definition kDefaultOffset : Z := 0.

(** ** Data *)

(** [KnnSearchParams]: the limit and the radius (a float) of the base class, [ef] or [nprobe]. *)
Inductive KnnSearchParams : Set :=
| KnnBase (k radius : option Z)
| KnnBruteForce (k radius : option Z)
| KnnHnsw (k radius : option Z) (ef : Z)
| KnnIvf (k radius : option Z) (nprobe : Z).

Inductive KnnData : Set := KnnVector (v : list Z) | KnnString (s : bytes).

(** [ConstFloatVectorView(FloatVector)] and [Span()]: the view of owned floats, and back. *)
Definition View (v : list Z) : FloatVectorView := match v with [] => FV_Empty | _ => FV_Data v end.
Definition Span (v : FloatVectorView) : result (list Z) :=
  match v with FV_Empty => Ok [] | FV_Data data => Ok data | FV_Stripped _ => Fail AssertFail end.

(** The contents of the conditions that [QueryEntries] leaves open. *)
Inductive EntryData {Y : Type} : Type :=
| D_Between (left : bytes) (cond : CondType) (right : bytes)
| D_Knn (fieldName : bytes) (data : KnnData) (params : KnnSearchParams)
| D_Other (y : Y).
Arguments EntryData : clear implicits.

Record SortingEntry : Set := mk_se { expression : bytes; desc : bool }.

Record AggregateEntry : Set := mk_agg {
  a_type : AggType; a_fields : list bytes; a_sorting : list SortingEntry; a_limit : Z; a_offset : Z
}.

Inductive FieldModifyMode : Set :=
| FieldModeSet | FieldModeDrop | FieldModeSetJson | FieldModeArrayPushBack | FieldModeArrayPushFront.

(** The values are a [VariantArray] with its two marks. *)
Record UpdateEntry : Set := mk_ue {
  u_column : bytes; u_values : list Variant; u_isArray : bool; u_isObject : bool; u_mode : FieldModifyMode; u_isExpression : bool
}.

Definition IsArrayValue (u : UpdateEntry) : bool := u_isArray u || (negb (u_isObject u) && (1 <? zlen (u_values u))).

Record QueryJoinEntry : Set := mk_qje { j_op : OpType; j_cond : CondType; j_left : bytes; j_right : bytes }.

Record FieldsNamesFilter : Set := mk_fnf { fields_ : list bytes; allRegularFields_ : bool; allVectorFields_ : bool }.

Section QueryBinary.
Context {Y : Type}.

Abbreviation Entry := (Entry (EntryData Y)).
Abbreviation Tree := (ExpressionTree OpType EqualPositions (QueryEntries.Entry (EntryData Y))).

(** A query without its nested ones. [equalPositions_] are those of the root of the conditions,
    and [joinEntries_] those of a [JoinedQuery]. *)
Record Body : Type := mk_body {
  namespace_ : bytes; start_ : Z; count_ : Z; calcTotal_ : Z; entries_ : Tree; equalPositions_ : EqualPositions; aggregations_ : list AggregateEntry; sortingEntries_ : list SortingEntry; forcedSortOrder_ : list Variant; joinEntries_ : list QueryJoinEntry; updateFields_ : list UpdateEntry; selectFunctions_ : list bytes; selectFilter_ : FieldsNamesFilter; local_ : bool; withRank_ : bool; explain_ : bool; strictMode_ : Z; debugLevel_ : Z
}.

Definition set_start (x : Z) (b : Body) : Body :=
  mk_body (namespace_ b) x (count_ b) (calcTotal_ b) (entries_ b) (equalPositions_ b) (aggregations_ b) (sortingEntries_ b) (forcedSortOrder_ b) (joinEntries_ b) (updateFields_ b) (selectFunctions_ b) (selectFilter_ b) (local_ b) (withRank_ b) (explain_ b) (strictMode_ b) (debugLevel_ b).
Definition set_count (x : Z) (b : Body) : Body :=
  mk_body (namespace_ b) (start_ b) x (calcTotal_ b) (entries_ b) (equalPositions_ b) (aggregations_ b) (sortingEntries_ b) (forcedSortOrder_ b) (joinEntries_ b) (updateFields_ b) (selectFunctions_ b) (selectFilter_ b) (local_ b) (withRank_ b) (explain_ b) (strictMode_ b) (debugLevel_ b).
Definition set_calcTotal (x : Z) (b : Body) : Body :=
  mk_body (namespace_ b) (start_ b) (count_ b) x (entries_ b) (equalPositions_ b) (aggregations_ b) (sortingEntries_ b) (forcedSortOrder_ b) (joinEntries_ b) (updateFields_ b) (selectFunctions_ b) (selectFilter_ b) (local_ b) (withRank_ b) (explain_ b) (strictMode_ b) (debugLevel_ b).
Definition set_entries (x : Tree) (b : Body) : Body :=
  mk_body (namespace_ b) (start_ b) (count_ b) (calcTotal_ b) x (equalPositions_ b) (aggregations_ b) (sortingEntries_ b) (forcedSortOrder_ b) (joinEntries_ b) (updateFields_ b) (selectFunctions_ b) (selectFilter_ b) (local_ b) (withRank_ b) (explain_ b) (strictMode_ b) (debugLevel_ b).
Definition set_equalPositions (x : EqualPositions) (b : Body) : Body :=
  mk_body (namespace_ b) (start_ b) (count_ b) (calcTotal_ b) (entries_ b) x (aggregations_ b) (sortingEntries_ b) (forcedSortOrder_ b) (joinEntries_ b) (updateFields_ b) (selectFunctions_ b) (selectFilter_ b) (local_ b) (withRank_ b) (explain_ b) (strictMode_ b) (debugLevel_ b).
Definition set_aggregations (x : list AggregateEntry) (b : Body) : Body :=
  mk_body (namespace_ b) (start_ b) (count_ b) (calcTotal_ b) (entries_ b) (equalPositions_ b) x (sortingEntries_ b) (forcedSortOrder_ b) (joinEntries_ b) (updateFields_ b) (selectFunctions_ b) (selectFilter_ b) (local_ b) (withRank_ b) (explain_ b) (strictMode_ b) (debugLevel_ b).
Definition set_sortingEntries (x : list SortingEntry) (b : Body) : Body :=
  mk_body (namespace_ b) (start_ b) (count_ b) (calcTotal_ b) (entries_ b) (equalPositions_ b) (aggregations_ b) x (forcedSortOrder_ b) (joinEntries_ b) (updateFields_ b) (selectFunctions_ b) (selectFilter_ b) (local_ b) (withRank_ b) (explain_ b) (strictMode_ b) (debugLevel_ b).
Definition set_forcedSortOrder (x : list Variant) (b : Body) : Body :=
  mk_body (namespace_ b) (start_ b) (count_ b) (calcTotal_ b) (entries_ b) (equalPositions_ b) (aggregations_ b) (sortingEntries_ b) x (joinEntries_ b) (updateFields_ b) (selectFunctions_ b) (selectFilter_ b) (local_ b) (withRank_ b) (explain_ b) (strictMode_ b) (debugLevel_ b).
Definition set_joinEntries (x : list QueryJoinEntry) (b : Body) : Body :=
  mk_body (namespace_ b) (start_ b) (count_ b) (calcTotal_ b) (entries_ b) (equalPositions_ b) (aggregations_ b) (sortingEntries_ b) (forcedSortOrder_ b) x (updateFields_ b) (selectFunctions_ b) (selectFilter_ b) (local_ b) (withRank_ b) (explain_ b) (strictMode_ b) (debugLevel_ b).
Definition set_updateFields (x : list UpdateEntry) (b : Body) : Body :=
  mk_body (namespace_ b) (start_ b) (count_ b) (calcTotal_ b) (entries_ b) (equalPositions_ b) (aggregations_ b) (sortingEntries_ b) (forcedSortOrder_ b) (joinEntries_ b) x (selectFunctions_ b) (selectFilter_ b) (local_ b) (withRank_ b) (explain_ b) (strictMode_ b) (debugLevel_ b).
Definition set_selectFunctions (x : list bytes) (b : Body) : Body :=
  mk_body (namespace_ b) (start_ b) (count_ b) (calcTotal_ b) (entries_ b) (equalPositions_ b) (aggregations_ b) (sortingEntries_ b) (forcedSortOrder_ b) (joinEntries_ b) (updateFields_ b) x (selectFilter_ b) (local_ b) (withRank_ b) (explain_ b) (strictMode_ b) (debugLevel_ b).
Definition set_selectFilter (x : FieldsNamesFilter) (b : Body) : Body :=
  mk_body (namespace_ b) (start_ b) (count_ b) (calcTotal_ b) (entries_ b) (equalPositions_ b) (aggregations_ b) (sortingEntries_ b) (forcedSortOrder_ b) (joinEntries_ b) (updateFields_ b) (selectFunctions_ b) x (local_ b) (withRank_ b) (explain_ b) (strictMode_ b) (debugLevel_ b).
Definition set_local (x : bool) (b : Body) : Body :=
  mk_body (namespace_ b) (start_ b) (count_ b) (calcTotal_ b) (entries_ b) (equalPositions_ b) (aggregations_ b) (sortingEntries_ b) (forcedSortOrder_ b) (joinEntries_ b) (updateFields_ b) (selectFunctions_ b) (selectFilter_ b) x (withRank_ b) (explain_ b) (strictMode_ b) (debugLevel_ b).
Definition set_withRank (x : bool) (b : Body) : Body :=
  mk_body (namespace_ b) (start_ b) (count_ b) (calcTotal_ b) (entries_ b) (equalPositions_ b) (aggregations_ b) (sortingEntries_ b) (forcedSortOrder_ b) (joinEntries_ b) (updateFields_ b) (selectFunctions_ b) (selectFilter_ b) (local_ b) x (explain_ b) (strictMode_ b) (debugLevel_ b).
Definition set_explain (x : bool) (b : Body) : Body :=
  mk_body (namespace_ b) (start_ b) (count_ b) (calcTotal_ b) (entries_ b) (equalPositions_ b) (aggregations_ b) (sortingEntries_ b) (forcedSortOrder_ b) (joinEntries_ b) (updateFields_ b) (selectFunctions_ b) (selectFilter_ b) (local_ b) (withRank_ b) x (strictMode_ b) (debugLevel_ b).
Definition set_strictMode (x : Z) (b : Body) : Body :=
  mk_body (namespace_ b) (start_ b) (count_ b) (calcTotal_ b) (entries_ b) (equalPositions_ b) (aggregations_ b) (sortingEntries_ b) (forcedSortOrder_ b) (joinEntries_ b) (updateFields_ b) (selectFunctions_ b) (selectFilter_ b) (local_ b) (withRank_ b) (explain_ b) x (debugLevel_ b).
Definition set_debugLevel (x : Z) (b : Body) : Body :=
  mk_body (namespace_ b) (start_ b) (count_ b) (calcTotal_ b) (entries_ b) (equalPositions_ b) (aggregations_ b) (sortingEntries_ b) (forcedSortOrder_ b) (joinEntries_ b) (updateFields_ b) (selectFunctions_ b) (selectFilter_ b) (local_ b) (withRank_ b) (explain_ b) (strictMode_ b) x.

(** A query and its nested ones, with their join types. *)
Inductive Query : Type := mk_query (body : Body) (joinQueries_ mergeQueries_ : list (Z * Query)).

Definition body (q : Query) : Body := let '(mk_query b _ _) := q in b.

(** ** Writing *)

Fixpoint put_all {A} (put : A -> M WrSerializer unit) (l : list A) : M WrSerializer unit :=
  match l with [] => mret tt | x :: l => _ ← put x; put_all put l end.

Definition put_item (i : QueryItemType) : M WrSerializer unit := PutVarUintEnum (item_number i).
Definition put_op (op : OpType) : M WrSerializer unit := PutVarUintEnum (op_number op).
Definition put_cond (c : CondType) : M WrSerializer unit := PutVarUintEnum (cond_number c).

Definition kKnnParamsBinProtocolVersion : Z := 1.

Definition put_knn_base (type : Z) (k radius : option Z) : M WrSerializer unit :=
  _ ← PutVarUintEnum type;
  _ ← PutVarUint64 kKnnParamsBinProtocolVersion;
  _ ← PutUInt8 (Z.lor (if k is Some _ then 1 else 0) (if radius is Some _ then 2 else 0));
  _ ← match k with Some k => PutVarUint64 k | None => mret tt end;
  match radius with Some r => PutFloat r | None => mret tt end.

Definition KnnSearchParams_Serialize (p : KnnSearchParams) : M WrSerializer unit :=
  match p with
  | KnnBase k r => put_knn_base 0 k r
  | KnnBruteForce k r => put_knn_base 1 k r
  | KnnHnsw k r ef => _ ← put_knn_base 2 k r; PutVarUint64 ef
  | KnnIvf k r nprobe => _ ← put_knn_base 3 k r; PutVarUint64 nprobe
  end.

(** [As<double>] of the coordinates of a point: the parameter converts the other types. *)
Context (as_double : Variant -> result Z).

Definition coordinate (v : Variant) : result Z :=
  match v with V_Double bits => Ok bits | _ => as_double v end.

Definition as_point (v : Variant) : result (Z * Z) :=
  match v with
  | V_Tuple [x; y] => x ← coordinate x; y ← coordinate y; mret (x, y)
  | _ => Fail (Throw errParams)
  end.

Definition is_tuple (v : Variant) : bool := match v with V_Tuple _ => true | _ => false end.

Definition serialize_values (cond : CondType) (values : list Variant) : M WrSerializer unit :=
  _ ← put_cond cond;
  if decide (cond = CondDWithin) then
    match values with
    | [a; b] =>
        _ ← PutVarUint32 3;
        let '(p, d) := if is_tuple a then (a, b) else (b, a) in
        xy ← lift (as_point p);
        _ ← PutVariant (V_Double (fst xy));
        _ ← PutVariant (V_Double (snd xy));
        PutVariant d
    | _ => fail (Throw errAssert)
    end
  else
    _ ← PutVarUint32 (zlen values); put_all PutVariant values.

Context (put_other : OpType -> Entry -> M WrSerializer unit).

Definition serialize_entry (op : OpType) (e : Entry) : M WrSerializer unit :=
  match e with
  | E_Query qe =>
      _ ← put_item QueryCondition; _ ← PutVString (fieldName_ qe); _ ← put_op op;
      serialize_values (condition_ qe) (values_ qe)
  | E_MultiDistinct _ => fail (Throw errAssert)
  | E_Join joinIndex =>
      _ ← put_item QueryJoinCondition;
      _ ← PutVarUintEnum (if decide (op = OpAnd) then InnerJoin else OrInnerJoin);
      PutVarUint64 (Z.of_nat joinIndex)
  | E_BetweenFields (D_Between l c r) =>
      _ ← put_item QueryBetweenFieldsCondition; _ ← put_op op; _ ← PutVString l; _ ← put_cond c; PutVString r
  | E_AlwaysFalse => _ ← put_item QueryAlwaysFalseCondition; put_op op
  | E_AlwaysTrue => _ ← put_item QueryAlwaysTrueCondition; put_op op
  | E_Knn (D_Knn field data params) =>
      _ ← put_item QueryKnnConditionExt; _ ← PutVString field; _ ← put_op op;
      _ ← match data with
          | KnnVector v => _ ← PutVarUintEnum 0; PutFloatVectorView (View v)
          | KnnString s => _ ← PutVarUintEnum 1; PutVString s
          end;
      KnnSearchParams_Serialize params
  | E_SubQuery _ | E_SubQueryField _ | E_QueryFunction _ | E_SubQueryFunction _ => put_other op e
  (* contents of another condition, which the types of the code exclude *)
  | E_BetweenFields _ | E_Knn _ => fail Undefined
  end.

(** The children between two iterators; the fuel bounds the steps, nested ones included. *)
Fixpoint serialize_loop (fuel it to : nat) (t : Tree) : M WrSerializer unit :=
  match fuel with
  | O => fail OutOfFuel
  | S fuel =>
      if (it =? to)%nat then mret tt
      else
        op ← lift (GetOperation it t);
        next ← lift (const_iterator_next it t);
        nd ← lift (node_at it t);
        _ ← match storage_ nd with
            | SubTree _ _ =>
                _ ← put_item QueryOpenBracket; _ ← put_op op;
                b ← lift (const_iterator_cbegin it t);
                e ← lift (const_iterator_cend it t);
                _ ← serialize_loop fuel b e t;
                put_item QueryCloseBracket
            | Value e => serialize_entry op e
            end;
        serialize_loop fuel next to t
  end.

Definition entries_Serialize (t : Tree) : M WrSerializer unit := serialize_loop (S (Size t)) 0 (Size t) t.

Definition put_aggregation (a : AggregateEntry) : M WrSerializer unit :=
  _ ← put_item QueryAggregation;
  _ ← PutVarUintEnum (agg_number (a_type a));
  _ ← PutVarUint32 (zlen (a_fields a));
  _ ← put_all PutVString (a_fields a);
  _ ← put_all (fun se =>
        _ ← put_item QueryAggregationSort; _ ← PutVString (expression se); PutVarUint32 (Z.b2z (desc se))) (a_sorting a);
  _ ← if a_limit a =? kDefaultLimit then mret tt else _ ← put_item QueryAggregationLimit; PutVarUint32 (a_limit a);
  if a_offset a =? kDefaultOffset then mret tt else _ ← put_item QueryAggregationOffset; PutVarUint32 (a_offset a).

Definition put_sorting_entry (forced : list Variant) (se : SortingEntry) : M WrSerializer unit :=
  _ ← put_item QuerySortIndex; _ ← PutVString (expression se); _ ← PutVarUint32 (Z.b2z (desc se));
  _ ← PutVarUint32 (zlen forced); put_all PutVariant forced.

(** The forced order goes with the first entry. *)
Definition put_sorting (forced : list Variant) (l : list SortingEntry) : M WrSerializer unit :=
  match l with
  | [] => mret tt
  | se :: l => _ ← put_sorting_entry forced se; put_all (put_sorting_entry []) l
  end.

Definition put_join_entry (e : QueryJoinEntry) : M WrSerializer unit :=
  _ ← put_item QueryJoinOn; _ ← put_op (j_op e); _ ← put_cond (j_cond e); _ ← PutVString (j_left e); PutVString (j_right e).

(** The member is virtual; that of the root query throws. *)
Definition serializeJoinEntries (joined : bool) (l : list QueryJoinEntry) : M WrSerializer unit :=
  if joined then put_all put_join_entry l else fail (Throw errLogic).

Definition put_equal_position (pos : Z) (ep : list bytes) : M WrSerializer unit :=
  _ ← put_item QueryEqualPosition; _ ← PutVarUint64 pos; _ ← PutVarUint32 (zlen ep); put_all PutVString ep.

Fixpoint put_bracket_positions (i : nat) (c : list (Node OpType EqualPositions Entry)) : M WrSerializer unit :=
  match c with
  | [] => mret tt
  | nd :: c =>
      _ ← match storage_ nd with
          | SubTree _ eps => put_all (put_equal_position (Z.of_nat i + 1)) eps
          | Value _ => mret tt
          end;
      put_bracket_positions (S i) c
  end.

Definition kAllVectorFieldsName : bytes := map (fun a => Z.of_N (Ascii.N_of_ascii a)) (String.list_ascii_of_string "vectors()").
Definition kRankFieldName : bytes := map (fun a => Z.of_N (Ascii.N_of_ascii a)) (String.list_ascii_of_string "rank()").
Definition kAllRegularFieldsName : bytes := map (fun a => Z.of_N (Ascii.N_of_ascii a)) (String.list_ascii_of_string "*").

Definition fnf_Empty (f : FieldsNamesFilter) : bool :=
  bool_decide (fields_ f = []) && negb (allRegularFields_ f) && negb (allVectorFields_ f).
Definition AllRegularFields (f : FieldsNamesFilter) : bool := allRegularFields_ f || fnf_Empty f.
Definition AllVectorFields (f : FieldsNamesFilter) : bool := allVectorFields_ f.

Definition put_filter (f : FieldsNamesFilter) : M WrSerializer unit :=
  _ ← put_all (fun sf => _ ← put_item QuerySelectFilter; PutVString sf) (fields_ f);
  _ ← if AllRegularFields f && negb (fnf_Empty f) then _ ← put_item QuerySelectFilter; PutVString kAllRegularFieldsName else mret tt;
  if AllVectorFields f then _ ← put_item QuerySelectFilter; PutVString kAllVectorFieldsName else mret tt.

Definition put_update (u : UpdateEntry) : M WrSerializer unit :=
  let put_values := put_all (fun v => _ ← PutVarUint32 (Z.b2z (u_isExpression u)); PutVariant v) (u_values u) in
  match u_mode u with
  | FieldModeSet =>
      _ ← put_item QueryUpdateFieldV2; _ ← PutVString (u_column u); _ ← PutVarUint32 (Z.b2z (IsArrayValue u));
      _ ← PutVarUint32 (zlen (u_values u)); put_values
  | FieldModeDrop => _ ← put_item QueryDropField; PutVString (u_column u)
  | FieldModeSetJson =>
      _ ← put_item QueryUpdateObject; _ ← PutVString (u_column u); _ ← PutVarUint32 (zlen (u_values u));
      _ ← PutVarUint32 (Z.b2z (IsArrayValue u)); put_values
  | FieldModeArrayPushBack | FieldModeArrayPushFront => fail (Throw errLogic)
  end.

Definition put_if (b : bool) (i : QueryItemType) : M WrSerializer unit := if b then put_item i else mret tt.

(** The parts of [Serialize]. *)
Definition put_levels (b : Body) : M WrSerializer unit :=
  _ ← (_ ← put_item QueryDebugLevel; PutVarUint32 (debugLevel_ b));
  if strictMode_ b =? 0 then mret tt else _ ← put_item QueryStrictMode; PutVarUint32 (strictMode_ b).

Definition put_limits (b : Body) : M WrSerializer unit :=
  _ ← if count_ b =? kDefaultLimit then mret tt else _ ← put_item QueryLimit; PutVarUint32 (count_ b);
  if start_ b =? kDefaultOffset then mret tt else _ ← put_item QueryOffset; PutVarUint32 (start_ b).

Definition put_options (b : Body) : M WrSerializer unit :=
  _ ← if calcTotal_ b =? 0 then mret tt else _ ← put_item QueryReqTotal; PutVarUintEnum (calcTotal_ b);
  _ ← put_filter (selectFilter_ b);
  _ ← put_if (explain_ b) QueryExplain; _ ← put_if (local_ b) QueryLocal; put_if (withRank_ b) QueryWithRank.

Definition put_function (f : bytes) : M WrSerializer unit := _ ← put_item QuerySelectFunction; PutVString f.

Definition serialize_body (joined : bool) (mode : Z) (b : Body) : M WrSerializer unit :=
  _ ← PutVString (namespace_ b);
  _ ← entries_Serialize (entries_ b);
  _ ← if has mode SkipAggregations then mret tt else put_all put_aggregation (aggregations_ b);
  _ ← if has mode SkipSortEntries then mret tt else put_sorting (forcedSortOrder_ b) (sortingEntries_ b);
  _ ← if has mode WithJoinEntries then serializeJoinEntries joined (joinEntries_ b) else mret tt;
  _ ← put_all (put_equal_position 0) (equalPositions_ b);
  _ ← put_bracket_positions 0 (container_ (entries_ b));
  _ ← if has mode SkipExtraParams then mret tt else put_levels b;
  _ ← put_all put_function (selectFunctions_ b);
  _ ← if has mode SkipLimitOffset then mret tt else put_limits b;
  _ ← if has mode SkipExtraParams then mret tt else put_options b;
  _ ← put_all put_update (updateFields_ b);
  put_item QueryEnd.

Fixpoint Serialize (joined : bool) (mode : Z) (q : Query) : M WrSerializer unit :=
  let '(mk_query b joins merges) := q in
  _ ← serialize_body joined mode b;
  _ ← if has mode SkipJoinQueries then mret tt
      else
        (fix go l :=
           match l with
           | [] => mret tt
           | (jt, jq) :: l =>
               _ ← if negb (has mode SkipLeftJoinQueries) || negb (jt =? LeftJoin)
                   then _ ← PutVarUint32 jt; Serialize true WithJoinEntries jq else mret tt;
               go l
           end) joins;
  if has mode SkipMergeQueries then mret tt
  else
    (fix go l :=
       match l with
       | [] => mret tt
       | (jt, mq) :: l =>
           _ ← PutVarUint32 jt; _ ← Serialize true (Z.land (Z.lor mode WithJoinEntries) (Z.lnot SkipSortEntries)) mq;
           go l
       end) merges.

(** ** Reading *)

(** [while (cnt--)]: every element takes a byte at least, so the length of the buffer is enough
    fuel. *)
Fixpoint get_times {A} (fuel : nat) (count : Z) (m : M Serializer A) : M Serializer (list A) :=
  match fuel with
  | O => fail OutOfFuel
  | S fuel =>
      if count <=? 0 then mret []
      else v ← m; vs ← get_times fuel (count - 1) m; mret (v :: vs)
  end.

Definition get_list {A} (count : Z) (m : M Serializer A) : M Serializer (list A) :=
  s ← get; get_times (S (length (buf_ s))) count m.

Definition GetVariant_ : M Serializer Variant := s ← get; GetVariant (2 * length (buf_ s)).

Definition get_op : M Serializer OpType := n ← GetVarUInt; lift (op_of_number n).
Definition get_cond : M Serializer CondType := n ← GetVarUInt; lift (cond_of_number n).

Definition get_knn_base (version : Z) : M Serializer (option Z * option Z) :=
  if negb (version =? kKnnParamsBinProtocolVersion) then fail (Throw errVersion)
  else
    mask ← GetUInt8;
    k ← if negb (Z.land mask 1 =? 0) then k ← GetVarUInt; mret (Some k) else mret None;
    r ← if negb (Z.land mask 2 =? 0) then r ← GetFloat; mret (Some r) else mret None;
    mret (k, r).

Definition KnnSearchParams_Deserialize : M Serializer KnnSearchParams :=
  type ← GetVarUInt;
  version ← GetVarUInt;
  if kKnnParamsBinProtocolVersion <? version then fail (Throw errVersion)
  else
    let type := u8 type in
    if type =? 0 then '(k, r) ← get_knn_base version; mret (KnnBase k r)
    else if type =? 1 then '(k, r) ← get_knn_base version; mret (KnnBruteForce k r)
    else if type =? 2 then '(k, r) ← get_knn_base version; ef ← GetVarUInt; mret (KnnHnsw k r ef)
    else if type =? 3 then '(k, r) ← get_knn_base version; n ← GetVarUInt; mret (KnnIvf k r n)
    else fail (Throw errAssert).

Definition deserializeValues (cond : CondType) : M Serializer (list Variant) :=
  cnt ← GetVarUInt;
  if decide (cond = CondDWithin) then
    if negb (cnt =? 3) then fail (Throw errParseBin)
    else x ← GetVariant_; y ← GetVariant_; d ← GetVariant_; mret [V_Tuple [x; y]; d]
  else get_list cnt GetVariant_.

(** [entries_.Append<T>(op, ...)] *)
Definition append_entry (op : OpType) (e : Entry) (b : Body) : M Serializer Body :=
  t ← lift (snd <$> entries_Append op e (entries_ b)); mret (set_entries t b).

Definition append_query_entry (op : OpType) (fieldName : bytes) (cond : CondType) (values : list Variant) (b : Body) : M Serializer Body :=
  qe ← lift (QueryEntry_make fieldName cond values); append_entry op (E_Query qe) b.

(** [BetweenFieldsQueryEntry::checkCondition] *)
Definition check_between (c : CondType) : result unit :=
  match c with CondAny | CondEmpty | CondDWithin | CondKnn => Fail (Throw errLogic) | _ => Ok tt end.

(** The constructor of [AggregateEntry] without sorting and limits. *)
Definition AggregateEntry_make (type : AggType) (fields : list bytes) : result AggregateEntry :=
  let ok := match type with
            | AggDistinct | AggFacet => negb (bool_decide (fields = []))
            | AggMin | AggMax | AggSum | AggAvg => zlen fields =? 1
            | AggCount | AggCountCached => bool_decide (fields = [])
            | AggUnknown => false
            end in
  if ok then Ok (mk_agg type fields [] kDefaultLimit kDefaultOffset) else Fail (Throw errQueryExec).

Definition if_facet (a : AggregateEntry) (a' : AggregateEntry) : result AggregateEntry :=
  if decide (a_type a = AggFacet) then Ok a' else Fail (Throw errQueryExec).
Definition AddSortingEntry (se : SortingEntry) (a : AggregateEntry) : result AggregateEntry :=
  if_facet a (mk_agg (a_type a) (a_fields a) (a_sorting a ++ [se]) (a_limit a) (a_offset a)).
Definition SetLimit (l : Z) (a : AggregateEntry) : result AggregateEntry :=
  if_facet a (mk_agg (a_type a) (a_fields a) (a_sorting a) l (a_offset a)).
Definition SetOffset (o : Z) (a : AggregateEntry) : result AggregateEntry :=
  if_facet a (mk_agg (a_type a) (a_fields a) (a_sorting a) (a_limit a) o).

(** The options of an aggregation; the first item of another type is put back. *)
Fixpoint aggregation_loop (fuel : nat) (a : AggregateEntry) : M Serializer AggregateEntry :=
  match fuel with
  | O => fail OutOfFuel
  | S fuel =>
      s ← get;
      if Eof s then mret a
      else
        n ← GetVarUInt;
        match item_of_number n with
        | Some QueryAggregationSort =>
            f ← GetVStringCopy; d ← GetVarUInt;
            a ← lift (AddSortingEntry (mk_se f (negb (d =? 0))) a); aggregation_loop fuel a
        | Some QueryAggregationLimit => v ← GetVarUInt; a ← lift (SetLimit (u32 v) a); aggregation_loop fuel a
        | Some QueryAggregationOffset => v ← GetVarUInt; a ← lift (SetOffset (u32 v) a); aggregation_loop fuel a
        | _ => _ ← SetPos (pos_ s); mret a
        end
  end.

Definition get_aggregation : M Serializer AggregateEntry :=
  type ← GetVarUInt; type ← lift (agg_of_number type);
  fieldsCount ← GetVarUInt;
  fields ← get_list fieldsCount GetVStringCopy;
  a ← lift (AggregateEntry_make type fields);
  s ← get;
  aggregation_loop (S (length (buf_ s))) a.

Definition to_lower (c : Z) : Z := if (65 <=? c) && (c <=? 90) then c + 32 else c.
Definition iequals (l r : bytes) : bool := bool_decide (map to_lower l = map to_lower r).

(** [FieldsNamesFilter::Add]: the filter, and whether the rank was asked for. *)
Definition filter_Add (field : bytes) (f : FieldsNamesFilter) : FieldsNamesFilter * bool :=
  if bool_decide (field = kAllRegularFieldsName) then
    (mk_fnf (if allVectorFields_ f then [] else fields_ f) true (allVectorFields_ f), false)
  else if iequals field kAllVectorFieldsName then
    (mk_fnf (if allRegularFields_ f then [] else fields_ f) (allRegularFields_ f) true, false)
  else if iequals field kRankFieldName then (f, true)
  else if negb (bool_decide (field = [])) && negb (allRegularFields_ f && allVectorFields_ f) then
    (mk_fnf (fields_ f ++ [field]) (allRegularFields_ f) (allVectorFields_ f), false)
  else (f, false).

Definition is_string_value (v : Variant) : bool := match v with V_String _ => true | _ => false end.

Definition UpdateEntry_make (column : bytes) (values : list Variant) (isArray : bool) (mode : FieldModifyMode) (isExpression : bool)
  : result UpdateEntry :=
  if bool_decide (column = []) then Fail (Throw errParams) else Ok (mk_ue column values isArray false mode isExpression).

(** [SetObject] *)
Definition SetObject_make (column : bytes) (values : list Variant) (isArray isExpression : bool) : result UpdateEntry :=
  if forallb is_string_value values then UpdateEntry_make column values isArray FieldModeSetJson isExpression else Fail (Throw errLogic).

(** The values of an update; each tells anew whether they are expressions. *)
Definition get_update_values (numValues : Z) : M Serializer (list Variant * bool) :=
  l ← get_list numValues (e ← GetVarUInt; v ← GetVariant_; mret (negb (e =? 0), v));
  mret (map snd l, from_option fst false (last l)).

Definition add_update (u : result UpdateEntry) (b : Body) : M Serializer Body :=
  u ← lift u; mret (set_updateFields (updateFields_ b ++ [u]) b).

Context (get_other : QueryItemType -> Body -> M Serializer Body).

(** The state of the loop: the query, the equal positions read so far, and [end]. *)
Definition LoopState : Type := Body * list (Z * list bytes).

Definition keep (b : Body) (eps : list (Z * list bytes)) : M Serializer (LoopState * bool) := mret ((b, eps), false).

Definition read_item (joined : bool) (qtype : QueryItemType) (st : LoopState) : M Serializer (LoopState * bool) :=
  let '(b, eps) := st in
  match qtype with
  | QueryCondition =>
      f ← GetVStringCopy; op ← get_op; c ← get_cond; vs ← deserializeValues c;
      b ← append_query_entry op f c vs b; keep b eps
  | QueryKnnCondition =>
      f ← GetVStringCopy; op ← get_op; v ← GetFloatVectorView; p ← KnnSearchParams_Deserialize; v ← lift (Span v);
      b ← append_entry op (E_Knn (D_Knn f (KnnVector v) p)) b; keep b eps
  | QueryKnnConditionExt =>
      f ← GetVStringCopy; op ← get_op; fmt ← GetVarUInt;
      let fmt := swrap 8 fmt in
      if fmt =? 1 then
        s ← GetVStringCopy; p ← KnnSearchParams_Deserialize;
        b ← append_entry op (E_Knn (D_Knn f (KnnString s) p)) b; keep b eps
      else if fmt =? 0 then
        v ← GetFloatVectorView; p ← KnnSearchParams_Deserialize; v ← lift (Span v);
        b ← append_entry op (E_Knn (D_Knn f (KnnVector v) p)) b; keep b eps
      else fail (Throw errParams)
  | QueryBetweenFieldsCondition =>
      op ← get_op; l ← GetVStringCopy; c ← get_cond; r ← GetVStringCopy;
      _ ← lift (check_between c);
      b ← append_entry op (E_BetweenFields (D_Between l c r)) b; keep b eps
  | QueryAlwaysFalseCondition => op ← get_op; b ← append_entry op E_AlwaysFalse b; keep b eps
  | QueryAlwaysTrueCondition => op ← get_op; b ← append_entry op E_AlwaysTrue b; keep b eps
  | QueryJoinCondition =>
      type ← GetVarUInt;
      if type =? LeftJoin then fail AssertFail
      else
        i ← GetVarUInt;
        b ← append_entry (if type =? OrInnerJoin then OpOr else OpAnd) (E_Join (Z.to_nat i)) b; keep b eps
  | QueryAggregation => a ← get_aggregation; keep (set_aggregations (aggregations_ b ++ [a]) b) eps
  | QueryDistinct =>
      f ← GetVStringCopy;
      if bool_decide (f = []) then keep b eps
      else b ← append_entry OpAnd (E_Query (mk_qe f [] CondAny false true)) b; keep b eps
  | QuerySortIndex =>
      e ← GetVStringCopy; d ← GetVarUInt;
      let b := if bool_decide (e = []) then b else set_sortingEntries (sortingEntries_ b ++ [mk_se e (negb (d =? 0))]) b in
      cnt ← GetVarUInt;
      if negb (cnt =? 0) && negb (zlen (sortingEntries_ b) =? 1) then fail (Throw errParams)
      else
        vs ← get_list cnt (v ← GetVariant_; if IsNullValue v then fail (Throw errParams) else mret v);
        keep (set_forcedSortOrder (forcedSortOrder_ b ++ vs) b) eps
  | QueryJoinOn =>
      if negb joined then fail (Throw errLogic)
      else
        op ← get_op; c ← get_cond; l ← GetVStringCopy; r ← GetVStringCopy;
        if decide (c = CondKnn) then fail (Throw errLogic)
        else keep (set_joinEntries (joinEntries_ b ++ [mk_qje op c l r]) b) eps
  | QueryDebugLevel => v ← GetVarUInt; keep (set_debugLevel (s32 v) b) eps
  | QueryStrictMode => v ← GetVarUInt; keep (set_strictMode (u32 v) b) eps
  | QueryLimit => v ← GetVarUInt; keep (set_count (u32 v) b) eps
  | QueryOffset => v ← GetVarUInt; keep (set_start (u32 v) b) eps
  | QueryReqTotal => v ← GetVarUInt; keep (set_calcTotal (u32 v) b) eps
  | QuerySelectFilter =>
      s ← GetVStringCopy;
      let '(f, rank) := filter_Add s (selectFilter_ b) in
      keep (set_withRank (withRank_ b || rank) (set_selectFilter f b)) eps
  | QueryEqualPosition =>
      pos ← GetVarUInt; cnt ← GetVarUInt;
      ep ← get_list (u32 cnt) GetVStringCopy; keep b (eps ++ [(u32 pos, ep)])
  | QueryExplain => keep (set_explain true b) eps
  | QueryLocal => keep (set_local true b) eps
  | QueryWithRank => keep (set_withRank true b) eps
  | QuerySelectFunction => s ← GetVStringCopy; keep (set_selectFunctions (selectFunctions_ b ++ [s]) b) eps
  | QueryDropField => f ← GetVStringCopy; b ← add_update (UpdateEntry_make f [] false FieldModeDrop false) b; keep b eps
  | QueryUpdateFieldV2 =>
      f ← GetVStringCopy; isArray ← GetVarUInt; n ← GetVarUInt; '(vs, e) ← get_update_values n;
      b ← add_update (UpdateEntry_make f vs (negb (isArray =? 0)) FieldModeSet e) b; keep b eps
  | QueryUpdateField =>
      f ← GetVStringCopy; n ← GetVarUInt; '(vs, e) ← get_update_values n;
      b ← add_update (UpdateEntry_make f vs (1 <? n) FieldModeSet e) b; keep b eps
  | QueryUpdateObject =>
      f ← GetVStringCopy; n ← GetVarUInt; isArray ← GetVarUInt; '(vs, e) ← get_update_values n;
      b ← add_update (SetObject_make f vs (isArray =? 1) e) b; keep b eps
  | QueryOpenBracket => op ← get_op; t ← lift (OpenBracket op [] (entries_ b)); keep (set_entries t b) eps
  | QueryCloseBracket => t ← lift (CloseBracket (entries_ b)); keep (set_entries t b) eps
  | QueryEnd => mret ((b, eps), true)
  | QuerySubQueryCondition | QueryFieldSubQueryCondition | QueryExpressions => b ← get_other qtype b; keep b eps
  | QueryFunctionSubQueryCondition | QueryFunction => fail (Throw errParseBin)
  | QueryAggregationSort | QueryAggregationOffset | QueryAggregationLimit => fail (Throw errParseBin)
  end.

Fixpoint item_loop (fuel : nat) (joined : bool) (st : LoopState) : M Serializer LoopState :=
  match fuel with
  | O => fail OutOfFuel
  | S fuel =>
      s ← get;
      if Eof s then mret st
      else
        n ← GetVarUInt;
        match item_of_number n with
        | None => fail (Throw errParseBin)
        | Some qtype =>
            '(st, fin) ← read_item joined qtype st;
            if fin : bool then mret st else item_loop fuel joined st
        end
  end.

(** A bracket is named by its position plus one, the root by 0; a position behind the last node is
    read out of bounds. *)
Definition add_equal_position (ep : Z * list bytes) (b : Body) : result Body :=
  let '(pos, fields) := ep in
  if pos =? 0 then Ok (set_equalPositions (equalPositions_ b ++ [fields]) b)
  else
    let i := Z.to_nat (pos - 1) in
    nd ← of_option Undefined (container_ (entries_ b) !! i);
    match storage_ nd with
    | Value _ => Fail (Throw errParseBin)
    | SubTree s eps =>
        let c := <[i := mk_node (operation nd) (SubTree s (eps ++ [fields]))]> (container_ (entries_ b)) in
        Ok (set_entries (mk_tree c (activeBrackets_ (entries_ b))) b)
    end.

Fixpoint add_equal_positions (eps : list (Z * list bytes)) (b : Body) : result Body :=
  match eps with [] => Ok b | ep :: eps => b ← add_equal_position ep b; add_equal_positions eps b end.

Definition deserialize (joined : bool) (b : Body) : M Serializer Body :=
  s ← get;
  '(b, eps) ← item_loop (S (length (buf_ s))) joined (b, []);
  lift (add_equal_positions eps b).

Definition Body_make (nsName : bytes) : Body :=
  mk_body nsName kDefaultOffset kDefaultLimit 0 (mk_tree [] []) [] [] [] [] [] [] [] (mk_fnf [] false false) false false false 0 0.

Definition ContainsKnnCondition (b : Body) : bool :=
  existsb (fun nd => match storage_ nd with Value (E_Knn _) => true | _ => false end) (container_ (entries_ b)).

Definition adoptNested (b nq : Body) : Body :=
  set_debugLevel (debugLevel_ b) (set_explain (explain_ b) (set_strictMode (strictMode_ b) nq)).

(** The join goes to the last merged query, if there is one. *)
Definition add_join (joinType : Z) (q1 : Body) (q : Query) : Query :=
  let '(mk_query b joins merges) := q in
  match last merges with
  | None => mk_query b (joins ++ [(joinType, mk_query (adoptNested b q1) [] [])]) merges
  | Some (jt, mk_query mb mjoins mmerges) =>
      mk_query b joins (removelast merges ++ [(jt, mk_query mb (mjoins ++ [(joinType, mk_query (adoptNested mb q1) [] [])]) mmerges)])
  end.

Fixpoint nested_loop (fuel : nat) (q : Query) : M Serializer Query :=
  match fuel with
  | O => fail OutOfFuel
  | S fuel =>
      s ← get;
      if Eof s then mret q
      else
        joinType ← GetVarUInt;
        let joinType := u32 joinType in
        ns ← GetVStringCopy;
        q1 ← deserialize true (Body_make ns);
        let q1 := adoptNested (body q) q1 in
        if joinType =? Merge then
          let '(mk_query b joins merges) := q in
          nested_loop fuel (mk_query b joins (merges ++ [(joinType, mk_query q1 [] [])]))
        else if ContainsKnnCondition q1 then fail (Throw errQueryExec)
        else nested_loop fuel (add_join joinType q1 q)
  end.

Definition checkJoinEntries (q : Query) : result unit :=
  let '(mk_query b joins _) := q in
  if forallb (fun nd => match storage_ nd with Value (E_Join i) => (i <? length joins)%nat | _ => true end) (container_ (entries_ b))
  then Ok tt else Fail (Throw errQueryExec).

Definition checkAllJoinEntries (q : Query) : result unit :=
  let '(mk_query _ _ merges) := q in
  _ ← checkJoinEntries q;
  foldl (fun acc m => _ ← acc; checkJoinEntries (snd m)) (Ok tt) merges.

Definition Deserialize : M Serializer Query :=
  ns ← GetVStringCopy;
  b ← deserialize false (Body_make ns);
  s ← get;
  q ← nested_loop (S (length (buf_ s))) (mk_query b [] []);
  _ ← lift (checkAllJoinEntries q);
  mret q.

End QueryBinary.
