(* ===== verification/QueryFormat.v ===== *)
(** The format of a query in the binary protocol, as functions from the parts of a query to bytes
    (the conditions by their forest), and the vocabulary of its round trip: what a writer and a
    reader have to do with some bytes ([sends]), and what the loop over the items makes of them
    ([loads]). *)

From S2P Require Import Prelude Varint WrSerializer Serializer Variant ExpressionTree ExpressionForest ExpressionBuild QueryEntries QueryBinary.

(** ** Writers and readers together *)

(** [sends bs m g a]: the writer [m] appends the bytes [bs] and the reader [g] gets [a] from them.
    The room that the writer asks for is at most ten times what it writes. *)
Definition sends {A} (bs : bytes) (m : M WrSerializer unit) (g : M Serializer A) (a : A) : Prop :=
  writes (10 * zlen bs) m bs /\ reads g bs a.

Lemma sends_intro {A} n m (g : M Serializer A) bs a :
  writes n m bs -> reads g bs a -> n <= 10 * zlen bs -> sends bs m g a.
Proof. intros H1 H2 Hn. split; [by eapply writes_weaken | done]. Qed.

Lemma sends_ret {A} (a : A) : sends [] (mret tt) (mret a) a.
Proof. split; [apply writes_ret | apply reads_ret]. Qed.

Lemma sends_bind {A B} b1 b2 m1 m2 (g1 : M Serializer A) (g2 : A -> M Serializer B) a b :
  sends b1 m1 g1 a -> sends b2 m2 (g2 a) b -> sends (b1 ++ b2) (_ ← m1; m2) (g1 ≫= g2) b.
Proof.
  intros (W1 & R1) (W2 & R2). split; [| by eapply reads_bind].
  rewrite zlen_app, Z.mul_add_distr_l. by apply writes_bind.
Qed.

(** A reader that changes nothing. *)
Definition pure {A} (m : M Serializer A) (a : A) : Prop := forall s, m s = (Ok a, s).

Lemma sends_pure {A B} bs m (g : M Serializer A) (h : A -> M Serializer B) a b :
  sends bs m g a -> pure (h a) b -> sends bs m (g ≫= h) b.
Proof.
  intros (W & R) H. split; [done |]. rewrite <- (app_nil_r bs).
  apply (reads_bind _ _ _ _ _ _ R). intros pre rest Hl. rewrite zlen_nil, Z.add_0_r. apply H.
Qed.

Lemma sends_fmap {A B} bs m (g : M Serializer A) (f : A -> B) a :
  sends bs m g a -> sends bs m (x ← g; mret (f x)) (f a).
Proof. intros H. by apply (sends_pure _ _ _ _ _ _ H). Qed.

Lemma sends_lift {A B} bs m (g : M Serializer A) (f : A -> result B) a b :
  sends bs m g a -> f a = Ok b -> sends bs m (x ← g; lift (f x)) b.
Proof. intros H E. apply (sends_pure _ _ _ _ _ _ H). intros s. unfold lift. by rewrite E. Qed.

Lemma pure_bind {A B} (m : M Serializer A) (h : A -> M Serializer B) a b :
  pure m a -> pure (h a) b -> pure (m ≫= h) b.
Proof. intros H1 H2 s. by rewrite (M_bind_ok _ _ _ _ _ (H1 s)). Qed.

Lemma writes_ext n m m' bs : (forall w, m w = m' w) -> writes n m bs -> writes n m' bs.
Proof. intros E (W1 & W2 & W). split_and!; [done | done |]. intros w. rewrite <- E. apply W. Qed.

(** Sequences of writers are equal up to their brackets. *)
Lemma M_bind_assoc {S A B C} (m : M S A) (f : A -> M S B) (g : B -> M S C) s :
  ((m ≫= f) ≫= g) s = (m ≫= (fun x => f x ≫= g)) s.
Proof. unfold mbind, M_bind. by destruct (m s) as [[a |] s']. Qed.

Lemma sends_assoc {A} bs (m1 m2 m3 : M WrSerializer unit) (g : M Serializer A) a :
  sends bs (_ ← m1; _ ← m2; m3) g a -> sends bs (_ ← (_ ← m1; m2); m3) g a.
Proof. intros [W R]. split; [| done]. apply (writes_ext _ _ _ _ (fun w => eq_sym (M_bind_assoc _ _ _ w)) W). Qed.

(** *** Numbers and strings *)

Definition enc_str (s : bytes) : bytes := uint64_pack (zlen s) ++ s.

Lemma uint64_pack_len v : 0 <= v < 2 ^ 64 -> 1 <= zlen (uint64_pack v).
Proof. intros H. destruct (uint64_pack_shape v H) as (_ & Hl & _). unfold zlen. lia. Qed.

Lemma sends_varuint64 v : 0 <= v < 2 ^ 64 -> sends (uint64_pack v) (PutVarUint64 v) GetVarUInt v.
Proof.
  intros H. pose proof (uint64_pack_len v H).
  eapply sends_intro; [apply (rt_put RoundTrip_varuint64 v H) | by apply GetVarUInt_reads |]; cbn; lia.
Qed.

Lemma sends_varuint32 v : 0 <= v < 2 ^ 32 -> sends (uint64_pack v) (PutVarUint32 v) GetVarUInt v.
Proof.
  intros H. pose proof (uint64_pack_len v ltac:(lia)).
  eapply sends_intro; [apply (rt_put RoundTrip_varuint32 v H) | apply GetVarUInt_reads; lia |]; cbn; lia.
Qed.

(** A negative number of 32 bits. *)
Lemma sends_int n :
  - 2 ^ 31 <= n < 2 ^ 31 -> sends (uint64_pack (u32 n)) (PutVarUint32 n) GetVarUInt (u32 n) /\ s32 (u32 n) = n.
Proof.
  intros Hn. split; [| wrap_lia]. pose proof (u32_bound n) as Hb.
  pose proof (uint64_pack_len (u32 n) ltac:(lia)).
  eapply sends_intro; [apply writes_varuint32 | apply GetVarUInt_reads; lia |]; lia.
Qed.

Lemma sends_enum v : 0 <= v < 128 -> sends (uint64_pack v) (PutVarUintEnum v) GetVarUInt v.
Proof.
  intros H. pose proof (uint64_pack_len v ltac:(lia)).
  eapply sends_intro; [by apply writes_enum | apply GetVarUInt_reads; lia |]; cbn; lia.
Qed.

Lemma sends_u8 v : 0 <= v < 2 ^ 8 -> sends (le_bytes 1 v) (PutUInt8 v) GetUInt8 v.
Proof. intros H. eapply sends_intro; [apply (rt_put RoundTrip_u8 v H) | by apply GetUInt8_reads | done]. Qed.

Lemma sends_float v : 0 <= v < 2 ^ 32 -> sends (le_bytes 4 v) (PutFloat v) GetFloat v.
Proof. intros H. eapply sends_intro; [apply (rt_put RoundTrip_float v H) | by apply GetFloat_reads | done]. Qed.

Lemma enc_str_len s : zlen s < 2 ^ 32 -> 1 <= zlen (enc_str s).
Proof.
  intros H. pose proof (zlen_nonneg s). pose proof (uint64_pack_len (zlen s) ltac:(lia)).
  unfold enc_str. rewrite zlen_app. lia.
Qed.

Lemma sends_vstring s : zlen s < 2 ^ 32 -> sends (enc_str s) (PutVString s) GetVStringCopy s.
Proof.
  intros H. pose proof (zlen_nonneg s). pose proof (uint64_pack_len (zlen s) ltac:(lia)). unfold enc_str.
  eapply sends_intro; [by apply writes_vstring | by apply GetVStringCopy_reads |]. rewrite zlen_app. lia.
Qed.

Lemma enc_floatvector_len v :
  floatvector_ok v ->
  1 <= zlen (enc_floatvector v) /\ room_floatvector v <= 10 * zlen (enc_floatvector v).
Proof.
  unfold room_floatvector. intros H. destruct v as [| dim | data]; cbn [floatvector_ok enc_floatvector] in *.
  - done.
  - pose proof (uint64_pack_len (2 * dim + 1) ltac:(lia)). lia.
  - destruct H as [H _]. rewrite zlen_app, put_floats_length.
    pose proof (uint64_pack_len (2 * zlen data) ltac:(lia)). lia.
Qed.

Lemma sends_floatvector v :
  floatvector_ok v -> sends (enc_floatvector v) (PutFloatVectorView v) GetFloatVectorView v.
Proof.
  intros H. eapply sends_intro; [by apply floatvector_writes | by apply floatvector_reads |].
  apply enc_floatvector_len, H.
Qed.

(** *** Values *)

(** A value: its encoding pays for the room of the writer and for the fuel of the reader. *)
Lemma variant_sizes kv :
  variant_ok kv ->
  1 <= zlen (enc_variant kv) /\ room_variant kv <= 10 * zlen (enc_variant kv) /\
  1 + Z.of_nat (fuel_variant kv) <= 2 * zlen (enc_variant kv).
Proof.
  induction kv as [kv Hatom | vs IH] using Variant_nested_ind; intros Hok;
    pose proof (ToNumber_bound (Type_ kv)) as Ht || pose proof (ToNumber_bound KTuple) as Ht.
  - pose proof (uint64_pack_len (ToNumber (Type_ kv)) ltac:(lia)) as Hp.
    destruct kv as [v | v | s | b | | v | | vs | u | v | v]; try (by destruct (Hatom vs)); try done;
      cbn [enc_variant room_variant fuel_variant variant_ok Type_] in *; autorewrite with zlen.
    + unfold sint64_pack. rewrite zigzag_encode64_spec by done.
      pose proof (uint64_pack_len _ (zigzag_spec_bound 64 v eq_refl Hok)). lia.
    + pose proof (zlen_nonneg s). pose proof (uint64_pack_len (zlen s) ltac:(lia)). lia.
    + unfold sint64_pack. rewrite zigzag_encode64_spec by lia.
      pose proof (uint64_pack_len _ (zigzag_spec_bound 64 v eq_refl ltac:(lia))). lia.
    + destruct (enc_floatvector_len v Hok). lia.
  - pose proof (uint64_pack_len (ToNumber KTuple) ltac:(lia)) as Hp.
    cbn [variant_ok] in Hok. destruct Hok as [Hl Hok]. pose proof (zlen_nonneg vs).
    change VariantArray_max_size with 2147483647 in Hl. pose proof (uint64_pack_len (zlen vs) ltac:(lia)). cbn [enc_variant room_variant fuel_variant Type_].
    autorewrite with zlen.
    assert (foldr (fun v acc => room_variant v + acc) 0 vs
              <= 10 * zlen (foldr (fun v acc => enc_variant v ++ acc) [] vs) /\
            Z.of_nat (foldr (fun v acc => S (fuel_variant v + acc)) 0%nat vs)
              <= 2 * zlen (foldr (fun v acc => enc_variant v ++ acc) [] vs)) as [H1 H2]; [| lia].
    clear - IH Hok. induction IH as [| v vs Hv _ IHvs]; [done |]. destruct Hok as [Hok Hoks].
    destruct (Hv Hok) as (H1 & H2 & H3). destruct (IHvs Hoks) as [H4 H5]. cbn [foldr].
    rewrite zlen_app. lia.
Qed.

(** The fuel of a reader grows with its buffer. *)
Lemma reads_fuel {A} (m : nat -> M Serializer A) bs a :
  (forall n, (length bs <= n)%nat -> reads (m n) bs a) -> reads (s ← get; m (length (buf_ s))) bs a.
Proof.
  intros H pre rest Hl. rewrite M_bind_get. cbn [buf_]. apply H; [| done]. rewrite !length_app. lia.
Qed.

Lemma sends_variant v : variant_ok v -> sends (enc_variant v) (PutVariant v) GetVariant_ v.
Proof.
  intros H. destruct (variant_sizes v H) as (H1 & H2 & H3).
  eapply sends_intro; [by apply variant_writes | | done].
  apply (reads_fuel (fun n => GetVariant (2 * n))). intros n Hn. apply variant_reads; [done |].
  unfold zlen in H3. lia.
Qed.

(** *** Lists *)

Definition enc_all {A} (enc : A -> bytes) (l : list A) : bytes := foldr (fun x acc => enc x ++ acc) [] l.

Definition enc_list {A} (enc : A -> bytes) (l : list A) : bytes := uint64_pack (zlen l) ++ enc_all enc l.

(** The elements take a byte at least, so the buffer is enough fuel. *)
Lemma sends_all {A B} (enc : A -> bytes) (put : A -> M WrSerializer unit) (get : M Serializer B) (f : A -> B) l :
  Forall (fun x => sends (enc x) (put x) get (f x) /\ 1 <= zlen (enc x)) l ->
  sends (enc_all enc l) (put_all put l) (get_list (zlen l) get) (map f l).
Proof.
  intros Hl.
  assert (zlen l <= zlen (enc_all enc l) /\ writes (10 * zlen (enc_all enc l)) (put_all put l) (enc_all enc l) /\
    forall n, (length l < n)%nat -> reads (get_times n (zlen l) get) (enc_all enc l) (map f l)) as (H1 & H2 & H3).
  { induction Hl as [| x l [(W1 & R1) K1] _ (K2 & W2 & R2)].
    - split_and!; [done | apply writes_ret |]. intros [| n] Hn; [lia | apply reads_ret].
    - change (enc_all enc (x :: l)) with (enc x ++ enc_all enc l). autorewrite with zlen.
      pose proof (zlen_nonneg l). split_and!; [lia | |].
      + rewrite Z.mul_add_distr_l. by apply writes_bind.
      + intros [| n] Hn; [lia |]. cbn [get_times length map] in *. rewrite (proj2 (Z.leb_gt _ _)) by lia.
        eapply reads_bind; [exact R1 |]. cbv beta. replace (1 + zlen l - 1) with (zlen l) by lia.
        apply (reads_fmap _ (cons (f x))), R2. lia. }
  split; [done |]. apply (reads_fuel (fun n => get_times (S n) (zlen l) get)).
  intros n Hn. apply H3. unfold zlen in *. lia.
Qed.

(** A list with its length before it, as 32 bits. *)
Lemma sends_list {A} (enc : A -> bytes) (put : A -> M WrSerializer unit) (get : M Serializer A) l :
  zlen l < 2 ^ 32 -> Forall (fun x => sends (enc x) (put x) get x /\ 1 <= zlen (enc x)) l ->
  sends (enc_list enc l) (_ ← PutVarUint32 (zlen l); put_all put l) (n ← GetVarUInt; get_list n get) l.
Proof.
  intros Hn Hl. pose proof (zlen_nonneg l). apply sends_bind with (zlen l); [apply sends_varuint32; lia |].
  rewrite <- (map_id l) at 4. by apply sends_all.
Qed.

(** What the lists of a query hold. *)
Definition str_ok (s : bytes) : Prop := zlen s < 2 ^ 32.
Definition strs_ok (l : list bytes) : Prop := zlen l < 2 ^ 32 /\ Forall str_ok l.
Definition values_ok (l : list Variant) : Prop := zlen l < 2 ^ 32 /\ Forall variant_ok l.

Lemma sends_strs l :
  strs_ok l ->
  sends (enc_list enc_str l) (_ ← PutVarUint32 (zlen l); put_all PutVString l) (n ← GetVarUInt; get_list n GetVStringCopy) l.
Proof.
  intros [Hn Hl]. apply sends_list; [done |]. eapply Forall_impl; [exact Hl |]. intros s Hs.
  split; [by apply sends_vstring | by apply enc_str_len].
Qed.

Lemma sends_values l :
  values_ok l ->
  sends (enc_list enc_variant l) (_ ← PutVarUint32 (zlen l); put_all PutVariant l) (n ← GetVarUInt; get_list n GetVariant_) l.
Proof.
  intros [Hn Hl]. apply sends_list; [done |]. eapply Forall_impl; [exact Hl |]. intros v Hv.
  split; [by apply sends_variant | by apply variant_sizes].
Qed.

(** *** Enumerators *)

Definition enc_item (i : QueryItemType) : bytes := uint64_pack (item_number i).
Definition enc_op (op : OpType) : bytes := uint64_pack (op_number op).
Definition enc_cond (c : CondType) : bytes := uint64_pack (cond_number c).

Lemma item_number_bound i : 0 <= item_number i < 128.
Proof. by destruct i. Qed.
Lemma item_of_item_number i : item_of_number (item_number i) = Some i.
Proof. by destruct i. Qed.
Lemma enc_item_length i : (0 < length (enc_item i))%nat.
Proof. destruct i; apply Nat.lt_0_succ. Qed.
Lemma enc_item_len i : 1 <= zlen (enc_item i).
Proof. pose proof (enc_item_length i). unfold zlen. lia. Qed.

Lemma enc_item_reads i : reads GetVarUInt (enc_item i) (item_number i).
Proof. pose proof (item_number_bound i). apply GetVarUInt_reads. lia. Qed.

Lemma sends_op op : sends (enc_op op) (put_op op) get_op op.
Proof. by destruct op; (eapply sends_lift; [by apply sends_enum |]). Qed.

Lemma sends_cond c : sends (enc_cond c) (put_cond c) get_cond c.
Proof. by destruct c; (eapply sends_lift; [by apply sends_enum |]). Qed.

Lemma agg_number_ok a : a <> AggUnknown -> 0 <= agg_number a < 128 /\ agg_of_number (agg_number a) = Ok a.
Proof. by destruct a. Qed.

#[local] Opaque PutVarUintEnum PutVarUint32 PutVarUint64 PutVString PutUInt8 PutFloat PutFloatVectorView PutVariant.

(** ** The format *)

Section Format.
Context {Y : Type}.

Definition enc_knn_base (k radius : option Z) : bytes :=
  le_bytes 1 (Z.lor (if k is Some _ then 1 else 0) (if radius is Some _ then 2 else 0)) ++
  (if k is Some k then uint64_pack k else []) ++ (if radius is Some r then le_bytes 4 r else []).

Definition enc_params (p : KnnSearchParams) : bytes :=
  match p with
  | KnnBase k r => uint64_pack 0 ++ uint64_pack 1 ++ enc_knn_base k r
  | KnnBruteForce k r => uint64_pack 1 ++ uint64_pack 1 ++ enc_knn_base k r
  | KnnHnsw k r ef => uint64_pack 2 ++ uint64_pack 1 ++ enc_knn_base k r ++ uint64_pack ef
  | KnnIvf k r nprobe => uint64_pack 3 ++ uint64_pack 1 ++ enc_knn_base k r ++ uint64_pack nprobe
  end.

Definition enc_data (d : KnnData) : bytes :=
  match d with
  | KnnVector v => uint64_pack 0 ++ enc_floatvector (View v)
  | KnnString s => uint64_pack 1 ++ enc_str s
  end.

(** The point of a distance travels as its coordinates. *)
Definition enc_values (c : CondType) (vs : list Variant) : bytes :=
  enc_cond c ++
  match c, vs with
  | CondDWithin, [V_Tuple [x; y]; d] => uint64_pack 3 ++ enc_variant x ++ enc_variant y ++ enc_variant d
  | _, _ => enc_list enc_variant vs
  end.

Definition enc_entry (op : OpType) (e : Entry (EntryData Y)) : bytes :=
  match e with
  | E_Query qe => enc_item QueryCondition ++ enc_str (fieldName_ qe) ++ enc_op op ++ enc_values (condition_ qe) (values_ qe)
  | E_Join i =>
      enc_item QueryJoinCondition ++ uint64_pack (if decide (op = OpAnd) then InnerJoin else OrInnerJoin) ++ uint64_pack (Z.of_nat i)
  | E_BetweenFields (D_Between l c r) => enc_item QueryBetweenFieldsCondition ++ enc_op op ++ enc_str l ++ enc_cond c ++ enc_str r
  | E_AlwaysFalse => enc_item QueryAlwaysFalseCondition ++ enc_op op
  | E_AlwaysTrue => enc_item QueryAlwaysTrueCondition ++ enc_op op
  | E_Knn (D_Knn f d p) => enc_item QueryKnnConditionExt ++ enc_str f ++ enc_op op ++ enc_data d ++ enc_params p
  | _ => []
  end.

(** A bracket is its conditions between two items. *)
Fixpoint enc_condition (x : tree OpType EqualPositions (Entry (EntryData Y))) : bytes :=
  match x with
  | Leaf op e => enc_entry op e
  | Sub op _ _ ch =>
      (enc_item QueryOpenBracket ++ enc_op op) ++ foldr (fun y acc => enc_condition y ++ acc) [] ch ++ enc_item QueryCloseBracket
  end.

Definition enc_conditions (f : list (tree OpType EqualPositions (Entry (EntryData Y)))) : bytes := enc_all enc_condition f.

Definition enc_option (i : QueryItemType) (n default : Z) : bytes :=
  if n =? default then [] else enc_item i ++ uint64_pack n.

Definition enc_agg_sorting (se : SortingEntry) : bytes :=
  enc_item QueryAggregationSort ++ enc_str (expression se) ++ uint64_pack (Z.b2z (desc se)).

Definition enc_agg_options (a : AggregateEntry) : bytes :=
  enc_all enc_agg_sorting (a_sorting a) ++ enc_option QueryAggregationLimit (a_limit a) kDefaultLimit ++
  enc_option QueryAggregationOffset (a_offset a) kDefaultOffset.

Definition enc_aggregation (a : AggregateEntry) : bytes :=
  enc_item QueryAggregation ++ uint64_pack (agg_number (a_type a)) ++ uint64_pack (zlen (a_fields a)) ++
  enc_all enc_str (a_fields a) ++ enc_agg_options a.

Definition enc_sorting_entry (forced : list Variant) (se : SortingEntry) : bytes :=
  enc_item QuerySortIndex ++ enc_str (expression se) ++ uint64_pack (Z.b2z (desc se)) ++ enc_list enc_variant forced.

Definition enc_sorting (forced : list Variant) (l : list SortingEntry) : bytes :=
  match l with [] => [] | se :: l => enc_sorting_entry forced se ++ enc_all (enc_sorting_entry []) l end.

Definition enc_join_entry (e : QueryJoinEntry) : bytes :=
  enc_item QueryJoinOn ++ enc_op (j_op e) ++ enc_cond (j_cond e) ++ enc_str (j_left e) ++ enc_str (j_right e).

Definition enc_position (pos : Z) (ep : list bytes) : bytes :=
  enc_item QueryEqualPosition ++ uint64_pack pos ++ enc_list enc_str ep.

Fixpoint enc_bracket_positions (i : nat) (c : list (Node OpType EqualPositions (Entry (EntryData Y)))) : bytes :=
  match c with
  | [] => []
  | nd :: c =>
      (match storage_ nd with SubTree _ p => enc_all (enc_position (Z.of_nat i + 1)) p | Value _ => [] end) ++
      enc_bracket_positions (S i) c
  end.

Definition enc_field (s : bytes) : bytes := enc_item QuerySelectFilter ++ enc_str s.

Definition enc_filter (f : FieldsNamesFilter) : bytes :=
  enc_all enc_field (fields_ f) ++ (if allRegularFields_ f then enc_field kAllRegularFieldsName else []) ++
  (if allVectorFields_ f then enc_field kAllVectorFieldsName else []).

Definition enc_update (u : UpdateEntry) : bytes :=
  let vals := enc_all (fun v => uint64_pack (Z.b2z (u_isExpression u)) ++ enc_variant v) (u_values u) in
  match u_mode u with
  | FieldModeSet =>
      enc_item QueryUpdateFieldV2 ++ enc_str (u_column u) ++ uint64_pack (Z.b2z (u_isArray u)) ++
      uint64_pack (zlen (u_values u)) ++ vals
  | FieldModeDrop => enc_item QueryDropField ++ enc_str (u_column u)
  | FieldModeSetJson =>
      enc_item QueryUpdateObject ++ enc_str (u_column u) ++ uint64_pack (zlen (u_values u)) ++
      uint64_pack (Z.b2z (u_isArray u)) ++ vals
  | FieldModeArrayPushBack | FieldModeArrayPushFront => []
  end.

Definition enc_if (b : bool) (i : QueryItemType) : bytes := if b then enc_item i else [].

(** The forest of the conditions: that of their vector. *)
Definition conditions (b : @Body Y) : list (tree OpType EqualPositions (Entry (EntryData Y))) :=
  read_forest (length (container_ (entries_ b))) (container_ (entries_ b)).

(** A query without its nested ones. *)
Definition enc_body (joined : bool) (b : @Body Y) : bytes :=
  enc_str (namespace_ b) ++
  enc_conditions (conditions b) ++
  enc_all enc_aggregation (aggregations_ b) ++
  enc_sorting (forcedSortOrder_ b) (sortingEntries_ b) ++
  (if joined then enc_all enc_join_entry (joinEntries_ b) else []) ++
  enc_all (enc_position 0) (equalPositions_ b) ++
  enc_bracket_positions 0 (container_ (entries_ b)) ++
  ((enc_item QueryDebugLevel ++ uint64_pack (u32 (debugLevel_ b))) ++ enc_option QueryStrictMode (strictMode_ b) 0) ++
  enc_all (fun s => enc_item QuerySelectFunction ++ enc_str s) (selectFunctions_ b) ++
  (enc_option QueryLimit (count_ b) kDefaultLimit ++ enc_option QueryOffset (start_ b) kDefaultOffset) ++
  (enc_option QueryReqTotal (calcTotal_ b) 0 ++ enc_filter (selectFilter_ b) ++
   enc_if (explain_ b) QueryExplain ++ enc_if (local_ b) QueryLocal ++ enc_if (withRank_ b) QueryWithRank) ++
  enc_all enc_update (updateFields_ b) ++
  enc_item QueryEnd.

(** The nested queries follow with their join types: the joins, and every merged query with its
    own joins. *)
Definition enc_join (j : Z * @Query Y) : bytes := uint64_pack (fst j) ++ enc_body true (body (snd j)).

Definition enc_merge (m : Z * @Query Y) : bytes :=
  let '(mk_query mb joins _) := snd m in (uint64_pack (fst m) ++ enc_body true mb) ++ enc_all enc_join joins.

Definition enc_query (q : @Query Y) : bytes :=
  let '(mk_query b joins merges) := q in enc_body false b ++ enc_all enc_join joins ++ enc_all enc_merge merges.

End Format.

(** ** The loop over the items *)

Definition agg_option (i : QueryItemType) : bool :=
  match i with QueryAggregationSort | QueryAggregationLimit | QueryAggregationOffset => true | _ => false end.

(** What follows an aggregation: an item that is not one of its options. *)
Definition starts (bs : bytes) : Prop := exists i r, bs = enc_item i ++ r /\ agg_option i = false.

Lemma starts_app bs1 bs2 : starts bs1 -> starts (bs1 ++ bs2).
Proof. intros (i & r & -> & H). exists i, (r ++ bs2). by rewrite app_assoc. Qed.

(** [reads] where another item follows. *)
Definition reads_before {A} (m : M Serializer A) (bs : bytes) (a : A) : Prop :=
  forall pre rest, starts rest -> zlen (pre ++ bs ++ rest) < 2 ^ 32 ->
    m (mk_ser (pre ++ bs ++ rest) (zlen pre)) =
      (Ok a, mk_ser (pre ++ bs ++ rest) (zlen pre + zlen bs)).

Lemma reads_before_bind {A B} (m : M Serializer A) (k : A -> M Serializer B) bs1 bs2 a b :
  reads m bs1 a -> reads_before (k a) bs2 b -> reads_before (m ≫= k) (bs1 ++ bs2) b.
Proof.
  intros H1 H2 pre rest Hs Hl. rewrite <- app_assoc in *.
  rewrite (M_bind_ok _ _ _ _ _ (H1 pre (bs2 ++ rest) Hl)).
  specialize (H2 (pre ++ bs1) rest Hs). rewrite <- app_assoc, (zlen_app pre bs1) in H2.
  rewrite H2 by done. by rewrite (zlen_app bs1), Z.add_assoc.
Qed.

Section Loop.
Context {Y : Type} (get_other : QueryItemType -> @Body Y -> M Serializer (@Body Y)) (joined : bool).

Notation LoopState := (@LoopState Y).
Notation item_loop := (item_loop get_other).
Notation read_item := (read_item get_other).

(** [loads bs m st st']: the writer puts the bytes [bs], which are whole items, and the loop goes
    over them from the state [st] to the state [st']. *)
Definition loads (bs : bytes) (m : M WrSerializer unit) (st st' : LoopState) : Prop :=
  (bs = [] \/ starts bs) /\ writes (10 * zlen bs) m bs /\
  forall bs2 r, starts bs2 ->
    (forall fuel, (length bs2 < fuel)%nat -> reads (item_loop fuel joined st') bs2 r) ->
    forall fuel, (length (bs ++ bs2) < fuel)%nat -> reads (item_loop fuel joined st) (bs ++ bs2) r.

Lemma loads_ret st : loads [] (mret tt) st st.
Proof. split_and!; [by left | apply writes_ret |]. intros bs2 r _ H fuel Hf. by apply H. Qed.

Lemma loads_bind b1 b2 m1 m2 st st1 st2 :
  loads b1 m1 st st1 -> loads b2 m2 st1 st2 -> loads (b1 ++ b2) (_ ← m1; m2) st st2.
Proof.
  intros (S1 & W1 & R1) (S2 & W2 & R2). split_and!.
  - destruct S1 as [-> | S1]; [done |]. right. by apply starts_app.
  - rewrite zlen_app, Z.mul_add_distr_l. by apply writes_bind.
  - intros bs r Hs H fuel Hf. rewrite <- app_assoc in *. apply R1; [| | done].
    + destruct S2 as [-> | S2]; [done |]. by apply starts_app.
    + intros fuel' Hf'. by apply R2.
Qed.

Lemma loads_ext bs m m' st st' : (forall w, m w = m' w) -> loads bs m st st' -> loads bs m' st st'.
Proof. intros E (Hs & W & R). split_and!; [done | by eapply writes_ext | done]. Qed.

Lemma loads_if (b : bool) bs m st st' :
  (b = true -> loads bs m st st') -> (b = false -> st = st') ->
  loads (if b then bs else []) (if b then m else mret tt) st st'.
Proof. intros H1 H2. destruct b; [by apply H1 |]. rewrite H2 by done. apply loads_ret. Qed.

Lemma loads_unless (b : bool) bs m st st' :
  (b = false -> loads bs m st st') -> (b = true -> st = st') ->
  loads (if b then [] else bs) (if b then mret tt else m) st st'.
Proof. intros H1 H2. destruct b; [| by apply H1]. rewrite H2 by done. apply loads_ret. Qed.

Lemma item_loop_step i st st' fuel bs bs2 r :
  starts bs2 -> reads_before (read_item joined i st) bs (st', false) ->
  reads (item_loop fuel joined st') bs2 r ->
  reads (item_loop (S fuel) joined st) ((enc_item i ++ bs) ++ bs2) r.
Proof.
  intros Hs Hi Hr pre rest Hl. pose proof (item_number_bound i) as Hb.
  pose proof (enc_item_len i) as Hp. cbn [QueryBinary.item_loop].
  rewrite M_bind_get. unfold Eof, len_. cbn [buf_ pos_]. rewrite (proj2 (Z.leb_gt _ _)).
  2: { pose proof (zlen_nonneg bs); pose proof (zlen_nonneg bs2); pose proof (zlen_nonneg rest).
       autorewrite with zlen. lia. }
  rewrite <- !app_assoc in *.
  rewrite (M_bind_ok _ _ _ _ _ (enc_item_reads i pre (bs ++ bs2 ++ rest) Hl)). rewrite item_of_item_number. cbn beta iota.
  specialize (Hi (pre ++ enc_item i) (bs2 ++ rest) (starts_app _ _ Hs)).
  rewrite <- !app_assoc in Hi. rewrite <- zlen_app, (M_bind_ok _ _ _ _ _ (Hi Hl)). cbn beta iota.
  specialize (Hr (pre ++ enc_item i ++ bs) rest).
  rewrite <- !app_assoc in Hr. specialize (Hr Hl). rewrite <- zlen_app, <- app_assoc. rewrite Hr.
  do 2 f_equal. autorewrite with zlen. lia.
Qed.

Lemma writes_put_item i : writes 1 (put_item i) (enc_item i).
Proof. exact (writes_enum (item_number i) (item_number_bound i)). Qed.

Lemma writes_item_number i : writes (10 * zlen (enc_item i)) (put_item i) (enc_item i).
Proof. apply (writes_weaken _ _ _ _ (writes_put_item i)). pose proof (enc_item_len i) as Hl. lia. Qed.

Lemma writes_item i m bs :
  writes (10 * zlen bs) m bs -> writes (10 * zlen (enc_item i ++ bs)) (_ ← put_item i; m) (enc_item i ++ bs).
Proof.
  intros W. replace (10 * zlen (enc_item i ++ bs)) with (10 * zlen (enc_item i) + 10 * zlen bs) by (rewrite zlen_app; lia).
  exact (writes_bind _ _ _ _ _ _ (writes_item_number i) W).
Qed.

(** One item; [bs] follow its type. *)
Lemma loads_item_before i m bs st st' :
  agg_option i = false -> writes (10 * zlen bs) m bs ->
  reads_before (read_item joined i st) bs (st', false) -> loads (enc_item i ++ bs) (_ ← put_item i; m) st st'.
Proof.
  intros Hi W R. split_and!; [right; by exists i, bs | by apply writes_item |].
  intros bs2 r Hs H fuel Hf. destruct fuel as [| fuel]; [lia |].
  apply (item_loop_step i st st'); [done | done |]. apply H.
  pose proof (enc_item_length i) as Hp. rewrite !length_app in Hf. lia.
Qed.

Lemma loads_item i m bs st st' :
  agg_option i = false -> sends bs m (read_item joined i st) (st', false) ->
  loads (enc_item i ++ bs) (_ ← put_item i; m) st st'.
Proof. intros Hi (W & R). apply loads_item_before; [done | done |]. intros pre rest _. apply R. Qed.

Lemma loads_item0 i st st' :
  agg_option i = false -> sends [] (mret tt) (read_item joined i st) (st', false) ->
  loads (enc_item i) (put_item i) st st'.
Proof.
  intros Hi H. apply loads_ext with (_ ← put_item i; mret tt).
  - intros w. unfold mbind, M_bind. by destruct (put_item i w) as [[[] |] w'].
  - rewrite <- (app_nil_r (enc_item i)). by apply loads_item.
Qed.

Lemma loads_if_item (b : bool) i st st' :
  agg_option i = false -> (b = true -> sends [] (mret tt) (read_item joined i st) (st', false)) ->
  (b = false -> st = st') -> loads (enc_if b i) (put_if b i) st st'.
Proof. intros Hi H1 H2. apply loads_if; [| done]. intros Hb. by apply loads_item0, H1. Qed.

(** A loop that puts items one by one, each taken in the same way. *)
Lemma loads_all {A} (ok : A -> Prop) (enc : A -> bytes) put (upd : list A -> LoopState) l :
  Forall ok l -> (forall d x, ok x -> loads (enc x) (put x) (upd d) (upd (d ++ [x]))) ->
  loads (enc_all enc l) (put_all put l) (upd []) (upd l).
Proof.
  intros Hl H.
  assert (forall d, loads (enc_all enc l) (put_all put l) (upd d) (upd (d ++ l))) as H'; [| apply (H' [])].
  induction Hl as [| x l Hx _ IH]; intros d; [rewrite app_nil_r; apply loads_ret |].
  apply loads_bind with (upd (d ++ [x])); [by apply H |].
  replace (d ++ x :: l) with ((d ++ [x]) ++ l) by (by rewrite <- app_assoc). apply IH.
Qed.

(** The last item. *)
Lemma loads_end st fuel : (1 < fuel)%nat -> reads (item_loop fuel joined st) (enc_item QueryEnd) st.
Proof.
  intros Hf pre rest Hl. destruct fuel as [| fuel]; [lia |].
  pose proof (enc_item_len QueryEnd) as Hp. cbn [QueryBinary.item_loop].
  rewrite M_bind_get. unfold Eof, len_. cbn [buf_ pos_]. rewrite (proj2 (Z.leb_gt _ _)).
  2: { pose proof (zlen_nonneg rest). autorewrite with zlen. lia. }
  rewrite (M_bind_ok _ _ _ _ _ (enc_item_reads QueryEnd pre rest Hl)).
  by destruct st.
Qed.

End Loop.

