(* ===== verification/QueryRoundTrip.v ===== *)
(** The round trip of a query through the binary protocol: every writer of [QueryBinary] puts the
    bytes of [QueryFormat], and the readers take them item by item and query by query. *)

From S2P Require Import Prelude Varint WrSerializer Serializer Variant ExpressionTree ExpressionForest ExpressionBuild QueryEntries QueryBinary QueryFormat.

#[local] Opaque PutVarUintEnum PutVarUint32 PutVarUint64 PutVString PutUInt8 PutFloat PutFloatVectorView PutVariant.

(** ** Well-formed queries

    What the constructors of the code leave in a query, the ranges of its numbers, and what the
    format can carry. *)

Definition option_ok (n : Z) (o : option Z) : Prop := match o with Some x => 0 <= x < n | None => True end.

Definition params_ok (p : KnnSearchParams) : Prop :=
  match p with
  | KnnBase k r | KnnBruteForce k r => option_ok (2 ^ 64) k /\ option_ok (2 ^ 32) r
  | KnnHnsw k r n | KnnIvf k r n => option_ok (2 ^ 64) k /\ option_ok (2 ^ 32) r /\ 0 <= n < 2 ^ 64
  end.

Definition data_ok (d : KnnData) : Prop :=
  match d with KnnVector v => floatvector_ok (View v) | KnnString s => str_ok s end.

(** A condition of [QueryEntry] as its constructor makes it, without the marks for IS NULL and
    DISTINCT; the point of [CondDWithin] comes first and has coordinates of type double. *)
Definition query_entry_ok (qe : QueryEntry) : Prop :=
  str_ok (fieldName_ qe) /\ values_ok (values_ qe) /\ needIsNull_ qe = false /\
  QueryEntry_make (fieldName_ qe) (condition_ qe) (values_ qe) = Ok qe /\
  (condition_ qe = CondDWithin -> exists x y d, values_ qe = [V_Tuple [V_Double x; V_Double y]; d]).

(** [NOT] before a join is not carried. *)
Definition entry_ok {Y} (op : OpType) (e : Entry (EntryData Y)) : Prop :=
  match e with
  | E_Query qe => query_entry_ok qe
  | E_Join i => op <> OpNot /\ Z.of_nat i < 2 ^ 64
  | E_BetweenFields (D_Between l c r) => str_ok l /\ str_ok r /\ check_between c = Ok tt
  | E_AlwaysFalse | E_AlwaysTrue => True
  | E_Knn (D_Knn f d p) => str_ok f /\ data_ok d /\ params_ok p
  | _ => False
  end.

Fixpoint condition_ok {Y} (x : tree OpType EqualPositions (Entry (EntryData Y))) : Prop :=
  match x with
  | Leaf op e => entry_ok op e
  | Sub _ p o ch => o = false /\ Forall strs_ok p /\ foldr (fun y acc => condition_ok y /\ acc) True ch
  end.

Definition conditions_ok {Y} (ts : list (tree OpType EqualPositions (Entry (EntryData Y)))) : Prop :=
  foldr (fun y acc => condition_ok y /\ acc) True ts.

(** ** Conditions *)

Lemma lift_ok {S A B} (a : A) (k : A -> M S B) : (lift (Ok a) ≫= k) = k a.
Proof. reflexivity. Qed.

Lemma sends_knn_base k r :
  option_ok (2 ^ 64) k -> option_ok (2 ^ 32) r ->
  sends (enc_knn_base k r)
    (_ ← PutUInt8 (Z.lor (if k is Some _ then 1 else 0) (if r is Some _ then 2 else 0));
     _ ← match k with Some k => PutVarUint64 k | None => mret tt end;
     match r with Some r => PutFloat r | None => mret tt end)
    (get_knn_base kKnnParamsBinProtocolVersion) (k, r).
Proof.
  intros Hk Hr. unfold get_knn_base. cbn [Z.eqb negb kKnnParamsBinProtocolVersion].
  eapply sends_bind; [apply sends_u8; destruct k, r; vm_compute; split; congruence |].
  eapply (sends_bind _ _ _ _ _ _ k).
  - destruct k as [k |].
    + replace (negb _) with true by (by destruct r). by apply sends_fmap, sends_varuint64.
    + replace (negb _) with false by (by destruct r). apply sends_ret.
  - destruct r as [r |].
    + replace (negb _) with true by (by destruct k).
      by apply (sends_fmap _ _ _ (fun r => (k, r))), sends_fmap, sends_float.
    + replace (negb _) with false by (by destruct k). apply (sends_fmap _ _ _ (fun r => (k, r))), sends_ret.
Qed.

Lemma sends_params p : params_ok p -> sends (enc_params p) (KnnSearchParams_Serialize p) KnnSearchParams_Deserialize p.
Proof.
  intros H. destruct p as [k r | k r | k r n | k r n]; cbn [params_ok KnnSearchParams_Serialize] in *; unfold put_knn_base;
    try apply sends_assoc; (eapply sends_bind; [by apply sends_enum |]); cbv beta;
    try apply sends_assoc; (eapply sends_bind; [by apply sends_varuint64 |]); cbv beta;
    rewrite Z.ltb_irrefl; cbv zeta.
  - change (u8 0 =? 0) with true. cbv iota. eapply sends_pure; [apply sends_knn_base; apply H | done].
  - change (u8 1 =? 0) with false. change (u8 1 =? 1) with true. cbv iota.
    eapply sends_pure; [apply sends_knn_base; apply H | done].
  - change (u8 2 =? 0) with false. change (u8 2 =? 1) with false. change (u8 2 =? 2) with true. cbv iota.
    eapply sends_bind; [apply sends_knn_base; apply H |]. apply sends_fmap, sends_varuint64, H.
  - change (u8 3 =? 0) with false. change (u8 3 =? 1) with false. change (u8 3 =? 2) with false.
    change (u8 3 =? 3) with true. cbv iota.
    eapply sends_bind; [apply sends_knn_base; apply H |]. apply sends_fmap, sends_varuint64, H.
Qed.

Lemma sends_data_values {B} as_double c vs (h : CondType -> list Variant -> M Serializer B) b :
  values_ok vs -> (c = CondDWithin -> exists x y d, vs = [V_Tuple [V_Double x; V_Double y]; d]) ->
  pure (h c vs) b ->
  sends (enc_values c vs) (serialize_values as_double c vs) (c ← get_cond; vs ← deserializeValues c; h c vs) b.
Proof.
  intros Hvs Hd Hh. unfold serialize_values, enc_values. eapply sends_bind; [apply sends_cond |]. cbv beta.
  apply sends_pure with vs; [| done]. unfold deserializeValues. destruct (decide (c = CondDWithin)) as [Hc | Hc].
  - destruct Hvs as [_ Hv]. destruct (Hd Hc) as (x & y & d & ->). subst c.
    cbn [is_tuple as_point coordinate mbind result_bind mret result_ret].
    apply Forall_cons in Hv as [Hp Hv]. apply Forall_cons in Hv as [Hv _].
    cbn [variant_ok foldr] in Hp. destruct Hp as (_ & Hx & Hy & _).
    eapply sends_bind; [by apply sends_varuint32 |]. change (negb (3 =? 3)) with false. cbv iota.
    rewrite lift_ok. cbn [fst snd].
    eapply sends_bind; [by apply (sends_variant (V_Double x)) |]. cbv beta.
    eapply sends_bind; [by apply (sends_variant (V_Double y)) |]. cbv beta.
    by apply (sends_fmap _ _ _ (fun d => [V_Tuple [V_Double x; V_Double y]; d])), sends_variant.
  - replace (match c with CondDWithin => _ | _ => _ end) with (enc_list enc_variant vs) by (by destruct c).
    by apply sends_values.
Qed.

Section Conditions.
Context {Y : Type} (as_double : Variant -> result Z) (put_other : OpType -> Entry (EntryData Y) -> M WrSerializer unit).
Context (get_other : QueryItemType -> @Body Y -> M Serializer (@Body Y)) (joined : bool).

Notation loads := (loads get_other joined).
Notation serialize_entry := (serialize_entry as_double put_other).

Lemma loads_entry op e n t' (b : @Body Y) eps :
  entry_ok op e -> entries_Append op e (entries_ b) = Ok (n, t') ->
  loads (enc_entry op e) (serialize_entry op e) (b, eps) (set_entries t' b, eps).
Proof.
  intros He Ha.
  assert (pure (b' ← append_entry op e b; keep b' eps) ((set_entries t' b, eps), false)) as Hk.
  { apply pure_bind with (set_entries t' b); [| done]. intros s. unfold append_entry. by rewrite Ha. }
  destruct e as [qe | i | [l c r | f d p | y] | | | y | y | [l c r | f d p | y] | y | y | y]; try done;
    cbn [entry_ok QueryBinary.serialize_entry] in *; (apply loads_item; [done |]); cbn [QueryBinary.read_item].
  - destruct He as (Hf & Hv & Hn & Hm & Hd). eapply sends_bind; [by apply sends_vstring |]. cbv beta.
    eapply sends_bind; [apply sends_op |]. cbv beta.
    apply (sends_data_values as_double _ _ (fun c vs => b' ← append_query_entry op (fieldName_ qe) c vs b; keep b' eps));
      [done.. |]. unfold append_query_entry. rewrite Hm, lift_ok. exact Hk.
  - destruct He as [Hop Hi]. eapply sends_bind; [apply sends_enum; by case_decide |]. cbv beta.
    replace ((if decide (op = OpAnd) then InnerJoin else OrInnerJoin) =? LeftJoin) with false by (by case_decide).
    apply sends_pure with (Z.of_nat i); [apply sends_varuint64; lia |]. rewrite Nat2Z.id.
    replace (if _ =? OrInnerJoin then OpOr else OpAnd) with op by (by destruct op). exact Hk.
  - destruct He as (Hl & Hr & Hc). eapply sends_bind; [apply sends_op |]. cbv beta.
    eapply sends_bind; [by apply sends_vstring |]. cbv beta. eapply sends_bind; [apply sends_cond |]. cbv beta.
    apply sends_pure with r; [by apply sends_vstring |]. rewrite Hc, lift_ok. exact Hk.
  - apply sends_pure with op; [apply sends_op | exact Hk].
  - apply sends_pure with op; [apply sends_op | exact Hk].
  - destruct He as (Hf & Hd & Hp). eapply sends_bind; [by apply sends_vstring |]. cbv beta.
    eapply sends_bind; [apply sends_op |]. cbv beta.
    destruct d as [v | s]; cbn [enc_data]; apply sends_assoc; rewrite <- app_assoc;
      (eapply sends_bind; [by apply sends_enum |]); cbv beta zeta.
    + change (swrap 8 0 =? 1) with false. change (swrap 8 0 =? 0) with true. cbv iota.
      eapply sends_bind; [by apply sends_floatvector |]. cbv beta.
      apply sends_pure with p; [by apply sends_params |].
      replace (Span (View v)) with (Ok v) by (by destruct v). exact Hk.
    + change (swrap 8 1 =? 1) with true. cbv iota.
      eapply sends_bind; [by apply sends_vstring |]. cbv beta.
      apply sends_pure with p; [by apply sends_params | exact Hk].
Qed.
End Conditions.

(** Without the mark for IS NULL nothing is inserted after a condition. *)
Lemma entries_Append_plain {X} op (e : Entry X) t :
  (forall qe, e = E_Query qe -> needIsNull_ qe = false) ->
  entries_Append op e t = Append no_post op e t.
Proof.
  intros H. unfold entries_Append, post_of. destruct e as [qe | | | | | | | | | |]; try done.
  unfold Append. destruct (for_active _ _ _) as [c |]; [| done]. cbn [mbind result_bind].
  unfold inserted, no_post. cbn [Process]. unfold Get, node_at, Size. cbn [container_].
  rewrite lookup_app_r by (rewrite length_app; cbn; lia). rewrite length_app. cbn [length].
  replace (length c + 1 - 1 - length c)%nat with 0%nat by lia.
  cbn [lookup list_lookup of_option mbind result_bind storage_]. by rewrite (H qe).
Qed.

Notation bare := (map (copy (fun _ => []))).

Section Tree.
Context {Y : Type} (as_double : Variant -> result Z) (put_other : OpType -> Entry (EntryData Y) -> M WrSerializer unit).
Context (get_other : QueryItemType -> @Body Y -> M Serializer (@Body Y)) (joined : bool).

Notation loads := (loads get_other joined).
Notation serialize_loop := (serialize_loop as_double put_other).
Notation forest := (list (tree OpType EqualPositions (Entry (EntryData Y)))).

Lemma loads_unassoc bs (m1 m2 m3 : M WrSerializer unit) (st st' : @LoopState Y) :
  loads bs (_ ← (_ ← m1; m2); m3) st st' -> loads bs (_ ← m1; _ ← m2; m3) st st'.
Proof. apply loads_ext. intros w. by rewrite M_bind_assoc. Qed.

(** The writer goes over the trees [r] at a place of the conditions; the reader appends them, with
    no equal positions in their brackets. *)
Lemma loads_trees fuel c (l r : forest) t b eps z :
  repr (plug c (l ++ r)) t -> conditions_ok r -> represents (entries_ b) z -> (length (flats r) < fuel)%nat ->
  exists t', loads (enc_conditions r) (serialize_loop fuel (place c l) (place c (l ++ r)) t) (b, eps) (set_entries t' b, eps) /\
    represents t' (mk_builder (b_open z) (b_current z ++ bare r)).
Proof.
  revert c l r b z. induction fuel as [| fuel IH]; intros c l r b z Hr Hok Hz Hf; [lia |].
  cbn [QueryBinary.serialize_loop]. destruct r as [| x r].
  { rewrite app_nil_r, Nat.eqb_refl. exists (entries_ b). cbn [map]. rewrite app_nil_r. split; [| by destruct z].
    destruct b. apply loads_ret. }
  destruct Hok as [Hx Hok]. rewrite flats_cons, length_app in Hf.
  pose proof (flat_pos x) as Hp. rewrite (proj2 (Nat.eqb_neq _ _)).
  2: { unfold place. rewrite flats_app, flats_cons, !length_app. lia. }
  rewrite (GetOperation_place _ _ _ _ _ Hr), lift_ok. cbv beta.
  assert (const_iterator_next (place c l) t = Ok (place c (l ++ [x]))) as -> by apply (Next_place _ _ _ _ _ Hr).
  rewrite lift_ok. cbv beta. rewrite (node_at_place _ _ _ _ _ Hr), lift_ok. cbv beta.
  assert (forall b1 z1, represents (entries_ b1) z1 -> exists t',
            loads (enc_conditions r) (serialize_loop fuel (place c (l ++ [x])) (place c (l ++ x :: r)) t) (b1, eps) (set_entries t' b1, eps) /\
            represents t' (mk_builder (b_open z1) (b_current z1 ++ bare r))) as Hnext.
  { intros b1 z1 Hz1. replace (l ++ x :: r) with ((l ++ [x]) ++ r) by (by rewrite <- app_assoc).
    apply IH; [by rewrite <- app_assoc | done | done | lia]. }
  destruct x as [op e | op p o ch]; cbn [root storage_ head tree_op map copy condition_ok] in *.
  - destruct (represents_append op e _ z Hz) as (t1 & E & H1).
    destruct (Hnext (set_entries t1 b) _ H1) as (t2 & L2 & H2). exists t2.
    cbn [b_open b_current] in H2. rewrite <- app_assoc in H2. split; [| exact H2].
    eapply loads_bind; [| exact L2]. eapply loads_entry; [exact Hx |].
    rewrite entries_Append_plain; [exact E |]. intros qe ->. apply Hx.
  - destruct Hx as (-> & _ & Hch). rewrite flat_sub in Hf, Hp. cbn [length] in Hf.
    destruct (represents_open op [] _ z Hz) as (t1 & E1 & H1).
    unfold const_iterator_cbegin, const_iterator_cend, Size_of.
    rewrite (IsSubTree_place _ _ _ _ _ Hr), (node_at_place _ _ _ _ _ Hr).
    cbn [mbind result_bind is_sub fmap result_fmap root head Node_Size storage_].
    pose proof Hr as Hr'. rewrite plug_inner in Hr'.
    destruct (IH (c ++ [mk_frame l op p false r]) [] ch (set_entries t1 b) _ Hr' Hch H1 ltac:(lia)) as (t2 & L2 & H2).
    rewrite place_inner in L2. cbn [app] in L2. rewrite place_inner_end, place_snoc, flat_sub in L2. cbn [length] in L2.
    cbn [b_open b_current app] in H2.
    destruct (represents_close id t2 _ (mk_builder (b_open z) (b_current z ++ [Sub op [] false (bare ch)])) H2)
      as (t3 & E3 & H3).
    { cbn [build b_open]. by rewrite last_snoc, removelast_last. }
    destruct (Hnext (set_entries t3 b) _ H3) as (t4 & L4 & H4). exists t4.
    cbn [b_open b_current] in H4. rewrite <- app_assoc in H4. split; [| exact H4].
    eapply loads_bind; [| exact L4]. apply loads_unassoc.
    apply loads_bind with (set_entries t1 b, eps).
    { apply loads_item; [done |]. cbn [QueryBinary.read_item].
      apply sends_pure with op; [apply sends_op |]. by rewrite E1, lift_ok. }
    rewrite !lift_ok. apply loads_bind with (set_entries t2 b, eps); [exact L2 |].
    apply loads_item0; [done |]. cbn [QueryBinary.read_item].
    change (entries_ (set_entries t2 b)) with t2. rewrite E3, lift_ok. apply sends_ret.
Qed.

(** A node without its equal positions. *)
Definition bare_node (nd : Node OpType EqualPositions (Entry (EntryData Y))) : Node OpType EqualPositions (Entry (EntryData Y)) :=
  mk_node (operation nd) (match storage_ nd with SubTree s _ => SubTree s [] | v => v end).

Lemma flats_bare (f : forest) : flats (bare f) = map bare_node (flats f).
Proof.
  assert (forall x, flat (copy (fun _ => []) x) = map bare_node (flat x)) as H.
  { intros x. induction x as [| op p o ch IH] using tree_ind; [done |]. cbn [copy]. rewrite !flat_sub. cbn [map].
    assert (flats (bare ch) = map bare_node (flats ch)) as ->; [| by rewrite length_map].
    induction IH as [| y ch Hy _ IHch]; [done |]. cbn [map]. by rewrite !flats_cons, Hy, IHch, map_app. }
  induction f as [| x f IH]; [done |]. cbn [map]. by rewrite !flats_cons, H, IH, map_app.
Qed.

Lemma loads_entries t f (b : @Body Y) eps :
  repr f t -> closed f -> conditions_ok f -> entries_ b = empty_tree ->
  loads (enc_conditions f) (entries_Serialize as_double put_other t) (b, eps)
        (set_entries (mk_tree (map bare_node (container_ t)) []) b, eps).
Proof.
  intros Hr Hc Hok Hb. unfold entries_Serialize.
  destruct (loads_trees (S (Size t)) [] [] f t b eps builder_empty Hr Hok) as (t' & L & [_ [H1 H2]]).
  - rewrite Hb. apply represents_empty.
  - unfold Size. destruct Hr as [-> _]. lia.
  - cbn [builder_empty b_open b_current app] in *. unfold forest_of in *. cbn [b_open b_current frames map plug] in *.
    assert (place [] f = Size t) as Ep by (unfold Size, place; by destruct Hr as [-> _]).
    change (place [] []) with 0%nat in L. rewrite Ep in L.
    replace (mk_tree _ _) with t'; [exact L |]. destruct t' as [cs act]. cbn in *.
    rewrite H1, H2, flats_bare. destruct Hr as [-> _]. f_equal. apply closed_copy.
Qed.

End Tree.

(** ** The other parts of a query *)

Section Parts.
Context {Y : Type} (get_other : QueryItemType -> @Body Y -> M Serializer (@Body Y)) (joined : bool).

Notation loads := (loads get_other joined).

Implicit Types b : @Body Y.

(** *** Aggregations *)

Definition agg_default (a : AggregateEntry) : Prop :=
  a_sorting a = [] /\ a_limit a = kDefaultLimit /\ a_offset a = kDefaultOffset.

(** Sorting and limits are those of facets. *)
Definition aggregation_ok (a : AggregateEntry) : Prop :=
  AggregateEntry_make (a_type a) (a_fields a) = Ok (mk_agg (a_type a) (a_fields a) [] kDefaultLimit kDefaultOffset) /\
  strs_ok (a_fields a) /\ Forall (fun se => str_ok (expression se)) (a_sorting a) /\
  0 <= a_limit a < 2 ^ 32 /\ 0 <= a_offset a < 2 ^ 32 /\ (a_type a = AggFacet \/ agg_default a).

(** [loads] for the options of an aggregation. *)
Definition options (bs : bytes) (m : M WrSerializer unit) (a a' : AggregateEntry) : Prop :=
  writes (10 * zlen bs) m bs /\
  forall bs2 a2, (forall fuel, (length bs2 < fuel)%nat -> reads_before (aggregation_loop fuel a') bs2 a2) ->
    forall fuel, (length (bs ++ bs2) < fuel)%nat -> reads_before (aggregation_loop fuel a) (bs ++ bs2) a2.

Lemma options_ret a : options [] (mret tt) a a.
Proof. split; [apply writes_ret |]. intros bs2 a2 H fuel Hf. by apply H. Qed.

Lemma options_bind bs1 bs2 m1 m2 a a1 a2 :
  options bs1 m1 a a1 -> options bs2 m2 a1 a2 -> options (bs1 ++ bs2) (_ ← m1; m2) a a2.
Proof.
  intros (W1 & R1) (W2 & R2). split.
  - rewrite zlen_app, Z.mul_add_distr_l. by apply writes_bind.
  - intros bs a3 H fuel Hf. rewrite <- app_assoc in *. apply R1; [| done]. intros fuel' Hf'. by apply R2.
Qed.

(** The step of [aggregation_loop] at an option. *)
Definition option_step (i : QueryItemType) (a : AggregateEntry) : M Serializer AggregateEntry :=
  match i with
  | QueryAggregationSort =>
      f ← GetVStringCopy; d ← GetVarUInt; lift (AddSortingEntry (mk_se f (negb (d =? 0))) a)
  | QueryAggregationLimit => v ← GetVarUInt; lift (SetLimit (u32 v) a)
  | _ => v ← GetVarUInt; lift (SetOffset (u32 v) a)
  end.

Lemma option_step_loop i a fuel s :
  agg_option i = true ->
  (match item_of_number (item_number i) with
   | Some QueryAggregationSort =>
       f ← GetVStringCopy; d ← GetVarUInt;
       a ← lift (AddSortingEntry (mk_se f (negb (d =? 0))) a); aggregation_loop fuel a
   | Some QueryAggregationLimit => v ← GetVarUInt; a ← lift (SetLimit (u32 v) a); aggregation_loop fuel a
   | Some QueryAggregationOffset => v ← GetVarUInt; a ← lift (SetOffset (u32 v) a); aggregation_loop fuel a
   | _ => mret a
   end) s = (option_step i a ≫= aggregation_loop fuel) s.
Proof.
  intros Hi. rewrite item_of_item_number. destruct i; try done; cbn [option_step]; rewrite M_bind_assoc; [done | done |].
  unfold mbind, M_bind. by destruct (GetVStringCopy _) as [[f |] s1]; [destruct (GetVarUInt s1) as [[d |] s'] |].
Qed.

Lemma options_item i bs m a a' :
  agg_option i = true -> sends bs m (option_step i a) a' -> options (enc_item i ++ bs) (_ ← put_item i; m) a a'.
Proof.
  intros Hi (W & R). pose proof (enc_item_length i) as Hp. split; [by apply writes_item |].
  intros bs2 a2 H fuel Hf. destruct fuel as [| fuel]; [lia |].
  assert (length bs2 < fuel)%nat as Hf2 by (rewrite !length_app in Hf; lia).
  intros pre rest Hs Hl. rewrite <- !app_assoc in *. cbn [aggregation_loop].
  rewrite M_bind_get. unfold Eof, len_. cbn [buf_ pos_]. rewrite (proj2 (Z.leb_gt _ _)).
  2: { pose proof (zlen_nonneg bs); pose proof (zlen_nonneg bs2); pose proof (zlen_nonneg rest).
       pose proof (enc_item_len i). autorewrite with zlen. lia. }
  rewrite (M_bind_ok _ _ _ _ _ (enc_item_reads i pre _ Hl)). rewrite <- zlen_app.
  specialize (R (pre ++ enc_item i) (bs2 ++ rest)). specialize (H fuel Hf2 (pre ++ enc_item i ++ bs) rest Hs).
  rewrite <- !app_assoc in R. rewrite <- !app_assoc in H. specialize (R Hl). specialize (H Hl).
  pose proof (option_step_loop i a fuel (mk_ser (pre ++ enc_item i ++ bs ++ bs2 ++ rest) (zlen (pre ++ enc_item i))) Hi) as E.
  rewrite (M_bind_ok _ _ _ _ _ R) in E.
  replace (zlen (pre ++ enc_item i) + zlen bs) with (zlen (pre ++ enc_item i ++ bs)) in E by (autorewrite with zlen; lia).
  rewrite H in E.
  replace (zlen pre + zlen (enc_item i ++ bs ++ bs2)) with (zlen (pre ++ enc_item i ++ bs) + zlen bs2) by (autorewrite with zlen; lia).
  rewrite <- E. by rewrite item_of_item_number; destruct i.
Qed.

Lemma options_number i n d m a a' :
  agg_option i = true -> sends (uint64_pack n) m (option_step i a) a' -> (n = d -> a = a') ->
  options (enc_option i n d) (if n =? d then mret tt else _ ← put_item i; m) a a'.
Proof.
  intros Hi Hs He. unfold enc_option. destruct (Z.eqb_spec n d) as [E | _]; [| by apply options_item].
  rewrite (He E). apply options_ret.
Qed.

Lemma put_b2z d : 0 <= Z.b2z d < 2 ^ 32 /\ negb (Z.b2z d =? 0) = d.
Proof. by destruct d. Qed.

Lemma options_sorting t fs l d :
  t = AggFacet -> Forall (fun se => str_ok (expression se)) l ->
  options (enc_all enc_agg_sorting l)
    (put_all (fun se => _ ← put_item QueryAggregationSort; _ ← PutVString (expression se); PutVarUint32 (Z.b2z (desc se))) l)
    (mk_agg t fs d kDefaultLimit kDefaultOffset) (mk_agg t fs (d ++ l) kDefaultLimit kDefaultOffset).
Proof.
  intros Ht Hl. revert d. induction Hl as [| [e ds] l Hse _ IH]; intros d; [rewrite app_nil_r; apply options_ret |].
  cbn [put_all]. change (enc_all enc_agg_sorting (mk_se e ds :: l)) with (enc_agg_sorting (mk_se e ds) ++ enc_all enc_agg_sorting l).
  replace (d ++ mk_se e ds :: l) with ((d ++ [mk_se e ds]) ++ l) by (by rewrite <- app_assoc).
  eapply options_bind; [| apply IH].
  destruct (put_b2z ds) as [Hd Hb]. apply options_item; [done |]. cbn [option_step expression desc].
  eapply sends_bind; [by apply sends_vstring |]. cbv beta. eapply sends_lift; [by apply sends_varuint32 |].
  rewrite Hb. unfold AddSortingEntry, if_facet. by rewrite decide_True by exact Ht.
Qed.

Lemma options_all a :
  aggregation_ok a ->
  options (enc_agg_options a)
    (_ ← put_all (fun se => _ ← put_item QueryAggregationSort; _ ← PutVString (expression se); PutVarUint32 (Z.b2z (desc se))) (a_sorting a);
     _ ← if a_limit a =? kDefaultLimit then mret tt else _ ← put_item QueryAggregationLimit; PutVarUint32 (a_limit a);
     if a_offset a =? kDefaultOffset then mret tt else _ ← put_item QueryAggregationOffset; PutVarUint32 (a_offset a))
    (mk_agg (a_type a) (a_fields a) [] kDefaultLimit kDefaultOffset) a.
Proof.
  destruct a as [t fs so li off]. unfold aggregation_ok, agg_default, enc_agg_options.
  cbn [a_type a_fields a_sorting a_limit a_offset].
  intros (_ & _ & Hso & Hli & Hoff & [Ht | (-> & -> & ->)]).
  2: { change (enc_option QueryAggregationLimit kDefaultLimit kDefaultLimit) with (@nil Z).
       change (enc_option QueryAggregationOffset kDefaultOffset kDefaultOffset) with (@nil Z). rewrite !Z.eqb_refl.
       eapply options_bind; [apply options_ret |]. eapply options_bind; apply options_ret. }
  eapply options_bind; [by apply options_sorting |]. cbn [app].
  apply options_bind with (mk_agg t fs so li kDefaultOffset); (apply options_number; [done | | by intros ->]); cbn [option_step];
    (eapply sends_lift; [by apply sends_varuint32 |]); rewrite u32_id by done;
    unfold SetLimit, SetOffset, if_facet; by rewrite decide_True by exact Ht.
Qed.

Lemma aggregation_loop_stop fuel a pre i r :
  agg_option i = false -> zlen (pre ++ enc_item i ++ r) < 2 ^ 32 ->
  aggregation_loop (S fuel) a (mk_ser (pre ++ enc_item i ++ r) (zlen pre)) = (Ok a, mk_ser (pre ++ enc_item i ++ r) (zlen pre)).
Proof.
  intros Hi Hl. cbn [aggregation_loop]. pose proof (enc_item_len i) as Hp.
  rewrite M_bind_get. unfold Eof, len_. cbn [buf_ pos_]. rewrite (proj2 (Z.leb_gt _ _)).
  2: { pose proof (zlen_nonneg r). autorewrite with zlen. lia. }
  rewrite (M_bind_ok _ _ _ _ _ (enc_item_reads i pre r Hl)), item_of_item_number. by destruct i.
Qed.

Lemma aggregation_loop_stops fuel a : (0 < fuel)%nat -> reads_before (aggregation_loop fuel a) [] a.
Proof.
  intros Hf pre rest Hs Hl. destruct fuel as [| fuel]; [lia |]. cbn [app] in *.
  rewrite (zlen_nil (A := Z)), Z.add_0_r. destruct Hs as (i & r & -> & Hi). exact (aggregation_loop_stop fuel a pre i r Hi Hl).
Qed.

Lemma loads_aggregation a b eps :
  aggregation_ok a ->
  loads (enc_aggregation a) (put_aggregation a) (b, eps) (set_aggregations (aggregations_ b ++ [a]) b, eps).
Proof.
  intros Ha. destruct (options_all a Ha) as (W4 & R4). destruct Ha as (Hm & [Hn Hf] & _).
  assert (a_type a <> AggUnknown) as Ht by (intros Et; by rewrite Et in Hm).
  destruct (agg_number_ok _ Ht) as [Hnum Hof]. destruct (sends_enum (agg_number (a_type a)) Hnum) as (W1 & R1).
  pose proof (zlen_nonneg (a_fields a)) as Hn0.
  destruct (sends_varuint32 (zlen (a_fields a)) ltac:(lia)) as (W2 & R2).
  destruct (sends_all enc_str PutVString GetVStringCopy id (a_fields a)) as (W3 & R3).
  { eapply Forall_impl; [exact Hf |]. intros s Hs. split; [by apply sends_vstring | by apply enc_str_len]. }
  rewrite map_id in R3. apply loads_item_before; [done | |].
  { rewrite !zlen_app, !Z.mul_add_distr_l. repeat (apply writes_bind; [done |]). done. }
  cbn [QueryBinary.read_item]. intros pre rest Hs Hl.
  assert (reads_before get_aggregation
            (uint64_pack (agg_number (a_type a)) ++ uint64_pack (zlen (a_fields a)) ++ enc_all enc_str (a_fields a) ++ enc_agg_options a) a) as R.
  { unfold get_aggregation. eapply reads_before_bind; [exact R1 |]. rewrite Hof, lift_ok.
    eapply reads_before_bind; [exact R2 |]. eapply reads_before_bind; [exact R3 |]. rewrite Hm, lift_ok.
    intros pre' rest' Hs' Hl'. rewrite M_bind_get. cbn [buf_]. rewrite <- (app_nil_r (enc_agg_options a)) in Hl' |- *.
    apply R4; [| rewrite !length_app; lia | done | done].
    intros fuel Hfu. apply aggregation_loop_stops. exact Hfu. }
  by rewrite (M_bind_ok _ _ _ _ _ (R pre rest Hs Hl)).
Qed.

(** *** Sorting *)

Definition sorting_ok (l : list SortingEntry) (forced : list Variant) : Prop :=
  Forall (fun se => str_ok (expression se) /\ expression se <> []) l /\
  values_ok forced /\ Forall (fun v => IsNullValue v = false) forced /\ (l = [] -> forced = []).

Lemma loads_sorting_entry forced se b eps :
  str_ok (expression se) -> expression se <> [] -> values_ok forced ->
  Forall (fun v => IsNullValue v = false) forced -> (forced = [] \/ sortingEntries_ b = []) ->
  loads (enc_sorting_entry forced se) (put_sorting_entry forced se) (b, eps)
    (set_forcedSortOrder (forcedSortOrder_ b ++ forced) (set_sortingEntries (sortingEntries_ b ++ [se]) b), eps).
Proof.
  intros Hs He [Hn Hv] Hnull Hf. unfold put_sorting_entry. destruct se as [e d]. cbn [expression desc] in *.
  destruct (put_b2z d) as [Hd Eb]. pose proof (zlen_nonneg forced).
  apply loads_item; [done |]. cbn [QueryBinary.read_item].
  eapply sends_bind; [by apply sends_vstring |]. cbv beta.
  eapply sends_bind; [by apply sends_varuint32 |]. cbv beta zeta. rewrite bool_decide_eq_false_2, Eb by done.
  eapply sends_bind; [apply sends_varuint32; lia |]. cbv beta zeta.
  replace (negb (zlen forced =? 0) && _) with false.
  2: { destruct Hf as [-> | Hf]; [done |]. cbn [set_sortingEntries sortingEntries_]. rewrite Hf. by rewrite andb_false_r. }
  apply sends_pure with forced; [| done]. rewrite <- (map_id forced) at 4. apply sends_all. apply Forall_forall. intros v Hin.
  rewrite Forall_forall in Hv. rewrite Forall_forall in Hnull. split; [| by apply variant_sizes, Hv].
  apply sends_pure with v; [by apply sends_variant, Hv |]. by rewrite (Hnull v Hin).
Qed.

Lemma loads_sorting forced l b eps :
  sorting_ok l forced -> sortingEntries_ b = [] -> forcedSortOrder_ b = [] ->
  loads (enc_sorting forced l) (put_sorting forced l) (b, eps) (set_forcedSortOrder forced (set_sortingEntries l b), eps).
Proof.
  intros (Hl & Hv & Hn & He) Hs Hf. destruct l as [| se l]; cbn [put_sorting enc_sorting].
  - rewrite He by done. rewrite <- Hs, <- Hf. destruct b. apply loads_ret.
  - apply Forall_cons in Hl as [[H1 H2] Hl].
    eapply loads_bind; [apply loads_sorting_entry; [done.. | by right] |]. rewrite Hs, Hf. cbn [app].
    apply (loads_all get_other joined _ _ _ (fun d => (set_forcedSortOrder forced (set_sortingEntries (se :: d) b), eps)) l Hl).
    intros d x [Hx1 Hx2].
    pose proof (loads_sorting_entry [] x (set_forcedSortOrder forced (set_sortingEntries (se :: d) b)) eps) as H.
    cbn [set_forcedSortOrder set_sortingEntries forcedSortOrder_ sortingEntries_] in H. rewrite app_nil_r in H.
    apply H; [done.. | | done | by left]. split; done.
Qed.

(** *** Conditions of a join *)

Definition join_entry_ok (e : QueryJoinEntry) : Prop := str_ok (j_left e) /\ str_ok (j_right e) /\ j_cond e <> CondKnn.

Lemma loads_join_entries l b eps :
  joined = true -> Forall join_entry_ok l -> joinEntries_ b = [] ->
  loads (enc_all enc_join_entry l) (serializeJoinEntries joined l) (b, eps) (set_joinEntries l b, eps).
Proof.
  intros Hj Hl Hb.
  assert (serializeJoinEntries joined l = put_all put_join_entry l) as -> by (unfold serializeJoinEntries; by rewrite Hj).
  replace b with (set_joinEntries [] b) at 1 by (rewrite <- Hb; by destruct b).
  apply (loads_all get_other joined _ _ _ (fun d => (set_joinEntries d b, eps)) l Hl).
  intros d [op c le re] (H1 & H2 & H3). cbn [j_left j_right j_cond] in *.
  apply loads_item; [done |]. cbn [QueryBinary.read_item j_op j_cond j_left j_right].
  replace (negb joined) with false by (by rewrite Hj). cbv iota. eapply sends_bind; [apply sends_op |]. cbv beta.
  eapply sends_bind; [apply sends_cond |]. cbv beta. eapply sends_bind; [by apply sends_vstring |]. cbv beta.
  apply sends_pure with re; [by apply sends_vstring |]. by rewrite decide_False by exact H3.
Qed.

Lemma loads_joins l b eps :
  (if joined then Forall join_entry_ok l else l = []) -> joinEntries_ b = [] ->
  loads (if joined then enc_all enc_join_entry l else []) (if joined then serializeJoinEntries joined l else mret tt) (b, eps) (set_joinEntries l b, eps).
Proof.
  intros Hl Hb. apply loads_if; intros Hj; rewrite Hj in Hl; [by apply loads_join_entries |].
  rewrite Hl, <- Hb. by destruct b.
Qed.

(** *** Equal positions *)

Fixpoint bracket_positions (i : nat) (c : list (Node OpType EqualPositions (Entry (EntryData Y)))) : list (Z * list bytes) :=
  match c with
  | [] => []
  | nd :: c => (match storage_ nd with SubTree _ p => map (pair (Z.of_nat i + 1)) p | Value _ => [] end) ++ bracket_positions (S i) c
  end.

Definition node_positions_ok (nd : Node OpType EqualPositions (Entry (EntryData Y))) : Prop :=
  match storage_ nd with SubTree _ p => Forall strs_ok p | Value _ => True end.

Lemma loads_positions pos l b eps :
  0 <= pos < 2 ^ 32 -> Forall strs_ok l ->
  loads (enc_all (enc_position pos) l) (put_all (put_equal_position pos) l) (b, eps) (b, eps ++ map (pair pos) l).
Proof.
  intros Hp Hl. rewrite <- (app_nil_r eps) at 1.
  apply (loads_all get_other joined _ _ _ (fun d => (b, eps ++ map (pair pos) d)) l Hl).
  intros d ep Hep. pose proof (proj1 Hep) as Hn. pose proof (zlen_nonneg ep). apply loads_item; [done |].
  cbn [QueryBinary.read_item]. eapply sends_bind; [apply sends_varuint64; lia |]. cbv beta.
  destruct Hep as [_ Hs]. unfold enc_list. eapply sends_bind; [apply sends_varuint32; lia |]. cbv beta. rewrite !u32_id by lia.
  apply sends_pure with ep; [| by rewrite map_app, app_assoc]. rewrite <- (map_id ep) at 4.
  apply sends_all. eapply Forall_impl; [exact Hs |]. intros s Hok. split; [by apply sends_vstring | by apply enc_str_len].
Qed.

Lemma loads_bracket_positions i c b eps :
  Z.of_nat i + zlen c < 2 ^ 32 -> Forall node_positions_ok c ->
  loads (enc_bracket_positions i c) (put_bracket_positions i c) (b, eps) (b, eps ++ bracket_positions i c).
Proof.
  intros Hn Hc. revert i eps Hn. induction Hc as [| nd c Hnd _ IH]; intros i eps Hn; cbn [put_bracket_positions bracket_positions].
  - rewrite app_nil_r. apply loads_ret.
  - rewrite zlen_cons in Hn. pose proof (zlen_nonneg c). rewrite app_assoc. eapply loads_bind; [| apply IH; lia].
    unfold node_positions_ok in Hnd. destruct (storage_ nd) as [s p | e].
    + apply loads_positions; [lia | done].
    + rewrite app_nil_r. apply loads_ret.
Qed.

(** *** The filter of the fields *)

Definition filter_field_ok (s : bytes) : Prop :=
  str_ok s /\ s <> [] /\ s <> kAllRegularFieldsName /\ iequals s kAllVectorFieldsName = false /\ iequals s kRankFieldName = false.

Definition filter_ok (f : FieldsNamesFilter) : Prop :=
  Forall filter_field_ok (fields_ f) /\ (allRegularFields_ f = true -> allVectorFields_ f = true -> fields_ f = []).

Lemma filter_Add_field s l :
  filter_field_ok s -> filter_Add s (mk_fnf l false false) = (mk_fnf (l ++ [s]) false false, false).
Proof.
  intros (_ & Hne & Hr & Hv & Hk). unfold filter_Add.
  by rewrite bool_decide_eq_false_2, Hv, Hk, bool_decide_eq_false_2 by done.
Qed.

Lemma loads_filter_item s f f' b eps :
  str_ok s -> selectFilter_ b = f -> filter_Add s f = (f', false) ->
  loads (enc_field s) (_ ← put_item QuerySelectFilter; PutVString s) (b, eps) (set_selectFilter f' b, eps).
Proof.
  intros Hs Hf Ha. apply loads_item; [done |]. cbn [QueryBinary.read_item].
  apply sends_pure with s; [by apply sends_vstring |]. rewrite Hf, Ha, orb_false_r. by destruct b.
Qed.

Lemma loads_filter f b eps :
  filter_ok f -> selectFilter_ b = mk_fnf [] false false ->
  loads (enc_filter f) (put_filter f) (b, eps) (set_selectFilter f b, eps).
Proof.
  destruct f as [l r v]. intros [Hl He] Hb. cbn [fields_ allRegularFields_ allVectorFields_] in *. unfold put_filter.
  assert (AllRegularFields (mk_fnf l r v) && negb (fnf_Empty (mk_fnf l r v)) = r) as ->.
  { unfold AllRegularFields, fnf_Empty. cbn. by destruct r, v, (bool_decide (l = [])). }
  apply loads_bind with (set_selectFilter (mk_fnf l false false) b, eps).
  { replace b with (set_selectFilter (mk_fnf [] false false) b) at 1 by (rewrite <- Hb; by destruct b).
    apply (loads_all get_other joined _ _ _ (fun d => (set_selectFilter (mk_fnf d false false) b, eps)) l Hl).
    intros d s Hs. pose proof (filter_Add_field s d Hs) as Ha. destruct Hs as [Hs _].
    exact (loads_filter_item s _ _ (set_selectFilter (mk_fnf d false false) b) eps Hs eq_refl Ha). }
  apply loads_bind with (set_selectFilter (mk_fnf l r false) b, eps).
  { apply loads_if; [| by intros ->]. intros ->.
    by apply (loads_filter_item kAllRegularFieldsName (mk_fnf l false false) (mk_fnf l true false)
                (set_selectFilter (mk_fnf l false false) b)). }
  change (AllVectorFields (mk_fnf l r v)) with v. apply loads_if; [| by intros ->]. intros ->.
  assert (filter_Add kAllVectorFieldsName (mk_fnf l r false) = (mk_fnf l r true, false)) as Ha.
  { destruct r; [| done]. by rewrite He. }
  by apply (loads_filter_item kAllVectorFieldsName (mk_fnf l r false) (mk_fnf l r true)
              (set_selectFilter (mk_fnf l r false) b)).
Qed.

(** *** Updates *)

(** The mark of an array is set where there are several values; the mark of an expression is
    carried by the values. *)
Definition update_ok (u : UpdateEntry) : Prop :=
  str_ok (u_column u) /\ u_column u <> [] /\ values_ok (u_values u) /\ u_isObject u = false /\
  match u_mode u with
  | FieldModeSet => True
  | FieldModeSetJson => forallb is_string_value (u_values u) = true
  | FieldModeDrop => u_values u = [] /\ u_isArray u = false
  | FieldModeArrayPushBack | FieldModeArrayPushFront => False
  end /\
  (1 < zlen (u_values u) -> u_isArray u = true) /\ (u_values u = [] -> u_isExpression u = false).

Lemma sends_update_values e vs :
  values_ok vs -> (vs = [] -> e = false) ->
  sends (enc_all (fun v => uint64_pack (Z.b2z e) ++ enc_variant v) vs) (put_all (fun v => _ ← PutVarUint32 (Z.b2z e); PutVariant v) vs) (get_update_values (zlen vs)) (vs, e).
Proof.
  intros [_ Hv] He. destruct (put_b2z e) as [Hd Eb]. unfold get_update_values.
  apply sends_pure with (map (pair e) vs).
  - apply sends_all. eapply Forall_impl; [exact Hv |]. intros v Hok. cbv beta. split.
    + eapply sends_bind; [by apply sends_varuint32 |]. cbv beta. rewrite Eb. by apply sends_fmap, sends_variant.
    + destruct (variant_sizes v Hok) as [Hlen _]. rewrite zlen_app. pose proof (zlen_nonneg (uint64_pack (Z.b2z e))). lia.
  - intros s. unfold mret, M_ret. f_equal. f_equal. f_equal; [by rewrite map_map, map_id |].
    destruct vs as [| v vs _] using rev_ind; [by rewrite He |]. rewrite map_app; cbn [map]; by rewrite last_snoc.
Qed.

Lemma loads_update u b eps :
  update_ok u -> loads (enc_update u) (put_update u) (b, eps) (set_updateFields (updateFields_ b ++ [u]) b, eps).
Proof.
  destruct u as [f vs arr obj mode e]. unfold update_ok, put_update. cbn [u_column u_values u_isArray u_isObject u_mode u_isExpression].
  intros (Hs & Hne & Hv & -> & Hm & Harr & He). pose proof (zlen_nonneg vs). destruct (put_b2z arr) as [Hd Eb].
  assert (IsArrayValue (mk_ue f vs arr false mode e) = arr) as ->.
  { unfold IsArrayValue. cbn. destruct arr; [done |]. cbn. apply Z.ltb_ge.
    destruct (Z.le_gt_cases (zlen vs) 1) as [| Hgt]; [done |]. by specialize (Harr Hgt). }
  assert (forall m i, pure (b' ← add_update (UpdateEntry_make f vs i m e) b; keep b' eps)
            ((set_updateFields (updateFields_ b ++ [mk_ue f vs i false m e]) b, eps), false)) as Hadd.
  { intros m i. unfold UpdateEntry_make. by rewrite bool_decide_eq_false_2 by done. }
  destruct mode; try done.
  - apply loads_item; [done |]. cbn [QueryBinary.read_item].
    eapply sends_bind; [by apply sends_vstring |]. cbv beta.
    eapply sends_bind; [by apply sends_varuint32 |]. cbv beta. rewrite Eb.
    eapply sends_bind; [apply sends_varuint32; destruct Hv; lia |]. cbv beta.
    apply sends_pure with (vs, e); [by apply sends_update_values | apply Hadd].
  - destruct Hm as [-> ->]. rewrite He in * by done. apply loads_item; [done |].
    cbn [QueryBinary.read_item]. apply sends_pure with f; [by apply sends_vstring | apply Hadd].
  - apply loads_item; [done |]. cbn [QueryBinary.read_item].
    eapply sends_bind; [by apply sends_vstring |]. cbv beta.
    eapply sends_bind; [apply sends_varuint32; destruct Hv; lia |]. cbv beta.
    eapply sends_bind; [by apply sends_varuint32 |]. cbv beta.
    replace (Z.b2z arr =? 1) with arr by (by destruct arr).
    apply sends_pure with (vs, e); [by apply sends_update_values |].
    unfold SetObject_make. rewrite Hm. apply Hadd.
Qed.

(** *** Numbers *)

(** *** The whole of a query without its nested ones *)

Lemma set_entries_id b t : entries_ b = t -> set_entries t b = b.
Proof. intros <-. by destruct b. Qed.

Lemma add_root_positions l rest b :
  add_equal_positions (map (pair 0) l ++ rest) b = add_equal_positions rest (set_equalPositions (equalPositions_ b ++ l) b).
Proof.
  revert b. induction l as [| ep l IH]; intros b; cbn [map app].
  - rewrite app_nil_r. by destruct b.
  - cbn [add_equal_positions]. change (add_equal_position (0, ep) b) with (Ok (set_equalPositions (equalPositions_ b ++ [ep]) b)).
    rewrite R_bind_ok, IH. cbn [set_equalPositions equalPositions_]. by rewrite <- app_assoc.
Qed.

Lemma add_node_positions pre op s d l rest act k b :
  entries_ b = mk_tree (pre ++ mk_node op (SubTree s d) :: rest) act ->
  add_equal_positions (map (pair (Z.of_nat (length pre) + 1)) l ++ k) b =
  add_equal_positions k (set_entries (mk_tree (pre ++ mk_node op (SubTree s (d ++ l)) :: rest) act) b).
Proof.
  revert d b. induction l as [| ep l IH]; intros d b Hb; cbn [map app].
  - by rewrite app_nil_r, set_entries_id.
  - cbn [add_equal_positions]. unfold add_equal_position at 1. rewrite (proj2 (Z.eqb_neq _ _)) by lia.
    replace (Z.to_nat (Z.of_nat (length pre) + 1 - 1)) with (length pre) by lia.
    unfold node_at. rewrite Hb. cbn [container_ activeBrackets_]. rewrite list_lookup_middle by done.
    cbn [of_option mbind result_bind storage_ operation].
    rewrite (insert_app_r_alt pre _ (length pre)), Nat.sub_diag by done. cbn [insert list_insert].
    rewrite (IH (d ++ [ep])) by done. by rewrite <- app_assoc.
Qed.

Lemma add_bracket_positions c pre act b :
  entries_ b = mk_tree (pre ++ map bare_node c) act ->
  add_equal_positions (bracket_positions (length pre) c) b = Ok (set_entries (mk_tree (pre ++ c) act) b).
Proof.
  revert pre b. induction c as [| [op st] c IH]; intros pre b Hb; cbn [bracket_positions map] in *.
  - by rewrite set_entries_id.
  - assert (forall b', entries_ b' = mk_tree ((pre ++ [mk_node op st]) ++ map bare_node c) act ->
              add_equal_positions (bracket_positions (S (length pre)) c) b' = Ok (set_entries (mk_tree (pre ++ mk_node op st :: c) act) b')) as Hnext.
    { intros b' Hb'. pose proof (IH (pre ++ [mk_node op st]) b' Hb') as H. rewrite length_app, Nat.add_1_r in H.
      by rewrite H, <- app_assoc. }
    destruct st as [s p | e]; cbn [storage_ app]; cbn [bare_node operation storage_] in Hb.
    + rewrite (add_node_positions _ _ _ _ _ _ _ _ _ Hb). cbn [app]. rewrite Hnext; [done |]. by rewrite <- app_assoc.
    + apply Hnext. by rewrite <- app_assoc.
Qed.

Definition body_ok b : Prop :=
  str_ok (namespace_ b) /\
  repr (conditions b) (entries_ b) /\ activeBrackets_ (entries_ b) = [] /\ conditions_ok (conditions b) /\ zlen (container_ (entries_ b)) < 2 ^ 32 /\
  Forall strs_ok (equalPositions_ b) /\ Forall aggregation_ok (aggregations_ b) /\
  sorting_ok (sortingEntries_ b) (forcedSortOrder_ b) /\
  (if joined then Forall join_entry_ok (joinEntries_ b) else joinEntries_ b = []) /\
  Forall update_ok (updateFields_ b) /\ Forall str_ok (selectFunctions_ b) /\ filter_ok (selectFilter_ b) /\
  0 <= start_ b < 2 ^ 32 /\ 0 <= count_ b < 2 ^ 32 /\ 0 <= calcTotal_ b < 128 /\
  0 <= strictMode_ b < 2 ^ 32 /\ - 2 ^ 31 <= debugLevel_ b < 2 ^ 31.

(** [loads] up to the end of the query. *)
Definition finishes (bs : bytes) (m : M WrSerializer unit) (st r : @LoopState Y) : Prop :=
  starts bs /\ writes (10 * zlen bs) m bs /\
  forall fuel, (length bs < fuel)%nat -> reads (item_loop get_other fuel joined st) bs r.

Lemma finishes_bind bs1 bs2 m1 m2 st st1 r :
  loads bs1 m1 st st1 -> finishes bs2 m2 st1 r -> finishes (bs1 ++ bs2) (_ ← m1; m2) st r.
Proof.
  intros (S1 & W1 & R1) (S2 & W2 & R2). split_and!.
  - destruct S1 as [-> | S1]; [done | by apply starts_app].
  - rewrite zlen_app, Z.mul_add_distr_l. by apply writes_bind.
  - by apply R1.
Qed.

Lemma finishes_end st : finishes (enc_item QueryEnd) (put_item QueryEnd) st st.
Proof.
  split_and!; [by exists QueryEnd, []; rewrite app_nil_r | apply writes_item_number |].
  intros fuel Hf. apply loads_end. pose proof (enc_item_length QueryEnd). lia.
Qed.

Lemma conditions_positions (f : list (tree OpType EqualPositions (Entry (EntryData Y)))) :
  conditions_ok f -> Forall node_positions_ok (flats f).
Proof.
  assert (forall x, condition_ok x -> Forall node_positions_ok (flat x)) as H.
  { intros x. induction x as [op e | op p o ch IH] using tree_ind; intros Hx.
    - by apply Forall_singleton.
    - destruct Hx as (_ & Hp & Hch). rewrite flat_sub. apply Forall_cons. split; [done |].
      induction IH as [| y ch Hy _ IHch]; [done |]. destruct Hch as [H1 H2]. rewrite flats_cons.
      apply Forall_app. split; [by apply Hy | by apply IHch]. }
  induction f as [| x f IH]; [done |]. intros [Hx Hf]. rewrite flats_cons. apply Forall_app. split; [by apply H | by apply IH].
Qed.

(** A number of a query. *)
Ltac number n :=
  apply loads_item; [done |]; cbn [QueryBinary.read_item];
  apply sends_pure with n; [by apply sends_varuint32 | by rewrite u32_id by done].

Lemma loads_levels b0 b eps :
  - 2 ^ 31 <= debugLevel_ b0 < 2 ^ 31 -> 0 <= strictMode_ b0 < 2 ^ 32 -> strictMode_ b = 0 ->
  loads ((enc_item QueryDebugLevel ++ uint64_pack (u32 (debugLevel_ b0))) ++ enc_option QueryStrictMode (strictMode_ b0) 0)
    (put_levels b0) (b, eps) (set_strictMode (strictMode_ b0) (set_debugLevel (debugLevel_ b0) b), eps).
Proof.
  intros Hd Hs Hb. destruct (sends_int _ Hd) as [S E].
  apply loads_bind with (set_debugLevel (debugLevel_ b0) b, eps).
  - apply loads_item; [done |]. cbn [QueryBinary.read_item].
    apply sends_pure with (u32 (debugLevel_ b0)); [exact S | by rewrite E].
  - apply loads_unless; [intros _; number (strictMode_ b0) |]. intros ->%Z.eqb_eq. rewrite <- Hb. by destruct b.
Qed.

Lemma loads_functions l b eps :
  Forall str_ok l -> selectFunctions_ b = [] ->
  loads (enc_all (fun s => enc_item QuerySelectFunction ++ enc_str s) l) (put_all put_function l) (b, eps) (set_selectFunctions l b, eps).
Proof.
  intros Hl Hb. replace b with (set_selectFunctions [] b) at 1 by (rewrite <- Hb; by destruct b).
  apply (loads_all get_other joined _ _ _ (fun d => (set_selectFunctions d b, eps)) l Hl).
  intros d s Hs. apply loads_item; [done |]. cbn [QueryBinary.read_item].
  apply sends_pure with s; [by apply sends_vstring | done].
Qed.

Lemma loads_limits b0 b eps :
  0 <= count_ b0 < 2 ^ 32 -> 0 <= start_ b0 < 2 ^ 32 -> count_ b = kDefaultLimit -> start_ b = kDefaultOffset ->
  loads (enc_option QueryLimit (count_ b0) kDefaultLimit ++ enc_option QueryOffset (start_ b0) kDefaultOffset)
    (put_limits b0) (b, eps) (set_start (start_ b0) (set_count (count_ b0) b), eps).
Proof.
  intros Hc Hs Hbc Hbs. apply loads_bind with (set_count (count_ b0) b, eps); apply loads_unless.
  - intros _. number (count_ b0).
  - intros ->%Z.eqb_eq. rewrite <- Hbc. by destruct b.
  - intros _. number (start_ b0).
  - intros ->%Z.eqb_eq. rewrite <- Hbs. by destruct b.
Qed.

Lemma loads_options b0 b eps :
  0 <= calcTotal_ b0 < 128 -> filter_ok (selectFilter_ b0) -> calcTotal_ b = 0 ->
  selectFilter_ b = mk_fnf [] false false -> explain_ b = false -> local_ b = false -> withRank_ b = false ->
  loads (enc_option QueryReqTotal (calcTotal_ b0) 0 ++ enc_filter (selectFilter_ b0) ++
         enc_if (explain_ b0) QueryExplain ++ enc_if (local_ b0) QueryLocal ++ enc_if (withRank_ b0) QueryWithRank)
    (put_options b0) (b, eps)
    (set_withRank (withRank_ b0) (set_local (local_ b0) (set_explain (explain_ b0)
       (set_selectFilter (selectFilter_ b0) (set_calcTotal (calcTotal_ b0) b)))), eps).
Proof.
  intros Ht Hf H1 H2 H3 H4 H5. apply loads_bind with (set_calcTotal (calcTotal_ b0) b, eps).
  { apply loads_unless.
    - intros _. apply loads_item; [done |]. cbn [QueryBinary.read_item].
      apply sends_pure with (calcTotal_ b0); [by apply sends_enum | by rewrite u32_id by lia].
    - intros ->%Z.eqb_eq. rewrite <- H1. by destruct b. }
  eapply loads_bind; [by apply loads_filter |].
  set (b1 := set_selectFilter _ _).
  apply loads_bind with (set_explain (explain_ b0) b1, eps); [| apply loads_bind with (set_local (local_ b0) (set_explain (explain_ b0) b1), eps)];
    (apply loads_if_item; [done | intros Hb; rewrite Hb; apply sends_ret |]); intros Hb; rewrite Hb; subst b1;
    destruct b; cbn in *; subst; reflexivity.
Qed.

Lemma loads_updates l b eps :
  Forall update_ok l -> updateFields_ b = [] -> loads (enc_all enc_update l) (put_all put_update l) (b, eps) (set_updateFields l b, eps).
Proof.
  intros Hl Hb. replace b with (set_updateFields [] b) at 1 by (rewrite <- Hb; by destruct b).
  apply (loads_all get_other joined _ _ _ (fun d => (set_updateFields d b, eps)) l Hl).
  intros d u Hu. by apply (loads_update u (set_updateFields d b)).
Qed.

Lemma loads_aggregations l b eps :
  Forall aggregation_ok l -> aggregations_ b = [] -> loads (enc_all enc_aggregation l) (put_all put_aggregation l) (b, eps) (set_aggregations l b, eps).
Proof.
  intros Hl Hb. replace b with (set_aggregations [] b) at 1 by (rewrite <- Hb; by destruct b).
  apply (loads_all get_other joined _ _ _ (fun d => (set_aggregations d b, eps)) l Hl).
  intros d a Ha. by apply (loads_aggregation a (set_aggregations d b)).
Qed.

End Parts.

Section Whole.
Context {Y : Type} (as_double : Variant -> result Z) (put_other : OpType -> Entry (EntryData Y) -> M WrSerializer unit).
Context (get_other : QueryItemType -> @Body Y -> M Serializer (@Body Y)).

Notation serialize_body := (serialize_body as_double put_other).
Notation deserialize := (deserialize get_other).
Notation nested_loop := (nested_loop get_other).
Notation Serialize := (Serialize as_double put_other).

Definition mode_of (joined : bool) : Z := if joined then WithJoinEntries else 0.

Lemma mode_of_has joined :
  has (mode_of joined) SkipAggregations = false /\ has (mode_of joined) SkipSortEntries = false /\
  has (mode_of joined) WithJoinEntries = joined /\ has (mode_of joined) SkipExtraParams = false /\
  has (mode_of joined) SkipLimitOffset = false.
Proof. by destruct joined. Qed.

(** Everything after the namespace. *)
Lemma finishes_body joined b :
  body_ok joined b ->
  exists m bs, serialize_body joined (mode_of joined) b = (_ ← PutVString (namespace_ b); m) /\
    enc_body joined b = enc_str (namespace_ b) ++ bs /\
    finishes get_other joined bs m (Body_make (namespace_ b), [])
      (set_equalPositions [] (set_entries (mk_tree (map bare_node (container_ (entries_ b))) []) b),
       map (pair 0) (equalPositions_ b) ++ bracket_positions 0 (container_ (entries_ b))).
Proof.
  intros (Hns & Hr & Hcl & Hcond & Hsize & Heqp & Hagg & Hso & Hje & Huf & Hsf & Hfil & Hst & Hct & Hcal & Hsm & Hdl).
  eexists _, _. split; [reflexivity |]. split; [reflexivity |]. destruct (mode_of_has joined) as (-> & -> & -> & -> & ->).
  eapply finishes_bind; [apply (loads_entries as_double put_other get_other joined _ (conditions b)); [done | | done | done] |].
  { unfold closed. rewrite <- Hcl. symmetry. apply Hr. }
  eapply finishes_bind; [by apply loads_aggregations |].
  eapply finishes_bind; [by apply loads_sorting |].
  eapply finishes_bind; [by apply loads_joins |].
  eapply finishes_bind; [by apply (loads_positions get_other joined 0) |].
  eapply finishes_bind; [apply loads_bracket_positions; [done |]; rewrite (proj1 Hr); by apply conditions_positions |].
  eapply finishes_bind; [by apply loads_levels |].
  eapply finishes_bind; [by apply loads_functions |].
  eapply finishes_bind; [by apply loads_limits |].
  eapply finishes_bind; [by apply loads_options |].
  eapply finishes_bind; [by apply loads_updates |].
  destruct b. apply finishes_end.
Qed.

Lemma sends_body joined b :
  body_ok joined b ->
  sends (enc_body joined b) (serialize_body joined (mode_of joined) b) (ns ← GetVStringCopy; deserialize joined (Body_make ns)) b.
Proof.
  intros Hb. destruct (finishes_body joined b Hb) as (m & bs & -> & -> & _ & W & R).
  destruct Hb as (Hns & _ & Hcl & _). apply sends_bind with (namespace_ b); [by apply sends_vstring |].
  split; [exact W |]. unfold QueryBinary.deserialize.
  apply (reads_fuel (fun n => '(b, eps) ← item_loop get_other (S n) joined (Body_make (namespace_ b), []); lift (add_equal_positions eps b))).
  intros n Hn. rewrite <- (app_nil_r bs). eapply reads_bind; [apply R; lia |]. cbv beta iota.
  rewrite add_root_positions. cbn [set_equalPositions set_entries equalPositions_ app].
  rewrite (add_bracket_positions (container_ (entries_ b)) [] []) by done. cbn [app].
  replace (set_entries _ _) with b; [apply reads_ret |]. rewrite <- Hcl.
  by destruct b as [? ? ? ? [? ?]].
Qed.

(** *** Nested queries *)

(** [reads] up to the end of the buffer. *)
Definition ends {A} (m : M Serializer A) (bs : bytes) (a : A) : Prop :=
  forall pre, zlen (pre ++ bs) < 2 ^ 32 -> m (mk_ser (pre ++ bs) (zlen pre)) = (Ok a, mk_ser (pre ++ bs) (zlen (pre ++ bs))).

Lemma ends_bind {A B} (m : M Serializer A) (k : A -> M Serializer B) bs1 bs2 a b :
  reads m bs1 a -> ends (k a) bs2 b -> ends (m ≫= k) (bs1 ++ bs2) b.
Proof.
  intros H1 H2 pre Hl. rewrite (M_bind_ok _ _ _ _ _ (H1 pre bs2 Hl)).
  specialize (H2 (pre ++ bs1)). rewrite <- app_assoc, (zlen_app pre bs1) in H2. by rewrite H2.
Qed.

(** [loads] for the loop over the nested queries. *)
Definition nested (bs : bytes) (m : M WrSerializer unit) (q q' : @Query Y) : Prop :=
  writes (10 * zlen bs) m bs /\
  forall bs2 r, (forall fuel, (length bs2 < fuel)%nat -> ends (nested_loop fuel q') bs2 r) ->
    forall fuel, (length (bs ++ bs2) < fuel)%nat -> ends (nested_loop fuel q) (bs ++ bs2) r.

Lemma nested_ret q : nested [] (mret tt) q q.
Proof. split; [apply writes_ret |]. intros bs2 r H fuel Hf. by apply H. Qed.

Lemma nested_bind b1 b2 m1 m2 q q1 q2 :
  nested b1 m1 q q1 -> nested b2 m2 q1 q2 -> nested (b1 ++ b2) (_ ← m1; m2) q q2.
Proof.
  intros (W1 & R1) (W2 & R2). split.
  - rewrite zlen_app, Z.mul_add_distr_l. by apply writes_bind.
  - intros bs r H fuel Hf. rewrite <- app_assoc in *. apply R1; [| done]. intros fuel' Hf'. by apply R2.
Qed.

Lemma nested_ext bs m m' q q' : (forall w, m w = m' w) -> nested bs m q q' -> nested bs m' q q'.
Proof. intros E (W & R). split; [by eapply writes_ext | done]. Qed.

(** What [nested_loop] does with the query that it has read. *)
Definition nested_add (jt : Z) (q1 : @Body Y) (q : @Query Y) : result (@Query Y) :=
  if jt =? Merge then
    let '(mk_query b joins merges) := q in Ok (mk_query b joins (merges ++ [(jt, mk_query q1 [] [])]))
  else if ContainsKnnCondition q1 then Fail (Throw errQueryExec)
  else Ok (add_join jt q1 q).

Lemma nested_item jt jb q q' :
  0 <= jt < 2 ^ 32 -> body_ok true jb -> adoptNested (body q) jb = jb -> nested_add jt jb q = Ok q' ->
  nested (uint64_pack jt ++ enc_body true jb) (_ ← PutVarUint32 jt; serialize_body true WithJoinEntries jb) q q'.
Proof.
  intros Hjt Hjb Had Hq. destruct (sends_varuint32 jt Hjt) as (W1 & R1). pose proof (uint64_pack_len jt ltac:(lia)) as K1.
  destruct (sends_body true jb Hjb) as (W2 & R2). split.
  { rewrite zlen_app, Z.mul_add_distr_l. by apply writes_bind. }
  intros bs r H fuel Hf. destruct fuel as [| fuel]; [lia |]. rewrite !length_app in Hf. rewrite <- app_assoc.
  assert (length bs < fuel)%nat as Hf' by (unfold zlen in K1; lia).
  intros pre Hl. cbn [QueryBinary.nested_loop]. rewrite M_bind_get. unfold Eof, len_. cbn [buf_ pos_].
  rewrite (proj2 (Z.leb_gt _ _)).
  2: { pose proof (zlen_nonneg (enc_body true jb)); pose proof (zlen_nonneg bs). autorewrite with zlen. lia. }
  apply (ends_bind _ _ _ _ _ _ R1); [| done]. rewrite u32_id by done. intros pre' Hl'.
  rewrite <- (M_bind_assoc GetVStringCopy (fun ns => deserialize true (Body_make ns))).
  apply (ends_bind _ _ _ _ _ _ R2); [| done]. cbv zeta. rewrite Had. unfold nested_add in Hq.
  destruct (jt =? Merge).
  - destruct q as [b joins merges]. injection Hq as <-. by apply H.
  - destruct (ContainsKnnCondition jb); [done |]. injection Hq as <-. by apply H.
Qed.

Lemma nested_end fuel q : (0 < fuel)%nat -> ends (nested_loop fuel q) [] q.
Proof.
  intros Hf pre Hl. destruct fuel as [| fuel]; [lia |]. cbn [QueryBinary.nested_loop]. rewrite M_bind_get.
  unfold Eof, len_. cbn [buf_ pos_]. rewrite app_nil_r. by rewrite (proj2 (Z.leb_le _ _)) by lia.
Qed.

(** A joined query: a body without nested ones, with the levels of the query that it is joined to
    and without vector conditions. *)
Definition join_ok (outer : @Body Y) (j : Z * @Query Y) : Prop :=
  exists jb, snd j = mk_query jb [] [] /\ (fst j = LeftJoin \/ fst j = InnerJoin \/ fst j = OrInnerJoin) /\
    body_ok true jb /\ adoptNested outer jb = jb /\ ContainsKnnCondition jb = false.

(** A condition that stands for a join names one of the joins of its query. *)
Definition joins_in_range (b : @Body Y) (n : nat) : Prop :=
  Forall (fun nd => forall i, storage_ nd = Value (E_Join i) -> (i < n)%nat) (container_ (entries_ b)).

Definition merge_ok (outer : @Body Y) (m : Z * @Query Y) : Prop :=
  exists mb joins, snd m = mk_query mb joins [] /\ fst m = Merge /\ body_ok true mb /\ adoptNested outer mb = mb /\
    Forall (join_ok mb) joins /\ joins_in_range mb (length joins).

Definition query_ok (q : @Query Y) : Prop :=
  let '(mk_query b joins merges) := q in
  body_ok false b /\ Forall (join_ok b) joins /\ Forall (merge_ok b) merges /\ joins_in_range b (length joins).

(** The loops over the nested queries. *)
Definition put_joins (mode : Z) : list (Z * @Query Y) -> M WrSerializer unit :=
  fix go l :=
    match l with
    | [] => mret tt
    | (jt, jq) :: l =>
        _ ← if negb (has mode SkipLeftJoinQueries) || negb (jt =? LeftJoin)
            then _ ← PutVarUint32 jt; Serialize true WithJoinEntries jq else mret tt;
        go l
    end.

Definition put_merges (mode : Z) : list (Z * @Query Y) -> M WrSerializer unit :=
  fix go l :=
    match l with
    | [] => mret tt
    | (jt, mq) :: l =>
        _ ← PutVarUint32 jt; _ ← Serialize true (Z.land (Z.lor mode WithJoinEntries) (Z.lnot SkipSortEntries)) mq;
        go l
    end.

Lemma Serialize_unfold joined mode b joins merges :
  Serialize joined mode (mk_query b joins merges) =
  (_ ← serialize_body joined mode b;
   _ ← if has mode SkipJoinQueries then mret tt else put_joins mode joins;
   if has mode SkipMergeQueries then mret tt else put_merges mode merges).
Proof. reflexivity. Qed.

Lemma Serialize_body joined mode b w : Serialize joined mode (mk_query b [] []) w = serialize_body joined mode b w.
Proof.
  rewrite Serialize_unfold. cbn [put_joins put_merges]. unfold mbind, M_bind.
  destruct (serialize_body joined mode b w) as [[[] |] w']; [| done].
  by destruct (has mode SkipJoinQueries), (has mode SkipMergeQueries).
Qed.

Lemma adopted_trans (outer mb jb : @Body Y) :
  adoptNested outer mb = mb -> adoptNested mb jb = jb -> adoptNested outer jb = jb.
Proof.
  intros H1 H2. destruct outer, mb, jb. unfold adoptNested in *. cbn in *. injection H1. injection H2. congruence.
Qed.

(** Joins are added to the query that [upd] builds. *)
Lemma nested_joins mode (upd : list (Z * @Query Y) -> @Query Y) outer l :
  has mode SkipLeftJoinQueries = false -> Forall (join_ok outer) l ->
  (forall d, adoptNested (body (upd d)) outer = outer) ->
  (forall d jt jb, adoptNested outer jb = jb -> add_join jt jb (upd d) = upd (d ++ [(jt, mk_query jb [] [])])) ->
  forall d, nested (enc_all enc_join l) (put_joins mode l) (upd d) (upd (d ++ l)).
Proof.
  intros Hm Hl Hupd Hadd. induction Hl as [| [jt jq] l (jb & E & Hjt & Hjb & Had & Hk) _ IH]; intros d.
  { rewrite app_nil_r. apply nested_ret. }
  cbn [put_joins fst snd] in *. subst jq. rewrite Hm. cbn [negb orb].
  replace (d ++ (jt, mk_query jb [] []) :: l) with ((d ++ [(jt, mk_query jb [] [])]) ++ l) by (by rewrite <- app_assoc).
  eapply nested_bind; [| apply IH].
  apply nested_ext with (_ ← PutVarUint32 jt; serialize_body true WithJoinEntries jb).
  { intros w. unfold mbind, M_bind. destruct (PutVarUint32 jt w) as [[[] |] w']; [| done]. by rewrite Serialize_body. }
  apply nested_item; [by destruct Hjt as [-> | [-> | ->]] | done | by eapply adopted_trans |].
  unfold nested_add. rewrite Hk, Hadd by done. by destruct Hjt as [-> | [-> | ->]].
Qed.

(** Merged queries are added with their joins. *)
Lemma nested_merges b joins l :
  Forall (merge_ok b) l ->
  forall d, nested (enc_all enc_merge l) (put_merges 0 l) (mk_query b joins d) (mk_query b joins (d ++ l)).
Proof.
  intros Hl. induction Hl as [| [jt mq] l (mb & mjoins & E & Hjt & Hmb & Had & Hj & _) _ IH]; intros d.
  { rewrite app_nil_r. apply nested_ret. }
  cbn [fst snd] in *. subst jt mq.
  replace (d ++ (Merge, mk_query mb mjoins []) :: l) with ((d ++ [(Merge, mk_query mb mjoins [])]) ++ l) by (by rewrite <- app_assoc).
  change (enc_all enc_merge ((Merge, mk_query mb mjoins []) :: l)) with
    (((uint64_pack Merge ++ enc_body true mb) ++ enc_all enc_join mjoins) ++ enc_all enc_merge l).
  apply nested_ext with (_ ← (_ ← (_ ← PutVarUint32 Merge; serialize_body true WithJoinEntries mb); put_joins WithJoinEntries mjoins);
                         put_merges 0 l).
  { intros w. cbn [put_merges]. change (Z.land (Z.lor 0 WithJoinEntries) (Z.lnot SkipSortEntries)) with WithJoinEntries.
    rewrite Serialize_unfold. unfold mbind, M_bind. destruct (PutVarUint32 Merge w) as [[[] |] w1]; [| done].
    destruct (serialize_body true WithJoinEntries mb w1) as [[[] |] w2]; [| done].
    change (has WithJoinEntries SkipJoinQueries) with false. cbv iota.
    by destruct (put_joins WithJoinEntries mjoins w2) as [[[] |] w3]. }
  eapply nested_bind; [| apply IH]. eapply nested_bind.
  - by apply (nested_item Merge mb (mk_query b joins d) (mk_query b joins (d ++ [(Merge, mk_query mb [] [])]))).
  - apply (nested_joins WithJoinEntries (fun e => mk_query b joins (d ++ [(Merge, mk_query mb e [])])) mb mjoins); [done.. |].
    intros e jt jb Hjb. cbn [add_join]. by rewrite last_snoc, removelast_last, Hjb.
Qed.

(** The check of the indexes of joins passes. *)
Lemma checkJoinEntries_ok b joins merges : joins_in_range b (length joins) -> checkJoinEntries (mk_query b joins merges) = Ok tt.
Proof.
  intros H. unfold checkJoinEntries. rewrite (proj2 (forallb_forall _ _)); [done |].
  intros nd Hin%list_elem_of_In. unfold joins_in_range in H. rewrite Forall_forall in H. specialize (H nd Hin).
  destruct (storage_ nd) as [s p | [| i | | | | | | | | |]]; try done. by apply Nat.ltb_lt, H.
Qed.

Lemma checkAllJoinEntries_ok q : query_ok q -> checkAllJoinEntries q = Ok tt.
Proof.
  destruct q as [b joins merges]. intros (_ & _ & Hm & Hj). unfold checkAllJoinEntries.
  rewrite checkJoinEntries_ok by done. cbn [mbind result_bind]. clear Hj.
  induction Hm as [| [jt mq] merges (mb & mjoins & E & _ & _ & _ & _ & Hr) _ IH]; [done |].
  cbn [foldl fst snd] in *. subst mq. by rewrite R_bind_ok, checkJoinEntries_ok.
Qed.

(** The room of a fresh serializer. *)
Lemma wr_room_fresh n : n < 2 ^ 32 -> wr_room (wr_make 0) n.
Proof.
  intros Hn. unfold wr_room, kSaneSize. cbn [wr_make w_bytes w_maxCap].
  change (GrowthPolicy_make 0) with kMaxCapacity. rewrite zlen_nil. unfold kMaxCapacity. lia.
Qed.

(** C9: a query survives the binary protocol. For every well-formed query [Serialize] puts
    exactly the bytes of the format, whatever is in the serializer before, and [Deserialize] makes
    of these bytes the same query: the conditions with their brackets, operations and equal
    positions, the aggregations, the sorting, the limits and options, the updates, the joined and
    merged queries with their own; and it stops at the end of the bytes. *)
Theorem query_roundtrip q :
  query_ok q -> 10 * zlen (enc_query q) < 2 ^ 32 ->
  exists w, Serialize false 0 q (wr_make 0) = (Ok tt, w) /\ w_bytes w = enc_query q /\
    Deserialize get_other (ser_make (w_bytes w)) = (Ok q, mk_ser (enc_query q) (zlen (enc_query q))).
Proof.
  intros Hq Hlen. pose proof (checkAllJoinEntries_ok q Hq) as Hcheck.
  destruct q as [b joins merges]. destruct Hq as (Hb & Hj & Hm & _).
  destruct (sends_body false b Hb) as (W1 & R1).
  destruct (nested_joins 0 (fun d => mk_query b d []) b joins) with (d := @nil (Z * @Query Y)) as (W2 & R2); [done | done | | |].
  { intros d. by destruct b. }
  { intros d jt jb Hjb. cbn [add_join last]. by rewrite Hjb. }
  destruct (nested_merges b joins merges Hm []) as (W3 & R3).
  assert (writes (10 * zlen (enc_query (mk_query b joins merges))) (Serialize false 0 (mk_query b joins merges))
            (enc_query (mk_query b joins merges))) as (Wn & _ & W).
  { rewrite Serialize_unfold. cbn [enc_query]. rewrite !zlen_app, !Z.mul_add_distr_l. by repeat apply writes_bind. }
  destruct (W (wr_make 0)) as (w & E & B & _ & _); [by vm_compute | by apply wr_room_fresh |].
  exists w. split; [exact E |]. split; [exact B |]. rewrite B. cbn [wr_make w_bytes app].
  pose proof (zlen_nonneg (enc_query (mk_query b joins merges))) as Hn. cbn [enc_query] in *.
  enough (ends (Deserialize get_other) (enc_body false b ++ enc_all enc_join joins ++ enc_all enc_merge merges) (mk_query b joins merges))
    as H by (apply (H []); cbn [app]; lia).
  intros pre Hl. unfold Deserialize.
  rewrite <- (M_bind_assoc GetVStringCopy (fun ns => deserialize false (Body_make ns))).
  apply (ends_bind _ _ _ _ _ _ R1); [| done]. clear pre Hl. intros pre Hl. rewrite M_bind_get. cbn [buf_].
  assert (ends (nested_loop (S (length (pre ++ enc_all enc_join joins ++ enc_all enc_merge merges))) (mk_query b [] []))
            (enc_all enc_join joins ++ enc_all enc_merge merges) (mk_query b joins merges)) as He.
  { apply R2; [| rewrite !length_app; lia]. intros fuel Hf. rewrite <- (app_nil_r (enc_all enc_merge merges)) in Hf |- *.
    apply R3; [| exact Hf]. intros fuel' Hf'. by apply nested_end. }
  rewrite (M_bind_ok _ _ _ _ _ (He pre Hl)), Hcheck. reflexivity.
Qed.

End Whole.

(** ** A query with everything

    [SELECT name, rank FROM a WHERE (x > 5 OR dist within 3) AND NOT y = 'z' AND JOIN b ...], with
    equal positions at the root and in the bracket, a facet, a forced order, an update, a left
    join, and a merged query with a join of its own. *)

Definition no_double (v : Variant) : result Z := Fail Undefined.
Definition no_put (op : OpType) (e : Entry (EntryData unit)) : M WrSerializer unit := fail Undefined.
Definition no_get (i : QueryItemType) (b : @Body unit) : M Serializer (@Body unit) := fail Undefined.

Definition sample_conditions : list (tree OpType EqualPositions (Entry (EntryData unit))) :=
  [Sub OpAnd [[[120]; [121]]] false
     [Leaf OpAnd (E_Query (mk_qe [120] [V_Int 5] CondGt false false));
      Leaf OpOr (E_Query (mk_qe [112] [V_Tuple [V_Double 0; V_Double 4607182418800017408]; V_Int64 3] CondDWithin false false))];
   Leaf OpNot (E_Query (mk_qe [121] [V_String [122]] CondEq false false));
   Leaf OpAnd (E_Knn (D_Knn [118] (KnnVector [1; 2]) (KnnHnsw (Some 10) None 50)));
   Leaf OpOr (E_Join 0)].

Definition sample_join (jt : Z) : Z * @Query unit :=
  (jt, mk_query (set_joinEntries [mk_qje OpAnd CondEq [105] [106]] (set_debugLevel (-1) (Body_make [98]))) [] []).

Definition sample_body : @Body unit :=
  mk_body [97] 7 20 2 (mk_tree (flats sample_conditions) []) [[[120]]]
    [mk_agg AggFacet [[120]; [121]] [mk_se [120] true] 5 1; mk_agg AggMax [[120]] [] kDefaultLimit kDefaultOffset]
    [mk_se [120] true; mk_se [121] false] [V_Int 3; V_String [115]] []
    [mk_ue [120] [V_Int 1; V_Int 2] true false FieldModeSet false; mk_ue [122] [] false false FieldModeDrop false]
    [[102]] (mk_fnf [[120]] false true) true false false 0 (-1).

Definition sample_query : @Query unit :=
  mk_query sample_body [sample_join InnerJoin]
    [(Merge, mk_query (set_debugLevel (-1) (Body_make [99])) [sample_join LeftJoin] [])].

(** The conditions of [query_ok] at a concrete query. *)
Ltac decide_ok :=
  match goal with
  | |- True => exact I
  | |- _ = _ => first [reflexivity | vm_compute; reflexivity]
  | H : _ = _ |- (_ < _)%nat => injection H as <-; apply Nat.lt_0_succ
  | |- _ /\ _ => split; decide_ok
  | |- Forall _ [] => constructor
  | |- Forall _ (_ :: _) => constructor; decide_ok
  | |- Forall _ _ => progress cbn; decide_ok
  | |- _ \/ _ => first [left; solve [decide_ok] | right; decide_ok]
  | |- exists _, _ => eexists; decide_ok
  | |- _ -> _ => let H := fresh in intros H; first [discriminate H | vm_compute in H; discriminate H | decide_ok]
  | |- _ => progress hnf; decide_ok
  end.

Lemma query_roundtrip_witness :
  query_ok sample_query /\
  exists w, Serialize no_double no_put false 0 sample_query (wr_make 0) = (Ok tt, w) /\
    Deserialize no_get (ser_make (w_bytes w)) = (Ok sample_query, mk_ser (enc_query sample_query) (zlen (enc_query sample_query))).
Proof.
  assert (query_ok sample_query) as Hq.
  { decide_ok. }
  split; [exact Hq |].
  destruct (query_roundtrip no_double no_put no_get sample_query Hq) as (w & E & B & D); [vm_compute; reflexivity |].
  exists w. split; [exact E | exact D].
Defined.

(** ** Queries that do not travel *)

(** The type of a join condition tells AND and OR only, so that [NOT JOIN] arrives as [OR JOIN]. *)
Example not_join_becomes_or (i : nat) :
  serialize_entry no_double no_put OpNot (E_Join i) = serialize_entry no_double no_put OpOr (E_Join i).
Proof. reflexivity. Qed.

(** An equal position behind the last node is read out of the bounds of the vector. *)
Example equal_position_out_of_range :
  add_equal_position (20, [[120]]) sample_body = Fail Undefined.
Proof. reflexivity. Qed.

(** One that names a condition and not a bracket is rejected. *)
Example equal_position_of_condition :
  add_equal_position (2, [[120]]) sample_body = Fail (Throw errParseBin).
Proof. reflexivity. Qed.
