(* ===== verification/HVector.v ===== *)
(** The vector with inline storage: [estl/h_vector.h].

    The storage is a list of cells, inline ([kHoldSize] cells) or on the heap; a cell with no
    object is raw memory. Placement [new] needs a cell of the storage, an assignment needs an
    object in it (or a trivial type), and the destructor ends it. The state in which a move leaves
    its source is the parameter [moved]. The arguments are values: an argument that refers to an
    element of the vector itself is not modelled. [std::logic_error] is [Throw errLogic]. *)

From S2P Require Import Prelude.

(** ** Storage and loops *)

Section HVector.
Context {T : Type} (kHoldSize : Z) (trivially_destructible trivially_default : bool).
Context (moved : T -> T) (T_default : T).

#[local] Abbreviation cells := (list (option T)).

(** [size_] and [is_hdata_] share a word; [e_.cap_] is the length of the storage on the heap. *)
Record h_vector : Type := mk_hv { mem : cells; size_ : Z; is_hdata_ : bool }.

Definition raw (n : Z) : cells := replicate (Z.to_nat n) None.

Definition h_vector_make : h_vector := mk_hv (raw kHoldSize) 0 true.

Definition max_size : Z := Z.shiftr (2 ^ 32 - 1) 1.

Definition capacity (h : h_vector) : Z := if is_hdata_ h then kHoldSize else zlen (mem h).

Definition size (h : h_vector) : Z := size_ h.

(** An object is read, made by placement [new], assigned to, destroyed or moved away. *)
Definition rd (m : cells) (i : Z) : result T :=
  match znth m i with Some (Some x) => Ok x | _ => Fail Undefined end.

Definition construct (i : Z) (x : T) (m : cells) : result cells :=
  match znth m i with Some _ => Ok (zset m i (Some x)) | None => Fail Undefined end.

Definition assign_at (i : Z) (x : T) (m : cells) : result cells :=
  match znth m i with
  | Some (Some _) => Ok (zset m i (Some x))
  | Some None => if trivially_destructible then Ok (zset m i (Some x)) else Fail Undefined
  | None => Fail Undefined
  end.

Definition destroy (i : Z) (m : cells) : result cells :=
  match znth m i with
  | Some (Some _) => Ok (if trivially_destructible then m else zset m i None)
  | Some None => if trivially_destructible then Ok m else Fail Undefined
  | None => Fail Undefined
  end.

Definition move_out (i : Z) (m : cells) : result (T * cells) :=
  x ← rd m i; mret (x, zset m i (Some (moved x))).

(** [for (; cond(j); --j)] and [n] steps of [for (; ...; ++i)]. *)
Fixpoint for_down (fuel : nat) (cond : Z -> bool) (body : Z -> cells -> result cells) (j : Z)
    (m : cells) : result (Z * cells) :=
  match fuel with
  | O => Fail OutOfFuel
  | S fuel =>
      if cond j then m ← body j m; for_down fuel cond body (j - 1) m else Ok (j, m)
  end.

Fixpoint for_up (n : nat) (body : Z -> cells -> result cells) (i : Z) (m : cells) : result cells :=
  match n with
  | O => Ok m
  | S n => m ← body i m; for_up n body (i + 1) m
  end.

(** The destructors of the elements [i..hi). *)
Definition destroy_range (i hi : Z) (m : cells) : result cells :=
  if trivially_destructible then Ok m else for_up (Z.to_nat (hi - i)) destroy i m.

(** ** Operations *)

(** The moved elements are destroyed with the old storage. *)
Definition reserve (sz : Z) (h : h_vector) : result h_vector :=
  if capacity h <? sz then
    if max_size <? sz then Fail (Throw errLogic)
    else if sz <=? kHoldSize then Fail (Throw errLogic)
    else
      m ← for_up (Z.to_nat (size_ h)) (fun i m => x ← rd (mem h) i; construct i x m) 0 (raw sz);
      mret (mk_hv m (size_ h) false)
  else Ok h.

Definition grow (sz : Z) (h : h_vector) : result h_vector :=
  let cap := capacity h in
  if cap <? sz then reserve (Z.max sz (Z.min max_size (u32 (cap * 2)))) h else Ok h.

Definition push_back (v : T) (h : h_vector) : result h_vector :=
  let size := size_ h in
  h ← grow (u32 (size + 1)) h;
  m ← construct size v (mem h);
  mret (mk_hv m (size + 1) (is_hdata_ h)).

Definition pop_back (h : h_vector) : result h_vector :=
  if size_ h =? 0 then Fail AssertFail
  else
    m ← destroy (size_ h - 1) (mem h);
    mret (mk_hv m (size_ h - 1) (is_hdata_ h)).

Definition insert (i : Z) (v : T) (h : h_vector) : result h_vector :=
  let sz := size_ h in
  if i =? sz then push_back v h
  else if sz <=? i then Fail AssertFail
  else
    h ← grow (u32 (sz + 1)) h;
    p ← move_out (sz - 1) (mem h);
    m ← construct sz (fst p) (snd p);
    m ← for_down (S (Z.to_nat sz)) (fun j => i <? j)
          (fun j m => p ← move_out (j - 1) m; assign_at j (fst p) (snd p)) (sz - 1) m;
    m ← assign_at i v (snd m);
    mret (mk_hv m (sz + 1) (is_hdata_ h)).

(** The four loops of the inserts of several elements; [value j] is what goes to the place [j]:
    the same value, or the next one from the end of the range. *)
Definition insert_gap (i count : Z) (value : Z -> T) (h : h_vector) : result h_vector :=
  let sz := size_ h in
  if sz <? i then Fail AssertFail
  else
    h ← grow (u32 (sz + count)) h;
    let fuel := S (Z.to_nat (sz + count)) in
    let shift new := fun j m => p ← move_out (j - count) m; (if new : bool then construct else assign_at) j (fst p) (snd p) in
    p ← for_down fuel (fun j => (sz <=? j) && (count + i <=? j)) (shift true) (sz + count - 1) (mem h);
    p ← for_down fuel (fun j => count + i <=? j) (shift false) (fst p) (snd p);
    p ← for_down fuel (fun j => sz <=? j) (fun j => construct j (value j)) (fst p) (snd p);
    p ← for_down fuel (fun j => i <=? j) (fun j => assign_at j (value j)) (fst p) (snd p);
    mret (mk_hv (snd p) (sz + count) (is_hdata_ h)).

Definition insert_count (i count : Z) (v : T) (h : h_vector) : result h_vector :=
  if count =? 0 then Ok h else insert_gap i count (fun _ => v) h.

Definition insert_range (i : Z) (data : list T) (h : h_vector) : result h_vector :=
  let cnt := zlen data in
  if cnt =? 0 then Ok h
  else insert_gap i cnt (fun j => default T_default (znth data (j - i))) h.

(** [std::move(first, last, d_first)] to a place before. *)
Definition move_down (i cnt sz : Z) (m : cells) : result cells :=
  for_up (Z.to_nat (sz - cnt - i)) (fun j m => p ← move_out (j + cnt) m; assign_at j (fst p) (snd p)) i m.

Definition erase (i : Z) (h : h_vector) : result h_vector :=
  let sz := size_ h in
  if negb (i <? sz) then Fail AssertFail
  else
    m ← move_down i 1 sz (mem h);
    m ← destroy_range (sz - 1) sz m;
    mret (mk_hv m (sz - 1) (is_hdata_ h)).

Definition erase_range (i last : Z) (h : h_vector) : result h_vector :=
  let cnt := last - i in
  let sz := size_ h in
  if cnt =? 0 then (if sz <? i then Fail AssertFail else Ok h)
  else if negb (i <? sz) then Fail AssertFail
  else
    m ← move_down i cnt sz (mem h);
    m ← destroy_range (sz - cnt) sz m;
    mret (mk_hv m (sz - cnt) (is_hdata_ h)).

(** [clear<FreeHeapMemory>]. *)
Definition clear (FreeHeapMemory : bool) (h : h_vector) : result h_vector :=
  if FreeHeapMemory then
    m ← destroy_range 0 (size_ h) (mem h);
    Ok (mk_hv (if is_hdata_ h then m else raw kHoldSize) 0 true)
  else
    m ← destroy_range 0 (size_ h) (mem h);
    mret (mk_hv m 0 (is_hdata_ h)).

Definition resize (sz : Z) (h : h_vector) : result h_vector :=
  h ← grow sz h;
  let old_sz := size_ h in
  m ← if trivially_default then Ok (mem h)
      else for_up (Z.to_nat (sz - old_sz)) (fun i => construct i T_default) old_sz (mem h);
  m ← destroy_range sz old_sz m;
  mret (mk_hv m sz (is_hdata_ h)).

Definition resize_value (sz : Z) (default_value : T) (h : h_vector) : result h_vector :=
  h ← grow sz h;
  let old_sz := size_ h in
  m ← for_up (Z.to_nat (sz - old_sz)) (fun i => construct i default_value) old_sz (mem h);
  m ← destroy_range sz old_sz m;
  mret (mk_hv m sz (is_hdata_ h)).

(** [assign(first, last)]: the range is outside of the vector. *)
Definition assign (data : list T) (h : h_vector) : result h_vector :=
  let cnt := zlen data in
  let cap := capacity h in
  h ← if (cnt <=? cap) && (cap - Z.shiftr cnt 2 <=? cnt) then clear false h
      else h ← clear true h; grow cnt h;
  m ← for_up (length data) (fun i m => x ← of_option Undefined (znth data i); construct i x m) 0 (mem h);
  mret (mk_hv m cnt (is_hdata_ h)).

(** The new vector and the emptied source. *)
Definition move_make (other : h_vector) : result (h_vector * h_vector) :=
  if is_hdata_ other then
    p ← for_up (Z.to_nat (size_ other))
          (fun i m => x ← rd (mem other) i; construct i x m) 0 (mem h_vector_make);
    o ← destroy_range 0 (size_ other) (mem other);
    mret (mk_hv p (size_ other) true, mk_hv o 0 true)
  else mret (mk_hv (mem other) (size_ other) false, mk_hv (raw kHoldSize) 0 true).

Definition move_assign (other h : h_vector) : result (h_vector * h_vector) :=
  h ← clear true h;
  if is_hdata_ other then
    p ← for_up (Z.to_nat (size_ other))
          (fun i m => x ← rd (mem other) i; construct i x m) 0 (mem h);
    o ← destroy_range 0 (size_ other) (mem other);
    mret (mk_hv p (size_ other) (is_hdata_ h), mk_hv o 0 true)
  else mret (mk_hv (mem other) (size_ other) false, mk_hv (raw kHoldSize) 0 true).

Definition copy_make (other : h_vector) : result h_vector :=
  h ← reserve (capacity other) h_vector_make;
  m ← for_up (Z.to_nat (size_ other)) (fun i m => x ← rd (mem other) i; construct i x m) 0 (mem h);
  mret (mk_hv m (size_ other) (is_hdata_ h)).

Definition copy_assign (other h : h_vector) : result h_vector :=
  h ← reserve (capacity other) h;
  let mv := if size_ h <? size_ other then size_ h else size_ other in
  m ← for_up (Z.to_nat mv) (fun i m => x ← rd (mem other) i; assign_at i x m) 0 (mem h);
  m ← for_up (Z.to_nat (size_ other - mv)) (fun i m => x ← rd (mem other) i; construct i x m) mv m;
  m ← destroy_range (size_ other) (size_ h) m;
  mret (mk_hv m (size_ other) (is_hdata_ h)).

(** The elements are move-assigned to the new storage, which is raw. *)
Definition shrink_to_fit (h : h_vector) : result h_vector :=
  let sz := size_ h in
  if is_hdata_ h || (sz =? capacity h) then Ok h
  else
    tmp ← reserve sz h_vector_make;
    m ← for_up (Z.to_nat sz) (fun i m => x ← rd (mem h) i; assign_at i x m) 0 (mem tmp);
    p ← move_assign (mk_hv m sz (is_hdata_ tmp)) h;
    mret (fst p).

Definition index (h : h_vector) (pos : Z) : result T :=
  if size_ h <=? pos then Fail AssertFail else rd (mem h) pos.

Definition at_ (h : h_vector) (pos : Z) : result T :=
  if size_ h <=? pos then Fail (Throw errLogic) else rd (mem h) pos.

Definition back (h : h_vector) : result T :=
  if size_ h =? 0 then Fail AssertFail else rd (mem h) (size_ h - 1).

Definition front (h : h_vector) : result T :=
  if size_ h =? 0 then Fail AssertFail else rd (mem h) 0.

(** [operator==]. *)
Fixpoint equal_loop (eqb : T -> T -> bool) (n : nat) (i : Z) (h other : h_vector) : result bool :=
  match n with
  | O => Ok true
  | S n =>
      x ← rd (mem h) i; y ← rd (mem other) i;
      if eqb x y then equal_loop eqb n (i + 1) h other else Ok false
  end.

Definition equal (eqb : T -> T -> bool) (h other : h_vector) : result bool :=
  if negb (size_ h =? size_ other) then Ok false
  else equal_loop eqb (Z.to_nat (size_ h)) 0 h other.

(** ** What the storage holds *)

(** The vector stands for the list [l]: its elements, then [spare] cells; the spare cells hold no
    objects that have a destructor to run. *)
Definition hv (h : h_vector) (l : list T) : Prop :=
  exists spare, mem h = (Some <$> l) ++ spare /\ size_ h = zlen l /\
    (trivially_destructible = false -> Forall (fun c => c = None) spare) /\
    (if is_hdata_ h then zlen (mem h) = kHoldSize else kHoldSize < zlen (mem h) <= max_size).

Context (Hhold : 0 < kHoldSize <= max_size).

Lemma rd_mid (a b : cells) x i : i = zlen a -> rd (a ++ Some x :: b) i = Ok x.
Proof. intros ->. unfold rd. by rewrite znth_mid. Qed.

Lemma construct_mid (a b : cells) c x i : i = zlen a -> construct i x (a ++ c :: b) = Ok (a ++ Some x :: b).
Proof. intros ->. unfold construct. by rewrite znth_mid, zset_mid. Qed.

Lemma assign_mid (a b : cells) y x i : i = zlen a -> assign_at i x (a ++ Some y :: b) = Ok (a ++ Some x :: b).
Proof. intros ->. unfold assign_at. by rewrite znth_mid, zset_mid. Qed.

Lemma move_out_mid (a b : cells) x i : i = zlen a -> move_out i (a ++ Some x :: b) = Ok (x, a ++ Some (moved x) :: b).
Proof. intros H. unfold move_out. rewrite rd_mid by done. cbn. by rewrite zset_mid. Qed.

Lemma destroy_mid (a b : cells) x i : trivially_destructible = false -> i = zlen a ->
  destroy i (a ++ Some x :: b) = Ok (a ++ None :: b).
Proof. intros Ht ->. unfold destroy. by rewrite znth_mid, Ht, zset_mid. Qed.

Lemma objects (m : cells) : Forall is_Some m -> exists l, m = Some <$> l.
Proof. induction 1 as [| c m [x ->] _ [l ->]]; [by exists [] | by exists (x :: l)]. Qed.

Lemma zlen_raw n : 0 <= n -> zlen (raw n) = n.
Proof. apply zlen_replicate. Qed.

Lemma raw_None n : Forall (fun c => c = None) (raw n).
Proof. apply Forall_forall. intros c. unfold raw. by intros [-> _]%elem_of_replicate. Qed.

(** *** Loops upwards *)

(** Filling cells from the place [zlen a] with [l]. *)
Lemma fill_up (body : Z -> cells -> result cells) (l : list T) (a old spare : cells) i :
  length old = length l -> i = zlen a ->
  (forall l1 x l2 o old2, l = l1 ++ x :: l2 -> old = take (length l1) old ++ o :: old2 ->
     body (i + zlen l1) ((a ++ (Some <$> l1)) ++ o :: old2 ++ spare)
     = Ok ((a ++ (Some <$> l1)) ++ Some x :: old2 ++ spare)) ->
  for_up (length l) body i (a ++ old ++ spare) = Ok (a ++ (Some <$> l) ++ spare).
Proof.
  intros Hl Hi Hb.
  cut (forall l1 l2 old2, l = l1 ++ l2 -> old = take (length l1) old ++ old2 -> length old2 = length l2 ->
    for_up (length l2) body (i + zlen l1) ((a ++ (Some <$> l1)) ++ old2 ++ spare)
    = Ok (a ++ (Some <$> l) ++ spare)).
  { intros H. specialize (H [] l old eq_refl eq_refl Hl). cbn in H.
    by rewrite Z.add_0_r, app_nil_r in H. }
  intros l1 l2. revert l1. induction l2 as [| x l2 IH]; intros l1 old2 El Eo Hlen.
  - destruct old2; [| done]. rewrite El, app_nil_r. cbn. by rewrite <- app_assoc.
  - destruct old2 as [| o old2]; [done |]. cbn [length for_up app].
    rewrite (Hb l1 x l2 o old2 El Eo). cbn [mbind result_bind].
    specialize (IH (l1 ++ [x]) old2). rewrite fmap_app, zlen_app, <- !app_assoc in IH. cbn in IH.
    change (zlen [x]) with 1 in IH. rewrite Z.add_assoc in IH. rewrite <- !app_assoc. cbn.
    apply IH; [done | | by injection Hlen].
    assert (length l1 + S (length l2) = length old)%nat as E.
    { rewrite Hl, El, length_app. cbn. lia. }
    rewrite length_app, Nat.add_1_r, (take_S_r _ _ o).
    + rewrite <- app_assoc. cbn. exact Eo.
    + rewrite Eo, lookup_app_r by (rewrite length_take; lia).
      rewrite length_take, Nat.min_l by lia. by rewrite Nat.sub_diag.
Qed.

Lemma construct_up (value : Z -> T) (l : list T) (a old spare : cells) i :
  length old = length l -> i = zlen a ->
  (forall k x, l !! k = Some x -> value (i + Z.of_nat k) = x) ->
  for_up (length l) (fun j => construct j (value j)) i (a ++ old ++ spare) = Ok (a ++ (Some <$> l) ++ spare).
Proof.
  intros Hl Hi Hv. apply fill_up; [done.. |]. intros l1 x l2 o old2 E _.
  assert (value (i + zlen l1) = x) as -> by (apply Hv; by rewrite E, list_lookup_middle).
  apply construct_mid. rewrite zlen_app, zlen_fmap. lia.
Qed.

(** Moving, copying or assigning the elements [l] of another storage to the same places. *)
Lemma transfer_up put (l : list T) (src src_spare a old spare : cells) i :
  (put = construct \/ put = assign_at /\ (trivially_destructible = true \/ Forall is_Some old)) ->
  length old = length l -> i = zlen a -> i = zlen src ->
  for_up (length l) (fun j m => x ← rd (src ++ (Some <$> l) ++ src_spare) j; put j x m) i (a ++ old ++ spare)
  = Ok (a ++ (Some <$> l) ++ spare).
Proof.
  intros Hput Hl Hi Hd. apply fill_up; [done.. |]. intros l1 x l2 o old2 E Eo.
  assert (src ++ (Some <$> l) ++ src_spare = (src ++ (Some <$> l1)) ++ Some x :: (Some <$> l2) ++ src_spare) as ->.
  { by rewrite E, fmap_app, fmap_cons, <- !app_assoc. }
  rewrite rd_mid by (rewrite zlen_app, zlen_fmap; lia). cbn [mbind result_bind].
  assert (i + zlen l1 = zlen (a ++ (Some <$> l1))) as -> by (rewrite zlen_app, zlen_fmap; lia).
  destruct Hput as [-> | [-> Hput]]; [by apply construct_mid |]. unfold assign_at.
  rewrite znth_mid, zset_mid by done. destruct o as [y |]; [done |].
  destruct Hput as [-> | Hput]; [done |]. rewrite Eo in Hput.
  apply Forall_app in Hput as [_ Hput]. apply Forall_cons in Hput as [[? ?] _]; done.
Qed.

Lemma transfer_all put (l : list T) (src_spare old spare : cells) n :
  (put = construct \/ put = assign_at /\ (trivially_destructible = true \/ Forall is_Some old)) ->
  length old = length l -> n = zlen l ->
  for_up (Z.to_nat n) (fun j m => x ← rd ((Some <$> l) ++ src_spare) j; put j x m) 0 (old ++ spare)
  = Ok ((Some <$> l) ++ spare).
Proof.
  intros Hput Hl ->. unfold zlen. rewrite Nat2Z.id.
  by apply (transfer_up put l [] src_spare [] old spare 0).
Qed.

(** Ending the lives of the elements [l]. *)
Lemma destroy_range_ok (l : list T) (a spare : cells) i hi : i = zlen a -> hi = i + zlen l ->
  exists t, destroy_range i hi (a ++ (Some <$> l) ++ spare) = Ok (a ++ t ++ spare) /\
    length t = length l /\ (trivially_destructible = false -> Forall (fun c => c = None) t).
Proof.
  intros Hi ->. unfold destroy_range. destruct trivially_destructible eqn:Et.
  { exists (Some <$> l). by rewrite length_fmap. }
  exists (replicate (length l) None). rewrite length_replicate. split_and!; [| done |].
  2: { intros _. apply Forall_forall. by intros c [-> _]%elem_of_replicate. }
  replace (Z.to_nat (i + zlen l - i)) with (length l) by (unfold zlen; lia).
  revert a i Hi. induction l as [| x l IH]; intros a i ->; [done |]. cbn [length for_up fmap list_fmap app replicate].
  rewrite destroy_mid by done. cbn [mbind result_bind].
  specialize (IH (a ++ [None]) (zlen a + 1)). rewrite zlen_app, <- !app_assoc in IH. by apply IH.
Qed.

(** Moving [b] down over the [cnt] objects before it. *)
Lemma move_down_ok (b : list T) (a gap spare : cells) cnt : Forall is_Some gap -> zlen gap = cnt -> 0 < cnt ->
  exists tl, move_down (zlen a) cnt (zlen a + cnt + zlen b) (a ++ gap ++ (Some <$> b) ++ spare)
    = Ok (a ++ (Some <$> b) ++ (Some <$> tl) ++ spare) /\ zlen tl = cnt.
Proof.
  unfold move_down. intros Hg Hc Hp.
  replace (Z.to_nat _) with (length b) by (unfold zlen; lia).
  revert a gap Hg Hc. induction b as [| x b IH]; intros a gap Hg Hc.
  { apply objects in Hg as [tl ->]. exists tl. by rewrite zlen_fmap in Hc. }
  destruct gap as [| g gap]; [change (zlen []) with 0 in Hc; lia |]. apply Forall_cons in Hg as [[y ->] Hg].
  rewrite zlen_cons in Hc. cbn [length for_up fmap list_fmap app].
  rewrite app_comm_cons, (app_assoc a), move_out_mid by (rewrite zlen_app, zlen_cons; lia).
  cbn [mbind result_bind fst snd]. rewrite <- app_assoc. cbn [app].
  rewrite assign_mid by done. cbn [mbind result_bind].
  destruct (IH (a ++ [Some x]) (gap ++ [Some (moved x)])) as (tl & H & Htl).
  - apply Forall_app. split; [done | by repeat constructor].
  - rewrite zlen_app. change (zlen [Some (moved x)]) with 1. lia.
  - exists tl. split; [| done]. rewrite zlen_app, <- !app_assoc in H. exact H.
Qed.

(** *** Loops downwards *)

Fixpoint down (n : nat) (body : Z -> cells -> result cells) (j : Z) (m : cells) : result cells :=
  match n with
  | O => Ok m
  | S n => m ← body j m; down n body (j - 1) m
  end.

Lemma for_down_mono f f' cond body j m r : (f <= f')%nat ->
  for_down f cond body j m = Ok r -> for_down f' cond body j m = Ok r.
Proof.
  revert f' j m. induction f as [| f IH]; intros f' j m Hf; [done |]. destruct f' as [| f']; [lia |].
  cbn [for_down]. destruct (cond j); [| done]. destruct (body j m); [| done]. cbn. apply IH. lia.
Qed.

Lemma for_down_low fuel cond body1 body2 mid lo j m m' :
  (forall k, k <= j -> cond k = (lo <=? k)) -> j < mid -> lo <= j + 1 ->
  (Z.to_nat (j + 1 - lo) < fuel)%nat ->
  down (Z.to_nat (j + 1 - lo)) (fun k => if mid <=? k then body1 k else body2 k) j m = Ok m' ->
  for_down fuel cond body2 j m = Ok (lo - 1, m').
Proof.
  intros Hc Hj Hlo. remember (Z.to_nat (j + 1 - lo)) as n eqn:En.
  revert fuel j m Hc Hj Hlo En. induction n as [| n IH]; intros fuel j m Hc Hj Hlo En Hf; (destruct fuel as [| fuel]; [lia |]); cbn.
  - intros [= ->]. rewrite Hc by lia. rewrite (proj2 (Z.leb_gt _ _)) by lia. do 2 f_equal. lia.
  - rewrite Hc by lia. rewrite (proj2 (Z.leb_le lo j)), (proj2 (Z.leb_gt mid j)) by lia.
    destruct (body2 j m) as [m1 |]; [| done]. cbn. apply IH; [intros; apply Hc; lia | lia..].
Qed.

(** Two loops, one down to [mid] and one further down, are one loop whose body depends on the place. *)
Lemma two_phases fuel cond1 cond2 body1 body2 mid lo j m m' :
  (forall k, k <= j -> cond1 k = (mid <=? k) && (lo <=? k)) -> (forall k, k <= j -> cond2 k = (lo <=? k)) ->
  lo <= j + 1 -> (Z.to_nat (j + 1 - lo) < fuel)%nat ->
  down (Z.to_nat (j + 1 - lo)) (fun k => if mid <=? k then body1 k else body2 k) j m = Ok m' ->
  exists p, for_down fuel cond1 body1 j m = Ok p /\ for_down fuel cond2 body2 (fst p) (snd p) = Ok (lo - 1, m').
Proof.
  intros H1 H2 Hlo. remember (Z.to_nat (j + 1 - lo)) as n eqn:En.
  revert fuel j m H1 H2 Hlo En. induction n as [| n IH]; intros fuel j m H1 H2 Hlo En Hf Hd; (destruct fuel as [| fuel]; [lia |]).
  - cbn in Hd. injection Hd as ->. exists (j, m'). cbn. rewrite H1, H2 by lia.
    rewrite (proj2 (Z.leb_gt lo j)), andb_false_r by lia. split; [done |]. do 2 f_equal. lia.
  - destruct (Z.leb_spec mid j) as [Hm | Hm].
    + cbn [for_down]. rewrite H1 by lia. rewrite (proj2 (Z.leb_le mid j)), (proj2 (Z.leb_le lo j)) by lia. cbn [andb].
      cbn [down] in Hd. rewrite (proj2 (Z.leb_le mid j)) in Hd by lia.
      destruct (body1 j m) as [m1 |]; [| done]. cbn [mbind result_bind] in *.
      destruct (IH fuel (j - 1) m1) as (p & Hp1 & Hp2); [intros; apply H1; lia | intros; apply H2; lia | lia | lia | lia | done |].
      exists p. split; [done |]. by apply (for_down_mono fuel (S fuel)) in Hp2; [| lia].
    + exists (j, m). cbn [for_down fst snd]. rewrite H1 by lia. rewrite (proj2 (Z.leb_gt mid j)) by lia. split; [done |].
      apply (for_down_low (S fuel) cond2 body1 body2 mid); rewrite <- ?En; [done | lia | lia | lia | done].
Qed.

(** Shifting [b] up by the [zlen gap] cells behind it. *)
Lemma hv_shift_ok (b : list T) (a gap spare : cells) sz cnt : zlen gap = cnt -> 0 < cnt ->
  (forall k, gap !! k = Some None -> sz <= zlen a + zlen b + Z.of_nat k) ->
  exists gap', down (length b)
      (fun j => if sz <=? j then fun m => p ← move_out (j - cnt) m; construct j (fst p) (snd p)
                else fun m => p ← move_out (j - cnt) m; assign_at j (fst p) (snd p))
      (zlen a + zlen b + cnt - 1) (a ++ (Some <$> b) ++ gap ++ spare) = Ok (a ++ gap' ++ (Some <$> b) ++ spare) /\
    zlen gap' = cnt /\ (forall k, gap' !! k = Some None -> sz <= zlen a + Z.of_nat k).
Proof.
  intros Hc Hp. revert gap spare Hc. induction b as [| x b IH] using rev_ind; intros gap spare Hc Hg.
  { exists gap. split_and!; [done | done |]. intros k Hk%Hg. change (zlen []) with 0 in Hk. lia. }
  destruct gap as [| c gap _] using rev_ind; [change (zlen []) with 0 in Hc; lia |].
  rewrite zlen_app in Hc. change (zlen [c]) with 1 in Hc. pose proof (zlen_nonneg gap).
  rewrite length_app, Nat.add_comm. cbn [length down Nat.add]. rewrite zlen_app. change (zlen [x]) with 1.
  set (j := zlen a + (zlen b + 1) + cnt - 1).
  assert (zlen (a ++ (Some <$> b) ++ Some (moved x) :: gap) = j) as Hj.
  { rewrite !zlen_app, zlen_fmap, zlen_cons. unfold j. lia. }
  rewrite fmap_app, <- !app_assoc. cbn [fmap list_fmap app].
  assert ((if sz <=? j then fun m => p ← move_out (j - cnt) m; construct j (fst p) (snd p)
           else fun m => p ← move_out (j - cnt) m; assign_at j (fst p) (snd p))
            (a ++ (Some <$> b) ++ Some x :: gap ++ c :: spare)
          = Ok (a ++ (Some <$> b) ++ (Some (moved x) :: gap) ++ Some x :: spare)) as ->.
  { assert (move_out (j - cnt) (a ++ (Some <$> b) ++ Some x :: gap ++ c :: spare)
            = Ok (x, (a ++ (Some <$> b) ++ Some (moved x) :: gap) ++ c :: spare)) as Hmv.
    { rewrite app_assoc, move_out_mid by (rewrite zlen_app, zlen_fmap; unfold j; lia). by rewrite <- !app_assoc. }
    assert (a ++ (Some <$> b) ++ (Some (moved x) :: gap) ++ Some x :: spare
            = (a ++ (Some <$> b) ++ Some (moved x) :: gap) ++ Some x :: spare) as -> by by rewrite <- !app_assoc.
    destruct (Z.leb_spec sz j) as [Hs | Hs]; rewrite Hmv; cbn [mbind result_bind fst snd].
    - by apply construct_mid.
    - unfold assign_at. rewrite znth_mid, zset_mid by done. destruct c as [y |]; [done |].
      specialize (Hg (length gap)). rewrite list_lookup_middle in Hg by done.
      specialize (Hg eq_refl). rewrite zlen_app in Hg. change (zlen [x]) with 1 in Hg.
      unfold j, zlen in *. lia. }
  cbn [mbind result_bind].
  destruct (IH (Some (moved x) :: gap) (Some x :: spare)) as (gap' & H1 & H2 & H3).
  - rewrite zlen_cons. lia.
  - intros [| k] Hk; [done |]. cbn in Hk. specialize (Hg k). rewrite lookup_app_l in Hg by (by apply lookup_lt_Some in Hk).
    apply Hg in Hk. rewrite zlen_app in Hk. change (zlen [x]) with 1 in Hk. lia.
  - exists gap'. split_and!; [| done | done]. rewrite <- H1. f_equal; unfold j; lia.
Qed.

(** Filling the gap from its end. *)
Lemma fill_gap_ok (value : Z -> T) (vs : list T) (a gap spare : cells) sz : length gap = length vs ->
  (forall k, gap !! k = Some None -> sz <= zlen a + Z.of_nat k) ->
  (forall k x, vs !! k = Some x -> value (zlen a + Z.of_nat k) = x) ->
  down (length vs) (fun j => if sz <=? j then construct j (value j) else assign_at j (value j))
    (zlen a + zlen vs - 1) (a ++ gap ++ spare) = Ok (a ++ (Some <$> vs) ++ spare).
Proof.
  revert gap spare. induction vs as [| x vs IH] using rev_ind; intros gap spare Hl Hg Hv.
  { by destruct gap. }
  destruct gap as [| c gap _] using rev_ind; rewrite !length_app in Hl; [cbn in Hl; lia |]. cbn in Hl.
  rewrite length_app, Nat.add_comm. cbn [length down Nat.add]. rewrite zlen_app. change (zlen [x]) with 1.
  set (j := zlen a + (zlen vs + 1) - 1).
  assert (zlen (a ++ gap) = j) as Hj by (rewrite zlen_app; unfold j, zlen; lia).
  assert (value j = x) as Ex.
  { replace j with (zlen a + Z.of_nat (length vs)) by (unfold j, zlen; lia). apply Hv. by apply list_lookup_middle. }
  rewrite <- !app_assoc, fmap_app, <- app_assoc. cbn [fmap list_fmap app].
  assert ((if sz <=? j then construct j (value j) else assign_at j (value j)) (a ++ gap ++ c :: spare)
          = Ok (a ++ gap ++ Some x :: spare)) as ->.
  { rewrite Ex, !app_assoc. destruct (Z.leb_spec sz j) as [Hs | Hs]; [by apply construct_mid |].
    unfold assign_at. rewrite znth_mid, zset_mid by done. destruct c as [y |]; [done |].
    specialize (Hg (length gap)). rewrite list_lookup_middle in Hg by done. specialize (Hg eq_refl).
    rewrite zlen_app in Hj. unfold zlen in *. lia. }
  cbn [mbind result_bind]. replace (j - 1) with (zlen a + zlen vs - 1) by (unfold j; lia).
  rewrite IH; [done | lia | |].
  - intros k Hk. apply Hg. rewrite lookup_app_l; [done | by apply lookup_lt_Some in Hk].
  - intros k y Hk. apply Hv. rewrite lookup_app_l; [done | by apply lookup_lt_Some in Hk].
Qed.

(** ** Operations on the list *)

(** The result is a vector for the list [l'], with the capacity [c']. *)
Definition gives (r : result h_vector) (l' : list T) (c' : Z) : Prop :=
  exists h', r = Ok h' /\ hv h' l' /\ capacity h' = c'.

Lemma gives_intro (m : cells) n (b : bool) l' (spare : cells) c' :
  m = (Some <$> l') ++ spare -> n = zlen l' -> (trivially_destructible = false -> Forall (fun c => c = None) spare) ->
  (if b then zlen m = kHoldSize else kHoldSize < zlen m <= max_size) -> zlen m = c' ->
  gives (Ok (mk_hv m n b)) l' c'.
Proof.
  intros Hm Hn Hs Hb Hc. exists (mk_hv m n b). split; [done |]. split; [by exists spare |].
  unfold capacity. cbn. by destruct b; [rewrite <- Hc |].
Qed.

Lemma gives_bind r l' c' (k : h_vector -> result h_vector) l2 c2 : gives r l' c' ->
  (forall h', hv h' l' -> capacity h' = c' -> gives (k h') l2 c2) -> gives (r ≫= k) l2 c2.
Proof. intros (h' & -> & Hh & Hc) Hk. by apply Hk. Qed.

Lemma hv_mem h l : hv h l -> capacity h = zlen (mem h) /\ kHoldSize <= capacity h <= max_size /\ zlen l <= capacity h.
Proof.
  intros (spare & Em & _ & _ & Hb).
  assert (zlen l <= zlen (mem h)) by (rewrite Em, zlen_app, zlen_fmap; pose proof (zlen_nonneg spare); lia).
  unfold capacity. destruct (is_hdata_ h); lia.
Qed.

Lemma max_size_val : max_size = 2 ^ 31 - 1.
Proof. reflexivity. Qed.

Lemma reserve_ok sz h l : hv h l -> sz <= max_size -> gives (reserve sz h) l (Z.max (capacity h) sz).
Proof.
  intros Hh Hs. pose proof (hv_mem h l Hh) as (Hc & Hk & Hl). destruct Hh as (spare & Em & En & Hsp & Hb).
  unfold reserve. destruct (Z.ltb_spec (capacity h) sz) as [H | H].
  - rewrite (proj2 (Z.ltb_ge _ _)), (proj2 (Z.leb_gt _ _)) by lia. rewrite En, Em.
    assert (raw sz = replicate (length l) None ++ raw (sz - zlen l)) as ->.
    { unfold raw. rewrite <- replicate_add. f_equal. unfold zlen in *. lia. }
    rewrite (transfer_all construct l spare (replicate (length l) None)) by (rewrite ?length_replicate; auto).
    cbn [mbind result_bind]. apply (gives_intro _ _ _ _ (raw (sz - zlen l))); [done | done | intros; apply raw_None | |];
      rewrite zlen_app, zlen_fmap, zlen_raw; lia.
  - exists h. split_and!; [done | by exists spare | lia].
Qed.

Lemma reserve_fails sz h l : hv h l -> max_size < sz -> reserve sz h = Fail (Throw errLogic).
Proof.
  intros Hh Hs. pose proof (hv_mem h l Hh) as (Hc & Hk & Hl). unfold reserve.
  by rewrite (proj2 (Z.ltb_lt _ _)), (proj2 (Z.ltb_lt max_size sz)) by lia.
Qed.

(** The capacity after [grow]: at least twice the old one when it changes, up to [max_size]. *)
Definition grown (cap sz : Z) : Z := if cap <? sz then Z.max sz (Z.min max_size (cap * 2)) else cap.

Lemma hv_grow_ok sz h l : hv h l -> sz <= max_size -> gives (grow sz h) l (grown (capacity h) sz).
Proof.
  intros Hh Hs. pose proof (hv_mem h l Hh) as (Hc & Hk & Hl). unfold grow, grown. pose proof max_size_val as Hm.
  destruct (Z.ltb_spec (capacity h) sz) as [H | H]; [| by exists h].
  unfold u32. rewrite wrap_id by lia.
  assert (Z.max sz (Z.min max_size (capacity h * 2)) = Z.max (capacity h) (Z.max sz (Z.min max_size (capacity h * 2)))) as E by lia.
  rewrite E at 2. apply reserve_ok; [done | lia].
Qed.

Lemma grow_fails sz h l : hv h l -> max_size < sz -> grow sz h = Fail (Throw errLogic).
Proof.
  intros Hh Hs. pose proof (hv_mem h l Hh) as (Hc & Hk & Hl). unfold grow.
  rewrite (proj2 (Z.ltb_lt _ _)) by lia. apply (reserve_fails _ _ l); [done | lia].
Qed.

Lemma grown_room cap sz : sz <= grown cap sz.
Proof. unfold grown. destruct (Z.ltb_spec cap sz); lia. Qed.

(** What is behind the elements of a vector with room for [n] more: [n] cells, and more. *)
Lemma hv_room h l n : hv h l -> 0 <= n -> zlen l + n <= capacity h ->
  exists gap spare : cells, mem h = (Some <$> l) ++ gap ++ spare /\ zlen gap = n /\
    (trivially_destructible = false -> Forall (fun c => c = None) spare) /\
    capacity h = zlen l + n + zlen spare /\
    (if is_hdata_ h then capacity h = kHoldSize else kHoldSize < capacity h <= max_size).
Proof.
  intros Hh Hn Hr. pose proof (hv_mem h l Hh) as (Hc & Hk & Hl). destruct Hh as (spare & Em & En & Hsp & Hb).
  assert (zlen (mem h) = zlen l + zlen spare) as Es by (by rewrite Em, zlen_app, zlen_fmap).
  exists (take (Z.to_nat n) spare), (drop (Z.to_nat n) spare).
  rewrite take_drop. assert (zlen (take (Z.to_nat n) spare) = n) as Et.
  { unfold zlen in *. rewrite length_take. lia. }
  split_and!; [done | done | | | by destruct (is_hdata_ h); rewrite <- ?Hc in Hb].
  - intros H. apply Hsp in H. rewrite <- (take_drop (Z.to_nat n) spare), Forall_app in H. by destruct H.
  - rewrite Hc, Es. rewrite <- (take_drop (Z.to_nat n) spare) at 1. rewrite zlen_app, Et. lia.
Qed.

Lemma hv_size h l : hv h l -> size_ h = zlen l.
Proof. by intros (spare & _ & H & _). Qed.

(** Closes [gives (Ok (mk_hv ...)) ...] from the facts of [hv_room]. *)
Ltac gives_tac sp := apply (gives_intro _ _ _ _ sp);
  [rewrite <- ?app_assoc; try done | | try done | |];
  rewrite ?zlen_app, ?zlen_fmap, ?zlen_cons, ?zlen_nil;
  try match goal with |- context [if ?b then _ else _] => destruct b end; lia.

Lemma push_back_ok v h l : hv h l -> zlen l + 1 <= max_size ->
  gives (push_back v h) (l ++ [v]) (grown (capacity h) (zlen l + 1)).
Proof.
  intros Hh Hs. pose proof (zlen_nonneg l). unfold push_back. rewrite (hv_size h l Hh).
  pose proof max_size_val as Hm. unfold u32. rewrite wrap_id by lia.
  eapply gives_bind; [by apply hv_grow_ok |].
  intros h' Hh' Ec. destruct (hv_room h' l 1) as (gap & spare & Em & Hg & Hsp & Hcap & Hb); [done | lia | |].
  { rewrite Ec. apply grown_room. }
  destruct gap as [| c [| ? gap]]; rewrite ?zlen_cons in Hg; [change (zlen []) with 0 in Hg; lia | |
    pose proof (zlen_nonneg gap); lia].
  rewrite Em. cbn [app]. rewrite construct_mid by (by rewrite zlen_fmap). cbn [mbind result_bind].
  apply (gives_intro _ _ _ _ spare).
  - by rewrite fmap_app, <- app_assoc.
  - by rewrite zlen_app.
  - done.
  - rewrite zlen_app, zlen_fmap, zlen_cons. destruct (is_hdata_ h'); lia.
  - rewrite zlen_app, zlen_fmap, zlen_cons. lia.
Qed.

Lemma take_drop_zlen (l : list T) i : 0 <= i <= zlen l ->
  l = take (Z.to_nat i) l ++ drop (Z.to_nat i) l /\ zlen (take (Z.to_nat i) l) = i /\
  zlen (drop (Z.to_nat i) l) = zlen l - i.
Proof.
  intros H. rewrite take_drop. unfold zlen in *. rewrite length_take, length_drop. split_and!; [done | lia | lia].
Qed.

(** Cells of a vector with no object are behind its elements. *)
Lemma gap_raw (l : list T) (gap : cells) : forall k, gap !! k = Some None -> zlen l <= zlen l + Z.of_nat k.
Proof. intros. lia. Qed.

Lemma insert_gap_ok i count value h l vs : hv h l -> 0 < count -> zlen vs = count ->
  (forall k x, vs !! k = Some x -> value (i + Z.of_nat k) = x) ->
  0 <= i <= zlen l -> zlen l + count <= max_size ->
  gives (insert_gap i count value h) (take (Z.to_nat i) l ++ vs ++ drop (Z.to_nat i) l)
    (grown (capacity h) (zlen l + count)).
Proof.
  intros Hh Hc Hvs Hv Hi Hs. unfold insert_gap. rewrite (hv_size h l Hh).
  rewrite (proj2 (Z.ltb_ge _ _)) by lia. pose proof max_size_val as Hm. unfold u32. rewrite wrap_id by lia.
  eapply gives_bind; [by apply hv_grow_ok |].
  intros h' Hh' Ec. destruct (hv_room h' l count) as (gap & spare & Em & Hg & Hsp & Hcap & Hb); [done | lia | |].
  { rewrite Ec. apply grown_room. }
  destruct (take_drop_zlen l i Hi) as (El & Ha & Hbl). set (a := take (Z.to_nat i) l) in *. set (b := drop (Z.to_nat i) l) in *.
  rewrite El, fmap_app, <- app_assoc in Em. rewrite Em.
  destruct (hv_shift_ok b (Some <$> a) gap spare (zlen l) count) as (gap' & Hsh & Hg' & Hraw); [done | done | |].
  { intros k _. rewrite zlen_fmap. lia. }
  rewrite zlen_fmap, Ha in Hsh, Hraw.
  edestruct (two_phases (S (Z.to_nat (zlen l + count))) (fun j => (zlen l <=? j) && (count + i <=? j)) (fun j => count + i <=? j)
    (fun j m => p ← move_out (j - count) m; construct j (fst p) (snd p))
    (fun j m => p ← move_out (j - count) m; assign_at j (fst p) (snd p)) (zlen l) (count + i) (zlen l + count - 1))
    as (p & Hp1 & Hp2); [done | done | lia | lia | |].
  { replace (Z.to_nat _) with (length b) by (unfold zlen in *; lia).
    replace (zlen l + count - 1) with (i + zlen b + count - 1) by lia. exact Hsh. }
  rewrite Hp1. cbn [mbind result_bind]. rewrite Hp2. cbn [mbind result_bind fst snd]. clear p Hp1 Hp2.
  edestruct (two_phases (S (Z.to_nat (zlen l + count))) (fun j => zlen l <=? j) (fun j => i <=? j)
    (fun j => construct j (value j)) (fun j => assign_at j (value j)) (zlen l) i (count + i - 1))
    as (p & Hp1 & Hp2).
  - intros k Hk. destruct (Z.leb_spec (zlen l) k); [by rewrite (proj2 (Z.leb_le i k)) by lia | done].
  - done.
  - lia.
  - lia.
  - replace (Z.to_nat _) with (length vs) by (unfold zlen in *; lia).
    replace (count + i - 1) with (zlen (Some <$> a) + zlen vs - 1) by (rewrite zlen_fmap; lia).
    apply (fill_gap_ok value vs (Some <$> a) gap' ((Some <$> b) ++ spare)); rewrite ?zlen_fmap, ?Ha; [unfold zlen in *; lia | done | done].
  - rewrite Hp1. cbn [mbind result_bind]. rewrite Hp2. cbn [mbind result_bind fst snd].
    apply (gives_intro _ _ _ _ spare); [by rewrite !fmap_app, <- !app_assoc | rewrite !zlen_app; lia | done | |];
      rewrite !zlen_app, !zlen_fmap; [destruct (is_hdata_ h'); lia | lia].
Qed.

Lemma insert_ok i v h l : hv h l -> 0 <= i <= zlen l -> zlen l + 1 <= max_size ->
  gives (insert i v h) (take (Z.to_nat i) l ++ v :: drop (Z.to_nat i) l) (grown (capacity h) (zlen l + 1)).
Proof.
  intros Hh Hi Hs. unfold insert. rewrite (hv_size h l Hh).
  destruct (Z.eqb_spec i (zlen l)) as [-> | Hne].
  { rewrite take_ge, drop_ge by (unfold zlen; lia). by apply push_back_ok. }
  rewrite (proj2 (Z.leb_gt _ _)) by lia. pose proof max_size_val as Hm. unfold u32. rewrite wrap_id by lia.
  eapply gives_bind; [by apply hv_grow_ok |].
  intros h' Hh' Ec. destruct (hv_room h' l 1) as (gap & spare & Em & Hg & Hsp & Hcap & Hb); [done | lia | |].
  { rewrite Ec. apply grown_room. }
  destruct (take_drop_zlen l i Hi) as (El & Ha & Hbl). set (a := take (Z.to_nat i) l) in *. set (b := drop (Z.to_nat i) l) in *.
  rewrite El, fmap_app, <- app_assoc in Em. rewrite Em.
  destruct (hv_shift_ok b (Some <$> a) gap spare (zlen l) 1) as (gap' & Hsh & Hg' & Hraw); [done | done | |].
  { intros k _. rewrite zlen_fmap. lia. }
  rewrite zlen_fmap, Ha in Hsh, Hraw.
  assert (length b = S (Z.to_nat (zlen l - 1 - i))) as Elen by (unfold zlen in *; lia).
  rewrite Elen in Hsh. cbn [down] in Hsh. replace (i + zlen b + 1 - 1) with (zlen l) in Hsh by lia.
  rewrite Z.leb_refl in Hsh.
  destruct (move_out (zlen l - 1) _) as [p |]; [| done]. cbn [mbind result_bind] in *.
  destruct (construct (zlen l) p.1 p.2) as [m |]; [| done]. cbn [mbind result_bind] in *.
  rewrite (for_down_low (S (Z.to_nat (zlen l))) (fun j => i <? j)
    (fun j m => p ← move_out (j - 1) m; construct j (fst p) (snd p))
    (fun j m => p ← move_out (j - 1) m; assign_at j (fst p) (snd p)) (zlen l) (i + 1) (zlen l - 1) m
    ((Some <$> a) ++ gap' ++ (Some <$> b) ++ spare)).
  - cbn [mbind result_bind fst snd].
    destruct gap' as [| c [| ? gap']]; rewrite ?zlen_cons in Hg'; [change (zlen []) with 0 in Hg'; lia | |
      pose proof (zlen_nonneg gap'); lia].
    destruct c as [y |]; [| specialize (Hraw 0%nat eq_refl); lia].
    cbn [app]. rewrite assign_mid by (rewrite zlen_fmap; lia). cbn [mbind result_bind].
    apply (gives_intro _ _ _ _ spare); [by rewrite !fmap_app, <- !app_assoc | rewrite zlen_app, zlen_cons; lia | done | |];
      rewrite zlen_app, zlen_cons, zlen_app, !zlen_fmap; [destruct (is_hdata_ h'); lia | lia].
  - intros k _. destruct (Z.ltb_spec i k), (Z.leb_spec (i + 1) k); lia || done.
  - lia.
  - lia.
  - lia.
  - replace (zlen l - 1 + 1 - (i + 1)) with (zlen l - 1 - i) by lia. exact Hsh.
Qed.

(** Destroying the last elements of a vector. *)
Lemma shorten_ok (m : cells) (n : Z) b l t spare : m = (Some <$> l) ++ (Some <$> t) ++ spare -> n = zlen l ->
  (trivially_destructible = false -> Forall (fun c => c = None) spare) ->
  (if b : bool then zlen m = kHoldSize else kHoldSize < zlen m <= max_size) ->
  gives (m ← destroy_range n (n + zlen t) m; mret (mk_hv m n b)) l (zlen m).
Proof.
  intros Em -> Hsp Hb. destruct (destroy_range_ok t (Some <$> l) spare (zlen l) (zlen l + zlen t)) as (t' & Hd & Hl & Ht);
    [by rewrite zlen_fmap | done |].
  rewrite Em at 1. rewrite Hd. cbn [mbind result_bind].
  assert (zlen ((Some <$> l) ++ t' ++ spare) = zlen m) as E.
  { rewrite Em, !zlen_app, !zlen_fmap. unfold zlen in *. lia. }
  apply (gives_intro _ _ _ _ (t' ++ spare)); [done | done | | by rewrite E | done].
  intros H. apply Forall_app. auto.
Qed.

Lemma hv_cap_bound h l spare : mem h = (Some <$> l) ++ spare -> hv h l ->
  (if is_hdata_ h then zlen ((Some <$> l) ++ spare) = kHoldSize else kHoldSize < zlen ((Some <$> l) ++ spare) <= max_size).
Proof. intros E (sp & _ & _ & _ & Hb). by rewrite E in Hb. Qed.

Lemma erase_range_ok i last h l : hv h l -> 0 <= i < last -> last <= zlen l ->
  gives (erase_range i last h) (take (Z.to_nat i) l ++ drop (Z.to_nat last) l) (capacity h).
Proof.
  intros Hh Hi Hl. pose proof (hv_mem h l Hh) as (Hcap & _). unfold erase_range. rewrite (hv_size h l Hh).
  rewrite (proj2 (Z.eqb_neq _ _)), (proj2 (Z.ltb_lt i (zlen l))) by lia. cbn [negb].
  pose proof Hh as (spare & Em & _ & Hsp & Hb).
  destruct (take_drop_zlen l i) as (El & Ha & _); [lia |].
  destruct (take_drop_zlen l last) as (El2 & Ha2 & Hd2); [lia |].
  set (a := take (Z.to_nat i) l) in *. set (b := drop (Z.to_nat last) l) in *.
  set (g := take (Z.to_nat (last - i)) (drop (Z.to_nat i) l)).
  assert (l = a ++ g ++ b) as Eagb.
  { rewrite El at 1. f_equal. unfold g, b. rewrite <- (take_drop (Z.to_nat (last - i)) (drop (Z.to_nat i) l)) at 1.
    f_equal. rewrite drop_drop. f_equal. lia. }
  assert (zlen g = last - i) as Hg.
  { apply (f_equal zlen) in Eagb. rewrite !zlen_app in Eagb. lia. }
  destruct (move_down_ok b (Some <$> a) (Some <$> g) spare (last - i)) as (tl & Hmv & Htl); [| by rewrite zlen_fmap | lia |].
  { apply Forall_fmap, Forall_true. by eexists. }
  rewrite zlen_fmap, Ha in Hmv. replace (i + (last - i) + zlen b) with (zlen l) in Hmv by lia.
  assert (mem h = (Some <$> a) ++ (Some <$> g) ++ (Some <$> b) ++ spare) as Em2.
  { by rewrite Em, Eagb, !fmap_app, <- !app_assoc. }
  rewrite Em2, Hmv. cbn [mbind result_bind].
  replace (zlen l) with (zlen l - (last - i) + zlen tl) at 2 by lia.
  assert (zlen ((Some <$> a) ++ (Some <$> b) ++ (Some <$> tl) ++ spare) = zlen (mem h)) as Ez.
  { rewrite Em2, !zlen_app, !zlen_fmap. lia. }
  rewrite Hcap, <- Ez. apply (shorten_ok _ _ _ _ tl spare); [| rewrite zlen_app; lia | done | by rewrite Ez].
  by rewrite fmap_app, <- app_assoc.
Qed.

Lemma erase_ok i h l : hv h l -> 0 <= i < zlen l ->
  gives (erase i h) (take (Z.to_nat i) l ++ drop (Z.to_nat (i + 1)) l) (capacity h).
Proof.
  intros Hh Hi. pose proof (erase_range_ok i (i + 1) h l Hh ltac:(lia) ltac:(lia)) as H.
  unfold erase_range in H. unfold erase. rewrite (hv_size h l Hh) in *.
  replace (i + 1 - i) with 1 in H by lia. exact H.
Qed.

Lemma pop_back_ok v h l : hv h (l ++ [v]) -> gives (pop_back h) l (capacity h).
Proof.
  intros Hh. pose proof (hv_mem _ _ Hh) as (Hcap & _). unfold pop_back. rewrite (hv_size _ _ Hh), zlen_app. change (zlen [v]) with 1.
  pose proof (zlen_nonneg l). rewrite (proj2 (Z.eqb_neq _ _)) by lia. replace (zlen l + 1 - 1) with (zlen l) by lia.
  pose proof Hh as (spare & Em & _ & Hsp & Hb). rewrite fmap_app, <- app_assoc in Em. cbn in Em.
  rewrite Hcap. rewrite Em at 1. destruct trivially_destructible eqn:Et.
  - assert (destroy (zlen l) ((Some <$> l) ++ Some v :: spare) = Ok (mem h)) as ->.
    { unfold destroy. rewrite znth_mid by (by rewrite zlen_fmap). by rewrite Et, Em. }
    cbn [mbind result_bind]. apply (gives_intro _ _ _ _ (Some v :: spare)); [done | done | congruence | done | done].
  - rewrite destroy_mid by (try done; by rewrite zlen_fmap). cbn [mbind result_bind].
    assert (zlen ((Some <$> l) ++ None :: spare) = zlen (mem h)) as Ez.
    { rewrite Em, !zlen_app, !zlen_cons. lia. }
    apply (gives_intro _ _ _ _ (None :: spare)); [done | done | | by rewrite Ez | done].
    intros _. constructor; auto.
Qed.

Lemma clear_ok b h l : hv h l -> gives (clear b h) [] (if b then kHoldSize else capacity h).
Proof.
  intros Hh. pose proof (hv_mem _ _ Hh) as (Hcap & _). pose proof Hh as (spare & Em & Hsz & Hsp & Hb). unfold clear. rewrite Hsz.
  pose proof (shorten_ok (mem h) 0 (is_hdata_ h) [] l spare Em eq_refl Hsp Hb) as Hg. rewrite Z.add_0_l in Hg.
  destruct b; [| by rewrite Hcap]. destruct (destroy_range 0 (zlen l) (mem h)) as [m |]; [| by destruct Hg as (? & ? & _)].
  cbn [mbind result_bind] in *. destruct Hg as (h' & [= <-] & (sp & Em' & _ & Hsp' & Hb') & Hc). cbn in Em', Hb', Hc.
  destruct (is_hdata_ h).
  - apply (gives_intro _ _ _ _ sp); [done | done | done | done | done].
  - apply (gives_intro _ _ _ _ (raw kHoldSize)); [done | done | intros; apply raw_None | |]; apply zlen_raw; lia.
Qed.

Lemma destroy_range_nil i hi m : hi <= i -> destroy_range i hi m = Ok m.
Proof. intros H. unfold destroy_range. destruct trivially_destructible; [done |]. by replace (Z.to_nat (hi - i)) with O by lia. Qed.

(** Both forms of [resize], with the cells of the new elements made by [fill]. *)
Lemma resize_with_ok fill sz v h l : hv h l -> 0 <= sz <= max_size ->
  (forall m, fill (zlen l) m = for_up (Z.to_nat (sz - zlen l)) (fun i => construct i v) (zlen l) m \/
     sz <= zlen l /\ fill (zlen l) m = Ok m) ->
  gives (h ← grow sz h; m ← fill (size_ h) (mem h); m ← destroy_range sz (size_ h) m; mret (mk_hv m sz (is_hdata_ h)))
    (zresize l sz v) (grown (capacity h) sz).
Proof.
  intros Hh Hs Hf. eapply gives_bind; [apply hv_grow_ok; [exact Hh | lia] |]. intros h' Hh' Ec. rewrite (hv_size h' l Hh').
  pose proof (hv_mem _ _ Hh') as (Hcap & _).
  destruct (Z.le_gt_cases (zlen l) sz) as [Hle | Hgt].
  - destruct (hv_room h' l (sz - zlen l)) as (gap & spare & Em & Hg & Hsp & Hc & Hb); [done | lia | rewrite Ec; pose proof (grown_room (capacity h) sz); lia |].
    set (vs := replicate (Z.to_nat (sz - zlen l)) v).
    assert (fill (zlen l) (mem h') = Ok ((Some <$> l) ++ (Some <$> vs) ++ spare)) as ->.
    { assert (Z.to_nat (sz - zlen l) = length vs) as Ev by (unfold vs; by rewrite length_replicate).
      rewrite Em. destruct (Hf ((Some <$> l) ++ gap ++ spare)) as [-> | [Hz ->]].
      - rewrite Ev. apply construct_up; [unfold zlen in *; lia | by rewrite zlen_fmap |].
        intros k x Hk. unfold vs in Hk. by apply lookup_replicate in Hk as [-> _].
      - assert (sz - zlen l = 0) as Ez by lia. unfold vs. rewrite Ez in *. by destruct gap; [| rewrite zlen_cons in Hg; pose proof (zlen_nonneg gap); lia]. }
    cbn [mbind result_bind]. rewrite destroy_range_nil by lia. cbn [mbind result_bind].
    assert (zresize l sz v = l ++ vs) as ->.
    { unfold zresize. rewrite resize_ge by (unfold zlen in Hle; lia). do 2 f_equal. unfold zlen. lia. }
    assert (zlen vs = sz - zlen l) as Ev by (unfold vs; apply zlen_replicate; lia).
    apply (gives_intro _ _ _ _ spare); [by rewrite fmap_app, <- app_assoc | rewrite zlen_app; lia | done | |];
      rewrite !zlen_app, !zlen_fmap; [destruct (is_hdata_ h') |]; lia.
  - assert (fill (zlen l) (mem h') = Ok (mem h')) as ->.
    { destruct (Hf (mem h')) as [-> | [_ ->]]; [| done]. by replace (Z.to_nat (sz - zlen l)) with O by lia. }
    cbn [mbind result_bind]. pose proof Hh' as (spare & Em & _ & Hsp & Hb).
    destruct (take_drop_zlen l sz) as (El & Ha & Hd); [lia |].
    assert (zresize l sz v = take (Z.to_nat sz) l) as -> by (unfold zresize; apply resize_le; unfold zlen in Hgt; lia).
    rewrite El, fmap_app, <- app_assoc in Em. rewrite <- Ec, Hcap. replace (zlen l) with (sz + zlen (drop (Z.to_nat sz) l)) by lia.
    by apply (shorten_ok _ _ _ _ _ spare).
Qed.

Lemma resize_value_ok sz v h l : hv h l -> 0 <= sz <= max_size ->
  gives (resize_value sz v h) (zresize l sz v) (grown (capacity h) sz).
Proof. intros Hh Hs. apply (resize_with_ok (fun old => for_up (Z.to_nat (sz - old)) (fun i => construct i v) old)); auto. Qed.

Lemma resize_ok sz h l : hv h l -> 0 <= sz <= max_size -> trivially_default = false \/ sz <= zlen l ->
  gives (resize sz h) (zresize l sz T_default) (grown (capacity h) sz).
Proof.
  intros Hh Hs Ht. unfold resize.
  apply (resize_with_ok (fun old m => if trivially_default then Ok m
    else for_up (Z.to_nat (sz - old)) (fun i => construct i T_default) old m)); [done | done |].
  intros m. destruct trivially_default; [right | by left]. by destruct Ht.
Qed.

(** Transferring the elements of [src] into an empty vector with room. *)
Lemma refill_ok put h other l b : hv h [] -> hv other l -> zlen l <= capacity h -> b = is_hdata_ h ->
  (put = construct \/ put = assign_at /\ (trivially_destructible = true)) ->
  gives (m ← for_up (Z.to_nat (size_ other)) (fun i m => x ← rd (mem other) i; put i x m) 0 (mem h);
         mret (mk_hv m (size_ other) b)) l (capacity h).
Proof.
  intros Hh Ho Hr -> Hput. pose proof Ho as (sp & Eo & Hsz & _).
  destruct (hv_room h [] (zlen l)) as (gap & spare & Em & Hg & Hsp & Hc & Hb); [done | apply zlen_nonneg | done |].
  rewrite Hsz, Eo, Em. cbn [fmap list_fmap app]. rewrite transfer_all; [| tauto | unfold zlen in Hg; lia | done].
  cbn [mbind result_bind]. change (zlen []) with 0 in Hc.
  apply (gives_intro _ _ _ _ spare); [done | done | done | |]; rewrite zlen_app, zlen_fmap; [destruct (is_hdata_ h) |]; lia.
Qed.

Lemma hv_make : hv h_vector_make [].
Proof.
  exists (raw kHoldSize). split_and!; [done | done | intros; apply raw_None |]. apply zlen_raw. lia.
Qed.

Lemma capacity_make : capacity h_vector_make = kHoldSize.
Proof. reflexivity. Qed.

Lemma copy_make_ok other l : hv other l -> gives (copy_make other) l (capacity other).
Proof.
  intros Ho. pose proof (hv_mem _ _ Ho) as (_ & Hk & Hl). unfold copy_make.
  eapply gives_bind; [apply reserve_ok; [apply hv_make | lia] |]. rewrite capacity_make. intros h' Hh' Ec.
  replace (capacity other) with (capacity h') by lia. apply refill_ok; [done | done | lia | done | by left].
Qed.


Lemma copy_assign_ok other h l k : hv other k -> hv h l ->
  gives (copy_assign other h) k (Z.max (capacity h) (capacity other)).
Proof.
  intros Ho Hh. pose proof (hv_mem _ _ Ho) as (_ & Hk & Hl). unfold copy_assign.
  eapply gives_bind; [apply reserve_ok; [exact Hh | lia] |]. intros h' Hh' Ec.
  rewrite (hv_size _ _ Hh'), (hv_size _ _ Ho). pose proof Ho as (sp & Eo & _).
  set (mv := if zlen l <? zlen k then zlen l else zlen k).
  assert (mv = Z.min (zlen l) (zlen k)) as Hmv by (unfold mv; destruct (Z.ltb_spec (zlen l) (zlen k)); lia).
  pose proof (zlen_nonneg l) as Hl0. pose proof (zlen_nonneg k) as Hk0.
  destruct (take_drop_zlen k mv) as (Ek & Ek1 & Ek2); [lia |]. destruct (take_drop_zlen l mv) as (El & El1 & El2); [lia |].
  set (k1 := take (Z.to_nat mv) k) in *. set (k2 := drop (Z.to_nat mv) k) in *.
  set (l1 := take (Z.to_nat mv) l) in *. set (l2 := drop (Z.to_nat mv) l) in *.
  destruct (hv_room h' l (zlen k - mv)) as (gap & spare & Em & Hg & Hsp & Hc & Hb);
    [done | lia | pose proof (hv_mem _ _ Hh'); lia |].
  rewrite El, fmap_app, <- app_assoc in Em. rewrite Em, Eo.
  pose proof (transfer_all assign_at k1 ((Some <$> k2) ++ sp) (Some <$> l1) ((Some <$> l2) ++ gap ++ spare) mv) as H1.
  assert ((Some <$> k) ++ sp = (Some <$> k1) ++ (Some <$> k2) ++ sp) as Ek' by (by rewrite Ek, fmap_app, <- app_assoc).
  rewrite Ek', H1; clear H1; [cbn [mbind result_bind] | | rewrite length_fmap; unfold zlen in *; lia | done].
  2: { right. split; [done |]. right. apply Forall_fmap, Forall_true. by eexists. }
  destruct (Z.le_gt_cases (zlen l) (zlen k)) as [Hle | Hgt].
  - assert (l2 = []) as -> by (apply length_zero_iff_nil; unfold zlen in *; lia). cbn [fmap list_fmap app].
    pose proof (transfer_up construct k2 (Some <$> k1) sp (Some <$> k1) gap spare mv) as H2.
    replace (Z.to_nat (zlen k - mv)) with (length k2) by (unfold zlen in *; lia).
    rewrite H2; [cbn [mbind result_bind] | by left | unfold zlen in *; lia | rewrite zlen_fmap; lia | rewrite zlen_fmap; lia].
    rewrite destroy_range_nil by lia. cbn [mbind result_bind].
    apply (gives_intro _ _ _ _ spare); [by rewrite Ek, fmap_app, <- app_assoc | done | done | |];
      rewrite !zlen_app, !zlen_fmap; [destruct (is_hdata_ h') |]; lia.
  - replace (Z.to_nat (zlen k - mv)) with O by lia. cbn [for_up mbind result_bind].
    assert (k2 = []) as E2 by (apply length_zero_iff_nil; unfold zlen in *; lia).
    assert (gap = []) as -> by (apply length_zero_iff_nil; unfold zlen in *; lia).
    assert (k1 = k) as -> by (by rewrite Ek, E2, app_nil_r). cbn [app].
    assert (zlen ((Some <$> k) ++ (Some <$> l2) ++ spare) = capacity h') as Ez by (rewrite !zlen_app, !zlen_fmap; lia).
    replace (zlen l) with (zlen k + zlen l2) by lia. rewrite <- Ec, <- Ez.
    apply (shorten_ok _ _ _ _ l2 spare); [done | done | done |]. rewrite Ez. by destruct (is_hdata_ h').
Qed.

Lemma move_assign_ok other h l k : hv other k -> hv h l ->
  exists h' o, move_assign other h = Ok (h', o) /\ hv h' k /\ capacity h' = capacity other /\ hv o [].
Proof.
  intros Ho Hh. pose proof (hv_mem _ _ Ho) as (_ & Hk & Hl). unfold move_assign.
  destruct (clear_ok true h l Hh) as (h1 & -> & Hh1 & Hc1). cbn [mbind result_bind].
  assert (is_hdata_ h1 = true) as Hd.
  { destruct Hh1 as (? & _ & _ & _ & Hb). unfold capacity in Hc1. destruct (is_hdata_ h1); [done | lia]. }
  assert (hv (mk_hv (raw kHoldSize) 0 true) []) as Hraw by apply hv_make.
  destruct (is_hdata_ other) eqn:Eb.
  - assert (capacity other = kHoldSize) as Hco by (unfold capacity; by rewrite Eb).
    destruct (refill_ok construct h1 other k true) as (h' & E & Hh' & Hc'); [done | done | lia | done | by left |].
    rewrite Hd. destruct (for_up _ _ 0 (mem h1)) as [m |]; [| done]. cbn [mbind result_bind] in *. injection E as <-.
    destruct (clear_ok false other k Ho) as (o & E & Hho & _). unfold clear in E.
    destruct (destroy_range 0 (size_ other) (mem other)) as [mo |]; [| done]. cbn [mbind result_bind] in *. injection E as <-.
    rewrite Eb in Hho. eexists _, _. split_and!; [done | done | lia | done].
  - eexists _, _. split_and!; [done | | unfold capacity; by rewrite Eb | done].
    destruct Ho as (sp & Em & Hsz & Hsp & Hb). rewrite Eb in Hb. by exists sp.
Qed.

Lemma move_make_ok other k : hv other k ->
  exists h' o, move_make other = Ok (h', o) /\ hv h' k /\ capacity h' = capacity other /\ hv o [].
Proof.
  intros Ho. destruct (move_assign_ok other h_vector_make [] k Ho hv_make) as (h' & o & E & H).
  exists h', o. split; [| done]. rewrite <- E. unfold move_assign, move_make, clear.
  change (size_ h_vector_make) with 0. rewrite (destroy_range_nil 0 0) by lia. reflexivity.
Qed.

Lemma assign_ok data h l : hv h l -> zlen data <= max_size ->
  gives (assign data h) data
    (if (zlen data <=? capacity h) && (capacity h - Z.shiftr (zlen data) 2 <=? zlen data) then capacity h
     else grown kHoldSize (zlen data)).
Proof.
  intros Hh Hs. unfold assign. set (fits := (_ && _)). eapply gives_bind.
  - instantiate (1 := if fits then capacity h else grown kHoldSize (zlen data)). instantiate (1 := []).
    destruct fits; [exact (clear_ok false h l Hh) |].
    eapply gives_bind; [exact (clear_ok true h l Hh) |]. intros h1 Hh1 Ec. rewrite <- Ec. by apply hv_grow_ok.
  - intros h' Hh' Ec. rewrite <- Ec.
    destruct (hv_room h' [] (zlen data)) as (gap & spare & Em & Hg & Hsp & Hc & Hb); [done | apply zlen_nonneg | |].
    { change (zlen []) with 0. rewrite Ec. unfold fits. pose proof (grown_room kHoldSize (zlen data)).
      destruct (Z.leb_spec (zlen data) (capacity h)); cbn [andb]; [destruct (_ <=? _); lia | lia]. }
    rewrite Em. cbn [fmap list_fmap app]. change (zlen []) with 0 in Hc.
    pose proof (fill_up (fun i m => x ← of_option Undefined (znth data i); construct i x m) data [] gap spare 0) as Hf.
    cbn [app] in Hf. rewrite Hf; clear Hf; [| unfold zlen in *; lia | done |].
    + cbn [mbind result_bind]. apply (gives_intro _ _ _ _ spare); [done | done | done | |];
        rewrite zlen_app, zlen_fmap; [destruct (is_hdata_ h') |]; lia.
    + intros l1 x l2 o old2 E _. rewrite Z.add_0_l, E, znth_mid by done. cbn [of_option mbind result_bind].
      apply construct_mid. by rewrite zlen_fmap.
Qed.

Lemma shrink_to_fit_ok h l : hv h l -> trivially_destructible = true ->
  gives (shrink_to_fit h) l (if is_hdata_ h || (zlen l =? capacity h) then capacity h else Z.max kHoldSize (zlen l)).
Proof.
  intros Hh Ht. pose proof (hv_mem _ _ Hh) as (_ & Hk & Hl). unfold shrink_to_fit. rewrite (hv_size _ _ Hh).
  destruct (is_hdata_ h || (zlen l =? capacity h)); [by exists h |].
  eapply gives_bind; [apply reserve_ok; [apply hv_make | lia] |]. rewrite capacity_make. intros h' Hh' Ec.
  destruct (refill_ok assign_at h' h l (is_hdata_ h')) as (tmp & E & Hh2 & Hc2); [done | done | lia | done | by right |].
  rewrite (hv_size _ _ Hh) in E. destruct (for_up _ _ 0 (mem h')) as [m |]; [| done]. cbn [mbind result_bind] in *.
  injection E as E. rewrite E. destruct (move_assign_ok tmp h l l Hh2 Hh) as (h3 & o & -> & Hh3 & Hc3 & _).
  cbn [mbind result_bind fst]. exists h3. split_and!; [done | done | lia].
Qed.

(** ** The vector as a list with a capacity *)

Inductive op : Type :=
| Reserve (sz : Z) | PushBack (v : T) | PopBack | Insert (i : Z) (v : T)
| InsertCount (i count : Z) (v : T) | InsertRange (i : Z) (data : list T)
| Erase (i : Z) | EraseRange (i last : Z) | Clear (FreeHeapMemory : bool)
| Resize (sz : Z) | ResizeValue (sz : Z) (v : T) | Assign (data : list T) | ShrinkToFit
| CopyAssign (other : h_vector).

Definition run (o : op) : h_vector -> result h_vector :=
  match o with
  | Reserve sz => reserve sz | PushBack v => push_back v | PopBack => pop_back | Insert i v => insert i v
  | InsertCount i count v => insert_count i count v | InsertRange i data => insert_range i data
  | Erase i => erase i | EraseRange i last => erase_range i last | Clear b => clear b
  | Resize sz => resize sz | ResizeValue sz v => resize_value sz v | Assign data => assign data
  | ShrinkToFit => shrink_to_fit | CopyAssign other => copy_assign other
  end.

(** The elements of a vector. *)
Definition elements (h : h_vector) : list T := omap id (take (Z.to_nat (size_ h)) (mem h)).

(** What an operation makes of a list with a capacity. *)
Definition spec (o : op) (s : list T * Z) : result (list T * Z) :=
  let (l, cap) := s in
  let room n r := if max_size <? n then Fail (Throw errLogic) else Ok (r, grown cap n) in
  match o with
  | Reserve sz => if max_size <? sz then Fail (Throw errLogic) else Ok (l, Z.max cap sz)
  | PushBack v => room (zlen l + 1) (l ++ [v])
  | PopBack => if zlen l =? 0 then Fail AssertFail else Ok (take (pred (length l)) l, cap)
  | Insert i v =>
      if zlen l <? i then Fail AssertFail
      else room (zlen l + 1) (take (Z.to_nat i) l ++ v :: drop (Z.to_nat i) l)
  | InsertCount i count v =>
      if count =? 0 then Ok s else if zlen l <? i then Fail AssertFail
      else room (zlen l + count) (take (Z.to_nat i) l ++ replicate (Z.to_nat count) v ++ drop (Z.to_nat i) l)
  | InsertRange i data =>
      if zlen data =? 0 then Ok s else if zlen l <? i then Fail AssertFail
      else room (zlen l + zlen data) (take (Z.to_nat i) l ++ data ++ drop (Z.to_nat i) l)
  | Erase i =>
      if zlen l <=? i then Fail AssertFail
      else Ok (take (Z.to_nat i) l ++ drop (Z.to_nat (i + 1)) l, cap)
  | EraseRange i last => Ok (take (Z.to_nat i) l ++ drop (Z.to_nat last) l, cap)
  | Clear b => Ok ([], if b then kHoldSize else cap)
  | Resize sz => room sz (zresize l sz T_default)
  | ResizeValue sz v => room sz (zresize l sz v)
  | Assign data =>
      if (zlen data <=? cap) && (cap - Z.shiftr (zlen data) 2 <=? zlen data) then Ok (data, cap)
      else if max_size <? zlen data then Fail (Throw errLogic) else Ok (data, grown kHoldSize (zlen data))
  | ShrinkToFit => Ok (l, if zlen l =? cap then cap else Z.max kHoldSize (zlen l))
  | CopyAssign other => Ok (elements other, Z.max cap (capacity other))
  end.

(** Places are in the vector or at its end, and sizes fit: what the type of the arguments and
    the validity of iterators mean. [resize(n)] needs a constructor to run and [shrink_to_fit] a
    trivial type. *)
Definition op_ok (o : op) (l : list T) : Prop :=
  match o with
  | Reserve n | ResizeValue n _ => 0 <= n
  | Insert i _ | Erase i => 0 <= i
  | InsertCount i count _ => 0 <= i /\ 0 <= count <= max_size /\ (count = 0 -> i <= zlen l)
  | InsertRange i data => 0 <= i /\ zlen data <= max_size /\ (data = [] -> i <= zlen l)
  | EraseRange i last => 0 <= i <= last /\ last <= zlen l
  | Resize sz => 0 <= sz /\ (trivially_default = false \/ sz <= zlen l)
  | ShrinkToFit => trivially_destructible = true
  | CopyAssign other => exists k, hv other k
  | PushBack _ | PopBack | Clear _ | Assign _ => True
  end.

Definition implements (r : result h_vector) (s : result (list T * Z)) : Prop :=
  match s with Ok (l, c) => gives r l c | Fail f => r = Fail f end.

Lemma hv_elements h l : hv h l -> elements h = l.
Proof.
  intros (sp & Em & Hsz & _). unfold elements. rewrite Em, Hsz. unfold zlen. rewrite Nat2Z.id.
  rewrite take_app_length' by (by rewrite length_fmap). clear. induction l as [| x l IH]; [done |]. cbn. by rewrite IH.
Qed.

Lemma insert_gap_implements i count value vs h l : hv h l -> 0 < count <= max_size -> 0 <= i -> zlen vs = count ->
  (forall k x, vs !! k = Some x -> value (i + Z.of_nat k) = x) ->
  implements (insert_gap i count value h)
    (if zlen l <? i then Fail AssertFail
     else if max_size <? zlen l + count then Fail (Throw errLogic)
     else Ok (take (Z.to_nat i) l ++ vs ++ drop (Z.to_nat i) l, grown (capacity h) (zlen l + count))).
Proof.
  intros Hh Hc Hi Hvs Hv. destruct (Z.ltb_spec (zlen l) i) as [H1 | H1].
  { cbn. unfold insert_gap. rewrite (hv_size _ _ Hh). by rewrite (proj2 (Z.ltb_lt _ _)). }
  destruct (Z.ltb_spec max_size (zlen l + count)) as [H2 | H2]; [| by apply insert_gap_ok; auto; lia].
  cbn. unfold insert_gap. rewrite (hv_size _ _ Hh), (proj2 (Z.ltb_ge _ _)) by lia.
  pose proof (hv_mem _ _ Hh). pose proof max_size_val. unfold u32. rewrite wrap_id by lia.
  by rewrite (grow_fails _ _ l).
Qed.

Lemma push_back_implements v h l : hv h l ->
  implements (push_back v h)
    (if max_size <? zlen l + 1 then Fail (Throw errLogic) else Ok (l ++ [v], grown (capacity h) (zlen l + 1))).
Proof.
  intros Hh. destruct (Z.ltb_spec max_size (zlen l + 1)) as [H | H]; [| by apply push_back_ok].
  cbn. unfold push_back. rewrite (hv_size _ _ Hh). pose proof (hv_mem _ _ Hh). pose proof max_size_val.
  pose proof (zlen_nonneg l). unfold u32. rewrite wrap_id by lia. by rewrite (grow_fails _ _ l).
Qed.

Lemma insert_implements i v h l : hv h l -> 0 <= i ->
  implements (insert i v h) (spec (Insert i v) (l, capacity h)).
Proof.
  intros Hh Hi. cbn [spec]. destruct (Z.ltb_spec (zlen l) i) as [H1 | H1].
  { cbn. unfold insert. rewrite (hv_size _ _ Hh). by rewrite (proj2 (Z.eqb_neq _ _)), (proj2 (Z.leb_le _ _)) by lia. }
  destruct (Z.ltb_spec max_size (zlen l + 1)) as [H2 | H2]; [| by apply insert_ok; auto; lia].
  pose proof (push_back_implements v h l Hh) as Hp. rewrite (proj2 (Z.ltb_lt _ _)) in Hp by done. cbn in *.
  unfold insert. rewrite (hv_size _ _ Hh). destruct (Z.eqb_spec i (zlen l)); [done |].
  rewrite (proj2 (Z.leb_gt _ _)) by lia. pose proof (hv_mem _ _ Hh). pose proof max_size_val.
  pose proof (zlen_nonneg l). unfold u32. rewrite wrap_id by lia. by rewrite (grow_fails _ _ l).
Qed.

Lemma resize_implements r sz v h l : hv h l -> 0 <= sz ->
  (sz <= max_size -> gives r (zresize l sz v) (grown (capacity h) sz)) ->
  (max_size < sz -> grow sz h = Fail (Throw errLogic) -> r = Fail (Throw errLogic)) ->
  implements r (if max_size <? sz then Fail (Throw errLogic) else Ok (zresize l sz v, grown (capacity h) sz)).
Proof.
  intros Hh Hs H1 H2. destruct (Z.ltb_spec max_size sz); [| by apply H1].
  apply H2; [done |]. by apply (grow_fails _ _ l).
Qed.

Lemma assign_implements data h l : hv h l -> implements (assign data h) (spec (Assign data) (l, capacity h)).
Proof.
  intros Hh. cbn [spec]. destruct (Z.le_gt_cases (zlen data) max_size) as [Hs | Hs].
  - rewrite (proj2 (Z.ltb_ge _ _)) by lia. pose proof (assign_ok data h l Hh Hs) as H. by destruct (_ && _).
  - pose proof (hv_mem _ _ Hh). rewrite (proj2 (Z.leb_gt _ (capacity h))) by lia. cbn [andb].
    rewrite (proj2 (Z.ltb_lt _ _)) by lia. cbn. unfold assign. rewrite (proj2 (Z.leb_gt _ (capacity h))) by lia. cbn [andb].
    destruct (clear_ok true h l Hh) as (h1 & -> & Hh1 & _). cbn [mbind result_bind]. by rewrite (grow_fails _ _ []).
Qed.

Lemma pop_back_implements h l : hv h l -> implements (pop_back h) (spec PopBack (l, capacity h)).
Proof.
  intros Hh. cbn [spec]. destruct l as [| v l _] using rev_ind.
  - cbn. unfold pop_back. by rewrite (hv_size _ _ Hh).
  - rewrite zlen_app. change (zlen [v]) with 1. pose proof (zlen_nonneg l). rewrite (proj2 (Z.eqb_neq _ _)) by lia.
    rewrite length_app, Nat.add_1_r, Nat.pred_succ, take_app_length. by apply (pop_back_ok v).
Qed.

Lemma erase_implements i h l : hv h l -> 0 <= i -> implements (erase i h) (spec (Erase i) (l, capacity h)).
Proof.
  intros Hh Hi. cbn [spec]. destruct (Z.leb_spec (zlen l) i) as [H | H]; [| by apply erase_ok].
  cbn. unfold erase. rewrite (hv_size _ _ Hh). by rewrite (proj2 (Z.ltb_ge _ _)) by lia.
Qed.

Lemma erase_range_implements i last h l : hv h l -> 0 <= i <= last -> last <= zlen l ->
  implements (erase_range i last h) (spec (EraseRange i last) (l, capacity h)).
Proof.
  intros Hh Hi Hl. cbn [spec implements]. destruct (Z.eqb_spec (last - i) 0) as [E | E]; [| by apply erase_range_ok; auto; lia].
  assert (last = i) as -> by lia. rewrite take_drop. exists h. split_and!; [| done | done].
  unfold erase_range. rewrite (hv_size _ _ Hh). rewrite (proj2 (Z.eqb_eq _ _)), (proj2 (Z.ltb_ge _ _)) by lia. done.
Qed.

Lemma shrink_implements h l : hv h l -> trivially_destructible = true ->
  implements (shrink_to_fit h) (spec ShrinkToFit (l, capacity h)).
Proof.
  intros Hh Ht. pose proof (shrink_to_fit_ok h l Hh Ht) as H. pose proof (hv_mem _ _ Hh) as (_ & Hk & Hl).
  cbn [spec implements]. destruct (is_hdata_ h) eqn:Eb; cbn [orb] in H; [| done].
  assert (capacity h = kHoldSize) as E by (unfold capacity; by rewrite Eb). rewrite E in *.
  destruct (Z.eqb_spec (zlen l) kHoldSize); [done |]. by rewrite Z.max_l by lia.
Qed.

Lemma run_implements o h l : hv h l -> op_ok o l -> implements (run o h) (spec o (l, capacity h)).
Proof.
  intros Hh Ho. destruct o; cbn [run op_ok] in *.
  - cbn. destruct (Z.ltb_spec max_size sz); [by apply (reserve_fails _ _ l) | by apply reserve_ok].
  - by apply push_back_implements.
  - by apply pop_back_implements.
  - by apply insert_implements.
  - cbn [spec]. unfold insert_count. destruct (Z.eqb_spec count 0) as [-> | H]; [by exists h |].
    destruct Ho as (Hi & Hc & _). apply insert_gap_implements; [done | lia | done | apply zlen_replicate; lia |].
    intros k x Hk. by apply lookup_replicate in Hk as [-> _].
  - cbn [spec]. unfold insert_range. destruct (Z.eqb_spec (zlen data) 0) as [E | H]; [by exists h |].
    destruct Ho as (Hi & Hc & _). pose proof (zlen_nonneg data).
    apply insert_gap_implements; [done | lia | done | done |].
    intros k x Hk. replace (i + Z.of_nat k - i) with (Z.of_nat k) by lia. by rewrite znth_lookup, Hk.
  - by apply erase_implements.
  - destruct Ho. by apply erase_range_implements.
  - by apply (clear_ok FreeHeapMemory h l).
  - apply resize_implements; [done | lia | intros; apply resize_ok; [done | lia | tauto] |].
    intros _ E. unfold resize. by rewrite E.
  - apply resize_implements; [done | lia | intros; apply resize_value_ok; [done | lia] |].
    intros _ E. unfold resize_value. by rewrite E.
  - by apply assign_implements.
  - by apply shrink_implements.
  - destruct Ho as [k Hk]. cbn. rewrite (hv_elements _ _ Hk). by apply (copy_assign_ok other h l k).
Qed.

Fixpoint runs (os : list op) (h : h_vector) : result h_vector :=
  match os with [] => Ok h | o :: os => h ← run o h; runs os h end.

Fixpoint specs (os : list op) (s : list T * Z) : result (list T * Z) :=
  match os with [] => Ok s | o :: os => s ← spec o s; specs os s end.

Fixpoint ops_ok (os : list op) (s : list T * Z) : Prop :=
  match os with
  | [] => True
  | o :: os => op_ok o (fst s) /\ match spec o s with Ok s => ops_ok os s | Fail _ => True end
  end.

Lemma runs_implement os h l : hv h l -> ops_ok os (l, capacity h) ->
  implements (runs os h) (specs os (l, capacity h)).
Proof.
  revert h l. induction os as [| o os IH]; intros h l Hh Hos; [by exists h |]. destruct Hos as [Ho Hos].
  cbn [runs specs]. pose proof (run_implements o h l Hh Ho) as H.
  destruct (spec o (l, capacity h)) as [[l' c'] | f]; cbn [implements mbind result_bind] in *.
  - destruct H as (h' & -> & Hh' & <-). by apply IH.
  - by rewrite H.
Qed.

(** C14: the vector with inline storage is a list. After any operations with valid arguments on
    a new vector, the storage holds exactly the elements of the list that the same operations make,
    the capacity is the one of the growth policy (at least the size, doubled when it grows, never
    above the limit), and an operation throws or fails a check exactly where the specification
    does; no cell outside of the storage, and no cell without an object, is read or assigned. *)
Theorem h_vector_refines os : ops_ok os ([], kHoldSize) ->
  implements (runs os h_vector_make) (specs os ([], kHoldSize)).
Proof. apply (runs_implement os h_vector_make []). apply hv_make. Qed.

(** Reading. *)
Lemma rd_hv h l i : hv h l -> 0 <= i < zlen l -> exists x, znth l i = Some x /\ rd (mem h) i = Ok x.
Proof.
  intros (sp & Em & _) Hi. destruct (znth_lt l i Hi) as [x Hx]. exists x. split; [done |].
  unfold rd. rewrite Em, znth_app_l by (rewrite zlen_fmap; lia). unfold znth in *. case_decide; [| done].
  rewrite list_lookup_fmap, Hx. done.
Qed.

Lemma index_ok h l i : hv h l -> 0 <= i -> index h i = of_option AssertFail (znth l i).
Proof.
  intros Hh Hi. unfold index. rewrite (hv_size _ _ Hh). destruct (Z.leb_spec (zlen l) i).
  - by rewrite znth_None by lia.
  - by destruct (rd_hv h l i Hh) as (x & -> & ->).
Qed.

End HVector.

Arguments h_vector : clear implicits.

(** Every kind of operation, with elements that have a destructor and inline room for two. *)
Definition sample_ops : list (op (T := Z)) :=
  [PushBack 1; PushBack 2; Insert 1 5; InsertRange 1 [7; 8]; InsertCount 5 2 9; Erase 0; EraseRange 1 3;
   PopBack; ResizeValue 6 4; Reserve 20; Assign [1; 2; 3]].

Lemma h_vector_refines_witness :
  specs 2 0 sample_ops ([], 2) = Ok ([1; 2; 3], 4) /\
  implements 2 false (runs 2 false false (fun x => x) 0 sample_ops (h_vector_make 2)) (Ok ([1; 2; 3], 4)).
Proof.
  split; [reflexivity |].
  apply (h_vector_refines 2 false false (fun x => x) 0 ltac:(vm_compute; split; [reflexivity | discriminate]) sample_ops).
  vm_compute. repeat split; discriminate.
Defined.

(** [shrink_to_fit] of elements that have a destructor assigns to raw memory. *)
Example shrink_to_fit_raw :
  (h ← runs 2 false false (fun x : Z => x) 0 [PushBack 1; PushBack 2; PushBack 3; Reserve 10] (h_vector_make 2);
   shrink_to_fit 2 false h) = Fail Undefined.
Proof. reflexivity. Qed.
