(* ===== verification/ExtendibleMap.v ===== *)
(** * ExtendibleMap: a hash map in parts that split and join

    Models [estl/extendible_hash_map.h], the map under the hash indexes. A table of [kMaxParts]
    entries, selected by the mixed hash of a key, names the part that keeps the key; a part that
    grows to the critical size is split in two, and after many removes a small part is joined to
    the smallest other one. The parts are maps of a vendored library: an interface with laws. *)

From S2P Require Import Prelude.
#[local] Open Scope nat_scope.

(** ** The maps of the parts

    [tsl::sparse_map]. An iterator is the position of an element in the order of iteration,
    and [end()] is the number of elements. The hash of a key is given by the caller. *)

Class BaseHashMap (K V B : Type) : Type := {
  bm_make : Z -> B;
  bm_elements : B -> list (K * V);
  bm_find : K -> Z -> B -> nat;
  bm_try_emplace : Z -> K -> V -> B -> B * (nat * bool);
  bm_erase : K -> Z -> B -> B * Z;
  bm_erase_at : nat -> B -> B;
  bm_assign : nat -> V -> B -> B;
  bm_bucket_count : B -> Z;
  bm_buckets_stats : B -> bytes;
  bm_stats_correct : Z -> bytes -> bool;
  bm_make_stats : Z -> bytes -> B
}.

Definition bm_size {K V B} `{BaseHashMap K V B} (b : B) : Z := zlen (bm_elements b).
Definition bm_end {K V B} `{BaseHashMap K V B} (b : B) : nat := length (bm_elements b).

(** The position of a key. *)
Definition position {K V} `{EqDecision K} (k : K) (l : list (K * V)) : nat :=
  match list_find (fun kv => fst kv = k) l with Some (i, _) => i | None => length l end.

Class BaseHashMapLaws (K V B : Type) `{EqDecision K} `{BaseHashMap K V B} (h_ : K -> Z) : Prop := {
  bm_keys b : NoDup (fst <$> bm_elements b);
  bm_elements_make n : bm_elements (bm_make n) = [];
  bm_find_position k b : bm_find k (h_ k) b = position k (bm_elements b);
  bm_emplace_old k v b :
    k ∈ (fst <$> bm_elements b) -> bm_try_emplace (h_ k) k v b = (b, (position k (bm_elements b), false));
  bm_emplace_new k v b :
    k ∉ (fst <$> bm_elements b) ->
    exists b', bm_try_emplace (h_ k) k v b = (b', (position k (bm_elements b'), true)) /\
      bm_elements b' ≡ₚ (k, v) :: bm_elements b;
  bm_erase_elements k b :
    bm_elements (fst (bm_erase k (h_ k) b)) ≡ₚ filter (fun kv => fst kv <> k) (bm_elements b);
  bm_erase_count k b :
    snd (bm_erase k (h_ k) b) = if bool_decide (k ∈ (fst <$> bm_elements b)) then 1%Z else 0%Z;
  bm_erase_at_elements i k v b :
    bm_elements b !! i = Some (k, v) -> bm_elements (bm_erase_at i b) ≡ₚ filter (fun kv => fst kv <> k) (bm_elements b);
  bm_assign_elements i k v w b :
    bm_elements b !! i = Some (k, v) ->
    bm_elements (bm_assign i w b) ≡ₚ (k, w) :: filter (fun kv => fst kv <> k) (bm_elements b);
  bm_elements_stats n s : bm_elements (bm_make_stats n s) = []
}.

(** ** The map *)

Section Map.
Context {K V B : Type} `{EqDecision K} `{BaseHashMap K V B}.

(** The hash of a key, and the constants of the template. *)
Context (h_ : K -> Z) (kNumBucketsInPart kMinPartSize kCriticalPartSize : Z) (kNumBitsToSelectPart : Z).

Definition kMaxParts : nat := Z.to_nat (2 ^ kNumBitsToSelectPart).
Definition kNumRemovesToJoinMinParts : Z := 10000.

(** A part that is not used is a null pointer. Sizes count elements in memory and do not wrap. *)
Record hash_map : Type := mk_map {
  size_ : Z;
  partsUsed_ : nat;
  partsToUse_ : list nat;
  partsSplitCounts_ : list Z;
  parts_ : list (option B);
  removesCounter_ : Z
}.

Definition set_size (x : Z) (m : hash_map) : hash_map :=
  mk_map x (partsUsed_ m) (partsToUse_ m) (partsSplitCounts_ m) (parts_ m) (removesCounter_ m).
Definition set_used (x : nat) (m : hash_map) : hash_map :=
  mk_map (size_ m) x (partsToUse_ m) (partsSplitCounts_ m) (parts_ m) (removesCounter_ m).
Definition set_tables (x : list nat) (y : list Z) (m : hash_map) : hash_map :=
  mk_map (size_ m) (partsUsed_ m) x y (parts_ m) (removesCounter_ m).
Definition set_parts (x : list (option B)) (m : hash_map) : hash_map :=
  mk_map (size_ m) (partsUsed_ m) (partsToUse_ m) (partsSplitCounts_ m) x (removesCounter_ m).
Definition set_removes (x : Z) (m : hash_map) : hash_map :=
  mk_map (size_ m) (partsUsed_ m) (partsToUse_ m) (partsSplitCounts_ m) (parts_ m) x.

(** The constructor. *)
Definition make : hash_map :=
  mk_map 0 1 (replicate kMaxParts 0) (<[0 := Z.of_nat kMaxParts]> (replicate kMaxParts 0%Z))
    (<[0 := Some (bm_make 0)]> (replicate kMaxParts None)) 0.

(** The copy, and the object that a move leaves behind. *)
Definition copy (m : hash_map) : hash_map := set_removes 0 m.
Definition moved_from (m : hash_map) : hash_map :=
  set_parts (replicate (partsUsed_ m) None ++ drop (partsUsed_ m) (parts_ m)) m.

(** SplitMix64. *)
Definition splitmix (hash : Z) : Z :=
  let x := Z.lxor hash (Z.shiftr hash 30) in
  let x := u64 (x * 0xbf58476d1ce4e5b9) in
  let x := Z.lxor x (Z.shiftr x 27) in
  let x := u64 (x * 0x94d049bb133111eb) in
  Z.lxor x (Z.shiftr x 31).

Definition bucket (hash : Z) : nat := Z.to_nat (Z.land (splitmix hash) (Z.of_nat kMaxParts - 1)).

Definition partIdx (hash : Z) (m : hash_map) : result nat := of_option Undefined (partsToUse_ m !! bucket hash).

(** The part that [parts_] points to. *)
Definition part (i : nat) (m : hash_map) : result B :=
  match parts_ m !! i with Some (Some b) => Ok b | _ => Fail Undefined end.

Definition set_part (i : nat) (b : option B) (m : hash_map) : hash_map := set_parts (<[i := b]> (parts_ m)) m.

Definition part_size (i : nat) (m : hash_map) : result Z := bm_size <$> part i m.

(** ** Splitting and joining *)

(** Insertion into the part of a key without rebalancing; the size is not counted. *)
Definition insert_impl (k : K) (v : V) (m : hash_map) : result hash_map :=
  p ← partIdx (h_ k) m;
  b ← part p m;
  mret (set_part p (Some (fst (bm_try_emplace (h_ k) k v b))) m).

Fixpoint insert_all (l : list (K * V)) (m : hash_map) : result hash_map :=
  match l with [] => Ok m | (k, v) :: l => m ← insert_impl k v m; insert_all l m end.

Definition addNewPart (m : hash_map) : result hash_map :=
  if partsUsed_ m <? length (parts_ m) then
    Ok (set_used (S (partsUsed_ m)) (set_part (partsUsed_ m) (Some (bm_make kNumBucketsInPart)) m))
  else Fail Undefined.

Definition add_count (p : nat) (d : Z) (counts : list Z) : list Z := alter (fun c => u32 (c + d)) p counts.

(** Every other entry of the big part goes to the new one. *)
Fixpoint split_loop (big new : nat) (even : bool) (uses : list nat) (counts : list Z) : list nat * list Z :=
  match uses with
  | [] => ([], counts)
  | p :: uses =>
      if p =? big then
        let '(p', counts) :=
          if even then (p, counts) else (new, add_count new 1 (add_count big (-1) counts)) in
        let '(uses, counts) := split_loop big new (negb even) uses counts in (p' :: uses, counts)
      else
        let '(uses, counts) := split_loop big new even uses counts in (p :: uses, counts)
  end.

Definition rebalanceParts (big new : nat) (m : hash_map) : result hash_map :=
  let '(uses, counts) := split_loop big new true (partsToUse_ m) (partsSplitCounts_ m) in
  tmpPart ← part big m;
  insert_all (bm_elements tmpPart) (set_part big (Some (bm_make kNumBucketsInPart)) (set_tables uses counts m)).

Definition rename (from to : nat) (uses : list nat) : list nat := (fun p => if p =? from then to else p) <$> uses.

(** The source keeps its elements, whose values are moved away. *)
Definition joinPartTo (source destination : nat) (m : hash_map) : result hash_map :=
  c ← of_option Undefined (partsSplitCounts_ m !! source);
  let counts := <[source := 0%Z]> (add_count destination c (partsSplitCounts_ m)) in
  b ← part source m;
  insert_all (bm_elements b) (set_tables (rename source destination (partsToUse_ m)) counts m).

(** The last part takes the place of the part that goes away. *)
Definition move_last (p : nat) (m : hash_map) : result hash_map :=
  let last := partsUsed_ m - 1 in
  m ← (if p =? last then Ok m
       else
         x ← of_option Undefined (parts_ m !! p); y ← of_option Undefined (parts_ m !! last);
         c ← of_option Undefined (partsSplitCounts_ m !! p); d ← of_option Undefined (partsSplitCounts_ m !! last);
         mret (set_part p y (set_part last x
           (set_tables (rename last p (partsToUse_ m)) (<[p := d]> (<[last := c]> (partsSplitCounts_ m))) m))));
  mret (set_used last (set_part last None m)).

Definition joinParts (partIdx1 partIdx2 : nat) (m : hash_map) : result hash_map :=
  s1 ← part_size partIdx1 m; s2 ← part_size partIdx2 m;
  let '(p1, p2) := if (s2 <? s1)%Z then (partIdx2, partIdx1) else (partIdx1, partIdx2) in
  m ← joinPartTo p1 p2 m; move_last p1 m.

Definition rebalanceAddNewPartImpl (p : nat) (m : hash_map) : result hash_map :=
  m ← addNewPart m; rebalanceParts p (partsUsed_ m - 1) m.

Fixpoint smallest_loop (n i p smallest : nat) (m : hash_map) : result nat :=
  match n with
  | O => Ok smallest
  | S n =>
      if i =? p then smallest_loop n (S i) p smallest m
      else
        s ← part_size i m; t ← part_size smallest m;
        smallest_loop n (S i) p (if (s <? t)%Z then i else smallest) m
  end.

Definition rebalanceJoinPartsImpl (p : nat) (m : hash_map) : result hash_map :=
  let m := set_removes 0 m in
  smallest ← smallest_loop (partsUsed_ m) 0 p (if p =? 0 then 1 else 0) m;
  s ← part_size p m; t ← part_size smallest m;
  if (s + t <=? kCriticalPartSize / 2)%Z then joinParts p smallest m else Ok m.

(** Whether a part was added; nothing tells that parts were joined. *)
Definition rebalance (p : nat) (m : hash_map) : result (hash_map * bool) :=
  s ← part_size p m;
  c ← of_option Undefined (partsSplitCounts_ m !! p);
  if (kCriticalPartSize <=? s)%Z && (1 <? c)%Z then m ← rebalanceAddNewPartImpl p m; mret (m, true)
  else if (kNumRemovesToJoinMinParts <? removesCounter_ m)%Z && (s <? kMinPartSize)%Z && (1 <? partsUsed_ m) then
    m ← rebalanceJoinPartsImpl p m; mret (m, false)
  else Ok (m, false).

(** ** Iterators *)

Record iterator : Set := mk_it { partIdx_ : nat; it_ : nat }.

(** The first element of the next part that is not empty; behind the last part [it_] is the
    default one. *)
Fixpoint findNextUnemptyPart (fuel p : nat) (m : hash_map) : result iterator :=
  match fuel with
  | O => Fail OutOfFuel
  | S fuel =>
      if p <? partsUsed_ m then
        b ← part p m;
        match bm_elements b with [] => findNextUnemptyPart fuel (S p) m | _ => Ok (mk_it p 0) end
      else Ok (mk_it p 0)
  end.

Definition next_part (p : nat) (m : hash_map) : result iterator := findNextUnemptyPart (S (partsUsed_ m)) (S p) m.

(** The constructor. *)
Definition make_iterator (p it : nat) (m : hash_map) : result iterator :=
  if p <? partsUsed_ m then
    b ← part p m; if it =? bm_end b then next_part p m else Ok (mk_it p it)
  else Ok (mk_it p it).

Definition end_ (m : hash_map) : iterator := mk_it (partsUsed_ m) 0.
Definition begin (m : hash_map) : result iterator := if (size_ m =? 0)%Z then Ok (end_ m) else make_iterator 0 0 m.

(** [operator++], [operator==] and [operator*]. *)
Definition next (i : iterator) (m : hash_map) : result iterator :=
  b ← part (partIdx_ i) m;
  if S (it_ i) =? bm_end b then next_part (partIdx_ i) m else Ok (mk_it (partIdx_ i) (S (it_ i))).

Definition iterator_eq (i j : iterator) (m : hash_map) : bool :=
  (partIdx_ i =? partIdx_ j) && ((partIdx_ i =? partsUsed_ m) || (it_ i =? it_ j)).

Definition deref (i : iterator) (m : hash_map) : result (K * V) :=
  b ← part (partIdx_ i) m; of_option Undefined (bm_elements b !! it_ i).

(** [it->second = v] *)
Definition assign (i : iterator) (v : V) (m : hash_map) : result hash_map :=
  b ← part (partIdx_ i) m; mret (set_part (partIdx_ i) (Some (bm_assign (it_ i) v b)) m).

(** [for (auto& kv : map)]: the elements that it visits. *)
Fixpoint for_each (fuel : nat) (i : iterator) (m : hash_map) : result (list (K * V)) :=
  match fuel with
  | O => Fail OutOfFuel
  | S fuel =>
      if iterator_eq i (end_ m) m then Ok []
      else kv ← deref i m; i ← next i m; l ← for_each fuel i m; mret (kv :: l)
  end.

(** ** Operations *)

Definition find (k : K) (m : hash_map) : result iterator :=
  let hash := h_ k in
  pIdx ← partIdx hash m;
  b ← part pIdx m;
  let it := bm_find k hash b in
  if it =? bm_end b then Ok (end_ m) else make_iterator pIdx it m.

(** The end of [insert], [find_or_insert] and [operator[]]. *)
Definition emplace_at (pIdx : nat) (k : K) (v : V) (m : hash_map) : result (hash_map * (iterator * bool)) :=
  b ← part pIdx m;
  let '(b, (it, fresh)) := bm_try_emplace (h_ k) k v b in
  let m := set_size (size_ m + Z.b2z fresh) (set_part pIdx (Some b) m) in
  i ← make_iterator pIdx it m;
  mret (m, (i, fresh)).

Definition insert (k : K) (v : V) (m : hash_map) : result (hash_map * (iterator * bool)) :=
  pIdx ← partIdx (h_ k) m;
  '(m, added) ← rebalance pIdx m;
  pIdx ← if added : bool then partIdx (h_ k) m else Ok pIdx;
  emplace_at pIdx k v m.

Definition find_or_insert (k : K) (v : V) (m : hash_map) : result (hash_map * (iterator * bool)) :=
  pIdx ← partIdx (h_ k) m;
  b ← part pIdx m;
  let it := bm_find k (h_ k) b in
  if negb (it =? bm_end b) then i ← make_iterator pIdx it m; mret (m, (i, false))
  else
    '(m, added) ← rebalance pIdx m;
    pIdx ← if added : bool then partIdx (h_ k) m else Ok pIdx;
    emplace_at pIdx k v m.

(** [operator[]]: the default value is a parameter of the insertion, the reference an iterator. *)
Definition index (default : V) (k : K) (m : hash_map) : result (hash_map * iterator) :=
  '(m, (i, _)) ← insert k default m; mret (m, i).

Definition erase (k : K) (m : hash_map) : result (hash_map * Z) :=
  pIdx ← partIdx (h_ k) m;
  b ← part pIdx m;
  let '(b, res) := bm_erase k (h_ k) b in
  let m := set_part pIdx (Some b) m in
  let m := set_removes (u64 (removesCounter_ m + res)) (set_size (size_ m - res) m) in
  '(m, _) ← rebalance pIdx m;
  mret (m, res).

Definition erase_at (i : iterator) (m : hash_map) : result hash_map :=
  b ← part (partIdx_ i) m;
  let m := set_part (partIdx_ i) (Some (bm_erase_at (it_ i) b)) m in
  let m := set_removes (u64 (removesCounter_ m + 1)) (set_size (size_ m - 1) m) in
  '(m, _) ← rebalance (partIdx_ i) m;
  mret m.

End Map.

(** ** The parts as finite maps *)

Section Parts.
Context {K V B : Type} `{Countable K} `{BaseHashMap K V B} (h_ : K -> Z) `{!BaseHashMapLaws K V B h_}.

Definition contents (b : B) : gmap K V := list_to_map (bm_elements b).

Lemma contents_Some b k v : contents b !! k = Some v <-> (k, v) ∈ bm_elements b.
Proof. unfold contents. symmetry. apply elem_of_list_to_map, bm_keys. Qed.

Lemma contents_None b k : contents b !! k = None <-> k ∉ (fst <$> bm_elements b).
Proof. unfold contents. symmetry. apply not_elem_of_list_to_map. Qed.

Lemma contents_ext b (g : gmap K V) l :
  bm_elements b ≡ₚ l -> g = list_to_map l -> contents b = g.
Proof. intros E ->. apply list_to_map_proper; [apply bm_keys | done]. Qed.

Lemma contents_make n : contents (bm_make n) = ∅.
Proof. unfold contents. by rewrite bm_elements_make. Qed.

Lemma contents_stats n s : contents (bm_make_stats n s) = ∅.
Proof. unfold contents. by rewrite bm_elements_stats. Qed.

Lemma position_Some k v b : contents b !! k = Some v -> bm_elements b !! position k (bm_elements b) = Some (k, v).
Proof.
  intros Hk%contents_Some. unfold position.
  destruct (list_find _ _) as [[i [k' v']] |] eqn:E.
  - apply list_find_Some in E as (Hi & Hk' & _). cbn [fst] in Hk'. subst k'.
    apply list_elem_of_lookup_2 in Hi as Hv. apply contents_Some in Hv, Hk. by simplify_eq.
  - apply list_find_None in E. rewrite Forall_forall in E. by apply E in Hk.
Qed.

Lemma position_None k b : contents b !! k = None -> position k (bm_elements b) = bm_end b.
Proof.
  intros Hk%contents_None. unfold position, bm_end. destruct (list_find _ _) as [[i kv] |] eqn:E; [| done].
  apply list_find_Some in E as (Hi & <- & _). destruct Hk.
  apply list_elem_of_fmap_2. by apply list_elem_of_lookup_2 in Hi.
Qed.

Lemma find_cases k b :
  (exists v, contents b !! k = Some v /\ bm_elements b !! bm_find k (h_ k) b = Some (k, v) /\ bm_find k (h_ k) b <> bm_end b) \/
  (contents b !! k = None /\ bm_find k (h_ k) b = bm_end b).
Proof.
  rewrite (bm_find_position k b). destruct (contents b !! k) as [v |] eqn:E.
  - left. exists v. split; [done |]. apply position_Some in E. split; [done |].
    apply lookup_lt_Some in E. unfold bm_end. lia.
  - right. split; [done |]. by apply position_None.
Qed.

Lemma emplace_cases k v b :
  let w := default v (contents b !! k) in
  exists b' i, bm_try_emplace (h_ k) k v b = (b', (i, bool_decide (contents b !! k = None))) /\
    contents b' = <[k := w]> (contents b) /\ bm_elements b' !! i = Some (k, w).
Proof.
  cbv zeta. destruct (contents b !! k) as [w |] eqn:E; cbn [default from_option id].
  - exists b, (position k (bm_elements b)). rewrite bool_decide_false by done. split_and!.
    + apply bm_emplace_old. destruct (decide (k ∈ (fst <$> bm_elements b))) as [| Hn]; [done |].
      apply contents_None in Hn. congruence.
    + by rewrite insert_id.
    + by apply position_Some.
  - rewrite bool_decide_true by done. pose proof E as E'. apply contents_None in E'.
    destruct (bm_emplace_new k v b E') as (b' & Eq & P). exists b', (position k (bm_elements b')).
    assert (contents b' = <[k := v]> (contents b)) as Hc by (by apply (contents_ext _ _ ((k, v) :: bm_elements b))).
    split_and!; [done | done |]. apply position_Some. rewrite Hc. apply lookup_insert_eq.
Qed.

Lemma contents_filter b b' k :
  bm_elements b' ≡ₚ filter (fun kv => fst kv <> k) (bm_elements b) -> contents b' = delete k (contents b).
Proof.
  intros P. apply map_eq. intros j. apply option_eq. intros v.
  rewrite contents_Some, P, list_elem_of_filter, lookup_delete_Some, contents_Some. cbn [fst]. naive_solver.
Qed.

Lemma erase_cases k b :
  exists b', bm_erase k (h_ k) b = (b', if decide (contents b !! k = None) then 0%Z else 1%Z) /\
    contents b' = delete k (contents b).
Proof.
  exists (fst (bm_erase k (h_ k) b)). split; [| by apply contents_filter, bm_erase_elements].
  rewrite (surjective_pairing (bm_erase k (h_ k) b)) at 1. f_equal. rewrite bm_erase_count.
  destruct (decide (contents b !! k = None)) as [E | E]; rewrite contents_None in E.
  - by rewrite bool_decide_false.
  - rewrite bool_decide_true; [done |]. by apply dec_stable.
Qed.

Lemma contents_erase_at i k v b :
  bm_elements b !! i = Some (k, v) -> contents (bm_erase_at i b) = delete k (contents b).
Proof. intros Hi. by eapply contents_filter, bm_erase_at_elements. Qed.

Lemma contents_assign i k v w b :
  bm_elements b !! i = Some (k, v) -> contents (bm_assign i w b) = <[k := w]> (contents b).
Proof.
  intros Hi. pose proof (bm_assign_elements _ _ _ w _ Hi) as P. apply map_eq. intros j. apply option_eq. intros x.
  rewrite contents_Some, P, elem_of_cons, list_elem_of_filter, lookup_insert_Some, contents_Some. cbn [fst]. naive_solver.
Qed.

Lemma contents_size b : bm_size b = Z.of_nat (size (contents b)).
Proof.
  unfold bm_size, zlen. f_equal. rewrite <- length_map_to_list. apply Permutation_length.
  symmetry. unfold contents. apply map_to_list_to_map, bm_keys.
Qed.
End Parts.
