(* ===== verification/ExtendibleMapSpec.v ===== *)
(** * ExtendibleMapSpec: the map in parts is a map

    The invariant of [ExtendibleMap] and its refinement of a finite map: [represents m g] says
    that the tables are consistent and that every part holds exactly the elements of [g] whose
    hash selects it. Splitting and joining keep it. *)

From S2P Require Import Prelude ExtendibleMap.
#[local] Open Scope nat_scope.

(** The entries of the table that name a part. *)
Definition uses_of (p : nat) (uses : list nat) : Z := count (fun q => q =? p) uses.

Lemma uses_of_cons p q uses : uses_of p (q :: uses) = ((if (q =? p)%nat then 1 else 0) + uses_of p uses)%Z.
Proof. unfold uses_of. rewrite count_cons. by destruct (q =? p). Qed.

Lemma uses_of_bound p uses : (0 <= uses_of p uses <= zlen uses)%Z.
Proof. apply count_bound. Qed.

Lemma uses_of_elem p uses : p ∈ uses <-> (0 < uses_of p uses)%Z.
Proof.
  pose proof (uses_of_bound p uses). split.
  - intros Hp. destruct (decide (uses_of p uses = 0)%Z) as [E |]; [| lia].
    apply (proj1 (count_zero _ _)) with (x := p) in E; [| done]. by rewrite Nat.eqb_refl in E.
  - intros Hp. destruct (decide (p ∈ uses)) as [| Hn]; [done |].
    assert (uses_of p uses = 0)%Z; [| lia]. apply count_zero. intros x Hx. apply Nat.eqb_neq. by intros ->.
Qed.

(** When every part is used, and one twice, there are more entries than parts. *)
Lemma parts_room n uses p :
  (forall q, q < n -> q ∈ uses) -> (1 < uses_of p uses)%Z -> n < length uses.
Proof.
  intros Hall Hp. assert (p ∈ uses) as Hin by (apply uses_of_elem; lia).
  apply list_elem_of_split in Hin as (l1 & l2 & ->).
  assert (p ∈ l1 ++ l2) as Hp'.
  { apply uses_of_elem. unfold uses_of in *. rewrite count_app, count_cons, Nat.eqb_refl in Hp. rewrite count_app.
    cbn [b2z] in Hp. lia. }
  assert (seq 0 n ⊆+ l1 ++ l2) as Hs%submseteq_length.
  { apply NoDup_submseteq; [apply NoDup_seq |]. intros q Hq%elem_of_seq.
    destruct (decide (q = p)) as [-> |]; [done |].
    assert (q ∈ l1 ++ p :: l2) as Hq' by (apply Hall; lia). set_solver. }
  rewrite length_seq, length_app in Hs. rewrite length_app. cbn [length]. lia.
Qed.

(** ** Splitting the table *)

Lemma split_loop_uses big new even uses counts uses' counts' :
  big <> new -> new ∉ uses -> split_loop big new even uses counts = (uses', counts') ->
  Forall2 (fun p p' => p' = p \/ p = big /\ p' = new) uses uses' /\
  (forall p, p <> big -> p <> new -> uses_of p uses' = uses_of p uses) /\
  (uses_of big uses' + uses_of new uses' = uses_of big uses)%Z /\
  (uses_of new uses' = (uses_of big uses + (if even then 0 else 1)) / 2)%Z.
Proof.
  intros Hne. revert even counts uses' counts'. induction uses as [| q uses IH]; intros even counts uses' counts' Hnew Eq.
  { injection Eq as <- <-. split_and!; [done | done | done |]. by destruct even. }
  apply not_elem_of_cons in Hnew as [Hq Hnew]. cbn [split_loop] in Eq.
  destruct (q =? big) eqn:Eb.
  - apply Nat.eqb_eq in Eb as ->. destruct even; cbn [negb] in Eq.
    + destruct (split_loop _ _ _ _ _) as [u c] eqn:E. apply IH in E as (F & O & S & N); [| done]. injection Eq as <- <-.
      split_and!; [by constructor; [left |] | | |].
      * intros p Hp Hp'. rewrite !uses_of_cons. by rewrite O.
      * rewrite !uses_of_cons, Nat.eqb_refl, (proj2 (Nat.eqb_neq big new)) by done. lia.
      * rewrite !uses_of_cons, Nat.eqb_refl, (proj2 (Nat.eqb_neq big new)) by done. rewrite N, Z.add_0_l. f_equal. lia.
    + destruct (split_loop _ _ _ _ _) as [u c] eqn:E. apply IH in E as (F & O & S & N); [| done]. injection Eq as <- <-.
      split_and!; [by constructor; [right |] | | |].
      * intros p Hp Hp'. rewrite !uses_of_cons.
        rewrite (proj2 (Nat.eqb_neq new p)), (proj2 (Nat.eqb_neq big p)) by done. by rewrite O.
      * rewrite !uses_of_cons, !Nat.eqb_refl, (proj2 (Nat.eqb_neq new big)) by done. lia.
      * rewrite !uses_of_cons, !Nat.eqb_refl. rewrite N.
        replace (1 + uses_of big uses + 1)%Z with (uses_of big uses + 0 + 1 * 2)%Z by lia. rewrite Z.div_add by lia. lia.
  - destruct (split_loop _ _ _ _ _) as [u c] eqn:E. apply IH in E as (F & O & S & N); [| done]. injection Eq as <- <-.
    apply Nat.eqb_neq in Eb. split_and!; [by constructor; [left |] | | |].
    + intros p Hp Hp'. rewrite !uses_of_cons. by rewrite O.
    + rewrite !uses_of_cons, (proj2 (Nat.eqb_neq q big)), (proj2 (Nat.eqb_neq q new)) by done. lia.
    + rewrite !uses_of_cons, (proj2 (Nat.eqb_neq q big)), (proj2 (Nat.eqb_neq q new)) by done. by rewrite N.
Qed.

Lemma add_count_eq p d counts c :
  counts !! p = Some c -> (0 <= c + d < 2 ^ 32)%Z -> add_count p d counts !! p = Some (c + d)%Z.
Proof. intros Hc Hb. unfold add_count. rewrite list_lookup_alter_eq, Hc. cbn. f_equal. by apply wrap_id. Qed.

Lemma add_count_ne p q d counts : p <> q -> add_count p d counts !! q = counts !! q.
Proof. intros Hne. by apply list_lookup_alter_ne. Qed.

Lemma length_add_count p d counts : length (add_count p d counts) = length counts.
Proof. apply length_alter. Qed.

Lemma split_loop_counts big new even uses counts uses' counts' c d :
  big <> new -> new ∉ uses -> split_loop big new even uses counts = (uses', counts') ->
  counts !! big = Some c -> counts !! new = Some d ->
  (uses_of big uses <= c < 2 ^ 32)%Z -> (0 <= d /\ d + uses_of big uses < 2 ^ 32)%Z ->
  length counts' = length counts /\
  counts' !! big = Some (c - uses_of new uses')%Z /\ counts' !! new = Some (d + uses_of new uses')%Z /\
  (forall p, p <> big -> p <> new -> counts' !! p = counts !! p).
Proof.
  intros Hne. revert even counts uses' counts' c d.
  induction uses as [| q uses IH]; intros even counts uses' counts' c d Hnew Eq Hc Hd Bc Bd.
  { injection Eq as <- <-. cbn [uses_of count]. unfold uses_of. rewrite count_nil, Z.sub_0_r, Z.add_0_r. done. }
  apply not_elem_of_cons in Hnew as [Hq Hnew]. cbn [split_loop] in Eq.
  pose proof (uses_of_bound big uses). rewrite uses_of_cons in Bc, Bd. destruct (q =? big) eqn:Eb.
  - apply Nat.eqb_eq in Eb as ->. destruct even; cbn [negb] in Eq.
    + destruct (split_loop _ _ _ _ _) as [u c'] eqn:E. injection Eq as <- <-.
      rewrite uses_of_cons, (proj2 (Nat.eqb_neq big new)), Z.add_0_l by done.
      by apply (IH _ _ _ _ c d) in E as (L & R); [| done | done | done | lia | lia].
    + destruct (split_loop _ _ _ _ _) as [u c'] eqn:E. injection Eq as <- <-.
      rewrite uses_of_cons, Nat.eqb_refl.
      apply (IH _ _ _ _ (c - 1)%Z (d + 1)%Z) in E as (L & R1 & R2 & R3); [ | done | | | lia | lia ].
      * rewrite !length_add_count in L. split_and!; [done | rewrite R1; f_equal; lia | rewrite R2; f_equal; lia |].
        intros p Hp Hp'. rewrite R3 by done. rewrite !add_count_ne by done. done.
      * rewrite add_count_ne by done. by rewrite (add_count_eq _ _ _ c) by (done || lia).
      * apply add_count_eq; [by rewrite add_count_ne | lia].
  - destruct (split_loop _ _ _ _ _) as [u c'] eqn:E. injection Eq as <- <-. apply Nat.eqb_neq in Eb.
    rewrite uses_of_cons, (proj2 (Nat.eqb_neq q new)), Z.add_0_l by done.
    by apply (IH _ _ _ _ c d) in E as (L & R); [| done | done | done | lia | lia].
Qed.

(** ** Renaming a part *)

Lemma lookup_rename from to uses i : rename from to uses !! i = (fun p => if p =? from then to else p) <$> uses !! i.
Proof. apply list_lookup_fmap. Qed.

Lemma uses_of_rename from to uses p :
  from <> to ->
  uses_of p (rename from to uses) =
    if p =? from then 0%Z else if p =? to then (uses_of from uses + uses_of to uses)%Z else uses_of p uses.
Proof.
  intros Hne. induction uses as [| q uses IH].
  { unfold uses_of. cbn. by destruct (p =? from), (p =? to). }
  unfold rename in *. cbn [fmap list_fmap]. change (list_fmap nat nat) with (@fmap list _ nat nat).
  rewrite !uses_of_cons, IH.
  destruct (Nat.eqb_spec q from), (Nat.eqb_spec p from), (Nat.eqb_spec p to), (Nat.eqb_spec to p),
    (Nat.eqb_spec q p), (Nat.eqb_spec q to); subst; try done; lia.
Qed.

(** ** The invariant *)

Section Spec.
Context {K V B : Type} `{Countable K} `{BaseHashMap K V B} (h_ : K -> Z) `{!BaseHashMapLaws K V B h_}.
Context (kNumBucketsInPart kMinPartSize kCriticalPartSize kNumBitsToSelectPart : Z).
Context (Hbits : (0 <= kNumBitsToSelectPart < 32)%Z).

#[local] Abbreviation kMaxParts := (kMaxParts kNumBitsToSelectPart).
#[local] Abbreviation bucket k := (bucket kNumBitsToSelectPart (h_ k)).
#[local] Abbreviation partIdx k := (partIdx kNumBitsToSelectPart (h_ k)).
#[local] Abbreviation insert_impl := (insert_impl h_ kNumBitsToSelectPart).
#[local] Abbreviation insert_all := (insert_all h_ kNumBitsToSelectPart).
#[local] Abbreviation rebalance := (rebalance h_ kNumBucketsInPart kMinPartSize kCriticalPartSize kNumBitsToSelectPart).
#[local] Abbreviation hash_map := (@hash_map B).

Record tables_ok (m : hash_map) : Prop := {
  ok_used : 1 <= partsUsed_ m;
  ok_uses_len : length (partsToUse_ m) = kMaxParts;
  ok_counts_len : length (partsSplitCounts_ m) = kMaxParts;
  ok_parts_len : length (parts_ m) = kMaxParts;
  ok_uses : Forall (fun p => p < partsUsed_ m) (partsToUse_ m);
  ok_all_used : forall p, p < partsUsed_ m -> p ∈ partsToUse_ m;
  ok_counts : forall p, p < kMaxParts -> partsSplitCounts_ m !! p = Some (uses_of p (partsToUse_ m))
}.

(** The hash of a key selects a part. *)
Definition selects (uses : list nat) (k : K) (p : nat) : Prop := uses !! bucket k = Some p.

#[export] Instance selects_dec uses k p : Decision (selects uses k p).
Proof. unfold selects. apply _. Defined.

Definition part_holds (uses : list nat) (p : nat) (g : gmap K V) (o : option (option B)) : Prop :=
  exists b, o = Some (Some b) /\ forall k v, contents b !! k = Some v <-> g !! k = Some v /\ selects uses k p.

(** The parts in [D] hold the elements that select them. *)
Definition spread (m : hash_map) (D : nat -> Prop) (g : gmap K V) : Prop :=
  forall p, D p -> part_holds (partsToUse_ m) p g (parts_ m !! p).

Definition represents (m : hash_map) (g : gmap K V) : Prop :=
  tables_ok m /\ size_ m = Z.of_nat (size g) /\ spread m (fun p => p < partsUsed_ m) g.

Lemma kMaxParts_pow : Z.of_nat kMaxParts = (2 ^ kNumBitsToSelectPart)%Z.
Proof. unfold ExtendibleMap.kMaxParts. apply Z2Nat.id. apply Z.pow_nonneg. lia. Qed.

Lemma kMaxParts_bound : 1 <= kMaxParts /\ (Z.of_nat kMaxParts < 2 ^ 32)%Z.
Proof.
  pose proof kMaxParts_pow as E. pose proof (Z.pow_pos_nonneg 2 kNumBitsToSelectPart ltac:(lia) ltac:(lia)).
  split; [lia |]. rewrite E. apply Z.pow_lt_mono_r; lia.
Qed.

Lemma bucket_bound k : bucket k < kMaxParts.
Proof.
  unfold ExtendibleMap.bucket. rewrite kMaxParts_pow.
  replace (2 ^ kNumBitsToSelectPart - 1)%Z with (Z.ones kNumBitsToSelectPart) by (rewrite Z.ones_equiv; lia).
  rewrite Z.land_ones by lia. pose proof (Z.mod_pos_bound (splitmix (h_ k)) (2 ^ kNumBitsToSelectPart)) as Hb.
  pose proof kMaxParts_pow. pose proof (Z.pow_pos_nonneg 2 kNumBitsToSelectPart ltac:(lia) ltac:(lia)). lia.
Qed.

Lemma selects_ex uses k : length uses = kMaxParts -> exists p, selects uses k p.
Proof. intros Hl. apply lookup_lt_is_Some. rewrite Hl. apply bucket_bound. Qed.

Lemma selects_fun uses k p q : selects uses k p -> selects uses k q -> p = q.
Proof. unfold selects. congruence. Qed.

Lemma selects_used (m : hash_map) k p : tables_ok m -> selects (partsToUse_ m) k p -> p < partsUsed_ m.
Proof. intros T Hs. by apply (Forall_lookup_1 _ _ _ _ (ok_uses m T) Hs). Qed.

Lemma partIdx_selects k p (m : hash_map) : selects (partsToUse_ m) k p -> partIdx k m = Ok p.
Proof. intros Hs. unfold ExtendibleMap.partIdx. by rewrite Hs. Qed.

Lemma used_le m : tables_ok m -> partsUsed_ m <= kMaxParts.
Proof.
  intros T. rewrite <- (ok_uses_len m T).
  assert (seq 0 (partsUsed_ m) ⊆+ partsToUse_ m) as Hs%submseteq_length; [| by rewrite length_seq in Hs].
  apply NoDup_submseteq; [apply NoDup_seq |]. intros p Hp%elem_of_seq. apply (ok_all_used m T). lia.
Qed.

Lemma part_lookup p b (m : hash_map) : parts_ m !! p = Some (Some b) -> part p m = Ok b.
Proof. intros E. unfold part. by rewrite E. Qed.

Lemma spread_part m D g p : spread m D g -> D p ->
  exists b, parts_ m !! p = Some (Some b) /\ part p m = Ok b /\
    forall k v, contents b !! k = Some v <-> g !! k = Some v /\ selects (partsToUse_ m) k p.
Proof. intros Hs Hp. destruct (Hs p Hp) as (b & E & Hb). exists b. by rewrite (part_lookup _ _ _ E). Qed.

(** The element of a key is in the part that the key selects. *)
Lemma spread_lookup m D g k p b : spread m D g -> D p -> selects (partsToUse_ m) k p -> parts_ m !! p = Some (Some b) ->
  contents b !! k = g !! k.
Proof.
  intros Hs Hp Hk Eb. destruct (Hs p Hp) as (b' & E & Hb). rewrite Eb in E. injection E as <-.
  apply option_eq. intros v. rewrite Hb. naive_solver.
Qed.

(** ** Insertion into the parts *)

(** Replacing the part of [k] by one with another element for [k]. *)
Lemma spread_update m D g g' k p b :
  spread m D g -> p < length (parts_ m) -> selects (partsToUse_ m) k p ->
  (forall j, j <> k -> g' !! j = g !! j) ->
  (D p -> forall j, contents b !! j = if decide (j = k) then g' !! k else if decide (selects (partsToUse_ m) j p) then g !! j else None) ->
  spread (set_part p (Some b) m) D g'.
Proof.
  intros Hs Hlen Hk Hg Hb q Hq. cbn [set_part set_parts partsToUse_ parts_]. destruct (decide (q = p)) as [-> | Hne].
  - exists b. split; [by apply list_lookup_insert_eq |]. intros j v. rewrite Hb by done.
    destruct (decide (j = k)) as [-> | Hj]; [naive_solver |]. rewrite Hg by done. case_decide; naive_solver.
  - destruct (Hs q Hq) as (c & E & Hc). exists c. split; [by rewrite list_lookup_insert_ne |].
    intros j v. rewrite Hc. destruct (decide (j = k)) as [-> | Hj]; [| by rewrite Hg].
    split; intros [_ Hs']; by pose proof (selects_fun _ _ _ _ Hs' Hk).
Qed.

Lemma spread_contents m D g p b : spread m D g -> D p -> parts_ m !! p = Some (Some b) ->
  forall j, contents b !! j = if decide (selects (partsToUse_ m) j p) then g !! j else None.
Proof.
  intros Hs Hp Eb j. destruct (Hs p Hp) as (b' & E & Hb). rewrite Eb in E. injection E as <-.
  apply option_eq. intros v. rewrite Hb. case_decide; naive_solver.
Qed.

Lemma insert_impl_spread m (D : nat -> Prop) g k v :
  length (partsToUse_ m) = kMaxParts -> length (parts_ m) = kMaxParts ->
  (forall j p, selects (partsToUse_ m) j p -> D p) -> (forall p, D p -> p < kMaxParts) ->
  spread m D g -> g !! k = None ->
  exists ps, insert_impl k v m = Ok (set_parts ps m) /\ length ps = kMaxParts /\
    (forall p, ~ D p -> ps !! p = parts_ m !! p) /\ spread (set_parts ps m) D (<[k := v]> g).
Proof.
  intros Hu Hl Hsel HD Hs Hk. destruct (selects_ex _ k Hu) as [p Hp]. pose proof (Hsel _ _ Hp) as Dp.
  destruct (spread_part m D g p Hs Dp) as (b & E & Pb & Hb).
  destruct (emplace_cases h_ k v b) as (b' & i & Em & Cb & _).
  assert (contents b !! k = None) as Ck by (rewrite (spread_lookup m D g k p b); done).
  rewrite Ck in Cb. cbn [default from_option] in Cb.
  exists (<[p := Some b']> (parts_ m)). split_and!.
  - unfold ExtendibleMap.insert_impl. rewrite (partIdx_selects _ _ _ Hp), R_bind_ok, Pb, R_bind_ok, Em. reflexivity.
  - by rewrite length_insert.
  - intros q Hq. apply list_lookup_insert_ne. by intros ->.
  - apply (spread_update m D g _ k p b' Hs); [rewrite Hl; by apply HD | done | |].
    + intros j Hj. by apply lookup_insert_ne.
    + intros _ j. rewrite Cb. case_decide as Ej; [subst; by rewrite !lookup_insert_eq |].
      rewrite lookup_insert_ne by done. by apply (spread_contents m D g).
Qed.

Lemma insert_all_spread l m (D : nat -> Prop) g :
  length (partsToUse_ m) = kMaxParts -> length (parts_ m) = kMaxParts ->
  (forall j p, selects (partsToUse_ m) j p -> D p) -> (forall p, D p -> p < kMaxParts) ->
  spread m D g -> NoDup (fst <$> l) -> (forall kv, kv ∈ l -> g !! fst kv = None) ->
  exists ps, insert_all l m = Ok (set_parts ps m) /\ length ps = kMaxParts /\
    (forall p, ~ D p -> ps !! p = parts_ m !! p) /\ spread (set_parts ps m) D (list_to_map l ∪ g).
Proof.
  revert m g. induction l as [| [k v] l IH]; intros m g Hu Hl Hsel HD Hs Hnd Hg.
  { exists (parts_ m). destruct m. cbn [list_to_map foldr]. rewrite (left_id_L ∅ (∪)). done. }
  cbn [fmap list_fmap] in Hnd. apply NoDup_cons in Hnd as [Hk Hnd].
  destruct (insert_impl_spread m D g k v) as (ps & E & Lp & O & Hs'); try done.
  { by apply (Hg (k, v)), list_elem_of_here. }
  destruct (IH (set_parts ps m) (<[k := v]> g)) as (ps' & E' & Lp' & O' & Hs''); try done.
  { intros [j w] Hj. cbn [fst]. rewrite lookup_insert_ne; [by apply (Hg (j, w)), list_elem_of_further |].
    intros Ej. apply Hk. rewrite Ej. apply list_elem_of_fmap. by exists (j, w). }
  exists ps'. cbn [ExtendibleMap.insert_all]. rewrite E, R_bind_ok. split_and!; [done | done | |].
  - intros p Hp. rewrite O' by done. cbn [set_parts parts_]. by apply O.
  - cbn [set_parts] in *. replace (list_to_map ((k, v) :: l) ∪ g) with (list_to_map l ∪ <[k := v]> g); [done |].
    cbn [list_to_map foldr]. rewrite <- insert_union_l. symmetry. apply insert_union_r.
    by apply not_elem_of_list_to_map.
Qed.

(** ** Splitting a part *)

#[local] Abbreviation rebalanceAddNewPartImpl := (rebalanceAddNewPartImpl h_ kNumBucketsInPart kNumBitsToSelectPart).
#[local] Abbreviation joinParts := (joinParts h_ kNumBitsToSelectPart).
#[local] Abbreviation rebalanceJoinPartsImpl := (rebalanceJoinPartsImpl h_ kCriticalPartSize kNumBitsToSelectPart).

Lemma tables_split m p uses counts :
  tables_ok m -> p < partsUsed_ m -> (1 < uses_of p (partsToUse_ m))%Z ->
  split_loop p (partsUsed_ m) true (partsToUse_ m) (partsSplitCounts_ m) = (uses, counts) ->
  forall ps, length ps = kMaxParts -> tables_ok (mk_map (size_ m) (S (partsUsed_ m)) uses counts ps (removesCounter_ m)).
Proof.
  intros T Hp Hn Eq ps Hps. set (u := partsUsed_ m) in *.
  assert (u < kMaxParts) as Hu by (rewrite <- (ok_uses_len m T); by apply (parts_room _ _ p), Hn; apply (ok_all_used m T)).
  assert (u ∉ partsToUse_ m) as Hnew.
  { intros Hin. pose proof (proj1 (Forall_forall _ _) (ok_uses m T) _ Hin). cbn beta in *. unfold u in *. lia. }
  assert (p <> u) as Hne by lia.
  destruct (split_loop_uses _ _ _ _ _ _ _ Hne Hnew Eq) as (F & O & S & N).
  assert (uses_of u (partsToUse_ m) = 0)%Z as Ez.
  { pose proof (uses_of_bound u (partsToUse_ m)). destruct (decide (0 < uses_of u (partsToUse_ m))%Z) as [Hpos |]; [| lia].
    by apply uses_of_elem in Hpos. }
  pose proof (uses_of_bound p (partsToUse_ m)) as Bp. unfold zlen in Bp. rewrite (ok_uses_len m T) in Bp.
  destruct kMaxParts_bound as [_ Hmax].
  destruct (split_loop_counts _ _ _ _ _ _ _ _ _ Hne Hnew Eq (ok_counts m T p ltac:(lia)) (ok_counts m T u Hu))
    as (L & C1 & C2 & C3); [lia | lia |].
  assert (1 <= uses_of u uses < uses_of p (partsToUse_ m))%Z as Hhalf.
  { rewrite N, Z.add_0_r. split; [apply Z.div_le_lower_bound | apply Z.div_lt_upper_bound]; lia. }
  constructor; cbn [partsUsed_ partsToUse_ partsSplitCounts_ parts_].
  - lia.
  - rewrite <- (Forall2_length _ _ _ F). apply (ok_uses_len m T).
  - rewrite L. apply (ok_counts_len m T).
  - done.
  - apply Forall_forall. intros q Hq. apply list_elem_of_lookup in Hq as [i Hi].
    destruct (Forall2_lookup_r _ _ _ _ _ F Hi) as (q0 & Hq0 & [-> | [-> ->]]); [| lia].
    pose proof (Forall_lookup_1 _ _ _ _ (ok_uses m T) Hq0) as Hlt. cbn beta in Hlt. unfold u. lia.
  - intros q Hq. apply uses_of_elem. destruct (decide (q = u)) as [-> |]; [lia |].
    destruct (decide (q = p)) as [-> |]; [lia |]. rewrite O by done. apply uses_of_elem, (ok_all_used m T). unfold u in *. lia.
  - intros q Hq. destruct (decide (q = p)) as [-> |]; [rewrite C1; f_equal; lia |].
    destruct (decide (q = u)) as [-> |]; [rewrite C2; f_equal; lia |].
    rewrite C3 by done. rewrite O by done. by apply (ok_counts m T).
Qed.

(** The elements outside of a part, and the whole as those of the part and the others. *)
Definition without (uses : list nat) (p : nat) (g : gmap K V) : gmap K V :=
  filter (fun kv => ~ selects uses (fst kv) p) g.

Lemma without_Some uses p g k v : without uses p g !! k = Some v <-> g !! k = Some v /\ ~ selects uses k p.
Proof. apply map_lookup_filter_Some. Qed.

Lemma part_union m D g p b :
  spread m D g -> D p -> parts_ m !! p = Some (Some b) ->
  g = list_to_map (bm_elements b) ∪ without (partsToUse_ m) p g /\
  forall kv, kv ∈ bm_elements b -> without (partsToUse_ m) p g !! fst kv = None.
Proof.
  intros Hs Hp E. destruct (Hs p Hp) as (b' & E' & Hb). rewrite E in E'. injection E' as <-. split.
  - apply map_eq. intros k. apply option_eq. intros v. fold (contents b).
    rewrite lookup_union_Some_raw, Hb, without_Some.
    assert (contents b !! k = None <-> ~ (exists w, g !! k = Some w /\ selects (partsToUse_ m) k p)) as Hnone.
    { rewrite eq_None_not_Some. apply not_iff_compat. split; [intros [w Hw] | intros [w Hw]]; exists w; by apply Hb. }
    rewrite Hnone. destruct (decide (selects (partsToUse_ m) k p)); naive_solver.
  - intros [k v] Hkv%(contents_Some h_). apply Hb in Hkv as [_ Hk]. cbn [fst]. apply eq_None_not_Some.
    intros [w Hw]. by apply without_Some in Hw as [_ Hn].
Qed.

Lemma split_represents p m g :
  represents m g -> p < partsUsed_ m -> (1 < uses_of p (partsToUse_ m))%Z ->
  exists m', rebalanceAddNewPartImpl p m = Ok m' /\ represents m' g /\
    partsUsed_ m' = S (partsUsed_ m) /\ removesCounter_ m' = removesCounter_ m.
Proof.
  intros (T & Hsize & Hs) Hp Hn. set (u := partsUsed_ m) in *.
  assert (u < kMaxParts) as Hu by (rewrite <- (ok_uses_len m T); by apply (parts_room _ _ p), Hn; apply (ok_all_used m T)).
  unfold ExtendibleMap.rebalanceAddNewPartImpl, addNewPart.
  rewrite (proj2 (Nat.ltb_lt _ _)) by (rewrite (ok_parts_len m T); done). rewrite R_bind_ok.
  cbn [set_used partsUsed_]. rewrite Nat.sub_succ, Nat.sub_0_r. fold u. unfold rebalanceParts.
  cbn [set_used set_part set_parts partsToUse_ partsSplitCounts_].
  destruct (split_loop p u true (partsToUse_ m) (partsSplitCounts_ m)) as [uses counts] eqn:Eq.
  pose proof (tables_split m p uses counts T Hp Hn Eq) as HT.
  assert (u ∉ partsToUse_ m) as Hnew.
  { intros Hin. pose proof (proj1 (Forall_forall _ _) (ok_uses m T) _ Hin). cbn beta in *. unfold u in *. lia. }
  destruct (split_loop_uses _ _ _ _ _ _ _ (ltac:(lia) : p <> u) Hnew Eq) as (F & _ & _ & _).
  assert (forall k q, selects uses k q -> exists q0, selects (partsToUse_ m) k q0 /\ (q = q0 \/ q0 = p /\ q = u)) as Hsel.
  { intros k q Hq. destruct (Forall2_lookup_r _ _ _ _ _ F Hq) as (q0 & Hq0 & Hc). by exists q0. }
  destruct (spread_part m _ g p Hs Hp) as (b & E & _ & Hb). unfold part at 1. cbn [set_used set_part set_parts parts_].
  rewrite list_lookup_insert_ne by lia. rewrite E, R_bind_ok.
  destruct (part_union m _ g p b Hs Hp E) as [Eg Habs]. set (g0 := without (partsToUse_ m) p g) in *.
  match goal with |- context [insert_all _ ?x] => set (m2 := x) end.
  destruct (insert_all_spread (bm_elements b) m2 (fun q => q < S u) g0) as (ps & Ei & Lp & _ & Hs').
  - apply (ok_uses_len _ (HT (parts_ m) (ok_parts_len m T))).
  - cbn. rewrite !length_insert. apply (ok_parts_len m T).
  - intros k q Hq. apply (selects_used _ _ _ (HT (parts_ m) (ok_parts_len m T)) Hq).
  - intros q Hq. lia.
  - intros q Hq. unfold m2. cbn [set_used set_part set_parts set_tables partsToUse_ parts_].
    assert (forall n, q = p \/ q = u -> part_holds uses q g0 (Some (Some (bm_make n)))) as Hempty.
    { intros n Hq'. exists (bm_make n). split; [done |]. intros k v. rewrite (contents_make h_). unfold g0.
      rewrite without_Some. split; [done |]. intros [[_ Hno] Hq1].
      destruct (Hsel k q Hq1) as (q0 & Hq0 & Hc). pose proof (selects_used _ _ _ T Hq0) as Hlt. fold u in Hlt.
      destruct Hc as [-> | [-> ->]]; [| done]. destruct Hq' as [-> | ->]; [done | lia]. }
    destruct (decide (q = p)) as [-> |]; [| destruct (decide (q = u)) as [-> |]].
    + rewrite list_lookup_insert_eq by (rewrite length_insert, (ok_parts_len m T); lia). auto.
    + rewrite list_lookup_insert_ne by done. rewrite list_lookup_insert_eq by (rewrite (ok_parts_len m T); lia). auto.
    + rewrite !list_lookup_insert_ne by done. destruct (Hs q) as (c & Ec & Hc); [lia |]. exists c. split; [done |].
      intros k v. rewrite Hc. unfold g0. rewrite without_Some. split.
      * intros [Hk Hq1]. split_and!; [done | intros Hk'; by pose proof (selects_fun _ _ _ _ Hq1 Hk') |].
        destruct (Forall2_lookup_l _ _ _ _ _ F Hq1) as (q2 & Hq2 & [-> | [-> ->]]); done.
      * intros [[Hk _] Hq1]. split; [done |]. destruct (Hsel k q Hq1) as (q0 & Hq0 & [-> | [-> ->]]); done.
  - apply bm_keys.
  - exact Habs.
  - exists (set_parts ps m2). split; [exact Ei |]. split; [| done]. split; [apply HT, Lp |]. split; [exact Hsize |].
    rewrite Eg. exact Hs'.
Qed.

(** ** Joining two parts *)

(** The tables while the part [src] is going away. *)
Record tables_joining (src : nat) (m : hash_map) : Prop := {
  j_src : src < partsUsed_ m;
  j_used : 2 <= partsUsed_ m;
  j_uses_len : length (partsToUse_ m) = kMaxParts;
  j_counts_len : length (partsSplitCounts_ m) = kMaxParts;
  j_parts_len : length (parts_ m) = kMaxParts;
  j_used_le : partsUsed_ m <= kMaxParts;
  j_uses : Forall (fun p => p < partsUsed_ m /\ p <> src) (partsToUse_ m);
  j_all_used : forall p, p < partsUsed_ m -> p <> src -> p ∈ partsToUse_ m;
  j_counts : forall p, p < kMaxParts -> partsSplitCounts_ m !! p = Some (uses_of p (partsToUse_ m))
}.

Lemma part_holds_ext uses uses' p p' g o :
  (forall k, selects uses k p <-> selects uses' k p') -> part_holds uses p g o -> part_holds uses' p' g o.
Proof. intros Hsel (b & E & Hb). exists b. split; [done |]. intros k v. by rewrite Hb, Hsel. Qed.

Lemma selects_rename from to uses k p :
  from <> to -> selects (rename from to uses) k p <->
    p <> from /\ (selects uses k p \/ p = to /\ selects uses k from).
Proof.
  intros Hne. unfold selects. rewrite lookup_rename, fmap_Some. split.
  - intros (q & Hq & ->). destruct (Nat.eqb_spec q from) as [-> |]; naive_solver.
  - intros (Hp & [Hq | [-> Hq]]); eexists; (split; [done |]).
    + by rewrite (proj2 (Nat.eqb_neq p from)).
    + by rewrite Nat.eqb_refl.
Qed.

Lemma rename_elem from to uses p : from <> to -> p ∈ rename from to uses <-> p <> from /\ (p ∈ uses \/ p = to /\ from ∈ uses).
Proof.
  intros Hne. unfold rename. rewrite list_elem_of_fmap. split.
  - intros (q & -> & Hq). destruct (Nat.eqb_spec q from) as [-> |]; naive_solver.
  - intros (Hp & [Hq | [-> Hq]]).
    + exists p. by rewrite (proj2 (Nat.eqb_neq p from)).
    + exists from. by rewrite Nat.eqb_refl.
Qed.

Lemma joinPartTo_spread src dst m g :
  represents m g -> src < partsUsed_ m -> dst < partsUsed_ m -> src <> dst ->
  exists m', joinPartTo h_ kNumBitsToSelectPart src dst m = Ok m' /\ tables_joining src m' /\
    size_ m' = size_ m /\ partsUsed_ m' = partsUsed_ m /\ removesCounter_ m' = removesCounter_ m /\
    spread m' (fun p => p < partsUsed_ m /\ p <> src) g.
Proof.
  intros (T & Hsize & Hs) Hsrc Hdst Hne. pose proof (used_le m T) as Hle.
  unfold joinPartTo. rewrite (ok_counts m T) by lia. cbn [of_option]. rewrite R_bind_ok. cbv zeta.
  destruct (spread_part m _ g src Hs Hsrc) as (b & E & Eb & Hb). rewrite Eb, R_bind_ok.
  set (uses := rename src dst (partsToUse_ m)). set (counts := <[src := 0%Z]> _).
  destruct (part_union m _ g src b Hs Hsrc E) as [Eg Habs]. set (g0 := without (partsToUse_ m) src g) in *.
  set (m2 := set_tables uses counts m).
  assert (Forall (fun p => p < partsUsed_ m /\ p <> src) uses) as Huses.
  { apply Forall_forall. intros q Hq. apply rename_elem in Hq as (Hq & Hin); [| done]. split; [| done].
    pose proof (proj1 (Forall_forall _ _) (ok_uses m T)) as Hall. cbn beta in Hall.
    destruct Hin as [Hin | [-> _]]; [by apply Hall | done]. }
  destruct (insert_all_spread (bm_elements b) m2 (fun p => p < partsUsed_ m /\ p <> src) g0) as (ps & Ei & Lp & _ & Hs').
  - cbn. unfold uses, rename. rewrite length_fmap. apply (ok_uses_len m T).
  - apply (ok_parts_len m T).
  - intros k q Hq. by apply (Forall_lookup_1 _ _ _ _ Huses Hq).
  - intros q [Hq _]. lia.
  - intros q [Hq Hqs]. cbn [m2 set_tables partsToUse_ parts_]. destruct (Hs q Hq) as (c & Ec & Hc).
    exists c. split; [done |]. intros k v. rewrite Hc. unfold g0. rewrite without_Some. unfold uses.
    rewrite selects_rename by done. split.
    + intros [Hk Hq1]. split_and!; [done | | done | by left]. intros Hk'. by pose proof (selects_fun _ _ _ _ Hq1 Hk').
    + intros [[Hk Hn] [_ [Hq1 | [_ Hq1]]]]; done.
  - apply bm_keys.
  - exact Habs.
  - exists (set_parts ps m2). split; [exact Ei |]. split; [| split_and!; [done | done | done |]].
    + constructor; cbn [m2 set_parts set_tables partsUsed_ partsToUse_ partsSplitCounts_ parts_]; try done; try lia.
      * unfold uses, rename. rewrite length_fmap. apply (ok_uses_len m T).
      * unfold counts. rewrite length_insert, length_add_count. apply (ok_counts_len m T).
      * intros q Hq Hqs. apply rename_elem; [done |]. split; [done |]. left. by apply (ok_all_used m T).
      * intros q Hq. unfold counts, uses. rewrite uses_of_rename by done.
        destruct (Nat.eqb_spec q src) as [-> | Hqs].
        { apply list_lookup_insert_eq. rewrite length_add_count, (ok_counts_len m T). lia. }
        rewrite list_lookup_insert_ne by done. destruct (Nat.eqb_spec q dst) as [-> | Hqd].
        { rewrite (add_count_eq _ _ _ (uses_of dst (partsToUse_ m))); [f_equal; lia | apply (ok_counts m T); lia |].
          pose proof (uses_of_bound dst (rename src dst (partsToUse_ m))) as Hb'. rewrite uses_of_rename in Hb' by done.
          rewrite Nat.eqb_refl, (proj2 (Nat.eqb_neq dst src)) in Hb' by done.
          unfold zlen, rename in Hb'. rewrite length_fmap, (ok_uses_len m T) in Hb'. destruct kMaxParts_bound. lia. }
        rewrite add_count_ne by done. by apply (ok_counts m T).
    + rewrite Eg. exact Hs'.
Qed.

(** The last part takes the place of the part that goes away. *)
Lemma move_last_represents src m g :
  tables_joining src m -> size_ m = Z.of_nat (size g) -> spread m (fun p => p < partsUsed_ m /\ p <> src) g ->
  exists m', move_last src m = Ok m' /\ represents m' g /\
    partsUsed_ m' = partsUsed_ m - 1 /\ removesCounter_ m' = removesCounter_ m.
Proof.
  intros J Hsize Hs. unfold move_last. set (last := partsUsed_ m - 1).
  pose proof (j_src _ m J). pose proof (j_used _ m J). pose proof (j_used_le _ m J).
  assert (forall k, ~ selects (partsToUse_ m) k src) as Hno.
  { intros k Hk. by destruct (Forall_lookup_1 _ _ _ _ (j_uses _ m J) Hk). }
  destruct (Nat.eqb_spec src last) as [El | Hne].
  - rewrite R_bind_ok. eexists. split; [reflexivity |]. split; [| done]. split; [| split; [exact Hsize |]].
    + constructor; cbn [set_used set_part set_parts partsUsed_ partsToUse_ partsSplitCounts_ parts_]; try apply J.
      * lia.
      * rewrite length_insert. apply J.
      * eapply Forall_impl; [apply (j_uses _ m J) |]. cbn beta. intros q Hq. lia.
      * intros q Hq. apply (j_all_used _ m J); lia.
    + intros q Hq. cbn [set_used set_part set_parts partsUsed_ partsToUse_ parts_] in *.
      rewrite list_lookup_insert_ne by lia. apply Hs. lia.
  - destruct (lookup_lt_is_Some_2 (parts_ m) src) as [x Hx]; [rewrite (j_parts_len _ m J); lia |].
    destruct (lookup_lt_is_Some_2 (parts_ m) last) as [y Hy]; [rewrite (j_parts_len _ m J); lia |].
    rewrite Hx, Hy, !(j_counts _ m J) by lia. cbn [of_option]. rewrite !R_bind_ok.
    eexists. split; [reflexivity |]. split; [| done].
    split; [| split; [exact Hsize |]].
    + constructor; cbn [set_used set_part set_parts set_tables mret result_ret partsUsed_ partsToUse_ partsSplitCounts_ parts_].
      * lia.
      * unfold rename. rewrite length_fmap. apply J.
      * rewrite !length_insert. apply J.
      * rewrite !length_insert. apply J.
      * apply Forall_forall. intros q Hq. apply rename_elem in Hq as (Hq & Hin); [| done].
        pose proof (proj1 (Forall_forall _ _) (j_uses _ m J)) as Hall. cbn beta in Hall.
        destruct Hin as [Hin | [-> _]]; [apply Hall in Hin |]; lia.
      * intros q Hq. apply rename_elem; [done |]. split; [lia |]. destruct (decide (q = src)) as [-> |].
        { right. split; [done |]. apply (j_all_used _ m J); lia. }
        left. apply (j_all_used _ m J); lia.
      * intros q Hq. rewrite uses_of_rename by done.
        assert (uses_of src (partsToUse_ m) = 0)%Z as Ez.
        { apply count_zero. intros z Hz. apply Nat.eqb_neq. by apply (proj1 (Forall_forall _ _) (j_uses _ m J) _ Hz). }
        destruct (Nat.eqb_spec q last) as [-> | Hql].
        { rewrite list_lookup_insert_ne by done. rewrite list_lookup_insert_eq by (rewrite (j_counts_len _ m J); lia). by rewrite Ez. }
        destruct (Nat.eqb_spec q src) as [-> | Hqs].
        { rewrite list_lookup_insert_eq by (rewrite length_insert, (j_counts_len _ m J); lia). f_equal. lia. }
        rewrite !list_lookup_insert_ne by done. by apply (j_counts _ m J).
    + intros q Hq. cbn [set_used set_part set_parts set_tables mret result_ret partsUsed_ partsToUse_ parts_] in *.
      rewrite list_lookup_insert_ne by lia. destruct (decide (q = src)) as [-> | Hqs].
      * rewrite list_lookup_insert_eq by (rewrite length_insert, (j_parts_len _ m J); lia). rewrite <- Hy.
        apply (part_holds_ext (partsToUse_ m) _ last src); [| apply Hs; lia].
        intros k. rewrite selects_rename by done. pose proof (Hno k). naive_solver.
      * rewrite !list_lookup_insert_ne by lia. apply (part_holds_ext (partsToUse_ m) _ q q); [| apply Hs; lia].
        intros k. rewrite selects_rename by done. unfold last in *. intuition lia.
Qed.

Lemma represents_part m g p : represents m g -> p < partsUsed_ m ->
  exists b, part p m = Ok b /\ parts_ m !! p = Some (Some b) /\ part_size p m = Ok (bm_size b).
Proof.
  intros (T & _ & Hs) Hp. destruct (spread_part m _ g p Hs Hp) as (b & E & Eb & _). exists b.
  split_and!; [done | done |]. unfold part_size. by rewrite Eb.
Qed.

Lemma joinParts_represents p q m g :
  represents m g -> p < partsUsed_ m -> q < partsUsed_ m -> p <> q ->
  exists m', joinParts p q m = Ok m' /\ represents m' g /\ removesCounter_ m' = removesCounter_ m.
Proof.
  intros R Hp Hq Hne. unfold ExtendibleMap.joinParts.
  destruct (represents_part m g p R Hp) as (b & _ & _ & ->), (represents_part m g q R Hq) as (c & _ & _ & ->).
  rewrite !R_bind_ok.
  assert (exists p1 p2, (if (bm_size c <? bm_size b)%Z then (q, p) else (p, q)) = (p1, p2) /\
    p1 < partsUsed_ m /\ p2 < partsUsed_ m /\ p1 <> p2) as (p1 & p2 & -> & H1 & H2 & H12).
  { destruct (_ <? _)%Z; eexists _, _; (split; [reflexivity |]); auto. }
  destruct (joinPartTo_spread p1 p2 m g R H1 H2 H12) as (m1 & -> & J & Es & Eu & Er & Hs). rewrite R_bind_ok.
  destruct (move_last_represents p1 m1 g J) as (m' & E & R' & _ & Er'); [by rewrite Es; apply R | by rewrite Eu |].
  exists m'. split_and!; [done | done | congruence].
Qed.

Lemma smallest_loop_spec n i p s m g :
  represents m g -> i + n = partsUsed_ m -> s < partsUsed_ m -> s <> p ->
  exists s', smallest_loop n i p s m = Ok s' /\ s' < partsUsed_ m /\ s' <> p.
Proof.
  intros R. revert i s. induction n as [| n IH]; intros i s Hi Hs Hp; cbn [smallest_loop]; [by exists s |].
  destruct (Nat.eqb_spec i p) as [-> | Hip]; [apply IH; lia |].
  destruct (represents_part m g i R) as (b & _ & _ & ->); [lia |].
  destruct (represents_part m g s R Hs) as (c & _ & _ & ->). rewrite !R_bind_ok.
  destruct (_ <? _)%Z; apply IH; lia.
Qed.

Lemma represents_removes x m g : represents m g -> represents (set_removes x m) g.
Proof. intros (T & Hsize & Hs). split; [| done]. by destruct T. Qed.

Lemma join_represents p m g :
  represents m g -> p < partsUsed_ m -> 1 < partsUsed_ m ->
  exists m', rebalanceJoinPartsImpl p m = Ok m' /\ represents m' g.
Proof.
  intros R Hp Hu. unfold ExtendibleMap.rebalanceJoinPartsImpl. apply (represents_removes 0) in R.
  set (m1 := set_removes 0 m) in *.
  destruct (smallest_loop_spec (partsUsed_ m1) 0 p (if p =? 0 then 1 else 0) m1 g R) as (s & -> & Hs & Hsp);
    [done | by destruct (Nat.eqb_spec p 0); cbn; lia | by destruct (Nat.eqb_spec p 0); lia |].
  rewrite R_bind_ok. destruct (represents_part m1 g p R Hp) as (b & _ & _ & ->).
  destruct (represents_part m1 g s R Hs) as (c & _ & _ & ->). rewrite !R_bind_ok. destruct (_ <=? _)%Z.
  - destruct (joinParts_represents p s m1 g R Hp Hs) as (m' & E & R' & _); [done | by exists m'].
  - by exists m1.
Qed.

(** Rebalancing keeps the elements; it tells [true] when a part was split. *)
Lemma rebalance_represents p m g :
  represents m g -> p < partsUsed_ m ->
  exists m' added, rebalance p m = Ok (m', added) /\ represents m' g /\
    ((removesCounter_ m <= kNumRemovesToJoinMinParts)%Z -> added = false -> m' = m).
Proof.
  intros R Hp. unfold ExtendibleMap.rebalance. destruct (represents_part m g p R Hp) as (b & _ & _ & ->).
  rewrite R_bind_ok. pose proof R as (T & _). rewrite (ok_counts m T) by (pose proof (used_le m T); lia).
  cbn [of_option]. rewrite R_bind_ok. destruct (_ && _) eqn:E1; [| destruct (_ && _ && _) eqn:E2].
  - apply andb_prop in E1 as [_ E1%Z.ltb_lt]. destruct (split_represents p m g R Hp E1) as (m' & -> & R' & _).
    exists m', true. done.
  - apply andb_prop in E2 as [E2 Hu%Nat.ltb_lt]. apply andb_prop in E2 as [E2%Z.ltb_lt _].
    destruct (join_represents p m g R Hp Hu) as (m' & -> & R'). exists m', false. split_and!; [done | done | lia].
  - exists m, false. done.
Qed.
End Spec.
