(* ===== verification/ExtendibleMapOps.v ===== *)
(** * ExtendibleMapOps: the operations of the map in parts

    The operations of [ExtendibleMap] on a map that represents a finite map: lookups, insertions,
    writes through an iterator, removals and the iteration. An insertion looks for the part of
    its key before the rebalancing; [stays] says that the rebalancing did not move that part. *)

From S2P Require Import Prelude ExtendibleMap ExtendibleMapSpec.
#[local] Open Scope nat_scope.

Section Ops.
Context {K V B : Type} `{Countable K} `{BaseHashMap K V B} (h_ : K -> Z).
Context (kNumBucketsInPart kMinPartSize kCriticalPartSize kNumBitsToSelectPart : Z).

#[local] Abbreviation partIdx k := (partIdx kNumBitsToSelectPart (h_ k)).
#[local] Abbreviation rebalance := (rebalance h_ kNumBucketsInPart kMinPartSize kCriticalPartSize kNumBitsToSelectPart).
#[local] Abbreviation find := (find h_ kNumBitsToSelectPart).
#[local] Abbreviation insert := (insert h_ kNumBucketsInPart kMinPartSize kCriticalPartSize kNumBitsToSelectPart).
#[local] Abbreviation find_or_insert := (find_or_insert h_ kNumBucketsInPart kMinPartSize kCriticalPartSize kNumBitsToSelectPart).
#[local] Abbreviation index := (index h_ kNumBucketsInPart kMinPartSize kCriticalPartSize kNumBitsToSelectPart).
#[local] Abbreviation erase := (erase h_ kNumBucketsInPart kMinPartSize kCriticalPartSize kNumBitsToSelectPart).
#[local] Abbreviation erase_at := (erase_at h_ kNumBucketsInPart kMinPartSize kCriticalPartSize kNumBitsToSelectPart).
#[local] Abbreviation hash_map := (@hash_map B).
#[local] Abbreviation represents := (represents h_ kNumBitsToSelectPart).
#[local] Abbreviation selects := (selects h_ kNumBitsToSelectPart).

(** ** Sequences of operations *)

(** [Write k v] is [map[k] = v]; [EraseFound k] erases at the iterator that [find] returns. *)
Inductive operation : Type :=
| Insert (k : K) (v : V) | FindOrInsert (k : K) (v : V) | Write (k : K) (v : V)
| Find (k : K) | Erase (k : K) | EraseFound (k : K).

Inductive answer : Type := Entry (kv : K * V) (fresh : bool) | Found (o : option (K * V)) | Count (n : Z) | Done.

Context (default_ : V).

Definition step (op : operation) (m : hash_map) : result (hash_map * answer) :=
  match op with
  | Insert k v => '(m, (i, fresh)) ← insert k v m; kv ← deref i m; mret (m, Entry kv fresh)
  | FindOrInsert k v => '(m, (i, fresh)) ← find_or_insert k v m; kv ← deref i m; mret (m, Entry kv fresh)
  | Write k v => '(m, i) ← index default_ k m; m ← assign i v m; mret (m, Done)
  | Find k =>
      i ← find k m;
      if iterator_eq i (end_ m) m then mret (m, Found None) else kv ← deref i m; mret (m, Found (Some kv))
  | Erase k => '(m, n) ← erase k m; mret (m, Count n)
  | EraseFound k =>
      i ← find k m;
      if iterator_eq i (end_ m) m then mret (m, Found None)
      else kv ← deref i m; m ← erase_at i m; mret (m, Found (Some kv))
  end.

Fixpoint run (ops : list operation) (m : hash_map) : result (hash_map * list answer) :=
  match ops with
  | [] => Ok (m, [])
  | op :: ops => '(m, a) ← step op m; '(m, l) ← run ops m; mret (m, a :: l)
  end.

(** The same on a finite map. *)
Definition spec_step (op : operation) (g : gmap K V) : gmap K V * answer :=
  match op with
  | Insert k v | FindOrInsert k v =>
      let w := default v (g !! k) in (<[k := w]> g, Entry (k, w) (bool_decide (g !! k = None)))
  | Write k v => (<[k := v]> g, Done)
  | Find k => (g, Found (pair k <$> g !! k))
  | Erase k => (delete k g, Count (if decide (g !! k = None) then 0 else 1))
  | EraseFound k => (delete k g, Found (pair k <$> g !! k))
  end.

Fixpoint spec_run (ops : list operation) (g : gmap K V) : gmap K V * list answer :=
  match ops with
  | [] => (g, [])
  | op :: ops => let '(g, a) := spec_step op g in let '(g, l) := spec_run ops g in (g, a :: l)
  end.

(** The part that an insertion goes to is still that of its key. *)
Definition stays (k : K) (m : hash_map) : bool :=
  match partIdx k m with
  | Ok p =>
      match rebalance p m with
      | Ok (m', false) => bool_decide (partIdx k m' = Ok p)
      | _ => true
      end
  | _ => true
  end.

Definition guard (op : operation) (m : hash_map) : bool :=
  match op with Insert k _ | FindOrInsert k _ | Write k _ => stays k m | _ => true end.

Fixpoint guarded (ops : list operation) (m : hash_map) : bool :=
  match ops with
  | [] => true
  | op :: ops => guard op m && match step op m with Ok (m, _) => guarded ops m | Fail _ => true end
  end.

(** ** Each operation *)

Context `{!BaseHashMapLaws K V B h_} (Hbits : (0 <= kNumBitsToSelectPart < 32)%Z).

(** An insertion keeps its place unless enough removes have made a join due. *)
Lemma stays_few_removes k m g :
  represents m g -> (removesCounter_ m <= kNumRemovesToJoinMinParts)%Z -> stays k m = true.
Proof.
  intros R Hr. unfold stays. pose proof R as (T & _).
  destruct (selects_ex h_ _ Hbits (partsToUse_ m) k (ok_uses_len _ m T)) as [p Hp].
  rewrite (partIdx_selects _ _ _ _ _ Hp).
  destruct (rebalance_represents h_ kNumBucketsInPart kMinPartSize kCriticalPartSize _ Hbits p m g R)
    as (m' & added & -> & _ & Hm); [by eapply selects_used |].
  destruct added; [done |]. rewrite (Hm Hr eq_refl). apply bool_decide_eq_true. by apply partIdx_selects.
Qed.

Lemma represents_selected m g k : represents m g ->
  exists p b, selects (partsToUse_ m) k p /\ p < partsUsed_ m /\ partIdx k m = Ok p /\
    parts_ m !! p = Some (Some b) /\ part p m = Ok b /\ contents b !! k = g !! k.
Proof.
  intros R. pose proof R as (T & _ & Hs).
  destruct (selects_ex h_ _ Hbits (partsToUse_ m) k (ok_uses_len _ m T)) as [p Hp].
  assert (p < partsUsed_ m) as Hu by by eapply selects_used.
  destruct (spread_part _ _ m _ g p Hs Hu) as (b & E & Eb & _).
  exists p, b. split_and!; [done | done | by apply partIdx_selects | done | done |].
  by apply (spread_lookup h_ kNumBitsToSelectPart Hbits m (fun p => p < partsUsed_ m) g k p b).
Qed.

(** An iterator at an element. *)
Definition points (i : iterator) (m : hash_map) (kv : K * V) : Prop :=
  partIdx_ i < partsUsed_ m /\ exists b, parts_ m !! partIdx_ i = Some (Some b) /\ bm_elements b !! it_ i = Some kv.

Lemma points_deref i m kv : points i m kv -> deref i m = Ok kv /\ iterator_eq i (end_ m) m = false.
Proof.
  intros (Hp & b & E & Hi). unfold deref. rewrite (part_lookup _ _ _ E), R_bind_ok, Hi. split; [done |].
  unfold iterator_eq. cbn [end_ partIdx_]. by rewrite (proj2 (Nat.eqb_neq _ _)) by lia.
Qed.

Lemma make_iterator_points p it m b kv :
  p < partsUsed_ m -> parts_ m !! p = Some (Some b) -> bm_elements b !! it = Some kv ->
  make_iterator p it m = Ok (mk_it p it) /\ points (mk_it p it) m kv.
Proof.
  intros Hp E Hi. split; [| split; [done |]; by exists b]. unfold make_iterator.
  rewrite (proj2 (Nat.ltb_lt _ _) Hp), (part_lookup _ _ _ E), R_bind_ok.
  rewrite (proj2 (Nat.eqb_neq _ _)); [done |]. apply lookup_lt_Some in Hi. unfold bm_end. lia.
Qed.

Lemma find_spec m g k :
  represents m g -> exists i, find k m = Ok i /\
    match g !! k with Some v => points i m (k, v) | None => i = end_ m end.
Proof.
  intros R. destruct (represents_selected m g k R) as (p & b & Hs & Hp & E & El & Eb & Hk).
  unfold ExtendibleMap.find. rewrite E, R_bind_ok, Eb, R_bind_ok. rewrite <- Hk.
  destruct (find_cases h_ k b) as [(v & Hv & Hi & Hne) | (Hv & ->)].
  - rewrite (proj2 (Nat.eqb_neq _ _) Hne), Hv. destruct (make_iterator_points p _ m b (k, v) Hp El Hi) as [-> Hpt].
    eexists. by split.
  - rewrite Nat.eqb_refl, Hv. eexists. by split.
Qed.

(** A part with one element changed. *)
Lemma represents_update m g g' k p b n :
  represents m g -> selects (partsToUse_ m) k p -> n = Z.of_nat (size g') ->
  (forall j, j <> k -> g' !! j = g !! j) ->
  (forall b0, parts_ m !! p = Some (Some b0) -> contents b !! k = g' !! k /\ forall j, j <> k -> contents b !! j = contents b0 !! j) ->
  represents (set_size n (set_part p (Some b) m)) g'.
Proof.
  intros (T & Hsize & Hs) Hk Hn Hg Hb. assert (p < partsUsed_ m) as Hp by by eapply selects_used.
  destruct (spread_part _ _ m _ g p Hs Hp) as (b0 & E & _ & _). destruct (Hb b0 E) as [Hbk Hbj]. split; [| split; [done |]].
  - destruct T. constructor; try done. cbn. by rewrite length_insert.
  - apply (spread_update h_ kNumBitsToSelectPart Hbits m (fun p => p < partsUsed_ m) g g' k p b Hs); [| done | done |].
    + rewrite (ok_parts_len _ m T). pose proof (used_le kNumBitsToSelectPart m T). lia.
    + intros _ j. case_decide as Ej; [by subst |]. rewrite Hbj by done.
      by apply (spread_contents h_ kNumBitsToSelectPart Hbits m (fun p => p < partsUsed_ m) g).
Qed.

Lemma emplace_at_spec m g k v p :
  represents m g -> selects (partsToUse_ m) k p ->
  let w := default v (g !! k) in
  exists m' i, emplace_at h_ p k v m = Ok (m', (i, bool_decide (g !! k = None))) /\
    represents m' (<[k := w]> g) /\ points i m' (k, w).
Proof.
  intros R Hk w. destruct (represents_selected m g k R) as (p' & b & Hs & Hp & _ & El & Eb & Hg).
  pose proof (selects_fun _ _ _ _ _ _ Hk Hs) as <-. unfold emplace_at. rewrite Eb, R_bind_ok.
  destruct (emplace_cases h_ k v b) as (b' & i & -> & Cb & Hi). rewrite Hg in Cb, Hi |- *. fold w in Cb, Hi.
  set (m' := set_size _ _).
  assert (parts_ m' !! p = Some (Some b')) as El'.
  { apply list_lookup_insert_eq. by apply lookup_lt_Some in El. }
  destruct (make_iterator_points p i m' b' (k, w) Hp El' Hi) as [-> Hpt]. rewrite R_bind_ok.
  exists m', (mk_it p i). split_and!; [done | | done].
  apply (represents_update m g _ k p b' _ R Hk).
  - pose proof R as (_ & -> & _). rewrite map_size_insert. subst w. destruct (g !! k); cbn; lia.
  - intros j Hj. by apply lookup_insert_ne.
  - intros b0 E0. rewrite El in E0. injection E0 as <-. rewrite Cb, !lookup_insert_eq. split; [done |].
    intros j Hj. by apply lookup_insert_ne.
Qed.

(** The common part of the insertions: rebalancing, and the part after it. *)
Lemma rebalance_stays m g k p :
  represents m g -> stays k m = true -> partIdx k m = Ok p -> p < partsUsed_ m ->
  exists m' added p', rebalance p m = Ok (m', added) /\ represents m' g /\
    (if added : bool then partIdx k m' else Ok p) = Ok p' /\ selects (partsToUse_ m') k p'.
Proof.
  intros R Hst E Hp.
  destruct (rebalance_represents h_ kNumBucketsInPart kMinPartSize kCriticalPartSize _ Hbits p m g R Hp) as (m' & added & Er & R' & _).
  unfold stays in Hst. rewrite E, Er in Hst. exists m', added.
  destruct (represents_selected m' g k R') as (q & _ & Hq & _ & Eq & _). destruct added.
  - by exists q.
  - apply bool_decide_eq_true in Hst. rewrite Hst in Eq. injection Eq as ->. by exists q.
Qed.

Lemma insert_spec m g k v :
  represents m g -> stays k m = true ->
  let w := default v (g !! k) in
  exists m' i, insert k v m = Ok (m', (i, bool_decide (g !! k = None))) /\
    represents m' (<[k := w]> g) /\ points i m' (k, w).
Proof.
  intros R Hst w. destruct (represents_selected m g k R) as (p & b & _ & Hp & E & _).
  destruct (rebalance_stays m g k p R Hst E Hp) as (m1 & added & p' & Er & R1 & Ep & Hp').
  destruct (emplace_at_spec m1 g k v p' R1 Hp') as (m' & i & Ee & R' & Hpt).
  exists m', i. split_and!; [| done | done]. unfold ExtendibleMap.insert. by rewrite E, R_bind_ok, Er, R_bind_ok, Ep, R_bind_ok.
Qed.

Lemma find_or_insert_spec m g k v :
  represents m g -> stays k m = true ->
  let w := default v (g !! k) in
  exists m' i, find_or_insert k v m = Ok (m', (i, bool_decide (g !! k = None))) /\
    represents m' (<[k := w]> g) /\ points i m' (k, w).
Proof.
  intros R Hst w. destruct (represents_selected m g k R) as (p & b & _ & Hp & E & El & Eb & Hg).
  unfold ExtendibleMap.find_or_insert. rewrite E, R_bind_ok, Eb, R_bind_ok.
  destruct (find_cases h_ k b) as [(x & Hx & Hi & Hne) | (Hx & ->)].
  - rewrite (proj2 (Nat.eqb_neq _ _) Hne). cbn [negb].
    destruct (make_iterator_points p _ m b (k, x) Hp El Hi) as [-> Hpt]. rewrite R_bind_ok.
    rewrite Hg in Hx. subst w. rewrite Hx, bool_decide_false by done. cbn [default from_option id].
    eexists m, _. split_and!; [done | by rewrite insert_id | done].
  - rewrite Nat.eqb_refl. cbn [negb].
    destruct (rebalance_stays m g k p R Hst E Hp) as (m1 & added & p' & Er & R1 & Ep & Hp').
    destruct (emplace_at_spec m1 g k v p' R1 Hp') as (m' & i & Ee & R' & Hpt).
    exists m', i. split_and!; [| done | done]. by rewrite Er, R_bind_ok, Ep, R_bind_ok.
Qed.

Lemma size_delete (g : gmap K V) k :
  Z.of_nat (size (delete k g)) = (Z.of_nat (size g) - if decide (g !! k = None) then 0 else 1)%Z.
Proof.
  rewrite map_size_delete. destruct (g !! k) as [v |] eqn:E; [rewrite decide_False by done | rewrite decide_True by done; cbn; lia].
  assert (size g <> 0) as Hne by (intros Hz%map_size_empty_inv; subst g; by rewrite lookup_empty in E). lia.
Qed.

(** Removing from a part: the elements, and the rebalancing after it. *)
Lemma remove_spec m g k p b' n r :
  represents m g -> selects (partsToUse_ m) k p ->
  (forall b, parts_ m !! p = Some (Some b) -> contents b' = delete k (contents b)) ->
  n = (if decide (g !! k = None) then 0 else 1)%Z ->
  exists m' added,
    rebalance p (set_removes r (set_size (size_ m - n) (set_part p (Some b') m))) = Ok (m', added) /\
    represents m' (delete k g).
Proof.
  intros R Hk Hb Hn.
  assert (represents (set_size (size_ m - n) (set_part p (Some b') m)) (delete k g)) as R1.
  { apply (represents_update m g _ k p b' _ R Hk).
    - pose proof R as (_ & -> & _). rewrite size_delete. by rewrite Hn.
    - intros j Hj. by apply lookup_delete_ne.
    - intros b0 E0. rewrite (Hb b0 E0), !lookup_delete_eq. split; [done |]. intros j Hj. by apply lookup_delete_ne. }
  apply (represents_removes h_ kNumBitsToSelectPart r) in R1.
  destruct (rebalance_represents h_ kNumBucketsInPart kMinPartSize kCriticalPartSize _ Hbits p _ _ R1) as (m' & added & E & R' & _).
  { pose proof R as (T & _). by eapply (selects_used _ _ m). }
  by exists m', added.
Qed.

Lemma erase_spec m g k :
  represents m g ->
  exists m', erase k m = Ok (m', if decide (g !! k = None) then 0%Z else 1%Z) /\ represents m' (delete k g).
Proof.
  intros R. destruct (represents_selected m g k R) as (p & b & Hs & Hp & E & El & Eb & Hg).
  unfold ExtendibleMap.erase. rewrite E, R_bind_ok, Eb, R_bind_ok.
  destruct (erase_cases h_ k b) as (b' & -> & Cb). rewrite Hg. set (n := if decide (g !! k = None) then 0%Z else 1%Z).
  destruct (remove_spec m g k p b' n (u64 (removesCounter_ m + n)) R Hs) as (m' & added & Er & R');
    [intros b0 E0; rewrite El in E0; by injection E0 as <- | reflexivity |].
  exists m'. split; [| done]. cbv zeta. cbn [set_size set_part set_parts removesCounter_ size_] in Er |- *. by rewrite Er.
Qed.

Lemma erase_at_spec m g i k v :
  represents m g -> points i m (k, v) -> exists m', erase_at i m = Ok m' /\ represents m' (delete k g).
Proof.
  intros R (Hp & b & El & Hi). unfold ExtendibleMap.erase_at. rewrite (part_lookup _ _ _ El), R_bind_ok.
  assert (g !! k = Some v /\ selects (partsToUse_ m) k (partIdx_ i)) as [Hg Hs].
  { destruct R as (_ & _ & Hs). destruct (Hs _ Hp) as (b' & E & Hb). rewrite El in E. injection E as <-.
    apply Hb. apply (contents_Some h_). by apply list_elem_of_lookup_2 in Hi. }
  destruct (remove_spec m g k (partIdx_ i) (bm_erase_at (it_ i) b) 1 (u64 (removesCounter_ m + 1)) R Hs) as (m' & added & Er & R').
  - intros b0 E0. rewrite El in E0. injection E0 as <-. by apply (contents_erase_at h_ _ _ v).
  - by rewrite decide_False by congruence.
  - exists m'. split; [| done]. cbv zeta. cbn [set_size set_part set_parts removesCounter_ size_] in Er |- *. by rewrite Er.
Qed.

Lemma assign_spec m g i k v w :
  represents m g -> points i m (k, v) -> exists m', assign i w m = Ok m' /\ represents m' (<[k := w]> g).
Proof.
  intros R (Hp & b & El & Hi). unfold assign. rewrite (part_lookup _ _ _ El), R_bind_ok.
  assert (g !! k = Some v /\ selects (partsToUse_ m) k (partIdx_ i)) as [Hg Hs].
  { destruct R as (_ & _ & Hs). destruct (Hs _ Hp) as (b' & E & Hb). rewrite El in E. injection E as <-.
    apply Hb. apply (contents_Some h_). by apply list_elem_of_lookup_2 in Hi. }
  eexists. split; [reflexivity |].
  pose proof (contents_assign h_ _ _ v w b Hi) as Cb.
  assert (represents (set_size (size_ m) (set_part (partIdx_ i) (Some (bm_assign (it_ i) w b)) m)) (<[k := w]> g)) as R'; [| by destruct m].
  apply (represents_update m g _ k (partIdx_ i) _ _ R Hs).
  - pose proof R as (_ & -> & _). rewrite map_size_insert, Hg. cbn; lia.
  - intros j Hj. by apply lookup_insert_ne.
  - intros b0 E0. rewrite El in E0. injection E0 as <-. rewrite Cb, !lookup_insert_eq. split; [done |].
    intros j Hj. by apply lookup_insert_ne.
Qed.

Lemma step_refines op m g :
  represents m g -> guard op m = true ->
  exists m', step op m = Ok (m', snd (spec_step op g)) /\ represents m' (fst (spec_step op g)).
Proof.
  intros R Hg. destruct op as [k v | k v | k v | k | k | k]; cbn [step spec_step guard fst snd] in *.
  - destruct (insert_spec m g k v R Hg) as (m' & i & -> & R' & [E _]%points_deref). rewrite R_bind_ok, E. by exists m'.
  - destruct (find_or_insert_spec m g k v R Hg) as (m' & i & -> & R' & [E _]%points_deref). rewrite R_bind_ok, E. by exists m'.
  - unfold ExtendibleMap.index. destruct (insert_spec m g k default_ R Hg) as (m' & i & -> & R' & Hpt). rewrite R_bind_ok.
    destruct (assign_spec m' _ i k _ v R' Hpt) as (m'' & E & R''). cbn [mret result_ret]. rewrite R_bind_ok, E, R_bind_ok.
    exists m''. split; [done |]. by rewrite insert_insert_eq in R''.
  - destruct (find_spec m g k R) as (i & -> & Hi). rewrite R_bind_ok. exists m. split; [| done].
    destruct (g !! k) as [v |]; [apply points_deref in Hi as [-> ->]; by rewrite R_bind_ok | subst i].
    unfold iterator_eq. by rewrite !Nat.eqb_refl.
  - destruct (erase_spec m g k R) as (m' & -> & R'). rewrite R_bind_ok. by exists m'.
  - destruct (find_spec m g k R) as (i & -> & Hi). rewrite R_bind_ok. destruct (g !! k) as [v |] eqn:Ek.
    + destruct (erase_at_spec m g i k v R Hi) as (m' & E & R'). apply points_deref in Hi as [-> ->].
      rewrite R_bind_ok, E, R_bind_ok. by exists m'.
    + subst i. unfold iterator_eq. rewrite !Nat.eqb_refl. exists m. split; [done |]. by rewrite delete_id.
Qed.

Lemma uses_of_replicate n p : uses_of p (replicate n 0) = (if (p =? 0)%nat then Z.of_nat n else 0%Z).
Proof.
  induction n as [| n IH]; [by destruct (p =? 0) |]. cbn [replicate]. rewrite uses_of_cons, IH.
  destruct (Nat.eqb_spec 0 p), (Nat.eqb_spec p 0); lia.
Qed.

(** The constructor makes the empty map. *)
Lemma make_represents : represents (make kNumBitsToSelectPart) ∅.
Proof.
  destruct (kMaxParts_bound kNumBitsToSelectPart Hbits) as [H1 _]. unfold make.
  set (n := kMaxParts kNumBitsToSelectPart) in *. split; [| split; [by rewrite map_size_empty |]].
  - constructor; cbn [partsUsed_ partsToUse_ partsSplitCounts_ parts_]; rewrite ?length_insert, ?length_replicate; try done.
    + apply Forall_replicate. lia.
    + intros p Hp. replace p with 0 by lia. apply elem_of_replicate. split; [done | lia].
    + intros p Hp. rewrite uses_of_replicate. destruct (Nat.eqb_spec p 0) as [-> |].
      * apply list_lookup_insert_eq. by rewrite length_replicate.
      * rewrite list_lookup_insert_ne by done. by rewrite lookup_replicate_2.
  - intros p Hp. cbn [partsUsed_ partsToUse_ parts_] in *. replace p with 0 by lia. exists (bm_make 0).
    split; [apply list_lookup_insert_eq; by rewrite length_replicate |]. intros k v.
    rewrite (contents_make h_), lookup_empty. naive_solver.
Qed.

Lemma run_refines ops m g :
  represents m g -> guarded ops m = true ->
  exists m', run ops m = Ok (m', snd (spec_run ops g)) /\ represents m' (fst (spec_run ops g)).
Proof.
  revert m g. induction ops as [| op ops IH]; intros m g R Hg; cbn [run spec_run guarded] in *; [by exists m |].
  apply andb_prop in Hg as [Hop Hg]. destruct (step_refines op m g R Hop) as (m1 & E & R1). rewrite E in Hg |- *.
  destruct (spec_step op g) as [g1 a]. cbn [fst snd] in *. rewrite R_bind_ok.
  destruct (IH m1 g1 R1 Hg) as (m' & E' & R'). rewrite E', R_bind_ok.
  destruct (spec_run ops g1) as [g' l]. by exists m'.
Qed.

(** C10: the hash map in parts is a finite map. In any state that represents a finite map (a
    new map represents the empty one), a sequence of insertions, searches with insertion, writes
    through [operator[]], lookups and removals by key and by iterator succeeds, without reading a
    part that does not exist, gives the answers of the finite map, and ends in a state that
    represents the result, whatever splitting and joining of parts happens on the way; provided
    that no insertion joins parts so that the part of its key moves. *)
Theorem hash_map_refines ops m g :
  represents m g -> guarded ops m = true ->
  represents (make kNumBitsToSelectPart) ∅ /\
  exists m', run ops m = Ok (m', snd (spec_run ops g)) /\ represents m' (fst (spec_run ops g)).
Proof. intros R Hg. split; [apply make_represents | by apply run_refines]. Qed.

(** A copy represents the same map. *)
Lemma copy_represents m g : represents m g -> represents (copy m) g.
Proof. apply represents_removes. Qed.

(** ** Iteration *)

(** The elements of [n] parts from [p] on. *)
Fixpoint elements_from (n p : nat) (m : hash_map) : list (K * V) :=
  match n with
  | O => []
  | S n => (match part p m with Ok b => bm_elements b | Fail _ => [] end) ++ elements_from n (S p) m
  end.

(** What an iterator has before it. *)
Definition ahead (i : iterator) (m : hash_map) : list (K * V) :=
  match parts_ m !! partIdx_ i with Some (Some b) => drop (it_ i) (bm_elements b) | _ => [] end
  ++ elements_from (partsUsed_ m - S (partIdx_ i)) (S (partIdx_ i)) m.

Definition at_element (i : iterator) (m : hash_map) : Prop := exists kv, points i m kv.

Lemma findNextUnemptyPart_spec m g n fuel p :
  represents m g -> p + n = partsUsed_ m -> n < fuel ->
  exists i, findNextUnemptyPart fuel p m = Ok i /\
    (i = end_ m /\ elements_from n p m = [] \/ at_element i m /\ ahead i m = elements_from n p m).
Proof.
  intros R. revert fuel p. induction n as [| n IH]; intros [| fuel] p Hp Hf; try lia; cbn [findNextUnemptyPart elements_from].
  - exists (end_ m). rewrite (proj2 (Nat.ltb_ge _ _)) by lia. split; [| by left]. unfold end_. do 2 f_equal. lia.
  - rewrite (proj2 (Nat.ltb_lt _ _)) by lia.
    destruct (represents_part h_ kNumBitsToSelectPart m g p R) as (b & Eb & El & _); [lia |].
    rewrite Eb, R_bind_ok. destruct (bm_elements b) as [| kv l] eqn:Ee; [apply IH; lia |].
    exists (mk_it p 0). split; [done |]. right. split.
    + exists kv. split; [cbn; lia |]. exists b. cbn [partIdx_ it_]. by rewrite Ee.
    + unfold ahead. cbn [partIdx_ it_]. rewrite El, Ee, drop_0. do 2 f_equal. lia.
Qed.

Lemma ahead_step i m kv : points i m kv -> exists b l, parts_ m !! partIdx_ i = Some (Some b) /\
  bm_elements b !! it_ i = Some kv /\ ahead i m = kv :: l /\
  l = drop (S (it_ i)) (bm_elements b) ++ elements_from (partsUsed_ m - S (partIdx_ i)) (S (partIdx_ i)) m.
Proof.
  intros (Hp & b & El & Hi). eexists b, _. split_and!; [done | done | | reflexivity].
  unfold ahead. rewrite El. by rewrite (drop_S _ _ _ Hi).
Qed.

Lemma next_spec m g i kv l :
  represents m g -> points i m kv -> ahead i m = kv :: l ->
  exists j, next i m = Ok j /\ (j = end_ m /\ l = [] \/ at_element j m /\ ahead j m = l).
Proof.
  intros R Hpt Ha. destruct (ahead_step i m kv Hpt) as (b & l' & El & Hi & Ha' & ->). rewrite Ha in Ha'. injection Ha' as ->.
  pose proof Hpt as (Hp & _). unfold next. rewrite (part_lookup _ _ _ El), R_bind_ok. unfold bm_end.
  apply lookup_lt_Some in Hi as Hlt. destruct (Nat.eqb_spec (S (it_ i)) (length (bm_elements b))) as [Ee | Hne].
  - rewrite drop_ge by lia. cbn [app]. unfold next_part. apply (findNextUnemptyPart_spec m g); [done | lia | lia].
  - eexists. split; [reflexivity |]. right.
    destruct (lookup_lt_is_Some_2 (bm_elements b) (S (it_ i))) as [kv' Hkv']; [lia |]. split.
    + exists kv'. split; [done |]. by exists b.
    + unfold ahead. cbn [partIdx_ it_]. by rewrite El.
Qed.

Lemma for_each_ahead m g fuel i :
  represents m g -> at_element i m -> length (ahead i m) < fuel -> for_each fuel i m = Ok (ahead i m).
Proof.
  intros R. revert i. induction fuel as [| fuel IH]; intros i [kv Hpt] Hf; [lia |].
  destruct (ahead_step i m kv Hpt) as (b & l & El & Hi & Ha & _). rewrite Ha in *.
  destruct (points_deref i m kv Hpt) as [Ed Ee]. cbn [for_each]. rewrite Ee, Ed, R_bind_ok.
  destruct (next_spec m g i kv l R Hpt Ha) as (j & -> & Hj). rewrite R_bind_ok.
  cbn [length] in Hf. destruct Hj as [[-> ->] | [Hj <-]].
  - destruct fuel; [lia |]. cbn [for_each]. unfold iterator_eq. by rewrite !Nat.eqb_refl.
  - rewrite IH by (done || lia). reflexivity.
Qed.

Lemma elements_from_elem m g n p k v :
  represents m g -> p + n = partsUsed_ m ->
  (k, v) ∈ elements_from n p m <-> g !! k = Some v /\ exists q, p <= q /\ selects (partsToUse_ m) k q.
Proof.
  intros R. pose proof R as (T & _ & Hs). revert p. induction n as [| n IH]; intros p Hp; cbn [elements_from].
  - split; [by intros ?%not_elem_of_nil |]. intros [_ (q & Hq & Hk)]. apply selects_used in Hk; [lia | done].
  - destruct (represents_part h_ kNumBitsToSelectPart m g p R) as (b & -> & El & _); [lia |].
    rewrite elem_of_app, IH by lia. destruct (Hs p) as (b' & E & Hb); [lia |]. rewrite El in E. injection E as <-.
    rewrite <- (contents_Some h_), Hb. split.
    + intros [[Hg Hk] | (Hg & q & Hq & Hk)]; (split; [done |]); [by exists p | exists q; split; [lia | done]].
    + intros (Hg & q & Hq & Hk). destruct (decide (q = p)) as [-> |]; [by left | right]. split; [done |].
      exists q. split; [lia | done].
Qed.

Lemma elements_from_NoDup m g n p : represents m g -> p + n = partsUsed_ m -> NoDup (elements_from n p m).
Proof.
  intros R. revert p. induction n as [| n IH]; intros p Hp; cbn [elements_from]; [constructor |].
  destruct (represents_part h_ kNumBitsToSelectPart m g p R) as (b & -> & El & _); [lia |].
  apply NoDup_app. split_and!; [apply (NoDup_fmap_1 fst), bm_keys | | apply IH; lia].
  intros [k v] Hk Hk'. rewrite (elements_from_elem m g) in Hk' by (done || lia).
  destruct Hk' as (_ & q & Hq & Hs'). apply (contents_Some h_) in Hk.
  pose proof R as (_ & _ & Hs). destruct (Hs p) as (b' & E & Hb); [lia |]. rewrite El in E. injection E as <-.
  apply Hb in Hk as [_ Hk]. pose proof (selects_fun _ _ _ _ _ _ Hk Hs'). lia.
Qed.

(** C20: iterating over the hash map visits every element once: the loop from [begin()] to
    [end()], which goes from part to part and skips the empty ones, ends and gives the elements
    of the finite map. *)
Theorem hash_map_iterates m g :
  represents m g ->
  exists i l, begin m = Ok i /\ for_each (S (size g)) i m = Ok l /\ l ≡ₚ map_to_list g.
Proof.
  intros R. pose proof R as (T & Hsize & _). pose proof (ok_used _ m T) as Hu.
  assert (elements_from (partsUsed_ m) 0 m ≡ₚ map_to_list g) as P.
  { apply NoDup_Permutation; [by apply (elements_from_NoDup m g) | apply NoDup_map_to_list |]. intros [k v].
    rewrite (elements_from_elem m g), elem_of_map_to_list by done. split; [by intros [? _] |]. intros Hg. split; [done |].
    destruct (represents_selected m g k R) as (q & _ & Hq & _). exists q. split; [lia | done]. }
  apply Permutation_length in P as Hl. rewrite length_map_to_list in Hl. unfold begin.
  destruct (Z.eqb_spec (size_ m) 0) as [E | E].
  - exists (end_ m), []. split_and!; [done | |].
    + cbn [for_each]. unfold iterator_eq. by rewrite !Nat.eqb_refl.
    + assert (size g = 0) as Ez by lia. apply map_size_empty_inv in Ez as ->. by rewrite map_to_list_empty.
  - assert (exists i, make_iterator 0 0 m = Ok i /\ at_element i m /\ ahead i m = elements_from (partsUsed_ m) 0 m) as (i & Ei & Hi & Ha).
    { assert (make_iterator 0 0 m = findNextUnemptyPart (S (S (partsUsed_ m))) 0 m) as ->.
      { unfold make_iterator. cbn [findNextUnemptyPart]. rewrite (proj2 (Nat.ltb_lt _ _)) by lia.
        destruct (represents_part h_ kNumBitsToSelectPart m g 0 R) as (b & -> & _); [lia |]. rewrite !R_bind_ok.
        unfold bm_end. by destruct (bm_elements b). }
      destruct (findNextUnemptyPart_spec m g (partsUsed_ m) (S (S (partsUsed_ m))) 0 R) as (i & Ei & Hc); [done | lia |].
      exists i. split; [done |]. destruct Hc as [[_ Hc] | Hc]; [| done]. rewrite Hc in Hl. cbn in Hl. lia. }
    exists i, (ahead i m). split_and!; [done | | by rewrite Ha].
    apply (for_each_ahead m g); [done | done |]. rewrite Ha, Hl. lia.
Qed.
End Ops.

(** ** An instance of the parts: [gmap] *)

Section Instance.
Context {K V : Type} `{Countable K} (h_ : K -> Z).

#[export] Instance gmap_base : BaseHashMap K V (gmap K V) := {
  bm_make _ := ∅;
  bm_elements b := map_to_list b;
  bm_find k _ b := position k (map_to_list b);
  bm_try_emplace _ k v b :=
    match b !! k with
    | Some _ => (b, (position k (map_to_list b), false))
    | None => let b' := <[k := v]> b in (b', (position k (map_to_list b'), true))
    end;
  bm_erase k _ b := (delete k b, if b !! k is Some _ then 1%Z else 0%Z);
  bm_erase_at i b := if map_to_list b !! i is Some (k, _) then delete k b else b;
  bm_assign i w b := if map_to_list b !! i is Some (k, _) then <[k := w]> b else b;
  bm_bucket_count b := zlen (map_to_list b);
  bm_buckets_stats b := replicate (length (map_to_list b)) 1%Z;
  bm_stats_correct n s := (zlen s =? n)%Z;
  bm_make_stats _ _ := ∅
}.

Lemma gmap_keys (k : K) (b : gmap K V) : k ∈ (fst <$> map_to_list b) <-> is_Some (b !! k).
Proof.
  rewrite list_elem_of_fmap. split.
  - intros ([j v] & -> & Hv). exists v. by apply elem_of_map_to_list in Hv.
  - intros [v Hv]. exists (k, v). split; [done |]. by apply elem_of_map_to_list.
Qed.

Lemma gmap_delete_elements (k : K) (b : gmap K V) :
  map_to_list (delete k b) ≡ₚ filter (fun kv => fst kv <> k) (map_to_list b).
Proof.
  apply NoDup_Permutation; [apply NoDup_map_to_list | apply NoDup_filter, NoDup_map_to_list |].
  intros [j v]. rewrite list_elem_of_filter, !elem_of_map_to_list, lookup_delete_Some. cbn [fst]. naive_solver.
Qed.

#[export] Instance gmap_base_laws : BaseHashMapLaws K V (gmap K V) h_.
Proof.
  constructor; cbn [bm_make bm_elements bm_find bm_try_emplace bm_erase bm_erase_at bm_assign bm_make_stats gmap_base fst snd].
  - apply NoDup_fst_map_to_list.
  - intros. apply map_to_list_empty.
  - done.
  - intros k v b [w Hw]%gmap_keys. by rewrite Hw.
  - intros k v b Hk. rewrite gmap_keys, <- eq_None_not_Some in Hk. rewrite Hk. eexists. split; [reflexivity |].
    by apply map_to_list_insert.
  - intros. apply gmap_delete_elements.
  - intros k b. case_bool_decide as E; rewrite gmap_keys in E; [by destruct E as [w ->] |].
    by apply eq_None_not_Some in E as ->.
  - intros i k v b ->. apply gmap_delete_elements.
  - intros i k v w b Hi. rewrite Hi. rewrite <- gmap_delete_elements, <- insert_delete_eq.
    apply map_to_list_insert, lookup_delete_eq.
  - intros. apply map_to_list_empty.
Qed.
End Instance.

(** ** A run with a split, and an insertion that loses its part *)

(** Two parts at most, split at eight elements, the hash of a number is the number. *)
Definition sample_run : list operation -> @hash_map (gmap Z Z) -> result (@hash_map (gmap Z Z) * list answer) :=
  run id 8 2 8 1 0%Z.

Definition sample_operations : list operation :=
  map (fun i => Insert i (10 * i)%Z) [1; 2; 3; 4; 5; 6; 7; 8; 9; 10]%Z ++
  [Find 4; Write 4 44; Find 4; FindOrInsert 11 5; Erase 3; Find 3; EraseFound 5; Erase 100]%Z.

Lemma hash_map_refines_witness :
  guarded id 8 2 8 1 0%Z sample_operations (make 1) = true /\
  exists m' : @hash_map (gmap Z Z),
    sample_run sample_operations (make 1) = Ok (m', snd (spec_run sample_operations ∅)) /\ partsUsed_ m' = 2.
Proof.
  assert (guarded id 8 2 8 1 0%Z sample_operations (make 1 : @hash_map (gmap Z Z)) = true) as Hg by (vm_compute; reflexivity).
  split; [exact Hg |].
  assert (0 <= 1 < 32)%Z as Hb by lia.
  destruct (hash_map_refines id 8 2 8 1 0%Z Hb sample_operations (make 1) ∅) as (_ & m' & E & _);
    [apply (make_represents id 1 Hb) | exact Hg |].
  exists m'. split; [exact E |].
  assert (match run id 8 2 8 1 0%Z sample_operations (make 1 : @hash_map (gmap Z Z)) with Ok (m, _) => partsUsed_ m | _ => 0 end = 2)
    as Hu by (vm_compute; reflexivity).
  by rewrite E in Hu.
Defined.

(** The map after the insertions, in two parts. *)
Definition sample_insertions : list operation := take 10 sample_operations.
Definition sample_map : @hash_map (gmap Z Z) :=
  match sample_run sample_insertions (make 1) with Ok (m, _) => m | Fail _ => make 1 end.

Lemma sample_map_represents : represents id 1 sample_map (fst (spec_run sample_insertions (∅ : gmap Z Z))).
Proof.
  assert (0 <= 1 < 32)%Z as Hb by lia.
  destruct (run_refines id 8 2 8 1 0%Z Hb sample_insertions (make 1 : @hash_map (gmap Z Z)) ∅) as (m' & E & R);
    [apply (make_represents id 1 Hb) | vm_compute; reflexivity |].
  unfold sample_map, sample_run. by rewrite E.
Qed.

Lemma hash_map_iterates_witness :
  exists i l, begin sample_map = Ok i /\ for_each 11 i sample_map = Ok l /\ length l = 10.
Proof.
  assert (0 <= 1 < 32)%Z as Hb by lia.
  destruct (hash_map_iterates id 1 Hb sample_map _ sample_map_represents) as (i & l & Ei & El & P).
  exists i, l. split; [exact Ei |]. split; [exact El |]. apply Permutation_length in P. rewrite P. vm_compute. reflexivity.
Defined.

(** After more than 10000 removes from other parts the insertion of [11] joins the part of its key
    to the other one, and then uses the pointer of the part that is gone. *)
Definition small_parts : @hash_map (gmap Z Z) :=
  match sample_run (map Erase [9; 10; 5; 6; 7; 8]%Z) sample_map with Ok (m, _) => set_removes 10001 m | Fail _ => make 1 end.

Example insert_after_join :
  partIdx 1 11 small_parts = Ok 1 /\ insert id 8 2 8 1 11%Z 0%Z small_parts = Fail Undefined /\
  stays id 8 2 8 1 11%Z small_parts = false.
Proof. vm_compute. done. Qed.

(** Before that many removes it does not. *)
Example insert_before_join :
  stays id 8 2 8 1 11%Z (set_removes 10000 small_parts) = true /\
  is_ok (insert id 8 2 8 1 11%Z 0%Z (set_removes 10000 small_parts)) = true.
Proof. vm_compute. done. Qed.
