(* ===== verification/ExtendibleMapStats.v ===== *)
(** * ExtendibleMapStats: saving the shape of the map in parts

    The statistics of [estl/extendible_hash_map.h]: [dumpStats] writes the number of parts, the
    filling of their buckets and the table, [checkStatsCorrectness] checks such bytes, and
    [reserveFromStats] gives an empty map the same shape, so that it can be filled without
    splitting. The comparison of load factors in floating point is the parameter [dense]. *)

From S2P Require Import Prelude ExtendibleMap ExtendibleMapSpec ExtendibleMapOps.
#[local] Open Scope nat_scope.

Section Stats.
Context {K V B : Type} `{Countable K} `{BaseHashMap K V B}.
Context (kCriticalPartSize kNumBitsToSelectPart : Z).
#[local] Abbreviation hash_map := (@hash_map B).
#[local] Abbreviation kMaxParts := (kMaxParts kNumBitsToSelectPart).

Definition kMaxBucketsCountForCorrectStats : Z := 128 * kCriticalPartSize.

Definition addToStats (v : Z) (stats : bytes) : bytes := stats ++ le_bytes 4 (u32 v).

Fixpoint dump_parts (n i : nat) (m : hash_map) (stats : bytes) : result bytes :=
  match n with
  | O => Ok stats
  | S n =>
      b ← part i m;
      let data := bm_buckets_stats b in
      let stats := addToStats (zlen data) (addToStats (bm_bucket_count b) stats) in
      dump_parts n (S i) m (stats ++ data)
  end.

Definition dumpStats (m : hash_map) : result bytes :=
  let stats := addToStats (Z.of_nat kMaxParts) (addToStats (Z.of_nat (partsUsed_ m)) []) in
  stats ← dump_parts (partsUsed_ m) 0 m stats;
  mret (foldl (fun stats p => addToStats (Z.of_nat p) stats) stats (partsToUse_ m)).

(** A number at a position and the position behind it, inside of the bytes. *)
Definition safeLoadFromStats (stats : bytes) (pos : nat) : option (Z * nat) :=
  if pos + 4 <=? length stats then Some (le_val (take 4 (drop pos stats)), pos + 4) else None.

Definition loadFromStats (stats : bytes) (pos : nat) : result (Z * nat) :=
  of_option Undefined (safeLoadFromStats stats pos).

Definition slice (stats : bytes) (pos : nat) (sz : Z) : bytes := take (Z.to_nat sz) (drop pos stats).

Fixpoint check_parts (n : nat) (stats : bytes) (pos : nat) : option nat :=
  match n with
  | O => Some pos
  | S n =>
      '(buckets_count, pos) ← safeLoadFromStats stats pos;
      if (kMaxBucketsCountForCorrectStats <? buckets_count)%Z then None
      else
        '(sz, pos) ← safeLoadFromStats stats pos;
        if (zlen stats <? Z.of_nat pos + sz)%Z || negb (bm_stats_correct buckets_count (slice stats pos sz)) then None
        else check_parts n stats (pos + Z.to_nat sz)
  end.

Fixpoint check_uses (n : nat) (stats : bytes) (pos : nat) (partsUsed : Z) : bool :=
  match n with
  | O => true
  | S n =>
      match safeLoadFromStats stats pos with
      | None => false
      | Some (partToUse, pos) => if (partsUsed <=? partToUse)%Z then false else check_uses n stats pos partsUsed
      end
  end.

Definition checkStatsCorrectness (stats : bytes) : bool :=
  match safeLoadFromStats stats 0 with
  | None => false
  | Some (partsUsed, pos) =>
      match safeLoadFromStats stats pos with
      | None => false
      | Some (tmp, pos) =>
          if negb (tmp =? Z.of_nat kMaxParts)%Z || (Z.of_nat kMaxParts <? partsUsed)%Z then false
          else
            match check_parts (Z.to_nat partsUsed) stats pos with
            | None => false
            | Some pos => check_uses kMaxParts stats pos partsUsed
            end
      end
  end.

(** [statsLoadFactor(buckets_count, stats) > kMinLoadFactorToUseStats] *)
Context (dense : Z -> bytes -> bool).

Fixpoint reserve_parts (n i : nat) (stats : bytes) (pos : nat) (m : hash_map) : result (hash_map * nat) :=
  match n with
  | O => Ok (m, pos)
  | S n =>
      '(buckets_count, pos) ← loadFromStats stats pos;
      '(sz, pos) ← loadFromStats stats pos;
      _ ← if (zlen stats <? Z.of_nat pos + sz)%Z then Fail Undefined else Ok tt;
      let data := slice stats pos sz in
      old ← of_option Undefined (parts_ m !! i);
      if match old with Some b => negb (bm_size b =? 0)%Z | None => false end then Fail (Throw errAssert)
      else
        let b := if dense buckets_count data then bm_make_stats buckets_count data else bm_make 0 in
        reserve_parts n (S i) stats (pos + Z.to_nat sz) (set_part i (Some b) m)
  end.

Fixpoint load_uses (n : nat) (stats : bytes) (pos : nat) : result (list nat) :=
  match n with
  | O => Ok []
  | S n => '(p, pos) ← loadFromStats stats pos; l ← load_uses n stats pos; mret (Z.to_nat p :: l)
  end.

Fixpoint count_uses (uses : list nat) (counts : list Z) : result (list Z) :=
  match uses with
  | [] => Ok counts
  | p :: uses => if p <? length counts then count_uses uses (add_count p 1 counts) else Fail Undefined
  end.

Definition reserveFromStats (stats : bytes) (m : hash_map) : result hash_map :=
  if negb (size_ m =? 0)%Z then Fail (Throw errAssert)
  else
    '(partsUsed, pos) ← loadFromStats stats 0;
    '(tmp, pos) ← loadFromStats stats pos;
    if negb (tmp =? Z.of_nat kMaxParts)%Z || (partsUsed <? Z.of_nat (partsUsed_ m))%Z then Ok m
    else
      let m := set_used (Z.to_nat partsUsed) m in
      '(m, pos) ← reserve_parts (partsUsed_ m) 0 stats pos m;
      uses ← load_uses kMaxParts stats pos;
      counts ← count_uses uses (replicate kMaxParts 0%Z);
      mret (set_tables uses counts m).

(** ** Checked statistics are safe *)

Context (h_ : K -> Z) `{!BaseHashMapLaws K V B h_} (Hbits : (0 <= kNumBitsToSelectPart < 32)%Z).
#[local] Abbreviation spread := (spread h_ kNumBitsToSelectPart).

(** An empty map of the shape that the statistics describe. *)
Record reserved (used : nat) (uses : list nat) (m : hash_map) : Prop := {
  r_size : size_ m = 0%Z;
  r_used : partsUsed_ m = used;
  r_uses : partsToUse_ m = uses;
  r_counts : partsSplitCounts_ m = map (fun p => uses_of p uses) (seq 0 kMaxParts);
  r_parts_len : length (parts_ m) = kMaxParts;
  r_parts : forall p, p < used -> exists b, parts_ m !! p = Some (Some b) /\ contents b = (∅ : gmap K V)
}.

Lemma safeLoad_bound stats pos v pos' : safeLoadFromStats stats pos = Some (v, pos') -> pos' = pos + 4 /\ pos' <= length stats.
Proof. unfold safeLoadFromStats. destruct (Nat.leb_spec (pos + 4) (length stats)); intros E; by simplify_eq. Qed.

Lemma load_safe stats pos v pos' : safeLoadFromStats stats pos = Some (v, pos') -> loadFromStats stats pos = Ok (v, pos').
Proof. intros E. unfold loadFromStats. by rewrite E. Qed.

Lemma safeLoad_nonneg stats pos v pos' : bytes_ok stats -> safeLoadFromStats stats pos = Some (v, pos') -> (0 <= v)%Z.
Proof.
  intros Hb. unfold safeLoadFromStats. destruct (_ <=? _); intros E; simplify_eq.
  apply le_val_bound. by apply Forall_take, Forall_drop.
Qed.

(** The parts of a map are null or empty. *)
Definition no_elements (m : hash_map) : Prop := forall i b, parts_ m !! i = Some (Some b) -> bm_elements b = [].

Lemma reserve_parts_checked n i stats pos pos' m :
  check_parts n stats pos = Some pos' -> i + n <= length (parts_ m) -> no_elements m ->
  exists ps, reserve_parts n i stats pos m = Ok (set_parts ps m, pos') /\ length ps = length (parts_ m) /\
    (forall j, j < i -> ps !! j = parts_ m !! j) /\
    (forall j, i <= j < i + n -> exists b, ps !! j = Some (Some b) /\ contents b = (∅ : gmap K V)).
Proof.
  revert i pos m. induction n as [| n IH]; intros i pos m Hc Hi Hm; cbn [check_parts reserve_parts] in *.
  { injection Hc as <-. exists (parts_ m). destruct m. split_and!; [done | done | done | intros; lia]. }
  destruct (safeLoadFromStats stats pos) as [[bc pos1] |] eqn:E1; [| done]. cbn in Hc.
  destruct (_ <? bc)%Z; [done |]. destruct (safeLoadFromStats stats pos1) as [[sz pos2] |] eqn:E2; [| done]. cbn in Hc.
  destruct (_ <? _ + sz)%Z eqn:Esz; [done |]. cbn [orb] in Hc. destruct (bm_stats_correct _ _); [| done]. cbn [negb] in Hc.
  rewrite (load_safe _ _ _ _ E1), R_bind_ok, (load_safe _ _ _ _ E2), R_bind_ok, Esz, R_bind_ok.
  destruct (lookup_lt_is_Some_2 (parts_ m) i) as [old Hold]; [lia |]. rewrite Hold. cbn [of_option]. rewrite R_bind_ok.
  replace (match old with Some b => negb (bm_size b =? 0)%Z | None => false end) with false.
  2: { destruct old as [b |]; [| done]. unfold bm_size. by rewrite (Hm i b Hold). }
  set (b := if dense _ _ then _ else _).
  assert (bm_elements b = []) as Hb by (unfold b; destruct (dense _ _); [apply bm_elements_stats | apply bm_elements_make]).
  destruct (IH (S i) (pos2 + Z.to_nat sz) (set_part i (Some b) m)) as (ps & E & Hl & Hlo & Hhi); [done | | |].
  { cbn. rewrite length_insert. lia. }
  { intros j c. cbn [set_part set_parts parts_]. destruct (decide (j = i)) as [-> |].
    - rewrite list_lookup_insert_eq by lia. by intros [= <-].
    - rewrite list_lookup_insert_ne by done. apply Hm. }
  exists ps. cbn [set_part set_parts parts_] in *. rewrite length_insert in Hl. split_and!; [exact E | done | |].
  - intros j Hj. rewrite Hlo by lia. apply list_lookup_insert_ne. lia.
  - intros j Hj. destruct (decide (j = i)) as [-> |]; [| apply Hhi; lia].
    exists b. rewrite Hlo by lia. split; [apply list_lookup_insert_eq; lia |]. unfold contents. by rewrite Hb.
Qed.

Lemma load_uses_checked n stats pos used :
  bytes_ok stats -> check_uses n stats pos used = true ->
  exists uses, load_uses n stats pos = Ok uses /\ length uses = n /\ Forall (fun p => p < Z.to_nat used) uses.
Proof.
  intros Hb. revert pos. induction n as [| n IH]; intros pos Hc; cbn [check_uses load_uses] in *; [by exists [] |].
  destruct (safeLoadFromStats stats pos) as [[p pos1] |] eqn:E; [| done].
  destruct (Z.leb_spec used p) as [| Hp]; [done |]. destruct (IH _ Hc) as (uses & Eu & Hl & Hf).
  rewrite (load_safe _ _ _ _ E), R_bind_ok, Eu, R_bind_ok. pose proof (safeLoad_nonneg _ _ _ _ Hb E). exists (Z.to_nat p :: uses).
  split_and!; [done | cbn; lia | constructor; [lia | done]].
Qed.

Lemma count_uses_spec uses counts f :
  Forall (fun p => p < kMaxParts) uses -> counts = map f (seq 0 kMaxParts) ->
  (forall p, (0 <= f p)%Z) -> (forall p, p < kMaxParts -> (f p + uses_of p uses < 2 ^ 32)%Z) ->
  count_uses uses counts = Ok (map (fun p => f p + uses_of p uses)%Z (seq 0 kMaxParts)).
Proof.
  revert counts f. induction uses as [| q uses IH]; intros counts f Hu -> Hf Hb; cbn [count_uses].
  - f_equal. apply map_ext. intros p. unfold uses_of. rewrite count_nil. lia.
  - apply Forall_cons in Hu as [Hq Hu]. rewrite length_map, length_seq, (proj2 (Nat.ltb_lt _ _) Hq).
    rewrite (IH _ (fun p => (f p + if (p =? q)%nat then 1 else 0)%Z) Hu).
    + f_equal. apply map_ext. intros p. rewrite uses_of_cons. rewrite Nat.eqb_sym. lia.
    + apply list_eq. intros i. rewrite list_lookup_fmap. unfold add_count.
      destruct (decide (i = q)) as [-> |].
      * rewrite list_lookup_alter_eq, list_lookup_fmap, lookup_seq_lt by done. cbn. rewrite Nat.eqb_refl. f_equal.
        apply wrap_id. pose proof (Hf q). pose proof (Hb q Hq) as Hbq. rewrite uses_of_cons, Nat.eqb_refl in Hbq.
        pose proof (uses_of_bound q uses). lia.
      * rewrite list_lookup_alter_ne, list_lookup_fmap by done. destruct (decide (i < kMaxParts)).
        { rewrite lookup_seq_lt by done. cbn. rewrite (proj2 (Nat.eqb_neq i q)) by done. f_equal. lia. }
        by rewrite lookup_seq_ge by lia.
    + intros p. pose proof (Hf p). destruct (p =? q); lia.
    + intros p Hp. pose proof (Hb p Hp) as Hbp. rewrite uses_of_cons in Hbp. rewrite Nat.eqb_sym in Hbp. lia.
Qed.

Lemma new_map_no_elements : no_elements (make kNumBitsToSelectPart).
Proof.
  intros i b. unfold make. cbn [parts_]. destruct (decide (i = 0)) as [-> |].
  - destruct (kMaxParts_bound _ Hbits). rewrite list_lookup_insert_eq by (rewrite length_replicate; lia).
    intros [= <-]. apply bm_elements_make.
  - rewrite list_lookup_insert_ne by done. intros [? _]%lookup_replicate. done.
Qed.

(** What a checked header gives. *)
Lemma check_inv stats :
  checkStatsCorrectness stats = true ->
  exists used pos1 pos2 pos3,
    safeLoadFromStats stats 0 = Some (used, pos1) /\ safeLoadFromStats stats pos1 = Some (Z.of_nat kMaxParts, pos2) /\
    (used <= Z.of_nat kMaxParts)%Z /\ check_parts (Z.to_nat used) stats pos2 = Some pos3 /\
    check_uses kMaxParts stats pos3 used = true.
Proof.
  unfold checkStatsCorrectness. destruct (safeLoadFromStats stats 0) as [[used pos1] |]; [| done].
  destruct (safeLoadFromStats stats pos1) as [[tmp pos2] |] eqn:E2; [| done].
  destruct (Z.eqb_spec tmp (Z.of_nat kMaxParts)) as [-> |]; [| done].
  destruct (Z.ltb_spec (Z.of_nat kMaxParts) used) as [| Hu]; [done |]. cbn [negb orb].
  destruct (check_parts _ _ _) as [pos3 |] eqn:E3; [| done]. intros E4. by exists used, pos1, pos2, pos3.
Qed.

Lemma reserve_spec stats used pos1 pos2 pos3 uses :
  safeLoadFromStats stats 0 = Some (used, pos1) -> safeLoadFromStats stats pos1 = Some (Z.of_nat kMaxParts, pos2) ->
  (1 <= used <= Z.of_nat kMaxParts)%Z -> check_parts (Z.to_nat used) stats pos2 = Some pos3 ->
  load_uses kMaxParts stats pos3 = Ok uses -> length uses = kMaxParts -> Forall (fun p => p < Z.to_nat used) uses ->
  exists m, reserveFromStats stats (make kNumBitsToSelectPart) = Ok m /\ reserved (Z.to_nat used) uses m.
Proof.
  intros E1 E2 Hu E3 Eu Hlen Hf. destruct (kMaxParts_bound _ Hbits) as [Hmax Hmax32].
  unfold reserveFromStats. cbn [make size_ partsUsed_]. rewrite (load_safe _ _ _ _ E1), R_bind_ok, (load_safe _ _ _ _ E2), R_bind_ok.
  rewrite !Z.eqb_refl, (proj2 (Z.ltb_ge _ _)) by lia. cbn [negb orb].
  set (m0 := set_used (Z.to_nat used) _).
  assert (length (parts_ m0) = kMaxParts) as Hl0 by (cbn; by rewrite length_insert, length_replicate).
  destruct (reserve_parts_checked (Z.to_nat used) 0 stats pos2 pos3 m0 E3) as (ps & Ep & Hl & _ & Hp);
    [lia | apply new_map_no_elements |].
  change (partsUsed_ m0) with (Z.to_nat used). rewrite Ep, R_bind_ok, Eu, R_bind_ok.
  rewrite (count_uses_spec uses _ (fun _ => 0%Z)); cycle 1.
  { eapply Forall_impl; [exact Hf |]. cbn beta. lia. }
  { apply list_eq. intros i. rewrite list_lookup_fmap. destruct (decide (i < kMaxParts)).
    - by rewrite lookup_replicate_2, lookup_seq_lt.
    - by rewrite lookup_seq_ge, lookup_ge_None_2 by (rewrite ?length_replicate; lia). }
  { done. }
  { intros p _. pose proof (uses_of_bound p uses). unfold zlen in *. lia. }
  rewrite R_bind_ok. eexists. split; [reflexivity |].
  constructor; cbn [set_tables set_parts set_used m0 size_ partsUsed_ partsToUse_ partsSplitCounts_ parts_]; try done.
  - congruence.
  - intros p Hlt. apply Hp. lia.
Qed.

(** Statistics that pass [checkStatsCorrectness] are safe: whatever the bytes are,
    [reserveFromStats] on a new map reads only inside of them, makes no access outside of the
    arrays of parts, and gives an empty map all of whose table entries name parts that exist. *)
Theorem checked_stats_reserve stats :
  bytes_ok stats -> checkStatsCorrectness stats = true ->
  exists used uses m, reserveFromStats stats (make kNumBitsToSelectPart) = Ok m /\ reserved used uses m /\
    length uses = kMaxParts /\ Forall (fun p => p < used) uses /\ 1 <= used <= kMaxParts.
Proof.
  intros Hb Hc. destruct (check_inv _ Hc) as (used & pos1 & pos2 & pos3 & E1 & E2 & Hu & E3 & E4).
  destruct (kMaxParts_bound _ Hbits) as [Hmax _].
  destruct (load_uses_checked _ _ _ _ Hb E4) as (uses & Eu & Hlen & Hf).
  assert (1 <= Z.to_nat used) as Hu1.
  { destruct uses as [| p uses]; [cbn in Hlen; lia |]. apply Forall_cons in Hf as [Hp _]. lia. }
  destruct (reserve_spec stats used pos1 pos2 pos3 uses E1 E2) as (m & Em & Rm); [lia | done.. |].
  exists (Z.to_nat used), uses, m. split_and!; [done | done | done | done | done | lia].
Qed.

(** ** The shape survives *)

Definition stats_ok (b : B) : Prop :=
  (0 <= bm_bucket_count b <= kMaxBucketsCountForCorrectStats)%Z /\ (bm_bucket_count b < 2 ^ 32)%Z /\
  (zlen (bm_buckets_stats b) < 2 ^ 32)%Z /\ bytes_ok (bm_buckets_stats b) /\
  bm_stats_correct (bm_bucket_count b) (bm_buckets_stats b) = true.

Definition enc (v : Z) : bytes := le_bytes 4 (u32 v).
Definition enc_part (b : B) : bytes :=
  enc (bm_bucket_count b) ++ enc (zlen (bm_buckets_stats b)) ++ bm_buckets_stats b.
Definition enc_uses (uses : list nat) : bytes := mjoin ((fun p => enc (Z.of_nat p)) <$> uses).

Lemma safeLoad_enc pre v post pos :
  pos = length pre -> (0 <= v < 2 ^ 32)%Z -> safeLoadFromStats (pre ++ enc v ++ post) pos = Some (v, pos + 4).
Proof.
  intros -> Hv. unfold safeLoadFromStats, enc. rewrite !length_app, le_bytes_length, (proj2 (Nat.leb_le _ _)) by lia.
  rewrite drop_app_length, take_app_length' by (by rewrite le_bytes_length). unfold u32. rewrite wrap_id by done.
  by rewrite le_val_le_bytes.
Qed.

Lemma dump_parts_enc (bs : list B) i (m : hash_map) stats :
  (forall j b, bs !! j = Some b -> parts_ m !! (i + j) = Some (Some b)) ->
  dump_parts (length bs) i m stats = Ok (stats ++ mjoin (enc_part <$> bs)).
Proof.
  revert i stats. induction bs as [| b bs IH]; intros i stats Hbs; cbn [dump_parts length]; [by rewrite app_nil_r |].
  rewrite (part_lookup i b), R_bind_ok by (rewrite <- (Nat.add_0_r i); by apply Hbs).
  rewrite IH; [| intros j c Hj; rewrite Nat.add_succ_comm; by apply Hbs].
  cbn [fmap list_fmap mjoin list_join]. unfold addToStats, enc_part, enc. by rewrite <- !app_assoc.
Qed.

Lemma check_parts_enc (bs : list B) pre post pos :
  pos = length pre -> Forall stats_ok bs ->
  check_parts (length bs) (pre ++ mjoin (enc_part <$> bs) ++ post) pos = Some (pos + length (mjoin (enc_part <$> bs))).
Proof.
  intros -> Hbs. revert pre. induction Hbs as [| b bs (Hc & Hc' & Hl & _ & Hs) Hbs IH]; intros pre; cbn [length check_parts].
  { by rewrite Nat.add_0_r. }
  cbn [fmap list_fmap mjoin list_join]. change (list_join _) with (mjoin (enc_part <$> bs)).
  set (rest := mjoin (enc_part <$> bs)) in *. set (n := bm_bucket_count b) in *. set (data := bm_buckets_stats b) in *.
  change (enc_part b) with (enc n ++ enc (zlen data) ++ data).
  rewrite <- !app_assoc, safeLoad_enc by (done || lia). cbn [mbind option_bind].
  rewrite (proj2 (Z.ltb_ge _ _)) by lia.
  rewrite (app_assoc pre), (safeLoad_enc _ (zlen data)) by (rewrite ?length_app; unfold enc; rewrite ?le_bytes_length; pose proof (zlen_nonneg data); lia).
  cbn [mbind option_bind]. rewrite (app_assoc (pre ++ enc n)).
  assert (length pre + 4 + 4 = length ((pre ++ enc n) ++ enc (zlen data))) as Ep
    by (unfold enc; rewrite !length_app, !le_bytes_length; lia).
  rewrite Ep. set (pre2 := (pre ++ enc n) ++ enc (zlen data)) in *.
  rewrite (proj2 (Z.ltb_ge _ _)) by (unfold zlen; rewrite !length_app; lia). cbn [orb].
  unfold slice. unfold zlen at 1. rewrite Nat2Z.id, drop_app_length, take_app_length, Hs. cbn [negb].
  unfold zlen at 1. rewrite Nat2Z.id, (app_assoc pre2), <- length_app, IH. f_equal.
  unfold rest. rewrite !length_app. unfold pre2, enc. rewrite !length_app, !le_bytes_length. lia.
Qed.

Lemma uses_enc (uses : list nat) pre pos used :
  pos = length pre -> Forall (fun p => p < used) uses -> (Z.of_nat used < 2 ^ 32)%Z ->
  check_uses (length uses) (pre ++ enc_uses uses) pos (Z.of_nat used) = true /\
  load_uses (length uses) (pre ++ enc_uses uses) pos = Ok uses.
Proof.
  intros -> Hu Hm. revert pre. induction Hu as [| p uses Hp Hu IH]; intros pre; cbn [length check_uses load_uses]; [done |].
  change (enc_uses (p :: uses)) with (enc (Z.of_nat p) ++ enc_uses uses).
  pose proof (safeLoad_enc pre (Z.of_nat p) (enc_uses uses) (length pre) eq_refl ltac:(lia)) as E.
  rewrite (load_safe _ _ _ _ E), E, R_bind_ok, (proj2 (Z.leb_gt _ _)) by lia.
  assert (length pre + 4 = length (pre ++ enc (Z.of_nat p))) as -> by (unfold enc; by rewrite length_app, le_bytes_length).
  rewrite app_assoc. destruct (IH (pre ++ enc (Z.of_nat p))) as [-> ->]. rewrite R_bind_ok, Nat2Z.id. done.
Qed.

Lemma dump_uses_enc uses stats : foldl (fun stats p => addToStats (Z.of_nat p) stats) stats uses = stats ++ enc_uses uses.
Proof.
  revert stats. induction uses as [| p uses IH]; intros stats; cbn [foldl]; [by rewrite app_nil_r |].
  rewrite IH. unfold addToStats, enc_uses. cbn [fmap list_fmap mjoin list_join]. by rewrite <- app_assoc.
Qed.

(** The parts of a map in a list. *)
Lemma live_parts m (g : gmap K V) : represents h_ kNumBitsToSelectPart m g ->
  exists bs, length bs = partsUsed_ m /\ forall j b, bs !! j = Some b -> parts_ m !! j = Some (Some b).
Proof.
  intros R. assert (forall n, n <= partsUsed_ m -> exists bs, length bs = n /\ forall j b, bs !! j = Some b -> parts_ m !! j = Some (Some b)) as Hn.
  { induction n as [| n IH]; intros Hn; [by exists [] |]. destruct IH as (bs & Hl & Hb); [lia |].
    destruct (represents_part h_ kNumBitsToSelectPart m g n R) as (b & _ & El & _); [lia |].
    exists (bs ++ [b]). rewrite length_app. split; [cbn; lia |]. intros j c Hj. apply lookup_app_Some in Hj as [Hj | [Hj Hc]].
    - by apply Hb.
    - apply list_lookup_singleton_Some in Hc as [Hz <-]. by replace j with n by lia. }
  by apply Hn.
Qed.

(** C21: saving and restoring the shape of the map is lossless. The statistics that a map
    dumps pass the check, and a new map that reserves from them is empty and has the parts, the
    table and the counts of the dumped one, ready for the same elements. *)
Theorem stats_roundtrip m (g : gmap K V) :
  represents h_ kNumBitsToSelectPart m g -> (forall i b, parts_ m !! i = Some (Some b) -> stats_ok b) ->
  exists stats m', dumpStats m = Ok stats /\ checkStatsCorrectness stats = true /\
    reserveFromStats stats (make kNumBitsToSelectPart) = Ok m' /\
    reserved (partsUsed_ m) (partsToUse_ m) m' /\ partsSplitCounts_ m' = partsSplitCounts_ m.
Proof.
  intros R Hok. pose proof R as (T & _). destruct (kMaxParts_bound _ Hbits) as [Hmax Hmax32].
  pose proof (used_le kNumBitsToSelectPart m T) as Hused. pose proof (ok_used _ m T) as Hused1.
  destruct (live_parts m g R) as (bs & Hlen & Hbs).
  assert (Forall stats_ok bs) as Hf.
  { apply Forall_lookup. intros i b Hi. by apply (Hok i), Hbs. }
  set (head := enc (Z.of_nat (partsUsed_ m)) ++ enc (Z.of_nat kMaxParts)).
  set (parts := mjoin (enc_part <$> bs)). set (stats := head ++ parts ++ enc_uses (partsToUse_ m)).
  assert (length head = 8) as Lh by (unfold head, enc; by rewrite length_app, !le_bytes_length).
  assert (dumpStats m = Ok stats) as Ed.
  { unfold dumpStats, addToStats. replace (dump_parts (partsUsed_ m) 0 m) with (dump_parts (length bs) 0 m) by (by rewrite Hlen). rewrite (dump_parts_enc bs 0 m), R_bind_ok, dump_uses_enc by done.
    unfold stats, parts, head, enc. by rewrite <- !app_assoc. }
  assert (safeLoadFromStats stats 0 = Some (Z.of_nat (partsUsed_ m), 4)) as E1.
  { unfold stats, head. rewrite <- !app_assoc. apply (safeLoad_enc []); [done | lia]. }
  assert (safeLoadFromStats stats 4 = Some (Z.of_nat kMaxParts, 8)) as E2.
  { unfold stats, head. rewrite <- !app_assoc. apply safeLoad_enc; [unfold enc; by rewrite le_bytes_length | lia]. }
  assert (check_parts (partsUsed_ m) stats 8 = Some (8 + length parts)) as E3
    by (rewrite <- Hlen; by apply check_parts_enc).
  assert (check_uses kMaxParts stats (8 + length parts) (Z.of_nat (partsUsed_ m)) = true /\
    load_uses kMaxParts stats (8 + length parts) = Ok (partsToUse_ m)) as [E4 E5].
  { rewrite <- (ok_uses_len _ m T). unfold stats. rewrite app_assoc.
    apply uses_enc; [rewrite length_app; lia | apply (ok_uses _ m T) | lia]. }
  destruct (reserve_spec stats (Z.of_nat (partsUsed_ m)) 4 8 (8 + length parts) (partsToUse_ m) E1 E2) as (m' & Em & Rm).
  { lia. } { by rewrite Nat2Z.id. } { done. } { apply (ok_uses_len _ m T). } { rewrite Nat2Z.id. apply (ok_uses _ m T). }
  rewrite Nat2Z.id in Rm. exists stats, m'. split_and!; [done | | done | done |].
  - unfold checkStatsCorrectness. rewrite E1, E2, Z.eqb_refl, (proj2 (Z.ltb_ge _ _)) by lia. cbn [negb orb].
    by rewrite Nat2Z.id, E3.
  - rewrite (r_counts _ _ _ Rm). apply list_eq. intros i. rewrite list_lookup_fmap. destruct (decide (i < kMaxParts)).
    + by rewrite lookup_seq_lt, (ok_counts _ m T).
    + rewrite lookup_seq_ge, lookup_ge_None_2 by (rewrite ?(ok_counts_len _ m T); lia). done.
Qed.
End Stats.

(** ** The shape of the sample map *)

#[local] Abbreviation sample_check := (checkStatsCorrectness (K := Z) (V := Z) (B := gmap Z Z) 8 1).
#[local] Abbreviation sample_dump := (dumpStats (K := Z) (V := Z) (B := gmap Z Z) 1 sample_map).
#[local] Abbreviation sample_reserve := (reserveFromStats (K := Z) (V := Z) (B := gmap Z Z) 1 (fun _ _ => true)).

Lemma gmap_stats_ok (b : gmap Z Z) : (zlen (map_to_list b) <=? 1024)%Z = true -> stats_ok (K := Z) (V := Z) 8 b.
Proof.
  intros Hl%Z.leb_le. unfold stats_ok, kMaxBucketsCountForCorrectStats.
  cbn [bm_bucket_count bm_buckets_stats bm_stats_correct gmap_base].
  pose proof (zlen_nonneg (map_to_list b)). unfold zlen in *. rewrite length_replicate.
  split_and!; try lia. apply Forall_replicate. unfold byte_ok. lia.
Qed.

Lemma stats_roundtrip_witness :
  exists stats m', sample_dump = Ok stats /\ sample_check stats = true /\
    sample_reserve stats (make 1) = Ok m' /\ partsUsed_ m' = 2.
Proof.
  assert (0 <= 1 < 32)%Z as Hb by lia.
  destruct (stats_roundtrip 8 1 (fun _ _ => true) id Hb sample_map _ sample_map_represents) as (stats & m' & Ed & Ec & Er & R & _).
  { intros i b Hi. apply gmap_stats_ok.
    assert (Forall (fun o : option (gmap Z Z) => if o is Some b then (zlen (map_to_list b) <=? 1024)%Z = true else True)
      (parts_ sample_map)) as Hf by (vm_compute; repeat constructor).
    exact (Forall_lookup_1 _ _ _ _ Hf Hi). }
  exists stats, m'. split; [exact Ed |]. split; [exact Ec |]. split; [exact Er |]. rewrite (r_used _ _ _ _ R). vm_compute. reflexivity.
Defined.

Definition sample_stats : bytes := match sample_dump with Ok s => s | Fail _ => [] end.

Lemma checked_stats_reserve_witness :
  sample_check sample_stats = true /\
  exists m' : @hash_map (gmap Z Z), sample_reserve sample_stats (make 1) = Ok m' /\ length (partsToUse_ m') = 2.
Proof.
  assert (0 <= 1 < 32)%Z as Hb by lia.
  assert (sample_check sample_stats = true) as Hc by (vm_compute; reflexivity).
  split; [exact Hc |].
  assert (bytes_ok sample_stats) as Hs by (apply (bool_decide_unpack _); vm_compute; exact I).
  destruct (checked_stats_reserve (K := Z) (V := Z) (B := gmap Z Z) 8 1 (fun _ _ => true) id Hb sample_stats Hs Hc)
    as (used & uses & m' & E & R & Hl & _).
  exists m'. split; [exact E |]. rewrite (r_uses _ _ _ _ R), Hl. vm_compute. reflexivity.
Defined.

(** Bytes of another size, or with an entry that names no part, are refused. *)
Example broken_stats :
  sample_check (removelast sample_stats) = false /\
  sample_check (take (length sample_stats - 4) sample_stats ++ [2; 0; 0; 0])%Z = false.
Proof. vm_compute. done. Qed.
