(* ===== verification/IdSet.v ===== *)
(** Sets of row ids: [core/idset/idset.h], [idset.cc] and the sort orders that
    [core/index/keyentry.h] and [keyentry.cc] keep behind them.

    An id set is a vector of ids that switches to a B-tree when it grows; [Commit], which runs
    while readers use the set, copies the tree back to the vector. Ids are their numbers. The
    vendored B-tree set and the sort of the vectors are parameters: an ordered set with its
    documented operations, and a function that sorts. The binary searches of the standard library
    are those of [Gallop]. *)

From S2P Require Import Prelude HVector Gallop.

(** ** The vendored ordered set *)

Class BtreeSet (S : Type) : Type := {
  b_of_list : list Z -> S;
  b_insert : Z -> S -> S * bool;
  b_erase : Z -> S -> S * Z;
  b_find : Z -> S -> bool;
  b_elements : S -> list Z
}.

Class BtreeSetLaws (S : Type) `{BtreeSet S} : Prop := {
  b_sorted s : StronglySorted Z.lt (b_elements s);
  b_elem_of_list l x : x ∈ b_elements (b_of_list l) <-> x ∈ l;
  b_elem_insert y s x : x ∈ b_elements (fst (b_insert y s)) <-> x = y \/ x ∈ b_elements s;
  b_insert_new y s : snd (b_insert y s) = bool_decide (y ∉ b_elements s);
  b_elem_erase y s x : x ∈ b_elements (fst (b_erase y s)) <-> x <> y /\ x ∈ b_elements s;
  b_erase_count y s : snd (b_erase y s) = if bool_decide (y ∈ b_elements s) then 1 else 0;
  b_find_elem y s : b_find y s = bool_decide (y ∈ b_elements s)
}.

Definition b_size {S} `{BtreeSet S} (s : S) : Z := zlen (b_elements s).

(** ** A set of one id: [IdSetUnique] *)

Module Unique.

Definition NotSet : Z := -1.

Definition IsValid (id : Z) : bool := 0 <=? id.

Definition IsEmpty (id_ : Z) : bool := negb (IsValid id_).

Definition Size (id_ : Z) : Z := if IsValid id_ then 1 else 0.

Definition Add (id id_ : Z) : result (bool * Z) :=
  if negb (IsEmpty id_) then Fail (Throw errConflict) else Ok (true, id).

Definition Erase (id id_ : Z) : Z * Z := if id_ =? id then (1, NotSet) else (0, id_).

(** The ids that [IdSetCRef] views. *)
Definition view (id_ : Z) : list Z := if IsValid id_ then [id_] else [].

End Unique.

(** ** The vector of ids: [IdSetPlain] *)

Abbreviation base_idset := (h_vector Z).

Definition kHoldSize : Z := 3.

(** [h_vector<IdType, 3>]. *)
Module Vec.
Definition make : base_idset := h_vector_make kHoldSize.
Definition capacity : base_idset -> Z := HVector.capacity kHoldSize.
Definition reserve : Z -> base_idset -> result base_idset := HVector.reserve kHoldSize.
Definition push_back : Z -> base_idset -> result base_idset := HVector.push_back kHoldSize.
Definition insert : Z -> Z -> base_idset -> result base_idset := HVector.insert kHoldSize true (fun x => x).
Definition insert_range : Z -> list Z -> base_idset -> result base_idset :=
  HVector.insert_range kHoldSize true (fun x => x) 0.
Definition erase_range : Z -> Z -> base_idset -> result base_idset := HVector.erase_range true (fun x => x).
Definition clear : bool -> base_idset -> result base_idset := HVector.clear kHoldSize true.
Definition shrink_to_fit : base_idset -> result base_idset := HVector.shrink_to_fit kHoldSize true.
End Vec.

(** [std::find], [std::equal_range] and [std::unique] of the standard library. *)
Definition std_find (l : list Z) (id : Z) : bool := existsb (Z.eqb id) l.

Definition equal_range (l : list Z) (id : Z) : result (Z * Z) :=
  lo ← lower_bound l 0 (zlen l) id; hi ← upper_bound l 0 (zlen l) id; mret (lo, hi).

Fixpoint unique (l : list Z) : list Z :=
  match l with
  | x :: (y :: _) as l => if x =? y then unique l else x :: unique l
  | l => l
  end.

Definition calcPlainReserveSize (ids sortedIdxCount : Z) : Z := u32 (ids * u32 (sortedIdxCount + 1)).

Definition reserveForIdAndSortOrders (sortedIdxCount : Z) (h : base_idset) : result base_idset :=
  let requiredCap := calcPlainReserveSize (u32 (size_ h + 1)) sortedIdxCount in
  if Vec.capacity h <? requiredCap then Vec.reserve (Z.max requiredCap (u32 (Vec.capacity h * 2))) h
  else Ok h.

Definition Plain_Add (id sortedIdxCount : Z) (h : base_idset) : result (bool * base_idset) :=
  h ← reserveForIdAndSortOrders sortedIdxCount h;
  pos ← lower_bound (elements h) 0 (size_ h) id;
  same ← if pos =? size_ h then Ok false else x ← deref (elements h) pos; mret (x =? id);
  if same : bool then mret (false, h)
  else h ← Vec.insert pos id h; mret (true, h).

(** [std::distance(d.second, d.first)]: the operands are in this order. *)
Definition Plain_Erase (id : Z) (h : base_idset) : result (Z * base_idset) :=
  d ← equal_range (elements h) id;
  let count := fst d - snd d in
  h ← Vec.erase_range (fst d) (snd d) h;
  mret (count, h).

Definition Plain_OnSortedIndexCountChanged (sortedIdxCount : Z) (h : base_idset) : result base_idset :=
  if negb (sortedIdxCount =? 0) then Vec.reserve (calcPlainReserveSize (size_ h) sortedIdxCount) h
  else Vec.shrink_to_fit h.

(** The copy constructor. *)
Definition Plain_copy (other : base_idset) : result base_idset :=
  h ← Vec.reserve (Vec.capacity other) Vec.make;
  Vec.insert_range 0 (elements other) h.

(** Overwriting elements in place: what sorting and [std::unique] do to the array. *)
Definition overwrite (p : Z) (l : list Z) (h : base_idset) : base_idset :=
  mk_hv (zblit (mem h) p (Some <$> l)) (size_ h) (is_hdata_ h).

Section Sort.
Context (pdqsort : list Z -> list Z).

Definition BuildFromUnsorted (ids : base_idset) : result base_idset :=
  let sorted := pdqsort (elements ids) in
  let ids := overwrite 0 (unique sorted) (overwrite 0 sorted ids) in
  Vec.erase_range (zlen (unique sorted)) (size_ ids) ids.

(** ** The sort orders of a key: [KeyEntry] *)

(** [ctx]: the number of sorted indexes, the one to update, and the places of the rows in it. *)
Record UpdateSortedContext : Type := mk_ctx {
  GetSortedIdxCount : Z; GetCurSortId : Z; Ids2Sorts : list Z
}.

(** The cells of [size] ids from the place [sortId * size]. *)
Definition sortedIDsView (sortId : Z) (h : base_idset) : result Z :=
  if (sortId + 1) * size_ h <=? Vec.capacity h then Ok (sortId * size_ h) else Fail AssertFail.

(** The ids of [IdSetCRef]. *)
Fixpoint read_ids (n : nat) (i : Z) (h : base_idset) : result (list Z) :=
  match n with
  | O => Ok []
  | S n => x ← rd (mem h) i; l ← read_ids n (i + 1) h; mret (x :: l)
  end.

Definition Sorted_ids (sortId : Z) (h : base_idset) : result (list Z) :=
  p ← sortedIDsView sortId h; read_ids (Z.to_nat (size_ h)) p h.

Fixpoint fill_sorted (n : nat) (idx p : Z) (ids2Sorts : list Z) (h : base_idset) : result base_idset :=
  match n with
  | O => Ok h
  | S n =>
      rowid ← rd (mem h) idx;
      if zlen ids2Sorts <=? rowid then Fail AssertFail
      else
        v ← of_option Undefined (znth ids2Sorts rowid);
        m ← assign_at true (p + idx) v (mem h);
        fill_sorted n (idx + 1) p ids2Sorts (mk_hv m (size_ h) (is_hdata_ h))
  end.

(** [committed]: [IsCommitted()] of the set. *)
Definition UpdateSortedIds (committed : bool) (ctx : UpdateSortedContext) (h : base_idset) : result base_idset :=
  if negb committed then Fail (Throw errAssert)
  else
    let expectedCapacity := (GetSortedIdxCount ctx + 1) * size_ h in
    if Vec.capacity h <? expectedCapacity then Fail (Throw errAssert)
    else if GetCurSortId ctx =? 0 then Fail (Throw errAssert)
    else
      p ← sortedIDsView (GetCurSortId ctx) h;
      h ← fill_sorted (Z.to_nat (size_ h)) 0 p (Ids2Sorts ctx) h;
      l ← read_ids (Z.to_nat (size_ h)) p h;
      mret (overwrite p (pdqsort l) h).

End Sort.

(** ** The set that switches its representation: [IdSet] *)

Section IdSet.
Context {S : Type} `{BtreeSet S}.

(** [set_] and [mark] are one atomic word: the pointer to the tree and [isUsingBtree]. *)
Record IdSet : Type := mk_idset { plain : base_idset; set_ : option S; mark : bool }.

Definition IdSet_make : IdSet := mk_idset Vec.make None false.

Definition kMaxPlainIdsetSize : Z := 256.

Definition setUsingBtree (val : bool) (s : IdSet) : IdSet := mk_idset (plain s) (set_ s) val.

Definition Add (id sortedIdxCount : Z) (s : IdSet) : result (bool * IdSet) :=
  let isUsingBtree := mark s in
  let s := match set_ s with
           | None => if kMaxPlainIdsetSize <=? size_ (plain s)
                     then mk_idset (plain s) (Some (b_of_list (elements (plain s)))) false else s
           | Some _ => s
           end in
  match set_ s with
  | None => p ← Plain_Add id sortedIdxCount (plain s); mret (fst p, mk_idset (snd p) None (mark s))
  | Some b =>
      s ← if isUsingBtree then Ok s
          else h ← Vec.clear true (plain s); mret (mk_idset h (Some b) true);
      let (b, inserted) := b_insert id b in
      mret (inserted, mk_idset (plain s) (Some b) (mark s))
  end.

Definition AddUnordered (id : Z) (s : IdSet) : result IdSet :=
  match set_ s with
  | Some _ => Fail AssertFail
  | None => h ← Vec.push_back id (plain s); mret (mk_idset h None (mark s))
  end.

Definition Find (id : Z) (s : IdSet) : bool :=
  match set_ s with None => std_find (elements (plain s)) id | Some b => b_find id b end.

Definition Erase (id : Z) (s : IdSet) : result (Z * IdSet) :=
  match set_ s with
  | None => p ← Plain_Erase id (plain s); mret (fst p, mk_idset (snd p) None (mark s))
  | Some b =>
      h ← Vec.clear false (plain s);
      let (b, count) := b_erase id b in
      mret (count, mk_idset h (Some b) true)
  end.

(** The steps of [Commit], between which readers may look at the set. *)
Definition commit_steps (sortedIdxCount : Z) (s : IdSet) : list (IdSet -> result IdSet) :=
  (if size_ (plain s) =? 0 then
     match set_ s with
     | None => []
     | Some b =>
         (fun s => h ← Vec.reserve (calcPlainReserveSize (b_size b) sortedIdxCount) (plain s);
                   mret (mk_idset h (set_ s) (mark s))) ::
         map (fun id s => h ← Vec.push_back id (plain s); mret (mk_idset h (set_ s) (mark s))) (b_elements b)
     end
   else []) ++ [fun s => mret (setUsingBtree false s)].

Fixpoint run_steps (steps : list (IdSet -> result IdSet)) (s : IdSet) : result IdSet :=
  match steps with [] => Ok s | f :: steps => s ← f s; run_steps steps s end.

Definition Commit (sortedIdxCount : Z) (s : IdSet) : result IdSet :=
  run_steps (commit_steps sortedIdxCount s) s.

Definition IsCommitted (s : IdSet) : bool := negb (mark s).

(** [Size]: a marked word without a tree does not occur. *)
Definition Size (s : IdSet) : result Z :=
  if mark s then (match set_ s with Some b => Ok (b_size b) | None => Fail Undefined end)
  else Ok (size_ (plain s)).

Definition BTree (s : IdSet) : option S := if mark s then set_ s else None.

(** The ids between the iterators of [idset_range]. *)
Definition idset_range (s : IdSet) : result (list Z) :=
  if mark s then (match set_ s with Some b => Ok (b_elements b) | None => Fail AssertFail end)
  else Ok (elements (plain s)).

Definition OnSortedIndexCountChanged (sortedIdxCount : Z) (s : IdSet) : result IdSet :=
  if mark s then Ok s
  else h ← Plain_OnSortedIndexCountChanged sortedIdxCount (plain s); mret (mk_idset h (set_ s) (mark s)).

(** The copy constructor: the tree is copied, the sort orders are not. *)
Definition IdSet_copy (other : IdSet) : result IdSet :=
  h ← Plain_copy (plain other); mret (mk_idset h (set_ other) (mark other)).

End IdSet.
Arguments IdSet : clear implicits.

(** ** Sorted lists of ids *)

Abbreviation ssorted := (StronglySorted Z.lt).

Lemma ssorted_app (l k : list Z) : ssorted (l ++ k) <-> ssorted l /\ ssorted k /\ forall x y, x ∈ l -> y ∈ k -> x < y.
Proof.
  induction l as [| a l IH]; cbn.
  - split; [intros; split_and!; [constructor | done |] | tauto]. intros x y Hx. by apply not_elem_of_nil in Hx.
  - split.
    + intros H. inversion_clear H as [| ? ? H1 H2]. apply IH in H1 as (H3 & H4 & H5). rewrite Forall_app in H2. destruct H2 as [H6 H7].
      split_and!; [by constructor | done |]. intros x y [-> | Hx]%elem_of_cons Hy; [by eapply Forall_forall in H7 | by apply H5].
    + intros (H1 & H2 & H3). inversion_clear H1 as [| ? ? H4 H5]. constructor.
      * apply IH. split_and!; [done.. |]. intros x y Hx. apply H3. by right.
      * apply Forall_app. split; [done |]. apply Forall_forall. intros y Hy. apply H3; [by left | done].
Qed.

Lemma ssorted_le l : ssorted l -> StronglySorted Z.le l.
Proof. induction 1 as [| a l H IH Hl]; constructor; [done |]. eapply Forall_impl; [done |]. intros; cbn in *; lia. Qed.

Lemma sorted_index l : StronglySorted Z.le l -> sorted l.
Proof.
  intros H i j x y Hij Hx Hy. unfold znth in *. repeat case_decide; [| done..].
  revert i j Hij Hx Hy H0 H1. induction H as [| a l H IH Hl]; intros i j Hij Hx Hy H0 H1; [done |].
  destruct (decide (i = 0)) as [-> | Hi].
  - cbn in Hx. injection Hx as ->. destruct (Z.to_nat j) as [| n]; cbn in Hy; [by injection Hy as -> |].
    eapply Forall_forall in Hl; [exact Hl |]. by apply list_elem_of_lookup_2 in Hy.
  - assert (Z.to_nat i = Datatypes.S (Z.to_nat (i - 1))) as Ei by lia.
    assert (Z.to_nat j = Datatypes.S (Z.to_nat (j - 1))) as Ej by lia.
    rewrite Ei in Hx. rewrite Ej in Hy. cbn in Hx, Hy. apply (IH (i - 1) (j - 1)); done || lia.
Qed.

(** What [splits] of [Gallop] means for the parts of a list. *)
Lemma splits_parts P l r : splits P l 0 r (zlen l) ->
  Forall (fun x => P x = true) (take (Z.to_nat r) l) /\ Forall (fun x => P x = false) (drop (Z.to_nat r) l).
Proof.
  intros (Hr & H1 & H2). split; apply Forall_lookup; intros i x Hx.
  - apply lookup_take_Some in Hx as [Hx Hi]. apply (H1 (Z.of_nat i)); [lia | by rewrite znth_lookup].
  - rewrite lookup_drop in Hx. pose proof (lookup_lt_Some _ _ _ Hx) as Hlt.
    apply (H2 (r + Z.of_nat i)); [unfold zlen; lia |]. unfold znth. rewrite decide_True by lia. rewrite <- Hx. f_equal. lia.
Qed.

Lemma lower_bound_split l id : StronglySorted Z.le l ->
  exists r, lower_bound l 0 (zlen l) id = Ok r /\ 0 <= r <= zlen l /\
    Forall (fun x => x < id) (take (Z.to_nat r) l) /\ Forall (fun x => id <= x) (drop (Z.to_nat r) l).
Proof.
  intros Hs%sorted_index. pose proof (zlen_nonneg l). destruct (lower_bound_ok l 0 (zlen l) id) as (r & Hr & Hsp); [done | lia | lia |].
  exists r. split; [done |]. pose proof Hsp as (? & _). apply splits_parts in Hsp as [H1 H2]. split_and!; [lia | lia | |].
  - eapply Forall_impl; [done |]. cbn. intros. by apply Z.ltb_lt.
  - eapply Forall_impl; [done |]. cbn. intros. by apply Z.ltb_ge.
Qed.

Lemma upper_bound_split l id : StronglySorted Z.le l ->
  exists r, upper_bound l 0 (zlen l) id = Ok r /\ 0 <= r <= zlen l /\
    Forall (fun x => x <= id) (take (Z.to_nat r) l) /\ Forall (fun x => id < x) (drop (Z.to_nat r) l).
Proof.
  intros Hs%sorted_index. pose proof (zlen_nonneg l). destruct (upper_bound_ok l 0 (zlen l) id) as (r & Hr & Hsp); [done | lia | lia |].
  exists r. split; [done |]. pose proof Hsp as (? & _). apply splits_parts in Hsp as [H1 H2]. split_and!; [lia | lia | |].
  - eapply Forall_impl; [done |]. cbn. intros. by apply Z.leb_le.
  - eapply Forall_impl; [done |]. cbn. intros. by apply Z.leb_gt.
Qed.

(** Inserting at the lower bound. *)
Lemma ssorted_insert l1 l2 id : ssorted (l1 ++ l2) -> Forall (fun x => x < id) l1 -> Forall (fun x => id <= x) l2 ->
  id ∉ l2 -> ssorted (l1 ++ id :: l2).
Proof.
  intros (H1 & H2 & H3)%ssorted_app Hl Hr Hid. apply ssorted_app. rewrite Forall_forall in Hl, Hr. split_and!; [done | |].
  - constructor; [done |]. apply Forall_forall. intros x Hx. pose proof (Hr x Hx). cbn in *.
    destruct (decide (x = id)) as [-> | Hne]; [done | lia].
  - intros x y Hx [-> | Hy]%elem_of_cons; [by apply Hl | by apply H3].
Qed.

(** At the lower bound of an id in a strictly sorted list there is the id, or it is not in the list. *)
Lemma ssorted_lower l1 l2 id : ssorted (l1 ++ l2) -> Forall (fun x => x < id) l1 -> Forall (fun x => id <= x) l2 ->
  id ∈ l1 ++ l2 <-> head l2 = Some id.
Proof.
  intros (H1 & H2 & H3)%ssorted_app Hl Hr. rewrite Forall_forall in Hl, Hr. rewrite elem_of_app. split.
  - intros [Hx%Hl | Hx]; [cbn in Hx; lia |]. destruct l2 as [| y l2]; [by apply not_elem_of_nil in Hx |]. cbn. f_equal.
    apply elem_of_cons in Hx as [-> | Hx]; [done |]. inversion_clear H2 as [| ? ? _ Hy]. rewrite Forall_forall in Hy.
    pose proof (Hy id Hx). pose proof (Hr y ltac:(by left)). cbn in *. lia.
  - destruct l2 as [| y l2]; [done |]. intros [= ->]. right. by left.
Qed.

(** ** The vector *)

Abbreviation vec := (hv kHoldSize true).

Lemma kHold_ok : 0 < kHoldSize <= max_size.
Proof. by vm_compute. Qed.

Lemma Vec_capacity h : Vec.capacity h = HVector.capacity kHoldSize h.
Proof. reflexivity. Qed.

Lemma vec_elements (h : base_idset) l : vec h l -> elements h = l.
Proof. apply hv_elements. Qed.

Lemma vec_size (h : base_idset) l : vec h l -> size_ h = zlen l.
Proof. apply hv_size. Qed.

Lemma vec_room h l : vec h l -> kHoldSize <= Vec.capacity h <= max_size /\ zlen l <= Vec.capacity h.
Proof. intros H. pose proof (hv_mem _ _ kHold_ok _ _ H). rewrite Vec_capacity. lia. Qed.

(** What reserving gives: the capacity asked for, or the exception. *)
Lemma Vec_reserve_ok n h l : vec h l ->
  (n <= max_size /\ exists h', Vec.reserve n h = Ok h' /\ vec h' l /\ Vec.capacity h' = Z.max (Vec.capacity h) n) \/
  max_size < n /\ Vec.reserve n h = Fail (Throw errLogic).
Proof.
  intros Hh. destruct (Z.le_gt_cases n max_size) as [Hn | Hn]; [left | right]; (split; [done |]).
  - destruct (reserve_ok kHoldSize true kHold_ok n h l Hh Hn) as (h' & H). by exists h'.
  - by apply (reserve_fails kHoldSize true kHold_ok n h l).
Qed.

Lemma calc_ok ids cnt : 0 <= cnt -> 0 <= ids -> ids * (cnt + 1) < 2 ^ 32 -> cnt + 1 < 2 ^ 32 ->
  calcPlainReserveSize ids cnt = ids * (cnt + 1).
Proof. intros. unfold calcPlainReserveSize, u32. rewrite (wrap_id 32 (cnt + 1)) by lia. apply wrap_id. nia. Qed.

Lemma reserveFor_ok cnt h l : vec h l -> 0 <= cnt < 2 ^ 31 -> (zlen l + 1) * (cnt + 1) < 2 ^ 32 ->
  (exists h', reserveForIdAndSortOrders cnt h = Ok h' /\ vec h' l /\
     (zlen l + 1) * (cnt + 1) <= Vec.capacity h' /\ Vec.capacity h <= Vec.capacity h') \/
  max_size < 2 * ((zlen l + 1) * (cnt + 1)) /\ reserveForIdAndSortOrders cnt h = Fail (Throw errLogic).
Proof.
  intros Hh Hc Hn. pose proof (vec_room h l Hh) as (Hk & Hl). pose proof (zlen_nonneg l).
  assert (max_size = 2 ^ 31 - 1) as Hm by reflexivity.
  unfold reserveForIdAndSortOrders. rewrite (vec_size h l Hh).
  assert (u32 (zlen l + 1) = zlen l + 1) as -> by (apply wrap_id; lia). rewrite calc_ok by lia.
  assert (u32 (Vec.capacity h * 2) = Vec.capacity h * 2) as -> by (apply wrap_id; lia).
  destruct (Z.ltb_spec (Vec.capacity h) ((zlen l + 1) * (cnt + 1))) as [H1 | H1].
  - destruct (Vec_reserve_ok (Z.max ((zlen l + 1) * (cnt + 1)) (Vec.capacity h * 2)) h l Hh) as [(Hle & h' & E & Hh' & Ec) | [Hgt E]].
    + left. exists h'. split_and!; [done | done | lia | lia].
    + right. split; [lia | done].
  - left. exists h. split_and!; [done | done | lia | lia].
Qed.

Lemma Plain_Add_ok id cnt h l : vec h l -> ssorted l -> 0 <= cnt < 2 ^ 31 -> (zlen l + 1) * (cnt + 1) < 2 ^ 32 ->
  (exists h' l', Plain_Add id cnt h = Ok (bool_decide (id ∉ l), h') /\ vec h' l' /\ ssorted l' /\
     (forall x, x ∈ l' <-> x = id \/ x ∈ l) /\ zlen l' <= zlen l + 1 /\ zlen l' * (cnt + 1) <= Vec.capacity h') \/
  max_size < 2 * ((zlen l + 1) * (cnt + 1)) /\ Plain_Add id cnt h = Fail (Throw errLogic).
Proof.
  intros Hh Hs Hc Hn. unfold Plain_Add. destruct (reserveFor_ok cnt h l Hh Hc Hn) as [(h1 & -> & Hh1 & Hcap & _) | [Hgt ->]];
    [left | by right]. cbn [mbind result_bind]. rewrite (vec_elements h1 l Hh1), (vec_size h1 l Hh1).
  destruct (lower_bound_split l id (ssorted_le l Hs)) as (r & -> & Hr & Hlt & Hge). cbn [mbind result_bind].
  pose proof (take_drop_zlen l r Hr) as (El & Et & Ed). pose proof (zlen_nonneg l).
  set (l1 := take (Z.to_nat r) l) in *. set (l2 := drop (Z.to_nat r) l) in *.
  rewrite El in Hs. pose proof (ssorted_lower l1 l2 id Hs Hlt Hge) as Hlow.
  rewrite <- El in Hs, Hlow.
  assert ((same ← if r =? zlen l then Ok false else x ← deref l r; mret (x =? id);
           if same : bool then mret (false, h1) else h ← Vec.insert r id h1; mret (true, h))
          = if bool_decide (id ∈ l) then mret (false, h1) else h ← Vec.insert r id h1; mret (true, h)) as ->.
  { destruct (Z.eqb_spec r (zlen l)) as [Hre | Hre].
    - assert (l2 = []) as E2 by (apply length_zero_iff_nil; unfold zlen in *; lia). rewrite E2 in Hlow.
      rewrite bool_decide_eq_false_2; [done |]. by intros Hin%Hlow.
    - assert (deref l r = of_option Undefined (head l2)) as ->.
      { unfold deref. rewrite El, znth_app_r, Et, Z.sub_diag by lia. by destruct l2. }
      destruct l2 as [| y l2'] eqn:E2; [change (zlen []) with 0 in Ed; lia |]. cbn. cbn in Hlow.
      case_bool_decide as Hb.
      + apply Hlow in Hb as [= ->]. by rewrite Z.eqb_refl.
      + rewrite (proj2 (Z.eqb_neq _ _)); [done |]. intros ->. by apply Hb, Hlow. }
  case_bool_decide as Hb.
  - exists h1, l. rewrite bool_decide_eq_false_2 by tauto. split_and!; [done | done | done | | lia | nia].
    intros x. split; [by right |]. by intros [-> |].
  - destruct (insert_ok kHoldSize true (fun x => x) kHold_ok r id h1 l Hh1 Hr) as (h2 & Ei & Hh2 & Ec).
    { pose proof (vec_room h1 l Hh1). nia. }
    unfold Vec.insert. rewrite Ei. cbn [mbind result_bind]. rewrite bool_decide_eq_true_2 by done.
    assert (Vec.capacity h2 = Vec.capacity h1) as Ecap.
    { rewrite Vec_capacity, Ec. unfold grown. rewrite <- Vec_capacity. by rewrite (proj2 (Z.ltb_ge _ _)) by nia. }
    fold l1 l2 in Hh2. exists h2, (l1 ++ id :: l2). assert (zlen (l1 ++ id :: l2) = zlen l + 1) as Ez.
    { rewrite zlen_app, zlen_cons. lia. }
    split_and!; [done | done | | | lia | rewrite Ez; lia].
    + apply ssorted_insert; [by rewrite <- El | done | done |]. intros Hin. apply Hb. rewrite El. apply elem_of_app. by right.
    + intros x. rewrite El, !elem_of_app, elem_of_cons. tauto.
Qed.

(** The places of an id in a strictly sorted list: none or one. *)
Lemma equal_range_ok l id : ssorted l ->
  exists lo hi, equal_range l id = Ok (lo, hi) /\ 0 <= lo <= hi /\ hi <= zlen l /\
    hi - lo = b2z (bool_decide (id ∈ l)) /\
    ssorted (take (Z.to_nat lo) l ++ drop (Z.to_nat hi) l) /\
    (forall x, x ∈ take (Z.to_nat lo) l ++ drop (Z.to_nat hi) l <-> x <> id /\ x ∈ l).
Proof.
  intros Hs. unfold equal_range.
  destruct (lower_bound_split l id (ssorted_le l Hs)) as (lo & -> & Hlo & Hlt & Hge). cbn [mbind result_bind].
  destruct (upper_bound_split l id (ssorted_le l Hs)) as (hi & -> & Hhi & Hle & Hgt). cbn [mbind result_bind].
  exists lo, hi. split; [done |]. pose proof (take_drop_zlen l lo Hlo) as (El & Et & Ed).
  set (l1 := take (Z.to_nat lo) l) in *. set (l2 := drop (Z.to_nat lo) l) in *.
  pose proof Hs as Hs'. rewrite El in Hs'. pose proof (ssorted_lower l1 l2 id Hs' Hlt Hge) as Hlow. rewrite <- El in Hlow.
  apply ssorted_app in Hs' as (Hs1 & Hs2 & Hs12). rewrite Forall_forall in Hlt, Hge, Hgt, Hle.
  assert (lo <= hi) as Hlh.
  { destruct (Z.le_gt_cases lo hi) as [Hc | Hc]; [done |]. destruct (znth_lt l hi) as [x Hx]; [lia |].
    unfold znth in Hx. case_decide; [| done].
    assert (x ∈ l1) as H1 by (apply (list_elem_of_lookup_2 _ (Z.to_nat hi)); apply lookup_take_Some; split; [done | lia]).
    assert (x ∈ drop (Z.to_nat hi) l) as H2.
    { apply (list_elem_of_lookup_2 _ 0%nat). rewrite lookup_drop. by rewrite Nat.add_0_r. }
    apply Hlt in H1. apply Hgt in H2. cbn in *. lia. }
  set (l3 := drop (Z.to_nat hi) l) in *.
  assert (l2 = take (Z.to_nat (hi - lo)) l2 ++ l3) as E2.
  { rewrite <- (take_drop (Z.to_nat (hi - lo)) l2) at 1. f_equal. unfold l2, l3. rewrite drop_drop. f_equal. lia. }
  set (m := take (Z.to_nat (hi - lo)) l2) in *.
  assert (zlen m = hi - lo) as Hm by (unfold m, zlen in *; rewrite length_take; lia).
  assert (forall x, x ∈ m -> x = id) as Hmid.
  { intros x Hx. assert (id <= x) by (apply Hge; rewrite E2; apply elem_of_app; by left).
    assert (x <= id); [| lia]. apply Hle.
    apply (list_elem_of_lookup_1) in Hx as [i Hi]. unfold m in Hi. apply lookup_take_Some in Hi as [Hi Hlti].
    apply (list_elem_of_lookup_2 _ (Z.to_nat lo + i)%nat). apply lookup_take_Some. split; [| lia].
    unfold l2 in Hi. by rewrite lookup_drop in Hi. }
  rewrite E2 in Hs2. apply ssorted_app in Hs2 as (Hsm & Hs3 & _).
  assert (hi - lo = b2z (bool_decide (id ∈ l))) as Hcnt.
  { rewrite <- Hm. destruct m as [| y [| z m']] eqn:Em.
    - rewrite bool_decide_eq_false_2; [done |]. rewrite Hlow, E2. cbn. intros Hh. destruct l3 as [| w l3]; [done |].
      injection Hh as ->. pose proof (Hgt id ltac:(by left)). cbn in *. lia.
    - rewrite bool_decide_eq_true_2; [done |]. apply Hlow. rewrite E2. cbn. f_equal. apply Hmid. by left.
    - exfalso. assert (y = id) by (apply Hmid; by left). assert (z = id) by (apply Hmid; right; by left).
      inversion_clear Hsm as [| ? ? _ Hf]. inversion_clear Hf. cbn in *. lia. }
  split_and!; [lia | lia | lia | done | |].
  - apply ssorted_app. split_and!; [done | done |]. intros x y Hx Hy. apply Hs12; [done |]. rewrite E2. apply elem_of_app. by right.
  - intros x. rewrite El, E2, !elem_of_app. split.
    + intros [Hx | Hx]; (split; [| tauto]); intros ->; [apply Hlt in Hx | apply Hgt in Hx]; cbn in *; lia.
    + intros [Hne [Hx | [Hx | Hx]]]; [by left | by apply Hmid in Hx | by right].
Qed.

Lemma Plain_Erase_ok id h l : vec h l -> ssorted l ->
  exists h' l', Plain_Erase id h = Ok (- b2z (bool_decide (id ∈ l)), h') /\ vec h' l' /\ ssorted l' /\
    (forall x, x ∈ l' <-> x <> id /\ x ∈ l) /\ zlen l' <= zlen l /\ Vec.capacity h' = Vec.capacity h.
Proof.
  intros Hh Hs. unfold Plain_Erase. rewrite (vec_elements h l Hh).
  destruct (equal_range_ok l id Hs) as (lo & hi & -> & Hlo & Hhi & Hc & Hs' & Hx). cbn [mbind result_bind fst snd].
  destruct (erase_range_implements kHoldSize true (fun x => x) 0 kHold_ok lo hi h l Hh) as (h' & E & Hh' & Ec); [lia | lia |].
  unfold Vec.erase_range. rewrite E. cbn [mbind result_bind]. exists h', (take (Z.to_nat lo) l ++ drop (Z.to_nat hi) l).
  split_and!; [| done | done | done | | done].
  - unfold mret, result_ret. do 2 f_equal. lia.
  - pose proof (take_drop_zlen l lo ltac:(lia)) as (_ & E1 & _). pose proof (take_drop_zlen l hi ltac:(lia)) as (_ & _ & E2).
    rewrite zlen_app. lia.
Qed.

Lemma std_find_ok l id : std_find l id = bool_decide (id ∈ l).
Proof.
  unfold std_find. destruct (existsb (Z.eqb id) l) eqn:E; symmetry.
  - apply existsb_exists in E as (x & Hx & ->%Z.eqb_eq). apply bool_decide_eq_true_2. by apply list_elem_of_In.
  - apply bool_decide_eq_false_2. intros Hin. apply list_elem_of_In in Hin.
    assert (existsb (Z.eqb id) l = true); [| congruence]. apply existsb_exists. exists id. by rewrite Z.eqb_refl.
Qed.

(** Strictly sorted lists are determined by their elements. *)
Lemma ssorted_NoDup l : ssorted l -> NoDup l.
Proof.
  induction 1 as [| a l H IH Hl]; constructor; [| done]. intros Ha. rewrite Forall_forall in Hl. specialize (Hl a Ha). lia.
Qed.

Lemma ssorted_unique l k : ssorted l -> ssorted k -> (forall x, x ∈ l <-> x ∈ k) -> l = k.
Proof.
  intros Hl. revert k. induction Hl as [| a l Hl IH Ha]; intros k Hk Hx.
  - destruct k as [| b k]; [done |]. exfalso. apply (not_elem_of_nil b), Hx. by left.
  - destruct Hk as [| b k Hk Hb]. { exfalso. apply (not_elem_of_nil a), Hx. by left. }
    rewrite Forall_forall in Ha, Hb.
    assert (a = b) as ->.
    { pose proof (proj1 (Hx a) ltac:(by left)) as H1. pose proof (proj2 (Hx b) ltac:(by left)) as H2.
      apply elem_of_cons in H1 as [-> | H1%Hb]; [done |]. apply elem_of_cons in H2 as [-> | H2%Ha]; [done | lia]. }
    f_equal. apply IH; [done |]. intros x. specialize (Hx x). rewrite !elem_of_cons in Hx.
    split; intros Hin; (assert (x <> b) by (intros ->; (apply Ha in Hin || apply Hb in Hin); lia)); tauto.
Qed.

Lemma zlen_subset (l k : list Z) : NoDup l -> (forall x, x ∈ l -> x ∈ k) -> zlen l <= zlen k.
Proof. intros Hl Hx. unfold zlen. pose proof (submseteq_length _ _ (NoDup_submseteq l k Hl Hx)). lia. Qed.

(** ** The id set is a set *)

Section Refine.
Context {S : Type} `{HB : BtreeSet S} {HL : BtreeSetLaws S}.

(** The set holds the ids of the list [l]. *)
Definition rep (s : IdSet S) (l : list Z) : Prop :=
  ssorted l /\
  match set_ s, mark s with
  | None, false => vec (plain s) l /\ zlen l <= kMaxPlainIdsetSize
  | Some b, true => vec (plain s) [] /\ b_elements b = l
  | Some b, false => vec (plain s) l /\ b_elements b = l
  | None, true => False
  end.

(** A committed set has room for its sort orders. *)
Definition room (s : IdSet S) (l : list Z) (cnt : Z) : Prop :=
  mark s = false -> zlen l * (cnt + 1) <= Vec.capacity (plain s).

Lemma rep_plain s l : rep s l -> mark s = false -> vec (plain s) l.
Proof. intros [_ Hr] Hm. rewrite Hm in Hr. destruct (set_ s); tauto. Qed.

Lemma rep_tree h b : vec h [] -> rep (mk_idset h (Some b) true) (b_elements b).
Proof. intros Hh. split; [apply b_sorted | by split]. Qed.

Lemma room_tree h (b : option S) l cnt : room (mk_idset h b true) l cnt.
Proof. done. Qed.

Lemma Vec_clear_ok b h l : vec h l -> exists h', Vec.clear b h = Ok h' /\ vec h' [].
Proof. intros Hh. destruct (clear_ok kHoldSize true kHold_ok b h l Hh) as (h' & E & Hh' & _). by exists h'. Qed.

Lemma insert_list y b l : b_elements b = l ->
  let l' := b_elements (fst (b_insert y b)) in
  ssorted l' /\ (forall x, x ∈ l' <-> x = y \/ x ∈ l) /\ zlen l' <= zlen l + 1.
Proof.
  intros <-. cbn. split_and!; [apply b_sorted | intros x; apply b_elem_insert |].
  rewrite Z.add_comm, <- (zlen_cons y). apply zlen_subset; [apply ssorted_NoDup, b_sorted |].
  intros x. rewrite b_elem_insert, elem_of_cons. tauto.
Qed.

Lemma Add_ok id cnt s l : rep s l -> 0 <= cnt < 2 ^ 31 -> (zlen l + 1) * (cnt + 1) < 2 ^ 32 ->
  (exists s' l', Add id cnt s = Ok (bool_decide (id ∉ l), s') /\ rep s' l' /\ room s' l' cnt /\
     (forall x, x ∈ l' <-> x = id \/ x ∈ l) /\ zlen l' <= zlen l + 1) \/
  max_size < 2 * ((zlen l + 1) * (cnt + 1)) /\ Add id cnt s = Fail (Throw errLogic).
Proof.
  intros [Hs Hr] Hc Hn. unfold Add.
  assert (forall b h l0, vec h l0 -> b_elements b = l -> exists s' l',
    (s ← (h ← Vec.clear true h; mret (mk_idset h (Some b) true));
     let (b, inserted) := b_insert id b in mret (inserted, mk_idset (plain s) (Some b) (mark s)))
    = Ok (bool_decide (id ∉ l), s') /\ rep s' l' /\ room s' l' cnt /\ (forall x, x ∈ l' <-> x = id \/ x ∈ l) /\ zlen l' <= zlen l + 1)
    as Htree.
  { intros b h l0 Hh Eb. destruct (Vec_clear_ok true h l0 Hh) as (h' & -> & Hh'). cbn [mbind result_bind].
    pose proof (insert_list id b l Eb) as (Hs' & Hx & Hz). pose proof (b_insert_new id b) as Hnew. rewrite Eb in Hnew.
    destruct (b_insert id b) as [b' ins]. cbn in *. rewrite Hnew.
    eexists _, (b_elements b'). split; [done |]. split; [by apply rep_tree |]. by split; [apply room_tree |]. }
  destruct (set_ s) as [b |] eqn:Eset, (mark s) eqn:Em; [| | done |].
  - rewrite ?Eset, ?Em. destruct Hr as [Hp Eb]. cbn [mbind result_bind]. left.
    pose proof (insert_list id b l Eb) as (Hs' & Hx & Hz). pose proof (b_insert_new id b) as Hnew. rewrite Eb in Hnew.
    destruct (b_insert id b) as [b' ins]. cbn in *. rewrite Hnew.
    eexists _, (b_elements b'). rewrite ?Em. split; [done |]. split; [by apply rep_tree |]. by split; [apply room_tree |].
  - rewrite ?Eset. destruct Hr as [Hp Eb]. left. by apply (Htree b (plain s) l).
  - destruct Hr as [Hp Hmax]. rewrite (vec_size _ _ Hp), (vec_elements _ _ Hp).
    destruct (Z.leb_spec kMaxPlainIdsetSize (zlen l)) as [Hk | Hk]; cbn [set_ mark plain].
    + left. apply (Htree (b_of_list l) (plain s) l Hp). apply ssorted_unique; [apply b_sorted | done | apply b_elem_of_list].
    + rewrite ?Eset, ?Em. destruct (Plain_Add_ok id cnt (plain s) l Hp Hs Hc Hn) as [(h' & l' & -> & Hh' & Hs' & Hx & Hz & Hroom) | [Hgt ->]];
        [left | by right]. cbn [mbind result_bind fst snd].
      exists (mk_idset h' None false), l'.
      split; [done |]. split; [split; [done |]; cbn; split; [done | lia] |].
      split; [intros _; exact Hroom | done].
Qed.

Lemma Erase_ok id s l cnt : rep s l -> room s l cnt -> 0 <= cnt ->
  exists s' l' n, Erase id s = Ok (n, s') /\ rep s' l' /\ room s' l' cnt /\
    (forall x, x ∈ l' <-> x <> id /\ x ∈ l) /\ zlen l' <= zlen l /\
    n = (match set_ s with None => -1 | Some _ => 1 end) * b2z (bool_decide (id ∈ l)).
Proof.
  intros [Hs Hr] Hroom Hc. unfold Erase. destruct (set_ s) as [b |] eqn:Eset.
  - assert (exists l0, vec (plain s) l0) as [l0 Hp] by (destruct (mark s); destruct Hr; eauto).
    assert (b_elements b = l) as Eb by (destruct (mark s); tauto).
    destruct (Vec_clear_ok false (plain s) l0 Hp) as (h' & -> & Hh'). cbn [mbind result_bind].
    pose proof (b_elem_erase id b) as Hx. pose proof (b_erase_count id b) as Hn. rewrite Eb in Hn.
    destruct (b_erase id b) as [b' n]. cbn in *.
    eexists _, (b_elements b'), n. split; [done |]. split; [by apply rep_tree |]. split; [apply room_tree |].
    split; [by rewrite <- Eb |]. split.
    + apply zlen_subset; [apply ssorted_NoDup, b_sorted |]. intros x. rewrite Hx, Eb. tauto.
    + rewrite Hn. by case_bool_decide.
  - destruct (mark s) eqn:Em; [done |]. destruct Hr as [Hp Hmax].
    destruct (Plain_Erase_ok id (plain s) l Hp Hs) as (h' & l' & -> & Hh' & Hs' & Hx & Hz & Ec). cbn [mbind result_bind fst snd].
    eexists _, l', _. split; [done |]. split; [split; [done |]; cbn; split; [done | lia] |].
    split; [| split; [done | split; [done | lia]]]. intros _. cbn. rewrite Ec. specialize (Hroom Em). nia.
Qed.

(** Reading the set. *)
Lemma idset_range_ok s l : rep s l -> idset_range s = Ok l.
Proof.
  intros [_ Hr]. unfold idset_range. destruct (set_ s) as [b |], (mark s); try done; destruct Hr as [Hp Hb];
    rewrite ?Hb, ?(vec_elements _ _ Hp); done.
Qed.

Lemma Size_ok s l : rep s l -> Size s = Ok (zlen l).
Proof.
  intros [_ Hr]. unfold Size, b_size. destruct (set_ s) as [b |], (mark s); try done; destruct Hr as [Hp Hb];
    rewrite ?Hb, ?(vec_size _ _ Hp); done.
Qed.

Lemma Find_ok id s l : rep s l -> Find id s = bool_decide (id ∈ l).
Proof.
  intros [_ Hr]. unfold Find. destruct (set_ s) as [b |].
  - rewrite b_find_elem. destruct (mark s); by destruct Hr as [_ ->].
  - destruct (mark s); [done |]. destruct Hr as [Hp _]. by rewrite (vec_elements _ _ Hp), std_find_ok.
Qed.

(** *** Committing *)

Definition push_step (id : Z) (s : IdSet S) : result (IdSet S) :=
  h ← Vec.push_back id (plain s); mret (mk_idset h (set_ s) (mark s)).

Lemma pushes_ok l2 s l1 : vec (plain s) l1 -> zlen l1 + zlen l2 <= Vec.capacity (plain s) ->
  exists h, run_steps (map push_step l2) s = Ok (mk_idset h (set_ s) (mark s)) /\ vec h (l1 ++ l2) /\
    Vec.capacity h = Vec.capacity (plain s).
Proof.
  revert s l1. induction l2 as [| id l2 IH]; intros s l1 Hp Hc; cbn.
  { exists (plain s). rewrite app_nil_r. by destruct s. }
  rewrite zlen_cons in Hc. pose proof (zlen_nonneg l2). pose proof (vec_room _ _ Hp).
  destruct (push_back_ok kHoldSize true kHold_ok id (plain s) l1 Hp) as (h1 & E & Hh1 & Ec); [lia |].
  rewrite <- (Vec_capacity h1), <- (Vec_capacity (plain s)) in Ec. unfold grown in Ec. rewrite (proj2 (Z.ltb_ge _ _)) in Ec by lia.
  change (push_step id s) with (h ← push_back kHoldSize id (plain s); mret (mk_idset h (set_ s) (mark s))). rewrite E. cbn [mbind result_bind].
  destruct (IH (mk_idset h1 (set_ s) (mark s)) (l1 ++ [id])) as (h2 & E2 & Hh2 & Ec2); [done | |].
  { cbn [plain]. rewrite zlen_app, Ec. change (zlen [id]) with 1. lia. }
  exists h2. rewrite <- app_assoc in Hh2. cbn [plain set_ mark] in *. split_and!; [done | done | congruence].
Qed.

Lemma run_steps_app (f g : list (IdSet S -> result (IdSet S))) s :
  run_steps (f ++ g) s = (s ← run_steps f s; run_steps g s).
Proof. revert s. induction f as [| x f IH]; intros s; cbn; [done |]. destruct (x s); cbn; [apply IH | done]. Qed.

Definition reserve_step (b : S) (cnt : Z) (s : IdSet S) : result (IdSet S) :=
  h ← Vec.reserve (calcPlainReserveSize (b_size b) cnt) (plain s); mret (mk_idset h (set_ s) (mark s)).

Definition mark_step (s : IdSet S) : result (IdSet S) := mret (setUsingBtree false s).

(** A commit copies the tree, or finds the vector up to date. *)
Lemma commit_cases cnt s l : rep s l ->
  (exists b, set_ s = Some b /\ b_elements b = l /\ vec (plain s) [] /\ (mark s = false -> l = []) /\
     commit_steps cnt s = reserve_step b cnt :: map push_step l ++ [mark_step]) \/
  mark s = false /\ commit_steps cnt s = [mark_step].
Proof.
  intros [Hs Hr]. unfold commit_steps. destruct (Z.eqb_spec (size_ (plain s)) 0) as [Ez | Ez].
  - destruct (set_ s) as [b |]; [left | right; by destruct (mark s)]. exists b.
    assert (b_elements b = l) as <- by (destruct (mark s); tauto).
    destruct (mark s); destruct Hr as [Hp _]; [done |]. rewrite (vec_size _ _ Hp) in Ez.
    assert (b_elements b = []) as E by (apply length_zero_iff_nil; unfold zlen in Ez; lia).
    rewrite E in *. done.
  - right. split; [| done]. destruct (set_ s), (mark s); try done. destruct Hr as [Hp _]. by rewrite (vec_size _ _ Hp) in Ez.
Qed.

Lemma reserve_step_ok b cnt s l : b_elements b = l -> vec (plain s) [] -> 0 <= cnt ->
  zlen l * (cnt + 1) <= max_size -> cnt + 1 < 2 ^ 32 ->
  exists h, reserve_step b cnt s = Ok (mk_idset h (set_ s) (mark s)) /\ vec h [] /\ zlen l * (cnt + 1) <= Vec.capacity h.
Proof.
  intros <- Hp Hc Hm Hc2. unfold reserve_step, b_size. assert (max_size = 2 ^ 31 - 1) as Hms by reflexivity.
  pose proof (zlen_nonneg (b_elements b)). rewrite calc_ok by lia.
  destruct (Vec_reserve_ok (zlen (b_elements b) * (cnt + 1)) (plain s) [] Hp) as [(_ & h & -> & Hh & Ec) | [? _]]; [| lia].
  exists h. split_and!; [done | done | lia].
Qed.

Lemma setUsingBtree_id (s : IdSet S) : mark s = false -> setUsingBtree false s = s.
Proof. destruct s; cbn. by intros ->. Qed.

Lemma Commit_ok cnt s l : rep s l -> 0 <= cnt -> zlen l * (cnt + 1) <= max_size -> cnt + 1 < 2 ^ 32 ->
  room s l cnt ->
  exists s', Commit cnt s = Ok s' /\ rep s' l /\ room s' l cnt /\ mark s' = false /\ set_ s' = set_ s.
Proof.
  intros Hrep Hc Hm Hc2 Hroom. unfold Commit.
  destruct (commit_cases cnt s l Hrep) as [(b & Es & Eb & Hp & _ & ->) | [Em ->]]; cbn [run_steps].
  - destruct (reserve_step_ok b cnt s l) as (h1 & -> & Hh1 & Hc1); [done.. |]. cbn [mbind result_bind]. rewrite run_steps_app.
    pose proof (zlen_nonneg l).
    destruct (pushes_ok l (mk_idset h1 (set_ s) (mark s)) []) as (h2 & -> & Hh2 & Ec2); [done | cbn; change (zlen []) with 0; nia |].
    eexists. split; [done |]. cbn in *. rewrite Es. split; [| split; [intros _; cbn; lia | done]].
    split; [apply Hrep | done].
  - eexists. split; [done |]. by rewrite setUsingBtree_id.
Qed.

(** What readers see of a set: its ids, their number and its tree. *)
Definition readable (s : IdSet S) (l : list Z) : Prop :=
  idset_range s = Ok l /\ Size s = Ok (zlen l) /\ (forall b, BTree s = Some b -> b_elements b = l).

Lemma rep_readable s l : rep s l -> readable s l.
Proof.
  intros Hrep. split_and!; [by apply idset_range_ok | by apply Size_ok |]. destruct Hrep as [_ Hr].
  unfold BTree. intros b Hb. destruct (mark s); [| done]. rewrite Hb in Hr. tauto.
Qed.

(** A prefix of the steps of a commit: what readers see does not change, nor does the tree. *)
Lemma commit_prefix cnt s l k : rep s l -> 0 <= cnt -> zlen l * (cnt + 1) <= max_size -> cnt + 1 < 2 ^ 32 ->
  exists s', run_steps (take k (commit_steps cnt s)) s = Ok s' /\ set_ s' = set_ s /\ readable s' l.
Proof.
  intros Hrep Hc Hm Hc2. pose proof (rep_readable s l Hrep) as Hread.
  destruct (commit_cases cnt s l Hrep) as [(b & Es & Eb & Hp & Hl & ->) | [Em ->]].
  2: { exists s. destruct k as [| k]; cbn; [done |]. rewrite take_nil. cbn. by rewrite setUsingBtree_id. }
  destruct k as [| k]; [by exists s |]. cbn [take run_steps].
  destruct (reserve_step_ok b cnt s l) as (h1 & -> & Hh1 & Hc1); [done.. |]. cbn [mbind result_bind].
  rewrite take_app, run_steps_app, firstn_map, length_map.
  destruct (pushes_ok (take k l) (mk_idset h1 (set_ s) (mark s)) []) as (h2 & -> & Hh2 & _); [done | |].
  { pose proof (zlen_nonneg l). assert (zlen (take k l) <= zlen l) by (unfold zlen; rewrite length_take; lia). cbn. change (zlen []) with 0. nia. }
  cbn [mbind result_bind plain set_ mark app] in *.
  destruct (k - length l)%nat as [| n] eqn:Ek; cbn [take run_steps mbind result_bind].
  - eexists. split; [done |]. split; [done |]. unfold readable, idset_range, Size, BTree, b_size. cbn. rewrite Es.
    destruct (mark s); [rewrite Eb; split_and!; [done | done | by intros ? [= <-]] |].
    rewrite (Hl eq_refl), take_nil in *. by rewrite (vec_elements _ _ Hh2), (vec_size _ _ Hh2).
  - rewrite take_nil. cbn. rewrite take_ge in Hh2 by lia. eexists. split; [done |]. split; [done |].
    unfold readable, idset_range, Size. cbn. by rewrite (vec_elements _ _ Hh2), (vec_size _ _ Hh2).
Qed.

Lemma OnSortedIndexCountChanged_ok cnt s l : rep s l -> 0 <= cnt -> zlen l * (cnt + 1) <= max_size -> cnt + 1 < 2 ^ 32 ->
  exists s', OnSortedIndexCountChanged cnt s = Ok s' /\ rep s' l /\ room s' l cnt.
Proof.
  intros Hrep Hc Hm Hc2. pose proof Hrep as [Hs Hr]. unfold OnSortedIndexCountChanged.
  destruct (mark s) eqn:Em. { exists s. split; [done |]. split; [done |]. unfold room. by rewrite Em. }
  assert (vec (plain s) l) as Hp by by apply rep_plain. assert (max_size = 2 ^ 31 - 1) as Hms by reflexivity.
  assert (exists h, Plain_OnSortedIndexCountChanged cnt (plain s) = Ok h /\ vec h l /\ zlen l * (cnt + 1) <= Vec.capacity h) as (h & -> & Hh & Hcap).
  { unfold Plain_OnSortedIndexCountChanged. destruct (Z.eqb_spec cnt 0) as [-> | Hne]; cbn [negb].
    - destruct (shrink_to_fit_ok kHoldSize true (fun x => x) 0 kHold_ok (plain s) l Hp eq_refl) as (h & E & Hh & _).
      exists h. split_and!; [done | done |]. pose proof (vec_room h l Hh). lia.
    - rewrite (vec_size _ _ Hp). pose proof (zlen_nonneg l). rewrite calc_ok by lia.
      destruct (Vec_reserve_ok (zlen l * (cnt + 1)) (plain s) l Hp) as [(_ & h & E & Hh & Ec) | [? _]]; [| lia].
      exists h. split_and!; [done | done | lia]. }
  cbn. eexists. split; [done |]. split; [| by intros _]. split; [done |]. cbn. destruct (set_ s); destruct Hr; by split.
Qed.

(** *** Sequences of operations *)

(** The writers of a namespace, under its lock; [cnt] is the number of sorted indexes. *)
Inductive idset_op : Type :=
| Op_Add (id : Z) | Op_Erase (id : Z) | Op_Commit | Op_SortedIndexes (cnt : Z).

(** What a call answers. *)
Inductive answer : Type := Added (inserted : bool) | Erased (count : Z) | Done.

(** The count of sorted indexes, and the set. *)
Definition idset_run (o : idset_op) (st : Z * IdSet S) : result (answer * (Z * IdSet S)) :=
  let (cnt, s) := st in
  match o with
  | Op_Add id => p ← Add id cnt s; mret (Added (fst p), (cnt, snd p))
  | Op_Erase id => p ← Erase id s; mret (Erased (fst p), (cnt, snd p))
  | Op_Commit => s ← Commit cnt s; mret (Done, (cnt, s))
  | Op_SortedIndexes cnt => s ← OnSortedIndexCountChanged cnt s; mret (Done, (cnt, s))
  end.

Fixpoint idset_runs (os : list idset_op) (st : Z * IdSet S) : result (list answer * (Z * IdSet S)) :=
  match os with
  | [] => Ok ([], st)
  | o :: os => p ← idset_run o st; q ← idset_runs os (snd p); mret (fst p :: fst q, snd q)
  end.

(** The same on a mathematical set; [st_tree] tells that an id was added when there were
    [kMaxPlainIdsetSize] of them already, after which the set keeps a tree. *)
Record set_state : Type := mk_state { st_cnt : Z; st_ids : gset Z; st_tree : bool }.

(** An erase answers the count of the erased ids, or minus this count while there is no tree. *)
Definition idset_spec (o : idset_op) (st : set_state) : answer * set_state :=
  let 'mk_state cnt X tree := st in
  match o with
  | Op_Add id => (Added (bool_decide (id ∉ X)), mk_state cnt ({[id]} ∪ X) (tree || (kMaxPlainIdsetSize <=? Z.of_nat (base.size X))))
  | Op_Erase id => (Erased ((if tree then 1 else -1) * b2z (bool_decide (id ∈ X))), mk_state cnt (X ∖ {[id]}) tree)
  | Op_Commit => (Done, st)
  | Op_SortedIndexes cnt => (Done, mk_state cnt X tree)
  end.

Fixpoint idset_specs (os : list idset_op) (st : set_state) : list answer * set_state :=
  match os with
  | [] => ([], st)
  | o :: os => let p := idset_spec o st in let q := idset_specs os (snd p) in (fst p :: fst q, snd q)
  end.

(** All the counts of sorted indexes are below [m]. *)
Definition op_fits (m : Z) (o : idset_op) : Prop :=
  match o with Op_SortedIndexes cnt => 0 <= cnt < m | _ => True end.

Definition has_tree (s : IdSet S) : bool := match set_ s with Some _ => true | None => false end.

(** The trees come with an add to a big set, and stay. *)
Lemma Add_tree id cnt s b s' : Add id cnt s = Ok (b, s') ->
  has_tree s' = has_tree s || (kMaxPlainIdsetSize <=? size_ (plain s)).
Proof.
  destruct s as [h [t |] u]; unfold Add, has_tree; cbn [set_ plain mark].
  - destruct u; cbn [mbind result_bind].
    + cbn [set_]. destruct (b_insert id t). by intros [= _ <-].
    + cbn [set_]. destruct (Vec.clear true h); [| done]. cbn [mbind result_bind]. destruct (b_insert id t). by intros [= _ <-].
  - destruct (kMaxPlainIdsetSize <=? size_ h); cbn [set_ plain mark].
    + destruct u; cbn [mbind result_bind]; [| destruct (Vec.clear true h); [| done]; cbn [mbind result_bind]];
        destruct (b_insert id (b_of_list (elements h))); by intros [= _ <-].
    + destruct (Plain_Add id cnt h); [| done]. by intros [= _ <-].
Qed.

Lemma Erase_tree id s n s' : Erase id s = Ok (n, s') -> has_tree s' = has_tree s.
Proof.
  unfold Erase, has_tree. destruct (set_ s) as [t |].
  - destruct (Vec.clear false (plain s)); [| done]. cbn. destruct (b_erase id t). by intros [= _ <-].
  - destruct (Plain_Erase id (plain s)); [| done]. by intros [= _ <-].
Qed.

Lemma OnSortedIndexCountChanged_tree cnt s s' : OnSortedIndexCountChanged cnt s = Ok s' -> has_tree s' = has_tree s.
Proof.
  unfold OnSortedIndexCountChanged, has_tree. destruct (mark s); [by intros [= <-] |].
  destruct (Plain_OnSortedIndexCountChanged cnt (plain s)); [| done]. by intros [= <-].
Qed.

(** The state stands for a set, in any of its representations. *)
Definition idset_inv (st : Z * IdSet S) (X : set_state) (n : Z) : Prop :=
  exists l, rep (snd st) l /\ room (snd st) l (fst st) /\ (forall x, x ∈ l <-> x ∈ st_ids X) /\ zlen l <= n /\
    fst st = st_cnt X /\ has_tree (snd st) = st_tree X.

Lemma size_list l (X : gset Z) : NoDup l -> (forall x, x ∈ l <-> x ∈ X) -> Z.of_nat (base.size X) = zlen l.
Proof.
  intros Hn Hx. unfold zlen. f_equal. rewrite <- (size_list_to_set (C := gset Z) l Hn). f_equal.
  apply leibniz_equiv. intros x. rewrite elem_of_list_to_set. symmetry. apply Hx.
Qed.

Lemma idset_run_ok m o cnt s X n : idset_inv (cnt, s) X n -> op_fits m o -> 0 <= cnt < m -> 0 <= n ->
  2 * ((n + 1) * m) <= max_size ->
  exists st', idset_run o (cnt, s) = Ok (fst (idset_spec o X), st') /\
     0 <= fst st' < m /\ idset_inv st' (snd (idset_spec o X)) (n + 1).
Proof.
  destruct X as [cnt0 X tree]. intros (l & Hrep & Hroom & Hx & Hz & Ecnt & Ht) Ho Hc Hn Hm. cbn [fst snd st_cnt st_ids st_tree] in *. subst cnt0.
  pose proof (zlen_nonneg l). assert (max_size = 2 ^ 31 - 1) as Hms by reflexivity.
  assert (m <= max_size) by nia. assert (zlen l * (cnt + 1) <= max_size) by nia.
  destruct o as [id | id | | cnt']; cbn [idset_run idset_spec fst snd].
  - destruct (Add_ok id cnt s l Hrep) as [(s' & l' & E & E1 & E2 & E3 & E4) | [? _]]; [lia | nia | | nia].
    pose proof (Add_tree _ _ _ _ _ E) as Ht'. rewrite E. cbn [mbind result_bind fst snd]. rewrite (bool_decide_ext (id ∉ l) (id ∉ X)) by (by rewrite Hx).
    eexists. split; [done |]. split; [done |]. exists l'. cbn [fst snd st_cnt st_ids st_tree]. split_and!; [apply E1.. | done | | lia | done |].
    + intros x. rewrite E3, Hx. set_solver.
    + rewrite Ht', <- Ht, (size_list l X); [| by apply ssorted_NoDup, Hrep | done]. unfold has_tree.
      destruct Hrep as [_ Hr]. destruct (set_ s); [done |]. destruct (mark s); [done |]. by rewrite (vec_size _ _ (proj1 Hr)).
  - destruct (Erase_ok id s l cnt Hrep Hroom) as (s' & l' & k & E & E1 & E2 & E3 & E4 & ->); [lia |].
    pose proof (Erase_tree _ _ _ _ E) as Ht'. rewrite E. cbn [mbind result_bind fst snd]. rewrite (bool_decide_ext (id ∈ X) (id ∈ l)) by (by rewrite Hx).
    eexists. split; [do 4 f_equal; rewrite <- Ht; unfold has_tree; by destruct (set_ s) |]. split; [done |].
    exists l'. cbn [fst snd st_cnt st_ids st_tree]. split_and!; [apply E1.. | done | | lia | done | by rewrite Ht'].
    intros x. rewrite E3, Hx. set_solver.
  - destruct (Commit_ok cnt s l Hrep) as (s' & E & E1 & E2 & _ & E3); [lia | lia | lia | done |]. rewrite E.
    cbn [mbind result_bind]. eexists. split; [done |]. split; [done |]. exists l. cbn [fst snd st_cnt st_ids st_tree].
    split_and!; [apply E1.. | done | done | lia | done |]. unfold has_tree in *. by rewrite E3.
  - cbn in Ho. destruct (OnSortedIndexCountChanged_ok cnt' s l Hrep) as (s' & E & E1 & E2); [lia | nia | lia |].
    pose proof (OnSortedIndexCountChanged_tree _ _ _ E) as Ht'. rewrite E. cbn [mbind result_bind]. eexists. split; [done |]. split; [done |].
    exists l. cbn [fst snd st_cnt st_ids st_tree]. split_and!; [apply E1.. | done | done | lia | done | by rewrite Ht'].
Qed.

Lemma idset_runs_ok m os : forall cnt s X n, idset_inv (cnt, s) X n -> Forall (op_fits m) os -> 0 <= cnt < m -> 0 <= n ->
  2 * ((n + zlen os) * m) <= max_size ->
  exists st', idset_runs os (cnt, s) = Ok (fst (idset_specs os X), st') /\ idset_inv st' (snd (idset_specs os X)) (n + zlen os).
Proof.
  induction os as [| o os IH]; intros cnt s X n Hinv Hf Hc Hn Hm.
  { eexists. split; [done |]. by rewrite zlen_nil, Z.add_0_r. }
  apply Forall_cons in Hf as [Ho Hf]. rewrite zlen_cons in Hm. pose proof (zlen_nonneg os).
  cbn [idset_runs idset_specs].
  destruct (idset_run_ok m o cnt s X n Hinv Ho Hc Hn) as ([cnt' s'] & -> & Hc' & Hinv'); [nia |].
  cbn [mbind result_bind fst snd] in *. destruct (idset_spec o X) as [b X']. cbn [fst snd] in *.
  destruct (IH cnt' s' X' (n + 1) Hinv' Hf Hc') as (st' & -> & Hinv2); [lia | lia |].
  cbn [mbind result_bind fst snd]. exists st'. split; [done |]. rewrite zlen_cons.
  by replace (n + (1 + zlen os)) with (n + 1 + zlen os) by lia.
Qed.

End Refine.

Definition no_ids : set_state := mk_state 0 ∅ false.

Lemma idset_make_ok {S} `{BtreeSetLaws S} n : 0 <= n -> idset_inv (S := S) (0, IdSet_make) no_ids n.
Proof.
  intros Hn. exists []. split; [| split; [| split; [set_solver | by split_and!]]].
  - split; [constructor |]. cbn. split; [apply hv_make, kHold_ok | done].
  - intros _. by vm_compute.
Qed.

(** C17: an id set is a set, whatever its representation. After any adds, erases, commits and
    changes of the number of sorted indexes, as long as twice the places of all the ids with their
    sort orders fit in a vector, every call succeeds and answers as a mathematical set does: an
    add tells whether the id is new, an erase counts the erased ids, downwards while the set has no
    tree (the comment of the code promises the count itself). The ids in their order, the size and
    the lookups are those of the set; the ids are strictly ascending, and a committed set has the
    room that its sort orders need. *)
Theorem idset_is_set {S} `{BtreeSetLaws S} m os : Forall (op_fits m) os -> 1 <= m -> 2 * (zlen os * m) <= max_size ->
  exists cnt s l X tree, idset_runs os (0, IdSet_make (S := S)) = Ok (fst (idset_specs os no_ids), (cnt, s)) /\
    snd (idset_specs os no_ids) = mk_state cnt X tree /\ StronglySorted Z.lt l /\ (forall x, x ∈ l <-> x ∈ X) /\
    idset_range s = Ok l /\ Size s = Ok (zlen l) /\ (forall id, Find id s = bool_decide (id ∈ X)) /\
    (IsCommitted s = true -> vec (plain s) l /\ zlen l * (cnt + 1) <= Vec.capacity (plain s)).
Proof.
  intros Hf Hm Hs. destruct (idset_runs_ok m os 0 IdSet_make no_ids 0) as ([cnt s] & E & l & Hrep & Hroom & Hx & _ & Ec & Et);
    [by apply idset_make_ok | done | lia | lia | by rewrite Z.add_0_l |].
  exists cnt, s, l. destruct (idset_specs os no_ids) as [out [cnt2 X tree]]. cbn [fst snd st_cnt st_ids st_tree] in *. subst cnt2.
  exists X, tree. split_and!; [done | done | apply Hrep | done | by apply idset_range_ok | by apply Size_ok | |].
  - intros id. rewrite (Find_ok id s l Hrep). by apply bool_decide_ext.
  - unfold IsCommitted. intros Hc. assert (mark s = false) as Em by (by destruct (mark s)).
    split; [by apply rep_plain | by apply Hroom].
Qed.

(** C18: readers during a commit. [Commit] runs in the background beside queries; after any
    number of its steps (the reservation, each copied id, the change of the mark) a reader that
    loads the atomic word sees all the ids of the set, the right size, and a tree, if it is given
    one, with these ids; the tree is never replaced or freed, so a reader that took it before goes on.
    The whole commit leaves the set committed, with room for the sort orders. *)
Theorem commit_readers {S} `{BtreeSetLaws S} cnt (s : IdSet S) l k : rep s l -> room s l cnt ->
  0 <= cnt < 2 ^ 31 -> zlen l * (cnt + 1) <= max_size ->
  (exists s', run_steps (take k (commit_steps cnt s)) s = Ok s' /\ set_ s' = set_ s /\ readable s' l) /\
  (exists s', Commit cnt s = Ok s' /\ rep s' l /\ IsCommitted s' = true /\ room s' l cnt).
Proof.
  intros Hrep Hroom Hc Hm. split; [apply commit_prefix; done || lia |].
  destruct (Commit_ok cnt s l Hrep) as (s' & E & H1 & H2 & H3 & _); [lia | done | lia | done |].
  exists s'. unfold IsCommitted. rewrite H3. split; [done |]. by split.
Qed.

(** ** Sort orders *)

Lemma read_ids_ok l : forall p h, (forall k x, l !! k = Some x -> znth (mem h) (p + Z.of_nat k) = Some (Some x)) ->
  read_ids (length l) p h = Ok l.
Proof.
  induction l as [| y l IH]; intros p h Hl; [done |]. cbn [length read_ids].
  pose proof (Hl 0%nat y eq_refl) as Hy. rewrite Z.add_0_r in Hy. unfold rd. rewrite Hy. cbn [mbind result_bind].
  rewrite IH; [done |]. intros k x Hk. rewrite <- (Hl (Datatypes.S k) x Hk). f_equal. lia.
Qed.

Lemma read_ids_ext n p h h' : (forall i, p <= i < p + Z.of_nat n -> znth (mem h') i = znth (mem h) i) ->
  read_ids n p h' = read_ids n p h.
Proof.
  revert p. induction n as [| n IH]; intros p Hi; [done |]. cbn [read_ids]. unfold rd. rewrite Hi by lia.
  rewrite IH by (intros; apply Hi; lia). done.
Qed.

(** Writing behind the elements. *)
Lemma vec_prefix h h' l : vec h l -> size_ h' = size_ h -> is_hdata_ h' = is_hdata_ h -> zlen (mem h') = zlen (mem h) ->
  (forall i, 0 <= i < zlen l -> znth (mem h') i = znth (mem h) i) -> vec h' l /\ Vec.capacity h' = Vec.capacity h.
Proof.
  intros (sp & Em & Hsz & _ & Hb) Hs Hd Hz Hi. split.
  - exists (drop (length l) (mem h')). split_and!; [| by rewrite Hs | done | by rewrite Hd, Hz].
    rewrite <- (take_drop (length l) (mem h')) at 1. f_equal. apply list_eq. intros i.
    destruct (decide (i < length l)%nat) as [Hlt | Hlt].
    + rewrite lookup_take_lt, list_lookup_fmap by done. rewrite <- znth_lookup, Hi by (unfold zlen; lia).
      rewrite Em, znth_app_l by (rewrite zlen_fmap; unfold zlen; lia). by rewrite znth_lookup, list_lookup_fmap.
    + rewrite lookup_take_ge, list_lookup_fmap by lia. by rewrite (proj2 (lookup_ge_None l i)) by lia.
  - unfold Vec.capacity, HVector.capacity. by rewrite Hd, Hz.
Qed.

Lemma zlen_Some_map (f : Z -> Z) l : zlen (Some <$> map f l) = zlen l.
Proof. rewrite zlen_fmap. unfold zlen. by rewrite length_map. Qed.

(** The loop that writes the places of the ids of [l] in the order of an index behind them. *)
Lemma fill_sorted_ok f (places : list Z) p l2 : forall l1 h, vec h (l1 ++ l2) -> zlen l1 + zlen l2 <= p ->
  p + (zlen l1 + zlen l2) <= zlen (mem h) ->
  (forall id, id ∈ l2 -> 0 <= id < zlen places /\ znth places id = Some (f id)) ->
  exists h', fill_sorted (length l2) (zlen l1) p places h = Ok h' /\ vec h' (l1 ++ l2) /\
    size_ h' = size_ h /\ is_hdata_ h' = is_hdata_ h /\
    mem h' = zblit (mem h) (p + zlen l1) (Some <$> map f l2).
Proof.
  induction l2 as [| id l2 IH]; intros l1 h Hh Hp Hroom Hf.
  { exists h. split_and!; [done | done | done | done |]. cbn. unfold zblit. cbn. change (zlen []) with 0 in *.
    rewrite Z.add_0_r. unfold zslice. cbn. rewrite drop_0, take_drop. done. }
  rewrite zlen_cons in *. pose proof (zlen_nonneg l1). pose proof (zlen_nonneg l2). cbn [length fill_sorted].
  destruct (rd_hv kHoldSize true h (l1 ++ id :: l2) (zlen l1) Hh) as (x & Hx & ->); [rewrite zlen_app, zlen_cons; lia |].
  rewrite znth_mid in Hx by done. injection Hx as <-. cbn [mbind result_bind].
  destruct (Hf id ltac:(by left)) as [Hid Hpl]. rewrite (proj2 (Z.leb_gt _ _)), Hpl by lia. cbn [of_option mbind result_bind].
  assert (assign_at true (p + zlen l1) (f id) (mem h) = Ok (zset (mem h) (p + zlen l1) (Some (f id)))) as ->.
  { unfold assign_at. destruct (znth_lt (mem h) (p + zlen l1)) as [[y |] ->]; [lia | done..]. }
  cbn [mbind result_bind].
  set (h1 := mk_hv (zset (mem h) (p + zlen l1) (Some (f id))) (size_ h) (is_hdata_ h)).
  assert (vec h1 (l1 ++ id :: l2)) as Hh1.
  { apply (vec_prefix h); [done | done | done | apply zlen_zset |]. intros i Hi. apply znth_zset_ne; [lia |].
    rewrite zlen_app, zlen_cons in Hi. lia. }
  destruct (IH (l1 ++ [id]) h1) as (h' & E & Hh' & Hs' & Hd' & Em'); rewrite ?zlen_app, <- ?app_assoc in *; change (zlen [id]) with 1 in *;
    [done | lia | unfold h1; cbn; rewrite zlen_zset; lia | intros; apply Hf; by right |].
  exists h'. split_and!; [done | done | done | done |]. rewrite Em'. unfold h1. cbn [mem map fmap list_fmap].
  apply znth_ext.
  - rewrite !zlen_zblit; rewrite ?zlen_cons, ?zlen_fmap, ?zlen_zset; unfold zlen in *; rewrite ?length_map; lia.
  - intros i Hi. rewrite zlen_zblit in Hi by (rewrite ?zlen_fmap, ?zlen_zset; unfold zlen in *; rewrite ?length_map; lia).
    rewrite zlen_zset in Hi.
    rewrite !znth_zblit by (rewrite ?zlen_cons, ?zlen_fmap, ?zlen_zset; unfold zlen in *; rewrite ?length_map; lia).
    rewrite zlen_cons, zlen_Some_map. repeat case_decide; try lia.
    + assert (i - (p + zlen l1) = 1 + (i - (p + (zlen l1 + 1)))) as -> by lia.
      unfold znth. rewrite !decide_True by lia. by rewrite Z2Nat.inj_add by lia.
    + assert (i = p + zlen l1) as -> by lia. rewrite Z.sub_diag. by rewrite znth_zset_eq by lia.
    + by rewrite znth_zset_ne by lia.
Qed.

Lemma sortedIDsView_ok i cnt h l : vec h l -> zlen l * (cnt + 1) <= Vec.capacity h -> 0 <= i <= cnt ->
  sortedIDsView i h = Ok (i * zlen l).
Proof.
  intros Hh Hcap Hi. pose proof (zlen_nonneg l). unfold sortedIDsView. rewrite (vec_size h l Hh).
  by rewrite (proj2 (Z.leb_le _ _)) by nia.
Qed.

(** The storage after an update: the places, sorted, in the part of the index. *)
Lemma update_cells pdqsort f (places : list Z) cnt sortId h l :
  Permutation (pdqsort (map f l)) (map f l) ->
  vec h l -> zlen l * (cnt + 1) <= Vec.capacity h -> 1 <= sortId <= cnt ->
  (forall id, id ∈ l -> 0 <= id < zlen places /\ znth places id = Some (f id)) ->
  exists h', UpdateSortedIds pdqsort true (mk_ctx cnt sortId places) h = Ok h' /\
    size_ h' = size_ h /\ is_hdata_ h' = is_hdata_ h /\ zlen (mem h') = zlen (mem h) /\
    forall i, 0 <= i -> znth (mem h') i = if decide (sortId * zlen l <= i < sortId * zlen l + zlen l)
      then znth (Some <$> pdqsort (map f l)) (i - sortId * zlen l) else znth (mem h) i.
Proof.
  intros Hperm Hh Hcap Hid Hf. pose proof (zlen_nonneg l) as Hl0.
  destruct (hv_mem kHoldSize true kHold_ok h l Hh) as (Hmem & _). rewrite <- Vec_capacity in Hmem.
  unfold UpdateSortedIds. cbn [negb GetSortedIdxCount GetCurSortId Ids2Sorts].
  rewrite (sortedIDsView_ok sortId cnt h l), (vec_size h l Hh), (proj2 (Z.ltb_ge _ _)), (proj2 (Z.eqb_neq sortId 0)) by done || lia.
  cbn [mbind result_bind].
  destruct (fill_sorted_ok f places (sortId * zlen l) l [] h Hh) as (h1 & E & Hh1 & Hs1 & Hd1 & Em1);
    [change (zlen []) with 0; nia | change (zlen []) with 0; nia | done |].
  change (zlen []) with 0 in E, Em1. rewrite Z.add_0_r in Em1. cbn [app] in Hh1.
  assert (Z.to_nat (zlen l) = length l) as En by (unfold zlen; lia). rewrite En, E. cbn [mbind result_bind].
  rewrite (vec_size h1 l Hh1), En. pose proof (zlen_Some_map f l) as Ezl.
  assert (read_ids (length l) (sortId * zlen l) h1 = Ok (map f l)) as ->.
  { rewrite <- (length_map f l). apply read_ids_ok. intros j x Hj. pose proof (lookup_lt_Some _ _ _ Hj) as Hlt. rewrite length_map in Hlt.
    rewrite Em1, znth_zblit, Ezl, decide_True by (rewrite ?Ezl; unfold zlen in *; nia).
    replace (sortId * zlen l + Z.of_nat j - sortId * zlen l) with (Z.of_nat j) by lia.
    by rewrite znth_lookup, list_lookup_fmap, Hj. }
  cbn [mbind result_bind]. set (s := pdqsort (map f l)) in *.
  assert (zlen s = zlen l) as Ezs by (unfold zlen; rewrite (Permutation_length Hperm), length_map; done).
  assert (zlen (mem h1) = zlen (mem h)) as Ez1 by (rewrite Em1; apply zlen_zblit; rewrite ?Ezl; nia).
  eexists. split; [done |]. unfold overwrite. cbn [mem size_ is_hdata_]. split_and!; [by apply vec_size | done | |].
  - rewrite zlen_zblit; rewrite ?zlen_fmap; nia.
  - intros i Hi. rewrite znth_zblit, zlen_fmap, Ezs by (rewrite ?zlen_fmap, ?Ezs; nia).
    case_decide; [done |]. rewrite Em1, znth_zblit, Ezl by (rewrite ?Ezl; nia). by rewrite decide_False.
Qed.

(** C19: the sort orders of a key. When the set is committed and has the room for the orders of all
    the sorted indexes, [UpdateSortedIds] for one of them neither throws nor writes outside of the
    storage: the ids stay, the view of that index is the sorted list of the places of the rows in it,
    and the views of the other indexes do not change. *)
Theorem sort_orders pdqsort f (places : list Z) cnt sortId h l k :
  (forall x, Permutation (pdqsort x) x /\ StronglySorted Z.le (pdqsort x)) ->
  vec h l -> zlen l * (cnt + 1) <= Vec.capacity h -> 1 <= sortId <= cnt -> 0 <= k <= cnt -> k <> sortId ->
  (forall id, id ∈ l -> 0 <= id < zlen places /\ znth places id = Some (f id)) ->
  exists h', UpdateSortedIds pdqsort true (mk_ctx cnt sortId places) h = Ok h' /\ vec h' l /\
    Sorted_ids sortId h' = Ok (pdqsort (map f l)) /\ Sorted_ids k h' = Sorted_ids k h /\ Sorted_ids 0 h' = Ok l.
Proof.
  intros Hsort Hh Hcap Hid Hk Hne Hf. pose proof (zlen_nonneg l) as Hl0. destruct (Hsort (map f l)) as [Hperm _].
  destruct (update_cells pdqsort f places cnt sortId h l) as (h' & E & Hs & Hd & Hz & Hm'); [done.. |]. exists h'.
  destruct (vec_prefix h h' l) as [Hh' Ec']; [done.. | |].
  { intros i Hi. rewrite Hm', decide_False by nia. done. }
  assert (Z.to_nat (zlen l) = length l) as En by (unfold zlen; lia).
  split_and!; [done | done | | |]; unfold Sorted_ids.
  - rewrite (sortedIDsView_ok sortId cnt h' l) by (rewrite ?Ec'; done || lia). cbn [mbind result_bind].
    rewrite (vec_size h' l Hh'), En, <- (length_map f l), <- (Permutation_length Hperm).
    apply read_ids_ok. intros j x Hj. pose proof (lookup_lt_Some _ _ _ Hj) as Hlt. rewrite (Permutation_length Hperm), length_map in Hlt.
    rewrite Hm', decide_True by (unfold zlen in *; nia).
    replace (sortId * zlen l + Z.of_nat j - sortId * zlen l) with (Z.of_nat j) by lia.
    by rewrite znth_lookup, list_lookup_fmap, Hj.
  - rewrite (sortedIDsView_ok k cnt h' l), (sortedIDsView_ok k cnt h l) by (rewrite ?Ec'; done || lia). cbn [mbind result_bind].
    rewrite (vec_size h' l Hh'), (vec_size h l Hh). apply read_ids_ext. intros j Hj. rewrite Hm', decide_False; [done | | nia].
    rewrite Z2Nat.id in Hj by lia. intros Hc. destruct (Z.lt_total k sortId) as [Hlt | [-> | Hlt]]; [nia | done | nia].
  - rewrite (sortedIDsView_ok 0 cnt h' l) by (rewrite ?Ec'; done || lia). cbn [mbind result_bind]. rewrite (vec_size h' l Hh'), En.
    apply read_ids_ok. intros j x Hj. destruct Hh' as (sp & Em & _). rewrite Em, znth_app_l.
    + by rewrite Z.mul_0_l, Z.add_0_l, znth_lookup, list_lookup_fmap, Hj.
    + rewrite zlen_fmap. apply lookup_lt_Some in Hj. unfold zlen. lia.
Qed.

(** ** Building a set from unsorted ids *)

Lemma unique_cons a b l : unique (a :: b :: l) = if a =? b then unique (b :: l) else a :: unique (b :: l).
Proof. reflexivity. Qed.

Lemma unique_elem l x : x ∈ unique l <-> x ∈ l.
Proof.
  induction l as [| a [| b l] IH]; [done | done |]. rewrite unique_cons. destruct (Z.eqb_spec a b) as [-> | Hne].
  - rewrite IH. rewrite !elem_of_cons. tauto.
  - rewrite elem_of_cons, IH, !elem_of_cons. tauto.
Qed.

Lemma unique_sorted l : StronglySorted Z.le l -> ssorted (unique l).
Proof.
  intros Hs. induction Hs as [| a l Hs IH Ha]; [constructor |]. destruct l as [| b l]; [by repeat constructor |].
  rewrite unique_cons. destruct (Z.eqb_spec a b) as [-> | Hne]; [done |]. constructor; [done |].
  apply Forall_forall. intros x Hx. apply (unique_elem (b :: l)) in Hx. rewrite Forall_forall in Ha.
  pose proof (Ha b ltac:(by left)). inversion_clear Hs as [| ? ? _ Hb]. rewrite Forall_forall in Hb.
  apply elem_of_cons in Hx as [-> | Hx]; [lia |]. pose proof (Hb x Hx). lia.
Qed.

Lemma unique_length l : zlen (unique l) <= zlen l.
Proof.
  induction l as [| a [| b l] IH]; [done | done |]. rewrite unique_cons.
  destruct (a =? b); rewrite ?zlen_cons in *; lia.
Qed.

Lemma overwrite_ok k h l : vec h l -> zlen k <= zlen l -> vec (overwrite 0 k h) (k ++ drop (length k) l).
Proof.
  intros (sp & Em & Hsz & _ & Hb) Hk. exists sp. unfold overwrite. cbn [mem size_ is_hdata_].
  assert (zblit (mem h) 0 (Some <$> k) = (Some <$> (k ++ drop (length k) l)) ++ sp) as ->.
  { unfold zblit. rewrite Em, zlen_fmap, Z.add_0_l. unfold zlen in *. rewrite Nat2Z.id, drop_app_le by (rewrite length_fmap; lia).
    by rewrite fmap_app, fmap_drop, <- app_assoc. }
  assert (zlen (k ++ drop (length k) l) = zlen l) as Ez.
  { unfold zlen in *. rewrite length_app, length_drop. lia. }
  split_and!; [done | by rewrite Ez | done |]. rewrite zlen_app, zlen_fmap, Ez. by rewrite Em, zlen_app, zlen_fmap in Hb.
Qed.

Lemma BuildFromUnsorted_ok pdqsort h l : Permutation (pdqsort l) l -> StronglySorted Z.le (pdqsort l) -> vec h l ->
  exists h' l', BuildFromUnsorted pdqsort h = Ok h' /\ vec h' l' /\ ssorted l' /\ (forall x, x ∈ l' <-> x ∈ l).
Proof.
  intros Hp Hs Hh. unfold BuildFromUnsorted. rewrite (vec_elements h l Hh). set (s := pdqsort l) in *.
  pose proof (Permutation_length Hp) as Hlen. pose proof (unique_length s) as Hu.
  assert (vec (overwrite 0 s h) s) as H1.
  { pose proof (overwrite_ok s h l Hh) as H. rewrite drop_ge, app_nil_r in H by lia. apply H. unfold zlen. lia. }
  pose proof (overwrite_ok (unique s) _ s H1 Hu) as H2. set (tl := drop (length (unique s)) s) in *.
  assert (zlen (unique s) + zlen tl = zlen s) as Ez by (unfold tl, zlen in *; rewrite length_drop; lia).
  destruct (erase_range_implements kHoldSize true (fun x => x) 0 kHold_ok (zlen (unique s)) (zlen s) _ _ H2) as (h' & E & Hh' & _);
    [pose proof (zlen_nonneg (unique s)); lia | rewrite zlen_app; lia |].
  assert (size_ (overwrite 0 (unique s) (overwrite 0 s h)) = zlen s) as -> by (rewrite (vec_size _ _ H2), zlen_app; lia).
  unfold Vec.erase_range. rewrite E. exists h', (unique s).
  unfold zlen in Hh' at 1. rewrite Nat2Z.id, take_app_length, drop_ge, app_nil_r in Hh' by (unfold zlen in *; rewrite length_app; lia).
  split_and!; [done | done | by apply unique_sorted |]. intros x. rewrite unique_elem. by rewrite Hp.
Qed.

(** ** Concrete sets *)

(** The finite sets of ids are an ordered set. *)
#[export] Instance gset_btree : BtreeSet (gset Z) := {
  b_of_list l := list_to_set l;
  b_insert y s := ({[y]} ∪ s, bool_decide (y ∉ s));
  b_erase y s := (s ∖ {[y]}, if bool_decide (y ∈ s) then 1 else 0);
  b_find y s := bool_decide (y ∈ s);
  b_elements s := merge_sort Z.le (base.elements s)
}.

Lemma gset_elements (s : gset Z) x : x ∈ b_elements s <-> x ∈ s.
Proof. cbn. rewrite merge_sort_Permutation. apply elem_of_elements. Qed.

#[export] Instance gset_btree_laws : BtreeSetLaws (gset Z).
Proof.
  split.
  - intros s. cbn. assert (NoDup (merge_sort Z.le (base.elements s))) as Hnd.
    { rewrite merge_sort_Permutation. apply NoDup_elements. }
    pose proof (StronglySorted_merge_sort Z.le (base.elements s)) as Hs.
    induction Hs as [| a l Hs IH Ha]; [constructor |]. apply NoDup_cons in Hnd as [Hna Hnd]. constructor; [by apply IH |].
    apply Forall_forall. intros x Hx. rewrite Forall_forall in Ha. pose proof (Ha x Hx).
    assert (x <> a) by (intros ->; done). lia.
  - intros l x. rewrite gset_elements. cbn. apply elem_of_list_to_set.
  - intros y s x. rewrite !gset_elements. cbn. set_solver.
  - intros y s. cbn [b_insert snd gset_btree]. apply bool_decide_ext. by rewrite gset_elements.
  - intros y s x. rewrite !gset_elements. cbn. set_solver.
  - intros y s. cbn [b_erase snd gset_btree]. by rewrite (bool_decide_ext _ _ (gset_elements s y)).
  - intros y s. cbn [b_find gset_btree]. apply bool_decide_ext. by rewrite gset_elements.
Qed.

Definition sample_idset_ops : list idset_op :=
  [Op_Add 5; Op_Add 3; Op_Add 5; Op_SortedIndexes 2; Op_Erase 3; Op_Add 9; Op_Commit; Op_Erase 4].

Lemma idset_is_set_witness :
  fst (idset_specs sample_idset_ops no_ids) =
    [Added true; Added true; Added false; Done; Erased (-1); Added true; Done; Erased 0] /\
  exists cnt s l X tree, idset_runs sample_idset_ops (0, IdSet_make (S := gset Z)) = Ok (fst (idset_specs sample_idset_ops no_ids), (cnt, s)) /\
    snd (idset_specs sample_idset_ops no_ids) = mk_state cnt X tree /\ StronglySorted Z.lt l /\ (forall x, x ∈ l <-> x ∈ X) /\
    idset_range s = Ok l /\ Size s = Ok (zlen l) /\ (forall id, Find id s = bool_decide (id ∈ X)) /\
    (IsCommitted s = true -> vec (plain s) l /\ zlen l * (cnt + 1) <= Vec.capacity (plain s)).
Proof.
  split; [reflexivity |].
  apply (idset_is_set (S := gset Z) 10 sample_idset_ops); [repeat constructor; done | done | by vm_compute].
Defined.

(** The representation does change, and the ids come out in their order. *)
Example idset_switches :
  (p ← idset_runs (map Op_Add (rev (seqZ 0 258))) (0, IdSet_make (S := gset Z));
   let s := snd (snd p) in
   l ← idset_range s; q ← Commit 1 s; l2 ← idset_range q;
   mret (mark s, bool_decide (l = seqZ 0 258), bool_decide (l2 = seqZ 0 258), mark q)) = Ok (true, true, true, false).
Proof. vm_compute. reflexivity. Qed.

Definition tree_idset : IdSet (gset Z) := mk_idset Vec.make (Some {[4; 7]}) true.

Lemma tree_idset_rep : rep tree_idset [4; 7].
Proof. split; [repeat constructor |]. cbn. split; [apply hv_make, kHold_ok | reflexivity]. Qed.

Lemma commit_readers_witness :
  length (commit_steps 1 tree_idset) = 4%nat /\
  exists s', run_steps (take 2 (commit_steps 1 tree_idset)) tree_idset = Ok s' /\ readable s' [4; 7].
Proof.
  split; [reflexivity |].
  destruct (commit_readers 1 tree_idset [4; 7] 2 tree_idset_rep) as [(s' & E & _ & Hr) _]; [done | done | by vm_compute |].
  exists s'. split; [exact E | exact Hr].
Defined.

(** Two ids with room for two sort orders; rows 0..4 have the places of the list. *)
Definition sorted_vec : base_idset := mk_hv [Some 1; Some 4; None; None; None; None] 2 false.

Lemma sorted_vec_ok : vec sorted_vec [1; 4].
Proof. exists [None; None; None; None]. by vm_compute. Qed.

Lemma sort_orders_witness :
  exists h', UpdateSortedIds (merge_sort Z.le) true (mk_ctx 2 1 [3; 2; 0; 4; 1]) sorted_vec = Ok h' /\
    Sorted_ids 1 h' = Ok [1; 2] /\ Sorted_ids 0 h' = Ok [1; 4].
Proof.
  destruct (sort_orders (merge_sort Z.le) (fun id => if id =? 1 then 2 else 1) [3; 2; 0; 4; 1] 2 1 sorted_vec [1; 4] 2)
    as (h' & E & _ & H1 & _ & H0).
  - intros x. split; [apply merge_sort_Permutation | apply StronglySorted_merge_sort; apply _].
  - exact sorted_vec_ok.
  - by vm_compute.
  - done.
  - done.
  - done.
  - intros id Hid. apply elem_of_cons in Hid as [-> | Hid]; [by vm_compute |].
    apply list_elem_of_singleton in Hid as ->. by vm_compute.
  - exists h'. split; [exact E |]. split; [exact H1 | exact H0].
Defined.
