(* ===== verification/Heap.v ===== *)
(** Binary heaps in arrays: [estl/heapify.h].

    The root of the array is the greatest element for the comparator [c]. The comparator of the
    code may look at memory, so it may fail; the functions stop then. [std::make_heap] of the
    standard library, which leaves the arrangement of the heap open, is an interface. *)

From S2P Require Import Prelude.
#[local] Open Scope nat_scope.

Section Heap.
Context {T : Type} (c : T -> T -> result bool).

Definition elem (vec : list T) (i : nat) : result T := of_option Undefined (vec !! i).

Definition swap (vec : list T) (i j : nat) : result (list T) :=
  x ← elem vec i; y ← elem vec j; mret (<[j := x]> (<[i := y]> vec)).

(** The loop of [heapifyRoot]: [i] is the index of [target]. *)
Fixpoint heapify_loop (fuel : nat) (vec : list T) (i : nat) : result (list T) :=
  match fuel with
  | O => Fail OutOfFuel
  | S fuel =>
      let lIdx := 2 * i + 1 in
      target ← (if lIdx <? length vec then
                  x ← elem vec i; y ← elem vec lIdx; b ← c x y; mret (if b : bool then lIdx else i)
                else Ok i);
      target ← (if lIdx + 1 <? length vec then
                  x ← elem vec target; y ← elem vec (lIdx + 1); b ← c x y; mret (if b : bool then lIdx + 1 else target)
                else Ok target);
      if i =? target then Ok vec
      else vec ← swap vec i target; heapify_loop fuel vec target
  end.

Definition heapifyRoot (vec : list T) : result (list T) := heapify_loop (S (length vec)) vec 0.

(** The last element takes the place of the root. *)
Definition removeHeapRoot (heap : list T) : result (list T) :=
  match heap with
  | [] => Fail AssertFail
  | _ =>
      heap ← swap heap 0 (length heap - 1);
      let heap := take (length heap - 1) heap in
      match heap with [] => Ok heap | _ => heapifyRoot heap end
  end.

End Heap.

(** The heap of the standard library, for comparators that are functions: the elements are
    permuted and no element is less than its children. *)
Definition is_heap {T} (lt : T -> T -> bool) (vec : list T) : Prop :=
  forall j k x y, k = 2 * j + 1 \/ k = 2 * j + 2 -> vec !! j = Some x -> vec !! k = Some y -> lt x y = false.

Class MakeHeap : Type := {
  make_heap : forall {T}, (T -> T -> bool) -> list T -> list T;
  make_heap_perm : forall {T} (lt : T -> T -> bool) vec, make_heap lt vec ≡ₚ vec
}.

Class MakeHeapLaws `{MakeHeap} : Prop :=
  make_heap_heap : forall {T} (lt : T -> T -> bool) vec,
    (forall x y, lt x y = true -> lt y x = false) ->
    (forall x y z, lt x y = false -> lt y z = false -> lt x z = false) -> is_heap lt (make_heap lt vec).

Section Spec.
Context {T : Type} (c : T -> T -> result bool) (lt : T -> T -> bool).
Context (Hasym : forall x y, lt x y = true -> lt y x = false).
Context (Htrans : forall x y z, lt x y = false -> lt y z = false -> lt x z = false).

Lemma lt_irrefl x : lt x x = false.
Proof. destruct (lt x x) eqn:E; [| done]. by rewrite (Hasym x x E) in E. Qed.

(** The root is the greatest. *)
Lemma heap_root (vec : list T) r i y : is_heap lt vec -> vec !! 0 = Some r -> vec !! i = Some y -> lt r y = false.
Proof.
  intros Hh Hr. revert y. induction i as [i IH] using lt_wf_ind; intros y Hy.
  destruct i as [| i]; [rewrite Hr in Hy; injection Hy as ->; apply lt_irrefl |].
  assert (exists j, S i = 2 * j + 1 \/ S i = 2 * j + 2) as [j Hj].
  { exists (i / 2). pose proof (Nat.div_mod i 2 ltac:(lia)). pose proof (Nat.mod_upper_bound i 2). lia. }
  destruct (lookup_lt_is_Some_2 vec j) as [x Hx]; [apply lookup_lt_Some in Hy; lia |].
  apply (Htrans r x y); [apply (IH j); [lia | done] | by apply (Hh j (S i))].
Qed.

(** A heap up to the children of [i]; they are not greater than the parent of [i]. *)
Definition heap_but (i : nat) (vec : list T) : Prop :=
  (forall j k x y, k = 2 * j + 1 \/ k = 2 * j + 2 -> j <> i -> vec !! j = Some x -> vec !! k = Some y -> lt x y = false) /\
  (forall p k x y, i = 2 * p + 1 \/ i = 2 * p + 2 -> k = 2 * i + 1 \/ k = 2 * i + 2 ->
     vec !! p = Some x -> vec !! k = Some y -> lt x y = false).

(** A heap whose root is replaced, and which may have lost its last elements. *)
Lemma heap_but_root (r y : T) l k : is_heap lt (r :: l ++ k) -> heap_but 0 (y :: l).
Proof.
  intros Hh. split; [| lia]. intros i j x z Hj Hi Hx Hz. apply (Hh i j x z Hj).
  - destruct i as [| i]; [done |]. cbn in *. by apply lookup_app_l_Some.
  - destruct j as [| j]; [lia |]. cbn in *. by apply lookup_app_l_Some.
Qed.

Lemma swap_ok (vec : list T) i j x y : vec !! i = Some x -> vec !! j = Some y ->
  exists vec', swap vec i j = Ok vec' /\ vec' ≡ₚ vec /\ length vec' = length vec /\
    vec' !! i = Some y /\ vec' !! j = Some x /\ (forall k, k <> i -> k <> j -> vec' !! k = vec !! k).
Proof.
  intros Hx Hy. unfold swap, elem. rewrite Hx, Hy. cbn. eexists. split; [done |].
  pose proof (lookup_lt_Some _ _ _ Hx). pose proof (lookup_lt_Some _ _ _ Hy).
  split_and!.
  - by apply Permutation_insert_swap.
  - by rewrite !length_insert.
  - destruct (decide (i = j)) as [-> | Hne]; [rewrite list_lookup_insert_eq by (by rewrite length_insert); congruence |].
    rewrite list_lookup_insert_ne by done. by apply list_lookup_insert_eq.
  - apply list_lookup_insert_eq. by rewrite length_insert.
  - intros k Hi Hj. by rewrite !list_lookup_insert_ne by done.
Qed.

(** The choice of one child in the loop. *)
Lemma choose_ok (vec : list T) t k :
  (forall x y, x ∈ vec -> y ∈ vec -> c x y = Ok (lt x y)) -> t < length vec ->
  exists t', (if k <? length vec then x ← elem vec t; y ← elem vec k; b ← c x y; mret (if b : bool then k else t) else Ok t) = Ok t' /\
    (t' = t \/ t' = k) /\ t' < length vec /\
    (forall x y, vec !! t' = Some x -> vec !! t = Some y -> lt x y = false) /\
    (forall x y, vec !! t' = Some x -> vec !! k = Some y -> lt x y = false).
Proof.
  intros Hc Ht. destruct (Nat.ltb_spec k (length vec)) as [Hk | Hk].
  - destruct (lookup_lt_is_Some_2 vec t Ht) as [x Hx]. destruct (lookup_lt_is_Some_2 vec k Hk) as [y Hy].
    unfold elem. rewrite Hx, Hy. cbn. rewrite Hc by (by eapply list_elem_of_lookup_2). cbn.
    destruct (lt x y) eqn:E; [exists k | exists t]; (split; [done |]); (split; [auto |]); (split; [done |]);
      split; intros ? ? H1 H2; rewrite ?Hx, ?Hy in *; simplify_eq; auto using lt_irrefl.
  - exists t. split; [done |]. split; [auto |]. split; [done |]. split; intros x y H1 H2.
    + rewrite H1 in H2. injection H2 as ->. apply lt_irrefl.
    + apply lookup_lt_Some in H2. lia.
Qed.

Lemma heapify_loop_ok fuel (vec : list T) i :
  (forall x y, x ∈ vec -> y ∈ vec -> c x y = Ok (lt x y)) ->
  heap_but i vec -> i < length vec -> length vec - i < fuel ->
  exists vec', heapify_loop c fuel vec i = Ok vec' /\ vec' ≡ₚ vec /\ is_heap lt vec'.
Proof.
  revert vec i. induction fuel as [| fuel IH]; intros vec i Hc [Hb Hg] Hi Hf; [lia |]. cbn [heapify_loop].
  destruct (choose_ok vec i (2 * i + 1) Hc Hi) as (t1 & -> & Ht1 & Hl1 & Hi1 & Hk1). cbn [mbind result_bind].
  destruct (choose_ok vec t1 (2 * i + 1 + 1) Hc Hl1) as (t & -> & Ht & Hl & H1 & Hk2). cbn [mbind result_bind].
  destruct (lookup_lt_is_Some_2 vec t Hl) as [m Hm]. destruct (lookup_lt_is_Some_2 vec t1 Hl1) as [m1 Hm1].
  destruct (lookup_lt_is_Some_2 vec i Hi) as [x0 Hx0].
  (* the chosen element is not less than [i] and its children *)
  assert (lt m x0 = false) as Hmi by (apply (Htrans _ m1); [by apply H1 | by apply Hi1]).
  assert (forall k y, k = 2 * i + 1 \/ k = 2 * i + 2 -> vec !! k = Some y -> lt m y = false) as Hmk.
  { intros k y [-> | ->] Hy; [apply (Htrans _ m1); [by apply H1 | by apply Hk1] |].
    apply Hk2; [done |]. by replace (2 * i + 1 + 1) with (2 * i + 2) by lia. }
  destruct (Nat.eqb_spec i t) as [<- | Hne].
  - exists vec. split; [done |]. split; [done |]. intros j k x y Hk Hx Hy.
    destruct (decide (j = i)) as [-> | Hj]; [| by apply (Hb j k)]. rewrite Hm in Hx. injection Hx as <-. by apply (Hmk k).
  - destruct (swap_ok vec i t x0 m Hx0 Hm) as (vec' & -> & Hperm & Hlen & Hvi & Hvt & Ho). cbn [mbind result_bind].
    assert (t = 2 * i + 1 \/ t = 2 * i + 2) as Htc by (destruct Ht as [-> | ->]; [destruct Ht1; lia | lia]).
    destruct (IH vec' t) as (vec'' & E & Hp & Hh).
    + intros x y Hx Hy. apply Hc; by rewrite <- Hperm.
    + split.
      * intros j k x y Hk Hj Hx Hy. destruct (decide (j = i)) as [-> | Hji].
        { rewrite Hvi in Hx. injection Hx as <-. destruct (decide (k = t)) as [-> | Hkt].
          - rewrite Hvt in Hy. by injection Hy as <-.
          - rewrite Ho in Hy by lia. by apply (Hmk k). }
        rewrite Ho in Hx by done. destruct (decide (k = i)) as [-> | Hki].
        { rewrite Hvi in Hy. injection Hy as <-. by apply (Hg j t). }
        rewrite Ho in Hy by (lia || done). by apply (Hb j k).
      * intros p k x y Hpt Hk Hx Hy. assert (p = i) as -> by lia. rewrite Hvi in Hx. injection Hx as <-.
        rewrite Ho in Hy by lia. apply (Hb t k); done || lia.
    + lia.
    + lia.
    + exists vec''. split; [done |]. split; [by rewrite Hp | done].
Qed.

Lemma heapifyRoot_ok vec : (forall x y, x ∈ vec -> y ∈ vec -> c x y = Ok (lt x y)) -> heap_but 0 vec ->
  exists vec', heapifyRoot c vec = Ok vec' /\ vec' ≡ₚ vec /\ is_heap lt vec'.
Proof.
  intros Hc Hb. destruct vec as [| x vec]; [exists []; split; [reflexivity |]; split; [done | by intros ? []] |].
  apply heapify_loop_ok; [done | done | cbn; lia | lia].
Qed.

Lemma removeHeapRoot_ok r rest : (forall x y, x ∈ r :: rest -> y ∈ r :: rest -> c x y = Ok (lt x y)) ->
  is_heap lt (r :: rest) -> exists vec', removeHeapRoot c (r :: rest) = Ok vec' /\ vec' ≡ₚ rest /\ is_heap lt vec'.
Proof.
  intros Hc Hh. unfold removeHeapRoot. cbn [length]. rewrite Nat.sub_succ, Nat.sub_0_r.
  destruct (lookup_lt_is_Some_2 (r :: rest) (length rest)) as [z Hz]; [cbn; lia |].
  destruct (swap_ok (r :: rest) 0 (length rest) r z eq_refl Hz) as (v & -> & Hp & Hl & H0 & Hlast & Ho). cbn [mbind result_bind].
  rewrite Hl. cbn [length]. rewrite Nat.sub_succ, Nat.sub_0_r.
  assert (v = take (length rest) v ++ [r]) as Ev.
  { rewrite <- (take_drop (length rest) v) at 1. f_equal. rewrite (drop_S v r) by done.
    by rewrite drop_ge by (rewrite Hl; cbn; lia). }
  set (w := take (length rest) v) in *.
  assert (w ≡ₚ rest) as Hw. { rewrite Ev, Permutation_app_comm in Hp. by apply Permutation_cons_inv in Hp. }
  assert (heap_but 0 w) as Hbut.
  { split; [| lia]. intros j k x y Hk Hj Hx Hy. unfold w in *. apply lookup_take_Some in Hx as [Hx ?], Hy as [Hy ?].
    rewrite Ho in Hx by lia. rewrite Ho in Hy by lia. by apply (Hh j k). }
  assert (exists vec', heapifyRoot c w = Ok vec' /\ vec' ≡ₚ w /\ is_heap lt vec') as (vec' & E & Hp' & Hh').
  { apply heapifyRoot_ok; [| done]. intros x y Hx Hy. apply Hc; right; by rewrite <- Hw. }
  destruct w as [| w0 w]; [| exists vec'; by rewrite <- Hw].
  exists []. split; [done |]. split; [done | by intros ? []].
Qed.

(** restoring a heap. If an array is a heap but for its root, [heapifyRoot] ends and makes it a
    heap of the same elements, with a greatest element at the root; [removeHeapRoot] takes the root
    out of a heap and leaves a heap of the others. *)
Theorem heap_operations vec :
  (forall x y, x ∈ vec -> y ∈ vec -> c x y = Ok (lt x y)) ->
  (heap_but 0 vec -> exists vec', heapifyRoot c vec = Ok vec' /\ vec' ≡ₚ vec /\ is_heap lt vec' /\
     forall r y, head vec' = Some r -> y ∈ vec -> lt r y = false) /\
  (is_heap lt vec -> forall r rest, vec = r :: rest ->
     exists vec', removeHeapRoot c vec = Ok vec' /\ vec' ≡ₚ rest /\ is_heap lt vec').
Proof.
  intros Hc. split.
  - intros Hb. destruct (heapifyRoot_ok vec Hc Hb) as (vec' & E & Hp & Hh). exists vec'. split_and!; [done.. |].
    intros r y Hr Hy. rewrite <- Hp in Hy. apply list_elem_of_lookup in Hy as [i Hi].
    apply (heap_root vec' r i y Hh); [by destruct vec' | done].
  - intros Hh r rest ->. by apply removeHeapRoot_ok.
Qed.

End Spec.

(** The heap of ids of [SelectIterator] has its least id at the root. *)
Definition sample_gt (x y : Z) : bool := (y <? x)%Z.

Lemma heap_operations_witness :
  exists vec', heapifyRoot (fun x y => Ok (sample_gt x y)) [9; 2; 3; 5; 4]%Z = Ok vec' /\ is_heap sample_gt vec'.
Proof.
  destruct (heap_operations (fun x y => Ok (sample_gt x y)) sample_gt
    ltac:(unfold sample_gt; intros; lia) ltac:(unfold sample_gt; intros; lia) [9; 2; 3; 5; 4]%Z ltac:(done)) as [H _].
  destruct H as (vec' & E & _ & Hh & _); [| by exists vec'].
  split; [| lia]. intros j k x y Hk Hj Hx Hy. pose proof (lookup_lt_Some _ _ _ Hy) as Hl. cbn in Hl.
  assert (j = 1 /\ k = 3 \/ j = 1 /\ k = 4) as [[-> ->] | [-> ->]] by lia; cbn in Hx, Hy; simplify_eq; reflexivity.
Defined.
