(* ===== verification/SelectKey.v ===== *)
(** The row ids that an index returns for one key, and their merging: [core/selectkeyresult.h].

    A result for one value is a flat list of ids, a tree of ids, a range or an iterator of an
    index, with the position of the iteration over it. Positions in flat lists and trees are
    places in the order of the ids; a reverse iterator is its base, as in [Gallop]. The three ways
    to merge the results of a key are modelled with their pointers: every result is pointed to
    once, so that a span of pointers is the list of the results it points to. *)

From S2P Require Import Prelude HVector Gallop IdSet Heap.

(** ** Ids: [core/id_type.h] *)

Definition IdMin : Z := - 2 ^ 31.
Definition IdMax : Z := 2 ^ 31 - 1.

(** The additions overflow at the ends. *)
Definition Incr (v : Z) : result Z := if v =? IdMax then Fail Undefined else Ok (v + 1).
Definition Decr (v : Z) : result Z := if v =? IdMin then Fail Undefined else Ok (v - 1).

(** ** The result for one value *)

(** [core/index/indexiterator.h]: the interface of the iterators over a whole index. *)
Class IndexIterator (I : Type) : Type := {
  it_Start : bool -> I -> I;
  it_Next : I -> bool * I;
  it_Value : I -> Z;
  it_ExcludeLastSet : I -> result I;
  it_GetMaxIterations : Z -> I -> Z * I
}.

Section SelectKey.
Context {S : Type} `{BtreeSet S} {I : Type} `{IndexIterator I}.

Inductive Collection : Type :=
| NotSet
| FlatIdSet (view : list Z)
| TreeIdSet (ptr : S)
| Range (first second : Z)
| SingleIterator (idxFwdIter : I).

Inductive Direction : Set := DNotSet | Forward | Reverse.

Record Iters : Type := mk_iters { i_begin : Z; i_end : Z; i_it : Z }.

(** [u]: the iterators of the union, for the direction. *)
Record SingleSelectKeyResult : Type := mk_single {
  collection : Collection; direction_ : Direction; u : Iters
}.

Abbreviation Single := SingleSelectKeyResult.

Definition of_collection (c : Collection) : Single := mk_single c DNotSet (mk_iters 0 0 0).

Definition set_it (it : Z) (s : Single) : Single :=
  mk_single (collection s) (direction_ s) (mk_iters (i_begin (u s)) (i_end (u s)) it).

(** The ids of a flat list or of a tree, in their order. *)
Definition stored (c : Collection) : list Z :=
  match c with FlatIdSet view => view | TreeIdSet ptr => b_elements ptr | _ => [] end.

(** Iterators over [ids], or over a range. *)
Definition start_iters (reverse : bool) (c : Collection) : result Iters :=
  match c with
  | FlatIdSet _ | TreeIdSet _ =>
      let n := zlen (stored c) in
      Ok (if reverse then mk_iters n 0 n else mk_iters 0 n 0)
  | Range first second =>
      if reverse then b ← Decr second; e ← Decr first; mret (mk_iters b e b)
      else Ok (mk_iters first second first)
  | NotSet | SingleIterator _ => Ok (mk_iters 0 0 0)
  end.

Definition Single_Start (reverse : bool) (s : Single) : result Single :=
  let d := if reverse then Reverse else Forward in
  match collection s with
  | NotSet => Fail (Throw errLogic)
  | SingleIterator it => Ok (mk_single (SingleIterator (it_Start reverse it)) d (u s))
  | c => iters ← start_iters reverse c; mret (mk_single c d iters)
  end.

(** The answer, and the iterator of an index, which may remember the count. *)
Definition Single_GetMaxIterations (limitIters : Z) (s : Single) : result (Z * Single) :=
  match collection s with
  | FlatIdSet view => Ok (zlen view, s)
  | TreeIdSet ptr => Ok (b_size ptr, s)
  | Range first second => if second <? first then Fail AssertFail else Ok (u64 (s32 (second - first)), s)
  | SingleIterator it =>
      let (iters, it) := it_GetMaxIterations limitIters it in
      Ok (if iters =? 2 ^ 64 - 1 then limitIters else iters, mk_single (SingleIterator it) (direction_ s) (u s))
  | NotSet => Fail AssertFail
  end.

(** The bounds of the ordered set. *)
Fixpoint leading (P : Z -> bool) (l : list Z) : Z :=
  match l with [] => 0 | x :: l => if P x then 1 + leading P l else 0 end.

Definition tree_upper_bound (ptr : S) (bound : Z) : Z := leading (fun x => x <=? bound) (b_elements ptr).
Definition tree_lower_bound (ptr : S) (bound : Z) : Z := leading (fun x => x <? bound) (b_elements ptr).

Definition direction_is (d : Direction) (s : Single) : bool :=
  match d, direction_ s with Forward, Forward | Reverse, Reverse | DNotSet, DNotSet => true | _, _ => false end.

(** [advanceFwd], [advanceRev] of [SelectIterator]: the result moved behind [bound], and the id there. *)
Definition advanceFwd (s : Single) (bound : Z) : result (Single * option Z) :=
  if negb (direction_is Forward s) then Fail AssertFail
  else
    let it := i_it (u s) in let end_ := i_end (u s) in
    match collection s with
    | NotSet | SingleIterator _ => Fail AssertFail
    | FlatIdSet view =>
        if it =? end_ then Ok (s, None)
        else
          it ← GallopUpperBound view it end_ bound;
          if it =? end_ then Ok (set_it it s, None)
          else x ← deref view it; mret (set_it it s, Some x)
    | TreeIdSet ptr =>
        if it =? end_ then Ok (s, None)
        else
          y ← deref (b_elements ptr) it;
          let it := if y <=? bound then tree_upper_bound ptr bound else it in
          if it =? end_ then Ok (set_it it s, None)
          else x ← deref (b_elements ptr) it; mret (set_it it s, Some x)
    | Range _ _ =>
        if it =? end_ then Ok (s, None)
        else
          b ← Incr bound;
          let it := Z.min end_ (Z.max it b) in
          mret (set_it it s, if it =? end_ then None else Some it)
    end.

Definition advanceRev (s : Single) (bound : Z) : result (Single * option Z) :=
  if negb (direction_is Reverse s) then Fail AssertFail
  else
    let it := i_it (u s) in let end_ := i_end (u s) in
    match collection s with
    | NotSet | SingleIterator _ => Fail AssertFail
    | FlatIdSet view =>
        if it =? end_ then Ok (s, None)
        else
          it ← GallopLowerBound view it end_ bound;
          if it =? end_ then Ok (set_it it s, None)
          else x ← deref view (it - 1); mret (set_it it s, Some x)
    | TreeIdSet ptr =>
        if it =? end_ then Ok (s, None)
        else
          y ← deref (b_elements ptr) (it - 1);
          let it := if bound <=? y then
                      (let lower := tree_lower_bound ptr bound in if lower =? 0 then end_ else lower)
                    else it in
          if it =? end_ then Ok (set_it it s, None)
          else x ← deref (b_elements ptr) (it - 1); mret (set_it it s, Some x)
    | Range _ _ =>
        if it =? end_ then Ok (s, None)
        else
          b ← Decr bound;
          let it := Z.max end_ (Z.min it b) in
          mret (set_it it s, if it =? end_ then None else Some it)
    end.

Definition advance (reverse : bool) (s : Single) (bound : Z) : result (Single * option Z) :=
  if reverse then advanceRev s bound else advanceFwd s bound.

(** ** What is left of an iteration *)

(** The ids between the position and the end, in the order of the iteration. *)
Definition rest (s : Single) : list Z :=
  let it := Z.to_nat (i_it (u s)) in
  match collection s, direction_ s with
  | Range _ _, Reverse => rev (seqZ (i_end (u s) + 1) (i_it (u s) - i_end (u s)))
  | Range _ _, _ => seqZ (i_it (u s)) (i_end (u s) - i_it (u s))
  | c, Reverse => rev (take it (stored c))
  | c, _ => drop it (stored c)
  end.

(** All the ids of a result. *)
Definition ids_of (c : Collection) : list Z :=
  match c with Range first second => seqZ first (second - first) | _ => stored c end.

Fixpoint drop_while (P : Z -> bool) (l : list Z) : list Z :=
  match l with [] => [] | x :: l' => if P x then drop_while P l' else l end.

(** The ids that an iteration has passed when it is behind [bound]. *)
Definition passed (reverse : bool) (bound x : Z) : bool := if reverse then bound <=? x else x <=? bound.

(** Ids are rows: not negative and less than the greatest number; lists are sorted. *)
Definition ids_ok (l : list Z) : Prop := StronglySorted Z.le l /\ Forall (fun x => 0 <= x < IdMax) l /\ zlen l < 2 ^ 62.

Definition collection_ok (c : Collection) : Prop :=
  match c with
  | FlatIdSet _ | TreeIdSet _ => ids_ok (stored c)
  | Range first second => 0 <= first <= second /\ second <= IdMax
  | NotSet | SingleIterator _ => False
  end.

(** A result in the middle of an iteration. *)
Definition single_ok (reverse : bool) (s : Single) : Prop :=
  collection_ok (collection s) /\ direction_ s = (if reverse then Reverse else Forward) /\
  match collection s with
  | Range first second =>
      if reverse then i_end (u s) = first - 1 /\ i_end (u s) <= i_it (u s) < second
      else i_end (u s) = second /\ first <= i_it (u s) <= second
  | _ =>
      if reverse then i_end (u s) = 0 /\ 0 <= i_it (u s) <= zlen (stored (collection s))
      else i_end (u s) = zlen (stored (collection s)) /\ 0 <= i_it (u s) <= zlen (stored (collection s))
  end.

(** *** Lists *)

Lemma drop_while_split P a b : Forall (fun x => P x = true) a -> (forall x, head b = Some x -> P x = false) ->
  drop_while P (a ++ b) = b.
Proof.
  induction 1 as [| x a Hx _ IH]; intros Hb; cbn.
  - destruct b as [| y b]; [done |]. cbn. by rewrite (Hb y).
  - rewrite Hx. by apply IH.
Qed.

Lemma drop_while_leading P l : drop_while P l = drop (Z.to_nat (leading P l)) l /\ 0 <= leading P l <= zlen l.
Proof.
  induction l as [| x l [IH Hb]]; [done |]. cbn [drop_while leading]. rewrite zlen_cons. destruct (P x); [| by split; [| lia]].
  split; [| lia]. rewrite IH. by rewrite Z2Nat.inj_add by lia.
Qed.

Lemma drop_while_head P l x : head (drop_while P l) = Some x -> P x = false.
Proof. induction l as [| y l IH]; cbn; [done |]. destruct (P y) eqn:E; [done |]. by intros [= <-]. Qed.

Lemma sorted_app (l k : list Z) : StronglySorted Z.le (l ++ k) -> StronglySorted Z.le l /\ StronglySorted Z.le k /\
  forall x y, x ∈ l -> y ∈ k -> x <= y.
Proof.
  induction l as [| a l IH]; cbn; intros H1.
  - split_and!; [constructor | done |]. intros x y Hx. by apply not_elem_of_nil in Hx.
  - inversion_clear H1 as [| ? ? H2 H3]. apply IH in H2 as (H4 & H5 & H6). rewrite Forall_app in H3. destruct H3 as [H7 H8].
    split_and!; [by constructor | done |]. intros x y [-> | Hx]%elem_of_cons Hy; [by eapply Forall_forall in H8 | by apply H6].
Qed.

(** Where a predicate that holds of an initial part of the list turns false. *)
Lemma split_fwd P (l : list Z) it r : 0 <= it <= r -> r <= zlen l ->
  (forall i x, it <= i < r -> znth l i = Some x -> P x = true) ->
  (forall i x, r <= i < zlen l -> znth l i = Some x -> P x = false) ->
  drop_while P (drop (Z.to_nat it) l) = drop (Z.to_nat r) l.
Proof.
  intros Hi Hr H1 H2.
  assert (drop (Z.to_nat it) l = take (Z.to_nat (r - it)) (drop (Z.to_nat it) l) ++ drop (Z.to_nat r) l) as ->.
  { rewrite <- (take_drop (Z.to_nat (r - it)) (drop (Z.to_nat it) l)) at 1. f_equal. rewrite drop_drop. f_equal. lia. }
  apply drop_while_split.
  - apply Forall_lookup. intros k x Hk. apply lookup_take_Some in Hk as [Hk Hlt]. rewrite lookup_drop in Hk.
    apply (H1 (it + Z.of_nat k)); [lia |]. unfold znth. rewrite decide_True by lia. rewrite <- Hk. f_equal. lia.
  - intros x Hx. rewrite head_lookup, lookup_drop, Nat.add_0_r in Hx. pose proof (lookup_lt_Some _ _ _ Hx).
    apply (H2 r); [unfold zlen; lia |]. unfold znth. by rewrite decide_True by lia.
Qed.

Lemma split_rev P (l : list Z) it r : 0 <= r <= it -> it <= zlen l ->
  (forall i x, r <= i < it -> znth l i = Some x -> P x = true) ->
  (forall i x, 0 <= i < r -> znth l i = Some x -> P x = false) ->
  drop_while P (rev (take (Z.to_nat it) l)) = rev (take (Z.to_nat r) l).
Proof.
  intros Hi Hr H1 H2.
  assert (take (Z.to_nat it) l = take (Z.to_nat r) l ++ take (Z.to_nat (it - r)) (drop (Z.to_nat r) l)) as ->.
  { rewrite <- (take_drop (Z.to_nat r) l) at 1. rewrite take_app, length_take, Nat.min_l by (unfold zlen in Hr; lia).
    rewrite (take_ge (take _ _)) by (rewrite length_take; lia). do 2 f_equal. lia. }
  rewrite rev_app_distr. apply drop_while_split.
  - apply Forall_rev, Forall_lookup. intros k x Hk. apply lookup_take_Some in Hk as [Hk Hlt]. rewrite lookup_drop in Hk.
    apply (H1 (r + Z.of_nat k)); [lia |]. unfold znth. rewrite decide_True by lia. rewrite <- Hk. f_equal. lia.
  - intros x Hx. destruct (decide (r = 0)) as [-> | Hr0]; [done |].
    destruct (znth_lt l (r - 1)) as [y Hy]; [lia |].
    assert (take (Z.to_nat r) l = take (Z.to_nat (r - 1)) l ++ [y]) as Et.
    { replace (Z.to_nat r) with (Datatypes.S (Z.to_nat (r - 1))) by lia. apply take_S_r.
      unfold znth in Hy. by case_decide. }
    rewrite Et, rev_app_distr in Hx. cbn in Hx. injection Hx as <-. apply (H2 (r - 1)); [lia | done].
Qed.

(** The element at a position, and what is left there. *)
Lemma head_drop (l : list Z) i : 0 <= i -> head (drop (Z.to_nat i) l) = znth l i.
Proof. intros. unfold znth. rewrite decide_True by done. by rewrite head_lookup, lookup_drop, Nat.add_0_r. Qed.

Lemma head_rev_take (l : list Z) i : 0 < i <= zlen l -> head (rev (take (Z.to_nat i) l)) = znth l (i - 1).
Proof.
  intros Hi. destruct (znth_lt l (i - 1)) as [y Hy]; [lia |]. rewrite Hy.
  assert (take (Z.to_nat i) l = take (Z.to_nat (i - 1)) l ++ [y]) as ->.
  { replace (Z.to_nat i) with (Datatypes.S (Z.to_nat (i - 1))) by lia. apply take_S_r. unfold znth in Hy. by case_decide. }
  by rewrite rev_app_distr.
Qed.

Lemma leading_ok P (l : list Z) : exists r, leading P l = r /\ 0 <= r <= zlen l /\
  (forall i x, 0 <= i < r -> znth l i = Some x -> P x = true) /\ (forall x, znth l r = Some x -> P x = false).
Proof.
  induction l as [| a l (r & IH & Hr & H1 & H2)]; cbn [leading].
  - exists 0. split_and!; [done | done | done | intros; lia |]. intros x Hx. done.
  - rewrite zlen_cons. destruct (P a) eqn:E.
    + exists (1 + r). rewrite IH. split_and!; [done | lia | lia | |].
      * intros i x Hi Hx. destruct (decide (i = 0)) as [-> | Hne]; [cbn in Hx; by injection Hx as <- |].
        apply (H1 (i - 1)); [lia |]. rewrite <- Hx. unfold znth. rewrite !decide_True by lia.
        by replace (Z.to_nat i) with (Datatypes.S (Z.to_nat (i - 1))) by lia.
      * intros x Hx. apply H2. rewrite <- Hx. unfold znth. rewrite !decide_True by lia.
        by replace (Z.to_nat (1 + r)) with (Datatypes.S (Z.to_nat r)) by lia.
    + exists 0. pose proof (zlen_nonneg l). split_and!; [done | lia | lia | intros; lia |]. intros x Hx. cbn in Hx. by injection Hx as <-.
Qed.

(** *** Moving behind a bound *)

Context {HL : BtreeSetLaws S}.

Lemma rest_stored reverse s : single_ok reverse s -> (forall a b, collection s <> Range a b) ->
  rest s = if reverse then rev (take (Z.to_nat (i_it (u s))) (stored (collection s)))
           else drop (Z.to_nat (i_it (u s))) (stored (collection s)).
Proof.
  intros (Hc & Hd & _) Hn. unfold rest. rewrite Hd. destruct (collection s) eqn:E; try (by destruct reverse).
  by destruct (Hn first second).
Qed.

Lemma single_set_it reverse s it : single_ok reverse s ->
  (if reverse then i_end (u s) <= it <= i_it (u s) else i_it (u s) <= it <= i_end (u s)) ->
  single_ok reverse (set_it it s).
Proof.
  intros (Hc & Hd & Hi) Hit. split; [done |]. split; [done |]. cbn [set_it collection u i_end i_it].
  destruct (collection s), reverse; try done; lia.
Qed.

(** The iteration moved to the place [r] of the stored ids. *)
Lemma moved_to reverse s P r : single_ok reverse s -> (forall a b, collection s <> Range a b) ->
  (if reverse then
     0 <= r <= i_it (u s) /\ (forall i x, r <= i < i_it (u s) -> znth (stored (collection s)) i = Some x -> P x = true) /\
     (forall i x, 0 <= i < r -> znth (stored (collection s)) i = Some x -> P x = false)
   else
     i_it (u s) <= r <= zlen (stored (collection s)) /\
     (forall i x, i_it (u s) <= i < r -> znth (stored (collection s)) i = Some x -> P x = true) /\
     (forall i x, r <= i < zlen (stored (collection s)) -> znth (stored (collection s)) i = Some x -> P x = false)) ->
  single_ok reverse (set_it r s) /\ rest (set_it r s) = drop_while P (rest s) /\
  (if r =? i_end (u s) then Ok (set_it r s, None)
   else x ← deref (stored (collection s)) (if reverse then r - 1 else r); mret (set_it r s, Some x))
  = Ok (set_it r s, head (drop_while P (rest s))).
Proof.
  intros Hs Hn Hr. pose proof Hs as (Hc & Hd & Hi). rewrite (rest_stored reverse s Hs Hn).
  assert (i_end (u s) = (if reverse then 0 else zlen (stored (collection s))) /\ 0 <= i_it (u s) <= zlen (stored (collection s))) as [He Hit].
  { destruct (collection s) eqn:E; destruct reverse; try tauto; by destruct (Hn first second). }
  assert (single_ok reverse (set_it r s)) as Hs'.
  { apply single_set_it; [done |]. rewrite He. destruct reverse; lia. }
  rewrite (rest_stored reverse (set_it r s) Hs' Hn). cbn [set_it collection u i_it].
  split; [done |]. rewrite He. destruct reverse; destruct Hr as (Hr & H1 & H2).
  - rewrite (split_rev P (stored (collection s)) (i_it (u s)) r) by done || lia. split; [done |].
    destruct (Z.eqb_spec r 0) as [-> | Hne]; [done |]. rewrite head_rev_take by lia. unfold deref.
    destruct (znth_lt (stored (collection s)) (r - 1)) as [x Hx]; [lia |]. by rewrite Hx.
  - rewrite (split_fwd P (stored (collection s)) (i_it (u s)) r) by done || lia. split; [done |].
    destruct (Z.eqb_spec r (zlen (stored (collection s)))) as [-> | Hne].
    + by rewrite drop_ge by (unfold zlen; lia).
    + rewrite head_drop by lia. unfold deref.
      destruct (znth_lt (stored (collection s)) r) as [x Hx]; [lia |]. by rewrite Hx.
Qed.

(** The bounds of a tree, in terms of places. *)
Lemma tree_bounds ptr it bound y : ids_ok (b_elements ptr) -> 0 <= it < zlen (b_elements ptr) -> znth (b_elements ptr) it = Some y ->
  (y <= bound -> it <= tree_upper_bound ptr bound) /\
  (bound <= y -> tree_lower_bound ptr bound <= it) /\
  (forall i x, 0 <= i < tree_upper_bound ptr bound -> znth (b_elements ptr) i = Some x -> x <= bound) /\
  (forall i x, tree_upper_bound ptr bound <= i < zlen (b_elements ptr) -> znth (b_elements ptr) i = Some x -> bound < x) /\
  (forall i x, 0 <= i < tree_lower_bound ptr bound -> znth (b_elements ptr) i = Some x -> x < bound) /\
  (forall i x, tree_lower_bound ptr bound <= i < zlen (b_elements ptr) -> znth (b_elements ptr) i = Some x -> bound <= x) /\
  0 <= tree_upper_bound ptr bound <= zlen (b_elements ptr) /\ 0 <= tree_lower_bound ptr bound <= zlen (b_elements ptr).
Proof.
  intros (Hs & _) Hit Hy. apply sorted_index in Hs. unfold tree_upper_bound, tree_lower_bound.
  destruct (leading_ok (fun x => x <=? bound) (b_elements ptr)) as (r & -> & Hr & H1 & H2).
  destruct (leading_ok (fun x => x <? bound) (b_elements ptr)) as (q & -> & Hq & H3 & H4).
  assert (forall i x, r <= i < zlen (b_elements ptr) -> znth (b_elements ptr) i = Some x -> bound < x) as H2'.
  { intros i x Hi Hx. destruct (znth_lt (b_elements ptr) r) as [z Hz]; [lia |].
    pose proof (H2 z Hz) as Hb. apply Z.leb_gt in Hb. pose proof (Hs r i z x ltac:(lia) Hz Hx). lia. }
  assert (forall i x, q <= i < zlen (b_elements ptr) -> znth (b_elements ptr) i = Some x -> bound <= x) as H4'.
  { intros i x Hi Hx. destruct (znth_lt (b_elements ptr) q) as [z Hz]; [lia |].
    pose proof (H4 z Hz) as Hb. apply Z.ltb_ge in Hb. pose proof (Hs q i z x ltac:(lia) Hz Hx). lia. }
  split_and!; [| | | done | | done | lia | lia | lia | lia].
  - intros Hle. destruct (Z.le_gt_cases it r) as [Hc | Hc]; [done |].
    pose proof (H2' it y ltac:(lia) Hy). lia.
  - intros Hle. destruct (Z.le_gt_cases q it) as [Hc | Hc]; [done |].
    pose proof (H3 it y ltac:(lia) Hy) as Hb. apply Z.ltb_lt in Hb. lia.
  - intros i x Hi Hx. apply Z.leb_le. by apply (H1 i).
  - intros i x Hi Hx. apply Z.ltb_lt. by apply (H3 i).
Qed.

(** What [advanceFwd] and [advanceRev] do: they drop the ids that are not behind the bound. *)
Definition advances (reverse : bool) (s : Single) (bound : Z) : Prop :=
  exists s', advance reverse s bound = Ok (s', head (drop_while (passed reverse bound) (rest s))) /\
    single_ok reverse s' /\ collection s' = collection s /\ rest s' = drop_while (passed reverse bound) (rest s).

Lemma rest_end reverse s : single_ok reverse s -> i_it (u s) = i_end (u s) -> rest s = [].
Proof.
  intros (Hc & Hd & Hi) E. unfold rest. rewrite Hd, E. destruct (collection s), reverse; try done;
    rewrite ?Z.sub_diag; try done; destruct Hi as [-> _]; try done; by rewrite drop_ge by (unfold zlen; lia).
Qed.

Lemma advances_end reverse s bound : single_ok reverse s -> i_it (u s) = i_end (u s) -> advances reverse s bound.
Proof.
  intros Hs E. exists s. rewrite (rest_end reverse s Hs E). split_and!; [| done | done | done].
  destruct Hs as (Hc & Hd & _). unfold advance, advanceFwd, advanceRev, direction_is. rewrite Hd, E, Z.eqb_refl.
  destruct reverse, (collection s); done.
Qed.

Lemma direction_ok reverse s : single_ok reverse s -> direction_is (if reverse then Reverse else Forward) s = true.
Proof. intros (_ & Hd & _). unfold direction_is. rewrite Hd. by destruct reverse. Qed.

Lemma advances_flat reverse s view bound : single_ok reverse s -> collection s = FlatIdSet view -> advances reverse s bound.
Proof.
  intros Hs E. destruct (decide (i_it (u s) = i_end (u s))) as [He | He]; [by apply advances_end |].
  pose proof Hs as (Hc & Hd & Hi). rewrite E in Hc, Hi. destruct Hc as (Hsort & _ & Hz). apply sorted_index in Hsort.
  assert (forall a b, collection s <> Range a b) as Hn by (rewrite E; done).
  unfold advances, advance, advanceFwd, advanceRev. pose proof (direction_ok reverse s Hs) as Hdir.
  destruct reverse; rewrite Hdir, E, (proj2 (Z.eqb_neq _ _)) by done; cbn [negb stored] in *.
  - destruct (lower_ok view (i_end (u s)) (i_it (u s)) bound Hsort Hz) as (r & -> & Hr & H1 & H2); [lia | lia |].
    cbn [mbind result_bind]. destruct (moved_to true s (passed true bound) r Hs Hn) as (Hs' & Hrest & Hv).
    { rewrite E. cbn [stored]. split; [lia |]. split; intros i x Hii Hx; unfold passed.
      - pose proof (H2 i x Hii Hx) as Hb. apply Z.ltb_ge in Hb. by apply Z.leb_le.
      - pose proof (H1 i x ltac:(lia) Hx) as Hb. apply Z.ltb_lt in Hb. by apply Z.leb_gt. }
    rewrite E in Hv. cbn [stored] in Hv. by exists (set_it r s).
  - destruct (upper_ok view (i_it (u s)) (i_end (u s)) bound Hsort Hz) as (r & -> & Hr & H1 & H2); [lia | lia |].
    cbn [mbind result_bind]. destruct (moved_to false s (passed false bound) r Hs Hn) as (Hs' & Hrest & Hv).
    { rewrite E. cbn [stored]. split; [lia |]. split; intros i x Hii Hx; unfold passed; [apply (H1 i x); done || lia | apply (H2 i x); done || lia]. }
    rewrite E in Hv. cbn [stored] in Hv. by exists (set_it r s).
Qed.


Lemma deref_Some a i x : znth a i = Some x -> deref a i = Ok x.
Proof. intros Hx. unfold deref. by rewrite Hx. Qed.

Lemma advances_tree reverse s ptr bound : single_ok reverse s -> collection s = TreeIdSet ptr -> advances reverse s bound.
Proof.
  intros Hs E. destruct (decide (i_it (u s) = i_end (u s))) as [He | He]; [by apply advances_end |].
  pose proof Hs as (Hc & Hd & Hi). rewrite E in Hc, Hi. cbn [collection_ok stored] in Hc, Hi.
  assert (forall a b, collection s <> Range a b) as Hn by (rewrite E; done).
  unfold advances, advance, advanceFwd, advanceRev. pose proof (direction_ok reverse s Hs) as Hdir.
  destruct reverse; rewrite Hdir, E, (proj2 (Z.eqb_neq _ _)) by done; cbn [negb].
  - destruct (znth_lt (b_elements ptr) (i_it (u s) - 1)) as [y Hy]; [lia |]. rewrite (deref_Some _ _ _ Hy). cbn [mbind result_bind].
    destruct (tree_bounds ptr (i_it (u s) - 1) bound y Hc ltac:(lia) Hy) as (_ & Hlo & _ & _ & H1 & H2 & _ & Hr).
    set (r := if bound <=? y then _ else _).
    assert (r = (if bound <=? y then tree_lower_bound ptr bound else i_it (u s))) as Er.
    { unfold r. destruct (bound <=? y); [| done]. destruct (Z.eqb_spec (tree_lower_bound ptr bound) 0) as [-> | ?]; [lia | done]. }
    destruct (moved_to true s (passed true bound) r Hs Hn) as (Hs' & Hrest & Hv).
    { rewrite E, Er. cbn [stored]. unfold passed. destruct (Z.leb_spec bound y) as [Hb | Hb].
      - split; [lia |]. split; intros i x Hii Hx; [apply Z.leb_le | apply Z.leb_gt]; [apply (H2 i x); done || lia | by apply (H1 i x)].
      - split; [lia |]. split; intros i x Hii Hx; [lia |]. apply Z.leb_gt. destruct Hc as (Hsort & _). apply sorted_index in Hsort.
        pose proof (Hsort i (i_it (u s) - 1) x y ltac:(lia) Hx Hy). lia. }
    rewrite E in Hv. cbn [stored] in Hv. by exists (set_it r s).
  - destruct (znth_lt (b_elements ptr) (i_it (u s))) as [y Hy]; [lia |]. rewrite (deref_Some _ _ _ Hy). cbn [mbind result_bind].
    destruct (tree_bounds ptr (i_it (u s)) bound y Hc ltac:(lia) Hy) as (Hup & _ & H1 & H2 & _ & _ & Hr & _).
    set (r := if y <=? bound then _ else _).
    destruct (moved_to false s (passed false bound) r Hs Hn) as (Hs' & Hrest & Hv).
    { rewrite E. cbn [stored]. unfold passed, r. destruct (Z.leb_spec y bound) as [Hb | Hb].
      - split; [lia |]. split; intros i x Hii Hx; [apply Z.leb_le | apply Z.leb_gt]; [apply (H1 i x); done || lia | by apply (H2 i x)].
      - split; [lia |]. split; intros i x Hii Hx; [lia |]. apply Z.leb_gt. destruct Hc as (Hsort & _). apply sorted_index in Hsort.
        pose proof (Hsort (i_it (u s)) i y x ltac:(lia) Hy Hx). lia. }
    rewrite E in Hv. cbn [stored] in Hv. by exists (set_it r s).
Qed.

Lemma head_seqZ a n : head (seqZ a n) = if 0 <? n then Some a else None.
Proof. destruct (Z.ltb_spec 0 n) as [Hn | Hn]; [by rewrite seqZ_cons | by rewrite seqZ_nil]. Qed.

Lemma head_rev_seqZ a n : head (rev (seqZ a n)) = if 0 <? n then Some (a + n - 1) else None.
Proof.
  destruct (Z.ltb_spec 0 n) as [Hn | Hn]; [| by rewrite seqZ_nil].
  replace n with ((n - 1) + 1) at 1 by lia. rewrite seqZ_app by lia. rewrite rev_app_distr.
  rewrite (seqZ_cons _ 1), (seqZ_nil _ (Z.pred 1)) by lia. cbn. f_equal. lia.
Qed.

(** The part of a range that is not behind a place in it. *)
Lemma drop_while_seqZ P a n m : 0 <= m <= n ->
  (forall x, a <= x < a + m -> P x = true) -> (forall x, a + m <= x < a + n -> P x = false) ->
  drop_while P (seqZ a n) = seqZ (a + m) (n - m).
Proof.
  intros Hm H1 H2. replace n with (m + (n - m)) at 1 by lia. rewrite seqZ_app by lia. apply drop_while_split.
  - apply Forall_forall. intros x Hx%elem_of_seqZ. by apply H1.
  - intros x Hx. rewrite head_seqZ in Hx. destruct (Z.ltb_spec 0 (n - m)); [injection Hx as <-; apply H2; lia | done].
Qed.

Lemma drop_while_rev_seqZ P a n m : 0 <= m <= n ->
  (forall x, a + m <= x < a + n -> P x = true) -> (forall x, a <= x < a + m -> P x = false) ->
  drop_while P (rev (seqZ a n)) = rev (seqZ a m).
Proof.
  intros Hm H1 H2. replace n with (m + (n - m)) at 1 by lia. rewrite seqZ_app by lia. rewrite rev_app_distr. apply drop_while_split.
  - apply Forall_rev, Forall_forall. intros x Hx%elem_of_seqZ. apply H1. lia.
  - intros x Hx. rewrite head_rev_seqZ in Hx. destruct (Z.ltb_spec 0 m); [injection Hx as <-; apply H2; lia | done].
Qed.

Lemma advances_range reverse s a b bound : single_ok reverse s -> collection s = Range a b ->
  (if reverse then IdMin < bound else bound < IdMax) -> advances reverse s bound.
Proof.
  intros Hs E Hb. destruct (decide (i_it (u s) = i_end (u s))) as [He | He]; [by apply advances_end |].
  pose proof Hs as (Hc & Hd & Hi). rewrite E in Hi; cbn beta iota in Hi. unfold advances, advance, advanceFwd, advanceRev.
  pose proof (direction_ok reverse s Hs) as Hdir. unfold rest. rewrite Hd.
  destruct reverse; rewrite Hdir, E, (proj2 (Z.eqb_neq _ _)) by done; cbn [negb].
  - unfold Decr. rewrite (proj2 (Z.eqb_neq bound IdMin)) by lia. cbn [mbind result_bind].
    set (r := Z.max _ _). assert (r = Z.max (i_end (u s)) (Z.min (i_it (u s)) (bound - 1))) as Hr by done. exists (set_it r s).
    rewrite (drop_while_rev_seqZ _ _ _ (r - i_end (u s))) by (intros; unfold passed; rewrite ?Z.leb_le, ?Z.leb_gt; lia).
    split_and!; [| apply single_set_it; [done | lia] | done | cbn; by rewrite Hd, E].
    cbn. do 2 f_equal. rewrite head_rev_seqZ. destruct (Z.eqb_spec r (i_end (u s))), (Z.ltb_spec 0 (r - i_end (u s))); try lia; [done | f_equal; lia].
  - unfold Incr. rewrite (proj2 (Z.eqb_neq bound IdMax)) by lia. cbn [mbind result_bind].
    set (r := Z.min _ _). assert (r = Z.min (i_end (u s)) (Z.max (i_it (u s)) (bound + 1))) as Hr by done. exists (set_it r s).
    rewrite (drop_while_seqZ _ _ _ (r - i_it (u s))) by (intros; unfold passed; rewrite ?Z.leb_le, ?Z.leb_gt; lia).
    replace (i_it (u s) + (r - i_it (u s))) with r by lia. replace (i_end (u s) - i_it (u s) - (r - i_it (u s))) with (i_end (u s) - r) by lia.
    split_and!; [| apply single_set_it; [done | lia] | done | cbn; by rewrite Hd, E].
    cbn. do 2 f_equal. rewrite head_seqZ. destruct (Z.eqb_spec r (i_end (u s))), (Z.ltb_spec 0 (i_end (u s) - r)); try lia; done.
Qed.

(** A result moves behind any bound that is not the last number of its direction; there nothing is left. *)
Lemma advance_ok reverse s bound : single_ok reverse s ->
  (rest s = [] \/ if reverse then IdMin < bound else bound < IdMax) -> advances reverse s bound.
Proof.
  intros Hs Hr. pose proof Hs as (Hc & Hd & Hi). destruct (collection s) as [| view | ptr | a b |] eqn:E; try done.
  - by eapply advances_flat.
  - by eapply advances_tree.
  - destruct Hr as [Hr | Hr]; [| by eapply advances_range]. apply advances_end; [done |].
    unfold rest in Hr. rewrite E, Hd in Hr. destruct reverse; [apply (f_equal (@rev Z)) in Hr; rewrite rev_involutive in Hr |];
      apply (f_equal zlen) in Hr; unfold zlen in Hr; rewrite length_seqZ in Hr; cbn in Hr; lia.
Qed.

(** *** The order of an iteration *)

Definition dle (reverse : bool) (x y : Z) : Prop := if reverse then y <= x else x <= y.

Lemma passed_false reverse b x : passed reverse b x = false <-> if reverse then x < b else b < x.
Proof. unfold passed. destruct reverse; by rewrite Z.leb_gt. Qed.

Lemma passed_true reverse b x : passed reverse b x = true <-> if reverse then b <= x else x <= b.
Proof. unfold passed. destruct reverse; by rewrite Z.leb_le. Qed.

Lemma sorted_rev (l : list Z) : StronglySorted Z.le l -> StronglySorted (dle true) (rev l).
Proof.
  induction 1 as [| a l _ IH Ha]; cbn; [constructor |].
  assert (Forall (dle true a) [] ) as _ by constructor. revert IH. generalize (Forall_rev Ha). generalize (rev l). clear.
  intros l Hl Hs. induction Hs as [| b l Hb IH Hlb]; cbn; [by repeat constructor |]. inversion_clear Hl.
  constructor; [by apply IH |]. apply Forall_app. split; [done | by constructor].
Qed.

Lemma seqZ_sorted a n : StronglySorted Z.le (seqZ a n).
Proof.
  destruct (Z.le_gt_cases n 0) as [Hn | Hn]; [rewrite seqZ_nil by lia; constructor |].
  revert a. remember (Z.to_nat n) as k eqn:Ek. revert n Hn Ek. induction k as [| k IH]; intros n Hn Ek a; [lia |].
  rewrite seqZ_cons by lia. constructor.
  - destruct (Z.eq_dec n 1) as [-> | ?]; [rewrite seqZ_nil by lia; constructor | apply IH; lia].
  - apply Forall_forall. intros x Hx%elem_of_seqZ. lia.
Qed.

Lemma rest_sorted reverse s : single_ok reverse s -> StronglySorted (dle reverse) (rest s).
Proof.
  intros Hs. pose proof Hs as (Hc & Hd & Hi). destruct (collection s) as [| view | ptr | a b |] eqn:E; try done.
  3: { unfold rest. rewrite E, Hd. destruct reverse; [apply sorted_rev |]; apply seqZ_sorted. }
  all: rewrite (rest_stored reverse s Hs) by (by rewrite E); rewrite E; destruct Hc as (Hc & _).
  all: destruct reverse; [apply sorted_rev |]; rewrite <- (take_drop (Z.to_nat (i_it (u s)))) in Hc; by apply sorted_app in Hc as (? & ? & _).
Qed.

Lemma elem_of_rev (l : list Z) x : x ∈ rev l <-> x ∈ l.
Proof. by rewrite !list_elem_of_In, <- in_rev. Qed.

Lemma parts_elem n (l : list Z) x : x ∈ l <-> x ∈ take n l \/ x ∈ drop n l.
Proof. by rewrite <- elem_of_app, take_drop. Qed.

Lemma rest_ids reverse s x : single_ok reverse s -> x ∈ rest s -> x ∈ ids_of (collection s) /\ 0 <= x < IdMax.
Proof.
  intros Hs Hx. pose proof Hs as (Hc & Hd & Hi). destruct (collection s) as [| view | ptr | a b |] eqn:E; try done.
  3: { unfold rest in Hx. rewrite E, Hd in Hx. cbn [ids_of]. cbn in Hc. rewrite elem_of_seqZ.
    destruct reverse; [rewrite elem_of_rev in Hx |]; apply elem_of_seqZ in Hx; lia. }
  all: rewrite (rest_stored reverse s Hs) in Hx by (by rewrite E); rewrite E in Hx; destruct Hc as (_ & Hb & _); cbn [ids_of].
  all: assert (x ∈ stored (collection s)) as Hin by (rewrite E; destruct reverse;
    [rewrite elem_of_rev in Hx; apply (parts_elem (Z.to_nat (i_it (u s)))); by left | apply (parts_elem (Z.to_nat (i_it (u s)))); by right]).
  all: rewrite E in Hin; split; [done |]; by eapply Forall_forall in Hb.
Qed.

Lemma drop_passed reverse b l x : StronglySorted (dle reverse) l ->
  x ∈ drop_while (passed reverse b) l <-> x ∈ l /\ passed reverse b x = false.
Proof.
  induction 1 as [| a l Hl IH Ha]; cbn.
  - split; [intros Hx | intros [Hx _]]; by apply not_elem_of_nil in Hx.
  - destruct (passed reverse b a) eqn:E.
    + rewrite IH, elem_of_cons. split; [tauto |]. intros [[-> | Hx] Hb]; [congruence | done].
    + split; [| tauto]. intros Hx. split; [done |]. apply elem_of_cons in Hx as [-> | Hx]; [done |].
      eapply Forall_forall in Ha; [| done]. apply passed_false in E. apply passed_false. unfold dle in Ha. destruct reverse; lia.
Qed.

(** The start: all the ids are to come. *)
Lemma start_ok reverse s : collection_ok (collection s) -> exists s', Single_Start reverse s = Ok s' /\ single_ok reverse s' /\
  collection s' = collection s /\ i_it (u s') = i_begin (u s') /\ (forall x, x ∈ rest s' <-> x ∈ ids_of (collection s)).
Proof.
  intros Hc. destruct s as [c d uu]. cbn [collection] in *. pose proof (zlen_nonneg (stored c)).
  assert (Z.to_nat (zlen (stored c)) = length (stored c)) as En by (unfold zlen; lia).
  destruct c as [| view | ptr | a b |]; try done; unfold Single_Start; cbn [collection start_iters mbind result_bind mret result_ret].
  3: { cbn in Hc. destruct reverse; unfold Decr; cbn [mbind result_bind mret result_ret].
    - rewrite !(proj2 (Z.eqb_neq _ _)) by (unfold IdMin; lia). eexists. split; [done |].
      split; [| split; [done |]; split; [done |]].
      + split; [done |]. split; [done | cbn; lia].
      + intros x. cbn. rewrite elem_of_rev, !elem_of_seqZ. lia.
    - eexists. split; [done |]. split; [| split; [done |]; split; [done |]].
      + split; [done |]. split; [done | cbn; lia].
      + intros x. cbn. by rewrite !elem_of_seqZ. }
  all: eexists; split; [done |]; split; [split; [done |]; split; [done | cbn in *; destruct reverse; cbn; lia] |];
    split; [done |]; split; [by destruct reverse |].
  all: intros x; cbn in *; unfold rest; destruct reverse; cbn;
    rewrite ?En, ?drop_0, ?take_ge by done; try done; by rewrite elem_of_rev.
Qed.

End SelectKey.

Arguments Collection : clear implicits.
Arguments SingleSelectKeyResult : clear implicits.
