(* ===== verification/SelectMerge.v ===== *)
(** Merging the results of a key into one sorted set: [SelectKeyResult] of
    [core/selectkeyresult.h].

    The three ways of merging start an iteration of every result and move the iterators through
    pointers. Every result is pointed to once, so a span of pointers is the list of the results it
    points to. [std::partition] of the standard library, which leaves the order in the parts open,
    is an interface; [std::make_heap] is the one of [Heap], [boost::sort] the one of [IdSet]. *)

From S2P Require Import Prelude HVector Gallop IdSet Heap SelectKey.

Class Partition : Type := {
  partition : forall {T}, (T -> bool) -> list T -> list T * Z;
  partition_perm : forall {T} (P : T -> bool) l, fst (partition P l) ≡ₚ l;
  partition_parts : forall {T} (P : T -> bool) l, exists a b, partition P l = (a ++ b, zlen a) /\
    Forall (fun x => P x = true) a /\ Forall (fun x => P x = false) b
}.

Section SelectMerge.
Context {S : Type} `{BtreeSet S} {I : Type} `{IndexIterator I} `{Partition} `{MakeHeap}.
Context (pdqsort : list Z -> list Z).

Abbreviation Single := (SingleSelectKeyResult S I).

Record SelectKeyResult : Type := mk_skr {
  results : list Single; deferedExplicitSort : bool; cached : bool
}.

Definition kMinSetsForHeapSort : Z := 16.
Definition kSelectionSortIdsCount : Z := 500.
Definition kMinSetsForGenericSort : Z := 30.

(** ** Costs *)

Definition GetMergeSortCost (idsCount idsetsCount : Z) : Z := u64 (idsCount * idsetsCount).

(** [n * log2(n) + 2 * n] without its fraction; the code computes it in floating point. *)
Definition GetGenericSortCost (idsCount : Z) : Z := Z.log2 (idsCount ^ idsCount) + 2 * idsCount.

Definition IsGenericSortRecommended (idsetsCount idsCount maxIterations : Z) : bool :=
  (kMinSetsForGenericSort <=? idsetsCount) && negb (idsCount =? 0) &&
  (GetGenericSortCost idsCount <? GetMergeSortCost maxIterations idsetsCount).

Definition CostWithDefferedSort (idsetsCount idsCount maxIterations : Z) : Z :=
  let mrgSortCost := GetMergeSortCost maxIterations idsetsCount in
  if (idsetsCount <? kMinSetsForGenericSort) || (idsCount =? 0) then mrgSortCost
  else Z.min (GetGenericSortCost idsCount) mrgSortCost.

(** The answer, and the results, the iterators in which may remember counts. *)
Fixpoint max_iterations (limitIters cnt : Z) (l : list Single) : result (Z * list Single) :=
  match l with
  | [] => Ok (cnt, [])
  | r :: l =>
      '(n, r) ← Single_GetMaxIterations limitIters r;
      let cnt := u64 (cnt + n) in
      if limitIters <? cnt then Ok (limitIters, r :: l)
      else '(cnt, l) ← max_iterations limitIters cnt l; mret (cnt, r :: l)
  end.

Definition GetMaxIterations (limitIters : Z) (s : SelectKeyResult) : result (Z * SelectKeyResult) :=
  '(cnt, l) ← max_iterations limitIters 0 (results s);
  mret (cnt, mk_skr l (deferedExplicitSort s) (cached s)).

(** ** Generic sort: all the ids are copied and sorted *)

Fixpoint copy_all (l : list Single) (ids : base_idset) (rit actualSize : Z) : result (base_idset * Z) :=
  match l with
  | [] => Ok (ids, actualSize)
  | v :: l =>
      match collection v with
      | NotSet | Range _ _ | SingleIterator _ => Fail (Throw errLogic)
      | FlatIdSet _ | TreeIdSet _ =>
          let c := stored (collection v) in
          if size_ ids <? rit + zlen c then Fail Undefined
          else copy_all l (overwrite rit c ids) (rit + zlen c) (actualSize + zlen c)
      end
  end.

Definition mergeGenericSort (idsCount : Z) (l : list Single) : result base_idset :=
  ids ← HVector.resize kHoldSize true false 0 idsCount Vec.make;
  '(ids, actualSize) ← copy_all l ids 0 0;
  if idsCount =? actualSize then BuildFromUnsorted pdqsort ids else Fail AssertFail.

(** ** Selection sort: the least id that was not taken yet, again and again *)

Definition start_one (v : Single) : result Single :=
  match collection v with
  | NotSet | Range _ _ | SingleIterator _ => Fail (Throw errLogic)
  | FlatIdSet _ | TreeIdSet _ => Single_Start false v
  end.

(** The loop that moves an iterator behind [min]. *)
Fixpoint skip (fuel : nat) (ids : list Z) (it end_ min : Z) : result (Z * option Z) :=
  match fuel with
  | O => Fail OutOfFuel
  | Datatypes.S fuel =>
      if it =? end_ then Ok (it, None)
      else
        val ← deref ids it;
        if min <? val then Ok (it, Some val) else skip fuel ids (it + 1) end_ min
  end.

Definition skip_single (v : Single) (it min : Z) : result (Z * option Z) :=
  let ids := stored (collection v) in skip (Datatypes.S (length ids)) ids it (i_end (u v)) min.

(** [std::swap(span[i], span.back())], and the span without the last element. *)
Definition swap_out (span : list Single) (i : Z) : result (list Single) :=
  x ← of_option Undefined (znth span i);
  y ← of_option Undefined (znth span (zlen span - 1));
  mret (take (length span - 1) (zset (zset span i y) (zlen span - 1) x)).

(** The loops over the spans; [i] is the index of [vsIt], [ssIt]. *)
Fixpoint pass (fuel : nat) (span : list Single) (i curMin min : Z) : result (list Single * Z) :=
  match fuel with
  | O => Fail OutOfFuel
  | Datatypes.S fuel =>
      if i =? zlen span then Ok (span, curMin)
      else
        v ← of_option Undefined (znth span i);
        '(it, r) ← skip_single v (i_it (u v)) min;
        let span := zset span i (set_it it v) in
        match r with
        | None => span ← swap_out span i; pass fuel span i curMin min
        | Some val => pass fuel span (i + 1) (if val <? curMin then val else curMin) min
        end
  end.

Fixpoint selection_loop (fuel : nat) (vecSpan setSpan : list Single) (min : Z) (mergedIds : base_idset) : result base_idset :=
  match fuel with
  | O => Fail OutOfFuel
  | Datatypes.S fuel =>
      '(vecSpan, curMin) ← pass (Datatypes.S (length vecSpan)) vecSpan 0 IdMax min;
      '(setSpan, curMin) ← pass (Datatypes.S (length setSpan)) setSpan 0 curMin min;
      if curMin =? IdMax then Ok mergedIds
      else mergedIds ← Vec.push_back curMin mergedIds; selection_loop fuel vecSpan setSpan curMin mergedIds
  end.

Definition is_flat (v : Single) : bool := match collection v with FlatIdSet _ => true | _ => false end.

(** All the ids, with repetitions. *)
Definition all_ids (l : list Single) : list Z := concat ((fun v => stored (collection v)) <$> l).

Definition mergeSelectionSort (idsCount : Z) (l : list Single) : result base_idset :=
  mergedIds ← Vec.reserve idsCount Vec.make;
  let (parts, vecsCnt) := partition is_flat l in
  ptrsVec ← mapM start_one parts;
  selection_loop (Datatypes.S (length (all_ids l))) (take (Z.to_nat vecsCnt) ptrsVec) (drop (Z.to_nat vecsCnt) ptrsVec)
    IdMin mergedIds.

(** ** Heap sort: the result with the least id is at the root of a heap *)

Definition current (v : Single) : option Z := znth (stored (collection v)) (i_it (u v)).

Definition IdSetGreater (l r : Single) : result bool :=
  lval ← of_option Undefined (current l); rval ← of_option Undefined (current r); mret (rval <? lval).

Definition greater (l r : Single) : bool := default 0 (current r) <? default 0 (current l).

(** The comparisons of [std::make_heap] look at all the elements. *)
Definition make_set_heap (ptrs : list Single) : result (list Single) :=
  _ ← mapM (fun v => of_option Undefined (current v)) ptrs; mret (make_heap greater ptrs).

(** [handleMinValue] and the call of [heapifyRoot] for the root [v] of the heap. *)
Definition handleMinValue (v : Single) (span : list Single) (min : Z) (mergedIds : base_idset) :
  result (list Single * Z * base_idset) :=
  val ← of_option Undefined (current v);
  mergedIds ← if min <? val then Vec.push_back val mergedIds else Ok mergedIds;
  let min := if min <? val then val else min in
  '(it, r) ← skip_single v (i_it (u v) + 1) min;
  let span := zset span 0 (set_it it v) in
  span ← match r with None => swap_out span 0 | Some _ => Ok span end;
  mret (span, min, mergedIds).

Fixpoint heap_loop (fuel : nat) (span : list Single) (min : Z) (mergedIds : base_idset) : result base_idset :=
  match fuel with
  | O => Fail OutOfFuel
  | Datatypes.S fuel =>
      match span with
      | [] => Ok mergedIds
      | v :: _ =>
          '(span, min, mergedIds) ← handleMinValue v span min mergedIds;
          span ← heapifyRoot IdSetGreater span;
          heap_loop fuel span min mergedIds
      end
  end.

Definition mergeHeapSort (idsCount : Z) (l : list Single) : result base_idset :=
  mergedIds ← Vec.reserve idsCount Vec.make;
  ptrsVec ← mapM start_one l;
  span ← make_set_heap ptrsVec;
  heap_loop (Datatypes.S (length (all_ids l))) span IdMin mergedIds.

(** ** [MergeIdsets] *)

Definition MergeIdsets (genericSort shrinkResult : bool) (idsCount : Z) (s : SelectKeyResult) : result (base_idset * SelectKeyResult) :=
  let size := zlen (results s) in
  mergedIds ← if genericSort then mergeGenericSort idsCount (results s)
              else if (idsCount <? kSelectionSortIdsCount) || (size <? kMinSetsForHeapSort) then mergeSelectionSort idsCount (results s)
              else mergeHeapSort idsCount (results s);
  mergedIds ← if shrinkResult then Vec.shrink_to_fit mergedIds else Ok mergedIds;
  mret (mergedIds, mk_skr [of_collection (FlatIdSet (elements mergedIds))] false (cached s)).

(** ** Results in the middle of a merge *)

Definition mergeable (v : Single) : Prop :=
  match collection v with FlatIdSet _ | TreeIdSet _ => ids_ok (stored (collection v)) | _ => False end.

Definition running (v : Single) : Prop :=
  ids_ok (stored (collection v)) /\ i_end (u v) = zlen (stored (collection v)) /\ 0 <= i_it (u v) <= zlen (stored (collection v)).

(** The ids that the iterator has not passed. *)
Definition left_ids (v : Single) : list Z := drop (Z.to_nat (i_it (u v))) (stored (collection v)).

Abbreviation left_in l x := (Exists (fun v => x ∈ left_ids v) l).

Lemma left_sorted v : running v -> StronglySorted Z.le (left_ids v).
Proof.
  intros ((Hs & _) & _). unfold left_ids. rewrite <- (take_drop (Z.to_nat (i_it (u v)))) in Hs. by apply sorted_app in Hs as (_ & Hs & _).
Qed.

Lemma left_stored v x : x ∈ left_ids v -> x ∈ stored (collection v).
Proof. unfold left_ids. intros Hx. rewrite <- (take_drop (Z.to_nat (i_it (u v)))). apply elem_of_app. by right. Qed.

Lemma current_left v : running v -> current v = head (left_ids v).
Proof. intros (_ & _ & Hi). unfold current, left_ids. by rewrite head_drop by lia. Qed.

Lemma drop_while_elem b l x : StronglySorted Z.le l -> x ∈ drop_while (fun y => y <=? b) l <-> x ∈ l /\ b < x.
Proof.
  induction 1 as [| a l Hl IH Ha]; cbn.
  - split; [intros Hx | intros [Hx _]]; by apply not_elem_of_nil in Hx.
  - destruct (Z.leb_spec a b).
    + rewrite IH, elem_of_cons. split; [tauto |]. intros [[-> | Hx] Hb]; [lia | done].
    + split; [| tauto]. intros Hx. split; [done |]. apply elem_of_cons in Hx as [-> | Hx]; [done |].
      eapply Forall_forall in Ha; [| done]. lia.
Qed.

Lemma drop_while_length P (l : list Z) : (length (drop_while P l) <= length l)%nat.
Proof. induction l as [| a l IH]; cbn; [done |]. destruct (P a); cbn; lia. Qed.

Lemma head_least l y x : StronglySorted Z.le l -> head l = Some y -> x ∈ l -> y <= x.
Proof.
  intros Hs Hy Hx. destruct l as [| z l]; [done |]. injection Hy as ->. inversion_clear Hs as [| ? ? _ Hl].
  apply elem_of_cons in Hx as [-> | Hx]; [lia |]. by eapply Forall_forall in Hl.
Qed.

Lemma skip_ok fuel ids it min : 0 <= it <= zlen ids -> zlen ids - it < Z.of_nat fuel ->
  exists it', skip fuel ids it (zlen ids) min = Ok (it', head (drop (Z.to_nat it') ids)) /\ it <= it' <= zlen ids /\
    drop (Z.to_nat it') ids = drop_while (fun y => y <=? min) (drop (Z.to_nat it) ids).
Proof.
  revert it. induction fuel as [| fuel IH]; intros it Hi Hf; [lia |]. cbn [skip].
  destruct (Z.eqb_spec it (zlen ids)) as [-> | Hne].
  - exists (zlen ids). rewrite drop_ge by (unfold zlen; lia). split_and!; done || lia.
  - destruct (znth_lt ids it) as [y Hy]; [lia |]. rewrite (deref_Some _ _ _ Hy). cbn [mbind result_bind].
    assert (drop (Z.to_nat it) ids = y :: drop (Z.to_nat (it + 1)) ids) as Ed.
    { replace (Z.to_nat (it + 1)) with (Datatypes.S (Z.to_nat it)) by lia. apply drop_S. unfold znth in Hy. by case_decide. }
    destruct (Z.ltb_spec min y) as [Hm | Hm].
    + exists it. rewrite Ed. cbn. rewrite (proj2 (Z.leb_gt _ _)) by done. split_and!; done || lia.
    + destruct (IH (it + 1)) as (it' & E & Hi' & Hd); [lia | lia |]. exists it'. rewrite Ed. cbn [drop_while].
      rewrite (proj2 (Z.leb_le _ _)) by done. split_and!; done || lia.
Qed.

(** The iterator of a result moved behind [min], from its place or from the next one. *)
Lemma skip_single_ok v it min : running v -> i_it (u v) <= it <= zlen (stored (collection v)) ->
  exists it', skip_single v it min = Ok (it', head (left_ids (set_it it' v))) /\ running (set_it it' v) /\
    left_ids (set_it it' v) = drop_while (fun y => y <=? min) (drop (Z.to_nat it) (stored (collection v))).
Proof.
  intros (Hids & He & Hi) Hit. unfold skip_single. rewrite He.
  destruct (skip_ok (Datatypes.S (length (stored (collection v)))) (stored (collection v)) it min) as (it' & -> & Hi' & Hd);
    [lia | unfold zlen; lia |].
  exists it'. split; [done |]. split; [| done]. split; [done |]. split; [done | cbn; lia].
Qed.

(** ** Selection sort *)

Lemma swap_out_end dn v : swap_out (dn ++ [v]) (zlen dn) = Ok dn.
Proof.
  unfold swap_out. rewrite (znth_mid dn _ _ (zlen dn)) by done. cbn [of_option mbind result_bind].
  replace (zlen (dn ++ [v]) - 1) with (zlen dn) by (rewrite zlen_app, zlen_cons, zlen_nil; lia).
  rewrite znth_mid by done. cbn [of_option mbind result_bind]. rewrite !zset_mid by done.
  cbn [mret result_ret]. rewrite length_app. cbn. by rewrite Nat.add_sub, take_app_length.
Qed.

Lemma swap_out_mid dn v td b : swap_out (dn ++ v :: td ++ [b]) (zlen dn) = Ok (dn ++ b :: td).
Proof.
  assert (forall x y : Single, dn ++ x :: td ++ [y] = (dn ++ x :: td) ++ [y]) as Ea by (intros; by rewrite <- app_assoc).
  assert (zlen (dn ++ v :: td ++ [b]) - 1 = zlen (dn ++ b :: td)) as En.
  { rewrite Ea, !zlen_app, !zlen_cons, zlen_nil. lia. }
  unfold swap_out. rewrite En, (znth_mid dn _ _ (zlen dn)) by done. cbn [of_option mbind result_bind].
  replace (znth (dn ++ v :: td ++ [b]) (zlen (dn ++ b :: td))) with (Some b).
  2: { rewrite Ea. symmetry. apply znth_mid. by rewrite !zlen_app, !zlen_cons. }
  cbn [of_option mbind result_bind mret result_ret]. rewrite (zset_mid dn _ _ _ (zlen dn)) by done. rewrite (Ea b b).
  rewrite (zset_mid (dn ++ b :: td) [] b v (zlen (dn ++ b :: td))) by done. f_equal.
  assert (length (dn ++ v :: td ++ [b]) - 1 = length (dn ++ b :: td))%nat as -> by (unfold zlen in En; lia).
  apply take_app_length.
Qed.

(** One loop over a span: the results behind [min] stay, and the least of their ids is found. *)
Definition passed_span (min : Z) (span0 span : list Single) (curMin0 curMin : Z) : Prop :=
  Forall running span /\ (forall x, min < x -> left_in span x <-> left_in span0 x) /\
  (forall x, left_in span x -> min < x /\ curMin <= x) /\
  (curMin = curMin0 \/ left_in span curMin) /\ curMin <= curMin0.

Lemma pass_step v min td dn curMin0 : running v ->
  exists it r, skip_single v (i_it (u v)) min = Ok (it, r) /\ running (set_it it v) /\
    match r with
    | None => forall x, min < x -> left_in (dn ++ td) x <-> left_in (dn ++ v :: td) x
    | Some val =>
        (forall x, min < x -> left_in (dn ++ set_it it v :: td) x <-> left_in (dn ++ v :: td) x) /\
        (forall x, x ∈ left_ids (set_it it v) -> min < x /\ Z.min val curMin0 <= x) /\ val ∈ left_ids (set_it it v)
    end.
Proof.
  intros Hv. pose proof Hv as (_ & _ & Hi). destruct (skip_single_ok v (i_it (u v)) min Hv) as (it & E & Hv' & Hd); [lia |].
  exists it, (head (left_ids (set_it it v))). split; [done |]. split; [done |]. change (drop _ _) with (left_ids v) in Hd.
  assert (forall x, x ∈ left_ids (set_it it v) <-> x ∈ left_ids v /\ min < x) as Hx.
  { intros x. rewrite Hd. by apply drop_while_elem, left_sorted. }
  destruct (head (left_ids (set_it it v))) as [val |] eqn:Eh.
  - assert (val ∈ left_ids (set_it it v)) as Hval by (destruct (left_ids (set_it it v)); [done | injection Eh as ->; by left]).
    split_and!; [| | done].
    + intros x Hm. rewrite !Exists_app, !Exists_cons, Hx. tauto.
    + intros x Hin. split; [by apply Hx |]. pose proof (head_least _ _ _ (left_sorted _ Hv') Eh Hin). lia.
  - intros x Hm. rewrite !Exists_app, Exists_cons. split; [tauto |]. intros [? | [Hl | ?]]; [by left | | by right].
    assert (x ∈ left_ids (set_it it v)) as Hin by (by apply Hx). destruct (left_ids (set_it it v)); [| done].
    by apply not_elem_of_nil in Hin.
Qed.

Lemma pass_ok fuel min td : forall dn curMin, (length td < fuel)%nat -> Forall running dn -> Forall running td ->
  (forall x, left_in dn x -> min < x /\ curMin <= x) -> 
  exists span curMin', pass fuel (dn ++ td) (zlen dn) curMin min = Ok (span, curMin') /\
    passed_span min (dn ++ td) span curMin curMin'.
Proof.
  unfold passed_span. remember (length td) as n eqn:En. revert fuel td En. induction n as [| n IH]; intros fuel td En dn curMin Hf Hdn Htd Hmin.
  - destruct fuel as [| fuel]; [lia |]. destruct td; [| done]. rewrite app_nil_r. cbn [pass]. rewrite Z.eqb_refl.
    exists dn, curMin. split_and!; [done | done | done | done | by left | lia].
  - destruct fuel as [| fuel]; [lia |]. destruct td as [| v td]; [done |]. injection En as En. cbn [pass].
    rewrite (proj2 (Z.eqb_neq _ _)) by (rewrite zlen_app, zlen_cons; pose proof (zlen_nonneg td); lia).
    rewrite znth_mid by done. cbn [of_option mbind result_bind]. inversion_clear Htd as [| ? ? Hv Htd'].
    destruct (pass_step v min td dn curMin Hv) as (it & [val |] & -> & Hv' & Hr); cbn [mbind result_bind];
      rewrite (zset_mid dn _ _ _ (zlen dn)) by done.
    + destruct Hr as (Ha & Hb & Hc0).
      destruct (IH fuel td En (dn ++ [set_it it v]) (Z.min val curMin)) as (span & curMin' & E & Hs & Hx & Hm & Hc & Hl).
      { lia. } { by apply Forall_app_2; [| constructor]. } { done. }
      { intros x. rewrite Exists_app, Exists_cons. intros [Hx | [Hx | Hx]]; [apply Hmin in Hx; lia | by apply Hb | by inversion Hx]. }
      rewrite <- app_assoc, zlen_app, zlen_cons, zlen_nil in E. cbn [app] in E. rewrite <- app_assoc in Hx. cbn [app] in Hx.
      exists span, curMin'. replace (if val <? curMin then val else curMin) with (Z.min val curMin) by (destruct (Z.ltb_spec val curMin); lia).
      replace (zlen dn + 1) with (zlen dn + (1 + 0)) by lia. split; [done |]. split; [done |].
      split; [intros x Hxm; by rewrite Hx, Ha |]. split; [done |]. split; [| lia].
      destruct Hc as [-> | Hc]; [| by right]. destruct (Z.le_gt_cases curMin val); [left; lia | right].
      rewrite Z.min_l by lia. apply Hx; [by apply Hb |]. rewrite Exists_app, Exists_cons. auto.
    + destruct td as [| b td _] using rev_ind.
      * rewrite swap_out_end. cbn [mbind result_bind]. destruct n; [| done].
        destruct (IH fuel [] eq_refl dn curMin) as (span & curMin' & E & Hx); [lia | done | done | done |].
        rewrite app_nil_r in E, Hx, Hr. exists span, curMin'. split; [done |].
        destruct Hx as (? & Hx & ?). split; [done |]. split; [| done]. intros x Hxm. by rewrite Hx, <- Hr.
      * rewrite swap_out_mid. cbn [mbind result_bind]. rewrite length_app, Nat.add_comm in En. cbn in En.
        destruct (IH fuel (b :: td) En dn curMin) as (span & curMin' & E & Hs & Hx & Hrest); [lia | done | | done |].
        { apply Forall_app in Htd' as [? Hl]. inversion_clear Hl. by constructor. }
        exists span, curMin'. split; [done |]. split; [done |]. split; [| done]. intros x Hxm. rewrite Hx, <- Hr by done.
        rewrite !Exists_app, !Exists_cons, Exists_nil. tauto.
Qed.

(** The ids above [min]. *)
Definition above (min : Z) (U : list Z) : Z := zlen (filter (fun x => min < x) U).

Lemma above_less min m U : min < m -> m ∈ U -> above m U + 1 <= above min U.
Proof.
  intros Hm. unfold above. induction U as [| a U IH]; intros Hin; [by apply not_elem_of_nil in Hin |].
  assert (zlen (filter (fun x => m < x) U) <= zlen (filter (fun x => min < x) U)) as Hle.
  { clear - Hm. induction U as [| b U IH]; [done |]. rewrite !filter_cons. repeat case_decide; rewrite ?zlen_cons; lia. }
  rewrite !filter_cons. apply elem_of_cons in Hin as [-> | Hin].
  - rewrite decide_False, decide_True by lia. rewrite zlen_cons. lia.
  - specialize (IH Hin). repeat case_decide; rewrite ?zlen_cons; lia.
Qed.

Lemma push_id x h l : vec h l -> zlen l + 1 <= max_size -> exists h', Vec.push_back x h = Ok h' /\ vec h' (l ++ [x]).
Proof. intros Hh Hl. destruct (push_back_ok kHoldSize true kHold_ok x h l Hh Hl) as (h' & E & Hh' & _). by exists h'. Qed.

Lemma ssorted_snoc l x : ssorted l -> (forall y, y ∈ l -> y < x) -> ssorted (l ++ [x]).
Proof.
  intros Hl Hx. apply ssorted_app. split_and!; [done | by repeat constructor |].
  intros y z Hy ->%list_elem_of_singleton. by apply Hx.
Qed.

(** The sorted set of the ids. *)
Definition union_of (U : list Z) (r : result base_idset) : Prop :=
  exists h l, r = Ok h /\ vec h l /\ ssorted l /\ (forall x, x ∈ l <-> x ∈ U).

Lemma selection_loop_ok U fuel : forall vs ss min h l, Forall running vs -> Forall running ss ->
  Forall (fun x => x < IdMax) U -> above min U < Z.of_nat fuel -> zlen l + above min U <= max_size ->
  vec h l -> ssorted l -> (forall x, x ∈ l <-> x ∈ U /\ x <= min) ->
  (forall x, min < x -> x ∈ U <-> left_in vs x \/ left_in ss x) ->
  union_of U (selection_loop fuel vs ss min h).
Proof.
  induction fuel as [| fuel IH]; intros vs ss min h l Hvs Hss HU Hf Hz Hh Hl Hlow Hup; [unfold above, zlen in Hf; lia |].
  cbn [selection_loop].
  destruct (pass_ok (Datatypes.S (length vs)) min vs [] IdMax) as (vs' & m1 & E1 & Hvs' & Hx1 & Hm1 & Hc1 & Hl1); [lia | done | done | |].
  { intros x Hx. by apply Exists_nil in Hx. }
  destruct (pass_ok (Datatypes.S (length ss)) min ss [] m1) as (ss' & m2 & E2 & Hss' & Hx2 & Hm2 & Hc2 & Hl2); [lia | done | done | |].
  { intros x Hx. by apply Exists_nil in Hx. }
  cbn [app] in *. change (zlen []) with 0 in *. rewrite E1. cbn [mbind result_bind]. rewrite E2. cbn [mbind result_bind].
  assert (forall x, min < x -> x ∈ U <-> left_in vs' x \/ left_in ss' x) as Hup' by (intros x Hx; by rewrite Hup, Hx1, Hx2).
  assert (forall x, x ∈ U -> min < x -> m2 <= x) as Hleast.
  { intros x Hx Hm. apply Hup' in Hx as [Hx | Hx]; [apply Hm1 in Hx; lia | apply Hm2 in Hx; lia | done]. }
  destruct (Z.eqb_spec m2 IdMax) as [-> | Hne].
  - exists h, l. split_and!; [done | done | done |]. intros x. rewrite Hlow. split; [by intros [] |]. intros Hx. split; [done |].
    destruct (Z.le_gt_cases x min) as [| Hgt]; [done |]. pose proof (Hleast x Hx ltac:(lia)).
    eapply Forall_forall in HU; [| done]. cbn in HU. lia.
  - assert (left_in vs' m2 \/ left_in ss' m2) as Hin.
    { destruct Hc2 as [-> | ?]; [| by right]. destruct Hc1 as [-> | ?]; [done | by left]. }
    assert (min < m2) as Hgt by (destruct Hin as [Hin | Hin]; [apply Hm1 in Hin; lia | apply Hm2 in Hin; lia]).
    assert (m2 ∈ U) as HinU by (by apply Hup'). pose proof (above_less min m2 U Hgt HinU) as Ha.
    assert (0 <= above m2 U) by (unfold above, zlen; lia).
    destruct (push_id m2 h l Hh) as (h' & -> & Hh'); [lia |]. cbn [mbind result_bind].
    apply (IH vs' ss' m2 h' (l ++ [m2])); [done | done | done | lia | rewrite zlen_app, zlen_cons, zlen_nil; lia | done | | |].
    + apply ssorted_snoc; [done |]. intros y Hy. apply Hlow in Hy. lia.
    + intros x. rewrite elem_of_app, list_elem_of_singleton, Hlow. split.
      * intros [[? ?] | ->]; (split; [done | lia]).
      * intros [Hx Hle]. destruct (Z.le_gt_cases x min); [by left |]. right. pose proof (Hleast x Hx ltac:(lia)). lia.
    + intros x Hx. apply Hup'. lia.
Qed.

(** *** The start of an iteration *)

Definition started (v : Single) : Single :=
  mk_single (collection v) Forward (mk_iters 0 (zlen (stored (collection v))) 0).

Lemma mergeable_ids v : mergeable v -> ids_ok (stored (collection v)).
Proof. unfold mergeable. by destruct (collection v). Qed.

Lemma start_all l : Forall mergeable l -> mapM start_one l = Ok (map started l).
Proof.
  intros Hl. induction Hl as [| v l Hv _ IH]; [done |]. cbn [mapM map]. rewrite IH.
  unfold start_one, started. unfold mergeable in Hv. by destruct v as [[] d uu].
Qed.

Lemma started_running v : mergeable v -> running (started v).
Proof.
  intros Hv. split; [by apply mergeable_ids |]. split; [done |]. cbn. pose proof (zlen_nonneg (stored (collection v))). lia.
Qed.

Lemma started_left v x : x ∈ left_ids (started v) <-> x ∈ stored (collection v).
Proof. done. Qed.

Lemma all_ids_elem l x : x ∈ all_ids l <-> Exists (fun v => x ∈ stored (collection v)) l.
Proof.
  unfold all_ids. induction l as [| v l IH]; cbn.
  - split; [intros Hx; by apply not_elem_of_nil in Hx | by intros ?%Exists_nil].
  - by rewrite elem_of_app, Exists_cons, IH.
Qed.

Lemma started_all l x : left_in (map started l) x <-> x ∈ all_ids l.
Proof.
  rewrite all_ids_elem. induction l as [| v l IH]; cbn; [by rewrite !Exists_nil |]. by rewrite !Exists_cons, IH.
Qed.

Lemma all_ids_bounds l : Forall mergeable l -> Forall (fun x => 0 <= x < IdMax) (all_ids l).
Proof.
  intros Hl. apply Forall_forall. intros x Hx%all_ids_elem. apply Exists_exists in Hx as (v & Hv & Hx).
  eapply Forall_forall in Hl; [| done]. apply mergeable_ids in Hl as (_ & Hb & _).
  eapply Forall_forall in Hb; [| done]. unfold IdMin, IdMax in *. cbn in Hb. lia.
Qed.

Lemma started_all_running l : Forall mergeable l -> Forall running (map started l).
Proof. intros Hl. apply Forall_map. eapply Forall_impl; [done |]. apply started_running. Qed.

Lemma reserve_make n : n <= max_size -> exists h, Vec.reserve n Vec.make = Ok h /\ vec h [].
Proof.
  intros Hn. destruct (Vec_reserve_ok n Vec.make []) as [(_ & h & E & Hh & _) | [? _]]; [by apply hv_make | by exists h | lia].
Qed.

Lemma mergeSelectionSort_ok idsCount l : Forall mergeable l -> idsCount <= max_size -> zlen (all_ids l) <= max_size ->
  union_of (all_ids l) (mergeSelectionSort idsCount l).
Proof.
  intros Hl Hc Hz. unfold mergeSelectionSort. destruct (reserve_make idsCount Hc) as (h & -> & Hh). cbn [mbind result_bind].
  pose proof (partition_perm is_flat l) as Hp. destruct (partition_parts is_flat l) as (a & b & E & _). rewrite E in *. cbn [fst] in Hp.
  assert (Forall mergeable (a ++ b)) as Hab by (by rewrite Hp). rewrite start_all by done. cbn [mbind result_bind].
  rewrite map_app. rewrite (Nat2Z.id (length a) : Z.to_nat (zlen a) = length a), take_app_length', drop_app_length' by (by rewrite length_map).
  apply Forall_app in Hab as [Ha Hb]. pose proof (all_ids_bounds l Hl) as Hbnd.
  assert (above IdMin (all_ids l) <= zlen (all_ids l)) as Hab.
  { unfold above, zlen. pose proof (length_filter (fun x => IdMin < x) (all_ids l)). lia. }
  apply (selection_loop_ok (all_ids l) _ _ _ IdMin h []); [by apply started_all_running | by apply started_all_running | | | | done | constructor | |].
  - eapply Forall_impl; [done |]. cbn. lia.
  - unfold zlen in *. lia.
  - rewrite zlen_nil. lia.
  - intros x. split; [intros Hx; by apply not_elem_of_nil in Hx |]. intros [Hx Hle].
    eapply Forall_forall in Hbnd; [| done]. cbn in Hbnd. unfold IdMin in *. lia.
  - intros x _. rewrite !started_all, !all_ids_elem, <- Exists_app. by rewrite Hp.
Qed.

(** ** Heap sort *)

Definition alive (v : Single) : Prop := running v /\ left_ids v <> [].

Lemma alive_current v : alive v -> exists y, current v = Some y /\ y ∈ left_ids v /\ forall x, x ∈ left_ids v -> y <= x.
Proof.
  intros [Hv Hne]. rewrite (current_left v Hv). destruct (left_ids v) as [| y l] eqn:E; [done |]. exists y. cbn. split; [done |].
  split; [by left |]. intros x Hx. apply (head_least (y :: l)); [rewrite <- E; by apply left_sorted | done | done].
Qed.

Lemma greater_asym x y : greater x y = true -> greater y x = false.
Proof. unfold greater. rewrite Z.ltb_lt, Z.ltb_ge. lia. Qed.

Lemma greater_trans x y z : greater x y = false -> greater y z = false -> greater x z = false.
Proof. unfold greater. rewrite !Z.ltb_ge. lia. Qed.

Lemma IdSetGreater_ok x y : alive x -> alive y -> IdSetGreater x y = Ok (greater x y).
Proof.
  intros Hx Hy. destruct (alive_current x Hx) as (a & Ea & _), (alive_current y Hy) as (b & Eb & _).
  unfold IdSetGreater, greater. by rewrite Ea, Eb.
Qed.

Lemma make_set_heap_ok l `{!MakeHeapLaws} : Forall alive l -> exists k, make_set_heap l = Ok k /\ k ≡ₚ l /\ is_heap greater k.
Proof.
  intros Hl. exists (make_heap greater l). split.
  - unfold make_set_heap. assert (exists r, mapM (fun v => of_option Undefined (current v)) l = Ok r) as [r ->]; [| done].
    induction Hl as [| v l Hv _ [r IH]]; [by exists [] |]. destruct (alive_current v Hv) as (y & E & _).
    exists (y :: r). cbn. by rewrite E, IH.
  - split; [apply make_heap_perm | apply make_heap_heap; [apply greater_asym | apply greater_trans]].
Qed.

Definition total (span : list Single) : Z := zlen (concat (left_ids <$> span)).

Lemma total_cons v l : total (v :: l) = zlen (left_ids v) + total l.
Proof. unfold total. cbn. by rewrite zlen_app. Qed.

Lemma total_perm l k : l ≡ₚ k -> total l = total k.
Proof. induction 1; rewrite ?total_cons; lia. Qed.

(** A step of the loop: the root moves behind the least id, or leaves the heap. *)
Lemma handleMinValue_ok v td min h l : alive v -> is_heap greater (v :: td) -> Forall alive td -> vec h l -> zlen l + 1 <= max_size ->
  exists val span h', 
    handleMinValue v (v :: td) min h = Ok (span, Z.max min val, h') /\ current v = Some val /\
    vec h' (if min <? val then l ++ [val] else l) /\ Forall alive span /\ heap_but greater 0 span /\
    (forall x, left_in span x <-> (x ∈ left_ids v /\ Z.max min val < x \/ left_in td x)) /\ total span < total (v :: td).
Proof.
  intros Hv Hh Htd Hvec Hz. destruct (alive_current v Hv) as (val & Ec & Hval & Hleast). destruct Hv as [Hv Hne].
  unfold handleMinValue. rewrite Ec. cbn [of_option mbind result_bind].
  assert (exists h', (if min <? val then Vec.push_back val h else Ok h) = Ok h' /\ vec h' (if min <? val then l ++ [val] else l)) as (h' & -> & Hh').
  { destruct (min <? val); [by apply push_id | by exists h]. }
  cbn [mbind result_bind]. replace (if min <? val then val else min) with (Z.max min val) by (destruct (Z.ltb_spec min val); lia).
  pose proof Hv as (_ & _ & Hi). pose proof (current_left v Hv) as Hcl. rewrite Ec in Hcl.
  assert (left_ids v = val :: drop (Z.to_nat (i_it (u v) + 1)) (stored (collection v))) as El.
  { unfold current, znth in Ec. case_decide; [| done]. unfold left_ids. rewrite (drop_S _ val) by done. f_equal. f_equal. lia. }
  assert (i_it (u v) + 1 <= zlen (stored (collection v))) as Hi2 by (apply znth_Some in Ec; lia).
  destruct (skip_single_ok v (i_it (u v) + 1) (Z.max min val) Hv) as (it & -> & Hv' & Hd); [lia |].
  cbn [mbind result_bind]. change (zset (v :: td) 0 (set_it it v)) with (set_it it v :: td).
  assert (forall x, x ∈ left_ids (set_it it v) <-> x ∈ left_ids v /\ Z.max min val < x) as Hx.
  { intros x. rewrite Hd, drop_while_elem, El, elem_of_cons.
    - split; [tauto |]. intros [[-> | ?] ?]; [lia | done].
    - pose proof (left_sorted v Hv) as Hs. rewrite El in Hs. by inversion Hs. }
  assert (zlen (left_ids (set_it it v)) < zlen (left_ids v)) as Hless.
  { rewrite Hd, El, zlen_cons. unfold zlen. pose proof (drop_while_length (fun y => y <=? Z.max min val) (drop (Z.to_nat (i_it (u v) + 1)) (stored (collection v)))). lia. }
  destruct (head (left_ids (set_it it v))) as [w |] eqn:Eh.
  - cbn [mbind result_bind]. exists val, (set_it it v :: td), h'. split_and!; [done | done | done | | | |].
    + constructor; [| done]. split; [done |]. by destruct (left_ids (set_it it v)).
    + apply (heap_but_root greater v _ _ []). by rewrite app_nil_r.
    + intros x. by rewrite Exists_cons, Hx.
    + rewrite !total_cons. lia.
  - assert (forall x, ~ (x ∈ left_ids v /\ Z.max min val < x)) as Hno.
    { intros x. rewrite <- Hx. destruct (left_ids (set_it it v)); [apply not_elem_of_nil | done]. }
    assert (left_ids (set_it it v) = []) as Enil by (by destruct (left_ids (set_it it v))).
    pose proof (zlen_nonneg (left_ids (set_it it v))). destruct td as [| b td _] using rev_ind.
    + pose proof (swap_out_end [] (set_it it v)) as Es. cbn [app] in Es. change (zlen []) with 0 in Es. rewrite Es. cbn [mbind result_bind].
      exists val, [], h'. split_and!; [done | done | done | constructor | split; [by intros ? ? ? ? ? ? ? | lia] | |].
      * intros x. rewrite Exists_nil. pose proof (Hno x). tauto.
      * rewrite total_cons. unfold total. cbn. rewrite zlen_nil. lia.
    + pose proof (swap_out_mid [] (set_it it v) td b) as Es. cbn [app] in Es. change (zlen []) with 0 in Es. rewrite Es. cbn [mbind result_bind].
      exists val, (b :: td), h'. split_and!; [done | done | done | | by apply (heap_but_root greater v _ _ [b]) | |].
      * apply Forall_app in Htd as [? Hb]. inversion_clear Hb. by constructor.
      * intros x. rewrite Exists_cons, Exists_app, Exists_cons, Exists_nil. pose proof (Hno x). tauto.
      * rewrite (total_cons v), (total_perm (td ++ [b]) (b :: td)) by apply Permutation_app_comm. rewrite !total_cons. lia.
Qed.

Lemma heap_loop_ok U fuel : forall span min h l, Forall alive span -> is_heap greater span ->
  total span < Z.of_nat fuel -> zlen l + total span <= max_size -> vec h l -> ssorted l -> (forall x, x ∈ l -> x <= min) ->
  (forall x, left_in span x -> min < x \/ x = min /\ x ∈ l) -> (forall x, x ∈ U <-> x ∈ l \/ left_in span x) ->
  union_of U (heap_loop fuel span min h).
Proof.
  induction fuel as [| fuel IH]; intros span min h l Hs Hh Hf Hz Hvec Hl Hle Hmin HU; [unfold total, zlen in Hf; lia |].
  destruct span as [| v td]; cbn [heap_loop].
  - exists h, l. split_and!; [done.. |]. intros x. rewrite HU, Exists_nil. tauto.
  - inversion_clear Hs as [| ? ? Hv Htd]. destruct (alive_current v Hv) as (val0 & Ec0 & Hval & Hleast).
    assert (1 <= total (v :: td)) as Ht.
    { rewrite total_cons. destruct (left_ids v); [by apply not_elem_of_nil in Hval |]. rewrite zlen_cons. unfold total, zlen. lia. }
    destruct (handleMinValue_ok v td min h l Hv Hh Htd Hvec) as (val & span & h' & -> & Ec & Hh' & Hs' & Hb & Hx & Htot); [lia |].
    rewrite Ec0 in Ec. injection Ec as ->. cbn [mbind result_bind].
    assert (forall x, left_in td x -> val <= x) as Htdl.
    { intros x Hxt. apply Exists_exists in Hxt as (w & Hw & Hxw). apply list_elem_of_lookup in Hw as [k Hk].
      destruct (alive_current w) as (y & Ey & _ & Hy); [by eapply Forall_lookup in Htd |].
      pose proof (heap_root greater greater_asym greater_trans (v :: td) v (Datatypes.S k) w Hh eq_refl Hk) as Hg.
      unfold greater in Hg. rewrite Ec0, Ey in Hg. cbn in Hg. apply Z.ltb_ge in Hg. pose proof (Hy x Hxw). lia. }
    assert (min < val \/ val = min /\ val ∈ l) as Hmv by (apply Hmin; rewrite Exists_cons; by left).
    destruct (heapifyRoot_ok IdSetGreater greater greater_asym greater_trans span) as (span' & -> & Hp & Hh2); [| done |].
    { intros x y Hxs Hys. eapply Forall_forall in Hxs, Hys; [| done..]. by apply IdSetGreater_ok. }
    cbn [mbind result_bind]. rewrite Z.max_r in * by lia.
    assert (forall x, left_in span' x <-> x ∈ left_ids v /\ val < x \/ left_in td x) as Hx' by (intros x; by rewrite Hp).
    apply (IH span' val h' (if min <? val then l ++ [val] else l)); [by rewrite Hp | done | | | done | | | |].
    + rewrite (total_perm _ _ Hp). lia.
    + rewrite (total_perm _ _ Hp). destruct (min <? val); rewrite ?zlen_app, ?zlen_cons, ?zlen_nil; lia.
    + destruct (Z.ltb_spec min val); [| done]. apply ssorted_snoc; [done |]. intros y Hy. apply Hle in Hy. lia.
    + intros x Hxl. destruct (Z.ltb_spec min val); [apply elem_of_app in Hxl as [Hxl | ->%list_elem_of_singleton] |];
        [apply Hle in Hxl; lia | lia | apply Hle in Hxl; lia].
    + intros x [[_ Hxv] | Hxt]%Hx'; [by left |]. pose proof (Htdl x Hxt). destruct (Z.eq_dec x val) as [-> | ?]; [right | left; lia].
      split; [done |]. destruct (Z.ltb_spec min val); [| by destruct Hmv as [? | []]; [lia |]]. rewrite elem_of_app, list_elem_of_singleton. auto.
    + intros x. rewrite HU, Hx', Exists_cons. destruct (Z.ltb_spec min val) as [Hlt | Hge].
      * rewrite elem_of_app, list_elem_of_singleton. split; [| intros [[? | ->] | [[] | ?]]; auto].
        intros [? | [Hxv | ?]]; [by left; left | | by right; right]. pose proof (Hleast x Hxv).
        destruct (Z.eq_dec x val) as [-> | ?]; [by left; right | right; left; split; [done | lia]].
      * destruct Hmv as [? | [_ Hvl]]; [lia |]. split; [| intros [? | [[] | ?]]; auto].
        intros [? | [Hxv | ?]]; [by left | | by right; right]. pose proof (Hleast x Hxv).
        destruct (Z.eq_dec x val) as [-> | ?]; [by left | right; left; split; [done | lia]].
Qed.

Lemma mergeHeapSort_ok idsCount l `{!MakeHeapLaws} : Forall mergeable l -> Forall (fun v => stored (collection v) <> []) l ->
  idsCount <= max_size -> zlen (all_ids l) <= max_size -> union_of (all_ids l) (mergeHeapSort idsCount l).
Proof.
  intros Hl Hne Hc Hz. unfold mergeHeapSort. destruct (reserve_make idsCount Hc) as (h & -> & Hh). cbn [mbind result_bind].
  rewrite start_all by done. cbn [mbind result_bind].
  destruct (make_set_heap_ok (map started l)) as (k & -> & Hp & Hk).
  { apply Forall_map, Forall_and. split; [| done]. eapply Forall_impl; [exact Hl |]. apply started_running. }
  cbn [mbind result_bind]. assert (total (map started l) = zlen (all_ids l)) as Ht.
  { unfold total, all_ids. f_equal. f_equal. clear. induction l as [| v l IH]; cbn; [done | by rewrite IH]. }
  pose proof (all_ids_bounds l Hl) as Hbnd.
  apply (heap_loop_ok (all_ids l) _ k IdMin h []); [| done | | | done | constructor | | |].
  - rewrite Hp. apply Forall_map, Forall_and. split; [| done]. eapply Forall_impl; [exact Hl |]. apply started_running.
  - rewrite (total_perm _ _ Hp), Ht. unfold zlen. lia.
  - rewrite (total_perm _ _ Hp), Ht, zlen_nil. lia.
  - intros x Hx. by apply not_elem_of_nil in Hx.
  - intros x. rewrite Hp, started_all. intros Hx. left. eapply Forall_forall in Hbnd; [| done]. cbn in Hbnd. unfold IdMin. lia.
  - intros x. rewrite Hp, started_all. split; [by right | intros [Hx | Hx]; [by apply not_elem_of_nil in Hx | done]].
Qed.

(** ** Generic sort *)

Lemma overwrite_at_ok k h a l : vec h (a ++ l) -> zlen k <= zlen l ->
  vec (overwrite (zlen a) k h) (a ++ k ++ drop (length k) l).
Proof.
  intros (sp & Em & Hsz & _ & Hb) Hk. exists sp. unfold overwrite. cbn [mem size_ is_hdata_].
  assert (zblit (mem h) (zlen a) (Some <$> k) = (Some <$> (a ++ k ++ drop (length k) l)) ++ sp) as ->.
  { unfold zblit, zslice. rewrite drop_0, Em, zlen_fmap, !fmap_app, fmap_drop, <- !app_assoc. unfold zlen.
    rewrite Nat2Z.id, take_app_length' by (by rewrite length_fmap). do 2 f_equal.
    replace (Z.to_nat (Z.of_nat (length a) + Z.of_nat (length k))) with (length (Some <$> a) + length k)%nat by (rewrite length_fmap; lia).
    rewrite drop_app_add. apply drop_app_le. unfold zlen in Hk. rewrite length_fmap. lia. }
  assert (zlen (a ++ k ++ drop (length k) l) = zlen (a ++ l)) as Ez.
  { rewrite !zlen_app. unfold zlen in *. rewrite length_drop. lia. }
  split_and!; [done | by rewrite Ez | done |]. rewrite zlen_app, zlen_fmap, Ez. by rewrite Em, zlen_app, zlen_fmap in Hb.
Qed.

Lemma copy_all_ok l : forall h a z cnt, Forall mergeable l -> vec h (a ++ z) -> zlen (all_ids l) <= zlen z ->
  exists h', copy_all l h (zlen a) cnt = Ok (h', cnt + zlen (all_ids l)) /\ vec h' (a ++ all_ids l ++ drop (length (all_ids l)) z).
Proof.
  induction l as [| v l IH]; intros h a z cnt Hl Hh Hz.
  - exists h. cbn. by rewrite Z.add_0_r.
  - inversion_clear Hl as [| ? ? Hv Hl']. cbn [copy_all]. change (all_ids (v :: l)) with (stored (collection v) ++ all_ids l) in *.
    rewrite zlen_app in Hz. pose proof (zlen_nonneg (all_ids l)).
    assert (zlen (stored (collection v)) <= zlen z) as Hle by lia.
    pose proof (overwrite_at_ok (stored (collection v)) h a z Hh Hle) as Ho. rewrite (hv_size _ _ _ _ Hh), zlen_app.
    rewrite (proj2 (Z.ltb_ge _ _)) by lia. rewrite app_assoc in Ho.
    destruct (IH _ _ _ (cnt + zlen (stored (collection v))) Hl' Ho) as (h' & E & Hh').
    { unfold zlen in *. rewrite length_drop. lia. }
    exists h'. rewrite zlen_app in E. rewrite E, zlen_app, Z.add_assoc.
    split; [unfold mergeable in Hv; by destruct (collection v) |].
    by rewrite length_app, <- drop_drop, <- !app_assoc in *.
Qed.

Context (Hsort : forall x, Permutation (pdqsort x) x /\ StronglySorted Z.le (pdqsort x)).

Lemma mergeGenericSort_ok l : Forall mergeable l -> zlen (all_ids l) <= max_size ->
  union_of (all_ids l) (mergeGenericSort (zlen (all_ids l)) l).
Proof.
  intros Hl Hz. unfold mergeGenericSort. pose proof (zlen_nonneg (all_ids l)).
  destruct (resize_ok kHoldSize true false 0 kHold_ok (zlen (all_ids l)) Vec.make []) as (h & -> & Hh & _); [by apply hv_make | lia | by left |].
  cbn [mbind result_bind]. destruct (copy_all_ok l h [] (zresize [] (zlen (all_ids l)) 0) 0 Hl Hh) as (h' & E & Hh').
  { by rewrite zlen_zresize. }
  change (zlen []) with 0 in E. rewrite E. cbn [mbind result_bind]. rewrite Z.add_0_l, Z.eqb_refl.
  rewrite drop_ge, app_nil_r in Hh' by (unfold zresize, zlen; rewrite length_resize; lia). cbn [app] in Hh'.
  destruct (Hsort (all_ids l)) as [Hp Hs]. by apply (BuildFromUnsorted_ok pdqsort h' (all_ids l)).
Qed.

(** ** [MergeIdsets] *)

Lemma max_iterations_ok limit l : forall cnt, Forall mergeable l -> 0 <= cnt -> cnt + zlen (all_ids l) <= limit -> limit < 2 ^ 64 ->
  max_iterations limit cnt l = Ok (cnt + zlen (all_ids l), l).
Proof.
  induction l as [| v l IH]; intros cnt Hl Hc Hz Hlim; [by cbn; rewrite Z.add_0_r |].
  inversion_clear Hl as [| ? ? Hv Hl']. change (all_ids (v :: l)) with (stored (collection v) ++ all_ids l) in *. rewrite zlen_app in *.
  pose proof (zlen_nonneg (stored (collection v))). pose proof (zlen_nonneg (all_ids l)).
  assert (Single_GetMaxIterations limit v = Ok (zlen (stored (collection v)), v)) as E.
  { unfold mergeable in Hv. unfold Single_GetMaxIterations. by destruct (collection v). }
  cbn [max_iterations]. rewrite E. cbn [mbind result_bind]. unfold u64. rewrite wrap_id by lia.
  rewrite (proj2 (Z.ltb_ge _ _)) by lia. rewrite IH by (done || lia). cbn. do 2 f_equal. lia.
Qed.

Lemma MergeIdsets_ok `{!MakeHeapLaws} genericSort shrinkResult s :
  Forall mergeable (results s) -> zlen (all_ids (results s)) <= max_size ->
  (genericSort = true \/ zlen (results s) < kMinSetsForHeapSort \/ Forall (fun v => stored (collection v) <> []) (results s)) ->
  exists h l, MergeIdsets genericSort shrinkResult (zlen (all_ids (results s))) s =
    Ok (h, mk_skr [of_collection (FlatIdSet l)] false (cached s)) /\ elements h = l /\ zlen l <= max_size /\ ssorted l /\
    (forall x, x ∈ l <-> x ∈ all_ids (results s)).
Proof.
  intros Hl Hz Hne. assert (max_size = 2 ^ 31 - 1) as Hms by reflexivity.
  assert (union_of (all_ids (results s)) (if genericSort then mergeGenericSort (zlen (all_ids (results s))) (results s)
    else if (zlen (all_ids (results s)) <? kSelectionSortIdsCount) || (zlen (results s) <? kMinSetsForHeapSort)
         then mergeSelectionSort (zlen (all_ids (results s))) (results s)
         else mergeHeapSort (zlen (all_ids (results s))) (results s))) as (h & l & E & Hh & Hs & Hx).
  { destruct genericSort; [by apply mergeGenericSort_ok |].
    destruct (_ || _) eqn:Eb; [by apply mergeSelectionSort_ok |]. apply orb_false_iff in Eb as [_ Eb%Z.ltb_ge].
    destruct Hne as [? | [? | Hne]]; [done | lia | by apply mergeHeapSort_ok]. }
  unfold MergeIdsets. rewrite E. cbn [mbind result_bind].
  assert (exists h', (if shrinkResult then Vec.shrink_to_fit h else Ok h) = Ok h' /\ vec h' l) as (h' & -> & Hh').
  { destruct shrinkResult; [| by exists h].
    destruct (shrink_to_fit_ok kHoldSize true (fun x => x) 0 kHold_ok h l Hh eq_refl) as (h' & E' & Hh' & _). by exists h'. }
  exists h', l. cbn [mbind result_bind mret result_ret]. rewrite (vec_elements h' l Hh').
  pose proof (hv_mem _ _ kHold_ok _ _ Hh') as (_ & ? & ?). split_and!; done || lia.
Qed.

(** C13: the results of a key become one sorted set. Whichever of the three ways of merging is
    chosen, the merge ends and the new result is one flat list: the strictly ascending list of the
    ids that are in any of the results, flat or tree. The number of ids to give it is what
    [GetMaxIterations] counts. The heap needs results that are not empty. *)
Theorem merge_sorted_union `{!MakeHeapLaws} genericSort shrinkResult s :
  Forall mergeable (results s) -> zlen (all_ids (results s)) <= max_size ->
  (genericSort = true \/ zlen (results s) < kMinSetsForHeapSort \/ Forall (fun v => stored (collection v) <> []) (results s)) ->
  GetMaxIterations (2 ^ 64 - 1) s = Ok (zlen (all_ids (results s)), s) /\
  exists h l, MergeIdsets genericSort shrinkResult (zlen (all_ids (results s))) s =
    Ok (h, mk_skr [of_collection (FlatIdSet l)] false (cached s)) /\
    elements h = l /\ StronglySorted Z.lt l /\
    (forall x, x ∈ l <-> Exists (fun v => x ∈ stored (collection v)) (results s)).
Proof.
  intros Hl Hz Hne. assert (max_size = 2 ^ 31 - 1) as Hms by reflexivity. split.
  - unfold GetMaxIterations. rewrite max_iterations_ok by (done || lia). cbn. by destruct s.
  - destruct (MergeIdsets_ok genericSort shrinkResult s Hl Hz Hne) as (h & l & E & El & _ & Hs & Hx). exists h, l.
    split_and!; [done | done | done |]. intros x. by rewrite Hx, all_ids_elem.
Qed.

(** a range or an iterator cannot be merged. If one of the results is neither a list nor a
    tree of ids, the merges by selection and by a heap throw a logic error. *)
Theorem merge_rejects shrinkResult idsCount s : Exists (fun v =>
    match collection v with FlatIdSet _ | TreeIdSet _ => False | _ => True end) (results s) -> idsCount <= max_size ->
  MergeIdsets false shrinkResult idsCount s = Fail (Throw errLogic).
Proof.
  intros Hex Hc.
  assert (forall l, Exists (fun v => match collection v with FlatIdSet _ | TreeIdSet _ => False | _ => True end) l ->
    mapM start_one l = Fail (Throw errLogic)) as Hf.
  { induction 1 as [v l Hv | v l _ IH]; cbn [mapM].
    - assert (start_one v = Fail (Throw errLogic)) as -> by (unfold start_one; by destruct (collection v)). done.
    - assert (start_one v = Fail (Throw errLogic) \/ exists w, start_one v = Ok w) as [-> | [w ->]]; [| done | by cbn; rewrite IH].
      unfold start_one, Single_Start. destruct (collection v); cbn; eauto. }
  unfold MergeIdsets, mergeSelectionSort, mergeHeapSort. destruct (reserve_make idsCount Hc) as (h & -> & _). cbn [mbind result_bind].
  destruct (partition is_flat (results s)) as [parts n] eqn:E. pose proof (partition_perm is_flat (results s)) as Hp. rewrite E in Hp. cbn in Hp.
  rewrite !Hf by (try rewrite Hp; done). by destruct (_ || _).
Qed.

End SelectMerge.

Arguments SelectKeyResult : clear implicits.

(** ** Examples *)

(** A descending list is a heap. *)
Fixpoint insert_below {T} (lt : T -> T -> bool) (x : T) (l : list T) : list T :=
  match l with [] => [x] | y :: l' => if lt x y then y :: insert_below lt x l' else x :: l end.

Lemma insert_below_perm {T} (lt : T -> T -> bool) x l : insert_below lt x l ≡ₚ x :: l.
Proof.
  induction l as [| y l IH]; cbn; [done |]. destruct (lt x y); [| done]. rewrite IH. apply perm_swap.
Qed.

Lemma insert_below_sorted {T} (lt : T -> T -> bool) x l : (forall x y, lt x y = true -> lt y x = false) ->
  (forall x y z, lt x y = false -> lt y z = false -> lt x z = false) ->
  StronglySorted (fun x y => lt x y = false) l -> StronglySorted (fun x y => lt x y = false) (insert_below lt x l).
Proof.
  intros Ha Ht. induction 1 as [| y l Hl IH Hy]; cbn; [repeat constructor |]. destruct (lt x y) eqn:E.
  - constructor; [done |]. rewrite insert_below_perm. constructor; [by apply Ha | done].
  - constructor; [by constructor |]. constructor; [done |]. eapply Forall_impl; [done |]. intros z Hz. by apply (Ht x y z).
Qed.

#[export] Program Instance list_make_heap : MakeHeap := {
  make_heap T lt vec := foldr (insert_below lt) [] vec
}.
Next Obligation. intros T lt vec. induction vec as [| x vec IH]; cbn; [done |]. by rewrite insert_below_perm, IH. Qed.

#[export] Instance list_make_heap_laws : MakeHeapLaws.
Proof.
  intros T lt vec Ha Ht. assert (StronglySorted (fun x y => lt x y = false) (make_heap lt vec)) as Hs.
  { induction vec as [| x vec IH]; cbn; [constructor |]. by apply insert_below_sorted. }
  intros j k x y Hk. assert (j < k)%nat as Hjk by lia. clear Hk. revert j k Hjk. induction Hs as [| a l _ IH Hl]; intros j k Hjk Hx Hy; [done |].
  destruct k as [| k]; [lia |]. destruct j as [| j]; [injection Hx as ->; by eapply Forall_lookup in Hl |]. by apply (IH j k); [lia | |].
Qed.

#[export] Program Instance list_partition : Partition := {
  partition T P l := (filter (fun x => P x = true) l ++ filter (fun x => P x = false) l, zlen (filter (fun x => P x = true) l))
}.
Next Obligation.
  intros T P l. cbn. induction l as [| x l IH]; [done |]. rewrite !filter_cons.
  destruct (P x); repeat case_decide; try congruence; [cbn | rewrite <- Permutation_middle]; by rewrite IH.
Qed.
Next Obligation. intros T P l. eexists _, _. split; [done |]. split; apply Forall_forall; by intros x [Hx _]%list_elem_of_filter. Qed.

(** There is no iterator of an index in the samples. *)
#[export] Instance no_iterator : IndexIterator Empty_set := {
  it_Start _ i := i; it_Next i := (false, i); it_Value i := match i with end;
  it_ExcludeLastSet i := Ok i; it_GetMaxIterations _ i := (0, i)
}.

Definition sample_results : list (SingleSelectKeyResult (gset Z) Empty_set) :=
  of_collection (FlatIdSet [1; 4; 9]) :: of_collection (TreeIdSet {[2; 4; 8]}) ::
  replicate 15 (of_collection (FlatIdSet [4; 7])).

(** The three ways, evaluated. *)
Example merges_agree :
  let out r := h ← r; mret (elements h) in
  out (mergeGenericSort (merge_sort Z.le) 36 sample_results) = Ok [1; 2; 4; 7; 8; 9] /\
  out (mergeSelectionSort 36 sample_results) = Ok [1; 2; 4; 7; 8; 9] /\
  out (mergeHeapSort 36 sample_results) = Ok [1; 2; 4; 7; 8; 9].
Proof. vm_compute. done. Qed.

Lemma sample_mergeable : Forall mergeable sample_results.
Proof.
  assert (forall a b c, 0 <= a <= b -> b <= c < IdMax -> ids_ok [a; b; c]) as H3.
  { intros a b c Ha Hc. split; [| split; [| done]]; repeat constructor; lia. }
  assert (ids_ok [4; 7]) as H2 by (split; [| split; [| done]]; repeat constructor; unfold IdMax; lia).
  unfold sample_results. constructor; [by apply H3; unfold IdMax; lia |]. constructor.
  - unfold mergeable. cbn [collection of_collection]. replace (stored _) with [2; 4; 8] by (vm_compute; reflexivity).
    apply H3; unfold IdMax; lia.
  - apply Forall_replicate. exact H2.
Qed.

Lemma merge_sorted_union_witness :
  zlen (all_ids sample_results) = 36 /\
  exists h, MergeIdsets (merge_sort Z.le) false true 36 (mk_skr sample_results true false) =
    Ok (h, mk_skr [of_collection (FlatIdSet (elements h))] false false) /\ StronglySorted Z.lt (elements h).
Proof.
  split; [vm_compute; reflexivity |].
  destruct (merge_sorted_union (merge_sort Z.le)
    ltac:(intros x; split; [apply merge_sort_Permutation | apply StronglySorted_merge_sort; apply _])
    false true (mk_skr sample_results true false)) as (_ & h & l & E & <- & Hs & _).
  - exact sample_mergeable.
  - vm_compute. discriminate.
  - right. right. apply (bool_decide_unpack _). vm_compute. exact I.
  - exists h. split; [exact E | exact Hs].
Defined.

Lemma merge_rejects_witness :
  MergeIdsets (merge_sort Z.le) false true 5 (mk_skr (of_collection (Range 3 5) :: sample_results) true false) = Fail (Throw errLogic).
Proof. apply merge_rejects; [by left | vm_compute; discriminate]. Defined.
