(* ===== verification/SelectIter.v ===== *)
(** The iterator over the ids of a condition: [SelectIterator] of
    [core/nsselecter/selectiterator.h].

    The iterator moves through several results at once, by comparing their next ids or, from
    sixteen results on, through a heap. The forward and the reverse copies of the code are one
    definition with the direction as its argument where they mirror each other. *)

From S2P Require Import Prelude HVector Gallop IdSet Heap SelectKey SelectMerge.

Inductive IterType : Set :=
| TNone | TForward | TReverse | TSingleRange | TSingleIdset | TSingleIdSetWithDeferedSort
| TRevSingleRange | TRevSingleIdset | TRevSingleIdSetWithDeferedSort | TUnsorted | TUnbuiltSortOrdersIndex.

Record HeapEntry : Set := mk_entry { value : Z; pos : Z }.

Definition FwdHeapGreater (l r : HeapEntry) : bool :=
  if value l =? value r then pos r <? pos l else value r <? value l.

Definition RevHeapLess (l r : HeapEntry) : bool :=
  if value l =? value r then pos r <? pos l else value l <? value r.

Definition heap_less (reverse : bool) : HeapEntry -> HeapEntry -> bool := if reverse then RevHeapLess else FwdHeapGreater.

(** The values of [lastVal_] at the start and at the end of an iteration. *)
Definition first_val (reverse : bool) : Z := if reverse then IdMax else IdMin.
Definition end_val (reverse : bool) : Z := if reverse then IdMin else IdMax.

Section SelectIter.
Context {S : Type} `{BtreeSet S} {I : Type} `{IndexIterator I} `{Partition} `{MakeHeap}.
Context (pdqsort : list Z -> list Z).

Abbreviation Single := (SingleSelectKeyResult S I).

Record SelectIterator : Type := mk_iter {
  base : SelectKeyResult S I; totalCalls_ : Z; lastVal_ : Z; type_ : IterType; isUnsorted_ : bool;
  forcedFirst_ : bool; isNotOperation_ : bool; distinct_ : bool; isReverse_ : bool; lastPos_ : Z;
  matchedCount_ : Z; heap_ : list HeapEntry
}.

Definition SelectIterator_make (res : SelectKeyResult S I) (distinct forcedFirst : bool) : SelectIterator :=
  mk_iter res 0 IdMin TNone false forcedFirst false distinct false 0 0 [].

Definition sets (it : SelectIterator) : list Single := results (base it).

(** Assignments to members. *)
Definition with_base (b : SelectKeyResult S I) (it : SelectIterator) : SelectIterator :=
  mk_iter b (totalCalls_ it) (lastVal_ it) (type_ it) (isUnsorted_ it) (forcedFirst_ it) (isNotOperation_ it)
    (distinct_ it) (isReverse_ it) (lastPos_ it) (matchedCount_ it) (heap_ it).
Definition with_sets (l : list Single) (it : SelectIterator) : SelectIterator :=
  with_base (mk_skr l (deferedExplicitSort (base it)) (cached (base it))) it.
Definition with_type (t : IterType) (it : SelectIterator) : SelectIterator :=
  mk_iter (base it) (totalCalls_ it) (lastVal_ it) t (isUnsorted_ it) (forcedFirst_ it) (isNotOperation_ it)
    (distinct_ it) (isReverse_ it) (lastPos_ it) (matchedCount_ it) (heap_ it).
Definition with_last (v p : Z) (it : SelectIterator) : SelectIterator :=
  mk_iter (base it) (totalCalls_ it) v (type_ it) (isUnsorted_ it) (forcedFirst_ it) (isNotOperation_ it)
    (distinct_ it) (isReverse_ it) p (matchedCount_ it) (heap_ it).
Definition with_heap (h : list HeapEntry) (it : SelectIterator) : SelectIterator :=
  mk_iter (base it) (totalCalls_ it) (lastVal_ it) (type_ it) (isUnsorted_ it) (forcedFirst_ it) (isNotOperation_ it)
    (distinct_ it) (isReverse_ it) (lastPos_ it) (matchedCount_ it) h.
Definition with_counts (calls matched : Z) (it : SelectIterator) : SelectIterator :=
  mk_iter (base it) calls (lastVal_ it) (type_ it) (isUnsorted_ it) (forcedFirst_ it) (isNotOperation_ it)
    (distinct_ it) (isReverse_ it) (lastPos_ it) matched (heap_ it).

Definition SetUnsorted (it : SelectIterator) : SelectIterator :=
  mk_iter (base it) (totalCalls_ it) (lastVal_ it) (type_ it) true (forcedFirst_ it) (isNotOperation_ it)
    (distinct_ it) (isReverse_ it) (lastPos_ it) (matchedCount_ it) (heap_ it).

Definition SetNotOperationFlag (isNotOperation : bool) (it : SelectIterator) : SelectIterator :=
  mk_iter (base it) (totalCalls_ it) (lastVal_ it) (type_ it) (isUnsorted_ it) (forcedFirst_ it) isNotOperation
    (distinct_ it) (isReverse_ it) (lastPos_ it) (matchedCount_ it) (heap_ it).

(** The results of another key join these. *)
Definition Append (other : SelectKeyResult S I) (it : SelectIterator) : SelectIterator :=
  with_type TNone (with_sets (sets it ++ results other) it).

(** ** The start of an iteration *)

Definition applyDeferedSort (maxIterations : Z) (it : SelectIterator) : result (bool * SelectIterator) :=
  if deferedExplicitSort (base it) && (0 <? maxIterations) && negb (distinct_ it) then
    '(idsCount, b) ← GetMaxIterations (2 ^ 64 - 1) (base it);
    let it := with_base b it in
    if IsGenericSortRecommended (zlen (sets it)) idsCount maxIterations then
      '(_, b) ← MergeIdsets pdqsort true false idsCount (base it); mret (true, with_base b it)
    else mret (false, it)
  else mret (false, it).

(** The first ids of the results; [None] for a result that has no ids. *)
Fixpoint heap_entries (reverse : bool) (p : Z) (l : list Single) : result (list Single * list HeapEntry) :=
  match l with
  | [] => Ok ([], [])
  | s :: l =>
      '(s, v) ← advance reverse s (first_val reverse);
      '(l, h) ← heap_entries reverse (p + 1) l;
      mret (s :: l, match v with Some v => mk_entry v p :: h | None => h end)
  end.

Definition buildHeap (it : SelectIterator) : result SelectIterator :=
  if zlen (sets it) <? kMinSetsForHeapSort then Ok it
  else
    '(l, h) ← heap_entries (isReverse_ it) 0 (sets it);
    mret (with_heap (make_heap (heap_less (isReverse_ it)) h) (with_sets l it)).

Definition Start (reverse : bool) (maxIterations : Z) (it : SelectIterator) : result SelectIterator :=
  '(explicitSort, it) ← applyDeferedSort maxIterations it;
  l ← mapM (Single_Start reverse) (sets it);
  let it := mk_iter (mk_skr l (deferedExplicitSort (base it)) (cached (base it))) (totalCalls_ it) (first_val reverse) (type_ it)
              (isUnsorted_ it) (forcedFirst_ it) (isNotOperation_ it) (distinct_ it) reverse 0 (matchedCount_ it) [] in
  if isUnsorted_ it then Ok (with_type TUnsorted it)
  else
    match l with
    | [s] =>
        match collection s with
        | NotSet => Fail AssertFail
        | SingleIterator _ => Ok (with_type TUnbuiltSortOrdersIndex it)
        | Range _ _ => Ok (with_type (if reverse then TRevSingleRange else TSingleRange) it)
        | FlatIdSet _ | TreeIdSet _ =>
            Ok (with_type (if reverse then (if explicitSort : bool then TRevSingleIdSetWithDeferedSort else TRevSingleIdset)
                           else (if explicitSort : bool then TSingleIdSetWithDeferedSort else TSingleIdset)) it)
        end
    | _ => buildHeap (with_type (if reverse then TReverse else TForward) it)
    end.

Definition End_ (it : SelectIterator) : bool := lastVal_ it =? end_val (isReverse_ it).

Definition Val (it : SelectIterator) : Z := lastVal_ it.

(** ** Moving to the next id *)

(** The place to go on behind: the hint, if it is behind the last id. *)
Definition hint_bound (reverse : bool) (hint last : Z) : result Z :=
  if reverse then (if hint <? last then Incr hint else Ok last)
  else (if last <? hint then Decr hint else Ok last).

Definition better (reverse : bool) (v best : Z) : bool := if reverse then best <? v else v <? best.

(** The loop over the results: all of them are moved, the best id and its place are kept. *)
Fixpoint scan (reverse : bool) (bound : Z) (l : list Single) (p best lastPos : Z) : result (list Single * Z * Z) :=
  match l with
  | [] => Ok ([], best, lastPos)
  | s :: l =>
      '(s, v) ← advance reverse s bound;
      let '(best, lastPos) :=
        match v with
        | Some v => if better reverse v best then (v, p) else (best, lastPos)
        | None => (best, lastPos)
        end in
      '(l, best, lastPos) ← scan reverse bound l (p + 1) best lastPos;
      mret (s :: l, best, lastPos)
  end.

Definition next_scan (reverse : bool) (hint : Z) (it : SelectIterator) : result (bool * SelectIterator) :=
  bound ← hint_bound reverse hint (lastVal_ it);
  '(l, best, p) ← scan reverse bound (sets it) 0 (end_val reverse) (lastPos_ it);
  mret (negb (best =? end_val reverse), with_last best p (with_sets l it)).

Fixpoint next_heap_loop (fuel : nat) (reverse : bool) (bound : Z) (it : SelectIterator) : result (bool * SelectIterator) :=
  match fuel with
  | O => Fail OutOfFuel
  | Datatypes.S fuel =>
      match heap_ it with
      | [] => Ok (false, with_last (end_val reverse) (lastPos_ it) it)
      | root :: heap =>
          if better reverse bound (value root) then Ok (true, with_last (value root) (pos root) it)
          else
            s ← of_option AssertFail (znth (sets it) (pos root));
            '(s, v) ← advance reverse s bound;
            let it := with_sets (zset (sets it) (pos root) s) it in
            h ← match v with
                | Some v => heapifyRoot (fun x y => Ok (heap_less reverse x y)) (mk_entry v (pos root) :: heap)
                | None => removeHeapRoot (fun x y => Ok (heap_less reverse x y)) (root :: heap)
                end;
            next_heap_loop fuel reverse bound (with_heap h it)
      end
  end.

Definition next_heap (reverse : bool) (hint : Z) (it : SelectIterator) : result (bool * SelectIterator) :=
  bound ← hint_bound reverse hint (lastVal_ it);
  next_heap_loop (Datatypes.S (length (heap_ it))) reverse bound it.

Definition next_multi (reverse : bool) (hint : Z) (it : SelectIterator) : result (bool * SelectIterator) :=
  match heap_ it with [] => next_scan reverse hint it | _ => next_heap reverse hint it end.

(** The next implementations for one result. *)
Definition nextFwdSingleRange (minHint : Z) (it : SelectIterator) : result (bool * SelectIterator) :=
  match sets it with
  | s :: _ =>
      last ← if lastVal_ it <? minHint then Decr minHint else Ok (lastVal_ it);
      last ← if last <? i_begin (u s) then Decr (i_begin (u s)) else Ok last;
      last ← if last <? i_end (u s) then Incr last else Ok (i_end (u s));
      let last := if last =? i_end (u s) then IdMax else last in
      mret (negb (last =? IdMax), with_last last (lastPos_ it) it)
  | [] => Fail Undefined
  end.

Definition nextRevSingleRange (maxHint : Z) (it : SelectIterator) : result (bool * SelectIterator) :=
  match sets it with
  | s :: _ =>
      last ← if maxHint <? lastVal_ it then Incr maxHint else Ok (lastVal_ it);
      last ← if i_begin (u s) <? last then Incr (i_begin (u s)) else Ok last;
      last ← if i_end (u s) <? last then Decr last else Ok (i_end (u s));
      let last := if last =? i_end (u s) then IdMin else last in
      mret (negb (last =? IdMin), with_last last (lastPos_ it) it)
  | [] => Fail Undefined
  end.

Definition nextFwdSingleIdset (minHint : Z) (it : SelectIterator) : result (bool * SelectIterator) :=
  match sets it with
  | s :: l =>
      lastVal ← hint_bound false minHint (lastVal_ it);
      let ids := stored (collection s) in
      i ← match collection s with
          | TreeIdSet ptr =>
              if i_it (u s) =? i_end (u s) then Ok (i_it (u s))
              else x ← deref ids (i_it (u s)); mret (if x <=? lastVal then tree_upper_bound ptr lastVal else i_it (u s))
          | FlatIdSet view => GallopUpperBound view (i_it (u s)) (i_end (u s)) lastVal
          | _ => Fail AssertFail
          end;
      last ← if i =? i_end (u s) then Ok IdMax else deref ids i;
      mret (negb (last =? IdMax), with_last last (lastPos_ it) (with_sets (set_it i s :: l) it))
  | [] => Fail Undefined
  end.

Definition nextRevSingleIdset (maxHint : Z) (it : SelectIterator) : result (bool * SelectIterator) :=
  match sets it with
  | s :: l =>
      lastVal ← hint_bound true maxHint (lastVal_ it);
      let ids := stored (collection s) in
      i ← match collection s with
          | TreeIdSet ptr => let lower := tree_lower_bound ptr lastVal in Ok (if lower =? 0 then i_end (u s) else lower)
          | FlatIdSet view => GallopLowerBound view (i_it (u s)) (i_end (u s)) lastVal
          | _ => Fail AssertFail
          end;
      last ← if i =? i_end (u s) then Ok IdMin else deref ids (i - 1);
      mret (negb (last =? IdMin), with_last last (lastPos_ it) (with_sets (set_it i s :: l) it))
  | [] => Fail Undefined
  end.

Definition nextUnbuiltSortOrders (it : SelectIterator) : result (bool * SelectIterator) :=
  match sets it with
  | s :: l =>
      match collection s with
      | SingleIterator i =>
          let (res, i) := it_Next i in
          Ok (res, with_last (it_Value i) (lastPos_ it) (with_sets (mk_single (SingleIterator i) (direction_ s) (u s) :: l) it))
      | _ => Fail AssertFail
      end
  | [] => Fail Undefined
  end.

(** The flat list at the place; reading it moves its iterator. *)
Definition take_unsorted (p : Z) (it : SelectIterator) : result (bool * SelectIterator) :=
  s ← of_option AssertFail (znth (sets it) p);
  x ← deref (stored (collection s)) (i_it (u s));
  mret (true, with_last x p (with_sets (zset (sets it) p (set_it (i_it (u s) + 1) s)) it)).

(** The first place from [p] on whose list is not at its end. *)
Fixpoint skip_ended (fuel : nat) (p : Z) (l : list Single) : result Z :=
  match fuel with
  | O => Fail OutOfFuel
  | Datatypes.S fuel =>
      if p <? zlen l then
        s ← of_option AssertFail (znth l p);
        if is_flat s && direction_is Forward s then
          if i_it (u s) =? i_end (u s) then skip_ended fuel (p + 1) l else Ok p
        else Fail AssertFail
      else Ok p
  end.

Definition nextUnsorted (it : SelectIterator) : result (bool * SelectIterator) :=
  if lastPos_ it =? zlen (sets it) then Ok (false, it)
  else
    p ← skip_ended (Datatypes.S (length (sets it))) (lastPos_ it) (sets it);
    if p =? zlen (sets it) then Ok (false, with_last (lastVal_ it) p it) else take_unsorted p it.

Definition nextImpl (minHint : Z) (it : SelectIterator) : result (bool * SelectIterator) :=
  match type_ it with
  | TForward => next_multi false minHint it
  | TReverse => next_multi true minHint it
  | TSingleRange => nextFwdSingleRange minHint it
  | TSingleIdset | TSingleIdSetWithDeferedSort => nextFwdSingleIdset minHint it
  | TRevSingleRange => nextRevSingleRange minHint it
  | TRevSingleIdset | TRevSingleIdSetWithDeferedSort => nextRevSingleIdset minHint it
  | TUnsorted => nextUnsorted it
  | TUnbuiltSortOrdersIndex => nextUnbuiltSortOrders it
  | TNone => Fail AssertFail
  end.

(** The counters are signed. *)
Definition bump (c : Z) : result Z := if c =? 2 ^ 31 - 1 then Fail Undefined else Ok (c + 1).

Definition Next (minHint : Z) (it : SelectIterator) : result (bool * SelectIterator) :=
  calls ← bump (totalCalls_ it);
  '(res, it) ← nextImpl minHint (with_counts calls (matchedCount_ it) it);
  matched ← if res : bool then bump (matchedCount_ it) else Ok (matchedCount_ it);
  mret (res, with_counts (totalCalls_ it) matched it).

Definition Compare (targetId : Z) (it : SelectIterator) : result (bool * SelectIterator) :=
  calls ← bump (totalCalls_ it);
  let it := with_counts calls (matchedCount_ it) it in
  let val := Val it in
  if better (isReverse_ it) targetId val then Ok (false, it)
  else
    '(found, it) ← if val =? targetId then Ok (true, it)
                   else '(res, it) ← nextImpl targetId it; mret (res && (targetId =? Val it), it);
    if found : bool then matched ← bump (matchedCount_ it); mret (true, with_counts (totalCalls_ it) matched it)
    else mret (false, it).

(** ** Other operations *)

Definition PosUnsorted (it : SelectIterator) : result Z :=
  match type_ it with
  | TUnsorted =>
      res ← of_option AssertFail (znth (sets it) (lastPos_ it));
      match collection res with
      | FlatIdSet _ => Ok (i_it (u res) - i_begin (u res) - 1)
      | _ => Fail (Throw errAssert)
      end
  | _ => Fail AssertFail
  end.

Definition GetMatchedCount (invert : bool) (it : SelectIterator) : Z :=
  if invert then totalCalls_ it - matchedCount_ it else matchedCount_ it.

Definition ExcludeLastSet (rowId : Z) (it : SelectIterator) : result SelectIterator :=
  match type_ it with
  | TNone => Fail AssertFail
  | TUnbuiltSortOrdersIndex =>
      match sets it with
      | s :: l =>
          match collection s with
          | SingleIterator i =>
              if it_Value i =? rowId then
                i ← it_ExcludeLastSet i; mret (with_sets (mk_single (SingleIterator i) (direction_ s) (u s) :: l) it)
              else Ok it
          | _ => Fail AssertFail
          end
      | [] => Fail Undefined
      end
  | _ =>
      if negb (End_ it) && negb (lastPos_ it =? zlen (sets it)) && (lastVal_ it =? rowId) then
        curRes ← of_option AssertFail (znth (sets it) (lastPos_ it));
        match collection curRes with
        | TreeIdSet _ | FlatIdSet _ =>
            let it := with_sets (zset (sets it) (lastPos_ it) (set_it (i_end (u curRes)) curRes)) it in
            match heap_ it with
            | [] => Ok it
            | root :: _ =>
                if pos root =? lastPos_ it then
                  h ← removeHeapRoot (fun x y => Ok (heap_less (isReverse_ it) x y)) (heap_ it); mret (with_heap h it)
                else Fail AssertFail
            end
        | _ => Fail (Throw errAssert)
        end
      else Ok it
  end.

(** The cost is a floating point number; below [2 ^ 53] its parts are whole numbers. *)
Definition Cost (expectedIterations : Z) (it : SelectIterator) : result (Z * SelectIterator) :=
  match type_ it with
  | TNone => Fail AssertFail
  | TUnbuiltSortOrdersIndex => Ok (-1, it)
  | _ =>
      '(n, b) ← GetMaxIterations (2 ^ 64 - 1) (base it);
      let it := with_base b it in
      let sz := zlen (sets it) in
      let defered := match type_ it with TSingleIdSetWithDeferedSort | TRevSingleIdSetWithDeferedSort => true | _ => false end in
      mret (if forcedFirst_ it then - n
            else
              let result := if distinct_ it then sz
                            else if negb defered && negb (deferedExplicitSort (base it)) then n * sz
                            else CostWithDefferedSort sz n (u64 expectedIterations) in
              if isNotOperation_ it then expectedIterations + result else result, it)
  end.

(** ** What a move finds *)

Definition reached (reverse : bool) (hint x : Z) : Prop := if reverse then x <= hint else hint <= x.

(** Among the ids of [U] behind the last one and not before the hint, the first is found. *)
Definition found (reverse : bool) (U : Z -> Prop) (last hint : Z) (b : bool) (last' : Z) : Prop :=
  let wanted x := U x /\ passed reverse last x = false /\ reached reverse hint x in
  if b then wanted last' /\ forall x, wanted x -> dle reverse last' x
  else last' = end_val reverse /\ forall x, ~ wanted x.

Definition id_range (x : Z) : Prop := IdMin <= x <= IdMax.

Lemma hint_bound_ok reverse hint last : id_range hint -> id_range last ->
  exists b, hint_bound reverse hint last = Ok b /\ id_range b /\
    (forall x, passed reverse b x = false <-> passed reverse last x = false /\ reached reverse hint x) /\
    (last <> end_val reverse -> if reverse then IdMin < b else b < IdMax).
Proof.
  unfold id_range, hint_bound, reached, end_val, Incr, Decr. intros Hh Hl. destruct reverse.
  - destruct (Z.ltb_spec hint last).
    + rewrite (proj2 (Z.eqb_neq _ _)) by lia. exists (hint + 1). split; [done |]. split; [lia |].
      split; [intros x; rewrite !passed_false; lia | lia].
    + exists last. split; [done |]. split; [lia |]. split; [intros x; rewrite !passed_false; lia | lia].
  - destruct (Z.ltb_spec last hint).
    + rewrite (proj2 (Z.eqb_neq _ _)) by lia. exists (hint - 1). split; [done |]. split; [lia |].
      split; [intros x; rewrite !passed_false; lia | lia].
    + exists last. split; [done |]. split; [lia |]. split; [intros x; rewrite !passed_false; lia | lia].
Qed.

Lemma better_passed reverse bound v : better reverse bound v = negb (passed reverse bound v).
Proof. unfold better, passed. destruct reverse; rewrite Z.ltb_antisym; done. Qed.

Lemma dle_trans reverse x y z : dle reverse x y -> dle reverse y z -> dle reverse x z.
Proof. unfold dle. destruct reverse; lia. Qed.

Lemma dle_refl reverse x : dle reverse x x.
Proof. unfold dle. destruct reverse; lia. Qed.

Lemma passed_dle reverse b x y : passed reverse b x = false -> dle reverse x y -> passed reverse b y = false.
Proof. rewrite !passed_false. unfold dle. destruct reverse; lia. Qed.

(** ** The loop over the results *)

Abbreviation still_in l x := (Exists (fun s : Single => x ∈ rest s) l).

Definition moved (reverse : bool) (bound : Z) (s s' : Single) : Prop :=
  single_ok reverse s' /\ collection s' = collection s /\ rest s' = drop_while (passed reverse bound) (rest s).

Lemma moved_elem reverse bound s s' x : single_ok reverse s -> moved reverse bound s s' ->
  x ∈ rest s' <-> x ∈ rest s /\ passed reverse bound x = false.
Proof. intros Hs (_ & _ & ->). apply drop_passed. by apply rest_sorted. Qed.

Lemma moved_all reverse bound l l' x : Forall (single_ok reverse) l -> Forall2 (moved reverse bound) l l' ->
  still_in l' x <-> still_in l x /\ passed reverse bound x = false.
Proof.
  intros Hl H2'. induction H2' as [| s s' l l' Hs _ IH]; [rewrite !Exists_nil; tauto |].
  inversion_clear Hl. rewrite !Exists_cons, IH, (moved_elem reverse bound s s') by done. tauto.
Qed.

Lemma first_dle reverse (s : Single) v x : single_ok reverse s -> head (rest s) = Some v -> x ∈ rest s -> dle reverse v x.
Proof.
  intros Hs Hv Hx. pose proof (rest_sorted reverse s Hs) as Hr. destruct (rest s) as [| y l]; [done |]. injection Hv as ->.
  inversion_clear Hr as [| ? ? _ Hl]. apply elem_of_cons in Hx as [-> | Hx]; [apply dle_refl |]. by eapply Forall_forall in Hl.
Qed.

Definition open_at (reverse : bool) (bound : Z) (l : list Single) : Prop :=
  (forall x, ~ still_in l x) \/ if reverse then IdMin < bound else bound < IdMax.

Lemma advance_one reverse bound (s : Single) : single_ok reverse s -> ((forall x, x ∉ rest s) \/ if reverse then IdMin < bound else bound < IdMax) ->
  exists s', advance reverse s bound = Ok (s', head (rest s')) /\ moved reverse bound s s'.
Proof.
  intros Hs Ho. destruct (advance_ok reverse s bound Hs) as (s' & E & H1' & H2' & H3').
  { destruct Ho as [Ho | Ho]; [left | by right]. destruct (rest s) as [| x r]; [done |]. destruct (Ho x). by left. }
  exists s'. rewrite <- H3' in E. by split.
Qed.

Lemma scan_ok reverse bound l : forall p best lp, Forall (single_ok reverse) l -> open_at reverse bound l ->
  exists l' best' lp', scan reverse bound l p best lp = Ok (l', best', lp') /\ Forall2 (moved reverse bound) l l' /\
    (best' = best /\ lp' = lp \/ exists k s', l' !! k = Some s' /\ head (rest s') = Some best' /\ lp' = p + Z.of_nat k) /\
    dle reverse best' best /\ (forall x, still_in l' x -> dle reverse best' x).
Proof.
  induction l as [| s l IH]; intros p best lp Hl Ho.
  - exists [], best, lp. split_and!; [done | constructor | by left | apply dle_refl |]. intros x Hx. by apply Exists_nil in Hx.
  - inversion_clear Hl as [| ? ? Hs Hl']. cbn [scan]. destruct (advance_one reverse bound s Hs) as (s' & -> & Hm).
    { destruct Ho as [Ho | Ho]; [left | by right]. intros x Hx. apply (Ho x). by left. }
    cbn [mbind result_bind]. set (choice := match head (rest s') with Some v => _ | None => _ end).
    assert (exists best1 lp1, choice = (best1, lp1) /\ (best1 = best /\ lp1 = lp \/ head (rest s') = Some best1 /\ lp1 = p) /\
      dle reverse best1 best /\ (forall x, x ∈ rest s' -> dle reverse best1 x)) as (best1 & lp1 & -> & Hc & Hd & Hall).
    { unfold choice. destruct Hm as (Hs' & _). destruct (head (rest s')) as [v |] eqn:Eh.
      - assert (forall x, x ∈ rest s' -> dle reverse v x) as Hv by (intros x Hx; by apply (first_dle reverse s')).
        rewrite better_passed. destruct (passed reverse v best) eqn:Eb; cbn [negb].
        + exists best, lp. split; [done |]. split; [by left |]. split; [apply dle_refl |]. intros x Hx.
          apply (dle_trans _ _ v); [| by apply Hv]. apply passed_true in Eb. unfold dle. destruct reverse; lia.
        + exists v, p. split; [done |]. split; [by right |]. split; [| done]. apply passed_false in Eb. unfold dle. destruct reverse; lia.
      - exists best, lp. split; [done |]. split; [by left |]. split; [apply dle_refl |]. intros x Hx.
        destruct (rest s'); [by apply not_elem_of_nil in Hx | done]. }
    destruct (IH (p + 1) best1 lp1 Hl') as (l' & best' & lp' & -> & Hf & Hc' & Hd' & Hall').
    { destruct Ho as [Ho | Ho]; [left | by right]. intros x Hx. apply (Ho x). by right. }
    cbn [mbind result_bind]. exists (s' :: l'), best', lp'. split; [done |]. split; [by constructor |]. split; [| split].
    + destruct Hc' as [[-> ->] | (k & s2 & Hk & Hh & ->)].
      * destruct Hc as [Hc | [Hc ->]]; [by left | right]. exists 0%nat, s'. split_and!; [done | done | lia].
      * right. exists (Datatypes.S k), s2. split_and!; [done | done | lia].
    + by apply (dle_trans _ _ best1).
    + intros x [Hx | Hx]%Exists_cons; [| by apply Hall']. apply (dle_trans _ _ best1); [done | by apply Hall].
Qed.

(** ** The heap *)

Lemma heap_less_asym reverse x y : heap_less reverse x y = true -> heap_less reverse y x = false.
Proof.
  destruct reverse; cbn; unfold RevHeapLess, FwdHeapGreater; destruct (Z.eqb_spec (value x) (value y)), (Z.eqb_spec (value y) (value x));
    rewrite ?Z.ltb_lt, ?Z.ltb_ge; lia.
Qed.

Lemma heap_less_trans reverse x y z : heap_less reverse x y = false -> heap_less reverse y z = false -> heap_less reverse x z = false.
Proof.
  destruct reverse; cbn; unfold RevHeapLess, FwdHeapGreater;
    destruct (Z.eqb_spec (value x) (value y)), (Z.eqb_spec (value y) (value z)), (Z.eqb_spec (value x) (value z));
    rewrite ?Z.ltb_lt, ?Z.ltb_ge; lia.
Qed.

Lemma heap_less_dle reverse x y : heap_less reverse x y = false -> dle reverse (value x) (value y).
Proof.
  unfold dle. destruct reverse; cbn; unfold RevHeapLess, FwdHeapGreater; destruct (Z.eqb_spec (value x) (value y));
    rewrite ?Z.ltb_ge; lia.
Qed.

(** The entries of the heap are the next ids of the results that have ids. *)
Record heap_for (reverse : bool) (l : list Single) (h : list HeapEntry) : Prop := {
  hf_heap : is_heap (heap_less reverse) h;
  hf_nodup : NoDup (pos <$> h);
  hf_entry : forall e, e ∈ h -> exists s, znth l (pos e) = Some s /\ head (rest s) = Some (value e);
  hf_all : forall i s, znth l i = Some s -> rest s <> [] -> i ∈ pos <$> h
}.

Lemma znth_split {T} (l : list T) i x : znth l i = Some x -> exists l1 l2, l = l1 ++ x :: l2 /\ i = zlen l1.
Proof.
  unfold znth. intros Hx. case_decide; [| done]. exists (take (Z.to_nat i) l), (drop (Datatypes.S (Z.to_nat i)) l).
  rewrite take_drop_middle by done. split; [done |]. unfold zlen. pose proof (lookup_lt_Some _ _ _ Hx). rewrite length_take. lia.
Qed.

Lemma still_in_exists l x : still_in l x <-> exists i s, znth l i = Some s /\ x ∈ rest s.
Proof.
  rewrite Exists_exists. split.
  - intros (s & Hs & Hx). apply list_elem_of_lookup in Hs as [i Hi]. exists (Z.of_nat i), s. by rewrite znth_lookup.
  - intros (i & s & Hs & Hx). exists s. split; [| done]. unfold znth in Hs. case_decide; [| done]. by eapply list_elem_of_lookup_2.
Qed.

(** The root is the first of all the ids that are left. *)
Lemma heap_first reverse l root h x : Forall (single_ok reverse) l -> heap_for reverse l (root :: h) ->
  still_in l x -> dle reverse (value root) x.
Proof.
  intros Hl [Hh Hnd He Ha] Hx. apply still_in_exists in Hx as (i & s & Hs & Hx).
  assert (i ∈ pos <$> root :: h) as Hi by (apply (Ha i s Hs); intros Er; rewrite Er in Hx; by apply not_elem_of_nil in Hx).
  apply list_elem_of_fmap in Hi as (e & -> & Hin). destruct (He e Hin) as (s2 & Hs2 & Hv). rewrite Hs in Hs2. injection Hs2 as <-.
  apply list_elem_of_lookup in Hin as [k Hk].
  pose proof (heap_root (heap_less reverse) (heap_less_asym reverse) (heap_less_trans reverse) (root :: h) root k e Hh eq_refl Hk) as Hr.
  apply heap_less_dle in Hr. apply (dle_trans _ _ (value e)); [done |]. apply (first_dle reverse s); [| done | done].
  unfold znth in Hs. case_decide; [| done]. by eapply Forall_lookup in Hl.
Qed.

Lemma heap_empty reverse l x : heap_for reverse l [] -> ~ still_in l x.
Proof.
  intros [_ _ _ Ha] Hx. apply still_in_exists in Hx as (i & s & Hs & Hx).
  apply (not_elem_of_nil i). apply (Ha i s Hs). intros Er. rewrite Er in Hx. by apply not_elem_of_nil in Hx.
Qed.

(** One result moved; the heap follows. *)
Lemma heap_for_step reverse l root h s' h' : heap_for reverse l (root :: h) ->
  is_heap (heap_less reverse) h' ->
  h' ≡ₚ match head (rest s') with Some v => mk_entry v (pos root) :: h | None => h end ->
  heap_for reverse (zset l (pos root) s') h'.
Proof.
  intros [Hh Hnd He Ha] Hh' Hp. cbn in Hnd. apply NoDup_cons in Hnd as [Hni Hnd].
  destruct (He root) as (s & Hs & _); [by left |]. pose proof (znth_Some _ _ _ Hs) as Hr.
  assert (forall e, e ∈ h -> pos e <> pos root) as Hne.
  { intros e Hin Eq. apply Hni. rewrite <- Eq. by apply list_elem_of_fmap_2. }
  split; [done | | |].
  - rewrite Hp. destruct (head (rest s')); [| done]. cbn. by apply NoDup_cons.
  - intros e. rewrite Hp. assert (e ∈ h -> exists s0, znth (zset l (pos root) s') (pos e) = Some s0 /\ head (rest s0) = Some (value e)) as Ho.
    { intros Hin. pose proof (Hne e Hin). rewrite znth_zset_ne by lia. apply He. by right. }
    destruct (head (rest s')) as [v |] eqn:Ev; [| done]. intros [-> | Hin]%elem_of_cons; [| by apply Ho].
    exists s'. cbn. by rewrite znth_zset_eq.
  - intros i s0 Hi Hrest. rewrite Hp. destruct (Z.eq_dec i (pos root)) as [-> | Hnei].
    + rewrite znth_zset_eq in Hi by done. injection Hi as <-. destruct (rest s'); [done |]. cbn. by left.
    + rewrite znth_zset_ne in Hi by lia. apply (Ha i s0 Hi) in Hrest. cbn in Hrest. apply elem_of_cons in Hrest as [? | Hin]; [done |].
      destruct (head (rest s')); [by right | done].
Qed.

Lemma still_in_zset reverse bound l p s s' x : znth l p = Some s -> single_ok reverse s -> moved reverse bound s s' ->
  passed reverse bound x = false -> still_in (zset l p s') x <-> still_in l x.
Proof.
  intros Hs Hok Hm Hx. apply znth_split in Hs as (l1 & l2 & -> & ->). rewrite zset_mid by done.
  rewrite !Exists_app, !Exists_cons, (moved_elem reverse bound s s') by done. tauto.
Qed.

(** The entries that a bound passes. *)
Definition behind (reverse : bool) (bound : Z) (h : list HeapEntry) : Z := count (fun e => passed reverse bound (value e)) h.

(** What stays of an iterator while it moves. *)
Definition same_iter (it it' : SelectIterator) : Prop :=
  isReverse_ it' = isReverse_ it /\ type_ it' = type_ it /\ totalCalls_ it' = totalCalls_ it /\ matchedCount_ it' = matchedCount_ it /\
  map collection (sets it') = map collection (sets it).

Lemma next_heap_loop_ok reverse bound fuel : forall it, Forall (single_ok reverse) (sets it) ->
  heap_for reverse (sets it) (heap_ it) -> (if reverse then IdMin < bound else bound < IdMax) ->
  behind reverse bound (heap_ it) < Z.of_nat fuel ->
  exists b it', next_heap_loop fuel reverse bound it = Ok (b, it') /\ same_iter it it' /\ Forall (single_ok reverse) (sets it') /\
    heap_for reverse (sets it') (heap_ it') /\
    (forall x, passed reverse bound x = false -> still_in (sets it') x <-> still_in (sets it) x) /\
    (if b : bool then passed reverse bound (lastVal_ it') = false /\
       exists h, heap_ it' = mk_entry (lastVal_ it') (lastPos_ it') :: h
     else lastVal_ it' = end_val reverse /\ heap_ it' = []).
Proof.
  induction fuel as [| fuel IH]; intros it Hl Hf Hb Hc; [pose proof (count_bound (fun e => passed reverse bound (value e)) (heap_ it)); unfold behind in Hc; lia |].
  cbn [next_heap_loop]. destruct (heap_ it) as [| root h] eqn:Eh.
  - eexists false, _. split; [done |]. cbn. split; [by repeat split |]. split; [done |]. split; [by rewrite Eh | done].
  - rewrite better_passed. unfold behind in Hc. rewrite count_cons in Hc. destruct (passed reverse bound (value root)) eqn:Ep; cbn [negb].
    + destruct (hf_entry _ _ _ Hf root) as (s & Hs & Hv); [by left |]. rewrite Hs. cbn [of_option mbind result_bind].
      assert (single_ok reverse s) as Hok by (unfold znth in Hs; case_decide; [by eapply Forall_lookup in Hl | done]).
      destruct (advance_one reverse bound s Hok) as (s' & -> & Hm); [by right |]. cbn [mbind result_bind].
      assert (exists h', match head (rest s') with
               | Some v => heapifyRoot (fun x y => Ok (heap_less reverse x y)) (mk_entry v (pos root) :: h)
               | None => removeHeapRoot (fun x y => Ok (heap_less reverse x y)) (root :: h) end = Ok h' /\
             is_heap (heap_less reverse) h' /\ h' ≡ₚ match head (rest s') with Some v => mk_entry v (pos root) :: h | None => h end)
        as (h' & -> & Hh' & Hp).
      { destruct (head (rest s')) as [v |].
        - destruct (heapifyRoot_ok (fun x y => Ok (heap_less reverse x y)) (heap_less reverse) (heap_less_asym reverse)
            (heap_less_trans reverse) (mk_entry v (pos root) :: h)) as (h' & E & Hp & Hh'); [done | | by exists h'].
          apply (heap_but_root _ root _ _ []). rewrite app_nil_r. apply Hf.
        - destruct (removeHeapRoot_ok (fun x y => Ok (heap_less reverse x y)) (heap_less reverse) (heap_less_asym reverse)
            (heap_less_trans reverse) root h) as (h' & E & Hp & Hh'); [done | apply Hf | by exists h']. }
      cbn [mbind result_bind]. pose proof (heap_for_step reverse _ root h s' h' Hf Hh' Hp) as Hf'.
      destruct (IH (with_heap h' (with_sets (zset (sets it) (pos root) s') it))) as (b & it' & E & Hsame & Hok' & Hf2 & Hx & Hr).
      { cbn. unfold zset. apply Forall_insert; [done | apply Hm]. }
      { done. } { done. }
      { cbn. unfold behind. rewrite (count_perm _ _ _ Hp). pose proof (count_bound (fun e => passed reverse bound (value e)) h).
        destruct (head (rest s')) as [v |] eqn:Ev; [| cbn in Hc; lia]. rewrite count_cons. cbn [value].
        assert (v ∈ rest s') as Hin by (destruct (rest s'); [done | injection Ev as ->; by left]).
        apply (moved_elem reverse bound s s') in Hin as [_ ->]; [| done | done]. cbn in *. lia. }
      exists b, it'. split; [exact E |]. split.
      { destruct Hsame as (H1' & H2' & H3' & H4' & H5'). cbn in *. unfold same_iter. rewrite H5'. repeat (split; [done |]).
        apply znth_split in Hs as (l1 & l2 & -> & ->). rewrite zset_mid by done. rewrite !map_app. cbn. by destruct Hm as (_ & -> & _). }
      split; [done |]. split; [done |]. split; [| done]. intros x Hxb. rewrite Hx by done. cbn.
      by apply (still_in_zset reverse bound _ _ s).
    + eexists true, _. split; [done |]. cbn. split; [by repeat split |]. split; [done |]. split; [by rewrite Eh |]. split; [done |].
      split; [done |]. exists h. rewrite Eh. by destruct root.
Qed.

(** ** Several results *)

Record multi (reverse : bool) (U : Z -> Prop) (it : SelectIterator) : Prop := {
  m_bounds : forall x, U x -> 0 <= x < IdMax;
  m_ok : Forall (single_ok reverse) (sets it);
  m_last : id_range (lastVal_ it);
  m_ids : forall x, passed reverse (lastVal_ it) x = false -> U x <-> still_in (sets it) x;
  m_end : lastVal_ it = end_val reverse -> forall x, ~ still_in (sets it) x;
  m_heap : heap_ it = [] \/ heap_for reverse (sets it) (heap_ it)
}.

Lemma still_bounds reverse l x : Forall (single_ok reverse) l -> still_in l x -> 0 <= x < IdMax.
Proof.
  intros Hl Hx. apply Exists_exists in Hx as (s & Hs & Hx). eapply Forall_forall in Hl; [| done]. by apply (rest_ids reverse s).
Qed.

(** The last place after a move that found an id. *)
Definition at_last (it : SelectIterator) : Prop :=
  exists s, znth (sets it) (lastPos_ it) = Some s /\ head (rest s) = Some (lastVal_ it) /\
    (heap_ it = [] \/ exists h, heap_ it = mk_entry (lastVal_ it) (lastPos_ it) :: h).

Lemma multi_moved reverse U it it' hint bound (b : bool) : multi reverse U it -> Forall (single_ok reverse) (sets it') ->
  (forall x, passed reverse bound x = false <-> passed reverse (lastVal_ it) x = false /\ reached reverse hint x) ->
  (forall x, passed reverse bound x = false -> still_in (sets it') x <-> still_in (sets it) x) ->
  (heap_ it' = [] \/ heap_for reverse (sets it') (heap_ it')) ->
  (if b then passed reverse bound (lastVal_ it') = false /\ still_in (sets it') (lastVal_ it') /\
     forall x, still_in (sets it') x -> dle reverse (lastVal_ it') x
   else lastVal_ it' = end_val reverse /\ forall x, ~ still_in (sets it') x) ->
  multi reverse U it' /\ found reverse U (lastVal_ it) hint b (lastVal_ it').
Proof.
  intros Hm Hok Hb Hx Hh Hr.
  assert (forall x, U x /\ passed reverse (lastVal_ it) x = false /\ reached reverse hint x <->
    passed reverse bound x = false /\ still_in (sets it') x) as Hw.
  { intros x. rewrite <- Hb. split; intros [H1' H2']; [split; [done |] | split; [| done]].
    - rewrite Hx, <- (m_ids _ _ _ Hm) by (done || apply Hb, H2'). done.
    - apply (m_ids _ _ _ Hm); [by apply Hb in H1' as [? _] | by apply Hx]. }
  destruct b; destruct Hr as (Hr1 & Hr2).
  - destruct Hr2 as [Hin Hfst]. pose proof (still_bounds reverse _ _ Hok Hin) as Hbnd. split.
    + split; [apply Hm | done | | | | done].
      * unfold id_range, IdMin. lia.
      * intros x Hp. assert (passed reverse bound x = false) as Hpb.
        { apply (passed_dle _ _ (lastVal_ it')); [done |]. apply passed_false in Hp. unfold dle. destruct reverse; lia. }
        rewrite Hx by done. apply (m_ids _ _ _ Hm). by apply Hb in Hpb as [? _].
      * intros E. rewrite E in Hbnd. unfold end_val, IdMin in Hbnd. destruct reverse; lia.
    + split; [by apply Hw |]. intros x Hx'. apply Hfst. by apply Hw in Hx' as [_ ?].
  - split.
    + split; [apply Hm | done | | | done | done].
      * rewrite Hr1. unfold id_range, end_val, IdMin, IdMax. destruct reverse; lia.
      * intros x Hp. split; [| by intros ?%Hr2]. intros HU%(m_bounds _ _ _ Hm).
        rewrite Hr1 in Hp. apply passed_false in Hp. unfold end_val, IdMin in Hp. destruct reverse; lia.
    + split; [done |]. intros x Hx'. apply (Hr2 x). by apply Hw in Hx' as [_ ?].
Qed.

Lemma and_assoc_l (P Q R : Prop) : (P /\ Q) /\ R -> P /\ Q /\ R.
Proof. tauto. Qed.

Lemma next_scan_ok reverse U hint it : multi reverse U it -> heap_ it = [] -> id_range hint ->
  exists b it', next_scan reverse hint it = Ok (b, it') /\ same_iter it it' /\ multi reverse U it' /\
    found reverse U (lastVal_ it) hint b (lastVal_ it') /\ (b = true -> at_last it').
Proof.
  intros Hm Hh Hr. destruct (hint_bound_ok reverse hint (lastVal_ it) Hr (m_last _ _ _ Hm)) as (bound & E & _ & Hb & Ho).
  unfold next_scan. rewrite E. cbn [mbind result_bind].
  destruct (scan_ok reverse bound (sets it) 0 (end_val reverse) (lastPos_ it) (m_ok _ _ _ Hm)) as (l' & best & lp & -> & Hf & Hc & _ & Hall).
  { destruct (Z.eq_dec (lastVal_ it) (end_val reverse)) as [El | El]; [left; by apply (m_end _ _ _ Hm) | right; by apply Ho]. }
  cbn [mbind result_bind mret result_ret]. eexists _, _. split; [done |].
  assert (Forall (single_ok reverse) l') as Hok by (clear - Hf; induction Hf as [| ? ? ? ? (? & _)]; by constructor).
  split.
  { unfold same_iter. repeat (split; [done |]). cbn. clear - Hf. induction Hf as [| ? ? ? ? (_ & E & _) _ IH]; cbn; [done | by rewrite E, IH]. }
  assert (forall x, still_in l' x <-> still_in (sets it) x /\ passed reverse bound x = false) as Hx.
  { intros x. apply moved_all; [apply Hm | done]. }
  apply and_assoc_l. split.
  - apply (multi_moved reverse U it _ hint bound); [done | done | done | | by left |].
    { intros x Hp. cbn. rewrite Hx. tauto. }
    cbn. destruct (Z.eqb_spec best (end_val reverse)) as [-> | Hne]; cbn [negb].
    + split; [done |]. intros x Hin. pose proof (Hall x Hin) as Hd. pose proof (still_bounds reverse _ _ Hok Hin).
      unfold dle, end_val, IdMin in Hd. destruct reverse; lia.
    + destruct Hc as [[? _] | (k & s' & Hk & Hv & _)]; [done |].
      assert (still_in l' best) as Hin.
      { apply Exists_exists. exists s'. split; [by eapply list_elem_of_lookup_2 |]. destruct (rest s'); [done |]. injection Hv as ->. by left. }
      split; [by apply Hx in Hin as [_ ?] | by split].
  - intros Hne. destruct Hc as [[-> _] | (k & s' & Hk & Hv & ->)]; [by rewrite Z.eqb_refl in Hne |].
    exists s'. cbn. rewrite Z.add_0_l. split; [by rewrite znth_lookup | split; [done | by left]].
Qed.

Lemma next_heap_ok reverse U hint it : multi reverse U it -> heap_for reverse (sets it) (heap_ it) -> heap_ it <> [] -> id_range hint ->
  exists b it', next_heap reverse hint it = Ok (b, it') /\ same_iter it it' /\ multi reverse U it' /\
    found reverse U (lastVal_ it) hint b (lastVal_ it') /\ (b = true -> at_last it').
Proof.
  intros Hm Hh Hne Hr. destruct (hint_bound_ok reverse hint (lastVal_ it) Hr (m_last _ _ _ Hm)) as (bound & E & _ & Hb & Ho).
  unfold next_heap. rewrite E. cbn [mbind result_bind].
  destruct (next_heap_loop_ok reverse bound (Datatypes.S (length (heap_ it))) it (m_ok _ _ _ Hm) Hh) as (b & it' & -> & Hs & Hok & Hf & Hx & Hres).
  { apply Ho. intros El. destruct (heap_ it) as [| root h] eqn:Eh; [done |]. destruct (hf_entry _ _ _ Hh root) as (s & Hs & Hv); [by left |].
    apply (m_end _ _ _ Hm El (value root)). apply still_in_exists. exists (pos root), s. split; [done |].
    destruct (rest s); [done |]. injection Hv as ->. by left. }
  { unfold behind. pose proof (count_bound (fun e => passed reverse bound (value e)) (heap_ it)). unfold zlen in *. lia. }
  exists b, it'. split; [done |]. split; [done |]. apply and_assoc_l. split.
  - apply (multi_moved reverse U it it' hint bound); [done | done | done | done | by right |].
    destruct b; [| destruct Hres as [? Eh]; split; [done |]; intros x; rewrite Eh in Hf; by apply (heap_empty reverse)].
    destruct Hres as [Hp [h Eh]]. split; [done |]. rewrite Eh in Hf. destruct (hf_entry _ _ _ Hf (mk_entry (lastVal_ it') (lastPos_ it'))) as (s & Hs' & Hv); [by left |].
    split.
    + apply still_in_exists. exists (lastPos_ it'), s. split; [done |]. cbn in Hv. destruct (rest s); [done |]. injection Hv as ->. by left.
    + intros x Hin. by apply (heap_first reverse _ _ h x Hok Hf).
  - intros ->. destruct Hres as [Hp [h Eh]]. rewrite Eh in Hf.
    destruct (hf_entry _ _ _ Hf (mk_entry (lastVal_ it') (lastPos_ it'))) as (s & Hs' & Hv); [by left |].
    exists s. split; [done |]. split; [done |]. right. by exists h.
Qed.

Lemma next_multi_ok reverse U hint it : multi reverse U it -> id_range hint ->
  exists b it', next_multi reverse hint it = Ok (b, it') /\ same_iter it it' /\ multi reverse U it' /\
    found reverse U (lastVal_ it) hint b (lastVal_ it') /\ (b = true -> at_last it').
Proof.
  intros Hm Hr. unfold next_multi. destruct (heap_ it) as [| root h] eqn:Eh; [by apply next_scan_ok |].
  destruct (m_heap _ _ _ Hm) as [? | Hf]; [congruence |]. apply next_heap_ok; [done | done | congruence | done].
Qed.

(** ** One result *)

Definition idset (s : Single) : Prop := match collection s with FlatIdSet _ | TreeIdSet _ => True | _ => False end.

Lemma set_it_same (s : Single) : set_it (i_it (u s)) s = s.
Proof. by destruct s as [c d [b e i]]. Qed.

Lemma stored_bound reverse (s : Single) i x : single_ok reverse s -> idset s -> deref (stored (collection s)) i = Ok x -> 0 <= x < IdMax.
Proof.
  intros (Hc & _) Hi Hx. unfold idset in Hi. assert (ids_ok (stored (collection s))) as (_ & Hb & _) by (by destruct (collection s)).
  unfold deref in Hx. destruct (znth (stored (collection s)) i) as [y |] eqn:E; [| done]. injection Hx as ->.
  unfold znth in E. case_decide; [| done]. by eapply Forall_lookup in Hb.
Qed.

(** For a list and for a tree read forward the code for one result does what the loop does. *)
Lemma next_single_fwd hint it s : sets it = [s] -> lastPos_ it = 0 -> single_ok false s -> idset s ->
  nextFwdSingleIdset hint it = next_scan false hint it.
Proof.
  intros Es Ep Hs Hi. unfold nextFwdSingleIdset, next_scan. rewrite Es. destruct (hint_bound false hint (lastVal_ it)) as [bound | f]; [| done].
  cbn [mbind result_bind scan advance]. unfold advanceFwd. rewrite (direction_ok false s Hs : direction_is Forward s = true). cbn [negb].
  assert (forall i, (last ← (if i =? i_end (u s) then Ok IdMax else deref (stored (collection s)) i);
      mret (negb (last =? IdMax), with_last last (lastPos_ it) (with_sets (set_it i s :: []) it))) =
    ('(l, best, p) ← ('(s1, v) ← (if i =? i_end (u s) then Ok (set_it i s, None)
                                    else x ← deref (stored (collection s)) i; mret (set_it i s, Some x));
       let '(best, lp) := match v with Some v => if better false v (end_val false) then (v, 0) else (end_val false, lastPos_ it)
                          | None => (end_val false, lastPos_ it) end in mret ([s1], best, lp));
     mret (negb (best =? end_val false), with_last best p (with_sets l it)))) as Hstep.
  { intros i. destruct (i =? i_end (u s)); [done |]. destruct (deref (stored (collection s)) i) as [x | f] eqn:Ex; [| done].
    pose proof (stored_bound false s i x Hs Hi Ex). cbn [mbind result_bind mret result_ret]. unfold better, end_val.
    rewrite (proj2 (Z.ltb_lt _ _)) by lia. cbn. by rewrite Ep. }
  pose proof Hs as (Hc & _ & Hit). unfold idset in Hi. destruct (collection s) as [| view | ptr | |] eqn:E; try done; cbn [stored] in *.
  - destruct Hc as (Hsort & _ & Hz). apply sorted_index in Hsort.
    destruct (upper_ok view (i_it (u s)) (i_end (u s)) bound Hsort Hz) as (r & -> & Hr & _); [lia | lia |]. cbn [mbind result_bind].
    rewrite Hstep. destruct (Z.eqb_spec (i_it (u s)) (i_end (u s))) as [Ee |]; [| done].
    assert (r = i_end (u s)) as -> by lia. rewrite Z.eqb_refl, <- Ee, set_it_same. done.
  - destruct (Z.eqb_spec (i_it (u s)) (i_end (u s))) as [Ee |].
    + cbn [mbind result_bind]. rewrite Hstep, Ee, Z.eqb_refl, <- Ee, set_it_same. done.
    + destruct (deref (b_elements ptr) (i_it (u s))) as [y | f]; [| done]. cbn [mbind result_bind mret result_ret]. by rewrite Hstep.
Qed.

(** Read backward, a list does so. *)
Lemma next_single_rev hint it s view : sets it = [s] -> lastPos_ it = 0 -> single_ok true s -> collection s = FlatIdSet view ->
  nextRevSingleIdset hint it = next_scan true hint it.
Proof.
  intros Es Ep Hs E. unfold nextRevSingleIdset, next_scan. rewrite Es. destruct (hint_bound true hint (lastVal_ it)) as [bound | f]; [| done].
  cbn [mbind result_bind scan advance]. unfold advanceRev. rewrite (direction_ok true s Hs : direction_is Reverse s = true). cbn [negb].
  pose proof Hs as (Hc & _ & Hit). rewrite E in *. cbn [stored] in *. destruct Hc as (Hsort & Hb & Hz). apply sorted_index in Hsort.
  destruct (lower_ok view (i_end (u s)) (i_it (u s)) bound Hsort Hz) as (r & -> & Hr & _); [lia | lia |]. cbn [mbind result_bind].
  destruct (Z.eqb_spec (i_it (u s)) (i_end (u s))) as [Ee |].
  - assert (r = i_end (u s)) as -> by lia. rewrite Z.eqb_refl, <- Ee, set_it_same. done.
  - destruct (r =? i_end (u s)); [done |]. destruct (deref view (r - 1)) as [x | f] eqn:Ex; [| done].
    pose proof (stored_bound true s (r - 1) x Hs) as Hx. unfold idset in Hx. rewrite E in Hx. specialize (Hx ltac:(done) Ex).
    cbn [mbind result_bind mret result_ret]. unfold better, end_val.
    rewrite (proj2 (Z.ltb_lt _ _)) by (unfold IdMin; lia). cbn. by rewrite Ep.
Qed.

Lemma same_iter_set it s s' l v p : sets it = s :: l -> collection s' = collection s -> same_iter it (with_last v p (with_sets (s' :: l) it)).
Proof. intros Es Ec. unfold same_iter. rewrite Es. cbn. rewrite Ec. by repeat split. Qed.

(** A tree read backward: the place of the iterator is not used, the bound is searched anew. *)
Record lone_tree (U : Z -> Prop) (it : SelectIterator) : Prop := {
  t_bounds : forall x, U x -> 0 <= x < IdMax;
  t_last : id_range (lastVal_ it);
  t_set : exists s ptr, sets it = [s] /\ collection s = TreeIdSet ptr /\ ids_ok (b_elements ptr) /\ i_end (u s) = 0 /\
    forall x, passed true (lastVal_ it) x = false -> U x <-> x ∈ b_elements ptr
}.

Lemma next_rev_tree_ok `{!BtreeSetLaws S} U hint it : lone_tree U it -> id_range hint ->
  exists b it', nextRevSingleIdset hint it = Ok (b, it') /\ same_iter it it' /\ lone_tree U it' /\
    found true U (lastVal_ it) hint b (lastVal_ it').
Proof.
  intros [Hb Hl (s & ptr & Es & E & Hids & He & HU)] Hh.
  destruct (hint_bound_ok true hint (lastVal_ it) Hh Hl) as (bound & Eb & _ & Hbnd & _).
  unfold nextRevSingleIdset. rewrite Es, Eb, E, He. cbn [mbind result_bind stored]. unfold tree_lower_bound.
  destruct (leading_ok (fun x => x <? bound) (b_elements ptr)) as (r & -> & Hr & H1' & H2'). destruct Hids as (Hsort & Hpos & Hz).
  pose proof (sorted_index _ Hsort) as Hidx.
  assert (forall x, U x /\ passed true (lastVal_ it) x = false /\ reached true hint x <-> x < bound /\ x ∈ b_elements ptr) as Hw.
  { intros x. assert (x < bound <-> passed true (lastVal_ it) x = false /\ reached true hint x) as Hbx by (rewrite <- Hbnd; by rewrite passed_false).
    split.
    - intros (Hu & Hp & Hre). split; [by apply Hbx | by apply HU].
    - intros [Hlt Hx]. apply Hbx in Hlt as [Hp Hre]. split; [by apply HU | done]. }
  assert (forall x, x ∈ b_elements ptr -> x < bound -> exists i, 0 <= i < r /\ znth (b_elements ptr) i = Some x) as Hin.
  { intros x Hx Hlt. apply list_elem_of_lookup in Hx as [k Hk]. rewrite <- znth_lookup in Hk. exists (Z.of_nat k). split; [| done].
    split; [lia |]. destruct (Z.lt_ge_cases (Z.of_nat k) r) as [| Hge]; [done |]. pose proof (znth_Some _ _ _ Hk).
    destruct (znth_lt (b_elements ptr) r) as [y Hy]; [lia |]. pose proof (H2' y Hy) as Hyb. apply Z.ltb_ge in Hyb.
    pose proof (Hidx r (Z.of_nat k) y x Hge Hy Hk). lia. }
  destruct (Z.eqb_spec r 0) as [-> | Hr0].
  - cbn [mbind result_bind mret result_ret Z.eqb]. eexists _, _. split; [done |]. split; [by apply (same_iter_set _ s) |].
    cbn [negb Z.eqb]. rewrite Z.eqb_refl. cbn [negb]. split; [split; [done | |] | split; [done |]].
    + unfold id_range, IdMin, IdMax. cbn. lia.
    + exists (set_it 0 s), ptr. split_and!; [done | done | by repeat split | done |].
      intros x Hp. apply passed_false in Hp. cbn in Hp. split; [intros Hx%Hb | intros Hx; eapply Forall_forall in Hpos; [| done]];
        unfold IdMin in *; cbn in *; lia.
    + intros x Hx. apply Hw in Hx as [Hlt Hx]. destruct (Hin x Hx Hlt) as (k & ? & _). lia.
  - rewrite (proj2 (Z.eqb_neq r 0)) by done. destruct (znth_lt (b_elements ptr) (r - 1)) as [y Hy]; [lia |].
    rewrite (deref_Some _ _ _ Hy). cbn [mbind result_bind mret result_ret].
    pose proof (H1' (r - 1) y ltac:(lia) Hy) as Hyb. apply Z.ltb_lt in Hyb.
    assert (y ∈ b_elements ptr) as Hyin by (unfold znth in Hy; case_decide; [by eapply list_elem_of_lookup_2 | done]).
    assert (0 <= y < IdMax) as Hybnd by (eapply Forall_forall in Hpos; done).
    rewrite (proj2 (Z.eqb_neq y IdMin)) by (unfold IdMin; lia). eexists _, _. split; [done |]. cbn [negb].
    assert (forall x, U x /\ passed true (lastVal_ it) x = false /\ reached true hint x -> x <= y) as Hfst.
    { intros x Hx. apply Hw in Hx as [Hlt Hx]. destruct (Hin x Hx Hlt) as (k & Hk & Hkx). apply (Hidx k (r - 1) x y); done || lia. }
    split; [by apply (same_iter_set _ s) |]. split; [split; [done | |] | split; [by apply Hw | done]].
    + unfold id_range, IdMin, with_last. cbn. lia.
    + exists (set_it r s), ptr. split_and!; [done | done | by repeat split | done |].
      intros x Hp. apply HU. apply passed_false in Hp. cbn in Hp. apply Hbnd. apply passed_false. lia.
Qed.

(** *** Ranges *)

Record lone_range (reverse : bool) (U : Z -> Prop) (it : SelectIterator) : Prop := {
  r_last : id_range (lastVal_ it);
  r_set : exists s first second, sets it = [s] /\ collection s = Range first second /\ 0 <= first <= second /\ second <= IdMax /\
    (if reverse then i_begin (u s) = second - 1 /\ i_end (u s) = first - 1 else i_begin (u s) = first /\ i_end (u s) = second) /\
    forall x, passed reverse (lastVal_ it) x = false -> U x <-> first <= x < second;
  r_bounds : forall x, U x -> 0 <= x < IdMax
}.

Definition next_range (reverse : bool) : Z -> SelectIterator -> result (bool * SelectIterator) :=
  if reverse then nextRevSingleRange else nextFwdSingleRange.

Lemma found_ext reverse (U V : Z -> Prop) last hint b last' : (forall x, passed reverse last x = false -> U x <-> V x) ->
  found reverse V last hint b last' -> found reverse U last hint b last'.
Proof.
  intros HU. assert (forall x, U x /\ passed reverse last x = false /\ reached reverse hint x <->
    V x /\ passed reverse last x = false /\ reached reverse hint x) as Hw.
  { intros x. split; intros (? & ? & ?); (split; [by apply HU | done]). }
  unfold found. destruct b; intros [Ha Hall]; (split; [by apply Hw || done |]); intros x Hx; apply (Hall x), Hw, Hx.
Qed.

Lemma below_first b first : 0 <= first -> (if b <? first then Decr first else Ok b) = Ok (Z.max b (first - 1)).
Proof.
  intros Hf. unfold Decr. destruct (Z.ltb_spec b first); [rewrite (proj2 (Z.eqb_neq _ _)) by (unfold IdMin; lia) |]; f_equal; lia.
Qed.

Lemma up_to_second l second : second <= IdMax -> (if l <? second then Incr l else Ok second) = Ok (Z.min second (l + 1)).
Proof.
  intros Hs. unfold Incr. destruct (Z.ltb_spec l second); [rewrite (proj2 (Z.eqb_neq _ _)) by lia |]; f_equal; lia.
Qed.

Lemma above_begin b begin : begin < IdMax -> (if begin <? b then Incr begin else Ok b) = Ok (Z.min b (begin + 1)).
Proof.
  intros Hf. unfold Incr. destruct (Z.ltb_spec begin b); [rewrite (proj2 (Z.eqb_neq _ _)) by lia |]; f_equal; lia.
Qed.

Lemma down_to_end l end_ : IdMin <= end_ -> (if end_ <? l then Decr l else Ok end_) = Ok (Z.max end_ (l - 1)).
Proof.
  intros Hs. unfold Decr. destruct (Z.ltb_spec end_ l); [rewrite (proj2 (Z.eqb_neq _ _)) by lia |]; f_equal; lia.
Qed.

Lemma next_range_ok reverse U hint it : lone_range reverse U it -> id_range hint ->
  exists b it', next_range reverse hint it = Ok (b, it') /\ same_iter it it' /\ lone_range reverse U it' /\
    found reverse U (lastVal_ it) hint b (lastVal_ it').
Proof.
  intros [Hl (s & first & second & Es & E & Hf & Hs & Hi & HU) Hb] Hh.
  assert (IdMin = - 2 ^ 31) as Hmin by done. assert (IdMax = 2 ^ 31 - 1) as Hmax by done.
  destruct (hint_bound_ok reverse hint (lastVal_ it) Hh Hl) as (bound & Eb & Hbr & Hbnd & _).
  assert (exists b last', next_range reverse hint it = Ok (b, with_last last' (lastPos_ it) it) /\ id_range last' /\
    (if b : bool then first <= last' < second /\ passed reverse bound last' = false /\
       forall x, first <= x < second -> passed reverse bound x = false -> dle reverse last' x
     else last' = end_val reverse /\ forall x, first <= x < second -> passed reverse bound x = true)) as (b & last' & Eq & Hr & Hfnd).
  { unfold next_range, id_range, end_val, dle in *. destruct reverse; destruct Hi as [Hi1 Hi2].
    - unfold nextRevSingleRange. rewrite Es, Hi1, Hi2. unfold hint_bound in Eb. rewrite Eb. cbn [mbind result_bind].
      rewrite above_begin by lia. cbn [mbind result_bind]. rewrite down_to_end by lia. cbn [mbind result_bind mret result_ret].
      destruct (Z.eqb_spec (Z.max (first - 1) (Z.min bound (second - 1 + 1) - 1)) (first - 1)) as [Ee | Ee].
      + exists false, IdMin. rewrite Z.eqb_refl. split_and!; [done | lia | lia | done |]. intros x Hx. apply passed_true. lia.
      + rewrite (proj2 (Z.eqb_neq _ _)) by lia. eexists true, _. split; [done |]. split; [lia |]. split; [lia |].
        split; [apply passed_false; lia |]. intros x Hx Hp%passed_false. lia.
    - unfold nextFwdSingleRange. rewrite Es, Hi1, Hi2. unfold hint_bound in Eb. rewrite Eb. cbn [mbind result_bind].
      rewrite below_first by lia. cbn [mbind result_bind]. rewrite up_to_second by lia. cbn [mbind result_bind mret result_ret].
      destruct (Z.eqb_spec (Z.min second (Z.max bound (first - 1) + 1)) second) as [Ee | Ee].
      + exists false, IdMax. rewrite Z.eqb_refl. split_and!; [done | lia | lia | done |]. intros x Hx. apply passed_true. lia.
      + rewrite (proj2 (Z.eqb_neq _ _)) by lia. eexists true, _. split; [done |]. split; [lia |]. split; [lia |].
        split; [apply passed_false; lia |]. intros x Hx Hp%passed_false. lia. }
  exists b, (with_last last' (lastPos_ it) it). split; [done |]. split; [by repeat split |]. split.
  - split; [done | | done]. exists s, first, second. split_and!; [done | done | lia | lia | done | done |]. intros x Hp. cbn in Hp.
    destruct b; destruct Hfnd as [H1' H2'].
    + apply HU. destruct H2' as [H2' _]. apply Hbnd. apply (passed_dle _ _ last'); [done |]. apply passed_false in Hp. unfold dle. destruct reverse; lia.
    + rewrite H1' in Hp. apply passed_false in Hp. unfold end_val in Hp.
      split; [intros Hx%Hb | intros Hx]; destruct reverse; lia.
  - apply (found_ext _ _ (fun x => first <= x < second)); [done |]. cbn. destruct b; destruct Hfnd as [H1' H2'].
    + destruct H2' as [H2' H3']. apply Hbnd in H2'. split; [done |]. intros x [Hx Hw]. apply H3'; [done | by apply Hbnd].
    + split; [done |]. intros x [Hx Hw]. apply Hbnd in Hw. rewrite H2' in Hw by done. done.
Qed.

(** ** Every kind of iteration *)

(** One list, or one tree read forward. *)
Definition lone (reverse : bool) (U : Z -> Prop) (it : SelectIterator) : Prop :=
  multi reverse U it /\ heap_ it = [] /\ lastPos_ it = 0 /\
  exists s, sets it = [s] /\ if reverse then exists view, collection s = FlatIdSet view else idset s.

Definition next_single (reverse : bool) : Z -> SelectIterator -> result (bool * SelectIterator) :=
  if reverse then nextRevSingleIdset else nextFwdSingleIdset.

Lemma next_single_keeps reverse hint it b it' : next_single reverse hint it = Ok (b, it') ->
  lastPos_ it' = lastPos_ it /\ heap_ it' = heap_ it.
Proof.
  unfold next_single, nextFwdSingleIdset, nextRevSingleIdset, mbind, result_bind, mret, result_ret.
  destruct reverse; repeat (case_match; try done); intros [= <- <-]; done.
Qed.

Lemma next_lone_ok reverse U hint it : lone reverse U it -> id_range hint ->
  exists b it', next_single reverse hint it = Ok (b, it') /\ same_iter it it' /\ lone reverse U it' /\
    found reverse U (lastVal_ it) hint b (lastVal_ it').
Proof.
  intros (Hm & Hh & Hp & s & Es & Hs) Hr. pose proof (m_ok _ _ _ Hm) as Hok. rewrite Es in Hok. inversion_clear Hok as [| ? ? Hs1 _].
  destruct (next_scan_ok reverse U hint it Hm Hh Hr) as (b & it' & E & Hsame & Hm' & Hf & _).
  assert (next_single reverse hint it = next_scan reverse hint it) as Ens.
  { destruct reverse; [destruct Hs as [view Hv]; by apply (next_single_rev hint it s view) | by apply (next_single_fwd hint it s)]. }
  rewrite <- Ens in E. exists b, it'. split; [done |]. split; [done |]. split; [| done].
  destruct (next_single_keeps _ _ _ _ _ E) as [Hp' Hh']. split; [done |]. split; [congruence |]. split; [congruence |].
  destruct Hsame as (_ & _ & _ & _ & Hc). rewrite Es in Hc. destruct (sets it') as [| s' [|]]; try done. injection Hc as Hc.
  exists s'. split; [done |]. unfold idset in *. by rewrite Hc.
Qed.

(** The iterator [it] goes through the ids [U]: those behind its last id are still to come. *)
Definition goes_through (reverse : bool) (U : Z -> Prop) (it : SelectIterator) : Prop :=
  isReverse_ it = reverse /\
  match type_ it with
  | TForward => reverse = false /\ multi reverse U it
  | TReverse => reverse = true /\ multi reverse U it
  | TSingleRange => reverse = false /\ lone_range reverse U it
  | TRevSingleRange => reverse = true /\ lone_range reverse U it
  | TSingleIdset | TSingleIdSetWithDeferedSort => reverse = false /\ lone reverse U it
  | TRevSingleIdset | TRevSingleIdSetWithDeferedSort => reverse = true /\ (lone reverse U it \/ lone_tree U it)
  | _ => False
  end.

Lemma goes_range reverse U it : goes_through reverse U it -> id_range (lastVal_ it).
Proof.
  intros [_ Hg]. destruct (type_ it); try done; destruct Hg as [_ Hg]; try apply Hg;
    destruct Hg as [Hg | Hg]; apply Hg.
Qed.

Lemma nextImpl_ok `{!BtreeSetLaws S} reverse U hint it : goes_through reverse U it -> id_range hint ->
  exists b it', nextImpl hint it = Ok (b, it') /\ same_iter it it' /\ goes_through reverse U it' /\
    found reverse U (lastVal_ it) hint b (lastVal_ it').
Proof.
  intros [Hrev Hg] Hr. unfold nextImpl, goes_through.
  assert (forall it', same_iter it it' -> type_ it' = type_ it /\ isReverse_ it' = reverse) as Hsame by (intros it' (? & ? & _); split; congruence).
  destruct (type_ it) eqn:Et; try done; destruct Hg as [-> Hg].
  all: try (destruct (next_multi_ok _ U hint it Hg Hr) as (b & it' & E & Hs & Hm & Hf & _); exists b, it'; rewrite E;
    destruct (Hsame it' Hs) as [-> ->]; split; [done |]; split; [done |]; by split).
  all: try (destruct (next_range_ok _ U hint it Hg Hr) as (b & it' & E & Hs & Hm & Hf); exists b, it'; cbn [next_range] in E; rewrite E;
    destruct (Hsame it' Hs) as [-> ->]; split; [done |]; split; [done |]; by split).
  all: try (destruct (next_lone_ok _ U hint it Hg Hr) as (b & it' & E & Hs & Hm & Hf); exists b, it'; cbn [next_single] in E; rewrite E;
    destruct (Hsame it' Hs) as [-> ->]; split; [done |]; split; [done |]; by split).
  all: destruct Hg as [Hg | Hg]; [destruct (next_lone_ok _ U hint it Hg Hr) as (b & it' & E & Hs & Hm & Hf) |
    destruct (next_rev_tree_ok U hint it Hg Hr) as (b & it' & E & Hs & Hm & Hf)]; exists b, it'; cbn [next_single] in E; rewrite E;
    destruct (Hsame it' Hs) as [-> ->]; (split; [done |]; split; [done |]; split; [| done]; split; [done |]; split; [done |]; auto).
Qed.

(** ** The start *)

Definition ids_in (it : SelectIterator) (x : Z) : Prop := Exists (fun s : Single => x ∈ ids_of (collection s)) (sets it).

(** What an iteration needs: sorted results, and lists and trees only if their sorting was deferred. *)
Definition startable (it : SelectIterator) : Prop :=
  isUnsorted_ it = false /\ Forall (fun s => collection_ok (collection s)) (sets it) /\
  (deferedExplicitSort (base it) = true -> Forall mergeable (sets it) /\ zlen (all_ids (sets it)) <= max_size).

Lemma mergeable_ok (s : Single) : mergeable s -> collection_ok (collection s) /\ idset s /\ ids_of (collection s) = stored (collection s).
Proof. unfold mergeable, idset. by destruct (collection s). Qed.

Definition started_as (reverse : bool) (s s' : Single) : Prop :=
  single_ok reverse s' /\ collection s' = collection s /\ i_it (u s') = i_begin (u s') /\ (forall x, x ∈ rest s' <-> x ∈ ids_of (collection s)).

Lemma start_sets reverse (l : list Single) : Forall (fun s => collection_ok (collection s)) l ->
  exists l', mapM (Single_Start reverse) l = Ok l' /\ Forall2 (started_as reverse) l l'.
Proof.
  induction 1 as [| s l Hs _ (l' & IH & Hl)]; [by exists [] |].
  destruct (start_ok reverse s Hs) as (s' & E & Hs'). exists (s' :: l'). split; [cbn; by rewrite E, IH | by constructor].
Qed.

Lemma started_sets reverse l l' : Forall2 (started_as reverse) l l' -> Forall (single_ok reverse) l' /\
  (forall x, still_in l' x <-> Exists (fun s : Single => x ∈ ids_of (collection s)) l).
Proof.
  induction 1 as [| s s' l l' (Hs & Hc & _ & Hx) _ [IH1 IH2]]; [split; [done | intros; by rewrite !Exists_nil] |].
  split; [by constructor |]. intros x. by rewrite !Exists_cons, Hx, IH2.
Qed.

Lemma heap_entries_ok reverse l : forall p, Forall (single_ok reverse) l ->
  exists l' h, heap_entries reverse p l = Ok (l', h) /\ Forall2 (moved reverse (first_val reverse)) l l' /\
    NoDup (pos <$> h) /\
    (forall e, e ∈ h <-> exists k s, l' !! k = Some s /\ pos e = p + Z.of_nat k /\ head (rest s) = Some (value e)).
Proof.
  induction l as [| s l IH]; intros p Hl.
  - exists [], []. split; [done |]. split; [constructor |]. split; [constructor |]. intros e. split; [by intros ?%not_elem_of_nil |].
    by intros (k & s & Hk & _).
  - inversion_clear Hl as [| ? ? Hs Hl']. cbn [heap_entries]. destruct (advance_one reverse (first_val reverse) s Hs) as (s' & -> & Hm).
    { right. unfold first_val, IdMin, IdMax. by destruct reverse. }
    cbn [mbind result_bind]. destruct (IH (p + 1) Hl') as (l' & h & -> & Hf & Hnd & He). cbn [mbind result_bind].
    eexists (s' :: l'), _. split; [done |]. split; [by constructor |].
    assert (forall e, e ∈ h -> p < pos e) as Hgt by (intros e (k & s0 & _ & -> & _)%He; lia).
    assert (forall e, e ∈ h <-> exists k s0, (s' :: l') !! Datatypes.S k = Some s0 /\ pos e = p + Z.of_nat (Datatypes.S k) /\ head (rest s0) = Some (value e)) as He'.
    { intros e. rewrite He. split; intros (k & s0 & Hk & Hp & Hv); exists k, s0; (split; [done |]); (split; [lia | done]). }
    destruct (head (rest s')) as [v |] eqn:Ev; split; try done.
    + cbn. apply NoDup_cons. split; [| done]. intros (e & Ee & Hin)%list_elem_of_fmap. apply Hgt in Hin. cbn in Ee. lia.
    + intros e. rewrite elem_of_cons, He'. split.
      * intros [-> | (k & s0 & Hk)]; [exists 0%nat, s'; cbn; rewrite Z.add_0_r; done | by exists (Datatypes.S k), s0].
      * intros ([| k] & s0 & Hk & Hp & Hv); [left | right; by exists k, s0].
        injection Hk as <-. rewrite Ev in Hv. injection Hv as Hv. destruct e as [ev ep]. cbn in *. f_equal; [done | lia].
    + intros e. rewrite He'. split; intros (k & s0 & Hk & Hp & Hv); [by exists (Datatypes.S k), s0 |].
      destruct k as [| k]; [injection Hk as <-; congruence | by exists k, s0].
Qed.

Lemma buildHeap_ok `{!MakeHeapLaws} reverse U it : (forall x, U x -> 0 <= x < IdMax) -> isReverse_ it = reverse ->
  lastVal_ it = first_val reverse -> heap_ it = [] -> Forall (single_ok reverse) (sets it) -> (forall x, still_in (sets it) x <-> U x) ->
  exists it', buildHeap it = Ok it' /\ multi reverse U it' /\ type_ it' = type_ it /\ isReverse_ it' = reverse /\
    lastVal_ it' = lastVal_ it /\ totalCalls_ it' = totalCalls_ it /\ matchedCount_ it' = matchedCount_ it.
Proof.
  intros HU Hr Hl Hh Hok Hx. assert (id_range (first_val reverse)) as Hfr by (unfold id_range, first_val, IdMin, IdMax; destruct reverse; lia).
  assert (first_val reverse <> end_val reverse) as Hne by (unfold first_val, end_val, IdMin, IdMax; by destruct reverse).
  unfold buildHeap. destruct (zlen (sets it) <? kMinSetsForHeapSort).
  - exists it. split; [done |]. split; [| done]. split; [done | done | by rewrite Hl | intros x _; by rewrite Hx | by rewrite Hl | by left].
  - rewrite Hr. destruct (heap_entries_ok reverse (sets it) 0 Hok) as (l' & h & -> & Hf & Hnd & He). cbn [mbind result_bind mret result_ret].
    eexists. split; [done |]. split; [| by repeat split].
    assert (Forall (single_ok reverse) l') as Hok' by (clear - Hf; induction Hf as [| ? ? ? ? (? & _)]; by constructor).
    pose proof (make_heap_perm (heap_less reverse) h) as Hp.
    split; cbn; [done | done | by rewrite Hl | | by rewrite Hl | right].
    + intros x Hpx. rewrite (moved_all reverse (first_val reverse) (sets it) l') by done. rewrite Hx, <- Hl. tauto.
    + split.
      * apply make_heap_heap; [apply heap_less_asym | apply heap_less_trans].
      * by rewrite Hp.
      * intros e. rewrite Hp, He. intros (k & s & Hk & -> & Hv). exists s. by rewrite Z.add_0_l, znth_lookup.
      * intros i s Hs Hrest. rewrite Hp. destruct (rest s) as [| v r] eqn:Er; [done |]. apply list_elem_of_fmap.
        exists (mk_entry v i). split; [done |]. apply He. exists (Z.to_nat i), s. cbn. rewrite Er.
        pose proof (znth_Some _ _ _ Hs). rewrite Z2Nat.id by lia. split; [| by split]. unfold znth in Hs. by case_decide.
Qed.

Context (Hsort : forall x, Permutation (pdqsort x) x /\ StronglySorted Z.le (pdqsort x)).

Lemma applyDeferedSort_ok `{!MakeHeapLaws} maxIterations it : startable it ->
  exists b base', applyDeferedSort maxIterations it = Ok (b, with_base base' it) /\
    Forall (fun s => collection_ok (collection s)) (results base') /\ (forall x, ids_in (with_base base' it) x <-> ids_in it x) /\
    (b = true -> exists s, results base' = [s] /\ idset s).
Proof.
  intros (_ & Hc & Hd). unfold applyDeferedSort. assert (max_size = 2 ^ 31 - 1) as Hms by reflexivity.
  destruct (deferedExplicitSort (base it)) eqn:Ed; cbn [andb]; [| by exists false, (base it); destruct it].
  destruct ((0 <? maxIterations) && negb (distinct_ it)); [| by exists false, (base it); destruct it].
  destruct (Hd eq_refl) as [Hm Hz]. unfold GetMaxIterations. unfold sets in *.
  rewrite max_iterations_ok by (done || lia). cbn [mbind result_bind mret result_ret].
  assert (mk_skr (results (base it)) (deferedExplicitSort (base it)) (cached (base it)) = base it) as -> by (by destruct (base it)).
  replace (with_base (base it) it) with it by (by destruct it). rewrite Z.add_0_l.
  destruct (IsGenericSortRecommended (zlen (results (base it))) (zlen (all_ids (results (base it)))) maxIterations);
    [| exists false, (base it); by destruct it].
  destruct (MergeIdsets_ok pdqsort Hsort true false (base it) Hm Hz) as (h & l & -> & _ & Hl & Hs & Hx); [by left |].
  cbn [mbind result_bind mret result_ret]. exists true, (mk_skr [of_collection (FlatIdSet l)] false (cached (base it))). split; [done |]. cbn [results].
  split; [| split].
  - constructor; [| constructor]. cbn. split; [by apply ssorted_le |]. split; [| lia]. apply Forall_forall. intros x Hin%Hx.
    pose proof (all_ids_bounds _ Hm) as Hb. by eapply Forall_forall in Hb.
  - intros x. unfold ids_in, sets. cbn. rewrite Exists_cons, Exists_nil. cbn. rewrite Hx, all_ids_elem.
    assert (forall s : Single, s ∈ results (base it) -> ids_of (collection s) = stored (collection s)) as Heq.
    { intros s Hin. eapply Forall_forall in Hm; [| done]. by apply mergeable_ok. }
    rewrite !Exists_exists. split; [intros [(s & Hin & Hxs) |]; [| done]; exists s; by rewrite Heq |].
    intros (s & Hin & Hxs). left. exists s. by rewrite <- Heq.
  - intros _. by exists (of_collection (FlatIdSet l)).
Qed.

Lemma ids_in_bounds it x : Forall (fun s => collection_ok (collection s)) (sets it) -> ids_in it x -> 0 <= x < IdMax.
Proof.
  intros Hc Hx. apply Exists_exists in Hx as (s & Hs & Hx). eapply Forall_forall in Hc; [| done]. cbn in Hc.
  destruct (collection s) as [| view | ptr | a b |]; try done; cbn in *.
  1, 2: destruct Hc as (_ & Hb & _); by eapply Forall_forall in Hb.
  apply elem_of_seqZ in Hx. lia.
Qed.

Lemma Start_ok `{!MakeHeapLaws} reverse maxIterations it : startable it ->
  exists it', Start reverse maxIterations it = Ok it' /\ goes_through reverse (ids_in it) it' /\
    lastVal_ it' = first_val reverse /\ totalCalls_ it' = totalCalls_ it /\ matchedCount_ it' = matchedCount_ it.
Proof.
  intros Hst. unfold Start. destruct (applyDeferedSort_ok maxIterations it Hst) as (b & base' & -> & Hc & Hx & Hb). cbn [mbind result_bind].
  unfold sets at 1. cbn [base with_base]. destruct (start_sets reverse _ Hc) as (l & -> & Hl). cbn [mbind result_bind].
  destruct (started_sets reverse _ _ Hl) as [Hok Hin]. cbn [isUnsorted_ with_base]. destruct Hst as (-> & Hc0 & _).
  assert (forall x, still_in l x <-> ids_in it x) as HU by (intros x; rewrite Hin; by apply Hx). clear Hx.
  assert (forall x, ids_in it x -> 0 <= x < IdMax) as Hbnd by (intros x; by apply ids_in_bounds).
  assert (id_range (first_val reverse)) as Hfr by (unfold id_range, first_val, IdMin, IdMax; destruct reverse; lia).
  assert (first_val reverse <> end_val reverse) as Hne by (unfold first_val, end_val, IdMin, IdMax; by destruct reverse).
  set (it1 := mk_iter _ _ _ _ _ _ _ _ _ _ _ _).
  assert (forall t, exists it', buildHeap (with_type t it1) = Ok it' /\ multi reverse (ids_in it) it' /\ type_ it' = t /\ isReverse_ it' = reverse /\
    lastVal_ it' = first_val reverse /\ totalCalls_ it' = totalCalls_ it /\ matchedCount_ it' = matchedCount_ it) as Hbuild.
  { intros t. by apply (buildHeap_ok reverse (ids_in it) (with_type t it1)). }
  destruct l as [| s [| s2 l]].
  - destruct (Hbuild (if reverse then TReverse else TForward)) as (it' & -> & Hm & Ht & Hr & Hrest). exists it'. split; [done |]. split; [| done].
    split; [done |]. rewrite Ht. destruct reverse; by split.
  - inversion_clear Hok as [| ? ? Hs _]. pose proof Hs as (Hcs & Hd & Hi). 
    assert (forall t, multi reverse (ids_in it) (with_type t it1)) as Hm.
    { intros t. split; [done | by constructor | done | intros x _; cbn; symmetry; apply HU | done | by left]. }
    assert (forall t, idset s -> (reverse = true -> exists view, collection s = FlatIdSet view) -> lone reverse (ids_in it) (with_type t it1)) as Hlone.
    { intros t Hid Hv. split; [apply Hm |]. split; [done |]. split; [done |]. exists s. split; [done |]. destruct reverse; [by apply Hv | done]. }
    unfold idset in *. destruct (collection s) as [| view | ptr | first second |] eqn:E; try done; eexists; (split; [done |]); (split; [| done]); (split; [done |]).
    + destruct reverse, b; cbn; (split; [done |]); [left | left | |]; apply Hlone; eauto.
    + destruct reverse; [| destruct b; (split; [done |]); by apply Hlone].
      assert (forall t, lone_tree (ids_in it) (with_type t it1)) as Htree; [| destruct b; (split; [done |]); right; apply Htree].
      intros t. split; [done | done |]. exists s, ptr. split; [done |]. split; [done |]. split; [done |]. split; [apply Hi |].
      intros x Hp. rewrite <- HU, Exists_cons, Exists_nil. inversion_clear Hl as [| s0 ? ? ? (_ & Hcol & _ & Hrest) _].
      rewrite Hrest, <- Hcol, E. cbn. tauto.
    + assert (lone_range reverse (ids_in it) (with_type (if reverse then TRevSingleRange else TSingleRange) it1)) as Hrange; [| by destruct reverse].
      split; [done | | done]. exists s, first, second. split; [done |]. split; [done |]. cbn in Hcs. split; [lia |]. split; [lia |].
      inversion_clear Hl as [| s0 ? ? ? (_ & Hcol & Hbeg & Hrest) _]. split.
      * assert (forall x, x ∈ rest s <-> first <= x < second) as Hr by (intros x; rewrite Hrest, <- Hcol, E; cbn; rewrite elem_of_seqZ; lia).
        unfold rest in Hr. rewrite E, Hd in Hr. rewrite <- Hbeg. destruct reverse; destruct Hi as [Hi1 Hi2]; (split; [| done]).
        -- destruct (Z.eq_dec first second) as [-> | ?]; [lia |]. pose proof (proj2 (Hr (second - 1)) ltac:(lia)) as Hx.
           rewrite elem_of_rev in Hx. apply elem_of_seqZ in Hx. lia.
        -- destruct (Z.eq_dec first second) as [-> | ?]; [lia |]. pose proof (proj2 (Hr first) ltac:(lia)) as Hx.
           apply elem_of_seqZ in Hx. lia.
      * intros x Hp. rewrite <- HU, Exists_cons, Exists_nil, Hrest, <- Hcol, E. cbn. rewrite elem_of_seqZ. 
        split; [intros [? | []]; lia | intros; left; lia].
  - destruct (Hbuild (if reverse then TReverse else TForward)) as (it' & -> & Hm & Ht & Hr & Hrest). exists it'. split; [done |]. split; [| done].
    split; [done |]. rewrite Ht. destruct reverse; by split.
Qed.

(** ** [Next] and [Compare] *)

Lemma goes_counts reverse U it calls matched : goes_through reverse U it -> goes_through reverse U (with_counts calls matched it).
Proof.
  intros [Hr Hg]. split; [done |]. cbn. assert (multi reverse U it -> multi reverse U (with_counts calls matched it)) as Hm by (intros []; by split).
  assert (lone reverse U it -> lone reverse U (with_counts calls matched it)) as Hl by (intros (? & ? & ? & ?); split; auto).
  assert (lone_range reverse U it -> lone_range reverse U (with_counts calls matched it)) as Hra by (intros []; by split).
  assert (lone_tree U it -> lone_tree U (with_counts calls matched it)) as Ht by (intros []; by split).
  destruct (type_ it); try done; destruct Hg as [? Hg]; (split; [done |]); auto; destruct Hg; auto.
Qed.

(** The counters have room for [n] calls. *)
Definition room_for (n : Z) (it : SelectIterator) : Prop :=
  totalCalls_ it + n < 2 ^ 31 /\ matchedCount_ it + n < 2 ^ 31.

Lemma bump_ok c : c + 1 < 2 ^ 31 -> bump c = Ok (c + 1).
Proof. intros Hc. unfold bump. by rewrite (proj2 (Z.eqb_neq _ _)) by lia. Qed.

Lemma Next_ok `{!BtreeSetLaws S} reverse U hint it n : goes_through reverse U it -> id_range hint -> 1 <= n -> room_for n it ->
  exists b it', Next hint it = Ok (b, it') /\ goes_through reverse U it' /\ room_for (n - 1) it' /\
    found reverse U (lastVal_ it) hint b (lastVal_ it').
Proof.
  intros Hg Hh Hn [Hc Hm]. unfold Next. rewrite bump_ok by lia. cbn [mbind result_bind].
  destruct (nextImpl_ok reverse U hint _ (goes_counts reverse U it (totalCalls_ it + 1) (matchedCount_ it) Hg) Hh)
    as (b & it' & -> & (_ & _ & Ec & Em & _) & Hg' & Hf). cbn in Ec, Em, Hf. cbn [mbind result_bind].
  assert (exists m, (if b then bump (matchedCount_ it') else Ok (matchedCount_ it')) = Ok m /\ m <= matchedCount_ it + 1) as (m & -> & Hm').
  { rewrite Em. destruct b; [rewrite bump_ok by lia |]; eexists; split; try done; lia. }
  cbn [mbind result_bind mret result_ret]. eexists b, _. split; [done |]. split; [by apply goes_counts |].
  split; [| done]. split; cbn; lia.
Qed.

(** Ids at or behind [g] are not before the last id: no id is skipped between them. *)
Definition no_gap (reverse : bool) (U : Z -> Prop) (g : Z) (it : SelectIterator) : Prop :=
  (forall x, U x -> dle reverse g x -> dle reverse (lastVal_ it) x) /\
  (lastVal_ it = first_val reverse \/ U (lastVal_ it) \/ lastVal_ it = end_val reverse).

Lemma found_no_gap reverse U last hint b it' : found reverse U last hint b (lastVal_ it') -> no_gap reverse U (lastVal_ it') it'.
Proof.
  intros Hf. split; [done |]. destruct b; [right; left; apply Hf | right; right; apply Hf].
Qed.

(** A comparison tells whether the id is in the set, if it is not before the ones compared. *)
Lemma Compare_ok `{!BtreeSetLaws S} reverse U g t it n : goes_through reverse U it -> no_gap reverse U g it ->
  dle reverse g t -> 0 <= t < IdMax -> 1 <= n -> room_for n it ->
  exists b it', Compare t it = Ok (b, it') /\ goes_through reverse U it' /\ no_gap reverse U t it' /\ room_for (n - 1) it' /\
    (b = true <-> U t) /\ (dle reverse t (lastVal_ it') \/ lastVal_ it' = end_val reverse).
Proof.
  intros Hg [Hgap Hlast] Hgt Ht Hn [Hc Hm]. unfold Compare. rewrite bump_ok by lia. cbn [mbind result_bind].
  set (it1 := with_counts _ _ it). assert (goes_through reverse U it1) as Hg1 by by apply goes_counts.
  assert (isReverse_ it1 = reverse) as Hrev by apply Hg1. rewrite Hrev. change (Val it1) with (lastVal_ it).
  assert (forall x, U x -> dle reverse t x -> dle reverse (lastVal_ it) x) as Hgap'.
  { intros x Hx Hxt. apply Hgap; [done |]. by apply (dle_trans _ _ t). }
  assert (t <> first_val reverse /\ t <> end_val reverse) as [Hnf Hne] by (unfold first_val, end_val, IdMin; destruct reverse; lia).
  rewrite better_passed. destruct (passed reverse t (lastVal_ it)) eqn:Ep; cbn [negb].
  - apply passed_true in Ep. destruct (Z.eqb_spec (lastVal_ it) t) as [El | El].
    + cbn [mbind result_bind mret result_ret]. rewrite bump_ok by (cbn; lia). cbn [mbind result_bind mret result_ret].
      eexists true, _. split; [done |]. split; [by apply goes_counts |]. split; [by split |]. split; [split; cbn; lia |]. split.
      * split; [intros _ | done]. destruct Hlast as [? | [HU | ?]]; congruence.
      * left. cbn. rewrite El. apply dle_refl.
    + assert (id_range t) as Htr by (unfold id_range, IdMin; lia).
      destruct (nextImpl_ok reverse U t it1 Hg1 Htr) as (b & it2 & -> & (_ & _ & Ec & Em & _) & Hg2 & Hf).
      cbn in Ec, Em, Hf. cbn [mbind result_bind mret result_ret].
      assert (U t -> b = true /\ lastVal_ it2 = t) as HUt.
      { intros HU. assert (passed reverse (lastVal_ it) t = false /\ reached reverse t t) as Hw.
        { rewrite passed_false. unfold reached. destruct reverse; lia. }
        destruct b; [| by destruct (proj2 Hf t)]. split; [done |]. destruct Hf as [(_ & _ & Hr) Hfst].
        pose proof (Hfst t ltac:(done)) as Hd. unfold dle, reached in *. destruct reverse; lia. }
      assert (no_gap reverse U t it2) as Hgap2.
      { split; [| destruct b; [right; left | right; right]; apply Hf]. intros x Hx Hxt.
        assert (U x /\ passed reverse (lastVal_ it) x = false /\ reached reverse t x) as Hw.
        { split; [done |]. rewrite passed_false. unfold reached, dle in *. destruct reverse; lia. }
        destruct b; [by apply Hf | by destruct (proj2 Hf x)]. }
      assert (dle reverse t (lastVal_ it2) \/ lastVal_ it2 = end_val reverse) as Hd2.
      { destruct b; [left | right]; [| apply Hf]. destruct Hf as [(_ & _ & Hr) _]. unfold dle, reached in *. by destruct reverse. }
      destruct (b && (t =? Val it2)) eqn:Eb.
      * apply andb_true_iff in Eb as [-> Eb%Z.eqb_eq]. rewrite bump_ok by (rewrite Em; cbn; lia). cbn [mbind result_bind mret result_ret].
        eexists true, _. split; [done |]. split; [by apply goes_counts |]. split; [done |]. split; [split; cbn; rewrite ?Ec, ?Em; cbn; lia |].
        split; [| done]. split; [intros _ | done]. unfold Val in Eb. rewrite Eb. apply Hf.
      * eexists false, _. split; [done |]. split; [done |]. split; [done |]. split; [split; rewrite ?Ec, ?Em; cbn; lia |].
        split; [| done]. split; [done |]. intros HU. destruct (HUt HU) as [-> El2]. unfold Val in Eb. rewrite El2, Z.eqb_refl in Eb. done.
  - apply passed_false in Ep. eexists false, _. split; [done |]. split; [done |]. split; [by split |]. split; [split; cbn; lia |]. split.
    + split; [done |]. intros HU. pose proof (Hgap t HU Hgt). unfold dle in *. destruct reverse; lia.
    + left. unfold dle. cbn. destruct reverse; lia.
Qed.

(** ** Whole iterations *)

(** The ids that a sequence of moves finds; nothing when the iteration is over. *)
Fixpoint nexts (hints : list Z) (it : SelectIterator) : result (list (option Z) * SelectIterator) :=
  match hints with
  | [] => Ok ([], it)
  | hint :: hints =>
      '(b, it) ← Next hint it; '(out, it') ← nexts hints it;
      mret ((if b : bool then Some (Val it) else None) :: out, it')
  end.

Fixpoint compares (targets : list Z) (it : SelectIterator) : result (list bool * SelectIterator) :=
  match targets with
  | [] => Ok ([], it)
  | t :: targets => '(b, it) ← Compare t it; '(out, it) ← compares targets it; mret (b :: out, it)
  end.

(** The specification: the first element of the list behind the last one and not before the hint. *)
Definition wanted (reverse : bool) (last hint x : Z) : bool :=
  negb (passed reverse last x) && (if reverse then x <=? hint else hint <=? x).

Fixpoint spec_nexts (reverse : bool) (L : list Z) (last : Z) (hints : list Z) : list (option Z) :=
  match hints with
  | [] => []
  | hint :: hints =>
      let next := head (filter (fun x => wanted reverse last hint x = true) L) in
      next :: spec_nexts reverse L (default (end_val reverse) next) hints
  end.

Definition dlt (reverse : bool) (x y : Z) : Prop := if reverse then y < x else x < y.

Lemma wanted_true reverse last hint x : wanted reverse last hint x = true <-> passed reverse last x = false /\ reached reverse hint x.
Proof. unfold wanted, reached. destruct (passed reverse last x), reverse; cbn; rewrite ?Z.leb_le; intuition done. Qed.

Lemma head_filter_first reverse (P : Z -> bool) L x : StronglySorted (dlt reverse) L -> head (filter (fun x => P x = true) L) = Some x ->
  x ∈ L /\ P x = true /\ forall y, y ∈ L -> P y = true -> dle reverse x y.
Proof.
  induction 1 as [| a L Hs IH Ha]; [done |]. rewrite filter_cons. case_decide as Hp.
  - intros [= ->]. split; [by left |]. split; [done |]. intros y [-> | Hy]%elem_of_cons _; [apply dle_refl |].
    eapply Forall_forall in Ha; [| done]. unfold dlt, dle in *. destruct reverse; lia.
  - intros Hx. destruct (IH Hx) as (Hin & HP & Hf). split; [by right |]. split; [done |].
    intros y [-> | Hy]%elem_of_cons Hpy; [congruence | by apply Hf].
Qed.

Lemma found_spec reverse (U : Z -> Prop) L last hint b last' : StronglySorted (dlt reverse) L -> (forall x, x ∈ L <-> U x) ->
  found reverse U last hint b last' ->
  (if b then Some last' else None) = head (filter (fun x => wanted reverse last hint x = true) L) /\
  last' = default (end_val reverse) (if b then Some last' else None).
Proof.
  intros Hs HL Hf. split; [| destruct b; [done | apply Hf]].
  assert (forall x, U x /\ passed reverse last x = false /\ reached reverse hint x <-> x ∈ L /\ wanted reverse last hint x = true) as Hw.
  { intros x. by rewrite HL, wanted_true. }
  destruct (head (filter _ L)) as [y |] eqn:E.
  - destruct (head_filter_first reverse _ L y Hs E) as (Hy & Hwy & Hfst). destruct b.
    + destruct Hf as [H1' H2']. f_equal. apply Hw in H1' as [H1' Hw1]. pose proof (Hfst _ H1' Hw1). pose proof (H2' y (proj2 (Hw y) (conj Hy Hwy))).
      unfold dle in *. destruct reverse; lia.
    + destruct (proj2 Hf y). by apply Hw.
  - destruct b; [| done]. destruct Hf as [H1' _]. apply Hw in H1' as [H1' Hw1].
    assert (last' ∈ filter (fun x => wanted reverse last hint x = true) L) as Hin by (by apply list_elem_of_filter).
    destruct (filter _ L); [by apply not_elem_of_nil in Hin | done].
Qed.

Lemma nexts_ok `{!BtreeSetLaws S} reverse U L hints : StronglySorted (dlt reverse) L -> (forall x, x ∈ L <-> U x) ->
  forall it, goes_through reverse U it -> Forall id_range hints -> room_for (zlen hints) it ->
  exists it', nexts hints it = Ok (spec_nexts reverse L (lastVal_ it) hints, it').
Proof.
  intros Hs HL. induction hints as [| hint hints IH]; intros it Hg Hh Hroom; [by exists it |].
  inversion_clear Hh as [| ? ? Hh1 Hh2]. rewrite zlen_cons in Hroom. pose proof (zlen_nonneg hints).
  destruct (Next_ok reverse U hint it (1 + zlen hints) Hg Hh1) as (b & it1 & E & Hg1 & Hr1 & Hf); [lia | done |].
  destruct (found_spec reverse U L _ _ b _ Hs HL Hf) as [E1 E2].
  replace (1 + zlen hints - 1) with (zlen hints) in Hr1 by lia. destruct (IH it1 Hg1 Hh2 Hr1) as (it2 & E3).
  exists it2. cbn [nexts spec_nexts]. rewrite E. cbn [mbind result_bind]. rewrite E3. cbn [mbind result_bind mret result_ret].
  unfold Val. by rewrite <- E1, <- E2.
Qed.

Lemma compares_ok `{!BtreeSetLaws S} reverse U (L targets : list Z) : (forall x, x ∈ L <-> U x) ->
  forall g it, goes_through reverse U it -> no_gap reverse U g it -> StronglySorted (dle reverse) (g :: targets) ->
  Forall (fun t => 0 <= t < IdMax) targets -> room_for (zlen targets) it ->
  exists it', compares targets it = Ok (map (fun t => bool_decide (t ∈ L)) targets, it').
Proof.
  intros HL. induction targets as [| t targets IH]; intros g it Hg Hgap Hs Ht Hroom; [by exists it |].
  inversion_clear Ht as [| ? ? Ht1 Ht2]. rewrite zlen_cons in Hroom. pose proof (zlen_nonneg targets).
  inversion_clear Hs as [| ? ? Hs1 Hs2]. inversion_clear Hs2 as [| ? ? Hgt _].
  destruct (Compare_ok reverse U g t it (1 + zlen targets) Hg Hgap Hgt Ht1) as (b & it1 & E & Hg1 & Hgap1 & Hr1 & Hb & _); [lia | done |].
  replace (1 + zlen targets - 1) with (zlen targets) in Hr1 by lia.
  destruct (IH t it1 Hg1 Hgap1 Hs1 Ht2 Hr1) as (it2 & E2). exists it2. cbn [compares map]. rewrite E. cbn [mbind result_bind]. rewrite E2.
  cbn [mbind result_bind mret result_ret]. do 3 f_equal. destruct b; [rewrite bool_decide_true | rewrite bool_decide_false]; rewrite ?HL;
    [done | by apply Hb | done | by intros ?%Hb].
Qed.

Lemma filter_filter_in (P Q : Z -> bool) (L : list Z) : (forall y, P y = true -> Q y = true) ->
  filter (fun y => P y = true) (filter (fun y => Q y = true) L) = filter (fun y => P y = true) L.
Proof.
  intros HPQ. induction L as [| a L IH]; [done |]. rewrite !(filter_cons _ a). destruct (Q a) eqn:EQ.
  - rewrite decide_True by done. rewrite filter_cons. by rewrite IH.
  - rewrite decide_False by done. rewrite (decide_False (P := P a = true)); [done |]. intros Hp%HPQ. congruence.
Qed.

Lemma filter_all (P : Z -> bool) (L : list Z) : Forall (fun y => P y = true) L -> filter (fun y => P y = true) L = L.
Proof. induction 1 as [| a L Ha _ IH]; [done |]. rewrite filter_cons, decide_True by done. by rewrite IH. Qed.

(** Without hints the elements come one after the other. *)
Lemma spec_nexts_all reverse L rest : forall last, StronglySorted (dlt reverse) L -> Forall id_range L ->
  filter (fun x => wanted reverse last (first_val reverse) x = true) L = rest ->
  spec_nexts reverse L last (replicate (length rest) (first_val reverse) ++ [first_val reverse]) = map Some rest ++ [None].
Proof.
  induction rest as [| x rest IH]; intros last Hs Hr E; cbn [replicate length app map spec_nexts]; rewrite E; [done |].
  cbn [head]. change (default (end_val reverse) (Some x)) with x. f_equal. apply IH; [done | done |].
  assert (x ∈ L /\ wanted reverse last (first_val reverse) x = true) as [HxL Hx].
  { assert (x ∈ x :: rest) as Hin by (by left). rewrite <- E in Hin. by apply list_elem_of_filter in Hin as [? ?]. }
  assert (StronglySorted (dlt reverse) (x :: rest)) as Hsr.
  { rewrite <- E. clear - Hs. induction Hs as [| a L _ IH Ha]; [constructor |]. rewrite filter_cons. case_decide; [| done].
    constructor; [done |]. apply Forall_forall. intros y [_ Hy]%list_elem_of_filter. by eapply Forall_forall in Ha. }
  rewrite <- (filter_filter_in _ (wanted reverse last (first_val reverse))).
  - rewrite E, filter_cons, decide_False.
    + apply filter_all. inversion_clear Hsr as [| ? ? _ Ha]. apply Forall_forall. intros y Hy. apply wanted_true.
      assert (y ∈ L) as HyL. { assert (y ∈ x :: rest) as Hin by (by right). rewrite <- E in Hin. by apply list_elem_of_filter in Hin as [? ?]. }
      eapply Forall_forall in Ha; [| done]. eapply Forall_forall in Hr; [| done]. rewrite passed_false.
      unfold dlt, reached, first_val, id_range in *. cbn in *. destruct reverse; lia.
    + intros [Hc _]%wanted_true. apply passed_false in Hc. destruct reverse; lia.
  - intros y. rewrite !wanted_true in *. destruct Hx as [Hx _]. intros [Hy ?]. split; [| done].
    rewrite passed_false in *. destruct reverse; lia.
Qed.

(** C11: an iterator enumerates the union of its results. [L] is the list of their ids in the
    order of the iteration; after [Start], in either direction, whatever way of iterating is
    chosen, every [Next] finds the first element of the list that is behind the last one found and
    not before the hint, and answers that there is none when there is none. Without hints these
    are all the elements of the list, each once, and then the end. *)
Theorem iterator_enumerates `{!BtreeSetLaws S, !MakeHeapLaws} reverse maxIterations it L hints :
  startable it -> StronglySorted (dlt reverse) L -> (forall x, x ∈ L <-> ids_in it x) ->
  Forall id_range hints -> room_for (zlen hints) it ->
  exists it1 it2, Start reverse maxIterations it = Ok it1 /\
    nexts hints it1 = Ok (spec_nexts reverse L (first_val reverse) hints, it2) /\
    spec_nexts reverse L (first_val reverse) (replicate (length L) (first_val reverse) ++ [first_val reverse]) = map Some L ++ [None].
Proof.
  intros Hst Hs HL Hh Hroom. destruct (Start_ok reverse maxIterations it Hst) as (it1 & E & Hg & Hl & Hc & Hm).
  destruct (nexts_ok reverse (ids_in it) L hints Hs HL it1 Hg Hh) as (it2 & E2); [unfold room_for in *; by rewrite Hc, Hm |].
  exists it1, it2. split; [done |]. rewrite <- Hl at 1. split; [done |].
  assert (forall x, x ∈ L -> 0 <= x < IdMax) as Hb by (intros x Hx%HL; apply (ids_in_bounds it); [apply Hst | done]).
  apply spec_nexts_all; [done | |].
  - apply Forall_forall. intros x Hx%Hb. unfold id_range, IdMin. lia.
  - apply filter_all, Forall_forall. intros x Hx%Hb. apply wanted_true. rewrite passed_false. unfold reached, first_val, IdMin. destruct reverse; lia.
Qed.

(** C12: an iterator decides membership. After [Start], [Compare] with ids in the order of the
    iteration answers for each whether it is in one of the results, repeated ids included. *)
Theorem iterator_compares `{!BtreeSetLaws S, !MakeHeapLaws} reverse maxIterations it (L targets : list Z) :
  startable it -> (forall x, x ∈ L <-> ids_in it x) ->
  StronglySorted (dle reverse) targets -> Forall (fun t => 0 <= t < IdMax) targets -> room_for (zlen targets) it ->
  exists it1 it2, Start reverse maxIterations it = Ok it1 /\
    compares targets it1 = Ok (map (fun t => bool_decide (t ∈ L)) targets, it2).
Proof.
  intros Hst HL Hs Ht Hroom. destruct (Start_ok reverse maxIterations it Hst) as (it1 & E & Hg & Hl & Hc & Hm).
  destruct (compares_ok reverse (ids_in it) L targets HL (first_val reverse) it1 Hg) as (it2 & E2);
    [| | done | unfold room_for in *; by rewrite Hc, Hm | by exists it1, it2].
  - split; [| by left]. intros x _ Hx. by rewrite Hl.
  - constructor; [done |]. eapply Forall_impl; [done |]. intros t Hb. cbn in Hb. unfold dle, first_val, IdMin. destruct reverse; lia.
Qed.

End SelectIter.

Arguments SelectIterator : clear implicits.

(** ** Examples: seventeen results, read through the heap *)

Definition sample_iter : SelectIterator (gset Z) Empty_set := SelectIterator_make (mk_skr sample_results false false) false false.

Lemma sample_startable : startable sample_iter.
Proof.
  split; [done |]. split; [| done]. eapply Forall_impl; [exact sample_mergeable |]. intros s Hs. by apply mergeable_ok.
Qed.

Lemma sample_ids_in x : x ∈ [9; 8; 7; 4; 2; 1] <-> ids_in sample_iter x.
Proof.
  unfold ids_in, sets, sample_iter, sample_results. cbn [SelectIterator_make base results]. rewrite !Exists_cons.
  assert (ids_of (collection (of_collection (I := Empty_set) (TreeIdSet ({[2; 4; 8]} : gset Z)))) = [2; 4; 8]) as -> by (vm_compute; reflexivity).
  cbn [collection of_collection ids_of stored]. assert (Exists (fun s : SingleSelectKeyResult (gset Z) Empty_set => x ∈ ids_of (collection s))
    (replicate 15 (of_collection (FlatIdSet [4; 7]))) <-> x ∈ [4; 7]) as ->.
  { rewrite Exists_exists. split.
    - intros (s & Hs & Hx). apply elem_of_replicate in Hs as [-> _]. done.
    - intros Hx. exists (of_collection (FlatIdSet [4; 7])). split; [by left | done]. }
  set_solver.
Qed.

Lemma sample_sort : forall x, Permutation (merge_sort Z.le x) x /\ StronglySorted Z.le (merge_sort Z.le x).
Proof. intros x. split; [apply merge_sort_Permutation | apply StronglySorted_merge_sort; apply _]. Qed.

Lemma iterator_enumerates_witness :
  exists it1 it2, Start (merge_sort Z.le) true 100 sample_iter = Ok it1 /\
    nexts [IdMax; 7; IdMax; 3; IdMax; IdMax] it1 = Ok ([Some 9; Some 7; Some 4; Some 2; Some 1; None], it2).
Proof.
  destruct (iterator_enumerates (merge_sort Z.le) sample_sort true 100 sample_iter [9; 8; 7; 4; 2; 1] [IdMax; 7; IdMax; 3; IdMax; IdMax])
    as (it1 & it2 & E1 & E2 & _).
  - exact sample_startable.
  - repeat constructor.
  - exact sample_ids_in.
  - repeat constructor; by vm_compute.
  - by vm_compute.
  - exists it1, it2. split; [exact E1 | exact E2].
Defined.

Lemma iterator_compares_witness :
  exists it1 it2, Start (merge_sort Z.le) false 100 sample_iter = Ok it1 /\
    compares [0; 2; 2; 3; 8; 100] it1 = Ok ([false; true; true; false; true; false], it2).
Proof.
  destruct (iterator_compares (merge_sort Z.le) sample_sort false 100 sample_iter [9; 8; 7; 4; 2; 1] [0; 2; 2; 3; 8; 100])
    as (it1 & it2 & E1 & E2).
  - exact sample_startable.
  - exact sample_ids_in.
  - repeat constructor; by vm_compute.
  - repeat constructor; by vm_compute.
  - by vm_compute.
  - exists it1, it2. split; [exact E1 | exact E2].
Defined.

(** A single tree that is read backward forgets that its last set was excluded; a list does not. *)
Definition exclude_first (c : Collection (gset Z) Empty_set) : result (list (option Z)) :=
  it ← Start (merge_sort Z.le) true 100 (SelectIterator_make (mk_skr [of_collection c] false false) false false);
  '(_, it) ← Next IdMax it; it ← ExcludeLastSet 8 it; '(out, _) ← nexts [IdMax] it; mret out.

Example exclude_reverse_tree :
  exclude_first (FlatIdSet [2; 4; 8]) = Ok [None] /\ exclude_first (TreeIdSet {[2; 4; 8]}) = Ok [Some 4].
Proof. vm_compute. done. Qed.
