(* ===== verification/SelectLoop.v ===== *)
(** The loop that selects the rows of a query: [core/nsselecter/selectiteratorcontainer.h],
    [selectiteratorcontainer.cc] and [selectLoop] of [core/nsselecter/nsselecter.cc].

    The container is a tree of conditions in the vector of [ExpressionTree]; here it is the forest
    that [ExpressionForest] shows the vector to stand for, so that iterating over a range of the
    vector is recursion over the children. Comparators and joins look at the items and keep state;
    they are an interface over a state [W]. The loop is the one over a namespace without ranks,
    without aggregations and without a sort by several columns over a B-tree index. *)

From S2P Require Import Prelude ExpressionTree ExpressionForest QueryEntries Gallop IdSet Heap SelectKey SelectMerge SelectIter.

(** The comparators ([ComparatorsPackT]) and the processors of joins. A row is its number in the
    namespace. *)
Class RowConditions (C W : Type) : Type := {
  compare : C -> Z -> W -> result (bool * W);
  comp_distinct : C -> bool;
  exclude_values : C -> Z -> W -> result W;
  process_join : Z -> Z -> bool -> W -> result (bool * W)
}.

(** A comparator that is not distinct tests the values of the row, and a join finds the matching
    rows of another namespace: neither depends on the rows tested before. *)
Class RowConditionsLaws {C W : Type} `{RowConditions C W} (compare_sem : C -> Z -> bool) (join_sem : Z -> Z -> bool) : Prop := {
  compare_law : forall c row w, comp_distinct c = false -> exists w', compare c row w = Ok (compare_sem c row, w');
  process_join_law : forall j row b w, exists w', process_join j row b w = Ok (join_sem j row, w')
}.

Definition kCancelCheckFrequency : Z := 1024.

Section SelectLoop.
Context {BS : Type} `{BtreeSet BS} {I : Type} `{IndexIterator I} `{Partition} `{MakeHeap} {C W : Type} `{RowConditions C W}.
Context (pdqsort : list Z -> list Z).

Abbreviation Iter := (SelectIterator BS I).

Inductive Sel : Type :=
| SIterator (it : Iter)
| SJoin (joinIndex : Z)
| SKnnRaw
| SAlwaysTrue
| SComparator (c : C).

(** A bracket carries [haveJoins]. *)
Abbreviation node := (tree OpType bool Sel).
Abbreviation container := (list (tree OpType bool Sel)).

(** ** Preparing the container *)

Fixpoint start_node (reverse : bool) (maxIterations : Z) (t : node) : result node :=
  match t with
  | Leaf op (SIterator it) => it ← Start pdqsort reverse maxIterations it; mret (Leaf op (SIterator it))
  | Leaf op SKnnRaw => Fail (Throw errAssert)
  | Leaf op v => mret (Leaf op v)
  | Sub op p o ch => ch ← mapM (start_node reverse maxIterations) ch; mret (Sub op p o ch)
  end.

(** Rewinding all iterators. *)
Definition start_all (reverse : bool) (maxIterations : Z) (f : container) : result container :=
  mapM (start_node reverse maxIterations) f.

Fixpoint mark_node (t : node) : node * bool :=
  match t with
  | Leaf op (SJoin j) => (Leaf op (SJoin j), true)
  | Leaf op v => (Leaf op v, false)
  | Sub op _ o ch =>
      let ch := map mark_node ch in
      let b := existsb snd ch in (Sub op b o (map fst ch), b)
  end.

Definition markBracketsHavingJoins (f : container) : container * bool :=
  let f := map mark_node f in (map fst f, existsb snd f).

Definition isIdset (t : node) (next : container) : bool :=
  match t with
  | Leaf OpAnd (SIterator _) => match next with [] => true | t' :: _ => negb (is_or (tree_op t')) end
  | _ => false
  end.

Fixpoint HasIdsets (f : container) : bool :=
  match f with [] => false | t :: f => isIdset t f || HasIdsets f end.

(** The first set of ids, and the conditions before and behind it. *)
Fixpoint split_idset (f : container) : option (container * node * container) :=
  match f with
  | [] => None
  | t :: f =>
      if isIdset t f then Some ([], t, f)
      else '(before, x, after) ← split_idset f; Some (t :: before, x, after)
  end.

Definition CheckFirstQuery (f : container) : result container :=
  match split_idset f with
  | Some (before, x, after) => Ok (x :: before ++ after)
  | None => Fail (Throw errAssert)
  end.

Definition IsDistinct (t : node) : bool :=
  match t with
  | Leaf _ (SIterator it) => distinct_ it
  | Leaf _ (SComparator c) => comp_distinct c
  | _ => false
  end.

(** A condition at the top is named by its number among them. *)
Fixpoint CollectDistinctConditions_from (i : nat) (f : container) : list nat :=
  match f with
  | [] => []
  | t :: f => (if IsDistinct t then [i] else []) ++ CollectDistinctConditions_from (S i) f
  end.

Definition CollectDistinctConditions (f : container) : list nat := CollectDistinctConditions_from 0 f.

(** ** Testing one row *)

(** The value of a condition, whether its ids have ended, and the condition after it. *)
Definition check_leaf (rowId properRowId : Z) (withJoinedItems : bool) (v : Sel) (w : W) : result (bool * bool * Sel * W) :=
  match v with
  | SKnnRaw => Fail (Throw errAssert)
  | SIterator it => '(res, it) ← Compare rowId it; mret (res, End_ it, SIterator it, w)
  | SJoin j => '(res, w) ← process_join j properRowId withJoinedItems w; mret (res, false, v, w)
  | SComparator c => '(res, w) ← compare c properRowId w; mret (res, false, v, w)
  | SAlwaysTrue => Ok (true, false, v, w)
  end.

Definition holds_no_join (t : node) : result bool :=
  match t with
  | Sub _ haveJoins _ _ => Ok (negb haveJoins)
  | Leaf _ (SJoin _) => Ok false
  | Leaf _ SKnnRaw => Fail (Throw errAssert)
  | Leaf _ _ => Ok true
  end.

Section CheckList.
Variable check : node -> W -> result (bool * bool * node * W).

Fixpoint check_list (ts : container) (result_ orChainFinish finish : bool) (w : W) : result (bool * bool * container * W) :=
  match ts with
  | [] => Ok (result_, finish || orChainFinish, [], w)
  | t :: rest =>
      skip ← if is_or (tree_op t) && result_ then holds_no_join t else Ok false;
      if skip : bool then
        '(r, f, rest, w) ← check_list rest result_ orChainFinish finish w; mret (r, f, t :: rest, w)
      else if negb (is_or (tree_op t)) && negb result_ then Ok (result_, finish || orChainFinish, ts, w)
      else
        '(lastResult, lastFinish, t', w) ← check t w;
        '(r, f, rest, w) ← match tree_op t with
                           | OpOr => check_list rest (result_ || lastResult) (orChainFinish && lastFinish) finish w
                           | OpAnd => check_list rest lastResult lastFinish (finish || orChainFinish) w
                           | OpNot => check_list rest (negb lastResult) false (finish || orChainFinish) w
                           end;
        mret (r, f, t' :: rest, w)
  end.
End CheckList.

Fixpoint check_node (rowId properRowId : Z) (withJoinedItems : bool) (t : node) (w : W) : result (bool * bool * node * W) :=
  match t with
  | Leaf op v => '(r, f, v, w) ← check_leaf rowId properRowId withJoinedItems v w; mret (r, f, Leaf op v, w)
  | Sub op p o ch =>
      '(r, f, ch, w) ← check_list (check_node rowId properRowId withJoinedItems) ch true false false w;
      mret (r, f, Sub op p o ch, w)
  end.

Definition checkIfSatisfyAllConditions (ts : container) (finish : bool) (rowId properRowId : Z) (withJoinedItems : bool) (w : W)
  : result (bool * bool * container * W) :=
  check_list (check_node rowId properRowId withJoinedItems) ts true false finish w.

(** ** Where the next row can be *)

(** [std::numeric_limits] is not specialized for the class [IdType], so that both its [max] and
    its [lowest] are a default [IdType], which is 0. *)
Definition numeric_limits_IdType : Z := 0.

Definition next_leaf (reverse : bool) (from : Z) (v : Sel) : result Z :=
  match v with
  | SKnnRaw => Fail (Throw errAssert)
  | SIterator it =>
      if End_ it then Ok numeric_limits_IdType
      else if reverse then (if Val it <? from then Incr (Val it) else Ok from)
      else (if from <? Val it then Decr (Val it) else Ok from)
  | SJoin _ | SAlwaysTrue | SComparator _ => Ok from
  end.

Section NextList.
Variable next : node -> Z -> result Z.

Fixpoint next_list (reverse : bool) (ts : container) (from result_ : Z) : result Z :=
  match ts with
  | [] => Ok result_
  | t :: ts =>
      match tree_op t with
      | OpOr => n ← next t from; next_list reverse ts from (if reverse then Z.max result_ n else Z.min result_ n)
      | OpAnd => n ← next t result_; next_list reverse ts result_ n
      | OpNot => next_list reverse ts from result_
      end
  end.
End NextList.

Fixpoint next_node (reverse : bool) (t : node) (from : Z) : result Z :=
  match t with
  | Leaf _ v => next_leaf reverse from v
  | Sub _ _ _ ch => next_list (next_node reverse) reverse ch from from
  end.

Definition getNextItemId (reverse : bool) (ts : container) (from : Z) : result Z :=
  next_list (next_node reverse) reverse ts from from.

(** ** A row of the loop *)

(** A row was selected: its ids are excluded from the distinct conditions. *)
Definition exclude_node (rowId properRowId : Z) (t : node) (w : W) : result (node * W) :=
  match t with
  | Leaf op (SIterator it) =>
      if negb (distinct_ it) then Fail AssertFail else it ← ExcludeLastSet rowId it; mret (Leaf op (SIterator it), w)
  | Leaf op (SComparator c) =>
      if negb (comp_distinct c) then Fail AssertFail else w ← exclude_values c properRowId w; mret (t, w)
  | Leaf _ SKnnRaw => Fail (Throw errAssert)
  | _ => Ok (t, w)
  end.

Fixpoint exclude_distincts (rowId properRowId : Z) (indexes : list nat) (f : container) (w : W) : result (container * W) :=
  match indexes with
  | [] => Ok (f, w)
  | i :: indexes =>
      t ← of_option Undefined (f !! i);
      '(t, w) ← exclude_node rowId properRowId t w;
      exclude_distincts rowId properRowId indexes (<[i := t]> f) w
  end.

(** Every comparator of the distinct conditions of the previous stage. *)
Fixpoint exclude_preserved (properRowId : Z) (t : node) (w : W) : result W :=
  match t with
  | Leaf _ (SComparator c) => exclude_values c properRowId w
  | Leaf _ (SIterator _) | Leaf _ SKnnRaw => Fail (Throw errAssert)
  | Leaf _ _ => Ok w
  | Sub _ _ _ ch => foldl (fun acc t => w ← acc; exclude_preserved properRowId t w) (Ok w) ch
  end.

Record SelectIteratorContainer : Type := mk_sic { nodes : container; preservedDistincts_ : container; world : W }.

(** The answer, the row to go on from, [finish], and the container. *)
Definition Process (reverse : bool) (finish : bool) (rowId properRowId : Z) (withJoinedItems : bool) (distinctNodeIndexes : list nat)
  (q : SelectIteratorContainer) : result (bool * Z * bool * SelectIteratorContainer) :=
  match nodes q with
  | [] => Fail Undefined
  | first :: rest =>
      '(ok, finish, rest, w) ← checkIfSatisfyAllConditions rest finish rowId properRowId withJoinedItems (world q);
      let f := first :: rest in
      '(ok, finish, f, preserved, w) ←
        if ok : bool then
          '(f, w) ← exclude_distincts rowId properRowId distinctNodeIndexes f w;
          match preservedDistincts_ q with
          | [] => mret (true, finish, f, [], w)
          | preserved =>
              '(ok, finish, preserved, w) ← checkIfSatisfyAllConditions preserved finish rowId properRowId withJoinedItems w;
              w ← if ok : bool then foldl (fun acc t => w ← acc; exclude_preserved properRowId t w) (Ok w) preserved else Ok w;
              mret (ok, finish, f, preserved, w)
          end
        else mret (false, finish, f, preservedDistincts_ q, w);
      rowId ← if ok : bool then Ok rowId else getNextItemId reverse f rowId;
      mret (ok, rowId, finish, mk_sic f preserved w)
  end.

(** ** The loop *)

(** The namespace and the query: for every row whether its item is free, the sort orders of the
    first sort index, the flags of the query, and when the query is cancelled. *)
Record LoopEnv : Type := mk_env {
  items_free : list bool; sort_orders_ : option (list Z); calcTotal : bool; reqMatchedOnceFlag : bool;
  inTransaction : bool; cancelled : Z -> option ErrorCode
}.

(** [selected] are the rows given to [addSelectResult], by [rowId] and [properRowId]. *)
Record LoopState : Type := mk_loop {
  qres : SelectIteratorContainer; start : Z; count : Z; totalCount : Z; matchedAtLeastOnce : bool; selected : list (Z * Z)
}.

Definition first_iterator (q : SelectIteratorContainer) : result (OpType * Iter * container) :=
  match nodes q with
  | Leaf op (SIterator it) :: rest => Ok (op, it, rest)
  | _ => Fail (Throw errAssert)
  end.

Definition ThrowOnCancel (env : LoopEnv) (rowId : Z) : result unit :=
  if (Z.rem rowId kCancelCheckFrequency =? 0) && negb (inTransaction env) then
    match cancelled env rowId with Some c => Fail (Throw c) | None => Ok tt end
  else Ok tt.

Definition proper_row (env : LoopEnv) (rowId : Z) : result Z :=
  match sort_orders_ env with
  | None => Ok rowId
  | Some orders =>
      if zlen orders <=? u64 rowId then Fail (Throw errLogic)
      else of_option Undefined (znth orders rowId)
  end.

Definition row_is_free (env : LoopEnv) (properRowId : Z) : result bool :=
  if zlen (items_free env) <? u64 properRowId then Fail (Throw errAssert)
  else of_option Undefined (znth (items_free env) properRowId).

(** A row is selected, skipped by the offset, or only counted; [true] leaves the loop. *)
Definition take_row (env : LoopEnv) (rowId properRowId : Z) (st : LoopState) : bool * LoopState :=
  let st := mk_loop (qres st) (start st) (count st) (totalCount st) true (selected st) in
  let st :=
    if negb (start st =? 0) then mk_loop (qres st) (start st - 1) (count st) (totalCount st) true (selected st)
    else if negb (count st =? 0) then
      mk_loop (qres st) (start st) (count st - 1) (totalCount st) true (selected st ++ [(rowId, properRowId)])
    else st in
  if (count st =? 0) && negb (calcTotal env) then (true, st)
  else (false, mk_loop (qres st) (start st) (count st) (totalCount st + Z.b2z (calcTotal env)) true (selected st)).

Definition with_qres (q : SelectIteratorContainer) (st : LoopState) : LoopState :=
  mk_loop q (start st) (count st) (totalCount st) (matchedAtLeastOnce st) (selected st).

Fixpoint loop (fuel : nat) (env : LoopEnv) (reverse : bool) (distinct : list nat) (rowId : Z) (finish : bool) (st : LoopState)
  : result LoopState :=
  match fuel with
  | O => Fail OutOfFuel
  | S fuel =>
      '(op, it, rest) ← first_iterator (qres st);
      '(found, it) ← Next rowId it;
      let q := mk_sic (Leaf op (SIterator it) :: rest) (preservedDistincts_ (qres st)) (world (qres st)) in
      if negb found || finish then Ok (with_qres q st)
      else
        _ ← ThrowOnCancel env rowId;
        let rowId := Val it in
        properRowId ← proper_row env rowId;
        free ← row_is_free env properRowId;
        if free : bool then loop fuel env reverse distinct rowId finish (with_qres q st)
        else
          let withJoinedItems := (start st =? 0) && negb (count st =? 0) in
          '(ok, nextRow, finish, q) ← Process reverse finish rowId properRowId withJoinedItems distinct q;
          if ok : bool then
            let '(leave, st) := take_row env rowId properRowId (with_qres q st) in
            if leave : bool then Ok st else loop fuel env reverse distinct nextRow finish st
          else loop fuel env reverse distinct nextRow finish (with_qres q st)
  end.

Definition finished_at_start (env : LoopEnv) (st : LoopState) : bool :=
  (count st =? 0) && negb (reqMatchedOnceFlag env) && negb (calcTotal env) && negb (matchedAtLeastOnce st).

Definition selectLoop (fuel : nat) (env : LoopEnv) (reverse : bool) (st : LoopState) : result LoopState :=
  let distinct := CollectDistinctConditions (nodes (qres st)) in
  '(_, it, _) ← first_iterator (qres st);
  loop fuel env reverse distinct (Val it) (finished_at_start env st) st.

(** ** What a tree of conditions means for a row *)

Context (compare_sem : C -> Z -> bool) (join_sem : Z -> Z -> bool) (env : LoopEnv).

(** The number in the namespace of a row of the iteration. *)
Definition proper (row : Z) : Z :=
  match sort_orders_ env with None => row | Some orders => default 0 (znth orders row) end.

Definition is_free (row : Z) : bool := default true (znth (items_free env) (proper row)).

#[export] Instance ids_in_dec (it : Iter) (x : Z) : Decision (ids_in it x).
Proof. unfold ids_in. apply _. Defined.

Definition sat_leaf (row : Z) (v : Sel) : bool :=
  match v with
  | SIterator it => bool_decide (ids_in it row)
  | SJoin j => join_sem j (proper row)
  | SComparator c => compare_sem c (proper row)
  | SAlwaysTrue => true
  | SKnnRaw => false
  end.

Section SatList.
Variable sat : node -> bool.

(** [cur] is the value of the group so far. *)
Fixpoint sat_list (cur : bool) (ts : container) : bool :=
  match ts with
  | [] => cur
  | t :: ts =>
      match tree_op t with
      | OpOr => sat_list (cur || sat t) ts
      | OpAnd => cur && sat_list (sat t) ts
      | OpNot => cur && sat_list (negb (sat t)) ts
      end
  end.
End SatList.

Fixpoint sat_node (row : Z) (t : node) : bool :=
  match t with Leaf _ v => sat_leaf row v | Sub _ _ _ ch => sat_list (sat_node row) true ch end.

(** A conjunction of groups, each a condition, maybe negated, and those joined to it with OR. *)
Definition satisfies (row : Z) (ts : container) : bool := sat_list (sat_node row) true ts.

(** ** The iterators during the loop *)

(** [v] is [v0] after rows up to [g]; [n] more rows can be tested. *)
Definition live_sel (reverse : bool) (g n : Z) (v0 v : Sel) : Prop :=
  match v0, v with
  | SIterator it0, SIterator it =>
      goes_through reverse (ids_in it0) it /\ no_gap reverse (ids_in it0) g it /\ room_for n it /\
      (forall x, ids_in it0 x -> 0 <= x < IdMax)
  | SJoin j0, SJoin j => j0 = j
  | SComparator c0, SComparator c => c0 = c /\ comp_distinct c = false
  | SAlwaysTrue, SAlwaysTrue => True
  | _, _ => False
  end.

Inductive live (reverse : bool) (g n : Z) : node -> node -> Prop :=
| live_leaf op v0 v : live_sel reverse g n v0 v -> live reverse g n (Leaf op v0) (Leaf op v)
| live_sub op p0 p o ch0 ch : Forall2 (live reverse g n) ch0 ch -> live reverse g n (Sub op p0 o ch0) (Sub op p o ch).

Lemma live_mono reverse g g' n n' t0 : dle reverse g g' -> n' <= n -> forall t, live reverse g n t0 t -> live reverse g' n' t0 t.
Proof.
  intros Hg Hn. induction t0 as [op v0 | op p o ch0 IH] using tree_ind; intros t Hl; inversion Hl as [? ? v Hv | ? ? p' ? ? ch Hch]; subst; constructor.
  - destruct v0, v; try done. destruct Hv as (H1' & (H2' & H3') & [H4' H5'] & H6'). split; [done |]. split; [| split; [split; lia | done]].
    split; [| done]. intros x Hx Hd. apply H2'; [done |]. by apply (dle_trans _ _ g').
  - clear Hl. revert ch Hch. induction IH as [| t0 ch0 Ht _ IHl]; intros ch Hch; inversion Hch; subst; constructor; auto.
Qed.

Lemma lives_mono reverse g g' n n' ts0 ts : dle reverse g g' -> n' <= n -> Forall2 (live reverse g n) ts0 ts -> Forall2 (live reverse g' n') ts0 ts.
Proof. intros. eapply Forall2_impl; [done |]. intros t0 t. by apply live_mono. Qed.

Lemma live_op reverse g n t0 t : live reverse g n t0 t -> tree_op t0 = tree_op t.
Proof. by destruct 1. Qed.

Lemma live_no_join reverse g n t0 t : live reverse g n t0 t -> exists b, holds_no_join t = Ok b.
Proof. destruct 1 as [op v0 v Hv |]; [| by eexists]. destruct v0, v; try done; by eexists. Qed.

(** ** Testing a row *)

Section Test.
Context `{!BtreeSetLaws BS} `{!RowConditionsLaws compare_sem join_sem}.

(** After a test at [row] the conditions of [t0] are as they mean, and if the iteration has
    finished, no row from here on satisfies them. *)
Definition tested (reverse : bool) (row n : Z) (sat : Z -> bool) (live' : Prop) (b f : bool) : Prop :=
  live' /\ b = sat row /\ (f = true -> forall r, dle reverse row r -> sat r = false).

Lemma check_leaf_ok reverse g n row joined v0 v w : live_sel reverse g n v0 v -> dle reverse g row -> 0 <= row < IdMax -> 1 <= n ->
  exists b f v' w', check_leaf row (proper row) joined v w = Ok (b, f, v', w') /\
    tested reverse row n (fun r => sat_leaf r v0) (live_sel reverse row (n - 1) v0 v') b f.
Proof.
  intros Hv Hg Hrow Hn. destruct v0 as [it0 | j0 | | | c0], v as [it | j | | | c]; try done; cbn [check_leaf].
  - destruct Hv as (H1' & H2' & H3' & H4'). destruct (Compare_ok reverse (ids_in it0) g row it n) as (b & it' & -> & Hgo & Hgap & Hroom & Hb & Hd); [done.. |].
    cbn [mbind result_bind mret result_ret]. eexists _, _, _, _. split; [done |]. split; [done |]. split; [cbn; symmetry |].
    + destruct b; [by apply bool_decide_eq_true_2, Hb | apply bool_decide_eq_false_2]. intros HU%Hb. done.
    + intros He r Hr. apply bool_decide_eq_false_2. intros HU. pose proof (proj1 Hgap r HU Hr) as Hle. pose proof (H4' r HU) as Hbd.
      unfold End_ in He. apply Z.eqb_eq in He. destruct Hgo as [Hrev _]. rewrite He, Hrev in Hle. unfold dle, end_val, IdMin in Hle. destruct reverse; lia.
  - cbn in Hv. subst j0. destruct (process_join_law j (proper row) joined w) as (w' & ->). cbn [mbind result_bind mret result_ret].
    by eexists _, _, _, _.
  - by eexists _, _, _, _.
  - destruct Hv as [-> Hd]. destruct (compare_law c (proper row) w Hd) as (w' & ->). cbn [mbind result_bind mret result_ret]. by eexists _, _, _, _.
Qed.

Lemma check_list_ok reverse g n row joined ts0 : dle reverse g row -> 1 <= n ->
  Forall (fun t0 => forall t w, live reverse g n t0 t -> exists b f t' w', check_node row (proper row) joined t w = Ok (b, f, t', w') /\
    tested reverse row n (fun r => sat_node r t0) (live reverse row (n - 1) t0 t') b f) ts0 ->
  forall (cur : Z -> bool) orFin ts w, (orFin = true -> forall r, dle reverse row r -> cur r = false) -> Forall2 (live reverse g n) ts0 ts ->
  exists b f ts' w', check_list (check_node row (proper row) joined) ts (cur row) orFin false w = Ok (b, f, ts', w') /\
    tested reverse row n (fun r => sat_list (sat_node r) (cur r) ts0) (Forall2 (live reverse row (n - 1)) ts0 ts') b f.
Proof.
  intros Hg Hn. induction 1 as [| t0 ts0 Ht _ IH]; intros cur orFin ts w Hfin Hl; inversion Hl as [| ? t ? rest Hlt Hlr]; subst; cbn [check_list sat_list].
  { eexists _, _, _, _. split; [done |]. split; [constructor |]. split; [done |]. cbn. done. }
  rewrite (live_op _ _ _ _ _ Hlt). destruct (live_no_join _ _ _ _ _ Hlt) as (nj & Enj).
  assert (dle reverse row row) as Hrr by apply dle_refl.
  assert (live reverse row (n - 1) t0 t) as Hlt' by (apply (live_mono reverse g row n); [done | lia | done]).
  assert (Forall2 (live reverse row (n - 1)) ts0 rest) as Hlr' by (apply (lives_mono reverse g row n); [done | lia | done]).
  destruct (tree_op t) eqn:Eop; cbn [is_or negb andb].
  - destruct (Ht t w Hlt) as (b & f & t' & w' & Et & Ht1 & Hb & Hf).
    assert (forall fin, (fin = true -> orFin = true /\ f = true) -> forall w1, exists b2 f2 rest' w2,
      check_list (check_node row (proper row) joined) rest (cur row || b) fin false w1 = Ok (b2, f2, rest', w2) /\
      tested reverse row n (fun r => sat_list (sat_node r) (cur r || sat_node r t0) ts0) (Forall2 (live reverse row (n - 1)) ts0 rest') b2 f2) as Hrest.
    { intros fin Hfn w1. rewrite Hb. apply (IH (fun r => cur r || sat_node r t0) fin rest w1); [| done].
      intros [Ho Hff]%Hfn r Hr. rewrite (Hfin Ho r Hr), (Hf Hff r Hr). done. }
    assert (exists skip, (if cur row then holds_no_join t else Ok false) = Ok skip /\ (skip = true -> cur row = true)) as (skip & -> & Hskip).
    { destruct (cur row); [rewrite Enj |]; by eexists. }
    cbn [mbind result_bind]. destruct skip.
    + rewrite Hskip in Hrest by done. cbn [orb] in Hrest. rewrite (Hskip eq_refl).
      destruct (Hrest orFin) with (w1 := w) as (b2 & f2 & rest' & w2 & -> & Hl2 & Hb2 & Hf2).
      { intros Ho. exfalso. rewrite (Hfin Ho row Hrr) in Hskip. by specialize (Hskip eq_refl). }
      cbn [mbind result_bind mret result_ret]. eexists _, _, _, _. split; [done |]. split; [by constructor | by split].
    + rewrite Et. cbn [mbind result_bind]. destruct (Hrest (orFin && f)) with (w1 := w') as (b2 & f2 & rest' & w2 & -> & Hl2 & Hb2 & Hf2).
      { by intros [? ?]%andb_true_iff. }
      cbn [mbind result_bind mret result_ret]. eexists _, _, _, _. split; [done |]. split; [by constructor | by split].
  - cbn [mbind result_bind]. destruct (cur row) eqn:Ec; cbn [negb].
    + destruct (Ht t w Hlt) as (b & f & t' & w' & -> & Ht1 & Hb & Hf). cbn [mbind result_bind].
      assert (orFin = false) as -> by (destruct orFin; [by rewrite (Hfin eq_refl row Hrr) in Ec | done]).
      destruct (IH (fun r => sat_node r t0) f rest w' Hf Hlr) as (b2 & f2 & rest' & w2 & E2 & Hl2 & Hb2 & Hf2).
      rewrite <- Hb in E2. cbn [orb]. rewrite E2. cbn [mbind result_bind mret result_ret]. eexists _, _, _, _. split; [done |].
      split; [by constructor |]. split; [by rewrite Ec |]. intros Hff r Hr. by rewrite (Hf2 Hff r Hr), andb_false_r.
    + eexists _, _, _, _. split; [done |]. split; [by constructor |]. split; [by rewrite Ec |]. cbn [orb]. intros Ho r Hr. by rewrite (Hfin Ho r Hr).
  - cbn [mbind result_bind]. destruct (cur row) eqn:Ec; cbn [negb].
    + destruct (Ht t w Hlt) as (b & f & t' & w' & -> & Ht1 & Hb & Hf). cbn [mbind result_bind].
      assert (orFin = false) as -> by (destruct orFin; [by rewrite (Hfin eq_refl row Hrr) in Ec | done]).
      destruct (IH (fun r => negb (sat_node r t0)) false rest w') as (b2 & f2 & rest' & w2 & E2 & Hl2 & Hb2 & Hf2); [done.. |].
      rewrite <- Hb in E2. cbn [orb]. rewrite E2. cbn [mbind result_bind mret result_ret]. eexists _, _, _, _. split; [done |].
      split; [by constructor |]. split; [by rewrite Ec |]. intros Hff r Hr. by rewrite (Hf2 Hff r Hr), andb_false_r.
    + eexists _, _, _, _. split; [done |]. split; [by constructor |]. split; [by rewrite Ec |]. cbn [orb]. intros Ho r Hr. by rewrite (Hfin Ho r Hr).
Qed.

Lemma check_node_ok reverse g n row joined t0 : dle reverse g row -> 0 <= row < IdMax -> 1 <= n -> forall t w, live reverse g n t0 t ->
  exists b f t' w', check_node row (proper row) joined t w = Ok (b, f, t', w') /\
    tested reverse row n (fun r => sat_node r t0) (live reverse row (n - 1) t0 t') b f.
Proof.
  intros Hg Hrow Hn. induction t0 as [op v0 | op p0 o ch0 IH] using tree_ind; intros t w Hl; inversion Hl as [? ? v Hv | ? ? p ? ? ch Hch]; subst; cbn [check_node].
  - destruct (check_leaf_ok reverse g n row joined v0 v w Hv Hg Hrow Hn) as (b & f & v' & w' & -> & Hv' & Hb & Hf).
    cbn [mbind result_bind mret result_ret]. eexists _, _, _, _. split; [done |]. split; [by constructor | by split].
  - destruct (check_list_ok reverse g n row joined ch0 Hg Hn IH (fun _ => true) false ch w) as (b & f & ch' & w' & -> & Hch' & Hb & Hf); [done.. |].
    cbn [mbind result_bind mret result_ret]. eexists _, _, _, _. split; [done |]. split; [by constructor | by split].
Qed.

Lemma check_all_ok reverse g n row joined ts0 ts w : dle reverse g row -> 0 <= row < IdMax -> 1 <= n -> Forall2 (live reverse g n) ts0 ts ->
  exists b f ts' w', checkIfSatisfyAllConditions ts false row (proper row) joined w = Ok (b, f, ts', w') /\
    tested reverse row n (fun r => satisfies r ts0) (Forall2 (live reverse row (n - 1)) ts0 ts') b f.
Proof.
  intros Hg Hrow Hn. apply (check_list_ok reverse g n row joined ts0 Hg Hn) with (cur := fun _ => true) (orFin := false); [| done].
  apply Forall_forall. intros t0 _ t w'. by apply (check_node_ok reverse g n row joined t0).
Qed.

End Test.

(** ** The hint for the next row *)

#[local] Instance reached_dec reverse hint x : Decision (reached reverse hint x).
Proof. unfold reached. destruct reverse; apply _. Defined.

(** Rows behind [g] that are not before [from] but before [h] are not in [sat]. *)
Definition skippable (reverse : bool) (g from h : Z) (sat : Z -> bool) : Prop :=
  forall r, dle reverse g r -> reached reverse from r -> ~ reached reverse h r -> sat r = false.

Definition hints (reverse : bool) (g from : Z) (res : result Z) (sat : Z -> bool) : Prop :=
  exists h, res = Ok h /\ id_range h /\ skippable reverse g from h sat.

#[local] Instance hints_proper reverse g from res : Proper (pointwise_relation Z eq ==> iff) (hints reverse g from res).
Proof.
  intros P Q HPQ. unfold hints, skippable. by setoid_rewrite HPQ.
Qed.

Lemma hints_same reverse g from sat : id_range from -> hints reverse g from (Ok from) sat.
Proof. intros Hf. exists from. split; [done |]. split; [done |]. intros r _ H1' H2'. done. Qed.

Lemma next_leaf_ok reverse g n from v0 v : live_sel reverse g n v0 v -> id_range from ->
  hints reverse g from (next_leaf reverse from v) (fun r => sat_leaf r v0).
Proof.
  intros Hv Hf. destruct v0 as [it0 | j0 | | | c0], v as [it | j | | | c]; try done; cbn [next_leaf]; try (by apply hints_same).
  destruct Hv as (Hgo & [Hgap _] & _ & Hbd). pose proof (goes_range _ _ _ Hgo) as Hr.
  assert (forall h, (forall r, dle reverse (lastVal_ it) r -> reached reverse from r -> ~ reached reverse h r -> 0 <= r < IdMax -> False) ->
    skippable reverse g from h (fun r => sat_leaf r (SIterator it0))) as Hskip.
  { intros h Hh r Hd H1' H2'. apply bool_decide_eq_false_2. intros HU. apply (Hh r); auto. }
  unfold End_, Val in *. rewrite (proj1 Hgo). unfold id_range, numeric_limits_IdType, reached, dle, end_val in *. destruct (Z.eqb_spec (lastVal_ it) (if reverse then IdMin else IdMax)) as [E | E].
  - exists 0. split; [done |]. split; [unfold id_range, IdMin, IdMax; lia |]. apply Hskip. unfold IdMin in *. destruct reverse; lia.
  - destruct reverse.
    + destruct (Z.ltb_spec (lastVal_ it) from); [| by apply hints_same]. exists (lastVal_ it + 1). unfold Incr.
      rewrite (proj2 (Z.eqb_neq _ _)) by lia. split; [done |]. split; [unfold id_range; lia |]. apply Hskip. lia.
    + destruct (Z.ltb_spec from (lastVal_ it)); [| by apply hints_same]. exists (lastVal_ it - 1). unfold Decr.
      rewrite (proj2 (Z.eqb_neq _ _)) by lia. split; [done |]. split; [unfold id_range; lia |]. apply Hskip. lia.
Qed.

Lemma next_list_ok reverse g from0 n ts0 :
  Forall (fun t0 => forall t from, live reverse g n t0 t -> id_range from -> hints reverse g from (next_node reverse t from) (fun r => sat_node r t0)) ts0 ->
  forall (prev cur : Z -> bool) ts from res, Forall2 (live reverse g n) ts0 ts -> id_range from -> id_range res ->
  skippable reverse g from0 from prev -> skippable reverse g from0 res (fun r => prev r && cur r) ->
  hints reverse g from0 (next_list (next_node reverse) reverse ts from res) (fun r => prev r && sat_list (sat_node r) (cur r) ts0).
Proof.
  induction 1 as [| t0 ts0 Ht _ IH]; intros prev cur ts from res Hl Hf Hr Hprev Hcur; inversion Hl as [| ? t ? rest Hlt Hlr]; subst; cbn [next_list sat_list].
  { by exists res. }
  rewrite (live_op _ _ _ _ _ Hlt). destruct (tree_op t).
  - destruct (Ht t from Hlt Hf) as (h & -> & Hh & Hs). cbn [mbind result_bind].
    apply (IH prev (fun r => cur r || sat_node r t0)); [done.. | unfold id_range in *; destruct reverse; lia | done |].
    intros r Hd H1' H2'. destruct (decide (reached reverse from r)) as [Hfr | Hfr]; [| by rewrite (Hprev r)].
    assert (~ reached reverse res r /\ ~ reached reverse h r) as [Hn1 Hn2] by (unfold reached in *; destruct reverse; lia).
    pose proof (Hcur r Hd H1' Hn1) as Hc. pose proof (Hs r Hd Hfr Hn2) as Ht0. cbn in Hc, Ht0. by rewrite andb_orb_distrib_r, Hc, Ht0, andb_false_r.
  - destruct (Ht t res Hlt Hr) as (h & -> & Hh & Hs). cbn [mbind result_bind].
    setoid_rewrite andb_assoc. apply (IH (fun r => prev r && cur r) (fun r => sat_node r t0)); [done.. |].
    intros r Hd H1' H2'. destruct (decide (reached reverse res r)) as [Hfr | Hfr].
    + pose proof (Hs r Hd Hfr H2') as Ht0. cbn in Ht0. by rewrite Ht0, andb_false_r.
    + pose proof (Hcur r Hd H1' Hfr) as Hc. cbn in Hc. by rewrite Hc.
  - setoid_rewrite andb_assoc. apply (IH (fun r => prev r && cur r) (fun r => negb (sat_node r t0))); [done.. | |]; intros r Hd H1' H2'.
    + by rewrite (Hprev r).
    + pose proof (Hcur r Hd H1' H2') as Hc. cbn in Hc. by rewrite Hc.
Qed.

Lemma next_node_ok reverse g n t0 : forall t from, live reverse g n t0 t -> id_range from ->
  hints reverse g from (next_node reverse t from) (fun r => sat_node r t0).
Proof.
  induction t0 as [op v0 | op p0 o ch0 IH] using tree_ind; intros t from Hl Hf; inversion Hl as [? ? v Hv | ? ? p ? ? ch Hch]; subst; cbn [next_node sat_node].
  - by apply (next_leaf_ok reverse g n).
  - apply (next_list_ok reverse g from n ch0 IH (fun _ => true) (fun _ => true)); try done; intros r _ ? ?; done.
Qed.

Lemma getNextItemId_ok reverse g n ts0 ts from : Forall2 (live reverse g n) ts0 ts -> id_range from ->
  hints reverse g from (getNextItemId reverse ts from) (fun r => satisfies r ts0).
Proof.
  intros Hl Hf. apply (next_list_ok reverse g from n ts0) with (prev := fun _ => true) (cur := fun _ => true); try done; try (intros r _ ? ?; done).
  apply Forall_forall. intros t0 _. apply next_node_ok.
Qed.

(** ** The loop *)

(** [R] are the ids that are still to come when the iterator is at [last]. *)
Definition to_come (reverse : bool) (U : Z -> Prop) (last : Z) (R : list Z) : Prop :=
  StronglySorted (dlt reverse) R /\ forall x, x ∈ R <-> U x /\ passed reverse last x = false.

Lemma to_come_next reverse U last hint b last' R : to_come reverse U last R -> found reverse U last hint b last' ->
  if b then exists skipped R', R = skipped ++ last' :: R' /\ (forall r, r ∈ skipped -> ~ reached reverse hint r) /\ to_come reverse U last' R'
  else forall r, r ∈ R -> ~ reached reverse hint r.
Proof.
  intros [Hs HR] Hf. destruct b; [| intros r [? ?]%HR Hr; by apply (proj2 Hf r)]. destruct Hf as [(HU & Hp & Hh) Hfst].
  assert (last' ∈ R) as (l1 & l2 & ->)%list_elem_of_split by by apply HR. exists l1, l2. split; [done |].
  apply StronglySorted_app in Hs as (Hx & Hs1 & Hs2). inversion_clear Hs2 as [| ? ? Hs2' Hall]. rewrite Forall_forall in Hall. split.
  - intros r Hr Hre. pose proof (Hx r last' Hr ltac:(by left)) as Hlt. assert (r ∈ l1 ++ last' :: l2) as Hin by (apply elem_of_app; by left).
    apply HR in Hin as [? ?]. pose proof (Hfst r ltac:(done)). unfold dlt, dle in *. destruct reverse; lia.
  - split; [done |]. intros x. split.
    + intros Hin. pose proof (Hall x Hin) as Hlt. assert (x ∈ l1 ++ last' :: l2) as [? _]%HR by (apply elem_of_app; right; by right).
      split; [done |]. by apply passed_false.
    + intros [HUx Hpx]. apply passed_false in Hp, Hpx. assert (x ∈ l1 ++ last' :: l2) as Hin.
      { apply HR. split; [done |]. apply passed_false. unfold dlt in *. destruct reverse; lia. }
      apply elem_of_app in Hin as [Hin | [-> | Hin]%elem_of_cons]; [| | done]; exfalso; [pose proof (Hx x last' Hin ltac:(by left)) as Hlt; unfold dlt in Hlt |];
        destruct reverse; lia.
Qed.

Definition row_matches (ts0 : container) (row : Z) : bool := negb (is_free row) && satisfies row ts0.

(** The row can be looked up. *)
Definition row_known (row : Z) : Prop :=
  match sort_orders_ env with None => True | Some orders => row < zlen orders end /\ 0 <= proper row < zlen (items_free env).

Lemma row_lookup row : 0 <= row < IdMax -> row_known row -> zlen (items_free env) < 2 ^ 64 ->
  proper_row env row = Ok (proper row) /\ row_is_free env (proper row) = Ok (is_free row).
Proof.
  intros Hr [Ho Hp] Hn. unfold proper_row, row_is_free, is_free. assert (u64 row = row) as Eu by (assert (IdMax < 2 ^ 64) by done; apply wrap_id; lia). split.
  - unfold proper. destruct (sort_orders_ env) as [orders |]; [| done]. rewrite Eu, (proj2 (Z.leb_gt _ _)) by done.
    destruct (znth_lt orders row ltac:(lia)) as (x & ->). done.
  - assert (u64 (proper row) = proper row) as -> by (apply wrap_id; lia). rewrite (proj2 (Z.ltb_ge _ _)) by lia.
    destruct (znth_lt (items_free env) (proper row) Hp) as (x & ->). done.
Qed.

(** The rows [M] are selected, as far as the offset and the limit go. *)
Definition outcome (st : LoopState) (M : list Z) (st' : LoopState) : Prop :=
  selected st' = selected st ++ map (fun r => (r, proper r)) (take (Z.to_nat (count st)) (drop (Z.to_nat (start st)) M)) /\
  totalCount st' = totalCount st + (if calcTotal env then zlen M else 0) /\
  matchedAtLeastOnce st' = matchedAtLeastOnce st || negb (bool_decide (M = [])).

Lemma outcome_nil st st' : selected st' = selected st -> totalCount st' = totalCount st -> matchedAtLeastOnce st' = matchedAtLeastOnce st ->
  outcome st [] st'.
Proof.
  intros Hs Ht Hm. unfold outcome. rewrite drop_nil, take_nil, Hs, Ht, Hm. cbn. rewrite app_nil_r, orb_false_r.
  split; [done |]. split; [rewrite zlen_nil; destruct (calcTotal env); lia | done].
Qed.

(** The rows that the offset and the limit leave, one row at a time. *)
Lemma window_cons start count (row : Z) M : 0 <= start -> 0 <= count ->
  take (Z.to_nat count) (drop (Z.to_nat start) (row :: M)) =
    if start =? 0 then if count =? 0 then [] else row :: take (Z.to_nat (count - 1)) M
    else take (Z.to_nat count) (drop (Z.to_nat (start - 1)) M).
Proof.
  intros Hs Hc. destruct (Z.eqb_spec start 0) as [-> | Es].
  - cbn [Z.to_nat drop]. destruct (Z.eqb_spec count 0) as [-> | Ec]; [done |].
    by replace (Z.to_nat count) with (S (Z.to_nat (count - 1))) by lia.
  - by replace (Z.to_nat start) with (S (Z.to_nat (start - 1))) by lia.
Qed.

Lemma take_row_ok row M st : 0 <= start st -> 0 <= count st ->
  let '(leave, st') := take_row env row (proper row) st in
  0 <= start st' /\ 0 <= count st' /\ qres st' = qres st /\
  if leave : bool then outcome st (row :: M) st' else forall st2, outcome st' M st2 -> outcome st (row :: M) st2.
Proof.
  intros Hs Hc. unfold take_row, outcome. cbn [start count]. rewrite window_cons, (bool_decide_eq_false_2 (row :: M = [])), zlen_cons by done.
  cbn [negb]. rewrite orb_true_r.
  destruct (Z.eqb_spec (start st) 0) as [Es | Es], (Z.eqb_spec (count st) 0) as [Ec | Ec]; cbn [negb start count];
    [destruct (Z.eqb_spec (count st) 0); [| done] | destruct (Z.eqb_spec (count st - 1) 0) as [Ec1 | Ec1]
    | destruct (Z.eqb_spec (count st) 0); [| done] | destruct (Z.eqb_spec (count st) 0); [done |]];
    destruct (calcTotal env); cbn [andb negb Z.b2z start count selected totalCount qres matchedAtLeastOnce];
    (split; [lia |]); (split; [lia |]); (split; [done |]); try (intros st2 (-> & -> & ->)); rewrite ?Es, ?Ec, ?Ec1;
    cbn [Z.to_nat drop take map]; rewrite ?app_nil_r, <- ?app_assoc; cbn [app]; (split; [done |]); (split; [lia | done]).
Qed.

Lemma Process_ok `{!BtreeSetLaws BS} `{!RowConditionsLaws compare_sem join_sem} reverse n row joined t0 ts0 x rest q :
  nodes q = x :: rest -> live reverse row (n - 1) t0 x -> Forall2 (live reverse row n) ts0 rest -> preservedDistincts_ q = [] ->
  0 <= row < IdMax -> 1 <= n ->
  exists row' f q' rest', Process reverse false row (proper row) joined [] q = Ok (satisfies row ts0, row', f, q') /\
    nodes q' = x :: rest' /\ Forall2 (live reverse row (n - 1)) ts0 rest' /\ preservedDistincts_ q' = [] /\
    (f = true -> forall r, dle reverse row r -> satisfies r ts0 = false) /\ id_range row' /\
    (row' = row \/ skippable reverse row row row' (fun r => satisfies r (t0 :: ts0))).
Proof.
  intros E Hx Hrest Hp Hrow Hn. assert (id_range row) as Hir by (unfold id_range, IdMin; lia). unfold Process. rewrite E.
  destruct (check_all_ok reverse row n row joined ts0 rest (world q) (dle_refl _ _) Hrow Hn Hrest) as (b & f & rest' & w' & -> & Hl' & -> & Hf).
  cbn [mbind result_bind]. rewrite Hp. destruct (satisfies row ts0) eqn:Es; cbn [exclude_distincts mbind result_bind mret result_ret].
  - exists row, f. eexists _, rest'. split; [done |]. split; [done |]. split; [done |]. split; [done |]. split; [done |]. split; [done | by left].
  - destruct (getNextItemId_ok reverse row (n - 1) (t0 :: ts0) (x :: rest') row) as (h & -> & Hh & Hs); [by constructor | done |].
    cbn [mbind result_bind mret result_ret]. exists h, f. eexists _, rest'. split; [done |]. split; [done |]. split; [done |].
    split; [done |]. split; [done |]. split; [done | by right].
Qed.

(** The loop at the top of an iteration: [it] is behind the rows tested, [R] are those to come,
    and none before the hint is wanted. *)
Record at_top (reverse : bool) (it0 : Iter) (ts0 : container) (R : list Z) (rowId n : Z) (finish : bool) (it : Iter) (rest : container)
  (st : LoopState) : Prop := {
  top_nodes : nodes (qres st) = Leaf OpAnd (SIterator it) :: rest;
  top_first : live reverse (lastVal_ it) n (Leaf OpAnd (SIterator it0)) (Leaf OpAnd (SIterator it));
  top_rest : Forall2 (live reverse (lastVal_ it) n) ts0 rest;
  top_preserved : preservedDistincts_ (qres st) = [];
  top_come : to_come reverse (ids_in it0) (lastVal_ it) R;
  top_known : Forall row_known R;
  top_hint : id_range rowId /\ forall r, r ∈ R -> ~ reached reverse rowId r -> satisfies r ts0 = false;
  top_finish : finish = true -> forall r, r ∈ R -> satisfies r ts0 = false;
  top_counts : 0 <= start st /\ 0 <= count st
}.

Lemma none_match ts0 (R : list Z) : (forall r, r ∈ R -> satisfies r ts0 = false) -> filter (fun r => row_matches ts0 r = true) R = [].
Proof.
  intros Hr. destruct (filter _ R) as [| x l] eqn:E; [done |]. assert (x ∈ filter (fun r => row_matches ts0 r = true) R) as Hx by (rewrite E; by left).
  apply list_elem_of_filter in Hx as [Hm Hx]. unfold row_matches in Hm. by rewrite (Hr x Hx), andb_false_r in Hm.
Qed.

Context (Hcancel : inTransaction env = true \/ forall row, cancelled env row = None).

Lemma ThrowOnCancel_ok row : ThrowOnCancel env row = Ok tt.
Proof. unfold ThrowOnCancel. destruct Hcancel as [-> | Hc]; [by rewrite andb_false_r | rewrite Hc; by destruct (_ && _)]. Qed.

(** One turn: the first iterator moves on. *)
Lemma top_next `{!BtreeSetLaws BS} reverse it0 ts0 R rowId n finish it rest st : at_top reverse it0 ts0 R rowId n finish it rest st -> 1 <= n ->
  exists b it', Next rowId it = Ok (b, it') /\
    if b then exists skipped R', R = skipped ++ lastVal_ it' :: R' /\ (forall r, r ∈ skipped -> satisfies r ts0 = false) /\
      0 <= lastVal_ it' < IdMax /\ row_known (lastVal_ it') /\ Forall row_known R' /\ to_come reverse (ids_in it0) (lastVal_ it') R' /\
      live reverse (lastVal_ it') (n - 1) (Leaf OpAnd (SIterator it0)) (Leaf OpAnd (SIterator it')) /\
      Forall2 (live reverse (lastVal_ it') n) ts0 rest
    else forall r, r ∈ R -> satisfies r ts0 = false.
Proof.
  intros [En Hf Hr _ Hc Hk [Hir Hh] _ _] Hn. inversion Hf as [? ? ? Hv |]; subst. destruct Hv as (Hgo & Hgap & Hroom & Hb).
  destruct (Next_ok reverse (ids_in it0) rowId it n Hgo Hir Hn Hroom) as (b & it' & E & Hgo' & Hroom' & Hfd). exists b, it'. split; [done |].
  pose proof (to_come_next _ _ _ _ _ _ _ Hc Hfd) as Hnext. destruct b; [| intros r Hin; apply Hh; auto].
  destruct Hnext as (sk & R' & -> & Hsk & Hc'). exists sk, R'. split; [done |].
  split; [intros r Hin; apply Hh; [apply elem_of_app; by left | by apply Hsk] |]. apply Forall_app in Hk as [_ Hk]. inversion_clear Hk.
  split; [apply Hb, Hfd |]. split; [done |]. split; [done |]. split; [done |]. split.
  - constructor. split; [done |]. split; [| by split]. eapply found_no_gap. exact Hfd.
  - apply (lives_mono reverse (lastVal_ it) _ n n); [| lia | done]. destruct Hfd as [(_ & Hp & _) _]. apply passed_false in Hp.
    unfold dle. destruct reverse; lia.
Qed.

Lemma come_behind reverse U last R r : to_come reverse U last R -> r ∈ R -> dle reverse last r /\ reached reverse last r.
Proof. intros [_ HR] [_ Hp]%HR. apply passed_false in Hp. unfold dle, reached. destruct reverse; lia. Qed.

Lemma filter_skip ts0 skipped x R' : (forall r, r ∈ skipped -> satisfies r ts0 = false) ->
  filter (fun r => row_matches ts0 r = true) (skipped ++ x :: R') =
    (if row_matches ts0 x then [x] else []) ++ filter (fun r => row_matches ts0 r = true) R'.
Proof.
  intros Hs. rewrite filter_app, (none_match ts0 skipped Hs), filter_cons. cbn [app].
  destruct (row_matches ts0 x); [by rewrite decide_True | by rewrite decide_False].
Qed.

Context (Hitems : zlen (items_free env) < 2 ^ 64).

Lemma loop_ok `{!BtreeSetLaws BS} `{!RowConditionsLaws compare_sem join_sem} reverse it0 ts0 fuel :
  forall R rowId n finish it rest st, at_top reverse it0 ts0 R rowId n finish it rest st -> zlen R < n -> (length R < fuel)%nat ->
  exists st', loop fuel env reverse [] rowId finish st = Ok st' /\ outcome st (filter (fun r => row_matches ts0 r = true) R) st'.
Proof.
  induction fuel as [| fuel IH]; intros R rowId n finish it rest st Ht Hn Hfuel; [lia |]. cbn [loop].
  assert (1 <= n) as Hn1 by (pose proof (zlen_nonneg R); lia).
  unfold first_iterator. rewrite (top_nodes _ _ _ _ _ _ _ _ _ _ Ht). cbn [mbind result_bind].
  destruct (top_next _ _ _ _ _ _ _ _ _ _ Ht Hn1) as (b & it' & -> & Hb). cbn [mbind result_bind]. destruct b; cbn [negb orb].
  2: { eexists. split; [done |]. rewrite none_match by done. by apply outcome_nil. }
  destruct finish.
  { eexists. split; [done |]. rewrite none_match by (by apply (top_finish _ _ _ _ _ _ _ _ _ _ Ht)). by apply outcome_nil. }
  destruct Hb as (sk & R' & -> & Hsk & Hx & Hkx & Hk & Hc & Hl1 & Hl2). rewrite filter_skip by done.
  rewrite ThrowOnCancel_ok. cbn [mbind result_bind]. change (Val it') with (lastVal_ it'). set (x := lastVal_ it') in *.
  destruct (row_lookup x Hx Hkx Hitems) as [-> E2]. cbn [mbind result_bind]. rewrite E2. cbn [mbind result_bind].
  assert (zlen R' < n - 1 /\ (length R' < fuel)%nat) as [Hn' Hf'].
  { rewrite zlen_app, zlen_cons in Hn. pose proof (zlen_nonneg sk). rewrite length_app in Hfuel. cbn in Hfuel. lia. }
  destruct (top_counts _ _ _ _ _ _ _ _ _ _ Ht) as [Hs0 Hc0]. pose proof (top_preserved _ _ _ _ _ _ _ _ _ _ Ht) as Hp.
  assert (id_range x) as Hir by (unfold id_range, IdMin; lia).
  assert (forall r, r ∈ R' -> dle reverse x r /\ reached reverse x r) as Hbehind by (intros r; by apply (come_behind reverse (ids_in it0))).
  unfold row_matches at 1. destruct (is_free x); cbn [negb andb app].
  - destruct (IH R' x (n - 1) false it' rest (with_qres (mk_sic (Leaf OpAnd (SIterator it') :: rest) (preservedDistincts_ (qres st)) (world (qres st))) st))
      as (st' & -> & Hout); [| done | done | by exists st'].
    split; try done; [apply (lives_mono reverse x _ n _); [apply dle_refl | lia | done] |]. split; [done |]. intros r Hr Hnr. by destruct (Hbehind r Hr).
  - edestruct (Process_ok reverse n x) as (row' & f & q' & rest' & -> & Eq & Hl' & Hp' & Hf & Hir' & Hskip); [done | exact Hl1 | exact Hl2 | done | done | done |].
    cbn [mbind result_bind]. assert (forall st2, qres st2 = q' -> 0 <= start st2 -> 0 <= count st2 -> at_top reverse it0 ts0 R' row' (n - 1) f it' rest' st2) as Htop.
    { intros st2 Eq2 Hs2 Hc2. split; try done; rewrite ?Eq2; try done.
      - split; [done |]. intros r Hr Hnr. destruct Hskip as [-> | Hskip]; [by destruct (Hbehind r Hr) |].
        destruct (Hbehind r Hr) as [Hd Hre]. specialize (Hskip r Hd Hre Hnr). unfold satisfies in Hskip. cbn [sat_list tree_op sat_node sat_leaf andb] in Hskip.
        rewrite bool_decide_eq_true_2 in Hskip by by apply Hc. done.
      - intros Hff r Hr. apply Hf; [done |]. by apply Hbehind. }
    destruct (satisfies x ts0).
    + pose proof (take_row_ok x (filter (fun r => row_matches ts0 r = true) R') (with_qres q' st) Hs0 Hc0) as Htake.
      destruct (take_row env x (proper x) (with_qres q' st)) as [leave st1]. destruct Htake as (Hs1 & Hc1 & Eq1 & Hout). cbn [app]. destruct leave; [by exists st1 |].
      destruct (IH R' row' (n - 1) f it' rest' st1) as (st' & -> & Hout'); [by apply Htop | done | done |]. exists st'. split; [done |]. by apply Hout.
    + cbn [app]. destruct (IH R' row' (n - 1) f it' rest' (with_qres q' st)) as (st' & -> & Hout'); [by apply Htop | done | done |]. by exists st'.
Qed.

(** ** The start and the first condition *)

Fixpoint leaves (t : node) : list Sel :=
  match t with Leaf _ v => [v] | Sub _ _ _ ch => concat (map leaves ch) end.

(** The ids are sorted and below [N], and the counters of the iterators have room for [n] rows. *)
Definition usable (n N : Z) (f : container) : Prop :=
  Forall (fun v => match v with
                   | SIterator it => startable it /\ room_for n it /\ forall x, ids_in it x -> x < N
                   | SComparator c => comp_distinct c = false
                   | SKnnRaw => False
                   | SJoin _ | SAlwaysTrue => True
                   end) (concat (map leaves f)).

Context (Hsort : forall x, Permutation (pdqsort x) x /\ StronglySorted Z.le (pdqsort x)).

(** The result of a bind is the result of its continuation. *)
Lemma bind_inv {A B} (m : result A) (k : A -> result B) y : (m ≫= k) = Ok y -> exists x, m = Ok x /\ k x = Ok y.
Proof. destruct m as [x |]; [by exists x | done]. Qed.

Lemma buildHeap_distinct (it it' : Iter) : buildHeap it = Ok it' -> distinct_ it' = distinct_ it.
Proof.
  unfold buildHeap. destruct (_ <? _); [by intros [= <-] |]. intros ([l h] & _ & [= <-])%bind_inv. done.
Qed.

Lemma applyDeferedSort_distinct maxIterations (it it' : Iter) b : applyDeferedSort pdqsort maxIterations it = Ok (b, it') ->
  distinct_ it' = distinct_ it.
Proof.
  unfold applyDeferedSort. destruct (_ && _); [| by intros [= _ <-]]. intros ([idsCount b0] & _ & E)%bind_inv.
  destruct (IsGenericSortRecommended _ _ _); [| by injection E as _ <-]. apply bind_inv in E as ([? ?] & _ & [= _ <-]). done.
Qed.

Lemma Start_distinct reverse maxIterations (it it' : Iter) : Start pdqsort reverse maxIterations it = Ok it' -> distinct_ it' = distinct_ it.
Proof.
  intros ([e it1] & <-%applyDeferedSort_distinct & (l & _ & E)%bind_inv)%bind_inv. cbn in E. destruct (isUnsorted_ it1); [by injection E as <- |].
  destruct l as [| s [| s2 l]]; try (by apply buildHeap_distinct in E). destruct (collection s); by simplify_eq.
Qed.

(** [t] is [t0] after the start. *)
Definition started (reverse : bool) (n : Z) (t0 t : node) : Prop :=
  live reverse (first_val reverse) n t0 t /\ IsDistinct t = IsDistinct t0 /\
  match t with Leaf _ (SIterator it) => lastVal_ it = first_val reverse | _ => True end.

Lemma start_node_ok `{!MakeHeapLaws} reverse maxIterations n N t0 : usable n N [t0] ->
  exists t, start_node reverse maxIterations t0 = Ok t /\ started reverse n t0 t.
Proof.
  induction t0 as [op v | op p o ch IH] using tree_ind; unfold usable; cbn [map leaves concat]; rewrite app_nil_r; intros Hu.
  - inversion_clear Hu as [| ? ? Hv _]. destruct v as [it | j | | | c]; try done; cbn [start_node mret result_ret]; try (eexists; split; [done |]; split; [by constructor | done]).
    destruct Hv as (Hst & [Hc Hm] & HN). destruct (Start_ok pdqsort Hsort reverse maxIterations it Hst) as (it' & E & Hg & Hl & Ec & Em).
    rewrite E. cbn [mbind result_bind mret result_ret]. eexists. split; [done |]. split; [| by apply Start_distinct in E]. constructor.
    split; [done |]. split; [| split; [split; lia | intros x Hx; apply (ids_in_bounds it); [apply Hst | done]]].
    split; [intros x _ Hx; by rewrite Hl | by left].
  - cbn [start_node]. assert (exists ch', mapM (start_node reverse maxIterations) ch = Ok ch' /\ Forall2 (live reverse (first_val reverse) n) ch ch') as (ch' & E & Hl).
    { clear o p op. induction IH as [| t0 ch Ht _ IHl]; [by exists [] |]. cbn [map concat] in Hu. apply Forall_app in Hu as [Hu1 Hu2].
      destruct Ht as (t & Et & [Hlt _]); [unfold usable; cbn; by rewrite app_nil_r |]. destruct (IHl Hu2) as (ch' & Ec & Hlc).
      exists (t :: ch'). cbn [mapM]. rewrite Et. cbn [mbind result_bind]. rewrite Ec. split; [done | by constructor]. }
    rewrite E. cbn [mbind result_bind mret result_ret]. eexists. split; [done |]. split; [by constructor | done].
Qed.


Lemma start_all_ok `{!MakeHeapLaws} reverse maxIterations n N f : usable n N f ->
  exists f', start_all reverse maxIterations f = Ok f' /\ Forall2 (started reverse n) f f'.
Proof.
  unfold start_all. induction f as [| t0 f IH]; intros Hu; [by exists [] |]. unfold usable in Hu. cbn [map concat] in Hu. apply Forall_app in Hu as [Hu1 Hu2].
  destruct (start_node_ok reverse maxIterations n N t0) as (t & Et & Hlt); [unfold usable; cbn; by rewrite app_nil_r |].
  destruct (IH Hu2) as (f' & Ef & Hlf). exists (t :: f'). cbn [mapM]. rewrite Et. cbn [mbind result_bind]. rewrite Ef. split; [done | by constructor].
Qed.

(** The first set of ids splits the conditions in the same place before and after the start. *)
Lemma split_idset_started reverse n f f' : Forall2 (started reverse n) f f' ->
  match split_idset f, split_idset f' with
  | Some (l, x, r), Some (l', x', r') => f = l ++ x :: r /\ Forall2 (started reverse n) l l' /\ started reverse n x x' /\ Forall2 (started reverse n) r r'
  | None, None => True
  | _, _ => False
  end.
Proof.
  induction 1 as [| t0 t f f' [Ht Hd] Hf IH]; [done |]. cbn [split_idset].
  assert (isIdset t f' = isIdset t0 f) as ->.
  { inversion Ht as [op v0 v Hv | ? ? ? ? ? ? Hch]; subst; [| by destruct op]. inversion Hf as [| ? ? ? ? [Hy _]]; subst; destruct op, v0, v; try done.
    cbn. by rewrite (live_op _ _ _ _ _ Hy). }
  destruct (isIdset t0 f); [done |].
  destruct (split_idset f) as [[[l x] r] |], (split_idset f') as [[[l' x'] r'] |]; try done. cbn. destruct IH as (-> & Hl & Hx & Hr).
  split; [done |]. split; [by constructor; [split |] |]. by split.
Qed.

Lemma split_idset_head f l x r : split_idset f = Some (l, x, r) ->
  exists it, x = Leaf OpAnd (SIterator it) /\ is_or (match r with [] => OpAnd | t :: _ => tree_op t end) = false.
Proof.
  revert l. induction f as [| t f IH]; intros l; cbn [split_idset]; [done |]. destruct (isIdset t f) eqn:Ei.
  - intros [= <- <- <-]. destruct t as [[] [it | | | |] |]; try done. exists it. split; [done |]. destruct f as [| y f]; [done |].
    cbn in Ei. by destruct (tree_op y).
  - destruct (split_idset f) as [[[l' x'] r'] |]; [| done]. cbn. intros [= <- <- <-]. by apply (IH l').
Qed.

Lemma sat_list_app (sat : node -> bool) cur l r : is_or (match r with [] => OpAnd | t :: _ => tree_op t end) = false ->
  sat_list sat cur (l ++ r) = sat_list sat cur l && sat_list sat true r.
Proof.
  intros Hr. revert cur. induction l as [| t l IH]; intros cur; cbn [app sat_list].
  - destruct r as [| t r]; cbn [sat_list]; [by rewrite andb_true_r |]. by destruct (tree_op t).
  - destruct (tree_op t); rewrite IH; by rewrite ?andb_assoc.
Qed.

Definition starts_group (f : container) : Prop := is_or (match f with [] => OpAnd | t :: _ => tree_op t end) = false.

(** Moving the first set of ids to the front does not change what is selected. *)
Lemma first_moved row l x r : starts_group (l ++ r) -> starts_group r -> starts_group l -> starts_group [x] ->
  satisfies row (l ++ x :: r) = sat_list (sat_node row) true [x] && satisfies row (l ++ r).
Proof.
  unfold satisfies. intros Hlr Hr Hl Hx. change (x :: r) with ([x] ++ r).
  rewrite sat_list_app, (sat_list_app _ _ [x] r), (sat_list_app _ _ l r) by done. by rewrite !andb_assoc, (andb_comm (sat_list _ _ l)).
Qed.

Lemma mark_live reverse g n t0 : forall t, live reverse g n t0 t -> live reverse g n t0 (fst (mark_node t)).
Proof.
  induction t0 as [op v0 | op p0 o ch0 IH] using tree_ind; intros t Hl; inversion Hl as [? ? v Hv | ? ? p ? ? ch Hch]; subst.
  - destruct v0, v; try done.
  - cbn [mark_node fst]. constructor. rewrite map_map. clear Hl. revert ch Hch. induction IH as [| t0 ch0 Ht _ IHl]; intros ch Hch; inversion Hch; subst; constructor; auto.
Qed.

Lemma mark_started reverse n f f' : Forall2 (started reverse n) f f' -> Forall2 (started reverse n) f (fst (markBracketsHavingJoins f')).
Proof.
  unfold markBracketsHavingJoins. cbn [fst]. rewrite map_map. induction 1 as [| t0 t f f' [Ht Hd] _ IH]; constructor; [| done].
  split; [by apply mark_live |]. by destruct t as [op [] |].
Qed.

(** The rows of a namespace of [N] rows in the order of the iteration. *)
Definition all_rows (reverse : bool) (N : Z) : list Z := if reverse then rev (seqZ 0 N) else seqZ 0 N.

Lemma sorted_filter (R : relation Z) (P : Z -> Prop) `{!forall x, Decision (P x)} l : StronglySorted R l -> StronglySorted R (filter P l).
Proof.
  induction 1 as [| x l _ IH Hx]; [constructor |]. rewrite filter_cons. case_decide; [| done]. constructor; [done |].
  rewrite Forall_forall in *. intros y [_ Hy]%list_elem_of_filter. by apply Hx.
Qed.

Lemma sorted_reversed (R : relation Z) l : StronglySorted R l -> StronglySorted (flip R) (rev l).
Proof.
  induction 1 as [| x l _ IH Hx]; [constructor |]. cbn [rev]. apply StronglySorted_app_2; [| done | by repeat constructor].
  intros y z Hy ->%list_elem_of_singleton. rewrite elem_of_rev in Hy. rewrite Forall_forall in Hx. by apply Hx.
Qed.

Lemma all_rows_sorted reverse N : StronglySorted (dlt reverse) (all_rows reverse N).
Proof.
  assert (StronglySorted Z.lt (seqZ 0 N)) as Hs.
  { generalize 0. induction (Z.to_nat N) as [| k IH] eqn:E in N |- *; intros a; [rewrite seqZ_nil by lia; constructor |].
    rewrite seqZ_cons by lia. constructor; [apply IH; lia |]. apply Forall_forall. intros x Hx%elem_of_seqZ. lia. }
  destruct reverse; [| exact Hs]. apply sorted_reversed in Hs. exact Hs.
Qed.

Lemma elem_of_all_rows reverse N x : x ∈ all_rows reverse N <-> 0 <= x < N.
Proof. unfold all_rows. destruct reverse; rewrite ?elem_of_rev, elem_of_seqZ; lia. Qed.

Lemma no_distinct reverse n l x r l' x' r' : CollectDistinctConditions (l ++ x :: r) = [] ->
  Forall2 (started reverse n) l l' -> started reverse n x x' -> Forall2 (started reverse n) r r' ->
  CollectDistinctConditions (x' :: l' ++ r') = [].
Proof.
  assert (forall (g : container) i, CollectDistinctConditions_from i g = [] <-> Forall (fun t => IsDistinct t = false) g) as Hall.
  { induction g as [| t g IH]; intros i; cbn [CollectDistinctConditions_from]; [by split; [constructor |] |].
    rewrite Forall_cons, <- (IH (S i)). destruct (IsDistinct t); cbn [app]; [by split; [| intros [? _]] | tauto]. }
  intros Hd Hl (_ & Hx & _) Hr. apply Hall. apply Hall in Hd. apply Forall_app in Hd as [Hdl Hd]. inversion_clear Hd as [| ? ? Hdx Hdr].
  assert (forall g g', Forall2 (started reverse n) g g' -> Forall (fun t => IsDistinct t = false) g -> Forall (fun t => IsDistinct t = false) g') as Hg.
  { induction 1 as [| t0 t g g' (_ & E & _) _ IH]; inversion_clear 1; constructor; [congruence | by apply IH]. }
  constructor; [congruence |]. apply Forall_app. split; by eapply Hg.
Qed.

Lemma split_none f : split_idset f = None -> HasIdsets f = false.
Proof.
  induction f as [| t f IH]; [done |]. cbn [split_idset HasIdsets]. destruct (isIdset t f); [done |].
  destruct (split_idset f) as [[[? ?] ?] |]; [done |]. by intros _; apply IH.
Qed.

Lemma matches_moved row l it0 r : starts_group (l ++ Leaf OpAnd (SIterator it0) :: r) -> starts_group r ->
  row_matches (l ++ Leaf OpAnd (SIterator it0) :: r) row = bool_decide (ids_in it0 row) && row_matches (l ++ r) row.
Proof.
  intros Hg Hr. unfold row_matches. rewrite first_moved; [| by destruct l | done | by destruct l | done].
  unfold satisfies. cbn [sat_list tree_op sat_node sat_leaf andb]. destruct (is_free row), (bool_decide (ids_in it0 row)); done.
Qed.

Lemma length_all_rows reverse N : 0 <= N -> length (all_rows reverse N) = Z.to_nat N.
Proof. intros HN. unfold all_rows. destruct reverse; rewrite ?length_rev, length_seqZ; done. Qed.

(** The loop at its start. *)
Lemma at_top_start reverse n N it0 it l l' r r' w start count total matched :
  started reverse n (Leaf OpAnd (SIterator it0)) (Leaf OpAnd (SIterator it)) -> Forall2 (started reverse n) l l' -> Forall2 (started reverse n) r r' ->
  lastVal_ it = first_val reverse -> (forall x, ids_in it0 x -> x < N) -> Forall row_known (seqZ 0 N) -> 0 <= start -> 0 <= count ->
  at_top reverse it0 (l ++ r) (filter (fun r => ids_in it0 r) (all_rows reverse N)) (Val it) n false it (l' ++ r')
    (mk_loop (mk_sic (Leaf OpAnd (SIterator it) :: l' ++ r') [] w) start count total matched []).
Proof.
  intros [Hx _] Hl Hr Hlast HN Hk Hs Hc. assert (id_range (first_val reverse)) as Hir by (unfold id_range, first_val, IdMin, IdMax; destruct reverse; lia).
  assert (forall x, ids_in it0 x -> 0 <= x < IdMax) as Hb by (inversion Hx as [? ? ? Hv |]; subst; apply Hv).
  split; try done; rewrite ?Hlast; try done.
  - apply Forall2_app; (eapply Forall2_impl; [done | by intros ? ? []]).
  - split; [apply sorted_filter, all_rows_sorted |]. intros x. rewrite list_elem_of_filter, elem_of_all_rows, passed_false. split.
    + intros [HU Hxb]. split; [done |]. pose proof (Hb x HU). unfold first_val, IdMin. destruct reverse; lia.
    + intros [HU _]. split; [done |]. pose proof (Hb x HU). pose proof (HN x HU). lia.
  - apply Forall_forall. intros x [HU Hxb]%list_elem_of_filter. rewrite Forall_forall in Hk. apply Hk, elem_of_seqZ.
    apply elem_of_all_rows in Hxb. lia.
  - unfold Val. rewrite Hlast. split; [done |]. intros x [HU _]%list_elem_of_filter Hn. pose proof (Hb x HU).
    exfalso. apply Hn. unfold reached, first_val, IdMin. destruct reverse; lia.
Qed.

(** C8: the loop selects the rows that satisfy the conditions. The iterators are started in
    either direction, the brackets are marked and the first set of ids is moved to the front; then
    the loop ends, and the rows given to the result are those of all the rows of the namespace, in
    the order of the iteration, whose item is not free and that satisfy the tree of conditions,
    without the first [start] and at most [count] of them. Neither the hints that skip rows nor
    the early end lose a row. The total, when it is wanted, counts them all. *)
Theorem select_loop_selects `{!BtreeSetLaws BS, !MakeHeapLaws, !RowConditionsLaws compare_sem join_sem}
  reverse maxIterations N f start count total matched w fuel :
  usable (N + 1) N f -> starts_group f -> HasIdsets f = true -> CollectDistinctConditions f = [] ->
  0 <= N <= IdMax -> Forall row_known (seqZ 0 N) -> 0 <= start -> 0 <= count -> (Z.to_nat N < fuel)%nat ->
  exists f1 f2, start_all reverse maxIterations f = Ok f1 /\
    CheckFirstQuery (fst (markBracketsHavingJoins f1)) = Ok f2 /\
    let st := mk_loop (mk_sic f2 [] w) start count total matched [] in
    exists st', selectLoop fuel env reverse st = Ok st' /\
      outcome st (if finished_at_start env st then [] else filter (fun r => row_matches f r = true) (all_rows reverse N)) st'.
Proof.
  intros Hu Hg Hid Hdist HN Hk Hs Hc Hfuel. destruct (start_all_ok reverse maxIterations (N + 1) N f Hu) as (f1 & E1 & Hst). exists f1.
  pose proof (mark_started _ _ _ _ Hst) as Hst2. set (g := fst (markBracketsHavingJoins f1)) in *.
  pose proof (split_idset_started _ _ _ _ Hst2) as Hsplit. unfold CheckFirstQuery.
  destruct (split_idset f) as [[[l x] r] |] eqn:Es; [| by rewrite split_none in Hid].
  destruct (split_idset g) as [[[l' x'] r'] |]; [| done]. destruct Hsplit as (-> & Hl & Hx & Hr). exists (x' :: l' ++ r').
  split; [done |]. split; [done |]. cbn zeta. destruct (split_idset_head _ _ _ _ Es) as (it0 & -> & Hgr).
  pose proof Hx as (Hlx & _ & Hlast). inversion Hlx as [? ? v Hv |]; subst. destruct v as [it | | | |]; try done.
  assert (forall x, ids_in it0 x -> x < N) as HbN.
  { unfold usable in Hu. rewrite map_app, concat_app in Hu. apply Forall_app in Hu as [_ Hu]. cbn in Hu. inversion_clear Hu as [| ? ? Hu0 _]. apply Hu0. }
  set (st := mk_loop _ _ _ _ _ _). set (R := filter (fun r => ids_in it0 r) (all_rows reverse N)).
  assert (at_top reverse it0 (l ++ r) R (Val it) (N + 1) false it (l' ++ r') st) as Htop by (by apply at_top_start).
  assert (length R <= Z.to_nat N)%nat as HR by (rewrite <- (length_all_rows reverse N) by lia; apply length_filter).
  unfold selectLoop. change (nodes (qres st)) with (Leaf OpAnd (SIterator it) :: l' ++ r'). rewrite (no_distinct _ _ _ _ _ _ _ _ Hdist Hl Hx Hr).
  unfold first_iterator at 1. change (nodes (qres st)) with (Leaf OpAnd (SIterator it) :: l' ++ r'). cbn [mbind result_bind].
  destruct (finished_at_start env st) eqn:Ef.
  - destruct fuel as [| fuel]; [lia |]. cbn [loop]. unfold first_iterator. rewrite (top_nodes _ _ _ _ _ _ _ _ _ _ Htop). cbn [mbind result_bind].
    destruct (top_next _ _ _ _ _ _ _ _ _ _ Htop) as (b & it' & -> & _); [lia |]. cbn [mbind result_bind]. rewrite orb_true_r.
    eexists. split; [done |]. by apply outcome_nil.
  - destruct (loop_ok reverse it0 (l ++ r) fuel R (Val it) (N + 1) false it (l' ++ r') st Htop) as (st' & -> & Hout); [unfold zlen; lia | lia |].
    exists st'. split; [done |]. replace (filter _ (all_rows reverse N)) with (filter (fun r0 => row_matches (l ++ r) r0 = true) R); [done |].
    unfold R. rewrite list_filter_filter. apply list_filter_iff. intros x. rewrite matches_moved by done. rewrite andb_true_iff, bool_decide_eq_true. tauto.
Qed.

End SelectLoop.

Arguments Sel : clear implicits.

(** ** Examples *)

(** A comparator accepts the multiples of its number, a join the rows above its number; the state
    counts the tests. *)
#[local] Instance sample_conditions : RowConditions Z Z := {|
  compare c row w := Ok (row mod c =? 0, w + 1);
  comp_distinct c := false;
  exclude_values c row w := Ok w;
  process_join j row joined w := Ok (j <? row, w + 1)
|}.

#[local] Instance sample_conditions_laws : RowConditionsLaws (fun c row => row mod c =? 0) (fun j row => j <? row).
Proof. split; by eexists. Qed.

Definition sample_list (l : list Z) : SelectIterator (gset Z) Empty_set :=
  SelectIterator_make (mk_skr [of_collection (FlatIdSet l)] false false) false false.

(** An even row that is in the first set, and in the second one or joined with a row, and not in
    the third. *)
Definition sample_tree : list (tree OpType bool (Sel (gset Z) Empty_set Z)) :=
  [Leaf OpAnd (SComparator 2); Leaf OpAnd (SIterator (sample_list [1; 2; 3; 4; 6; 7; 8]));
   Sub OpAnd false false [Leaf OpAnd (SIterator (sample_list [2; 6])); Leaf OpOr (SJoin 3)];
   Leaf OpNot (SIterator (sample_list [4]))].

Definition sample_env : LoopEnv := mk_env (replicate 9 false ++ [true]) None true false true (fun _ => None).

Lemma sample_list_usable l n : StronglySorted Z.le l -> Forall (fun x => 0 <= x < 10) l -> zlen l < 2 ^ 62 ->
  0 <= n < 2 ^ 31 -> startable (sample_list l) /\ room_for n (sample_list l) /\ forall x, ids_in (sample_list l) x -> x < 10.
Proof.
  intros Hs Hb Hl Hn. split; [split; [done |]; split; [| done]; constructor; [| constructor] |].
  - split; [done |]. split; [| done]. eapply Forall_impl; [done |]. cbn. intros y Hy. unfold IdMax. lia.
  - split; [split; cbn; lia |]. intros x. unfold ids_in. cbn. rewrite Exists_cons, Exists_nil. intros [Hx | []].
    rewrite Forall_forall in Hb. by apply Hb.
Qed.

Lemma select_loop_selects_witness :
  exists f1 f2 st', start_all (merge_sort Z.le) true 100 sample_tree = Ok f1 /\
    CheckFirstQuery (fst (markBracketsHavingJoins f1)) = Ok f2 /\
    selectLoop 11 sample_env true (mk_loop (mk_sic f2 [] 0) 1 1 0 false []) = Ok st' /\
    selected st' = [(6, 6)] /\ totalCount st' = 3 /\ matchedAtLeastOnce st' = true.
Proof.
  destruct (select_loop_selects (merge_sort Z.le) (fun c row => row mod c =? 0) (fun j row => j <? row) sample_env (or_introl eq_refl) ltac:(by vm_compute)
    sample_sort true 100 10 sample_tree 1 1 0 false 0 11) as (f1 & f2 & E1 & E2 & st' & E3 & (Hs & Ht & Hm)).
  - unfold usable, sample_tree. cbn [map leaves concat app]. repeat (apply Forall_cons; split); try done.
    all: apply sample_list_usable; (by vm_compute) || (repeat constructor; by vm_compute).
  - done.
  - done.
  - done.
  - done.
  - repeat constructor; by vm_compute.
  - done.
  - done.
  - vm_compute. lia.
  - exists f1, f2, st'. split; [exact E1 |]. split; [exact E2 |]. split; [exact E3 |].
    split; [rewrite Hs; by vm_compute | split; [rewrite Ht; by vm_compute | rewrite Hm; by vm_compute]].
Defined.

(** The hint is lost when a condition joined with OR has ended, since the limits of [IdType] are 0. *)
Definition ended : SelectIterator (gset Z) Empty_set := with_last IdMax 0 (sample_list [1]).

Example hint_of_ended :
  getNextItemId (C := Z) false [Leaf OpAnd (SIterator (with_last 8 0 (sample_list [8])))] 5 = Ok 7 /\
  getNextItemId (C := Z) false [Leaf OpAnd (SIterator (with_last 8 0 (sample_list [8]))); Leaf OpOr (SIterator ended)] 5 = Ok 0.
Proof. done. Qed.

(** The check of a row against the number of items lets the number itself through. *)
Example row_at_the_end : row_is_free sample_env 10 = Fail Undefined /\ row_is_free sample_env 11 = Fail (Throw errAssert).
Proof. done. Qed.
