(* ===== verification/IndexList.v ===== *)
(** * IndexList: containers that are threaded through the cells of a storage

    [index_stack] and [index_list] of [coroutine/index_list.h] keep ids of routines and reach the
    links through an accessor of a storage. The storage is the class [Cells]: what an accessor
    promises to the containers. The containers are shown to be lists. The segments of doubly linked
    lists serve [WaitersQueue] as well. *)

From S2P Require Import Prelude.

(** ** Storages *)

(** Cells of type [N] in a storage [S], addressed by ids. Reading or writing a cell that is not
    there is undefined behaviour. [same s s'] says that a storage differs in such cells only. *)
Class Cells (S N : Type) := {
  cell : S -> Z -> result N;
  set_cell : S -> Z -> N -> result S;
  same : S -> S -> Prop;
  cell_undefined s i f : cell s i = Fail f -> f = Undefined;
  set_cell_spec s i n m : cell s i = Ok m ->
    exists s', set_cell s i n = Ok s' /\ same s s' /\
               forall j, cell s' j = if decide (j = i) then Ok n else cell s j;
  same_preorder :: PreOrder same }.

(** The last element of a list, or [d]. *)
Definition last_or (d : Z) (l : list Z) : Z := default d (last l).
Definition hd_or (d : Z) (l : list Z) : Z := default d (head l).

Lemma last_or_snoc d l x : last_or d (l ++ [x]) = x.
Proof. unfold last_or. by rewrite last_snoc. Qed.

Lemma last_or_cons d x l : last_or d (x :: l) = last_or x l.
Proof. unfold last_or. rewrite last_cons. by destruct (last l). Qed.

Lemma last_or_app d a b : last_or d (a ++ b) = last_or (last_or d a) b.
Proof.
  revert d. induction a as [| x a IH]; intros d; [done |].
  change ((x :: a) ++ b) with (x :: (a ++ b)). by rewrite !last_or_cons, IH.
Qed.

Lemma hd_or_app d a b : hd_or d (a ++ b) = hd_or (hd_or d b) a.
Proof. by destruct a. Qed.

Create HintDb ends discriminated.
#[export] Hint Rewrite last_or_snoc last_or_cons last_or_app hd_or_app : ends.

(** A segment of a doubly linked list: [p] is the node before it and [n] the node behind it;
    [mk x next prev] is the node of [x]. *)
Section Segments.
Context {N : Type} (mk : Z -> Z -> Z -> N).

Fixpoint seg (c : Z -> result N) (p : Z) (ids : list Z) (n : Z) : Prop :=
  match ids with
  | [] => True
  | x :: t => c x = Ok (mk x (hd_or n t) p) /\ seg c x t n
  end.

Lemma seg_app c p a b n :
  seg c p (a ++ b) n <-> seg c p a (hd_or n b) /\ seg c (last_or p a) b n.
Proof.
  revert p. induction a as [| x a IH]; intros p; [naive_solver |].
  cbn [seg app]. rewrite IH, last_or_cons, hd_or_app. naive_solver.
Qed.

Lemma seg_ext c c' p ids n :
  (forall x, x ∈ ids -> c' x = c x) -> seg c p ids n -> seg c' p ids n.
Proof.
  revert p. induction ids as [| x t IH]; intros p Hc; [done |]. intros [Hx Ht]. split.
  - rewrite Hc by left. done.
  - apply IH; [| done]. intros y Hy. apply Hc. by right.
Qed.

(** Changing what comes behind the last node, and what is before the first one. *)
Lemma seg_last c c' p ids x n n' :
  (forall y, y ∈ ids -> c' y = c y) -> c' x = Ok (mk x n' (last_or p ids)) ->
  seg c p (ids ++ [x]) n -> seg c' p (ids ++ [x]) n'.
Proof. intros Hc Hx [Ha _]%seg_app. apply seg_app. split; [by apply (seg_ext c) | done]. Qed.

Lemma seg_first c c' p p' ids x n :
  (forall y, y ∈ ids -> c' y = c y) -> c' x = Ok (mk x (hd_or n ids) p') ->
  seg c p (x :: ids) n -> seg c' p' (x :: ids) n.
Proof. intros Hc Hx [_ Ha]. split; [done | by apply (seg_ext c)]. Qed.

Lemma seg_cell c p ids n x : seg c p ids n -> x ∈ ids -> exists nx pv, c x = Ok (mk x nx pv).
Proof.
  revert p. induction ids as [| y t IH]; intros p; [by intros _ ?%not_elem_of_nil |].
  intros [Hy Ht] [-> | Hx]%elem_of_cons; [by eexists _, _ |]. by eapply IH.
Qed.

End Segments.
Arguments seg_app {N} mk c p a b n.

(** ** [index_stack] *)

Record index_stack : Set := mk_stack { st_head : Z }.

Section Stack.
Context {S : Type} `{Cells S Z}.

Definition stack_empty (t : index_stack) : bool := st_head t =? 0.

Definition stack_push (t : index_stack) (s : S) (id : Z) : result (S * index_stack) :=
  if id =? 0 then Fail AssertFail
  else
    n ← cell s id;
    if negb (n =? 0) then Fail AssertFail
    else s ← set_cell s id (st_head t); Ok (s, mk_stack id).

Definition stack_pop (t : index_stack) (s : S) : result (Z * S * index_stack) :=
  let id := st_head t in
  if id =? 0 then Ok (id, s, t)
  else
    n ← cell s id;
    s ← set_cell s id 0;
    Ok (id, s, mk_stack n).

(** The stack holds [ids], the top first. *)
Fixpoint chain_of (c : Z -> result Z) (ids : list Z) : Prop :=
  match ids with
  | [] => True
  | x :: t => c x = Ok (hd_or 0 t) /\ chain_of c t
  end.

Record stack_rep (s : S) (t : index_stack) (ids : list Z) : Prop := {
  sr_head : st_head t = hd_or 0 ids;
  sr_chain : chain_of (cell s) ids;
  sr_nodup : NoDup ids;
  sr_nonzero : 0 ∉ ids }.

Lemma chain_of_ext c c' ids : (forall x, x ∈ ids -> c' x = c x) -> chain_of c ids -> chain_of c' ids.
Proof.
  induction ids as [| x t IH]; intros Hc; [done |]. intros [Hx Ht]. split.
  - rewrite Hc by left. done.
  - apply IH; [| done]. intros y Hy. apply Hc. by right.
Qed.

Lemma stack_rep_nil s : stack_rep s (mk_stack 0) [].
Proof. split; (done || constructor || set_solver). Qed.

Lemma stack_empty_spec s t ids : stack_rep s t ids -> stack_empty t = bool_decide (ids = []).
Proof.
  intros [Hh _ _ H0]. unfold stack_empty. rewrite Hh. destruct ids as [| x ids]; [done |]. cbn.
  destruct (Z.eqb_spec x 0) as [-> |]; [set_solver | done].
Qed.

Lemma stack_push_spec s t ids id :
  stack_rep s t ids -> cell s id = Ok 0 -> id <> 0 -> id ∉ ids ->
  exists s', stack_push t s id = Ok (s', mk_stack id) /\ same s s' /\
             stack_rep s' (mk_stack id) (id :: ids) /\
             forall j, cell s' j = if decide (j = id) then Ok (hd_or 0 ids) else cell s j.
Proof.
  intros [Hh Hc Hn H0] Hid Hnz Hni. unfold stack_push. rewrite (proj2 (Z.eqb_neq _ _) Hnz), Hid.
  cbn [mbind result_bind negb Z.eqb]. destruct (set_cell_spec s id (st_head t) 0 Hid) as (s' & -> & Hs & Hc').
  exists s'. rewrite Hh in *. split_and!; [done | done | | done]. split; [done | | | set_solver].
  - split; [by rewrite Hc', decide_True by done |]. eapply chain_of_ext; [| done]. intros x Hx.
    rewrite Hc', decide_False; [done | by intros ->].
  - by constructor.
Qed.

Lemma stack_pop_spec s t x ids :
  stack_rep s t (x :: ids) ->
  exists s', stack_pop t s = Ok (x, s', mk_stack (hd_or 0 ids)) /\ same s s' /\
             stack_rep s' (mk_stack (hd_or 0 ids)) ids /\
             forall j, cell s' j = if decide (j = x) then Ok 0 else cell s j.
Proof.
  intros [Hh [Hx Hc] [Hx' Hn]%NoDup_cons H0]. unfold stack_pop. rewrite Hh. change (hd_or 0 (x :: ids)) with x. cbv zeta.
  destruct (Z.eqb_spec x 0) as [-> |]; [set_solver |]. rewrite Hx. cbn [mbind result_bind].
  destruct (set_cell_spec s x 0 _ Hx) as (s' & -> & Hs & Hc'). exists s'. split_and!; [done | done | | done].
  split; [done | | done | set_solver]. eapply chain_of_ext; [| done]. intros y Hy.
  rewrite Hc', decide_False; [done | by intros ->].
Qed.

End Stack.

(** ** [index_list] *)

Record node : Set := mk_node { nd_next : Z; nd_prev : Z; nd_linked : bool }.
Record index_list : Set := mk_list { li_head : Z; li_tail : Z }.

(** The node of an id in a list. *)
Definition linked_node (x next prev : Z) : node := mk_node next prev true.

Section IndexList.
Context {S : Type} `{Cells S node}.

Definition list_empty (l : index_list) : bool := li_tail l =? 0.

Definition set_next (s : S) (id next : Z) : result S :=
  n ← cell s id; set_cell s id (mk_node next (nd_prev n) (nd_linked n)).
Definition set_prev (s : S) (id prev : Z) : result S :=
  n ← cell s id; set_cell s id (mk_node (nd_next n) prev (nd_linked n)).

Definition push_back (l : index_list) (s : S) (id : Z) : result (S * index_list) :=
  if id =? 0 then Fail AssertFail
  else
    n ← cell s id;
    if nd_linked n then Fail AssertFail
    else
      s ← set_cell s id (mk_node 0 (li_tail l) true);
      if li_tail l =? 0 then Ok (s, mk_list id id)
      else s ← set_next s (li_tail l) id; Ok (s, mk_list (li_head l) id).

Definition erase (l : index_list) (s : S) (id : Z) : result (S * index_list) :=
  if id =? 0 then Ok (s, l)
  else
    n ← cell s id;
    if negb (nd_linked n) then Ok (s, l)
    else
      let prevID := nd_prev n in
      let nextID := nd_next n in
      '(s, l) ← (if prevID =? 0 then Ok (s, mk_list nextID (li_tail l))
                 else s ← set_next s prevID nextID; Ok (s, l));
      '(s, l) ← (if nextID =? 0 then Ok (s, mk_list (li_head l) prevID)
                 else s ← set_prev s nextID prevID; Ok (s, l));
      s ← set_cell s id (mk_node 0 0 false);
      Ok (s, l).

Definition pop_back (l : index_list) (s : S) : result (Z * S * index_list) :=
  let id := li_tail l in
  if id =? 0 then Ok (id, s, l) else '(s, l) ← erase l s id; Ok (id, s, l).

(** [clear]: the fuel is the number of the ids. *)
Fixpoint clear (fuel : nat) (l : index_list) (s : S) : result (S * index_list) :=
  if li_head l =? 0 then Ok (s, l)
  else
    match fuel with
    | O => Fail OutOfFuel
    | Datatypes.S fuel => '(s, l) ← erase l s (li_head l); clear fuel l s
    end.

(** The list holds [ids], the front first. *)
Record list_rep (s : S) (l : index_list) (ids : list Z) : Prop := {
  lr_head : li_head l = hd_or 0 ids;
  lr_tail : li_tail l = last_or 0 ids;
  lr_seg : seg linked_node (cell s) 0 ids 0;
  lr_nodup : NoDup ids;
  lr_nonzero : 0 ∉ ids;
  lr_linked : forall id n, cell s id = Ok n -> (nd_linked n = true <-> id ∈ ids) }.

End IndexList.

Section IndexListSpec.
Context {S : Type} `{Cells S node}.

Abbreviation seg_in s := (seg linked_node (cell s)).

(** Writes that keep the links keep who is in a list. *)
Definition keeps_linked (s s' : S) : Prop :=
  forall j n', cell s' j = Ok n' -> exists n, cell s j = Ok n /\ nd_linked n = nd_linked n'.

Lemma keeps_linked_trans s1 s2 s3 : keeps_linked s1 s2 -> keeps_linked s2 s3 -> keeps_linked s1 s3.
Proof. intros H1 H2 j n (m & Hm & <-)%H2. destruct (H1 _ _ Hm) as (k & ? & ?). by exists k. Qed.

Lemma set_next_spec s x n v :
  cell s x = Ok n ->
  exists s', set_next s x v = Ok s' /\ same s s' /\ keeps_linked s s' /\
             forall j, cell s' j = if decide (j = x) then Ok (mk_node v (nd_prev n) (nd_linked n)) else cell s j.
Proof.
  intros Hx. unfold set_next. rewrite Hx. cbn [mbind result_bind].
  destruct (set_cell_spec s x (mk_node v (nd_prev n) (nd_linked n)) _ Hx) as (s' & -> & Hs & Hc). exists s'.
  split_and!; [done | done | | done]. intros j n'. rewrite Hc. case_decide as E; [subst j | by eauto].
  intros [= <-]. by exists n.
Qed.

Lemma set_prev_spec s x n v :
  cell s x = Ok n ->
  exists s', set_prev s x v = Ok s' /\ same s s' /\ keeps_linked s s' /\
             forall j, cell s' j = if decide (j = x) then Ok (mk_node (nd_next n) v (nd_linked n)) else cell s j.
Proof.
  intros Hx. unfold set_prev. rewrite Hx. cbn [mbind result_bind].
  destruct (set_cell_spec s x (mk_node (nd_next n) v (nd_linked n)) _ Hx) as (s' & -> & Hs & Hc). exists s'.
  split_and!; [done | done | | done]. intros j n'. rewrite Hc. case_decide as E; [subst j | by eauto].
  intros [= <-]. by exists n.
Qed.

Lemma same_refl' (s : S) : same s s.
Proof. reflexivity. Qed.

Lemma keeps_linked_refl s : keeps_linked s s.
Proof. intros j n Hj. by exists n. Qed.

(** The part of [erase] that mends the link before the node. *)
Lemma mend_before s l a n n' :
  seg_in s 0 a n -> NoDup a -> 0 ∉ a -> (a <> [] -> li_head l = hd_or 0 a) ->
  exists s', (if last_or 0 a =? 0 then Ok (s, mk_list n' (li_tail l))
              else s ← set_next s (last_or 0 a) n'; Ok (s, l)) = Ok (s', mk_list (hd_or n' a) (li_tail l)) /\
    same s s' /\ keeps_linked s s' /\ seg_in s' 0 a n' /\ (forall j, j ∉ a -> cell s' j = cell s j).
Proof.
  destruct a as [| y a _] using rev_ind; intros Hs Hn H0 Hh.
  - cbn. exists s. split_and!; (done || apply keeps_linked_refl).
  - apply NoDup_app in Hn as (_ & Hy & _). rewrite last_or_snoc. destruct (Z.eqb_spec y 0) as [-> |]; [set_solver |].
    pose proof (proj2 (proj1 (seg_app _ _ _ _ _ _) Hs)) as [Hcy _]. cbn [hd_or head default] in Hcy.
    destruct (set_next_spec s y _ n' Hcy) as (s' & -> & Hsame & Hk & Hc). exists s'. cbn [mbind result_bind].
    split_and!; [| done | done | |].
    + assert (hd_or n' (a ++ [y]) = li_head l) as ->; [| by destruct l].
      rewrite Hh by (by intros [_ ?]%app_eq_nil). by rewrite !hd_or_app.
    + eapply seg_last; [| by rewrite Hc, decide_True by done | exact Hs]. intros j Hj.
      rewrite Hc, decide_False; [done | set_solver].
    + intros j Hj. rewrite Hc, decide_False; [done | set_solver].
Qed.

(** The part of [erase] that mends the link behind the node. *)
Lemma mend_behind s l p p' b :
  seg_in s p b 0 -> NoDup b -> 0 ∉ b -> (b <> [] -> li_tail l = last_or 0 b) ->
  exists s', (if hd_or 0 b =? 0 then Ok (s, mk_list (li_head l) p')
              else s ← set_prev s (hd_or 0 b) p'; Ok (s, l)) = Ok (s', mk_list (li_head l) (last_or p' b)) /\
    same s s' /\ keeps_linked s s' /\ seg_in s' p' b 0 /\ (forall j, j ∉ b -> cell s' j = cell s j).
Proof.
  destruct b as [| y b]; intros Hs Hn H0 Ht.
  - cbn. exists s. split_and!; (done || apply keeps_linked_refl).
  - apply NoDup_cons in Hn as [Hy Hn]. change (hd_or 0 (y :: b)) with y. destruct (Z.eqb_spec y 0) as [-> |]; [set_solver |].
    pose proof Hs as [Hcy _]. destruct (set_prev_spec s y _ p' Hcy) as (s' & -> & Hsame & Hk & Hc). exists s'.
    cbn [mbind result_bind]. split_and!; [| done | done | |].
    + assert (last_or p' (y :: b) = li_tail l) as ->; [| by destruct l]. by rewrite Ht, !last_or_cons.
    + eapply seg_first; [| by rewrite Hc, decide_True by done | exact Hs]. intros j Hj.
      rewrite Hc, decide_False; [done | set_solver].
    + intros j Hj. rewrite Hc, decide_False; [done | set_solver].
Qed.

Lemma list_rep_nil s : (forall id n, cell s id = Ok n -> nd_linked n = false) -> list_rep s (mk_list 0 0) [].
Proof.
  intros Hl. split; [done | done | done | constructor | set_solver |]. intros id n Hn.
  rewrite (Hl _ _ Hn). set_solver.
Qed.

Lemma list_empty_spec s l ids : list_rep s l ids -> list_empty l = bool_decide (ids = []).
Proof.
  intros [_ Ht _ _ H0 _]. unfold list_empty. rewrite Ht. destruct ids as [| x ids _] using rev_ind; [done |].
  rewrite last_or_snoc. destruct (Z.eqb_spec x 0) as [-> |]; [set_solver |].
  symmetry. apply bool_decide_eq_false. by intros [_ ?]%app_eq_nil.
Qed.

Lemma push_back_spec s l ids id n :
  list_rep s l ids -> cell s id = Ok n -> id ∉ ids -> id <> 0 ->
  exists s' l', push_back l s id = Ok (s', l') /\ same s s' /\ list_rep s' l' (ids ++ [id]) /\
    (forall j, j ∉ ids ++ [id] -> cell s' j = cell s j).
Proof.
  intros [Hh Ht Hs Hn H0 Hl] Hid Hni Hnz. unfold push_back. rewrite (proj2 (Z.eqb_neq _ _) Hnz), Hid.
  cbn [mbind result_bind]. destruct (nd_linked n) eqn:El; [by apply (Hl _ _ Hid) in El |].
  destruct (set_cell_spec s id (mk_node 0 (li_tail l) true) _ Hid) as (s1 & -> & Hs1 & Hc1).
  assert (seg_in s1 0 ids 0) as Hseg1.
  { eapply seg_ext; [| exact Hs]. intros x Hx. rewrite Hc1, decide_False; [done | by intros ->]. }
  destruct (mend_before s1 (mk_list (li_head l) id) ids 0 id) as (s2 & E & Hs2 & Hk & Hseg & Hc2); [done.. | |].
  { intros Hne. cbn. rewrite Hh. by destruct ids. }
  cbn [li_tail li_head] in E. rewrite Ht, R_bind_ok, E. eexists _, _. split; [reflexivity |].
  assert (forall j, cell s2 j = if decide (j = id) then Ok (mk_node 0 (last_or 0 ids) true) else cell s2 j) as Hid2.
  { intros j. case_decide as Ej; [subst j | done]. by rewrite Hc2, Hc1, decide_True, Ht by done. }
  split_and!; [by etrans | |].
  - split; cbn [li_head li_tail].
    + by rewrite hd_or_app.
    + by rewrite last_or_snoc.
    + apply seg_app. split; [exact Hseg |]. split; [| done]. by rewrite Hid2, decide_True by done.
    + apply NoDup_app. split_and!; [done | set_solver | apply NoDup_singleton].
    + set_solver.
    + intros j m Hm. rewrite elem_of_app, list_elem_of_singleton. destruct (decide (j = id)) as [-> | Hj].
      * rewrite Hid2, decide_True in Hm by done. injection Hm as <-. naive_solver.
      * destruct (Hk _ _ Hm) as (m1 & Hm1 & <-). rewrite Hc1, decide_False in Hm1 by done.
        rewrite (Hl _ _ Hm1). naive_solver.
  - intros j Hj. rewrite Hc2, Hc1, decide_False by set_solver. done.
Qed.

Lemma erase_unlinked s l ids id n :
  list_rep s l ids -> cell s id = Ok n -> id ∉ ids -> erase l s id = Ok (s, l).
Proof.
  intros Hr Hid Hni. unfold erase. destruct (id =? 0); [done |]. rewrite Hid. cbn [mbind result_bind].
  destruct (nd_linked n) eqn:El; [by apply (lr_linked _ _ _ Hr _ _ Hid) in El | done].
Qed.

Lemma list_erase_spec s l a x b :
  list_rep s l (a ++ x :: b) ->
  exists s' l', erase l s x = Ok (s', l') /\ same s s' /\ list_rep s' l' (a ++ b) /\
    (forall j, j ∉ a ++ x :: b -> cell s' j = cell s j) /\ cell s' x = Ok (mk_node 0 0 false).
Proof.
  intros [Hh Ht Hs Hn H0 Hl]. unfold erase. destruct (Z.eqb_spec x 0) as [-> | Hx0]; [set_solver |].
  apply NoDup_app in Hn as (Hna & Hab & [Hxb Hnb]%NoDup_cons).
  assert (x ∉ a) as Hxa by (intros Hx; apply (Hab _ Hx); left).
  apply seg_app in Hs as [Hsa [Hcx Hsb]]. rewrite Hcx. cbn [mbind result_bind linked_node nd_linked negb nd_prev nd_next].
  destruct (mend_before s l a x (hd_or 0 b)) as (s1 & E1 & Hs1 & Hk1 & Hseg1 & Hc1); [done | done | set_solver | |].
  { intros Hne. rewrite Hh. by destruct a. }
  rewrite E1. cbn [mbind result_bind li_head li_tail].
  destruct (mend_behind s1 (mk_list (hd_or (hd_or 0 b) a) (li_tail l)) x (last_or 0 a) b) as (s2 & E2 & Hs2 & Hk2 & Hseg2 & Hc2).
  { eapply seg_ext; [| exact Hsb]. intros y Hy. apply Hc1. intros Hya. apply (Hab _ Hya). by right. }
  { done. }
  { set_solver. }
  { intros Hne. cbn. rewrite Ht, last_or_app, last_or_cons. by destruct b as [| y b _] using rev_ind; [| rewrite !last_or_snoc]. }
  cbn [li_tail li_head] in E2. rewrite E2. cbn [mbind result_bind].
  assert (cell s2 x = cell s x) as Hx2 by (rewrite Hc2, Hc1; done). rewrite Hcx in Hx2.
  destruct (set_cell_spec s2 x (mk_node 0 0 false) _ Hx2) as (s3 & -> & Hs3 & Hc3). eexists _, _. split; [reflexivity |].
  split_and!; [by do 2 etrans | | | by rewrite Hc3, decide_True by done].
  - split; cbn [li_head li_tail].
    + by rewrite hd_or_app.
    + by rewrite last_or_app.
    + apply seg_app. split; [apply (seg_ext _ (cell s1)); [| exact Hseg1] | apply (seg_ext _ (cell s2)); [| exact Hseg2]];
        intros y Hy; rewrite Hc3, decide_False by (by intros ->); [| done].
      apply Hc2. intros Hyb. apply (Hab _ Hy). by right.
    + apply NoDup_app. split_and!; [done | | done]. intros y Hy Hyb. apply (Hab _ Hy). by right.
    + set_solver.
    + intros j m Hm. rewrite Hc3 in Hm. case_decide as Ej.
      * subst j. injection Hm as <-. cbn. set_solver.
      * destruct (keeps_linked_trans _ _ _ Hk1 Hk2 _ _ Hm) as (m0 & Hm0 & <-). rewrite (Hl _ _ Hm0). set_solver.
  - intros j Hj. rewrite Hc3, decide_False by set_solver. rewrite Hc2, Hc1 by set_solver. done.
Qed.

Lemma pop_back_empty s l : list_rep s l [] -> pop_back l s = Ok (0, s, l).
Proof. intros [_ Ht _ _ _ _]. unfold pop_back. by rewrite Ht. Qed.

Lemma pop_back_spec s l ids x :
  list_rep s l (ids ++ [x]) ->
  exists s' l', pop_back l s = Ok (x, s', l') /\ same s s' /\ list_rep s' l' ids /\
    (forall j, j ∉ ids ++ [x] -> cell s' j = cell s j) /\ cell s' x = Ok (mk_node 0 0 false).
Proof.
  intros Hr. unfold pop_back. rewrite (lr_tail _ _ _ Hr), last_or_snoc. pose proof (lr_nonzero _ _ _ Hr).
  destruct (Z.eqb_spec x 0) as [-> |]; [set_solver |].
  destruct (list_erase_spec s l ids x [] Hr) as (s' & l' & E & Hs & Hr' & Hc & Hx). rewrite E. cbn [mbind result_bind].
  exists s', l'. rewrite app_nil_r in Hr'. by split_and!.
Qed.

Lemma clear_spec ids s l fuel :
  list_rep s l ids -> (length ids <= fuel)%nat ->
  exists s', clear fuel l s = Ok (s', mk_list 0 0) /\ same s s' /\ list_rep s' (mk_list 0 0) [] /\
    (forall j, j ∉ ids -> cell s' j = cell s j).
Proof.
  revert s l fuel. induction ids as [| x ids IH]; intros s [h t] fuel Hr Hf.
  - exists s. assert (h = 0 /\ t = 0) as [-> ->] by (split; [apply (lr_head _ _ _ Hr) | apply (lr_tail _ _ _ Hr)]).
    split_and!; [by destruct fuel | done | done | done].
  - destruct fuel as [| fuel]; [cbn in Hf; lia |]. cbn [clear]. rewrite (lr_head _ _ _ Hr). change (hd_or 0 (x :: ids)) with x.
    pose proof (lr_nonzero _ _ _ Hr). destruct (Z.eqb_spec x 0) as [-> |]; [set_solver |].
    destruct (list_erase_spec s (mk_list h t) [] x ids Hr) as (s1 & l1 & E & Hs1 & Hr1 & Hc1 & _). rewrite E. cbn [mbind result_bind].
    destruct (IH s1 l1 fuel Hr1) as (s2 & E2 & Hs2 & Hr2 & Hc2); [cbn in Hf; lia |]. exists s2. rewrite E2.
    split_and!; [done | by etrans | done |]. intros j Hj. rewrite Hc2, Hc1; set_solver.
Qed.

End IndexListSpec.

(** The representations depend on the cells only. *)
Lemma stack_rep_ext {S1 S2} (H1 : Cells S1 Z) (H2 : Cells S2 Z) (s : S1) (s' : S2) t ids :
  (forall i, i ∈ ids -> cell s' i = cell s i) -> stack_rep s t ids -> stack_rep s' t ids.
Proof. intros Hc [Hh Hch Hn H0]. split; [done | | done | done]. by eapply chain_of_ext. Qed.

Lemma stack_rep_valid {S} (H : Cells S Z) (s : S) t ids id :
  stack_rep s t ids -> id ∈ ids -> exists n, cell s id = Ok n.
Proof.
  intros [_ Hc _ _]. revert Hc. generalize (cell s). clear. induction ids as [| x ids IH]; intros c; [set_solver |].
  intros [Hx Hc] [-> | Hin]%elem_of_cons; [by eexists | by apply IH].
Qed.

Lemma list_rep_ext {S} (H : Cells S node) (s s' : S) l ids :
  (forall i, i ∈ ids -> cell s' i = cell s i) ->
  (forall i n, cell s' i = Ok n -> i ∉ ids -> nd_linked n = false) ->
  list_rep s l ids -> list_rep s' l ids.
Proof.
  intros Hc Hl [Hh Ht Hs Hn H0 Hlk]. split; [done | done | by eapply seg_ext | done | done |].
  intros i n Hi. destruct (decide (i ∈ ids)) as [Hin | Hin].
  - rewrite Hc in Hi by done. by apply Hlk.
  - rewrite (Hl _ _ Hi Hin). naive_solver.
Qed.
