(* ===== verification/Ordinator.v ===== *)
(** * Ordinator: the scheduler of coroutines

    [coroutine/coroutine.h] and [coroutine.cc] on top of the fibers of [vendor/koishi/fiber.h]. The
    ordinator keeps its own idea of who runs and who resumed whom, in links of the routines
    ([IndexList]); the fibers have theirs, the pointers to the callers. The machine at the end of
    this file runs the two together with what every coroutine is doing, so that the calls of
    [resume] that have not returned are part of the state. *)

From S2P Require Import Prelude IndexList.

(** ** Fibers *)

Inductive koishi_state : Set := KOISHI_SUSPENDED | KOISHI_RUNNING | KOISHI_DEAD.

#[export] Instance koishi_state_eq_dec : EqDecision koishi_state.
Proof. solve_decision. Defined.

Record koishi_coroutine : Set := mk_co { caller : Z; state : koishi_state }.

(** The fibers by the ids of their routines, 0 for [co_main], and the one that runs. *)
Record koishi : Set := mk_koishi { fibers : gmap Z koishi_coroutine; co_current : Z }.

Definition fiber (k : koishi) (id : Z) : result koishi_coroutine := of_option Undefined (fibers k !! id).

Definition koishi_swap_coroutine (k : koishi) (from to : Z) (st : koishi_state) : result koishi :=
  f ← fiber k from;
  let fs := <[from := mk_co (caller f) st]> (fibers k) in
  t ← of_option Undefined (fs !! to);
  Ok (mk_koishi (<[to := mk_co (caller t) KOISHI_RUNNING]> fs) to).

(** Callers that died are skipped; the fuel is the number of fibers. *)
Fixpoint living_caller (fuel : nat) (k : koishi) (c : Z) : result Z :=
  f ← fiber k c;
  match state f with
  | KOISHI_DEAD => match fuel with O => Fail OutOfFuel | S fuel => living_caller fuel k (caller f) end
  | _ => Ok c
  end.

Definition koishi_return_to_caller (k : koishi) (from : Z) (st : koishi_state) : result koishi :=
  f ← fiber k from;
  c ← living_caller (size (fibers k)) k (caller f);
  koishi_swap_coroutine (mk_koishi (<[from := mk_co c (state f)]> (fibers k)) (co_current k)) from c st.

Definition koishi_init (k : koishi) (id : Z) : koishi :=
  mk_koishi (<[id := mk_co (default 0 (caller <$> fibers k !! id)) KOISHI_SUSPENDED]> (fibers k)) (co_current k).

Definition koishi_resume (k : koishi) (id : Z) : result koishi :=
  f ← fiber k id;
  koishi_swap_coroutine (mk_koishi (<[id := mk_co (co_current k) (state f)]> (fibers k)) (co_current k))
    (co_current k) id KOISHI_SUSPENDED.

Definition koishi_yield (k : koishi) : result koishi := koishi_return_to_caller k (co_current k) KOISHI_SUSPENDED.

(** The entry of a fiber returned. *)
Definition koishi_die (k : koishi) : result koishi := koishi_return_to_caller k (co_current k) KOISHI_DEAD.

(** ** Routines *)

Record intrusive_links : Set := mk_links {
  deferred_next : Z;
  free_next : Z;
  call_stack : node;                (* [call_stack_next], [call_stack_prev], [call_stack_linked] *)
  deferred : bool }.

Definition k_default_stack_limit : Z := 128 * 1024.

Definition no_links : intrusive_links := mk_links 0 0 (mk_node 0 0 false) false.

Record routine : Set := mk_routine {
  stack_size_ : Z;
  is_empty_ : bool;
  finalized_ : bool;
  links : intrusive_links }.

Definition set_links (r : routine) (l : intrusive_links) : routine :=
  mk_routine (stack_size_ r) (is_empty_ r) (finalized_ r) l.

(** [routines_[id - 1]] *)
Definition rt (rs : list routine) (id : Z) : result routine := of_option Undefined (znth rs (id - 1)).
Definition set_rt (rs : list routine) (id : Z) (r : routine) : list routine := zset rs (id - 1) r.

(** The accessors of the links are lenses of the routines. *)
Definition upd_links (rs : list routine) (id : Z) (f : intrusive_links -> intrusive_links) : result (list routine) :=
  r ← rt rs id; Ok (set_rt rs id (set_links r (f (links r)))).

Definition with_free (n : Z) (l : intrusive_links) : intrusive_links :=
  mk_links (deferred_next l) n (call_stack l) (deferred l).
Definition with_deferred_next (n : Z) (l : intrusive_links) : intrusive_links :=
  mk_links n (free_next l) (call_stack l) (deferred l).
Definition with_call_stack (n : node) (l : intrusive_links) : intrusive_links :=
  mk_links (deferred_next l) (free_next l) n (deferred l).
Definition with_deferred (b : bool) (l : intrusive_links) : intrusive_links :=
  mk_links (deferred_next l) (free_next l) (call_stack l) b.

(** Routines that differ in what [f] sets only. *)
Definition same_but {N} (get : intrusive_links -> N) (set : N -> intrusive_links -> intrusive_links)
    (rs rs' : list routine) : Prop :=
  zlen rs = zlen rs' /\
  forall i r', znth rs' i = Some r' ->
    exists r, znth rs i = Some r /\ r' = set_links r (set (get (links r')) (links r)).

Lemma rt_ok rs id r : rt rs id = Ok r <-> znth rs (id - 1) = Some r.
Proof. unfold rt. destruct (znth rs (id - 1)); naive_solver. Qed.

Lemma rt_set rs id r r' j : rt rs id = Ok r -> rt (set_rt rs id r') j = if decide (j = id) then Ok r' else rt rs j.
Proof.
  intros H%rt_ok%znth_Some. unfold rt, set_rt. case_decide as E.
  - subst j. by rewrite znth_zset_eq.
  - rewrite znth_zset_ne by lia. done.
Qed.

Lemma zlen_set_rt rs id r : zlen (set_rt rs id r) = zlen rs.
Proof. apply zlen_zset. Qed.

Section Lens.
Context {N} (get : intrusive_links -> N) (set : N -> intrusive_links -> intrusive_links).
Context (get_set : forall n l, get (set n l) = n) (set_get : forall l, set (get l) l = l).
Context (set_set : forall n m l, set n (set m l) = set n l).

Definition lens_cell (rs : list routine) (id : Z) : result N := r ← rt rs id; Ok (get (links r)).
Definition lens_set (rs : list routine) (id : Z) (n : N) : result (list routine) := upd_links rs id (set n).

Lemma lens_undefined rs i f : lens_cell rs i = Fail f -> f = Undefined.
Proof. unfold lens_cell, rt. destruct (znth rs (i - 1)); cbn; congruence. Qed.

Lemma lens_spec rs i n m : lens_cell rs i = Ok m ->
  exists rs', lens_set rs i n = Ok rs' /\ same_but get set rs rs' /\
              forall j, lens_cell rs' j = if decide (j = i) then Ok n else lens_cell rs j.
Proof.
  unfold lens_cell, lens_set, upd_links. destruct (rt rs i) as [r |] eqn:Er; [| done]. intros _. cbn [mbind result_bind].
  eexists. split; [reflexivity |]. split.
  - split; [by rewrite zlen_set_rt |]. intros j r' Hj. replace j with (j + 1 - 1) in Hj by lia.
    apply rt_ok in Hj as Hrt. rewrite (rt_set _ _ _ _ _ Er) in Hrt.
    case_decide as E; [injection Hrt as <- |].
    + apply rt_ok in Er. replace (i - 1) with j in Er by lia. exists r. split; [done |]. cbn. by rewrite get_set.
    + apply rt_ok in Hrt. replace (j + 1 - 1) with j in Hrt by lia. exists r'. split; [done |].
      rewrite set_get. by destruct r'.
  - intros j. rewrite (rt_set _ _ _ _ _ Er). case_decide; [| done]. cbn. by rewrite get_set.
Qed.

Lemma same_but_preorder : PreOrder (same_but get set).
Proof.
  split.
  - intros rs. split; [done |]. intros i r Hr. exists r. split; [done |]. rewrite set_get. by destruct r.
  - intros r1 r2 r3 [Hl1 H1] [Hl2 H2]. split; [congruence |]. intros i r Hr. destruct (H2 _ _ Hr) as (r' & Hr' & E).
    destruct (H1 _ _ Hr') as (r'' & Hr'' & E'). exists r''. split; [done |]. rewrite E' in E. rewrite E at 1.
    unfold set_links at 1. cbn [links set_links stack_size_ is_empty_ finalized_]. by rewrite set_set.
Qed.

Definition lens_cells : Cells (list routine) N := {|
  cell := lens_cell; set_cell := lens_set; same := same_but get set;
  cell_undefined := lens_undefined; set_cell_spec := lens_spec; same_preorder := same_but_preorder |}.

End Lens.

Definition free_cells : Cells (list routine) Z.
Proof. refine (lens_cells free_next with_free _ _ _); by try intros []. Defined.
Definition deferred_cells : Cells (list routine) Z.
Proof. refine (lens_cells deferred_next with_deferred_next _ _ _); by try intros []. Defined.
#[export] Instance call_stack_cells : Cells (list routine) node.
Proof. refine (lens_cells call_stack with_call_stack _ _ _); by try intros []. Defined.

(** ** The ordinator *)

(** A completion callback is known by its id, [None] for the one of the loop; [called_] is the
    log of the calls of callbacks with the routine that they are called for. *)
Record ordinator : Set := mk_ord {
  current_ : Z;
  routines_ : list routine;
  rt_call_stack_ : index_list;
  finalized_indexes_ : index_stack;
  deferred_resumes_ : index_stack;
  loop_completion_callback_ : bool;
  completion_callbacks_ : list Z;
  called_ : list (option Z * Z);
  co_ : koishi }.

Definition set_current (o : ordinator) c := mk_ord c (routines_ o) (rt_call_stack_ o) (finalized_indexes_ o) (deferred_resumes_ o) (loop_completion_callback_ o) (completion_callbacks_ o) (called_ o) (co_ o).
Definition set_routines (o : ordinator) rs := mk_ord (current_ o) rs (rt_call_stack_ o) (finalized_indexes_ o) (deferred_resumes_ o) (loop_completion_callback_ o) (completion_callbacks_ o) (called_ o) (co_ o).
Definition set_call_stack (o : ordinator) rs l := mk_ord (current_ o) rs l (finalized_indexes_ o) (deferred_resumes_ o) (loop_completion_callback_ o) (completion_callbacks_ o) (called_ o) (co_ o).
Definition set_finalized (o : ordinator) rs t := mk_ord (current_ o) rs (rt_call_stack_ o) t (deferred_resumes_ o) (loop_completion_callback_ o) (completion_callbacks_ o) (called_ o) (co_ o).
Definition set_deferred (o : ordinator) rs t := mk_ord (current_ o) rs (rt_call_stack_ o) (finalized_indexes_ o) t (loop_completion_callback_ o) (completion_callbacks_ o) (called_ o) (co_ o).
Definition set_loop_callback (o : ordinator) b := mk_ord (current_ o) (routines_ o) (rt_call_stack_ o) (finalized_indexes_ o) (deferred_resumes_ o) b (completion_callbacks_ o) (called_ o) (co_ o).
Definition set_callbacks (o : ordinator) l := mk_ord (current_ o) (routines_ o) (rt_call_stack_ o) (finalized_indexes_ o) (deferred_resumes_ o) (loop_completion_callback_ o) l (called_ o) (co_ o).
Definition set_called (o : ordinator) l := mk_ord (current_ o) (routines_ o) (rt_call_stack_ o) (finalized_indexes_ o) (deferred_resumes_ o) (loop_completion_callback_ o) (completion_callbacks_ o) l (co_ o).
Definition set_co (o : ordinator) k := mk_ord (current_ o) (routines_ o) (rt_call_stack_ o) (finalized_indexes_ o) (deferred_resumes_ o) (loop_completion_callback_ o) (completion_callbacks_ o) (called_ o) k.

(** The constructor: [koishi_active] starts [co_main]. *)
Definition ordinator_init : ordinator :=
  mk_ord 0 [] (mk_list 0 0) (mk_stack 0) (mk_stack 0) false [] []
    (mk_koishi {[ 0 := mk_co 0 KOISHI_RUNNING ]} 0).

Definition assertrx (b : bool) : result unit := if b then Ok tt else Fail AssertFail.

(** [routine(func, fiber, stack_size)] *)
Definition new_routine (stack_size : Z) : result routine :=
  _ ← assertrx (negb (stack_size =? 0)); Ok (mk_routine stack_size true false no_links).

Definition reuse (r : routine) (new_stack_size : Z) : result routine :=
  _ ← assertrx (finalized_ r);
  _ ← assertrx (is_empty_ r);
  _ ← assertrx (negb (deferred (links r)));
  _ ← assertrx (free_next (links r) =? 0);
  _ ← assertrx (negb (nd_linked (call_stack (links r))));
  Ok (mk_routine new_stack_size (is_empty_ r) false no_links).

Definition finalize (r : routine) : result routine :=
  _ ← assertrx (negb (finalized_ r));
  _ ← assertrx (negb (deferred (links r)));
  _ ← assertrx (negb (nd_linked (call_stack (links r))));
  Ok (mk_routine (stack_size_ r) (is_empty_ r) true (links r)).

(** [routine::clear] *)
Definition clear_routine (r : routine) : routine := mk_routine (stack_size_ r) true (finalized_ r) (links r).

Definition create (o : ordinator) (stack_size : Z) : result (Z * ordinator) :=
  if stack_empty (finalized_indexes_ o) then
    r ← new_routine stack_size;
    let rs := routines_ o ++ [r] in
    Ok (u32 (zlen rs), set_routines o rs)
  else
    '(id, rs, t) ← stack_pop (H := free_cells) (finalized_indexes_ o) (routines_ o);
    r ← rt rs id;
    r ← reuse r stack_size;
    Ok (id, set_finalized o (set_rt rs id r) t).

Definition push_to_call_stack (o : ordinator) (id : Z) : result ordinator :=
  if negb (id =? 0) then
    '(rs, l) ← push_back (rt_call_stack_ o) (routines_ o) id; Ok (set_call_stack o rs l)
  else
    '(rs, l) ← clear (length (routines_ o)) (rt_call_stack_ o) (routines_ o); Ok (set_call_stack o rs l).

Definition pop_from_call_stack (o : ordinator) : result (Z * ordinator) :=
  '(id, rs, l) ← pop_back (rt_call_stack_ o) (routines_ o); Ok (id, set_call_stack o rs l).

Definition remove_from_call_stack (o : ordinator) (id : Z) : result ordinator :=
  '(rs, l) ← erase (rt_call_stack_ o) (routines_ o) id; Ok (set_call_stack o rs l).

(** [create_fiber] *)
Definition create_fiber (o : ordinator) (id : Z) : result ordinator :=
  r ← rt (routines_ o) id;
  let o := set_co o (koishi_init (co_ o) id) in
  Ok (set_routines o (set_rt (routines_ o) id (mk_routine (stack_size_ r) false (finalized_ r) (links r)))).

Definition clear_finalized (o : ordinator) : result ordinator :=
  _ ← assertrx (negb (stack_empty (finalized_indexes_ o)));
  let id := st_head (finalized_indexes_ o) in
  r ← rt (routines_ o) id;
  _ ← assertrx (finalized_ r);
  let o := set_routines o (set_rt (routines_ o) id (clear_routine r)) in
  let loop := if loop_completion_callback_ o then [(None, id)] else [] in
  Ok (set_called o (called_ o ++ loop ++ ((fun cb => (Some cb, id)) <$> completion_callbacks_ o))).

(** [resume] up to the switch to the coroutine: it returns a code, or the fiber was switched. *)
Definition resume_begin (o : ordinator) (id : Z) : result (option Z * ordinator) :=
  if id =? current_ o then Ok (Some 0, o)
  else
    _ ← assertrx (id <=? zlen (routines_ o));
    _ ← assertrx (negb (id =? 0));
    if zlen (routines_ o) <? id then Ok (Some (-1), o)
    else
      r ← rt (routines_ o) id;
      if finalized_ r then Ok (Some (-2), o)
      else
        _ ← assertrx (negb (nd_linked (call_stack (links r))));       (* std::terminate *)
        o ← (if is_empty_ r then create_fiber o id else Ok o);
        o ← push_to_call_stack o (current_ o);
        let o := set_current o id in
        k ← koishi_resume (co_ o) id;
        Ok (None, set_co o k).

Definition is_dead (o : ordinator) (id : Z) : result bool :=
  f ← fiber (co_ o) id; Ok (bool_decide (state f = KOISHI_DEAD)).

(** [resume] from where the control returns. *)
Definition resume_end (o : ordinator) (id : Z) : result ordinator :=
  _ ← rt (routines_ o) id;
  dead ← is_dead o id;
  if (dead : bool) then clear_finalized o else Ok o.

(** [suspend] up to the switch, and from where the control returns. *)
Definition suspend_begin (o : ordinator) : result ordinator :=
  _ ← assertrx (negb (current_ o =? 0));
  '(id, o) ← pop_from_call_stack o;
  let o := set_current o id in
  k ← koishi_yield (co_ o);
  Ok (set_co o k).

Definition suspend_end (o : ordinator) : result ordinator :=
  dead ← is_dead o (co_current (co_ o));
  if (dead : bool) then clear_finalized o else Ok o.

(** The end of [entry], behind the flush, with the return of the fiber; [id] is [index + 1], taken
    when the coroutine was entered. *)
Definition entry_end (o : ordinator) (id : Z) : result ordinator :=
  _ ← rt (routines_ o) id;
  o ← remove_from_call_stack o id;
  '(c, o) ← pop_from_call_stack o;
  let o := set_current o c in
  r ← rt (routines_ o) id;
  r ← finalize r;
  let rs := set_rt (routines_ o) id r in
  '(rs, t) ← stack_push (H := free_cells) (finalized_indexes_ o) rs id;
  let o := set_finalized o rs t in
  k ← koishi_die (co_ o);
  Ok (set_co o k).

Definition abandon_unstarted (o : ordinator) (id : Z) : result ordinator :=
  _ ← assertrx ((0 <? id) && (id <=? zlen (routines_ o)));
  r ← rt (routines_ o) id;
  _ ← assertrx (is_empty_ r);
  _ ← assertrx (negb (finalized_ r));
  r ← finalize r;
  '(rs, t) ← stack_push (H := free_cells) (finalized_indexes_ o) (set_rt (routines_ o) id r) id;
  Ok (set_finalized o rs t).

Definition defer_resume (o : ordinator) (id : Z) : result ordinator :=
  if (id =? 0) || (id =? current_ o) then Ok o
  else
    _ ← assertrx (id <=? zlen (routines_ o));
    if zlen (routines_ o) <? id then Ok o
    else
      r ← rt (routines_ o) id;
      if deferred (links r) then Ok o
      else
        rs ← upd_links (routines_ o) id (with_deferred true);
        '(rs, t) ← stack_push (H := deferred_cells) (deferred_resumes_ o) rs id;
        Ok (set_deferred o rs t).

(** The head of the loop of [flush_deferred_resumes]: the next coroutine, off the list. *)
Definition flush_next (o : ordinator) : result (option Z * ordinator) :=
  if stack_empty (deferred_resumes_ o) then Ok (None, o)
  else
    '(id, rs, t) ← stack_pop (H := deferred_cells) (deferred_resumes_ o) (routines_ o);
    rs ← upd_links rs id (with_deferred false);
    Ok (Some id, set_deferred o rs t).

(** [shrink_storage] *)
Fixpoint unused_cnt (rev_rs : list routine) : nat :=
  match rev_rs with
  | r :: rev_rs => if finalized_ r then S (unused_cnt rev_rs) else O
  | [] => O
  end.

(** The loop over the ids [id], [id + 1], ... that rebuilds the free list. *)
Fixpoint rebuild_free (n : nat) (id : Z) (rs : list routine) (t : index_stack) : result (list routine * index_stack) :=
  match n with
  | O => Ok (rs, t)
  | S n =>
      rs ← upd_links rs id (with_free 0);
      r ← rt rs id;
      '(rs, t) ← (if finalized_ r then stack_push (H := free_cells) t rs id else Ok (rs, t));
      rebuild_free n (id + 1) rs t
  end.

Definition shrink_storage (o : ordinator) : result (Z * ordinator) :=
  let rs := take (length (routines_ o) - unused_cnt (reverse (routines_ o))) (routines_ o) in
  let k := co_ o in
  let o := set_co o (mk_koishi (filter (fun p : Z * koishi_coroutine => p.1 <= zlen rs) (fibers k)) (co_current k)) in
  '(rs, t) ← rebuild_free (length rs) 1 rs (mk_stack 0);
  Ok (zlen rs, set_finalized o rs t).

(** Callbacks. The ids are readings of a clock: [now] are the next three. *)
Definition set_loop_completion_callback (o : ordinator) : bool * ordinator :=
  if loop_completion_callback_ o then (false, o) else (true, set_loop_callback o true).

Definition remove_loop_completion_callback (o : ordinator) : bool * ordinator :=
  if loop_completion_callback_ o then (true, set_loop_callback o false) else (false, o).

Fixpoint fresh_id (used now : list Z) : result Z :=
  match now with
  | [] => Fail AssertFail
  | id :: now => if bool_decide (id ∈ used) then fresh_id used now else Ok id
  end.

Definition add_completion_callback (o : ordinator) (now1 now2 now3 : Z) : result (Z * ordinator) :=
  id ← fresh_id (completion_callbacks_ o) [now1; now2; now3];
  Ok (id, set_callbacks o (completion_callbacks_ o ++ [id])).

Definition remove_completion_callback (o : ordinator) (id : Z) : Z * ordinator :=
  let rest := filter (fun cb => cb <> id) (completion_callbacks_ o) in
  (if Nat.eqb (length (completion_callbacks_ o)) (length rest) then -1 else 0, set_callbacks o rest).

(** ** The machine *)

(** Where a call of [resume] was made: by the code of the client, by a flush that the client
    called, or by the flush at the end of [entry]. *)
Inductive kont : Set := KUser | KFlush | KEntry.

(** What a coroutine, or the main routine, is doing. *)
Inductive point : Set :=
| AtUser                            (* runs code of the client *)
| AtFlush (k : kont)                (* at the head of the loop of a flush *)
| InResume (id : Z) (k : kont)      (* in a call of resume that has not returned *)
| InSuspend.                        (* in a call of suspend *)

Record machine : Set := mk_machine { ord : ordinator; points : gmap Z point }.

Definition running (m : machine) : Z := co_current (co_ (ord m)).
Definition set_point (m : machine) (p : point) : machine := mk_machine (ord m) (<[running m := p]> (points m)).
Definition set_ord (m : machine) (o : ordinator) : machine := mk_machine o (points m).

Definition after_resume (k : kont) : point :=
  match k with KUser => AtUser | _ => AtFlush k end.

(** The control arrives at the fiber that runs now: it enters its function, or it returns from
    [suspend] or from [resume]. *)
Definition arrive (m : machine) : result machine :=
  match points m !! running m with
  | None => Ok (set_point m AtUser)
  | Some InSuspend => o ← suspend_end (ord m); Ok (set_point (set_ord m o) AtUser)
  | Some (InResume id k) => o ← resume_end (ord m) id; Ok (set_point (set_ord m o) (after_resume k))
  | Some _ => Fail Undefined
  end.

(** [resume(id)] called from [k]. *)
Definition do_resume (m : machine) (id : Z) (k : kont) : result machine :=
  '(code, o) ← resume_begin (ord m) id;
  match code with
  | Some _ => Ok (set_point (set_ord m o) (after_resume k))
  | None => arrive (set_ord (set_point m (InResume id k)) o)
  end.

(** What the code of the client may do. *)
Inductive op : Set :=
| OpCreate (stack_size : Z)
| OpResume (id : Z)
| OpSuspend
| OpReturn                         (* from the function of the coroutine *)
| OpDefer (id : Z)
| OpFlush
| OpAbandon (id : Z)
| OpShrink.

Definition do_op (m : machine) (p : op) : result machine :=
  match p with
  | OpCreate sz => '(_, o) ← create (ord m) sz; Ok (set_ord m o)
  | OpResume id => do_resume m id KUser
  | OpSuspend => o ← suspend_begin (ord m); arrive (set_ord (set_point m InSuspend) o)
  | OpReturn => Ok (set_point m (AtFlush KEntry))
  | OpDefer id => o ← defer_resume (ord m) id; Ok (set_ord m o)
  | OpFlush => Ok (set_point m (AtFlush KFlush))
  | OpAbandon id => o ← abandon_unstarted (ord m) id; Ok (set_ord m o)
  | OpShrink => '(_, o) ← shrink_storage (ord m); Ok (set_ord m o)
  end.

(** A round of the loop of a flush, or what comes behind it. *)
Definition flush_step (m : machine) (k : kont) : result machine :=
  '(id, o) ← flush_next (ord m);
  match id with
  | Some id => do_resume (set_ord m o) id k
  | None =>
      match k with
      | KEntry =>
          let me := running m in
          o ← entry_end o me;
          arrive (mk_machine o (delete me (points m)))
      | _ => Ok (set_point (set_ord m o) AtUser)
      end
  end.

Definition machine_init : machine := mk_machine ordinator_init {[ 0 := AtUser ]}.

(** A step of the machine: of the client if its code runs, else a round of a flush. *)
Definition run_op (m : result machine) (p : op) : result machine :=
  m ← m;
  match points m !! running m with
  | Some AtUser => do_op m p
  | Some (AtFlush k) => flush_step m k
  | _ => Fail Undefined
  end.

Definition seen (m : result machine) : result (Z * Z * Z * Z) :=
  m ← m;
  Ok (running m, current_ (ord m), zlen (routines_ (ord m)), st_head (finalized_indexes_ (ord m))).

(** The main routine resumes 1, which resumes 2; 2 suspends; 1 defers 2 and returns. The flush
    resumes 2, which returns; its slot is free before the one of 1, and create takes them in the
    opposite order. *)
Example nested_coroutines :
  let m := foldl run_op (Ok machine_init)
    [OpCreate 100; OpCreate 100; OpResume 1; OpResume 2; OpSuspend; OpDefer 2; OpReturn; OpFlush;
     OpReturn; OpFlush; OpFlush] in
  seen m = Ok (0, 0, 2, 1) /\ seen (foldl run_op m [OpCreate 50]) = Ok (0, 0, 2, 2) /\
  seen (foldl run_op m [OpShrink]) = Ok (0, 0, 0, 0).
Proof. vm_compute. auto. Qed.
