(* ===== verification/OrdinatorSpec.v ===== *)
(** * OrdinatorSpec: the scheduler is a stack machine

    The abstract scheduler is a stack of the coroutines that resumed each other, a list of the
    deferred ones, and a stack of free slots. The ordinator with its fibers implements it: what the
    ordinator believes in [current_] and its call stack is what the fibers do. *)

From S2P Require Import Prelude IndexList Ordinator.

(** ** The abstract scheduler *)

Record sched : Set := mk_sched {
  chain : list (Z * kont);          (* who runs, who resumed it, and so on; and from where *)
  flushing : option kont;           (* the one that runs is at the head of a flush *)
  fresh : gset Z;                   (* created, not started *)
  started : gset Z;
  free : list Z;                    (* slots of finished coroutines *)
  count : Z;
  deferred_ids : list Z;
  finished : list Z }.              (* the coroutines that ended, in order *)

Definition running_id (a : sched) : Z := hd_or 0 (a.(chain).*1).

Definition returned_to (k : kont) : option kont := match k with KUser => None | _ => Some k end.

Definition spec_create (a : sched) : Z * sched :=
  match free a with
  | [] => (count a + 1, mk_sched (chain a) (flushing a) ({[ count a + 1 ]} ∪ fresh a) (started a) [] (count a + 1) (deferred_ids a) (finished a))
  | id :: rest => (id, mk_sched (chain a) (flushing a) ({[ id ]} ∪ fresh a) (started a) rest (count a) (deferred_ids a) (finished a))
  end.

Definition spec_push (a : sched) (id : Z) (k : kont) : sched :=
  mk_sched ((id, k) :: chain a) None (fresh a ∖ {[ id ]}) ({[ id ]} ∪ started a) (free a) (count a) (deferred_ids a) (finished a).

Definition spec_resume (a : sched) (id : Z) (k : kont) : sched :=
  if bool_decide (id = running_id a) || bool_decide (id ∈ free a) then a else spec_push a id k.

(** The control goes back to the one that resumed. *)
Definition spec_back (a : sched) : sched :=
  match chain a with
  | [] => a
  | (_, k) :: rest => mk_sched rest (returned_to k) (fresh a) (started a) (free a) (count a) (deferred_ids a) (finished a)
  end.

Definition spec_end (a : sched) : sched :=
  let id := running_id a in
  let a := spec_back a in
  mk_sched (chain a) (flushing a) (fresh a) (started a ∖ {[ id ]}) (id :: free a) (count a) (deferred_ids a) (finished a ++ [id]).

Definition spec_defer (a : sched) (id : Z) : sched :=
  if bool_decide (id = 0) || bool_decide (id = running_id a) || bool_decide (id ∈ deferred_ids a) then a
  else mk_sched (chain a) (flushing a) (fresh a) (started a) (free a) (count a) (id :: deferred_ids a) (finished a).

Definition spec_abandon (a : sched) (id : Z) : sched :=
  mk_sched (chain a) (flushing a) (fresh a ∖ {[ id ]}) (started a) (id :: free a) (count a) (deferred_ids a) (finished a).

Definition with_flush (a : sched) (k : option kont) : sched :=
  mk_sched (chain a) k (fresh a) (started a) (free a) (count a) (deferred_ids a) (finished a).

Fixpoint trimmed (n : nat) (free : list Z) : nat :=
  match n with
  | O => O
  | S n' => if bool_decide (Z.of_nat n ∈ free) then trimmed n' free else n
  end.

Definition spec_shrink (a : sched) : sched :=
  let n := trimmed (Z.to_nat (count a)) (free a) in
  mk_sched (chain a) (flushing a) (fresh a) (started a) (reverse (filter (fun id => id ∈ free a) (seqZ 1 (Z.of_nat n)))) (Z.of_nat n) (deferred_ids a) (finished a).

Definition spec_op (a : sched) (p : op) : sched :=
  match p with
  | OpCreate _ => (spec_create a).2
  | OpResume id => spec_resume a id KUser
  | OpSuspend => spec_back a
  | OpReturn => with_flush a (Some KEntry)
  | OpDefer id => spec_defer a id
  | OpFlush => with_flush a (Some KFlush)
  | OpAbandon id => spec_abandon a id
  | OpShrink => spec_shrink a
  end.

Definition spec_flush (a : sched) (k : kont) : sched :=
  match deferred_ids a with
  | id :: rest =>
      spec_push (mk_sched (chain a) (flushing a) (fresh a) (started a) (free a) (count a) rest (finished a)) id k
  | [] => match k with KEntry => spec_end a | _ => with_flush a None end
  end.

Definition spec_step (a : sched) (p : op) : sched :=
  match flushing a with None => spec_op a p | Some k => spec_flush a k end.

(** What the client must keep to: it resumes or defers coroutines that wait, not an active
    ancestor; a deferred one is left to the flush; the main routine does not suspend. *)
Definition waits (a : sched) (id : Z) : Prop := id ∈ started a /\ id ∉ (chain a).*1.

Definition legal (a : sched) (p : op) : Prop :=
  match p with
  | OpCreate sz => sz <> 0 /\ count a < 2 ^ 32 - 1
  | OpResume id => id = running_id a \/ id ∈ free a \/ id ∈ fresh a \/ (waits a id /\ id ∉ deferred_ids a)
  | OpSuspend | OpReturn => chain a <> []
  | OpDefer id => id = 0 \/ id = running_id a \/ id ∈ deferred_ids a \/ waits a id
  | OpFlush | OpShrink => True
  | OpAbandon id => id ∈ fresh a
  end.

Definition legal_step (a : sched) (p : op) : Prop := flushing a = None -> legal a p.

(** ** Views of the routines *)

(** What a routine has besides the links of the containers. *)
Definition body (rs : list routine) (id : Z) : result (bool * bool * bool) :=
  r ← rt rs id; Ok (is_empty_ r, finalized_ r, deferred (links r)).

Abbreviation free_cell := (cell (Cells := free_cells)).
Abbreviation def_cell := (cell (Cells := deferred_cells)).
Abbreviation cs_cell := (cell (Cells := call_stack_cells)).

Definition same_views (rs rs' : list routine) : Prop :=
  zlen rs = zlen rs' /\ forall i, body rs' i = body rs i.

Lemma same_but_rt {N} (get : intrusive_links -> N) set rs rs' i :
  same_but get set rs rs' ->
  match rt rs' i with
  | Ok r' => exists r, rt rs i = Ok r /\ r' = set_links r (set (get (links r')) (links r))
  | Fail _ => rt rs i = rt rs' i
  end.
Proof.
  intros [Hl H]. unfold rt. destruct (znth rs' (i - 1)) as [r' |] eqn:E; cbn.
  - destruct (H _ _ E) as (r & Hr & Er). exists r. by rewrite Hr.
  - destruct (znth rs (i - 1)) as [r |] eqn:Er; [| done]. apply znth_Some in Er.
    rewrite Hl in Er. apply znth_lt in Er. rewrite E in Er. by destruct Er.
Qed.

(** Links of one kind do not change what the others see. *)
Lemma same_free rs rs' : same (Cells := free_cells) rs rs' ->
  zlen rs = zlen rs' /\ forall i, body rs' i = body rs i /\ def_cell rs' i = def_cell rs i /\ cs_cell rs' i = cs_cell rs i.
Proof.
  intros H. split; [exact (proj1 H) |]. intros i. pose proof (same_but_rt _ _ _ _ i H) as Hi.
  unfold body, cell; cbn; unfold lens_cell. destruct (rt rs' i) as [r |]; [| by rewrite Hi].
  destruct Hi as (r0 & -> & ->). by destruct r0 as [? ? ? []].
Qed.

Lemma same_deferred rs rs' : same (Cells := deferred_cells) rs rs' ->
  zlen rs = zlen rs' /\ forall i, body rs' i = body rs i /\ free_cell rs' i = free_cell rs i /\ cs_cell rs' i = cs_cell rs i.
Proof.
  intros H. split; [exact (proj1 H) |]. intros i. pose proof (same_but_rt _ _ _ _ i H) as Hi.
  unfold body, cell; cbn; unfold lens_cell. destruct (rt rs' i) as [r |]; [| by rewrite Hi].
  destruct Hi as (r0 & -> & ->). by destruct r0 as [? ? ? []].
Qed.

Lemma same_call_stack rs rs' : same (Cells := call_stack_cells) rs rs' ->
  zlen rs = zlen rs' /\ forall i, body rs' i = body rs i /\ free_cell rs' i = free_cell rs i /\ def_cell rs' i = def_cell rs i.
Proof.
  intros H. split; [exact (proj1 H) |]. intros i. pose proof (same_but_rt _ _ _ _ i H) as Hi.
  unfold body, cell; cbn; unfold lens_cell. destruct (rt rs' i) as [r |]; [| by rewrite Hi].
  destruct Hi as (r0 & -> & ->). by destruct r0 as [? ? ? []].
Qed.

(** ** Representation *)

(** The sets of the abstract scheduler fit together. *)
Record wf (a : sched) : Prop := {
  wf_chain : NoDup (chain a).*1;
  wf_started : forall i, i ∈ (chain a).*1 -> i ∈ started a;
  wf_deferred : forall i, i ∈ deferred_ids a -> waits a i;
  wf_ids : forall i, i ∈ fresh a \/ i ∈ started a \/ i ∈ free a <-> 1 <= i <= count a;
  wf_fresh : forall i, i ∈ fresh a -> i ∉ started a /\ i ∉ free a;
  wf_free : forall i, i ∈ free a -> i ∉ started a;
  wf_count : 0 <= count a < 2 ^ 32;
  wf_flushing : match flushing a with
                | Some KUser => False
                | Some KEntry => chain a <> []
                | _ => True
                end }.

(** The routines and the containers that are threaded through them. *)
Record links_rep (o : ordinator) (a : sched) : Prop := {
  lk_current : current_ o = running_id a;
  lk_call_stack : list_rep (routines_ o) (rt_call_stack_ o) (reverse (tail (chain a).*1));
  lk_free : stack_rep (H := free_cells) (routines_ o) (finalized_indexes_ o) (free a);
  lk_deferred : stack_rep (H := deferred_cells) (routines_ o) (deferred_resumes_ o) (deferred_ids a);
  lk_count : zlen (routines_ o) = count a;
  lk_body : forall i e f d, body (routines_ o) i = Ok (e, f, d) ->
    (e = false <-> i ∈ started a) /\ (f = true <-> i ∈ free a) /\ (d = true <-> i ∈ deferred_ids a);
  lk_free_zero : forall i n, free_cell (routines_ o) i = Ok n -> i ∉ free a -> n = 0;
  lk_deferred_zero : forall i n, def_cell (routines_ o) i = Ok n -> i ∉ deferred_ids a -> n = 0 }.

(** The frames of the calls of [resume] that have not returned: whoever resumed a coroutine is in
    such a call, and it is the caller of the fiber. *)
Fixpoint frames (pts : gmap Z point) (fs : gmap Z koishi_coroutine) (ch : list (Z * kont)) : Prop :=
  match ch with
  | [] => True
  | (x, k) :: rest =>
      let y := hd_or 0 rest.*1 in
      pts !! y = Some (InResume x k) /\ (k = KEntry -> rest <> []) /\
      caller <$> fs !! x = Some y /\ frames pts fs rest
  end.

Definition head_point (f : option kont) : point :=
  match f with None => AtUser | Some k => AtFlush k end.

Record control_rep (k : koishi) (pts : gmap Z point) (a : sched) : Prop := {
  cr_current : co_current k = running_id a;
  cr_frames : frames pts (fibers k) (chain a);
  cr_head : pts !! running_id a = Some (head_point (flushing a));
  cr_waits : forall i, waits a i -> pts !! i = Some InSuspend;
  cr_points : forall i, i <> 0 -> is_Some (pts !! i) -> i ∈ started a;
  cr_states : forall i, i = 0 \/ i ∈ started a ->
    exists c, fibers k !! i = Some (mk_co c (if decide (i = running_id a) then KOISHI_RUNNING else KOISHI_SUSPENDED)) }.

(** The calls of the callbacks for a coroutine that ended. *)
Definition callbacks_of (o : ordinator) (id : Z) : list (option Z * Z) :=
  (if loop_completion_callback_ o then [(None, id)] else []) ++ ((fun cb => (Some cb, id)) <$> completion_callbacks_ o).

Record rep (m : machine) (a : sched) : Prop := {
  rp_wf : wf a;
  rp_links : links_rep (ord m) a;
  rp_control : control_rep (co_ (ord m)) (points m) a;
  rp_called : called_ (ord m) = mjoin (callbacks_of (ord m) <$> finished a) }.

(** ** Fibers *)

Lemma koishi_resume_ok k id c f :
  fibers k !! co_current k = Some c -> fibers k !! id = Some f -> id <> co_current k ->
  exists k', koishi_resume k id = Ok k' /\ co_current k' = id /\
    forall j, fibers k' !! j =
      if decide (j = id) then Some (mk_co (co_current k) KOISHI_RUNNING)
      else if decide (j = co_current k) then Some (mk_co (caller c) KOISHI_SUSPENDED) else fibers k !! j.
Proof.
  intros Hc Hf Hne. unfold koishi_resume, koishi_swap_coroutine, fiber. rewrite Hf. cbn [of_option mbind result_bind].
  cbn [fibers co_current]. rewrite lookup_insert_ne, Hc by done. cbn [of_option mbind result_bind].
  rewrite lookup_insert_ne, lookup_insert_eq by done. cbn [of_option mbind result_bind caller].
  eexists. split_and!; [reflexivity | done |]. intros j. cbn [fibers]. repeat case_decide; subst; simplify_map_eq; done.
Qed.

Lemma koishi_return_ok k x st y stx fy :
  fibers k !! x = Some (mk_co y stx) -> fibers k !! y = Some fy -> state fy <> KOISHI_DEAD -> x <> y ->
  exists k', koishi_return_to_caller k x st = Ok k' /\ co_current k' = y /\
    forall j, fibers k' !! j =
      if decide (j = y) then Some (mk_co (caller fy) KOISHI_RUNNING)
      else if decide (j = x) then Some (mk_co y st) else fibers k !! j.
Proof.
  intros Hx Hy Hst Hne. unfold koishi_return_to_caller, fiber. rewrite Hx. cbn [of_option mbind result_bind caller].
  assert (living_caller (size (fibers k)) k y = Ok y) as ->.
  { destruct (size (fibers k)); cbn [living_caller]; unfold fiber; rewrite Hy; cbn; by destruct (state fy). }
  cbn [mbind result_bind]. unfold koishi_swap_coroutine, fiber. cbn [fibers]. rewrite lookup_insert_eq.
  cbn [of_option mbind result_bind caller]. rewrite !lookup_insert_ne, Hy by done. cbn [of_option mbind result_bind].
  eexists. split_and!; [reflexivity | done |]. intros j. cbn [fibers]. repeat case_decide; subst; simplify_map_eq; done.
Qed.

(** The frames depend on the points of those that wait for the return of [resume], and on the
    callers of the chain. *)
Lemma frames_ext pts pts' fs fs' ch :
  (forall y, y ∈ tail ch.*1 ++ [0] -> ch <> [] -> pts' !! y = pts !! y) ->
  (forall x, x ∈ ch.*1 -> caller <$> fs' !! x = caller <$> fs !! x) ->
  frames pts fs ch -> frames pts' fs' ch.
Proof.
  induction ch as [| [x k] rest IH]; intros Hp Hf; [done |]. cbn [frames]. intros (H1 & H2 & H3 & H4). split_and!.
  - rewrite Hp; [done | | done]. destruct rest as [| [y ?] rest]; cbn; set_solver.
  - done.
  - rewrite Hf; [done |]. cbn. set_solver.
  - apply IH; [| | done].
    + intros y Hy Hne. apply Hp; [| done]. destruct rest as [| [z ?] rest]; [done |]. cbn in *. set_solver.
    + intros y Hy. apply Hf. cbn. set_solver.
Qed.

(** Nobody in the chain is the main routine. *)
Lemma wf_nonzero a i : wf a -> i ∈ started a -> i <> 0.
Proof. intros Hw Hi ->. pose proof (proj1 (wf_ids _ Hw 0) (or_intror (or_introl Hi))). lia. Qed.

Lemma running_in_chain a : chain a <> [] -> running_id a ∈ (chain a).*1.
Proof. unfold running_id. destruct (chain a) as [| [x k] ch]; [done |]. cbn. set_solver. Qed.

Lemma running_started a : wf a -> running_id a = 0 \/ running_id a ∈ started a.
Proof.
  intros Hw. unfold running_id. destruct (chain a) as [| [x k] ch] eqn:E; [by left |]. right.
  apply (wf_started _ Hw). rewrite E. cbn. set_solver.
Qed.

(** Pushing a coroutine that can be resumed: started and waiting, or fresh. *)
Definition resumable (a : sched) (id : Z) : Prop := id ∈ fresh a \/ waits a id.

Lemma resumable_not_running a id : wf a -> resumable a id -> id <> running_id a /\ id ∉ (chain a).*1 /\ id <> 0 /\ id ∉ free a.
Proof.
  intros Hw Hr. assert (id ∉ (chain a).*1) as Hch.
  { destruct Hr as [Hf | [_ Hch]]; [| done]. intros Hi. by apply (wf_started _ Hw), (proj1 (wf_fresh _ Hw _ Hf)) in Hi. }
  assert (1 <= id <= count a) as Hid by (apply (wf_ids _ Hw); destruct Hr as [? | [? _]]; auto).
  split_and!; [| done | lia |].
  - unfold running_id. intros ->. destruct (chain a) as [| [x k] ch]; [cbn in Hid; lia |]. apply Hch. cbn. set_solver.
  - destruct Hr as [Hf | [Hs _]]; [by apply (wf_fresh _ Hw) | intros Hi; by apply (wf_free _ Hw _ Hi)].
Qed.

(** ** Operations on the routines *)

Lemma links_rt o a i : links_rep o a -> 1 <= i <= count a -> exists r, rt (routines_ o) i = Ok r.
Proof.
  intros Hl Hi. rewrite <- (lk_count _ _ Hl) in Hi. destruct (znth_lt (routines_ o) (i - 1)) as [r Hr]; [lia |].
  exists r. by apply rt_ok.
Qed.

Lemma rt_valid o a i r : links_rep o a -> rt (routines_ o) i = Ok r -> 1 <= i <= count a.
Proof. intros Hl Hr%rt_ok%znth_Some. rewrite <- (lk_count _ _ Hl). lia. Qed.

Lemma body_rt rs i r : rt rs i = Ok r -> body rs i = Ok (is_empty_ r, finalized_ r, deferred (links r)).
Proof. intros H. unfold body. by rewrite H. Qed.

Section SetRt.
Context (rs : list routine) (id : Z) (r r' : routine) (Hr : rt rs id = Ok r).

Lemma body_set j : body (set_rt rs id r') j =
  if decide (j = id) then Ok (is_empty_ r', finalized_ r', deferred (links r')) else body rs j.
Proof using Hr. unfold body. rewrite (rt_set _ _ _ _ _ Hr). by case_decide. Qed.

Lemma lens_set_rt {N} (get : intrusive_links -> N) j :
  lens_cell get (set_rt rs id r') j = if decide (j = id) then Ok (get (links r')) else lens_cell get rs j.
Proof using Hr. unfold lens_cell. rewrite (rt_set _ _ _ _ _ Hr). by case_decide. Qed.

Lemma lens_set_same {N} (get : intrusive_links -> N) j :
  get (links r') = get (links r) -> lens_cell get (set_rt rs id r') j = lens_cell get rs j.
Proof using Hr. intros E. rewrite lens_set_rt. case_decide; [| done]. subst. unfold lens_cell. by rewrite Hr, E. Qed.

End SetRt.

Lemma lens_cell_rt {N} (get : intrusive_links -> N) rs i r : rt rs i = Ok r -> lens_cell get rs i = Ok (get (links r)).
Proof. intros H. unfold lens_cell. by rewrite H. Qed.

Lemma lens_cell_inv {N} (get : intrusive_links -> N) rs i n : lens_cell get rs i = Ok n -> exists r, rt rs i = Ok r /\ get (links r) = n.
Proof. unfold lens_cell. destruct (rt rs i) as [r |]; [| done]. intros [= <-]. by exists r. Qed.

(** Pushing who resumes on the call stack. *)
Lemma push_to_call_stack_ok o a :
  wf a -> links_rep o a ->
  exists rs l, push_to_call_stack o (running_id a) = Ok (set_call_stack o rs l) /\
    list_rep rs l (reverse (chain a).*1) /\ same (Cells := call_stack_cells) (routines_ o) rs.
Proof.
  intros Hw Hl. pose proof (lk_call_stack _ _ Hl) as Hs. unfold push_to_call_stack, running_id.
  destruct (chain a) as [| [x k] ch] eqn:Ech.
  - cbn in Hs |- *. destruct (clear_spec [] (routines_ o) (rt_call_stack_ o) (length (routines_ o)) Hs) as (rs & -> & Hsame & Hrep & _); [cbn; lia |].
    eexists _, _. split_and!; [reflexivity | exact Hrep | exact Hsame].
  - change (((x, k) :: ch).*1) with (x :: ch.*1) in *. change (hd_or 0 (x :: ch.*1)) with x. cbn [tail] in Hs.
    assert (x ∈ started a) as Hx by (apply (wf_started _ Hw); rewrite Ech; cbn; set_solver).
    pose proof (wf_nonzero _ _ Hw Hx) as Hx0. destruct (Z.eqb_spec x 0); [done |]. cbn [negb].
    destruct (links_rt _ _ x Hl) as [r Hr]; [apply (wf_ids _ Hw); auto |].
    pose proof (wf_chain _ Hw) as Hn. rewrite Ech in Hn. cbn in Hn. apply NoDup_cons in Hn as [Hxn _].
    destruct (push_back_spec _ _ _ x _ Hs (lens_cell_rt call_stack _ _ _ Hr)) as (rs & l & E & Hsame & Hrep & _); [set_solver | done |].
    rewrite E. cbn [mbind result_bind]. eexists _, _. split_and!; [reflexivity | | exact Hsame].
    by rewrite reverse_cons.
Qed.

(** Popping who resumed. *)
Lemma pop_from_call_stack_ok o (ids : list Z) :
  list_rep (routines_ o) (rt_call_stack_ o) (reverse ids) ->
  exists rs l, pop_from_call_stack o = Ok (hd_or 0 ids, set_call_stack o rs l) /\
    list_rep rs l (reverse (tail ids)) /\ same (Cells := call_stack_cells) (routines_ o) rs.
Proof.
  intros Hs. unfold pop_from_call_stack. destruct ids as [| y ids].
  - rewrite (pop_back_empty _ _ Hs). eexists _, _. split_and!; [reflexivity | exact Hs | apply same_refl'].
  - rewrite reverse_cons in Hs. destruct (pop_back_spec _ _ _ _ Hs) as (rs & l & E & Hsame & Hrep & _).
    rewrite E. cbn [mbind result_bind]. by eexists _, _.
Qed.

(** Marking a fiber as started does not change the links. *)
Lemma create_fiber_ok o a id r :
  links_rep o a -> rt (routines_ o) id = Ok r -> is_empty_ r = true ->
  exists o', create_fiber o id = Ok o' /\
    (forall j, body (routines_ o') j = if decide (j = id) then Ok (false, finalized_ r, deferred (links r)) else body (routines_ o) j) /\
    (forall j, free_cell (routines_ o') j = free_cell (routines_ o) j) /\
    (forall j, def_cell (routines_ o') j = def_cell (routines_ o) j) /\
    (forall j, cs_cell (routines_ o') j = cs_cell (routines_ o) j) /\
    o' = set_routines (set_co o (koishi_init (co_ o) id)) (routines_ o') /\ zlen (routines_ o') = zlen (routines_ o).
Proof.
  intros Hl Hr He. unfold create_fiber. rewrite Hr. cbn [mbind result_bind]. eexists. split; [reflexivity |].
  cbn [routines_ set_routines set_co]. split_and!.
  - intros j. by rewrite (body_set _ _ _ _ Hr).
  - intros j. by apply (lens_set_same _ _ _ _ Hr).
  - intros j. by apply (lens_set_same _ _ _ _ Hr).
  - intros j. by apply (lens_set_same _ _ _ _ Hr).
  - reflexivity.
  - apply zlen_set_rt.
Qed.

(** ** Resuming *)

Definition same_callbacks (o o' : ordinator) : Prop :=
  loop_completion_callback_ o' = loop_completion_callback_ o /\
  completion_callbacks_ o' = completion_callbacks_ o /\ called_ o' = called_ o.

(** A coroutine that is resumed is not fresh any more. *)
Definition spec_start (a : sched) (id : Z) : sched :=
  mk_sched (chain a) (flushing a) (fresh a ∖ {[id]}) ({[id]} ∪ started a) (free a) (count a) (deferred_ids a) (finished a).

Lemma wf_start a id : wf a -> resumable a id -> wf (spec_start a id).
Proof.
  intros Hw Hres. pose proof (resumable_not_running _ _ Hw Hres) as (_ & _ & _ & Hnf).
  destruct Hw as [H1 H2 H3 H4 H5 H6 H7 H8]. split; cbn [chain started fresh free count deferred_ids flushing spec_start]; try done.
  - intros i Hi. apply elem_of_union. right. by apply H2.
  - intros i Hi. destruct (H3 i Hi) as [Hs Hn]. split; [apply elem_of_union; by right | done].
  - intros i. rewrite <- H4, elem_of_difference, elem_of_union, elem_of_singleton.
    destruct (decide (i = id)) as [-> |]; [destruct Hres as [? | [? _]]; naive_solver | naive_solver].
  - intros i. rewrite elem_of_difference, elem_of_union, elem_of_singleton. intros [Hi Hne]. destruct (H5 i Hi). naive_solver.
  - intros i Hi. rewrite elem_of_union, elem_of_singleton. intros [-> | Hs]; [done | by apply (H6 i Hi)].
Qed.

Lemma wf_push a id k : wf a -> resumable a id -> id ∉ deferred_ids a -> wf (spec_push a id k).
Proof.
  intros Hw Hres Hnd. pose proof (resumable_not_running _ _ Hw Hres) as (_ & Hch & _ & _).
  destruct (wf_start a id Hw Hres) as [H1 H2 H3 H4 H5 H6 H7 _]. cbn [spec_start chain started fresh free count deferred_ids] in *.
  split; cbn [chain started fresh free count deferred_ids flushing spec_push fmap list_fmap fst]; try done.
  - by constructor.
  - intros i [-> | Hi]%elem_of_cons; [apply elem_of_union; left; by apply elem_of_singleton | by apply H2].
  - intros i Hi. destruct (H3 i Hi) as [Hs Hn]. split; [exact Hs |]. cbn. intros [-> | Hc]%elem_of_cons; [done | by apply Hn].
Qed.

(** The fibers after a fiber was set up, if it has to be. *)
Definition same_fibers_but (id : Z) (k k' : koishi) : Prop :=
  co_current k' = co_current k /\ is_Some (fibers k' !! id) /\ forall j, j <> id -> fibers k' !! j = fibers k !! j.

Lemma start_fiber_ok o pts a id r :
  wf a -> links_rep o a -> control_rep (co_ o) pts a -> resumable a id -> id ∉ deferred_ids a -> rt (routines_ o) id = Ok r ->
  exists o', (if is_empty_ r then create_fiber o id else Ok o) = Ok o' /\
    links_rep o' (spec_start a id) /\
    same_callbacks o o' /\ same_fibers_but id (co_ o) (co_ o').
Proof.
  intros Hw Hl Hc Hres Hnd Hr. pose proof (resumable_not_running _ _ Hw Hres) as (_ & _ & Hid0 & Hnf).
  pose proof (lk_body _ _ Hl _ _ _ _ (body_rt _ _ _ Hr)) as (He & Hf & Hd).
  destruct Hl as [H1 H2 H3 H4 H5 H6 H7 H8]. destruct (is_empty_ r) eqn:Ee.
  - destruct (create_fiber_ok o a id r) as (o' & -> & Hb & Hfc & Hdc & Hcs & Eo & Hlen); [by split | done | done |].
    exists o'. split; [done |]. rewrite Eo. split; [| split; [done |]].
    + rewrite Eo in Hb, Hfc, Hdc, Hcs, Hlen. cbn [routines_ set_routines set_co] in *.
      split; cbn [current_ routines_ rt_call_stack_ finalized_indexes_ deferred_resumes_ set_routines set_co spec_start chain started free count deferred_ids].
      * done.
      * eapply list_rep_ext; [intros i _; apply Hcs | | done]. intros i n Hi Hni. rewrite Hcs in Hi.
        destruct (nd_linked n) eqn:E; [| done]. by apply (lr_linked _ _ _ H2 _ _ Hi) in E.
      * eapply stack_rep_ext; [intros i _; apply Hfc | done].
      * eapply stack_rep_ext; [intros i _; apply Hdc | done].
      * congruence.
      * intros i e f d Hi. rewrite Hb in Hi. case_decide as Ei; [subst i | by apply H6 in Hi; set_solver].
        injection Hi as <- <- <-. set_solver.
      * intros i n. rewrite Hfc. apply H7.
      * intros i n. rewrite Hdc. apply H8.
    + cbn. unfold koishi_init. split_and!; [done | cbn; rewrite lookup_insert_eq; by eexists |].
      intros j Hj. cbn. by rewrite lookup_insert_ne.
  - exists o. assert (id ∈ started a) as Hst by (by apply He). split; [done |]. split; [| split; [done | split_and!; [done | | done]]].
    + split; try done. intros i e f d Hi. cbn [started free deferred_ids]. apply H6 in Hi. cbn. set_solver.
    + destruct (cr_states _ _ _ Hc id) as [c Hc']; [auto |]. by rewrite Hc'.
Qed.

Lemma links_push_call_stack o a rs l (ids : list Z) (ch : list (Z * kont)) f :
  links_rep o a -> list_rep rs l (reverse ids) -> same (Cells := call_stack_cells) (routines_ o) rs ->
  ids = tail ch.*1 ->
  links_rep (set_current (set_call_stack o rs l) (hd_or 0 ch.*1))
    (mk_sched ch f (fresh a) (started a) (free a) (count a) (deferred_ids a) (finished a)).
Proof.
  intros [H1 H2 H3 H4 H5 H6 H7 H8] Hrep [Hlen Hsame]%same_call_stack ->.
  split; cbn [current_ routines_ rt_call_stack_ finalized_indexes_ deferred_resumes_ set_current set_call_stack chain started free count deferred_ids].
  - done.
  - done.
  - eapply stack_rep_ext; [intros i _; apply Hsame | done].
  - eapply stack_rep_ext; [intros i _; apply Hsame | done].
  - congruence.
  - intros i e g d. rewrite (proj1 (Hsame i)). apply H6.
  - intros i n. rewrite (proj1 (proj2 (Hsame i))). apply H7.
  - intros i n. rewrite (proj2 (proj2 (Hsame i))). apply H8.
Qed.

(** The control of the machine after a switch to [id]. *)
Definition pushed_fibers (k k' : koishi) (from id : Z) : Prop :=
  co_current k' = id /\
  fibers k' !! id = Some (mk_co from KOISHI_RUNNING) /\
  (exists c, caller <$> fibers k !! from = Some c /\ fibers k' !! from = Some (mk_co c KOISHI_SUSPENDED)) /\
  forall j, j <> id -> j <> from -> fibers k' !! j = fibers k !! j.

Lemma resume_begin_ok o pts a id k :
  wf a -> links_rep o a -> control_rep (co_ o) pts a -> resumable a id -> id ∉ deferred_ids a ->
  exists o', resume_begin o id = Ok (None, o') /\ links_rep o' (spec_push a id k) /\
    same_callbacks o o' /\ pushed_fibers (co_ o) (co_ o') (running_id a) id.
Proof.
  intros Hw Hl Hc Hres Hnd. pose proof (resumable_not_running _ _ Hw Hres) as (Hne & Hch & Hid0 & Hnf).
  assert (1 <= id <= count a) as Hid by (apply (wf_ids _ Hw); destruct Hres as [? | [? _]]; auto).
  destruct (links_rt _ _ _ Hl Hid) as [r Hr]. pose proof (lk_body _ _ Hl _ _ _ _ (body_rt _ _ _ Hr)) as (_ & Hf & _).
  unfold resume_begin. rewrite (lk_current _ _ Hl), (proj2 (Z.eqb_neq _ _) Hne), (lk_count _ _ Hl).
  rewrite (proj2 (Z.leb_le _ _)), (proj2 (Z.eqb_neq _ _) Hid0), (proj2 (Z.ltb_ge _ _)) by lia.
  cbn [assertrx negb mbind result_bind]. rewrite Hr. cbn [mbind result_bind].
  destruct (finalized_ r) eqn:Ef; [naive_solver |].
  assert (nd_linked (call_stack (links r)) = false) as ->.
  { destruct (nd_linked _) eqn:E; [| done]. apply (lr_linked _ _ _ (lk_call_stack _ _ Hl) _ _ (lens_cell_rt call_stack _ _ _ Hr)) in E.
    rewrite elem_of_reverse in E. destruct (chain a).*1; [by apply not_elem_of_nil in E | set_solver]. }
  cbn [negb assertrx mbind result_bind].
  destruct (start_fiber_ok o pts a id r) as (o1 & E1 & Hl1 & Hcb1 & (Hco1 & Hfid & Hfo)); [done.. |]. rewrite E1. cbn [mbind result_bind].
  set (a1 := spec_start a id) in Hl1.
  assert (wf a1) as Hw1 by by apply wf_start.
  destruct (push_to_call_stack_ok o1 a1 Hw1 Hl1) as (rs & l & E2 & Hrep & Hsame).
  change (running_id a1) with (running_id a) in E2. rewrite (lk_current _ _ Hl1). change (running_id a1) with (running_id a). rewrite E2.
  cbn [mbind result_bind set_current set_call_stack co_].
  destruct (cr_states _ _ _ Hc (running_id a) (running_started a Hw)) as [c Hcur]. rewrite decide_True in Hcur by done.
  destruct Hfid as [fid Hfid]. pose proof (cr_current _ _ _ Hc) as Hcc.
  destruct (koishi_resume_ok (co_ o1) id (mk_co c KOISHI_RUNNING) fid) as (k' & -> & Hk & Hkf).
  { rewrite Hco1, Hcc, Hfo; done. }
  { done. }
  { by rewrite Hco1, Hcc. }
  cbn [mbind result_bind]. eexists. split; [reflexivity |]. rewrite Hco1, Hcc in Hkf. split; [| split; [exact Hcb1 |]].
  - pose proof (links_push_call_stack o1 a1 rs l _ ((id, k) :: chain a) None Hl1 Hrep Hsame eq_refl) as [? ? ? ? ? ? ? ?]. by split.
  - split_and!; [exact Hk | by rewrite Hkf, decide_True by done | |].
    + exists c. rewrite Hcur. split; [done |]. by rewrite Hkf, decide_False, decide_True by done.
    + intros j Hj1 Hj2. rewrite Hkf, !decide_False by done. by apply Hfo.
Qed.

Lemma frames_callers pts fs ch x : frames pts fs ch -> x ∈ ch.*1 -> exists c, caller <$> fs !! x = Some c.
Proof.
  induction ch as [| [y k] ch IH]; [by intros _ ?%not_elem_of_nil |]. intros (_ & _ & Hy & Hch) [-> | Hx]%elem_of_cons; [by eexists | by apply IH].
Qed.

Lemma control_push k k' pts a id kt :
  wf a -> control_rep k pts a -> resumable a id -> (kt = KEntry -> chain a <> []) ->
  pushed_fibers k k' (running_id a) id ->
  control_rep k' (<[id := AtUser]> (<[running_id a := InResume id kt]> pts)) (spec_push a id kt).
Proof.
  intros Hw [H1 H2 H3 H4 H5 H6] Hres Hkt (Hk & Hid & (c & Hc & Hcur) & Ho).
  pose proof (resumable_not_running _ _ Hw Hres) as (Hne & Hch & Hid0 & Hnf).
  split; cbn [chain flushing started].
  - done.
  - cbn [frames spec_push chain]. split_and!; [by simplify_map_eq | done | by rewrite Hid |].
    eapply frames_ext; [| | exact H2].
    + intros y Hy Hne'. rewrite !lookup_insert_ne; [done | |].
      * intros <-. apply elem_of_app in Hy as [Hy | Hy%list_elem_of_singleton]; [| by apply (wf_nonzero a (running_id a) Hw), Hy; apply (wf_started _ Hw), running_in_chain].
        unfold running_id in Hy. pose proof (wf_chain _ Hw) as Hn. destruct (chain a).*1; [by apply not_elem_of_nil in Hy |]. by apply NoDup_cons in Hn as [? _].
      * intros <-. apply elem_of_app in Hy as [Hy | Hy%list_elem_of_singleton]; [| done]. apply Hch. destruct (chain a).*1; [done | by right].
    + intros x Hx. destruct (decide (x = running_id a)) as [-> | Hx']; [by rewrite Hcur, Hc |].
      rewrite Ho; [done | by intros -> | done].
  - by simplify_map_eq.
  - intros i [Hi Hni]. cbn in Hi, Hni. apply not_elem_of_cons in Hni as [Hi1 Hi2]. apply elem_of_union in Hi as [Hi%elem_of_singleton | Hi]; [done |].
    assert (i <> running_id a) as Hi3.
    { intros ->. destruct (decide (chain a = [])) as [E | E]; [| by apply Hi2, running_in_chain].
      apply (wf_nonzero _ _ Hw Hi). unfold running_id. by rewrite E. }
    rewrite !lookup_insert_ne by done. apply H4. by split.
  - intros i Hi0 Hi. cbn. apply elem_of_union. destruct (decide (i = id)) as [-> | Hi']; [left; by apply elem_of_singleton | right].
    rewrite lookup_insert_ne in Hi by done. destruct (decide (i = running_id a)) as [-> |].
    + by destruct (running_started a Hw).
    + rewrite lookup_insert_ne in Hi by done. by apply H5.
  - intros i Hi. change (running_id (spec_push a id kt)) with id. case_decide as E; [subst i; by eexists |].
    destruct (decide (i = running_id a)) as [-> | Hi']; [by eexists |]. rewrite Ho by done.
    destruct (H6 i) as [c' Hc']; [cbn in Hi; set_solver |]. rewrite decide_False in Hc' by done. by eexists.
Qed.

Lemma called_same o o' l :
  same_callbacks o o' -> called_ o = mjoin (callbacks_of o <$> l) -> called_ o' = mjoin (callbacks_of o' <$> l).
Proof. intros (E1 & E2 & E3) H. rewrite E3, H. unfold callbacks_of. by rewrite E1, E2. Qed.

Lemma do_resume_ok m a id k :
  rep m a -> resumable a id -> id ∉ deferred_ids a -> (k = KEntry -> chain a <> []) ->
  exists m', do_resume m id k = Ok m' /\ rep m' (spec_push a id k) /\ same_callbacks (ord m) (ord m').
Proof.
  intros [Hw Hl Hc Hcl] Hres Hnd Hk. unfold do_resume.
  destruct (resume_begin_ok _ _ a id k Hw Hl Hc Hres Hnd) as (o' & -> & Hl' & Hcb & Hpf). cbn [mbind result_bind].
  pose proof (control_push _ _ _ _ _ k Hw Hc Hres Hk Hpf) as Hc'.
  pose proof (resumable_not_running _ _ Hw Hres) as (Hne & _ & Hid0 & _). destruct Hpf as (Hk' & Hid & _).
  assert (running m = running_id a) as Hrun by apply (cr_current _ _ _ Hc).
  assert (arrive (set_ord (set_point m (InResume id k)) o') = Ok (mk_machine o' (<[id := AtUser]> (<[running_id a := InResume id k]> (points m))))) as ->.
  { unfold arrive, set_point, set_ord, running at 1 2. cbn [ord points]. fold (running m). rewrite Hk', Hrun, lookup_insert_ne by done.
    destruct Hres as [Hf | Hwt].
    - destruct (points m !! id) eqn:E; [| unfold running; cbn; by rewrite ?Hk'].
      exfalso. apply (proj1 (wf_fresh _ Hw _ Hf)), (cr_points _ _ _ Hc); [done | by rewrite E].
    - rewrite (cr_waits _ _ _ Hc _ Hwt). unfold suspend_end, is_dead, fiber, running. rewrite Hk', Hid. cbn. rewrite bool_decide_false by done. cbn. by rewrite ?Hk'. }
  eexists. split; [reflexivity |]. split; [| exact Hcb]. split; [by apply wf_push | exact Hl' | exact Hc' |].
  cbn. by eapply called_same.
Qed.

(** ** Going back to the one that resumed *)

Definition returned_fibers (k k' : koishi) (x y : Z) (st : koishi_state) : Prop :=
  co_current k' = y /\
  fibers k' !! x = Some (mk_co y st) /\
  (exists c, caller <$> fibers k !! y = Some c /\ fibers k' !! y = Some (mk_co c KOISHI_RUNNING)) /\
  forall j, j <> x -> j <> y -> fibers k' !! j = fibers k !! j.

(** The one below in the chain is another one, and waits for the return of [resume]. *)
Lemma below_facts k pts a x kt rest :
  wf a -> control_rep k pts a -> chain a = (x, kt) :: rest ->
  running_id a = x /\ x ∈ started a /\ x ∉ rest.*1 /\ x <> hd_or 0 rest.*1 /\ (kt = KEntry -> rest <> []) /\
  pts !! hd_or 0 rest.*1 = Some (InResume x kt) /\ (hd_or 0 rest.*1 = 0 \/ hd_or 0 rest.*1 ∈ started a).
Proof.
  intros Hw Hc E. pose proof (wf_started _ Hw) as Hs. pose proof (wf_chain _ Hw) as Hn. pose proof (cr_frames _ _ _ Hc) as Hf.
  unfold running_id. rewrite E in *. change (((x, kt) :: rest).*1) with (x :: rest.*1) in *. destruct Hf as (Hy & Hk & _).
  apply NoDup_cons in Hn as [Hx _]. assert (x ∈ started a) as Hxs by (apply Hs; left).
  split_and!; [done | done | done | | done | done |].
  - destruct rest as [| [y ky] rest]; [by apply (wf_nonzero a x Hw) |]. change (((y, ky) :: rest).*1) with (y :: rest.*1) in *.
    intros ->. apply Hx. left.
  - destruct rest as [| [y ky] rest]; [by left | right]. apply Hs. right. left.
Qed.

Lemma koishi_back_ok k pts a x kt rest st :
  wf a -> control_rep k pts a -> chain a = (x, kt) :: rest ->
  exists k', koishi_return_to_caller k (co_current k) st = Ok k' /\ returned_fibers k k' x (hd_or 0 rest.*1) st.
Proof.
  intros Hw Hc E. destruct (below_facts _ _ _ _ _ _ Hw Hc E) as (Hr & Hxs & _ & Hne & _ & _ & Hy).
  pose proof (cr_current _ _ _ Hc) as Hcur. pose proof (cr_frames _ _ _ Hc) as Hf. rewrite E in Hf. destruct Hf as (_ & _ & Hcaller & _).
  destruct (cr_states _ _ _ Hc x) as [c Hx]; [auto |]. destruct (cr_states _ _ _ Hc (hd_or 0 rest.*1) Hy) as [cy Hyf].
  rewrite Hr, decide_False in Hyf by done. rewrite Hx in Hcaller. cbn in Hcaller. injection Hcaller as ->.
  rewrite Hcur, Hr. destruct (koishi_return_ok k x st _ _ _ Hx Hyf) as (k' & -> & Hk & Hkf); [done | done |]. exists k'.
  split; [done |]. split_and!; [done | by rewrite Hkf, decide_False, decide_True by done | |].
  - exists cy. rewrite Hyf. split; [done |]. by rewrite Hkf, decide_True by done.
  - intros j Hj1 Hj2. by rewrite Hkf, !decide_False by done.
Qed.

Lemma wf_back a x kt rest :
  wf a -> chain a = (x, kt) :: rest -> (kt = KEntry -> rest <> []) -> wf (spec_back a).
Proof.
  intros [H1 H2 H3 H4 H5 H6 H7 _] E Hk. unfold spec_back. rewrite E in *.
  change (((x, kt) :: rest).*1) with (x :: rest.*1) in *. apply NoDup_cons in H1 as [_ H1].
  split; cbn [chain flushing started fresh free count deferred_ids]; try done.
  - intros i Hi. apply H2. by right.
  - intros i Hi. destruct (H3 i Hi) as [Hs Hn]. split; [done |]. rewrite E in Hn. intros Hi'. apply Hn. by right.
  - destruct kt; cbn; auto.
Qed.

(** The chain without its top: frames of the others. *)
Lemma frames_back k k' pts a x kt rest st p :
  wf a -> control_rep k pts a -> chain a = (x, kt) :: rest -> returned_fibers k k' x (hd_or 0 rest.*1) st ->
  frames (<[hd_or 0 rest.*1 := after_resume kt]> (partial_alter (fun _ => p) x pts)) (fibers k') rest.
Proof.
  intros Hw Hc E (Hk & Hx & (c & Hc1 & Hc2) & Ho). destruct (below_facts _ _ _ _ _ _ Hw Hc E) as (Hr & Hxs & Hxr & Hne & _ & _ & Hy).
  pose proof (cr_frames _ _ _ Hc) as Hf. pose proof (wf_chain _ Hw) as Hn. rewrite E in Hf, Hn. destruct Hf as (_ & _ & _ & Hf).
  change (((x, kt) :: rest).*1) with (x :: rest.*1) in *. apply NoDup_cons in Hn as [_ Hn].
  eapply frames_ext; [| | exact Hf].
  - intros z Hz Hne'. rewrite lookup_insert_ne, lookup_partial_alter_ne; [done | |].
    + intros <-. apply elem_of_app in Hz as [Hz | Hz%list_elem_of_singleton].
      * apply Hxr. destruct rest.*1; [done | by right].
      * by apply (wf_nonzero _ _ Hw Hxs).
    + intros <-. destruct rest as [| [y ky] rest]; [done |]. change (((y, ky) :: rest).*1) with (y :: rest.*1) in *.
      change (hd_or 0 (y :: rest.*1)) with y in *. cbn [tail] in Hz. apply NoDup_cons in Hn as [Hn _].
      apply elem_of_app in Hz as [Hz | Hz%list_elem_of_singleton]; [done |].
      apply (wf_nonzero a y Hw); [| done]. apply (wf_started _ Hw). rewrite E. cbn. right. left.
  - intros z Hz. destruct (decide (z = hd_or 0 rest.*1)) as [-> |]; [by rewrite Hc1, Hc2 |]. rewrite Ho; [done | by intros -> | done].
Qed.

Lemma control_back k k' pts a x kt rest :
  wf a -> control_rep k pts a -> chain a = (x, kt) :: rest -> returned_fibers k k' x (hd_or 0 rest.*1) KOISHI_SUSPENDED ->
  control_rep k' (<[hd_or 0 rest.*1 := after_resume kt]> (<[x := InSuspend]> pts)) (spec_back a).
Proof.
  intros Hw Hc E Hrf. pose proof (frames_back _ _ _ _ _ _ _ _ (Some InSuspend) Hw Hc E Hrf) as Hfr.
  destruct (below_facts _ _ _ _ _ _ Hw Hc E) as (Hr & Hxs & Hxr & Hne & _ & _ & Hy). destruct Hrf as (Hk & Hx & (c & Hc1 & Hc2) & Ho).
  pose proof (wf_nonzero _ _ Hw Hxs) as Hx0. unfold spec_back. rewrite E. split; cbn [chain flushing started]; change (running_id (mk_sched rest _ _ _ _ _ _ _)) with (hd_or 0 rest.*1).
  - done.
  - exact Hfr.
  - rewrite lookup_insert_eq. by destruct kt.
  - intros i [Hi Hni]. cbn in Hi, Hni. rewrite lookup_insert_ne.
    + destruct (decide (i = x)) as [-> |]; [by rewrite lookup_insert_eq |]. rewrite lookup_insert_ne by done.
      apply (cr_waits _ _ _ Hc). split; [done |]. rewrite E. by apply not_elem_of_cons.
    + intros <-. destruct rest as [| [y ky] rest]; [by apply (wf_nonzero _ _ Hw Hi) |]. apply Hni. left.
  - intros i Hi0 Hi. destruct (decide (i = hd_or 0 rest.*1)) as [-> |]; [by destruct Hy |]. rewrite lookup_insert_ne in Hi by done.
    destruct (decide (i = x)) as [-> |]; [done |]. rewrite lookup_insert_ne in Hi by done. by apply (cr_points _ _ _ Hc).
  - intros i Hi. case_decide as Ei; [subst i; by exists c |]. destruct (decide (i = x)) as [-> | Hix]; [by eexists |].
    rewrite Ho by done. destruct (cr_states _ _ _ Hc i Hi) as [c' Hc']. rewrite Hr, decide_False in Hc' by done. by exists c'.
Qed.

(** The control after the end of a coroutine. *)
Lemma control_end k k' pts a x kt rest :
  wf a -> control_rep k pts a -> chain a = (x, kt) :: rest -> returned_fibers k k' x (hd_or 0 rest.*1) KOISHI_DEAD ->
  control_rep k' (<[hd_or 0 rest.*1 := after_resume kt]> (delete x pts)) (spec_end a).
Proof.
  intros Hw Hc E Hrf. pose proof (frames_back _ _ _ _ _ _ _ _ None Hw Hc E Hrf) as Hfr.
  destruct (below_facts _ _ _ _ _ _ Hw Hc E) as (Hr & Hxs & Hxr & Hne & _ & _ & Hy). destruct Hrf as (Hk & Hx & (c & Hc1 & Hc2) & Ho).
  pose proof (wf_nonzero _ _ Hw Hxs) as Hx0. unfold spec_end, spec_back. rewrite Hr, E.
  split; cbn [chain flushing started free fresh count deferred_ids finished]; change (running_id (mk_sched rest _ _ _ _ _ _ _)) with (hd_or 0 rest.*1).
  - done.
  - exact Hfr.
  - rewrite lookup_insert_eq. by destruct kt.
  - intros i [Hi Hni]. cbn in Hi, Hni. apply elem_of_difference in Hi as [Hi Hix%not_elem_of_singleton]. rewrite lookup_insert_ne.
    + rewrite lookup_delete_ne by done. apply (cr_waits _ _ _ Hc). split; [done |]. rewrite E. by apply not_elem_of_cons.
    + intros <-. destruct rest as [| [y ky] rest]; [by apply (wf_nonzero _ _ Hw Hi) |]. apply Hni. left.
  - intros i Hi0 Hi. apply elem_of_difference. destruct (decide (i = x)) as [-> | Hix].
    { rewrite lookup_insert_ne, lookup_delete_eq in Hi by done. by destruct Hi. }
    split; [| by apply not_elem_of_singleton]. destruct (decide (i = hd_or 0 rest.*1)) as [-> |]; [by destruct Hy |].
    rewrite lookup_insert_ne, lookup_delete_ne in Hi by done. by apply (cr_points _ _ _ Hc).
  - intros i Hi. assert (i = 0 \/ i ∈ started a) as Hi' by (destruct Hi as [? | Hi%elem_of_difference]; naive_solver).
    assert (i <> x) as Hix by (destruct Hi as [-> | Hi%elem_of_difference]; [congruence | set_solver]).
    case_decide as Ei; [subst i; by exists c |]. rewrite Ho by done.
    destruct (cr_states _ _ _ Hc i Hi') as [c' Hc']. rewrite Hr, decide_False in Hc' by done. by exists c'.
Qed.

Lemma suspend_begin_ok o pts a x kt rest :
  wf a -> links_rep o a -> control_rep (co_ o) pts a -> chain a = (x, kt) :: rest ->
  exists o', suspend_begin o = Ok o' /\ links_rep o' (spec_back a) /\ same_callbacks o o' /\
    returned_fibers (co_ o) (co_ o') x (hd_or 0 rest.*1) KOISHI_SUSPENDED.
Proof.
  intros Hw Hl Hc E. destruct (below_facts _ _ _ _ _ _ Hw Hc E) as (Hr & Hxs & _). unfold suspend_begin.
  rewrite (lk_current _ _ Hl), Hr, (proj2 (Z.eqb_neq _ _) (wf_nonzero _ _ Hw Hxs)). cbn [negb assertrx mbind result_bind].
  pose proof (lk_call_stack _ _ Hl) as Hs. rewrite E in Hs. cbn [fmap list_fmap tail] in Hs.
  destruct (pop_from_call_stack_ok o _ Hs) as (rs & l & -> & Hrep & Hsame). cbn [mbind result_bind set_current set_call_stack co_].
  destruct (koishi_back_ok _ _ _ _ _ _ KOISHI_SUSPENDED Hw Hc E) as (k' & Hk & Hrf). unfold koishi_yield. rewrite Hk.
  cbn [mbind result_bind]. eexists. split; [reflexivity |]. split; [| split; [done | exact Hrf]].
  unfold spec_back. rewrite E. pose proof (links_push_call_stack o a rs l _ rest (returned_to kt) Hl Hrep Hsame eq_refl) as [? ? ? ? ? ? ? ?].
  by split.
Qed.

Lemma do_suspend_ok m a :
  rep m a -> chain a <> [] ->
  exists m', do_op m OpSuspend = Ok m' /\ rep m' (spec_back a) /\ same_callbacks (ord m) (ord m').
Proof.
  intros [Hw Hl Hc Hcl] Hne. destruct (chain a) as [| [x kt] rest] eqn:E; [done |].
  destruct (below_facts _ _ _ _ _ _ Hw Hc E) as (Hr & Hxs & Hxr & Hne' & Hkt & Hp & Hy).
  destruct (suspend_begin_ok _ _ _ _ _ _ Hw Hl Hc E) as (o' & Eo & Hl' & Hcb & Hrf). cbn [do_op]. rewrite Eo. cbn [mbind result_bind].
  pose proof (control_back _ _ _ _ _ _ _ Hw Hc E Hrf) as Hc'. destruct Hrf as (Hk & Hx & _).
  assert (running m = x) as Hrun by (rewrite <- Hr; apply (cr_current _ _ _ Hc)).
  assert (arrive (set_ord (set_point m InSuspend) o') = Ok (mk_machine o' (<[hd_or 0 rest.*1 := after_resume kt]> (<[x := InSuspend]> (points m))))) as ->.
  { unfold arrive, set_point, set_ord, running at 1 2. cbn [ord points]. fold (running m). rewrite Hk, Hrun, lookup_insert_ne, Hp by done.
    unfold resume_end, is_dead, fiber, running. destruct (links_rt _ _ x Hl') as [r ->].
    { unfold spec_back. rewrite E. cbn. apply (wf_ids _ Hw). auto. }
    cbn [mbind result_bind]. rewrite Hx. cbn. rewrite bool_decide_false by done. cbn. by rewrite Hk. }
  eexists. split; [reflexivity |]. split; [| exact Hcb]. split; [by eapply wf_back | exact Hl' | exact Hc' |].
  cbn. unfold spec_back. rewrite E. by eapply called_same.
Qed.

(** ** The end of a coroutine *)

Lemma wf_end a x kt rest :
  wf a -> chain a = (x, kt) :: rest -> (kt = KEntry -> rest <> []) -> deferred_ids a = [] -> wf (spec_end a).
Proof.
  intros Hw E Hk Hd. assert (running_id a = x) as Hr by (unfold running_id; by rewrite E).
  assert (x ∈ started a) as Hxs by (apply (wf_started _ Hw); rewrite E; left).
  assert (x ∉ rest.*1) as Hx by (pose proof (wf_chain _ Hw) as Hn; rewrite E in Hn; by apply NoDup_cons in Hn as [? _]).
  destruct (wf_back a x kt rest Hw E Hk) as [H1 H2 H3 H4 H5 H6 H7 H8]. unfold spec_end. rewrite Hr.
  unfold spec_back in *. rewrite E in *. split; cbn [chain flushing started fresh free count deferred_ids] in *; try done.
  - intros i Hi. apply elem_of_difference. split; [by apply H2 |]. intros ->%elem_of_singleton. done.
  - rewrite Hd. by intros i ?%not_elem_of_nil.
  - intros i. rewrite <- H4, elem_of_difference, elem_of_cons, elem_of_singleton.
    destruct (decide (i = x)) as [-> |]; naive_solver.
  - intros i Hi. destruct (H5 i Hi) as [Hs Hf]. rewrite elem_of_difference, elem_of_cons. split; [naive_solver |].
    intros [-> | ?]; done.
  - intros i Hi. rewrite elem_of_difference, elem_of_singleton. apply elem_of_cons in Hi as [-> | Hi]; [naive_solver |].
    intros [Hs _]. by apply (H6 i Hi).
Qed.

(** A slot that goes to the free ones. *)
Definition spec_release (a : sched) (x : Z) : sched :=
  mk_sched (chain a) (flushing a) (fresh a ∖ {[ x ]}) (started a ∖ {[ x ]}) (x :: free a) (count a) (deferred_ids a) (finished a).

Lemma release_ok o a x r :
  links_rep o a -> rt (routines_ o) x = Ok r -> x <> 0 -> x ∉ free a -> x ∉ deferred_ids a -> x ∉ tail (chain a).*1 ->
  exists r' rs r2, finalize r = Ok r' /\
    stack_push (H := free_cells) (finalized_indexes_ o) (set_rt (routines_ o) x r') x = Ok (rs, mk_stack x) /\
    rt rs x = Ok r2 /\ is_empty_ r2 = is_empty_ r /\ finalized_ r2 = true /\
    links_rep (set_finalized o (set_rt rs x (clear_routine r2)) (mk_stack x)) (spec_release a x).
Proof.
  intros [H1 H2 H3 H4 H5 H6 H7 H8] Hr Hx0 Hnf Hnd Hnc.
  pose proof (H6 _ _ _ _ (body_rt _ _ _ Hr)) as (He & Hf & Hd). unfold finalize.
  destruct (finalized_ r) eqn:Ef; [naive_solver |]. destruct (deferred (links r)) eqn:Ed; [naive_solver |].
  assert (nd_linked (call_stack (links r)) = false) as ->.
  { destruct (nd_linked _) eqn:El; [| done]. apply (lr_linked _ _ _ H2 _ _ (lens_cell_rt call_stack _ _ _ Hr)) in El.
    by rewrite elem_of_reverse in El. }
  cbn [negb assertrx mbind result_bind]. set (r' := mk_routine _ _ _ _). set (rs1 := set_rt (routines_ o) x r').
  assert (rt rs1 x = Ok r') as Hr1 by (unfold rs1; by rewrite (rt_set _ _ _ _ _ Hr), decide_True by done).
  assert (stack_rep (H := free_cells) rs1 (finalized_indexes_ o) (free a)) as Hs1.
  { eapply stack_rep_ext; [| exact H3]. intros i _. by apply (lens_set_same _ _ _ _ Hr). }
  destruct (stack_push_spec (H := free_cells) rs1 _ _ x Hs1) as (rs & E & Hsame & Hrep & Hcell); [| done | done |].
  { rewrite (lens_cell_rt free_next _ _ _ Hr1 : free_cell rs1 x = _). f_equal. by apply (H7 x), Hnf; apply (lens_cell_rt free_next _ _ _ Hr). }
  apply same_free in Hsame as [Hlen Hsame]. destruct (znth_lt rs (x - 1)) as [r2 Hr2%rt_ok].
  { rewrite <- Hlen. unfold rs1. rewrite zlen_set_rt. apply rt_ok, znth_Some in Hr. done. }
  pose proof (proj1 (Hsame x)) as Hb. rewrite (body_rt _ _ _ Hr2), (body_rt _ _ _ Hr1) in Hb. injection Hb as Hb1 Hb2 Hb3.
  exists r', rs, r2. do 2 (split; [done |]). do 3 (split; [done |]).
  assert (forall j, body (set_rt rs x (clear_routine r2)) j = if decide (j = x) then Ok (true, true, false) else body (routines_ o) j) as Hbody.
  { intros j. rewrite (body_set _ _ _ _ Hr2). case_decide; [cbn; congruence |]. rewrite (proj1 (Hsame j)). unfold rs1.
    by rewrite (body_set _ _ _ _ Hr), decide_False by done. }
  assert (forall j, cs_cell (set_rt rs x (clear_routine r2)) j = cs_cell (routines_ o) j) as Hcs.
  { intros j. transitivity (cs_cell rs j); [by apply (lens_set_same _ _ _ _ Hr2) |]. rewrite (proj2 (proj2 (Hsame j))).
    by apply (lens_set_same _ _ _ _ Hr). }
  assert (forall j, def_cell (set_rt rs x (clear_routine r2)) j = def_cell (routines_ o) j) as Hdc.
  { intros j. transitivity (def_cell rs j); [by apply (lens_set_same _ _ _ _ Hr2) |]. rewrite (proj1 (proj2 (Hsame j))).
    by apply (lens_set_same _ _ _ _ Hr). }
  assert (forall j, free_cell (set_rt rs x (clear_routine r2)) j = free_cell rs j) as Hfc.
  { intros j. by apply (lens_set_same _ _ _ _ Hr2). }
  split; cbn [current_ routines_ rt_call_stack_ finalized_indexes_ deferred_resumes_ set_finalized chain started free count deferred_ids spec_release].
  - done.
  - eapply list_rep_ext; [intros i _; apply Hcs | | exact H2]. intros i n. rewrite Hcs.
    intros Hi Hni. destruct (nd_linked n) eqn:El; [| done]. by apply (lr_linked _ _ _ H2 _ _ Hi) in El.
  - eapply stack_rep_ext; [intros i _; apply Hfc | exact Hrep].
  - eapply stack_rep_ext; [intros i _; apply Hdc | exact H4].
  - rewrite zlen_set_rt, <- Hlen. unfold rs1. by rewrite zlen_set_rt.
  - intros i e f d. rewrite Hbody, elem_of_difference, elem_of_cons, not_elem_of_singleton. case_decide as Ei.
    + subst i. intros [= <- <- <-]. naive_solver.
    + intros Hi%H6. naive_solver.
  - intros i n. rewrite Hfc, Hcell. intros Hi [Hix Hni]%not_elem_of_cons. rewrite decide_False in Hi by done.
    apply (H7 i); [| done]. rewrite <- Hi. symmetry. by apply (lens_set_same _ _ _ _ Hr).
  - intros i n. rewrite Hdc. apply H8.
Qed.

(** The end of [entry] and what the one that resumed does then: the slot is cleared. *)
Lemma entry_end_ok o pts a x kt rest :
  wf a -> links_rep o a -> control_rep (co_ o) pts a -> chain a = (x, kt) :: rest -> deferred_ids a = [] ->
  exists o1 o', entry_end o x = Ok o1 /\ resume_end o1 x = Ok o' /\ links_rep o' (spec_end a) /\
    loop_completion_callback_ o' = loop_completion_callback_ o /\ completion_callbacks_ o' = completion_callbacks_ o /\
    called_ o' = called_ o ++ callbacks_of o x /\ co_ o1 = co_ o' /\
    returned_fibers (co_ o) (co_ o') x (hd_or 0 rest.*1) KOISHI_DEAD.
Proof.
  intros Hw Hl Hc E Hd. destruct (below_facts _ _ _ _ _ _ Hw Hc E) as (Hr & Hxs & Hxr & Hne' & Hkt & Hp & Hy).
  assert (1 <= x <= count a) as Hid by (apply (wf_ids _ Hw); auto). pose proof (wf_nonzero _ _ Hw Hxs) as Hx0.
  assert (x ∉ free a) as Hxf by (intros Hx; by apply (wf_free _ Hw _ Hx)).
  destruct (links_rt _ _ _ Hl Hid) as [r Hrt]. pose proof (lk_call_stack _ _ Hl) as Hs. rewrite E in Hs. cbn [fmap list_fmap tail] in Hs.
  unfold entry_end. rewrite Hrt. cbn [mbind result_bind]. unfold remove_from_call_stack.
  rewrite (erase_unlinked _ _ _ _ _ Hs (lens_cell_rt call_stack _ _ _ Hrt)) by (by rewrite elem_of_reverse). cbn [mbind result_bind].
  replace (set_call_stack o (routines_ o) (rt_call_stack_ o)) with o by (by destruct o).
  destruct (pop_from_call_stack_ok o _ Hs) as (rs & l & -> & Hrep & Hsame). cbn [mbind result_bind].
  pose proof (links_push_call_stack o a rs l _ rest (returned_to kt) Hl Hrep Hsame eq_refl) as Hl1.
  set (o1 := set_current _ _) in *. set (a1 := mk_sched _ _ _ _ _ _ _ _) in Hl1.
  destruct (links_rt _ _ _ Hl1 Hid) as [r1 Hrt1]. rewrite Hrt1. cbn [mbind result_bind].
  destruct (release_ok o1 a1 x r1) as (r' & rs2 & r2 & -> & E2 & Hr2 & _ & Hf2 & Hl2); [done | done | done | done | | |].
  { cbn. rewrite Hd. apply not_elem_of_nil. }
  { cbn. intros Hx. apply Hxr. by destruct rest.*1; [| right]. }
  cbn [mbind result_bind]. rewrite E2. cbn [mbind result_bind].
  destruct (koishi_back_ok _ _ _ _ _ _ KOISHI_DEAD Hw Hc E) as (k' & Hk & Hrf). unfold koishi_die.
  change (co_ (set_finalized o1 rs2 (mk_stack x))) with (co_ o). rewrite Hk. cbn [mbind result_bind].
  eexists _, _. split; [reflexivity |]. unfold resume_end, is_dead, fiber, clear_finalized.
  cbn [routines_ set_co set_finalized co_ finalized_indexes_ stack_empty st_head]. destruct Hrf as (Hrf1 & Hrf2 & Hrf3).
  rewrite Hr2, Hrf2. cbn [mbind result_bind of_option state]. rewrite bool_decide_true by done.
  unfold stack_empty. cbn [st_head]. rewrite (proj2 (Z.eqb_neq _ _) Hx0). cbn [negb assertrx mbind result_bind]. rewrite ?Hr2.
  cbn [mbind result_bind]. rewrite Hf2. cbn [assertrx mbind result_bind]. split; [reflexivity |].
  split; [| done]. unfold spec_end, spec_back. rewrite Hr, E. cbn [chain flushing fresh started free count deferred_ids finished].
  destruct Hl2 as [? ? ? ? ? ? ? ?]. by split.
Qed.

Lemma callbacks_of_same o o' id :
  loop_completion_callback_ o' = loop_completion_callback_ o -> completion_callbacks_ o' = completion_callbacks_ o ->
  callbacks_of o' id = callbacks_of o id.
Proof. unfold callbacks_of. by intros -> ->. Qed.

Definition kept_callbacks (m m' : machine) : Prop :=
  loop_completion_callback_ (ord m') = loop_completion_callback_ (ord m) /\
  completion_callbacks_ (ord m') = completion_callbacks_ (ord m).

Lemma same_kept m m' : same_callbacks (ord m) (ord m') -> kept_callbacks m m'.
Proof. by intros (? & ? & _). Qed.

(** Taking the next deferred coroutine off the list. *)
Definition spec_undefer (a : sched) : sched :=
  mk_sched (chain a) (flushing a) (fresh a) (started a) (free a) (count a) (tail (deferred_ids a)) (finished a).

Lemma wf_undefer a : wf a -> wf (spec_undefer a).
Proof.
  intros [H1 H2 H3 H4 H5 H6 H7 H8]. split; try done. intros i Hi. apply H3. cbn in Hi.
  destruct (deferred_ids a); [done | by right].
Qed.

Lemma flush_next_ok o a id rest :
  links_rep o a -> deferred_ids a = id :: rest ->
  exists o', flush_next o = Ok (Some id, o') /\ links_rep o' (spec_undefer a) /\ same_callbacks o o' /\ co_ o' = co_ o.
Proof.
  intros Hl E. pose proof Hl as [H1 H2 H3 H4 H5 H6 H7 H8]. unfold flush_next.
  rewrite (stack_empty_spec (H := deferred_cells) _ _ _ H4), E, bool_decide_false by done. rewrite E in H4.
  pose proof (sr_nodup _ _ _ H4) as [Hnid _]%NoDup_cons.
  destruct (stack_pop_spec (H := deferred_cells) _ _ _ _ H4) as (rs & -> & Hsame & Hrep & Hcell). cbn [mbind result_bind].
  apply same_deferred in Hsame as [Hlen Hsame]. destruct (stack_rep_valid deferred_cells _ _ _ id H4) as [n Hn]; [left |].
  apply lens_cell_inv in Hn as (r & Hr & _).
  assert (exists r1, rt rs id = Ok r1) as [r1 Hr1].
  { destruct (znth_lt rs (id - 1)) as [r1 Hr1%rt_ok]; [| by exists r1]. rewrite <- Hlen. by apply rt_ok, znth_Some in Hr. }
  unfold upd_links. rewrite Hr1. cbn [mbind result_bind]. eexists. split; [reflexivity |]. split; [| done].
  assert (forall j, cs_cell (set_rt rs id (set_links r1 (with_deferred false (links r1)))) j = cs_cell (routines_ o) j) as Hcs.
  { intros j. rewrite <- (proj2 (proj2 (Hsame j))). by apply (lens_set_same _ _ _ _ Hr1). }
  assert (forall j, free_cell (set_rt rs id (set_links r1 (with_deferred false (links r1)))) j = free_cell (routines_ o) j) as Hfc.
  { intros j. rewrite <- (proj1 (proj2 (Hsame j))). by apply (lens_set_same _ _ _ _ Hr1). }
  assert (forall j, def_cell (set_rt rs id (set_links r1 (with_deferred false (links r1)))) j = def_cell rs j) as Hdc.
  { intros j. by apply (lens_set_same _ _ _ _ Hr1). }
  split; cbn [current_ routines_ rt_call_stack_ finalized_indexes_ deferred_resumes_ set_deferred chain started free count deferred_ids spec_undefer].
  - done.
  - eapply list_rep_ext; [intros i _; apply Hcs | | exact H2]. intros i m. rewrite Hcs.
    intros Hi Hni. destruct (nd_linked m) eqn:El; [| done]. by apply (lr_linked _ _ _ H2 _ _ Hi) in El.
  - eapply stack_rep_ext; [intros i _; apply Hfc | exact H3].
  - rewrite E. eapply stack_rep_ext; [intros i _; apply Hdc | exact Hrep].
  - by rewrite zlen_set_rt, <- Hlen.
  - intros i e f d. rewrite (body_set _ _ _ _ Hr1). pose proof (proj1 (Hsame i)) as Hb. rewrite E. cbn [tail]. case_decide as Ei.
    + subst i. rewrite (body_rt _ _ _ Hr1) in Hb. symmetry in Hb. apply H6 in Hb. rewrite E in Hb.
      intros [= <- <- <-]. cbn. naive_solver.
    + rewrite Hb. intros Hi%H6. rewrite E, elem_of_cons in Hi. naive_solver.
  - intros i m. rewrite Hfc. apply H7.
  - intros i m. rewrite Hdc, Hcell, E. cbn [tail]. case_decide as Ei; [by intros [= <-] |].
    intros Hi Hni. apply (H8 i); [done |]. rewrite E. by apply not_elem_of_cons.
Qed.

(** Only what the running one is at changes. *)
Lemma set_head_ok m a f :
  rep m a -> match f with Some KUser => False | Some KEntry => chain a <> [] | _ => True end ->
  rep (set_point m (head_point f)) (with_flush a f).
Proof.
  intros [Hw Hl Hc Hcl] Hf. assert (running m = running_id a) as Hrun by apply (cr_current _ _ _ Hc).
  unfold set_point. rewrite Hrun. split; [destruct Hw; by split | destruct Hl; by split | | done].
  destruct Hc as [C1 C2 C3 C4 C5 C6]. split; try done; cbn [ord points].
  - eapply frames_ext; [| done | exact C2]. change (chain (with_flush a f)) with (chain a). intros y Hy Hne. rewrite lookup_insert_ne; [done |]. intros <-.
    apply elem_of_app in Hy as [Hy | Hy%list_elem_of_singleton].
    + unfold running_id in Hy. pose proof (wf_chain _ Hw) as Hn. destruct (chain a).*1; [by apply not_elem_of_nil in Hy |].
      by apply NoDup_cons in Hn as [? _].
    + by apply (wf_nonzero a (running_id a) Hw), Hy; apply (wf_started _ Hw), running_in_chain.
  - apply lookup_insert_eq.
  - intros i [Hi Hni]. rewrite lookup_insert_ne; [by apply C4 |]. intros <-.
    destruct (decide (chain a = [])) as [Ec | Ec]; [| by apply Hni, (running_in_chain a)].
    apply (wf_nonzero a _ Hw Hi). unfold running_id. by rewrite Ec.
  - intros i Hi0 Hi. destruct (decide (i = running_id a)) as [-> |]; [by destruct (running_started a Hw) |].
    rewrite lookup_insert_ne in Hi by done. by apply C5.
Qed.

Lemma flush_step_ok m a k :
  rep m a -> flushing a = Some k ->
  exists m', flush_step m k = Ok m' /\ rep m' (spec_flush a k) /\ kept_callbacks m m'.
Proof.
  intros Hrep Hfl. pose proof Hrep as [Hw Hl Hc Hcl]. unfold flush_step, spec_flush.
  destruct (deferred_ids a) as [| id rest] eqn:E.
  - unfold flush_next. rewrite (stack_empty_spec (H := deferred_cells) _ _ _ (lk_deferred _ _ Hl)), E, bool_decide_true by done.
    cbn [mbind result_bind]. assert (running m = running_id a) as Hrun by apply (cr_current _ _ _ Hc).
    pose proof (wf_flushing _ Hw) as Hf. rewrite Hfl in Hf. destruct k; [done | |].
    + eexists. split; [reflexivity |]. split; [| done]. replace (set_ord m (ord m)) with m by (by destruct m).
      by apply (set_head_ok m a None).
    + destruct (chain a) as [| [x kt] rest] eqn:Ech; [done |].
      destruct (below_facts _ _ _ _ _ _ Hw Hc Ech) as (Hr & Hxs & Hxr & Hne' & Hkt & Hp & Hy). rewrite Hrun, Hr.
      destruct (entry_end_ok _ _ _ _ _ _ Hw Hl Hc Ech E) as (o1 & o' & -> & Ho' & Hl' & Hcb1 & Hcb2 & Hcalled & Hco & Hrf).
      cbn [mbind result_bind]. pose proof (control_end _ _ _ _ _ _ _ Hw Hc Ech Hrf) as Hc'. destruct Hrf as (Hk & _).
      unfold arrive, running at 1. cbn [ord points]. rewrite Hco, Hk, lookup_delete_ne, Hp, Ho' by done.
      eexists. split; [reflexivity |]. cbn [mbind result_bind]. split; [| done]. split; [by eapply wf_end | exact Hl' | |].
      * unfold set_point. rewrite (Hk : running (set_ord (mk_machine o1 (delete x (points m))) o') = hd_or 0 rest.*1). exact Hc'.
      * cbn [set_point set_ord ord]. rewrite Hcalled, Hcl. unfold spec_end, spec_back. rewrite Ech. cbn [finished].
        rewrite fmap_app, join_app, Hr. cbn. rewrite app_nil_r. f_equal.
        { f_equal. apply list_fmap_ext. intros _ i _. symmetry. by apply callbacks_of_same. }
        symmetry. by apply callbacks_of_same.
  - destruct (flush_next_ok _ _ _ _ Hl E) as (o' & -> & Hl' & Hcb & Hco). cbn [mbind result_bind].
    assert (rep (set_ord m o') (spec_undefer a)) as Hrep'.
    { split; [by apply wf_undefer | exact Hl' | | by eapply called_same]. cbn. rewrite Hco. destruct Hc. by split. }
    assert (waits a id) as Hwt by (apply (wf_deferred _ Hw); rewrite E; left).
    destruct (do_resume_ok _ _ id k Hrep') as (m' & -> & Hm' & Hcb'); [by right | | |].
    { cbn. rewrite E. cbn. pose proof (sr_nodup _ _ _ (lk_deferred _ _ Hl)) as Hn. rewrite E in Hn. by apply NoDup_cons in Hn as [? _]. }
    { intros ->. pose proof (wf_flushing _ Hw) as Hf. by rewrite Hfl in Hf. }
    exists m'. split; [done |]. unfold spec_undefer in Hm'. rewrite E in Hm'. split; [exact Hm' |].
    destruct Hcb as (? & ? & _), Hcb' as (? & ? & _). split; cbn in *; congruence.
Qed.
