(* ===== verification/OrdinatorOps.v ===== *)
(** * OrdinatorOps: the scheduler implements the stack machine

    The operations that do not switch, and the theorem: every sequence of steps that keeps to the
    contract runs without a failed assertion, and the machine stays what the abstract scheduler
    says it is. *)

From S2P Require Import Prelude IndexList Ordinator OrdinatorSpec.

Lemma elem_of_tail (l : list Z) x : x ∈ tail l -> x ∈ l.
Proof. destruct l; [done | by right]. Qed.

Lemma zlen_snoc_rt (rs : list routine) r : zlen (rs ++ [r]) = zlen rs + 1.
Proof. unfold zlen. rewrite length_app. cbn. lia. Qed.

(** A new slot behind the others. *)
Lemma rt_snoc rs r i : rt (rs ++ [r]) i = if decide (i = zlen rs + 1) then Ok r else rt rs i.
Proof.
  unfold rt. case_decide as E.
  - subst i. by rewrite znth_app_r, Z.add_simpl_r, Z.sub_diag by lia.
  - destruct (decide (i - 1 < zlen rs)) as [Hi | Hi]; [by rewrite znth_app_l |].
    assert (znth (rs ++ [r]) (i - 1) = None) as -> by (apply znth_None; rewrite zlen_snoc_rt; lia).
    assert (znth rs (i - 1) = None) as -> by (apply znth_None; lia). done.
Qed.

Lemma lens_snoc {N} (get : intrusive_links -> N) rs r i :
  lens_cell get (rs ++ [r]) i = if decide (i = zlen rs + 1) then Ok (get (links r)) else lens_cell get rs i.
Proof. unfold lens_cell. rewrite rt_snoc. by case_decide. Qed.

Lemma in_count a i : wf a -> i ∈ fresh a \/ i ∈ started a \/ i ∈ free a -> 1 <= i <= count a.
Proof. intros Hw. apply (wf_ids _ Hw). Qed.

Lemma wf_create a : wf a -> NoDup (free a) -> count a < 2 ^ 32 - 1 -> wf (spec_create a).2.
Proof.
  intros Hw Hnd Hn. pose proof (in_count a (count a + 1) Hw) as Hlast. pose proof Hw as [H1 H2 H3 H4 H5 H6 H7 H8].
  unfold spec_create. destruct (free a) as [| id rest] eqn:Ef; cbn [snd].
  - split; cbn [chain flushing started fresh free count deferred_ids]; try done; [| | lia].
    + intros i. rewrite elem_of_union, elem_of_singleton. specialize (H4 i). split.
      * intros [[-> | Hi] | [Hi | Hi]]; [lia | | | by apply not_elem_of_nil in Hi];
          (assert (1 <= i <= count a) by (apply H4; auto); lia).
      * intros Hi. destruct (decide (i = count a + 1)); [by left; left |].
        destruct (proj2 H4) as [? | [? | ?]]; [lia | auto | auto | auto].
    + intros i. rewrite elem_of_union, elem_of_singleton. intros [-> | Hi]; [| by apply H5]. split; [| apply not_elem_of_nil].
      intros Hs. assert (1 <= count a + 1 <= count a) by (apply Hlast; auto). lia.
  - apply NoDup_cons in Hnd as [Hid _]. split; cbn [chain flushing started fresh free count deferred_ids]; try done.
    + intros i. rewrite <- H4, elem_of_union, elem_of_singleton, elem_of_cons. naive_solver.
    + intros i. rewrite elem_of_union, elem_of_singleton. intros [-> | Hi].
      * split; [apply H6; left | done].
      * destruct (H5 i Hi) as [? Hni]. rewrite elem_of_cons in Hni. naive_solver.
    + intros i Hi. apply H6. by right.
Qed.

(** A slot behind the last one. *)
Lemma create_new_ok o a sz :
  wf a -> links_rep o a -> free a = [] -> sz <> 0 -> count a < 2 ^ 32 - 1 ->
  exists o', create o sz = Ok ((spec_create a).1, o') /\ links_rep o' (spec_create a).2 /\ same_callbacks o o' /\ co_ o' = co_ o.
Proof.
  intros Hw Hl Ef Hsz Hn. destruct Hl as [H1 H2 H3 H4 H5 H6 H7 H8]. unfold create, spec_create.
  rewrite (stack_empty_spec (H := free_cells) _ _ _ H3), Ef, bool_decide_true by done. rewrite Ef in H3, H6, H7.
  unfold new_routine. rewrite (proj2 (Z.eqb_neq _ _) Hsz). cbn [negb assertrx mbind result_bind fst snd].
    rewrite zlen_snoc_rt, H5. rewrite (wrap_id 32 : forall x, _ -> u32 x = x) by (pose proof (wf_count _ Hw); lia). cbn [set_routines].
    eexists. split; [reflexivity |]. split; [| done].
    assert (count a + 1 ∉ started a /\ count a + 1 ∉ deferred_ids a) as [Hns Hnd].
    { assert (count a + 1 ∉ started a) as Hns; [| split; [done | by intros [? _]%(wf_deferred _ Hw)]].
      intros Hs. pose proof (in_count a _ Hw (or_intror (or_introl Hs))). lia. }
    split; cbn [current_ routines_ rt_call_stack_ finalized_indexes_ deferred_resumes_ set_routines chain started free count deferred_ids].
    + done.
    + eapply list_rep_ext; [| | exact H2]; intros i; unfold cell; cbn; rewrite lens_snoc.
      * intros Hi. case_decide as E; [| done]. subst i. exfalso. apply Hns. rewrite <- H5. apply (wf_started _ Hw).
        rewrite elem_of_reverse in Hi. by apply elem_of_tail.
      * intros n. case_decide as E; [by intros [= <-] |]. intros Hi Hni.
        destruct (nd_linked n) eqn:El; [| done]. by apply (lr_linked _ _ _ H2 _ _ Hi) in El.
    + eapply stack_rep_ext; [| exact H3]. intros i Hi. by apply not_elem_of_nil in Hi.
    + eapply stack_rep_ext; [| exact H4]. intros i Hi. unfold cell; cbn. rewrite lens_snoc, decide_False; [done |].
      rewrite H5. by intros ->.
    + by rewrite zlen_snoc_rt, H5.
    + intros i e f d. unfold body. rewrite rt_snoc, H5. case_decide as E; [| apply H6]. subst i.
      intros [= <- <- <-]. pose proof (not_elem_of_nil (count a + 1)). naive_solver.
    + intros i n. unfold cell; cbn. rewrite lens_snoc. case_decide; [by intros [= <-] | apply H7].
    + intros i n. unfold cell; cbn. rewrite lens_snoc. case_decide; [by intros [= <-] | apply H8].
Qed.

(** A slot that was free. *)
Lemma create_reuse_ok o a sz id rest :
  wf a -> links_rep o a -> free a = id :: rest ->
  exists o', create o sz = Ok ((spec_create a).1, o') /\ links_rep o' (spec_create a).2 /\ same_callbacks o o' /\ co_ o' = co_ o.
Proof.
  intros Hw Hl Ef. destruct Hl as [H1 H2 H3 H4 H5 H6 H7 H8]. unfold create, spec_create.
  rewrite (stack_empty_spec (H := free_cells) _ _ _ H3), Ef, bool_decide_false by done. rewrite Ef in H3, H6, H7.
  pose proof (sr_nodup _ _ _ H3) as [Hid _]%NoDup_cons.
    assert (id ∈ free a) as Hidf by (rewrite Ef; left). pose proof (wf_free _ Hw _ Hidf) as Hns.
    assert (id ∉ deferred_ids a) as Hnd by (by intros [? _]%(wf_deferred _ Hw)).
    destruct (stack_pop_spec (H := free_cells) _ _ _ _ H3) as (rs & -> & Hsame & Hrep & Hcell). cbn [mbind result_bind].
    apply same_free in Hsame as [Hlen Hsame].
    destruct (znth_lt rs (id - 1)) as [r Hr%rt_ok]; [pose proof (in_count a id Hw (or_intror (or_intror Hidf))); rewrite <- Hlen, H5; lia |].
    rewrite Hr. cbn [mbind result_bind]. pose proof (proj1 (Hsame id)) as Hb. rewrite (body_rt _ _ _ Hr) in Hb. symmetry in Hb.
    apply H6 in Hb as (He & Hf & Hd). rewrite <- Ef in Hf. unfold reuse. rewrite (proj2 Hf Hidf). cbn [assertrx mbind result_bind].
    destruct (is_empty_ r) eqn:Ee; [| naive_solver]. cbn [assertrx mbind result_bind].
    destruct (deferred (links r)) eqn:Ed; [naive_solver |]. cbn [negb assertrx mbind result_bind].
    assert (free_next (links r) = 0) as ->.
    { pose proof (Hcell id) as Hz. rewrite decide_True in Hz by done. unfold cell in Hz; cbn in Hz. unfold lens_cell in Hz. rewrite Hr in Hz. by injection Hz. }
    cbn [Z.eqb assertrx mbind result_bind].
    assert (cs_cell (routines_ o) id = Ok (call_stack (links r))) as Hcs.
    { rewrite <- (proj2 (proj2 (Hsame id))). by apply lens_cell_rt. }
    destruct (nd_linked (call_stack (links r))) eqn:El.
    { exfalso. apply (lr_linked _ _ _ H2 _ _ Hcs) in El. apply Hns, (wf_started _ Hw). rewrite elem_of_reverse in El. by apply elem_of_tail. }
    cbn [negb assertrx mbind result_bind fst snd]. eexists. split; [reflexivity |]. split; [| done].
    split; cbn [current_ routines_ rt_call_stack_ finalized_indexes_ deferred_resumes_ set_finalized chain started free count deferred_ids].
    + done.
    + eapply list_rep_ext; [| | exact H2]; intros i; unfold cell; cbn; rewrite (lens_set_rt _ _ _ _ Hr).
      * intros Hi. case_decide as E; [| apply Hsame]. subst i. exfalso. apply Hns, (wf_started _ Hw). rewrite elem_of_reverse in Hi. by apply elem_of_tail.
      * intros n. case_decide as E; [by intros [= <-] |]. intros Hi Hni. destruct (nd_linked n) eqn:El'; [| done].
        pose proof (proj2 (proj2 (Hsame i))) as Hsi. unfold cell in Hsi; cbn in Hsi. rewrite Hsi in Hi. by apply (lr_linked _ _ _ H2 _ _ Hi) in El'.
    + eapply stack_rep_ext; [| exact Hrep]. intros i Hi. unfold cell; cbn. rewrite (lens_set_rt _ _ _ _ Hr), decide_False; [done | by intros ->].
    + eapply stack_rep_ext; [| exact H4]. intros i Hi. unfold cell; cbn. rewrite (lens_set_rt _ _ _ _ Hr), decide_False by (by intros ->). apply Hsame.
    + by rewrite zlen_set_rt, <- Hlen.
    + intros i e f d. rewrite (body_set _ _ _ _ Hr). case_decide as E.
      * subst i. intros [= <- <- <-]. naive_solver.
      * rewrite (proj1 (Hsame i)). intros Hi%H6. rewrite elem_of_cons in Hi. naive_solver.
    + intros i n. unfold cell; cbn. rewrite (lens_set_rt _ _ _ _ Hr). case_decide as E; [by intros [= <-] |].
      intros Hi Hni. pose proof (Hcell i) as Hci. rewrite decide_False in Hci by done. unfold cell in Hci; cbn in Hci. rewrite Hci in Hi.
      apply (H7 i n Hi). by apply not_elem_of_cons.
    + intros i n. unfold cell; cbn. rewrite (lens_set_rt _ _ _ _ Hr). case_decide as E; [by intros [= <-] |].
      pose proof (proj1 (proj2 (Hsame i))) as Hsi. unfold cell in Hsi; cbn in Hsi. rewrite Hsi. apply H8.
Qed.

Lemma create_ok o a sz :
  wf a -> links_rep o a -> sz <> 0 -> count a < 2 ^ 32 - 1 ->
  exists o', create o sz = Ok ((spec_create a).1, o') /\ links_rep o' (spec_create a).2 /\ same_callbacks o o' /\ co_ o' = co_ o.
Proof.
  intros Hw Hl Hsz Hn. destruct (free a) as [| id rest] eqn:E; [by apply create_new_ok | by eapply create_reuse_ok].
Qed.

(** The control does not depend on the slots that never ran. *)
Lemma control_ext k pts a a' :
  chain a' = chain a -> flushing a' = flushing a -> started a' = started a -> control_rep k pts a -> control_rep k pts a'.
Proof.
  intros E1 E2 E3 [C1 C2 C3 C4 C5 C6]. assert (running_id a' = running_id a) as E by (unfold running_id; by rewrite E1).
  split; rewrite ?E1, ?E2, ?E3, ?E; try done. intros i [Hi Hni]. rewrite E1 in Hni. rewrite E3 in Hi. by apply C4.
Qed.

(** A step that changes the slots only. *)
Lemma rep_set_ord m a o' a' :
  rep m a -> wf a' -> links_rep o' a' -> same_callbacks (ord m) o' ->
  co_ o' = co_ (ord m) -> chain a' = chain a -> flushing a' = flushing a -> started a' = started a ->
  finished a' = finished a -> rep (set_ord m o') a'.
Proof.
  intros [_ _ Hc Hcl] Hw Hl Hcb Hco E1 E2 E3 E4. split; [done | done | | rewrite E4; by eapply called_same].
  cbn. rewrite Hco. by eapply control_ext.
Qed.

Lemma wf_release a id : wf a -> id ∈ fresh a -> wf (spec_abandon a id).
Proof.
  intros Hw Hid. pose proof (wf_fresh _ Hw _ Hid) as [Hns Hnf]. destruct Hw as [H1 H2 H3 H4 H5 H6 H7 H8].
  split; cbn [chain flushing started fresh free count deferred_ids spec_abandon]; try done.
  - intros i. rewrite <- H4, elem_of_difference, elem_of_singleton, elem_of_cons.
    destruct (decide (i = id)) as [-> |]; naive_solver.
  - intros i. rewrite elem_of_difference, elem_of_singleton, elem_of_cons. intros [Hi Hne]. destruct (H5 i Hi). naive_solver.
  - intros i [-> | Hi]%elem_of_cons; [done | by apply H6].
Qed.

Lemma abandon_ok m a id :
  rep m a -> id ∈ fresh a ->
  exists o', abandon_unstarted (ord m) id = Ok o' /\ rep (set_ord m o') (spec_abandon a id) /\ same_callbacks (ord m) o'.
Proof.
  intros Hrep Hid. pose proof Hrep as [Hw Hl Hc Hcl]. pose proof (in_count a id Hw (or_introl Hid)) as Hin.
  pose proof (wf_fresh _ Hw _ Hid) as [Hns Hnf]. destruct (links_rt _ _ _ Hl Hin) as [r Hr].
  pose proof (lk_body _ _ Hl _ _ _ _ (body_rt _ _ _ Hr)) as (He & Hf & _). unfold abandon_unstarted.
  rewrite (lk_count _ _ Hl), (proj2 (Z.ltb_lt _ _)), (proj2 (Z.leb_le _ _)) by lia. cbn [andb assertrx mbind result_bind].
  rewrite Hr. cbn [mbind result_bind]. destruct (is_empty_ r) eqn:Ee; [| naive_solver]. destruct (finalized_ r) eqn:Ef; [naive_solver |].
  cbn [negb assertrx mbind result_bind].
  destruct (release_ok _ _ id r Hl Hr) as (r' & rs & r2 & -> & E & Hr2 & He2 & _ & Hl'); [lia | done | | |].
  { by intros [? _]%(wf_deferred _ Hw). }
  { intros Hi. by apply Hns, (wf_started _ Hw), elem_of_tail. }
  cbn [mbind result_bind]. rewrite E. cbn [mbind result_bind]. eexists. split; [reflexivity |]. split; [| done].
  eapply rep_set_ord; [done | by apply wf_release | | done..]. unfold spec_release in Hl'.
  replace (set_rt rs id (clear_routine r2)) with rs in Hl'.
  2:{ assert (clear_routine r2 = r2) as -> by (rewrite Ee in He2; unfold clear_routine; rewrite <- He2; by destruct r2). unfold set_rt, zset.
      symmetry. apply list_insert_id. apply rt_ok in Hr2. unfold znth in Hr2. by case_decide. }
  replace (started a ∖ {[id]}) with (started a) in Hl' by set_solver. exact Hl'.
Qed.

(** ** Deferring *)

Lemma wf_defer a id : wf a -> waits a id -> wf (mk_sched (chain a) (flushing a) (fresh a) (started a) (free a) (count a) (id :: deferred_ids a) (finished a)).
Proof.
  intros [H1 H2 H3 H4 H5 H6 H7 H8] Hwt. split; try done. cbn [deferred_ids]. intros i [-> | Hi]%elem_of_cons; [done | by apply H3].
Qed.

Lemma waits_not_running a id : wf a -> waits a id -> id <> 0 /\ id <> running_id a /\ 1 <= id <= count a.
Proof.
  intros Hw Hwt. pose proof (resumable_not_running _ _ Hw (or_intror Hwt)) as (? & _ & ? & _).
  split_and!; [done | done | apply (in_count a id Hw); destruct Hwt; auto..].
Qed.

Lemma defer_ok m a id :
  rep m a -> legal a (OpDefer id) ->
  exists o', defer_resume (ord m) id = Ok o' /\ rep (set_ord m o') (spec_defer a id) /\ same_callbacks (ord m) o'.
Proof.
  intros Hrep Hleg. pose proof Hrep as [Hw Hl Hc Hcl]. unfold defer_resume, spec_defer.
  rewrite (lk_current _ _ Hl). destruct (Z.eqb_spec id 0) as [-> | H0]; cbn [orb].
  { exists (ord m). replace (set_ord m (ord m)) with m by (by destruct m). by rewrite bool_decide_true by done. }
  destruct (Z.eqb_spec id (running_id a)) as [E | Hrun].
  { exists (ord m). replace (set_ord m (ord m)) with m by (by destruct m). rewrite (bool_decide_true (id = running_id a)) by done. by rewrite orb_true_r. }
  rewrite (bool_decide_false (id = 0)), (bool_decide_false (id = running_id a)) by done. cbn [orb].
  assert (waits a id) as Hwt by (destruct Hleg as [? | [? | [? | ?]]]; [done | done | by apply (wf_deferred _ Hw) | done]).
  destruct (waits_not_running _ _ Hw Hwt) as (_ & _ & Hin). destruct (links_rt _ _ _ Hl Hin) as [r Hr].
  pose proof (lk_body _ _ Hl _ _ _ _ (body_rt _ _ _ Hr)) as (_ & _ & Hd).
  rewrite (lk_count _ _ Hl), (proj2 (Z.leb_le _ _)), (proj2 (Z.ltb_ge _ _)) by lia. cbn [assertrx mbind result_bind]. rewrite Hr.
  cbn [mbind result_bind]. destruct (deferred (links r)) eqn:Ed.
  { exists (ord m). replace (set_ord m (ord m)) with m by (by destruct m). rewrite bool_decide_true by (by apply Hd). done. }
  assert (id ∉ deferred_ids a) as Hnd by naive_solver. rewrite bool_decide_false by done.
  unfold upd_links. rewrite Hr. cbn [mbind result_bind]. set (rs1 := set_rt _ id _).
  assert (forall j, def_cell rs1 j = def_cell (routines_ (ord m)) j) as Hd1 by (intros j; by apply (lens_set_same _ _ _ _ Hr)).
  assert (forall j, free_cell rs1 j = free_cell (routines_ (ord m)) j) as Hf1 by (intros j; by apply (lens_set_same _ _ _ _ Hr)).
  assert (forall j, cs_cell rs1 j = cs_cell (routines_ (ord m)) j) as Hc1 by (intros j; by apply (lens_set_same _ _ _ _ Hr)).
  destruct Hl as [H1 H2 H3 H4 H5 H6 H7 H8].
  destruct (stack_push_spec (H := deferred_cells) rs1 (deferred_resumes_ (ord m)) (deferred_ids a) id) as (rs & -> & Hsame & Hrep' & Hcell).
  { eapply stack_rep_ext; [intros i _; apply Hd1 | exact H4]. }
  { rewrite Hd1, (lens_cell_rt deferred_next _ _ _ Hr : def_cell (routines_ (ord m)) id = _). f_equal. apply (H8 id); [by apply (lens_cell_rt deferred_next) | done]. }
  { done. }
  { done. }
  cbn [mbind result_bind]. apply same_deferred in Hsame as [Hlen Hsame]. eexists. split; [reflexivity |]. split; [| done].
  eapply rep_set_ord; [done | by apply wf_defer | | done..].
  split; cbn [current_ routines_ rt_call_stack_ finalized_indexes_ deferred_resumes_ set_deferred chain started free count deferred_ids].
  - done.
  - eapply list_rep_ext; [intros i _; by rewrite (proj2 (proj2 (Hsame i))), Hc1 | | exact H2]. intros i n.
    rewrite (proj2 (proj2 (Hsame i))), Hc1. intros Hi Hni. destruct (nd_linked n) eqn:El; [| done]. by apply (lr_linked _ _ _ H2 _ _ Hi) in El.
  - eapply stack_rep_ext; [intros i _; by rewrite (proj1 (proj2 (Hsame i))), Hf1 | exact H3].
  - exact Hrep'.
  - rewrite <- Hlen. unfold rs1. by rewrite zlen_set_rt.
  - intros i e f d. rewrite (proj1 (Hsame i)). unfold rs1. rewrite (body_set _ _ _ _ Hr), elem_of_cons. case_decide as Ei.
    + subst i. intros [= <- <- <-]. pose proof (H6 _ _ _ _ (body_rt _ _ _ Hr)). naive_solver.
    + intros Hi%H6. naive_solver.
  - intros i n. rewrite (proj1 (proj2 (Hsame i))), Hf1. apply H7.
  - intros i n. rewrite Hcell. case_decide as Ei; [subst i; intros _ Hni; exfalso; apply Hni; left |]. rewrite Hd1.
    intros Hi Hni. apply (H8 i n Hi). intros Hd'. apply Hni. by right.
Qed.

(** ** Shrinking *)

Lemma trimmed_unused rs (f : list Z) :
  (forall i r, rt rs i = Ok r -> (finalized_ r = true <-> i ∈ f)) ->
  (length rs - unused_cnt (reverse rs))%nat = trimmed (length rs) f.
Proof.
  induction rs as [| r rs IH] using rev_ind; intros Hf; [done |]. rewrite reverse_snoc, length_app. cbn [length unused_cnt].
  replace (length rs + 1)%nat with (S (length rs)) by lia. cbn [trimmed].
  assert (finalized_ r = true <-> Z.of_nat (S (length rs)) ∈ f) as Hr.
  { apply Hf. rewrite rt_snoc, decide_True by (unfold zlen; lia). done. }
  assert (forall i r', rt rs i = Ok r' -> (finalized_ r' = true <-> i ∈ f)) as Hrs.
  { intros i r' Hi. apply Hf. rewrite rt_snoc, decide_False; [done |]. apply rt_ok, znth_Some in Hi. lia. }
  case_bool_decide as E.
  - rewrite (proj2 Hr E). rewrite <- IH by done. lia.
  - destruct (finalized_ r); [by destruct E; apply Hr | lia].
Qed.

Lemma trimmed_le n f : (trimmed n f <= n)%nat.
Proof. induction n as [| n IH]; cbn; [done |]. case_bool_decide; lia. Qed.

Lemma trimmed_keeps n f i : i ∉ f -> 1 <= i <= Z.of_nat n -> i <= Z.of_nat (trimmed n f).
Proof.
  intros Hi. induction n as [| n IH]; intros Hn; [lia |]. cbn [trimmed]. case_bool_decide as E; [| lia].
  apply IH. destruct (decide (i = Z.of_nat (S n))) as [-> |]; [done | lia].
Qed.

Lemma rt_take rs n i : rt (take n rs) i = if decide (i <= Z.of_nat n) then rt rs i else Fail Undefined.
Proof.
  unfold rt, znth. destruct (decide (0 <= i - 1)); [| by case_decide]. case_decide.
  - rewrite lookup_take_lt by lia. done.
  - rewrite lookup_take_ge by lia. done.
Qed.

(** The loop that rebuilds the free list makes the stack of the finalized ids. *)
Lemma rebuild_free_ok (f : list Z) n : forall id rs t ids,
  1 <= id -> id + Z.of_nat n <= zlen rs + 1 -> stack_rep (H := free_cells) rs t ids -> (forall i, i ∈ ids -> i < id) ->
  (forall i e d' d, body rs i = Ok (e, d', d) -> (d' = true <-> i ∈ f)) ->
  exists rs' t', rebuild_free n id rs t = Ok (rs', t') /\
    stack_rep (H := free_cells) rs' t' (reverse (filter (fun i => i ∈ f) (seqZ id (Z.of_nat n))) ++ ids) /\
    zlen rs' = zlen rs /\
    (forall i, body rs' i = body rs i /\ def_cell rs' i = def_cell rs i /\ cs_cell rs' i = cs_cell rs i) /\
    (forall i m, id <= i < id + Z.of_nat n -> i ∉ f -> free_cell rs' i = Ok m -> m = 0) /\
    (forall i, i < id -> free_cell rs' i = free_cell rs i).
Proof.
  induction n as [| n IH]; intros id rs t ids Hid Hlen Hrep Hlt Hf.
  { exists rs, t. cbn. split_and!; (done || intros; lia). }
  cbn [rebuild_free]. destruct (znth_lt rs (id - 1)) as [r0 Hr0%rt_ok]; [lia |].
  destruct (set_cell_spec (Cells := free_cells) rs id 0 (free_next (links r0))) as (rs1 & E1 & Hsame1 & Hc1); [by apply lens_cell_rt |].
  change (upd_links rs id (with_free 0)) with (set_cell (Cells := free_cells) rs id 0). rewrite E1. cbn [mbind result_bind].
  apply same_free in Hsame1 as [Hl1 Hs1]. destruct (znth_lt rs1 (id - 1)) as [r1 Hr1%rt_ok]; [lia |]. rewrite Hr1. cbn [mbind result_bind].
  pose proof (body_rt _ _ _ Hr1) as Hb1. rewrite (proj1 (Hs1 id)) in Hb1. apply Hf in Hb1 as Hfin.
  assert (stack_rep (H := free_cells) rs1 t ids) as Hrep1.
  { eapply stack_rep_ext; [| exact Hrep]. intros i Hi%Hlt. rewrite Hc1, decide_False by lia. done. }
  assert (id ∉ ids) as Hni by (intros Hi%Hlt; lia).
  rewrite seqZ_cons, filter_cons by lia. replace (Z.pred (Z.of_nat (S n))) with (Z.of_nat n) by lia. rewrite <- Z.add_1_r.
  assert (exists rs2 t2, (if finalized_ r1 then stack_push (H := free_cells) t rs1 id else Ok (rs1, t)) = Ok (rs2, t2) /\
    stack_rep (H := free_cells) rs2 t2 (if decide (id ∈ f) then id :: ids else ids) /\ zlen rs2 = zlen rs1 /\
    (forall i, body rs2 i = body rs1 i /\ def_cell rs2 i = def_cell rs1 i /\ cs_cell rs2 i = cs_cell rs1 i) /\
    (forall i, i <> id -> free_cell rs2 i = free_cell rs1 i) /\ (id ∉ f -> rs2 = rs1)) as (rs2 & t2 & -> & Hrep2 & Hl2 & Hs2 & Hc2 & Hsm2).
  { case_decide as Ef.
    - rewrite (proj2 Hfin Ef). destruct (stack_push_spec (H := free_cells) rs1 t ids id Hrep1) as (rs2 & E2 & Hsame2 & Hrep2 & Hc2); [by rewrite Hc1, decide_True by done | lia | done |].
      apply same_free in Hsame2 as [Hl2 Hs2]. exists rs2, (mk_stack id). split_and!; [done | done | done | done | | done].
      intros i Hi. by rewrite Hc2, decide_False by done.
    - destruct (finalized_ r1); [by destruct Ef; apply Hfin |]. by exists rs1, t. }
  cbn [mbind result_bind]. destruct (IH (id + 1) rs2 t2 _ ltac:(lia) ltac:(lia) Hrep2) as (rs' & t' & -> & Hrep' & Hl' & Hs' & Hz' & Hk').
  { intros i Hi. case_decide; [apply elem_of_cons in Hi as [-> | Hi%Hlt]; lia | apply Hlt in Hi; lia]. }
  { intros i e d' d. rewrite (proj1 (Hs2 i)), (proj1 (Hs1 i)). apply Hf. }
  exists rs', t'. split_and!; [done | | congruence | | |].
  - case_decide; [by rewrite reverse_cons, <- app_assoc | done].
  - intros i. destruct (Hs' i) as (-> & -> & ->), (Hs2 i) as (-> & -> & ->). apply Hs1.
  - intros i m Hi Hnf. destruct (decide (i = id)) as [-> |]; [| apply Hz'; [lia | done]].
    rewrite Hk', Hsm2, Hc1, decide_True by (done || lia). by intros [= <-].
  - intros i Hi. rewrite Hk', Hc2, Hc1, decide_False by lia. done.
Qed.

Definition shrunk (a : sched) : nat := trimmed (Z.to_nat (count a)) (free a).

Lemma elem_of_free_shrunk a i : i ∈ reverse (filter (fun id => id ∈ free a) (seqZ 1 (Z.of_nat (shrunk a)))) <-> i ∈ free a /\ 1 <= i <= Z.of_nat (shrunk a).
Proof. rewrite elem_of_reverse, list_elem_of_filter, elem_of_seqZ. split; intros [? ?]; (split; [done | lia]). Qed.

Lemma live_shrunk a i : wf a -> i ∈ fresh a \/ i ∈ started a -> 1 <= i <= Z.of_nat (shrunk a).
Proof.
  intros Hw Hi. assert (1 <= i <= count a) as Hin by (apply (in_count a i Hw); destruct Hi; auto).
  split; [lia |]. apply trimmed_keeps; [| lia]. destruct Hi as [Hi | Hi]; [by apply (wf_fresh _ Hw) |].
  intros Hf. by apply (wf_free _ Hw _ Hf).
Qed.

Lemma wf_shrink a : wf a -> wf (spec_shrink a).
Proof.
  intros Hw. pose proof (live_shrunk a) as Hlive. pose proof (elem_of_free_shrunk a) as Hfree.
  pose proof (trimmed_le (Z.to_nat (count a)) (free a)) as Hle. fold (shrunk a) in Hle.
  unfold spec_shrink. fold (shrunk a). pose proof Hw as [H1 H2 H3 H4 H5 H6 H7 H8].
  split; cbn [chain flushing started fresh free count deferred_ids]; try done; [| | | lia].
  - intros i. rewrite Hfree. split; [intros [? | [? | [_ ?]]]; [apply Hlive; auto | apply Hlive; auto | done] |].
    intros Hi. destruct (proj2 (H4 i)) as [? | [? | ?]]; [lia | auto | auto | auto].
  - intros i Hi. rewrite Hfree. destruct (H5 i Hi). naive_solver.
  - intros i [Hi _]%Hfree. by apply H6.
Qed.

Lemma shrink_links o a :
  wf a -> links_rep o a ->
  exists o', shrink_storage o = Ok (Z.of_nat (shrunk a), o') /\ links_rep o' (spec_shrink a) /\ same_callbacks o o' /\
    co_ o' = mk_koishi (filter (fun p : Z * koishi_coroutine => p.1 <= Z.of_nat (shrunk a)) (fibers (co_ o))) (co_current (co_ o)).
Proof.
  intros Hw Hl. pose proof (live_shrunk a) as Hlive. pose proof (elem_of_free_shrunk a) as Hfree.
  pose proof (trimmed_le (Z.to_nat (count a)) (free a)) as Hle. fold (shrunk a) in Hle. pose proof (wf_count _ Hw) as Hcount.
  destruct Hl as [H1 H2 H3 H4 H5 H6 H7 H8]. unfold shrink_storage.
  assert (length (routines_ o) = Z.to_nat (count a)) as Hlen by (unfold zlen in H5; lia).
  rewrite (trimmed_unused _ (free a)), Hlen by (intros i r Hr; by destruct (H6 _ _ _ _ (body_rt _ _ _ Hr)) as (_ & ? & _)).
  fold (shrunk a). set (rs0 := take (shrunk a) (routines_ o)).
  assert (length rs0 = shrunk a) as Hl0 by (unfold rs0; rewrite length_take; lia).
  assert (zlen rs0 = Z.of_nat (shrunk a)) as Hz0 by (unfold zlen; lia).
  assert (forall i, rt rs0 i = if decide (i <= Z.of_nat (shrunk a)) then rt (routines_ o) i else Fail Undefined) as Hrt0 by (intros i; apply rt_take).
  assert (forall N (get : intrusive_links -> N) i, 1 <= i <= Z.of_nat (shrunk a) -> lens_cell get rs0 i = lens_cell get (routines_ o) i) as Hc0.
  { intros N get i Hi. unfold lens_cell. by rewrite Hrt0, decide_True by lia. }
  assert (forall i x, body rs0 i = Ok x -> body (routines_ o) i = Ok x) as Hb0.
  { intros i x. unfold body. rewrite Hrt0. by case_decide. }
  assert (forall N (get : intrusive_links -> N) i n, lens_cell get rs0 i = Ok n -> lens_cell get (routines_ o) i = Ok n) as Hc0'.
  { intros N get i n. unfold lens_cell. rewrite Hrt0. by case_decide. }
  destruct (rebuild_free_ok (free a) (shrunk a) 1 rs0 (mk_stack 0) []) as (rs & t & E & Hrep & Hlrs & Hs & Hz & _).
  { lia. }
  { lia. }
  { apply stack_rep_nil. }
  { by intros i ?%not_elem_of_nil. }
  { intros i e d' d Hi%Hb0. by apply H6 in Hi as (_ & ? & _). }
  rewrite Hl0, Hz0, E. cbn [mbind result_bind]. rewrite Hlrs, Hz0. eexists. split; [reflexivity |]. split; [| done]. rewrite app_nil_r in Hrep.
  assert (forall i, i ∈ reverse (tail (chain a).*1) -> 1 <= i <= Z.of_nat (shrunk a)) as Hch.
  { intros i. rewrite elem_of_reverse. intros Hi. apply Hlive; [done |]. right. by apply (wf_started _ Hw), elem_of_tail. }
  unfold spec_shrink. fold (shrunk a).
  split; cbn [current_ routines_ rt_call_stack_ finalized_indexes_ deferred_resumes_ set_finalized set_co chain started free count deferred_ids].
  - done.
  - eapply list_rep_ext; [| | exact H2].
    + intros i Hi. rewrite (proj2 (proj2 (Hs i))). by apply Hc0, Hch.
    + intros i n. rewrite (proj2 (proj2 (Hs i))). intros Hi%Hc0' Hni. destruct (nd_linked n) eqn:El; [| done].
      by apply (lr_linked _ _ _ H2 _ _ Hi) in El.
  - exact Hrep.
  - eapply stack_rep_ext; [| exact H4]. intros i Hi. rewrite (proj1 (proj2 (Hs i))). apply Hc0, Hlive; [done |]. right. by apply (wf_deferred _ Hw).
  - congruence.
  - intros i e f d. rewrite (proj1 (Hs i)). intros Hi. rewrite Hfree. pose proof (Hb0 _ _ Hi) as Hi'. apply H6 in Hi' as (? & Hf & ?).
    split; [done |]. split; [| done]. rewrite Hf. split; [| by intros [? _]]. intros Hin. split; [done |].
    unfold body in Hi. rewrite Hrt0 in Hi. case_decide; [| done]. pose proof (in_count a i Hw (or_intror (or_intror Hin))). lia.
  - intros i n. rewrite Hfree. intros Hi Hni. destruct (lens_cell_inv free_next rs i n Hi) as (r & Hr & <-).
    apply rt_ok, znth_Some in Hr. apply (Hz i); [rewrite Hlrs in Hr; lia | | exact Hi]. intros Hin. apply Hni. split; [done |]. rewrite Hlrs in Hr; lia.
  - intros i n. rewrite (proj1 (proj2 (Hs i))). intros Hi%Hc0'. by apply H8.
Qed.

Lemma shrink_ok m a :
  rep m a -> exists o', do_op m OpShrink = Ok (set_ord m o') /\ rep (set_ord m o') (spec_shrink a) /\ same_callbacks (ord m) o'.
Proof.
  intros [Hw Hl Hc Hcl]. destruct (shrink_links _ _ Hw Hl) as (o' & E & Hl' & Hcb & Hco). exists o'. cbn [do_op]. rewrite E.
  split; [done |]. split; [| done]. split; [by apply wf_shrink | exact Hl' | | by eapply called_same].
  assert (forall i, i = 0 \/ i ∈ started a -> fibers (co_ o') !! i = fibers (co_ (ord m)) !! i) as Hfib.
  { intros i Hi. rewrite Hco. cbn [fibers]. rewrite map_lookup_filter. destruct (fibers (co_ (ord m)) !! i); cbn; [| done].
    rewrite option_guard_True; [done |]. cbn. destruct Hi as [-> | Hi]; [lia |]. apply (live_shrunk a i Hw). auto. }
  cbn [ord points set_ord]. destruct Hc as [C1 C2 C3 C4 C5 C6]. split; try done.
  - rewrite Hco. exact C1.
  - eapply frames_ext; [done | | exact C2]. intros x Hx. rewrite Hfib; [done |]. right. by apply (wf_started _ Hw).
  - intros i Hi. rewrite Hfib by done. by apply C6.
Qed.

(** ** The refinement *)

Lemma resume_none_ok m a id :
  rep m a -> flushing a = None -> id = running_id a \/ id ∈ free a ->
  exists m', do_resume m id KUser = Ok m' /\ rep m' a /\ kept_callbacks m m'.
Proof.
  intros Hrep Hfl Hid. pose proof Hrep as [Hw Hl Hc Hcl]. unfold do_resume.
  assert (exists code, resume_begin (ord m) id = Ok (Some code, ord m)) as [code ->].
  { unfold resume_begin. rewrite (lk_current _ _ Hl). destruct (Z.eqb_spec id (running_id a)) as [E | Hne]; [by eexists |].
    destruct Hid as [? | Hf]; [done |]. pose proof (in_count a id Hw (or_intror (or_intror Hf))) as Hin.
    destruct (links_rt _ _ _ Hl Hin) as [r Hr]. pose proof (lk_body _ _ Hl _ _ _ _ (body_rt _ _ _ Hr)) as (_ & Hfin & _).
    rewrite (lk_count _ _ Hl), (proj2 (Z.leb_le _ _)), (proj2 (Z.eqb_neq id 0)), (proj2 (Z.ltb_ge _ _)) by lia.
    cbn [negb assertrx mbind result_bind]. rewrite Hr. cbn [mbind result_bind]. rewrite (proj2 Hfin Hf). by eexists. }
  cbn [mbind result_bind]. eexists. split; [reflexivity |]. split; [| done].
  replace (set_ord m (ord m)) with m by (by destruct m). pose proof (set_head_ok m a None Hrep I) as H.
  replace (with_flush a None) with a in H by (unfold with_flush; rewrite <- Hfl; by destruct a). exact H.
Qed.

Lemma do_op_ok m a p :
  rep m a -> flushing a = None -> legal a p ->
  exists m', do_op m p = Ok m' /\ rep m' (spec_op a p) /\ kept_callbacks m m'.
Proof.
  intros Hrep Hfl Hleg. pose proof Hrep as [Hw Hl Hc Hcl]. destruct p as [sz | id | | | id | | id |]; cbn [spec_op legal] in *.
  - destruct Hleg as [Hsz Hn]. destruct (create_ok _ _ sz Hw Hl Hsz Hn) as (o' & E & Hl' & Hcb & Hco). cbn [do_op]. rewrite E.
    eexists. split; [reflexivity |]. split; [| exact (same_kept m (set_ord m o') Hcb)].
    eapply rep_set_ord; [done | | done | done | done | ..]; [apply wf_create; [done | apply (sr_nodup _ _ _ (lk_free _ _ Hl)) | done] | ..];
      unfold spec_create; by destruct (free a).
  - cbn [do_op]. unfold spec_resume. destruct (decide (id = running_id a \/ id ∈ free a)) as [Hid | Hid].
    + assert (bool_decide (id = running_id a) || bool_decide (id ∈ free a) = true) as ->.
      { apply orb_true_iff. rewrite !bool_decide_eq_true. done. }
      by apply resume_none_ok.
    + assert (bool_decide (id = running_id a) || bool_decide (id ∈ free a) = false) as ->.
      { apply orb_false_iff. rewrite !bool_decide_eq_false. naive_solver. }
      assert (resumable a id /\ id ∉ deferred_ids a) as [Hres Hnd].
      { destruct Hleg as [? | [? | [Hf | [Hwt Hnd]]]]; [naive_solver | naive_solver | | by split; [right |]].
        split; [by left |]. intros Hd. by apply (wf_deferred _ Hw), proj1, (wf_fresh _ Hw _ Hf) in Hd. }
      destruct (do_resume_ok m a id KUser Hrep Hres Hnd) as (m' & -> & Hm' & Hcb); [done |].
      exists m'. split; [done |]. split; [done | by apply same_kept].
  - destruct (do_suspend_ok m a Hrep Hleg) as (m' & E & Hm' & Hcb). exists m'. split; [done |]. split; [done | by apply same_kept].
  - eexists. split; [reflexivity |]. split; [by apply (set_head_ok m a (Some KEntry)) | done].
  - destruct (defer_ok m a id Hrep Hleg) as (o' & E & Hm' & Hcb). cbn [do_op]. rewrite E. eexists. split; [reflexivity |].
    split; [done | exact (same_kept m (set_ord m o') Hcb)].
  - eexists. split; [reflexivity |]. split; [by apply (set_head_ok m a (Some KFlush)) | done].
  - destruct (abandon_ok m a id Hrep Hleg) as (o' & E & Hm' & Hcb). cbn [do_op]. rewrite E. eexists. split; [reflexivity |].
    split; [done | exact (same_kept m (set_ord m o') Hcb)].
  - destruct (shrink_ok m a Hrep) as (o' & E & Hm' & Hcb). eexists. split; [exact E |]. split; [done | exact (same_kept m (set_ord m o') Hcb)].
Qed.

Lemma run_op_ok m a p :
  rep m a -> legal_step a p ->
  exists m', run_op (Ok m) p = Ok m' /\ rep m' (spec_step a p) /\ kept_callbacks m m'.
Proof.
  intros Hrep Hleg. pose proof Hrep as [Hw Hl Hc Hcl]. unfold run_op, spec_step, legal_step in *.
  cbn [mbind result_bind]. assert (running m = running_id a) as -> by apply (cr_current _ _ _ Hc). rewrite (cr_head _ _ _ Hc).
  destruct (flushing a) as [k |] eqn:E; cbn [head_point]; [by apply flush_step_ok |]. by apply do_op_ok; [| | apply Hleg].
Qed.

(** All steps keep to the contract. *)
Fixpoint legal_steps (a : sched) (ops : list op) : Prop :=
  match ops with
  | [] => True
  | p :: ops => legal_step a p /\ legal_steps (spec_step a p) ops
  end.

Definition sched_init : sched := mk_sched [] None ∅ ∅ [] 0 [] [].

(** The machine before the first step, with the callbacks that were set. *)
Definition machine_with (loop : bool) (cbs : list Z) : machine :=
  mk_machine (set_callbacks (set_loop_callback ordinator_init loop) cbs) {[ 0 := AtUser ]}.

Definition calls (loop : bool) (cbs : list Z) (id : Z) : list (option Z * Z) :=
  (if loop then [(None, id)] else []) ++ ((fun cb => (Some cb, id)) <$> cbs).

Lemma rep_init loop cbs : rep (machine_with loop cbs) sched_init.
Proof.
  split.
  - split; cbn; try done; try set_solver; [constructor | intros i; split; [set_solver | lia]].
  - assert (forall i, rt [] i = Fail Undefined) as Hrt by (intros i; unfold rt; by rewrite znth_None by (unfold zlen; cbn; lia)).
    split; cbn; try done.
    + apply list_rep_nil. intros id n. unfold cell; cbn. unfold lens_cell. by rewrite Hrt.
    + apply stack_rep_nil.
    + apply stack_rep_nil.
    + intros i e f d. unfold body. by rewrite Hrt.
    + intros i n. unfold lens_cell. by rewrite Hrt.
    + intros i n. unfold lens_cell. by rewrite Hrt.
  - split; cbn; try done.
    + intros i [Hi _]. set_solver.
    + intros i Hi Hs. rewrite lookup_singleton_ne in Hs by done. by destruct Hs.
    + intros i [-> | Hi]; [by exists 0 | set_solver].
  - done.
Qed.

Lemma run_ok ops m a :
  rep m a -> legal_steps a ops ->
  exists m', foldl run_op (Ok m) ops = Ok m' /\ rep m' (foldl spec_step a ops) /\ kept_callbacks m m'.
Proof.
  revert m a. induction ops as [| p ops IH]; intros m a Hrep Hleg; [by exists m |]. destruct Hleg as [Hp Hleg].
  destruct (run_op_ok m a p Hrep Hp) as (m1 & E & Hrep1 & Hk1 & Hk1'). cbn [foldl]. rewrite E.
  destruct (IH m1 _ Hrep1 Hleg) as (m' & -> & Hrep' & Hk2 & Hk2'). exists m'. split; [done |]. split; [done |].
  split; congruence.
Qed.

(** C15: the scheduler of coroutines is a stack machine. Take any sequence of steps: the code of
    the coroutines creates, resumes, suspends, returns, defers, flushes, abandons and shrinks, and
    the flushes that are under way make their rounds. The client must keep to the contract of the
    scheduler ([legal]): it creates with a stack, and fewer than [2 ^ 32 - 1] coroutines at a time;
    it resumes itself, a coroutine that was never started, one that finished, or one that waits and
    is not deferred, but no active ancestor; it defers itself, a coroutine that waits, or a
    deferred one again; it abandons only what was never started; and the main routine neither
    suspends nor returns. Then no assertion fails, nothing terminates the process and no slot
    outside of the storage is touched; and at every point the coroutine that the fibers run is the
    one that the ordinator believes to be current, and it is the top of the stack of the
    coroutines that resumed each other; those below are, in this order, in the call stack of the
    ordinator and the callers of the fibers, each in its call of [resume]; all others wait in
    [suspend] or never ran. Every coroutine that ended was reported once to every callback, in the
    order of the ends. *)
Theorem ordinator_refines loop cbs ops :
  legal_steps sched_init ops ->
  let a := foldl spec_step sched_init ops in
  exists m, foldl run_op (Ok (machine_with loop cbs)) ops = Ok m /\
    running m = running_id a /\ current_ (ord m) = running_id a /\
    list_rep (routines_ (ord m)) (rt_call_stack_ (ord m)) (reverse (tail (chain a).*1)) /\
    frames (points m) (fibers (co_ (ord m))) (chain a) /\
    points m !! running m = Some (head_point (flushing a)) /\
    (forall id, waits a id -> points m !! id = Some InSuspend) /\
    zlen (routines_ (ord m)) = count a /\
    called_ (ord m) = mjoin (calls loop cbs <$> finished a).
Proof.
  intros Hleg a. destruct (run_ok ops _ _ (rep_init loop cbs) Hleg) as (m & E & [Hw Hl Hc Hcl] & Hk1 & Hk2).
  exists m. fold a in Hw, Hl, Hc, Hcl. pose proof (cr_current _ _ _ Hc) as Hrun. split_and!.
  - exact E.
  - exact Hrun.
  - apply (lk_current _ _ Hl).
  - apply (lk_call_stack _ _ Hl).
  - apply (cr_frames _ _ _ Hc).
  - unfold running. rewrite Hrun. apply (cr_head _ _ _ Hc).
  - apply (cr_waits _ _ _ Hc).
  - apply (lk_count _ _ Hl).
  - rewrite Hcl. f_equal. apply list_fmap_ext. intros _ i _. unfold callbacks_of, calls. by rewrite Hk1, Hk2.
Qed.

#[export] Instance waits_dec a id : Decision (waits a id).
Proof. unfold waits. apply _. Defined.
#[export] Instance legal_dec a p : Decision (legal a p).
Proof. destruct p; cbn [legal]; apply _. Defined.
#[export] Instance legal_step_dec a p : Decision (legal_step a p).
Proof. unfold legal_step. destruct (flushing a); [left; by intros | destruct (decide (legal a p)); [left | right]; naive_solver]. Defined.
#[export] Instance legal_steps_dec a ops : Decision (legal_steps a ops).
Proof. revert a. induction ops as [| p ops IH]; intros a; cbn [legal_steps]; apply _. Defined.

(** The scenario of [nested_coroutines], with two callbacks. *)
Lemma ordinator_refines_witness :
  let ops := [OpCreate 100; OpCreate 100; OpResume 1; OpResume 2; OpSuspend; OpDefer 2; OpReturn; OpFlush; OpReturn;
              OpFlush; OpFlush; OpShrink] in
  legal_steps sched_init ops /\
  exists m, foldl run_op (Ok (machine_with true [7])) ops = Ok m /\ running m = 0 /\
    called_ (ord m) = [(None, 2); (Some 7, 2); (None, 1); (Some 7, 1)].
Proof.
  intros ops. assert (legal_steps sched_init ops) as Hleg by (apply (bool_decide_unpack _); by vm_compute).
  split; [exact Hleg |]. destruct (ordinator_refines true [7] ops Hleg) as (m & E & Hrun & _ & _ & _ & _ & _ & _ & Hcl).
  exists m. split; [exact E |]. split; [rewrite Hrun; by vm_compute | rewrite Hcl; by vm_compute].
Defined.
