(* ===== verification/WaitersQueue.v ===== *)
(** * WaitersQueue: the queue of suspended coroutines

    [waiters_queue] of [coroutine/waiters_queue.h]. The hooks live on the stacks of the coroutines
    that wait; their memory is a map of addresses to hooks. A coroutine has at most one hook, and
    its id stands for the address of the hook; 0 is the null pointer. The queue is shown to be a
    list. *)

From S2P Require Import Prelude IndexList.

Record hook : Set := mk_hook { hk_id : Z; hk_prev : Z; hk_next : Z; hk_owner : Z }.

Definition linked (h : hook) : bool := negb (hk_prev h =? 0) || negb (hk_next h =? 0) || negb (hk_owner h =? 0).

Abbreviation hooks := (gmap Z hook).

Definition deref (hs : hooks) (p : Z) : result hook := of_option Undefined (hs !! p).

(** [hook(routine)] and its destructor. *)
Definition hook_new (hs : hooks) (routine : Z) : hooks := <[routine := mk_hook routine 0 0 0]> hs.
Definition hook_destroy (hs : hooks) (p : Z) : result hooks :=
  h ← deref hs p; if linked h then Fail AssertFail else Ok (delete p hs).

(** The queue; [wq_this] is its address, which is the owner of its hooks. *)
Record waiters_queue : Set := mk_wq { wq_this : Z; wq_head : Z; wq_tail : Z; wq_size : Z }.

Definition wq_empty (w : waiters_queue) : bool := wq_head w =? 0.

Definition front (hs : hooks) (w : waiters_queue) : result Z :=
  if wq_head w =? 0 then Fail AssertFail else h ← deref hs (wq_head w); Ok (hk_id h).

Definition wq_push_back (w : waiters_queue) (hs : hooks) (p : Z) : result (hooks * waiters_queue) :=
  h ← deref hs p;
  if linked h then Fail AssertFail
  else
    let hs := <[p := mk_hook (hk_id h) (wq_tail w) 0 (wq_this w)]> hs in
    '(hs, head) ←
      (if negb (wq_tail w =? 0) then
         t ← deref hs (wq_tail w);
         Ok (<[wq_tail w := mk_hook (hk_id t) (hk_prev t) p (hk_owner t)]> hs, wq_head w)
       else Ok (hs, p));
    Ok (hs, mk_wq (wq_this w) head p (u64 (wq_size w + 1))).

Definition wq_erase (w : waiters_queue) (hs : hooks) (p : Z) : result (hooks * waiters_queue) :=
  h ← deref hs p;
  if negb (hk_owner h =? wq_this w) then Fail AssertFail
  else
    '(hs, head) ←
      (if negb (hk_prev h =? 0) then
         b ← deref hs (hk_prev h);
         Ok (<[hk_prev h := mk_hook (hk_id b) (hk_prev b) (hk_next h) (hk_owner b)]> hs, wq_head w)
       else Ok (hs, hk_next h));
    '(hs, tail) ←
      (if negb (hk_next h =? 0) then
         n ← deref hs (hk_next h);
         Ok (<[hk_next h := mk_hook (hk_id n) (hk_prev h) (hk_next n) (hk_owner n)]> hs, wq_tail w)
       else Ok (hs, hk_prev h));
    let hs := <[p := mk_hook (hk_id h) 0 0 0]> hs in
    if wq_size w =? 0 then Fail AssertFail
    else Ok (hs, mk_wq (wq_this w) head tail (wq_size w - 1)).

(** ** The queue is a list *)

Definition hook_at (this x next prev : Z) : hook := mk_hook x prev next this.

Record wq_rep (hs : hooks) (w : waiters_queue) (ids : list Z) : Prop := {
  wr_head : wq_head w = hd_or 0 ids;
  wr_tail : wq_tail w = last_or 0 ids;
  wr_seg : seg (hook_at (wq_this w)) (deref hs) 0 ids 0;
  wr_nodup : NoDup ids;
  wr_nonzero : 0 ∉ ids;
  wr_size : wq_size w = zlen ids;
  wr_owner : forall i h, hs !! i = Some h -> (hk_owner h = wq_this w <-> i ∈ ids) }.

Lemma hook_deref_ok hs p h : deref hs p = Ok h <-> hs !! p = Some h.
Proof. unfold deref. destruct (hs !! p); naive_solver. Qed.

Lemma deref_insert hs p h j : deref (<[p := h]> hs) j = if decide (j = p) then Ok h else deref hs j.
Proof. unfold deref. case_decide; [subst; by rewrite lookup_insert_eq | by rewrite lookup_insert_ne]. Qed.

Lemma wq_rep_nil hs this : this <> 0 -> (forall i h, hs !! i = Some h -> hk_owner h <> this) -> wq_rep hs (mk_wq this 0 0 0) [].
Proof.
  intros Ht Ho. split; [done | done | done | constructor | apply not_elem_of_nil | done |].
  intros i h Hi. specialize (Ho i h Hi). pose proof (not_elem_of_nil i). naive_solver.
Qed.

Lemma wq_empty_spec hs w ids : wq_rep hs w ids -> wq_empty w = bool_decide (ids = []).
Proof.
  intros [Hh _ _ _ H0 _ _]. unfold wq_empty. rewrite Hh. destruct ids as [| x ids]; [done |].
  change (hd_or 0 (x :: ids)) with x. destruct (Z.eqb_spec x 0) as [-> |]; [set_solver | done].
Qed.

Lemma front_spec hs w x ids : wq_rep hs w (x :: ids) -> front hs w = Ok x.
Proof.
  intros [Hh _ [Hx _] _ H0 _ _]. unfold front. rewrite Hh. change (hd_or 0 (x :: ids)) with x.
  destruct (Z.eqb_spec x 0) as [-> |]; [set_solver |]. by rewrite Hx.
Qed.

(** Other changes of the memory. *)
Lemma wq_rep_ext hs hs' w ids :
  (forall i, i ∈ ids -> hs' !! i = hs !! i) ->
  (forall i h, hs' !! i = Some h -> i ∉ ids -> hk_owner h <> wq_this w) -> wq_rep hs w ids -> wq_rep hs' w ids.
Proof.
  intros Hs Ho [H1 H2 H3 H4 H5 H6 H7]. split; try done.
  - eapply seg_ext; [| exact H3]. intros x Hx. unfold deref. by rewrite Hs.
  - intros i h Hi. destruct (decide (i ∈ ids)) as [Hin | Hin].
    + rewrite Hs in Hi by done. by apply H7.
    + pose proof (Ho i h Hi Hin). naive_solver.
Qed.

Lemma wq_push_back_spec hs w ids p :
  wq_rep hs w ids -> hs !! p = Some (mk_hook p 0 0 0) -> p <> 0 -> wq_this w <> 0 -> zlen ids + 1 < 2 ^ 64 ->
  exists hs' w', wq_push_back w hs p = Ok (hs', w') /\ wq_rep hs' w' (ids ++ [p]) /\ wq_this w' = wq_this w /\
    (forall j, j ∉ ids ++ [p] -> hs' !! j = hs !! j).
Proof.
  intros [Hh Ht Hs Hn H0 Hsz Ho] Hp Hp0 Hthis Hlen. unfold wq_push_back. rewrite (proj2 (hook_deref_ok _ _ _) Hp).
  cbn [mbind result_bind linked hk_prev hk_next hk_owner Z.eqb negb orb hk_id].
  assert (p ∉ ids) as Hni by (intros Hi; apply (Ho _ _ Hp) in Hi; cbn in Hi; congruence).
  set (hs1 := <[p := mk_hook p (wq_tail w) 0 (wq_this w)]> hs).
  assert (u64 (wq_size w + 1) = zlen (ids ++ [p])) as Hsize.
  { rewrite zlen_app, Hsz. unfold u64. rewrite wrap_id by (pose proof (zlen_nonneg ids); lia). done. }
  assert (NoDup (ids ++ [p])) as Hnd by (apply NoDup_app; split_and!; [done | set_solver | apply NoDup_singleton]).
  assert (hd_or 0 (ids ++ [p]) = if negb (wq_tail w =? 0) then wq_head w else p) as Hhead.
  { rewrite Ht, Hh. destruct ids as [| x ids _] using rev_ind; [done |]. rewrite last_or_snoc.
    destruct (Z.eqb_spec x 0) as [-> |]; [set_solver |]. by destruct ids. }
  assert (exists hs', (if negb (wq_tail w =? 0) then
            t ← deref hs1 (wq_tail w); Ok (<[wq_tail w := mk_hook (hk_id t) (hk_prev t) p (hk_owner t)]> hs1, wq_head w)
          else Ok (hs1, p)) = Ok (hs', hd_or 0 (ids ++ [p])) /\
          seg (hook_at (wq_this w)) (deref hs') 0 (ids ++ [p]) 0 /\
          (forall j, j ∉ ids -> hs' !! j = hs1 !! j)) as (hs' & -> & Hseg & Hout).
  { rewrite Hhead, Ht. destruct ids as [| x ids _] using rev_ind.
    - exists hs1. split_and!; [done | | done]. split; [| done]. unfold hs1. rewrite deref_insert, decide_True by done. by rewrite Ht.
    - rewrite last_or_snoc. destruct (Z.eqb_spec x 0) as [-> |]; [set_solver |]. cbn [negb].
      assert (x <> p) as Hxp by set_solver.
      assert (deref hs1 x = deref hs x) as -> by (unfold hs1; by rewrite deref_insert, decide_False by done).
      pose proof (proj2 (proj1 (seg_app _ _ _ _ _ _) Hs)) as [Hx _]. rewrite Hx. cbn [mbind result_bind hook_at hk_id hk_prev hk_owner].
      eexists. split; [reflexivity |]. apply NoDup_app in Hnd as (Hnd & _ & _). apply NoDup_app in Hnd as (_ & Hxids & _). split.
      + apply seg_app. split.
        * eapply seg_last; [| | exact Hs].
          -- intros y Hy. rewrite deref_insert, decide_False by (intros ->; by apply (Hxids x Hy), list_elem_of_singleton).
             unfold hs1. rewrite deref_insert, decide_False; [done | set_solver].
          -- by rewrite deref_insert, decide_True by done.
        * split; [| done]. rewrite deref_insert, decide_False by done. unfold hs1. rewrite deref_insert, decide_True by done.
          by rewrite Ht.
      + intros j Hj. rewrite lookup_insert_ne; [done | set_solver]. }
  cbn [mbind result_bind]. eexists _, _. split; [reflexivity |]. split; [| split; [done |]].
  - split; cbn [wq_head wq_tail wq_size wq_this]; try done; [by rewrite last_or_snoc | set_solver |].
    intros i h Hi. rewrite elem_of_app, list_elem_of_singleton. destruct (decide (i ∈ ids)) as [Hin | Hin].
    + destruct (seg_cell _ _ _ _ _ i Hseg) as (nx & pv & E); [set_solver |]. apply hook_deref_ok in E. rewrite Hi in E.
      injection E as ->. cbn. naive_solver.
    + rewrite Hout in Hi by done. unfold hs1 in Hi. destruct (decide (i = p)) as [-> |].
      * rewrite lookup_insert_eq in Hi. injection Hi as <-. cbn. naive_solver.
      * rewrite lookup_insert_ne in Hi by done. rewrite (Ho _ _ Hi). naive_solver.
  - intros j Hj. rewrite Hout by set_solver. unfold hs1. rewrite lookup_insert_ne; [done | set_solver].
Qed.

Section Erase.
Context (this : Z).

Abbreviation seg_in hs := (seg (hook_at this) (deref hs)).

(** The links before the hook, and behind it. *)
Lemma wq_mend_before hs a n n' head :
  seg_in hs 0 a n -> NoDup a -> 0 ∉ a -> (a <> [] -> head = hd_or 0 a) ->
  exists hs', (if negb (last_or 0 a =? 0) then
      b ← deref hs (last_or 0 a);
      Ok (<[last_or 0 a := mk_hook (hk_id b) (hk_prev b) n' (hk_owner b)]> hs, head)
    else Ok (hs, n')) = Ok (hs', hd_or n' a) /\
    seg_in hs' 0 a n' /\ (forall j, j ∉ a -> hs' !! j = hs !! j) /\
    (forall j, hk_owner <$> hs' !! j = hk_owner <$> hs !! j).
Proof.
  destruct a as [| y a _] using rev_ind; intros Hs Hn H0 Hh; [by exists hs |].
  apply NoDup_app in Hn as (_ & Hy & _). rewrite last_or_snoc. destruct (Z.eqb_spec y 0) as [-> |]; [set_solver |].
  pose proof (proj2 (proj1 (seg_app _ _ _ _ _ _) Hs)) as [Hcy _]. rewrite Hcy. cbn [negb mbind result_bind hook_at hk_id hk_prev hk_owner].
  eexists. split_and!.
  - rewrite (Hh ltac:(by intros [_ ?]%app_eq_nil)). by rewrite !hd_or_app.
  - eapply seg_last; [| by rewrite deref_insert, decide_True by done | exact Hs]. intros j Hj.
    rewrite deref_insert, decide_False; [done | set_solver].
  - intros j Hj. rewrite lookup_insert_ne; [done | set_solver].
  - intros j. destruct (decide (j = y)) as [-> |]; [| by rewrite lookup_insert_ne]. apply hook_deref_ok in Hcy.
    by rewrite lookup_insert_eq, Hcy.
Qed.

Lemma wq_mend_behind hs p p' b tail :
  seg_in hs p b 0 -> NoDup b -> 0 ∉ b -> (b <> [] -> tail = last_or 0 b) ->
  exists hs', (if negb (hd_or 0 b =? 0) then
      n ← deref hs (hd_or 0 b);
      Ok (<[hd_or 0 b := mk_hook (hk_id n) p' (hk_next n) (hk_owner n)]> hs, tail)
    else Ok (hs, p')) = Ok (hs', last_or p' b) /\
    seg_in hs' p' b 0 /\ (forall j, j ∉ b -> hs' !! j = hs !! j) /\
    (forall j, hk_owner <$> hs' !! j = hk_owner <$> hs !! j).
Proof.
  destruct b as [| y b]; intros Hs Hn H0 Ht; [by exists hs |]. apply NoDup_cons in Hn as [Hy _].
  change (hd_or 0 (y :: b)) with y. destruct (Z.eqb_spec y 0) as [-> |]; [set_solver |].
  pose proof Hs as [Hcy _]. rewrite Hcy. cbn [negb mbind result_bind hook_at hk_id hk_next hk_owner]. eexists. split_and!.
  - by rewrite (Ht ltac:(done)), !last_or_cons.
  - eapply seg_first; [| by rewrite deref_insert, decide_True by done | exact Hs]. intros j Hj.
    rewrite deref_insert, decide_False; [done | set_solver].
  - intros j Hj. rewrite lookup_insert_ne; [done | set_solver].
  - intros j. destruct (decide (j = y)) as [-> |]; [| by rewrite lookup_insert_ne]. apply hook_deref_ok in Hcy.
    by rewrite lookup_insert_eq, Hcy.
Qed.

End Erase.

Lemma wq_erase_spec hs w a x b :
  wq_rep hs w (a ++ x :: b) -> wq_this w <> 0 ->
  exists hs' w', wq_erase w hs x = Ok (hs', w') /\ wq_rep hs' w' (a ++ b) /\ wq_this w' = wq_this w /\
    (forall j, j ∉ a ++ x :: b -> hs' !! j = hs !! j) /\ hs' !! x = Some (mk_hook x 0 0 0).
Proof.
  intros [Hh Ht Hs Hn H0 Hsz Ho] Hthis. unfold wq_erase.
  apply NoDup_app in Hn as (Hna & Hab & [Hxb Hnb]%NoDup_cons).
  assert (x ∉ a) as Hxa by (intros Hx; apply (Hab _ Hx); left).
  apply seg_app in Hs as [Hsa [Hcx Hsb]]. rewrite Hcx. cbn [mbind result_bind hook_at hk_owner hk_prev hk_next hk_id].
  rewrite Z.eqb_refl. cbn [negb].
  destruct (wq_mend_before (wq_this w) hs a x (hd_or 0 b) (wq_head w)) as (hs1 & -> & Hseg1 & Ho1 & Hw1); [done | done | set_solver | |].
  { intros Hne. rewrite Hh. by destruct a. }
  cbn [mbind result_bind].
  destruct (wq_mend_behind (wq_this w) hs1 x (last_or 0 a) b (wq_tail w)) as (hs2 & -> & Hseg2 & Ho2 & Hw2).
  { eapply seg_ext; [| exact Hsb]. intros y Hy. unfold deref. rewrite Ho1; [done |]. intros Hya. apply (Hab _ Hya). by right. }
  { done. }
  { set_solver. }
  { intros Hne. rewrite Ht, last_or_app, last_or_cons. by destruct b as [| y b _] using rev_ind; [| rewrite !last_or_snoc]. }
  cbn [mbind result_bind]. rewrite Hsz, zlen_app, zlen_cons. pose proof (zlen_nonneg a). pose proof (zlen_nonneg b).
  rewrite (proj2 (Z.eqb_neq _ _)) by lia. eexists _, _. split; [reflexivity |].
  split; [| split; [done | split; [| apply lookup_insert_eq]]].
  - split; cbn [wq_head wq_tail wq_size wq_this].
    + by rewrite hd_or_app.
    + by rewrite last_or_app.
    + apply seg_app. split; [apply (seg_ext _ (deref hs1)); [| exact Hseg1] | apply (seg_ext _ (deref hs2)); [| exact Hseg2]];
        intros y Hy; rewrite deref_insert, decide_False by (by intros ->); [| done].
      unfold deref. rewrite Ho2; [done |]. intros Hyb. apply (Hab _ Hy). by right.
    + apply NoDup_app. split_and!; [done | | done]. intros y Hy Hyb. apply (Hab _ Hy). by right.
    + set_solver.
    + rewrite zlen_app. lia.
    + intros i h Hi. destruct (decide (i = x)) as [-> | Hix].
      * rewrite lookup_insert_eq in Hi. injection Hi as <-. cbn. split; [intros ?; congruence | set_solver].
      * rewrite lookup_insert_ne in Hi by done. pose proof (Hw2 i) as E2. rewrite Hw1, Hi in E2. cbn in E2.
        destruct (hs !! i) as [h0 |] eqn:E; [| done]. cbn in E2. injection E2 as ->. rewrite (Ho _ _ E). set_solver.
  - intros j Hj. rewrite lookup_insert_ne by set_solver. rewrite Ho2, Ho1 by set_solver. done.
Qed.

(** ** Two queues over one memory *)

(** The hooks are in one of two queues, or in none. *)
Record queues (hs : hooks) (v : waiters_queue) (ids : list Z) (w : waiters_queue) (others : list Z) : Prop := {
  qs_left : wq_rep hs v ids;
  qs_right : wq_rep hs w others;
  qs_this : wq_this v <> wq_this w /\ wq_this v <> 0 /\ wq_this w <> 0;
  qs_unlinked : forall i h, hs !! i = Some h -> i ∉ ids -> i ∉ others -> h = mk_hook i 0 0 0 }.

(** Changes that keep the hooks there. *)
Definition same_hooks (hs hs' : hooks) : Prop := forall i, is_Some (hs' !! i) <-> is_Some (hs !! i).

Lemma queues_sym hs v ids w others : queues hs v ids w others -> queues hs w others v ids.
Proof. intros [H1 H2 (? & ? & ?) H4]. split; [done | done | by split_and! |]. intros i h Hi ? ?. by apply H4. Qed.

Lemma wq_rep_hook hs w ids i : wq_rep hs w ids -> i ∈ ids -> exists h, hs !! i = Some h /\ hk_owner h = wq_this w.
Proof.
  intros Hr Hi. destruct (seg_cell _ _ _ _ _ i (wr_seg _ _ _ Hr) Hi) as (nx & pv & E%hook_deref_ok). by eexists.
Qed.

Lemma queues_apart hs v ids w others i : queues hs v ids w others -> i ∈ ids -> i ∉ others.
Proof.
  intros Hq Hv Hw. destruct (wq_rep_hook _ _ _ _ (qs_left _ _ _ _ _ Hq) Hv) as (h & Eh & E1).
  destruct (wq_rep_hook _ _ _ _ (qs_right _ _ _ _ _ Hq) Hw) as (h' & Eh' & E2). rewrite Eh in Eh'. injection Eh' as <-.
  destruct (qs_this _ _ _ _ _ Hq) as [Hne _]. congruence.
Qed.

Lemma queues_linked hs v ids w others i h : queues hs v ids w others -> hs !! i = Some h -> i ∈ ids -> linked h = true.
Proof.
  intros Hq Eh Hi. apply (wr_owner _ _ _ (qs_left _ _ _ _ _ Hq) _ _ Eh) in Hi. unfold linked. rewrite Hi.
  destruct (qs_this _ _ _ _ _ Hq) as (_ & H0 & _). rewrite (proj2 (Z.eqb_neq _ _) H0). by rewrite orb_true_r.
Qed.

(** The other queue when the hooks of this one change. *)
Lemma queues_change hs hs' v v' ids ids' w others :
  queues hs v ids w others -> wq_rep hs' v' ids' -> wq_this v' = wq_this v ->
  (forall i, i ∈ ids' -> i ∉ others) ->
  (forall i, i ∉ ids -> i ∉ ids' -> hs' !! i = hs !! i) ->
  (forall i, i ∈ ids -> i ∉ ids' -> hs' !! i = Some (mk_hook i 0 0 0)) ->
  (forall i, i ∈ ids' -> is_Some (hs !! i)) ->
  queues hs' v' ids' w others /\ same_hooks hs hs'.
Proof.
  intros Hq Hv' Hthis Hap Hout Hin Hdom. pose proof Hq as [H1 H2 (T1 & T2 & T3) H4]. split; [split |].
  - done.
  - eapply wq_rep_ext; [| | exact H2].
    + intros i Hi. apply Hout; [| intros Hi'; by apply (Hap i)]. intros Hi'. by apply (queues_apart _ _ _ _ _ i Hq).
    + intros i h Hi Hni. destruct (decide (i ∈ ids')) as [Hi' | Hi'].
      * apply (wr_owner _ _ _ Hv' _ _ Hi) in Hi'. congruence.
      * destruct (decide (i ∈ ids)) as [Hii | Hii].
        -- rewrite (Hin i Hii Hi') in Hi. injection Hi as <-. done.
        -- rewrite Hout in Hi by done. intros E. by apply Hni, (wr_owner _ _ _ H2 _ _ Hi).
  - rewrite Hthis. by split_and!.
  - intros i h Hi Hi' Hni. destruct (decide (i ∈ ids)) as [Hii | Hii].
    + rewrite (Hin i Hii Hi') in Hi. by injection Hi.
    + rewrite Hout in Hi by done. by apply H4.
  - intros i. destruct (decide (i ∈ ids')) as [Hi' | Hi'].
    + split; intros _; [by apply Hdom |]. destruct (wq_rep_hook _ _ _ _ Hv' Hi') as (h & -> & _). by eexists.
    + destruct (decide (i ∈ ids)) as [Hii | Hii]; [| by rewrite Hout].
      rewrite (Hin i Hii Hi'). destruct (wq_rep_hook _ _ _ _ H1 Hii) as (h & -> & _). split; by eexists.
Qed.

Lemma queues_erase hs v a x b w others :
  queues hs v (a ++ x :: b) w others ->
  exists hs' v', wq_erase v hs x = Ok (hs', v') /\ queues hs' v' (a ++ b) w others /\ same_hooks hs hs' /\ wq_this v' = wq_this v.
Proof.
  intros Hq. destruct (qs_this _ _ _ _ _ Hq) as (_ & T & _).
  destruct (wq_erase_spec _ _ _ _ _ (qs_left _ _ _ _ _ Hq) T) as (hs' & v' & E & Hv & Hthis & Hout & Hx).
  exists hs', v'. assert (queues hs' v' (a ++ b) w others /\ same_hooks hs hs') as [? ?]; [| by split_and!].
  assert (forall i, i ∈ a ++ b -> i ∈ a ++ x :: b) as Hsub by (intros i; rewrite !elem_of_app, elem_of_cons; naive_solver).
  eapply queues_change; [exact Hq | done | done | | | |].
  - intros i Hi. by apply (queues_apart _ _ _ _ _ i Hq), Hsub.
  - intros i Hi _. by apply Hout.
  - intros i Hi Hni. destruct (decide (i = x)) as [-> | Hne]; [done |]. exfalso. apply Hni. revert Hi.
    rewrite !elem_of_app, elem_of_cons. naive_solver.
  - intros i Hi%Hsub. destruct (wq_rep_hook _ _ _ _ (qs_left _ _ _ _ _ Hq) Hi) as (h & -> & _). by eexists.
Qed.

Lemma queues_push_back hs v ids w others p :
  queues hs v ids w others -> is_Some (hs !! p) -> p ∉ ids -> p ∉ others -> p <> 0 -> zlen ids + 1 < 2 ^ 64 ->
  exists hs' v', wq_push_back v hs p = Ok (hs', v') /\ queues hs' v' (ids ++ [p]) w others /\ same_hooks hs hs' /\ wq_this v' = wq_this v.
Proof.
  intros Hq [h Hp] Hi Ho H0 Hlen. pose proof (qs_unlinked _ _ _ _ _ Hq _ _ Hp Hi Ho) as ->. destruct (qs_this _ _ _ _ _ Hq) as (_ & T & _).
  destruct (wq_push_back_spec _ _ _ _ (qs_left _ _ _ _ _ Hq) Hp H0 T Hlen) as (hs' & v' & E & Hv & Hthis & Hout).
  exists hs', v'. assert (queues hs' v' (ids ++ [p]) w others /\ same_hooks hs hs') as [? ?]; [| by split_and!].
  eapply queues_change; [exact Hq | done | done | | | |].
  - intros i [Hin | ->%list_elem_of_singleton]%elem_of_app; [by apply (queues_apart _ _ _ _ _ i Hq) | done].
  - intros i _ Hni. by apply Hout.
  - intros i Hin Hni. exfalso. apply Hni, elem_of_app. by left.
  - intros i [Hin | ->%list_elem_of_singleton]%elem_of_app; [| by eexists].
    destruct (wq_rep_hook _ _ _ _ (qs_left _ _ _ _ _ Hq) Hin) as (h & -> & _). by eexists.
Qed.

(** A hook comes and goes. *)
Lemma queues_new hs v ids w others p :
  queues hs v ids w others -> hs !! p = None -> queues (hook_new hs p) v ids w others.
Proof.
  intros Hq Hp. pose proof Hq as [H1 H2 H3 H4].
  assert (forall u l, wq_rep hs u l -> wq_this u <> 0 -> wq_rep (hook_new hs p) u l) as Hext.
  { intros u l Hr Hu. unfold hook_new. eapply wq_rep_ext; [| | exact Hr].
    - intros i Hi. rewrite lookup_insert_ne; [done |]. intros <-. destruct (wq_rep_hook _ _ _ _ Hr Hi) as (h & ? & _). congruence.
    - intros i h Hi Hni. destruct (decide (i = p)) as [-> |]; [rewrite lookup_insert_eq in Hi; by injection Hi as <- |].
      rewrite lookup_insert_ne in Hi by done. intros E. by apply Hni, (wr_owner _ _ _ Hr _ _ Hi). }
  split; [apply Hext; [done | apply H3] | apply Hext; [done | apply H3] | done |]. intros i h Hi. unfold hook_new in Hi.
  destruct (decide (i = p)) as [-> |]; [rewrite lookup_insert_eq in Hi; by injection Hi |]. rewrite lookup_insert_ne in Hi by done. by apply H4.
Qed.

Lemma queues_destroy hs v ids w others p :
  queues hs v ids w others -> is_Some (hs !! p) -> p ∉ ids -> p ∉ others ->
  hook_destroy hs p = Ok (delete p hs) /\ queues (delete p hs) v ids w others.
Proof.
  intros Hq [h Hp] Hi Ho. pose proof (qs_unlinked _ _ _ _ _ Hq _ _ Hp Hi Ho) as ->. pose proof Hq as [H1 H2 H3 H4].
  assert (forall u l, wq_rep hs u l -> p ∉ l -> wq_rep (delete p hs) u l) as Hext.
  { intros u l Hr Hu. eapply wq_rep_ext; [| | exact Hr].
    - intros i Hil. rewrite lookup_delete_ne; [done |]. by intros <-.
    - intros i h [_ Hh]%lookup_delete_Some Hni E. by apply Hni, (wr_owner _ _ _ Hr _ _ Hh). }
  split; [unfold hook_destroy; rewrite (proj2 (hook_deref_ok _ _ _) Hp); done |].
  split; [by apply Hext | by apply Hext | done |]. intros i h [_ Hh]%lookup_delete_Some. by apply H4.
Qed.
