(* ===== verification/Channel.v ===== *)
(** * Channel: buffered channels between coroutines

    [channel] of [coroutine/channel.h] on the scheduler of [Ordinator], of which it needs the stack
    of the coroutines that resumed each other; [ChannelScheduler] shows that the steps here are
    steps of the ordinator. A coroutine is at a loop of [push], [pop] or [close], or runs code of
    the client; [resume] puts another one on the stack and [suspend] takes the running one off, and
    either goes on where it stopped. *)

From S2P Require Import Prelude IndexList WaitersQueue.

Section Channel.
Context {T : Type} (dflt : T).        (* T() *)

(** ** The buffer *)

Record channel : Type := mk_channel {
  buf_ : list T;
  r_ptr_ : Z;
  w_ptr_ : Z;
  data_size_ : Z;
  writers_ : waiters_queue;
  readers_ : waiters_queue;
  closed_ : bool }.

Definition set_buffer (c : channel) buf r w n := mk_channel buf r w n (writers_ c) (readers_ c) (closed_ c).
Definition set_writers (c : channel) w := mk_channel (buf_ c) (r_ptr_ c) (w_ptr_ c) (data_size_ c) w (readers_ c) (closed_ c).
Definition set_readers (c : channel) r := mk_channel (buf_ c) (r_ptr_ c) (w_ptr_ c) (data_size_ c) (writers_ c) r (closed_ c).
Definition set_closed (c : channel) b := mk_channel (buf_ c) (r_ptr_ c) (w_ptr_ c) (data_size_ c) (writers_ c) (readers_ c) b.

(** Addresses of the queues. *)
Definition writers_at : Z := 1.
Definition readers_at : Z := 2.

(** [channel(cap)]: an empty one throws a [std::logic_error]. *)
Definition channel_new (cap : nat) : result channel :=
  match cap with
  | O => Fail (Throw errLogic)
  | _ => Ok (mk_channel (replicate cap dflt) 0 0 0 (mk_wq writers_at 0 0 0) (mk_wq readers_at 0 0 0) false)
  end.

Definition capacity (c : channel) : Z := zlen (buf_ c).
Definition empty (c : channel) : bool := data_size_ c =? 0.
Definition full (c : channel) : bool := data_size_ c =? zlen (buf_ c).
Definition opened (c : channel) : bool := negb (closed_ c).

Definition push_impl (c : channel) (obj : T) : result channel :=
  _ ← of_option Undefined (znth (buf_ c) (w_ptr_ c));
  let c := set_buffer c (zset (buf_ c) (w_ptr_ c) obj) (r_ptr_ c) ((w_ptr_ c + 1) mod zlen (buf_ c)) (data_size_ c + 1) in
  if data_size_ c <=? zlen (buf_ c) then Ok c else Fail AssertFail.

Definition pop_impl (c : channel) : result ((T * bool) * channel) :=
  if negb (data_size_ c =? 0) then
    obj ← of_option Undefined (znth (buf_ c) (r_ptr_ c));
    Ok ((obj, true), set_buffer c (buf_ c) ((r_ptr_ c + 1) mod zlen (buf_ c)) (w_ptr_ c) (data_size_ c - 1))
  else Ok ((dflt, false), c).

(** ** Coroutines *)

(** What a coroutine is doing. *)
Inductive pc : Type :=
| AtUser                  (* runs code of the client, or was suspended by it *)
| AtPush (obj : T)        (* at the head of the first loop of push *)
| AtPushed                (* at the head of the loop of push that wakes readers *)
| AtPop                   (* at the head of the first loop of pop *)
| AtPopped (r : T * bool) (* at the head of the loop of pop that wakes writers *)
| AtCloseReaders          (* at the heads of the loops of close *)
| AtCloseWriters.

(** The channel, the memory of the hooks, what the coroutines and the main routine (0) are doing,
    and the coroutines that resumed each other, the running one first. *)
Record system : Type := mk_system {
  chan : channel;
  memory : hooks;
  pcs : gmap Z pc;
  chain : list Z }.

Definition current (s : system) : Z := hd_or 0 (chain s).

Definition goto (s : system) (p : pc) : system := mk_system (chan s) (memory s) (<[current s := p]> (pcs s)) (chain s).
Definition set_chan (s : system) (c : channel) : system := mk_system c (memory s) (pcs s) (chain s).
Definition set_memory (s : system) (hs : hooks) : system := mk_system (chan s) hs (pcs s) (chain s).

(** [resume(id)]: nothing for the running one, an error for one that is not there any more, the
    end of the process for an active ancestor. *)
Definition resume (s : system) (id : Z) : result (bool * system) :=
  if id =? current s then Ok (true, s)
  else if bool_decide (id = 0) then Fail AssertFail
  else if bool_decide (id ∈ chain s) then Fail AssertFail
  else if bool_decide (is_Some (pcs s !! id)) then Ok (true, mk_system (chan s) (memory s) (pcs s) (id :: chain s))
  else Ok (false, s).

(** [res = resume(queue.front()); assertrx_dbg(!res)] *)
Definition resume_front (s : system) (w : waiters_queue) : result system :=
  id ← front (memory s) w;
  '(ok, s) ← resume s id;
  if (ok : bool) then Ok s else Fail AssertFail.

(** [suspend] *)
Definition suspend (s : system) : result system :=
  if current s =? 0 then Fail AssertFail
  else Ok (mk_system (chan s) (memory s) (pcs s) (tail (chain s))).

Definition waiter (s : system) : result hook := deref (memory s) (current s).

(** Linking and unlinking the hook of the running coroutine. *)
Definition link_writer (s : system) : result system :=
  h ← waiter s;
  if linked h then Ok s
  else '(hs, w) ← wq_push_back (writers_ (chan s)) (memory s) (current s); Ok (set_memory (set_chan s (set_writers (chan s) w)) hs).
Definition unlink_writer (s : system) : result system :=
  h ← waiter s;
  if linked h then '(hs, w) ← wq_erase (writers_ (chan s)) (memory s) (current s); Ok (set_memory (set_chan s (set_writers (chan s) w)) hs)
  else Ok s.
Definition link_reader (s : system) : result system :=
  h ← waiter s;
  if linked h then Ok s
  else '(hs, w) ← wq_push_back (readers_ (chan s)) (memory s) (current s); Ok (set_memory (set_chan s (set_readers (chan s) w)) hs).
Definition unlink_reader (s : system) : result system :=
  h ← waiter s;
  if linked h then '(hs, w) ← wq_erase (readers_ (chan s)) (memory s) (current s); Ok (set_memory (set_chan s (set_readers (chan s) w)) hs)
  else Ok s.

(** Leaving [push] or [pop]: the hook goes out of scope. *)
Definition leave (s : system) : result system :=
  hs ← hook_destroy (memory s) (current s); Ok (goto (set_memory s hs) AtUser).

(** What the channel did. *)
Inductive event : Type :=
| Pushed (obj : T)
| Threw                   (* "Attempt to write in closed channel" *)
| Popped (r : T * bool)
| Closed
| Reopened.

(** A round of the loop that the running coroutine is at. *)
Definition push_round (s : system) (obj : T) : result (system * list event) :=
  if full (chan s) || closed_ (chan s) then
    if closed_ (chan s) then
      s ← unlink_writer s; s ← leave s; Ok (s, [Threw])
    else s ← link_writer s; s ← suspend s; Ok (s, [])
  else
    c ← push_impl (chan s) obj;
    s ← unlink_writer (set_chan s c);
    Ok (goto s AtPushed, [Pushed obj]).

Definition pushed_round (s : system) : result (system * list event) :=
  if negb (wq_size (readers_ (chan s)) =? 0) && negb (empty (chan s)) then
    s ← resume_front s (readers_ (chan s)); Ok (s, [])
  else s ← leave s; Ok (s, []).

Definition pop_round (s : system) : result (system * list event) :=
  if empty (chan s) && negb (closed_ (chan s)) then
    s ← link_reader s; s ← suspend s; Ok (s, [])
  else
    '(r, c) ← pop_impl (chan s);
    s ← unlink_reader (set_chan s c);
    Ok (goto s (AtPopped r), [Popped r]).

Definition popped_round (s : system) : result (system * list event) :=
  if negb (wq_size (writers_ (chan s)) =? 0) && negb (full (chan s)) then
    s ← resume_front s (writers_ (chan s)); Ok (s, [])
  else s ← leave s; Ok (s, []).

Definition close_readers_round (s : system) : result (system * list event) :=
  if negb (wq_size (readers_ (chan s)) =? 0) then s ← resume_front s (readers_ (chan s)); Ok (s, [])
  else Ok (goto s AtCloseWriters, []).

Definition close_writers_round (s : system) : result (system * list event) :=
  if negb (wq_size (writers_ (chan s)) =? 0) then s ← resume_front s (writers_ (chan s)); Ok (s, [])
  else Ok (goto s AtUser, []).

Definition round (s : system) : result (system * list event) :=
  match pcs s !! current s with
  | Some (AtPush obj) => push_round s obj
  | Some AtPushed => pushed_round s
  | Some AtPop => pop_round s
  | Some (AtPopped _) => popped_round s
  | Some AtCloseReaders => close_readers_round s
  | Some AtCloseWriters => close_writers_round s
  | Some AtUser | None => Fail Undefined
  end.

(** What the code of the client may do. *)
Inductive call : Type :=
| CallPush (obj : T)
| CallPop
| CallClose
| CallReopen
| CallSuspend
| CallResume (id : Z)
| CallCreate (id : Z)     (* the id of the new coroutine, which is not started *)
| CallReturn.             (* from the function of the coroutine *)

(** Entering [push]: with the debug check of the order of the writers. *)
Definition push (s : system) (obj : T) : result system :=
  if current s =? 0 then Fail AssertFail
  else
    let s := goto (set_memory s (hook_new (memory s) (current s))) (AtPush obj) in
    if negb (full (chan s)) && negb (closed_ (chan s)) && negb (wq_empty (writers_ (chan s))) then Fail AssertFail
    else Ok s.

Definition pop (s : system) : result system :=
  if current s =? 0 then Fail AssertFail
  else Ok (goto (set_memory s (hook_new (memory s) (current s))) AtPop).

Definition close (s : system) : system := goto (set_chan s (set_closed (chan s) true)) AtCloseReaders.

Definition reopen (s : system) : result system :=
  if opened (chan s) then Fail AssertFail
  else if negb (wq_empty (writers_ (chan s))) then Fail AssertFail
  else if negb (wq_empty (readers_ (chan s))) then Fail AssertFail
  else Ok (set_chan s (set_buffer (set_closed (chan s) false) (buf_ (chan s)) 0 0 0)).

Definition do_call (s : system) (c : call) : result (system * list event) :=
  match c with
  | CallPush obj => s ← push s obj; Ok (s, [])
  | CallPop => s ← pop s; Ok (s, [])
  | CallClose => Ok (close s, [Closed])
  | CallReopen => s ← reopen s; Ok (s, [Reopened])
  | CallSuspend => s ← suspend s; Ok (s, [])
  | CallResume id => '(_, s) ← resume s id; Ok (s, [])
  | CallCreate id => Ok (mk_system (chan s) (memory s) (<[id := AtUser]> (pcs s)) (chain s), [])
  | CallReturn => if current s =? 0 then Fail AssertFail else Ok (mk_system (chan s) (memory s) (delete (current s) (pcs s)) (tail (chain s)), [])
  end.

(** A step: a call of the client if its code runs, else a round of a loop. *)
Definition step (s : system) (c : call) : result (system * list event) :=
  match pcs s !! current s with
  | Some AtUser => do_call s c
  | _ => round s
  end.

Fixpoint run (s : system) (cs : list call) : result (system * list event) :=
  match cs with
  | [] => Ok (s, [])
  | c :: cs => '(s, ev) ← step s c; '(s, evs) ← run s cs; Ok (s, ev ++ evs)
  end.

(** Rounds of the loops until code of the client runs. *)
Fixpoint rounds (fuel : nat) (s : system) : result (system * list event) :=
  match pcs s !! current s with
  | Some AtUser => Ok (s, [])
  | _ =>
      match fuel with
      | O => Fail OutOfFuel
      | S fuel => '(s, ev) ← round s; '(s, evs) ← rounds fuel s; Ok (s, ev ++ evs)
      end
  end.

Definition system_init (c : channel) : system := mk_system c ∅ {[ 0 := AtUser ]} [].

End Channel.

Arguments channel : clear implicits.
Arguments system : clear implicits.
Arguments pc : clear implicits.
Arguments call : clear implicits.
Arguments event : clear implicits.

(** A reader waits; a writer pushes, and the reader takes the value at once; the writer fills the
    only cell and waits with the next value. *)
Example ping_pong :
  (c ← channel_new 0 1;
   '(s, ev) ← run 0 (system_init c)
     [CallCreate 1; CallCreate 2; CallResume 1; CallPop; CallSuspend; CallResume 2; CallPush 7; CallSuspend; CallSuspend;
      CallSuspend; CallPop; CallSuspend; CallSuspend; CallPush 8; CallSuspend; CallSuspend; CallPush 9; CallSuspend];
   Ok (chain s, wq_head (writers_ (chan s)), data_size_ (chan s), ev)) =
  Ok ([], 2, 1, [Pushed 7; Popped (7, true); Pushed 8]).
Proof. reflexivity. Qed.

(** A reader that is woken by [close], reopens the channel and waits again: the loop of [close]
    resumes it forever, because there is a reader and nothing to read. *)
Example close_livelock :
  match (c ← channel_new 0 1;
         run 0 (system_init c)
           [CallCreate 1; CallResume 1; CallPop; CallSuspend; CallClose; CallSuspend; CallSuspend; CallSuspend;
            CallReopen; CallPop; CallSuspend]) with
  | Ok (s, ev) => ev = [Closed; Popped (0, false); Reopened] /\ forall c1 c2, run 0 s [c1; c2] = Ok (s, [])
  | Fail _ => False
  end.
Proof. vm_compute. split; reflexivity. Qed.
