(* ===== verification/ChannelSpec.v ===== *)
(** * ChannelSpec: what a channel promises

    The channel with lists for the buffer and the queues, its invariants, and why nobody sleeps for
    nothing: while a channel is open, a reader waits only when there is nothing to read and a
    writer only when there is no room, whenever the code of the client runs. *)

From S2P Require Import Prelude IndexList WaitersQueue Channel.

Section Spec.
Context {T : Type} (dflt : T) (cap : Z).

Record view : Type := mk_view {
  items : list T;
  is_closed : bool;
  waiting_readers : list Z;
  waiting_writers : list Z;
  at_ : gmap Z (pc T);
  stack : list Z }.

Definition running (a : view) : Z := hd_or 0 (stack a).

Definition vgoto (a : view) (p : pc T) : view :=
  mk_view (items a) (is_closed a) (waiting_readers a) (waiting_writers a) (<[running a := p]> (at_ a)) (stack a).
Definition vresume (a : view) (id : Z) : view :=
  mk_view (items a) (is_closed a) (waiting_readers a) (waiting_writers a) (at_ a) (id :: stack a).
Definition vsuspend (a : view) : view :=
  mk_view (items a) (is_closed a) (waiting_readers a) (waiting_writers a) (at_ a) (tail (stack a)).
Definition with_items (a : view) q := mk_view q (is_closed a) (waiting_readers a) (waiting_writers a) (at_ a) (stack a).
Definition with_closed (a : view) b := mk_view (items a) b (waiting_readers a) (waiting_writers a) (at_ a) (stack a).
Definition with_readers (a : view) r := mk_view (items a) (is_closed a) r (waiting_writers a) (at_ a) (stack a).
Definition with_writers (a : view) w := mk_view (items a) (is_closed a) (waiting_readers a) w (at_ a) (stack a).

Definition without (x : Z) (l : list Z) : list Z := filter (fun y => y <> x) l.
Definition with_ (x : Z) (l : list Z) : list Z := if bool_decide (x ∈ l) then l else l ++ [x].

Definition vfull (a : view) : bool := bool_decide (zlen (items a) = cap).

(** A round of the loop that the running coroutine is at. *)
Definition vround (a : view) : view * list (event T) :=
  match at_ a !! running a with
  | Some (AtPush v) =>
      if is_closed a then (vgoto (with_writers a (without (running a) (waiting_writers a))) AtUser, [Threw])
      else if vfull a then (vsuspend (with_writers a (with_ (running a) (waiting_writers a))), [])
      else (vgoto (with_writers (with_items a (items a ++ [v])) (without (running a) (waiting_writers a))) AtPushed, [Pushed v])
  | Some AtPushed =>
      match waiting_readers a, items a with
      | r :: _, _ :: _ => (vresume a r, [])
      | _, _ => (vgoto a AtUser, [])
      end
  | Some AtPop =>
      let a' := with_readers a (without (running a) (waiting_readers a)) in
      match items a with
      | v :: q => (vgoto (with_items a' q) (AtPopped (v, true)), [Popped (v, true)])
      | [] => if is_closed a then (vgoto a' (AtPopped (dflt, false)), [Popped (dflt, false)])
              else (vsuspend (with_readers a (with_ (running a) (waiting_readers a))), [])
      end
  | Some (AtPopped _) =>
      match waiting_writers a with
      | w :: _ => if vfull a then (vgoto a AtUser, []) else (vresume a w, [])
      | [] => (vgoto a AtUser, [])
      end
  | Some AtCloseReaders =>
      match waiting_readers a with r :: _ => (vresume a r, []) | [] => (vgoto a AtCloseWriters, []) end
  | Some AtCloseWriters =>
      match waiting_writers a with w :: _ => (vresume a w, []) | [] => (vgoto a AtUser, []) end
  | Some AtUser | None => (a, [])
  end.

Definition vcall (a : view) (c : call T) : view * list (event T) :=
  match c with
  | CallPush v => (vgoto a (AtPush v), [])
  | CallPop => (vgoto a AtPop, [])
  | CallClose => (vgoto (with_closed a true) AtCloseReaders, [Closed])
  | CallReopen => (with_items (with_closed a false) [], [Reopened])
  | CallSuspend => (vsuspend a, [])
  | CallResume id =>
      (if bool_decide (id <> running a) && bool_decide (is_Some (at_ a !! id)) then vresume a id else a, [])
  | CallCreate id => (mk_view (items a) (is_closed a) (waiting_readers a) (waiting_writers a) (<[id := AtUser]> (at_ a)) (stack a), [])
  | CallReturn =>
      (mk_view (items a) (is_closed a) (waiting_readers a) (waiting_writers a) (delete (running a) (at_ a)) (tail (stack a)), [])
  end.

Definition vstep (a : view) (c : call T) : view * list (event T) :=
  match at_ a !! running a with
  | Some AtUser => vcall a c
  | _ => vround a
  end.

(** What the client must keep to: channels are for coroutines, a closed channel is reopened when
    nobody waits, and only coroutines that are not active are resumed, for whatever reason. *)
Definition legal (a : view) (c : call T) : Prop :=
  match c with
  | CallPush _ | CallPop | CallSuspend | CallReturn => stack a <> []
  | CallClose => True
  | CallReopen => is_closed a = true /\ waiting_readers a = [] /\ waiting_writers a = []
  | CallResume id => id = running a \/ (id <> 0 /\ id ∉ stack a)
  | CallCreate id => 1 <= id < 2 ^ 32 /\ at_ a !! id = None
  end.

Definition legal_step (a : view) (c : call T) : Prop := at_ a !! running a = Some AtUser -> legal a c.

(** ** Invariants *)

Definition in_push (p : pc T) : bool := match p with AtPush _ => true | _ => false end.
Definition in_pop (p : pc T) : bool := match p with AtPop => true | _ => false end.

(** In a call of [resume] when it is not running. *)
Definition resuming (p : pc T) : bool :=
  match p with AtPushed | AtPopped _ | AtCloseReaders | AtCloseWriters => true | _ => false end.

(** The main routine calls [close] only. *)
Definition for_main (p : pc T) : bool := match p with AtUser | AtCloseReaders | AtCloseWriters => true | _ => false end.

Definition running_at (a : view) (f : pc T -> bool) : Prop := exists p, at_ a !! running a = Some p /\ f p = true.

Record inv (a : view) : Prop := {
  iv_items : 0 < cap < 2 ^ 64 /\ zlen (items a) <= cap;
  iv_stack : NoDup (stack a) /\ 0 ∉ stack a;
  iv_main : exists p, at_ a !! 0 = Some p /\ for_main p = true;
  iv_active : forall i, i ∈ stack a -> is_Some (at_ a !! i);
  iv_ids : forall i, is_Some (at_ a !! i) -> 0 <= i < 2 ^ 32;
  iv_readers : NoDup (waiting_readers a) /\ forall i, i ∈ waiting_readers a -> at_ a !! i = Some AtPop;
  iv_writers : NoDup (waiting_writers a) /\ forall i, i ∈ waiting_writers a -> exists v, at_ a !! i = Some (AtPush v);
  iv_pop : forall i, at_ a !! i = Some AtPop -> i = running a \/ (i ∉ stack a /\ i ∈ waiting_readers a);
  iv_push : forall i v, at_ a !! i = Some (AtPush v) -> i = running a \/ (i ∉ stack a /\ i ∈ waiting_writers a);
  iv_resuming : forall i p, at_ a !! i = Some p -> resuming p = true -> i ∈ stack a \/ i = 0;
  iv_one_side : waiting_readers a = [] \/ waiting_writers a = [];
  iv_no_idle_reader : is_closed a = true \/ waiting_readers a = [] \/ items a = [] \/
    (zlen (items a) = 1 /\ exists p, at_ a !! running a = Some p /\ (p = AtPushed \/ p = AtPop));
  iv_no_idle_writer : is_closed a = true \/ waiting_writers a = [] \/ zlen (items a) = cap \/
    (zlen (items a) = cap - 1 /\ exists p, at_ a !! running a = Some p /\ ((exists r, p = AtPopped r) \/ in_push p = true));
  iv_closing : is_closed a = true ->
    (waiting_readers a = [] /\ waiting_writers a = []) \/
    (exists i, at_ a !! i = Some AtCloseReaders) \/
    (waiting_readers a = [] /\ exists i, at_ a !! i = Some AtCloseWriters) }.

Lemma elem_of_without x y l : y ∈ without x l <-> y ∈ l /\ y <> x.
Proof. unfold without. rewrite list_elem_of_filter. naive_solver. Qed.

Lemma NoDup_without x l : NoDup l -> NoDup (without x l).
Proof. apply NoDup_filter. Qed.

Lemma without_id x l : x ∉ l -> without x l = l.
Proof.
  intros Hx. unfold without. induction l as [| y l IH]; [done |]. apply not_elem_of_cons in Hx as [Hxy Hx].
  rewrite filter_cons_True by done. by rewrite IH.
Qed.

Lemma elem_of_with x y l : y ∈ with_ x l <-> y ∈ l \/ y = x.
Proof. unfold with_. case_bool_decide; [naive_solver |]. rewrite elem_of_app, list_elem_of_singleton. done. Qed.

Lemma NoDup_with x l : NoDup l -> NoDup (with_ x l).
Proof.
  intros Hl. unfold with_. case_bool_decide; [done |]. apply NoDup_app. split_and!; [done | | apply NoDup_singleton].
  intros y Hy ->%list_elem_of_singleton. done.
Qed.

Lemma running_in_stack a : stack a <> [] -> running a ∈ stack a.
Proof. unfold running. destruct (stack a) as [| x l]; [done |]. intros _. left. Qed.

Lemma running_zero a : inv a -> (running a = 0 <-> stack a = []).
Proof.
  intros Hi. destruct (iv_stack _ Hi) as [_ H0]. unfold running. destruct (stack a) as [| x l]; [done |].
  change (hd_or 0 (x :: l)) with x. split; [intros ->; exfalso; apply H0; left | done].
Qed.

(** Who runs a loop of [push] or [pop] is a coroutine. *)
Lemma running_coroutine a p : inv a -> at_ a !! running a = Some p -> for_main p = false -> stack a <> [].
Proof.
  intros Hi Hp Hm E. destruct (iv_main _ Hi) as (p' & Hp' & Hm'). apply (running_zero _ Hi) in E. rewrite E in Hp. congruence.
Qed.

(** ** Moves of the running coroutine *)

Lemma running_is a : running a ∈ stack a \/ running a = 0.
Proof. unfold running. destruct (stack a); [by right | left; left]. Qed.

(** The running coroutine goes on to another loop; it waits nowhere then. *)
Lemma inv_goto a q cl R W p :
  inv a -> is_Some (at_ a !! running a) -> (for_main p = true \/ stack a <> []) -> zlen q <= cap ->
  R = without (running a) (waiting_readers a) -> W = without (running a) (waiting_writers a) ->
  let a' := mk_view q cl R W (<[running a := p]> (at_ a)) (stack a) in
  (cl = true \/ R = [] \/ q = [] \/ (zlen q = 1 /\ (p = AtPushed \/ p = AtPop))) ->
  (cl = true \/ W = [] \/ zlen q = cap \/ (zlen q = cap - 1 /\ ((exists r, p = AtPopped r) \/ in_push p = true))) ->
  (cl = true -> (R = [] /\ W = []) \/ (exists i, at_ a' !! i = Some AtCloseReaders) \/ (R = [] /\ exists i, at_ a' !! i = Some AtCloseWriters)) ->
  inv a'.
Proof.
  intros [H1 H2 H3 H4 H5 H6 H7 H8 H9 H10 H11 H12 H13 H14] Hrun Hmain Hq -> -> a' HgR HgW Hcl.
  assert (running a' = running a) as Er by done. unfold a' in *. clear a'. split; cbn [items is_closed waiting_readers waiting_writers at_ stack]; try done.
  - split; [apply H1 | done].
  - destruct (decide (running a = 0)) as [E | E]; [| rewrite lookup_insert_ne by done; done].
    rewrite E, lookup_insert_eq. exists p. split; [done |]. destruct Hmain as [? | Hs]; [done |]. exfalso.
    apply (proj2 H2). rewrite <- E. by apply running_in_stack.
  - intros i Hi. apply lookup_insert_is_Some'. right. by apply H4.
  - intros i [<- | [_ Hi]]%lookup_insert_is_Some; apply H5; [done | done].
  - split; [apply NoDup_without, H6 |]. intros i [Hi Hne]%elem_of_without. rewrite lookup_insert_ne by done. by apply H6.
  - split; [apply NoDup_without, H7 |]. intros i [Hi Hne]%elem_of_without. rewrite lookup_insert_ne by done. by apply H7.
  - intros i Hi. rewrite Er. destruct (decide (i = running a)) as [-> | Hne]; [by left |]. rewrite lookup_insert_ne in Hi by done.
    destruct (H8 i Hi) as [? | [? ?]]; [done | right]. by rewrite elem_of_without.
  - intros i v Hi. rewrite Er. destruct (decide (i = running a)) as [-> | Hne]; [by left |]. rewrite lookup_insert_ne in Hi by done.
    destruct (H9 i v Hi) as [? | [? ?]]; [done | right]. by rewrite elem_of_without.
  - intros i p' Hi Hp'. destruct (decide (i = running a)) as [-> | Hne]; [apply running_is |]. rewrite lookup_insert_ne in Hi by done. by eapply H10.
  - destruct H11 as [-> | ->]; [left | right]; reflexivity.
  - rewrite Er, lookup_insert_eq. destruct HgR as [? | [? | [? | [? ?]]]]; eauto 9.
  - rewrite Er, lookup_insert_eq. destruct HgW as [? | [? | [? | [? ?]]]]; eauto 9.
Qed.

(** Another coroutine runs instead. *)
Lemma inv_resume a id p :
  inv a -> at_ a !! running a = Some p -> in_push p = false -> in_pop p = false ->
  is_Some (at_ a !! id) -> id ∉ stack a -> id <> 0 ->
  (is_closed a = true \/ waiting_readers a = [] \/ items a = [] \/ (zlen (items a) = 1 /\ at_ a !! id = Some AtPop)) ->
  (is_closed a = true \/ waiting_writers a = [] \/ zlen (items a) = cap \/
    (zlen (items a) = cap - 1 /\ exists v, at_ a !! id = Some (AtPush v))) ->
  inv (vresume a id).
Proof.
  intros [H1 H2 H3 H4 H5 H6 H7 H8 H9 H10 H11 H12 H13 H14] Hp Hnpush Hnpop Hid Hns Hid0 HgR HgW.
  split; unfold vresume; cbn [items is_closed waiting_readers waiting_writers at_ stack]; try done;
    change (running (mk_view _ _ _ _ _ (id :: stack a))) with id.
  - split; [constructor; [done | apply H2] |]. apply not_elem_of_cons. split; [done | apply H2].
  - intros i [-> | Hi]%elem_of_cons; [done | by apply H4].
  - intros i Hi. destruct (decide (i = id)) as [-> | Hne]; [by left | right].
    destruct (H8 i Hi) as [-> | [Hs Hr]]; [rewrite Hp in Hi; injection Hi as ->; done |]. split; [by apply not_elem_of_cons | done].
  - intros i v Hi. destruct (decide (i = id)) as [-> | Hne]; [by left | right].
    destruct (H9 i v Hi) as [-> | [Hs Hr]]; [rewrite Hp in Hi; injection Hi as ->; done |]. split; [by apply not_elem_of_cons | done].
  - intros i p' Hi Hp'. destruct (H10 i p' Hi Hp') as [? | ->]; [left; by right | by right].
  - destruct HgR as [? | [? | [? | [? ?]]]]; [auto | auto | auto |]. do 3 right. split; [done |]. exists AtPop. auto.
  - destruct HgW as [? | [? | [? | [? [v Hv]]]]]; [auto | auto | auto |]. do 3 right. split; [done |]. exists (AtPush v). split; [done |]. by right.
Qed.

(** The running coroutine waits, and the one that resumed it runs. *)
Lemma inv_suspend a R W p :
  inv a -> at_ a !! running a = Some p -> stack a <> [] -> resuming p = false ->
  (R = waiting_readers a \/ (R = with_ (running a) (waiting_readers a) /\ p = AtPop /\ is_closed a = false /\ items a = [] /\ waiting_writers a = [])) ->
  (W = waiting_writers a \/ (W = with_ (running a) (waiting_writers a) /\ in_push p = true /\ is_closed a = false /\ zlen (items a) = cap /\ waiting_readers a = [])) ->
  (p = AtPop -> running a ∈ R) -> (in_push p = true -> running a ∈ W) ->
  (is_closed a = true \/ R = [] \/ items a = []) -> (is_closed a = true \/ W = [] \/ zlen (items a) = cap) ->
  inv (mk_view (items a) (is_closed a) R W (at_ a) (tail (stack a))).
Proof.
  intros Hi Hp Hs Hnr HR HW HpR HpW HgR HgW. pose proof (running_in_stack a Hs) as Hin.
  destruct Hi as [H1 H2 H3 H4 H5 H6 H7 H8 H9 H10 H11 H12 H13 H14].
  assert (exists y l, stack a = y :: l /\ running a = y) as (y & l & Es & Er).
  { unfold running. destruct (stack a) as [| y l]; [done |]. by exists y, l. }
  rewrite Es in *. rewrite Er in *. destruct H2 as [[Hyl Hl]%NoDup_cons H0]. apply not_elem_of_cons in H0 as [Hy0 H0].
  assert (forall i, i ∈ R <-> i ∈ waiting_readers a \/ (i = y /\ i ∈ R)) as HRi.
  { intros i. destruct HR as [-> | (-> & _)]; [split; [by left | by intros [? | [_ ?]]] |]. rewrite elem_of_with.
    split; [intros [? | ->]; auto | intros [? | [-> _]]; auto]. }
  assert (forall i, i ∈ W <-> i ∈ waiting_writers a \/ (i = y /\ i ∈ W)) as HWi.
  { intros i. destruct HW as [-> | (-> & _)]; [split; [by left | by intros [? | [_ ?]]] |]. rewrite elem_of_with.
    split; [intros [? | ->]; auto | intros [? | [-> _]]; auto]. }
  split; cbn [items is_closed waiting_readers waiting_writers at_ stack tail]; try done.
  - intros i Hi. apply H4. by right.
  - split; [destruct HR as [-> | (-> & _)]; [apply H6 | by apply NoDup_with, H6] |].
    intros i Hi. destruct HR as [-> | (-> & -> & _)]; [by apply H6 |]. apply elem_of_with in Hi as [Hi | ->]; [by apply H6 | done].
  - split; [destruct HW as [-> | (-> & _)]; [apply H7 | by apply NoDup_with, H7] |].
    intros i Hi. destruct HW as [-> | (-> & Hpp & _)]; [by apply H7 |]. apply elem_of_with in Hi as [Hi | ->]; [by apply H7 |].
    destruct p; try done. by eexists.
  - intros i Hi. right. destruct (H8 i Hi) as [-> | [Hns Hir]].
    + split; [done |]. apply HpR. rewrite Hp in Hi. by injection Hi.
    + apply not_elem_of_cons in Hns as [_ Hns]. split; [done |]. apply HRi. by left.
  - intros i v Hi. right. destruct (H9 i v Hi) as [-> | [Hns Hir]].
    + split; [done |]. apply HpW. rewrite Hp in Hi. by injection Hi as ->.
    + apply not_elem_of_cons in Hns as [_ Hns]. split; [done |]. apply HWi. by left.
  - intros i p' Hi Hp'. destruct (H10 i p' Hi Hp') as [[-> | Hil]%elem_of_cons | ->]; [congruence | by left | by right].
  - destruct HR as [-> | (-> & -> & _ & _ & Ew)].
    + destruct HW as [-> | (-> & _ & _ & _ & Er')]; [done | by left].
    + destruct HW as [-> | (_ & Hpp & _)]; [by right | done].
  - destruct HgR as [? | [? | ?]]; auto.
  - destruct HgW as [? | [? | ?]]; auto.
  - intros Hcl. assert (R = waiting_readers a) as -> by (destruct HR as [? | (_ & _ & ? & _)]; [done | congruence]).
    assert (W = waiting_writers a) as -> by (destruct HW as [? | (_ & _ & ? & _)]; [done | congruence]). by apply H14.
Qed.

(** What the invariants say of the loop that is run. *)
Lemma idle_readers a p :
  inv a -> at_ a !! running a = Some p -> p <> AtPushed -> p <> AtPop ->
  is_closed a = true \/ waiting_readers a = [] \/ items a = [].
Proof.
  intros Hi Hp H1 H2. destruct (iv_no_idle_reader _ Hi) as [? | [? | [? | (_ & p' & Hp' & Hpp)]]]; [auto | auto | auto |].
  rewrite Hp in Hp'. injection Hp' as <-. destruct Hpp; done.
Qed.

Lemma idle_writers a p :
  inv a -> at_ a !! running a = Some p -> (forall r, p <> AtPopped r) -> in_push p = false ->
  is_closed a = true \/ waiting_writers a = [] \/ zlen (items a) = cap.
Proof.
  intros Hi Hp H1 H2. destruct (iv_no_idle_writer _ Hi) as [? | [? | [? | (_ & p' & Hp' & Hpp)]]]; [auto | auto | auto |].
  rewrite Hp in Hp'. injection Hp' as <-. destruct Hpp as [[r ->] | ?]; [by destruct (H1 r) | congruence].
Qed.

Lemma not_reader a p : inv a -> at_ a !! running a = Some p -> p <> AtPop -> running a ∉ waiting_readers a.
Proof. intros Hi Hp Hne Hr. apply (iv_readers _ Hi) in Hr. rewrite Hp in Hr. by injection Hr. Qed.

Lemma not_writer a p : inv a -> at_ a !! running a = Some p -> in_push p = false -> running a ∉ waiting_writers a.
Proof. intros Hi Hp Hne Hr. apply (iv_writers _ Hi) in Hr as [v Hr]. rewrite Hp in Hr. by injection Hr as ->. Qed.

(** A close that is under way goes on when others move. *)
Lemma closing_goto a p p' :
  inv a -> at_ a !! running a = Some p -> p <> AtCloseReaders -> p <> AtCloseWriters -> is_closed a = true ->
  let R := without (running a) (waiting_readers a) in
  let W := without (running a) (waiting_writers a) in
  let pcs := <[running a := p']> (at_ a) in
  (R = [] /\ W = []) \/ (exists i, pcs !! i = Some AtCloseReaders) \/ (R = [] /\ exists i, pcs !! i = Some AtCloseWriters).
Proof.
  intros Hi Hp H1 H2 Hcl R W pcs. destruct (iv_closing _ Hi Hcl) as [[E1 E2] | [[i Hr] | [E1 [i Hw]]]].
  - left. unfold R, W. by rewrite E1, E2.
  - right; left. exists i. unfold pcs. rewrite lookup_insert_ne; [done |]. intros <-. congruence.
  - right; right. unfold R. rewrite E1. split; [done |]. exists i. unfold pcs. rewrite lookup_insert_ne; [done |]. intros <-. congruence.
Qed.

(** Leaving the loops for the code of the client. *)
Lemma inv_leave a p :
  inv a -> at_ a !! running a = Some p -> p <> AtPop -> in_push p = false -> p <> AtCloseReaders -> p <> AtCloseWriters ->
  (is_closed a = true \/ waiting_readers a = [] \/ items a = []) ->
  (is_closed a = true \/ waiting_writers a = [] \/ zlen (items a) = cap) -> inv (vgoto a AtUser).
Proof.
  intros Hi Hp H1 H2 H3 H4 HR HW. pose proof (without_id _ _ (not_reader _ _ Hi Hp H1)) as ER.
  pose proof (without_id _ _ (not_writer _ _ Hi Hp H2)) as EW. pose proof (closing_goto a p AtUser Hi Hp H3 H4) as Hc. cbn zeta in Hc.
  rewrite ER, EW in Hc. apply (inv_goto a); [done | by eexists | by left | apply (iv_items _ Hi) | by rewrite ER | by rewrite EW | | | done].
  - destruct HR as [? | [? | ?]]; auto.
  - destruct HW as [? | [? | ?]]; auto.
Qed.

Lemma vround_push_inv a v : inv a -> at_ a !! running a = Some (AtPush v) -> inv (vround a).1.
Proof.
  intros Hi Hp. unfold vround. rewrite Hp. pose proof (not_reader _ _ Hi Hp ltac:(done)) as Hnr.
  pose proof (without_id _ _ Hnr) as ER. pose proof (iv_items _ Hi) as [Hcap Hlen].
  pose proof (running_coroutine _ _ Hi Hp eq_refl) as Hs. pose proof (zlen_nonneg (items a)).
  pose proof (idle_readers _ _ Hi Hp ltac:(done) ltac:(done)) as HR.
  destruct (is_closed a) eqn:Ecl; [| unfold vfull; case_bool_decide as Ef]; cbn [fst].
  - apply (inv_goto a); cbn; [done | by eexists | by left | done | by rewrite ER | done | by left | by left |].
    intros _. pose proof (closing_goto a _ AtUser Hi Hp ltac:(done) ltac:(done) Ecl) as Hc. cbn zeta in Hc.
    rewrite ER in Hc. exact Hc.
  - assert (waiting_readers a = []) as Er.
    { destruct HR as [? | [? | Ei]]; [done | done |]. rewrite Ei in Ef. unfold zlen in Ef. cbn in Ef. lia. }
    apply (inv_suspend a (waiting_readers a) (with_ (running a) (waiting_writers a)) (AtPush v) Hi Hp Hs); auto.
    + right. by split_and!.
    + intros ?. done.
    + intros _. apply elem_of_with. by right.
  - apply (inv_goto a); cbn; [done | by eexists | by right | rewrite zlen_app; change (zlen [v]) with 1; lia | by rewrite ER | done | | |].
    + destruct HR as [? | [? | Ei]]; [done | by right; left |]. right; right; right. rewrite Ei. split; [done | by left].
    + destruct (iv_no_idle_writer _ Hi) as [? | [E | [? | [E _]]]]; [congruence | right; left; by rewrite E | done |].
      right; right; left. rewrite zlen_app. change (zlen [v]) with 1. lia.
    + by rewrite Ecl.
Qed.

Lemma vround_pop_inv a : inv a -> at_ a !! running a = Some AtPop -> inv (vround a).1.
Proof.
  intros Hi Hp. unfold vround. rewrite Hp. pose proof (not_writer _ _ Hi Hp eq_refl) as Hnw.
  pose proof (without_id _ _ Hnw) as EW. pose proof (iv_items _ Hi) as [Hcap Hlen].
  pose proof (running_coroutine _ _ Hi Hp eq_refl) as Hs.
  pose proof (idle_writers _ _ Hi Hp ltac:(done) eq_refl) as HW.
  destruct (items a) as [| v q] eqn:Eq; [destruct (is_closed a) eqn:Ecl |]; cbn [fst].
  - apply (inv_goto a); cbn; [done | by eexists | by right | by rewrite Eq | done | by rewrite EW | by left | by left |].
    intros _. pose proof (closing_goto a _ (AtPopped (dflt, false)) Hi Hp ltac:(done) ltac:(done) Ecl) as Hc. cbn zeta in Hc.
    rewrite EW in Hc. exact Hc.
  - assert (waiting_writers a = []) as Ew.
    { destruct HW as [? | [? | Ei]]; [done | done |]. unfold zlen in Ei. cbn in Ei. lia. }
    unfold vsuspend, with_readers; cbn.
    apply (inv_suspend a (with_ (running a) (waiting_readers a)) (waiting_writers a) AtPop Hi Hp Hs); auto.
    + right. by split_and!.
    + intros _. apply elem_of_with. by right.
    + intros ?. done.
  - rewrite zlen_cons in Hlen, HW. apply (inv_goto a); cbn; [done | by eexists | by right | lia | done | by rewrite EW | | |].
    + destruct (iv_no_idle_reader _ Hi) as [? | [E | [E | [E _]]]]; [by left | right; left; by rewrite E | congruence |].
      right; right; left. rewrite Eq, zlen_cons in E. unfold zlen in E. destruct q; [done | cbn in E; lia].
    + destruct HW as [? | [? | E]]; [by left | by right; left |]. right; right; right. split; [lia |]. left. by eexists.
    + intros Ecl. pose proof (closing_goto a _ (AtPopped (v, true)) Hi Hp ltac:(done) ltac:(done) Ecl) as Hc. cbn zeta in Hc.
      rewrite EW in Hc. exact Hc.
Qed.

(** Whoever waits can be resumed. *)
Lemma waiting_reader_resumable a p id :
  inv a -> at_ a !! running a = Some p -> p <> AtPop -> id ∈ waiting_readers a ->
  at_ a !! id = Some AtPop /\ id ∉ stack a /\ id <> 0 /\ id <> running a.
Proof.
  intros Hi Hp Hne Hid. pose proof (proj2 (iv_readers _ Hi) id Hid) as Hat.
  assert (id <> running a) as Hr by (intros ->; congruence). split; [done |].
  destruct (iv_pop _ Hi id Hat) as [? | [? _]]; [done |]. split_and!; [done | | done].
  intros ->. destruct (iv_main _ Hi) as (p' & Hp' & Hm). rewrite Hat in Hp'. by injection Hp' as <-.
Qed.

Lemma waiting_writer_resumable a p id :
  inv a -> at_ a !! running a = Some p -> in_push p = false -> id ∈ waiting_writers a ->
  exists v, at_ a !! id = Some (AtPush v) /\ id ∉ stack a /\ id <> 0 /\ id <> running a.
Proof.
  intros Hi Hp Hne Hid. destruct (proj2 (iv_writers _ Hi) id Hid) as [v Hat]. exists v.
  assert (id <> running a) as Hr by (intros ->; rewrite Hp in Hat; by injection Hat as ->). split; [done |].
  destruct (iv_push _ Hi id v Hat) as [? | [? _]]; [done |]. split_and!; [done | | done].
  intros ->. destruct (iv_main _ Hi) as (p' & Hp' & Hm). rewrite Hat in Hp'. by injection Hp' as <-.
Qed.

Lemma vround_wake_inv a p :
  inv a -> at_ a !! running a = Some p -> p <> AtUser -> in_push p = false -> p <> AtPop -> inv (vround a).1.
Proof.
  intros Hi Hp Hu Hnpush Hnpop. unfold vround. rewrite Hp.
  assert (in_pop p = false) as Hnp by (by destruct p).
  assert (forall r, r ∈ waiting_readers a -> (is_closed a = true \/ zlen (items a) = 1 \/ items a = []) ->
          (is_closed a = true \/ waiting_writers a = [] \/ zlen (items a) = cap) -> inv (vresume a r)) as Hreader.
  { intros r Hr HR HW. destruct (waiting_reader_resumable _ _ r Hi Hp Hnpop Hr) as (Hat & Hs & H0 & _).
    apply (inv_resume a r p Hi Hp Hnpush Hnp); [by eexists | done | done | | destruct HW as [? | [? | ?]]; auto].
    destruct HR as [? | [? | ?]]; auto 6. }
  assert (forall w, w ∈ waiting_writers a -> (is_closed a = true \/ zlen (items a) = cap - 1 \/ zlen (items a) = cap) ->
          (is_closed a = true \/ waiting_readers a = [] \/ items a = []) -> inv (vresume a w)) as Hwriter.
  { intros w Hw HW HR. destruct (waiting_writer_resumable _ _ w Hi Hp Hnpush Hw) as (v & Hat & Hs & H0 & _).
    apply (inv_resume a w p Hi Hp Hnpush Hnp); [by eexists | done | done | destruct HR as [? | [? | ?]]; auto |].
    destruct HW as [? | [? | ?]]; eauto 8. }
  destruct p as [| v | | | r | |]; try done; cbn [fst].
  - pose proof (idle_writers _ _ Hi Hp ltac:(done) eq_refl) as HW.
    destruct (waiting_readers a) as [| r R] eqn:ER.
    { by apply (inv_leave a AtPushed); auto. }
    destruct (items a) as [| v q] eqn:EI.
    { apply (inv_leave a AtPushed); rewrite ?EI; auto. }
    cbn [fst]. apply Hreader; [left | | done]. destruct (iv_no_idle_reader _ Hi) as [? | [? | [? | [? _]]]]; rewrite ?EI in *; auto; congruence.
  - pose proof (idle_readers _ _ Hi Hp ltac:(done) ltac:(done)) as HR.
    destruct (waiting_writers a) as [| w W] eqn:EW.
    { apply (inv_leave a (AtPopped r)); rewrite ?EW; auto. }
    unfold vfull. case_bool_decide as Ef; cbn [fst].
    { by apply (inv_leave a (AtPopped r)); auto. }
    apply Hwriter; [left | | done]. destruct (iv_no_idle_writer _ Hi) as [? | [? | [? | [? _]]]]; auto; congruence.
  - pose proof (idle_writers _ _ Hi Hp ltac:(done) eq_refl) as HW. pose proof (idle_readers _ _ Hi Hp ltac:(done) ltac:(done)) as HR.
    destruct (waiting_readers a) as [| r R] eqn:ER; cbn [fst].
    + assert (without (running a) (waiting_writers a) = waiting_writers a) as Ew by (eapply without_id, not_writer; done).
      apply (inv_goto a); cbn; [done | by eexists | by left | apply (iv_items _ Hi) | by rewrite ER | by rewrite Ew | by rewrite ER; right; left | destruct HW as [? | [? | ?]]; auto |].
      intros _. right; right. split; [by rewrite ER |]. exists (running a). by rewrite lookup_insert_eq.
    + apply Hreader; [left | | done]. destruct HR as [? | [? | ?]]; auto; congruence.
  - pose proof (idle_writers _ _ Hi Hp ltac:(done) eq_refl) as HW. pose proof (idle_readers _ _ Hi Hp ltac:(done) ltac:(done)) as HR.
    destruct (waiting_writers a) as [| w W] eqn:EW; cbn [fst].
    + assert (without (running a) (waiting_readers a) = waiting_readers a) as Er by (eapply without_id, not_reader; done).
      apply (inv_goto a); cbn; [done | by eexists | by left | apply (iv_items _ Hi) | by rewrite Er | by rewrite EW | destruct HR as [? | [? | ?]]; auto | by rewrite EW; right; left |].
      intros Hcl. destruct (iv_closing _ Hi Hcl) as [[E1 E2] | [[i Hr] | [E1 [i Hw]]]].
      * left. done.
      * right; left. exists i. rewrite lookup_insert_ne; [done |]. intros <-. congruence.
      * left. done.
    + apply Hwriter; [left | | done]. destruct HW as [? | [? | ?]]; auto; congruence.
Qed.

Lemma vround_inv a p : inv a -> at_ a !! running a = Some p -> p <> AtUser -> inv (vround a).1.
Proof.
  intros Hi Hp Hu. destruct p as [| v | | | | |]; [done | by eapply vround_push_inv | | by apply vround_pop_inv | ..];
    by eapply vround_wake_inv.
Qed.

(** ** Calls of the client *)

(** Entering [push] or [pop]. *)
Lemma inv_enter a p :
  inv a -> at_ a !! running a = Some AtUser -> stack a <> [] -> p = AtPop \/ in_push p = true -> inv (vgoto a p).
Proof.
  intros Hi Hp Hs Hpp. pose proof (without_id _ _ (not_reader _ _ Hi Hp ltac:(done))) as ER.
  pose proof (without_id _ _ (not_writer _ _ Hi Hp eq_refl)) as EW.
  pose proof (idle_readers _ _ Hi Hp ltac:(done) ltac:(done)) as HR. pose proof (idle_writers _ _ Hi Hp ltac:(done) eq_refl) as HW.
  pose proof (closing_goto a _ p Hi Hp ltac:(done) ltac:(done)) as Hc. cbn zeta in Hc. rewrite ER, EW in Hc.
  apply (inv_goto a); cbn; [done | by eexists | by right | apply (iv_items _ Hi) | by rewrite ER | by rewrite EW | | | done].
  - destruct HR as [? | [? | ?]]; auto.
  - destruct HW as [? | [? | ?]]; auto.
Qed.

Lemma inv_close a : inv a -> at_ a !! running a = Some AtUser -> inv (vgoto (with_closed a true) AtCloseReaders).
Proof.
  intros Hi Hp. pose proof (without_id _ _ (not_reader _ _ Hi Hp ltac:(done))) as ER.
  pose proof (without_id _ _ (not_writer _ _ Hi Hp eq_refl)) as EW.
  apply (inv_goto a); cbn; [done | by eexists | by left | apply (iv_items _ Hi) | by rewrite ER | by rewrite EW | by left | by left |].
  intros _. right; left. exists (running a). apply lookup_insert_eq.
Qed.

Lemma inv_reopen a :
  inv a -> waiting_readers a = [] -> waiting_writers a = [] -> inv (with_items (with_closed a false) []).
Proof.
  intros [H1 H2 H3 H4 H5 H6 H7 H8 H9 H10 H11 H12 H13 H14] ER EW.
  split; cbn [with_items with_closed items is_closed waiting_readers waiting_writers at_ stack]; try done.
  - split; [apply H1 |]. unfold zlen. cbn. lia.
  - auto.
  - auto.
Qed.

Lemma inv_create a id :
  inv a -> at_ a !! running a = Some AtUser -> 1 <= id < 2 ^ 32 -> at_ a !! id = None ->
  inv (mk_view (items a) (is_closed a) (waiting_readers a) (waiting_writers a) (<[id := AtUser]> (at_ a)) (stack a)).
Proof.
  intros [H1 H2 H3 H4 H5 H6 H7 H8 H9 H10 H11 H12 H13 H14] Hp Hid Hnone.
  assert (forall i, is_Some (at_ a !! i) -> i <> id) as Hne by (intros i Hi ->; rewrite Hnone in Hi; by destruct Hi).
  assert (forall i x, at_ a !! i = Some x -> <[id := AtUser]> (at_ a) !! i = Some x) as Hkeep.
  { intros i x Hi. rewrite lookup_insert_ne; [done |]. intros <-. congruence. }
  assert (forall i x, <[id := AtUser]> (at_ a) !! i = Some x -> x <> AtUser -> at_ a !! i = Some x) as Hback.
  { intros i x Hi Hx. destruct (decide (i = id)) as [-> |]; [rewrite lookup_insert_eq in Hi; congruence |]. by rewrite lookup_insert_ne in Hi by done. }
  split; cbn [items is_closed waiting_readers waiting_writers at_ stack]; change (running (mk_view _ _ _ _ _ (stack a))) with (running a); try done.
  - destruct H3 as (p & Hp0 & Hm). exists p. split; [by apply Hkeep | done].
  - intros i Hi. destruct (H4 i Hi) as [x Hx]. exists x. by apply Hkeep.
  - intros i [<- | [_ Hi]]%lookup_insert_is_Some; [lia | by apply H5].
  - split; [apply H6 |]. intros i Hi. by apply Hkeep, H6.
  - split; [apply H7 |]. intros i Hi. destruct (proj2 H7 i Hi) as [v Hv]. exists v. by apply Hkeep.
  - intros i Hi%Hback; [by apply H8 | done].
  - intros i v Hi%Hback; [by eapply H9 | done].
  - intros i p Hi Hr. apply (H10 i p); [| done]. apply Hback; [done | by intros ->].
  - destruct H12 as [? | [? | [? | (? & p & Hpp & ?)]]]; [auto | auto | auto |]. do 3 right. split; [done |]. exists p. split; [by apply Hkeep | done].
  - destruct H13 as [? | [? | [? | (? & p & Hpp & ?)]]]; [auto | auto | auto |]. do 3 right. split; [done |]. exists p. split; [by apply Hkeep | done].
  - intros Hcl. destruct (H14 Hcl) as [? | [[i Hi] | [? [i Hi]]]]; [by left | |].
    + right; left. exists i. by apply Hkeep.
    + right; right. split; [done |]. exists i. by apply Hkeep.
Qed.

Lemma inv_return a :
  inv a -> at_ a !! running a = Some AtUser -> stack a <> [] ->
  inv (mk_view (items a) (is_closed a) (waiting_readers a) (waiting_writers a) (delete (running a) (at_ a)) (tail (stack a))).
Proof.
  intros Hi Hp Hs. pose proof (idle_readers _ _ Hi Hp ltac:(done) ltac:(done)) as HR. pose proof (idle_writers _ _ Hi Hp ltac:(done) eq_refl) as HW.
  pose proof (not_reader _ _ Hi Hp ltac:(done)) as Hnr. pose proof (not_writer _ _ Hi Hp eq_refl) as Hnw.
  assert (running a <> 0) as H0 by (by rewrite running_zero).
  destruct Hi as [H1 H2 H3 H4 H5 H6 H7 H8 H9 H10 H11 H12 H13 H14].
  assert (exists l, stack a = running a :: l) as (l & Es) by (unfold running; destruct (stack a) as [| y l]; [done | by exists l]).
  rewrite Es in *. destruct H2 as [[Hyl Hl]%NoDup_cons H0l]. apply not_elem_of_cons in H0l as [_ H0l]. set (y := running a) in *.
  assert (forall i x, delete y (at_ a) !! i = Some x -> i <> y /\ at_ a !! i = Some x) as Hback.
  { intros i x Hi. apply lookup_delete_Some in Hi as [? ?]. by split. }
  assert (forall i x, at_ a !! i = Some x -> x <> AtUser -> delete y (at_ a) !! i = Some x) as Hkeep.
  { intros i x Hi Hx. rewrite lookup_delete_ne; [done |]. intros <-. unfold y in *. congruence. }
  split; cbn [items is_closed waiting_readers waiting_writers at_ stack tail]; try done.
  - destruct H3 as (p & Hp0 & Hm). exists p. by rewrite lookup_delete_ne by done.
  - intros i Hi. rewrite lookup_delete_ne by (by intros <-). apply H4. by right.
  - intros i [x [_ Hx]%Hback]. apply H5. by exists x.
  - split; [apply H6 |]. intros i Hi. apply Hkeep; [by apply H6 | done].
  - split; [apply H7 |]. intros i Hi. destruct (proj2 H7 i Hi) as [v Hv]. exists v. by apply Hkeep.
  - intros i [Hne Hi]%Hback. destruct (H8 i Hi) as [? | [Hns ?]]; [done | right]. apply not_elem_of_cons in Hns as [_ ?]. by split.
  - intros i v [Hne Hi]%Hback. destruct (H9 i v Hi) as [? | [Hns ?]]; [done | right]. apply not_elem_of_cons in Hns as [_ ?]. by split.
  - intros i p [Hne Hi]%Hback Hr. destruct (H10 i p Hi Hr) as [[? | ?]%elem_of_cons | ?]; [done | by left | by right].
  - destruct HR as [? | [? | ?]]; auto.
  - destruct HW as [? | [? | ?]]; auto.
  - intros Hcl. destruct (H14 Hcl) as [? | [[i Hi] | [? [i Hi]]]]; [by left | |].
    + right; left. exists i. by apply Hkeep.
    + right; right. split; [done |]. exists i. by apply Hkeep.
Qed.

Lemma vcall_inv a c : inv a -> at_ a !! running a = Some AtUser -> legal a c -> inv (vcall a c).1.
Proof.
  intros Hi Hp Hleg. pose proof (idle_readers _ _ Hi Hp ltac:(done) ltac:(done)) as HR.
  pose proof (idle_writers _ _ Hi Hp ltac:(done) eq_refl) as HW.
  destruct c as [v | | | | | id | id |]; cbn [vcall legal fst] in *.
  - apply inv_enter; auto.
  - apply inv_enter; auto.
  - by apply inv_close.
  - destruct Hleg as (_ & ER & EW). by apply inv_reopen.
  - by apply (inv_suspend a (waiting_readers a) (waiting_writers a) AtUser); auto.
  - case_bool_decide as E1; cbn [andb]; [| done]. case_bool_decide as E2; [| done].
    destruct Hleg as [? | [H0 Hs]]; [done |]. apply (inv_resume a id AtUser); auto.
    + destruct HR as [? | [? | ?]]; auto.
    + destruct HW as [? | [? | ?]]; auto.
  - destruct Hleg. by apply inv_create.
  - by apply inv_return.
Qed.

Lemma vstep_inv a c : inv a -> legal_step a c -> inv (vstep a c).1.
Proof.
  intros Hi Hleg. unfold vstep. destruct (at_ a !! running a) as [p |] eqn:Hp.
  - destruct p; [by apply vcall_inv, Hleg | by eapply vround_inv..].
  - exfalso. destruct (running_is a) as [Hin | E]; [apply (iv_active _ Hi) in Hin; rewrite Hp in Hin; by destruct Hin |].
    destruct (iv_main _ Hi) as (p & Hp0 & _). congruence.
Qed.

(** ** Progress *)

(** No [close] is in its loops on a channel that was reopened meanwhile. *)
Definition quiet (a : view) : Prop :=
  is_closed a = true \/ forall i, at_ a !! i <> Some AtCloseReaders /\ at_ a !! i <> Some AtCloseWriters.

(** An upper bound of the rounds before the code of the client runs. *)
Definition rank (a : view) : nat :=
  match at_ a !! running a with
  | Some AtUser | None => 0
  | Some (AtPush _) =>
      if is_closed a then 1 else if vfull a then 4 else match waiting_readers a with [] => 2 | _ => 4 end
  | Some AtPushed => match waiting_readers a, items a with _ :: _, _ :: _ => 3 | _, _ => 1 end
  | Some AtPop =>
      match items a, is_closed a, waiting_writers a with
      | [], false, _ => 4
      | _, _, [] => 2
      | _, _, _ => 4
      end
  | Some (AtPopped _) =>
      match waiting_writers a with [] => 1 | _ => if vfull a then 1 else if is_closed a then 2 else 3 end
  | Some AtCloseReaders => match waiting_readers a with [] => 3 | _ => 5 end
  | Some AtCloseWriters => match waiting_writers a with [] => 1 | _ => 2 end
  end%nat.

Lemma rank_bound a : (rank a <= 5)%nat.
Proof. unfold rank. repeat case_match; lia. Qed.

Lemma quiet_round a p : quiet a -> at_ a !! running a = Some p -> quiet (vround a).1.
Proof.
  intros Hq Hp. assert (forall a' q, is_closed a' = is_closed a -> at_ a' = <[running a := q]> (at_ a) ->
    is_closed a = true \/ (q <> AtCloseReaders /\ q <> AtCloseWriters) -> quiet a') as Hgoto.
  { intros a' q E1 E2 H. unfold quiet. rewrite E1, E2. destruct H as [? | [H1 H2]]; [by left |]. destruct Hq as [? | Hq]; [by left | right]. intros i.
    destruct (decide (i = running a)) as [-> |]; [rewrite lookup_insert_eq; split; congruence | by rewrite lookup_insert_ne]. }
  unfold vround. rewrite Hp. destruct p as [| v | | | r | |]; try done.
  - destruct (is_closed a) eqn:Ecl; [by left |]. destruct (vfull a); cbn [fst]; [exact Hq |]. by eapply Hgoto; auto.
  - destruct (waiting_readers a) as [| r R], (items a) as [| v q]; cbn [fst]; try exact Hq; by eapply Hgoto; auto.
  - destruct (items a) as [| v q]; [destruct (is_closed a) eqn:Ecl |]; cbn [fst]; [by left | exact Hq | by eapply Hgoto; auto].
  - destruct (waiting_writers a) as [| w W]; [by eapply Hgoto; auto |]. destruct (vfull a); cbn [fst]; [by eapply Hgoto; auto | exact Hq].
  - destruct (waiting_readers a) as [| r R]; cbn [fst]; [| exact Hq]. destruct Hq as [? | Hq]; [by left |]. by destruct (Hq (running a)).
  - destruct (waiting_writers a) as [| w W]; cbn [fst]; [| exact Hq]. by eapply Hgoto; auto.
Qed.

(** The one below the running coroutine in the stack. *)
Lemma below_running a :
  inv a -> stack a <> [] -> hd_or 0 (tail (stack a)) <> running a /\ (hd_or 0 (tail (stack a)) ∈ stack a \/ hd_or 0 (tail (stack a)) = 0).
Proof.
  intros Hi Hs. destruct (iv_stack _ Hi) as [Hn H0]. unfold running. destruct (stack a) as [| x [| z l]]; [done | |]; cbn [tail].
  - change (0 <> x /\ (0 ∈ [x] \/ 0 = 0)). split; [intros <-; apply H0; left | by right].
  - change (z <> x /\ (z ∈ x :: z :: l \/ z = 0)). apply NoDup_cons in Hn as [Hx _]. split; [intros ->; apply Hx; left | left; right; left].
Qed.

(** Whoever runs after the running coroutine waits was in a call of [resume], or is a client. *)
Lemma rank_suspend a R W :
  inv a -> stack a <> [] -> is_closed a = false -> quiet a ->
  (rank (mk_view (items a) (is_closed a) R W (at_ a) (tail (stack a))) <= 3)%nat.
Proof.
  intros Hi Hs Hcl Hq. unfold rank. cbn [items is_closed waiting_readers waiting_writers at_ stack].
  set (y := running (mk_view (items a) (is_closed a) R W (at_ a) (tail (stack a)))).
  destruct (at_ a !! y) as [p |] eqn:Hy; [| lia]. destruct Hq as [? | Hq]; [congruence |]. specialize (Hq y).
  destruct (below_running a Hi Hs) as [Hne Hin]. change (hd_or 0 (tail (stack a))) with y in Hne, Hin.
  assert (y = 0 -> for_main p = true) as Hmain.
  { intros E. destruct (iv_main _ Hi) as (p' & Hp' & Hm). rewrite <- E, Hy in Hp'. by injection Hp' as ->. }
  assert (forall v, p <> AtPush v) as Hnpush.
  { intros v ->. destruct (iv_push _ Hi y v Hy) as [? | [Hns _]]; [done |]. destruct Hin as [? | E]; [done | by apply Hmain in E]. }
  assert (p <> AtPop) as Hnpop.
  { intros ->. destruct (iv_pop _ Hi y Hy) as [? | [Hns _]]; [done |]. destruct Hin as [? | E]; [done | by apply Hmain in E]. }
  destruct p as [| v | | | r | |]; try lia; try (by destruct Hq); try (by destruct (Hnpush v)); repeat case_match; lia.
Qed.

Lemma rank_decreases a p :
  inv a -> quiet a -> at_ a !! running a = Some p -> p <> AtUser -> (rank (vround a).1 < rank a)%nat.
Proof.
  intros Hi Hq Hp Hu. assert (forall q, rank (mk_view (items a) (is_closed a) (waiting_readers a) (waiting_writers a) (<[running a := q]> (at_ a)) (stack a)) =
    rank (vgoto a q)) as _ by done.
  unfold rank at 2. unfold vround. rewrite Hp. pose proof (iv_one_side _ Hi) as Hone.
  destruct p as [| v | | | r | |]; [done | ..].
  - pose proof (running_coroutine _ _ Hi Hp eq_refl) as Hs. destruct (is_closed a) eqn:Ecl.
    { cbn [fst]. unfold rank, vgoto, running; cbn. fold (running a). rewrite lookup_insert_eq. lia. }
    destruct (vfull a); cbn [fst].
    { pose proof (rank_suspend a (waiting_readers a) (with_ (running a) (waiting_writers a)) Hi Hs Ecl Hq) as Hr. unfold vsuspend, with_writers. cbn in *. lia. }
    unfold rank, vgoto, running; cbn. fold (running a). rewrite lookup_insert_eq. destruct (waiting_readers a); [lia |]. destruct (items a ++ [v]); lia.
  - destruct (waiting_readers a) as [| r R] eqn:ER, (items a) as [| v q] eqn:EI; cbn [fst];
      try (unfold rank, vgoto, running; cbn; fold (running a); rewrite lookup_insert_eq; lia).
    destruct (waiting_reader_resumable _ _ r Hi Hp ltac:(done)) as (Hat & _); [rewrite ER; left |].
    unfold rank, vresume, running; cbn. change (hd_or 0 (r :: stack a)) with r. rewrite Hat, EI. destruct Hone as [? | ->]; [done | lia].
  - pose proof (running_coroutine _ _ Hi Hp eq_refl) as Hs. destruct (items a) as [| v q] eqn:EI; [destruct (is_closed a) eqn:Ecl |]; cbn [fst].
    + unfold rank, vgoto, running; cbn. fold (running a). rewrite lookup_insert_eq. destruct (waiting_writers a); [lia |]. repeat case_match; lia.
    + pose proof (rank_suspend a (with_ (running a) (waiting_readers a)) (waiting_writers a) Hi Hs Ecl Hq) as Hr. unfold vsuspend, with_readers. cbn in *. lia.
    + unfold rank, vgoto, running; cbn. fold (running a). rewrite lookup_insert_eq. destruct (waiting_writers a); [lia |]. repeat case_match; lia.
  - destruct (waiting_writers a) as [| w W] eqn:EW.
    { cbn [fst]. unfold rank, vgoto, running; cbn; fold (running a); rewrite lookup_insert_eq; lia. }
    destruct (vfull a) eqn:Ef; cbn [fst].
    { unfold rank, vgoto, running; cbn; fold (running a); rewrite lookup_insert_eq; lia. }
    destruct (waiting_writer_resumable _ _ w Hi Hp eq_refl) as (v & Hat & _); [rewrite EW; left |].
    unfold rank, vresume, running; cbn. change (hd_or 0 (w :: stack a)) with w. rewrite Hat. unfold vfull in *. cbn. rewrite Ef.
    destruct (is_closed a); [lia |]. destruct Hone as [-> | ?]; [lia | done].
  - destruct (waiting_readers a) as [| r R] eqn:ER; cbn [fst].
    { unfold rank, vgoto, running; cbn; fold (running a); rewrite lookup_insert_eq. destruct (waiting_writers a); lia. }
    destruct (waiting_reader_resumable _ _ r Hi Hp ltac:(done)) as (Hat & _); [rewrite ER; left |].
    unfold rank, vresume, running; cbn. change (hd_or 0 (r :: stack a)) with r. rewrite Hat. repeat case_match; lia.
  - destruct (waiting_writers a) as [| w W] eqn:EW; cbn [fst].
    { unfold rank, vgoto, running; cbn; fold (running a); rewrite lookup_insert_eq; lia. }
    destruct (waiting_writer_resumable _ _ w Hi Hp eq_refl) as (v & Hat & _); [rewrite EW; left |].
    unfold rank, vresume, running; cbn. change (hd_or 0 (w :: stack a)) with w. rewrite Hat.
    destruct Hq as [-> | Hq]; [lia |]. by destruct (Hq (running a)).
Qed.

End Spec.
Arguments view : clear implicits.
