(* ===== verification/ChannelRefine.v ===== *)
(** * ChannelRefine: the channel implements its lists

    The ring buffer and the intrusive queues of [Channel] implement the lists of [ChannelSpec]: a
    step of the system is a step of the view, and no assertion fails, debug ones included. *)

From S2P Require Import Prelude IndexList WaitersQueue Channel ChannelSpec.

Section Refine.
Context {T : Type} (dflt : T) (cap : Z).

(** ** The buffer *)

Record buffer_rep (c : channel T) (q : list T) : Prop := {
  br_cap : zlen (buf_ c) = cap;
  br_read : 0 <= r_ptr_ c < cap;
  br_write : w_ptr_ c = (r_ptr_ c + zlen q) mod cap;
  br_size : data_size_ c = zlen q;
  br_items : forall i, 0 <= i < zlen q -> znth (buf_ c) ((r_ptr_ c + i) mod cap) = znth q i }.

Lemma mod_inj r i j : 0 < cap -> 0 <= i < cap -> 0 <= j < cap -> (r + i) mod cap = (r + j) mod cap -> i = j.
Proof.
  intros Hc Hi Hj E. rewrite (Z.add_mod r i), (Z.add_mod r j) in E by lia. rewrite !(Z.mod_small i), !(Z.mod_small j) in E by lia.
  pose proof (Z.mod_pos_bound r cap Hc) as Hr. set (m := r mod cap) in *.
  assert (forall k, 0 <= k < cap -> (m + k) mod cap = if decide (m + k < cap) then m + k else m + k - cap) as Hm.
  { intros k Hk. case_decide; [by apply Z.mod_small; lia |].
    replace (m + k) with (m + k - cap + 1 * cap) at 1 by lia. rewrite Z.mod_add by lia. apply Z.mod_small. lia. }
  rewrite !Hm in E by done. repeat case_decide; lia.
Qed.

Lemma push_impl_ok c q v :
  0 < cap -> buffer_rep c q -> zlen q < cap ->
  exists buf w n, push_impl c v = Ok (set_buffer c buf (r_ptr_ c) w n) /\ buffer_rep (set_buffer c buf (r_ptr_ c) w n) (q ++ [v]).
Proof.
  intros Hcap [H1 H2 H3 H4 H5] Hlen. unfold push_impl. pose proof (Z.mod_pos_bound (r_ptr_ c + zlen q) cap Hcap) as Hw.
  pose proof (zlen_nonneg q). destruct (znth_lt (buf_ c) (w_ptr_ c)) as [x ->]; [by rewrite H3, H1 |]. cbn [of_option mbind result_bind].
  cbn [data_size_ buf_ set_buffer]. rewrite zlen_zset, H1, H4, (proj2 (Z.leb_le _ _)) by lia. eexists _, _, _. split; [reflexivity |].
  split; cbn [buf_ r_ptr_ w_ptr_ data_size_ set_buffer]; rewrite ?zlen_app, ?zlen_zset; change (zlen [v]) with 1; try done.
  - rewrite H3, Z.add_mod_idemp_l by lia. f_equal. lia.
  - intros i Hi. destruct (decide (i = zlen q)) as [-> |].
    + rewrite <- H3, znth_zset_eq by (rewrite H1, H3; done). rewrite znth_app_r by lia. by rewrite Z.sub_diag.
    + assert ((r_ptr_ c + i) mod cap <> w_ptr_ c) as Hne by (rewrite H3; intros E%mod_inj; lia).
      rewrite znth_zset_ne, znth_app_l by (done || lia). apply H5. lia.
Qed.

Lemma pop_impl_ok c v q :
  0 < cap -> buffer_rep c (v :: q) ->
  exists r n, pop_impl dflt c = Ok ((v, true), set_buffer c (buf_ c) r (w_ptr_ c) n) /\ buffer_rep (set_buffer c (buf_ c) r (w_ptr_ c) n) q.
Proof.
  intros Hcap [H1 H2 H3 H4 H5]. unfold pop_impl. rewrite zlen_cons in *. pose proof (zlen_nonneg q).
  rewrite H4, (proj2 (Z.eqb_neq _ _)) by lia. cbn [negb]. pose proof (H5 0 ltac:(lia)) as Hv. rewrite Z.add_0_r, Z.mod_small in Hv by lia.
  rewrite Hv. cbn [of_option mbind result_bind znth]. rewrite H1. eexists _, _. split; [reflexivity |].
  split; cbn [buf_ r_ptr_ w_ptr_ data_size_ set_buffer]; [done | | | lia |].
  - by apply Z.mod_pos_bound.
  - rewrite H3, Z.add_mod_idemp_l by lia. f_equal. lia.
  - intros i Hi. rewrite Z.add_mod_idemp_l by lia. replace (r_ptr_ c + 1 + i) with (r_ptr_ c + (i + 1)) by lia.
    rewrite H5 by lia. unfold znth. rewrite !decide_True by lia. replace (Z.to_nat (i + 1)) with (S (Z.to_nat i)) by lia. done.
Qed.

Lemma pop_impl_empty c : buffer_rep c [] -> pop_impl dflt c = Ok ((dflt, false), c).
Proof. intros [H1 H2 H3 H4 H5]. unfold pop_impl. by rewrite H4. Qed.

(** ** The system *)

(** Loops that have a hook. *)
Definition has_hook (p : pc T) : bool := match p with AtPush _ | AtPushed | AtPop | AtPopped _ => true | _ => false end.

Record sim (s : system T) (a : view T) : Prop := {
  sm_buffer : buffer_rep (chan s) (items a);
  sm_closed : closed_ (chan s) = is_closed a;
  sm_queues : queues (memory s) (readers_ (chan s)) (waiting_readers a) (writers_ (chan s)) (waiting_writers a);
  sm_pcs : pcs s = at_ a;
  sm_stack : chain s = stack a;
  sm_hooks : forall i, is_Some (memory s !! i) <-> exists p, at_ a !! i = Some p /\ has_hook p = true }.

Lemma sim_current s a : sim s a -> current s = running a.
Proof. intros H. unfold current, running. by rewrite (sm_stack _ _ H). Qed.

Lemma sim_empty s a : sim s a -> empty (chan s) = bool_decide (items a = []).
Proof.
  intros H. unfold empty. rewrite (br_size _ _ (sm_buffer _ _ H)). destruct (items a) as [| x q]; [done |].
  rewrite zlen_cons. pose proof (zlen_nonneg q). by rewrite (proj2 (Z.eqb_neq _ _)) by lia.
Qed.

Lemma sim_full s a : sim s a -> full (chan s) = vfull cap a.
Proof.
  intros H. unfold full, vfull. rewrite (br_size _ _ (sm_buffer _ _ H)), (br_cap _ _ (sm_buffer _ _ H)).
  destruct (Z.eqb_spec (zlen (items a)) cap); case_bool_decide; done.
Qed.

Lemma size_zero hs w ids : wq_rep hs w ids -> (wq_size w =? 0) = bool_decide (ids = []).
Proof.
  intros Hr. rewrite (wr_size _ _ _ Hr). destruct ids as [| x ids]; [done |]. rewrite zlen_cons. pose proof (zlen_nonneg ids).
  by rewrite (proj2 (Z.eqb_neq _ _)) by lia.
Qed.

Lemma sim_readers s a : sim s a -> (wq_size (readers_ (chan s)) =? 0) = bool_decide (waiting_readers a = []).
Proof. intros H. eapply size_zero, (qs_left _ _ _ _ _ (sm_queues _ _ H)). Qed.

Lemma sim_writers s a : sim s a -> (wq_size (writers_ (chan s)) =? 0) = bool_decide (waiting_writers a = []).
Proof. intros H. eapply size_zero, (qs_right _ _ _ _ _ (sm_queues _ _ H)). Qed.

Lemma waiter_ok s a p :
  sim s a -> at_ a !! running a = Some p -> has_hook p = true -> exists h, memory s !! running a = Some h /\ waiter s = Ok h.
Proof.
  intros H Hp Hh. destruct (proj2 (sm_hooks _ _ H (running a))) as [h Hm]; [by exists p |]. exists h. split; [done |].
  unfold waiter. rewrite (sim_current _ _ H). by apply hook_deref_ok.
Qed.

Lemma without_split x a b : NoDup (a ++ x :: b) -> without x (a ++ x :: b) = a ++ b.
Proof.
  intros (_ & Hab & [Hxb _]%NoDup_cons)%NoDup_app. unfold without. rewrite filter_app, filter_cons_False by (by intros []).
  fold (without x a) (without x b). rewrite !without_id; [done | done |]. intros Hx. apply (Hab _ Hx). left.
Qed.

(** Changes of the queues only. *)
Lemma sim_queues s a hs r w R W :
  sim s a -> queues hs r R w W -> same_hooks (memory s) hs ->
  sim (set_memory (set_chan s (set_readers (set_writers (chan s) w) r)) hs) (with_readers (with_writers a W) R).
Proof.
  intros [S1 S2 S3 S4 S5 S6] Hq Hd. destruct S1. split; try done. intros i. cbn. rewrite (Hd i). apply S6.
Qed.

Lemma unlink_writer_ok s a p :
  sim s a -> at_ a !! running a = Some p -> has_hook p = true -> running a ∉ waiting_readers a ->
  exists s', unlink_writer s = Ok s' /\ sim s' (with_writers a (without (running a) (waiting_writers a))).
Proof.
  intros H Hp Hh Hnr. destruct (waiter_ok _ _ _ H Hp Hh) as (h & Hm & Ew). unfold unlink_writer. rewrite Ew. cbn [mbind result_bind].
  pose proof (sm_queues _ _ H) as Hq%queues_sym. destruct (decide (running a ∈ waiting_writers a)) as [Hin | Hni].
  - rewrite (queues_linked _ _ _ _ _ _ _ Hq Hm Hin), (sim_current _ _ H). pose proof (wr_nodup _ _ _ (qs_left _ _ _ _ _ Hq)) as Hnd.
    pose proof Hin as (l1 & l2 & El)%list_elem_of_split. rewrite El in Hq, Hnd |- *.
    destruct (queues_erase _ _ _ _ _ _ _ Hq) as (hs & w & -> & Hq' & Hd & _). rewrite (without_split _ _ _ Hnd).
    eexists. split; [reflexivity |]. exact (sim_queues _ _ _ _ _ _ _ H (queues_sym _ _ _ _ _ Hq') Hd).
  - rewrite (qs_unlinked _ _ _ _ _ Hq _ _ Hm Hni Hnr). cbn. eexists. split; [reflexivity |]. rewrite without_id by done. by destruct H.
Qed.

Lemma unlink_reader_ok s a p :
  sim s a -> at_ a !! running a = Some p -> has_hook p = true -> running a ∉ waiting_writers a ->
  exists s', unlink_reader s = Ok s' /\ sim s' (with_readers a (without (running a) (waiting_readers a))).
Proof.
  intros H Hp Hh Hnr. destruct (waiter_ok _ _ _ H Hp Hh) as (h & Hm & Ew). unfold unlink_reader. rewrite Ew. cbn [mbind result_bind].
  pose proof (sm_queues _ _ H) as Hq. destruct (decide (running a ∈ waiting_readers a)) as [Hin | Hni].
  - rewrite (queues_linked _ _ _ _ _ _ _ Hq Hm Hin), (sim_current _ _ H). pose proof (wr_nodup _ _ _ (qs_left _ _ _ _ _ Hq)) as Hnd.
    pose proof Hin as (l1 & l2 & El)%list_elem_of_split. rewrite El in Hq, Hnd |- *.
    destruct (queues_erase _ _ _ _ _ _ _ Hq) as (hs & w & -> & Hq' & Hd & _). rewrite (without_split _ _ _ Hnd).
    eexists. split; [reflexivity |]. exact (sim_queues _ _ _ _ _ _ _ H Hq' Hd).
  - rewrite (qs_unlinked _ _ _ _ _ Hq _ _ Hm Hni Hnr). cbn. eexists. split; [reflexivity |]. rewrite without_id by done. by destruct H.
Qed.

(** Ids are numbers of 32 bits, so that the sizes of the queues do not wrap. *)
Lemma ids_bounded (l : list Z) n : 0 <= n -> NoDup l -> (forall i, i ∈ l -> 0 <= i < n) -> zlen l <= n.
Proof.
  intros H0 Hn Hl. assert (l ⊆+ seqZ 0 n) as Hs%submseteq_length.
  { apply NoDup_submseteq; [done |]. intros i Hi. apply elem_of_seqZ. specialize (Hl i Hi). lia. }
  rewrite length_seqZ in Hs. unfold zlen. lia.
Qed.

Lemma link_writer_ok s a v :
  sim s a -> inv cap a -> at_ a !! running a = Some (AtPush v) ->
  exists s', link_writer s = Ok s' /\ sim s' (with_writers a (with_ (running a) (waiting_writers a))).
Proof.
  intros H Hi Hp. destruct (waiter_ok _ _ _ H Hp eq_refl) as (h & Hm & Ew). unfold link_writer, with_. rewrite Ew. cbn [mbind result_bind].
  pose proof (sm_queues _ _ H) as Hq%queues_sym. pose proof (not_reader _ _ _ Hi Hp ltac:(done)) as Hnr. case_bool_decide as Hin.
  - rewrite (queues_linked _ _ _ _ _ _ _ Hq Hm Hin). eexists. split; [reflexivity |]. by destruct H.
  - rewrite (qs_unlinked _ _ _ _ _ Hq _ _ Hm Hin Hnr), (sim_current _ _ H). cbn [linked hk_prev hk_next hk_owner Z.eqb negb orb].
    destruct (queues_push_back _ _ _ _ _ (running a) Hq) as (hs & w & -> & Hq' & Hd & _); [by exists h | done | done | | |].
    + rewrite (running_zero _ _ Hi). by apply (running_coroutine _ _ _ Hi Hp).
    + destruct (iv_writers _ _ Hi) as [Hn Hw]. assert (zlen (waiting_writers a) <= 2 ^ 32); [| lia].
      apply ids_bounded; [lia | done |]. intros i [x Hx]%Hw. apply (iv_ids _ _ Hi). by eexists.
    + eexists. split; [reflexivity |]. exact (sim_queues _ _ _ _ _ _ _ H (queues_sym _ _ _ _ _ Hq') Hd).
Qed.

Lemma link_reader_ok s a :
  sim s a -> inv cap a -> at_ a !! running a = Some AtPop ->
  exists s', link_reader s = Ok s' /\ sim s' (with_readers a (with_ (running a) (waiting_readers a))).
Proof.
  intros H Hi Hp. destruct (waiter_ok _ _ _ H Hp eq_refl) as (h & Hm & Ew). unfold link_reader, with_. rewrite Ew. cbn [mbind result_bind].
  pose proof (sm_queues _ _ H) as Hq. pose proof (not_writer _ _ _ Hi Hp eq_refl) as Hnr. case_bool_decide as Hin.
  - rewrite (queues_linked _ _ _ _ _ _ _ Hq Hm Hin). eexists. split; [reflexivity |]. by destruct H.
  - rewrite (qs_unlinked _ _ _ _ _ Hq _ _ Hm Hin Hnr), (sim_current _ _ H). cbn [linked hk_prev hk_next hk_owner Z.eqb negb orb].
    destruct (queues_push_back _ _ _ _ _ (running a) Hq) as (hs & w & -> & Hq' & Hd & _); [by exists h | done | done | | |].
    + rewrite (running_zero _ _ Hi). by apply (running_coroutine _ _ _ Hi Hp).
    + destruct (iv_readers _ _ Hi) as [Hn Hw]. assert (zlen (waiting_readers a) <= 2 ^ 32); [| lia].
      apply ids_bounded; [lia | done |]. intros i Hx%Hw. apply (iv_ids _ _ Hi). by eexists.
    + eexists. split; [reflexivity |]. exact (sim_queues _ _ _ _ _ _ _ H Hq' Hd).
Qed.

(** Going on with another loop. *)
Lemma sim_goto s a p p' :
  sim s a -> at_ a !! running a = Some p -> has_hook p = has_hook p' -> sim (goto s p') (vgoto a p').
Proof.
  intros H Hp Hpp. pose proof (sim_current _ _ H) as Ec. destruct H as [S1 S2 S3 S4 S5 S6]. split; try done; cbn.
  - by rewrite Ec, S4.
  - intros i. rewrite S6. destruct (decide (i = running a)) as [-> |]; [| by rewrite lookup_insert_ne].
    rewrite lookup_insert_eq, Hp. split; intros (x & [= <-] & Hx); eexists; (split; [reflexivity | congruence]).
Qed.

Lemma leave_ok s a p :
  sim s a -> at_ a !! running a = Some p -> has_hook p = true -> running a ∉ waiting_readers a -> running a ∉ waiting_writers a ->
  exists s', leave s = Ok s' /\ sim s' (vgoto a AtUser).
Proof.
  intros H Hp Hh Hr Hw. pose proof (sim_current _ _ H) as Ec. unfold leave. rewrite Ec.
  destruct (queues_destroy _ _ _ _ _ (running a) (sm_queues _ _ H)) as [-> Hq]; [| done | done |].
  { apply (sm_hooks _ _ H). by exists p. }
  cbn [mbind result_bind]. eexists. split; [reflexivity |]. destruct H as [S1 S2 S3 S4 S5 S6]. split; try done; cbn.
  - unfold current. cbn. fold (current s). by rewrite Ec, S4.
  - intros i. destruct (decide (i = running a)) as [-> |].
    + rewrite lookup_delete_eq, lookup_insert_eq. split; [by intros [] | by intros (x & [= <-] & ?)].
    + rewrite lookup_delete_ne, lookup_insert_ne by done. apply S6.
Qed.

Lemma enter_ok s a p :
  sim s a -> at_ a !! running a = Some AtUser -> has_hook p = true ->
  sim (goto (set_memory s (hook_new (memory s) (current s))) p) (vgoto a p).
Proof.
  intros H Hp Hh. pose proof (sim_current _ _ H) as Ec. rewrite Ec. destruct H as [S1 S2 S3 S4 S5 S6].
  assert (memory s !! running a = None) as Hnone.
  { destruct (memory s !! running a) as [h |] eqn:E; [| done]. destruct (proj1 (S6 (running a))) as (x & Hx & Hxh); [by exists h |].
    rewrite Hp in Hx. by injection Hx as <-. }
  split; try done; cbn.
  - by apply queues_new.
  - unfold current. cbn. fold (current s). by rewrite Ec, S4.
  - intros i. unfold hook_new. destruct (decide (i = running a)) as [-> |].
    + rewrite !lookup_insert_eq. split; [intros _; by exists p | by eexists].
    + rewrite !lookup_insert_ne by done. apply S6.
Qed.

Lemma suspend_ok s a : sim s a -> inv cap a -> stack a <> [] -> exists s', suspend s = Ok s' /\ sim s' (vsuspend a).
Proof.
  intros H Hi Hs. unfold suspend. rewrite (sim_current _ _ H), (proj2 (Z.eqb_neq _ _)) by (by rewrite (running_zero _ _ Hi)).
  eexists. split; [reflexivity |]. destruct H as [S1 S2 S3 S4 S5 S6]. split; try done. cbn. by rewrite S5.
Qed.

Lemma resume_ok s a id :
  sim s a -> id <> running a -> id <> 0 -> id ∉ stack a ->
  exists s', resume s id = Ok (bool_decide (is_Some (at_ a !! id)), s') /\ sim s' (if bool_decide (is_Some (at_ a !! id)) then vresume a id else a).
Proof.
  intros H Hne H0 Hs. unfold resume. rewrite (sim_current _ _ H), (proj2 (Z.eqb_neq _ _) Hne), (sm_stack _ _ H), (sm_pcs _ _ H).
  rewrite !bool_decide_false by done. case_bool_decide; eexists; (split; [reflexivity |]); [| done].
  destruct H as [S1 S2 S3 S4 S5 S6]. split; try done; cbn; by rewrite S5.
Qed.

Lemma resume_front_ok s a w id l :
  sim s a -> wq_rep (memory s) w (id :: l) -> is_Some (at_ a !! id) -> id ∉ stack a -> id <> 0 -> id <> running a ->
  exists s', resume_front s w = Ok s' /\ sim s' (vresume a id).
Proof.
  intros H Hw Hid Hs H0 Hne. unfold resume_front. rewrite (front_spec _ _ _ _ Hw). cbn [mbind result_bind].
  destruct (resume_ok s a id H Hne H0 Hs) as (s' & -> & Hsim). rewrite bool_decide_true in * by done. by exists s'.
Qed.

(** ** Steps *)

Definition step_to (r : result (system T * list (event T))) (b : view T * list (event T)) : Prop :=
  exists s', r = Ok (s', b.2) /\ sim s' b.1.

Lemma sim_with_items s a c q : sim s a -> buffer_rep c q -> c = set_buffer (chan s) (buf_ c) (r_ptr_ c) (w_ptr_ c) (data_size_ c) ->
  sim (set_chan s c) (with_items a q).
Proof. intros [S1 S2 S3 S4 S5 S6] Hb ->. split; try done; by destruct Hb. Qed.

Lemma push_round_ok s a v :
  sim s a -> inv cap a -> at_ a !! running a = Some (AtPush v) -> step_to (push_round s v) (vround dflt cap a).
Proof.
  intros H Hi Hp. unfold step_to, vround, push_round. rewrite Hp, (sim_full _ _ H), (sm_closed _ _ H).
  pose proof (not_reader _ _ _ Hi Hp ltac:(done)) as Hnr. destruct (is_closed a); [rewrite orb_true_r | rewrite orb_false_r].
  - destruct (unlink_writer_ok _ _ _ H Hp eq_refl Hnr) as (s1 & -> & H1). cbn [mbind result_bind].
    destruct (leave_ok _ _ (AtPush v) H1) as (s2 & -> & H2); [done | done | done | by intros [_ ?]%elem_of_without |].
    by exists s2.
  - destruct (vfull cap a) eqn:Ef.
    + destruct (link_writer_ok _ _ _ H Hi Hp) as (s1 & -> & H1). cbn [mbind result_bind].
      unfold suspend. rewrite (sim_current _ _ H1). change (running (with_writers a _)) with (running a).
      rewrite (proj2 (Z.eqb_neq _ _)) by (rewrite (running_zero _ _ Hi); by apply (running_coroutine _ _ _ Hi Hp)).
      eexists. split; [reflexivity |]. destruct H1 as [S1 S2 S3 S4 S5 S6]. split; try done; cbn; by rewrite S5.
    + destruct (push_impl_ok (chan s) (items a) v) as (buf & w & n & -> & Hb); [apply (iv_items _ _ Hi) | apply (sm_buffer _ _ H) | |].
      { unfold vfull in Ef. apply bool_decide_eq_false in Ef. pose proof (iv_items _ _ Hi). lia. }
      cbn [mbind result_bind]. pose proof (sim_with_items _ _ _ _ H Hb eq_refl) as H0.
      destruct (unlink_writer_ok _ _ (AtPush v) H0 Hp eq_refl Hnr) as (s1 & -> & H1). cbn [mbind result_bind].
      eexists. split; [reflexivity |]. by apply (sim_goto _ _ (AtPush v) AtPushed H1).
Qed.

Lemma pop_round_ok s a :
  sim s a -> inv cap a -> at_ a !! running a = Some AtPop -> step_to (pop_round dflt s) (vround dflt cap a).
Proof.
  intros H Hi Hp. unfold step_to, vround, pop_round. rewrite Hp, (sim_empty _ _ H), (sm_closed _ _ H).
  pose proof (not_writer _ _ _ Hi Hp eq_refl) as Hnw. pose proof (sm_buffer _ _ H) as Hbuf. destruct (items a) as [| v q] eqn:Eq.
  - rewrite bool_decide_true by done. destruct (is_closed a) eqn:Ecl; cbn [andb negb].
    + rewrite (pop_impl_empty _ Hbuf). cbn [mbind result_bind].
      assert (set_chan s (chan s) = s) as -> by (by destruct s).
      destruct (unlink_reader_ok _ _ _ H Hp eq_refl Hnw) as (s1 & -> & H1). cbn [mbind result_bind].
      eexists. split; [reflexivity |]. by apply (sim_goto _ _ AtPop _ H1).
    + destruct (link_reader_ok _ _ H Hi Hp) as (s1 & -> & H1). cbn [mbind result_bind].
      unfold suspend. rewrite (sim_current _ _ H1). change (running (with_readers a _)) with (running a).
      rewrite (proj2 (Z.eqb_neq _ _)) by (rewrite (running_zero _ _ Hi); by apply (running_coroutine _ _ _ Hi Hp)).
      eexists. split; [reflexivity |]. destruct H1 as [S1 S2 S3 S4 S5 S6]. split; try done; cbn; by rewrite S5.
  - rewrite bool_decide_false by done. cbn [andb].
    destruct (pop_impl_ok (chan s) v q) as (r & n & -> & Hb); [apply (iv_items _ _ Hi) | done |].
    cbn [mbind result_bind]. pose proof (sim_with_items _ _ _ _ H Hb eq_refl) as H0.
    destruct (unlink_reader_ok _ _ AtPop H0 Hp eq_refl Hnw) as (s1 & -> & H1). cbn [mbind result_bind].
    eexists. split; [reflexivity |]. by apply (sim_goto _ _ AtPop _ H1).
Qed.

(** The loops that wake others. *)
Lemma wake_reader_ok s a p r R :
  sim s a -> inv cap a -> at_ a !! running a = Some p -> p <> AtPop -> waiting_readers a = r :: R ->
  exists s', resume_front s (readers_ (chan s)) = Ok s' /\ sim s' (vresume a r).
Proof.
  intros H Hi Hp Hne Er. destruct (waiting_reader_resumable _ _ _ r Hi Hp Hne) as (Hat & ? & ? & ?); [rewrite Er; left |].
  eapply resume_front_ok; [done | | by eexists | done..]. rewrite <- Er. apply (qs_left _ _ _ _ _ (sm_queues _ _ H)).
Qed.

Lemma wake_writer_ok s a p w W :
  sim s a -> inv cap a -> at_ a !! running a = Some p -> in_push p = false -> waiting_writers a = w :: W ->
  exists s', resume_front s (writers_ (chan s)) = Ok s' /\ sim s' (vresume a w).
Proof.
  intros H Hi Hp Hne Ew. destruct (waiting_writer_resumable _ _ _ w Hi Hp Hne) as (v & Hat & ? & ? & ?); [rewrite Ew; left |].
  eapply resume_front_ok; [done | | by eexists | done..]. rewrite <- Ew. apply (qs_right _ _ _ _ _ (sm_queues _ _ H)).
Qed.

Lemma leave_round_ok s a p :
  sim s a -> inv cap a -> at_ a !! running a = Some p -> has_hook p = true -> p <> AtPop -> in_push p = false ->
  step_to (s' ← leave s; Ok (s', [])) (vgoto a AtUser, []).
Proof.
  intros H Hi Hp Hh H1 H2. destruct (leave_ok _ _ _ H Hp Hh) as (s' & -> & H'); [by eapply not_reader | by eapply not_writer |]. by exists s'.
Qed.

Lemma pushed_round_ok s a :
  sim s a -> inv cap a -> at_ a !! running a = Some AtPushed -> step_to (pushed_round s) (vround dflt cap a).
Proof.
  intros H Hi Hp. unfold vround, pushed_round. rewrite Hp, (sim_readers _ _ H), (sim_empty _ _ H).
  destruct (waiting_readers a) as [| r R] eqn:ER; [by eapply leave_round_ok |].
  destruct (items a) as [| v q]; [by eapply leave_round_ok |]. cbn.
  destruct (wake_reader_ok _ _ _ _ _ H Hi Hp ltac:(done) ER) as (s' & -> & H'). by exists s'.
Qed.

Lemma popped_round_ok s a r :
  sim s a -> inv cap a -> at_ a !! running a = Some (AtPopped r) -> step_to (popped_round s) (vround dflt cap a).
Proof.
  intros H Hi Hp. unfold vround, popped_round. rewrite Hp, (sim_writers _ _ H), (sim_full _ _ H).
  destruct (waiting_writers a) as [| w W] eqn:EW; [by eapply leave_round_ok |].
  destruct (vfull cap a); [by eapply leave_round_ok |]. cbn.
  destruct (wake_writer_ok _ _ _ _ _ H Hi Hp eq_refl EW) as (s' & -> & H'). by exists s'.
Qed.

Lemma close_readers_round_ok s a :
  sim s a -> inv cap a -> at_ a !! running a = Some AtCloseReaders -> step_to (close_readers_round s) (vround dflt cap a).
Proof.
  intros H Hi Hp. unfold vround, close_readers_round. rewrite Hp, (sim_readers _ _ H).
  destruct (waiting_readers a) as [| r R] eqn:ER; cbn.
  - eexists. split; [reflexivity |]. by apply (sim_goto _ _ AtCloseReaders).
  - destruct (wake_reader_ok _ _ _ _ _ H Hi Hp ltac:(done) ER) as (s' & -> & H'). by exists s'.
Qed.

Lemma close_writers_round_ok s a :
  sim s a -> inv cap a -> at_ a !! running a = Some AtCloseWriters -> step_to (close_writers_round s) (vround dflt cap a).
Proof.
  intros H Hi Hp. unfold vround, close_writers_round. rewrite Hp, (sim_writers _ _ H).
  destruct (waiting_writers a) as [| w W] eqn:EW; cbn.
  - eexists. split; [reflexivity |]. by apply (sim_goto _ _ AtCloseWriters).
  - destruct (wake_writer_ok _ _ _ _ _ H Hi Hp eq_refl EW) as (s' & -> & H'). by exists s'.
Qed.

Lemma round_ok s a p :
  sim s a -> inv cap a -> at_ a !! running a = Some p -> p <> AtUser -> step_to (round dflt s) (vround dflt cap a).
Proof.
  intros H Hi Hp Hu. unfold round. rewrite (sm_pcs _ _ H), (sim_current _ _ H), Hp. destruct p; [done | ..].
  - by apply push_round_ok.
  - by apply pushed_round_ok.
  - by apply pop_round_ok.
  - by eapply popped_round_ok.
  - by apply close_readers_round_ok.
  - by apply close_writers_round_ok.
Qed.

Lemma do_call_ok s a c :
  sim s a -> inv cap a -> at_ a !! running a = Some AtUser -> legal a c -> step_to (do_call s c) (vcall a c).
Proof.
  intros H Hi Hp Hl. pose proof (sim_current _ _ H) as Ec.
  assert (stack a <> [] -> (current s =? 0) = false) as H0 by (intros ?; rewrite Ec; apply Z.eqb_neq; by rewrite (running_zero _ _ Hi)).
  destruct c as [v | | | | | id | id |]; cbn [do_call vcall legal] in *.
  - unfold push. rewrite H0 by done. unfold full. cbn [goto set_memory chan]. fold (full (chan s)).
    rewrite (sim_full _ _ H), (sm_closed _ _ H), (wq_empty_spec _ _ _ (qs_right _ _ _ _ _ (sm_queues _ _ H))).
    assert (negb (vfull cap a) && negb (is_closed a) && negb (bool_decide (waiting_writers a = [])) = false) as ->.
    { pose proof (idle_writers _ _ _ Hi Hp ltac:(done) eq_refl) as [-> | [-> | E]]; [by rewrite andb_false_r | by rewrite andb_false_r |].
      unfold vfull. by rewrite bool_decide_true. }
    eexists. split; [reflexivity |]. by apply enter_ok.
  - unfold pop. rewrite H0 by done. eexists. split; [reflexivity |]. by apply enter_ok.
  - eexists. split; [reflexivity |]. unfold close. apply (sim_goto _ (with_closed a true) AtUser); [| done | done].
    destruct H as [[] S2 S3 S4 S5 S6]. by split.
  - destruct Hl as (Hcl & Er & Ew). unfold reopen, opened.
    rewrite (sm_closed _ _ H), Hcl, (wq_empty_spec _ _ _ (qs_right _ _ _ _ _ (sm_queues _ _ H))), (wq_empty_spec _ _ _ (qs_left _ _ _ _ _ (sm_queues _ _ H))), Er, Ew.
    eexists. split; [reflexivity |]. pose proof (proj1 (iv_items _ _ Hi)). destruct H as [[] S2 S3 S4 S5 S6]. split; try done.
    split; cbn; try done; [lia |]. unfold zlen. cbn. lia.
  - destruct (suspend_ok _ _ H Hi Hl) as (s' & -> & H'). by exists s'.
  - destruct (decide (id = running a)) as [-> | Hne].
    + unfold resume. rewrite Ec, Z.eqb_refl. cbn. rewrite bool_decide_false by (by intros []). by exists s.
    + destruct Hl as [? | [Hid Hs]]; [done |]. destruct (resume_ok _ _ id H Hne Hid Hs) as (s' & -> & H').
      exists s'. split; [done |]. by rewrite (bool_decide_true (id <> running a)) by done.
  - eexists. split; [reflexivity |]. destruct Hl as [Hid Hnone]. destruct H as [[] S2 S3 S4 S5 S6]. split; try done; cbn.
    + by rewrite S4.
    + intros i. rewrite S6. destruct (decide (i = id)) as [-> |]; [| by rewrite lookup_insert_ne].
      rewrite Hnone, lookup_insert_eq. split; [by intros (? & ? & ?) | by intros (? & [= <-] & ?)].
  - rewrite H0 by done. eexists. split; [reflexivity |]. rewrite Ec. destruct H as [[] S2 S3 S4 S5 S6]. split; try done; cbn.
    + by rewrite S4.
    + by rewrite S5.
    + intros i. rewrite S6. destruct (decide (i = running a)) as [-> |]; [| by rewrite lookup_delete_ne].
      rewrite lookup_delete_eq, Hp. split; [by intros (? & [= <-] & ?) | by intros (? & ? & ?)].
Qed.

Lemma running_somewhere (a : view T) : inv cap a -> is_Some (at_ a !! running a).
Proof.
  intros Hi. destruct (running_is a) as [Hin | ->]; [by apply (iv_active _ _ Hi) |]. destruct (iv_main _ _ Hi) as (p & -> & _). by eexists.
Qed.

Lemma channel_step_ok s a c : sim s a -> inv cap a -> legal_step a c -> step_to (step dflt s c) (vstep dflt cap a c).
Proof.
  intros H Hi Hl. destruct (running_somewhere _ Hi) as [p Hp]. unfold step, vstep. rewrite (sm_pcs _ _ H), (sim_current _ _ H), Hp.
  destruct p; [by apply do_call_ok, Hl | by eapply round_ok..].
Qed.

End Refine.
