(* ===== verification/ChannelRun.v ===== *)
(** * ChannelRun: the channel keeps what it promises

    Runs of any number of coroutines on a channel: values come out in the order they went in,
    nobody sleeps for nothing, and the loops of the channel get to the code of the client. *)

From S2P Require Import Prelude IndexList WaitersQueue Channel ChannelSpec ChannelRefine.

Section Run.
Context {T : Type} (dflt : T) (cap : Z).

(** ** What a channel is *)

(** A queue of at most [cap] values, and whether it is closed. A closed one takes no values, but
    gives what is left, and default values then; it is empty when it is opened again. *)
Inductive fifo : list T * bool -> list (event T) -> list T * bool -> Prop :=
| fifo_nil st : fifo st [] st
| fifo_pushed q v evs st : zlen q < cap -> fifo (q ++ [v], false) evs st -> fifo (q, false) (Pushed v :: evs) st
| fifo_threw q evs st : fifo (q, true) evs st -> fifo (q, true) (Threw :: evs) st
| fifo_popped v q b evs st : fifo (q, b) evs st -> fifo (v :: q, b) (Popped (v, true) :: evs) st
| fifo_popped_closed evs st : fifo ([], true) evs st -> fifo ([], true) (Popped (dflt, false) :: evs) st
| fifo_closed q b evs st : fifo (q, true) evs st -> fifo (q, b) (Closed :: evs) st
| fifo_reopened q evs st : fifo ([], false) evs st -> fifo (q, true) (Reopened :: evs) st.

Hint Constructors fifo : core.

Lemma fifo_app st evs st' evs' st'' : fifo st evs st' -> fifo st' evs' st'' -> fifo st (evs ++ evs') st''.
Proof. induction 1; cbn; auto. Qed.

(** What the buffer holds. *)
Definition contents (c : channel T) : list T :=
  map (fun i => default dflt (znth (buf_ c) ((r_ptr_ c + i) mod zlen (buf_ c)))) (seqZ 0 (data_size_ c)).

(** What the client must keep to: channels are for coroutines, a closed channel is reopened when
    nobody waits, and only coroutines that are not active are resumed, for whatever reason. *)
Definition may (s : system T) (c : call T) : Prop :=
  match c with
  | CallPush _ | CallPop | CallSuspend | CallReturn => chain s <> []
  | CallClose => True
  | CallReopen => closed_ (chan s) = true /\ wq_empty (readers_ (chan s)) = true /\ wq_empty (writers_ (chan s)) = true
  | CallResume id => id = current s \/ (id <> 0 /\ id ∉ chain s)
  | CallCreate id => 1 <= id < 2 ^ 32 /\ pcs s !! id = None
  end.

Definition allowed (s : system T) (c : call T) : Prop := pcs s !! current s = Some AtUser -> may s c.

(** States that coroutines reach on a channel of [n] cells, and what the channel did meanwhile. *)
Inductive reach (n : nat) : system T -> list (event T) -> Prop :=
| reach_init c : channel_new dflt n = Ok c -> reach n (system_init c) []
| reach_step s evs c s' ev : reach n s evs -> allowed s c -> step dflt s c = Ok (s', ev) -> reach n s' (evs ++ ev).

(** ** The view follows *)

Lemma vstep_fifo a c : inv cap a -> legal_step a c ->
  fifo (items a, is_closed a) (vstep dflt cap a c).2 (items (vstep dflt cap a c).1, is_closed (vstep dflt cap a c).1).
Proof.
  intros Hi Hl. unfold vstep. destruct (at_ a !! running a) as [p |] eqn:Hp.
  - pose proof (iv_items _ _ Hi) as [_ Hlen]. unfold vround. rewrite Hp. destruct p as [| v | | | r | |].
    + specialize (Hl Hp). destruct c; cbn; auto; [destruct Hl as [-> _]; auto |]. case_match; auto.
    + destruct (is_closed a) eqn:Ecl; [cbn; rewrite Ecl; auto |]. unfold vfull. case_bool_decide; cbn; rewrite Ecl; [auto |].
      constructor; [lia | auto].
    + destruct (waiting_readers a), (items a) eqn:E; cbn; rewrite ?E; auto.
    + destruct (items a) eqn:E; [destruct (is_closed a) eqn:Ecl |]; cbn; rewrite ?E, ?Ecl; auto.
    + destruct (waiting_writers a); [auto |]. destruct (vfull cap a); auto.
    + destruct (waiting_readers a); auto.
    + destruct (waiting_writers a); auto.
  - unfold vround. rewrite Hp. cbn. auto.
Qed.

Lemma allowed_legal s a c : sim cap s a -> allowed s c -> legal_step a c.
Proof.
  intros H Ha Hp. unfold allowed, may in Ha. rewrite (sm_pcs _ _ _ H), (sim_current _ _ _ H), (sm_stack _ _ _ H), (sm_closed _ _ _ H),
    (wq_empty_spec _ _ _ (qs_left _ _ _ _ _ (sm_queues _ _ _ H))), (wq_empty_spec _ _ _ (qs_right _ _ _ _ _ (sm_queues _ _ _ H))) in Ha.
  specialize (Ha Hp). destruct c; try exact Ha. cbn. by rewrite !bool_decide_eq_true in Ha.
Qed.

Lemma contents_ok c q : buffer_rep cap c q -> contents c = q.
Proof.
  intros [H1 H2 H3 H4 H5]. unfold contents. rewrite H1, H4. apply list_eq. intros i. rewrite list_lookup_fmap.
  destruct (decide (i < length q)%nat) as [Hi | Hi].
  - rewrite lookup_seqZ_lt by (unfold zlen; lia). cbn. rewrite H5 by (unfold zlen; lia). unfold znth. rewrite decide_True by lia.
    replace (Z.to_nat (0 + Z.of_nat i)) with i by lia. apply lookup_lt_is_Some_2 in Hi as [x ->]. done.
  - rewrite lookup_seqZ_ge by (unfold zlen; lia). symmetry. apply lookup_ge_None_2. lia.
Qed.

Definition view_init : view T := mk_view [] false [] [] {[ 0 := AtUser ]} [].

Lemma init_sim (n : nat) : cap = Z.of_nat n -> 0 < cap ->
  exists c, channel_new dflt n = Ok c /\ sim cap (system_init c) view_init.
Proof.
  intros E Hc. destruct n as [| n]; [lia |]. eexists. split; [reflexivity |].
  split; cbn; try done.
  - split; cbn; try done.
    + change (dflt :: replicate n dflt) with (replicate (S n) dflt). unfold zlen. rewrite length_replicate. lia.
    + intros i Hi. unfold zlen in Hi. cbn in Hi. lia.
  - split; [by apply wq_rep_nil; [| intros ??; rewrite lookup_empty] | by apply wq_rep_nil; [| intros ??; rewrite lookup_empty] | done |].
    intros i h. by rewrite lookup_empty.
  - intros i. rewrite lookup_empty. split; [by intros [] |]. intros (p & Hp & Hh).
    apply lookup_singleton_Some in Hp as [_ <-]. done.
Qed.

Lemma init_inv : 0 < cap < 2 ^ 64 -> inv cap view_init.
Proof.
  intros Hc. assert (forall i p, ({[ 0 := AtUser ]} : gmap Z (pc T)) !! i = Some p -> i = 0 /\ p = AtUser) as Hat.
  { intros i p [<- <-]%lookup_singleton_Some. done. }
  split; cbn; try done.
  - split; [done |]. unfold zlen. cbn. lia.
  - split; [constructor | apply not_elem_of_nil].
  - by exists AtUser.
  - intros i Hi. by apply not_elem_of_nil in Hi.
  - intros i [p [-> _]%Hat]. lia.
  - split; [constructor |]. intros i Hi. by apply not_elem_of_nil in Hi.
  - split; [constructor |]. intros i Hi. by apply not_elem_of_nil in Hi.
  - intros i [_ ?]%Hat. done.
  - intros i v [_ ?]%Hat. done.
  - intros i p [-> ->]%Hat. done.
  - by left.
  - right. by left.
  - right. by left.
Qed.

Definition follows (s : system T) (evs : list (event T)) : Prop :=
  exists a, sim cap s a /\ inv cap a /\ fifo ([], false) evs (items a, is_closed a).

Lemma step_follows s evs c :
  follows s evs -> allowed s c -> exists s' ev, step dflt s c = Ok (s', ev) /\ follows s' (evs ++ ev).
Proof.
  intros (a & Hs & Hi & Hf) Ha. pose proof (allowed_legal _ _ _ Hs Ha) as Hl.
  destruct (channel_step_ok dflt cap s a c Hs Hi Hl) as (s' & -> & Hs'). eexists _, _. split; [reflexivity |].
  eexists. split_and!; [exact Hs' | by apply vstep_inv | eapply fifo_app; [exact Hf | by apply vstep_fifo]].
Qed.

Lemma reach_follows (n : nat) s evs : cap = Z.of_nat n -> 0 < cap < 2 ^ 64 -> reach n s evs -> follows s evs.
Proof.
  intros E Hc. induction 1 as [c Ec | s evs c s' ev _ IH Ha Es].
  - destruct (init_sim n E) as (c' & Ec' & Hs); [lia |]. rewrite Ec in Ec'. injection Ec' as <-.
    exists view_init. split_and!; [done | by apply init_inv | constructor].
  - destruct (step_follows _ _ _ IH Ha) as (s1 & ev1 & E1 & H1). rewrite Es in E1. by injection E1 as -> ->.
Qed.

(** Rounds bring the client to run. *)
Lemma rounds_ok k s a :
  sim cap s a -> inv cap a -> quiet a -> (rank cap a <= k)%nat ->
  exists s' evs, rounds dflt k s = Ok (s', evs) /\ pcs s' !! current s' = Some AtUser.
Proof.
  revert s a. induction k as [| k IH]; intros s a Hs Hi Hq Hk; destruct (running_somewhere cap a Hi) as [p Hp];
    cbn [rounds]; rewrite (sm_pcs _ _ _ Hs), (sim_current _ _ _ Hs), Hp.
  - destruct p; [| pose proof (rank_decreases dflt cap a _ Hi Hq Hp ltac:(done)); lia ..].
    eexists _, _. split; [reflexivity |]. by rewrite (sm_pcs _ _ _ Hs), (sim_current _ _ _ Hs).
  - assert (p = AtUser \/ p <> AtUser) as [-> | Hu] by (destruct p; (by left) || by right).
    { eexists _, _. split; [reflexivity |]. by rewrite (sm_pcs _ _ _ Hs), (sim_current _ _ _ Hs). }
    pose proof (rank_decreases dflt cap a p Hi Hq Hp Hu) as Hd. destruct (round_ok dflt cap s a p Hs Hi Hp Hu) as (s1 & E1 & H1).
    destruct (IH s1 _ H1 (vround_inv dflt cap a p Hi Hp Hu) (quiet_round dflt cap a p Hq Hp)) as (s2 & evs & E2 & H2); [lia |].
    exists s2, ((vround dflt cap a).2 ++ evs). split; [| done]. destruct p; [done | rewrite E1; cbn [mbind result_bind]; by rewrite E2..].
Qed.

End Run.

(** Playing calls that the client may do. *)
#[export] Instance may_dec {T} (s : system T) c : Decision (may s c).
Proof. destruct c; apply _. Defined.

#[export] Instance allowed_dec {T} (s : system T) c : Decision (allowed s c).
Proof.
  destruct (decide (may s c)) as [Hm | Hm]; [by left; intros _ |]. unfold allowed.
  destruct (pcs s !! current s) as [[] |]; [right; intros H; by apply Hm, H | left; congruence ..].
Defined.

Fixpoint play {T} (dflt : T) (s : system T) (cs : list (call T)) : result (system T * list (event T)) :=
  match cs with
  | [] => Ok (s, [])
  | c :: cs =>
      if decide (allowed s c) then '(s, ev) ← step dflt s c; '(s, evs) ← play dflt s cs; Ok (s, ev ++ evs) else Fail Undefined
  end.

Lemma play_reach {T} (dflt : T) n cs s evs s' evs' :
  reach dflt n s evs -> play dflt s cs = Ok (s', evs') -> reach dflt n s' (evs ++ evs').
Proof.
  revert s evs evs'. induction cs as [| c cs IH]; intros s evs evs' Hr; cbn [play].
  - intros [= <- <-]. by rewrite app_nil_r.
  - case_decide as Ha; [| done]. destruct (step dflt s c) as [[s1 ev] |] eqn:E1; [| done]. cbn [mbind result_bind].
    destruct (play dflt s1 cs) as [[s2 evs2] |] eqn:E2; [| done]. cbn. intros [= <- <-]. rewrite app_assoc.
    eapply IH; [| done]. by econstructor.
Qed.

Definition play_all {T} (dflt : T) (n : nat) (cs : list (call T)) : result (system T * list (event T)) :=
  c ← channel_new dflt n; play dflt (system_init c) cs.

Lemma play_all_reach {T} (dflt : T) n cs s evs : play_all dflt n cs = Ok (s, evs) -> reach dflt n s evs.
Proof.
  unfold play_all. destruct (channel_new dflt n) as [c |] eqn:E; [| done]. cbn [mbind result_bind]. intros Hp.
  change evs with ([] ++ evs). eapply play_reach; [by constructor | done].
Qed.

(** A reader waits, a writer gives it a value and fills the only cell, and waits with the next value. *)
Definition ping_pong_calls : list (call Z) :=
  [CallCreate 1; CallCreate 2; CallResume 1; CallPop; CallSuspend; CallResume 2; CallPush 7; CallSuspend; CallSuspend;
   CallSuspend; CallPop; CallSuspend; CallSuspend; CallPush 8; CallSuspend; CallSuspend; CallPush 9; CallSuspend].

Definition state_after (n : nat) (cs : list (call Z)) : system Z :=
  match play_all 0 n cs with Ok (s, _) => s | Fail _ => mk_system (mk_channel [] 0 0 0 (mk_wq 0 0 0 0) (mk_wq 0 0 0 0) false) ∅ ∅ [] end.

Lemma ping_pong_reach : reach 0 1 (state_after 1 ping_pong_calls) [Pushed 7; Popped (7, true); Pushed 8].
Proof. apply (play_all_reach 0 1 ping_pong_calls). vm_compute. reflexivity. Qed.

Lemma ping_pong_woken : reach 0 1 (state_after 1 (take 10 ping_pong_calls)) [Pushed 7; Popped (7, true)].
Proof. apply (play_all_reach 0 1 (take 10 ping_pong_calls)). vm_compute. reflexivity. Qed.

(** No [close] is at its loops. *)
Definition closing {T} (p : pc T) : bool := match p with AtCloseReaders | AtCloseWriters => true | _ => false end.
Definition no_close_under_way {T} (s : system T) : Prop := map_Forall (fun _ p => closing p = false) (pcs s).

(** Whoever waits, waits for something. *)
Definition nobody_idle {T} (s : system T) : Prop :=
  if closed_ (chan s) then no_close_under_way s -> forall i v, pcs s !! i <> Some AtPop /\ pcs s !! i <> Some (AtPush v)
  else forall i, (pcs s !! i = Some AtPop -> empty (chan s) = true) /\ (forall v, pcs s !! i = Some (AtPush v) -> full (chan s) = true).

Lemma follows_wakes {T} (dflt : T) cap s evs :
  follows dflt cap s evs -> pcs s !! current s = Some AtUser -> nobody_idle s.
Proof.
  intros (a & Hs & Hi & _). unfold nobody_idle, no_close_under_way.
  rewrite (sm_pcs _ _ _ Hs), (sim_current _ _ _ Hs), (sm_closed _ _ _ Hs), (sim_empty _ _ _ Hs), (sim_full _ _ _ Hs).
  intros Hp. assert (forall i, at_ a !! i = Some AtPop -> i ∈ waiting_readers a) as Hpop.
  { intros i Hat. destruct (iv_pop _ _ Hi i Hat) as [-> | [_ ?]]; [congruence | done]. }
  assert (forall i v, at_ a !! i = Some (AtPush v) -> i ∈ waiting_writers a) as Hpush.
  { intros i v Hat. destruct (iv_push _ _ Hi i v Hat) as [-> | [_ ?]]; [congruence | done]. }
  destruct (is_closed a) eqn:Ecl.
  - intros Hno. assert (waiting_readers a = [] /\ waiting_writers a = []) as [Er Ew].
    { destruct (iv_closing _ _ Hi Ecl) as [? | [[i H] | [_ [i H]]]]; [done | by apply Hno in H..]. }
    intros i v. split; [intros H%Hpop; rewrite Er in H | intros H%Hpush; rewrite Ew in H]; by apply not_elem_of_nil in H.
  - intros i. split; [intros H%Hpop | intros v H%Hpush]; [rewrite bool_decide_eq_true | unfold vfull; rewrite bool_decide_eq_true].
    + destruct (idle_readers _ _ _ Hi Hp) as [? | [E | ?]]; [done | done | congruence | | done]. rewrite E in H. by apply not_elem_of_nil in H.
    + destruct (idle_writers _ _ _ Hi Hp) as [? | [E | ?]]; [done | done | congruence | | done]. rewrite E in H. by apply not_elem_of_nil in H.
Qed.

Lemma follows_progress {T} (dflt : T) cap s evs :
  follows dflt cap s evs -> closed_ (chan s) = true \/ no_close_under_way s ->
  exists s' evs', rounds dflt 5 s = Ok (s', evs') /\ pcs s' !! current s' = Some AtUser.
Proof.
  intros (a & Hs & Hi & _) Hq. eapply rounds_ok; [exact Hs | exact Hi | | apply rank_bound].
  unfold quiet. rewrite (sm_closed _ _ _ Hs) in Hq. destruct Hq as [? | Hq]; [by left | right]. intros i. rewrite <- (sm_pcs _ _ _ Hs).
  split; intros H; by apply Hq in H.
Qed.


