(* ===== verification/ChannelScheduler.v ===== *)
(** * ChannelScheduler: a channel runs on the ordinator

    [Channel] has only the stack of the coroutines that resumed each other. This file shows that
    what its steps do with the stack is a sequence of legal operations of the scheduler, so that
    [OrdinatorOps.ordinator_refines] holds for a program that uses channels. *)

From S2P Require Import Prelude IndexList WaitersQueue Ordinator OrdinatorSpec OrdinatorOps Channel.

Lemma bind_Ok {A B} (m : result A) (k : A -> result B) b : m ≫= k = Ok b -> exists a, m = Ok a /\ k a = Ok b.
Proof. destruct m; [by eexists | done]. Qed.

Section Scheduler.
Context {T : Type} (dflt : T).
Implicit Types (s : system T) (a : sched).

(** The system and the scheduler agree on the stack and on the coroutines that there are; nothing
    is deferred, for channels defer nothing. *)
Record hosts (a : sched) (s : system T) : Prop := {
  ho_stack : Channel.chain s = (OrdinatorSpec.chain a).*1;
  ho_user : Forall (fun p => p.2 = KUser) (OrdinatorSpec.chain a);
  ho_flushing : flushing a = None;
  ho_deferred : deferred_ids a = [];
  ho_live : forall i, is_Some (pcs s !! i) <-> i = 0 \/ i ∈ fresh a \/ i ∈ started a }.

Definition stays s s' : Prop :=
  Channel.chain s' = Channel.chain s /\ forall i, is_Some (pcs s' !! i) <-> is_Some (pcs s !! i).

Lemma stays_refl s : stays s s.
Proof. done. Qed.

Lemma stays_trans s1 s2 s3 : stays s1 s2 -> stays s2 s3 -> stays s1 s3.
Proof. intros [E1 H1] [E2 H2]. split; [congruence |]. intros i. by rewrite H2, H1. Qed.

Lemma hosts_stays a s s' : hosts a s -> stays s s' -> hosts a s'.
Proof. intros [H1 H2 H3 H4 H5] [E H]. split; try done; [congruence |]. intros i. by rewrite H, H5. Qed.

Lemma hosts_current a s : hosts a s -> Channel.current s = running_id a.
Proof. intros H. unfold Channel.current, running_id. by rewrite (ho_stack _ _ H). Qed.

Lemma hosts_running a s : wf a -> hosts a s -> is_Some (pcs s !! Channel.current s).
Proof.
  intros Hw H. rewrite (ho_live _ _ H), (hosts_current _ _ H). unfold running_id.
  destruct (OrdinatorSpec.chain a).*1 as [| x l] eqn:E; [by left |]. right. right. apply (wf_started _ Hw). rewrite E. left.
Qed.

Lemma stays_goto s p : is_Some (pcs s !! Channel.current s) -> stays s (goto s p).
Proof.
  intros H. split; [done |]. intros i. cbn. destruct (decide (i = Channel.current s)) as [-> | Hi].
  - by rewrite lookup_insert_eq.
  - by rewrite lookup_insert_ne.
Qed.

(** The hooks and the queues are nothing to the scheduler. *)
Ltac peel := repeat match goal with
  | H : mbind _ _ = Ok _ |- _ => apply bind_Ok in H as (? & ? & H)
  | H : (let '(_, _) := ?p in _) = Ok _ |- _ => destruct p
  | H : Ok _ = Ok _ |- _ => injection H as; subst
  end.

Lemma stays_link_writer s s' : link_writer s = Ok s' -> stays s s'.
Proof. unfold link_writer. intros H. peel. destruct (linked _); peel; done. Qed.
Lemma stays_unlink_writer s s' : unlink_writer s = Ok s' -> stays s s'.
Proof. unfold unlink_writer. intros H. peel. destruct (linked _); peel; done. Qed.
Lemma stays_link_reader s s' : link_reader s = Ok s' -> stays s s'.
Proof. unfold link_reader. intros H. peel. destruct (linked _); peel; done. Qed.
Lemma stays_unlink_reader s s' : unlink_reader s = Ok s' -> stays s s'.
Proof. unfold unlink_reader. intros H. peel. destruct (linked _); peel; done. Qed.

Definition live s : Prop := is_Some (pcs s !! Channel.current s).

Lemma live_stays s s' : stays s s' -> live s -> live s'.
Proof. intros [E H] Hl. unfold live, Channel.current in *. rewrite E. by apply H. Qed.

Lemma stays_leave s s' : live s -> leave s = Ok s' -> stays s s'.
Proof. unfold leave. intros Hl H. peel. by apply (stays_goto (set_memory s _)). Qed.

(** What a step does with the stack. *)
Inductive moves s s' : Prop :=
| moves_not : stays s s' -> moves s s'
| moves_suspend s1 : stays s s1 -> suspend s1 = Ok s' -> moves s s'
| moves_resume s1 id : stays s s1 -> Channel.resume s1 id = Ok (true, s') -> moves s s'.

Lemma moves_front s w s' : resume_front s w = Ok s' -> moves s s'.
Proof. unfold resume_front. intros H. peel. destruct b; peel; [| done]. by eapply moves_resume; [apply stays_refl |]. Qed.

Lemma round_moves s s' ev : live s -> round dflt s = Ok (s', ev) -> moves s s'.
Proof.
  intros Hl. unfold round. destruct (pcs s !! Channel.current s) as [[| obj | | | r | |] |]; [done | ..| done].
  - unfold push_round. intros H. destruct (full (chan s) || closed_ (chan s)); [destruct (closed_ (chan s)) |]; peel.
    + apply moves_not. pose proof (stays_unlink_writer _ _ H0) as H2.
      eapply stays_trans; [exact H2 | eapply stays_leave; [by eapply live_stays | done]].
    + eapply moves_suspend; [by apply stays_link_writer | done].
    + apply moves_not. pose proof (stays_unlink_writer _ _ H1) as H2. eapply stays_trans; [exact H2 |].
      apply stays_goto. by eapply live_stays.
  - unfold pushed_round. intros H. destruct (negb _ && _); peel; [by eapply moves_front | by apply moves_not, stays_leave].
  - unfold pop_round. intros H. destruct (empty (chan s) && _); peel.
    + eapply moves_suspend; [by apply stays_link_reader | done].
    + apply moves_not. pose proof (stays_unlink_reader _ _ H1) as H2. eapply stays_trans; [exact H2 |].
      apply stays_goto. by eapply live_stays.
  - unfold popped_round. intros H. destruct (negb _ && _); peel; [by eapply moves_front | by apply moves_not, stays_leave].
  - unfold close_readers_round. intros H. destruct (negb _); peel; [by eapply moves_front | by apply moves_not, stays_goto].
  - unfold close_writers_round. intros H. destruct (negb _); peel; [by eapply moves_front | by apply moves_not, stays_goto].
Qed.

(** ** The operations of the scheduler *)

Lemma hosts_suspend a s s' : hosts a s -> suspend s = Ok s' -> legal a OpSuspend /\ hosts (spec_op a OpSuspend) s'.
Proof.
  intros H. unfold suspend. rewrite (hosts_current _ _ H). unfold running_id.
  destruct H as [H1 H2 H3 H4 H5]. unfold spec_op, spec_back, legal. destruct (OrdinatorSpec.chain a) as [| [x k] rest] eqn:E; [done |].
  cbn. destruct (x =? 0); [done |]. intros [= <-]. apply Forall_cons in H2 as [Hk H2]. cbn in Hk. subst k. split; [done |].
  split; cbn; try done. by rewrite H1.
Qed.

Lemma hosts_resume a s id s' : wf a -> hosts a s -> Channel.resume s id = Ok (true, s') ->
  legal a (OpResume id) /\ hosts (spec_op a (OpResume id)) s'.
Proof.
  intros Hw H. unfold Channel.resume. rewrite (hosts_current _ _ H). cbn. unfold spec_resume.
  destruct (Z.eqb_spec id (running_id a)) as [E | Hne]; [intros [= <-]; rewrite bool_decide_true by done; by split; [left |] |].
  case_bool_decide as H0; [done |]. case_bool_decide as Hch; [done |]. case_bool_decide as Hl; [| done]. intros [= <-].
  rewrite (ho_stack _ _ H) in Hch. apply (ho_live _ _ H) in Hl as [? | Hl]; [done |].
  assert (id ∉ free a) as Hf.
  { intros Hf. destruct Hl as [Hl | Hl]; [by apply (wf_fresh _ Hw) in Hl as [] | by apply (wf_free _ Hw) in Hf]. }
  rewrite !bool_decide_false by done. split.
  - right. right. destruct Hl as [Hl | Hl]; [by left | right]. split; [by split | rewrite (ho_deferred _ _ H); apply not_elem_of_nil].
  - destruct H as [H1 H2 H3 H4 H5]. split; cbn; try done; [by rewrite H1 | by constructor |].
    intros i. rewrite H5, elem_of_difference, elem_of_union, elem_of_singleton. destruct (decide (i = id)) as [-> |]; naive_solver.
Qed.

Lemma hosts_create a s id p : hosts a s -> id = (spec_create a).1 -> hosts (spec_create a).2 (mk_system (chan s) (memory s) (<[id := p]> (pcs s)) (Channel.chain s)).
Proof.
  intros [H1 H2 H3 H4 H5] ->. unfold spec_create.
  destruct (free a) as [| id rest]; cbn [fst snd]; (split; cbn; try done; intros i; rewrite lookup_insert_is_Some, H5, elem_of_union, elem_of_singleton).
  - destruct (decide (i = count a + 1)); naive_solver.
  - destruct (decide (i = id)); naive_solver.
Qed.

(** The function of a coroutine returns: two steps of the scheduler, the second one at the empty
    list of deferred coroutines. *)
Lemma hosts_return a s : wf a -> hosts a s -> Channel.current s <> 0 ->
  legal a OpReturn /\
  hosts (spec_end (with_flush a (Some KEntry))) (mk_system (chan s) (memory s) (delete (Channel.current s) (pcs s)) (tail (Channel.chain s))).
Proof.
  intros Hw H Hc. rewrite (hosts_current _ _ H) in *. pose proof (wf_started _ Hw) as Hst. pose proof (wf_fresh _ Hw) as Hfr.
  destruct H as [H1 H2 H3 H4 H5]. unfold running_id in *. unfold spec_end, spec_back, with_flush, running_id, legal in *. cbn [OrdinatorSpec.chain].
  destruct (OrdinatorSpec.chain a) as [| [x k] rest] eqn:E; [done |]. cbn in *.
  apply Forall_cons in H2 as [Hk H2]. cbn in Hk. subst k. split; [done |]. split; cbn; try done; [by rewrite H1 |].
  intros i. rewrite lookup_delete_is_Some, H5, elem_of_difference, elem_of_singleton.
  assert (x ∈ started a) as Hx by (apply Hst; left). specialize (Hfr i). naive_solver.
Qed.

(** What the client must give: the ids are those of the scheduler, and its function [create] is
    used below its limit. *)
Definition served a (c : call T) : Prop :=
  match c with
  | CallCreate id => id = (spec_create a).1 /\ count a < 2 ^ 32 - 1
  | CallResume id => 1 <= id <= count a
  | _ => True
  end.

Definition done_by a (ops : list op) s : Prop := legal_steps a ops /\ hosts (foldl spec_step a ops) s.

Lemma done_by_one a p s : flushing a = None -> legal a p -> hosts (spec_op a p) s -> done_by a [p] s.
Proof. intros Hf Hl Hs. unfold done_by, legal_steps, legal_step, foldl, spec_step. rewrite Hf. done. Qed.

Lemma moves_done a s s' : wf a -> hosts a s -> moves s s' -> exists ops, done_by a ops s'.
Proof.
  intros Hw H [Hs | s1 Hs E | s1 id Hs E]; pose proof (hosts_stays _ _ _ H Hs) as H1.
  - by exists [].
  - destruct (hosts_suspend _ _ _ H1 E). exists [OpSuspend]. by apply done_by_one; [apply (ho_flushing _ _ H) | |].
  - destruct (hosts_resume _ _ _ _ Hw H1 E). exists [OpResume id]. by apply done_by_one; [apply (ho_flushing _ _ H) | |].
Qed.

Lemma resume_done a s id b s' : wf a -> hosts a s -> 1 <= id <= count a ->
  Channel.resume s id = Ok (b, s') -> exists ops, done_by a ops s'.
Proof.
  intros Hw H Hid E. destruct b; [by eapply moves_done; [| | eapply moves_resume; [apply stays_refl |]] |].
  exists []. unfold Channel.resume in E. destruct (id =? _); [done |]. do 3 (case_bool_decide; [done |]). by injection E as <-.
Qed.

Lemma call_done a s c s' ev : wf a -> hosts a s -> served a c -> do_call s c = Ok (s', ev) -> exists ops, done_by a ops s'.
Proof.
  intros Hw H Hc E. pose proof (hosts_running _ _ Hw H) as Hl. pose proof (ho_flushing _ _ H) as Hf.
  destruct c as [obj | | | | | id | id |]; cbn in E.
  - unfold push in E. peel. destruct (_ =? 0); [done |]. destruct (_ && _); [done |]. peel.
    eapply moves_done; [done.. |]. apply moves_not. by apply (stays_goto (set_memory s _)).
  - unfold pop in E. peel. destruct (_ =? 0); [done |]. peel.
    eapply moves_done; [done.. |]. apply moves_not. by apply (stays_goto (set_memory s _)).
  - peel. eapply moves_done; [done.. |]. apply moves_not. by apply (stays_goto (set_chan s _)).
  - unfold reopen in E. peel. destruct (opened _); [done |]. do 2 (destruct (negb _); [done |]). peel.
    by eapply moves_done; [.. | apply moves_not].
  - peel. by eapply moves_done; [.. | eapply moves_suspend; [apply stays_refl |]].
  - peel. by eapply resume_done.
  - peel. destruct Hc as [-> Hn]. exists [OpCreate k_default_stack_limit]. apply done_by_one; [done | by split |]. by apply hosts_create.
  - destruct (Z.eqb_spec (Channel.current s) 0) as [| Hc0]; [done |]. peel. destruct (hosts_return a s Hw H Hc0) as [Hlg Hh].
    exists [OpReturn; OpFlush]. unfold done_by. cbn [legal_steps foldl]. unfold legal_step.
    assert (spec_step a OpReturn = with_flush a (Some KEntry)) as -> by (unfold spec_step; by rewrite Hf).
    unfold spec_step, spec_flush. cbn [with_flush flushing deferred_ids]. rewrite (ho_deferred _ _ H). done.
Qed.

Lemma step_done a s c s' ev :
  wf a -> hosts a s -> (pcs s !! Channel.current s = Some AtUser -> served a c) -> step dflt s c = Ok (s', ev) ->
  exists ops, done_by a ops s'.
Proof.
  intros Hw H Hc E. unfold step in E. pose proof (hosts_running _ _ Hw H) as Hl.
  destruct (pcs s !! Channel.current s) as [p |] eqn:Hp; [| by destruct Hl].
  assert (live s) as Hlv by (unfold live; by rewrite Hp). destruct p; [by eapply call_done; [.. | exact E]; auto |..];
    (eapply moves_done; [done | done | by eapply round_moves]).
Qed.

(** ** Programs with channels *)

(** States that legal operations of the scheduler lead to, with the machine that runs them. *)
Definition hosted s : Prop :=
  exists ops m, let a := foldl spec_step sched_init ops in
    hosts a s /\ legal_steps sched_init ops /\ foldl run_op (Ok (machine_with false [])) ops = Ok m /\ rep m a.

Lemma hosted_of ops s : legal_steps sched_init ops -> hosts (foldl spec_step sched_init ops) s -> hosted s.
Proof.
  intros Hl Hh. destruct (run_ok ops _ _ (rep_init false []) Hl) as (m & E & Hr & _). by exists ops, m.
Qed.

Lemma hosted_init c : hosted (system_init c).
Proof.
  apply (hosted_of []); [done |]. split; cbn; try done. intros i. destruct (decide (i = 0)) as [-> | Hi].
  - split; [by left | by eexists].
  - rewrite lookup_singleton_ne by done. split; [by intros [] |]. intros [? | [?%elem_of_empty | ?%elem_of_empty]]; done.
Qed.

Lemma legal_steps_app a ops ops' : legal_steps a ops -> legal_steps (foldl spec_step a ops) ops' -> legal_steps a (ops ++ ops').
Proof. revert a. induction ops as [| p ops IH]; intros a; cbn; [done |]. intros [Hp Hl] H'. split; [done |]. by apply IH. Qed.

(** A step of a program with a channel is some steps of the ordinator, which go well and leave
    the same coroutine running. *)
Lemma hosted_step s c s' ev :
  hosted s -> (forall a, hosts a s -> pcs s !! Channel.current s = Some AtUser -> served a c) -> step dflt s c = Ok (s', ev) ->
  hosted s'.
Proof.
  intros (ops & m & Hh & Hl & _ & Hr) Hc E. cbn zeta in *.
  destruct (step_done _ s c s' ev (rp_wf _ _ Hr) Hh (Hc _ Hh) E) as (ops' & Hl' & Hh').
  apply (hosted_of (ops ++ ops')); [by apply legal_steps_app | by rewrite foldl_app].
Qed.

Lemma hosted_current s : hosted s -> exists ops m, foldl run_op (Ok (machine_with false [])) ops = Ok m /\
  current_ (ord m) = Channel.current s /\ running m = Channel.current s.
Proof.
  intros (ops & m & Hh & _ & E & [_ Hl Hc _]). exists ops, m. rewrite (hosts_current _ _ Hh). split; [done |].
  split; [apply (lk_current _ _ Hl) | apply (cr_current _ _ _ Hc)].
Qed.

End Scheduler.
